(* ===== verification/_CoqProject ===== *)
-Q . S2P
Prelude.v
Bytes.v
Codec.v
Tools.v
Layout.v
LayoutGeometry.v
LayoutRoutes.v
LayoutValidate.v
Memory.v
Slot.v
Mapping.v
Publish.v
Reader.v
Ring.v
Limits.v
Manifest.v
ManifestTheory.v
Negotiation.v
NegotiationCodec.v
NegotiationTheory.v
NegotiationDecision.v
Control.v
Liveness.v
Reaper.v
Native.v
Resources.v
Region.v
Active.v
Batch.v
Dispatcher.v
DispatcherTheory.v
Expected.v
Transfer.v
Platforms.v
ActivationTheory.v
CoordinatorTheory.v
ReceiverTheory.v
TransferTheory.v
Handshake.v
HandshakeTheory.v
HandshakeClaims.v
Session.v
SessionTheory.v
SupervisorWire.v
SupervisorCodec.v
Supervisor.v
SupervisorAuth.v
SupervisorPolicy.v
SupervisorExample.v
BrokerReport.v
BrokerPlan.v
BrokerCodec.v
LauncherCodec.v
BrokerReportTheory.v
Watchdog.v
WatchdogGuards.v
WatchdogSteps.v
WatchdogInv.v
WatchdogTheory.v
WatchdogMethods.v
WatchdogDelivery.v
WatchdogSystem.v
WatchdogClaims.v
AuthWire.v
AuthPool.v
AuthHistory.v
AuthPoolTheory.v
AuthPoolSystem.v
AuthPipe.v
MachMessage.v
MachTheory.v
SpawnReply.v
Child.v
ChildTheory.v
ChildClaims.v
BrokerControl.v
BrokerHandover.v
Launcher.v
LauncherTheory.v
LauncherClaims.v
