(* ===== verification/Prelude.v ===== *)
(** * native-ipc: a verification development

    native-ipc moves data between a coordinator process and the receiver it
    spawns, through shared memory that neither side trusts the other to use
    correctly. The program has two layers.

    - [native-ipc-core] (crates/native-ipc-core/src) has no I/O: a bounded
      message codec ([codec.rs]), the layout of a set of shared regions
      ([layout.rs]), the atomic slot and acknowledgement records in them
      ([slot.rs]), and regions bound to native mappings ([mapping.rs]). Each
      region has one writer; a slot carries one payload, the reader copies it
      out while the writer may be misbehaving, and the writer reuses the slot
      only after the reader's acknowledgement, which lives in a region the
      reader owns.
    - [native-ipc] (crates/native-ipc/src) establishes a session: HELLO, ACCEPT
      and REJECT ([negotiation.rs]) under finite limits ([session.rs]), ordered
      application control ([control.rs]), manifests and phase frames of native
      transfers ([protocol.rs]), the ledger of active mappings ([liveness.rs]),
      and the native backends below it ([backend/]).

    ** Files

    - [Prelude.v] (this file): outcomes of Rust code, methods on [&mut self],
      machine integers, slices, sorting, little-endian integers; tactics [ulia],
      [rinv], [bsplit], [by_cuts] and the hint database [nipc].
    - [Bytes.v]: the [put_uN] and [get_uN] helpers each source file declares,
      and reads through chains of writes ([rd], [rw_slice], [app_slice]).
    - [Codec.v]: [codec.rs]. The user's [Protocol] trait is a class with its
      law; theorems: round trip, canonical and total decoding, the decode
      budget, relative ranges.
    - [Tools.v]: searching a sorted list by halving, parsers that accept exactly
      what a writer produces, weakest preconditions for methods on [&mut self].
    - [Layout.v]: the definitions of [layout.rs]. [LayoutGeometry.v]: alignment,
      record ranges, the header codec. [LayoutRoutes.v]: topologies, the
      bijection between slots and acknowledgement cells, binary search.
      [LayoutValidate.v]: validation accepts exactly the encoded images.
    - [Memory.v]: what a mapping offers, the classes [Loads] and [Stores], with
      three instances: the sole writer's own bytes; a peer's mapping whose bytes
      are an arbitrary history, read at a clock that advances with every load;
      and a mapping that records the writes of the code that runs on it.
    - [Slot.v], [Mapping.v]: [slot.rs] and [mapping.rs] over those classes.
      [Publish.v]: the writer on its own bytes. [Reader.v]: the reader against
      an arbitrary history. [Ring.v]: writer and reader as a step relation; a
      publication is [WriterRegion_publish] run on a recording mapping, whose writes
      then reach the region one at a time, between the reader's accesses;
      delivery by rule induction.
    - [Limits.v]: session limits of [session.rs]; negotiation is their meet.
    - [Manifest.v], [ManifestTheory.v]: [protocol.rs].
    - [Negotiation.v]: the definitions of [negotiation.rs].
      [NegotiationCodec.v], [NegotiationTheory.v]: the wire format, both
      encoders, the decoder. [NegotiationDecision.v]: the digest preimage, the
      reduction of two HELLOs, the decision state machine under every sequence
      of operations.
    - [Control.v]: [control.rs]; ordered delivery over a channel that drops,
      repeats and reorders.
    - [Liveness.v]: [liveness.rs]; the owner's operations, one step per atomic
      access, interleaved with lease destructors.
    - [Reaper.v]: [backend/reaper_ownership.rs]; the same for reaper owners.
    - [Native.v]: [backend/mod.rs]: identities, evidence, session parameters,
      deadlines, the traits of the native transports as classes, and [Traced],
      a transport with the log of what passes it.
    - [Resources.v]: the methods of the ledger as a caller sees them (each run
      to its end), reservations of whole batches; [balanced] ties the counters
      to the charges held.
    - [Region.v]: [memory.rs] and [region.rs] over an abstract platform memory.
      [Active.v]: [active.rs] and [binding.rs]. [Batch.v]: [batch.rs].
    - [Dispatcher.v]: the accepted session of [backend/accepted_control.rs] and
      its native transactions. [DispatcherTheory.v]: the dispatcher refines an
      abstract machine with three modes, open, in a transaction, dead.
    - [Expected.v]: receiver expectations and page rounding of the three
      platforms' [memory.rs].
    - [Transfer.v]: the capacity exchange, the capability transaction of both
      roles, activation, [transfer_batch] and [receive_batch], for any
      [Platform]; [Platforms.v]: the methods of each platform, and triples for
      code that exchanges a fixed sequence of records. [ActivationTheory.v],
      [CoordinatorTheory.v], [ReceiverTheory.v]: what they do;
      [TransferTheory.v]: the claims, and a run of both sides.
    - [Handshake.v]: the negotiating sessions of the three backends
      ([linux_vnext/spawn.rs], [macos_vnext/session.rs],
      [windows_vnext/session.rs]) over one protocol and a record of what differs
      between them. [HandshakeTheory.v]: what the decisions establish on a
      transcript; [HandshakeClaims.v]: both ends of a whole handshake.
    - [Session.v]: the public API of [session.rs], its construction, decisions,
      operations and ends on both sides for each target, and the bootstrap of a
      Linux receiver. [SessionTheory.v]: what it promises.
    - [SupervisorWire.v], [SupervisorCodec.v]: the records between a client and
      the macOS supervisor ([backend/macos/supervisor.rs]). [Supervisor.v]: both
      ends of a connection ([supervisor_client.rs]), and policies.
      [SupervisorAuth.v]: the handshake under every sequence of messages.
      [SupervisorPolicy.v]: admission by the installed catalog.
      [SupervisorExample.v]: one handshake.
    - [BrokerPlan.v], [BrokerCodec.v], [LauncherCodec.v]:
      [supervisor_broker_plan.rs], the plan that service, broker and launcher
      pass along. [BrokerReport.v], [BrokerReportTheory.v]:
      [supervisor_broker_report.rs], the report that comes back in pieces.
    - [Watchdog.v], [WatchdogGuards.v]: [supervisor_watchdog.rs], the table of
      sessions and the guards on one. [WatchdogSteps.v], [WatchdogInv.v]: the
      abstract machine of a table and its invariant; [WatchdogTheory.v],
      [WatchdogMethods.v], [WatchdogDelivery.v], [WatchdogSystem.v]: the methods
      as steps of it; [WatchdogClaims.v]: the claims.
    - [AuthWire.v]: the frames of authentication workers. [AuthPool.v]: the
      pool of workers and their pipes ([supervisor_auth_adapter.rs]).
      [AuthHistory.v], [AuthPoolTheory.v], [AuthPoolSystem.v]: its invariants
      under every sequence of calls; [AuthPipe.v]: a result that arrives in
      pieces, and the claims.
    - [MachMessage.v], [MachTheory.v]: the service's Mach port, one received
      message at a time, and the one-shot reply.
    - [SpawnReply.v]: routing an authenticated record, and a spawn from its
      record to the staged plan.
    - [Child.v], [ChildTheory.v], [ChildClaims.v]: the authorities over the
      service's children ([supervisor_auth_adapter.rs],
      [supervisor_broker_spawn.rs]) over a scripted kernel.
    - [BrokerControl.v], [BrokerHandover.v]: the plan on the control stream, from
      the service ([supervisor_broker_spawn.rs]) to its dormant broker
      ([supervisor_broker_entry.rs]), and the activation of the broker.
    - [Launcher.v]: the child the broker traces ([supervisor_broker_launcher.rs]),
      and the part of the broker's process that owns it. [LauncherTheory.v]: an
      automaton of what may be done to a traced child, and the methods against
      it; [LauncherClaims.v]: signature, report and commit, the claims, and a
      whole launch.
    ** How the code is represented

    A function that returns [Result] returns [res E A]: [Ok], [Err], or [Panic]
    for the abnormal exits of safe Rust, so that a theorem that a function is
    not [Panic] is a theorem that it does not panic. A function that returns
    [Option] and has no other exit is an [option], or a [res unit] where it
    also indexes. A method on [&mut self], or a function writing through
    [&mut [u8]], is [stm S E A], which returns the state in every case. An
    integer is a [Z] with its width as [u8] .. [u128]; checked, wrapping and
    unchecked arithmetic are written out. A byte string is a [list byte]; an
    out-of-range index is [Panic]. Structs are records, enums inductive types;
    the names are the source's, prefixed by the type where Rust would qualify
    them. [usize] has 64 bits: the crate compiles for no other width.

    Loops are structural recursion over the lists they traverse ([rfor], and
    fixpoints); the binary search of [Layout.v] has as fuel the length of the
    searched list, which [acknowledgement_route_correct] shows to be enough;
    the owner's operations in [Liveness.v] take at most six steps
    ([owner_terminates]), and [Resources.v] runs each method for its number of
    steps; the page walk of [Active.v] has as fuel the number of pages that can
    be touched, which [prefault_exact] shows to be enough; a receiver's wait in
    [Session.v] has as fuel its number of polls, and [receiver_wait_returns]
    shows how many are enough for a deadline. Loops that wait for
    the kernel (reads, writes, waits, receives) are recursion over a script of
    what the kernel will answer; a theorem over every script is a theorem over
    every finite behaviour, and where the script ends the file says what comes
    after it. Where a loop has no script of its own ([verify_signature] of
    [Launcher.v]) the reads of the gate it begins each turn with bound it
    ([result_turns], [completion_turns]). No other definition has fuel.

    Parameters stand for what is not in the repository: SHA-256 ([Sha256]), the
    build target ([Platform]), whether an allocation succeeds ([Allocator]), the
    user's protocol ([Codec.v]), the contents of a peer's mapping ([Memory.v]),
    the clock and the native transports ([Native.v]), platform memory
    ([Region.v]), the answer of the page size query ([Expected.v]), the native
    memory of a batch ([Transfer.v]: [NativeBatch] and [ImportedBatch], of which
    the theorems assume only that no operation exits abnormally), the uptime
    clock ([Supervisor.v]: [UptimeClock]), the authority over a child and the
    prepared reply of the watchdog ([Watchdog.v]: [ExactBrokerAuthority],
    [NonblockingReadySend]; [SendLaws]: a prepared send returns;
    [AuthorityLaws]: an authority stands for the same child after a call, which
    the broker's own does, [Broker_laws] of [ChildTheory.v]), the authority over
    a worker ([AuthPool.v]: [ExactAuthWorkerAuthority]), the credentials in an audit
    token ([MachMessage.v]: [AuditTokens]), the native side of a handshake
    ([Handshake.v]: [LinuxNative], [MacNative], [WindowsNative] and [Process]),
    the process environment and the descriptor queries of a receiver that starts
    ([Session.v]: [PreinitNative]). What a theorem needs of the last two is a
    class of laws: channels that deliver ([Reliable], [ReliableOwner]) or that
    are only observed ([Logged], [LoggedOwner]), a clock that does not run
    backwards ([SteadyClock]). Who owns the child of a coordinator is a log kept
    beside any natives ([SessionTheory.v]: [Tracked]), without laws. Streams,
    pipes, Mach ports and children are scripts of what the kernel and the peer
    will do.
    Theorems hold for every instance, and their witnesses give concrete ones.

    [std::process::abort] is [Panic]. Both authority traits demand it of an
    implementation that cannot reap. The theorems about the watchdog therefore
    say which event ended the process ([AuthorityAborted], or [BorrowConflict]: a
    commit guard that the service held on an entry that had to change) and that
    every child was accounted for up to then; those about the worker pool, that
    no call aborts unless an authority does.

    Atomics interleave sequentially: one atomic access is one step, and every
    interleaving of steps is considered. For the slot protocol the history of a
    peer's mapping is arbitrary where the peer is hostile, and produced by the
    writer's steps in program order where it is honest, which is what the
    Release and Acquire orderings of the source provide.

    ** What the theorems show

    Data path: a copy made between a publication and its acknowledgement returns
    exactly the payload published, in every interleaving ([ring_delivery]); a publication
    succeeds exactly under its documented conditions and touches only its slot
    ([publish_exact], [publish_confined]); against a hostile peer a reader never
    panics and returns only bytes that were in the payload range, under
    metadata observed before and after ([copy_payload_hostile]). Layout: what
    is encoded validates and only that does, records never overlap, routes are
    a bijection. Codecs (messages, layout headers, negotiation, manifests,
    control): round trip, totality on arbitrary bytes, one accepted encoding
    per value. Session: facts are released once, after exactly the bilateral
    ACCEPT, and both ends hold the same; limits are a meet; control records
    arrive in order or the session is poisoned. Two honest ends over channels
    that deliver reach the same outcome whatever each decides
    ([negotiation_completes]); over any channel, two ends that both accepted
    hold the same session ([accepted_sessions_agree]). A child that was obtained
    stays with the session or is ended and its end reported
    ([child_owner_accounted]), a session closes exactly
    when nothing is leased and its child was reaped ([session_close_exact]), the limits
    of a child are applied as asked or refused before a child exists
    ([limits_never_weakened]), a receiver takes its inherited descriptor exactly
    when it was designated, and once ([receiver_bootstrap_exact]), and its wait
    returns ([receiver_wait_returns]). Concurrency: lease counters are
    exact under every interleaving, a session closes only when nothing is
    leased, only the last reaper owner latches termination.

    An accepted session behaves as a machine with three modes whatever its
    transport does ([dispatcher_refines]), and the records it exchanges are
    exactly those its caller was told of ([session_stream]). Transfers: a batch
    is always a canonical manifest ([batch_manifest_exact]); a receiver accepts
    exactly the manifest it expects ([expectation_exact]); on each platform a
    transfer follows the protocol to its end and charges exactly what it
    announces, or gives every charge back, on both sides ([transfer_atomic],
    [receive_atomic]); when a receiver reports success the coordinator has
    committed the same manifest ([transfer_agreement]).

    macOS supervision. A connection authenticates one client and accepts one
    spawn ([connection_single_spawn], [client_single_spawn],
    [handshake_completes]), which the catalog admits exactly when a definition
    allows it ([admission_exact]). A message at the service's port is destroyed
    or becomes the record its audit trailer vouches for
    ([message_kept_or_destroyed]), and is then dispatched or its reply right
    released ([message_dispatched_or_released]); what a worker pool
    authenticates is what it dispatched, judged by the worker it dispatched it
    to, cleanly exited ([authentication_sound], [auth_pool_well_formed],
    [result_pipe_exact], [auth_frames_canonical]); what an admitted client asked
    for is what is staged ([spawn_staged_exactly]) and what is launched
    ([broker_chain_agreement], [report_received]). The watchdog accounts for
    every child ([children_accounted], [shutdown_reaps_every_child]) and tells
    the client of a session only when it is committed ([delivery_exact],
    [ready_only_after_reply]); an authority never uses a process identifier that
    is no longer its child's ([child_pid_pinned]) and cleans up or aborts
    ([cleanup_reaps]). When the service is told of an acknowledgement its broker
    holds the plan it sent ([plan_handed_over]), and acts on it after exactly one
    start byte ([active_after_start]). The broker resumes a target only when
    launcher, [execve], signature, report and commit are all proven
    ([target_runs_once_proven]), makes no call on its child that it may not make
    then and leaves nothing of it behind ([child_never_lost]); dropping the
    authority returns ([drop_returns]).
    ** A divergence and a defect

    A comment in [from_bootstrap] has the macOS receiver's report of invalid input
    match the Linux one. For a payload that the options allow and no HELLO can
    carry they differ: Linux reports a poisoned session in negotiation, macOS a
    session that was never established ([oversized_bootstrap_diverges]).

    On macOS a native spawn that cannot resume its suspended child fails with the
    error of a spawn that made none ([bootstrap.rs], [SpawnedHelper]), and the session
    reports that no child was created; [child_owner_accounted] shows that the
    session passes on what the native spawn tells.

    ** Not modelled

    System calls on descriptors, sections and processes in the native backends
    ([backend/linux*], [macos*], [windows*]) stay behind the classes named
    above: sealing and mapping of memory, packets with their descriptors, Mach
    messages, pipes and jobs. So do the creation of a process and the adoption of
    its descriptors: what is modelled of a process begins when its channels are
    its own. A model of that code would be a model of three kernels, whose source
    is not in the repository. The one-direction transactions of
    [accepted_control.rs] that only its tests reach are left out, as are test
    hooks, [Display] implementations and field getters, and in [session.rs] the
    macOS and Windows look-up of the bootstrap in the environment. *)

From stdpp Require Export base list numbers decidable sets.
From Stdlib Require Export ZArith Lia Strings.Byte Sorting.Sorted.

#[global] Open Scope Z_scope.

(** ** Outcomes of Rust code

    [Ok]/[Err] are the two constructors of [Result]; [Panic] stands for the
    abnormal exits of safe Rust (slice index out of range, [expect] on [None],
    arithmetic overflow of an unchecked operator, [unreachable!]). *)

Inductive res (E A : Type) : Type :=
| Ok (a : A)
| Err (e : E)
| Panic.
Arguments Ok {E A} a.
Arguments Err {E A} e.
Arguments Panic {E A}.

Definition rbind {E A B} (m : res E A) (k : A -> res E B) : res E B :=
  match m with
  | Ok a => k a
  | Err e => Err e
  | Panic => Panic
  end.

(** [map_err]: the error conversion of the [?] operator and of
    [Result::map_err]. *)
Definition map_err {E F A} (f : E -> F) (m : res E A) : res F A :=
  match m with
  | Ok a => Ok a
  | Err e => Err (f e)
  | Panic => Panic
  end.

(** [Option::ok_or]. *)
Definition ok_or {E A} (o : option A) (e : E) : res E A :=
  match o with
  | Some a => Ok a
  | None => Err e
  end.

(** [Option::expect] and [Option::unwrap]. *)
Definition expect {E A} (o : option A) : res E A :=
  match o with
  | Some a => Ok a
  | None => Panic
  end.

Declare Scope rust_scope.
Delimit Scope rust_scope with rust.
Notation "'let?' x := m 'in' k" := (rbind m (fun x => k))
  (at level 10, x pattern, m at level 100, k at level 200,
   format "'let?'  x  :=  m  'in' '//' k") : rust_scope.
Notation "m '>>?' k" := (rbind m (fun _ => k))
  (at level 100, right associativity, k at level 200, format "m  '>>?' '//' k") : rust_scope.
#[global] Open Scope rust_scope.

(** ** Code with a mutable receiver

    A method on [&mut self] (or writing through [&mut [u8]]) keeps the writes
    it made before an early [return Err(..)], so the state is returned beside
    the outcome in every case. *)

Definition stm (S E A : Type) : Type := S -> res E A * S.

Definition sret {S E A} (a : A) : stm S E A := fun s => (Ok a, s).
Definition serr {S E A} (e : E) : stm S E A := fun s => (Err e, s).
Definition slift {S E A} (m : res E A) : stm S E A := fun s => (m, s).
Definition sget {S E} : stm S E S := fun s => (Ok s, s).
Definition sput {S E} (s' : S) : stm S E unit := fun _ => (Ok tt, s').
Definition smodify {S E} (f : S -> S) : stm S E unit := fun s => (Ok tt, f s).
Definition sbind {S E A B} (m : stm S E A) (k : A -> stm S E B) : stm S E B :=
  fun s => match m s with
           | (Ok a, s') => k a s'
           | (Err e, s') => (Err e, s')
           | (Panic, s') => (Panic, s')
           end.

Notation "'let!' x := m 'in' k" := (sbind m (fun x => k))
  (at level 10, x pattern, m at level 100, k at level 200,
   format "'let!'  x  :=  m  'in' '//' k") : rust_scope.
Notation "m '>>!' k" := (sbind m (fun _ => k))
  (at level 100, right associativity, k at level 200, format "m  '>>!' '//' k") : rust_scope.

(** [map_err] and the [From] conversion of [?] in code with a receiver. *)
Definition smap_err {S E F A} (f : E -> F) (m : stm S E A) : stm S F A :=
  fun s => let '(r, s') := m s in (map_err f r, s').

(** A [for] loop whose body updates [s] and may leave early. *)
Fixpoint rfor {E A S} (l : list A) (f : A -> S -> res E S) (s : S) : res E S :=
  match l with
  | [] => Ok s
  | x :: l => rbind (f x s) (rfor l f)
  end.

(** [Vec::try_reserve_exact]: whether an allocation of [n] elements succeeds is
    the environment's choice. *)
Class Allocator := try_reserve_exact : Z -> bool.

(** ** Machine integers

    A [w]-bit unsigned integer is a [Z] with [fits U.._MAX]; the supported
    targets are all 64-bit, so [usize] is [u64] wide. *)

Definition U8_MAX : Z := 255.
Definition U16_MAX : Z := 65535.
Definition U32_MAX : Z := 4294967295.
Definition U64_MAX : Z := 18446744073709551615.
Definition U128_MAX : Z := 340282366920938463463374607431768211455.
Definition USIZE_MAX : Z := U64_MAX.

Definition fits (m z : Z) : Prop := 0 <= z <= m.
Abbreviation u8 := (fits U8_MAX).
Abbreviation u16 := (fits U16_MAX).
Abbreviation u32 := (fits U32_MAX).
Abbreviation u64 := (fits U64_MAX).
Abbreviation u128 := (fits U128_MAX).
Abbreviation usize := (fits USIZE_MAX).

Definition fitsb (m z : Z) : bool := (0 <=? z) && (z <=? m).

(** [checked_add], [checked_mul], [checked_sub] at the width whose maximum is
    [m], and [uN::try_from]. *)
Definition checked_add (m a b : Z) : option Z :=
  if a + b <=? m then Some (a + b) else None.
Definition checked_mul (m a b : Z) : option Z :=
  if a * b <=? m then Some (a * b) else None.
Definition checked_sub (a b : Z) : option Z :=
  if b <=? a then Some (a - b) else None.
Definition try_from (m a : Z) : option Z :=
  if fitsb m a then Some a else None.

(** The unchecked operators: a debug build panics on overflow, so [Panic]
    covers every input on which a release build would wrap. *)
Definition uadd {E} (m a b : Z) : res E Z := expect (checked_add m a b).
Definition umul {E} (m a b : Z) : res E Z := expect (checked_mul m a b).
Definition usub {E} (a b : Z) : res E Z := expect (checked_sub a b).

(** ** Slices *)

Abbreviation bytes := (list byte).

Definition len {A} (l : list A) : Z := Z.of_nat (length l).

Definition slice {A} (l : list A) (a b : Z) : list A :=
  take (Z.to_nat (b - a)) (drop (Z.to_nat a) l).

(** [splice l o s]: [l] with [s] written at offset [o]; every use below is
    guarded by a range check, and outside its range the list is unchanged, so
    that the length never changes. *)
Definition splice {A} (l : list A) (o : Z) (s : list A) : list A :=
  if (0 <=? o) && (o + len s <=? len l)
  then take (Z.to_nat o) l ++ s ++ drop (Z.to_nat (o + len s)) l
  else l.

Definition in_range {A} (l : list A) (a b : Z) : bool :=
  (0 <=? a) && (a <=? b) && (b <=? len l).

(** [&bytes[a..b]]. *)
Definition index_range {E A} (l : list A) (a b : Z) : res E (list A) :=
  if in_range l a b then Ok (slice l a b) else Panic.

(** [bytes[a..b].copy_from_slice(s)]. *)
Definition copy_range {E A} (l : list A) (a b : Z) (s : list A) : res E (list A) :=
  if in_range l a b && (len s =? b - a) then Ok (splice l a s) else Panic.

(** A state update that may fail or panic: the state is unchanged then. *)
Definition supdate {S E} (f : S -> res E S) : stm S E unit :=
  fun s => match f s with
           | Ok s' => (Ok tt, s')
           | Err e => (Err e, s)
           | Panic => (Panic, s)
           end.

(** Code that runs on the sub-slice [&mut bytes[a..b]] of its buffer. *)
Definition on_range {E A T} (a b : Z) (f : stm (list T) E A) : stm (list T) E A :=
  fun d => if in_range d a b
           then let '(r, s) := f (slice d a b) in (r, splice d a s)
           else (Panic, d).

Definition zeros (n : Z) : bytes := replicate (Z.to_nat n) x00.

(** [bytes[a..b].fill(0)]. *)
Definition fill_zero {E} (l : bytes) (a b : Z) : res E bytes :=
  copy_range l a b (zeros (b - a)).

#[export] Instance byte_eq_decision : EqDecision byte := Byte.byte_eq_dec.

(** [bytes.iter().any(|byte| *byte != 0)]. *)
Definition any_nonzero (l : bytes) : bool := existsb (fun b => negb (Byte.eqb b x00)) l.

(** ** Sorting

    [sort_unstable_by_key]: the lists the code sorts have distinct keys (it
    rejects duplicates right after), so that every sorting algorithm returns
    the same list; insertion sort is one. *)

Section SortBy.
Context {A : Type} (leb : A -> A -> bool).

Fixpoint insert_by (x : A) (l : list A) : list A :=
  match l with
  | [] => [x]
  | y :: l' => if leb x y then x :: l else y :: insert_by x l'
  end.

Fixpoint sort_by (l : list A) : list A :=
  match l with
  | [] => []
  | x :: l => insert_by x (sort_by l)
  end.

End SortBy.

(** ** Little-endian integers *)

Definition Z_of_byte (b : byte) : Z := Z.of_N (Byte.to_N b).
Definition byte_of_Z (z : Z) : byte :=
  default x00 (Byte.of_N (Z.to_N (z mod 256))).

Fixpoint le_bytes (n : nat) (z : Z) : bytes :=
  match n with
  | O => []
  | S n => byte_of_Z z :: le_bytes n (z / 256)
  end.

Fixpoint le_val (l : bytes) : Z :=
  match l with
  | [] => 0
  | b :: l => Z_of_byte b + 256 * le_val l
  end.

(** ** Automation *)

Create HintDb nipc.

(** [ulia]: linear arithmetic after unfolding the width bounds. *)
Ltac ulia :=
  cbv [fits fitsb U8_MAX U16_MAX U32_MAX U64_MAX U128_MAX USIZE_MAX] in *; lia.

(** [rinv H]: peel the monadic structure of a hypothesis [m = Ok _]. *)
Ltac rinv_step H :=
  lazymatch type of H with
  | rbind ?m _ = _ => let E := fresh "E" in destruct m eqn:E; simpl in H; try discriminate H
  | Ok _ = Ok _ => injection H as H; try subst
  | (if ?b then _ else _) = _ => let E := fresh "E" in destruct b eqn:E; try discriminate H
  | match ?o with _ => _ end = _ => let E := fresh "E" in destruct o eqn:E; try discriminate H
  end.
Ltac rinv H := repeat rinv_step H.

(** [bsplit]: turn boolean guards in the context into propositions. *)
Ltac bsplit_hyp H :=
  lazymatch type of H with
  | (_ && _) = true => let H' := fresh H in apply andb_prop in H; destruct H as [H H']
  | (_ || _) = false => let H' := fresh H in apply orb_false_elim in H; destruct H as [H H']
  | negb _ = true => apply negb_true_iff in H
  | negb _ = false => apply negb_false_iff in H
  | (_ =? _) = true => apply Z.eqb_eq in H
  | (_ =? _) = false => apply Z.eqb_neq in H
  | (_ <=? _) = true => apply Z.leb_le in H
  | (_ <=? _) = false => apply Z.leb_gt in H
  | (_ <? _) = true => apply Z.ltb_lt in H
  | (_ <? _) = false => apply Z.ltb_ge in H
  | bool_decide _ = true => apply bool_decide_eq_true in H
  | bool_decide _ = false => apply bool_decide_eq_false in H
  end.
Ltac bsplit :=
  repeat match goal with
         | H : _ = true |- _ => progress bsplit_hyp H
         | H : _ = false |- _ => progress bsplit_hyp H
         end.

(** ** Checked arithmetic *)

Lemma checked_add_Some m a b c : checked_add m a b = Some c <-> c = a + b /\ a + b <= m.
Proof. unfold checked_add. destruct (Z.leb_spec (a + b) m); naive_solver lia. Qed.

Lemma checked_mul_Some m a b c : checked_mul m a b = Some c <-> c = a * b /\ a * b <= m.
Proof. unfold checked_mul. destruct (Z.leb_spec (a * b) m); naive_solver lia. Qed.

Lemma checked_sub_Some a b c : checked_sub a b = Some c <-> c = a - b /\ b <= a.
Proof. unfold checked_sub. destruct (Z.leb_spec b a); naive_solver lia. Qed.

Lemma checked_add_ok m a b : a + b <= m -> checked_add m a b = Some (a + b).
Proof. intros. now apply checked_add_Some. Qed.

Lemma checked_mul_ok m a b : a * b <= m -> checked_mul m a b = Some (a * b).
Proof. intros. now apply checked_mul_Some. Qed.

Lemma checked_sub_ok a b : b <= a -> checked_sub a b = Some (a - b).
Proof. intros. now apply checked_sub_Some. Qed.

Lemma try_from_ok m a : fits m a -> try_from m a = Some a.
Proof. intros H. unfold try_from. destruct (fitsb m a) eqn:E; [done | ulia]. Qed.

Lemma try_from_Some m a b : try_from m a = Some b <-> b = a /\ fits m a.
Proof. unfold try_from. destruct (fitsb m a) eqn:E; unfold fitsb, fits in *; naive_solver lia. Qed.

Lemma ok_or_Ok {E A} (o : option A) (e : E) a : ok_or o e = Ok a <-> o = Some a.
Proof. destruct o; naive_solver. Qed.

(** Two products of machine integers that stay in a wider machine integer. *)
Lemma u32_mul_u64 a b : u32 a -> u32 b -> u64 (a * b).
Proof. ulia || (unfold fits, U32_MAX, U64_MAX; nia). Qed.
#[export] Hint Resolve u32_mul_u64 : nipc.

(** ** Loops *)

(** An invariant of a loop relates the elements already visited to the state. *)
Lemma rfor_inv {E A S} (I : list A -> S -> Prop) (f : A -> S -> res E S) l s0 s :
  I [] s0 ->
  (forall pre x s s', pre ++ [x] `prefix_of` l -> I pre s -> f x s = Ok s' -> I (pre ++ [x]) s') ->
  rfor l f s0 = Ok s -> I l s.
Proof.
  intros H0 Hstep.
  enough (forall pre post s, l = pre ++ post -> I pre s ->
            forall s', rfor post f s = Ok s' -> I l s') as HI
    by (intros; now eapply (HI [] l s0)).
  intros pre post. revert pre. induction post as [|x post IH]; intros pre s1 Hl Hp s2; simpl.
  - intros [= <-]. rewrite app_nil_r in Hl. now subst.
  - destruct (f x s1) as [s'| |] eqn:Hf; simpl; try discriminate.
    apply (IH (pre ++ [x])).
    + now rewrite Hl, <- app_assoc.
    + apply Hstep with s1; try done. exists post. now rewrite Hl, <- app_assoc.
Qed.

(** A loop whose body never fails. *)
Lemma rfor_total {E A S} (P : S -> Prop) (f : A -> S -> res E S) l s :
  P s -> (forall x s, x ∈ l -> P s -> exists s', f x s = Ok s' /\ P s') ->
  exists s', rfor l f s = Ok s' /\ P s'.
Proof.
  revert s. induction l as [|x l IH]; intros s Hs Hf; simpl; [eauto|].
  destruct (Hf x s) as (s' & -> & Hs'); [set_solver|done|]. simpl.
  apply IH; [done|]. intros. apply Hf; [set_solver|done].
Qed.

(** A loop does not panic when its body does not on the states it reaches. *)
Lemma rfor_no_panic {E A S} (P : S -> Prop) (f : A -> S -> res E S) l s :
  P s -> (forall x s, x ∈ l -> P s -> f x s <> Panic /\ forall s', f x s = Ok s' -> P s') ->
  rfor l f s <> Panic.
Proof.
  revert s. induction l as [|x l IH]; intros s Hs Hf; simpl; [done|].
  destruct (Hf x s) as [Hp Ho]; [set_solver|done|].
  destruct (f x s) as [s'| |] eqn:Hx; simpl; try done.
  apply IH; [auto|]. intros. apply Hf; [set_solver|done].
Qed.

(** A loop of checks succeeds exactly when every check does. *)
Lemma rfor_checks {E A} (f : A -> unit -> res E unit) l :
  rfor l f tt = Ok tt <-> forall x, x ∈ l -> f x tt = Ok tt.
Proof.
  induction l as [|x l IH]; simpl; [split; [intros _ x Hx; set_solver|done]|].
  split.
  - destruct (f x tt) as [[]| |] eqn:Hx; simpl; try discriminate.
    rewrite IH. intros H y [->|Hy]%elem_of_cons; auto.
  - intros H. rewrite (H x) by set_solver. simpl. apply IH. intros. apply H. set_solver.
Qed.

(** ** Sorting *)

Section SortByLemmas.
Context {A : Type} (leb : A -> A -> bool).

Lemma insert_by_perm x l : insert_by leb x l ≡ₚ x :: l.
Proof.
  induction l as [|y l IH]; simpl; [done|]. destruct (leb x y); [done|].
  rewrite IH. apply Permutation_swap.
Qed.

Lemma sort_by_perm l : sort_by leb l ≡ₚ l.
Proof. induction l as [|x l IH]; simpl; [done|]. now rewrite insert_by_perm, IH. Qed.

Context (P : A -> Prop)
  (leb_total : forall x y, P x -> P y -> leb x y = false -> leb y x = true)
  (leb_trans : forall x y z, P x -> P y -> P z -> leb x y = true -> leb y z = true -> leb x z = true).

Lemma insert_by_sorted x l :
  P x -> Forall P l -> StronglySorted (fun a b => leb a b = true) l ->
  StronglySorted (fun a b => leb a b = true) (insert_by leb x l).
Proof.
  intros Hx Hl Hs. induction Hs as [|y l Hs IH Hy]; simpl; [repeat constructor|].
  inversion Hl as [|? ? HPy HPl]; subst. destruct (leb x y) eqn:E.
  - repeat constructor; try done. rewrite Forall_forall in Hy, HPl |- *. intros z Hz.
    apply leb_trans with y; auto.
  - constructor; [auto|]. rewrite Forall_forall in Hy |- *. intros z Hz.
    rewrite insert_by_perm in Hz. apply elem_of_cons in Hz as [->|Hz]; auto.
Qed.

Lemma sort_by_sorted l :
  Forall P l -> StronglySorted (fun a b => leb a b = true) (sort_by leb l).
Proof.
  induction 1 as [|x l Hx Hl IH]; simpl; [constructor|].
  apply insert_by_sorted; try done. now rewrite sort_by_perm.
Qed.

End SortByLemmas.

(** ** Slices and splices *)

Section Slices.
Context {A : Type}.
Implicit Types l s : list A.

Lemma len_nonneg l : 0 <= len l.
Proof. unfold len. lia. Qed.

Lemma len_app l s : len (l ++ s) = len l + len s.
Proof. unfold len. rewrite length_app. lia. Qed.

Lemma len_slice l a b : 0 <= a <= b -> b <= len l -> len (slice l a b) = b - a.
Proof. unfold len, slice. intros. rewrite length_take, length_drop. lia. Qed.

Lemma len_splice l o s : len (splice l o s) = len l.
Proof.
  unfold splice. destruct ((0 <=? o) && (o + len s <=? len l)) eqn:E; [|done]. bsplit.
  unfold len in *. rewrite !length_app, length_take, length_drop. unfold len. lia.
Qed.

Lemma lookup_slice l a b i :
  0 <= a <= b ->
  slice l a b !! i = if decide (Z.of_nat i < b - a) then l !! (Z.to_nat a + i)%nat else None.
Proof.
  intros. unfold slice. case_decide.
  - rewrite lookup_take_lt by lia. apply lookup_drop.
  - apply lookup_take_ge. lia.
Qed.

Lemma lookup_splice l o s i :
  0 <= o -> o + len s <= len l ->
  splice l o s !! i =
    if decide (o <= Z.of_nat i < o + len s) then s !! (i - Z.to_nat o)%nat else l !! i.
Proof.
  unfold splice. intros Ho Hl.
  rewrite (proj2 (Z.leb_le _ _) Ho), (proj2 (Z.leb_le _ _) Hl). simpl. unfold len in *.
  assert (Ht : length (take (Z.to_nat o) l) = Z.to_nat o) by (rewrite length_take; lia).
  destruct (decide (Z.of_nat i < o)).
  - rewrite decide_False by lia. rewrite lookup_app_l by lia. apply lookup_take_lt. lia.
  - rewrite lookup_app_r by lia. rewrite Ht. case_decide.
    + apply lookup_app_l. lia.
    + rewrite lookup_app_r by lia. rewrite lookup_drop. unfold len. f_equal. lia.
Qed.

Lemma slice_splice_eq l o s a b :
  a = o -> b = o + len s -> 0 <= o -> o + len s <= len l -> slice (splice l o s) a b = s.
Proof.
  intros -> -> Ho Hl. pose proof (len_nonneg s).
  apply list_eq. intros i. rewrite lookup_slice by lia.
  case_decide as Hi.
  - rewrite lookup_splice by lia. rewrite decide_True by lia. f_equal. lia.
  - symmetry. apply lookup_ge_None. unfold len in *. lia.
Qed.

Lemma slice_splice_disjoint l o s a b :
  0 <= a <= b -> b <= o \/ o + len s <= a -> slice (splice l o s) a b = slice l a b.
Proof.
  intros Hab Hd.
  destruct (decide (0 <= o /\ o + len s <= len l)) as [[Ho Hl]|Hn].
  - apply list_eq. intros i. rewrite !lookup_slice by lia. case_decide; [|done].
    rewrite lookup_splice by lia. rewrite decide_False by lia. done.
  - unfold splice. destruct ((0 <=? o) && (o + len s <=? len l)) eqn:E; [|done].
    bsplit. lia.
Qed.

Lemma slice_slice l a b c d :
  0 <= a <= b -> 0 <= c <= d -> a + d <= b -> slice (slice l a b) c d = slice l (a + c) (a + d).
Proof.
  intros. apply list_eq. intros i. rewrite !lookup_slice by lia.
  destruct (decide (Z.of_nat i < d - c)).
  - rewrite decide_True by lia. rewrite decide_True by lia. f_equal. lia.
  - rewrite decide_False by lia. done.
Qed.

Lemma slice_cat l a b c : 0 <= a <= b -> b <= c -> slice l a b ++ slice l b c = slice l a c.
Proof.
  intros. unfold slice.
  replace (Z.to_nat (c - a)) with (Z.to_nat (b - a) + Z.to_nat (c - b))%nat by lia.
  rewrite <- take_take_drop, drop_drop. do 3 f_equal. lia.
Qed.

Lemma slice_full l a b : a = 0 -> b = len l -> slice l a b = l.
Proof. intros -> ->. unfold slice, len. simpl. apply take_ge. lia. Qed.

Lemma slice_nil l a b : b <= a -> slice l a b = [].
Proof. intros. unfold slice. replace (Z.to_nat (b - a)) with 0%nat by lia. done. Qed.

Lemma slice_app_l l s a b : 0 <= a <= b -> b <= len l -> slice (l ++ s) a b = slice l a b.
Proof.
  intros. apply list_eq. intros i. rewrite !lookup_slice by lia. case_decide; [|done].
  apply lookup_app_l. unfold len in *. lia.
Qed.

Lemma slice_app_r l s a b :
  len l <= a <= b -> slice (l ++ s) a b = slice s (a - len l) (b - len l).
Proof.
  intros. pose proof (len_nonneg l). apply list_eq. intros i. rewrite !lookup_slice by lia.
  replace (b - len l - (a - len l)) with (b - a) by lia. case_decide; [|done].
  rewrite lookup_app_r by (unfold len in *; lia). f_equal. unfold len in *. lia.
Qed.

Lemma splice_full l o s : o = 0 -> len s = len l -> splice l o s = s.
Proof.
  intros -> H. unfold splice. rewrite Z.add_0_l, H, (Z.leb_refl (len l)). simpl.
  rewrite drop_ge by (unfold len in *; lia). apply app_nil_r.
Qed.

Lemma index_range_ok {E} l a b :
  0 <= a <= b -> b <= len l -> index_range (E := E) l a b = Ok (slice l a b).
Proof. intros. unfold index_range, in_range. repeat case_match; try done; lia. Qed.

Lemma index_range_Ok {E} l a b s :
  index_range (E := E) l a b = Ok s <-> s = slice l a b /\ 0 <= a <= b /\ b <= len l.
Proof.
  unfold index_range. destruct (in_range l a b) eqn:R; unfold in_range in R.
  - bsplit. naive_solver lia.
  - split; [done|]. intros (_ & ? & ?).
    rewrite !andb_false_iff, !Z.leb_gt in R. lia.
Qed.

Lemma copy_range_ok {E} l a b s :
  0 <= a <= b -> b <= len l -> len s = b - a -> copy_range (E := E) l a b s = Ok (splice l a s).
Proof.
  intros. unfold copy_range, in_range.
  rewrite (proj2 (Z.leb_le 0 a)), (proj2 (Z.leb_le a b)), (proj2 (Z.leb_le b (len l))),
    (proj2 (Z.eqb_eq _ _)) by lia. done.
Qed.

End Slices.

#[export] Hint Resolve len_nonneg : nipc.

Lemma on_range_ok {E A T} a b (f : stm (list T) E A) d :
  0 <= a <= b -> b <= len d ->
  on_range a b f d = (fst (f (slice d a b)), splice d a (snd (f (slice d a b)))).
Proof.
  intros. unfold on_range, in_range.
  rewrite (proj2 (Z.leb_le 0 a)), (proj2 (Z.leb_le a b)), (proj2 (Z.leb_le b (len d))) by lia.
  simpl. now destruct (f (slice d a b)).
Qed.

Lemma supdate_ok {S E} (f : S -> res E S) s s' : f s = Ok s' -> supdate f s = (Ok tt, s').
Proof. unfold supdate. now intros ->. Qed.

Lemma sbind_Ok {S E A B} (m : stm S E A) (k : A -> stm S E B) s a s' :
  m s = (Ok a, s') -> sbind m k s = k a s'.
Proof. unfold sbind. now intros ->. Qed.

Lemma sbind_Err {S E A B} (m : stm S E A) (k : A -> stm S E B) s e s' :
  m s = (Err e, s') -> sbind m k s = (Err e, s').
Proof. unfold sbind. now intros ->. Qed.

Lemma sbind_assoc {S E A B C} (m : stm S E A) (f : A -> stm S E B) (g : B -> stm S E C) s :
  (let! y := (let! x := m in f x) in g y) s = (let! x := m in let! y := f x in g y) s.
Proof. unfold sbind. now destruct (m s) as [[a|e|] s1]. Qed.

(** Two lists agree when they agree on both sides of every cut. *)
Lemma slice_ext_cut {A} (l s : list A) c :
  len l = len s -> 0 <= c <= len l ->
  slice l 0 c = slice s 0 c -> slice l c (len l) = slice s c (len s) -> l = s.
Proof.
  intros Hl Hc H1 H2.
  rewrite <- (slice_full l 0 (len l)), <- (slice_full s 0 (len s)) by done.
  rewrite <- (slice_cat l 0 c (len l)), <- (slice_cat s 0 c (len s)) by lia.
  now rewrite H1, H2.
Qed.

(** ** Zero bytes *)

Lemma len_cons {A} (x : A) l : len (x :: l) = 1 + len l.
Proof. unfold len. simpl. lia. Qed.

Lemma len_zero {A} (l : list A) : len l = 0 -> l = [].
Proof. destruct l; [done|]. rewrite len_cons. pose proof (len_nonneg l). lia. Qed.

Lemma len_perm {A} (l k : list A) : l ≡ₚ k -> len l = len k.
Proof. intros H. unfold len. now rewrite H. Qed.

Lemma len_zeros n : 0 <= n -> len (zeros n) = n.
Proof. intros. unfold len, zeros. rewrite length_replicate. lia. Qed.

Lemma any_nonzero_false l : any_nonzero l = false <-> l = zeros (len l).
Proof.
  unfold any_nonzero, zeros, len. rewrite Nat2Z.id. induction l as [|b l IH]; simpl; [done|].
  rewrite orb_false_iff, IH, negb_false_iff. split.
  - intros [->%Byte.byte_dec_bl Hl]. now rewrite Hl at 1.
  - intros [= -> Hl]. split; [done|]. exact Hl.
Qed.

Lemma any_nonzero_zeros n : any_nonzero (zeros n) = false.
Proof. apply any_nonzero_false. unfold zeros, len. now rewrite length_replicate, Nat2Z.id. Qed.

Lemma slice_zeros n a b : 0 <= a <= b -> b <= n -> slice (zeros n) a b = zeros (b - a).
Proof.
  intros. unfold slice, zeros. rewrite drop_replicate, take_replicate. f_equal. lia.
Qed.

(** ** Little-endian integers *)

Lemma Z_of_byte_bound b : 0 <= Z_of_byte b < 256.
Proof. unfold Z_of_byte. pose proof (Byte.to_N_bounded b). lia. Qed.

Lemma Z_of_byte_of_Z z : Z_of_byte (byte_of_Z z) = z mod 256.
Proof.
  unfold Z_of_byte, byte_of_Z. pose proof (Z.mod_pos_bound z 256).
  destruct (Byte.of_N (Z.to_N (z mod 256))) as [b|] eqn:E; simpl.
  - apply Byte.to_of_N in E. lia.
  - apply Byte.of_N_None_iff in E. lia.
Qed.

Lemma byte_of_Z_of_byte b : byte_of_Z (Z_of_byte b) = b.
Proof.
  unfold byte_of_Z. pose proof (Z_of_byte_bound b). rewrite Z.mod_small by done.
  unfold Z_of_byte. now rewrite N2Z.id, Byte.of_to_N.
Qed.

Lemma byte_of_Z_mod z : byte_of_Z (z mod 256) = byte_of_Z z.
Proof. unfold byte_of_Z. now rewrite Z.mod_mod. Qed.

Lemma length_le_bytes n z : length (le_bytes n z) = n.
Proof. revert z. induction n; intros; simpl; auto. Qed.

Lemma len_le_bytes n z : len (le_bytes n z) = Z.of_nat n.
Proof. unfold len. now rewrite length_le_bytes. Qed.

Lemma le_val_bound l : 0 <= le_val l < 256 ^ len l.
Proof.
  unfold len. induction l as [|b l IH]; simpl le_val; [simpl; lia|].
  pose proof (Z_of_byte_bound b). simpl length. rewrite Nat2Z.inj_succ, Z.pow_succ_r by lia. lia.
Qed.

Lemma le_val_le_bytes n z : 0 <= z < 256 ^ Z.of_nat n -> le_val (le_bytes n z) = z.
Proof.
  revert z. induction n as [|n IH]; intros z Hz; simpl; [simpl in Hz; lia|].
  rewrite Nat2Z.inj_succ, Z.pow_succ_r in Hz by lia.
  rewrite Z_of_byte_of_Z, IH.
  - pose proof (Z_div_mod_eq_full z 256). lia.
  - split; [apply Z.div_pos; lia|]. apply Z.div_lt_upper_bound; lia.
Qed.

Lemma le_bytes_le_val l n : length l = n -> le_bytes n (le_val l) = l.
Proof.
  intros <-. induction l as [|b l IH]; simpl; [done|].
  pose proof (Z_of_byte_bound b).
  f_equal.
  - rewrite <- byte_of_Z_mod, (Z.add_comm (Z_of_byte b)), (Z.mul_comm 256), Z.add_comm,
      Z_mod_plus_full, byte_of_Z_mod. apply byte_of_Z_of_byte.
  - rewrite (Z.mul_comm 256), Z_div_plus_full, Z.div_small by lia. exact IH.
Qed.

Lemma le_val_zeros n : le_val (zeros n) = 0.
Proof. unfold zeros. induction (Z.to_nat n) as [|k IH]; simpl; [done|]. rewrite IH. done. Qed.

Lemma le_val_inj l s : length l = length s -> le_val l = le_val s -> l = s.
Proof.
  intros Hl H. rewrite <- (le_bytes_le_val l _ eq_refl), <- (le_bytes_le_val s _ eq_refl).
  now rewrite H, Hl.
Qed.

(** ** Buffers as concatenations

    [cut l a [c1; ..; cn]] is [l[a..c1] ++ .. ++ l[c(n-1)..cn]]; a list is the
    concatenation of its cuts, which reduces an equation between a buffer and
    a wire format to one equation per field. *)

Fixpoint cut {A} (l : list A) (a : Z) (cs : list Z) : list A :=
  match cs with
  | [] => []
  | [c] => slice l a c
  | c :: cs => slice l a c ++ cut l c cs
  end.

Fixpoint increasing (a : Z) (cs : list Z) : bool :=
  match cs with
  | [] => true
  | c :: cs => (a <=? c) && increasing c cs
  end.

Fixpoint cut_end (a : Z) (cs : list Z) : Z :=
  match cs with
  | [] => a
  | c :: cs => cut_end c cs
  end.

Lemma increasing_end a cs : increasing a cs = true -> a <= cut_end a cs.
Proof.
  revert a. induction cs as [|c cs IH]; intros a H; simpl in *; [lia|].
  bsplit. specialize (IH c H0). lia.
Qed.

Lemma cut_slice {A} (l : list A) cs a :
  0 <= a -> cs <> [] -> increasing a cs = true -> cut l a cs = slice l a (cut_end a cs).
Proof.
  revert a. induction cs as [|c cs IH]; intros a Ha Hne H; [done|].
  simpl in H. bsplit. destruct cs as [|d cs]; [done|].
  change (cut l a (c :: d :: cs)) with (slice l a c ++ cut l c (d :: cs)).
  rewrite IH by (done || lia). pose proof (increasing_end c (d :: cs) H0).
  now rewrite slice_cat by lia.
Qed.

Lemma cut_full {A} (l : list A) cs :
  increasing 0 cs = true -> cs <> [] -> cut_end 0 cs = len l -> cut l 0 cs = l.
Proof. intros H Hne Hl. rewrite cut_slice by (done || lia). now apply slice_full. Qed.

Lemma slice_app_skip {A} (x y : list A) n a b a' b' :
  len x = n -> n <= a <= b -> a' = a - n -> b' = b - n -> slice (x ++ y) a b = slice y a' b'.
Proof. intros <- ? -> ->. now apply slice_app_r. Qed.

Lemma slice_app_take {A} (x y : list A) n a b :
  len x = n -> a = 0 -> b = n -> slice (x ++ y) a b = x.
Proof.
  intros <- -> ->. pose proof (len_nonneg x). rewrite slice_app_l by lia. now apply slice_full.
Qed.

(** ** Writes into a concatenation *)

Lemma splice_app_skip {A} (x y s : list A) o o' :
  len x <= o -> o' = o - len x -> splice (x ++ y) o s = x ++ splice y o' s.
Proof.
  intros Ho ->. pose proof (len_nonneg x). unfold splice. rewrite len_app.
  replace (0 <=? o) with true by lia. replace (0 <=? o - len x) with true by lia.
  replace (o - len x + len s <=? len y) with (o + len s <=? len x + len y) by lia. simpl.
  destruct (_ <=? _); [|done].
  pose proof (len_nonneg s). unfold len in *.
  rewrite take_app_ge by lia. rewrite drop_app_ge by lia. rewrite <- app_assoc. do 3 f_equal; [lia|].
  f_equal. lia.
Qed.

Lemma splice_app_take {A} (x y s : list A) o :
  o + len s <= len x -> splice (x ++ y) o s = splice x o s ++ y.
Proof.
  intros Ho. pose proof (len_nonneg y). pose proof (len_nonneg s). unfold splice. rewrite len_app.
  destruct (0 <=? o) eqn:E; [|done]. bsplit. simpl.
  replace (o + len s <=? len x + len y) with true by lia.
  replace (o + len s <=? len x) with true by lia. unfold len in *.
  rewrite take_app_le by lia. rewrite drop_app_le by lia. now rewrite <- !app_assoc.
Qed.

Lemma splice_head {A} (x s : list A) : len s <= len x -> splice x 0 s = s ++ slice x (len s) (len x).
Proof.
  intros. pose proof (len_nonneg s). unfold splice. simpl.
  replace (0 + len s <=? len x) with true by lia. simpl. f_equal. unfold slice, len in *.
  rewrite Z.add_0_l. symmetry. apply take_ge. rewrite length_drop. lia.
Qed.

Arguments le_bytes : simpl never.
Arguments le_val : simpl never.
Arguments slice : simpl never.
Arguments splice : simpl never.
Arguments zeros : simpl never.
Arguments len : simpl never.
