(* ===== verification/Bytes.v ===== *)
(** * Bytes: fixed-width little-endian fields in a byte buffer

    The [put_uN]/[get_uN] helpers that [codec.rs], [layout.rs],
    [negotiation.rs] and [control.rs] each declare with the same body, the
    lemmas that say where they succeed and what they read and write, and the
    tactics that compute a read through a chain of writes. *)

From S2P Require Import Prelude.

(** ** Operations *)

Definition get_u8 {E} (l : bytes) (off : Z) : res E Z :=
  let? s := index_range l off (off + 1) in Ok (le_val s).
Definition get_u16 {E} (l : bytes) (off : Z) : res E Z :=
  let? s := index_range l off (off + 2) in Ok (le_val s).
Definition get_u32 {E} (l : bytes) (off : Z) : res E Z :=
  let? s := index_range l off (off + 4) in Ok (le_val s).
Definition get_u64 {E} (l : bytes) (off : Z) : res E Z :=
  let? s := index_range l off (off + 8) in Ok (le_val s).

Definition get_u128 {E} (l : bytes) (off : Z) : res E Z :=
  let? s := index_range l off (off + 16) in Ok (le_val s).

Definition put_u8 {E} (l : bytes) (off v : Z) : res E bytes :=
  copy_range l off (off + 1) (le_bytes 1 v).
Definition put_u16 {E} (l : bytes) (off v : Z) : res E bytes :=
  copy_range l off (off + 2) (le_bytes 2 v).
Definition put_u32 {E} (l : bytes) (off v : Z) : res E bytes :=
  copy_range l off (off + 4) (le_bytes 4 v).
Definition put_u64 {E} (l : bytes) (off v : Z) : res E bytes :=
  copy_range l off (off + 8) (le_bytes 8 v).

Definition put_u128 {E} (l : bytes) (off v : Z) : res E bytes :=
  copy_range l off (off + 16) (le_bytes 16 v).

(** The value of a field that is known to be in range. *)
Definition field (l : bytes) (off n : Z) : Z := le_val (slice l off (off + n)).

(** ** Successful reads and writes *)

Section InRange.
Context {E : Type} (l : bytes) (off v : Z).
Hypothesis Hoff : 0 <= off.

Lemma get_u8_ok : off + 1 <= len l -> get_u8 (E := E) l off = Ok (field l off 1).
Proof. intros. unfold get_u8. now rewrite index_range_ok by lia. Qed.
Lemma get_u16_ok : off + 2 <= len l -> get_u16 (E := E) l off = Ok (field l off 2).
Proof. intros. unfold get_u16. now rewrite index_range_ok by lia. Qed.
Lemma get_u32_ok : off + 4 <= len l -> get_u32 (E := E) l off = Ok (field l off 4).
Proof. intros. unfold get_u32. now rewrite index_range_ok by lia. Qed.
Lemma get_u64_ok : off + 8 <= len l -> get_u64 (E := E) l off = Ok (field l off 8).
Proof. intros. unfold get_u64. now rewrite index_range_ok by lia. Qed.
Lemma get_u128_ok : off + 16 <= len l -> get_u128 (E := E) l off = Ok (field l off 16).
Proof. intros. unfold get_u128. now rewrite index_range_ok by lia. Qed.

Lemma put_u8_ok : off + 1 <= len l -> put_u8 (E := E) l off v = Ok (splice l off (le_bytes 1 v)).
Proof. intros. apply copy_range_ok; rewrite ?len_le_bytes; lia. Qed.
Lemma put_u16_ok : off + 2 <= len l -> put_u16 (E := E) l off v = Ok (splice l off (le_bytes 2 v)).
Proof. intros. apply copy_range_ok; rewrite ?len_le_bytes; lia. Qed.
Lemma put_u32_ok : off + 4 <= len l -> put_u32 (E := E) l off v = Ok (splice l off (le_bytes 4 v)).
Proof. intros. apply copy_range_ok; rewrite ?len_le_bytes; lia. Qed.
Lemma put_u64_ok : off + 8 <= len l -> put_u64 (E := E) l off v = Ok (splice l off (le_bytes 8 v)).
Proof. intros. apply copy_range_ok; rewrite ?len_le_bytes; lia. Qed.
Lemma put_u128_ok : off + 16 <= len l -> put_u128 (E := E) l off v = Ok (splice l off (le_bytes 16 v)).
Proof. intros. apply copy_range_ok; rewrite ?len_le_bytes; lia. Qed.

End InRange.

(** ** Widths of the values read *)

Lemma field_bound l off n :
  0 <= off -> 0 <= n -> off + n <= len l -> 0 <= field l off n < 256 ^ n.
Proof.
  intros. unfold field. pose proof (le_val_bound (slice l off (off + n))) as H'.
  rewrite len_slice in H' by lia. now replace (off + n - off) with n in H' by lia.
Qed.

Lemma field_u8 l off : 0 <= off -> off + 1 <= len l -> u8 (field l off 1).
Proof. intros. pose proof (field_bound l off 1). ulia. Qed.
Lemma field_u16 l off : 0 <= off -> off + 2 <= len l -> u16 (field l off 2).
Proof. intros. pose proof (field_bound l off 2). ulia. Qed.
Lemma field_u32 l off : 0 <= off -> off + 4 <= len l -> u32 (field l off 4).
Proof. intros. pose proof (field_bound l off 4). ulia. Qed.
Lemma field_u64 l off : 0 <= off -> off + 8 <= len l -> u64 (field l off 8).
Proof. intros. pose proof (field_bound l off 8). ulia. Qed.
Lemma field_u128 l off : 0 <= off -> off + 16 <= len l -> u128 (field l off 16).
Proof. intros. pose proof (field_bound l off 16). ulia. Qed.

#[export] Hint Resolve field_u8 field_u16 field_u32 field_u64 : nipc.

(** A field re-encodes to the bytes it was read from. *)
Lemma le_bytes_field l off n (k : nat) :
  n = Z.of_nat k -> 0 <= off -> off + n <= len l -> le_bytes k (field l off n) = slice l off (off + n).
Proof.
  intros -> ? ?. unfold field. apply le_bytes_le_val.
  apply Nat2Z.inj. change (Z.of_nat (length ?x)) with (len x). rewrite len_slice by lia. lia.
Qed.

Lemma le_val_u8 z : u8 z -> le_val (le_bytes 1 z) = z.
Proof. intros. apply le_val_le_bytes. ulia. Qed.
Lemma le_val_u16 z : u16 z -> le_val (le_bytes 2 z) = z.
Proof. intros. apply le_val_le_bytes. ulia. Qed.
Lemma le_val_u32 z : u32 z -> le_val (le_bytes 4 z) = z.
Proof. intros. apply le_val_le_bytes. ulia. Qed.
Lemma le_val_u64 z : u64 z -> le_val (le_bytes 8 z) = z.
Proof. intros. apply le_val_le_bytes. ulia. Qed.
Lemma le_val_u128 z : u128 z -> le_val (le_bytes 16 z) = z.
Proof. intros. apply le_val_le_bytes. ulia. Qed.

(** ** Reads through writes

    [len_simpl] normalises lengths, [rd] performs the in-range reads and
    writes of a goal, and [rw_slice] computes a slice of a spliced buffer. *)

Ltac len_simpl := rewrite ?len_splice, ?len_le_bytes, ?len_app in *.
Ltac len_solve := rewrite ?len_splice, ?len_le_bytes, ?len_app; (assumption || lia).

Ltac rd1 :=
  match goal with
  | |- context [@get_u8 ?E ?l ?o] => rewrite (@get_u8_ok E l o) by len_solve
  | |- context [@get_u16 ?E ?l ?o] => rewrite (@get_u16_ok E l o) by len_solve
  | |- context [@get_u32 ?E ?l ?o] => rewrite (@get_u32_ok E l o) by len_solve
  | |- context [@get_u64 ?E ?l ?o] => rewrite (@get_u64_ok E l o) by len_solve
  | |- context [@get_u128 ?E ?l ?o] => rewrite (@get_u128_ok E l o) by len_solve
  | |- context [@put_u128 ?E ?l ?o ?v] => rewrite (@put_u128_ok E l o v) by len_solve
  | |- context [@put_u8 ?E ?l ?o ?v] => rewrite (@put_u8_ok E l o v) by len_solve
  | |- context [@put_u16 ?E ?l ?o ?v] => rewrite (@put_u16_ok E l o v) by len_solve
  | |- context [@put_u32 ?E ?l ?o ?v] => rewrite (@put_u32_ok E l o v) by len_solve
  | |- context [@put_u64 ?E ?l ?o ?v] => rewrite (@put_u64_ok E l o v) by len_solve
  | |- context [@index_range ?E ?A ?l ?a ?b] => rewrite (@index_range_ok A E l a b) by len_solve
  | |- context [@copy_range ?E ?A ?l ?a ?b ?s] => rewrite (@copy_range_ok A E l a b s) by len_solve
  end.
Ltac rd := repeat (rd1; cbn [rbind]).

Ltac rw_slice1 :=
  match goal with
  | |- context [slice (splice ?l ?o ?s) ?a ?b] =>
      first [ rewrite (slice_splice_disjoint l o s a b) by len_solve
            | rewrite (slice_splice_eq l o s a b) by len_solve ]
  end.
Ltac rw_slice := repeat rw_slice1.

(** [app_slice] computes a slice of a concatenation of fields. *)
Ltac zlen x :=
  lazymatch x with
  | le_bytes ?k _ => eval cbv in (Z.of_nat k)
  | _ => lazymatch goal with H : len x = ?n |- _ => n end
  end.
Ltac app_slice1 :=
  match goal with
  | |- context [slice (?x ++ ?y) ?a ?b] =>
      let n := zlen x in
      first
        [ rewrite (slice_app_take x y n a b) by (first [assumption | reflexivity | apply len_le_bytes])
        | let a' := eval cbv in (a - n) in
          let b' := eval cbv in (b - n) in
          rewrite (slice_app_skip x y n a b a' b')
            by (first [assumption | reflexivity | apply len_le_bytes | lia]) ]
  | |- context [slice ?x ?a ?b] =>
      let n := zlen x in
      rewrite (slice_full x a b) by (first [assumption | reflexivity | symmetry; assumption])
  end.
Ltac app_slice := repeat app_slice1.

(** [by_cuts cs]: compare a buffer with a wire format field by field. *)
Ltac by_cuts cs :=
  lazymatch goal with
  | |- ?l = _ =>
      transitivity (cut l 0 cs);
      [ symmetry; apply cut_full; [reflexivity | discriminate | cbn [cut_end cs]; len_solve]
      | cbv [cs]; cbn [cut]; rw_slice ]
  end.

(** Reads and writes inside the middle part of a concatenation. *)
Section Middle.
Context (pre x post : bytes) (start : Z).
Hypothesis Hpre : len pre = start.

Lemma slice_middle a b :
  0 <= a <= b -> b <= len x -> slice (pre ++ x ++ post) (start + a) (start + b) = slice x a b.
Proof.
  intros Hab Hb. pose proof (len_nonneg pre).
  rewrite (slice_app_skip pre _ start _ _ a b) by lia. now apply slice_app_l.
Qed.

Lemma copy_range_middle {E} a b s :
  0 <= a <= b -> b <= len x -> len s = b - a ->
  copy_range (E := E) (pre ++ x ++ post) (start + a) (start + b) s = Ok (pre ++ splice x a s ++ post).
Proof.
  intros Hab Hb Hs. pose proof (len_nonneg pre). pose proof (len_nonneg post).
  rewrite copy_range_ok by (rewrite ?len_app; lia).
  rewrite (splice_app_skip pre _ _ _ a) by lia. now rewrite splice_app_take by lia.
Qed.

Lemma index_range_middle {E} a b :
  0 <= a <= b -> b <= len x ->
  index_range (E := E) (pre ++ x ++ post) (start + a) (start + b) = Ok (slice x a b).
Proof.
  intros Hab Hb. pose proof (len_nonneg pre). pose proof (len_nonneg post).
  rewrite index_range_ok by (rewrite ?len_app; lia). now rewrite slice_middle.
Qed.

End Middle.

(** ** Slices and fields of a known buffer *)

Section KnownSlice.
Context (s : bytes).

Lemma slice_app_iff a b c x y :
  0 <= a -> c = a + len x -> c <= b -> b <= len s ->
  slice s a b = x ++ y <-> slice s a c = x /\ slice s c b = y.
Proof.
  intros Ha -> Hab Hb. pose proof (len_nonneg x).
  rewrite <- (slice_cat s a (a + len x) b) by lia. split.
  - intros H'. apply app_inj_1 in H' as [H1 H2]; [done|].
    apply Nat2Z.inj. fold (len (slice s a (a + len x))). rewrite len_slice by lia. unfold len. lia.
  - now intros [-> ->].
Qed.

Lemma field_iff a b n k v :
  n = Z.of_nat k -> 0 <= a -> b = a + n -> b <= len s -> 0 <= v < 256 ^ n ->
  slice s a b = le_bytes k v <-> field s a n = v.
Proof.
  intros Hn Ha -> Hb Hv. unfold field. split.
  - intros ->. apply le_val_le_bytes. now rewrite <- Hn.
  - intros <-. symmetry. apply le_bytes_le_val. apply Nat2Z.inj.
    fold (len (slice s a (a + n))). rewrite len_slice by lia. lia.
Qed.

Lemma field_zeros a b n :
  0 <= a -> 0 <= n -> b = a + n -> b <= len s -> slice s a b = zeros n <-> field s a n = 0.
Proof.
  intros Ha Hn -> Hb. unfold field. split.
  - intros ->. apply le_val_zeros.
  - intros H'. apply le_val_inj; [|now rewrite le_val_zeros].
    apply Nat2Z.inj. fold (len (slice s a (a + n))). rewrite len_slice by lia.
    fold (len (zeros n)). rewrite len_zeros; lia.
Qed.

Lemma any_nonzero_slice a b n :
  0 <= a -> 0 <= n -> b = a + n -> b <= len s ->
  any_nonzero (slice s a b) = false <-> slice s a b = zeros n.
Proof.
  intros. rewrite any_nonzero_false, len_slice by lia. now replace (b - a) with n by lia.
Qed.

End KnownSlice.

(** [wsplit]: split an equation between a slice and a concatenation of fields. *)
Ltac wsplit1 s :=
  match goal with
  | |- context [slice s ?a ?b = ?x ++ ?y] =>
      let n := lazymatch x with
               | le_bytes ?k _ => eval cbv in (Z.of_nat k)
               | zeros ?n => n
               end in
      let c := eval cbv in (a + n) in
      rewrite (slice_app_iff s a b c x y) by (rewrite ?len_le_bytes, ?len_zeros; lia)
  end.
Ltac wsplit s := rewrite <- ?app_assoc; repeat wsplit1 s.

(** [fwidth]: the width of a field that was read. *)
Ltac fwidth :=
  first [apply field_u8 | apply field_u16 | apply field_u32 | apply field_u64]; lia.

(** [le_field]: the bytes of a field that was read. *)
Ltac le_field :=
  match goal with
  | |- slice ?s ?a ?b = le_bytes ?k (field ?s ?a ?n) =>
      symmetry; rewrite (le_bytes_field s a n k) by (reflexivity || lia); reflexivity
  end.

(** [fval]: the value of a field whose bytes are known. *)
Ltac fval :=
  repeat match goal with
         | H : slice ?s ?a ?b = le_bytes ?k ?v |- context [field ?s ?a ?n] =>
             rewrite (proj1 (field_iff s a b n k v eq_refl ltac:(lia) eq_refl ltac:(lia) ltac:(ulia)) H)
         | H : slice ?s ?a ?b = zeros ?m |- context [field ?s ?a ?n] =>
             rewrite (proj1 (field_zeros s a b n ltac:(lia) ltac:(lia) eq_refl ltac:(lia)) H)
         end.
