(* ===== verification/Codec.v ===== *)
(** * Codec: the common message envelope ([native-ipc-core/src/codec.rs])

    [encode_message] and [decode_message] are generic over a [Protocol]; the
    trait is the class [Protocol], its type-level guarantees and its
    documented contract are the classes [ProtocolSlices], [ProtocolTotal] and
    [ProtocolRoundTrip], and the example protocol of
    [native-ipc-core/examples/bounded_codec.rs] is an instance of all four. *)

From S2P Require Import Prelude Bytes.

(** ** Constants and data *)

Definition MESSAGE_MAGIC : Z := 0x4e495043.
Definition VERSION_MAJOR : Z := 1.
Definition VERSION_MINOR : Z := 0.
Definition ENVELOPE_LEN : Z := 72.

Record Limits := {
  lim_max_message_bytes : Z;
  lim_max_payload_bytes : Z;
  lim_max_records : Z;
  lim_max_allocation_bytes : Z
}.

Record DecodeContext := {
  dc_limits : Limits;
  dc_records_remaining : Z;
  dc_allocation_remaining : Z
}.

Record Envelope := {
  env_kind : Z;
  env_flags : Z;
  env_generation : Z;
  env_sequence : Z;
  env_payload_len : Z
}.

Record DecodedMessage (T : Type) := {
  dm_envelope : Envelope;
  dm_message : T
}.
Arguments dm_envelope {T}.
Arguments dm_message {T}.

Inductive EncodeError :=
| EncodeError_DestinationTooSmall (required actual : Z)
| EncodeError_LengthOverflow
| EncodeError_ZeroGeneration
| EncodeError_ZeroSequence
| EncodeError_Protocol (code : Z).

Inductive LimitKind :=
| LimitKind_MessageBytes
| LimitKind_PayloadBytes
| LimitKind_Records
| LimitKind_AllocationBytes.

Inductive DecodeError :=
| DecodeError_Truncated (required actual : Z)
| DecodeError_BadMagic (magic : Z)
| DecodeError_BadVersion (major minor : Z)
| DecodeError_SchemaMismatch
| DecodeError_ZeroGeneration
| DecodeError_ZeroSequence
| DecodeError_NonCanonicalLength (declared actual : Z)
| DecodeError_LengthOverflow
| DecodeError_RelativeRangeOutOfBounds (offset length containing_len : Z)
| DecodeError_LimitExceeded (kind : LimitKind)
| DecodeError_Protocol (code : Z).

(** ** Operations *)

Definition Limits_new (message payload records allocation : Z) : Limits :=
  {| lim_max_message_bytes := message; lim_max_payload_bytes := payload;
     lim_max_records := records; lim_max_allocation_bytes := allocation |}.

Definition DecodeContext_new (limits : Limits) : DecodeContext :=
  {| dc_limits := limits;
     dc_records_remaining := lim_max_records limits;
     dc_allocation_remaining := lim_max_allocation_bytes limits |}.

Definition claim_records (count : Z) : stm DecodeContext DecodeError unit :=
  let! self := sget in
  let! remaining := slift (ok_or (checked_sub (dc_records_remaining self) count)
                                 (DecodeError_LimitExceeded LimitKind_Records)) in
  sput {| dc_limits := dc_limits self;
          dc_records_remaining := remaining;
          dc_allocation_remaining := dc_allocation_remaining self |}.

Definition claim_allocation (count : Z) : stm DecodeContext DecodeError unit :=
  let! self := sget in
  let! remaining := slift (ok_or (checked_sub (dc_allocation_remaining self) count)
                                 (DecodeError_LimitExceeded LimitKind_AllocationBytes)) in
  sput {| dc_limits := dc_limits self;
          dc_records_remaining := dc_records_remaining self;
          dc_allocation_remaining := remaining |}.

Definition copy_bytes (source : bytes) : stm DecodeContext DecodeError bytes :=
  let! n := slift (ok_or (try_from U32_MAX (len source)) DecodeError_LengthOverflow) in
  claim_allocation n >>!
  sret source.

Definition Envelope_new (kind flags generation sequence : Z) : Envelope :=
  {| env_kind := kind; env_flags := flags; env_generation := generation;
     env_sequence := sequence; env_payload_len := 0 |}.

Definition Envelope_total_len (self : Envelope) : res EncodeError Z :=
  ok_or (checked_add USIZE_MAX ENVELOPE_LEN (env_payload_len self)) EncodeError_LengthOverflow.

Definition Envelope_with_payload_len (self : Envelope) (payload_len : Z) : res EncodeError Envelope :=
  let? n := ok_or (try_from U32_MAX payload_len) EncodeError_LengthOverflow in
  Ok {| env_kind := env_kind self; env_flags := env_flags self;
        env_generation := env_generation self; env_sequence := env_sequence self;
        env_payload_len := n |}.

(** The [Protocol] trait; [message_wf] says which values of [Message] are
    values of the Rust type (the range of its integers). *)
Class Protocol := {
  Message : Type;
  message_wf : Message -> Prop;
  SCHEMA_ID : bytes;
  encode_payload : Message -> stm bytes EncodeError Z;
  decode_payload : bytes -> stm DecodeContext DecodeError Message
}.

Definition encode_envelope {P : Protocol} (envelope : Envelope) (d : bytes) : res EncodeError bytes :=
  let? d := put_u32 d 0 MESSAGE_MAGIC in
  let? d := put_u16 d 4 VERSION_MAJOR in
  let? d := put_u16 d 6 VERSION_MINOR in
  let? d := put_u32 d 8 (env_kind envelope) in
  let? d := put_u32 d 12 (env_flags envelope) in
  let? d := put_u32 d 16 (env_payload_len envelope) in
  let? d := put_u32 d 20 ENVELOPE_LEN in
  let? d := put_u64 d 24 (env_generation envelope) in
  let? d := put_u64 d 32 (env_sequence envelope) in
  copy_range d 40 72 SCHEMA_ID.

Definition decode_envelope {P : Protocol} (source : bytes) : res DecodeError Envelope :=
  let? magic := get_u32 source 0 in
  if negb (magic =? MESSAGE_MAGIC) then Err (DecodeError_BadMagic magic) else
  let? major := get_u16 source 4 in
  let? minor := get_u16 source 6 in
  if negb (major =? VERSION_MAJOR) || negb (minor =? VERSION_MINOR)
  then Err (DecodeError_BadVersion major minor) else
  let? header_len := get_u32 source 20 in
  if negb (header_len =? ENVELOPE_LEN)
  then Err (DecodeError_NonCanonicalLength header_len ENVELOPE_LEN) else
  let? schema := index_range source 40 72 in
  if negb (bool_decide (schema = SCHEMA_ID)) then Err DecodeError_SchemaMismatch else
  let? generation := get_u64 source 24 in
  if generation =? 0 then Err DecodeError_ZeroGeneration else
  let? sequence := get_u64 source 32 in
  if sequence =? 0 then Err DecodeError_ZeroSequence else
  let? kind := get_u32 source 8 in
  let? flags := get_u32 source 12 in
  let? payload_len := get_u32 source 16 in
  Ok {| env_kind := kind; env_flags := flags; env_generation := generation;
        env_sequence := sequence; env_payload_len := payload_len |}.

Definition encode_message {P : Protocol} (envelope : Envelope) (message : Message)
  : stm bytes EncodeError Z :=
  let! destination := sget in
  if env_generation envelope =? 0 then serr EncodeError_ZeroGeneration else
  if env_sequence envelope =? 0 then serr EncodeError_ZeroSequence else
  if len destination <? ENVELOPE_LEN
  then serr (EncodeError_DestinationTooSmall ENVELOPE_LEN (len destination)) else
  let! payload_len := on_range ENVELOPE_LEN (len destination) (encode_payload message) in
  let! envelope := slift (Envelope_with_payload_len envelope payload_len) in
  let! total_len := slift (Envelope_total_len envelope) in
  if len destination <? total_len
  then serr (EncodeError_DestinationTooSmall total_len (len destination)) else
  on_range 0 ENVELOPE_LEN (supdate (encode_envelope envelope)) >>!
  sret total_len.

Definition decode_message {P : Protocol} (source : bytes) (limits : Limits)
  : res DecodeError (DecodedMessage Message) :=
  if len source <? ENVELOPE_LEN then Err (DecodeError_Truncated ENVELOPE_LEN (len source)) else
  if lim_max_message_bytes limits <? len source
  then Err (DecodeError_LimitExceeded LimitKind_MessageBytes) else
  let? header := index_range source 0 ENVELOPE_LEN in
  let? envelope := decode_envelope header in
  let payload_len := env_payload_len envelope in
  if lim_max_payload_bytes limits <? payload_len
  then Err (DecodeError_LimitExceeded LimitKind_PayloadBytes) else
  let? total_len := ok_or (checked_add USIZE_MAX ENVELOPE_LEN payload_len)
                          DecodeError_LengthOverflow in
  if negb (total_len =? len source)
  then Err (DecodeError_NonCanonicalLength total_len (len source)) else
  let? payload := index_range source ENVELOPE_LEN (len source) in
  let? message := fst (decode_payload payload (DecodeContext_new limits)) in
  Ok {| dm_envelope := envelope; dm_message := message |}.

(** [RelativeRange]: the pair of bounds of a [Range<usize>]. *)
Definition RelativeRange : Type := Z * Z.

Definition RelativeRange_new (offset length containing_len : Z) : res DecodeError RelativeRange :=
  let start := offset in
  let? stop := ok_or (checked_add USIZE_MAX start length) DecodeError_LengthOverflow in
  if containing_len <? stop
  then Err (DecodeError_RelativeRangeOutOfBounds offset length containing_len)
  else Ok (start, stop).

(** ** What an implementation of the trait promises *)

(** Guaranteed by the types of the trait: the identity is a [[u8; 32]], a
    [&mut [u8]] keeps its length, the count is a [usize]. *)
Class ProtocolSlices (P : Protocol) : Prop := {
  schema_id_len : len SCHEMA_ID = 32;
  encode_payload_slice : forall m d, len (snd (encode_payload m d)) = len d;
  encode_payload_usize : forall m d n d', encode_payload m d = (Ok n, d') -> usize n
}.

(** The payload callbacks return (they may fail, they do not panic). *)
Class ProtocolTotal (P : Protocol) : Prop := {
  encode_payload_total : forall m d, fst (encode_payload m d) <> Panic;
  decode_payload_total : forall s c, fst (decode_payload s c) <> Panic
}.

(** The payload codec reads back, under [limits], what it wrote. *)
Class ProtocolRoundTrip (P : Protocol) (limits : Limits) : Prop := {
  payload_roundtrip : forall m d n d',
    message_wf m -> encode_payload m d = (Ok n, d') -> n <= len d ->
    fst (decode_payload (slice d' 0 n) (DecodeContext_new limits)) = Ok m
}.

(** The field widths of [Envelope]. *)
Definition Envelope_wf (e : Envelope) : Prop :=
  u32 (env_kind e) /\ u32 (env_flags e) /\ u64 (env_generation e) /\
  u64 (env_sequence e) /\ u32 (env_payload_len e).

Definition with_len (e : Envelope) (n : Z) : Envelope :=
  {| env_kind := env_kind e; env_flags := env_flags e; env_generation := env_generation e;
     env_sequence := env_sequence e; env_payload_len := n |}.

(** ** The wire format of an envelope *)

Definition envelope_bytes {P : Protocol} (e : Envelope) : bytes :=
  le_bytes 4 MESSAGE_MAGIC ++ le_bytes 2 VERSION_MAJOR ++ le_bytes 2 VERSION_MINOR ++
  le_bytes 4 (env_kind e) ++ le_bytes 4 (env_flags e) ++ le_bytes 4 (env_payload_len e) ++
  le_bytes 4 ENVELOPE_LEN ++ le_bytes 8 (env_generation e) ++ le_bytes 8 (env_sequence e) ++
  SCHEMA_ID.

Definition envelope_cuts : list Z := [4; 6; 8; 12; 16; 20; 24; 32; 40; 72].

Section Envelope.
Context {P : Protocol} {PS : ProtocolSlices P}.

Lemma envelope_bytes_len e : len (envelope_bytes e) = 72.
Proof. unfold envelope_bytes. rewrite !len_app, !len_le_bytes, schema_id_len. done. Qed.

Lemma encode_envelope_bytes e d : len d = 72 -> encode_envelope e d = Ok (envelope_bytes e).
Proof.
  intros Hd. pose proof schema_id_len as Hs. unfold encode_envelope. rd. f_equal.
  by_cuts envelope_cuts. reflexivity.
Qed.

Lemma decode_envelope_bytes e :
  Envelope_wf e -> env_generation e <> 0 -> env_sequence e <> 0 ->
  decode_envelope (envelope_bytes e) = Ok e.
Proof.
  intros (Hk & Hf & Hg & Hq & Hp) Hg0 Hq0. pose proof (envelope_bytes_len e) as Hl.
  pose proof schema_id_len as Hs. unfold decode_envelope. rd. unfold field.
  unfold envelope_bytes. cbn [Z.add Pos.add Pos.succ Pos.add_carry]. app_slice.
  rewrite !le_val_u64, !le_val_u32, !le_val_u16 by (done || ulia).
  rewrite !Z.eqb_refl, bool_decide_eq_true_2 by done.
  rewrite (proj2 (Z.eqb_neq _ _) Hg0), (proj2 (Z.eqb_neq _ _) Hq0). now destruct e.
Qed.

Lemma decode_envelope_inv s e :
  len s = 72 -> decode_envelope s = Ok e ->
  s = envelope_bytes e /\ Envelope_wf e /\ env_generation e <> 0 /\ env_sequence e <> 0.
Proof.
  intros Hs H. unfold decode_envelope in H. revert H. rd. intros H. rinv H.
  bsplit. split; [|unfold Envelope_wf; simpl; split_and!; (assumption || (first [apply field_u32 | apply field_u64]; lia))].
  by_cuts envelope_cuts. unfold envelope_bytes. cbn [env_kind env_flags env_payload_len env_generation env_sequence].
  rewrite <- E, <- E0, <- E5, <- E1.
  erewrite !le_bytes_field by (reflexivity || lia). rewrite <- E2. reflexivity.
Qed.

End Envelope.

(** ** Successful encodings *)

Lemma encode_message_Ok {P : Protocol} {PS : ProtocolSlices P} e m d n d' :
  encode_message e m d = (Ok n, d') ->
  exists k s',
    encode_payload m (slice d ENVELOPE_LEN (len d)) = (Ok k, s') /\
    n = ENVELOPE_LEN + k /\ u32 k /\ n <= len d /\ len d' = len d /\
    env_generation e <> 0 /\ env_sequence e <> 0 /\
    slice d' 0 ENVELOPE_LEN = envelope_bytes (with_len e k) /\
    slice d' ENVELOPE_LEN (len d) = s'.
Proof.
  unfold encode_message, sbind, sget, serr, slift, sret. intros H.
  destruct (env_generation e =? 0) eqn:Hg; [discriminate|].
  destruct (env_sequence e =? 0) eqn:Hq; [discriminate|].
  destruct (len d <? ENVELOPE_LEN) eqn:Hl; [discriminate|]. bsplit.
  change ENVELOPE_LEN with 72 in *.
  rewrite on_range_ok in H by lia.
  destruct (encode_payload m (slice d 72 (len d))) as [[k| |] s'] eqn:Hp; try discriminate.
  pose proof (encode_payload_slice m (slice d 72 (len d))) as Hs'.
  rewrite Hp, len_slice in Hs' by lia. simpl in Hs'. cbn [fst snd] in H.
  unfold Envelope_with_payload_len in H.
  destruct (try_from U32_MAX k) eqn:Hk; simpl in H; [|discriminate].
  apply try_from_Some in Hk as [-> Hk].
  unfold Envelope_total_len in H. cbn [env_payload_len] in H. change ENVELOPE_LEN with 72 in H.
  rewrite checked_add_ok in H by ulia. simpl in H.
  destruct (len d <? 72 + k) eqn:Hn; [discriminate|]. bsplit.
  rewrite on_range_ok in H by len_solve. unfold supdate in H. rewrite encode_envelope_bytes in H by (rewrite len_slice; len_solve).
  pose proof (envelope_bytes_len (with_len e k)) as Hb. unfold with_len in Hb.
  injection H as <- <-. exists k, s'. split_and!; try done; try len_solve.
  - rw_slice. done.
  - rw_slice. done.
Qed.

(** ** Properties of the codec *)

(** Round trip. A message that [encode_message] accepted decodes, under
    any limits it fits and for every protocol whose payload codec reads back
    what it wrote, to the same message and the same envelope with the payload
    length filled in. *)
Theorem message_roundtrip {P : Protocol} {PS : ProtocolSlices P} limits
  {PR : ProtocolRoundTrip P limits} e m d n d' :
  Envelope_wf e -> message_wf m ->
  encode_message e m d = (Ok n, d') ->
  n <= lim_max_message_bytes limits ->
  n - ENVELOPE_LEN <= lim_max_payload_bytes limits ->
  decode_message (slice d' 0 n) limits
  = Ok {| dm_envelope := with_len e (n - ENVELOPE_LEN); dm_message := m |}.
Proof.
  intros (Hk & Hf & Hg & Hq & _) Hwf H Hm Hpl.
  apply encode_message_Ok in H as (k & s' & Hp & -> & Hk32 & Hn & Hd' & Hg0 & Hq0 & Hh & Hs').
  change ENVELOPE_LEN with 72 in *. replace (72 + k - 72) with k in * by lia.
  pose proof (encode_payload_slice m (slice d 72 (len d))) as Hls.
  rewrite Hp, len_slice in Hls by ulia. simpl in Hls.
  unfold decode_message. change ENVELOPE_LEN with 72.
  rewrite len_slice by ulia.
  replace (72 + k - 0 <? 72) with false by ulia.
  replace (lim_max_message_bytes limits <? 72 + k - 0) with false by ulia.
  rewrite !index_range_ok by (rewrite ?len_slice; ulia). cbn [rbind].
  rewrite slice_slice by ulia. rewrite !Z.add_0_l, Hh.
  rewrite decode_envelope_bytes by (done || (unfold Envelope_wf, with_len; simpl; tauto)).
  cbn [rbind with_len env_payload_len].
  replace (lim_max_payload_bytes limits <? k) with false by ulia.
  rewrite checked_add_ok by ulia. cbn [ok_or rbind].
  replace (72 + k =? 72 + k - 0) with true by lia. cbn [negb].
  rewrite slice_slice by ulia.
  replace (slice d' (0 + 72) (0 + (72 + k - 0))) with (slice s' 0 k).
  - rewrite (payload_roundtrip m _ k s' Hwf Hp) by (rewrite len_slice; ulia). done.
  - rewrite <- Hs', slice_slice by ulia. f_equal; lia.
Qed.

(** No input makes the decoder panic: for any byte string and any limits,
    [decode_message] returns a message or an error, provided the protocol's
    own payload decoder does. *)
Theorem decode_message_total {P : Protocol} {PS : ProtocolSlices P} {PT : ProtocolTotal P}
  source limits :
  decode_message source limits <> Panic.
Proof.
  unfold decode_message. change ENVELOPE_LEN with 72.
  destruct (len source <? 72) eqn:Hl; [done|]. bsplit.
  destruct (_ <? len source); [done|]. rd.
  destruct (decode_envelope (slice source 0 72)) as [e| |] eqn:He; cbn [rbind]; [|done|].
  - destruct (_ <? env_payload_len e); [done|].
    destruct (checked_add _ _ _); cbn [ok_or rbind]; [|done].
    destruct (negb _); [done|].
    pose proof (decode_payload_total (slice source 72 (len source)) (DecodeContext_new limits)).
    destruct (fst _); cbn [rbind]; done.
  - exfalso. revert He. unfold decode_envelope.
    assert (len (slice source 0 72) = 72) by (rewrite len_slice; lia).
    rd. repeat case_match; done.
Qed.

(** A decoded message has exactly one encoding and respects the limits:
    the accepted bytes are the canonical envelope of the returned metadata
    followed by the payload of the declared length, the metadata is nonzero
    where zero is reserved, both lengths are within the limits, and the
    message is the payload decoder's answer on a fresh budget. *)
Theorem decode_message_canonical {P : Protocol} {PS : ProtocolSlices P} source limits dm :
  decode_message source limits = Ok dm ->
  exists payload,
    source = envelope_bytes (dm_envelope dm) ++ payload /\
    len payload = env_payload_len (dm_envelope dm) /\
    Envelope_wf (dm_envelope dm) /\
    env_generation (dm_envelope dm) <> 0 /\ env_sequence (dm_envelope dm) <> 0 /\
    len source <= lim_max_message_bytes limits /\
    len payload <= lim_max_payload_bytes limits /\
    fst (decode_payload payload (DecodeContext_new limits)) = Ok (dm_message dm).
Proof.
  unfold decode_message. change ENVELOPE_LEN with 72. intros H.
  destruct (len source <? 72) eqn:Hl; [discriminate|]. bsplit.
  destruct (_ <? len source) eqn:Hm; [discriminate|]. bsplit. revert H. rd. intros H.
  rinv H. bsplit. apply ok_or_Ok, checked_add_Some in E1 as [-> ?].
  apply decode_envelope_inv in E as (Hb & Hw & Hg & Hq); [|rewrite len_slice; lia].
  exists (slice source 72 (len source)). cbn [dm_envelope dm_message].
  rewrite len_slice by lia. split_and!; try done; try lia.
  rewrite <- Hb, slice_cat by lia. symmetry. now apply slice_full.
Qed.

(** [RelativeRange::new] is exact: for [u32] offsets and lengths it
    accepts precisely the ranges inside the containing record, the overflow
    error is unreachable, and an accepted range indexes every record of that
    length without panicking. *)
Theorem relative_range_exact offset length containing :
  u32 offset -> u32 length -> usize containing ->
  RelativeRange_new offset length containing
  = (if offset + length <=? containing
     then Ok (offset, offset + length)
     else Err (DecodeError_RelativeRangeOutOfBounds offset length containing)) /\
  (forall (record : bytes) r,
     len record = containing -> RelativeRange_new offset length containing = Ok r ->
     index_range (E := DecodeError) record (fst r) (snd r)
     = Ok (slice record offset (offset + length))).
Proof.
  intros Ho Hl Hc. unfold RelativeRange_new. rewrite checked_add_ok by ulia. cbn [ok_or rbind].
  rewrite Z.ltb_antisym. destruct (offset + length <=? containing) eqn:E; cbn [negb]; split; try done.
  intros record r Hr [= <-]. bsplit. apply index_range_ok; cbn [fst snd]; ulia.
Qed.

(** *** The decode budget

    A payload decoder can touch its context only through these operations. *)
Inductive budget_op :=
| OpRecords (count : Z)
| OpAllocation (count : Z)
| OpCopy (source : bytes).

Definition budget_op_wf (o : budget_op) : Prop :=
  match o with
  | OpRecords n | OpAllocation n => u32 n
  | OpCopy _ => True
  end.

Definition granted {A} (r : res DecodeError A) (n : Z) : Z :=
  match r with
  | Ok _ => n
  | _ => 0
  end.

(** One call, with the records and the bytes it was granted. *)
Definition budget_step (o : budget_op) (c : DecodeContext) : (Z * Z) * DecodeContext :=
  match o with
  | OpRecords n => let '(r, c') := claim_records n c in ((granted r n, 0), c')
  | OpAllocation n => let '(r, c') := claim_allocation n c in ((0, granted r n), c')
  | OpCopy s => let '(r, c') := copy_bytes s c in ((0, granted r (len s)), c')
  end.

Fixpoint budget_run (os : list budget_op) (c : DecodeContext) : (Z * Z) * DecodeContext :=
  match os with
  | [] => ((0, 0), c)
  | o :: os =>
      let '((r, a), c') := budget_step o c in
      let '((rs, al), c'') := budget_run os c' in
      ((r + rs, a + al), c'')
  end.

Lemma budget_step_conserves o c r a c' :
  budget_op_wf o -> 0 <= dc_records_remaining c -> 0 <= dc_allocation_remaining c ->
  budget_step o c = ((r, a), c') ->
  0 <= r /\ 0 <= a /\
  dc_records_remaining c' + r = dc_records_remaining c /\ 0 <= dc_records_remaining c' /\
  dc_allocation_remaining c' + a = dc_allocation_remaining c /\ 0 <= dc_allocation_remaining c'.
Proof.
  intros Ho Hr Ha H. unfold budget_step, copy_bytes, claim_records, claim_allocation, sbind, sget, slift, sput, sret, checked_sub in H.
  destruct o as [n|n|s]; simpl in Ho, H.
  - destruct (Z.leb_spec n (dc_records_remaining c)); simplify_eq/=; ulia.
  - destruct (Z.leb_spec n (dc_allocation_remaining c)); simplify_eq/=; ulia.
  - destruct (try_from U32_MAX (len s)) eqn:E; simplify_eq/=; [|ulia].
    apply try_from_Some in E as [-> E].
    destruct (Z.leb_spec (len s) (dc_allocation_remaining c)); simplify_eq/=; ulia.
Qed.

Lemma budget_run_conserves os : forall c r a c',
  Forall budget_op_wf os -> 0 <= dc_records_remaining c -> 0 <= dc_allocation_remaining c ->
  budget_run os c = ((r, a), c') ->
  0 <= r /\ 0 <= a /\
  dc_records_remaining c' + r = dc_records_remaining c /\ 0 <= dc_records_remaining c' /\
  dc_allocation_remaining c' + a = dc_allocation_remaining c /\ 0 <= dc_allocation_remaining c'.
Proof.
  induction os as [|o os IH]; intros c r a c' Hw Hr Ha H; simpl in H; [simplify_eq; lia|].
  destruct (budget_step o c) as [[r1 a1] c1] eqn:E1.
  destruct (budget_run os c1) as [[r2 a2] c2] eqn:E2. simplify_eq.
  apply Forall_cons_1 in Hw as [Ho Hw].
  apply budget_step_conserves in E1; [|done..].
  apply IH in E2; [|done|lia|lia]. lia.
Qed.

(** The budget is never overspent: whatever sequence of claims and copies a
    decoder makes, failed ones included, the records and bytes it is granted in
    total stay within the limits the context was created from, and what is left
    is exactly the difference. *)
Theorem decode_budget_respected limits os r a c' :
  u32 (lim_max_records limits) -> u32 (lim_max_allocation_bytes limits) ->
  Forall budget_op_wf os ->
  budget_run os (DecodeContext_new limits) = ((r, a), c') ->
  0 <= r <= lim_max_records limits /\
  0 <= a <= lim_max_allocation_bytes limits /\
  dc_records_remaining c' = lim_max_records limits - r /\
  dc_allocation_remaining c' = lim_max_allocation_bytes limits - a.
Proof.
  intros Hr Ha Hw H. apply budget_run_conserves in H; [|done|simpl; ulia|simpl; ulia]. simpl in H. ulia.
Qed.

(** ** The example protocol and the witnesses *)

Definition CounterProtocol_encode_payload (message : Z) : stm bytes EncodeError Z :=
  let! destination := sget in
  if len destination <? 4 then serr (EncodeError_DestinationTooSmall 4 (len destination)) else
  supdate (fun d => copy_range d 0 4 (le_bytes 4 message)) >>!
  sret 4.

Definition CounterProtocol_decode_payload (source : bytes) : stm DecodeContext DecodeError Z :=
  if len source =? 4 then sret (le_val source) else serr (DecodeError_Protocol 1).

#[export] Instance CounterProtocol : Protocol := {
  Message := Z;
  message_wf := u32;
  SCHEMA_ID := replicate 32 x43;
  encode_payload := CounterProtocol_encode_payload;
  decode_payload := CounterProtocol_decode_payload
}.

Lemma counter_encode_cases m d :
  CounterProtocol_encode_payload m d
  = if len d <? 4 then (Err (EncodeError_DestinationTooSmall 4 (len d)), d)
    else (Ok 4, splice d 0 (le_bytes 4 m)).
Proof.
  unfold CounterProtocol_encode_payload, sbind, sget, serr, supdate, sret.
  destruct (len d <? 4) eqn:E; [done|]. bsplit. rd. done.
Qed.

#[export] Instance CounterProtocol_slices : ProtocolSlices CounterProtocol.
Proof.
  split; [done| |]; intros m d; simpl; rewrite counter_encode_cases; destruct (_ <? _); simpl.
  - done.
  - apply len_splice.
  - done.
  - intros n d' [= <- <-]. ulia.
Qed.

#[export] Instance CounterProtocol_total : ProtocolTotal CounterProtocol.
Proof.
  split; intros; simpl.
  - rewrite counter_encode_cases. by destruct (_ <? _).
  - unfold CounterProtocol_decode_payload. by destruct (_ =? _).
Qed.

#[export] Instance CounterProtocol_roundtrip limits : ProtocolRoundTrip CounterProtocol limits.
Proof.
  split. simpl. intros m d n d' Hm. rewrite counter_encode_cases.
  destruct (len d <? 4) eqn:E; [done|]. bsplit. intros [= <- <-] _.
  unfold CounterProtocol_decode_payload.
  rewrite slice_splice_eq by (len_solve || done). rewrite len_le_bytes. simpl.
  f_equal. now apply le_val_u32.
Qed.

Definition example_limits : Limits := Limits_new 128 16 1 16.

Lemma message_roundtrip_witness :
  exists wire,
  encode_message (P := CounterProtocol) (Envelope_new 1 0 7 1) 42 (zeros 128) = (Ok 76, wire) /\
  decode_message (slice wire 0 76) example_limits
  = Ok {| dm_envelope := with_len (Envelope_new 1 0 7 1) 4; dm_message := 42 |}.
Proof.
  eexists. split; [vm_compute; reflexivity|].
  refine (message_roundtrip example_limits (Envelope_new 1 0 7 1) 42 (zeros 128) 76 _ _ _ _ _ _).
  - vm_compute. intuition discriminate.
  - vm_compute. intuition discriminate.
  - vm_compute. reflexivity.
  - vm_compute. discriminate.
  - vm_compute. discriminate.
Defined.

Lemma decode_message_total_witness :
  decode_message (replicate 80 x4e) example_limits <> Panic.
Proof. apply (decode_message_total (P := CounterProtocol)). Defined.

Definition wire_42 : bytes :=
  Eval vm_compute in
    slice (snd (encode_message (P := CounterProtocol) (Envelope_new 1 0 7 1) 42 (zeros 128)))
      0 76.

Lemma decode_message_canonical_witness :
  exists payload,
    wire_42 = envelope_bytes (P := CounterProtocol) (with_len (Envelope_new 1 0 7 1) 4) ++ payload.
Proof.
  assert (H : decode_message (P := CounterProtocol) wire_42 example_limits
              = Ok {| dm_envelope := with_len (Envelope_new 1 0 7 1) 4;
                      dm_message := 42 |}) by (vm_compute; reflexivity).
  destruct (decode_message_canonical _ _ _ H) as (payload & Hw & _).
  exists payload. exact Hw.
Defined.

Lemma relative_range_exact_witness :
  RelativeRange_new 8 16 24 = Ok (8, 24) /\
  RelativeRange_new 8 17 24 = Err (DecodeError_RelativeRangeOutOfBounds 8 17 24).
Proof.
  split.
  - apply (relative_range_exact 8 16 24); ulia.
  - apply (relative_range_exact 8 17 24); ulia.
Defined.

Lemma decode_budget_respected_witness :
  exists c, budget_run [OpRecords 1; OpRecords 1; OpCopy (zeros 10); OpAllocation 7; OpAllocation 6]
              (DecodeContext_new example_limits) = ((1, 16), c) /\
            dc_allocation_remaining c = 0.
Proof.
  eexists. split; [vm_compute; reflexivity|].
  refine (proj2 (proj2 (proj2 (decode_budget_respected example_limits
    [OpRecords 1; OpRecords 1; OpCopy (zeros 10); OpAllocation 7; OpAllocation 6] 1 16 _ _ _ _ _)))).
  - vm_compute. intuition discriminate.
  - vm_compute. intuition discriminate.
  - repeat constructor; vm_compute; intuition discriminate.
  - vm_compute. reflexivity.
Defined.
