(* ===== verification/Tools.v ===== *)
(** * Tools: searching, parsing and triples

    Three techniques the components share: checked indexing and binary search,
    parsers that accept exactly what a writer produces, and weakest
    preconditions for code with a mutable receiver. *)

From S2P Require Import Prelude.

(** ** Search: checked indexing and binary search of a list

    [v[i]] and [slice::binary_search_by] of the standard library, and what the
    search finds in a list along which the comparison is monotone. *)

Definition index {E A} (l : list A) (i : Z) : res E A :=
  if i <? 0 then Panic else expect (l !! Z.to_nat i).

(** [slice::binary_search_by]: the halving loop of the standard library. The
    fuel is the size of the interval, which every iteration shrinks. *)
Fixpoint bsearch_loop {E A} (cmp : A -> res E comparison) (l : list A) (fuel : nat) (base size : Z)
  : res E Z :=
  if size <=? 1 then Ok base else
  match fuel with
  | O => Panic
  | S fuel =>
      let half := size / 2 in
      let? x := index l (base + half) in
      let? c := cmp x in
      bsearch_loop cmp l fuel (match c with Gt => base | _ => base + half end) (size - half)
  end.

Definition binary_search_by {E A} (cmp : A -> res E comparison) (l : list A) : res E (option Z) :=
  if len l =? 0 then Ok None else
  let? base := bsearch_loop cmp l (length l) 0 (len l) in
  let? x := index l base in
  let? c := cmp x in
  Ok (match c with Eq => Some base | _ => None end).

Section BinarySearch.
Context {E A : Type} (f : A -> res E comparison) (c : A -> comparison) (l : list A).
Hypothesis Hf : forall x, x ∈ l -> f x = Ok (c x).
(** The comparison answers [Less .. Equal .. Greater] along the list, with at
    most one [Equal]. *)
Hypothesis Hmono : forall i j x y, l !! i = Some x -> l !! j = Some y -> (i < j)%nat ->
  (c y = Eq -> c x = Lt) /\ (c x = Eq -> c y = Gt).

Lemma index_ok (i : Z) x : 0 <= i -> l !! Z.to_nat i = Some x -> index (E := E) l i = Ok x.
Proof. intros Hi Hx. unfold index. replace (i <? 0) with false by lia. now rewrite Hx. Qed.

Lemma bsearch_loop_spec fuel base size :
  0 <= base -> 1 <= size -> base + size <= len l -> size <= Z.of_nat fuel + 1 ->
  exists r, bsearch_loop f l fuel base size = Ok r /\ base <= r < base + size /\
    forall i x, l !! i = Some x -> c x = Eq -> base <= Z.of_nat i < base + size -> Z.of_nat i = r.
Proof.
  revert base size. induction fuel as [|fuel IH]; intros base size Hb Hs Hl Hfu; simpl.
  - replace (size <=? 1) with true by lia. exists base. split_and!; (done || lia || (intros; lia)).
  - destruct (size <=? 1) eqn:E1; bsplit.
    { exists base. split_and!; (done || lia || (intros; lia)). }
    assert (Hh : 1 <= size / 2 /\ 2 * (size / 2) <= size)
      by (pose proof (Z_div_mod_eq_full size 2); pose proof (Z.mod_pos_bound size 2); lia).
    set (half := size / 2) in *.
    destruct (lookup_lt_is_Some_2 l (Z.to_nat (base + half))) as [x Hx]; [unfold len in *; lia|].
    rewrite (index_ok (base + half) x) by (done || lia). simpl.
    rewrite Hf by (eapply list_elem_of_lookup_2; done). simpl.
    destruct (IH (match c x with Gt => base | _ => base + half end) (size - half))
      as (r & -> & Hr & Heq); [destruct (c x); lia..|].
    exists r. split_and!; [done|destruct (c x); lia..|].
    intros i y Hy Hcy Hi. eapply Heq; try done.
    destruct (decide (i < Z.to_nat (base + half))%nat) as [Hlt|Hge].
    + destruct (Hmono _ _ _ _ Hy Hx Hlt) as [_ ->]; [lia|done].
    + destruct (c x) eqn:Hcx; try lia.
      destruct (decide (i = Z.to_nat (base + half))) as [->|]; [congruence|].
      assert (Hgt : (Z.to_nat (base + half) < i)%nat) by lia.
      destruct (Hmono _ _ _ _ Hx Hy Hgt) as [Hl' _]. rewrite Hl' in Hcx by done. discriminate.
Qed.

Lemma binary_search_by_spec :
  exists o, binary_search_by f l = Ok o /\
    match o with
    | Some r => 0 <= r /\ exists x, l !! Z.to_nat r = Some x /\ c x = Eq
    | None => forall x, x ∈ l -> c x <> Eq
    end.
Proof.
  unfold binary_search_by. destruct (len l =? 0) eqn:E0; bsplit.
  { exists None. split; [done|]. intros x Hx. destruct l; [set_solver|unfold len in E0; simpl in E0; lia]. }
  destruct (bsearch_loop_spec (length l) 0 (len l)) as (r & -> & Hr & Heq);
    try (unfold len in *; lia). simpl.
  destruct (lookup_lt_is_Some_2 l (Z.to_nat r)) as [x Hx]; [unfold len in *; lia|].
  rewrite (index_ok r x) by (done || lia). simpl.
  rewrite Hf by (eapply list_elem_of_lookup_2; done). simpl.
  eexists. split; [done|]. destruct (c x) eqn:Hcx; [split; [lia|eauto]|..];
    intros y [j Hy]%list_elem_of_lookup Hcy;
    (assert (Z.of_nat j = r) as <- by
       (eapply Heq; try done; pose proof (lookup_lt_Some _ _ _ Hy); unfold len; lia));
    rewrite Nat2Z.id in Hx; congruence.
Qed.

End BinarySearch.

Lemma StronglySorted_lookup_lt {A} (R : A -> A -> Prop) l i j x y :
  StronglySorted R l -> l !! i = Some x -> l !! j = Some y -> (i < j)%nat -> R x y.
Proof.
  intros Hs. revert i j. induction Hs as [|z l Hs IH Hz]; intros i j Hi Hj Hij; [done|].
  destruct j as [|j]; [lia|]. destruct i as [|i]; simpl in *.
  - simplify_eq. rewrite Forall_forall in Hz. apply Hz. eapply list_elem_of_lookup_2; done.
  - apply (IH i j); done || lia.
Qed.

(** ** Parse: parsers that accept exactly what a writer produces

    [srepeat] is the loop [for _ in 0..n { v.push(..?) }] of a decoder whose
    cursor is the state. [parses p w P]: the parser [p] returns [a] exactly when
    [P a] holds and the unread input starts with the bytes [w a], and leaves the
    cursor after them. A cursor is any state with the input it has not read. *)

Fixpoint srepeat {S E A} (n : nat) (m : stm S E A) : stm S E (list A) :=
  match n with
  | O => sret []
  | S n => let! a := m in let! l := srepeat n m in sret (a :: l)
  end.

Section Parsers.
Context {S E : Type} (unread : S -> bytes) (valid : S -> Prop).
Hypothesis Hinj : forall s s', valid s -> valid s' -> unread s = unread s' -> s = s'.
Hypothesis Hsuffix : forall s x y, valid s -> unread s = x ++ y -> exists s', valid s' /\ unread s' = y.

Definition parses {A} (p : stm S E A) (w : A -> bytes) (P : A -> Prop) : Prop :=
  forall s a s', valid s ->
    p s = (Ok a, s') <-> valid s' /\ P a /\ unread s = w a ++ unread s'.

(** The parser has no abnormal exit. *)
Definition safe {A} (p : stm S E A) : Prop :=
  forall s, valid s -> fst (p s) <> Panic /\ forall a s', p s = (Ok a, s') -> valid s'.

Lemma parses_ret {A} (a : A) : parses (sret a) (fun _ => []) (fun x => x = a).
Proof.
  intros s b s' Hs. unfold sret. simpl. split.
  - now intros [= <- <-].
  - intros (Hs' & -> & Heq). now rewrite (Hinj s s' Hs Hs' Heq).
Qed.

Lemma parses_lift {A} (m : res E A) : parses (slift m) (fun _ => []) (fun a => m = Ok a).
Proof.
  intros s b s' Hs. unfold slift. simpl. split.
  - now intros [= -> <-].
  - intros (Hs' & -> & Heq). now rewrite (Hinj s s' Hs Hs' Heq).
Qed.

(** Two parsers in sequence. *)
Lemma parses_then {A B} (p : stm S E A) w (P : A -> Prop) (k : A -> stm S E B) w' (Q : A -> B -> Prop) :
  parses p w P -> (forall a, P a -> parses (k a) (w' a) (Q a)) ->
  forall s b s', valid s ->
    (let! a := p in k a) s = (Ok b, s') <->
    valid s' /\ exists a, P a /\ Q a b /\ unread s = w a ++ w' a b ++ unread s'.
Proof.
  intros Hp Hk s b s' Hs. unfold sbind. split.
  - destruct (p s) as [[a|e|] t] eqn:Ep; try discriminate. intros Hb.
    apply Hp in Ep as (Ht & Ha & Hu); [|done]. apply (Hk a Ha) in Hb as (Hs' & Hb & Hv); [|done].
    split; [done|]. exists a. split_and!; try done. now rewrite Hu, Hv.
  - intros (Hs' & a & Ha & Hb & Hu). destruct (Hsuffix _ _ _ Hs Hu) as (t & Ht & Hu').
    rewrite <- Hu' in Hu. rewrite (proj2 (Hp s a t Hs)) by done. now apply (Hk _ Ha).
Qed.

Lemma parses_ext {A} (p : stm S E A) w w' (P P' : A -> Prop) :
  parses p w P -> (forall a, P a <-> P' a) -> (forall a, P a -> w a = w' a) -> parses p w' P'.
Proof.
  intros Hp HP Hw s a s' Hs. rewrite (Hp s a s' Hs), HP. split; intros (? & Ha & Hu);
    split_and!; try done; [rewrite <- Hw|rewrite Hw]; try done; now apply HP.
Qed.

Lemma parses_repeat {A} (p : stm S E A) w P n :
  parses p w P ->
  parses (srepeat n p) (fun l => concat (map w l)) (fun l => length l = n /\ Forall P l).
Proof.
  intros Hp. induction n as [|n IH]; intros s l s' Hs; simpl.
  - rewrite (parses_ret [] s l s' Hs). split.
    + now intros (? & -> & ?).
    + intros (Hs' & [Hl _] & Hu). apply nil_length_inv in Hl as ->. done.
  - rewrite (parses_then p w P _ (fun _ l => concat (map w (tail l)))
      (fun a l => exists t, l = a :: t /\ length t = n /\ Forall P t) Hp); [|clear s l s' Hs|done].
    + split.
      * intros (Hs' & a & Ha & (t & -> & <- & Ht) & Hu). simpl in *. rewrite <- app_assoc. auto.
      * intros (Hs' & [Hl HP] & Hu). destruct l as [|a t]; [done|]. inversion_clear HP.
        split; [done|]. exists a. simpl in *. rewrite <- app_assoc in Hu. split_and!; try done. exists t. auto.
    + intros a Ha s l s' Hs. rewrite (parses_then _ _ _ _ (fun _ _ => []) (fun t l => l = a :: t) IH).
      * split.
        -- intros (Hs' & t & [? ?] & -> & Hu). simpl in Hu. split_and!; eauto.
        -- intros (Hs' & (t & -> & ? & ?) & Hu). simpl in Hu. eauto 8.
      * intros t Ht. exact (parses_ret (a :: t)).
      * done.
Qed.

(** ** No abnormal exit *)

Lemma safe_ret {A} (a : A) : safe (sret a).
Proof. intros s Hs. split; [done|]. now intros ? ? [= _ <-]. Qed.

Lemma safe_err {A} e : safe (serr (A := A) e).
Proof. intros s Hs. split; done. Qed.

Lemma safe_lift {A} (m : res E A) : m <> Panic -> safe (slift m).
Proof. intros Hm s Hs. split; [done|]. now intros ? ? [= _ <-]. Qed.

Lemma safe_bind {A B} (p : stm S E A) (k : A -> stm S E B) :
  safe p -> (forall a, safe (k a)) -> safe (let! a := p in k a).
Proof.
  intros Hp Hk s Hs. unfold sbind. destruct (Hp s Hs) as [Hn Hv]. destruct (p s) as [[a|e|] t]; simpl in *.
  - apply (Hk a). eauto.
  - split; done.
  - done.
Qed.

Lemma safe_repeat {A} (p : stm S E A) n : safe p -> safe (srepeat n p).
Proof.
  intros Hp. induction n; simpl; [apply safe_ret|].
  apply safe_bind; [done|]. intros a. apply safe_bind; [done|]. intros l. apply safe_ret.
Qed.

End Parsers.

(** ** Triple: weakest preconditions for code with a mutable receiver

    [wp m Q s] says that [m] run from [s] ends with an outcome and a state that
    satisfy [Q]; [Q] sees errors and panics too, so that a postcondition also
    states what an error leaves behind and that there is no panic. The rules
    follow the combinators of [Prelude.v]; [wp_step] applies them. *)

Definition wp {S E A} (m : stm S E A) (Q : res E A -> S -> Prop) (s : S) : Prop :=
  let '(r, s') := m s in Q r s'.

(** A [for] loop whose body updates an accumulator and may leave early. *)
Fixpoint sfor {S E A B} (l : list A) (f : A -> B -> stm S E B) (b : B) : stm S E B :=
  match l with
  | [] => sret b
  | x :: l => let! b' := f x b in sfor l f b'
  end.

Section Rules.
Context {S E : Type}.

Lemma wp_intro {A} (m : stm S E A) Q s : (forall r s', m s = (r, s') -> Q r s') -> wp m Q s.
Proof. unfold wp. intros H. destruct (m s) as [r s'] eqn:Em. auto. Qed.

Lemma wp_elim {A} (m : stm S E A) Q s r s' : wp m Q s -> m s = (r, s') -> Q r s'.
Proof. unfold wp. intros H Hm. now rewrite Hm in H. Qed.

Lemma wp_mono {A} (m : stm S E A) (P Q : res E A -> S -> Prop) s :
  wp m P s -> (forall r s', P r s' -> Q r s') -> wp m Q s.
Proof. unfold wp. destruct (m s). auto. Qed.

(** What [sbind] does with an outcome. *)
Definition bound {A B} (k : A -> stm S E B) (Q : res E B -> S -> Prop) (r : res E A) (s : S) : Prop :=
  match r with
  | Ok a => wp (k a) Q s
  | Err e => Q (Err e) s
  | Panic => Q Panic s
  end.

Lemma wp_bind {A B} (m : stm S E A) (k : A -> stm S E B) Q s :
  wp m (bound k Q) s -> wp (sbind m k) Q s.
Proof. unfold wp, bound, sbind. destruct (m s) as [[a|e|] s']; auto. Qed.

Lemma wp_ret {A} (a : A) Q s : Q (Ok a) s -> wp (sret (S := S) (E := E) a) Q s.
Proof. exact id. Qed.
Lemma wp_err {A} e Q s : Q (Err e) s -> wp (serr (S := S) (E := E) (A := A) e) Q s.
Proof. exact id. Qed.
Lemma wp_lift {A} (r : res E A) Q s : Q r s -> wp (slift (S := S) r) Q s.
Proof. exact id. Qed.
Lemma wp_get Q s : Q (Ok s) s -> wp (sget (S := S) (E := E)) Q s.
Proof. exact id. Qed.
Lemma wp_put s' Q s : Q (Ok tt) s' -> wp (sput (S := S) (E := E) s') Q s.
Proof. exact id. Qed.
Lemma wp_modify f Q s : Q (Ok tt) (f s) -> wp (smodify (S := S) (E := E) f) Q s.
Proof. exact id. Qed.

Lemma wp_map_err {F A} (f : F -> E) (m : stm S F A) Q s :
  wp m (fun r s' => Q (map_err f r) s') s -> wp (smap_err f m) Q s.
Proof. unfold wp, smap_err. destruct (m s). auto. Qed.

(** Code that inspects the outcome itself. *)
Lemma wp_match {F A B} (m : stm S E A) (f : A -> stm S F B) (g : E -> stm S F B) Q s :
  wp m (fun r s' => match r with Ok a => wp (f a) Q s' | Err e => wp (g e) Q s' | Panic => Q Panic s' end) s ->
  wp (fun s => match m s with (Ok a, s') => f a s' | (Err e, s') => g e s' | (Panic, s') => (Panic, s') end) Q s.
Proof. unfold wp. now destruct (m s) as [[a|e|] s']. Qed.

Lemma wp_eta {A} (m : stm S E A) Q s : wp m Q s -> wp (fun s => m s) Q s.
Proof. exact id. Qed.

(** A statement whose outcome is known. *)
Lemma wp_run {A B} (m : stm S E A) (k : A -> stm S E B) Q s a s' :
  m s = (Ok a, s') -> wp (k a) Q s' -> wp (sbind m k) Q s.
Proof. intros Hm H. apply wp_bind. unfold wp. now rewrite Hm. Qed.

Lemma wp_and {A} (m : stm S E A) P Q s : wp m P s -> wp m Q s -> wp m (fun r s' => P r s' /\ Q r s') s.
Proof. unfold wp. now destruct (m s). Qed.

End Rules.

(** [wp_step]: one rule, chosen by the head of the program. *)
Ltac wp_step :=
  lazymatch goal with
  | |- wp (sbind _ _) _ _ => apply wp_bind
  | |- wp (sret _) _ _ => apply wp_ret
  | |- wp (serr _) _ _ => apply wp_err
  | |- wp (slift _) _ _ => apply wp_lift
  | |- wp sget _ _ => apply wp_get
  | |- wp (sput _) _ _ => apply wp_put
  | |- wp (smodify _) _ _ => apply wp_modify
  | |- wp (smap_err _ _) _ _ => apply wp_map_err
  | |- wp (if ?b then _ else _) _ _ => let E := fresh "E" in destruct b eqn:E
  | |- bound _ _ (Ok _) _ => cbn [bound]
  | |- bound _ _ (Err _) _ => cbn [bound]
  | |- bound _ _ Panic _ => cbn [bound]
  | |- bound _ _ (map_err _ _) _ => cbn [map_err]
  | |- context [map_err _ (Ok _)] => cbn [map_err]
  | |- context [map_err _ (Err _)] => cbn [map_err]
  end.
Ltac wp_steps := repeat (wp_step; cbn beta).
