(* ===== verification/Layout.v ===== *)
(** * Layout: independent directional regions ([native-ipc-core/src/layout.rs])

    The region header, the calculation of a region's layout, the composition
    of several regions with their acknowledgement routes, the initialisation
    of a mapping and its validation, and the checked ranges a validated layout
    hands out. *)

From S2P Require Import Prelude Bytes Codec Tools.

(** ** Constants and data *)

Definition CACHE_LINE : Z := 64.
(** [*b"NIPCREG\0"]. *)
Definition REGION_MAGIC : bytes := [x4e; x49; x50; x43; x52; x45; x47; x00].
Definition REGION_HEADER_SIZE : Z := 128.
Definition SLOT_HEADER_SIZE : Z := 64.
Definition ACKNOWLEDGEMENT_CELL_SIZE : Z := 64.

(** A [RoleId] is its numeric value. *)
Definition RoleId : Type := Z.
Definition RoleId_new (value : Z) : option RoleId :=
  if value =? 0 then None else Some value.

Inductive Endpoint := Initiator | Responder.

Definition Endpoint_raw (e : Endpoint) : Z :=
  match e with
  | Initiator => 1
  | Responder => 2
  end.

Definition Endpoint_from_raw (raw : Z) : option Endpoint :=
  if raw =? 1 then Some Initiator else if raw =? 2 then Some Responder else None.

#[export] Instance Endpoint_eq_dec : EqDecision Endpoint.
Proof. solve_decision. Defined.

Record RegionSpec := {
  rs_role : RoleId;
  rs_writer : Endpoint;
  rs_slot_count : Z;
  rs_payload_bytes : Z;
  rs_acknowledgement_count : Z
}.

Record AcknowledgementRouteSpec := {
  ars_owner : RoleId;
  ars_target : RoleId;
  ars_slot_index : Z;
  ars_cell_index : Z
}.

Record AcknowledgementRoute := {
  ar_owner : RoleId;
  ar_target : RoleId;
  ar_slot_index : Z;
  ar_cell_index : Z
}.

#[export] Instance AcknowledgementRoute_eq_dec : EqDecision AcknowledgementRoute.
Proof. solve_decision. Defined.

Record LayoutLimits := {
  ll_maximum_mapping_size : Z;
  ll_maximum_slot_count : Z;
  ll_maximum_acknowledgement_count : Z;
  ll_maximum_payload_bytes : Z
}.

Record RegionHeader := {
  rh_total_size : Z;
  rh_schema_id : bytes;
  rh_generation : Z;
  rh_role : Z;
  rh_writer : Z;
  rh_acknowledgement_offset : Z;
  rh_acknowledgement_count : Z;
  rh_acknowledgement_stride : Z;
  rh_slots_offset : Z;
  rh_slot_count : Z;
  rh_slot_stride : Z;
  rh_payload_capacity : Z
}.

#[export] Instance RegionHeader_eq_dec : EqDecision RegionHeader.
Proof. solve_decision. Defined.

(** [RegionLayout] has the header as its only field. *)
Record RegionLayout := { rl_header : RegionHeader }.

Record RegionSetLayout := {
  rsl_regions : list RegionLayout;
  rsl_routes : list AcknowledgementRoute;
  rsl_route_lookup : list Z
}.

Record ValidationExpectations := {
  ve_schema_id : bytes;
  ve_generation : Z;
  ve_role : RoleId;
  ve_writer : Endpoint;
  ve_maximum_mapping_size : Z
}.

(** A [Range<usize>] is the pair of its bounds. *)
Record ValidatedRegionLayout := {
  vrl_header : RegionHeader;
  vrl_acknowledgements : Z * Z;
  vrl_slots : Z * Z;
  vrl_mapping_size : Z;
  vrl_routes : list AcknowledgementRoute
}.

Inductive LayoutError :=
| LayoutError_Overflow
| LayoutError_AllocationFailed
| LayoutError_ZeroGeneration
| LayoutError_EmptyRegionSet
| LayoutError_DuplicateRole (role : RoleId)
| LayoutError_LimitExceeded
| LayoutError_EmptySlots
| LayoutError_MappingTooSmall (required actual : Z)
| LayoutError_BadMagic
| LayoutError_BadVersion (major minor : Z)
| LayoutError_BadHeaderSize (size : Z)
| LayoutError_SchemaMismatch
| LayoutError_StaleGeneration (expected actual : Z)
| LayoutError_UnexpectedRole (expected : RoleId) (actual : Z)
| LayoutError_UnexpectedWriter
| LayoutError_ReservedFieldSet
| LayoutError_BadTotalSize
| LayoutError_BadAcknowledgementLayout
| LayoutError_AcknowledgementNotZero
| LayoutError_BadSlotLayout
| LayoutError_SlotMetadataNotInitialized
| LayoutError_BadSlotStride
| LayoutError_RangeOutOfBounds
| LayoutError_SlotOutOfBounds (slot count : Z)
| LayoutError_AcknowledgementOutOfBounds (index count : Z)
| LayoutError_PayloadOutOfBounds (length capacity : Z)
| LayoutError_CapabilityPaddingNotZero
| LayoutError_InvalidAcknowledgementRoute
| LayoutError_DuplicateAcknowledgementRoute
| LayoutError_IncompleteAcknowledgementRoutes
| LayoutError_RouteRegionMismatch
| LayoutError_TopologyMismatch.

(** ** Arithmetic helpers *)

(** [!(alignment - 1)] on a [u64] is [U64_MAX - (alignment - 1)]. *)
Definition align_up (value alignment : Z) : res LayoutError Z :=
  match checked_add U64_MAX value (alignment - 1) with
  | Some sum => Ok (Z.land sum (U64_MAX - (alignment - 1)))
  | None => Err LayoutError_Overflow
  end.

Definition checked_range (start stop total mapped_len : Z) : res LayoutError (Z * Z) :=
  if (stop <? start) || (total <? stop) || (mapped_len <? stop) || (USIZE_MAX <? stop)
  then Err LayoutError_RangeOutOfBounds
  else Ok (start, stop).

(** ** Calculating one region *)

Definition validate_counts (spec : RegionSpec) (limits : LayoutLimits) : res LayoutError unit :=
  if (rs_slot_count spec =? 0) || (rs_payload_bytes spec =? 0) then Err LayoutError_EmptySlots else
  if (ll_maximum_slot_count limits <? rs_slot_count spec)
     || (ll_maximum_payload_bytes limits <? rs_payload_bytes spec)
     || (ll_maximum_acknowledgement_count limits <? rs_acknowledgement_count spec)
  then Err LayoutError_LimitExceeded
  else Ok tt.

Definition RegionLayout_calculate (schema_id : bytes) (generation : Z) (spec : RegionSpec)
  (limits : LayoutLimits) : res LayoutError RegionLayout :=
  validate_counts spec limits >>?
  let acknowledgement_offset := REGION_HEADER_SIZE in
  let? acknowledgement_len :=
    ok_or (checked_mul U64_MAX (rs_acknowledgement_count spec) ACKNOWLEDGEMENT_CELL_SIZE)
          LayoutError_Overflow in
  let? unaligned :=
    ok_or (checked_add U64_MAX acknowledgement_offset acknowledgement_len) LayoutError_Overflow in
  let? slots_offset := align_up unaligned CACHE_LINE in
  let? unaligned_stride :=
    ok_or (checked_add U64_MAX SLOT_HEADER_SIZE (rs_payload_bytes spec)) LayoutError_Overflow in
  let? slot_stride := align_up unaligned_stride CACHE_LINE in
  let? slots_len := ok_or (checked_mul U64_MAX slot_stride (rs_slot_count spec))
                          LayoutError_Overflow in
  let? total_size := ok_or (checked_add U64_MAX slots_offset slots_len) LayoutError_Overflow in
  if (U32_MAX <? slot_stride) || (ll_maximum_mapping_size limits <? total_size)
     || (USIZE_MAX <? total_size)
  then Err LayoutError_LimitExceeded
  else Ok {| rl_header := {|
    rh_total_size := total_size;
    rh_schema_id := schema_id;
    rh_generation := generation;
    rh_role := rs_role spec;
    rh_writer := Endpoint_raw (rs_writer spec);
    rh_acknowledgement_offset := acknowledgement_offset;
    rh_acknowledgement_count := rs_acknowledgement_count spec;
    rh_acknowledgement_stride := ACKNOWLEDGEMENT_CELL_SIZE;
    rh_slots_offset := slots_offset;
    rh_slot_count := rs_slot_count spec;
    rh_slot_stride := slot_stride;
    rh_payload_capacity := rs_payload_bytes spec |} |}.

Definition RegionLayout_role (self : RegionLayout) : RoleId := rh_role (rl_header self).

Definition RegionLayout_writer {E} (self : RegionLayout) : res E Endpoint :=
  expect (Endpoint_from_raw (rh_writer (rl_header self))).

(** ** Header encoding *)

Definition encode_header (header : RegionHeader) (d : bytes) : res LayoutError bytes :=
  let? d := copy_range d 0 8 REGION_MAGIC in
  let? d := put_u16 d 8 VERSION_MAJOR in
  let? d := put_u16 d 10 VERSION_MINOR in
  let? d := put_u32 d 12 REGION_HEADER_SIZE in
  let? d := put_u64 d 16 (rh_total_size header) in
  let? d := copy_range d 24 56 (rh_schema_id header) in
  let? d := put_u64 d 56 (rh_generation header) in
  let? d := put_u32 d 64 (rh_role header) in
  let? d := put_u32 d 68 (rh_writer header) in
  let? d := put_u64 d 72 (rh_acknowledgement_offset header) in
  let? d := put_u32 d 80 (rh_acknowledgement_count header) in
  let? d := put_u32 d 84 (rh_acknowledgement_stride header) in
  let? d := put_u64 d 88 (rh_slots_offset header) in
  let? d := put_u32 d 96 (rh_slot_count header) in
  let? d := put_u32 d 100 (rh_slot_stride header) in
  let? d := put_u32 d 104 (rh_payload_capacity header) in
  let? d := put_u32 d 108 0 in
  fill_zero d 112 128.

Definition decode_header (s : bytes) : res LayoutError RegionHeader :=
  let? schema_id := index_range s 24 56 in
  let? total_size := get_u64 s 16 in
  let? generation := get_u64 s 56 in
  let? role := get_u32 s 64 in
  let? writer := get_u32 s 68 in
  let? acknowledgement_offset := get_u64 s 72 in
  let? acknowledgement_count := get_u32 s 80 in
  let? acknowledgement_stride := get_u32 s 84 in
  let? slots_offset := get_u64 s 88 in
  let? slot_count := get_u32 s 96 in
  let? slot_stride := get_u32 s 100 in
  let? payload_capacity := get_u32 s 104 in
  Ok {| rh_total_size := total_size; rh_schema_id := schema_id; rh_generation := generation;
        rh_role := role; rh_writer := writer;
        rh_acknowledgement_offset := acknowledgement_offset;
        rh_acknowledgement_count := acknowledgement_count;
        rh_acknowledgement_stride := acknowledgement_stride;
        rh_slots_offset := slots_offset; rh_slot_count := slot_count;
        rh_slot_stride := slot_stride; rh_payload_capacity := payload_capacity |}.

Definition validate_header_encoding (s : bytes) : res LayoutError unit :=
  let? magic := index_range s 0 8 in
  if negb (bool_decide (magic = REGION_MAGIC)) then Err LayoutError_BadMagic else
  let? major := get_u16 s 8 in
  let? minor := get_u16 s 10 in
  if negb (major =? VERSION_MAJOR) || negb (minor =? VERSION_MINOR)
  then Err (LayoutError_BadVersion major minor) else
  let? header_size := get_u32 s 12 in
  if negb (header_size =? REGION_HEADER_SIZE) then Err (LayoutError_BadHeaderSize header_size) else
  let? reserved := get_u32 s 108 in
  if negb (reserved =? 0) then Err LayoutError_ReservedFieldSet else
  let? tail := index_range s 112 128 in
  if any_nonzero tail then Err LayoutError_ReservedFieldSet else
  Ok tt.

Definition validate_header (header : RegionHeader) (mapped_len : Z)
  (expected : ValidationExpectations) : res LayoutError unit :=
  if negb (bool_decide (rh_schema_id header = ve_schema_id expected))
  then Err LayoutError_SchemaMismatch else
  if negb (rh_generation header =? ve_generation expected)
  then Err (LayoutError_StaleGeneration (ve_generation expected) (rh_generation header)) else
  if negb (rh_role header =? ve_role expected)
  then Err (LayoutError_UnexpectedRole (ve_role expected) (rh_role header)) else
  if negb (bool_decide (Endpoint_from_raw (rh_writer header) = Some (ve_writer expected)))
  then Err LayoutError_UnexpectedWriter else
  if (ve_maximum_mapping_size expected <? mapped_len)
     || (mapped_len <? rh_total_size header)
     || (ve_maximum_mapping_size expected <? rh_total_size header)
     || (USIZE_MAX <? rh_total_size header)
  then Err LayoutError_BadTotalSize else
  if negb (rh_acknowledgement_offset header =? REGION_HEADER_SIZE)
     || negb (rh_acknowledgement_stride header =? ACKNOWLEDGEMENT_CELL_SIZE)
  then Err LayoutError_BadAcknowledgementLayout else
  let? acknowledgement_len :=
    ok_or (checked_mul U64_MAX (rh_acknowledgement_count header) (rh_acknowledgement_stride header))
          LayoutError_Overflow in
  let? unaligned :=
    ok_or (checked_add U64_MAX (rh_acknowledgement_offset header) acknowledgement_len)
          LayoutError_Overflow in
  let? expected_slots_offset := align_up unaligned CACHE_LINE in
  if negb (rh_slots_offset header =? expected_slots_offset)
     || negb (rh_slots_offset header mod CACHE_LINE =? 0)
  then Err LayoutError_BadSlotLayout else
  if (rh_slot_count header =? 0) || (rh_payload_capacity header =? 0)
  then Err LayoutError_EmptySlots
  else Ok tt.

(** ** Initialising a mapping *)

Definition RegionLayout_encode_into (self : RegionLayout) : stm bytes LayoutError unit :=
  let! destination := sget in
  let header := rl_header self in
  let! total := slift (ok_or (try_from USIZE_MAX (rh_total_size header)) LayoutError_Overflow) in
  if len destination <? total
  then serr (LayoutError_MappingTooSmall (rh_total_size header) (len destination)) else
  supdate (fun d => fill_zero d 0 total) >>!
  on_range 0 REGION_HEADER_SIZE (supdate (encode_header header)) >>!
  supdate (fun d =>
    rfor (seqZ 0 (rh_slot_count header)) (fun slot d =>
      let? offset := umul USIZE_MAX slot (rh_slot_stride header) in
      let? start := uadd USIZE_MAX (rh_slots_offset header) offset in
      put_u64 d start (rh_generation header)) d).

(** ** Composing regions *)

Definition find_region (regions : list RegionLayout) (role : RoleId) : option RegionLayout :=
  List.find (fun region => RegionLayout_role region =? role) regions.

Definition same_route (spec : AcknowledgementRouteSpec) (route : AcknowledgementRoute) : bool :=
  ((ar_target route =? ars_target spec) && (ar_slot_index route =? ars_slot_index spec))
  || ((ar_owner route =? ars_owner spec) && (ar_cell_index route =? ars_cell_index spec)).

Definition validated_route (spec : AcknowledgementRouteSpec) : AcknowledgementRoute :=
  {| ar_owner := ars_owner spec; ar_target := ars_target spec;
     ar_slot_index := ars_slot_index spec; ar_cell_index := ars_cell_index spec |}.

(** The body of the loop of [validate_routes]. *)
Definition validate_route (regions : list RegionLayout) (spec : AcknowledgementRouteSpec)
  (routes : list AcknowledgementRoute) : res LayoutError (list AcknowledgementRoute) :=
  let? owner := ok_or (find_region regions (ars_owner spec))
                      LayoutError_InvalidAcknowledgementRoute in
  let? target := ok_or (find_region regions (ars_target spec))
                       LayoutError_InvalidAcknowledgementRoute in
  if RegionLayout_role owner =? RegionLayout_role target
  then Err LayoutError_InvalidAcknowledgementRoute else
  let? owner_writer := RegionLayout_writer owner in
  let? target_writer := RegionLayout_writer target in
  if bool_decide (owner_writer = target_writer)
     || (rh_slot_count (rl_header target) <=? ars_slot_index spec)
     || (rh_acknowledgement_count (rl_header owner) <=? ars_cell_index spec)
  then Err LayoutError_InvalidAcknowledgementRoute else
  if existsb (same_route spec) routes then Err LayoutError_DuplicateAcknowledgementRoute else
  Ok (routes ++ [validated_route spec]).

Definition checked_total (count : RegionLayout -> Z) (regions : list RegionLayout)
  : res LayoutError Z :=
  rfor regions
    (fun region total => ok_or (checked_add USIZE_MAX total (count region)) LayoutError_Overflow) 0.

Definition validate_routes {AL : Allocator} (regions : list RegionLayout)
  (specs : list AcknowledgementRouteSpec) : res LayoutError (list AcknowledgementRoute) :=
  let? total_slots := checked_total (fun region => rh_slot_count (rl_header region)) regions in
  let? total_cells :=
    checked_total (fun region => rh_acknowledgement_count (rl_header region)) regions in
  if negb (len specs =? total_slots) || negb (len specs =? total_cells)
  then Err LayoutError_IncompleteAcknowledgementRoutes else
  if negb (try_reserve_exact (len specs)) then Err LayoutError_AllocationFailed else
  rfor specs (validate_route regions) [].

(** The sort key of the lookup and its order. *)
Definition route_key (route : AcknowledgementRoute) : Z * Z :=
  (ar_target route, ar_slot_index route).

Definition key_compare (a b : Z * Z) : comparison :=
  match fst a ?= fst b with
  | Eq => snd a ?= snd b
  | c => c
  end.

Definition key_leb (a b : Z * Z) : bool :=
  match key_compare a b with
  | Gt => false
  | _ => true
  end.

(** The sort compares [routes[i]] for indices [i] of [routes], which exist. *)
Definition index_leb (routes : list AcknowledgementRoute) (i j : Z) : bool :=
  match routes !! Z.to_nat i, routes !! Z.to_nat j with
  | Some a, Some b => key_leb (route_key a) (route_key b)
  | _, _ => true
  end.

Definition build_route_lookup {AL : Allocator} (routes : list AcknowledgementRoute)
  : res LayoutError (list Z) :=
  if negb (try_reserve_exact (len routes)) then Err LayoutError_AllocationFailed else
  Ok (sort_by (index_leb routes) (seqZ 0 (len routes))).

Definition RegionSetLayout_calculate {AL : Allocator} (schema_id : bytes) (generation : Z)
  (specs : list RegionSpec) (route_specs : list AcknowledgementRouteSpec) (limits : LayoutLimits)
  : res LayoutError RegionSetLayout :=
  if generation =? 0 then Err LayoutError_ZeroGeneration else
  if bool_decide (specs = []) then Err LayoutError_EmptyRegionSet else
  if negb (try_reserve_exact (len specs)) then Err LayoutError_AllocationFailed else
  let? regions :=
    rfor (imap pair specs)
      (fun '(i, spec) regions =>
         if existsb (fun prior => rs_role prior =? rs_role spec) (take i specs)
         then Err (LayoutError_DuplicateRole (rs_role spec)) else
         let? region := RegionLayout_calculate schema_id generation spec limits in
         Ok (regions ++ [region])) [] in
  let? routes := validate_routes regions route_specs in
  let? route_lookup := build_route_lookup routes in
  Ok {| rsl_regions := regions; rsl_routes := routes; rsl_route_lookup := route_lookup |}.

Definition RegionSetLayout_region (self : RegionSetLayout) (role : RoleId) : option RegionLayout :=
  find_region (rsl_regions self) role.

Definition acknowledgement_route {E} (self : RegionSetLayout) (target : RoleId) (slot_index : Z)
  : res E (option AcknowledgementRoute) :=
  let key := (target, slot_index) in
  let? found :=
    binary_search_by
      (fun i => let? route := index (rsl_routes self) i in Ok (key_compare (route_key route) key))
      (rsl_route_lookup self) in
  match found with
  | None => Ok None
  | Some position =>
      let? i := index (rsl_route_lookup self) position in
      let? route := index (rsl_routes self) i in
      Ok (Some route)
  end.

(** ** Validating a mapping *)

Definition ValidatedRegionLayout_role (self : ValidatedRegionLayout) : RoleId :=
  rh_role (vrl_header self).

Definition matches_topology (self : ValidatedRegionLayout) (topology : RegionSetLayout) : bool :=
  match RegionSetLayout_region topology (ValidatedRegionLayout_role self) with
  | Some region => bool_decide (rl_header region = vrl_header self)
  | None => false
  end
  && (len (vrl_routes self) =? len (rsl_routes topology))
  && forallb (fun route => bool_decide (route ∈ rsl_routes topology)) (vrl_routes self).

Definition validate_slot (header : RegionHeader) (slots_start : Z) (s : bytes) (slot : Z)
  (_ : unit) : res LayoutError unit :=
  let? offset := umul USIZE_MAX slot (rh_slot_stride header) in
  let? start := uadd USIZE_MAX slots_start offset in
  let? generation := get_u64 s start in
  if negb (generation =? rh_generation header) then Err LayoutError_SlotMetadataNotInitialized else
  let? rest := index_range s (start + 8) (start + SLOT_HEADER_SIZE) in
  if any_nonzero rest then Err LayoutError_SlotMetadataNotInitialized else
  Ok tt.

Definition ValidatedRegionLayout_validate (s : bytes) (expected : ValidationExpectations)
  (topology : RegionSetLayout) : res LayoutError ValidatedRegionLayout :=
  if ve_generation expected =? 0 then Err LayoutError_ZeroGeneration else
  if len s <? REGION_HEADER_SIZE
  then Err (LayoutError_MappingTooSmall REGION_HEADER_SIZE (len s)) else
  let? head := index_range s 0 REGION_HEADER_SIZE in
  validate_header_encoding head >>?
  let? header := decode_header head in
  validate_header header (len s) expected >>?
  if negb (match RegionSetLayout_region topology (ve_role expected) with
           | Some region => bool_decide (rl_header region = header)
           | None => false
           end)
  then Err LayoutError_TopologyMismatch else
  let? acknowledgements_len :=
    ok_or (checked_mul U64_MAX (rh_acknowledgement_count header) (rh_acknowledgement_stride header))
          LayoutError_Overflow in
  let? acknowledgements_end :=
    ok_or (checked_add U64_MAX (rh_acknowledgement_offset header) acknowledgements_len)
          LayoutError_Overflow in
  let? acknowledgements := checked_range (rh_acknowledgement_offset header) acknowledgements_end
                                         (rh_total_size header) (len s) in
  let? cells := index_range s (fst acknowledgements) (snd acknowledgements) in
  if any_nonzero cells then Err LayoutError_AcknowledgementNotZero else
  let? padding := index_range s (rh_total_size header) (len s) in
  if any_nonzero padding then Err LayoutError_CapabilityPaddingNotZero else
  let? unaligned_stride :=
    ok_or (checked_add U64_MAX SLOT_HEADER_SIZE (rh_payload_capacity header)) LayoutError_Overflow in
  let? minimum_stride := align_up unaligned_stride CACHE_LINE in
  if negb (rh_slot_stride header =? minimum_stride) then Err LayoutError_BadSlotStride else
  let? slots_len := ok_or (checked_mul U64_MAX (rh_slot_stride header) (rh_slot_count header))
                          LayoutError_Overflow in
  let? slots_end := ok_or (checked_add U64_MAX (rh_slots_offset header) slots_len)
                          LayoutError_Overflow in
  if negb (slots_end =? rh_total_size header) then Err LayoutError_BadTotalSize else
  let? slots := checked_range (rh_slots_offset header) slots_end (rh_total_size header) (len s) in
  rfor (seqZ 0 (rh_slot_count header)) (validate_slot header (fst slots) s) tt >>?
  Ok {| vrl_header := header; vrl_acknowledgements := acknowledgements; vrl_slots := slots;
        vrl_mapping_size := len s; vrl_routes := rsl_routes topology |}.

(** ** Checked ranges of a validated layout *)

Definition slot_range (self : ValidatedRegionLayout) (slot : Z) : res LayoutError (Z * Z) :=
  let header := vrl_header self in
  if rh_slot_count header <=? slot
  then Err (LayoutError_SlotOutOfBounds slot (rh_slot_count header)) else
  let? offset := umul USIZE_MAX slot (rh_slot_stride header) in
  let? start := ok_or (checked_add USIZE_MAX (fst (vrl_slots self)) offset) LayoutError_Overflow in
  let? stop := ok_or (checked_add USIZE_MAX start (rh_slot_stride header)) LayoutError_Overflow in
  Ok (start, stop).

Definition slot_payload_range (self : ValidatedRegionLayout) (slot payload_len : Z)
  : res LayoutError (Z * Z) :=
  let capacity := rh_payload_capacity (vrl_header self) in
  if capacity <? payload_len then Err (LayoutError_PayloadOutOfBounds payload_len capacity) else
  let? slot := slot_range self slot in
  let? start := ok_or (checked_add USIZE_MAX (fst slot) SLOT_HEADER_SIZE) LayoutError_Overflow in
  let? stop := ok_or (checked_add USIZE_MAX start payload_len) LayoutError_Overflow in
  if snd slot <? stop then Err LayoutError_RangeOutOfBounds else Ok (start, stop).

Definition acknowledgement_range (self : ValidatedRegionLayout) (i : Z) : res LayoutError (Z * Z) :=
  let header := vrl_header self in
  if rh_acknowledgement_count header <=? i
  then Err (LayoutError_AcknowledgementOutOfBounds i (rh_acknowledgement_count header)) else
  let? offset := umul USIZE_MAX i (rh_acknowledgement_stride header) in
  let? start := ok_or (checked_add USIZE_MAX (fst (vrl_acknowledgements self)) offset)
                      LayoutError_Overflow in
  let? stop := ok_or (checked_add USIZE_MAX start (rh_acknowledgement_stride header))
                     LayoutError_Overflow in
  Ok (start, stop).
