(* ===== verification/LayoutGeometry.v ===== *)
(** * LayoutGeometry: the arithmetic of one region and its header

    Closed forms for [align_up] and [RegionLayout::calculate], the geometry
    invariant every accepted header satisfies, the wire format of the region
    header, and the ranges a validated layout hands out: in bounds, aligned and
    pairwise disjoint. *)

From S2P Require Import Prelude Bytes Codec Layout.

(** ** [align_up] *)

Lemma land_high_ones s k :
  0 <= k <= 64 -> u64 s -> Z.land s (U64_MAX - (2 ^ k - 1)) = s / 2 ^ k * 2 ^ k.
Proof.
  intros Hk Hs.
  replace (U64_MAX - (2 ^ k - 1)) with (Z.ldiff (Z.ones 64) (Z.ones k)).
  - replace (Z.land s (Z.ldiff (Z.ones 64) (Z.ones k)))
      with (Z.ldiff (Z.land s (Z.ones 64)) (Z.ones k))
      by (apply Z.bits_inj'; intros n Hn;
          rewrite ?Z.ldiff_spec, ?Z.land_spec, ?Z.ldiff_spec; apply eq_sym, andb_assoc).
    rewrite Z.land_ones, Z.mod_small by ulia.
    rewrite Z.ldiff_ones_r, Z.shiftr_div_pow2, Z.shiftl_mul_pow2 by lia. done.
  - rewrite Z.ldiff_ones_r by lia. rewrite Z.shiftr_div_pow2, Z.shiftl_mul_pow2 by lia.
    rewrite !Z.ones_equiv. replace (2 ^ 64) with (2 ^ (64 - k) * 2 ^ k)
      by (rewrite <- Z.pow_add_r by lia; f_equal; lia).
    assert (0 < 2 ^ k) by (apply Z.pow_pos_nonneg; lia).
    assert (HU : U64_MAX = 2 ^ (64 - k) * 2 ^ k - 1)
      by (rewrite <- Z.pow_add_r by lia; replace (64 - k + k) with 64 by lia; reflexivity).
    rewrite HU. replace (Z.pred (2 ^ (64 - k) * 2 ^ k))
      with ((2 ^ (64 - k) - 1) * 2 ^ k + (2 ^ k - 1)) by lia.
    rewrite Z.div_add_l, (Z.div_small (2 ^ k - 1)) by lia. lia.
Qed.

Definition round_up (value alignment : Z) : Z := (value + alignment - 1) / alignment * alignment.

(** For every power-of-two alignment, [align_up] is exact: it returns the least
    multiple of the alignment that is not below the value, and reports overflow
    precisely when adding [alignment - 1] leaves 64 bits. *)
Lemma align_up_pow2 value k :
  u64 value -> 0 <= k <= 63 ->
  align_up value (2 ^ k)
  = (if value + 2 ^ k - 1 <=? U64_MAX then Ok (round_up value (2 ^ k))
     else Err LayoutError_Overflow) /\
  value <= round_up value (2 ^ k) /\ round_up value (2 ^ k) mod 2 ^ k = 0 /\
  (forall m, value <= m -> m mod 2 ^ k = 0 -> round_up value (2 ^ k) <= m).
Proof.
  intros Hv Hk. assert (Hp : 0 < 2 ^ k) by (apply Z.pow_pos_nonneg; lia). split_and!.
  - unfold align_up, checked_add, round_up. rewrite Z.add_sub_assoc.
    destruct (value + 2 ^ k - 1 <=? U64_MAX) eqn:E; [|done]. bsplit.
    rewrite land_high_ones by ulia. done.
  - unfold round_up. pose proof (Z.mod_pos_bound (value + 2 ^ k - 1) (2 ^ k) Hp).
    pose proof (Z_div_mod_eq_full (value + 2 ^ k - 1) (2 ^ k)). lia.
  - apply Z.mod_mul. lia.
  - intros m Hm Hz. apply Z.mod_divide in Hz as [q ->]; [|lia]. unfold round_up.
    apply Z.mul_le_mono_nonneg_r; [lia|]. apply Z.lt_succ_r, Z.div_lt_upper_bound; lia.
Qed.

Lemma align_line_ok v :
  0 <= v -> v + 63 <= U64_MAX -> align_up v CACHE_LINE = Ok (round_up v 64).
Proof.
  intros Hv Hm. unfold align_up, CACHE_LINE. rewrite checked_add_ok by lia.
  change (64 - 1) with (2 ^ 6 - 1). rewrite land_high_ones by ulia.
  unfold round_up. do 3 f_equal. lia.
Qed.

Lemma align_line_cases v :
  0 <= v -> align_up v CACHE_LINE = Ok (round_up v 64) /\ v + 63 <= U64_MAX
            \/ align_up v CACHE_LINE = Err LayoutError_Overflow /\ U64_MAX < v + 63.
Proof.
  intros Hv. destruct (decide (v + 63 <= U64_MAX)) as [H|H].
  - left. split; [|done]. now apply align_line_ok.
  - right. split; [|lia]. unfold align_up, checked_add, CACHE_LINE.
    destruct (v + (64 - 1) <=? U64_MAX) eqn:E; [bsplit; lia|done].
Qed.

Lemma round_up_line v : 0 <= v -> v <= round_up v 64 < v + 64 /\ round_up v 64 mod 64 = 0.
Proof.
  intros. unfold round_up. pose proof (Z.mod_pos_bound (v + 64 - 1) 64).
  pose proof (Z_div_mod_eq_full (v + 64 - 1) 64). split; [lia|]. apply Z.mod_mul. lia.
Qed.

Lemma round_up_aligned v : v mod 64 = 0 -> round_up v 64 = v.
Proof.
  intros [q ->]%Z.mod_divide; [|lia]. unfold round_up.
  replace (q * 64 + 64 - 1) with (q * 64 + 63) by lia.
  now rewrite Z.div_add_l, Z.add_0_r by lia.
Qed.

(** ** The geometry of a region *)

Definition RegionSpec_wf (s : RegionSpec) : Prop :=
  u32 (rs_role s) /\ rs_role s <> 0 /\ u32 (rs_slot_count s) /\ u32 (rs_payload_bytes s) /\
  u32 (rs_acknowledgement_count s).

Definition region_stride (payload : Z) : Z := round_up (SLOT_HEADER_SIZE + payload) 64.
Definition region_slots_offset (cells : Z) : Z :=
  REGION_HEADER_SIZE + cells * ACKNOWLEDGEMENT_CELL_SIZE.
Definition region_total (cells slots payload : Z) : Z :=
  region_slots_offset cells + region_stride payload * slots.

Definition region_header (schema_id : bytes) (generation : Z) (s : RegionSpec) : RegionHeader := {|
  rh_total_size :=
    region_total (rs_acknowledgement_count s) (rs_slot_count s) (rs_payload_bytes s);
  rh_schema_id := schema_id;
  rh_generation := generation;
  rh_role := rs_role s;
  rh_writer := Endpoint_raw (rs_writer s);
  rh_acknowledgement_offset := REGION_HEADER_SIZE;
  rh_acknowledgement_count := rs_acknowledgement_count s;
  rh_acknowledgement_stride := ACKNOWLEDGEMENT_CELL_SIZE;
  rh_slots_offset := region_slots_offset (rs_acknowledgement_count s);
  rh_slot_count := rs_slot_count s;
  rh_slot_stride := region_stride (rs_payload_bytes s);
  rh_payload_capacity := rs_payload_bytes s |}.

(** What [RegionLayout::calculate] promises of a header and
    [ValidatedRegionLayout::validate] establishes of a received one. *)
Record geometry (h : RegionHeader) : Prop := {
  geo_schema : len (rh_schema_id h) = 32;
  geo_generation : u64 (rh_generation h);
  geo_role : u32 (rh_role h);
  geo_writer : exists e, Endpoint_from_raw (rh_writer h) = Some e;
  geo_ack_offset : rh_acknowledgement_offset h = REGION_HEADER_SIZE;
  geo_ack_count : u32 (rh_acknowledgement_count h);
  geo_ack_stride : rh_acknowledgement_stride h = ACKNOWLEDGEMENT_CELL_SIZE;
  geo_slots_offset : rh_slots_offset h = region_slots_offset (rh_acknowledgement_count h);
  geo_slot_count : u32 (rh_slot_count h) /\ rh_slot_count h <> 0;
  geo_payload : u32 (rh_payload_capacity h) /\ rh_payload_capacity h <> 0;
  geo_stride : rh_slot_stride h = region_stride (rh_payload_capacity h) /\ u32 (rh_slot_stride h);
  geo_total : rh_total_size h = rh_slots_offset h + rh_slot_stride h * rh_slot_count h /\
              u64 (rh_total_size h)
}.

Lemma Endpoint_from_raw_raw e : Endpoint_from_raw (Endpoint_raw e) = Some e.
Proof. now destruct e. Qed.

Lemma Endpoint_from_raw_Some w e : Endpoint_from_raw w = Some e <-> w = Endpoint_raw e.
Proof.
  unfold Endpoint_from_raw, Endpoint_raw.
  destruct (w =? 1) eqn:E1; [|destruct (w =? 2) eqn:E2]; bsplit; destruct e; naive_solver lia.
Qed.

(** A region fits the limits it is calculated under. *)
Definition region_fits (s : RegionSpec) (l : LayoutLimits) : Prop :=
  rs_slot_count s <> 0 /\ rs_payload_bytes s <> 0 /\
  rs_slot_count s <= ll_maximum_slot_count l /\
  rs_payload_bytes s <= ll_maximum_payload_bytes l /\
  rs_acknowledgement_count s <= ll_maximum_acknowledgement_count l /\
  region_stride (rs_payload_bytes s) <= U32_MAX /\
  region_total (rs_acknowledgement_count s) (rs_slot_count s) (rs_payload_bytes s)
    <= ll_maximum_mapping_size l.

Lemma region_total_u64 cells slots payload :
  u32 cells -> u32 slots -> u32 payload -> region_stride payload <= U32_MAX ->
  region_total cells slots payload <= U64_MAX.
Proof.
  intros Hc Hs Hp Hst. unfold region_total, region_slots_offset, REGION_HEADER_SIZE,
    ACKNOWLEDGEMENT_CELL_SIZE.
  destruct (round_up_line (SLOT_HEADER_SIZE + payload)) as [Hr Hm];
    [unfold SLOT_HEADER_SIZE; ulia|]. fold (region_stride payload) in *.
  apply Z.mod_divide in Hm as [q Hq]; [|lia]. rewrite Hq in *.
  unfold SLOT_HEADER_SIZE in *. unfold fits, U32_MAX, U64_MAX in *. nia.
Qed.

Lemma validate_counts_ok s l :
  rs_slot_count s <> 0 -> rs_payload_bytes s <> 0 ->
  rs_slot_count s <= ll_maximum_slot_count l ->
  rs_payload_bytes s <= ll_maximum_payload_bytes l ->
  rs_acknowledgement_count s <= ll_maximum_acknowledgement_count l ->
  validate_counts s l = Ok tt.
Proof.
  intros. unfold validate_counts. destruct (_ || _) eqn:E; [apply orb_prop in E; lia|].
  destruct (_ || _ || _) eqn:E'; [|done]. rewrite !orb_true_iff in E'. lia.
Qed.

Lemma validate_counts_Ok s l u :
  validate_counts s l = Ok u ->
  rs_slot_count s <> 0 /\ rs_payload_bytes s <> 0 /\
  rs_slot_count s <= ll_maximum_slot_count l /\
  rs_payload_bytes s <= ll_maximum_payload_bytes l /\
  rs_acknowledgement_count s <= ll_maximum_acknowledgement_count l.
Proof. unfold validate_counts. intros H. rinv H. bsplit. lia. Qed.

Section Calculate.
Context (schema_id : bytes) (generation : Z) (s : RegionSpec) (l : LayoutLimits).
Hypothesis Hs : RegionSpec_wf s.

Lemma calculate_sound r :
  RegionLayout_calculate schema_id generation s l = Ok r ->
  region_fits s l /\ rl_header r = region_header schema_id generation s.
Proof.
  destruct Hs as (Hr & Hr0 & Hsc & Hp & Ha). unfold RegionLayout_calculate. intros H.
  destruct (validate_counts s l) eqn:E; try discriminate. simpl in H.
  apply validate_counts_Ok in E as (?&?&?&?&?).
  unfold ACKNOWLEDGEMENT_CELL_SIZE, REGION_HEADER_SIZE, SLOT_HEADER_SIZE in H.
  rewrite checked_mul_ok in H by ulia. simpl in H.
  rewrite checked_add_ok in H by ulia. simpl in H.
  rewrite align_line_ok in H by ulia. simpl in H.
  rewrite round_up_aligned in H
    by (replace (128 + rs_acknowledgement_count s * 64)
          with ((2 + rs_acknowledgement_count s) * 64) by lia; apply Z.mod_mul; lia).
  rewrite checked_add_ok in H by ulia. simpl in H.
  rewrite align_line_ok in H by ulia. simpl in H.
  destruct (checked_mul _ _ _) eqn:E; simpl in H; [|discriminate].
  apply checked_mul_Some in E as [-> ?].
  destruct (checked_add _ _ _) eqn:E; simpl in H; [|discriminate].
  apply checked_add_Some in E as [-> ?]. rinv H. bsplit.
  split; [|done]. unfold region_fits, region_total, region_slots_offset, region_stride,
    REGION_HEADER_SIZE, ACKNOWLEDGEMENT_CELL_SIZE, SLOT_HEADER_SIZE. split_and!; ulia.
Qed.

Lemma calculate_complete :
  region_fits s l ->
  RegionLayout_calculate schema_id generation s l
  = Ok {| rl_header := region_header schema_id generation s |}.
Proof.
  destruct Hs as (Hr & Hr0 & Hsc & Hp & Ha). intros (?&?&?&?&?&Hst&Hm).
  pose proof (region_total_u64 _ _ _ Ha Hsc Hp Hst) as Ht.
  assert (Hso : 0 <= region_slots_offset (rs_acknowledgement_count s))
    by (unfold region_slots_offset, REGION_HEADER_SIZE, ACKNOWLEDGEMENT_CELL_SIZE; ulia).
  unfold RegionLayout_calculate. rewrite validate_counts_ok by done. cbn [rbind].
  unfold ACKNOWLEDGEMENT_CELL_SIZE, REGION_HEADER_SIZE, SLOT_HEADER_SIZE.
  rewrite checked_mul_ok by ulia. cbn [ok_or rbind].
  rewrite checked_add_ok by ulia. cbn [ok_or rbind].
  rewrite align_line_ok by ulia. cbn [rbind].
  rewrite round_up_aligned
    by (replace (128 + rs_acknowledgement_count s * 64)
          with ((2 + rs_acknowledgement_count s) * 64) by lia; apply Z.mod_mul; lia).
  rewrite checked_add_ok by ulia. cbn [ok_or rbind].
  rewrite align_line_ok by ulia. cbn [rbind].
  change (round_up (64 + rs_payload_bytes s) 64) with (region_stride (rs_payload_bytes s)).
  change (128 + rs_acknowledgement_count s * 64)
    with (region_slots_offset (rs_acknowledgement_count s)).
  unfold region_total in *. rewrite checked_mul_ok by lia. cbn [ok_or rbind].
  rewrite checked_add_ok by lia. cbn [ok_or rbind].
  replace (U32_MAX <? region_stride (rs_payload_bytes s)) with false by lia.
  replace (ll_maximum_mapping_size l <? _) with false by lia.
  replace (USIZE_MAX <? _) with false by (unfold USIZE_MAX; lia). done.
Qed.

Lemma region_header_geometry :
  len schema_id = 32 -> u64 generation -> region_fits s l ->
  geometry (region_header schema_id generation s).
Proof.
  destruct Hs as (Hr & Hr0 & Hsc & Hp & Ha). intros Hid Hg (?&?&?&?&?&Hst&Hm).
  pose proof (region_total_u64 _ _ _ Ha Hsc Hp Hst).
  destruct (round_up_line (SLOT_HEADER_SIZE + rs_payload_bytes s)) as [Hb _];
    [unfold SLOT_HEADER_SIZE; ulia|].
  fold (region_stride (rs_payload_bytes s)) in Hb. unfold SLOT_HEADER_SIZE in Hb.
  constructor; cbn [region_header rh_schema_id rh_generation rh_role rh_writer
    rh_acknowledgement_offset rh_acknowledgement_count rh_acknowledgement_stride rh_slots_offset
    rh_slot_count rh_payload_capacity rh_slot_stride rh_total_size]; try done.
  - eexists. apply Endpoint_from_raw_raw.
  - split; [done|ulia].
  - split; [done|]. split; [|done]. unfold region_total, region_slots_offset, REGION_HEADER_SIZE,
      ACKNOWLEDGEMENT_CELL_SIZE. unfold fits in *. nia.
Qed.

End Calculate.

(** [RegionLayout::calculate] is sound and complete: it accepts a spec
    exactly when its counts, its slot stride and its total size fit the limits,
    and then returns the one contiguous cache-line-aligned layout (header,
    cells, slots), which satisfies the geometry invariant; it never panics. *)
Theorem calculate_exact schema_id generation s l :
  RegionSpec_wf s -> len schema_id = 32 -> u64 generation ->
  (forall r, RegionLayout_calculate schema_id generation s l = Ok r <->
             region_fits s l /\ r = {| rl_header := region_header schema_id generation s |}) /\
  (region_fits s l -> geometry (region_header schema_id generation s)) /\
  RegionLayout_calculate schema_id generation s l <> Panic.
Proof.
  intros Hs Hid Hg. split_and!.
  - intros r. split.
    + intros [Hf Hh]%calculate_sound; [|done]. split; [done|]. destruct r. simpl in Hh. now subst.
    + intros [Hf ->]. now apply calculate_complete.
  - intros Hf. now apply region_header_geometry with l.
  - destruct Hs as (_&_&?&?&?).
    unfold RegionLayout_calculate, ACKNOWLEDGEMENT_CELL_SIZE, REGION_HEADER_SIZE, SLOT_HEADER_SIZE.
    destruct (validate_counts s l) as [u| |] eqn:E; cbn [rbind]; [|done|].
    + rewrite checked_mul_ok by ulia. cbn [ok_or rbind].
      rewrite checked_add_ok by ulia. cbn [ok_or rbind].
      rewrite align_line_ok by ulia. cbn [rbind].
      rewrite checked_add_ok by ulia. cbn [ok_or rbind].
      rewrite align_line_ok by ulia. cbn [rbind].
      destruct (checked_mul _ _ _); cbn [ok_or rbind]; [|done].
      destruct (checked_add _ _ _); cbn [ok_or rbind]; [|done]. now case_match.
    + exfalso. revert E. unfold validate_counts. now repeat case_match.
Qed.

Definition sample_spec : RegionSpec :=
  {| rs_role := 7; rs_writer := Initiator; rs_slot_count := 2; rs_payload_bytes := 100;
     rs_acknowledgement_count := 1 |}.
Definition sample_limits : LayoutLimits :=
  {| ll_maximum_mapping_size := 4096; ll_maximum_slot_count := 4;
     ll_maximum_acknowledgement_count := 4; ll_maximum_payload_bytes := 128 |}.

Lemma calculate_exact_witness :
  RegionLayout_calculate (zeros 32) 9 sample_spec sample_limits
  = Ok {| rl_header := region_header (zeros 32) 9 sample_spec |} /\
  rh_total_size (region_header (zeros 32) 9 sample_spec) = 576.
Proof.
  split; [|reflexivity].
  destruct (calculate_exact (zeros 32) 9 sample_spec sample_limits) as [H _].
  - unfold RegionSpec_wf; simpl; ulia.
  - reflexivity.
  - ulia.
  - apply H. split; [|reflexivity]. unfold region_fits; simpl. split_and!; try lia; discriminate.
Defined.

(** ** The wire format of the region header *)

Definition header_bytes (h : RegionHeader) : bytes :=
  REGION_MAGIC ++ le_bytes 2 VERSION_MAJOR ++ le_bytes 2 VERSION_MINOR ++
  le_bytes 4 REGION_HEADER_SIZE ++ le_bytes 8 (rh_total_size h) ++ rh_schema_id h ++
  le_bytes 8 (rh_generation h) ++ le_bytes 4 (rh_role h) ++ le_bytes 4 (rh_writer h) ++
  le_bytes 8 (rh_acknowledgement_offset h) ++ le_bytes 4 (rh_acknowledgement_count h) ++
  le_bytes 4 (rh_acknowledgement_stride h) ++ le_bytes 8 (rh_slots_offset h) ++
  le_bytes 4 (rh_slot_count h) ++ le_bytes 4 (rh_slot_stride h) ++
  le_bytes 4 (rh_payload_capacity h) ++ le_bytes 4 0 ++ zeros 16.

Definition header_cuts : list Z :=
  [8; 10; 12; 16; 24; 56; 64; 68; 72; 80; 84; 88; 96; 100; 104; 108; 112; 128].

Lemma magic_len : len REGION_MAGIC = 8. Proof. reflexivity. Qed.
Lemma zeros16_len : len (zeros 16) = 16. Proof. reflexivity. Qed.

(** The fields of a header fit the widths of the wire format. *)
Definition header_widths (h : RegionHeader) : Prop :=
  len (rh_schema_id h) = 32 /\ u64 (rh_total_size h) /\ u64 (rh_generation h) /\
  u32 (rh_role h) /\ u32 (rh_writer h) /\ u64 (rh_acknowledgement_offset h) /\
  u32 (rh_acknowledgement_count h) /\ u32 (rh_acknowledgement_stride h) /\
  u64 (rh_slots_offset h) /\ u32 (rh_slot_count h) /\ u32 (rh_slot_stride h) /\
  u32 (rh_payload_capacity h).

Lemma geometry_widths h : geometry h -> header_widths h.
Proof.
  intros []. destruct geo_writer0 as [e Hw%Endpoint_from_raw_Some].
  assert (u32 (rh_writer h)) by (rewrite Hw; destruct e; simpl; ulia).
  unfold header_widths. rewrite geo_ack_offset0, geo_ack_stride0, geo_slots_offset0.
  unfold region_slots_offset, REGION_HEADER_SIZE, ACKNOWLEDGEMENT_CELL_SIZE.
  split_and!; tauto || ulia.
Qed.

Lemma header_bytes_len h : len (rh_schema_id h) = 32 -> len (header_bytes h) = 128.
Proof. intros H. unfold header_bytes. rewrite !len_app, !len_le_bytes, H. reflexivity. Qed.

Lemma encode_header_bytes h d :
  len (rh_schema_id h) = 32 -> len d = 128 -> encode_header h d = Ok (header_bytes h).
Proof.
  intros Hs Hd. pose proof magic_len. pose proof zeros16_len.
  unfold encode_header, fill_zero. change (128 - 112) with 16. rd. f_equal.
  by_cuts header_cuts. reflexivity.
Qed.

Lemma decode_header_bytes h :
  header_widths h ->
  decode_header (header_bytes h) = Ok h /\ validate_header_encoding (header_bytes h) = Ok tt.
Proof.
  intros (Hs & ? & ? & ? & ? & ? & ? & ? & ? & ? & ? & ?).
  pose proof (header_bytes_len h Hs) as Hl. pose proof magic_len. pose proof zeros16_len.
  split.
  - unfold decode_header. rd. unfold field, header_bytes.
    cbn [Z.add Pos.add Pos.succ Pos.add_carry]. app_slice.
    rewrite !le_val_u64, !le_val_u32 by done. now destruct h.
  - unfold validate_header_encoding. rd. unfold field, header_bytes.
    cbn [Z.add Pos.add Pos.succ Pos.add_carry]. app_slice.
    rewrite !le_val_u16, !le_val_u32 by (done || ulia). rewrite any_nonzero_zeros. reflexivity.
Qed.

Lemma decode_header_inv s h :
  len s = 128 -> decode_header s = Ok h -> validate_header_encoding s = Ok tt ->
  s = header_bytes h /\ header_widths h.
Proof.
  intros Hs. unfold decode_header, validate_header_encoding. rd. intros [= <-] H. rinv H. bsplit.
  split.
  - by_cuts header_cuts. unfold header_bytes. cbn [rh_total_size rh_schema_id rh_generation rh_role
      rh_writer rh_acknowledgement_offset rh_acknowledgement_count rh_acknowledgement_stride
      rh_slots_offset rh_slot_count rh_slot_stride rh_payload_capacity].
    rewrite <- E, <- E0, <- E4, <- E1, <- E2.
    apply any_nonzero_false in E3. rewrite len_slice in E3 by lia. change (128 - 112) with 16 in E3.
    rewrite E3. erewrite !le_bytes_field by (reflexivity || lia). reflexivity.
  - unfold header_widths. simpl. split_and!; first [rewrite len_slice; lia | apply field_u32; lia | apply field_u64; lia].
Qed.

(** The encoding is total on a 128-byte buffer and the decoder on any. *)
Lemma validate_header_encoding_total s : len s = 128 -> validate_header_encoding s <> Panic.
Proof. intros Hs. unfold validate_header_encoding. rd. repeat case_match; done. Qed.

Lemma decode_header_total s : len s = 128 -> exists h, decode_header s = Ok h.
Proof. intros Hs. unfold decode_header. rd. eauto. Qed.

(** ** The ranges of a validated layout *)

Record validated_ok (v : ValidatedRegionLayout) : Prop := {
  vo_geometry : geometry (vrl_header v);
  vo_acknowledgements :
    vrl_acknowledgements v = (REGION_HEADER_SIZE, rh_slots_offset (vrl_header v));
  vo_slots : vrl_slots v = (rh_slots_offset (vrl_header v), rh_total_size (vrl_header v));
  vo_mapping : rh_total_size (vrl_header v) <= vrl_mapping_size v <= USIZE_MAX
}.

Section Ranges.
Context (v : ValidatedRegionLayout).
Hypothesis Hv : validated_ok v.
#[local] Abbreviation h := (vrl_header v).
#[local] Abbreviation stride := (rh_slot_stride h).
#[local] Abbreviation first_slot := (rh_slots_offset h).

Lemma stride_facts :
  stride mod 64 = 0 /\ first_slot mod 64 = 0 /\ SLOT_HEADER_SIZE + rh_payload_capacity h <= stride /\
  0 < stride /\ stride < 2 ^ 32 /\
  first_slot = 128 + 64 * rh_acknowledgement_count h /\ 0 <= rh_acknowledgement_count h < 2 ^ 32 /\
  0 < rh_slot_count h /\ rh_slot_count h < 2 ^ 32 /\ 0 < rh_payload_capacity h /\
  rh_total_size h = first_slot + stride * rh_slot_count h /\
  rh_total_size h <= vrl_mapping_size v.
Proof.
  destruct Hv as [[] _ _ Hm].  destruct geo_stride0 as [Hst Hsu].
  destruct geo_slot_count0, geo_payload0, geo_total0.
  destruct (round_up_line (SLOT_HEADER_SIZE + rh_payload_capacity h)) as [Hb Ha];
    [unfold SLOT_HEADER_SIZE; ulia|].
  fold (region_stride (rh_payload_capacity h)) in *. rewrite <- Hst in *.
  unfold region_slots_offset, REGION_HEADER_SIZE, ACKNOWLEDGEMENT_CELL_SIZE in *.
  unfold SLOT_HEADER_SIZE in *.
  split_and!; try done; try ulia. rewrite geo_slots_offset0.
  replace (128 + rh_acknowledgement_count h * 64)
    with ((2 + rh_acknowledgement_count h) * 64) by lia. apply Z.mod_mul. lia.
Qed.

Lemma slot_end_bound i :
  0 <= i < rh_slot_count h -> first_slot + (i + 1) * stride <= rh_total_size h.
Proof. intros. destruct stride_facts as (_&_&_&?&_&_&_&_&_&_&->&_). nia. Qed.

Lemma slot_range_ok i :
  0 <= i < rh_slot_count h ->
  slot_range v i = Ok (first_slot + i * stride, first_slot + (i + 1) * stride).
Proof.
  intros Hi. pose proof (slot_end_bound i Hi). destruct stride_facts as (_&_&_&?&?&?&?&?&?&_&_&?).
  destruct Hv as [_ _ Hs Hm]. unfold slot_range. 
  replace (rh_slot_count h <=? i) with false by lia. rewrite Hs. cbn [fst]. 
  unfold umul. rewrite checked_mul_ok by (unfold USIZE_MAX, U64_MAX in *; nia). cbn [expect rbind].
  rewrite checked_add_ok by lia. cbn [ok_or rbind]. rewrite checked_add_ok by lia. cbn [ok_or rbind].
  do 2 f_equal. lia.
Qed.

Lemma slot_range_err i :
  rh_slot_count h <= i -> slot_range v i = Err (LayoutError_SlotOutOfBounds i (rh_slot_count h)).
Proof. intros. unfold slot_range.  now replace (rh_slot_count h <=? i) with true by lia. Qed.

Lemma slot_payload_range_ok i n :
  0 <= i < rh_slot_count h -> 0 <= n <= rh_payload_capacity h ->
  slot_payload_range v i n
  = Ok (first_slot + i * stride + SLOT_HEADER_SIZE,
        first_slot + i * stride + SLOT_HEADER_SIZE + n).
Proof.
  intros Hi Hn. pose proof (slot_end_bound i Hi). destruct stride_facts as (_&_&?&?&?&?&?&?&?&_&_&?).
  destruct Hv as [_ _ _ Hm]. unfold slot_payload_range. 
  replace (rh_payload_capacity h <? n) with false by lia. rewrite slot_range_ok by done.
  cbn [rbind fst snd]. unfold SLOT_HEADER_SIZE in *.
  rewrite checked_add_ok by lia. cbn [ok_or rbind]. rewrite checked_add_ok by lia. cbn [ok_or rbind].
  now replace (_ <? _) with false by lia.
Qed.

Lemma acknowledgement_range_ok i :
  0 <= i < rh_acknowledgement_count h ->
  acknowledgement_range v i = Ok (128 + i * 64, 128 + (i + 1) * 64).
Proof.
  intros Hi. destruct stride_facts as (_&_&_&?&?&?&?&?&?&_&?&?).
  destruct Hv as [Hg Ha _ Hm]. destruct Hg. unfold acknowledgement_range. 
  replace (rh_acknowledgement_count h <=? i) with false by lia. rewrite Ha. cbn [fst].
  rewrite geo_ack_stride0. unfold umul, ACKNOWLEDGEMENT_CELL_SIZE, REGION_HEADER_SIZE.
  rewrite checked_mul_ok by ulia. cbn [expect rbind]. rewrite checked_add_ok by ulia.
  cbn [ok_or rbind]. rewrite checked_add_ok by ulia. cbn [ok_or rbind]. do 2 f_equal. lia.
Qed.

Lemma acknowledgement_range_err i :
  rh_acknowledgement_count h <= i ->
  acknowledgement_range v i
  = Err (LayoutError_AcknowledgementOutOfBounds i (rh_acknowledgement_count h)).
Proof.
  intros. unfold acknowledgement_range. 
  now replace (rh_acknowledgement_count h <=? i) with true by lia.
Qed.

End Ranges.

(** The concurrently accessed records of a region. *)
Inductive record_id := SlotRecord (i : Z) | CellRecord (i : Z).

Definition record_range (v : ValidatedRegionLayout) (r : record_id) : res LayoutError (Z * Z) :=
  match r with
  | SlotRecord i => slot_range v i
  | CellRecord i => acknowledgement_range v i
  end.

Definition record_index (r : record_id) : Z :=
  match r with SlotRecord i | CellRecord i => i end.

Lemma record_range_Ok v r a b :
  validated_ok v -> 0 <= record_index r -> record_range v r = Ok (a, b) ->
  match r with
  | SlotRecord i =>
      0 <= i < rh_slot_count (vrl_header v) /\
      a = rh_slots_offset (vrl_header v) + i * rh_slot_stride (vrl_header v) /\
      b = rh_slots_offset (vrl_header v) + (i + 1) * rh_slot_stride (vrl_header v)
  | CellRecord i =>
      0 <= i < rh_acknowledgement_count (vrl_header v) /\ a = 128 + i * 64 /\ b = 128 + (i + 1) * 64
  end.
Proof.
  intros Hv. destruct r as [i|i]; simpl; intros Hi.
  - destruct (decide (i < rh_slot_count (vrl_header v))).
    + rewrite slot_range_ok by (done || lia). intros [= <- <-]. lia.
    + rewrite slot_range_err by lia. discriminate.
  - destruct (decide (i < rh_acknowledgement_count (vrl_header v))).
    + rewrite acknowledgement_range_ok by (done || lia). intros [= <- <-]. lia.
    + rewrite acknowledgement_range_err by lia. discriminate.
Qed.

(** Every range a validated layout hands out is inside the mapping, behind
    the region header, cache-line aligned at both ends and at least one record
    long, and the ranges of two different slots or acknowledgement cells never
    overlap: no two records share a cache line. *)
Theorem record_ranges_disjoint v r r' a b a' b' :
  validated_ok v -> 0 <= record_index r -> 0 <= record_index r' ->
  record_range v r = Ok (a, b) -> record_range v r' = Ok (a', b') ->
  REGION_HEADER_SIZE <= a /\ a + SLOT_HEADER_SIZE <= b /\ b <= vrl_mapping_size v /\
  a mod CACHE_LINE = 0 /\ b mod CACHE_LINE = 0 /\
  (r <> r' -> b <= a' \/ b' <= a).
Proof.
  intros Hv Hi Hi' Hr Hr'.
  pose proof (stride_facts v Hv) as (Hs & Hf & Hp & ? & ? & He & ? & ? & ? & ? & Ht & Hm).
  unfold REGION_HEADER_SIZE, SLOT_HEADER_SIZE, CACHE_LINE in *.
  set (stride := rh_slot_stride (vrl_header v)) in *.
  set (first := rh_slots_offset (vrl_header v)) in *.
  assert (Hpos : forall i, 0 <= i -> 0 <= i * stride) by (intros; apply Z.mul_nonneg_nonneg; lia).
  assert (Hmul : forall i j, i < j -> (i + 1) * stride <= j * stride)
    by (intros; apply Z.mul_le_mono_nonneg_r; lia).
  assert (Hmod : forall i, (first + i * stride) mod 64 = 0 /\ (128 + i * 64) mod 64 = 0).
  { intros i. split.
    - apply Z.mod_divide in Hs as [q ->]; [|lia]. apply Z.mod_divide in Hf as [p ->]; [|lia].
      replace (p * 64 + i * (q * 64)) with ((p + i * q) * 64) by ring. apply Z.mod_mul. lia.
    - replace (128 + i * 64) with ((2 + i) * 64) by ring. apply Z.mod_mul. lia. }
  apply record_range_Ok in Hr; [|done..]. apply record_range_Ok in Hr'; [|done..].
  destruct r as [i|i], Hr as (Hri & -> & ->), r' as [j|j], Hr' as (Hrj & -> & ->);
    simpl record_index in *;
    pose proof (Hpos i Hi); pose proof (Hpos j Hi'); pose proof (Hmul i j); pose proof (Hmul j i);
    pose proof (Hmul i (rh_slot_count (vrl_header v))); split_and!; try apply Hmod; try lia.
  all: intros Hne; assert (i <> j) by congruence; lia.
Qed.
