(* ===== verification/LayoutRoutes.v ===== *)
(** * LayoutRoutes: composed topologies and their acknowledgement routes

    The invariant of a topology accepted by [RegionSetLayout::calculate], that
    its routes are a bijection between producer slots and acknowledgement
    cells, and that the sorted lookup with its binary search answers as a
    linear search of the routes would. *)

From S2P Require Import Prelude Bytes Codec Tools Layout LayoutGeometry.

(** ** The topology invariant *)

Definition slot_ids (r : RegionLayout) : list (Z * Z) :=
  pair (RegionLayout_role r) <$> seqZ 0 (rh_slot_count (rl_header r)).
Definition cell_ids (r : RegionLayout) : list (Z * Z) :=
  pair (RegionLayout_role r) <$> seqZ 0 (rh_acknowledgement_count (rl_header r)).

Definition cell_key (route : AcknowledgementRoute) : Z * Z :=
  (ar_owner route, ar_cell_index route).

(** A route joins a slot of one region to a cell of a region of the opposite
    writer. *)
Definition route_ok (regions : list RegionLayout) (route : AcknowledgementRoute) : Prop :=
  exists owner target ow tw,
    find_region regions (ar_owner route) = Some owner /\
    find_region regions (ar_target route) = Some target /\
    Endpoint_from_raw (rh_writer (rl_header owner)) = Some ow /\
    Endpoint_from_raw (rh_writer (rl_header target)) = Some tw /\
    ow <> tw /\
    ar_slot_index route < rh_slot_count (rl_header target) /\
    ar_cell_index route < rh_acknowledgement_count (rl_header owner).

Definition route_u32 (route : AcknowledgementRoute) : Prop :=
  0 <= ar_slot_index route /\ 0 <= ar_cell_index route.

Record topology_wf (t : RegionSetLayout) : Prop := {
  tw_geometry : Forall (fun r => geometry (rl_header r)) (rsl_regions t);
  tw_roles : NoDup (RegionLayout_role <$> rsl_regions t);
  tw_routes : Forall (fun route => route_ok (rsl_regions t) route /\ route_u32 route) (rsl_routes t);
  tw_slots : NoDup (route_key <$> rsl_routes t);
  tw_cells : NoDup (cell_key <$> rsl_routes t);
  tw_slot_total : length (rsl_routes t) = length (rsl_regions t ≫= slot_ids);
  tw_cell_total : length (rsl_routes t) = length (rsl_regions t ≫= cell_ids);
  tw_lookup : rsl_route_lookup t = sort_by (index_leb (rsl_routes t)) (seqZ 0 (len (rsl_routes t)))
}.

(** ** Lookup of a region *)

Lemma find_region_Some regions role r :
  find_region regions role = Some r -> r ∈ regions /\ RegionLayout_role r = role.
Proof.
  intros H. apply find_some in H as [Hin Hr]. bsplit. split; [|done]. now apply list_elem_of_In.
Qed.

Lemma find_region_unique regions r :
  NoDup (RegionLayout_role <$> regions) -> r ∈ regions ->
  find_region regions (RegionLayout_role r) = Some r.
Proof.
  induction regions as [|q regions IH]; simpl; intros Hnd Hin; [set_solver|].
  apply NoDup_cons in Hnd as [Hq Hnd]. apply elem_of_cons in Hin as [->|Hin].
  - now rewrite Z.eqb_refl.
  - destruct (RegionLayout_role q =? RegionLayout_role r) eqn:E; [|auto]. bsplit. exfalso.
    apply Hq. rewrite E. apply list_elem_of_fmap. eauto.
Qed.

(** ** Totals *)

Lemma length_ids {B} (f : RegionLayout -> Z) (g : RegionLayout -> Z -> B) regions total n :
  (forall r, r ∈ regions -> 0 <= f r) ->
  rfor regions (fun r t => ok_or (checked_add USIZE_MAX t (f r)) LayoutError_Overflow) total = Ok n ->
  n = total + len (regions ≫= fun r => g r <$> seqZ 0 (f r)).
Proof.
  revert total. induction regions as [|r regions IH]; intros total Hf; simpl.
  - intros [= <-]. unfold len. simpl. lia.
  - destruct (checked_add _ _ _) eqn:E; simpl; [|discriminate].
    apply checked_add_Some in E as [-> _]. intros H%IH; [|set_solver].
    rewrite H, len_app. unfold len at 2. rewrite length_fmap, length_seqZ.
    rewrite Z2Nat.id by (apply Hf; set_solver). symmetry. apply Z.add_assoc.
Qed.

(** ** The loop of [validate_routes] *)

Lemma validate_route_Ok regions spec routes routes' :
  validate_route regions spec routes = Ok routes' ->
  routes' = routes ++ [validated_route spec] /\ route_ok regions (validated_route spec) /\
  Forall (fun r => route_key r <> route_key (validated_route spec) /\
                   cell_key r <> cell_key (validated_route spec)) routes.
Proof.
  unfold validate_route, RegionLayout_writer. intros H. rinv H.
  apply ok_or_Ok in E. apply ok_or_Ok in E0.
  destruct (Endpoint_from_raw (rh_writer (rl_header a))) eqn:Hw; simpl in E2; [|discriminate].
  destruct (Endpoint_from_raw (rh_writer (rl_header a0))) eqn:Hw0; simpl in E3; [|discriminate].
  simplify_eq. bsplit. split_and!; [done| |].
  - exists a, a0, a1, a2. simpl. split_and!; done || lia.
  - apply Forall_forall. intros r Hr. unfold route_key, cell_key. simpl.
    destruct (same_route spec r) eqn:Hsame.
    + exfalso. eapply eq_true_false_abs; [|exact E5]. apply existsb_exists.
      exists r. split; [now apply list_elem_of_In|done].
    + unfold same_route in Hsame. rewrite orb_false_iff, !andb_false_iff, !Z.eqb_neq in Hsame.
      split; intros [= ? ?]; lia.
Qed.

Lemma NoDup_snoc {A B} (f : A -> B) (l : list A) x :
  NoDup (f <$> l) -> (forall y, y ∈ l -> f y <> f x) -> NoDup (f <$> l ++ [x]).
Proof.
  intros Hl Hx. rewrite fmap_app, NoDup_app. split_and!; [done| |apply NoDup_singleton].
  intros b (y & -> & Hy)%list_elem_of_fmap Hb%list_elem_of_singleton. eapply Hx; eauto.
Qed.

Definition RouteSpec_wf (s : AcknowledgementRouteSpec) : Prop :=
  u32 (ars_owner s) /\ u32 (ars_target s) /\ u32 (ars_slot_index s) /\ u32 (ars_cell_index s).

Lemma validate_routes_loop regions specs routes :
  Forall RouteSpec_wf specs ->
  rfor specs (validate_route regions) [] = Ok routes ->
  routes = validated_route <$> specs /\
  Forall (fun route => route_ok regions route /\ route_u32 route) routes /\
  NoDup (route_key <$> routes) /\ NoDup (cell_key <$> routes).
Proof.
  intros Hwf. apply (rfor_inv (fun pre routes =>
    routes = validated_route <$> pre /\
    Forall (fun route => route_ok regions route /\ route_u32 route) routes /\
    NoDup (route_key <$> routes) /\ NoDup (cell_key <$> routes))).
  - split_and!; constructor.
  - intros pre x s s' [post Hpre] (-> & HF & Hk & Hc) (-> & Hok & Hne)%validate_route_Ok.
    rewrite Forall_forall in Hne. split_and!.
    + now rewrite fmap_app.
    + apply Forall_app. split; [done|]. constructor; [|constructor]. split; [done|].
      assert (Hx : RouteSpec_wf x)
        by (eapply Forall_forall; [exact Hwf|]; rewrite Hpre; set_solver).
      unfold route_u32, RouteSpec_wf in *. simpl. ulia.
    + apply NoDup_snoc; [done|]. intros y Hy. now apply Hne.
    + apply NoDup_snoc; [done|]. intros y Hy. now apply Hne.
Qed.

(** ** The loop of [RegionSetLayout::calculate] *)

Lemma calculate_regions schema_id generation specs limits regions :
  Forall RegionSpec_wf specs ->
  rfor (imap pair specs)
    (fun '(i, spec) regions =>
       if existsb (fun prior => rs_role prior =? rs_role spec) (take i specs)
       then Err (LayoutError_DuplicateRole (rs_role spec)) else
       let? region := RegionLayout_calculate schema_id generation spec limits in
       Ok (regions ++ [region])) [] = Ok regions ->
  regions = (fun s => {| rl_header := region_header schema_id generation s |}) <$> specs /\
  Forall (fun s => region_fits s limits) specs /\ NoDup (rs_role <$> specs).
Proof.
  intros Hwf H.
  eapply (rfor_inv (fun pre regions =>
    regions = (fun s => {| rl_header := region_header schema_id generation s |}) <$> (snd <$> pre) /\
    Forall (fun s => region_fits s limits) (snd <$> pre) /\ NoDup (rs_role <$> (snd <$> pre)))) in H.
  - replace (snd <$> imap pair specs) with specs in H; [done|].
    apply list_eq. intros i. rewrite list_lookup_fmap, list_lookup_imap. now destruct (specs !! i).
  - split_and!; constructor.
  - intros pre [i x] s s' Hpre (-> & HF & Hnd) Hstep. destruct (existsb _ _) eqn:Hex; [discriminate|].
    assert (Hi : specs !! i = Some x /\ i = length pre).
    { destruct Hpre as [post Hp].
      assert (Hl : imap pair specs !! length pre = Some (i, x))
        by (rewrite Hp, lookup_app_l by (rewrite length_app; simpl; lia); now apply list_lookup_middle).
      rewrite list_lookup_imap in Hl. destruct (specs !! length pre) eqn:Hx; simpl in Hl; [|discriminate].
      now injection Hl as <- <-. }
    destruct Hi as [Hx ->].
    assert (Hpt : take (length pre) specs = snd <$> pre).
    { destruct Hpre as [post Hp]. apply list_eq. intros j. destruct (decide (j < length pre)%nat).
      - rewrite lookup_take_lt, list_lookup_fmap by done.
        assert (Hj : imap pair specs !! j = pre !! j)
          by (rewrite Hp, <- app_assoc; apply lookup_app_l; done).
        rewrite list_lookup_imap in Hj. rewrite <- Hj. now destruct (specs !! j).
      - rewrite lookup_take_ge, list_lookup_fmap by lia. now rewrite lookup_ge_None_2 by lia. }
    rewrite Hpt in Hex.
    destruct (RegionLayout_calculate _ _ _ _) as [r| |] eqn:Hr; simpl in Hstep; try discriminate.
    injection Hstep as <-.
    assert (Hwx : RegionSpec_wf x) by (eapply Forall_lookup_1; eauto).
    apply calculate_sound in Hr as [Hfit Hh]; [|done]. rewrite !fmap_app. split_and!.
    + simpl. destruct r. simpl in Hh. now rewrite Hh.
    + apply Forall_app. split; [done|]. repeat constructor; apply Hfit.
    + rewrite <- fmap_app. simpl. apply NoDup_snoc; [done|]. intros y Hy Heq.
      eapply eq_true_false_abs; [|exact Hex]. apply existsb_exists. exists y.
      split; [now apply list_elem_of_In|lia].
Qed.

Definition region_of (schema_id : bytes) (generation : Z) (s : RegionSpec) : RegionLayout :=
  {| rl_header := region_header schema_id generation s |}.

(** ** Accepted topologies *)

Section Topology.
Context {AL : Allocator} (schema_id : bytes) (generation : Z) (specs : list RegionSpec)
  (route_specs : list AcknowledgementRouteSpec) (limits : LayoutLimits).
Hypothesis Hspecs : Forall RegionSpec_wf specs.
Hypothesis Hroutes : Forall RouteSpec_wf route_specs.
Hypothesis Hschema : len schema_id = 32.
Hypothesis Hgeneration : u64 generation.

Lemma calculate_topology t :
  RegionSetLayout_calculate schema_id generation specs route_specs limits = Ok t ->
  topology_wf t /\ generation <> 0 /\
  rsl_regions t = region_of schema_id generation <$> specs /\
  rsl_routes t = validated_route <$> route_specs.
Proof.
  unfold RegionSetLayout_calculate, validate_routes, build_route_lookup. intros H. rinv H. bsplit.
  rename E2 into Hregions. apply calculate_regions in Hregions as (-> & Hfit & Hroles); [|done].
  destruct (checked_total (fun region => rh_slot_count _) _) eqn:Hts; simpl in E3; try discriminate.
  destruct (checked_total (fun region => rh_acknowledgement_count _) _) eqn:Htc; simpl in E3; try discriminate.
  destruct (_ || _) eqn:Hlen; [discriminate|]. bsplit.
  destruct (negb _) eqn:Hal in E3; [discriminate|].
  apply validate_routes_loop in E3 as (-> & HF & Hk & Hc); [|done].
  destruct (negb _) eqn:Hal' in E4; [discriminate|]. injection E4 as <-.
  assert (Hg : Forall (fun r => geometry (rl_header r)) (region_of schema_id generation <$> specs)).
  { apply Forall_fmap, Forall_forall. intros s Hs. rewrite Forall_forall in Hspecs, Hfit.
    apply region_header_geometry with limits; auto. }
  change ((fun s => {| rl_header := region_header schema_id generation s |}) <$> specs)
    with (region_of schema_id generation <$> specs) in *.
  rewrite Forall_forall in Hg. split; [|done].
  apply (length_ids _ (fun r => pair (RegionLayout_role r))) in Hts.
  2:{ intros r Hr. destruct (geo_slot_count _ (Hg _ Hr)). ulia. }
  apply (length_ids _ (fun r => pair (RegionLayout_role r))) in Htc.
  2:{ intros r Hr. pose proof (geo_ack_count _ (Hg _ Hr)). ulia. }
  constructor; simpl; try done.
  - now apply Forall_forall.
  - rewrite <- list_fmap_compose. exact Hroles.
  - rewrite length_fmap. apply Nat2Z.inj. etransitivity; [exact Hlen|exact Hts].
  - rewrite length_fmap. apply Nat2Z.inj. etransitivity; [exact Hlen0|exact Htc].
Qed.

End Topology.

(** ** Routes are a bijection of slots and cells *)

Lemma elem_of_ids (f : RegionLayout -> Z) regions role i r :
  find_region regions role = Some r -> 0 <= i < f r ->
  (role, i) ∈ (regions ≫= fun r => pair (RegionLayout_role r) <$> seqZ 0 (f r)).
Proof.
  intros [Hr <-]%find_region_Some Hi. apply list_elem_of_bind. exists r. split; [|done].
  apply list_elem_of_fmap. exists i. split; [done|]. apply elem_of_seqZ. lia.
Qed.

Lemma covering_permutation {A} (l k : list A) :
  NoDup l -> length l = length k -> (forall x, x ∈ l -> x ∈ k) -> l ≡ₚ k.
Proof.
  intros Hl Hn Hin. apply submseteq_length_Permutation; [|lia]. now apply NoDup_submseteq.
Qed.

Lemma topology_slots_perm t :
  topology_wf t -> route_key <$> rsl_routes t ≡ₚ (rsl_regions t ≫= slot_ids).
Proof.
  intros []. apply covering_permutation; [done|now rewrite length_fmap|].
  intros k (route & -> & Hr)%list_elem_of_fmap. rewrite Forall_forall in tw_routes0.
  destruct (tw_routes0 _ Hr) as [(o & g & ow & gw & Ho & Hg & _ & _ & _ & Hs & Hc) [Hs0 Hc0]].
  apply (elem_of_ids (fun r => rh_slot_count (rl_header r))) with g; [done|lia].
Qed.

Lemma topology_cells_perm t :
  topology_wf t -> cell_key <$> rsl_routes t ≡ₚ (rsl_regions t ≫= cell_ids).
Proof.
  intros []. apply covering_permutation; [done|now rewrite length_fmap|].
  intros k (route & -> & Hr)%list_elem_of_fmap. rewrite Forall_forall in tw_routes0.
  destruct (tw_routes0 _ Hr) as [(o & g & ow & gw & Ho & Hg & _ & _ & _ & Hs & Hc) [Hs0 Hc0]].
  apply (elem_of_ids (fun r => rh_acknowledgement_count (rl_header r))) with o; [done|lia].
Qed.

(** In every topology [RegionSetLayout::calculate] accepts, the routes are
    a bijection between producer slots and acknowledgement cells: each slot of
    each region is routed exactly once, each acknowledgement cell is used
    exactly once, and every route crosses from a region to one of the opposite
    writer, so that nobody acknowledges its own slots. *)
Theorem routes_bijection {AL : Allocator} schema_id generation specs route_specs limits t :
  Forall RegionSpec_wf specs -> Forall RouteSpec_wf route_specs ->
  len schema_id = 32 -> u64 generation ->
  RegionSetLayout_calculate schema_id generation specs route_specs limits = Ok t ->
  route_key <$> rsl_routes t ≡ₚ (rsl_regions t ≫= slot_ids) /\ NoDup (rsl_regions t ≫= slot_ids) /\
  cell_key <$> rsl_routes t ≡ₚ (rsl_regions t ≫= cell_ids) /\ NoDup (rsl_regions t ≫= cell_ids) /\
  Forall (route_ok (rsl_regions t)) (rsl_routes t).
Proof.
  intros Hs Hr Hid Hg (Hwf & _)%calculate_topology; [|done..].
  pose proof (topology_slots_perm t Hwf) as Hps. pose proof (topology_cells_perm t Hwf) as Hpc.
  destruct Hwf. split_and!; try done.
  - now rewrite <- Hps.
  - now rewrite <- Hpc.
  - eapply Forall_impl; [done|]. now intros ? [].
Qed.

(** ** The sorted lookup *)

Lemma key_compare_eq a b : key_compare a b = Eq <-> a = b.
Proof.
  unfold key_compare. destruct a as [a1 a2], b as [b1 b2]; simpl.
  destruct (Z.compare_spec a1 b1); [subst|naive_solver lia..].
  rewrite Z.compare_eq_iff. naive_solver.
Qed.

Lemma key_compare_spec a b :
  match key_compare a b with
  | Eq => a = b
  | Lt => fst a < fst b \/ fst a = fst b /\ snd a < snd b
  | Gt => fst b < fst a \/ fst a = fst b /\ snd b < snd a
  end.
Proof.
  unfold key_compare. destruct a as [a1 a2], b as [b1 b2]; simpl.
  destruct (Z.compare_spec a1 b1); [|lia..]. destruct (Z.compare_spec a2 b2); naive_solver lia.
Qed.

Lemma key_leb_spec a b :
  key_leb a b = true <-> fst a < fst b \/ fst a = fst b /\ snd a <= snd b.
Proof.
  unfold key_leb. pose proof (key_compare_spec a b) as H.
  destruct (key_compare a b); [subst|..]; split; try done; lia.
Qed.

Section Lookup.
Context (routes : list AcknowledgementRoute).
Hypothesis Hkeys : NoDup (route_key <$> routes).
Let order := sort_by (index_leb routes) (seqZ 0 (len routes)).

Lemma lookup_elem i : i ∈ order <-> 0 <= i < len routes.
Proof. unfold order. rewrite sort_by_perm, elem_of_seqZ. lia. Qed.

Lemma lookup_route i : i ∈ order -> exists r, routes !! Z.to_nat i = Some r.
Proof. intros Hi%lookup_elem. apply lookup_lt_is_Some_2. unfold len in Hi. lia. Qed.

(** The keys along the order are strictly increasing. *)
Lemma lookup_increasing p q i j a b :
  order !! p = Some i -> order !! q = Some j -> (p < q)%nat ->
  routes !! Z.to_nat i = Some a -> routes !! Z.to_nat j = Some b ->
  key_compare (route_key a) (route_key b) = Lt.
Proof.
  intros Hi Hj Hpq Ha Hb.
  assert (Hle : index_leb routes i j = true).
  { apply (StronglySorted_lookup_lt (fun a b => index_leb routes a b = true) order p q); try done. unfold order.
    apply sort_by_sorted with (P := fun i => 0 <= i < len routes).
    - intros x y Hx Hy. unfold index_leb.
      destruct (lookup_lt_is_Some_2 routes (Z.to_nat x)) as [rx ->]; [unfold len in Hx; lia|].
      destruct (lookup_lt_is_Some_2 routes (Z.to_nat y)) as [ry ->]; [unfold len in Hy; lia|].
      destruct (key_leb (route_key rx) (route_key ry)) eqn:E; [discriminate|]. intros _.
      apply key_leb_spec. apply not_true_iff_false in E. rewrite key_leb_spec in E. lia.
    - intros x y z Hx Hy Hz. unfold index_leb.
      destruct (lookup_lt_is_Some_2 routes (Z.to_nat x)) as [rx ->]; [unfold len in Hx; lia|].
      destruct (lookup_lt_is_Some_2 routes (Z.to_nat y)) as [ry ->]; [unfold len in Hy; lia|].
      destruct (lookup_lt_is_Some_2 routes (Z.to_nat z)) as [rz ->]; [unfold len in Hz; lia|].
      rewrite !key_leb_spec. lia.
    - apply Forall_forall. intros x Hx%elem_of_seqZ. lia. }
  unfold index_leb in Hle. rewrite Ha, Hb in Hle. unfold key_leb in Hle.
  destruct (key_compare (route_key a) (route_key b)) eqn:E; [|done|discriminate].
  apply key_compare_eq in E. exfalso.
  assert (Hnd : NoDup order) by (unfold order; rewrite sort_by_perm; apply NoDup_seqZ).
  assert (i = j) as <-.
  { assert (Z.to_nat i = Z.to_nat j) as Heq.
    { eapply NoDup_lookup; [exact Hkeys|..]; rewrite list_lookup_fmap, ?Ha, ?Hb; simpl; [done|congruence]. }
    apply list_elem_of_lookup_2, lookup_elem in Hi, Hj. lia. }
  pose proof (NoDup_lookup _ _ _ _ Hnd Hi Hj). lia.
Qed.

Lemma key_compare_mono a b k :
  key_compare a b = Lt ->
  (key_compare b k = Eq -> key_compare a k = Lt) /\ (key_compare a k = Eq -> key_compare b k = Gt).
Proof.
  intros H. rewrite !key_compare_eq. split; intros <-; [done|].
  pose proof (key_compare_spec a b) as Ha. rewrite H in Ha.
  pose proof (key_compare_spec b a) as Hb. destruct (key_compare b a); [subst|..]; lia || done.
Qed.

Lemma route_key_unique a b : a ∈ routes -> b ∈ routes -> route_key a = route_key b -> a = b.
Proof.
  intros [i Hi]%list_elem_of_lookup [j Hj]%list_elem_of_lookup Hk.
  assert (i = j) as <-.
  { eapply NoDup_lookup; [exact Hkeys|..]; rewrite list_lookup_fmap, ?Hi, ?Hj; simpl; [done|congruence]. }
  congruence.
Qed.

End Lookup.

Definition find_route (routes : list AcknowledgementRoute) (target slot_index : Z)
  : option AcknowledgementRoute :=
  List.find (fun r => bool_decide (route_key r = (target, slot_index))) routes.

Lemma find_route_Some routes target slot r :
  find_route routes target slot = Some r -> r ∈ routes /\ ar_target r = target /\ ar_slot_index r = slot.
Proof.
  intros [Hin Hk]%find_some. apply bool_decide_eq_true in Hk. injection Hk as <- <-.
  split; [now apply list_elem_of_In|done].
Qed.

Lemma find_route_unique routes r :
  NoDup (route_key <$> routes) -> r ∈ routes ->
  find_route routes (ar_target r) (ar_slot_index r) = Some r.
Proof.
  intros Hnd Hr. destruct (find_route routes _ _) as [q|] eqn:Hq.
  - apply find_route_Some in Hq as (Hin & Ht & Hs). f_equal.
    apply (route_key_unique routes); try done. unfold route_key. congruence.
  - apply list_elem_of_In in Hr. pose proof (find_none _ _ Hq r Hr) as Hf.
    apply bool_decide_eq_false in Hf. now destruct Hf.
Qed.

Lemma acknowledgement_route_find {E} t target slot :
  topology_wf t ->
  acknowledgement_route (E := E) t target slot = Ok (find_route (rsl_routes t) target slot).
Proof.
  intros Hwf. destruct Hwf. unfold acknowledgement_route. rewrite tw_lookup0.
  set (routes := rsl_routes t) in *. set (lk := sort_by _ _).
  set (c := fun i => match routes !! Z.to_nat i with
                     | Some r => key_compare (route_key r) (target, slot)
                     | None => Lt
                     end).
  edestruct (binary_search_by_spec
    (fun i => let? route := index (E := E) routes i in
              Ok (key_compare (route_key route) (target, slot))) c lk) as (o & -> & Ho).
  - intros i Hi. destruct (lookup_route routes i Hi) as [r Hr]. apply lookup_elem in Hi.
    rewrite (index_ok routes i r) by (done || lia). simpl. unfold c. now rewrite Hr.
  - intros p q i j Hp Hq Hpq. unfold c.
    destruct (lookup_route routes i) as [a Ha]; [eapply list_elem_of_lookup_2; done|].
    destruct (lookup_route routes j) as [b Hb]; [eapply list_elem_of_lookup_2; done|].
    rewrite Ha, Hb. apply key_compare_mono. exact (lookup_increasing routes tw_slots0 p q i j a b Hp Hq Hpq Ha Hb).
  - simpl. destruct o as [r|].
    + destruct Ho as (Hr & i & Hi & Hc). rewrite (index_ok lk r i) by done. simpl.
      assert (Hin : i ∈ lk) by (eapply list_elem_of_lookup_2; done).
      destruct (lookup_route routes i Hin) as [a Ha]. apply lookup_elem in Hin.
      rewrite (index_ok routes i a) by (done || lia). simpl.
      unfold c in Hc. rewrite Ha in Hc. apply key_compare_eq in Hc.
      apply list_elem_of_lookup_2 in Ha. do 2 f_equal. symmetry.
      rewrite <- (find_route_unique routes a) by done. now injection Hc as <- <-.
    + f_equal. symmetry. destruct (find_route routes target slot) as [a|] eqn:Hf; [|done].
      exfalso. apply find_route_Some in Hf as (Hin & Ht & Hs).
      apply list_elem_of_lookup in Hin as [k Hk]. apply (Ho (Z.of_nat k)).
      * apply lookup_elem. apply lookup_lt_Some in Hk. unfold len. lia.
      * unfold c. rewrite Nat2Z.id, Hk. apply key_compare_eq. unfold route_key. congruence.
Qed.

(** Every slot of a topology has its route. *)
Lemma topology_slot_routed t r i :
  topology_wf t -> r ∈ rsl_regions t -> 0 <= i < rh_slot_count (rl_header r) ->
  exists route, find_route (rsl_routes t) (RegionLayout_role r) i = Some route /\
                route ∈ rsl_routes t /\ ar_target route = RegionLayout_role r /\ ar_slot_index route = i.
Proof.
  intros Hwf Hr Hi.
  assert (Hk : (RegionLayout_role r, i) ∈ route_key <$> rsl_routes t).
  { rewrite topology_slots_perm by done. apply list_elem_of_bind. exists r. split; [|done].
    apply list_elem_of_fmap. exists i. split; [done|]. apply elem_of_seqZ. lia. }
  apply list_elem_of_fmap in Hk as (route & [= Ht Hs] & Hin). exists route.
  split; [|done]. rewrite Ht, Hs. apply find_route_unique; [apply tw_slots; done|done].
Qed.

(** [acknowledgement_route], a binary search over the sorted index
    lookup, is equivalent to a linear search of the route list for every role
    and slot, never panics, and finds a route for every slot of the topology. *)
Theorem acknowledgement_route_correct {AL : Allocator} {E} schema_id generation specs route_specs
  limits t target slot :
  Forall RegionSpec_wf specs -> Forall RouteSpec_wf route_specs ->
  len schema_id = 32 -> u64 generation ->
  RegionSetLayout_calculate schema_id generation specs route_specs limits = Ok t ->
  acknowledgement_route (E := E) t target slot = Ok (find_route (rsl_routes t) target slot) /\
  (forall r, RegionSetLayout_region t target = Some r -> 0 <= slot < rh_slot_count (rl_header r) ->
             exists route, acknowledgement_route (E := E) t target slot = Ok (Some route) /\
                           ar_target route = target /\ ar_slot_index route = slot).
Proof.
  intros Hs Hr Hid Hg (Hwf & _)%calculate_topology; [|done..].
  rewrite acknowledgement_route_find by done. split; [done|].
  intros r [Hin <-]%find_region_Some Hi.
  destruct (topology_slot_routed t r slot) as (route & -> & _ & Ht & Hsl); [done..|]. eauto.
Qed.

(** ** A sample topology: two regions of opposite writers *)

Definition unlimited : Allocator := fun _ => true.

Definition sample_schema : bytes := replicate 32 x5a.
Definition sample_specs : list RegionSpec :=
  [ {| rs_role := 1; rs_writer := Initiator; rs_slot_count := 2; rs_payload_bytes := 70;
       rs_acknowledgement_count := 1 |};
    {| rs_role := 2; rs_writer := Responder; rs_slot_count := 1; rs_payload_bytes := 8;
       rs_acknowledgement_count := 2 |} ].
Definition sample_routes : list AcknowledgementRouteSpec :=
  [ {| ars_owner := 2; ars_target := 1; ars_slot_index := 1; ars_cell_index := 0 |};
    {| ars_owner := 1; ars_target := 2; ars_slot_index := 0; ars_cell_index := 0 |};
    {| ars_owner := 2; ars_target := 1; ars_slot_index := 0; ars_cell_index := 1 |} ].
Definition sample_topology : RegionSetLayout := Eval vm_compute in
  match RegionSetLayout_calculate (AL := unlimited) sample_schema 9 sample_specs sample_routes
          sample_limits with
  | Ok t => t
  | _ => {| rsl_regions := []; rsl_routes := []; rsl_route_lookup := [] |}
  end.

Lemma sample_specs_wf : Forall RegionSpec_wf sample_specs.
Proof. repeat constructor; simpl; unfold RegionSpec_wf; simpl; ulia. Qed.
Lemma sample_routes_wf : Forall RouteSpec_wf sample_routes.
Proof. repeat constructor; simpl; ulia. Qed.
Lemma sample_calculated :
  RegionSetLayout_calculate (AL := unlimited) sample_schema 9 sample_specs sample_routes sample_limits
  = Ok sample_topology.
Proof. vm_compute. reflexivity. Qed.
Lemma sample_topology_wf : topology_wf sample_topology.
Proof.
  eapply (calculate_topology (AL := unlimited) sample_schema 9 sample_specs sample_routes sample_limits);
    [apply sample_specs_wf|apply sample_routes_wf|reflexivity|ulia|apply sample_calculated].
Qed.

Lemma routes_bijection_witness :
  route_key <$> rsl_routes sample_topology ≡ₚ [(1, 0); (1, 1); (2, 0)] /\
  cell_key <$> rsl_routes sample_topology ≡ₚ [(1, 0); (2, 0); (2, 1)].
Proof.
  destruct (routes_bijection (AL := unlimited) sample_schema 9 sample_specs sample_routes
              sample_limits sample_topology) as (Hs & _ & Hc & _).
  - apply sample_specs_wf.
  - apply sample_routes_wf.
  - reflexivity.
  - ulia.
  - vm_compute. reflexivity.
  - split; [exact Hs|exact Hc].
Defined.

Lemma acknowledgement_route_correct_witness :
  acknowledgement_route (E := LayoutError) sample_topology 1 1
  = Ok (Some {| ar_owner := 2; ar_target := 1; ar_slot_index := 1; ar_cell_index := 0 |}) /\
  acknowledgement_route (E := LayoutError) sample_topology 2 1 = Ok None.
Proof.
  split.
  - destruct (acknowledgement_route_correct (AL := unlimited) (E := LayoutError) sample_schema 9
      sample_specs sample_routes sample_limits sample_topology 1 1) as [H _];
      [apply sample_specs_wf|apply sample_routes_wf|reflexivity|ulia|vm_compute; reflexivity|].
    rewrite H. reflexivity.
  - destruct (acknowledgement_route_correct (AL := unlimited) (E := LayoutError) sample_schema 9
      sample_specs sample_routes sample_limits sample_topology 2 1) as [H _];
      [apply sample_specs_wf|apply sample_routes_wf|reflexivity|ulia|vm_compute; reflexivity|].
    rewrite H. reflexivity.
Defined.
