(* ===== verification/LayoutValidate.v ===== *)
(** * LayoutValidate: initialising and validating a mapping

    The exact bytes [RegionLayout::encode_into] writes, what
    [ValidatedRegionLayout::validate] establishes about any bytes it accepts,
    that it cannot panic, and the round trip between the two. *)

From S2P Require Import Prelude Bytes Codec Layout LayoutGeometry LayoutRoutes.

(** ** The image of a quiescent region *)

Definition slot_image (h : RegionHeader) : bytes :=
  le_bytes 8 (rh_generation h) ++ zeros (rh_slot_stride h - 8).

Definition slots_image (h : RegionHeader) (n : nat) : bytes := concat (replicate n (slot_image h)).

Definition region_image (h : RegionHeader) : bytes :=
  header_bytes h ++ zeros (rh_acknowledgement_count h * 64) ++
  slots_image h (Z.to_nat (rh_slot_count h)).

Lemma zeros_app a b : 0 <= a -> 0 <= b -> zeros a ++ zeros b = zeros (a + b).
Proof. intros. unfold zeros. rewrite <- replicate_add. f_equal. lia. Qed.

Section Image.
Context (h : RegionHeader).
Hypothesis Hg : geometry h.

Lemma geometry_numbers :
  64 < rh_slot_stride h < 2 ^ 32 /\ 0 < rh_slot_count h < 2 ^ 32 /\
  0 <= rh_acknowledgement_count h < 2 ^ 32 /\
  rh_slots_offset h = 128 + rh_acknowledgement_count h * 64 /\
  rh_total_size h = rh_slots_offset h + rh_slot_stride h * rh_slot_count h /\ u64 (rh_total_size h) /\
  u64 (rh_generation h).
Proof.
  destruct Hg as [_ ? _ _ _ ? _ Hoff [] [] [Hs ?] []].
  destruct (round_up_line (SLOT_HEADER_SIZE + rh_payload_capacity h)) as [Hb _];
    [unfold SLOT_HEADER_SIZE; ulia|]. fold (region_stride (rh_payload_capacity h)) in Hb.
  rewrite <- Hs in Hb. unfold SLOT_HEADER_SIZE in Hb.
  unfold region_slots_offset, REGION_HEADER_SIZE, ACKNOWLEDGEMENT_CELL_SIZE in *.
  split_and!; ulia.
Qed.

Lemma slot_image_len : len (slot_image h) = rh_slot_stride h.
Proof.
  destruct geometry_numbers as (?&_). unfold slot_image.
  rewrite len_app, len_le_bytes, len_zeros by lia. lia.
Qed.

Lemma slots_image_len n : len (slots_image h n) = Z.of_nat n * rh_slot_stride h.
Proof.
  induction n as [|n IH]; [done|].
  change (slots_image h (S n)) with (slot_image h ++ slots_image h n).
  rewrite len_app, IH, slot_image_len. lia.
Qed.

Lemma slots_image_snoc n : slots_image h (S n) = slots_image h n ++ slot_image h.
Proof.
  unfold slots_image. rewrite replicate_S_end, concat_app. simpl. now rewrite app_nil_r.
Qed.

Lemma region_image_len : len (region_image h) = rh_total_size h.
Proof.
  destruct geometry_numbers as (?&?&?&Ho&Ht&_). pose proof (geo_schema _ Hg).
  unfold region_image. rewrite !len_app, header_bytes_len, slots_image_len, len_zeros by (done || lia).
  rewrite Z2Nat.id by lia. lia.
Qed.

(** The loop that stamps the generation into every slot header. *)
Lemma stamp_slots pre post (k n : nat) :
  len pre = rh_slots_offset h -> Z.of_nat (k + n) = rh_slot_count h ->
  rfor (E := LayoutError) (seqZ (Z.of_nat k) (Z.of_nat n)) (fun slot d =>
      let? offset := umul USIZE_MAX slot (rh_slot_stride h) in
      let? start := uadd USIZE_MAX (rh_slots_offset h) offset in
      put_u64 d start (rh_generation h))
    (pre ++ slots_image h k ++ zeros (Z.of_nat n * rh_slot_stride h) ++ post)
  = Ok (pre ++ slots_image h (k + n) ++ post).
Proof.
  intros Hpre. revert k. induction n as [|n IH]; intros k Hk.
  - simpl. unfold zeros. simpl. now rewrite Nat.add_0_r.
  - destruct geometry_numbers as (?&?&?&Ho&Ht&?&_).
    rewrite seqZ_cons by lia. cbn [rfor].
    assert (Hend : rh_slots_offset h + (Z.of_nat k + 1) * rh_slot_stride h <= rh_total_size h) by nia.
    assert (Hks : 0 <= Z.of_nat k * rh_slot_stride h) by nia.
    assert (Hns : 0 <= Z.of_nat n * rh_slot_stride h) by nia.
    unfold umul, uadd. rewrite checked_mul_ok by ulia. cbn [expect rbind].
    rewrite checked_add_ok by ulia. cbn [expect rbind].
    set (stride := rh_slot_stride h) in *.
    replace (Z.of_nat (S n) * stride) with (stride + Z.of_nat n * stride) by lia.
    rewrite put_u64_ok
      by (rewrite ?len_app, ?slots_image_len, ?len_zeros, ?Hpre by lia; pose proof (len_nonneg post); fold stride; lia).
    cbn [rbind].
    rewrite (splice_app_skip pre _ _ _ (Z.of_nat k * stride)) by lia.
    rewrite (splice_app_skip (slots_image h k) _ _ _ 0) by (rewrite slots_image_len; fold stride; lia).
    rewrite splice_app_take by (rewrite len_le_bytes, len_zeros; lia).
    rewrite splice_head by (rewrite len_le_bytes, len_zeros; lia).
    rewrite len_le_bytes, len_zeros, slice_zeros by lia.
    replace (stride + Z.of_nat n * stride - Z.of_nat 8)
      with ((stride - 8) + Z.of_nat n * stride) by lia.
    rewrite <- zeros_app by lia.
    replace (Z.succ (Z.of_nat k)) with (Z.of_nat (S k)) by lia.
    replace (Z.pred (Z.of_nat (S n))) with (Z.of_nat n) by lia.
    replace (k + S n)%nat with (S k + n)%nat by lia. rewrite <- IH by lia. f_equal.
    rewrite slots_image_snoc. unfold slot_image. fold stride. now rewrite <- !app_assoc.
Qed.

Lemma encode_into_image d :
  rh_total_size h <= len d ->
  RegionLayout_encode_into {| rl_header := h |} d
  = (Ok tt, region_image h ++ slice d (rh_total_size h) (len d)).
Proof.
  intros Hd. destruct geometry_numbers as (?&?&?&Ho&Ht&?&_). pose proof (geo_schema _ Hg) as Hid.
  unfold RegionLayout_encode_into, sbind, sget, slift. cbn [rl_header].
  rewrite try_from_ok by done. cbn [ok_or].
  replace (len d <? rh_total_size h) with false by lia.
  erewrite supdate_ok
    by (unfold fill_zero; apply copy_range_ok; rewrite ?len_zeros by ulia; ulia).
  cbn beta iota.
  assert (Htl : 128 <= rh_total_size h) by nia.
  set (tail := slice d (rh_total_size h) (len d)).
  replace (splice d 0 (zeros (rh_total_size h - 0)))
    with (zeros 128 ++ zeros (rh_total_size h - 128) ++ tail).
  2:{ rewrite splice_head by (rewrite len_zeros; ulia). rewrite len_zeros by ulia.
      rewrite app_assoc, zeros_app by ulia. unfold tail. repeat f_equal; ulia. }
  rewrite on_range_ok by (unfold REGION_HEADER_SIZE; rewrite ?len_app, ?len_zeros; pose proof (len_nonneg tail); ulia).
  rewrite (slice_app_take (zeros 128) _ 128) by (reflexivity || apply len_zeros; lia).
  rewrite (supdate_ok _ _ (header_bytes h))
    by (apply encode_header_bytes; done || apply len_zeros; lia). cbn [fst snd].
  rewrite splice_app_take by (rewrite header_bytes_len, len_zeros; done || lia).
  rewrite splice_full by (done || (rewrite header_bytes_len, len_zeros by (done || lia); done)).
  replace (zeros (rh_total_size h - 128))
    with (zeros (rh_acknowledgement_count h * 64) ++ zeros (rh_slot_count h * rh_slot_stride h))
    by (rewrite zeros_app by nia; f_equal; lia).
  pose proof (stamp_slots (header_bytes h ++ zeros (rh_acknowledgement_count h * 64)) tail 0
                (Z.to_nat (rh_slot_count h))) as Hloop.
  rewrite !Z2Nat.id in Hloop by lia. simpl Z.of_nat in Hloop. change (slots_image h 0) with ([] : bytes) in Hloop.
  rewrite app_nil_l in Hloop. rewrite <- !app_assoc in Hloop. rewrite <- !app_assoc.
  erewrite supdate_ok; [unfold region_image; now rewrite <- !app_assoc|]. apply Hloop.
  - rewrite len_app, header_bytes_len, len_zeros by (done || lia). lia.
  - lia.
Qed.

End Image.

(** ** What validation establishes *)

Definition slot_fresh (h : RegionHeader) (s : bytes) (i : Z) : Prop :=
  let start := rh_slots_offset h + i * rh_slot_stride h in
  slice s start (start + 64) = le_bytes 8 (rh_generation h) ++ zeros 56.

Record quiescent (h : RegionHeader) (s : bytes) : Prop := {
  q_header : slice s 0 128 = header_bytes h;
  q_cells : slice s 128 (rh_slots_offset h) = zeros (rh_slots_offset h - 128);
  q_slots : forall i, 0 <= i < rh_slot_count h -> slot_fresh h s i;
  q_padding : slice s (rh_total_size h) (len s) = zeros (len s - rh_total_size h)
}.

(** The identity a peer was told to expect. *)
Record expected_of (h : RegionHeader) (n : Z) (x : ValidationExpectations) : Prop := {
  xo_generation : ve_generation x <> 0 /\ rh_generation h = ve_generation x;
  xo_schema : rh_schema_id h = ve_schema_id x;
  xo_role : rh_role h = ve_role x;
  xo_writer : Endpoint_from_raw (rh_writer h) = Some (ve_writer x);
  xo_size : rh_total_size h <= n <= ve_maximum_mapping_size x
}.

Definition validated (h : RegionHeader) (n : Z) (t : RegionSetLayout) : ValidatedRegionLayout :=
  {| vrl_header := h;
     vrl_acknowledgements := (REGION_HEADER_SIZE, rh_slots_offset h);
     vrl_slots := (rh_slots_offset h, rh_total_size h);
     vrl_mapping_size := n;
     vrl_routes := rsl_routes t |}.

(** A branch that rejects, where the specification does not hold. *)
Ltac rejected := split; [done|]; split; [discriminate|]; intros ([[] ? ? ? []] & ?); naive_solver.

Lemma validate_header_cases h n x :
  header_widths h -> ve_generation x <> 0 ->
  validate_header h n x <> Panic /\
  (validate_header h n x = Ok tt <->
   expected_of h n x /\
   rh_acknowledgement_offset h = 128 /\ rh_acknowledgement_stride h = 64 /\
   rh_slots_offset h = 128 + rh_acknowledgement_count h * 64 /\
   rh_slot_count h <> 0 /\ rh_payload_capacity h <> 0).
Proof.
  intros (_ & Ht & _ & _ & _ & _ & Hc & _ & _ & _ & _ & _) Hg.
  assert (Hal : forall c, u32 c -> align_up (128 + c * 64) CACHE_LINE = Ok (128 + c * 64)).
  { intros c Hu. rewrite align_line_ok by ulia. f_equal. apply round_up_aligned.
    replace (128 + c * 64) with ((2 + c) * 64) by lia. apply Z.mod_mul. lia. }
  assert (Hmod : (128 + rh_acknowledgement_count h * 64) mod CACHE_LINE = 0).
  { replace (128 + rh_acknowledgement_count h * 64)
      with ((2 + rh_acknowledgement_count h) * 64) by lia. apply Z.mod_mul. done. }
  unfold validate_header, REGION_HEADER_SIZE, ACKNOWLEDGEMENT_CELL_SIZE.
  destruct (negb (bool_decide (rh_schema_id h = _))) eqn:Ea; bsplit; [rejected|].
  destruct (negb (rh_generation h =? _)) eqn:Eb; bsplit; [rejected|].
  destruct (negb (rh_role h =? _)) eqn:Ec; bsplit; [rejected|].
  destruct (negb (bool_decide (Endpoint_from_raw _ = _))) eqn:Ed; bsplit; [rejected|].
  destruct (_ || _ || _ || _) eqn:Ee; bsplit.
  { split; [done|]. split; [done|]. intros ([] & _). rewrite !orb_true_iff in Ee. ulia. }
  destruct (negb _ || negb _) eqn:Ef; bsplit.
  { rewrite orb_true_iff, !negb_true_iff, !Z.eqb_neq in Ef. rejected. }
  rewrite Ef, Ef0. rewrite checked_mul_ok by ulia. cbn [ok_or rbind].
  rewrite checked_add_ok by ulia. cbn [ok_or rbind]. rewrite Hal by done. cbn [rbind].
  destruct (rh_slots_offset h =? 128 + rh_acknowledgement_count h * 64) eqn:Eg; bsplit.
  2:{ simpl. rejected. }
  rewrite Eg, Hmod. simpl. destruct (_ || _) eqn:Eh; bsplit.
  { rewrite orb_true_iff, !Z.eqb_eq in Eh. rejected. }
  split; [done|]. split; [|done]. intros _. split_and!; done || (constructor; done || ulia).
Qed.

Lemma validate_slot_fresh h s i :
  geometry h -> rh_total_size h <= len s -> usize (len s) -> 0 <= i < rh_slot_count h ->
  validate_slot h (rh_slots_offset h) s i tt <> Panic /\
  (validate_slot h (rh_slots_offset h) s i tt = Ok tt <-> slot_fresh h s i).
Proof.
  intros Hg Hl Hu Hi. destruct (geometry_numbers h Hg) as (?&?&?&Ho&Ht&?&?).
  assert (rh_slots_offset h + (i + 1) * rh_slot_stride h <= rh_total_size h) by nia.
  assert (0 <= i * rh_slot_stride h) by nia.
  unfold validate_slot, slot_fresh, umul, uadd, SLOT_HEADER_SIZE.
  rewrite checked_mul_ok by ulia. cbn [expect rbind]. rewrite checked_add_ok by ulia.
  cbn [expect rbind]. set (start := rh_slots_offset h + i * rh_slot_stride h) in *.
  assert (Hstart : 0 <= start /\ start + 64 <= len s) by lia. clearbody start.
  rewrite get_u64_ok by lia. cbn [rbind]. rewrite index_range_ok by lia. cbn [rbind].
  assert (Hw : len (slice s start (start + 8)) = 8) by (rewrite len_slice; lia).
  destruct (field s start 8 =? rh_generation h) eqn:E1; bsplit; cbn [negb].
  - destruct (any_nonzero _) eqn:E2.
    + split; [done|]. split; [done|]. intros Hf. exfalso.
      rewrite <- (slice_cat _ start (start + 8)) in Hf by lia.
      apply app_inj_1 in Hf as [_ Hf]; [|rewrite length_le_bytes; unfold len in Hw; lia].
      rewrite Hf, any_nonzero_zeros in E2. discriminate.
    + split; [done|]. split; [|done]. intros _. apply any_nonzero_false in E2.
      rewrite <- (slice_cat _ start (start + 8)) by lia. rewrite E2, len_slice by lia.
      replace (start + 64 - (start + 8)) with 56 by lia. f_equal.
      rewrite <- E1. symmetry. apply le_bytes_field; done || lia.
  - split; [done|]. split; [done|]. intros Hf. exfalso. apply E1.
    rewrite <- (slice_cat _ start (start + 8)) in Hf by lia.
    apply app_inj_1 in Hf as [Hf _]; [|rewrite length_le_bytes; unfold len in Hw; lia].
    unfold field. rewrite Hf. now apply le_val_u64.
Qed.

Lemma header_geometry h x n :
  header_widths h -> expected_of h n x ->
  rh_acknowledgement_offset h = 128 -> rh_acknowledgement_stride h = 64 ->
  rh_slots_offset h = 128 + rh_acknowledgement_count h * 64 ->
  rh_slot_count h <> 0 -> rh_payload_capacity h <> 0 ->
  rh_slot_stride h = region_stride (rh_payload_capacity h) ->
  rh_total_size h = rh_slots_offset h + rh_slot_stride h * rh_slot_count h ->
  geometry h.
Proof. intros (?&?&?&?&?&?&?&?&?&?&?&?) []. intros. constructor; try done. eauto. Qed.

Section Validate.
Context (s : bytes) (x : ValidationExpectations) (t : RegionSetLayout).
Hypothesis Hlen : usize (len s).

Definition accepted (h : RegionHeader) : Prop :=
  geometry h /\ expected_of h (len s) x /\ quiescent h s /\
  exists r, RegionSetLayout_region t (ve_role x) = Some r /\ rl_header r = h.

Lemma region_stride_ok p :
  u32 p -> checked_add U64_MAX SLOT_HEADER_SIZE p = Some (64 + p) /\
           align_up (64 + p) CACHE_LINE = Ok (region_stride p).
Proof.
  intros Hp. unfold SLOT_HEADER_SIZE. rewrite checked_add_ok, align_line_ok by ulia. done.
Qed.

Lemma checked_range_ok start stop total n :
  start <= stop -> stop <= total -> stop <= n -> stop <= USIZE_MAX ->
  checked_range start stop total n = Ok (start, stop).
Proof.
  intros. unfold checked_range. destruct (_ || _ || _ || _) eqn:E; [|done].
  rewrite !orb_true_iff in E. lia.
Qed.

Lemma checked_range_Ok start stop total n r :
  checked_range start stop total n = Ok r ->
  r = (start, stop) /\ start <= stop /\ stop <= total /\ stop <= n /\ stop <= USIZE_MAX.
Proof. unfold checked_range. intros H. rinv H. bsplit. lia || (split; [done|lia]). Qed.

Lemma validate_complete h :
  accepted h -> ValidatedRegionLayout_validate s x t = Ok (validated h (len s) t).
Proof.
  intros (Hg & Hx & Hq & r & Hr & <-). set (h := rl_header r) in *.
  destruct (geometry_numbers h Hg) as (?&?&?&Ho&Ht&?&?).
  pose proof (geometry_widths h Hg) as Hw. destruct (decode_header_bytes h Hw) as [Hd He].
  destruct (xo_generation _ _ _ Hx) as [Hg0 _]. destruct Hq as [Hqh Hqc Hqs Hqp].
  destruct (xo_size _ _ _ Hx) as [Hn Hm]. pose proof (geo_ack_offset _ Hg) as Hao.
  pose proof (geo_ack_stride _ Hg) as Has. destruct (geo_stride _ Hg) as [Hst _].
  destruct (geo_payload _ Hg) as [Hp Hp0]. destruct (geo_slot_count _ Hg) as [_ Hsc0].
  destruct (region_stride_ok _ Hp) as [Hs1 Hs2].
  assert (0 < rh_slot_stride h * rh_slot_count h) by nia.
  unfold ValidatedRegionLayout_validate. unfold REGION_HEADER_SIZE in *.
  replace (ve_generation x =? 0) with false by lia. replace (len s <? 128) with false by lia.
  rewrite index_range_ok by lia. cbn [rbind]. rewrite Hqh, He. cbn [rbind]. rewrite Hd. cbn [rbind].
  rewrite (proj2 (proj2 (validate_header_cases h (len s) x Hw Hg0))) by (split_and!; done).
  cbn [rbind]. rewrite Hr. fold h. rewrite bool_decide_eq_true_2 by done. cbn [negb].
  rewrite Hao, Has. unfold ACKNOWLEDGEMENT_CELL_SIZE.
  rewrite checked_mul_ok by ulia. cbn [ok_or rbind]. rewrite checked_add_ok by ulia. cbn [ok_or rbind].
  rewrite <- Ho. rewrite checked_range_ok by ulia. cbn [rbind fst snd].
  rewrite index_range_ok by lia. cbn [rbind]. rewrite Hqc, any_nonzero_zeros.
  rewrite index_range_ok by ulia. cbn [rbind]. rewrite Hqp, any_nonzero_zeros.
  rewrite Hs1. cbn [ok_or rbind]. rewrite Hs2. cbn [rbind]. rewrite <- Hst, Z.eqb_refl. cbn [negb].
  rewrite checked_mul_ok by ulia. cbn [ok_or rbind]. rewrite checked_add_ok by ulia. cbn [ok_or rbind].
  rewrite <- Ht, Z.eqb_refl. cbn [negb]. rewrite checked_range_ok by ulia. cbn [rbind fst snd].
  rewrite (proj2 (rfor_checks _ _)); [done|].
  intros i Hi%elem_of_seqZ. apply validate_slot_fresh; (done || lia || (apply Hqs; lia)).
Qed.

Lemma validate_sound v :
  ValidatedRegionLayout_validate s x t = Ok v -> exists h, accepted h /\ v = validated h (len s) t.
Proof.
  unfold ValidatedRegionLayout_validate. intros H. unfold REGION_HEADER_SIZE in H.
  destruct (ve_generation x =? 0) eqn:Hg0; [discriminate|].
  destruct (len s <? 128) eqn:Hl; [discriminate|]. bsplit.
  rewrite index_range_ok in H by lia. cbn [rbind] in H.
  destruct (validate_header_encoding _) as [[]| |] eqn:He; try discriminate. cbn [rbind] in H.
  destruct (decode_header _) as [h| |] eqn:Hd; try discriminate. cbn [rbind] in H.
  apply decode_header_inv in Hd as [Hb Hw]; [|rewrite len_slice; lia|done].
  destruct (validate_header h (len s) x) as [[]| |] eqn:Hh; try discriminate. cbn [rbind] in H.
  apply validate_header_cases in Hh as (Hx & Hao & Has & Hso & Hsc & Hpc); [|done..].
  destruct (RegionSetLayout_region t (ve_role x)) as [r|] eqn:Hr; [|discriminate].
  destruct (bool_decide (rl_header r = h)) eqn:Hrh; [|discriminate]. bsplit. cbn [negb] in H.
  pose proof Hw as (?&Htu&?&?&?&?&Hcu&?&?&Hsu&?&Hpu). rewrite Hao, Has in H.
  rewrite checked_mul_ok in H by ulia. cbn [ok_or rbind] in H.
  rewrite checked_add_ok in H by ulia. cbn [ok_or rbind] in H. rewrite <- Hso in H.
  destruct (checked_range _ _ _ _) as [acks| |] eqn:Hack; try discriminate. cbn [rbind] in H.
  apply checked_range_Ok in Hack as (-> & ? & ? & ? & ?). cbn [fst snd] in H.
  rewrite index_range_ok in H by lia. cbn [rbind] in H.
  destruct (any_nonzero (slice s 128 _)) eqn:Hz1; [discriminate|].
  pose proof (xo_size _ _ _ Hx) as Hsz. rewrite index_range_ok in H by ulia. cbn [rbind] in H.
  destruct (any_nonzero (slice s (rh_total_size h) _)) eqn:Hz2; [discriminate|].
  destruct (region_stride_ok _ Hpu) as [Hs1 Hs2]. rewrite Hs1 in H. cbn [ok_or rbind] in H.
  rewrite Hs2 in H. cbn [rbind] in H. destruct (negb _) eqn:Hst in H; [discriminate|]. bsplit.
  destruct (checked_mul _ _ _) eqn:Hm; [|discriminate]. apply checked_mul_Some in Hm as [-> Hm].
  cbn [ok_or rbind] in H. destruct (checked_add _ _ _) eqn:Ha; [|discriminate].
  apply checked_add_Some in Ha as [-> Ha]. cbn [ok_or rbind] in H.
  destruct (negb _) eqn:Htt in H; [discriminate|]. bsplit. rewrite Htt in H.
  destruct (checked_range _ _ _ _) as [slots| |] eqn:Hsl; try discriminate. cbn [rbind] in H.
  apply checked_range_Ok in Hsl as (-> & ? & ? & ? & ?). cbn [fst snd] in H.
  assert (Hgeo : geometry h) by (apply header_geometry with x (len s); done).
  destruct (rfor _ _ _) as [[]| |] eqn:Hf; try discriminate. injection H as <-.
  exists h. split; [|done]. split_and!; [done..| |eauto]. constructor.
  - done.
  - apply any_nonzero_false in Hz1. rewrite Hz1. f_equal. rewrite len_slice; lia.
  - intros i Hi. rewrite rfor_checks in Hf.
    apply validate_slot_fresh; done || lia || (apply Hf, elem_of_seqZ; lia).
  - apply any_nonzero_false in Hz2. rewrite Hz2. f_equal. rewrite len_slice; ulia.
Qed.

Lemma validate_no_panic : ValidatedRegionLayout_validate s x t <> Panic.
Proof.
  unfold ValidatedRegionLayout_validate. unfold REGION_HEADER_SIZE.
  destruct (ve_generation x =? 0) eqn:Hg0; [done|].
  destruct (len s <? 128) eqn:Hl; [done|]. bsplit. rewrite index_range_ok by lia. cbn [rbind].
  assert (H128 : len (slice s 0 128) = 128) by (rewrite len_slice; lia).
  pose proof (validate_header_encoding_total _ H128).
  destruct (validate_header_encoding _) as [[]| |] eqn:He; try done. cbn [rbind].
  destruct (decode_header_total _ H128) as [h Hd]. rewrite Hd. cbn [rbind].
  apply decode_header_inv in Hd as [Hb Hw]; [|done..].
  pose proof (validate_header_cases h (len s) x Hw ltac:(lia)) as [Hnp Hh].
  destruct (validate_header h (len s) x) as [[]| |]; try done. cbn [rbind].
  destruct (proj1 Hh eq_refl) as (Hx & Hao & Has & Hso & Hsc & Hpc).
  destruct (negb _); [done|]. pose proof Hw as (?&Htu&?&?&?&?&Hcu&?&?&Hsu&?&Hpu).
  rewrite Hao, Has. rewrite checked_mul_ok by ulia. cbn [ok_or rbind].
  rewrite checked_add_ok by ulia. cbn [ok_or rbind]. rewrite <- Hso.
  destruct (checked_range _ _ _ _) as [acks| |] eqn:Hack; cbn [rbind]; [|done|].
  2:{ unfold checked_range in Hack. now case_match. }
  apply checked_range_Ok in Hack as (-> & ? & ? & ? & ?). cbn [fst snd].
  rewrite index_range_ok by lia. cbn [rbind]. destruct (any_nonzero _); [done|].
  pose proof (xo_size _ _ _ Hx) as Hsz. rewrite index_range_ok by ulia. cbn [rbind].
  destruct (any_nonzero _); [done|]. destruct (region_stride_ok _ Hpu) as [-> Hs2].
  cbn [ok_or rbind]. rewrite Hs2. cbn [rbind]. destruct (negb _) eqn:Hst; [done|]. bsplit.
  destruct (checked_mul _ _ _) eqn:Hm; [|done]. apply checked_mul_Some in Hm as [-> Hm].
  cbn [ok_or rbind]. destruct (checked_add _ _ _) eqn:Ha; [|done].
  apply checked_add_Some in Ha as [-> Ha]. cbn [ok_or rbind].
  destruct (negb _) eqn:Htt; [done|]. bsplit. rewrite Htt.
  destruct (checked_range _ _ _ _) as [slots| |] eqn:Hsl; cbn [rbind]; [|done|].
  2:{ unfold checked_range in Hsl. now case_match. }
  apply checked_range_Ok in Hsl as (-> & ? & ? & ? & ?). cbn [fst snd].
  assert (Hgeo : geometry h) by (apply header_geometry with x (len s); done).
  assert (Hf : rfor (seqZ 0 (rh_slot_count h)) (validate_slot h (rh_slots_offset h) s) tt <> Panic).
  { apply rfor_no_panic with (P := fun _ => True); [done|]. intros i [] Hi%elem_of_seqZ _.
    split; [|done]. apply validate_slot_fresh; done || lia. }
  now destruct (rfor _ _ _).
Qed.

End Validate.

Lemma accepted_validated_ok s x t h :
  usize (len s) -> accepted s x t h -> validated_ok (validated h (len s) t).
Proof.
  intros Hl (Hg & Hx & _). constructor; try done. simpl. pose proof (xo_size _ _ _ Hx). ulia.
Qed.

Lemma accepted_topology s x t h :
  accepted s x t h -> matches_topology (validated h (len s) t) t = true.
Proof.
  intros (Hg & Hx & _ & r & Hr & Hh). unfold matches_topology, ValidatedRegionLayout_role. simpl.
  rewrite (xo_role _ _ _ Hx), Hr, bool_decide_eq_true_2, Z.eqb_refl by done. simpl.
  apply forallb_forall. intros route Hin. apply bool_decide_eq_true_2. now apply list_elem_of_In.
Qed.

(** C35: Validation is exact on arbitrary bytes. It never panics, whatever the
    mapping holds, and it accepts precisely the quiescent mappings of a region
    of the topology: canonical header with the expected identity and the
    contiguous geometry, zero acknowledgement cells, every slot stamped with
    the generation and otherwise zero, zero page padding. What it returns has
    in-bounds ranges and belongs to the topology. *)
Theorem validate_exact s x t :
  usize (len s) ->
  ValidatedRegionLayout_validate s x t <> Panic /\
  (forall v, ValidatedRegionLayout_validate s x t = Ok v <->
             exists h, accepted s x t h /\ v = validated h (len s) t) /\
  (forall v, ValidatedRegionLayout_validate s x t = Ok v ->
             validated_ok v /\ matches_topology v t = true).
Proof.
  intros Hl. split_and!.
  - now apply validate_no_panic.
  - intros v. split; [now apply validate_sound|]. intros (h & Ha & ->). now apply validate_complete.
  - intros v (h & Ha & ->)%validate_sound; [|done].
    split; [now apply accepted_validated_ok with x|now apply accepted_topology with x].
Qed.

(** ** The image is quiescent *)

Lemma slots_image_split h n i :
  (i < n)%nat -> slots_image h n = slots_image h i ++ slot_image h ++ slots_image h (n - i - 1).
Proof.
  intros Hi. replace n with (i + (1 + (n - i - 1)))%nat at 1 by lia.
  unfold slots_image. rewrite !replicate_add, !concat_app. simpl. now rewrite app_nil_r.
Qed.

Lemma image_quiescent h k :
  geometry h -> 0 <= k -> quiescent h (region_image h ++ zeros k).
Proof.
  intros Hg Hk. destruct (geometry_numbers h Hg) as (?&?&?&Ho&Ht&?&?).
  pose proof (header_bytes_len h (geo_schema _ Hg)) as Hhl.
  pose proof (region_image_len h Hg) as Hil.
  assert (Hcl : len (zeros (rh_acknowledgement_count h * 64)) = rh_acknowledgement_count h * 64)
    by (apply len_zeros; lia).
  constructor.
  - unfold region_image. rewrite <- !app_assoc. now apply slice_app_take with 128.
  - unfold region_image. rewrite <- !app_assoc.
    rewrite (slice_app_skip (header_bytes h) _ 128 _ _ 0 (rh_acknowledgement_count h * 64)) by lia.
    rewrite (slice_app_take (zeros _) _ (rh_acknowledgement_count h * 64)) by done. f_equal. lia.
  - intros i Hi. unfold slot_fresh, region_image.
    assert (0 <= i * rh_slot_stride h) by nia.
    rewrite (slots_image_split h _ (Z.to_nat i)) by lia. rewrite <- !app_assoc.
    cbv zeta. set (o := rh_slots_offset h + i * rh_slot_stride h).
    set (c := rh_acknowledgement_count h * 64) in *.
    rewrite (slice_app_skip (header_bytes h) _ 128 o (o + 64) (o - 128) (o - 64)) by lia.
    rewrite (slice_app_skip (zeros c) _ c _ _ (i * rh_slot_stride h) (i * rh_slot_stride h + 64)) by lia.
    rewrite (slice_app_skip (slots_image h (Z.to_nat i)) _ (i * rh_slot_stride h) _ _ 0 64)
      by (rewrite ?slots_image_len, ?Z2Nat.id by (done || lia); lia).
    rewrite slice_app_l by (rewrite ?slot_image_len by done; lia). unfold slot_image.
    replace (rh_slot_stride h - 8) with (56 + (rh_slot_stride h - 64)) by lia.
    rewrite <- zeros_app, app_assoc by lia. apply slice_app_take with 64; try done.
  - rewrite len_app, len_zeros, Hil by lia.
    rewrite (slice_app_skip (region_image h) _ (rh_total_size h) _ _ 0 k) by lia.
    rewrite slice_full by (rewrite ?len_zeros; lia). f_equal. lia.
Qed.

(** C17: Round trip of the mapping handshake. For every region of a composed
    topology and every buffer at least its size whose tail is zero, whatever
    it held before, [encode_into] succeeds and the peer's [validate] accepts
    the result with the expectations of that region. *)
Theorem encode_validate_roundtrip {AL : Allocator} schema_id generation specs route_specs limits t
  spec d maximum :
  Forall RegionSpec_wf specs -> Forall RouteSpec_wf route_specs ->
  len schema_id = 32 -> u64 generation ->
  RegionSetLayout_calculate schema_id generation specs route_specs limits = Ok t ->
  spec ∈ specs ->
  let r := region_of schema_id generation spec in
  let total := rh_total_size (rl_header r) in
  total <= len d <= maximum -> usize (len d) ->
  slice d total (len d) = zeros (len d - total) ->
  exists d',
    RegionLayout_encode_into r d = (Ok tt, d') /\
    ValidatedRegionLayout_validate d'
      {| ve_schema_id := schema_id; ve_generation := generation; ve_role := rs_role spec;
         ve_writer := rs_writer spec; ve_maximum_mapping_size := maximum |} t
    = Ok (validated (rl_header r) (len d) t).
Proof.
  intros Hs Hr Hid Hgen (Hwf & Hg0 & Hreg & _)%calculate_topology Hin r total Hd Hu Htail; [|done..].
  assert (Hrin : r ∈ rsl_regions t) by (rewrite Hreg; apply list_elem_of_fmap; eauto).
  assert (Hg : geometry (rl_header r)).
  { pose proof (tw_geometry _ Hwf) as HF. rewrite Forall_forall in HF. auto. }
  exists (region_image (rl_header r) ++ zeros (len d - total)).
  split; [rewrite <- Htail; apply encode_into_image; [done|apply Hd]|].
  assert (Hlen : len (region_image (rl_header r) ++ zeros (len d - total)) = len d).
  { rewrite len_app, region_image_len, len_zeros by (done || lia). unfold total. lia. }
  rewrite <- Hlen at 2. apply validate_complete; rewrite ?Hlen; [done|].
  split_and!; [done| |apply image_quiescent; done || lia|].
  - rewrite Hlen. constructor; try done. apply Endpoint_from_raw_raw.
  - exists r. split; [|done]. apply (find_region_unique _ r); [apply tw_roles; done|done].
Qed.

(** ** Witnesses on the sample topology *)

Definition sample_expectations : ValidationExpectations :=
  {| ve_schema_id := sample_schema; ve_generation := 9; ve_role := 1; ve_writer := Initiator;
     ve_maximum_mapping_size := 4096 |}.
Definition sample_region : RegionLayout := Eval vm_compute in
  region_of sample_schema 9 (hd sample_spec sample_specs).
(** A buffer with stale content and a zero tail. *)
Definition sample_buffer : bytes := Eval vm_compute in
  replicate (Z.to_nat (rh_total_size (rl_header sample_region))) xff ++ zeros 8.

Lemma encode_validate_roundtrip_witness :
  exists d', RegionLayout_encode_into sample_region sample_buffer = (Ok tt, d') /\
    ValidatedRegionLayout_validate d' sample_expectations sample_topology
    = Ok (validated (rl_header sample_region) (len sample_buffer) sample_topology).
Proof.
  apply (encode_validate_roundtrip (AL := unlimited) sample_schema 9 sample_specs sample_routes
           sample_limits sample_topology (hd sample_spec sample_specs) sample_buffer 4096).
  - apply sample_specs_wf.
  - apply sample_routes_wf.
  - reflexivity.
  - ulia.
  - vm_compute. reflexivity.
  - left.
  - vm_compute. split; discriminate.
  - vm_compute. split; discriminate.
  - vm_compute. reflexivity.
Defined.

Definition sample_mapping : bytes := Eval vm_compute in
  snd (RegionLayout_encode_into sample_region sample_buffer).
Definition sample_validated : ValidatedRegionLayout := Eval vm_compute in
  validated (rl_header sample_region) (len sample_buffer) sample_topology.

Lemma validate_exact_witness :
  validated_ok sample_validated /\ matches_topology sample_validated sample_topology = true.
Proof.
  apply (validate_exact sample_mapping sample_expectations sample_topology);
    [vm_compute; split; discriminate|vm_compute; reflexivity].
Defined.

Lemma sample_validated_ok : validated_ok sample_validated.
Proof.
  eapply (accepted_validated_ok sample_mapping sample_expectations sample_topology).
  - vm_compute. split; discriminate.
  - destruct (validate_sound sample_mapping sample_expectations sample_topology) with sample_validated
      as (h & Ha & Hv); [vm_compute; split; discriminate|vm_compute; reflexivity|].
    now injection Hv as <-.
Qed.

Lemma record_ranges_disjoint_witness :
  record_range sample_validated (SlotRecord 0) = Ok (192, 384) /\
  record_range sample_validated (SlotRecord 1) = Ok (384, 576) /\ 384 <= 384.
Proof.
  split; [reflexivity|]. split; [reflexivity|].
  destruct (record_ranges_disjoint sample_validated (SlotRecord 0) (SlotRecord 1) 192 384 384 576)
    as (_ & _ & _ & _ & _ & H);
    [apply sample_validated_ok|vm_compute; discriminate|vm_compute; discriminate|reflexivity|reflexivity|].
  destruct (H ltac:(discriminate)) as [H'|H']; [exact H'|lia].
Defined.
