(* ===== verification/Memory.v ===== *)
(** * Memory: shared mappings as the endpoints see them

    The slot and acknowledgement records of [slot.rs] and the payload copies of
    [mapping.rs] live in shared mappings. [Loads] and [Stores] are what the
    code needs of a mapping: atomic loads and stores of one little-endian
    field, and a volatile load of one byte. Three kinds of mapping implement
    them:

    - the sole writer's own mapping ([OwnMapping]), whose state is its bytes;
    - the same mapping with a record of the writes made to it, in program order
      ([RecordedMapping]);
    - a peer's mapping ([PeerMapping]), whose bytes may change between any two
      loads: its state is a clock, and each load reads what the mapping holds
      at that instant of an arbitrary history.

    An access outside the mapping is [Panic]. *)

From S2P Require Import Prelude Bytes.

(** ** Interfaces *)

Class Loads (M S : Type) : Type := {
  load : forall {E}, M -> Z -> Z -> stm S E Z;
  load_byte : forall {E}, M -> Z -> stm S E byte
}.

Class Stores (M S : Type) : Type := {
  store : forall {E}, M -> Z -> Z -> Z -> stm S E unit;
  copy_in : forall {E}, M -> Z -> bytes -> stm S E unit
}.

(** ** The sole writer's mapping *)

Inductive OwnMapping : Set := own.

#[export] Instance OwnLoads : Loads OwnMapping bytes := {
  load := fun E _ off n m =>
    if in_range m off (off + n) then (Ok (field m off n), m) else (Panic, m);
  load_byte := fun E _ off m =>
    match m !! Z.to_nat off with
    | Some b => if 0 <=? off then (Ok b, m) else (Panic, m)
    | None => (Panic, m)
    end
}.

#[export] Instance OwnStores : Stores OwnMapping bytes := {
  store := fun E _ off n v => supdate (fun m => copy_range m off (off + n) (le_bytes (Z.to_nat n) v));
  copy_in := fun E _ off s => supdate (fun m => copy_range m off (off + len s) s)
}.

(** ** The sole writer's mapping, recorded *)

(** A write of a method: one atomic store, or a copy that is not atomic. *)
Inductive write :=
| Stored (off n v : Z)
| Copied (off : Z) (s : bytes).

Inductive RecordedMapping : Set := recorded.

Definition unrecorded {E A} (m : stm bytes E A) : stm (bytes * list write) E A :=
  fun '(b, ws) => let '(r, b) := m b in (r, (b, ws)).

Definition recording {E} (x : write) (m : stm bytes E unit) : stm (bytes * list write) E unit :=
  fun '(b, ws) => let '(r, b) := m b in (r, (b, match r with Ok _ => ws ++ [x] | _ => ws end)).

#[export] Instance RecordedLoads : Loads RecordedMapping (bytes * list write) := {
  load := fun E _ off n => unrecorded (load own off n);
  load_byte := fun E _ off => unrecorded (load_byte own off)
}.

#[export] Instance RecordedStores : Stores RecordedMapping (bytes * list write) := {
  store := fun E _ off n v => recording (Stored off n v) (store own off n v);
  copy_in := fun E _ off s => recording (Copied off s) (copy_in own off s)
}.

(** ** A peer's mapping *)

Definition history : Type := nat -> bytes.

#[export] Instance PeerLoads : Loads history nat := {
  load := fun E h off n t =>
    if in_range (h t) off (off + n) then (Ok (field (h t) off n), S t) else (Panic, S t);
  load_byte := fun E h off t =>
    match h t !! Z.to_nat off with
    | Some b => if 0 <=? off then (Ok b, S t) else (Panic, S t)
    | None => (Panic, S t)
    end
}.

(** ** Successful accesses *)

Section Own.
Context {E : Type} (m : bytes) (off : Z).
Hypothesis Hoff : 0 <= off.

Lemma own_load n : 0 <= n -> off + n <= len m -> load (E := E) own off n m = (Ok (field m off n), m).
Proof.
  intros. simpl. unfold in_range.
  rewrite (proj2 (Z.leb_le 0 off)), (proj2 (Z.leb_le off (off + n))), (proj2 (Z.leb_le _ _)) by lia.
  done.
Qed.

Lemma own_store n v :
  0 <= n -> off + n <= len m ->
  store (E := E) own off n v m = (Ok tt, splice m off (le_bytes (Z.to_nat n) v)).
Proof. intros. apply supdate_ok, copy_range_ok; rewrite ?len_le_bytes; lia. Qed.

Lemma own_copy_in s : off + len s <= len m -> copy_in (E := E) own off s m = (Ok tt, splice m off s).
Proof. intros. pose proof (len_nonneg s). apply supdate_ok, copy_range_ok; lia. Qed.

End Own.

Section Peer.
Context {E : Type} (h : history) (t : nat) (off : Z).
Hypothesis Hoff : 0 <= off.

Lemma peer_load n :
  0 <= n -> off + n <= len (h t) -> load (E := E) h off n t = (Ok (field (h t) off n), S t).
Proof.
  intros. simpl. unfold in_range.
  rewrite (proj2 (Z.leb_le 0 off)), (proj2 (Z.leb_le off (off + n))), (proj2 (Z.leb_le _ _)) by lia.
  done.
Qed.

Lemma peer_load_byte :
  off < len (h t) -> exists b, h t !! Z.to_nat off = Some b /\ load_byte (E := E) h off t = (Ok b, S t).
Proof.
  intros H. destruct (lookup_lt_is_Some_2 (h t) (Z.to_nat off)) as [b Hb]; [unfold len in H; lia|].
  exists b. split; [done|]. simpl. rewrite Hb. now replace (0 <=? off) with true by lia.
Qed.

End Peer.
