(* ===== verification/Slot.v ===== *)
(** * Slot: slot and acknowledgement capabilities ([native-ipc-core/src/slot.rs])

    The writer, reader and acknowledgement capabilities over the atomic records
    of a mapping, and the bindings [layout.rs] mints for them. A reference to a
    record is its offset in the mapping; the field offsets are the ones
    [slot.rs] asserts. *)

From S2P Require Import Prelude Bytes Codec Layout Memory.

(** ** Records *)

Definition SLOT_GENERATION : Z := 0.
Definition SLOT_PAYLOAD_LEN : Z := 8.
Definition SLOT_PUBLISHED_SEQUENCE : Z := 16.
Definition CELL_SEQUENCE : Z := 0.

(** [SlotMetadata::new] and [AcknowledgementCell::new] as record images. *)
Definition SlotMetadata_new (generation : Z) : bytes :=
  le_bytes 8 generation ++ le_bytes 4 0 ++ le_bytes 4 0 ++ le_bytes 8 0 ++ zeros 40.
Definition AcknowledgementCell_new : bytes := le_bytes 8 0 ++ zeros 56.

Record SlotBinding := {
  sb_role : RoleId;
  sb_generation : Z;
  sb_payload_capacity : Z;
  sb_slot_index : Z;
  sb_slot_count : Z;
  sb_acknowledgement_owner : option RoleId;
  sb_acknowledgement_cell_index : option Z
}.

Definition WriterSlotBinding_validated (role : RoleId)
  (generation payload_capacity slot_index slot_count : Z) (acknowledgement_owner : RoleId)
  (acknowledgement_cell_index : Z) : SlotBinding :=
  {| sb_role := role; sb_generation := generation; sb_payload_capacity := payload_capacity;
     sb_slot_index := slot_index; sb_slot_count := slot_count;
     sb_acknowledgement_owner := Some acknowledgement_owner;
     sb_acknowledgement_cell_index := Some acknowledgement_cell_index |}.

Definition ReaderSlotBinding_validated (role : RoleId)
  (generation payload_capacity slot_index slot_count : Z) : SlotBinding :=
  {| sb_role := role; sb_generation := generation; sb_payload_capacity := payload_capacity;
     sb_slot_index := slot_index; sb_slot_count := slot_count;
     sb_acknowledgement_owner := None; sb_acknowledgement_cell_index := None |}.

Record AcknowledgementBinding := {
  ab_owner : RoleId;
  ab_target : RoleId;
  ab_slot_index : Z;
  ab_cell_index : Z;
  ab_generation : Z
}.

(** [AcknowledgementWriterBinding::validated] and
    [AcknowledgementReaderBinding::validated]. *)
Definition AcknowledgementBinding_validated (route : AcknowledgementRoute) (generation : Z)
  : AcknowledgementBinding :=
  {| ab_owner := ar_owner route; ab_target := ar_target route;
     ab_slot_index := ar_slot_index route; ab_cell_index := ar_cell_index route;
     ab_generation := generation |}.

Record SlotObservation := {
  so_role : RoleId;
  so_slot_index : Z;
  so_generation : Z;
  so_sequence : Z;
  so_payload_len : Z
}.

Record AcknowledgementObservation := {
  ao_owner : RoleId;
  ao_target : RoleId;
  ao_generation : Z;
  ao_slot_index : Z;
  ao_cell_index : Z;
  ao_sequence : Z
}.

Inductive SlotError :=
| SlotError_ZeroGeneration
| SlotError_UnpublishedSequence
| SlotError_StaleGeneration (expected actual : Z)
| SlotError_SequenceWrap
| SlotError_WrongSlot (expected actual : Z)
| SlotError_UnexpectedFirstSequence (expected actual : Z)
| SlotError_UnexpectedNextSequence (expected actual : Z)
| SlotError_MissingAcknowledgement (sequence : Z)
| SlotError_WrongAcknowledgementTarget
| SlotError_WrongAcknowledgementOwner
| SlotError_WrongAcknowledgementSlot
| SlotError_WrongAcknowledgementCell
| SlotError_StaleAcknowledgementGeneration
| SlotError_LaggingAcknowledgement (expected actual : Z)
| SlotError_FutureAcknowledgement (expected actual : Z)
| SlotError_StaleSequence (expected actual : Z)
| SlotError_PayloadTooLarge (length capacity : Z)
| SlotError_ChangedPayloadLength (expected actual : Z)
| SlotError_WrongObservationRole.

Inductive AcknowledgementError :=
| AcknowledgementError_WrongTarget
| AcknowledgementError_StaleGeneration
| AcknowledgementError_WrongSlot
| AcknowledgementError_UnpublishedSequence
| AcknowledgementError_NonMonotonic (current next : Z).

(** [SlotMetadata::initialize] and [AcknowledgementCell::initialize] rewrite
    every field of their record. *)
Definition SlotMetadata_initialize (generation : Z) : stm bytes SlotError unit :=
  if generation =? 0 then serr SlotError_ZeroGeneration else
  sput (SlotMetadata_new generation).
Definition AcknowledgementCell_initialize : stm bytes SlotError unit :=
  sput AcknowledgementCell_new.

(** ** Shared checks *)

Definition validate_bound_generation {M S} `{Loads M S} (m : M) (header expected : Z)
  : stm S SlotError unit :=
  if expected =? 0 then serr SlotError_ZeroGeneration else
  let! actual := load m (header + SLOT_GENERATION) 8 in
  if actual =? expected then sret tt else serr (SlotError_StaleGeneration expected actual).

(** [%] panics on a zero divisor. *)
Definition validate_sequence_slot (binding : SlotBinding) (sequence : Z) : res SlotError unit :=
  if sequence =? 0 then Err SlotError_UnpublishedSequence else
  if sb_slot_count binding =? 0 then Panic else
  let expected := (sequence - 1) mod sb_slot_count binding in
  if sb_slot_index binding =? expected then Ok tt
  else Err (SlotError_WrongSlot expected (sb_slot_index binding)).

(** ** Writer *)

Record WriterSlot := { ws_header : Z; ws_binding : SlotBinding }.

Record PublishReservation := { pr_header : Z; pr_sequence : Z; pr_capacity : Z }.

Definition WriterSlot_bind {M S} `{Loads M S} (m : M) (header : Z) (binding : SlotBinding)
  : stm S SlotError WriterSlot :=
  validate_bound_generation m header (sb_generation binding) >>!
  sret {| ws_header := header; ws_binding := binding |}.

(** The acknowledgement checks of the reuse branch of [prepare_publish]. *)
Definition check_acknowledgement (binding : SlotBinding) (current : Z)
  (acknowledgement : option AcknowledgementObservation) : res SlotError unit :=
  let? acknowledgement :=
    ok_or acknowledgement (SlotError_MissingAcknowledgement current) in
  if negb (ao_target acknowledgement =? sb_role binding)
  then Err SlotError_WrongAcknowledgementTarget else
  let? owner := expect (sb_acknowledgement_owner binding) in
  if negb (ao_owner acknowledgement =? owner) then Err SlotError_WrongAcknowledgementOwner else
  if negb (ao_slot_index acknowledgement =? sb_slot_index binding)
  then Err SlotError_WrongAcknowledgementSlot else
  let? cell_index := expect (sb_acknowledgement_cell_index binding) in
  if negb (ao_cell_index acknowledgement =? cell_index)
  then Err SlotError_WrongAcknowledgementCell else
  if negb (ao_generation acknowledgement =? sb_generation binding)
  then Err SlotError_StaleAcknowledgementGeneration else
  if ao_sequence acknowledgement <? current
  then Err (SlotError_LaggingAcknowledgement current (ao_sequence acknowledgement)) else
  if current <? ao_sequence acknowledgement
  then Err (SlotError_FutureAcknowledgement current (ao_sequence acknowledgement)) else
  Ok tt.

Definition prepare_publish {M S} `{Loads M S} (m : M) (self : WriterSlot) (sequence : Z)
  (acknowledgement : option AcknowledgementObservation) : stm S SlotError PublishReservation :=
  let binding := ws_binding self in
  validate_bound_generation m (ws_header self) (sb_generation binding) >>!
  slift (validate_sequence_slot binding sequence) >>!
  let! current := load m (ws_header self + SLOT_PUBLISHED_SEQUENCE) 8 in
  (if current =? 0
   then let! expected := slift (uadd U64_MAX (sb_slot_index binding) 1) in
        if negb (sequence =? expected)
        then serr (SlotError_UnexpectedFirstSequence expected sequence)
        else sret tt
   else let! expected :=
          slift (ok_or (checked_add U64_MAX current (sb_slot_count binding))
                       SlotError_SequenceWrap) in
        if negb (sequence =? expected)
        then serr (SlotError_UnexpectedNextSequence expected sequence)
        else slift (check_acknowledgement binding current acknowledgement)) >>!
  sret {| pr_header := ws_header self; pr_sequence := sequence;
          pr_capacity := sb_payload_capacity binding |}.

Definition publish {M S} `{Stores M S} (m : M) (self : PublishReservation) (payload_len : Z)
  : stm S SlotError unit :=
  if pr_capacity self <? payload_len
  then serr (SlotError_PayloadTooLarge payload_len (pr_capacity self)) else
  store m (pr_header self + SLOT_PAYLOAD_LEN) 4 payload_len >>!
  store m (pr_header self + SLOT_PUBLISHED_SEQUENCE) 8 (pr_sequence self).

(** ** Reader *)

Record ReaderSlot := { rd_header : Z; rd_binding : SlotBinding }.

Definition ReaderSlot_bind {M S} `{Loads M S} (m : M) (header : Z) (binding : SlotBinding)
  : stm S SlotError ReaderSlot :=
  validate_bound_generation m header (sb_generation binding) >>!
  sret {| rd_header := header; rd_binding := binding |}.

Definition observe {M S} `{Loads M S} (m : M) (self : ReaderSlot) (expected_sequence : Z)
  : stm S SlotError SlotObservation :=
  let binding := rd_binding self in
  slift (validate_sequence_slot binding expected_sequence) >>!
  let! sequence := load m (rd_header self + SLOT_PUBLISHED_SEQUENCE) 8 in
  if negb (sequence =? expected_sequence)
  then serr (SlotError_StaleSequence expected_sequence sequence) else
  validate_bound_generation m (rd_header self) (sb_generation binding) >>!
  let! payload_len := load m (rd_header self + SLOT_PAYLOAD_LEN) 4 in
  if sb_payload_capacity binding <? payload_len
  then serr (SlotError_PayloadTooLarge payload_len (sb_payload_capacity binding)) else
  sret {| so_role := sb_role binding; so_slot_index := sb_slot_index binding;
          so_generation := sb_generation binding; so_sequence := sequence;
          so_payload_len := payload_len |}.

Definition recheck {M S} `{Loads M S} (m : M) (self : ReaderSlot) (observation : SlotObservation)
  : stm S SlotError unit :=
  let binding := rd_binding self in
  if negb (so_role observation =? sb_role binding) then serr SlotError_WrongObservationRole else
  if negb (so_generation observation =? sb_generation binding)
  then serr (SlotError_StaleGeneration (sb_generation binding) (so_generation observation)) else
  let! sequence := load m (rd_header self + SLOT_PUBLISHED_SEQUENCE) 8 in
  if negb (sequence =? so_sequence observation)
  then serr (SlotError_StaleSequence (so_sequence observation) sequence) else
  validate_bound_generation m (rd_header self) (so_generation observation) >>!
  let! payload_len := load m (rd_header self + SLOT_PAYLOAD_LEN) 4 in
  if negb (payload_len =? so_payload_len observation)
  then serr (SlotError_ChangedPayloadLength (so_payload_len observation) payload_len) else
  sret tt.

(** ** Acknowledgements *)

Record AcknowledgementCapability := { ac_cell : Z; ac_binding : AcknowledgementBinding }.

(** [AcknowledgementWriter::acknowledge]. *)
Definition acknowledge {M S} `{Loads M S} `{Stores M S} (m : M) (self : AcknowledgementCapability)
  (observation : SlotObservation) : stm S AcknowledgementError unit :=
  let binding := ac_binding self in
  if negb (so_role observation =? ab_target binding) then serr AcknowledgementError_WrongTarget else
  if negb (so_generation observation =? ab_generation binding)
  then serr AcknowledgementError_StaleGeneration else
  if negb (so_slot_index observation =? ab_slot_index binding)
  then serr AcknowledgementError_WrongSlot else
  if so_sequence observation =? 0 then serr AcknowledgementError_UnpublishedSequence else
  let! current := load m (ac_cell self + CELL_SEQUENCE) 8 in
  if so_sequence observation <? current
  then serr (AcknowledgementError_NonMonotonic current (so_sequence observation)) else
  if so_sequence observation =? current then sret tt else
  store m (ac_cell self + CELL_SEQUENCE) 8 (so_sequence observation).

(** [AcknowledgementReader::observe]. *)
Definition acknowledgement_observe {E M S} `{Loads M S} (m : M) (self : AcknowledgementCapability)
  : stm S E AcknowledgementObservation :=
  let binding := ac_binding self in
  let! sequence := load m (ac_cell self + CELL_SEQUENCE) 8 in
  sret {| ao_owner := ab_owner binding; ao_target := ab_target binding;
          ao_generation := ab_generation binding; ao_slot_index := ab_slot_index binding;
          ao_cell_index := ab_cell_index binding; ao_sequence := sequence |}.

(** ** Bindings minted by a validated layout *)

Definition writer_slot_binding (self : ValidatedRegionLayout) (route : AcknowledgementRoute)
  : res LayoutError SlotBinding :=
  if negb (ar_target route =? ValidatedRegionLayout_role self)
  then Err LayoutError_RouteRegionMismatch else
  slot_range self (ar_slot_index route) >>?
  Ok (WriterSlotBinding_validated (ValidatedRegionLayout_role self)
        (rh_generation (vrl_header self)) (rh_payload_capacity (vrl_header self))
        (ar_slot_index route) (rh_slot_count (vrl_header self)) (ar_owner route)
        (ar_cell_index route)).

Definition reader_slot_binding (self : ValidatedRegionLayout) (slot : Z)
  : res LayoutError SlotBinding :=
  slot_range self slot >>?
  Ok (ReaderSlotBinding_validated (ValidatedRegionLayout_role self)
        (rh_generation (vrl_header self)) (rh_payload_capacity (vrl_header self))
        slot (rh_slot_count (vrl_header self))).

(** [acknowledgement_writer_binding] and [acknowledgement_reader_binding]. *)
Definition acknowledgement_binding (self : ValidatedRegionLayout) (route : AcknowledgementRoute)
  : res LayoutError AcknowledgementBinding :=
  if negb (ar_owner route =? ValidatedRegionLayout_role self)
  then Err LayoutError_RouteRegionMismatch else
  acknowledgement_range self (ar_cell_index route) >>?
  Ok (AcknowledgementBinding_validated route (rh_generation (vrl_header self))).
