(* ===== verification/Mapping.v ===== *)
(** * Mapping: regions bound to native mappings ([native-ipc-core/src/mapping.rs])

    [ReaderRegion] and [WriterRegion] over a mapping witness: binding slots and
    acknowledgement cells, publishing a payload, and copying a payload out of a
    mapping the peer may be writing. *)

From S2P Require Import Prelude Bytes Codec Layout Memory Slot.

Inductive BindingError :=
| BindingError_MappingSizeMismatch (expected actual : Z)
| BindingError_MisalignedRecord
| BindingError_Layout (e : LayoutError)
| BindingError_Slot (e : SlotError)
| BindingError_AllocationFailed
| BindingError_PayloadLengthOverflow
| BindingError_DestinationTooSmall (required provided : Z)
| BindingError_TopologyMismatch
| BindingError_MissingRoute (target : RoleId) (slot : Z).

(** What a native witness ([ReadOnlyMapping], [SoleWriterMapping]) provides:
    the base address, the exact length, and a handle on the memory. *)
Record Mapping (M : Type) := { mp_base : Z; mp_len : Z; mp_mem : M }.
Arguments mp_base {M}.
Arguments mp_len {M}.
Arguments mp_mem {M}.

(** [ReaderRegion] and [WriterRegion] have the same fields. *)
Record Region (M : Type) := {
  rg_mapping : Mapping M;
  rg_layout : ValidatedRegionLayout;
  rg_topology : RegionSetLayout
}.
Arguments rg_mapping {M}.
Arguments rg_layout {M}.
Arguments rg_topology {M}.

Definition SLOT_METADATA_SIZE : Z := SLOT_HEADER_SIZE.
Definition RECORD_ALIGN : Z := 64.

Definition validate_mapping_size (actual : Z) (layout : ValidatedRegionLayout)
  : res BindingError unit :=
  if actual =? vrl_mapping_size layout then Ok tt
  else Err (BindingError_MappingSizeMismatch (vrl_mapping_size layout) actual).

Definition validate_topology (layout : ValidatedRegionLayout) (topology : RegionSetLayout)
  : res BindingError unit :=
  if matches_topology layout topology then Ok tt else Err BindingError_TopologyMismatch.

(** The offset at which the record is found; [size_of] and [align_of] of both
    record types are 64. *)
Definition record {M} (mapping : Mapping M) (offset available : Z) : res BindingError Z :=
  if available <? SLOT_METADATA_SIZE
  then Err (BindingError_Layout LayoutError_RangeOutOfBounds) else
  if negb ((mp_base mapping + offset) mod RECORD_ALIGN =? 0)
  then Err BindingError_MisalignedRecord
  else Ok offset.

(** [ReaderRegion::new] and [WriterRegion::new]. *)
Definition Region_new {M} (mapping : Mapping M) (layout : ValidatedRegionLayout)
  (topology : RegionSetLayout) : res (Mapping M * BindingError) (Region M) :=
  match validate_mapping_size (mp_len mapping) layout with
  | Err error => Err (mapping, error)
  | Panic => Panic
  | Ok _ =>
      match validate_topology layout topology with
      | Err error => Err (mapping, error)
      | Panic => Panic
      | Ok _ => Ok {| rg_mapping := mapping; rg_layout := layout; rg_topology := topology |}
      end
  end.

Definition layout_err {A} (m : res LayoutError A) : res BindingError A :=
  map_err BindingError_Layout m.

Definition find_ack_route (topology : RegionSetLayout) (target : RoleId) (slot : Z)
  : res BindingError AcknowledgementRoute :=
  let? found := acknowledgement_route topology target slot in
  ok_or found (BindingError_MissingRoute target slot).

(** ** Reading *)

(** One volatile load per byte, in index order. *)
Fixpoint volatile_copy {E M S} `{Loads M S} (m : M) (source : Z) (n : nat) : stm S E bytes :=
  match n with
  | O => sret []
  | S n =>
      let! b := load_byte m source in
      let! rest := volatile_copy m (source + 1) n in
      sret (b :: rest)
  end.

Section Reader.
Context {M S : Type} `{Loads M S}.

Definition ReaderRegion_slot (self : Region M) (slot : Z) : stm S BindingError ReaderSlot :=
  let! binding := slift (layout_err (reader_slot_binding (rg_layout self) slot)) in
  let! range := slift (layout_err (slot_range (rg_layout self) slot)) in
  let! header := slift (record (rg_mapping self) (fst range) (snd range - fst range)) in
  smap_err BindingError_Slot (ReaderSlot_bind (mp_mem (rg_mapping self)) header binding).

Definition copy_payload {AL : Allocator} (self : Region M) (slot expected_sequence : Z)
  : stm S BindingError bytes :=
  let m := mp_mem (rg_mapping self) in
  let! reader := ReaderRegion_slot self slot in
  let! observation := smap_err BindingError_Slot (observe m reader expected_sequence) in
  let! range :=
    slift (layout_err (slot_payload_range (rg_layout self) slot (so_payload_len observation))) in
  if negb (try_reserve_exact (snd range - fst range)) then serr BindingError_AllocationFailed else
  let! owned := volatile_copy m (fst range) (Z.to_nat (snd range - fst range)) in
  let! reader := ReaderRegion_slot self slot in
  smap_err BindingError_Slot (recheck m reader observation) >>!
  sret owned.

(** The caller's [destination] is part of the state: it keeps the copied bytes
    when the recheck fails. *)
Definition with_memory {E A} (m : stm S E A) : stm (S * bytes) E A :=
  fun '(s, d) => let '(r, s') := m s in (r, (s', d)).

Definition copy_payload_into (self : Region M) (slot expected_sequence : Z)
  : stm (S * bytes) BindingError Z :=
  let m := mp_mem (rg_mapping self) in
  let! reader := with_memory (ReaderRegion_slot self slot) in
  let! observation :=
    with_memory (smap_err BindingError_Slot (observe m reader expected_sequence)) in
  let! range :=
    slift (layout_err (slot_payload_range (rg_layout self) slot (so_payload_len observation))) in
  let! state := sget in
  let destination := snd state in
  if len destination <? snd range - fst range
  then serr (BindingError_DestinationTooSmall (snd range - fst range) (len destination)) else
  let! copied := with_memory (volatile_copy m (fst range) (Z.to_nat (snd range - fst range))) in
  smodify (fun '(s, d) => (s, splice d 0 copied)) >>!
  let! reader := with_memory (ReaderRegion_slot self slot) in
  with_memory (smap_err BindingError_Slot (recheck m reader observation)) >>!
  sret (snd range - fst range).

(** [ReaderRegion::acknowledgement] and [WriterRegion::acknowledgement]. *)
Definition Region_acknowledgement (self : Region M) (target : RoleId) (slot : Z)
  : stm S BindingError AcknowledgementCapability :=
  let! route := slift (find_ack_route (rg_topology self) target slot) in
  let! binding := slift (layout_err (acknowledgement_binding (rg_layout self) route)) in
  let! range := slift (layout_err (acknowledgement_range (rg_layout self) (ar_cell_index route))) in
  let! cell := slift (record (rg_mapping self) (fst range) (snd range - fst range)) in
  sret {| ac_cell := cell; ac_binding := binding |}.

(** ** Writing *)

Context `{Stores M S}.

Definition WriterRegion_slot (self : Region M) (slot : Z) : stm S BindingError WriterSlot :=
  let target := ValidatedRegionLayout_role (rg_layout self) in
  let! route := slift (find_ack_route (rg_topology self) target slot) in
  let! binding := slift (layout_err (writer_slot_binding (rg_layout self) route)) in
  let! range := slift (layout_err (slot_range (rg_layout self) (ar_slot_index route))) in
  let! header := slift (record (rg_mapping self) (fst range) (snd range - fst range)) in
  smap_err BindingError_Slot (WriterSlot_bind (mp_mem (rg_mapping self)) header binding).

Definition WriterRegion_publish (self : Region M) (slot sequence : Z)
  (acknowledgement : option AcknowledgementObservation) (payload : bytes)
  : stm S BindingError unit :=
  let m := mp_mem (rg_mapping self) in
  let! payload_len :=
    slift (ok_or (try_from U32_MAX (len payload)) BindingError_PayloadLengthOverflow) in
  let! range := slift (layout_err (slot_payload_range (rg_layout self) slot payload_len)) in
  let! bound_slot := WriterRegion_slot self slot in
  let! reservation :=
    smap_err BindingError_Slot (prepare_publish m bound_slot sequence acknowledgement) in
  copy_in m (fst range) payload >>!
  smap_err BindingError_Slot (publish m reservation payload_len).

End Reader.
