(* ===== verification/Publish.v ===== *)
(** * Publish: what the sole writer and the acknowledger do to their mappings

    [WriterRegion::publish] has a closed form: it either changes nothing, or
    writes exactly the payload and the two metadata fields of one slot. It
    succeeds exactly when the sequence is the next one of the slot and the
    previous publication was acknowledged over the slot's own route. *)

From S2P Require Import Prelude Bytes Codec Layout LayoutGeometry LayoutRoutes LayoutValidate.
From S2P Require Import Memory Slot Mapping.

(** [srun]: run the monadic structure of a goal. *)
Ltac srun := unfold sbind, slift, sret, serr, sget, smap_err, smodify; cbn beta iota.

(** ** Regions accepted by [Region::new] *)

Record region_ok {M} (self : Region M) : Prop := {
  ro_layout : validated_ok (rg_layout self);
  ro_topology : topology_wf (rg_topology self);
  ro_matches : matches_topology (rg_layout self) (rg_topology self) = true;
  ro_len : mp_len (rg_mapping self) = vrl_mapping_size (rg_layout self);
  ro_generation : rh_generation (vrl_header (rg_layout self)) <> 0;
  ro_aligned : mp_base (rg_mapping self) mod 64 = 0
}.

Lemma Region_new_ok {M} (mapping : Mapping M) layout topology self :
  validated_ok layout -> topology_wf topology -> rh_generation (vrl_header layout) <> 0 ->
  mp_base mapping mod 64 = 0 ->
  Region_new mapping layout topology = Ok self ->
  self = {| rg_mapping := mapping; rg_layout := layout; rg_topology := topology |} /\ region_ok self.
Proof.
  unfold Region_new, validate_mapping_size, validate_topology. intros Hl Ht Hg Ha H.
  destruct (mp_len mapping =? vrl_mapping_size layout) eqn:Hs; [|discriminate].
  destruct (matches_topology layout topology) eqn:Hm; [|discriminate].
  injection H as <-. bsplit. split; [done|]. now constructor.
Qed.

Section Region.
Context {M : Type} (self : Region M).
Hypothesis Hok : region_ok self.

#[local] Abbreviation layout := (rg_layout self).
#[local] Abbreviation h := (vrl_header layout).

(** The offset of a slot record, and the route of the slot. *)
Definition slot_start (i : Z) : Z := rh_slots_offset h + i * rh_slot_stride h.
Definition slot_route (i : Z) : option AcknowledgementRoute :=
  find_route (rsl_routes (rg_topology self)) (rh_role h) i.

Lemma slot_start_bounds i :
  0 <= i < rh_slot_count h ->
  128 <= slot_start i /\ slot_start i + 64 + rh_payload_capacity h <= vrl_mapping_size layout /\
  slot_start i + 64 + rh_payload_capacity h <= slot_start i + rh_slot_stride h /\
  slot_start i mod 64 = 0.
Proof.
  intros Hi. pose proof (slot_end_bound layout (ro_layout _ Hok) i Hi) as He.
  destruct (stride_facts layout (ro_layout _ Hok)) as (Hs & Hf & Hp & ? & _ & Ho & ? & _ & _ & _ & _ & Hm).
  unfold SLOT_HEADER_SIZE in Hp. assert (0 <= i * rh_slot_stride h) by (apply Z.mul_nonneg_nonneg; lia).
  unfold slot_start. split_and!; try lia.
  apply Z.mod_divide in Hs as [q ->]; [|lia]. apply Z.mod_divide in Hf as [p ->]; [|lia].
  replace (p * 64 + i * (q * 64)) with ((p + i * q) * 64) by ring. apply Z.mod_mul. lia.
Qed.

Lemma slot_range_start i :
  0 <= i < rh_slot_count h ->
  slot_range layout i = Ok (slot_start i, slot_start i + rh_slot_stride h).
Proof.
  intros Hi. rewrite slot_range_ok by (apply ro_layout || done; done). unfold slot_start. do 2 f_equal. lia.
Qed.

Lemma payload_range_start i n :
  0 <= i < rh_slot_count h -> 0 <= n <= rh_payload_capacity h ->
  slot_payload_range layout i n = Ok (slot_start i + 64, slot_start i + 64 + n).
Proof. intros Hi Hn. now rewrite slot_payload_range_ok by (apply ro_layout || done; done). Qed.

Lemma record_slot i :
  0 <= i < rh_slot_count h ->
  record (rg_mapping self) (slot_start i) (rh_slot_stride h) = Ok (slot_start i).
Proof.
  intros Hi. destruct (slot_start_bounds i Hi) as (_ & _ & Hc & Ha).
  destruct (stride_facts layout (ro_layout _ Hok)) as (_ & _ & Hp & _ & _ & _ & _ & _ & _ & ? & _).
  unfold SLOT_HEADER_SIZE in Hp. unfold record, SLOT_METADATA_SIZE, SLOT_HEADER_SIZE, RECORD_ALIGN.
  replace (rh_slot_stride h <? 64) with false by lia.
  pose proof (ro_aligned _ Hok) as Hb. rewrite <- Zplus_mod_idemp_l, Hb, Z.add_0_l, Ha. done.
Qed.

Lemma region_of_topology :
  exists r, find_region (rsl_regions (rg_topology self)) (rh_role h) = Some r /\ rl_header r = h.
Proof.
  pose proof (ro_matches _ Hok) as H. unfold matches_topology, RegionSetLayout_region,
    ValidatedRegionLayout_role in H.
  destruct (find_region _ _) as [r|]; [|discriminate]. exists r. split; [done|].
  rewrite !andb_true_iff in H. destruct H as [[H _] _]. now apply bool_decide_eq_true in H.
Qed.

Lemma slot_route_Some i :
  0 <= i < rh_slot_count h ->
  exists route, slot_route i = Some route /\ ar_target route = rh_role h /\ ar_slot_index route = i.
Proof.
  intros Hi. destruct region_of_topology as (r & Hr & Hh).
  apply find_region_Some in Hr as [Hin Hrole].
  destruct (topology_slot_routed (rg_topology self) r i (ro_topology _ Hok) Hin) as (route & Hf & _ & Ht & Hs);
    [now rewrite Hh|]. exists route. unfold slot_route. rewrite <- Hrole. done.
Qed.

End Region.

(** ** The slot of the sole writer *)

Definition slot_generation (m : bytes) (start : Z) : Z := field m start 8.
Definition slot_sequence (m : bytes) (start : Z) : Z := field m (start + 16) 8.
Definition slot_payload_len (m : bytes) (start : Z) : Z := field m (start + 8) 4.

Lemma own_generation m start expected :
  0 <= start -> start + 64 <= len m -> expected <> 0 ->
  validate_bound_generation own start expected m
  = (if slot_generation m start =? expected then Ok tt
     else Err (SlotError_StaleGeneration expected (slot_generation m start)), m).
Proof.
  intros. unfold validate_bound_generation, SLOT_GENERATION.
  replace (expected =? 0) with false by lia. srun. rewrite own_load by lia.
  rewrite Z.add_0_r. fold (slot_generation m start). now destruct (_ =? _).
Qed.

Section Writer.
Context (self : Region OwnMapping).
Hypothesis Hok : region_ok self.
Hypothesis Hmem : mp_mem (rg_mapping self) = own.

#[local] Abbreviation layout := (rg_layout self).
#[local] Abbreviation h := (vrl_header layout).
#[local] Abbreviation start := (slot_start self).

Definition writer_binding (i : Z) (route : AcknowledgementRoute) : SlotBinding :=
  WriterSlotBinding_validated (rh_role h) (rh_generation h) (rh_payload_capacity h) i
    (rh_slot_count h) (ar_owner route) (ar_cell_index route).

Lemma writer_slot_run i m route :
  0 <= i < rh_slot_count h -> len m = vrl_mapping_size layout -> slot_route self i = Some route ->
  WriterRegion_slot self i m
  = (if slot_generation m (start i) =? rh_generation h
     then Ok {| ws_header := start i; ws_binding := writer_binding i route |}
     else Err (BindingError_Slot
                 (SlotError_StaleGeneration (rh_generation h) (slot_generation m (start i)))), m).
Proof.
  intros Hi Hl Hr. destruct (slot_start_bounds self Hok i Hi) as (? & ? & ? & _).
  destruct (slot_route_Some self Hok i Hi) as (route' & Hr' & Ht & Hs).
  rewrite Hr in Hr'. injection Hr' as <-.
  destruct (stride_facts layout (ro_layout _ Hok)) as (_&_&_&_&_&_&_&_&_&?&_).
  unfold WriterRegion_slot, find_ack_route, ValidatedRegionLayout_role.
  rewrite acknowledgement_route_find by apply Hok. fold (slot_route self i).
  rewrite Hr. cbn [rbind ok_or]. srun.
  unfold writer_slot_binding, layout_err, ValidatedRegionLayout_role. rewrite Ht, Hs, Z.eqb_refl. cbn [negb].
  rewrite slot_range_start by done. cbn [rbind map_err fst snd].
  replace (start i + rh_slot_stride h - start i)
    with (rh_slot_stride h) by lia.
  rewrite record_slot by done. rewrite Hmem. unfold WriterSlot_bind. srun.
  cbn [sb_generation WriterSlotBinding_validated].
  rewrite own_generation by (lia || apply Hok). now destruct (_ =? _).
Qed.

(** ** When a publication is admitted *)

(** The acknowledgement came over the route of the slot and names exactly the
    publication [current]. *)
Definition acknowledges (i : Z) (route : AcknowledgementRoute) (current : Z)
  (a : AcknowledgementObservation) : Prop :=
  a = {| ao_owner := ar_owner route; ao_target := rh_role h; ao_generation := rh_generation h;
         ao_slot_index := i; ao_cell_index := ar_cell_index route; ao_sequence := current |}.

Definition may_publish (m : bytes) (i sequence : Z) (ack : option AcknowledgementObservation)
  (payload : bytes) : Prop :=
  let current := slot_sequence m (start i) in
  0 <= i < rh_slot_count h /\ len payload <= rh_payload_capacity h /\
  slot_generation m (start i) = rh_generation h /\
  (sequence - 1) mod rh_slot_count h = i /\
  (current = 0 /\ sequence = i + 1 \/
   current <> 0 /\ sequence = current + rh_slot_count h /\ sequence <= U64_MAX /\
   exists route a, slot_route self i = Some route /\ ack = Some a /\ acknowledges i route current a).

(** The three writes of a publication, in program order. *)
Definition published (m : bytes) (i sequence : Z) (payload : bytes) : bytes :=
  splice (splice (splice m (start i + 64) payload) (start i + 8) (le_bytes 4 (len payload)))
    (start i + 16) (le_bytes 8 sequence).

Lemma check_acknowledgement_cases i route current ack :
  check_acknowledgement (writer_binding i route) current ack <> Panic /\
  (check_acknowledgement (writer_binding i route) current ack = Ok tt <->
   exists a, ack = Some a /\ acknowledges i route current a).
Proof.
  unfold check_acknowledgement, writer_binding, WriterSlotBinding_validated, acknowledges.
  destruct ack as [[o tg g s c q]|]; simpl; [|split; [done|split; [discriminate|naive_solver]]].
  repeat match goal with
         | |- context [negb (?a =? ?b)] => destruct (Z.eqb_spec a b); simpl
         | |- context [?a <? ?b] => destruct (Z.ltb_spec a b); simpl
         end;
    (split; [done|]); split; try discriminate;
    first [ intros _; reflexivity
          | intros _; eexists; split; [done|]; f_equal; lia
          | intros (a & [= <-] & Ha); injection Ha; intros; lia ].
Qed.

Lemma sequence_slot_cases binding sequence :
  sb_slot_count binding <> 0 -> sequence <> 0 ->
  validate_sequence_slot binding sequence
  = (if sb_slot_index binding =? (sequence - 1) mod sb_slot_count binding then Ok tt
     else Err (SlotError_WrongSlot ((sequence - 1) mod sb_slot_count binding) (sb_slot_index binding))).
Proof.
  intros. unfold validate_sequence_slot. replace (sequence =? 0) with false by lia.
  now replace (sb_slot_count binding =? 0) with false by lia.
Qed.

(** The outcome of the checks of [prepare_publish] on a slot whose generation
    is intact: memory is untouched, nothing panics, and success is admission. *)
Lemma prepare_publish_run m i sequence ack route :
  0 <= i < rh_slot_count h -> len m = vrl_mapping_size layout -> slot_route self i = Some route ->
  slot_generation m (start i) = rh_generation h -> u64 sequence ->
  let current := slot_sequence m (start i) in
  exists r,
    prepare_publish own {| ws_header := start i; ws_binding := writer_binding i route |} sequence ack m
    = (r, m) /\ r <> Panic /\
    (forall v, r = Ok v ->
       v = {| pr_header := start i; pr_sequence := sequence;
              pr_capacity := rh_payload_capacity h |}) /\
    ((exists v, r = Ok v) <->
     (sequence - 1) mod rh_slot_count h = i /\
     (current = 0 /\ sequence = i + 1 \/
      current <> 0 /\ sequence = current + rh_slot_count h /\ sequence <= U64_MAX /\
      exists a, ack = Some a /\ acknowledges i route current a)).
Proof.
  intros Hi Hl Hr Hg Hu current. destruct (slot_start_bounds self Hok i Hi) as (? & ? & ? & _).
  destruct (stride_facts layout (ro_layout _ Hok)) as (_&_&_&_&_&_&_&?&?&?&_).
  unfold prepare_publish, writer_binding, WriterSlotBinding_validated. srun.
  cbn [ws_header ws_binding sb_role sb_generation sb_payload_capacity sb_slot_index sb_slot_count
       sb_acknowledgement_owner sb_acknowledgement_cell_index].
  rewrite own_generation by (lia || apply Hok). rewrite Hg, Z.eqb_refl.
  destruct (decide (sequence = 0)) as [->|Hz].
  { unfold validate_sequence_slot. simpl. eexists. split; [done|]. split; [done|]. split; [done|].
    split; [naive_solver|]. intros (Hm & [[? ?]|(? & ? & _)]); [lia|].
    pose proof (field_bound m (start i + 16) 8) as Hfb. unfold current, slot_sequence in *. lia. }
  rewrite sequence_slot_cases by (simpl; lia). cbn [sb_slot_index sb_slot_count].
  destruct (Z.eqb_spec i ((sequence - 1) mod rh_slot_count h)) as [Hm|Hm].
  2:{ eexists. split; [done|]. split; [done|]. split; [done|]. split; naive_solver. }
  unfold SLOT_PUBLISHED_SEQUENCE. rewrite own_load by lia. fold (slot_sequence m (start i)). fold current.
  destruct (Z.eqb_spec current 0) as [Hc|Hc].
  - unfold uadd. rewrite checked_add_ok by ulia. cbn [expect].
    destruct (Z.eqb_spec sequence (i + 1)) as [Hs|Hs]; cbn [negb].
    + eexists. split; [done|]. split; [done|]. split; [now intros v [= <-]|]. split; eauto.
    + eexists. split; [done|]. split; [done|]. split; [done|]. split; naive_solver lia.
  - destruct (checked_add U64_MAX current (rh_slot_count h)) as [e|] eqn:He.
    + apply checked_add_Some in He as [-> He]. cbn [ok_or].
      destruct (Z.eqb_spec sequence (current + rh_slot_count h)) as [Hs|Hs]; cbn [negb].
      * destruct (check_acknowledgement_cases i route current ack) as [Hnp Hca].
        unfold writer_binding, WriterSlotBinding_validated in Hnp, Hca.
        destruct (check_acknowledgement _ _ _) as [[]|e|] eqn:E; [..|done].
        -- destruct (proj1 Hca eq_refl) as (a & -> & Ha).
           eexists. split; [done|]. split; [done|]. split; [now intros v [= <-]|].
           split; [|eauto]. intros _. split; [lia|]. right. split_and!; eauto; lia.
        -- eexists. split; [done|]. split; [done|]. split; [done|].
           split; [naive_solver|]. intros (_ & [?|(_ & _ & _ & Hex)]); [lia|]. apply Hca in Hex. done.
      * eexists. split; [done|]. split; [done|]. split; [done|]. split; naive_solver lia.
    + cbn [ok_or]. eexists. split; [done|]. split; [done|]. split; [done|]. split; [naive_solver|].
      intros (_ & [?|(_ & Hs & Hle & _)]); [lia|].
      rewrite checked_add_ok in He by lia. discriminate.
Qed.

Lemma publish_run m i sequence payload :
  0 <= i < rh_slot_count h -> len m = vrl_mapping_size layout ->
  len payload <= rh_payload_capacity h ->
  (copy_in own (start i + 64) payload >>!
   smap_err BindingError_Slot
     (publish own {| pr_header := start i; pr_sequence := sequence;
                     pr_capacity := rh_payload_capacity h |} (len payload))) m
  = (Ok tt, published m i sequence payload).
Proof.
  intros Hi Hl Hp. destruct (slot_start_bounds self Hok i Hi) as (? & ? & ? & _).
  pose proof (len_nonneg payload).
  destruct (stride_facts layout (ro_layout _ Hok)) as (_&_&_&_&_&_&_&?&?&?&_).
  srun. rewrite own_copy_in by lia. unfold publish. cbn [pr_capacity pr_header pr_sequence].
  replace (rh_payload_capacity h <? len payload) with false by lia. srun.
  unfold SLOT_PAYLOAD_LEN, SLOT_PUBLISHED_SEQUENCE.
  rewrite own_store by (rewrite ?len_splice; lia). rewrite own_store by (rewrite ?len_splice; lia).
  done.
Qed.

Lemma publish_cases m i sequence ack payload :
  len m = vrl_mapping_size layout -> u32 i -> u64 sequence ->
  exists r m',
    WriterRegion_publish self i sequence ack payload m = (r, m') /\ r <> Panic /\
    (r = Ok tt <-> may_publish m i sequence ack payload) /\
    m' = match r with Ok _ => published m i sequence payload | _ => m end.
Proof.
  intros Hl Hi32 Hu. pose proof (len_nonneg payload).
  destruct (geo_payload _ (vo_geometry _ (ro_layout _ Hok))) as [Hpc _].
  unfold WriterRegion_publish, may_publish. rewrite Hmem. srun.
  destruct (decide (len payload <= rh_payload_capacity h)) as [Hp|Hp].
  2:{ destruct (try_from U32_MAX (len payload)) as [n|] eqn:Hn; cbn [ok_or].
      - apply try_from_Some in Hn as [-> _]. unfold slot_payload_range.
        replace (rh_payload_capacity h <? len payload) with true by lia. cbn [layout_err map_err].
        do 2 eexists. split; [done|]. split; [done|]. split; [|done]. split; naive_solver.
      - do 2 eexists. split; [done|]. split; [done|]. split; [|done]. split; naive_solver. }
  rewrite try_from_ok by ulia. cbn [ok_or].
  destruct (decide (i < rh_slot_count h)) as [Hi|Hi].
  2:{ unfold slot_payload_range. replace (rh_payload_capacity h <? len payload) with false by lia.
      rewrite slot_range_err by lia. cbn [rbind layout_err map_err].
      do 2 eexists. split; [done|]. split; [done|]. split; [|done]. split; [done|lia]. }
  assert (Hi' : 0 <= i < rh_slot_count h) by ulia.
  rewrite payload_range_start by (done || lia). cbn [layout_err map_err fst].
  destruct (slot_route_Some self Hok i Hi') as (route & Hr & Ht & Hs).
  rewrite (writer_slot_run i m route) by done.
  destruct (Z.eqb_spec (slot_generation m (start i)) (rh_generation h)) as [Hg|Hg].
  2:{ do 2 eexists. split; [done|]. split; [done|]. split; [|done]. split; naive_solver. }
  destruct (prepare_publish_run m i sequence ack route) as (r & -> & Hnp & Hv & Hiff); [done..|].
  destruct r as [v|e|]; cbn [map_err]; [|do 2 eexists; split; [done|]; split; [done|]; split; [|done]|done].
  - rewrite (Hv v) by done.
    pose proof (publish_run m i sequence payload Hi' Hl Hp) as Hrun. unfold sbind, smap_err in Hrun.
    rewrite Hrun. do 2 eexists. split; [done|]. split; [done|]. split; [|done]. split; [|done]. intros _.
    destruct (proj1 Hiff) as [Hm Hc]; [eauto|]. split_and!; try done; try lia.
    destruct Hc as [?|(? & ? & ? & a & ? & ?)]; [now left|right]. split_and!; try done. eauto.
  - split; [done|]. intros (_ & _ & _ & Hm & Hc). exfalso.
    destruct (proj2 Hiff) as [v [=]]. split; [done|].
    destruct Hc as [?|(? & ? & ? & route' & a & Hr' & ? & ?)]; [now left|right].
    rewrite Hr in Hr'. injection Hr' as <-. eauto 6.
Qed.

End Writer.

(** C16: [WriterRegion::publish] is exact for every slot, sequence,
    acknowledgement and payload: it never panics; it succeeds if and only if
    the payload fits, the slot is in range and carries the generation, and the
    sequence is the first one of the slot or one rotation after the current
    publication, which must have been acknowledged, exactly, over the slot's own
    route; on success the mapping is the old one with the payload, the length
    and the sequence of that slot written, and on an error it is unchanged. *)
Theorem publish_exact (self : Region OwnMapping) m i sequence ack payload :
  region_ok self -> len m = vrl_mapping_size (rg_layout self) -> u32 i -> u64 sequence ->
  exists r m',
    WriterRegion_publish self i sequence ack payload m = (r, m') /\ r <> Panic /\
    (r = Ok tt <-> may_publish self m i sequence ack payload) /\
    m' = match r with Ok _ => published self m i sequence payload | _ => m end.
Proof.
  intros Hok Hl Hi Hs. apply publish_cases; try done. now destruct (mp_mem (rg_mapping self)).
Qed.

(** ** What a publication leaves alone, and what it leaves behind *)

Section Published.
Context {M : Type} (self : Region M).
Hypothesis Hok : region_ok self.
Context (m : bytes) (i sequence : Z) (payload : bytes).
Hypothesis Hl : len m = vrl_mapping_size (rg_layout self).
Hypothesis Hi : 0 <= i < rh_slot_count (vrl_header (rg_layout self)).
Hypothesis Hp : len payload <= rh_payload_capacity (vrl_header (rg_layout self)).

#[local] Abbreviation start := (slot_start self i).
#[local] Abbreviation m' :=
  (splice (splice (splice m (start + 64) payload) (start + 8) (le_bytes 4 (len payload)))
     (start + 16) (le_bytes 8 sequence)).

Lemma published_frame a b :
  0 <= a <= b ->
  b <= start + 8 \/ start + 12 <= a /\ b <= start + 16 \/ start + 24 <= a /\ b <= start + 64 \/
  start + 64 + len payload <= a ->
  slice m' a b = slice m a b.
Proof.
  intros Hab Hd. pose proof (len_nonneg payload).
  rewrite !slice_splice_disjoint; rewrite ?len_le_bytes; done || lia.
Qed.

Lemma published_fields :
  u64 sequence ->
  slot_generation m' start = slot_generation m start /\ slot_sequence m' start = sequence /\
  slot_payload_len m' start = len payload /\
  slice m' (start + 64) (start + 64 + len payload) = payload.
Proof.
  intros Hu. destruct (slot_start_bounds self Hok i Hi) as (? & ? & ? & _).
  pose proof (len_nonneg payload).
  destruct (geo_payload _ (vo_geometry _ (ro_layout _ Hok))) as [Hpc _].
  assert (u32 (len payload)) by ulia.
  unfold slot_generation, slot_sequence, slot_payload_len, field. split_and!.
  - f_equal. apply published_frame; lia.
  - rewrite slice_splice_eq; rewrite ?len_splice, ?len_le_bytes; try lia. now apply le_val_u64.
  - rewrite slice_splice_disjoint by (rewrite ?len_le_bytes; lia).
    rewrite slice_splice_eq; rewrite ?len_splice, ?len_le_bytes; try lia. now apply le_val_u32.
  - rewrite !slice_splice_disjoint by (rewrite ?len_le_bytes; lia). apply slice_splice_eq; lia.
Qed.

End Published.

(** A successful publication is confined to its slot. It leaves every
    byte outside the slot record unchanged (the region header, the
    acknowledgement cells, every other slot and the padding), keeps the
    generation of the slot, and leaves exactly the sequence, the length and the
    payload it was given. *)
Theorem publish_confined (self : Region OwnMapping) m i sequence ack payload m' :
  region_ok self -> len m = vrl_mapping_size (rg_layout self) -> u32 i -> u64 sequence ->
  WriterRegion_publish self i sequence ack payload m = (Ok tt, m') ->
  let start := slot_start self i in
  (forall a b, 0 <= a <= b ->
     b <= start \/ start + rh_slot_stride (vrl_header (rg_layout self)) <= a ->
     slice m' a b = slice m a b) /\
  slot_generation m' start = rh_generation (vrl_header (rg_layout self)) /\
  slot_sequence m' start = sequence /\ slot_payload_len m' start = len payload /\
  slice m' (start + 64) (start + 64 + len payload) = payload /\ len m' = len m.
Proof.
  intros Hok Hl Hi Hs H start.
  destruct (publish_cases self Hok ltac:(now destruct (mp_mem (rg_mapping self))) m i sequence ack payload)
    as (r & m1 & Hrun & _ & Hiff & Hm1); [done..|].
  rewrite H in Hrun. injection Hrun as <- <-. simpl in Hm1. subst m'.
  destruct (proj1 Hiff eq_refl) as (Hi' & Hp & Hg & _).
  destruct (slot_start_bounds self Hok i Hi') as (? & ? & ? & _).
  destruct (published_fields self Hok m i sequence payload Hl Hi' Hp Hs) as (Hg' & ? & ? & ?).
  unfold published. split_and!; try done.
  - intros a b Hab Hd. apply (published_frame self m i sequence payload); unfold start in *; lia.
  - etransitivity; [exact Hg'|exact Hg].
  - now rewrite !len_splice.
Qed.

(** ** Acknowledging *)

Definition cell_sequence (m : bytes) (cell : Z) : Z := field m cell 8.

Lemma acknowledge_cases self obs m :
  0 <= ac_cell self -> ac_cell self + 64 <= len m -> u64 (so_sequence obs) ->
  let b := ac_binding self in
  let current := cell_sequence m (ac_cell self) in
  exists r m',
    acknowledge own self obs m = (r, m') /\ r <> Panic /\
    (r = Ok tt <->
     so_role obs = ab_target b /\ so_generation obs = ab_generation b /\
     so_slot_index obs = ab_slot_index b /\ so_sequence obs <> 0 /\ current <= so_sequence obs) /\
    cell_sequence m' (ac_cell self) = match r with Ok _ => so_sequence obs | _ => current end /\
    current <= cell_sequence m' (ac_cell self) /\
    len m' = len m /\
    (forall x y, 0 <= x <= y -> y <= ac_cell self \/ ac_cell self + 8 <= x ->
                 slice m' x y = slice m x y).
Proof.
  intros Hc Hl Hu b current. unfold acknowledge, CELL_SEQUENCE. fold b. srun. rewrite Z.add_0_r.
  repeat match goal with
         | |- context [negb (?a =? ?c)] =>
             destruct (Z.eqb_spec a c); cbn [negb];
             [|do 2 eexists; split; [done|]; split_and!; try done; try lia; split; naive_solver]
         end.
  destruct (Z.eqb_spec (so_sequence obs) 0) as [Hz|Hz].
  { do 2 eexists; split; [done|]; split_and!; try done; try lia; split; naive_solver. }
  rewrite own_load by lia. fold (cell_sequence m (ac_cell self)). fold current.
  destruct (Z.ltb_spec (so_sequence obs) current) as [Hlt|Hge].
  { do 2 eexists; split; [done|]; split_and!; try done; try lia; split; naive_solver lia. }
  destruct (Z.eqb_spec (so_sequence obs) current) as [He|He].
  { do 2 eexists; split; [done|]; split_and!; try done; try lia; split; naive_solver lia. }
  rewrite own_store by lia.
  assert (Hs : cell_sequence (splice m (ac_cell self) (le_bytes (Z.to_nat 8) (so_sequence obs)))
                 (ac_cell self) = so_sequence obs).
  { unfold cell_sequence, field. rewrite slice_splice_eq; rewrite ?len_le_bytes; try lia.
    now apply le_val_u64. }
  do 2 eexists. split; [done|]. split_and!;
    [done|split; [intros _; split_and!; done || lia|done]|done|rewrite Hs; lia|apply len_splice|].
  intros x y Hxy Hd. apply slice_splice_disjoint; rewrite ?len_le_bytes; lia.
Qed.

(** [acknowledge] is exact and monotone. It never panics; it refuses an
    observation of another route, generation or slot, an unpublished one and
    one older than the cell; otherwise the cell holds the observed sequence
    afterwards. In every case the cell never moves backwards and no byte
    outside its eight bytes changes. *)
Theorem acknowledge_exact self obs m :
  0 <= ac_cell self -> ac_cell self + 64 <= len m -> u64 (so_sequence obs) ->
  let b := ac_binding self in
  let current := cell_sequence m (ac_cell self) in
  exists r m',
    acknowledge own self obs m = (r, m') /\ r <> Panic /\
    (r = Ok tt <->
     so_role obs = ab_target b /\ so_generation obs = ab_generation b /\
     so_slot_index obs = ab_slot_index b /\ so_sequence obs <> 0 /\ current <= so_sequence obs) /\
    cell_sequence m' (ac_cell self) = match r with Ok _ => so_sequence obs | _ => current end /\
    current <= cell_sequence m' (ac_cell self) /\
    len m' = len m /\
    (forall x y, 0 <= x <= y -> y <= ac_cell self \/ ac_cell self + 8 <= x ->
                 slice m' x y = slice m x y).
Proof. apply acknowledge_cases. Qed.

(** ** Witnesses on the sample region *)

Definition sample_writer : Region OwnMapping :=
  {| rg_mapping := {| mp_base := 4096; mp_len := vrl_mapping_size sample_validated; mp_mem := own |};
     rg_layout := sample_validated; rg_topology := sample_topology |}.

Lemma sample_writer_ok : region_ok sample_writer.
Proof.
  constructor; try done; [apply sample_validated_ok|apply sample_topology_wf].
Qed.

Definition sample_payload : bytes := [x0a; x0b; x0c].
Definition sample_published : bytes := Eval vm_compute in
  snd (WriterRegion_publish sample_writer 0 1 None sample_payload sample_mapping).

Lemma publish_exact_witness :
  WriterRegion_publish sample_writer 0 1 None sample_payload sample_mapping
  = (Ok tt, published sample_writer sample_mapping 0 1 sample_payload).
Proof.
  destruct (publish_exact sample_writer sample_mapping 0 1 None sample_payload)
    as (r & m' & Hrun & _ & Hiff & Hm);
    [apply sample_writer_ok|vm_compute; reflexivity|ulia|ulia|].
  assert (Hr : r = Ok tt).
  { apply Hiff. unfold may_publish. split; [vm_compute; split; congruence|].
    split; [vm_compute; congruence|]. split; [vm_compute; reflexivity|].
    split; [vm_compute; reflexivity|]. left. split; vm_compute; reflexivity. }
  rewrite Hrun, Hm, Hr. reflexivity.
Defined.

Lemma publish_confined_witness :
  WriterRegion_publish sample_writer 0 1 None sample_payload sample_mapping
  = (Ok tt, sample_published) /\
  slice sample_published (slot_start sample_writer 0 + 64) (slot_start sample_writer 0 + 67)
  = sample_payload.
Proof.
  split; [vm_compute; reflexivity|].
  destruct (publish_confined sample_writer sample_mapping 0 1 None sample_payload sample_published)
    as (_ & _ & _ & _ & H & _);
    [apply sample_writer_ok|vm_compute; reflexivity|ulia|ulia|vm_compute; reflexivity|].
  exact H.
Defined.

Definition sample_observation : SlotObservation :=
  {| so_role := 2; so_slot_index := 0; so_generation := 9; so_sequence := 1; so_payload_len := 3 |}.
Definition sample_cell : AcknowledgementCapability :=
  {| ac_cell := 128;
     ac_binding := {| ab_owner := 1; ab_target := 2; ab_slot_index := 0; ab_cell_index := 0;
                      ab_generation := 9 |} |}.

Lemma acknowledge_exact_witness :
  exists m', acknowledge own sample_cell sample_observation sample_mapping = (Ok tt, m') /\
             cell_sequence m' 128 = 1.
Proof.
  destruct (acknowledge_exact sample_cell sample_observation sample_mapping)
    as (r & m' & Hrun & _ & Hiff & Hc & _);
    [vm_compute; congruence|vm_compute; congruence|vm_compute; split; congruence|].
  assert (Hr : r = Ok tt).
  { apply Hiff. split; [reflexivity|]. split; [reflexivity|]. split; [reflexivity|].
    split; [discriminate|]. vm_compute. congruence. }
  exists m'. rewrite Hrun, Hr. split; [reflexivity|]. rewrite Hr in Hc. exact Hc.
Defined.
