(* ===== verification/Reader.v ===== *)
(** * Reader: copying a payload out of a mapping the peer controls

    [ReaderRegion::copy_payload] against an arbitrary history of the peer's
    mapping: which instants it reads, what it accepts, that no content makes it
    leave its slot or panic, and that it returns exactly what was published
    when the slot does not change under it. *)

From S2P Require Import Prelude Bytes Codec Layout LayoutGeometry LayoutRoutes LayoutValidate.
From S2P Require Import Memory Slot Mapping Publish.

(** The bytes a volatile copy started at time [t] picks up: byte [k] is read at
    instant [t + k]. *)
Fixpoint sampled (hist : history) (t : nat) (source : Z) (n : nat) : bytes :=
  match n with
  | O => []
  | S n => default x00 (hist t !! Z.to_nat source) :: sampled hist (S t) (source + 1) n
  end.

Lemma sampled_len hist t source n : len (sampled hist t source n) = Z.of_nat n.
Proof.
  revert t source. induction n as [|n IH]; intros; [done|].
  simpl sampled. unfold len in *. cbn [length]. rewrite Nat2Z.inj_succ, IH. lia.
Qed.

Lemma sampled_lookup hist t source n k b :
  0 <= source -> sampled hist t source n !! k = Some b ->
  b = default x00 (hist (t + k)%nat !! Z.to_nat (source + Z.of_nat k)).
Proof.
  revert t source k. induction n as [|n IH]; intros t source k Hs; simpl; [done|].
  destruct k as [|k]; simpl.
  - intros [= <-]. now rewrite Nat.add_0_r, Z.add_0_r.
  - intros H%IH; [|lia]. rewrite H. do 3 f_equal; lia.
Qed.

(** A copy from a mapping that does not change is a slice of it. *)
Lemma sampled_stable hist t source n m :
  0 <= source -> source + Z.of_nat n <= len m ->
  (forall k, (k < n)%nat ->
     hist (t + k)%nat !! Z.to_nat (source + Z.of_nat k) = m !! Z.to_nat (source + Z.of_nat k)) ->
  sampled hist t source n = slice m source (source + Z.of_nat n).
Proof.
  intros Hs Hl Hst. apply list_eq. intros k.
  rewrite lookup_slice by lia. case_decide as Hk.
  - destruct (lookup_lt_is_Some_2 (sampled hist t source n) k) as [b Hb].
    { pose proof (sampled_len hist t source n). unfold len in *. lia. }
    rewrite Hb. apply sampled_lookup in Hb; [|done]. subst b. rewrite Hst by lia.
    replace (Z.to_nat (source + Z.of_nat k)) with (Z.to_nat source + k)%nat by lia.
    destruct (lookup_lt_is_Some_2 m (Z.to_nat source + k)) as [b ->]; [unfold len in *; lia|done].
  - apply lookup_ge_None. pose proof (sampled_len hist t source n). unfold len in *. lia.
Qed.

Lemma volatile_copy_sampled {E} (hist : history) bound t source n :
  (forall t, bound <= len (hist t)) -> 0 <= source -> source + Z.of_nat n <= bound ->
  volatile_copy (E := E) hist source n t = (Ok (sampled hist t source n), (t + n)%nat).
Proof.
  intros Hb. revert t source. induction n as [|n IH]; intros t source Hs Hl.
  - simpl. unfold sret. now rewrite Nat.add_0_r.
  - cbn [volatile_copy]. srun. specialize (Hb t).
    destruct (peer_load_byte (E := E) hist t source Hs) as (b & Hb' & ->); [lia|].
    rewrite IH by lia. simpl sampled. rewrite Hb'. simpl. f_equal. lia.
Qed.

Section Reader.
Context (self : Region history).
Hypothesis Hok : region_ok self.

#[local] Abbreviation layout := (rg_layout self).
#[local] Abbreviation h := (vrl_header layout).
#[local] Abbreviation hist := (mp_mem (rg_mapping self)).
#[local] Abbreviation start := (slot_start self).

(** The peer can write its mapping but not resize it. *)
Definition mapped : Prop := forall t, len (hist t) = vrl_mapping_size layout.
Hypothesis Hmapped : mapped.

Lemma peer_generation t o expected :
  0 <= o -> o + 64 <= vrl_mapping_size layout -> expected <> 0 ->
  validate_bound_generation hist o expected t
  = (if slot_generation (hist t) o =? expected then Ok tt
     else Err (SlotError_StaleGeneration expected (slot_generation (hist t) o)), S t).
Proof.
  intros. unfold validate_bound_generation, SLOT_GENERATION.
  replace (expected =? 0) with false by lia. srun. rewrite peer_load by (rewrite ?Hmapped; lia).
  rewrite Z.add_0_r. fold (slot_generation (hist t) o). now destruct (_ =? _).
Qed.

Lemma volatile_copy_run {E} t source n :
  0 <= source -> source + Z.of_nat n <= vrl_mapping_size layout ->
  volatile_copy (E := E) hist source n t = (Ok (sampled hist t source n), (t + n)%nat).
Proof.
  intros. apply (volatile_copy_sampled _ (vrl_mapping_size layout)); try done. intros t'. now rewrite Hmapped.
Qed.

Definition reader_binding (i : Z) : SlotBinding :=
  ReaderSlotBinding_validated (rh_role h) (rh_generation h) (rh_payload_capacity h) i
    (rh_slot_count h).

Definition reader_slot (i : Z) : ReaderSlot :=
  {| rd_header := start i; rd_binding := reader_binding i |}.

Lemma reader_slot_run i t :
  0 <= i < rh_slot_count h ->
  ReaderRegion_slot self i t
  = (if slot_generation (hist t) (start i) =? rh_generation h then Ok (reader_slot i)
     else Err (BindingError_Slot
                 (SlotError_StaleGeneration (rh_generation h) (slot_generation (hist t) (start i)))),
     S t).
Proof.
  intros Hi. destruct (slot_start_bounds self Hok i Hi) as (? & ? & ? & _).
  destruct (stride_facts layout (ro_layout _ Hok)) as (_&_&_&_&_&_&_&_&_&?&_).
  unfold ReaderRegion_slot, reader_slot_binding, layout_err. srun.
  rewrite slot_range_start by done. cbn [rbind map_err fst snd].
  replace (start i + rh_slot_stride h - start i) with (rh_slot_stride h) by lia.
  rewrite record_slot by done. unfold ReaderSlot_bind. srun.
  cbn [sb_generation ReaderSlotBinding_validated].
  rewrite peer_generation by (lia || apply Hok). now destruct (_ =? _).
Qed.

Lemma reader_slot_out i t :
  rh_slot_count h <= i ->
  ReaderRegion_slot self i t
  = (Err (BindingError_Layout (LayoutError_SlotOutOfBounds i (rh_slot_count h))), t).
Proof.
  intros Hi. unfold ReaderRegion_slot, reader_slot_binding, layout_err. srun.
  now rewrite slot_range_err by done.
Qed.

(** ** The timeline of one copy

    Started at [t], the copy reads the generation at [t], the sequence at
    [t+1], the generation at [t+2], the length at [t+3], byte [k] at [t+4+k],
    and then the generation, the sequence, the generation and the length again. *)

Definition metadata_at (i sequence n : Z) (t0 t1 t2 t3 : nat) : Prop :=
  slot_generation (hist t0) (start i) = rh_generation h /\
  slot_sequence (hist t1) (start i) = sequence /\
  slot_generation (hist t2) (start i) = rh_generation h /\
  slot_payload_len (hist t3) (start i) = n.

Definition copies (t : nat) (i sequence : Z) (payload : bytes) : Prop :=
  exists n : nat,
    0 <= i < rh_slot_count h /\ sequence <> 0 /\ (sequence - 1) mod rh_slot_count h = i /\
    Z.of_nat n <= rh_payload_capacity h /\
    metadata_at i sequence (Z.of_nat n) t (t + 1) (t + 2) (t + 3) /\
    metadata_at i sequence (Z.of_nat n) (t + 4 + n) (t + 5 + n) (t + 6 + n) (t + 7 + n) /\
    payload = sampled hist (t + 4) (start i + 64) n.

Definition observation_of (i sequence n : Z) : SlotObservation :=
  {| so_role := rh_role h; so_slot_index := i; so_generation := rh_generation h;
     so_sequence := sequence; so_payload_len := n |}.

Lemma observe_run i sequence t :
  0 <= i < rh_slot_count h ->
  exists r t',
    observe hist (reader_slot i) sequence t = (r, t') /\ r <> Panic /\
    (forall o, r = Ok o -> t' = (t + 3)%nat) /\
    (forall o, r = Ok o <->
       sequence <> 0 /\ (sequence - 1) mod rh_slot_count h = i /\
       o = observation_of i sequence (so_payload_len o) /\
       so_payload_len o = slot_payload_len (hist (t + 2)%nat) (start i) /\
       so_payload_len o <= rh_payload_capacity h /\
       slot_sequence (hist t) (start i) = sequence /\
       slot_generation (hist (t + 1)%nat) (start i) = rh_generation h).
Proof.
  intros Hi. destruct (slot_start_bounds self Hok i Hi) as (? & ? & ? & _).
  destruct (stride_facts layout (ro_layout _ Hok)) as (_&_&_&_&_&_&_&?&_&?&_).
  unfold observe. cbn [rd_binding rd_header reader_slot]. srun.
  destruct (decide (sequence = 0)) as [->|Hz].
  { unfold validate_sequence_slot. simpl. do 2 eexists. split; [done|]. split; [done|]. naive_solver. }
  rewrite sequence_slot_cases by (simpl; lia). cbn [sb_slot_index sb_slot_count reader_binding
    ReaderSlotBinding_validated sb_generation sb_payload_capacity sb_role].
  destruct (Z.eqb_spec i ((sequence - 1) mod rh_slot_count h)) as [Hm|Hm].
  2:{ do 2 eexists. split; [done|]. split; [done|]. naive_solver. }
  unfold SLOT_PUBLISHED_SEQUENCE. rewrite peer_load by (rewrite ?Hmapped; lia).
  fold (slot_sequence (hist t) (start i)).
  destruct (Z.eqb_spec (slot_sequence (hist t) (start i)) sequence) as [Hs|Hs]; cbn [negb].
  2:{ do 2 eexists. split; [done|]. split; [done|]. naive_solver. }
  rewrite peer_generation by (lia || apply Hok).
  replace (S t) with (t + 1)%nat by lia.
  destruct (Z.eqb_spec (slot_generation (hist (t + 1)%nat) (start i)) (rh_generation h)) as [Hg|Hg].
  2:{ do 2 eexists. split; [done|]. split; [done|]. naive_solver. }
  replace (S (t + 1)) with (t + 2)%nat by lia. unfold SLOT_PAYLOAD_LEN.
  rewrite peer_load by (rewrite ?Hmapped; lia). fold (slot_payload_len (hist (t + 2)%nat) (start i)).
  destruct (Z.ltb_spec (rh_payload_capacity h) (slot_payload_len (hist (t + 2)%nat) (start i))) as [Hc|Hc].
  { do 2 eexists. split; [done|]. split; [done|]. naive_solver lia. }
  do 2 eexists. split; [done|]. split; [done|]. split; [intros; lia|]. intros o. split.
  - intros [= <-]. simpl. unfold observation_of. rewrite Hs. split_and!; done || lia.
  - intros (_ & _ & Ho & Hn & _). rewrite Ho, Hn. unfold observation_of. now rewrite Hs.
Qed.

Lemma recheck_run i sequence n t :
  0 <= i < rh_slot_count h ->
  exists r t',
    recheck hist (reader_slot i) (observation_of i sequence n) t = (r, t') /\ r <> Panic /\
    (r = Ok tt -> t' = (t + 3)%nat) /\
    (r = Ok tt <->
       slot_sequence (hist t) (start i) = sequence /\
       slot_generation (hist (t + 1)%nat) (start i) = rh_generation h /\
       slot_payload_len (hist (t + 2)%nat) (start i) = n).
Proof.
  intros Hi. destruct (slot_start_bounds self Hok i Hi) as (? & ? & ? & _).
  destruct (stride_facts layout (ro_layout _ Hok)) as (_&_&_&_&_&_&_&_&_&?&_).
  unfold recheck, observation_of. cbn [rd_binding rd_header reader_slot sb_role sb_generation
    reader_binding ReaderSlotBinding_validated so_role so_generation so_sequence so_payload_len].
  rewrite !Z.eqb_refl. cbn [negb]. srun. unfold SLOT_PUBLISHED_SEQUENCE.
  rewrite peer_load by (rewrite ?Hmapped; lia). fold (slot_sequence (hist t) (start i)).
  destruct (Z.eqb_spec (slot_sequence (hist t) (start i)) sequence) as [Hs|Hs]; cbn [negb].
  2:{ do 2 eexists. split; [done|]. split; [done|]. naive_solver. }
  rewrite peer_generation by (lia || apply Hok). replace (S t) with (t + 1)%nat by lia.
  destruct (Z.eqb_spec (slot_generation (hist (t + 1)%nat) (start i)) (rh_generation h)) as [Hg|Hg].
  2:{ do 2 eexists. split; [done|]. split; [done|]. naive_solver. }
  replace (S (t + 1)) with (t + 2)%nat by lia. unfold SLOT_PAYLOAD_LEN.
  rewrite peer_load by (rewrite ?Hmapped; lia). fold (slot_payload_len (hist (t + 2)%nat) (start i)).
  destruct (Z.eqb_spec (slot_payload_len (hist (t + 2)%nat) (start i)) n) as [Hn|Hn]; cbn [negb].
  - do 2 eexists. split; [done|]. split; [done|]. split; [intros; lia|].
    split; [intros _; split_and!; done || lia|done].
  - do 2 eexists. split; [done|]. split; [done|]. naive_solver.
Qed.

Lemma payload_len_nat t i :
  0 <= i < rh_slot_count h ->
  slot_payload_len (hist t) (start i) = Z.of_nat (Z.to_nat (slot_payload_len (hist t) (start i))).
Proof.
  intros Hi. destruct (slot_start_bounds self Hok i Hi) as (? & ? & ? & _).
  destruct (stride_facts layout (ro_layout _ Hok)) as (_&_&_&_&_&_&_&_&_&?&_).
  pose proof (field_bound (hist t) (start i + 8) 4). rewrite Hmapped in *.
  unfold slot_payload_len. lia.
Qed.

Lemma copy_payload_cases {AL : Allocator} t i sequence :
  u32 i ->
  exists r t',
    copy_payload self i sequence t = (r, t') /\ r <> Panic /\
    (forall payload, r = Ok payload -> copies t i sequence payload) /\
    (forall payload, copies t i sequence payload -> try_reserve_exact (len payload) = true ->
       r = Ok payload).
Proof.
  intros Hi32. unfold copy_payload. unfold sbind at 1.
  destruct (decide (i < rh_slot_count h)) as [Hi|Hi].
  2:{ rewrite reader_slot_out by lia. do 2 eexists. split; [done|]. split; [done|]. split; [done|].
      intros payload (n & ? & _). lia. }
  assert (Hi' : 0 <= i < rh_slot_count h) by ulia. rewrite reader_slot_run by done.
  destruct (Z.eqb_spec (slot_generation (hist t) (start i)) (rh_generation h)) as [Hg|Hg].
  2:{ do 2 eexists. split; [done|]. split; [done|]. split; [done|].
      intros payload (n & _ & _ & _ & _ & (? & _) & _). done. }
  unfold sbind at 1, smap_err at 1.
  destruct (observe_run i sequence (S t) Hi') as (r & t1 & -> & Hnp & Ht1 & Hobs).
  replace (S t) with (t + 1)%nat in * by lia.
  replace (t + 1 + 1)%nat with (t + 2)%nat in * by lia.
  replace (t + 1 + 2)%nat with (t + 3)%nat in * by lia.
  replace (t + 1 + 3)%nat with (t + 4)%nat in * by lia.
  destruct r as [o|e|]; cbn [map_err]; [|do 2 eexists; split; [done|]; split; [done|]; split; [done|]|done].
  2:{ intros payload (n & _ & Hz & Hm & Hn & (_ & Hs & Hg2 & Hln) & _). exfalso.
      specialize (Hobs (observation_of i sequence (Z.of_nat n))). simpl in Hobs.
      enough (Err e = Ok (observation_of i sequence (Z.of_nat n))) by discriminate.
      apply Hobs. split_and!; done. }
  rewrite (Ht1 o) by done. destruct (proj1 (Hobs o) eq_refl) as (Hz & Hm & Ho & Hn & Hcap & Hs & Hg2).
  rewrite payload_len_nat in Hn by done.
  set (n := Z.to_nat (slot_payload_len (hist (t + 3)%nat) (start i))) in *. rewrite Hn in *.
  destruct (slot_start_bounds self Hok i Hi') as (? & ? & ? & _).
  rewrite payload_range_start by (done || lia). unfold sbind at 1, slift. cbn [layout_err map_err fst snd].
  replace (start i + 64 + Z.of_nat n - (start i + 64)) with (Z.of_nat n) by lia.
  assert (Huniq : forall payload, copies t i sequence payload ->
                    payload = sampled hist (t + 4) (start i + 64) n /\
                    metadata_at i sequence (Z.of_nat n) (t + 4 + n) (t + 5 + n) (t + 6 + n) (t + 7 + n)).
  { intros payload (k & _ & _ & _ & _ & (_ & _ & _ & Hk) & Hend & ->).
    assert (k = n) as -> by (unfold n; lia). done. }
  destruct (try_reserve_exact (Z.of_nat n)) eqn:Hal; cbn [negb].
  2:{ do 2 eexists. split; [done|]. split; [done|]. split; [done|].
      intros payload [-> _]%Huniq. rewrite sampled_len, Hal. done. }
  unfold sbind at 1. rewrite volatile_copy_run by lia. rewrite Nat2Z.id.
  unfold sbind at 1. rewrite reader_slot_run by done.
  destruct (Z.eqb_spec (slot_generation (hist (t + 4 + n)%nat) (start i)) (rh_generation h)) as [Hg3|Hg3].
  2:{ do 2 eexists. split; [done|]. split; [done|]. split; [done|].
      intros payload [_ (Hbad & _)]%Huniq. done. }
  rewrite Ho. unfold sbind, smap_err.
  destruct (recheck_run i sequence (Z.of_nat n) (S (t + 4 + n)) Hi') as (r & t2 & -> & Hnp2 & _ & Hre).
  replace (S (t + 4 + n)) with (t + 5 + n)%nat in * by lia.
  replace (t + 5 + n + 1)%nat with (t + 6 + n)%nat in * by lia.
  replace (t + 5 + n + 2)%nat with (t + 7 + n)%nat in * by lia.
  destruct r as [[]|e|]; cbn [map_err]; [..|done].
  - destruct (proj1 Hre eq_refl) as (Hs2 & Hg4 & Hn2).
    do 2 eexists. split; [done|]. split; [done|]. split; [|now intros payload [-> _]%Huniq].
    intros payload [= <-]. exists n. split_and!; try done; [lia|]. split_and!; try done. now apply payload_len_nat.
  - do 2 eexists. split; [done|]. split; [done|]. split; [done|].
    intros payload [_ (_ & Hs2 & Hg4 & Hn2)]%Huniq. exfalso.
    enough (Err e = Ok tt) by discriminate. apply Hre. done.
Qed.

Lemma copy_payload_into_cases t i sequence d :
  u32 i ->
  exists r t' d',
    copy_payload_into self i sequence (t, d) = (r, (t', d')) /\ r <> Panic /\
    (forall n, r = Ok n ->
       exists payload, copies t i sequence payload /\ n = len payload /\ d' = splice d 0 payload /\
                       len payload <= len d) /\
    (forall payload, copies t i sequence payload -> len payload <= len d -> r = Ok (len payload)) /\
    (exists copied, d' = splice d 0 copied /\ len copied <= rh_payload_capacity h /\
                    len copied <= len d).
Proof.
  intros Hi32. destruct (stride_facts layout (ro_layout _ Hok)) as (_&_&_&_&_&_&_&_&_&Hcp&_).
  assert (Hnone : forall d : bytes, exists copied, d = splice d 0 copied /\
            len copied <= rh_payload_capacity h /\ len copied <= len d).
  { intros d'. exists []. rewrite splice_head by apply len_nonneg.
    rewrite app_nil_l, slice_full by done. split_and!; [done|unfold len; simpl; lia|apply len_nonneg]. }
  unfold copy_payload_into. unfold sbind at 1, with_memory at 1.
  destruct (decide (i < rh_slot_count h)) as [Hi|Hi].
  2:{ rewrite reader_slot_out by lia. do 3 eexists. split; [done|]. split_and!; try done; try apply Hnone.
      intros payload (n & ? & _). lia. }
  assert (Hi' : 0 <= i < rh_slot_count h) by ulia. rewrite reader_slot_run by done.
  destruct (Z.eqb_spec (slot_generation (hist t) (start i)) (rh_generation h)) as [Hg|Hg].
  2:{ do 3 eexists. split; [done|]. split_and!; try done; try apply Hnone.
      intros payload (n & _ & _ & _ & _ & (? & _) & _). done. }
  unfold sbind at 1, with_memory at 1, smap_err at 1.
  destruct (observe_run i sequence (S t) Hi') as (r & t1 & -> & Hnp & Ht1 & Hobs).
  replace (S t) with (t + 1)%nat in * by lia.
  replace (t + 1 + 1)%nat with (t + 2)%nat in * by lia.
  replace (t + 1 + 2)%nat with (t + 3)%nat in * by lia.
  replace (t + 1 + 3)%nat with (t + 4)%nat in * by lia.
  destruct r as [o|e|]; cbn [map_err];
    [|do 3 eexists; split; [done|]; split_and!; try done; try apply Hnone|done].
  2:{ intros payload (n & _ & Hz & Hm & Hn & (_ & Hs & Hg2 & Hln) & _). exfalso.
      specialize (Hobs (observation_of i sequence (Z.of_nat n))). simpl in Hobs.
      enough (Err e = Ok (observation_of i sequence (Z.of_nat n))) by discriminate.
      apply Hobs. split_and!; done. }
  rewrite (Ht1 o) by done. destruct (proj1 (Hobs o) eq_refl) as (Hz & Hm & Ho & Hn & Hcap & Hs & Hg2).
  rewrite payload_len_nat in Hn by done.
  set (n := Z.to_nat (slot_payload_len (hist (t + 3)%nat) (start i))) in *. rewrite Hn in *.
  destruct (slot_start_bounds self Hok i Hi') as (? & ? & ? & _).
  rewrite payload_range_start by (done || lia). unfold sbind at 1, slift. cbn [layout_err map_err fst snd].
  replace (start i + 64 + Z.of_nat n - (start i + 64)) with (Z.of_nat n) by lia.
  assert (Huniq : forall payload, copies t i sequence payload ->
                    payload = sampled hist (t + 4) (start i + 64) n /\
                    metadata_at i sequence (Z.of_nat n) (t + 4 + n) (t + 5 + n) (t + 6 + n) (t + 7 + n)).
  { intros payload (k & _ & _ & _ & _ & (_ & _ & _ & Hk) & Hend & ->).
    assert (k = n) as -> by (unfold n; lia). done. }
  unfold sbind at 1, sget. cbn [snd].
  destruct (Z.ltb_spec (len d) (Z.of_nat n)) as [Hd|Hd].
  { do 3 eexists. split; [done|]. split_and!; try done; try apply Hnone.
    intros payload [-> _]%Huniq. rewrite sampled_len. lia. }
  unfold sbind at 1, with_memory at 1. rewrite volatile_copy_run by lia. rewrite Nat2Z.id.
  unfold sbind at 1, smodify at 1. set (copied := sampled hist (t + 4) (start i + 64) n).
  assert (Hlc : len copied = Z.of_nat n) by apply sampled_len.
  assert (Hcop : exists c, splice d 0 copied = splice d 0 c /\
            len c <= rh_payload_capacity h /\ len c <= len d) by (exists copied; split_and!; done || lia).
  unfold sbind at 1, with_memory at 1. rewrite reader_slot_run by done.
  destruct (Z.eqb_spec (slot_generation (hist (t + 4 + n)%nat) (start i)) (rh_generation h)) as [Hg3|Hg3].
  2:{ do 3 eexists. split; [done|]. split_and!; try done.
      intros payload [_ (Hbad & _)]%Huniq. done. }
  rewrite Ho. unfold sbind, with_memory, smap_err.
  destruct (recheck_run i sequence (Z.of_nat n) (S (t + 4 + n)) Hi') as (r & t2 & -> & Hnp2 & _ & Hre).
  replace (S (t + 4 + n)) with (t + 5 + n)%nat in * by lia.
  replace (t + 5 + n + 1)%nat with (t + 6 + n)%nat in * by lia.
  replace (t + 5 + n + 2)%nat with (t + 7 + n)%nat in * by lia.
  destruct r as [[]|e|]; cbn [map_err]; [..|done].
  - destruct (proj1 Hre eq_refl) as (Hs2 & Hg4 & Hn2).
    do 3 eexists. split; [done|]. split_and!; try done.
    + intros k [= <-]. exists copied. split_and!; try done; [|lia].
      exists n. split_and!; try done; [lia|]. split_and!; try done. now apply payload_len_nat.
    + intros payload [-> _]%Huniq _. now rewrite sampled_len.
  - do 3 eexists. split; [done|]. split_and!; try done.
    intros payload [_ (_ & Hs2 & Hg4 & Hn2)]%Huniq _. exfalso.
    enough (Err e = Ok tt) by discriminate. apply Hre. done.
Qed.

End Reader.

(** C34: A hostile peer cannot make a reader misbehave. Whatever the peer does
    to its mapping between any two loads, [copy_payload] never panics and never
    reads outside the payload area of its slot; it returns a payload exactly
    when the metadata it read before and after the copy carries the expected
    sequence, the session generation and one same length within the slot
    capacity, and then returns the bytes it sampled, at most one capacity of
    them. *)
Theorem copy_payload_hostile {AL : Allocator} (self : Region history) t i sequence :
  region_ok self -> mapped self -> u32 i ->
  exists r t',
    copy_payload self i sequence t = (r, t') /\ r <> Panic /\
    (forall payload, r = Ok payload ->
       copies self t i sequence payload /\
       len payload <= rh_payload_capacity (vrl_header (rg_layout self))) /\
    (forall payload, copies self t i sequence payload -> try_reserve_exact (len payload) = true ->
       r = Ok payload).
Proof.
  intros Hok Hm Hi. destruct (copy_payload_cases self Hok Hm t i sequence Hi) as (r & t' & Hrun & Hnp & Hs & Hc).
  exists r, t'. split_and!; try done. intros payload Hr. apply Hs in Hr. split; [done|].
  destruct Hr as (n & _ & _ & _ & Hn & _ & _ & ->). now rewrite sampled_len.
Qed.

(** [copy_payload_into] agrees with [copy_payload] and respects the
    caller's buffer: it succeeds exactly on the payloads [copy_payload] would
    return that fit the buffer, reports their length and leaves them as the
    prefix of the buffer, and in every outcome, errors included, at most one
    slot capacity of leading bytes is written and the rest is untouched. *)
Theorem copy_payload_into_agrees (self : Region history) t i sequence d :
  region_ok self -> mapped self -> u32 i ->
  exists r t' d',
    copy_payload_into self i sequence (t, d) = (r, (t', d')) /\ r <> Panic /\
    (forall n, r = Ok n <->
       exists payload, copies self t i sequence payload /\ n = len payload /\ len payload <= len d) /\
    (forall payload, r = Ok (len payload) -> copies self t i sequence payload ->
       d' = payload ++ slice d (len payload) (len d)) /\
    len d' = len d /\
    (exists n, 0 <= n <= rh_payload_capacity (vrl_header (rg_layout self)) /\
               slice d' n (len d) = slice d n (len d)).
Proof.
  intros Hok Hm Hi.
  destruct (copy_payload_into_cases self Hok Hm t i sequence d Hi)
    as (r & t' & d' & Hrun & Hnp & Hs & Hc & (copied & Hd & Hl1 & Hl2)).
  exists r, t', d'. pose proof (len_nonneg copied). split_and!; try done.
  - intros n. split; [intros Hr; destruct (Hs n Hr) as (payload & ? & ? & _ & ?); eauto|].
    intros (payload & Hp & -> & Hle). now apply Hc.
  - intros payload Hr Hp. destruct (Hs _ Hr) as (payload' & Hp' & Hlen & -> & Hle).
    assert (payload' = payload) as ->; [|now apply splice_head].
    destruct Hp as (n & _ & _ & _ & _ & _ & _ & ->), Hp' as (n' & _ & _ & _ & _ & _ & _ & ->).
    rewrite !sampled_len in Hlen. now replace n' with n by lia.
  - subst d'. apply len_splice.
  - exists (len copied). split; [lia|]. subst d'. apply slice_splice_disjoint; lia.
Qed.

(** ** Reading what was published *)

Lemma copies_stable (self : Region history) t i sequence payload m :
  region_ok self -> mapped self -> 0 <= i < rh_slot_count (vrl_header (rg_layout self)) ->
  len m = vrl_mapping_size (rg_layout self) ->
  (forall k, t <= k <= t + 7 + length payload ->
     slice (mp_mem (rg_mapping self) k) (slot_start self i) (slot_start self i + 64 + len payload)
     = slice m (slot_start self i) (slot_start self i + 64 + len payload))%nat ->
  slot_generation m (slot_start self i) = rh_generation (vrl_header (rg_layout self)) ->
  slot_sequence m (slot_start self i) = sequence -> sequence <> 0 ->
  (sequence - 1) mod rh_slot_count (vrl_header (rg_layout self)) = i ->
  slot_payload_len m (slot_start self i) = len payload ->
  len payload <= rh_payload_capacity (vrl_header (rg_layout self)) ->
  slice m (slot_start self i + 64) (slot_start self i + 64 + len payload) = payload ->
  copies self t i sequence payload.
Proof.
  intros Hok Hm Hi Hl Hst Hg Hs Hz Hmod Hn Hcap Hp.
  destruct (slot_start_bounds self Hok i Hi) as (? & ? & ? & _).
  set (start := slot_start self i) in *. pose proof (len_nonneg payload).
  set (hist := mp_mem (rg_mapping self)) in *.
  assert (Hfield : forall k a b, (t <= k <= t + 7 + length payload)%nat -> 0 <= a <= b ->
            b <= 64 + len payload -> slice (hist k) (start + a) (start + b) = slice m (start + a) (start + b)).
  { intros k a b Hk Hab Hb. specialize (Hst k Hk).
    assert (Hs' := f_equal (fun l => slice l a b) Hst). cbv beta in Hs'.
    rewrite !slice_slice in Hs' by lia. done. }
  assert (Hmeta : forall t0 t1 t2 t3, (t <= t0 <= t + 7 + length payload)%nat ->
            (t <= t1 <= t + 7 + length payload)%nat -> (t <= t2 <= t + 7 + length payload)%nat ->
            (t <= t3 <= t + 7 + length payload)%nat -> metadata_at self i sequence (len payload) t0 t1 t2 t3).
  { intros t0 t1 t2 t3 G0 G1 G2 G3. unfold metadata_at. fold hist start.
    rewrite <- Hg, <- Hs, <- Hn. unfold slot_generation, slot_sequence, slot_payload_len, field.
    pose proof (Hfield t0 0 8 G0) as F0. pose proof (Hfield t2 0 8 G2) as F2.
    rewrite Z.add_0_r in F0, F2. pose proof (Hfield t1 16 24 G1) as F1. pose proof (Hfield t3 8 12 G3) as F3.
    replace (start + 16 + 8) with (start + 24) by lia. replace (start + 8 + 4) with (start + 12) by lia.
    rewrite F0, F1, F2, F3 by lia. done. }
  exists (length payload). fold (len payload). split_and!; try done; try lia.
  - apply Hmeta; lia.
  - apply Hmeta; lia.
  - fold hist start. rewrite (sampled_stable hist _ _ _ m); unfold len in *; [done|lia|lia|].
    intros k Hk.
    assert (Hbyte := Hfield (t + 4 + k)%nat (64 + Z.of_nat k) (64 + Z.of_nat k + 1)).
    assert (Hone := f_equal (fun l : bytes => l !! 0%nat) (Hbyte ltac:(lia) ltac:(lia) ltac:(lia))).
    cbv beta in Hone. rewrite !lookup_slice, !decide_True, !Nat.add_0_r in Hone by lia.
    now rewrite !Z.add_assoc in Hone.
Qed.
