(* ===== verification/Ring.v ===== *)
(** * Ring: one producer region, its readers and its acknowledgements, interleaved

    A step relation over the producer's mapping and the mappings that own the
    acknowledgement cells of its slots. A publication is the code's
    [WriterRegion_publish], run on a recorded mapping: the writes it makes there,
    in its program order, then reach the shared mapping one step at a time, and
    a copy that is not atomic may be seen torn. A publication that fails leaves
    what the code leaves. Acknowledgements are the code's [acknowledge]; readers
    only load, so that they appear as the history their loads sample. The safety
    theorem composes this with [copy_payload]. *)

From S2P Require Import Prelude Bytes Codec Layout LayoutGeometry LayoutRoutes LayoutValidate.
From S2P Require Import Memory Slot Mapping Publish Reader.

(** ** States and steps *)

(** The producer is idle, or in a publication of which [writes] are still to
    reach the mapping. *)
Inductive writer_pc :=
| Idle
| Publishing (i sequence : Z) (payload : bytes) (writes : list write).

Record ring := {
  rn_memory : bytes;
  rn_acks : RoleId -> bytes;
  rn_pc : writer_pc;
  (** The payload passed to the publication of each sequence. *)
  rn_log : Z -> option bytes
}.

Definition busy (pc : writer_pc) : option (Z * Z * bytes) :=
  match pc with
  | Idle => None
  | Publishing i q p _ => Some (i, q, p)
  end.

(** The same region over a recorded mapping. *)
Definition recorded_region (w : Region OwnMapping) : Region RecordedMapping :=
  {| rg_mapping := {| mp_base := mp_base (rg_mapping w); mp_len := mp_len (rg_mapping w); mp_mem := recorded |};
     rg_layout := rg_layout w; rg_topology := rg_topology w |}.

(** One write on the shared mapping. *)
Definition perform_write (x : write) : stm bytes SlotError unit :=
  match x with
  | Stored off n v => store own off n v
  | Copied off s => copy_in own off s
  end.

(** The producer with [writes] left: with none the publication is complete. *)
Definition left_with (s : ring) (m : bytes) (i sequence : Z) (payload : bytes) (writes : list write) : ring :=
  match writes with
  | [] => {| rn_memory := m; rn_acks := rn_acks s; rn_pc := Idle;
             rn_log := fun q => if q =? sequence then Some payload else rn_log s q |}
  | _ => {| rn_memory := m; rn_acks := rn_acks s; rn_pc := Publishing i sequence payload writes;
            rn_log := rn_log s |}
  end.

Section Ring.
Context (w : Region OwnMapping).

#[local] Abbreviation layout := (rg_layout w).
#[local] Abbreviation h := (vrl_header layout).
#[local] Abbreviation start := (slot_start w).

Definition cell_offset (route : AcknowledgementRoute) : Z := 128 + ar_cell_index route * 64.
Definition cell_capability (route : AcknowledgementRoute) : AcknowledgementCapability :=
  {| ac_cell := cell_offset route;
     ac_binding := AcknowledgementBinding_validated route (rh_generation h) |}.
Definition acked (s : ring) (route : AcknowledgementRoute) : Z :=
  cell_sequence (rn_acks s (ar_owner route)) (cell_offset route).

(** The acknowledgement passed to the writer was read from the cell at some
    earlier instant, so that it is not ahead of the cell. *)
Definition observed_ack (s : ring) (ack : option AcknowledgementObservation) : Prop :=
  forall a, ack = Some a ->
    ao_sequence a <= cell_sequence (rn_acks s (ao_owner a)) (128 + ao_cell_index a * 64).

Inductive step : ring -> ring -> Prop :=
| step_begin s i sequence ack payload m' writes :
    rn_pc s = Idle -> u32 i -> u64 sequence -> observed_ack s ack ->
    WriterRegion_publish (recorded_region w) i sequence ack payload (rn_memory s, []) = (Ok tt, (m', writes)) ->
    step s (left_with s (rn_memory s) i sequence payload writes)
| step_refused s i sequence ack payload r m' writes :
    rn_pc s = Idle -> u32 i -> u64 sequence ->
    WriterRegion_publish (recorded_region w) i sequence ack payload (rn_memory s, []) = (r, (m', writes)) -> r <> Ok tt ->
    step s {| rn_memory := m'; rn_acks := rn_acks s; rn_pc := Idle; rn_log := rn_log s |}
| step_tear s i sequence payload off source writes m' :
    rn_pc s = Publishing i sequence payload (Copied off source :: writes) -> len m' = len (rn_memory s) ->
    (forall a b, 0 <= a <= b -> b <= off \/ off + len source <= a -> slice m' a b = slice (rn_memory s) a b) ->
    step s {| rn_memory := m'; rn_acks := rn_acks s; rn_pc := rn_pc s; rn_log := rn_log s |}
| step_write s i sequence payload x writes m' :
    rn_pc s = Publishing i sequence payload (x :: writes) ->
    perform_write x (rn_memory s) = (Ok tt, m') ->
    step s (left_with s m' i sequence payload writes)
| step_ack s i route obs r m' :
    slot_route w i = Some route -> 0 <= i < rh_slot_count h -> u64 (so_sequence obs) ->
    so_sequence obs <= slot_sequence (rn_memory s) (start i) ->
    acknowledge own (cell_capability route) obs (rn_acks s (ar_owner route)) = (r, m') ->
    step s {| rn_memory := rn_memory s;
              rn_acks := fun role => if role =? ar_owner route then m' else rn_acks s role;
              rn_pc := rn_pc s; rn_log := rn_log s |}.

(** ** The invariant *)

Definition slot_holds (m : bytes) (i : Z) (p : bytes) : Prop :=
  slot_payload_len m (start i) = len p /\ len p <= rh_payload_capacity h /\
  slice m (start i + 64) (start i + 64 + len p) = p.

(** The writes of a publication. *)
Definition length_write (i : Z) (p : bytes) : write := Stored (start i + SLOT_PAYLOAD_LEN) 4 (len p).
Definition sequence_write (i q : Z) : write := Stored (start i + SLOT_PUBLISHED_SEQUENCE) 8 q.
Definition publication_writes (i q : Z) (p : bytes) : list write :=
  [Copied (start i + 64) p; length_write i p; sequence_write i q].

(** How far a publication has come. *)
Definition pc_progress (m : bytes) (pc : writer_pc) : Prop :=
  match pc with
  | Idle => True
  | Publishing i q p writes =>
      writes = publication_writes i q p \/
      (writes = [length_write i p; sequence_write i q] /\
       slice m (start i + 64) (start i + 64 + len p) = p) \/
      (writes = [sequence_write i q] /\ slot_holds m i p)
  end.

Record ring_inv (s : ring) : Prop := {
  ri_len : len (rn_memory s) = vrl_mapping_size layout;
  ri_generation : forall i, 0 <= i < rh_slot_count h ->
    slot_generation (rn_memory s) (start i) = rh_generation h;
  ri_cells : forall i route, 0 <= i < rh_slot_count h -> slot_route w i = Some route ->
    0 <= ar_cell_index route /\ cell_offset route + 64 <= len (rn_acks s (ar_owner route)) /\
    acked s route <= slot_sequence (rn_memory s) (start i);
  (** A slot is rewritten only while its last publication is acknowledged. *)
  ri_busy : forall i q p, busy (rn_pc s) = Some (i, q, p) ->
    0 <= i < rh_slot_count h /\ u64 q /\ (q - 1) mod rh_slot_count h = i /\
    len p <= rh_payload_capacity h /\ slot_sequence (rn_memory s) (start i) < q /\
    (slot_sequence (rn_memory s) (start i) = 0 \/
     exists route, slot_route w i = Some route /\
                   acked s route = slot_sequence (rn_memory s) (start i));
  ri_progress : pc_progress (rn_memory s) (rn_pc s);
  ri_slots : forall i, 0 <= i < rh_slot_count h -> slot_sequence (rn_memory s) (start i) <> 0 ->
    (slot_sequence (rn_memory s) (start i) - 1) mod rh_slot_count h = i /\
    ((forall q p, busy (rn_pc s) <> Some (i, q, p)) ->
     exists p, rn_log s (slot_sequence (rn_memory s) (start i)) = Some p /\
               slot_holds (rn_memory s) i p);
  (** The log is write-once: it holds only sequences already published. *)
  ri_log : forall q p, rn_log s q = Some p ->
    q <= slot_sequence (rn_memory s) (start ((q - 1) mod rh_slot_count h))
}.

Hypothesis Hok : region_ok w.

Lemma own_memory : mp_mem (rg_mapping w) = own.
Proof. now destruct (mp_mem (rg_mapping w)). Qed.

(** Two memories that agree on a slot record agree on what it holds. *)
Definition same_slot (m m' : bytes) (i : Z) : Prop :=
  slice m' (start i) (start i + rh_slot_stride h) = slice m (start i) (start i + rh_slot_stride h).

Lemma same_slot_slice m m' i a b :
  same_slot m m' i -> 0 <= i < rh_slot_count h -> 0 <= a <= b -> b <= rh_slot_stride h ->
  slice m' (start i + a) (start i + b) = slice m (start i + a) (start i + b).
Proof.
  intros Hs Hi Hab Hb. destruct (slot_start_bounds w Hok i Hi) as (? & _).
  assert (Hsub := f_equal (fun l => slice l a b) Hs). cbv beta in Hsub.
  rewrite !slice_slice in Hsub by lia. done.
Qed.

Lemma same_slot_fields m m' i :
  same_slot m m' i -> 0 <= i < rh_slot_count h ->
  slot_generation m' (start i) = slot_generation m (start i) /\
  slot_sequence m' (start i) = slot_sequence m (start i) /\
  (forall p, slot_holds m i p -> slot_holds m' i p).
Proof.
  intros Hs Hi. destruct (slot_start_bounds w Hok i Hi) as (? & ? & Hc & _).
  destruct (stride_facts layout (ro_layout _ Hok)) as (_&_&_&_&_&_&_&_&_&?&_).
  pose proof (same_slot_slice m m' i 0 8 Hs Hi) as F0. rewrite Z.add_0_r in F0.
  pose proof (same_slot_slice m m' i 16 24 Hs Hi) as F1.
  pose proof (same_slot_slice m m' i 8 12 Hs Hi) as F2.
  unfold slot_holds, slot_generation, slot_sequence, slot_payload_len, field.
  replace (start i + 16 + 8) with (start i + 24) by lia. replace (start i + 8 + 4) with (start i + 12) by lia.
  rewrite F0, F1, F2 by lia. split_and!; try done. intros p (Hn & Hl & Hp). split_and!; try done.
  pose proof (len_nonneg p).
  rewrite <- Hp at 2. rewrite <- Z.add_assoc. apply same_slot_slice; done || lia.
Qed.

(** Writes confined to one slot leave the others alone. *)
Lemma other_slot m m' i j :
  0 <= i < rh_slot_count h -> 0 <= j < rh_slot_count h -> i <> j ->
  (forall a b, 0 <= a <= b -> b <= start i \/ start i + rh_slot_stride h <= a ->
     slice m' a b = slice m a b) ->
  same_slot m m' j.
Proof.
  intros Hi Hj Hne Hf. apply Hf.
  - destruct (slot_start_bounds w Hok j Hj) as (? & ? & ? & _).
    destruct (stride_facts layout (ro_layout _ Hok)) as (_&_&_&?&_). lia.
  - destruct (stride_facts layout (ro_layout _ Hok)) as (_&_&_&?&_). unfold slot_start.
    assert (i < j \/ j < i) as [Hlt|Hlt] by lia;
      [assert ((i + 1) * rh_slot_stride h <= j * rh_slot_stride h)
      |assert ((j + 1) * rh_slot_stride h <= i * rh_slot_stride h)];
      try (apply Z.mul_le_mono_nonneg_r; lia); lia.
Qed.

(** Code that only loads runs on a recorded mapping as on the mapping. *)
Lemma slot_recorded i m ws :
  WriterRegion_slot (recorded_region w) i (m, ws) = unrecorded (WriterRegion_slot w i) (m, ws).
Proof.
  unfold WriterRegion_slot, WriterSlot_bind, validate_bound_generation, record. rewrite own_memory. srun. cbn.
  repeat (case_match; simplify_eq/=; try done).
Qed.

Lemma prepare_recorded bound sequence ack m ws :
  prepare_publish recorded bound sequence ack (m, ws) = unrecorded (prepare_publish own bound sequence ack) (m, ws).
Proof.
  unfold prepare_publish, validate_bound_generation. srun. cbn.
  destruct (sb_generation _ =? 0); [done|]. cbn. destruct (in_range m _ _); [|done]. cbn.
  destruct (field _ _ _ =? _); [|done]. cbn. destruct (validate_sequence_slot _ _) as [[]|e|]; [|done..]. cbn.
  destruct (in_range m _ _); [|done]. cbn. destruct (field _ _ _ =? 0); cbn.
  - destruct (uadd _ _ _) as [n|e|]; [|done..]. now destruct (negb _).
  - destruct (ok_or _ _) as [n|e|]; [|done..]. destruct (negb _); [done|].
    now destruct (check_acknowledgement _ _ _) as [[]|e|].
Qed.

Lemma slot_keeps i m : snd (WriterRegion_slot w i m) = m.
Proof.
  unfold WriterRegion_slot, WriterSlot_bind, validate_bound_generation. srun. cbn.
  repeat (case_match; simplify_eq/=; try done).
Qed.

(** The checks [WriterRegion::publish] makes before its first write. *)
Lemma admitted_may m i sequence ack payload n range bound reservation :
  len m = vrl_mapping_size layout -> u32 i -> u64 sequence ->
  try_from U32_MAX (len payload) = Some n -> slot_payload_range layout i n = Ok range ->
  WriterRegion_slot w i m = (Ok bound, m) ->
  fst (prepare_publish own bound sequence ack m) = Ok reservation ->
  may_publish w m i sequence ack payload.
Proof.
  intros Hl Hi Hu Hn Hrange Hslot Hprep.
  apply try_from_Some in Hn as [-> _]. unfold slot_payload_range in Hrange.
  destruct (Z.ltb_spec (rh_payload_capacity h) (len payload)) as [?|Hp]; [discriminate|].
  destruct (decide (i < rh_slot_count h)) as [Hi'|Hi'].
  2:{ rewrite slot_range_err in Hrange by lia. discriminate. }
  assert (Hi2 : 0 <= i < rh_slot_count h) by ulia.
  destruct (slot_route_Some w Hok i Hi2) as (route & Hr & _).
  rewrite (writer_slot_run w Hok own_memory i m route) in Hslot by done.
  destruct (Z.eqb_spec (slot_generation m (start i)) (rh_generation h)) as [Hg|Hg]; [|discriminate].
  injection Hslot as <-.
  destruct (prepare_publish_run w Hok m i sequence ack route) as (r & Hrun & _ & _ & Hiff); [done..|].
  rewrite Hrun in Hprep. cbn in Hprep. subst r. destruct (proj1 Hiff) as [Hm Hc]; [eauto|].
  split_and!; try done; try lia. destruct Hc as [?|(? & ? & ? & a & ? & ?)]; [now left|].
  right. split_and!; try done. eauto.
Qed.

Lemma prepare_keeps bound sequence ack m : snd (prepare_publish own bound sequence ack m) = m.
Proof.
  unfold prepare_publish, validate_bound_generation. srun. cbn.
  repeat (case_match; simplify_eq/=; try done).
Qed.

(** A publication on a recorded mapping that is refused makes no write. *)
Lemma refused_recorded m i sequence ack payload :
  len m = vrl_mapping_size layout -> u32 i -> u64 sequence -> ~ may_publish w m i sequence ack payload ->
  exists r, r <> Ok tt /\ WriterRegion_publish (recorded_region w) i sequence ack payload (m, []) = (r, (m, [])).
Proof.
  intros Hl Hi Hu Hno. unfold WriterRegion_publish. srun. cbn [recorded_region rg_mapping rg_layout mp_mem].
  destruct (try_from U32_MAX (len payload)) as [n|] eqn:Hn; cbn [ok_or]; [|eexists; split; [|done]; done].
  destruct (slot_payload_range layout i n) as [range|e|] eqn:Hrange; cbn [layout_err map_err];
    [|eexists; split; [|done]; done..].
  rewrite slot_recorded. pose proof (slot_keeps i m) as Hk. cbn [unrecorded].
  destruct (WriterRegion_slot w i m) as [[bound|e|] ms] eqn:Hslot; cbn in Hk; subst ms;
    [|eexists; split; [|done]; done..].
  rewrite prepare_recorded. pose proof (prepare_keeps bound sequence ack m) as Hp. cbn [unrecorded].
  destruct (prepare_publish own bound sequence ack m) as [[res|e|] mp] eqn:Hprep; cbn in Hp; subst mp; cbn [map_err];
    [|eexists; split; [|done]; done..].
  exfalso. apply Hno. eapply admitted_may; try eassumption. now rewrite Hprep.
Qed.

(** One that is admitted writes the payload, then the length, then the
    sequence. *)
Lemma admitted_recorded m i sequence ack payload :
  len m = vrl_mapping_size layout -> u64 sequence -> may_publish w m i sequence ack payload ->
  WriterRegion_publish (recorded_region w) i sequence ack payload (m, [])
  = (Ok tt, (published w m i sequence payload, publication_writes i sequence payload)).
Proof.
  intros Hl Hu (Hi & Hp & Hg & Hm & Hc). pose proof (len_nonneg payload).
  destruct (geo_payload _ (vo_geometry _ (ro_layout _ Hok))) as [Hpc _].
  destruct (slot_start_bounds w Hok i Hi) as (? & ? & ? & _).
  destruct (stride_facts layout (ro_layout _ Hok)) as (_&_&_&_&_&_&_&?&?&?&_).
  unfold WriterRegion_publish. srun. cbn [recorded_region rg_mapping rg_layout mp_mem].
  rewrite try_from_ok by ulia. cbn [ok_or].
  rewrite (payload_range_start w) by (done || lia). cbn [layout_err map_err fst].
  destruct (slot_route_Some w Hok i Hi) as (route & Hr & _).
  rewrite slot_recorded. cbn [unrecorded]. rewrite (writer_slot_run w Hok own_memory i m route) by done.
  rewrite Hg, Z.eqb_refl, prepare_recorded. cbn [unrecorded].
  destruct (prepare_publish_run w Hok m i sequence ack route) as (r & -> & _ & Hv & Hiff); [done..|].
  destruct (proj2 Hiff) as [v ->].
  { split; [done|]. destruct Hc as [?|(? & ? & ? & route' & a & Hr' & ? & ?)]; [now left|right].
    rewrite Hr in Hr'. injection Hr' as <-. eauto 6. }
  rewrite (Hv v) by done. cbn [map_err copy_in RecordedStores recording].
  rewrite own_copy_in by lia. unfold publish. cbn [pr_capacity pr_header pr_sequence].
  replace (rh_payload_capacity h <? len payload) with false by lia. srun.
  cbn [store RecordedStores recording]. unfold SLOT_PAYLOAD_LEN, SLOT_PUBLISHED_SEQUENCE.
  rewrite own_store by (rewrite ?len_splice; lia). cbn [recording].
  rewrite own_store by (rewrite ?len_splice; lia). done.
Qed.

Lemma inv_begin s i sequence ack payload :
  ring_inv s -> rn_pc s = Idle -> u64 sequence -> observed_ack s ack ->
  may_publish w (rn_memory s) i sequence ack payload ->
  ring_inv {| rn_memory := rn_memory s; rn_acks := rn_acks s;
              rn_pc := Publishing i sequence payload (publication_writes i sequence payload);
              rn_log := rn_log s |}.
Proof.
  intros Hinv Hpc Hu Hack (Hi' & Hp & Hg & Hm & Hc). destruct Hinv. constructor; simpl; try done.
  - intros j q p [= <- <- <-]. split_and!; try done; try lia.
    destruct Hc as [(-> & _)|(_ & _ & _ & route & a & Hr & Ha & ->)]; [now left|right].
    exists route. split; [done|]. specialize (Hack _ Ha). simpl in Hack.
    destruct (ri_cells0 i route Hi' Hr) as (_ & _ & Hle). unfold acked in *. simpl. unfold cell_offset in *. lia.
  - now left.
  - intros j Hj Hz. destruct (ri_slots0 j Hj Hz) as [Hmod Hex]. split; [done|]. intros _.
    apply Hex. rewrite Hpc. done.
Qed.

(** A write inside slot [i], which is being published: the generation and the
    sequence of the slot are kept. *)
Lemma inv_write s i q p pc' m' :
  ring_inv s -> busy (rn_pc s) = Some (i, q, p) -> busy pc' = Some (i, q, p) ->
  len m' = len (rn_memory s) ->
  (forall a b, 0 <= a <= b -> b <= start i \/ start i + rh_slot_stride h <= a ->
     slice m' a b = slice (rn_memory s) a b) ->
  slot_generation m' (start i) = slot_generation (rn_memory s) (start i) ->
  slot_sequence m' (start i) = slot_sequence (rn_memory s) (start i) ->
  pc_progress m' pc' ->
  ring_inv {| rn_memory := m'; rn_acks := rn_acks s; rn_pc := pc'; rn_log := rn_log s |}.
Proof.
  intros Hinv Hb Hb' Hl Hf Hg Hq Hpr. destruct Hinv.
  destruct (ri_busy0 i q p Hb) as (Hi & _).
  assert (Hsame : forall j, 0 <= j < rh_slot_count h -> j <> i -> same_slot (rn_memory s) m' j)
    by (intros; now apply other_slot with i).
  assert (Hseq : forall j, 0 <= j < rh_slot_count h ->
            slot_sequence m' (start j) = slot_sequence (rn_memory s) (start j)).
  { intros j Hj. destruct (decide (j = i)) as [->|Hne]; [done|].
    now apply same_slot_fields; [apply Hsame|]. }
  constructor; cbn [rn_memory rn_acks rn_pc rn_log].
  - lia.
  - intros j Hj. destruct (decide (j = i)) as [->|Hne]; [rewrite Hg; auto|].
    destruct (same_slot_fields _ _ _ (Hsame j Hj Hne) Hj) as [-> _]. auto.
  - intros j route Hj Hr. rewrite Hseq by done. apply (ri_cells0 j route Hj Hr).
  - intros j q' p' Hbj. rewrite Hb' in Hbj. injection Hbj as <- <- <-. rewrite Hseq by done.
    exact (ri_busy0 i q p Hb).
  - done.
  - intros j Hj. rewrite Hseq by done. intros Hz. destruct (ri_slots0 j Hj Hz) as [Hmod Hex].
    split; [done|]. intros Hnb. destruct (decide (j = i)) as [->|Hne]; [exfalso; eapply Hnb; done|].
    destruct Hex as (p' & Hlog & Hh); [intros q' p'; rewrite Hb; congruence|].
    exists p'. split; [done|]. now apply same_slot_fields with (rn_memory s); [apply Hsame|..].
  - intros q' p' Hlog. rewrite Hseq; [exact (ri_log0 q' p' Hlog)|].
    apply Z.mod_pos_bound. lia.
Qed.

Lemma store_frame m off n v m' :
  0 <= off -> 0 <= n -> off + n <= len m ->
  store (E := SlotError) own off n v m = (Ok tt, m') ->
  m' = splice m off (le_bytes (Z.to_nat n) v) /\ len m' = len m /\
  (forall a b, 0 <= a <= b -> b <= off \/ off + n <= a -> slice m' a b = slice m a b).
Proof.
  intros Ho Hn Hl H. rewrite own_store in H by lia. injection H as <-. split_and!; [done|apply len_splice|].
  intros a b Hab Hd. apply slice_splice_disjoint; rewrite ?len_le_bytes; lia.
Qed.

(** Copying the payload, torn or done. *)
Lemma inv_copy s i q p writes m' :
  ring_inv s -> busy (rn_pc s) = Some (i, q, p) -> len m' = len (rn_memory s) ->
  (forall a b, 0 <= a <= b -> b <= start i + 64 \/ start i + 64 + len p <= a ->
     slice m' a b = slice (rn_memory s) a b) ->
  pc_progress m' (Publishing i q p writes) ->
  ring_inv {| rn_memory := m'; rn_acks := rn_acks s; rn_pc := Publishing i q p writes; rn_log := rn_log s |}.
Proof.
  intros Hinv Hb Hl Hf Hpr.
  destruct (ri_busy _ Hinv i q p Hb) as (Hi & _ & _ & Hp & _).
  destruct (slot_start_bounds w Hok i Hi) as (? & ? & ? & _).
  apply inv_write with i q p; try done.
  - intros a b Hab Hd. apply Hf; lia.
  - unfold slot_generation, field. f_equal. apply Hf; lia.
  - unfold slot_sequence, field. f_equal. apply Hf; lia.
Qed.

Lemma inv_len s i q p m' :
  ring_inv s -> busy (rn_pc s) = Some (i, q, p) ->
  slice (rn_memory s) (start i + 64) (start i + 64 + len p) = p ->
  perform_write (length_write i p) (rn_memory s) = (Ok tt, m') ->
  ring_inv {| rn_memory := m'; rn_acks := rn_acks s; rn_pc := Publishing i q p [sequence_write i q];
              rn_log := rn_log s |}.
Proof.
  intros Hinv Hb Hpr Hst. unfold length_write in Hst. cbn [perform_write] in Hst.
  destruct (ri_busy _ Hinv i q p Hb) as (Hi & _ & _ & Hp & _).
  destruct (slot_start_bounds w Hok i Hi) as (? & ? & ? & _). pose proof (ri_len _ Hinv).
  destruct (stride_facts layout (ro_layout _ Hok)) as (_&_&_&_&_&_&_&_&_&?&_).
  unfold SLOT_PAYLOAD_LEN in Hst. apply store_frame in Hst as (Hm & Hl & Hf); [|lia..].
  apply inv_write with i q p; try done.
  - intros a b Hab Hd. apply Hf; lia.
  - unfold slot_generation, field. f_equal. apply Hf; lia.
  - unfold slot_sequence, field. f_equal. apply Hf; lia.
  - pose proof (len_nonneg p). right; right. split; [done|]. unfold slot_holds. split_and!; [|done|rewrite Hf by lia; done].
    destruct (geo_payload _ (vo_geometry _ (ro_layout _ Hok))) as [Hpc' _].
    unfold slot_payload_len, field. rewrite Hm, slice_splice_eq; rewrite ?len_le_bytes; try lia.
    apply le_val_u32. ulia.
Qed.

Lemma inv_sequence s i q p m' :
  ring_inv s -> busy (rn_pc s) = Some (i, q, p) -> slot_holds (rn_memory s) i p ->
  perform_write (sequence_write i q) (rn_memory s) = (Ok tt, m') ->
  ring_inv {| rn_memory := m'; rn_acks := rn_acks s; rn_pc := Idle;
              rn_log := fun x => if x =? q then Some p else rn_log s x |}.
Proof.
  intros Hinv Hb Hpr Hst. unfold sequence_write in Hst. cbn [perform_write] in Hst.
  destruct (ri_busy _ Hinv i q p Hb) as (Hi & Hu & Hmod & Hp & Hlt & _).
  destruct (slot_start_bounds w Hok i Hi) as (? & ? & ? & _). pose proof (ri_len _ Hinv) as Hlen.
  destruct (stride_facts layout (ro_layout _ Hok)) as (_&_&_&_&_&_&_&?&_&?&_).
  unfold SLOT_PUBLISHED_SEQUENCE in Hst. apply store_frame in Hst as (Hm & Hl & Hf); [|lia..].
  pose proof (len_nonneg p).
  assert (Hsame : forall j, 0 <= j < rh_slot_count h -> j <> i -> same_slot (rn_memory s) m' j).
  { intros j Hj Hne. apply other_slot with i; try done. intros a b Hab Hd. apply Hf; lia. }
  assert (Hq : slot_sequence m' (start i) = q).
  { unfold slot_sequence, field. rewrite Hm, slice_splice_eq; rewrite ?len_le_bytes; try lia.
    now apply le_val_u64. }
  assert (Hseq : forall j, 0 <= j < rh_slot_count h -> j <> i ->
            slot_sequence m' (start j) = slot_sequence (rn_memory s) (start j))
    by (intros j Hj Hne; now apply same_slot_fields; [apply Hsame|]).
  destruct Hinv. constructor; cbn [rn_memory rn_acks rn_pc rn_log]; try done.
  - lia.
  - intros j Hj. destruct (decide (j = i)) as [->|Hne].
    + rewrite <- (ri_generation0 i Hi). unfold slot_generation, field. f_equal. apply Hf; lia.
    + destruct (same_slot_fields _ _ _ (Hsame j Hj Hne) Hj) as [-> _]. auto.
  - intros j route Hj Hr. destruct (ri_cells0 j route Hj Hr) as (? & ? & Ha). split_and!; try done.
    destruct (decide (j = i)) as [->|Hne]; [rewrite Hq|rewrite Hseq by done; exact Ha].
    unfold acked in *. simpl. lia.
  - intros j Hj. destruct (decide (j = i)) as [->|Hne].
    + rewrite Hq. intros _. split; [done|]. intros _. rewrite Z.eqb_refl. exists p. split; [done|].
      destruct Hpr as (Hn & ? & Hs). unfold slot_holds. split_and!; [|done|].
      * rewrite <- Hn. unfold slot_payload_len, field. f_equal. apply Hf; lia.
      * rewrite Hf by lia. done.
    + rewrite Hseq by done. intros Hz. destruct (ri_slots0 j Hj Hz) as [Hmj Hex]. split; [done|].
      intros _. destruct Hex as (p' & Hlog & Hh); [intros q' p'; rewrite Hb; congruence|].
      exists p'. split; [|now apply same_slot_fields with (rn_memory s); [apply Hsame|..]].
      destruct (Z.eqb_spec (slot_sequence (rn_memory s) (start j)) q) as [He|]; [|done]. congruence.
  - intros q' p' Hlog. assert (Hmb : 0 <= (q' - 1) mod rh_slot_count h < rh_slot_count h)
      by (apply Z.mod_pos_bound; lia).
    destruct (Z.eqb_spec q' q) as [->|Hne]; [rewrite Hmod, Hq; lia|].
    specialize (ri_log0 q' p' Hlog). destruct (decide ((q' - 1) mod rh_slot_count h = i)) as [Hi'|Hi'].
    + rewrite Hi' in *. lia.
    + rewrite Hseq by done. done.
Qed.

Lemma slot_route_In i route :
  slot_route w i = Some route ->
  route ∈ rsl_routes (rg_topology w) /\ ar_target route = rh_role h /\ ar_slot_index route = i.
Proof. apply find_route_Some. Qed.

(** The cells of different slots are different records. *)
Lemma cells_apart i j route route' :
  slot_route w i = Some route -> slot_route w j = Some route' -> i <> j ->
  ar_owner route = ar_owner route' -> ar_cell_index route <> ar_cell_index route'.
Proof.
  intros (Hin & _ & Hi)%slot_route_In (Hin' & _ & Hj)%slot_route_In Hne Ho Hc. apply Hne.
  rewrite <- Hi, <- Hj. f_equal.
  apply list_elem_of_lookup in Hin as [x Hx], Hin' as [y Hy].
  enough (x = y) as <- by congruence.
  eapply (NoDup_lookup (cell_key <$> rsl_routes (rg_topology w)));
    [apply tw_cells, ro_topology, Hok|rewrite list_lookup_fmap, Hx; done|].
  rewrite list_lookup_fmap, Hy. unfold cell_key. simpl. congruence.
Qed.

Lemma inv_ack s i route obs r m' :
  ring_inv s -> slot_route w i = Some route -> 0 <= i < rh_slot_count h -> u64 (so_sequence obs) ->
  so_sequence obs <= slot_sequence (rn_memory s) (start i) ->
  acknowledge own (cell_capability route) obs (rn_acks s (ar_owner route)) = (r, m') ->
  ring_inv {| rn_memory := rn_memory s;
              rn_acks := fun role => if role =? ar_owner route then m' else rn_acks s role;
              rn_pc := rn_pc s; rn_log := rn_log s |}.
Proof.
  intros Hinv Hr Hi Hu Hle Hack.
  destruct (ri_cells _ Hinv i route Hi Hr) as (Hci & Hcl & Hca).
  destruct (acknowledge_cases (cell_capability route) obs (rn_acks s (ar_owner route)))
    as (r' & m1 & Hrun & _ & _ & Hv & Hmono & Hlm & Hf); [simpl; unfold cell_offset; lia|done|done|].
  rewrite Hack in Hrun. injection Hrun as <- <-. simpl in Hv, Hmono, Hf.
  set (s' := {| rn_memory := rn_memory s;
                rn_acks := fun role => if role =? ar_owner route then m' else rn_acks s role;
                rn_pc := rn_pc s; rn_log := rn_log s |}).
  assert (Hnew : acked s route <= acked s' route <= slot_sequence (rn_memory s) (start i)).
  { unfold acked in *. simpl. rewrite Z.eqb_refl. destruct r; rewrite Hv in *; lia. }
  assert (Hother : forall j route', slot_route w j = Some route' -> j <> i ->
            0 <= ar_cell_index route' -> acked s' route' = acked s route').
  { intros j route' Hr' Hne Hj0. unfold acked. simpl.
    destruct (Z.eqb_spec (ar_owner route') (ar_owner route)) as [Ho|]; [|done].
    pose proof (cells_apart j i route' route Hr' Hr Hne Ho). rewrite Ho.
    unfold cell_sequence, field. f_equal. unfold cell_offset in *. apply Hf; lia. }
  destruct Hinv. constructor; try done.
  - intros j route' Hj Hr'. destruct (ri_cells0 j route' Hj Hr') as (? & Hlj & Haj). split; [done|].
    split.
    + simpl. destruct (Z.eqb_spec (ar_owner route') (ar_owner route)) as [Ho|]; [|done].
      rewrite Hlm, <- Ho. done.
    + destruct (decide (j = i)) as [->|Hne]; [|now rewrite Hother with j route'].
      rewrite Hr in Hr'. injection Hr' as <-. simpl rn_memory. lia.
  - intros j q p Hb. destruct (ri_busy0 j q p Hb) as (Hj & ? & ? & ? & ? & Hc). split_and!; try done; try lia.
    destruct Hc as [?|(route' & Hr' & Ha)]; [now left|right]. exists route'. split; [done|].
    simpl rn_memory. destruct (decide (j = i)) as [->|Hne].
    + rewrite Hr in Hr'. injection Hr' as <-. lia.
    + rewrite Hother with j route'; try done. apply (ri_cells0 j route' Hj Hr').
Qed.

(** The next write of a publication, by how far it has come. *)
Lemma inv_perform s i q p x writes m' :
  ring_inv s -> rn_pc s = Publishing i q p (x :: writes) -> perform_write x (rn_memory s) = (Ok tt, m') ->
  ring_inv (left_with s m' i q p writes).
Proof.
  intros Hinv Hpc Hst. assert (Hb : busy (rn_pc s) = Some (i, q, p)) by now rewrite Hpc.
  destruct (ri_busy _ Hinv i q p Hb) as (Hi & _ & _ & Hp & _).
  destruct (slot_start_bounds w Hok i Hi) as (? & ? & ? & _). pose proof (len_nonneg p).
  pose proof (ri_len _ Hinv). pose proof (ri_progress _ Hinv) as Hpr. rewrite Hpc in Hpr.
  destruct Hpr as [[= -> ->]|[([= -> ->] & Hs)|([= -> ->] & Hh)]].
  - cbn [perform_write] in Hst. rewrite own_copy_in in Hst by lia. injection Hst as <-.
    apply inv_copy; try done; [apply len_splice| |].
    + intros a b Hab Hd. apply slice_splice_disjoint; done || lia.
    + right; left. split; [done|]. apply slice_splice_eq; lia.
  - now apply inv_len.
  - now apply inv_sequence with i.
Qed.

(** A publication is admitted or not: the code decides. *)
Lemma may_or_not m i q ack p :
  len m = vrl_mapping_size layout -> u32 i -> u64 q -> may_publish w m i q ack p \/ ~ may_publish w m i q ack p.
Proof.
  intros Hl Hi Hu. destruct (publish_cases w Hok own_memory m i q ack p Hl Hi Hu) as (r & m' & _ & _ & Hiff & _).
  destruct r as [[]|e|]; [left; now apply Hiff|right..]; intros Hm; now apply Hiff in Hm.
Qed.

Lemma refused_keeps m i q ack p r m' ws :
  len m = vrl_mapping_size layout -> u32 i -> u64 q ->
  WriterRegion_publish (recorded_region w) i q ack p (m, []) = (r, (m', ws)) -> r <> Ok tt -> m' = m.
Proof.
  intros Hl Hi Hu Hrun Hr. destruct (may_or_not m i q ack p Hl Hi Hu) as [Hmay|Hno].
  - rewrite admitted_recorded in Hrun by done. congruence.
  - destruct (refused_recorded m i q ack p Hl Hi Hu Hno) as (r' & _ & Hrun'). congruence.
Qed.

(** The invariant holds in every reachable state. *)
Lemma step_inv s s' : ring_inv s -> step s s' -> ring_inv s'.
Proof.
  intros Hinv Hstep. pose proof (ri_len _ Hinv) as Hl.
  destruct Hstep as [s i q ack p m' ws Hpc Hi Hu Hack Hrun|s i q ack p r m' ws Hpc Hi Hu Hrun Hr
                    |s i q p off src ws m' Hpc Hlm Hf|s i q p x ws m' Hpc Hst|].
  - destruct (may_or_not (rn_memory s) i q ack p Hl Hi Hu) as [Hmay|Hno].
    + rewrite admitted_recorded in Hrun by done. injection Hrun as <- <-. now apply inv_begin with ack.
    + destruct (refused_recorded _ i q ack p Hl Hi Hu Hno) as (r & Hr & Hrun'). congruence.
  - rewrite (refused_keeps _ _ _ _ _ _ _ _ Hl Hi Hu Hrun Hr), <- Hpc. now destruct s.
  - assert (Hb : busy (rn_pc s) = Some (i, q, p)) by now rewrite Hpc.
    pose proof (ri_progress _ Hinv) as Hpr. rewrite Hpc in Hpr |- *. 
    destruct Hpr as [[= -> -> ->]|[([=] & _)|([=] & _)]]. apply inv_copy; try done. now left.
  - now apply inv_perform with x.
  - eapply inv_ack; eassumption.
Qed.

(** ** An unacknowledged slot is stable *)

Definition write_start (x : write) : Z := match x with Stored off _ _ | Copied off _ => off end.
Definition write_end (x : write) : Z := match x with Stored off n _ => off + n | Copied off s => off + len s end.

(** A write changes its own range only. *)
Lemma write_frame x m m' :
  0 <= write_start x <= write_end x -> write_end x <= len m -> perform_write x m = (Ok tt, m') ->
  forall a b, 0 <= a <= b -> b <= write_start x \/ write_end x <= a -> slice m' a b = slice m a b.
Proof.
  destruct x as [off n v|off s]; cbn [write_start write_end perform_write]; intros Hx Hm Hst a b Hab Hd.
  - apply store_frame in Hst as (_ & _ & Hf); [|lia..]. apply Hf; lia.
  - rewrite own_copy_in in Hst by lia. injection Hst as <-. apply slice_splice_disjoint; done || lia.
Qed.

Lemma step_stable s s' i route :
  ring_inv s -> step s s' -> 0 <= i < rh_slot_count h -> slot_route w i = Some route ->
  acked s route < slot_sequence (rn_memory s) (start i) ->
  same_slot (rn_memory s) (rn_memory s') i.
Proof.
  intros Hinv Hstep Hi Hr Hlt. pose proof (ri_len _ Hinv) as Hl.
  destruct (ri_cells _ Hinv i route Hi Hr) as (Hci & Hcl & _).
  destruct (stride_facts layout (ro_layout _ Hok)) as (_&_&_&_&_&_&_&_&_&?&_).
  assert (Hnn : 0 <= acked s route).
  { unfold acked, cell_sequence, cell_offset in *.
    pose proof (field_bound (rn_acks s (ar_owner route)) (128 + ar_cell_index route * 64) 8). lia. }
  assert (Hne : forall j q p, busy (rn_pc s) = Some (j, q, p) -> j <> i).
  { intros j q p Hb ->. destruct (ri_busy _ Hinv i q p Hb) as (_ & _ & _ & _ & _ & [?|(route' & Hr' & ?)]);
      [lia|]. rewrite Hr in Hr'. injection Hr' as <-. lia. }
  assert (Hconf : forall j q p m', busy (rn_pc s) = Some (j, q, p) ->
            (forall a b, 0 <= a <= b -> b <= start j \/ start j + rh_slot_stride h <= a ->
               slice m' a b = slice (rn_memory s) a b) -> same_slot (rn_memory s) m' i).
  { intros j q p m' Hb Hf. destruct (ri_busy _ Hinv j q p Hb) as (Hj & _).
    apply other_slot with j; [done|done|exact (Hne j q p Hb)|done]. }
  assert (Hpend : forall j q p x ws, rn_pc s = Publishing j q p (x :: ws) ->
            start j <= write_start x /\ write_end x <= start j + rh_slot_stride h /\
            write_start x <= write_end x <= len (rn_memory s)).
  { intros j q p x ws Hpc. assert (Hb : busy (rn_pc s) = Some (j, q, p)) by now rewrite Hpc.
    destruct (ri_busy _ Hinv j q p Hb) as (Hj & _ & _ & Hp & _).
    destruct (slot_start_bounds w Hok j Hj) as (? & ? & ? & _). pose proof (len_nonneg p).
    pose proof (ri_progress _ Hinv) as Hpr. rewrite Hpc in Hpr.
    destruct Hpr as [[= -> ->]|[([= -> ->] & _)|([= -> ->] & _)]];
      unfold length_write, sequence_write, SLOT_PAYLOAD_LEN, SLOT_PUBLISHED_SEQUENCE; cbn [write_start write_end]; lia. }
  destruct Hstep as [s j q ack p m' ws Hpc Hj Hu _ Hrun|s j q ack p r m' ws Hpc Hj Hu Hrun Hne'
                    |s j q p off src ws m' Hpc _ Hf|s j q p x ws m' Hpc Hst|]; simpl; try done.
  - now destruct ws.
  - rewrite (refused_keeps _ _ _ _ _ _ _ _ Hl Hj Hu Hrun Hne'). done.
  - destruct (Hpend _ _ _ _ _ Hpc) as (? & ? & _). cbn in *. apply (Hconf j q p); [now rewrite Hpc|].
    intros a b Hab Hd. apply Hf; lia.
  - destruct (Hpend _ _ _ _ _ Hpc) as (? & ? & ?). replace (rn_memory (left_with s m' j q p ws)) with m' by now destruct ws.
    apply (Hconf j q p); [now rewrite Hpc|]. intros a b Hab Hd.
    destruct (slot_start_bounds w Hok j) as (? & _); [now apply (ri_busy _ Hinv j q p); rewrite Hpc|].
    apply (write_frame x (rn_memory s)); done || lia.
Qed.

End Ring.

(** ** Executions *)

(** A freshly validated producer mapping and zeroed cells. *)
Definition initial (w : Region OwnMapping) (s : ring) : Prop :=
  rn_pc s = Idle /\ (forall q, rn_log s q = None) /\
  len (rn_memory s) = vrl_mapping_size (rg_layout w) /\
  quiescent (vrl_header (rg_layout w)) (rn_memory s) /\
  (forall i route, slot_route w i = Some route ->
     cell_offset route + 64 <= len (rn_acks s (ar_owner route)) /\ acked s route = 0).

(** Time passes with or without a step. *)
Definition execution (w : Region OwnMapping) (ex : nat -> ring) : Prop :=
  initial w (ex 0%nat) /\ forall k, ex (S k) = ex k \/ step w (ex k) (ex (S k)).

Lemma initial_inv w s : region_ok w -> initial w s -> ring_inv w s.
Proof.
  intros Hok (Hpc & Hlog & Hlen & Hq & Hcells).
  pose proof (vo_geometry _ (ro_layout _ Hok)) as Hg.
  destruct (geometry_numbers _ Hg) as (_&_&_&_&_&_&Hgen).
  assert (Hz : forall i, 0 <= i < rh_slot_count (vrl_header (rg_layout w)) ->
            slot_generation (rn_memory s) (slot_start w i) = rh_generation (vrl_header (rg_layout w)) /\
            slot_sequence (rn_memory s) (slot_start w i) = 0).
  { intros i Hi. pose proof (q_slots _ _ Hq i Hi) as Hf. unfold slot_fresh in Hf.
    fold (slot_start w i) in Hf. destruct (slot_start_bounds w Hok i Hi) as (? & ? & ? & _).
    destruct (stride_facts _ (ro_layout _ Hok)) as (_&_&_&_&_&_&_&_&_&?&_).
    assert (Hsl : forall a b, 0 <= a <= b -> b <= 64 ->
              slice (rn_memory s) (slot_start w i + a) (slot_start w i + b)
              = slice (le_bytes 8 (rh_generation (vrl_header (rg_layout w))) ++ zeros 56) a b).
    { intros a b Hab Hb. rewrite <- Hf, slice_slice by lia. done. }
    unfold slot_generation, slot_sequence, field. split.
    - pose proof (Hsl 0 8) as Hs0. rewrite Z.add_0_r in Hs0. rewrite Hs0 by lia.
      rewrite (slice_app_take _ _ 8) by (apply len_le_bytes || done). now apply le_val_u64.
    - replace (slot_start w i + 16 + 8) with (slot_start w i + 24) by lia. rewrite (Hsl 16 24) by lia.
      rewrite (slice_app_skip _ _ 8 16 24 8 16) by (apply len_le_bytes || lia || done).
      rewrite slice_zeros by lia. apply le_val_zeros. }
  constructor; try done.
  - intros i Hi. now apply Hz.
  - intros i route Hi Hr. destruct (Hcells i route Hr) as [Hl Ha]. destruct (Hz i Hi) as [_ ->].
    pose proof (slot_route_In w i route Hr) as (Hin & _).
    pose proof (tw_routes _ (ro_topology _ Hok)) as HF. rewrite Forall_forall in HF.
    destruct (HF _ Hin) as [_ [_ ?]]. lia.
  - intros i q p. rewrite Hpc. done.
  - rewrite Hpc. done.
  - intros i Hi Hne. destruct (Hz i Hi) as [_ H0]. congruence.
  - intros q p. rewrite Hlog. done.
Qed.

Section Delivery.
Context (w : Region OwnMapping) (ex : nat -> ring).
Hypothesis Hok : region_ok w.
Hypothesis Hex : execution w ex.

#[local] Abbreviation h := (vrl_header (rg_layout w)).

Lemma execution_inv k : ring_inv w (ex k).
Proof.
  destruct Hex as [H0 Hs]. induction k as [|k IH]; [now apply initial_inv|].
  destruct (Hs k) as [->|Hst]; [done|]. now apply step_inv with (ex k).
Qed.

Lemma execution_stable i route t n :
  0 <= i < rh_slot_count h -> slot_route w i = Some route ->
  acked (ex t) route < slot_sequence (rn_memory (ex t)) (slot_start w i) ->
  (forall k, (t <= k <= t + n)%nat -> acked (ex k) route = acked (ex t) route) ->
  forall k, (t <= k <= t + n)%nat -> same_slot w (rn_memory (ex t)) (rn_memory (ex k)) i.
Proof.
  intros Hi Hr Hlt Hack k Hk. destruct Hk as [Htk Hkn]. induction Htk as [|k Htk IH]; [done|].
  assert (Hs : same_slot w (rn_memory (ex t)) (rn_memory (ex k)) i) by (apply IH; lia).
  destruct (proj2 Hex k) as [->|Hst]; [done|].
  destruct (same_slot_fields w Hok _ _ _ Hs Hi) as (_ & Hq & _).
  unfold same_slot in *. rewrite <- Hs. apply (step_stable w Hok (ex k) (ex (S k)) i route); try done.
  - apply execution_inv.
  - rewrite Hq, Hack by lia. done.
Qed.

(** What was published under a sequence is never replaced. *)
Lemma log_write_once t q p :
  rn_log (ex t) q = Some p -> forall k, (t <= k)%nat -> rn_log (ex k) q = Some p.
Proof.
  intros Hlog k Htk. induction Htk as [|k Htk IH]; [done|].
  destruct (proj2 Hex k) as [->|Hst]; [done|]. pose proof (execution_inv k) as Hinv.
  pose proof (ri_len w _ Hinv) as Hl.
  destruct Hst as [s i q' ack p' m' ws Hpc Hi Hu _ Hrun| | |s i q' p' x ws m' Hpc Hst|]; try done.
  - destruct (may_or_not w Hok (rn_memory s) i q' ack p' Hl Hi Hu) as [Hmay|Hno].
    + rewrite (admitted_recorded w Hok) in Hrun by done. now injection Hrun as <- <-.
    + destruct (refused_recorded w Hok _ i q' ack p' Hl Hi Hu Hno) as (r & Hr & Hrun'). congruence.
  - destruct ws; [|done]. simpl. destruct (Z.eqb_spec q q') as [->|]; [|done]. exfalso.
    destruct (ri_busy w _ Hinv i q' p') as (_ & _ & Hm & _ & Hlt & _); [now rewrite Hpc|].
    pose proof (ri_log w _ Hinv q' p IH) as Hle. rewrite Hm in Hle. lia.
Qed.

End Delivery.

(** C1: End-to-end delivery over shared memory. In every interleaving of the
    producer's publications with acknowledgements, if the publication [n] of
    slot [i] is current and not yet acknowledged when a reader starts
    [copy_payload], and the reader does not acknowledge the slot before the
    copy is over, then the copy succeeds and returns exactly the payload that
    was published under [n], however many other publications are in progress;
    and no later publication ever reuses that sequence. *)
Theorem ring_delivery {AL : Allocator} (w : Region OwnMapping) (reader : Region history) ex t i route :
  region_ok w -> execution w ex ->
  region_ok reader -> rg_layout reader = rg_layout w ->
  mp_mem (rg_mapping reader) = (fun k => rn_memory (ex k)) ->
  0 <= i < rh_slot_count (vrl_header (rg_layout w)) -> slot_route w i = Some route ->
  let n := slot_sequence (rn_memory (ex t)) (slot_start w i) in
  acked (ex t) route < n ->
  (forall k, (t <= k <= t + 7 + Z.to_nat (rh_payload_capacity (vrl_header (rg_layout w))))%nat ->
     acked (ex k) route = acked (ex t) route) ->
  (forall bytes, 0 <= bytes <= rh_payload_capacity (vrl_header (rg_layout w)) ->
     try_reserve_exact bytes = true) ->
  exists payload t',
    rn_log (ex t) n = Some payload /\ copy_payload reader i n t = (Ok payload, t') /\
    (forall k, (t <= k)%nat -> rn_log (ex k) n = Some payload).
Proof.
  intros Hok Hex Hrd Hlay Hmem Hi Hr n Hlt Hack Hal.
  assert (Hinv : forall k, ring_inv w (ex k)) by (intros; now apply execution_inv).
  assert (Hstart : slot_start reader i = slot_start w i) by (unfold slot_start; now rewrite Hlay).
  destruct (ri_cells _ _ (Hinv t) i route Hi Hr) as (Hc0 & Hcl & _).
  assert (Hn0 : n <> 0).
  { pose proof (field_bound (rn_acks (ex t) (ar_owner route)) (cell_offset route) 8) as Hb.
    unfold acked, cell_sequence, cell_offset in *. lia. }
  destruct (ri_slots _ _ (Hinv t) i Hi Hn0) as [Hmod Hp].
  destruct Hp as (p & Hlog & (Hpl & Hpc & Hps)).
  { intros q p Hb. destruct (ri_busy _ _ (Hinv t) i q p Hb) as (_ & _ & _ & _ & _ & [?|(route' & Hr' & Ha)]);
      [done|]. rewrite Hr in Hr'. injection Hr' as <-. unfold n in Hlt. lia. }
  exists p. fold n in Hlog, Hmod. pose proof (len_nonneg p).
  assert (Hm : mapped reader) by (intros k; rewrite Hmem, Hlay; apply (ri_len _ _ (Hinv k))).
  destruct (geo_slot_count _ (vo_geometry _ (ro_layout _ Hok))) as [Hsc _].
  destruct (slot_start_bounds w Hok i Hi) as (? & ? & ? & _).
  destruct (copy_payload_cases reader Hrd Hm t i n) as (r & t' & Hrun & _ & _ & Hc); [ulia|].
  exists t'. split; [done|]. split; [|now apply log_write_once with w].
  rewrite Hrun. f_equal. apply Hc; [|apply Hal; lia].
  apply copies_stable with (rn_memory (ex t)); rewrite ?Hlay, ?Hstart; try done.
  - apply (ri_len _ _ (Hinv t)).
  - intros k Hk. rewrite Hmem.
    assert (Hs : same_slot w (rn_memory (ex t)) (rn_memory (ex k)) i).
    { apply (execution_stable w ex Hok Hex i route t
               (7 + Z.to_nat (rh_payload_capacity (vrl_header (rg_layout w))))); try done.
      - intros k' Hk'. apply Hack. lia.
      - unfold len in *. lia. }
    pose proof (same_slot_slice w Hok _ _ i 0 (64 + len p) Hs Hi) as Hsl.
    rewrite Z.add_0_r, Z.add_assoc in Hsl. apply Hsl; lia.
  - apply (ri_generation _ _ (Hinv t)). done.
Qed.

(** ** Witnesses *)

Definition sample_acks : RoleId -> bytes := fun _ => zeros 512.
Definition sample_copied : bytes := splice sample_mapping 256 sample_payload.
Definition sample_len_stored : bytes := splice sample_copied 200 (le_bytes 4 3).
Definition sample_state (m : bytes) (pc : writer_pc) (log : Z -> option bytes) : ring :=
  {| rn_memory := m; rn_acks := sample_acks; rn_pc := pc; rn_log := log |}.

(** The producer publishes sequence 1 in slot 0, one write at a time. *)
Definition sample_writes : list write := [Copied 256 sample_payload; Stored 200 4 3; Stored 208 8 1].
Definition sample_execution (k : nat) : ring :=
  match k with
  | 0%nat => sample_state sample_mapping Idle (fun _ => None)
  | 1%nat => sample_state sample_mapping (Publishing 0 1 sample_payload sample_writes) (fun _ => None)
  | 2%nat => sample_state sample_copied (Publishing 0 1 sample_payload (drop 1 sample_writes)) (fun _ => None)
  | 3%nat => sample_state sample_len_stored (Publishing 0 1 sample_payload (drop 2 sample_writes)) (fun _ => None)
  | _ => sample_state sample_published Idle (fun q => if q =? 1 then Some sample_payload else None)
  end.

Lemma sample_quiescent : quiescent (vrl_header sample_validated) sample_mapping.
Proof.
  destruct (validate_sound sample_mapping sample_expectations sample_topology) with sample_validated
    as (hd & Ha & Hv); [vm_compute; split; discriminate|vm_compute; reflexivity|].
  destruct Ha as (_ & _ & Hq & _). now rewrite Hv.
Qed.

Lemma sample_cells :
  Forall (fun route => cell_offset route + 64 <= 512 /\
                       acked (sample_state sample_mapping Idle (fun _ => None)) route = 0)
         (rsl_routes sample_topology).
Proof. repeat (constructor; [split; vm_compute; congruence|]). constructor. Qed.

Lemma sample_initial : initial sample_writer (sample_execution 0).
Proof.
  split_and!; [done|done|vm_compute; reflexivity|exact sample_quiescent|].
  intros i route Hr. apply slot_route_In in Hr as (Hin & _).
  pose proof sample_cells as HF. rewrite Forall_forall in HF. exact (HF route Hin).
Qed.

Lemma sample_executes : execution sample_writer sample_execution.
Proof.
  split; [exact sample_initial|]. intros k.
  destruct k as [|[|[|[|k]]]]; [right..|now left].
  - apply (step_begin sample_writer (sample_execution 0) 0 1 None sample_payload sample_published sample_writes);
      [done|ulia|ulia|done|]. vm_compute. reflexivity.
  - apply (step_write sample_writer (sample_execution 1) 0 1 sample_payload (Copied 256 sample_payload)
             (drop 1 sample_writes) sample_copied); [done|].
    vm_compute. reflexivity.
  - apply (step_write sample_writer (sample_execution 2) 0 1 sample_payload (Stored 200 4 3)
             (drop 2 sample_writes) sample_len_stored); [done|].
    vm_compute. reflexivity.
  - change (sample_execution 4)
      with (left_with (sample_execution 3) sample_published 0 1 sample_payload []).
    apply (step_write sample_writer (sample_execution 3) 0 1 sample_payload (Stored 208 8 1)); [done|].
    vm_compute. reflexivity.
Qed.

Definition sample_reader : Region history :=
  {| rg_mapping := {| mp_base := 8192; mp_len := vrl_mapping_size sample_validated;
                      mp_mem := fun k => rn_memory (sample_execution k) |};
     rg_layout := sample_validated; rg_topology := sample_topology |}.

Lemma sample_reader_ok : region_ok sample_reader.
Proof. constructor; try done; [apply sample_validated_ok|apply sample_topology_wf]. Qed.

Lemma sample_reader_mapped : mapped sample_reader.
Proof. intros k. do 6 (destruct k as [|k]; [vm_compute; reflexivity|]). vm_compute. reflexivity. Qed.

Lemma ring_delivery_witness :
  exists t', copy_payload (AL := unlimited) sample_reader 0 1 5%nat = (Ok sample_payload, t').
Proof.
  destruct (ring_delivery (AL := unlimited) sample_writer sample_reader sample_execution 5 0
              {| ar_owner := 2; ar_target := 1; ar_slot_index := 0; ar_cell_index := 1 |})
    as (p & t' & Hlog & Hcopy & _).
  - apply sample_writer_ok.
  - apply sample_executes.
  - apply sample_reader_ok.
  - reflexivity.
  - reflexivity.
  - vm_compute. split; congruence.
  - vm_compute. reflexivity.
  - vm_compute. reflexivity.
  - intros k Hk. do 5 (destruct k as [|k]; [lia|]). reflexivity.
  - intros. reflexivity.
  - exists t'. injection Hlog as Hp. rewrite Hp. exact Hcopy.
Defined.

Lemma copy_payload_hostile_witness :
  exists r t', copy_payload (AL := unlimited) sample_reader 0 1 3%nat = (r, t') /\ r <> Panic.
Proof.
  destruct (copy_payload_hostile (AL := unlimited) sample_reader 3 0 1) as (r & t' & H & Hnp & _);
    [apply sample_reader_ok|apply sample_reader_mapped|ulia|].
  exists r, t'. split; assumption.
Defined.

Lemma copy_payload_into_agrees_witness :
  exists r t' d', copy_payload_into sample_reader 0 1 (5%nat, zeros 16) = (r, (t', d')) /\ len d' = 16.
Proof.
  destruct (copy_payload_into_agrees sample_reader 5 0 1 (zeros 16))
    as (r & t' & d' & H & _ & _ & _ & Hl & _);
    [apply sample_reader_ok|apply sample_reader_mapped|ulia|].
  exists r, t', d'. split; assumption.
Defined.
