(* ===== verification/Limits.v ===== *)
(** * Limits: finite session limits and native facts ([native-ipc/src/session.rs])

    [SessionLimits] with its validation and negotiation, and
    [AtomicCapabilities]. *)

From S2P Require Import Prelude.

(** ** Hard maxima *)

Definition HARD_MAX_REGIONS_PER_BATCH : Z := 16.
Definition HARD_MAX_BOOTSTRAP_PAYLOAD_BYTES : Z := 16 * 1024 * 1024.
Definition HARD_MAX_CONTROL_PAYLOAD_BYTES : Z := 16 * 1024 * 1024.
Definition HARD_MAX_REGION_BYTES : Z := 2 ^ 40.
Definition HARD_MAX_BATCH_BYTES : Z := 2 ^ 42.
Definition HARD_MAX_ACTIVE_REGIONS : Z := 2 ^ 20.
Definition HARD_MAX_ACTIVE_BYTES : Z := 2 ^ 44.
Definition HARD_MAX_TRANSACTIONS : Z := 2 ^ 48.

Record SessionLimits := {
  sl_max_regions_per_batch : Z;
  sl_max_region_bytes : Z;
  sl_max_batch_bytes : Z;
  sl_max_active_regions : Z;
  sl_max_active_bytes : Z;
  sl_max_transactions : Z;
  sl_max_bootstrap_payload_bytes : Z;
  sl_max_control_payload_bytes : Z
}.

#[export] Instance SessionLimits_eq_dec : EqDecision SessionLimits.
Proof. solve_decision. Defined.

Definition SessionLimits_default : SessionLimits := {|
  sl_max_regions_per_batch := 16;
  sl_max_region_bytes := 256 * 1024 * 1024;
  sl_max_batch_bytes := 1024 * 1024 * 1024;
  sl_max_active_regions := 4096;
  sl_max_active_bytes := 8 * 1024 * 1024 * 1024;
  sl_max_transactions := 2 ^ 32;
  sl_max_bootstrap_payload_bytes := 1024 * 1024;
  sl_max_control_payload_bytes := 1024 * 1024 |}.

Inductive NegotiationError :=
| NegotiationError_ZeroLimit
| NegotiationError_AboveHardMaximum
| NegotiationError_NativeSizeNarrowing
| NegotiationError_AtomicUnsupported
| NegotiationError_InvalidDeadline.

Definition validate_for_native_max (self : SessionLimits) (native_usize_max : Z)
  : res NegotiationError SessionLimits :=
  if (sl_max_regions_per_batch self =? 0)
     || (sl_max_region_bytes self =? 0)
     || (sl_max_batch_bytes self =? 0)
     || (sl_max_active_regions self =? 0)
     || (sl_max_active_bytes self =? 0)
     || (sl_max_transactions self =? 0)
     || (sl_max_bootstrap_payload_bytes self =? 0)
     || (sl_max_control_payload_bytes self =? 0)
  then Err NegotiationError_ZeroLimit else
  if (HARD_MAX_REGIONS_PER_BATCH <? sl_max_regions_per_batch self)
     || (HARD_MAX_REGION_BYTES <? sl_max_region_bytes self)
     || (HARD_MAX_BATCH_BYTES <? sl_max_batch_bytes self)
     || (HARD_MAX_ACTIVE_REGIONS <? sl_max_active_regions self)
     || (HARD_MAX_ACTIVE_BYTES <? sl_max_active_bytes self)
     || (HARD_MAX_TRANSACTIONS <? sl_max_transactions self)
     || (HARD_MAX_BOOTSTRAP_PAYLOAD_BYTES <? sl_max_bootstrap_payload_bytes self)
     || (HARD_MAX_CONTROL_PAYLOAD_BYTES <? sl_max_control_payload_bytes self)
  then Err NegotiationError_AboveHardMaximum else
  if (native_usize_max <? sl_max_region_bytes self)
     || (native_usize_max <? sl_max_batch_bytes self)
     || (native_usize_max <? sl_max_active_bytes self)
     || (native_usize_max <? sl_max_bootstrap_payload_bytes self)
     || (native_usize_max <? sl_max_control_payload_bytes self)
  then Err NegotiationError_NativeSizeNarrowing else
  Ok self.

Definition SessionLimits_validate (self : SessionLimits) : res NegotiationError SessionLimits :=
  validate_for_native_max self USIZE_MAX.

Definition SessionLimits_negotiate (local peer : SessionLimits)
  : res NegotiationError SessionLimits :=
  let? local := SessionLimits_validate local in
  let? peer := SessionLimits_validate peer in
  SessionLimits_validate {|
    sl_max_regions_per_batch :=
      Z.min (sl_max_regions_per_batch local) (sl_max_regions_per_batch peer);
    sl_max_region_bytes := Z.min (sl_max_region_bytes local) (sl_max_region_bytes peer);
    sl_max_batch_bytes := Z.min (sl_max_batch_bytes local) (sl_max_batch_bytes peer);
    sl_max_active_regions := Z.min (sl_max_active_regions local) (sl_max_active_regions peer);
    sl_max_active_bytes := Z.min (sl_max_active_bytes local) (sl_max_active_bytes peer);
    sl_max_transactions := Z.min (sl_max_transactions local) (sl_max_transactions peer);
    sl_max_bootstrap_payload_bytes :=
      Z.min (sl_max_bootstrap_payload_bytes local) (sl_max_bootstrap_payload_bytes peer);
    sl_max_control_payload_bytes :=
      Z.min (sl_max_control_payload_bytes local) (sl_max_control_payload_bytes peer) |}.

(** ** Atomic and alignment facts *)

Record AtomicCapabilities := {
  ac_atomic_u32_lock_free : bool;
  ac_atomic_u32_alignment : Z;
  ac_atomic_u64_lock_free : bool;
  ac_atomic_u64_alignment : Z;
  ac_page_alignment : Z;
  ac_cache_line_alignment : Z
}.

(** [usize::is_power_of_two]: exactly one bit is set. *)
Definition is_power_of_two (z : Z) : bool := (0 <? z) && (Z.land z (z - 1) =? 0).

(** [align_of::<AtomicU32>()] and [align_of::<AtomicU64>()] on 64-bit targets. *)
Definition ATOMIC_U32_ALIGN : Z := 4.
Definition ATOMIC_U64_ALIGN : Z := 8.

Definition from_verified_native (page_alignment cache_line_alignment : Z)
  (atomic_u32_lock_free atomic_u64_lock_free : bool) : res NegotiationError AtomicCapabilities :=
  if negb (is_power_of_two page_alignment)
     || negb (is_power_of_two cache_line_alignment)
     || (page_alignment <? Z.max ATOMIC_U32_ALIGN ATOMIC_U64_ALIGN)
     || (cache_line_alignment <? Z.max ATOMIC_U32_ALIGN ATOMIC_U64_ALIGN)
  then Err NegotiationError_AtomicUnsupported
  else Ok {| ac_atomic_u32_lock_free := atomic_u32_lock_free;
             ac_atomic_u32_alignment := ATOMIC_U32_ALIGN;
             ac_atomic_u64_lock_free := atomic_u64_lock_free;
             ac_atomic_u64_alignment := ATOMIC_U64_ALIGN;
             ac_page_alignment := page_alignment;
             ac_cache_line_alignment := cache_line_alignment |}.

Definition AtomicCapabilities_require (self : AtomicCapabilities) (u32_required u64_required : bool)
  : res NegotiationError AtomicCapabilities :=
  if (u32_required && negb (ac_atomic_u32_lock_free self))
     || (u64_required && negb (ac_atomic_u64_lock_free self))
  then Err NegotiationError_AtomicUnsupported
  else Ok self.

(** ** Limits as a lattice *)

Definition limits_fields (l : SessionLimits) : list Z :=
  [sl_max_regions_per_batch l; sl_max_region_bytes l; sl_max_batch_bytes l;
   sl_max_active_regions l; sl_max_active_bytes l; sl_max_transactions l;
   sl_max_bootstrap_payload_bytes l; sl_max_control_payload_bytes l].

Definition hard_maxima : list Z :=
  [HARD_MAX_REGIONS_PER_BATCH; HARD_MAX_REGION_BYTES; HARD_MAX_BATCH_BYTES;
   HARD_MAX_ACTIVE_REGIONS; HARD_MAX_ACTIVE_BYTES; HARD_MAX_TRANSACTIONS;
   HARD_MAX_BOOTSTRAP_PAYLOAD_BYTES; HARD_MAX_CONTROL_PAYLOAD_BYTES].

(** Every field is positive and at most its hard maximum. *)
Definition limits_valid (l : SessionLimits) : Prop :=
  Forall2 (fun z m => 0 < z <= m) (limits_fields l) hard_maxima.

Definition limits_le (a b : SessionLimits) : Prop :=
  Forall2 Z.le (limits_fields a) (limits_fields b).

Definition limits_nonneg (l : SessionLimits) : Prop := Forall (Z.le 0) (limits_fields l).

Ltac limits_split :=
  unfold limits_valid, limits_le, limits_nonneg, limits_fields, hard_maxima,
    HARD_MAX_REGIONS_PER_BATCH, HARD_MAX_BOOTSTRAP_PAYLOAD_BYTES, HARD_MAX_CONTROL_PAYLOAD_BYTES,
    HARD_MAX_REGION_BYTES, HARD_MAX_BATCH_BYTES, HARD_MAX_ACTIVE_REGIONS, HARD_MAX_ACTIVE_BYTES,
    HARD_MAX_TRANSACTIONS in *;
  repeat match goal with
         | H : Forall2 _ (_ :: _) (_ :: _) |- _ => apply Forall2_cons in H; destruct H
         | H : Forall _ (_ :: _) |- _ => apply Forall_cons in H; destruct H
         | H : Forall2 _ [] [] |- _ => clear H
         | H : Forall _ [] |- _ => clear H
         end.

Lemma validate_iff l r :
  limits_nonneg l -> SessionLimits_validate l = Ok r <-> limits_valid l /\ r = l.
Proof.
  intros Hn. unfold SessionLimits_validate, validate_for_native_max, HARD_MAX_REGIONS_PER_BATCH,
    HARD_MAX_BOOTSTRAP_PAYLOAD_BYTES, HARD_MAX_CONTROL_PAYLOAD_BYTES, HARD_MAX_REGION_BYTES,
    HARD_MAX_BATCH_BYTES, HARD_MAX_ACTIVE_REGIONS, HARD_MAX_ACTIVE_BYTES, HARD_MAX_TRANSACTIONS,
    USIZE_MAX, U64_MAX.
  split.
  - intros H. rinv H. bsplit. split; [|done]. limits_split. repeat (constructor; [lia|]). constructor.
  - intros [Hv ->]. limits_split.
    destruct (_ || _) eqn:E1; [rewrite !orb_true_iff in E1; lia|].
    destruct (_ || _) eqn:E2 in |- *; [rewrite !orb_true_iff in E2; lia|].
    destruct (_ || _) eqn:E3 in |- *; [rewrite !orb_true_iff in E3; lia|]. done.
Qed.

Definition limits_meet (a b : SessionLimits) : SessionLimits := {|
  sl_max_regions_per_batch := Z.min (sl_max_regions_per_batch a) (sl_max_regions_per_batch b);
  sl_max_region_bytes := Z.min (sl_max_region_bytes a) (sl_max_region_bytes b);
  sl_max_batch_bytes := Z.min (sl_max_batch_bytes a) (sl_max_batch_bytes b);
  sl_max_active_regions := Z.min (sl_max_active_regions a) (sl_max_active_regions b);
  sl_max_active_bytes := Z.min (sl_max_active_bytes a) (sl_max_active_bytes b);
  sl_max_transactions := Z.min (sl_max_transactions a) (sl_max_transactions b);
  sl_max_bootstrap_payload_bytes :=
    Z.min (sl_max_bootstrap_payload_bytes a) (sl_max_bootstrap_payload_bytes b);
  sl_max_control_payload_bytes :=
    Z.min (sl_max_control_payload_bytes a) (sl_max_control_payload_bytes b) |}.

Lemma valid_nonneg l : limits_valid l -> limits_nonneg l.
Proof. intros H. limits_split. repeat (constructor; [lia|]). constructor. Qed.

Lemma meet_valid a b : limits_valid a -> limits_valid b -> limits_valid (limits_meet a b).
Proof.
  intros Ha Hb. unfold limits_meet. limits_split. cbn. repeat (constructor; [lia|]). constructor.
Qed.

Lemma negotiate_iff a b r :
  limits_nonneg a -> limits_nonneg b ->
  SessionLimits_negotiate a b = Ok r <-> limits_valid a /\ limits_valid b /\ r = limits_meet a b.
Proof.
  intros Ha Hb. unfold SessionLimits_negotiate. split.
  - destruct (SessionLimits_validate a) as [a'| |] eqn:Ea; try discriminate.
    destruct (SessionLimits_validate b) as [b'| |] eqn:Eb; try discriminate. cbn [rbind].
    apply validate_iff in Ea as [Hva ->]; [|done]. apply validate_iff in Eb as [Hvb ->]; [|done].
    intros H. fold (limits_meet a b) in H.
    apply validate_iff in H as [_ ->]; [done|apply valid_nonneg; now apply meet_valid].
  - intros (Hva & Hvb & ->). rewrite (proj2 (validate_iff a a Ha)) by done. cbn [rbind].
    rewrite (proj2 (validate_iff b b Hb)) by done. cbn [rbind]. fold (limits_meet a b).
    apply validate_iff; [apply valid_nonneg|]; auto using meet_valid.
Qed.

Lemma meet_lower a b : limits_le (limits_meet a b) a /\ limits_le (limits_meet a b) b.
Proof. unfold limits_meet. limits_split. cbn. split; repeat (constructor; [lia|]); constructor. Qed.

Lemma meet_greatest a b c : limits_le c a -> limits_le c b -> limits_le c (limits_meet a b).
Proof.
  intros Ha Hb. unfold limits_meet. limits_split. cbn. repeat (constructor; [lia|]). constructor.
Qed.

Lemma meet_comm a b : limits_meet a b = limits_meet b a.
Proof. unfold limits_meet. f_equal; apply Z.min_comm. Qed.

(** Negotiation computes the meet of two valid offers. It succeeds exactly
    when each offer has every field between one and its hard maximum; both
    endpoints then obtain the same limits whichever is local; these are within
    both offers, are themselves valid, and no larger limits are within both. *)
Theorem negotiate_meet a b :
  limits_nonneg a -> limits_nonneg b ->
  (forall r, SessionLimits_negotiate a b = Ok r <->
             limits_valid a /\ limits_valid b /\ r = limits_meet a b) /\
  (forall r, SessionLimits_negotiate a b = Ok r -> SessionLimits_negotiate b a = Ok r) /\
  (forall r, SessionLimits_negotiate a b = Ok r ->
     limits_valid r /\ limits_le r a /\ limits_le r b /\
     forall c, limits_le c a -> limits_le c b -> limits_le c r).
Proof.
  intros Ha Hb. split_and!.
  - intros r. now apply negotiate_iff.
  - intros r (Hva & Hvb & ->)%negotiate_iff; [|done..]. apply negotiate_iff; [done..|].
    split_and!; try done. apply meet_comm.
  - intros r (Hva & Hvb & ->)%negotiate_iff; [|done..]. destruct (meet_lower a b).
    split_and!; auto using meet_valid, meet_greatest.
Qed.

Definition small_limits : SessionLimits :=
  {| sl_max_regions_per_batch := 2; sl_max_region_bytes := 4096; sl_max_batch_bytes := 16384;
     sl_max_active_regions := 4; sl_max_active_bytes := 65536; sl_max_transactions := 8;
     sl_max_bootstrap_payload_bytes := 64; sl_max_control_payload_bytes := 2097152 |}.

Lemma negotiate_meet_witness :
  SessionLimits_negotiate SessionLimits_default small_limits
  = Ok (limits_meet SessionLimits_default small_limits) /\
  sl_max_control_payload_bytes (limits_meet SessionLimits_default small_limits) = 1048576.
Proof.
  split; [|reflexivity].
  destruct (negotiate_meet SessionLimits_default small_limits) as [H _];
    [repeat (constructor; [cbn; lia|]); constructor|repeat (constructor; [cbn; lia|]); constructor|].
  apply H. split; [|split; [|reflexivity]]; repeat (constructor; [vm_compute; split; congruence|]); constructor.
Defined.
