(* ===== verification/Manifest.v ===== *)
(** * Manifest: transfer manifests and phase frames ([native-ipc/src/protocol.rs])

    The canonical manifest of one atomic transfer, its fixed-size frame, and
    the phase frames derived from it. Functions that return [Option] are
    [res unit]: [Err tt] is [None]. *)

From S2P Require Import Prelude Bytes Limits.

(** ** Constants *)

Definition CONTROL_VERSION : Z := 1.
Definition MAX_TRANSFER_ENTRIES : Z := 16.
Definition ENTRY_LEN : Z := 64.
Definition CONTROL_FRAME_LEN : Z := 96 + MAX_TRANSFER_ENTRIES * ENTRY_LEN.
Definition MANIFEST_FLAG_CANONICAL : Z := 1.
Definition REQUIRED_ENTRY_FLAGS : Z := Z.lor 1 2.

(** [*b"NIPCCAP1"] and the other frame magics. *)
Definition CAPABILITY_MAGIC : bytes := [x4e; x49; x50; x43; x43; x41; x50; x31].
Definition COORDINATOR_CAPACITY_READY_MAGIC : bytes := [x4e; x49; x50; x43; x43; x50; x52; x31].
Definition COORDINATOR_CAPACITY_REJECT_MAGIC : bytes := [x4e; x49; x50; x43; x43; x50; x4a; x31].
Definition COORDINATOR_PREPARATION_FAILED_MAGIC : bytes :=
  [x4e; x49; x50; x43; x43; x50; x46; x31].
Definition RECEIVER_CAPACITY_READY_MAGIC : bytes := [x4e; x49; x50; x43; x52; x50; x52; x31].
Definition RECEIVER_CAPACITY_REJECT_MAGIC : bytes := [x4e; x49; x50; x43; x52; x50; x4a; x31].
Definition IMPORTED_MAGIC : bytes := [x4e; x49; x50; x43; x49; x4d; x50; x31].
Definition SEALED_MAGIC : bytes := [x4e; x49; x50; x43; x53; x45; x41; x31].
Definition READY_MAGIC : bytes := [x4e; x49; x50; x43; x52; x44; x59; x31].
Definition COMMIT_MAGIC : bytes := [x4e; x49; x50; x43; x43; x4d; x54; x31].

(** ** Data *)

Inductive NativeAuthorityProfile := Legacy | LinuxMdweV1 | MacMachV1 | WindowsSectionsV1.

Definition NativeAuthorityProfile_raw (p : NativeAuthorityProfile) : Z :=
  match p with
  | Legacy => 0
  | LinuxMdweV1 => 1
  | MacMachV1 => 2
  | WindowsSectionsV1 => 3
  end.

Definition NativeAuthorityProfile_is_vnext (p : NativeAuthorityProfile) : bool :=
  match p with Legacy => false | _ => true end.

Inductive PeerAccess := ReadOnly | SoleWriter.

Definition PeerAccess_raw (a : PeerAccess) : Z :=
  match a with
  | ReadOnly => 1
  | SoleWriter => 2
  end.

#[export] Instance NativeAuthorityProfile_eq_dec : EqDecision NativeAuthorityProfile.
Proof. solve_decision. Defined.
#[export] Instance PeerAccess_eq_dec : EqDecision PeerAccess.
Proof. solve_decision. Defined.

Record NativeRegionSpec := {
  ns_region_id : Z;
  ns_incarnation : bytes;
  ns_writer : Z;
  ns_logical_len : Z;
  ns_mapped_len : Z
}.

Definition NativeRegionSpec_new (region_id : Z) (incarnation : bytes) (writer logical_len mapped_len : Z)
  : option NativeRegionSpec :=
  if (region_id =? 0) || bool_decide (incarnation = zeros 16) || (logical_len =? 0)
     || (mapped_len <? logical_len)
  then None
  else Some {| ns_region_id := region_id; ns_incarnation := incarnation; ns_writer := writer;
               ns_logical_len := logical_len; ns_mapped_len := mapped_len |}.

Record ManifestEntry := {
  me_region_id : Z;
  me_incarnation : bytes;
  me_writer : Z;
  me_access : PeerAccess;
  me_logical_len : Z;
  me_mapped_len : Z;
  me_ordinal : Z;
  me_flags : Z
}.

#[export] Instance ManifestEntry_eq_dec : EqDecision ManifestEntry.
Proof. solve_decision. Defined.

Definition ManifestEntry_from_native (spec : NativeRegionSpec) (access : PeerAccess)
  : ManifestEntry :=
  {| me_region_id := ns_region_id spec; me_incarnation := ns_incarnation spec;
     me_writer := ns_writer spec; me_access := access; me_logical_len := ns_logical_len spec;
     me_mapped_len := ns_mapped_len spec; me_ordinal := 0; me_flags := REQUIRED_ENTRY_FLAGS |}.

Record TransferManifest := {
  tm_nonce : bytes;
  tm_parent_pid : Z;
  tm_child_pid : Z;
  tm_transfer_id : Z;
  tm_authority_profile : NativeAuthorityProfile;
  tm_total_logical : Z;
  tm_total_mapped : Z;
  tm_entries : list ManifestEntry
}.

#[export] Instance TransferManifest_eq_dec : EqDecision TransferManifest.
Proof. solve_decision. Defined.

(** ** Construction *)

(** The body of the first loop: the checks of one entry and the running
    totals. *)
Definition account_entry (entry : ManifestEntry) (totals : Z * Z) : res unit (Z * Z) :=
  if (me_region_id entry =? 0) || bool_decide (me_incarnation entry = zeros 16)
     || (me_logical_len entry =? 0) || (me_mapped_len entry <? me_logical_len entry)
     || negb (me_flags entry =? REQUIRED_ENTRY_FLAGS)
  then Err tt else
  let? total_logical := ok_or (checked_add U64_MAX (fst totals) (me_logical_len entry)) tt in
  let? total_mapped := ok_or (checked_add U64_MAX (snd totals) (me_mapped_len entry)) tt in
  Ok (total_logical, total_mapped).

Definition id_leb (a b : ManifestEntry) : bool := me_region_id a <=? me_region_id b.

(** [entries.windows(2).any(..)]. *)
Fixpoint adjacent_ids (l : list ManifestEntry) : bool :=
  match l with
  | a :: (b :: _) as rest => (me_region_id a =? me_region_id b) || adjacent_ids rest
  | _ => false
  end.

(** Whether a later entry repeats the incarnation of an earlier one. *)
Fixpoint repeated_incarnation (l : list ManifestEntry) : bool :=
  match l with
  | [] => false
  | earlier :: rest =>
      existsb (fun later => bool_decide (me_incarnation later = me_incarnation earlier)) rest
      || repeated_incarnation rest
  end.

Definition with_ordinal (e : ManifestEntry) (ordinal : Z) : ManifestEntry :=
  {| me_region_id := me_region_id e; me_incarnation := me_incarnation e; me_writer := me_writer e;
     me_access := me_access e; me_logical_len := me_logical_len e;
     me_mapped_len := me_mapped_len e; me_ordinal := ordinal; me_flags := me_flags e |}.

Definition number_entries (l : list ManifestEntry) : res unit (list ManifestEntry) :=
  rfor (imap pair l)
    (fun '(ordinal, entry) done =>
       let? ordinal := ok_or (try_from U16_MAX (Z.of_nat ordinal)) tt in
       Ok (done ++ [with_ordinal entry ordinal])) [].

Definition new_with_authority (nonce : bytes) (parent_pid child_pid transfer_id : Z)
  (authority_profile : NativeAuthorityProfile) (entries : list ManifestEntry)
  : res unit TransferManifest :=
  if bool_decide (nonce = zeros 32) || (parent_pid =? 0) || (child_pid =? 0)
     || (transfer_id =? 0) || (transfer_id =? U64_MAX) || bool_decide (entries = [])
     || (MAX_TRANSFER_ENTRIES <? len entries)
  then Err tt else
  let? totals := rfor entries account_entry (0, 0) in
  let entries := sort_by id_leb entries in
  if adjacent_ids entries then Err tt else
  if repeated_incarnation entries then Err tt else
  let? entries := number_entries entries in
  Ok {| tm_nonce := nonce; tm_parent_pid := parent_pid; tm_child_pid := child_pid;
        tm_transfer_id := transfer_id; tm_authority_profile := authority_profile;
        tm_total_logical := fst totals; tm_total_mapped := snd totals; tm_entries := entries |}.

Definition TransferManifest_new (nonce : bytes) (parent_pid child_pid transfer_id : Z)
  (entries : list ManifestEntry) : res unit TransferManifest :=
  new_with_authority nonce parent_pid child_pid transfer_id Legacy entries.

(** ** Encoding *)

Definition encode_entry (frame : bytes) (start : Z) (entry : ManifestEntry) : res unit bytes :=
  let? frame := copy_range frame start (start + 16) (le_bytes 16 (me_region_id entry)) in
  let? frame := copy_range frame (start + 16) (start + 32) (me_incarnation entry) in
  let? frame := copy_range frame (start + 32) (start + 40) (le_bytes 8 (me_logical_len entry)) in
  let? frame := copy_range frame (start + 40) (start + 48) (le_bytes 8 (me_mapped_len entry)) in
  let? frame := copy_range frame (start + 48) (start + 52) (le_bytes 4 (me_writer entry)) in
  let? frame := copy_range frame (start + 52) (start + 56)
                           (le_bytes 4 (PeerAccess_raw (me_access entry))) in
  let? frame := copy_range frame (start + 56) (start + 58) (le_bytes 2 (me_ordinal entry)) in
  copy_range frame (start + 58) (start + 60) (le_bytes 2 (me_flags entry)).

Definition TransferManifest_encode (self : TransferManifest) (magic : bytes) : res unit bytes :=
  let frame := zeros CONTROL_FRAME_LEN in
  let? frame := copy_range frame 0 8 magic in
  let? frame := put_u32 frame 8 CONTROL_VERSION in
  let? frame := put_u32 frame 12 (len (tm_entries self)) in
  let? frame := copy_range frame 16 48 (tm_nonce self) in
  let? frame := put_u32 frame 48 (tm_parent_pid self) in
  let? frame := put_u32 frame 52 (tm_child_pid self) in
  let? frame := put_u64 frame 56 (tm_transfer_id self) in
  let? kind := index_range magic 4 8 in
  let? frame := put_u32 frame 64 (le_val kind) in
  let? frame := put_u32 frame 68 MANIFEST_FLAG_CANONICAL in
  let? frame := put_u32 frame 72 CONTROL_FRAME_LEN in
  let? frame := put_u32 frame 76 (NativeAuthorityProfile_raw (tm_authority_profile self)) in
  let? frame := put_u64 frame 80 (tm_total_logical self) in
  let? frame := put_u64 frame 88 (tm_total_mapped self) in
  rfor (imap pair (tm_entries self))
    (fun '(i, entry) frame => encode_entry frame (96 + Z.of_nat i * ENTRY_LEN) entry) frame.

(** ** Decoding *)

Definition decode_entry (frame : bytes) (start : Z) : res unit ManifestEntry :=
  let? raw_access := get_u32 frame (start + 52) in
  let? access :=
    (if raw_access =? 1 then Ok ReadOnly else if raw_access =? 2 then Ok SoleWriter else Err tt) in
  let? region_id := get_u128 frame start in
  let? incarnation := index_range frame (start + 16) (start + 32) in
  let? logical_len := get_u64 frame (start + 32) in
  let? mapped_len := get_u64 frame (start + 40) in
  let? writer := get_u32 frame (start + 48) in
  let? ordinal := get_u16 frame (start + 56) in
  let? flags := get_u16 frame (start + 58) in
  Ok {| me_region_id := region_id; me_incarnation := incarnation; me_writer := writer;
        me_access := access; me_logical_len := logical_len; me_mapped_len := mapped_len;
        me_ordinal := ordinal; me_flags := flags |}.

Definition TransferManifest_decode (magic frame : bytes) : res unit TransferManifest :=
  if negb (len frame =? CONTROL_FRAME_LEN) then Err tt else
  let? head := index_range frame 0 8 in
  if negb (bool_decide (head = magic)) then Err tt else
  let? version := get_u32 frame 8 in
  if negb (version =? CONTROL_VERSION) then Err tt else
  let? count := get_u32 frame 12 in
  if negb ((1 <=? count) && (count <=? MAX_TRANSFER_ENTRIES)) then Err tt else
  let? profile := get_u32 frame 76 in
  let? authority_profile :=
    (if profile =? 0 then Ok Legacy else if profile =? 1 then Ok LinuxMdweV1 else
     if profile =? 2 then Ok MacMachV1 else if profile =? 3 then Ok WindowsSectionsV1 else
     Err tt) in
  let? entries :=
    rfor (seqZ 0 count)
      (fun i entries => let? entry := decode_entry frame (96 + i * ENTRY_LEN) in
                        Ok (entries ++ [entry])) [] in
  let? nonce := index_range frame 16 48 in
  let? parent_pid := get_u32 frame 48 in
  let? child_pid := get_u32 frame 52 in
  let? transfer_id := get_u64 frame 56 in
  let? manifest :=
    new_with_authority nonce parent_pid child_pid transfer_id authority_profile entries in
  let? encoded := TransferManifest_encode manifest magic in
  if bool_decide (encoded = frame) then Ok manifest else Err tt.

Definition fits_limits (self : TransferManifest) (limits : SessionLimits) : bool :=
  (len (tm_entries self) <=? sl_max_regions_per_batch limits)
  && (tm_total_logical self <=? sl_max_batch_bytes limits)
  && (tm_total_mapped self <=? sl_max_batch_bytes limits)
  && forallb (fun entry => me_logical_len entry <=? sl_max_region_bytes limits) (tm_entries self).

Definition matches_frame (self : TransferManifest) (magic frame : bytes) : res unit bool :=
  if negb (len frame =? CONTROL_FRAME_LEN) then Ok false else
  let? encoded := TransferManifest_encode self magic in
  Ok (bool_decide (encoded = frame)).

(** ** Phase frames *)

Record CapabilityFrame := { cf_bytes : bytes; cf_capability_count : Z }.

Inductive CoordinatorCapacityStatus := CapacityReady | ActiveLimit | PreparationFailed.
Inductive PreparationFrameKind := Imported | Sealed.
Inductive CompletionFrameKind := Ready | Commit.

Definition CapabilityFrame_from_manifest (manifest : TransferManifest) : res unit CapabilityFrame :=
  let? frame := TransferManifest_encode manifest CAPABILITY_MAGIC in
  Ok {| cf_bytes := frame; cf_capability_count := len (tm_entries manifest) |}.

Definition CapabilityFrame_decode (frame : bytes) : res unit (CapabilityFrame * TransferManifest) :=
  let? manifest := TransferManifest_decode CAPABILITY_MAGIC frame in
  let? self := CapabilityFrame_from_manifest manifest in
  Ok (self, manifest).

Definition phase_frame_bytes (self : CapabilityFrame) (magic : bytes) : res unit bytes :=
  let? frame := copy_range (cf_bytes self) 0 8 magic in
  let? kind := index_range magic 4 8 in
  copy_range frame 64 68 kind.

Definition coordinator_capacity_magic (status : CoordinatorCapacityStatus) : bytes :=
  match status with
  | CapacityReady => COORDINATOR_CAPACITY_READY_MAGIC
  | ActiveLimit => COORDINATOR_CAPACITY_REJECT_MAGIC
  | PreparationFailed => COORDINATOR_PREPARATION_FAILED_MAGIC
  end.

(** A [CapacityFrame], [PreparationFrame] or [CompletionFrame] is its bytes. *)
Definition coordinator_capacity_frame (self : CapabilityFrame) (status : CoordinatorCapacityStatus)
  : res unit bytes :=
  phase_frame_bytes self (coordinator_capacity_magic status).

Definition receiver_capacity_frame (self : CapabilityFrame) (ready : bool) : res unit bytes :=
  phase_frame_bytes self
    (if ready then RECEIVER_CAPACITY_READY_MAGIC else RECEIVER_CAPACITY_REJECT_MAGIC).

Definition preparation_frame (self : CapabilityFrame) (kind : PreparationFrameKind)
  : res unit bytes :=
  phase_frame_bytes self (match kind with Imported => IMPORTED_MAGIC | Sealed => SEALED_MAGIC end).

Definition completion_frame (self : CapabilityFrame) (kind : CompletionFrameKind) : res unit bytes :=
  phase_frame_bytes self (match kind with Ready => READY_MAGIC | Commit => COMMIT_MAGIC end).

Definition frame_matches (self frame : bytes) : bool := bool_decide (frame = self).

(** The loop over the three coordinator magics. *)
Fixpoint decode_first (statuses : list CoordinatorCapacityStatus) (frame : bytes)
  : res unit (CapabilityFrame * TransferManifest * CoordinatorCapacityStatus) :=
  match statuses with
  | [] => Err tt
  | status :: rest =>
      match TransferManifest_decode (coordinator_capacity_magic status) frame with
      | Ok manifest =>
          let? self := CapabilityFrame_from_manifest manifest in Ok (self, manifest, status)
      | Err _ => decode_first rest frame
      | Panic => Panic
      end
  end.

Definition decode_coordinator_capacity (frame : bytes)
  : res unit (CapabilityFrame * TransferManifest * CoordinatorCapacityStatus) :=
  decode_first [CapacityReady; ActiveLimit; PreparationFailed] frame.
