(* ===== verification/ManifestTheory.v ===== *)
(** * ManifestTheory: canonical transcripts

    The order independence of manifest construction, the frame as a wire
    format, the round trip of frames, the canonicity of what the decoder
    accepts, and the equivalence of patched phase frames with fresh encodings. *)

From stdpp Require Import sorting.
From S2P Require Import Prelude Bytes Limits Manifest.

(** ** Well-formed entries and manifests *)

Definition ManifestEntry_wf (e : ManifestEntry) : Prop :=
  u128 (me_region_id e) /\ len (me_incarnation e) = 16 /\ u32 (me_writer e) /\
  u64 (me_logical_len e) /\ u64 (me_mapped_len e) /\ u16 (me_ordinal e) /\ u16 (me_flags e).

Definition entry_ok (e : ManifestEntry) : Prop :=
  me_region_id e <> 0 /\ me_incarnation e <> zeros 16 /\ me_logical_len e <> 0 /\
  me_logical_len e <= me_mapped_len e /\ me_flags e = REQUIRED_ENTRY_FLAGS.

Definition sum_of (f : ManifestEntry -> Z) (l : list ManifestEntry) : Z :=
  foldr (fun e a => f e + a) 0 l.

(** What every manifest built by [new_with_authority] satisfies. *)
Record manifest_ok (m : TransferManifest) : Prop := {
  mo_nonce : tm_nonce m <> zeros 32;
  mo_pids : tm_parent_pid m <> 0 /\ tm_child_pid m <> 0;
  mo_transfer : tm_transfer_id m <> 0 /\ tm_transfer_id m <> U64_MAX;
  mo_count : 1 <= len (tm_entries m) <= MAX_TRANSFER_ENTRIES;
  mo_entries : Forall entry_ok (tm_entries m);
  mo_totals : tm_total_logical m = sum_of me_logical_len (tm_entries m) /\
              tm_total_mapped m = sum_of me_mapped_len (tm_entries m) /\
              tm_total_mapped m <= U64_MAX;
  mo_sorted : StronglySorted (fun a b => me_region_id a < me_region_id b) (tm_entries m);
  mo_incarnations : NoDup (me_incarnation <$> tm_entries m);
  mo_ordinals : me_ordinal <$> tm_entries m = seqZ 0 (len (tm_entries m))
}.

(** ** Totals *)

Lemma sum_of_perm f l k : l ≡ₚ k -> sum_of f l = sum_of f k.
Proof. induction 1; simpl; lia. Qed.

Lemma sum_of_nonneg f l : Forall (fun e => 0 <= f e) l -> 0 <= sum_of f l.
Proof. induction 1; simpl; lia. Qed.


Lemma account_Ok l a b r :
  rfor l account_entry (a, b) = Ok r ->
  Forall entry_ok l /\ r = (a + sum_of me_logical_len l, b + sum_of me_mapped_len l) /\
  (Forall ManifestEntry_wf l -> 0 <= b <= U64_MAX -> b + sum_of me_mapped_len l <= U64_MAX).
Proof.
  revert a b. induction l as [|e l IH]; intros a b; simpl.
  - intros [= <-]. split_and!; [constructor|f_equal; lia|intros; lia].
  - unfold account_entry at 1. destruct (_ || _) eqn:E; [discriminate|]. bsplit. simpl.
    destruct (checked_add _ a _) eqn:Ha; simpl; [|discriminate].
    destruct (checked_add _ b _) eqn:Hb; simpl; [|discriminate].
    apply checked_add_Some in Ha as [-> Ha], Hb as [-> Hb].
    intros (HF & -> & Hm)%IH. split_and!.
    + constructor; [|done]. unfold entry_ok. lia || tauto.
    + f_equal; lia.
    + intros Hw Hb0. inversion Hw as [|? ? He Hw']; subst.
      specialize (Hm Hw'). destruct He as (_&_&_&_&Hmu&_). ulia.
Qed.

Lemma account_ok l a b :
  Forall entry_ok l -> Forall ManifestEntry_wf l -> 0 <= a -> 0 <= b ->
  a + sum_of me_logical_len l <= U64_MAX -> b + sum_of me_mapped_len l <= U64_MAX ->
  rfor l account_entry (a, b) = Ok (a + sum_of me_logical_len l, b + sum_of me_mapped_len l).
Proof.
  intros Hok Hw. revert a b. induction Hok as [|e l He Hok IH]; intros a b Ha Hb Hl Hm; simpl in *.
  - do 2 f_equal; lia.
  - inversion Hw as [|? ? Hwe Hw']; subst. destruct Hwe as (_&_&_&Hlu&Hmu&_).
    assert (0 <= sum_of me_logical_len l /\ 0 <= sum_of me_mapped_len l).
    { split; apply sum_of_nonneg; (eapply Forall_impl; [exact Hw'|]);
        intros x (_&_&_&?&?&_); ulia. }
    destruct He as (Hid & Hinc & Hlz & Hle & Hfl). unfold account_entry at 1.
    replace (me_region_id e =? 0) with false by lia. rewrite bool_decide_eq_false_2 by done.
    replace (me_logical_len e =? 0) with false by lia.
    replace (me_mapped_len e <? me_logical_len e) with false by lia. rewrite Hfl, Z.eqb_refl. simpl.
    rewrite !checked_add_ok by ulia. cbn [ok_or rbind]. rewrite IH by (done || ulia). do 2 f_equal; lia.
Qed.

(** ** Sorting and numbering *)

Lemma id_leb_sorted l : StronglySorted (fun a b => id_leb a b = true) (sort_by id_leb l).
Proof.
  apply sort_by_sorted with (P := fun _ => True); unfold id_leb; try (intros; lia).
  now apply Forall_forall.
Qed.

Lemma adjacent_ids_strict l :
  StronglySorted (fun a b => id_leb a b = true) l -> adjacent_ids l = false ->
  StronglySorted (fun a b => me_region_id a < me_region_id b) l.
Proof.
  induction 1 as [|a l Hs IH Ha]; intros Hadj; [constructor|].
  destruct l as [|b l]; [repeat constructor|]. cbn [adjacent_ids] in Hadj. bsplit.
  specialize (IH Hadj0). constructor; [done|].
  inversion Ha as [|? ? Hab _]; subst. inversion IH as [|? ? _ Hb]; subst.
  unfold id_leb in Hab. constructor; [lia|]. eapply Forall_impl; [exact Hb|]. simpl. intros. lia.
Qed.

Lemma strict_adjacent_ids l :
  StronglySorted (fun a b => me_region_id a < me_region_id b) l -> adjacent_ids l = false.
Proof.
  induction 1 as [|a l Hs IH Ha]; [done|]. destruct l as [|b l]; [done|].
  change (adjacent_ids (a :: b :: l)) with ((me_region_id a =? me_region_id b) || adjacent_ids (b :: l)).
  inversion Ha; subst. rewrite IH. lia.
Qed.

Lemma strict_sorted_sort l :
  StronglySorted (fun a b => me_region_id a < me_region_id b) l -> sort_by id_leb l = l.
Proof.
  induction 1 as [|a l Hs IH Ha]; [done|]. simpl. rewrite IH. destruct l as [|b l]; [done|].
  simpl. inversion Ha; subst. unfold id_leb. now replace (me_region_id a <=? me_region_id b) with true by lia.
Qed.

Lemma repeated_incarnation_false l :
  repeated_incarnation l = false <-> NoDup (me_incarnation <$> l).
Proof.
  induction l as [|e l IH]; simpl; [split; [constructor|done]|].
  rewrite orb_false_iff, IH, NoDup_cons. apply and_iff_compat_r. split.
  - intros Hex (x & Heq & Hx)%list_elem_of_fmap.
    eapply eq_true_false_abs; [|exact Hex]. apply existsb_exists. exists x.
    split; [now apply list_elem_of_In|]. now apply bool_decide_eq_true_2.
  - intros Hn. apply not_true_iff_false. intros (x & Hx & He)%existsb_exists.
    apply bool_decide_eq_true in He. apply Hn, list_elem_of_fmap. exists x.
    split; [done|now apply list_elem_of_In].
Qed.

Definition numbered (l : list ManifestEntry) : list ManifestEntry :=
  imap (fun i e => with_ordinal e (Z.of_nat i)) l.

Lemma number_entries_ok l : len l <= U16_MAX -> number_entries l = Ok (numbered l).
Proof.
  intros Hl. unfold number_entries, numbered.
  enough (forall pre k acc, Z.of_nat k + len pre <= U16_MAX ->
            rfor (imap (fun i => pair (k + i)%nat) pre)
              (fun '(ordinal, entry) done =>
                 let? ordinal := ok_or (try_from U16_MAX (Z.of_nat ordinal)) tt in
                 Ok (done ++ [with_ordinal entry ordinal])) acc
            = Ok (acc ++ imap (fun i e => with_ordinal e (Z.of_nat (k + i))) pre)) as H
    by (specialize (H l 0%nat []); apply H; lia).
  induction pre as [|e pre IH]; intros k acc Hk; simpl; [now rewrite app_nil_r|].
  unfold len in Hk, IH. simpl in Hk. rewrite try_from_ok by ulia. cbn [ok_or rbind].
  rewrite Nat.add_0_r. unfold compose.
  rewrite (imap_ext _ (fun i => pair (S k + i)%nat)) by (intros; simpl; do 2 f_equal; lia).
  rewrite IH by lia. rewrite <- app_assoc. simpl. do 3 f_equal.
  apply imap_ext. intros. simpl. do 2 f_equal. lia.
Qed.

(** ** Order independence *)

Lemma sorted_nodup_strict l :
  StronglySorted (fun a b => id_leb a b = true) l -> NoDup (me_region_id <$> l) ->
  StronglySorted (fun a b => me_region_id a < me_region_id b) l.
Proof.
  induction 1 as [|a l Hs IH Ha]; simpl; intros Hnd; [constructor|].
  apply NoDup_cons in Hnd as [Hn Hnd]. constructor; [auto|].
  rewrite Forall_forall in Ha |- *. intros b Hb. specialize (Ha b Hb). unfold id_leb in Ha.
  enough (me_region_id a <> me_region_id b) by lia. intros Heq. apply Hn.
  rewrite Heq. apply list_elem_of_fmap. eauto.
Qed.

Lemma strict_nodup l :
  StronglySorted (fun a b => me_region_id a < me_region_id b) l -> NoDup (me_region_id <$> l).
Proof.
  induction 1 as [|a l Hs IH Ha]; simpl; constructor; [|done].
  intros (b & Heq & Hb)%list_elem_of_fmap. rewrite Forall_forall in Ha. specialize (Ha b Hb). lia.
Qed.

#[export] Instance id_lt_antisymm : AntiSymm (=) (fun a b => me_region_id a < me_region_id b).
Proof. intros a b ? ?. lia. Qed.

(** Sorting distinct keys is canonical: every ordering of the input sorts to
    the same list, so that the choice of sorting algorithm cannot be seen. *)
Lemma sort_canonical l k :
  l ≡ₚ k -> adjacent_ids (sort_by id_leb l) = false ->
  sort_by id_leb l = sort_by id_leb k /\ adjacent_ids (sort_by id_leb k) = false.
Proof.
  intros Hp Hadj. pose proof (adjacent_ids_strict _ (id_leb_sorted l) Hadj) as Hl.
  assert (Hk : StronglySorted (fun a b => me_region_id a < me_region_id b) (sort_by id_leb k)).
  { apply sorted_nodup_strict; [apply id_leb_sorted|].
    rewrite sort_by_perm, <- Hp, <- (sort_by_perm id_leb l). now apply strict_nodup. }
  split; [|now apply strict_adjacent_ids].
  eapply (StronglySorted_unique (fun a b => me_region_id a < me_region_id b)); try done.
  now rewrite !sort_by_perm.
Qed.

Lemma account_no_panic l t : rfor l account_entry t <> Panic.
Proof.
  apply rfor_no_panic with (P := fun _ => True); [done|]. intros e s _ _. split; [|done].
  unfold account_entry. destruct (_ || _); [done|].
  destruct (checked_add _ _ _); cbn [ok_or rbind]; [|done].
  now destruct (checked_add _ _ _).
Qed.

Lemma sum_le l :
  Forall entry_ok l -> sum_of me_logical_len l <= sum_of me_mapped_len l.
Proof. induction 1 as [|e l (_&_&_&?&_)]; simpl; lia. Qed.

Lemma account_perm_Ok l k r :
  l ≡ₚ k -> Forall ManifestEntry_wf l ->
  rfor l account_entry (0, 0) = Ok r -> rfor k account_entry (0, 0) = Ok r.
Proof.
  intros Hp Hw (Hok & -> & Hm)%account_Ok. specialize (Hm Hw ltac:(ulia)).
  pose proof (sum_le l Hok). rewrite (sum_of_perm _ _ _ Hp), (sum_of_perm me_mapped_len _ _ Hp) in *.
  rewrite account_ok; try lia; [done|now rewrite <- Hp|now rewrite <- Hp].
Qed.

Lemma account_perm l k :
  l ≡ₚ k -> Forall ManifestEntry_wf l -> rfor l account_entry (0, 0) = rfor k account_entry (0, 0).
Proof.
  intros Hp Hw. pose proof (account_no_panic l (0, 0)). pose proof (account_no_panic k (0, 0)).
  destruct (rfor l account_entry (0, 0)) as [r|[]|] eqn:El; [..|done].
  - symmetry. now apply account_perm_Ok with l.
  - destruct (rfor k account_entry (0, 0)) as [r|[]|] eqn:Ek; [exfalso|done|done].
    apply (account_perm_Ok k l) in Ek; [congruence|done|now rewrite <- Hp].
Qed.

(** A manifest does not depend on the order in which its regions were
    prepared: for any two orderings of the same entries, construction gives the
    same manifest or rejects both, so that both endpoints of a transfer derive
    one transcript. *)
Theorem manifest_order_independent nonce parent_pid child_pid transfer_id profile es es' :
  es ≡ₚ es' -> Forall ManifestEntry_wf es ->
  new_with_authority nonce parent_pid child_pid transfer_id profile es
  = new_with_authority nonce parent_pid child_pid transfer_id profile es'.
Proof.
  intros Hp Hw. unfold new_with_authority.
  assert (Hlen : len es = len es') by (unfold len; now rewrite Hp).
  assert (Hnil : bool_decide (es = []) = bool_decide (es' = [])).
  { apply bool_decide_ext. split; intros ->; [now apply Permutation_nil_l in Hp|now apply Permutation_nil_r in Hp]. }
  rewrite Hlen, Hnil, (account_perm es es') by done.
  destruct (_ || _); [done|]. destruct (rfor es' account_entry (0, 0)); cbn [rbind]; [|done..].
  destruct (adjacent_ids (sort_by id_leb es)) eqn:E.
  - destruct (adjacent_ids (sort_by id_leb es')) eqn:E'; [done|].
    apply (sort_canonical es' es) in E' as [_ E']; [congruence|done].
  - destruct (sort_canonical es es' Hp E) as [-> E']. now rewrite E'.
Qed.

(** ** What construction establishes *)

Lemma with_ordinal_same l :
  me_ordinal <$> l = seqZ 0 (len l) -> numbered l = l.
Proof.
  intros H. unfold numbered. apply list_eq. intros i. rewrite list_lookup_imap.
  destruct (l !! i) as [e|] eqn:He; simpl; [|done]. f_equal.
  assert (Ho : (me_ordinal <$> l) !! i = Some (me_ordinal e)) by (rewrite list_lookup_fmap, He; done).
  rewrite H in Ho. apply lookup_seqZ in Ho as [Ho _]. destruct e. simpl in *. subst. done.
Qed.

Lemma numbered_fmap {A} (f : ManifestEntry -> A) l :
  (forall e n, f (with_ordinal e n) = f e) -> f <$> numbered l = f <$> l.
Proof.
  intros Hf. unfold numbered. apply list_eq. intros i.
  rewrite !list_lookup_fmap, list_lookup_imap. destruct (l !! i); simpl; [|done]. now rewrite Hf.
Qed.

Lemma numbered_ordinals l : me_ordinal <$> numbered l = seqZ 0 (len l).
Proof.
  apply list_eq. intros i. unfold numbered. rewrite list_lookup_fmap, list_lookup_imap.
  destruct (l !! i) eqn:E; simpl.
  - symmetry. apply lookup_seqZ. apply lookup_lt_Some in E. unfold len. lia.
  - symmetry. apply lookup_seqZ_ge. apply lookup_ge_None in E. unfold len. lia.
Qed.

Lemma numbered_Forall P l :
  (forall e n, P e -> P (with_ordinal e n)) -> Forall P l -> Forall P (numbered l).
Proof.
  intros HP HF. unfold numbered. rewrite Forall_lookup in *. intros i e He.
  rewrite list_lookup_imap in He. destruct (l !! i) eqn:E; simpl in He; [|discriminate].
  injection He as <-. eauto.
Qed.

Lemma numbered_sum f l :
  (forall e n, f (with_ordinal e n) = f e) -> sum_of f (numbered l) = sum_of f l.
Proof.
  intros Hf. assert (Hs : forall l, sum_of f l = foldr Z.add 0 (f <$> l))
    by (intros k; induction k as [|e k IH]; [done|]; unfold sum_of in *; cbn; now rewrite IH).
  now rewrite !Hs, numbered_fmap.
Qed.

Lemma numbered_sorted l :
  StronglySorted (fun a b => me_region_id a < me_region_id b) l ->
  StronglySorted (fun a b => me_region_id a < me_region_id b) (numbered l).
Proof.
  assert (Hs : forall k, StronglySorted (fun a b => me_region_id a < me_region_id b) k <->
            StronglySorted Z.lt (me_region_id <$> k)).
  { induction k as [|e k IH]; [split; constructor|]. rewrite fmap_cons.
    assert (HF : Forall (Z.lt (me_region_id e)) (me_region_id <$> k) <->
                 Forall (fun b => me_region_id e < me_region_id b) k) by apply Forall_fmap.
    split; inversion 1; subst; constructor; first [now apply IH | now apply HF]. }
  rewrite !Hs. now rewrite numbered_fmap.
Qed.

Section Construction.
Context (nonce : bytes) (parent_pid child_pid transfer_id : Z) (profile : NativeAuthorityProfile).

Lemma new_sound es m :
  Forall ManifestEntry_wf es ->
  new_with_authority nonce parent_pid child_pid transfer_id profile es = Ok m ->
  manifest_ok m /\ tm_nonce m = nonce /\ tm_parent_pid m = parent_pid /\ tm_child_pid m = child_pid /\
  tm_transfer_id m = transfer_id /\ tm_authority_profile m = profile /\
  tm_entries m = numbered (sort_by id_leb es).
Proof.
  intros Hw H. unfold new_with_authority, MAX_TRANSFER_ENTRIES in H.
  destruct (_ || _) eqn:E; [discriminate|]. bsplit.
  destruct (rfor es account_entry (0, 0)) as [totals| |] eqn:Ht; try discriminate. cbn [rbind] in H.
  destruct (adjacent_ids _) eqn:Hadj; [discriminate|].
  destruct (repeated_incarnation _) eqn:Hinc; [discriminate|].
  assert (Hl : len (sort_by id_leb es) = len es) by (unfold len; now rewrite sort_by_perm).
  rewrite number_entries_ok in H by (rewrite Hl; ulia). injection H as <-.
  apply account_Ok in Ht as (Hok & -> & Hm). specialize (Hm Hw ltac:(ulia)).
  apply repeated_incarnation_false in Hinc.
  assert (Hn : forall l, len (numbered l) = len l) by (intros; unfold len, numbered; now rewrite length_imap).
  split; [|done]. constructor; simpl; try done.
  - rewrite Hn, Hl. unfold MAX_TRANSFER_ENTRIES. split; [|lia].
    destruct es; [done|]. unfold len. simpl. lia.
  - apply numbered_Forall; [now intros|]. now rewrite sort_by_perm.
  - rewrite !numbered_sum by done. rewrite !(sum_of_perm _ _ _ (sort_by_perm id_leb es)). lia.
  - apply numbered_sorted, adjacent_ids_strict; [apply id_leb_sorted|done].
  - rewrite numbered_fmap; done.
  - rewrite numbered_ordinals, Hn. done.
Qed.

End Construction.

Lemma new_complete m :
  manifest_ok m -> Forall ManifestEntry_wf (tm_entries m) ->
  new_with_authority (tm_nonce m) (tm_parent_pid m) (tm_child_pid m) (tm_transfer_id m)
    (tm_authority_profile m) (tm_entries m) = Ok m.
Proof.
  intros [] Hw. unfold new_with_authority.
  rewrite !bool_decide_eq_false_2; [|intros Hn; rewrite Hn in mo_count0; unfold len in mo_count0; simpl in mo_count0; lia|done].
  replace (tm_parent_pid m =? 0) with false by lia. replace (tm_child_pid m =? 0) with false by lia.
  replace (tm_transfer_id m =? 0) with false by lia. replace (tm_transfer_id m =? U64_MAX) with false by lia.
  replace (MAX_TRANSFER_ENTRIES <? len (tm_entries m)) with false by lia. simpl.
  destruct mo_totals0 as (Hl & Hm & Hmax). pose proof (sum_le _ mo_entries0).
  rewrite account_ok by (done || lia). cbn [rbind].
  rewrite (strict_sorted_sort _ mo_sorted0), strict_adjacent_ids by done.
  rewrite (proj2 (repeated_incarnation_false _)) by done.
  rewrite number_entries_ok by (unfold MAX_TRANSFER_ENTRIES in *; ulia). cbn [rbind fst snd].
  rewrite with_ordinal_same by done. rewrite !Z.add_0_l, <- Hl, <- Hm. now destruct m.
Qed.

(** ** The frame as a wire format *)

Definition entry_bytes (e : ManifestEntry) : bytes :=
  le_bytes 16 (me_region_id e) ++ me_incarnation e ++ le_bytes 8 (me_logical_len e) ++
  le_bytes 8 (me_mapped_len e) ++ le_bytes 4 (me_writer e) ++
  le_bytes 4 (PeerAccess_raw (me_access e)) ++ le_bytes 2 (me_ordinal e) ++
  le_bytes 2 (me_flags e) ++ zeros 4.

Definition entry_cuts : list Z := [16; 32; 40; 48; 52; 56; 58; 60; 64].

Definition frame_head (m : TransferManifest) (magic : bytes) : bytes :=
  magic ++ le_bytes 4 CONTROL_VERSION ++ le_bytes 4 (len (tm_entries m)) ++ tm_nonce m ++
  le_bytes 4 (tm_parent_pid m) ++ le_bytes 4 (tm_child_pid m) ++ le_bytes 8 (tm_transfer_id m) ++
  slice magic 4 8 ++ le_bytes 4 MANIFEST_FLAG_CANONICAL ++ le_bytes 4 CONTROL_FRAME_LEN ++
  le_bytes 4 (NativeAuthorityProfile_raw (tm_authority_profile m)) ++
  le_bytes 8 (tm_total_logical m) ++ le_bytes 8 (tm_total_mapped m).

Definition head_cuts : list Z := [8; 12; 16; 48; 52; 56; 64; 68; 72; 76; 80; 88; 96; 1120].

Definition entries_bytes (l : list ManifestEntry) : bytes := l ≫= entry_bytes.

Definition frame_bytes (m : TransferManifest) (magic : bytes) : bytes :=
  frame_head m magic ++ entries_bytes (tm_entries m) ++
  zeros ((16 - len (tm_entries m)) * 64).

Lemma zeros4_len : len (zeros 4) = 4. Proof. reflexivity. Qed.
Lemma zeros1024_len : len (zeros 1024) = 1024. Proof. reflexivity. Qed.

Lemma entry_bytes_len e : len (me_incarnation e) = 16 -> len (entry_bytes e) = 64.
Proof. intros H. unfold entry_bytes. rewrite !len_app, !len_le_bytes, H. reflexivity. Qed.

Lemma entries_bytes_len l :
  Forall ManifestEntry_wf l -> len (entries_bytes l) = len l * 64.
Proof.
  induction 1 as [|e l (_ & He & _) Hl IH]; [done|].
  change (entries_bytes (e :: l)) with (entry_bytes e ++ entries_bytes l).
  rewrite len_app, entry_bytes_len, IH by done. unfold len. simpl. lia.
Qed.

Lemma encode_entry_middle pre post start e :
  len pre = start -> len (me_incarnation e) = 16 ->
  encode_entry (pre ++ zeros 64 ++ post) start e = Ok (pre ++ entry_bytes e ++ post).
Proof.
  intros Hpre Hinc. unfold encode_entry.
  pose proof (copy_range_middle (E := unit) pre (zeros 64) post start Hpre 0 16) as H0.
  rewrite Z.add_0_r in H0. rewrite H0 by (rewrite ?len_le_bytes, ?len_zeros; lia). cbn [rbind]. clear H0.
  rewrite !(copy_range_middle pre) by
    (first [exact Hpre | rewrite ?len_splice, ?len_le_bytes, ?len_zeros; lia]). cbn [rbind].
  repeat (rewrite (copy_range_middle pre) by
    (first [exact Hpre | rewrite ?len_splice, ?len_le_bytes, ?len_zeros by lia; lia]); cbn [rbind]).
  do 3 f_equal.
  assert (H64 : len (zeros 64) = 64) by (apply len_zeros; lia).
  by_cuts entry_cuts. reflexivity.
Qed.

Lemma encode_entries pre l :
  len pre = 96 -> Forall ManifestEntry_wf l -> len l <= 16 ->
  rfor (imap pair l)
    (fun '(i, entry) frame => encode_entry frame (96 + Z.of_nat i * ENTRY_LEN) entry)
    (pre ++ zeros 1024)
  = Ok (pre ++ entries_bytes l ++ zeros ((16 - len l) * 64)).
Proof.
  intros Hpre Hw Hl. unfold ENTRY_LEN.
  enough (forall rest k mid, Forall ManifestEntry_wf rest -> len mid = Z.of_nat k * 64 ->
            Z.of_nat k + len rest <= 16 ->
            rfor (imap (fun i => pair (k + i)%nat) rest)
              (fun '(i, entry) frame => encode_entry frame (96 + Z.of_nat i * 64) entry)
              (pre ++ mid ++ zeros ((16 - Z.of_nat k) * 64))
            = Ok (pre ++ (mid ++ entries_bytes rest) ++ zeros ((16 - Z.of_nat k - len rest) * 64))) as H.
  { specialize (H l 0%nat [] Hw eq_refl ltac:(lia)). simpl in H.
    rewrite Z.sub_0_r in H. exact H. }
  induction rest as [|e rest IH]; intros k mid Hwr Hm Hk.
  { simpl. rewrite app_nil_r. unfold len. simpl. now rewrite Z.sub_0_r. }
  inversion Hwr as [|? ? He Hwr']; subst.
  assert (Hlr : len (e :: rest) = 1 + len rest) by (unfold len; simpl; lia).
  pose proof (len_nonneg rest). rewrite imap_cons. cbn [rfor]. rewrite Nat.add_0_r.
  replace ((16 - Z.of_nat k) * 64) with (64 + (15 - Z.of_nat k) * 64) by lia.
  assert (Hz : zeros (64 + (15 - Z.of_nat k) * 64) = zeros 64 ++ zeros ((15 - Z.of_nat k) * 64)).
  { unfold zeros. rewrite <- replicate_add. f_equal. lia. }
  rewrite Hz, (app_assoc pre mid).
  rewrite encode_entry_middle by (first [rewrite len_app; lia | apply He]). cbn [rbind].
  unfold compose. rewrite (imap_ext _ (fun i => pair (S k + i)%nat)) by (intros; simpl; do 2 f_equal; lia).
  replace ((pre ++ mid) ++ entry_bytes e ++ zeros ((15 - Z.of_nat k) * 64))
    with (pre ++ (mid ++ entry_bytes e) ++ zeros ((16 - Z.of_nat (S k)) * 64))
    by (rewrite <- !app_assoc; do 4 f_equal; lia).
  rewrite IH; [|done|rewrite len_app, entry_bytes_len by apply He; lia|lia].
  change (entries_bytes (e :: rest)) with (entry_bytes e ++ entries_bytes rest).
  rewrite <- !app_assoc. now replace (16 - Z.of_nat (S k) - len rest) with (16 - Z.of_nat k - len (e :: rest)) by lia.
Qed.

(** The widths a manifest's fields have by their types. *)
Definition manifest_widths (m : TransferManifest) : Prop :=
  len (tm_nonce m) = 32 /\ u32 (tm_parent_pid m) /\ u32 (tm_child_pid m) /\
  u64 (tm_transfer_id m) /\ u64 (tm_total_logical m) /\ u64 (tm_total_mapped m) /\
  Forall ManifestEntry_wf (tm_entries m) /\ len (tm_entries m) <= 16.

Lemma encode_frame_bytes m magic :
  manifest_widths m -> len magic = 8 -> TransferManifest_encode m magic = Ok (frame_bytes m magic).
Proof.
  intros (Hn & _ & _ & _ & _ & _ & Hw & Hl) Hm. unfold TransferManifest_encode.
  assert (Hz : len (zeros CONTROL_FRAME_LEN) = 1120) by reflexivity.
  assert (Hk : len (slice magic 4 8) = 4) by (rewrite len_slice; lia).
  rd. unfold frame_bytes. rewrite <- (encode_entries (frame_head m magic) (tm_entries m)); [|unfold frame_head; rewrite !len_app, !len_le_bytes, Hn, Hm, Hk; reflexivity|done|done].
  f_equal. by_cuts head_cuts. unfold frame_head.
  rewrite le_bytes_le_val by (unfold len in Hk; lia).
  rewrite (slice_zeros CONTROL_FRAME_LEN 96 1120) by (unfold CONTROL_FRAME_LEN, MAX_TRANSFER_ENTRIES, ENTRY_LEN; lia).
  rewrite <- !app_assoc. reflexivity.
Qed.

Lemma frame_head_len m magic :
  len (tm_nonce m) = 32 -> len magic = 8 -> len (frame_head m magic) = 96.
Proof.
  intros Hn Hm. unfold frame_head. rewrite !len_app, !len_le_bytes, Hn, Hm, len_slice by lia. reflexivity.
Qed.

Lemma frame_bytes_len m magic :
  manifest_widths m -> len magic = 8 -> len (frame_bytes m magic) = 1120.
Proof.
  intros (Hn & _ & _ & _ & _ & _ & Hw & Hl) Hm. unfold frame_bytes.
  rewrite !len_app, frame_head_len, entries_bytes_len, len_zeros by (done || lia). lia.
Qed.

Lemma decode_entry_middle pre post start e :
  len pre = start -> ManifestEntry_wf e ->
  decode_entry (pre ++ entry_bytes e ++ post) start = Ok e.
Proof.
  intros Hpre (Hid & Hinc & Hwr & Hll & Hml & Ho & Hf).
  pose proof (entry_bytes_len e Hinc) as Hx. pose proof zeros4_len.
  unfold decode_entry, get_u16, get_u32, get_u64, get_u128.
  rewrite <- !Z.add_assoc. cbn [Z.add Pos.add Pos.succ Pos.add_carry].
  pose proof (index_range_middle (E := unit) pre (entry_bytes e) post start Hpre 0 16) as H0.
  rewrite Z.add_0_r in H0. rewrite H0 by lia. clear H0.
  rewrite !(index_range_middle pre (entry_bytes e) post start Hpre) by lia. cbn [rbind].
  unfold entry_bytes. app_slice.
  rewrite !le_val_u128, !le_val_u64, !le_val_u32, !le_val_u16 by (done || destruct (me_access e); simpl; ulia).
  destruct e as [? ? ? [] ? ? ? ?]; reflexivity.
Qed.

Lemma decode_entries pre post l :
  len pre = 96 -> Forall ManifestEntry_wf l ->
  rfor (seqZ 0 (len l))
    (fun i entries => let? entry := decode_entry (pre ++ entries_bytes l ++ post) (96 + i * ENTRY_LEN) in
                      Ok (entries ++ [entry])) [] = Ok l.
Proof.
  intros Hpre Hw. unfold ENTRY_LEN.
  enough (forall rest mid k, mid ++ rest = l -> k = len mid ->
            rfor (seqZ k (len rest))
              (fun i entries =>
                 let? entry := decode_entry (pre ++ entries_bytes l ++ post) (96 + i * 64) in
                 Ok (entries ++ [entry])) mid = Ok l) as H by (now apply (H l [] 0)).
  induction rest as [|e rest IH]; intros mid k Hl Hk.
  { simpl. rewrite app_nil_r in Hl. now subst. }
  pose proof (len_nonneg rest).
  assert (Hlr : len (e :: rest) = 1 + len rest) by (unfold len; simpl; lia).
  rewrite seqZ_cons by lia. cbn [rfor].
  assert (Hmid : Forall ManifestEntry_wf mid /\ ManifestEntry_wf e).
  { rewrite <- Hl, Forall_app, Forall_cons in Hw. tauto. }
  assert (Hd : decode_entry (pre ++ entries_bytes l ++ post) (96 + k * 64) = Ok e).
  { rewrite <- Hl. unfold entries_bytes. rewrite bind_app.
    change ((e :: rest) ≫= entry_bytes) with (entry_bytes e ++ entries_bytes rest).
    fold (entries_bytes mid). rewrite <- !app_assoc, (app_assoc pre).
    apply decode_entry_middle; [|apply Hmid]. rewrite len_app, entries_bytes_len by apply Hmid. lia. }
  rewrite Hd. cbn [rbind]. replace (Z.pred (len (e :: rest))) with (len rest) by lia.
  apply IH; [now rewrite <- app_assoc|]. rewrite len_app. unfold len at 2. simpl. lia.
Qed.

Lemma profile_decode p :
  (if NativeAuthorityProfile_raw p =? 0 then Ok Legacy
   else if NativeAuthorityProfile_raw p =? 1 then Ok LinuxMdweV1
   else if NativeAuthorityProfile_raw p =? 2 then Ok MacMachV1
   else if NativeAuthorityProfile_raw p =? 3 then Ok WindowsSectionsV1 else Err tt) = Ok p.
Proof. now destruct p. Qed.

Lemma decode_frame_bytes m magic :
  manifest_ok m -> manifest_widths m -> len magic = 8 ->
  TransferManifest_decode magic (frame_bytes m magic) = Ok m.
Proof.
  intros Hok Hwd Hmg. pose proof (frame_bytes_len m magic Hwd Hmg) as Hl.
  pose proof Hwd as (Hn & Hpp & Hcp & Ht & _ & _ & Hw & Hle).
  pose proof (frame_head_len m magic Hn Hmg) as Hh. destruct (mo_count _ Hok) as [Hc1 Hc2].
  assert (Hk : len (slice magic 4 8) = 4) by (rewrite len_slice; lia).
  unfold TransferManifest_decode. rewrite Hl. rd.
  assert (Hsl : forall a b, 0 <= a <= b -> b <= 96 ->
            slice (frame_bytes m magic) a b = slice (frame_head m magic) a b)
    by (intros; unfold frame_bytes; rewrite slice_app_l by lia; done).
  unfold field. rewrite !Hsl by lia. unfold frame_head.
  cbn [Z.add Pos.add Pos.succ Pos.add_carry]. app_slice.
  rewrite !le_val_u64, !le_val_u32
    by (done || (destruct (tm_authority_profile m); simpl; ulia) || ulia).
  rewrite bool_decide_eq_true_2, Z.eqb_refl by done.
  replace (1 <=? len (tm_entries m)) with true by lia.
  replace (len (tm_entries m) <=? MAX_TRANSFER_ENTRIES) with true by lia. cbn [negb andb].
  rewrite profile_decode. cbn [rbind]. fold (frame_head m magic).
  unfold frame_bytes at 1. rewrite (decode_entries (frame_head m magic)) by done. cbn [rbind].
  rewrite new_complete by done. cbn [rbind]. rewrite encode_frame_bytes by done. cbn [rbind].
  change (1120 =? CONTROL_FRAME_LEN) with true. cbn [negb].
  now rewrite bool_decide_eq_true_2.
Qed.

(** ** The decoder on arbitrary bytes *)

Lemma decode_entry_total frame start :
  0 <= start -> start + 64 <= len frame ->
  decode_entry frame start <> Panic /\
  forall e, decode_entry frame start = Ok e -> ManifestEntry_wf e.
Proof.
  intros Hs Hl. unfold decode_entry. rd.
  destruct (field frame (start + 52) 4 =? 1); [|destruct (field frame (start + 52) 4 =? 2)]; cbn [rbind];
    (split; [done|]); intros e [= <-]; unfold ManifestEntry_wf; simpl;
    split_and!; first [rewrite len_slice; lia | apply field_u128; lia | apply field_u64; lia
                      | apply field_u32; lia | apply field_u16; lia].
Qed.

Lemma decode_entries_total frame count :
  len frame = 1120 -> 1 <= count <= 16 ->
  let body := fun i entries => let? entry := decode_entry frame (96 + i * ENTRY_LEN) in
                               Ok (entries ++ [entry]) in
  rfor (seqZ 0 count) body [] <> Panic /\
  forall es, rfor (seqZ 0 count) body [] = Ok es -> Forall ManifestEntry_wf es.
Proof.
  intros Hl Hc body. unfold ENTRY_LEN in body. split.
  - apply rfor_no_panic with (P := fun _ => True); [done|].
    intros i es Hi%elem_of_seqZ _. unfold body.
    destruct (decode_entry_total frame (96 + i * 64)) as [Hnp _]; [lia..|].
    now destruct (decode_entry frame (96 + i * 64)).
  - intros es. apply (rfor_inv (fun _ es => Forall ManifestEntry_wf es)); [constructor|].
    intros pre i s s' [post Hpre] HF Hb. unfold body in Hb.
    assert (Hi : i ∈ seqZ 0 count) by (rewrite Hpre; set_solver). apply elem_of_seqZ in Hi.
    destruct (decode_entry_total frame (96 + i * 64)) as [_ Hw]; [lia..|].
    destruct (decode_entry frame (96 + i * 64)) as [e| |] eqn:He; try discriminate.
    injection Hb as <-. apply Forall_app. split; [done|]. repeat constructor; apply (Hw e); done.
Qed.

Lemma new_widths nonce parent_pid child_pid transfer_id profile es m :
  Forall ManifestEntry_wf es -> len nonce = 32 -> u32 parent_pid -> u32 child_pid -> u64 transfer_id ->
  new_with_authority nonce parent_pid child_pid transfer_id profile es = Ok m ->
  manifest_ok m /\ manifest_widths m.
Proof.
  intros Hw Hn Hp Hc Ht (Hok & Hn1 & Hn2 & Hn3 & Hn4 & _ & Hes)%new_sound; [|done]. split; [done|].
  destruct (mo_totals _ Hok) as (Htl & Htm & Hmax).
  assert (HFe : Forall ManifestEntry_wf (tm_entries m)).
  { assert (HFs : Forall ManifestEntry_wf (sort_by id_leb es)) by now rewrite sort_by_perm.
    pose proof (mo_count _ Hok) as Hcnt. rewrite Hes in *. unfold len, numbered, MAX_TRANSFER_ENTRIES in *.
    rewrite length_imap in Hcnt. apply Forall_lookup. intros i e Hi. rewrite list_lookup_imap in Hi.
    destruct (sort_by id_leb es !! i) as [e0|] eqn:Hi0; simpl in Hi; [|discriminate]. injection Hi as <-.
    pose proof (Forall_lookup_1 _ _ _ _ HFs Hi0) as (?&?&?&?&?&?&?). apply lookup_lt_Some in Hi0.
    unfold ManifestEntry_wf. simpl. split_and!; done || ulia. }
  pose proof (sum_le _ (mo_entries _ Hok)).
  assert (0 <= sum_of me_logical_len (tm_entries m)).
  { apply sum_of_nonneg. eapply Forall_impl; [exact HFe|]. intros e (_&_&_&?&_). ulia. }
  unfold manifest_widths. rewrite Hn1, Hn2, Hn3, Hn4.
  split_and!; try done; try ulia. apply (mo_count _ Hok).
Qed.

Lemma new_no_panic nonce pp cp ti pr es : new_with_authority nonce pp cp ti pr es <> Panic.
Proof.
  unfold new_with_authority, MAX_TRANSFER_ENTRIES. destruct (_ || _) eqn:E; [done|]. bsplit.
  pose proof (account_no_panic es (0, 0)).
  destruct (rfor es account_entry (0, 0)); cbn [rbind]; try done.
  destruct (adjacent_ids _); [done|]. destruct (repeated_incarnation _); [done|].
  rewrite number_entries_ok; [done|]. unfold len in *. rewrite sort_by_perm. ulia.
Qed.

Lemma decode_cases magic frame :
  len magic = 8 ->
  TransferManifest_decode magic frame <> Panic /\
  forall m, TransferManifest_decode magic frame = Ok m ->
    manifest_ok m /\ manifest_widths m /\ frame = frame_bytes m magic.
Proof.
  intros Hmg. unfold TransferManifest_decode.
  destruct (len frame =? CONTROL_FRAME_LEN) eqn:Hl; [|done]. bsplit.
  change CONTROL_FRAME_LEN with 1120 in Hl. rd. cbn [negb].
  destruct (negb _); [done|]. destruct (negb _); [done|]. destruct (negb _) eqn:Hc; [done|]. bsplit.
  unfold MAX_TRANSFER_ENTRIES in *.
  assert (Hp : forall z, (if z =? 0 then Ok Legacy else if z =? 1 then Ok LinuxMdweV1
            else if z =? 2 then Ok MacMachV1 else if z =? 3 then Ok WindowsSectionsV1 else Err tt)
            <> (Panic : res unit NativeAuthorityProfile)) by (intros z; repeat case_match; done).
  specialize (Hp (field frame 76 4)).
  destruct (if _ =? 0 then _ else _) as [profile| |]; cbn [rbind]; [|done|done].
  destruct (decode_entries_total frame (field frame 12 4) Hl ltac:(lia)) as [Hnp Hw].
  destruct (rfor _ _ _) as [es| |] eqn:He; cbn [rbind]; [|done|done]. specialize (Hw es eq_refl).
  destruct (new_with_authority _ _ _ _ _ _) as [m'| |] eqn:Hn; cbn [rbind]; [|done|].
  2:{ exfalso. now apply new_no_panic in Hn. }
  apply new_widths in Hn as [Hok Hwd];
    [|done|rewrite len_slice; lia|apply field_u32; lia|apply field_u32; lia|apply field_u64; lia].
  rewrite encode_frame_bytes by done. cbn [rbind].
  destruct (bool_decide _) eqn:Heq; [|done]. bsplit. split; [done|]. now intros m [= <-].
Qed.

(** Round trip of the transfer transcript. Every manifest that can be
    built encodes, under any phase magic, to one fixed-size frame, and the peer
    decodes that frame, under the same magic, to the same manifest. *)
Theorem manifest_roundtrip nonce parent_pid child_pid transfer_id profile es m magic :
  Forall ManifestEntry_wf es -> len nonce = 32 -> u32 parent_pid -> u32 child_pid -> u64 transfer_id ->
  len magic = 8 ->
  new_with_authority nonce parent_pid child_pid transfer_id profile es = Ok m ->
  exists frame, TransferManifest_encode m magic = Ok frame /\ len frame = CONTROL_FRAME_LEN /\
                TransferManifest_decode magic frame = Ok m.
Proof.
  intros Hw Hn Hp Hc Ht Hmg [Hok Hwd]%new_widths; [|done..].
  exists (frame_bytes m magic).
  split_and!; [now apply encode_frame_bytes|now apply frame_bytes_len|now apply decode_frame_bytes].
Qed.

(** C37: The frame decoder is total and canonical. On arbitrary bytes it never
    panics; what it accepts is the one encoding of the manifest it returns, and
    that manifest satisfies every construction invariant: one to sixteen
    well-formed entries strictly sorted by region, distinct incarnations,
    ordinals in order, exact totals without overflow, and a usable identity. *)
Theorem manifest_decode_canonical magic frame :
  len magic = 8 ->
  TransferManifest_decode magic frame <> Panic /\
  forall m, TransferManifest_decode magic frame = Ok m ->
    manifest_ok m /\ TransferManifest_encode m magic = Ok frame /\
    (forall frame', TransferManifest_decode magic frame' = Ok m -> frame' = frame).
Proof.
  intros Hmg. split; [now apply decode_cases|].
  intros m (Hok & Hwd & ->)%decode_cases; [|done]. split_and!; [done|now apply encode_frame_bytes|].
  now intros frame' (_ & _ & ->)%decode_cases.
Qed.

(** ** Phase frames *)

Lemma capability_frame_ok m :
  manifest_widths m ->
  CapabilityFrame_from_manifest m
  = Ok {| cf_bytes := frame_bytes m CAPABILITY_MAGIC; cf_capability_count := len (tm_entries m) |}.
Proof. intros Hwd. unfold CapabilityFrame_from_manifest. now rewrite encode_frame_bytes. Qed.

Lemma phase_frame_ok m magic count :
  manifest_widths m -> len magic = 8 ->
  phase_frame_bytes {| cf_bytes := frame_bytes m CAPABILITY_MAGIC; cf_capability_count := count |} magic
  = Ok (frame_bytes m magic).
Proof.
  intros Hwd Hmg. pose proof (frame_bytes_len m CAPABILITY_MAGIC Hwd eq_refl) as Hl.
  pose proof Hwd as (Hn & _). unfold phase_frame_bytes. cbn [cf_bytes].
  assert (Hk : len (slice magic 4 8) = 4) by (rewrite len_slice; lia). rd. f_equal.
  unfold frame_bytes. pose proof (frame_head_len m CAPABILITY_MAGIC Hn eq_refl) as Hh.
  rewrite !splice_app_take by (rewrite ?len_splice; lia). f_equal.
  assert (Hcap : len CAPABILITY_MAGIC = 8) by reflexivity.
  assert (Hck : len (slice CAPABILITY_MAGIC 4 8) = 4) by reflexivity.
  set (head_only := [8; 12; 16; 48; 52; 56; 64; 68; 72; 76; 80; 88; 96]).
  by_cuts head_only. unfold frame_head. app_slice. reflexivity.
Qed.

(** The magics of the phases. *)
Definition phase_magics : list bytes :=
  [CAPABILITY_MAGIC; COORDINATOR_CAPACITY_READY_MAGIC; COORDINATOR_CAPACITY_REJECT_MAGIC;
   COORDINATOR_PREPARATION_FAILED_MAGIC; RECEIVER_CAPACITY_READY_MAGIC;
   RECEIVER_CAPACITY_REJECT_MAGIC; IMPORTED_MAGIC; SEALED_MAGIC; READY_MAGIC; COMMIT_MAGIC].

Lemma phase_magics_len magic : magic ∈ phase_magics -> len magic = 8.
Proof.
  intros H. enough (HF : Forall (fun mg => len mg = 8) phase_magics) by (rewrite Forall_forall in HF; auto).
  repeat constructor.
Qed.

Lemma decode_wrong_magic m magic magic' :
  manifest_widths m -> len magic = 8 -> len magic' = 8 -> magic <> magic' ->
  TransferManifest_decode magic' (frame_bytes m magic) = Err tt.
Proof.
  intros Hwd Hm Hm' Hne. pose proof (frame_bytes_len m magic Hwd Hm) as Hl.
  unfold TransferManifest_decode. rewrite Hl. change (1120 =? CONTROL_FRAME_LEN) with true. cbn [negb]. rd.
  unfold frame_bytes, frame_head. rewrite <- !app_assoc. rewrite (slice_app_take magic _ 8) by done.
  now rewrite bool_decide_eq_false_2.
Qed.

(** The phase frames of one transfer are bound to its manifest and cannot
    be confused. The frame derived by patching the capability frame equals a
    fresh encoding of the manifest under the phase magic; it decodes under that
    magic only, to that manifest; and the receiver recovers exactly the
    coordinator's capacity status. *)
Theorem phase_frames_bound m magic :
  manifest_ok m -> manifest_widths m -> magic ∈ phase_magics ->
  exists cf frame,
    CapabilityFrame_from_manifest m = Ok cf /\
    phase_frame_bytes cf magic = Ok frame /\ TransferManifest_encode m magic = Ok frame /\
    (forall magic', magic' ∈ phase_magics ->
       TransferManifest_decode magic' frame = if decide (magic' = magic) then Ok m else Err tt) /\
    (forall status frame', coordinator_capacity_frame cf status = Ok frame' ->
       decode_coordinator_capacity frame' = Ok (cf, m, status)).
Proof.
  intros Hok Hwd Hin. pose proof (phase_magics_len magic Hin) as Hm.
  do 2 eexists. split; [now apply capability_frame_ok|]. split; [now apply phase_frame_ok|].
  split; [now apply encode_frame_bytes|]. split.
  - intros magic' Hin'. pose proof (phase_magics_len magic' Hin'). case_decide as Hd.
    + subst. now apply decode_frame_bytes.
    + apply decode_wrong_magic; done || congruence.
  - intros status frame' Hf. unfold coordinator_capacity_frame in Hf.
    assert (Hms : len (coordinator_capacity_magic status) = 8) by now destruct status.
    rewrite phase_frame_ok in Hf by done. injection Hf as <-.
    unfold decode_coordinator_capacity, decode_first.
    destruct status; cbn [coordinator_capacity_magic];
      rewrite ?(decode_wrong_magic m COORDINATOR_CAPACITY_REJECT_MAGIC COORDINATOR_CAPACITY_READY_MAGIC),
        ?(decode_wrong_magic m COORDINATOR_PREPARATION_FAILED_MAGIC COORDINATOR_CAPACITY_READY_MAGIC),
        ?(decode_wrong_magic m COORDINATOR_PREPARATION_FAILED_MAGIC COORDINATOR_CAPACITY_REJECT_MAGIC)
        by done;
      rewrite decode_frame_bytes by done; now rewrite capability_frame_ok.
Qed.

(** ** Witnesses *)

Definition sample_entry (id : Z) (tag : byte) : ManifestEntry :=
  {| me_region_id := id; me_incarnation := replicate 16 tag; me_writer := 1; me_access := ReadOnly;
     me_logical_len := 100; me_mapped_len := 4096; me_ordinal := 0; me_flags := 3 |}.
Definition sample_nonce : bytes := replicate 32 x07.
Definition sample_manifest : TransferManifest := Eval vm_compute in
  match new_with_authority sample_nonce 11 12 5 LinuxMdweV1 [sample_entry 9 x02; sample_entry 3 x01] with
  | Ok m => m
  | _ => {| tm_nonce := []; tm_parent_pid := 0; tm_child_pid := 0; tm_transfer_id := 0;
            tm_authority_profile := Legacy; tm_total_logical := 0; tm_total_mapped := 0;
            tm_entries := [] |}
  end.

Lemma sample_entries_wf : Forall ManifestEntry_wf [sample_entry 9 x02; sample_entry 3 x01].
Proof. repeat constructor; simpl; ulia. Qed.

Lemma manifest_order_independent_witness :
  new_with_authority sample_nonce 11 12 5 LinuxMdweV1 [sample_entry 9 x02; sample_entry 3 x01]
  = new_with_authority sample_nonce 11 12 5 LinuxMdweV1 [sample_entry 3 x01; sample_entry 9 x02].
Proof.
  apply manifest_order_independent; [apply Permutation_swap|apply sample_entries_wf].
Defined.

Lemma manifest_roundtrip_witness :
  exists frame, TransferManifest_encode sample_manifest CAPABILITY_MAGIC = Ok frame /\
                len frame = CONTROL_FRAME_LEN /\
                TransferManifest_decode CAPABILITY_MAGIC frame = Ok sample_manifest.
Proof.
  apply (manifest_roundtrip sample_nonce 11 12 5 LinuxMdweV1 [sample_entry 9 x02; sample_entry 3 x01]);
    [apply sample_entries_wf|reflexivity|ulia|ulia|ulia|reflexivity|vm_compute; reflexivity].
Defined.

Definition sample_frame : bytes := Eval vm_compute in
  match TransferManifest_encode sample_manifest CAPABILITY_MAGIC with Ok f => f | _ => [] end.

Lemma manifest_decode_canonical_witness :
  TransferManifest_encode sample_manifest CAPABILITY_MAGIC = Ok sample_frame.
Proof.
  apply (manifest_decode_canonical CAPABILITY_MAGIC sample_frame); [reflexivity|].
  vm_compute. reflexivity.
Defined.

Lemma sample_manifest_ok : manifest_ok sample_manifest /\ manifest_widths sample_manifest.
Proof.
  apply (new_widths sample_nonce 11 12 5 LinuxMdweV1 [sample_entry 9 x02; sample_entry 3 x01]);
    [apply sample_entries_wf|reflexivity|ulia|ulia|ulia|vm_compute; reflexivity].
Qed.

Lemma phase_frames_bound_witness :
  exists cf frame, CapabilityFrame_from_manifest sample_manifest = Ok cf /\
                   phase_frame_bytes cf COMMIT_MAGIC = Ok frame.
Proof.
  destruct (phase_frames_bound sample_manifest COMMIT_MAGIC) as (cf & frame & H1 & H2 & _);
    [apply sample_manifest_ok|apply sample_manifest_ok|apply list_elem_of_In; simpl; tauto|].
  exists cf, frame. split; assumption.
Defined.
