(* ===== verification/Negotiation.v ===== *)
(** * Negotiation: HELLO, ACCEPT and REJECT ([native-ipc/src/negotiation.rs])

    The three fixed-header frames with their validation and codecs, the
    reduction of two HELLOs to one transcript, and the one-shot decision state
    machine of the transcript. SHA-256 is a parameter ([Sha256]), as is the
    compilation target ([Platform]). *)

From S2P Require Import Prelude Bytes Limits.

(** ** Parameters *)

(** [sha2::Sha256] of a byte string: 32 bytes. *)
Class Sha256 := sha256 : bytes -> bytes.

(** The [cfg!] facts of the build. *)
Inductive TargetOs := Linux | Macos | OtherOs.
Inductive TargetArch := X86_64 | OtherArch.
Class Platform := { target_os : TargetOs; target_arch : TargetArch }.

(** ** Constants *)

(** [*b"NIPCHEL1"]. *)
Definition MAGIC : bytes := [x4e; x49; x50; x43; x48; x45; x4c; x31].
Definition WIRE_MAJOR : Z := 1.
Definition WIRE_MINOR : Z := 0.
Definition HEADER_LEN : Z := 224.
Definition KIND_HELLO : Z := 1.
Definition KIND_ACCEPT : Z := 2.
Definition KIND_REJECT : Z := 3.
Definition ATOMIC_U32_LOCK_FREE : Z := Z.shiftl 1 0.
Definition ATOMIC_U64_LOCK_FREE : Z := Z.shiftl 1 1.
Definition KNOWN_ATOMIC_FLAGS : Z := Z.lor ATOMIC_U32_LOCK_FREE ATOMIC_U64_LOCK_FREE.

Inductive NegotiationWireError :=
| WireError_Truncated
| WireError_BadMagic
| WireError_BadVersion
| WireError_BadKind
| WireError_BadRole
| WireError_BadTarget
| WireError_TargetMismatch
| WireError_BadAtomicFacts
| WireError_AtomicMismatch
| WireError_BadLimits
| WireError_BadRejectReason
| WireError_BadDecisionChallenge
| WireError_NonceMismatch
| WireError_NonCanonical
| WireError_EffectiveMismatch
| WireError_DecisionReplayOrOrder
| WireError_DecisionChallengeMismatch
| WireError_RequiredFeatureNotSupported
| WireError_PayloadTooLarge
| WireError_LengthOverflow
| WireError_AllocationFailed
| WireError_DestinationTooSmall.

(** ** Data *)

Inductive SenderRole := Coordinator | Receiver.

#[export] Instance SenderRole_eq_dec : EqDecision SenderRole.
Proof. solve_decision. Defined.

Definition SenderRole_raw (r : SenderRole) : Z :=
  match r with
  | Coordinator => 1
  | Receiver => 2
  end.

Definition SenderRole_decode (value : Z) : res NegotiationWireError SenderRole :=
  if value =? 1 then Ok Coordinator else if value =? 2 then Ok Receiver else Err WireError_BadRole.

(** A [DecisionChallenge] is its sixteen bytes. *)
Definition DecisionChallenge : Type := bytes.

Definition DecisionChallenge_decode (b : bytes) : res NegotiationWireError DecisionChallenge :=
  if bool_decide (b = zeros 16) then Err WireError_BadDecisionChallenge else Ok b.

(** [FeatureBits([u64; 2])]. *)
Definition FeatureBits : Type := Z * Z.
Definition FEATURE_ATOMIC_U32 : FeatureBits := (Z.shiftl 1 0, 0).
Definition FEATURE_ATOMIC_U64 : FeatureBits := (Z.shiftl 1 1, 0).
Definition KNOWN_FEATURES : FeatureBits :=
  (Z.lor (fst FEATURE_ATOMIC_U32) (fst FEATURE_ATOMIC_U64), 0).

(** [!x] on a [u64] and on a [u32]. *)
Definition u64_not (x : Z) : Z := U64_MAX - x.
Definition u32_not (x : Z) : Z := U32_MAX - x.

Definition is_subset_of (self other : FeatureBits) : bool :=
  (Z.land (fst self) (u64_not (fst other)) =? 0) && (Z.land (snd self) (u64_not (snd other)) =? 0).
Definition features_intersection (self other : FeatureBits) : FeatureBits :=
  (Z.land (fst self) (fst other), Z.land (snd self) (snd other)).
Definition features_union (self other : FeatureBits) : FeatureBits :=
  (Z.lor (fst self) (fst other), Z.lor (snd self) (snd other)).

Record TargetFacts := {
  tf_os : Z;
  tf_architecture : Z;
  tf_pointer_width : Z;
  tf_endian : Z
}.

#[export] Instance TargetFacts_eq_dec : EqDecision TargetFacts.
Proof. solve_decision. Defined.

Definition TargetFacts_current {P : Platform} : TargetFacts :=
  {| tf_os := match target_os with Linux => 1 | Macos => 2 | OtherOs => 3 end;
     tf_architecture := match target_arch with X86_64 => 1 | OtherArch => 2 end;
     tf_pointer_width := 64; tf_endian := 1 |}.

Definition TargetFacts_validate (self : TargetFacts) : res NegotiationWireError TargetFacts :=
  if negb ((1 <=? tf_os self) && (tf_os self <=? 3))
     || negb ((1 <=? tf_architecture self) && (tf_architecture self <=? 2))
     || negb (tf_pointer_width self =? 64) || negb (tf_endian self =? 1)
  then Err WireError_BadTarget
  else Ok self.

Record AtomicOffer := {
  ao_u32_lock_free : bool;
  ao_u64_lock_free : bool;
  ao_u32_alignment : Z;
  ao_u64_alignment : Z;
  ao_page_alignment : Z;
  ao_cache_line_alignment : Z
}.

#[export] Instance AtomicOffer_eq_dec : EqDecision AtomicOffer.
Proof. solve_decision. Defined.

Definition AtomicOffer_validate (self : AtomicOffer) : res NegotiationWireError AtomicOffer :=
  if negb (is_power_of_two (ao_u32_alignment self))
     || negb (is_power_of_two (ao_u64_alignment self))
     || negb (is_power_of_two (ao_page_alignment self))
     || negb (is_power_of_two (ao_cache_line_alignment self))
     || (ao_page_alignment self <? Z.max (ao_u32_alignment self) (ao_u64_alignment self))
     || (ao_cache_line_alignment self <? Z.max (ao_u32_alignment self) (ao_u64_alignment self))
  then Err WireError_BadAtomicFacts
  else Ok self.

Definition AtomicOffer_from_local (value : AtomicCapabilities)
  : res NegotiationWireError AtomicOffer :=
  let? u32_alignment :=
    ok_or (try_from U16_MAX (ac_atomic_u32_alignment value)) WireError_LengthOverflow in
  let? u64_alignment :=
    ok_or (try_from U16_MAX (ac_atomic_u64_alignment value)) WireError_LengthOverflow in
  let? page_alignment :=
    ok_or (try_from U32_MAX (ac_page_alignment value)) WireError_LengthOverflow in
  let? cache_line_alignment :=
    ok_or (try_from U32_MAX (ac_cache_line_alignment value)) WireError_LengthOverflow in
  AtomicOffer_validate
    {| ao_u32_lock_free := ac_atomic_u32_lock_free value;
       ao_u64_lock_free := ac_atomic_u64_lock_free value;
       ao_u32_alignment := u32_alignment; ao_u64_alignment := u64_alignment;
       ao_page_alignment := page_alignment; ao_cache_line_alignment := cache_line_alignment |}.

Record HelloFrame := {
  hf_role : SenderRole;
  hf_nonce : bytes;
  hf_supported_features : FeatureBits;
  hf_required_features : FeatureBits;
  hf_limits : SessionLimits;
  hf_atomics : AtomicOffer;
  hf_target : TargetFacts;
  hf_application_payload : bytes
}.

Record AcceptFrame := {
  af_role : SenderRole;
  af_nonce : bytes;
  af_selected_features : FeatureBits;
  af_effective_limits : SessionLimits;
  af_atomics : AtomicOffer;
  af_target : TargetFacts;
  af_hello_digest : bytes;
  af_decision_challenge : DecisionChallenge
}.

#[export] Instance AcceptFrame_eq_dec : EqDecision AcceptFrame.
Proof. solve_decision. Defined.

Record RejectFrame := {
  rf_role : SenderRole;
  rf_nonce : bytes;
  rf_reason : Z;
  rf_decision_challenge : DecisionChallenge
}.

Inductive NegotiationFrame :=
| Hello (frame : HelloFrame)
| Accept (frame : AcceptFrame)
| Reject (frame : RejectFrame).

(** ** Validation *)

Definition validate_payload_len (length offered_limit : Z) : res NegotiationWireError unit :=
  if (HARD_MAX_BOOTSTRAP_PAYLOAD_BYTES <? length) || (offered_limit <? length)
  then Err WireError_PayloadTooLarge
  else Ok tt.

Definition limits_or_bad (l : SessionLimits) : res NegotiationWireError SessionLimits :=
  map_err (fun _ => WireError_BadLimits) (SessionLimits_validate l).

Definition HelloFrame_validate (self : HelloFrame) : res NegotiationWireError unit :=
  if bool_decide (hf_nonce self = zeros 32) then Err WireError_NonceMismatch else
  if negb (is_subset_of (hf_required_features self) (hf_supported_features self))
  then Err WireError_RequiredFeatureNotSupported else
  limits_or_bad (hf_limits self) >>?
  AtomicOffer_validate (hf_atomics self) >>?
  TargetFacts_validate (hf_target self) >>?
  let? payload_len :=
    ok_or (try_from U32_MAX (len (hf_application_payload self))) WireError_LengthOverflow in
  validate_payload_len payload_len (sl_max_bootstrap_payload_bytes (hf_limits self)).

Definition AcceptFrame_validate (self : AcceptFrame) : res NegotiationWireError unit :=
  if bool_decide (af_nonce self = zeros 32) then Err WireError_NonceMismatch else
  if bool_decide (af_hello_digest self = zeros 32) then Err WireError_EffectiveMismatch else
  limits_or_bad (af_effective_limits self) >>?
  AtomicOffer_validate (af_atomics self) >>?
  TargetFacts_validate (af_target self) >>?
  Ok tt.

Definition RejectFrame_validate (self : RejectFrame) : res NegotiationWireError unit :=
  if bool_decide (rf_nonce self = zeros 32) then Err WireError_NonceMismatch else Ok tt.

(** ** Encoding *)

Definition encode_features (d : bytes) (offset : Z) (value : FeatureBits)
  : res NegotiationWireError bytes :=
  let? d := put_u64 d offset (fst value) in
  put_u64 d (offset + 8) (snd value).

Definition atomic_flags (a : AtomicOffer) : Z :=
  let flags := 0 in
  let flags := if ao_u32_lock_free a then Z.lor flags ATOMIC_U32_LOCK_FREE else flags in
  if ao_u64_lock_free a then Z.lor flags ATOMIC_U64_LOCK_FREE else flags.

Definition encode_common (d nonce : bytes) (supported required : FeatureBits)
  (limits : SessionLimits) (atomics : AtomicOffer) (target : TargetFacts)
  : res NegotiationWireError bytes :=
  let? d := copy_range d 32 64 nonce in
  let? d := encode_features d 64 supported in
  let? d := encode_features d 80 required in
  let? d := put_u16 d 96 (sl_max_regions_per_batch limits) in
  let? d := put_u32 d 100 (sl_max_active_regions limits) in
  let? d := put_u64 d 104 (sl_max_region_bytes limits) in
  let? d := put_u64 d 112 (sl_max_batch_bytes limits) in
  let? d := put_u64 d 120 (sl_max_active_bytes limits) in
  let? d := put_u64 d 128 (sl_max_transactions limits) in
  let? d := put_u32 d 136 (sl_max_bootstrap_payload_bytes limits) in
  let? d := put_u32 d 140 (sl_max_control_payload_bytes limits) in
  let? d := put_u32 d 144 (atomic_flags atomics) in
  let? d := put_u16 d 148 (ao_u32_alignment atomics) in
  let? d := put_u16 d 150 (ao_u64_alignment atomics) in
  let? d := put_u32 d 152 (ao_page_alignment atomics) in
  let? d := put_u32 d 156 (ao_cache_line_alignment atomics) in
  let? d := put_u16 d 160 (tf_os target) in
  let? d := put_u16 d 162 (tf_architecture target) in
  let? d := put_u8 d 164 (tf_pointer_width target) in
  put_u8 d 165 (tf_endian target).

Definition encoded_len (self : NegotiationFrame) : res NegotiationWireError Z :=
  match self with
  | Hello frame => HelloFrame_validate frame
  | Accept frame => AcceptFrame_validate frame
  | Reject frame => RejectFrame_validate frame
  end >>?
  ok_or (checked_add USIZE_MAX HEADER_LEN
           (match self with
            | Hello frame => len (hf_application_payload frame)
            | Accept _ | Reject _ => 0
            end)) WireError_LengthOverflow.

(** The frame-specific part of [encode_into]. *)
Definition encode_body (self : NegotiationFrame) (required : Z) (d : bytes)
  : res NegotiationWireError bytes :=
  match self with
  | Hello frame =>
      HelloFrame_validate frame >>?
      let? d := put_u16 d 12 KIND_HELLO in
      let? d := put_u8 d 14 (SenderRole_raw (hf_role frame)) in
      let? d := encode_common d (hf_nonce frame) (hf_supported_features frame)
                  (hf_required_features frame) (hf_limits frame) (hf_atomics frame)
                  (hf_target frame) in
      copy_range d HEADER_LEN required (hf_application_payload frame)
  | Accept frame =>
      AcceptFrame_validate frame >>?
      let? d := put_u16 d 12 KIND_ACCEPT in
      let? d := put_u8 d 14 (SenderRole_raw (af_role frame)) in
      let? d := encode_common d (af_nonce frame) (af_selected_features frame) (0, 0)
                  (af_effective_limits frame) (af_atomics frame) (af_target frame) in
      let? d := copy_range d 80 96 (af_decision_challenge frame) in
      copy_range d 166 198 (af_hello_digest frame)
  | Reject frame =>
      RejectFrame_validate frame >>?
      let? d := put_u16 d 12 KIND_REJECT in
      let? d := put_u8 d 14 (SenderRole_raw (rf_role frame)) in
      let? d := put_u32 d 28 (rf_reason frame) in
      let? d := copy_range d 32 64 (rf_nonce frame) in
      copy_range d 80 96 (rf_decision_challenge frame)
  end.

Definition NegotiationFrame_encode_into (self : NegotiationFrame)
  : stm bytes NegotiationWireError Z :=
  let! destination := sget in
  let! required := slift (encoded_len self) in
  if len destination <? required then serr WireError_DestinationTooSmall else
  supdate (fun d =>
    let? d := fill_zero d 0 required in
    let? d := copy_range d 0 8 MAGIC in
    let? d := put_u16 d 8 WIRE_MAJOR in
    let? d := put_u16 d 10 WIRE_MINOR in
    put_u32 d 16 HEADER_LEN) >>!
  let! required32 := slift (ok_or (try_from U32_MAX required) WireError_LengthOverflow) in
  supdate (fun d => put_u32 d 20 required32) >>!
  let! difference := slift (usub required HEADER_LEN) in
  let! payload_len := slift (ok_or (try_from U32_MAX difference) WireError_LengthOverflow) in
  supdate (fun d => put_u32 d 24 payload_len) >>!
  supdate (encode_body self required) >>!
  sret required.

Definition hello_encoded_len (frame : HelloFrame) : res NegotiationWireError Z :=
  HelloFrame_validate frame >>?
  ok_or (checked_add USIZE_MAX HEADER_LEN (len (hf_application_payload frame)))
        WireError_LengthOverflow.

Definition encode_hello_into (frame : HelloFrame) : stm bytes NegotiationWireError Z :=
  let! destination := sget in
  let! required := slift (hello_encoded_len frame) in
  if len destination <? required then serr WireError_DestinationTooSmall else
  supdate (fun d =>
    let? d := put_u8 d 15 0 in
    let? d := fill_zero d 28 32 in
    let? d := fill_zero d 98 100 in
    let? d := fill_zero d 166 HEADER_LEN in
    let? d := copy_range d 0 8 MAGIC in
    let? d := put_u16 d 8 WIRE_MAJOR in
    let? d := put_u16 d 10 WIRE_MINOR in
    let? d := put_u16 d 12 KIND_HELLO in
    let? d := put_u8 d 14 (SenderRole_raw (hf_role frame)) in
    put_u32 d 16 HEADER_LEN) >>!
  let! required32 := slift (ok_or (try_from U32_MAX required) WireError_LengthOverflow) in
  supdate (fun d => put_u32 d 20 required32) >>!
  let! payload_len :=
    slift (ok_or (try_from U32_MAX (len (hf_application_payload frame)))
                 WireError_LengthOverflow) in
  supdate (fun d =>
    let? d := put_u32 d 24 payload_len in
    let? d := encode_common d (hf_nonce frame) (hf_supported_features frame)
                (hf_required_features frame) (hf_limits frame) (hf_atomics frame)
                (hf_target frame) in
    copy_range d HEADER_LEN required (hf_application_payload frame)) >>!
  sret required.


(** ** Decoding *)

Definition decode_features (source : bytes) (offset : Z) : res NegotiationWireError FeatureBits :=
  let? low := get_u64 source offset in
  let? high := get_u64 source (offset + 8) in
  Ok (low, high).

Definition decode_limits (source : bytes) : res NegotiationWireError SessionLimits :=
  let? reserved := get_u16 source 98 in
  if negb (reserved =? 0) then Err WireError_NonCanonical else
  let? max_regions_per_batch := get_u16 source 96 in
  let? max_active_regions := get_u32 source 100 in
  let? max_region_bytes := get_u64 source 104 in
  let? max_batch_bytes := get_u64 source 112 in
  let? max_active_bytes := get_u64 source 120 in
  let? max_transactions := get_u64 source 128 in
  let? max_bootstrap_payload_bytes := get_u32 source 136 in
  let? max_control_payload_bytes := get_u32 source 140 in
  Ok {| sl_max_regions_per_batch := max_regions_per_batch;
        sl_max_region_bytes := max_region_bytes;
        sl_max_batch_bytes := max_batch_bytes;
        sl_max_active_regions := max_active_regions;
        sl_max_active_bytes := max_active_bytes;
        sl_max_transactions := max_transactions;
        sl_max_bootstrap_payload_bytes := max_bootstrap_payload_bytes;
        sl_max_control_payload_bytes := max_control_payload_bytes |}.

Definition decode_atomics (source : bytes) : res NegotiationWireError AtomicOffer :=
  let? flags := get_u32 source 144 in
  if negb (Z.land flags (u32_not KNOWN_ATOMIC_FLAGS) =? 0) then Err WireError_BadAtomicFacts else
  let? u32_alignment := get_u16 source 148 in
  let? u64_alignment := get_u16 source 150 in
  let? page_alignment := get_u32 source 152 in
  let? cache_line_alignment := get_u32 source 156 in
  AtomicOffer_validate
    {| ao_u32_lock_free := negb (Z.land flags ATOMIC_U32_LOCK_FREE =? 0);
       ao_u64_lock_free := negb (Z.land flags ATOMIC_U64_LOCK_FREE =? 0);
       ao_u32_alignment := u32_alignment; ao_u64_alignment := u64_alignment;
       ao_page_alignment := page_alignment; ao_cache_line_alignment := cache_line_alignment |}.

Definition decode_target (source : bytes) : res NegotiationWireError TargetFacts :=
  let? os := get_u16 source 160 in
  let? architecture := get_u16 source 162 in
  let? pointer_width := get_u8 source 164 in
  let? endian := get_u8 source 165 in
  TargetFacts_validate {| tf_os := os; tf_architecture := architecture;
                          tf_pointer_width := pointer_width; tf_endian := endian |}.

(** The three arms of [decode_frame]'s [match kind]. *)
Definition decode_hello {A : Allocator} (source : bytes) (role : SenderRole) (nonce : bytes)
  (payload_len local_payload_limit : Z) : res NegotiationWireError NegotiationFrame :=
  let? reason := get_u32 source 28 in
  let? digest := index_range source 166 198 in
  if negb (reason =? 0) || any_nonzero digest then Err WireError_NonCanonical else
  validate_payload_len payload_len local_payload_limit >>?
  let? supported_features := decode_features source 64 in
  let? required_features := decode_features source 80 in
  if negb (is_subset_of required_features supported_features)
  then Err WireError_RequiredFeatureNotSupported else
  let? limits := decode_limits source in
  let? limits := limits_or_bad limits in
  let? atomics := decode_atomics source in
  let? target := decode_target source in
  validate_payload_len payload_len (sl_max_bootstrap_payload_bytes limits) >>?
  if negb (try_reserve_exact payload_len) then Err WireError_AllocationFailed else
  let? application_payload := index_range source HEADER_LEN (len source) in
  let frame := {| hf_role := role; hf_nonce := nonce;
                  hf_supported_features := supported_features;
                  hf_required_features := required_features;
                  hf_limits := limits; hf_atomics := atomics; hf_target := target;
                  hf_application_payload := application_payload |} in
  HelloFrame_validate frame >>?
  Ok (Hello frame).

Definition decode_accept (source : bytes) (role : SenderRole) (nonce : bytes) (payload_len : Z)
  : res NegotiationWireError NegotiationFrame :=
  let? reason := get_u32 source 28 in
  if negb (payload_len =? 0) || negb (reason =? 0) then Err WireError_NonCanonical else
  let? selected_features := decode_features source 64 in
  let? limits := decode_limits source in
  let? effective_limits := limits_or_bad limits in
  let? atomics := decode_atomics source in
  let? target := decode_target source in
  let? hello_digest := index_range source 166 198 in
  let? challenge := index_range source 80 96 in
  let? decision_challenge := DecisionChallenge_decode challenge in
  let frame := {| af_role := role; af_nonce := nonce; af_selected_features := selected_features;
                  af_effective_limits := effective_limits; af_atomics := atomics;
                  af_target := target; af_hello_digest := hello_digest;
                  af_decision_challenge := decision_challenge |} in
  AcceptFrame_validate frame >>?
  Ok (Accept frame).

Definition decode_reject (source : bytes) (role : SenderRole) (nonce : bytes) (payload_len : Z)
  : res NegotiationWireError NegotiationFrame :=
  let? features := index_range source 64 80 in
  let? body := index_range source 96 198 in
  if negb (payload_len =? 0) || any_nonzero features || any_nonzero body
  then Err WireError_NonCanonical else
  let? reason := get_u32 source 28 in
  if reason =? 0 then Err WireError_BadRejectReason else
  let? challenge := index_range source 80 96 in
  let? decision_challenge := DecisionChallenge_decode challenge in
  let frame := {| rf_role := role; rf_nonce := nonce; rf_reason := reason;
                  rf_decision_challenge := decision_challenge |} in
  RejectFrame_validate frame >>?
  Ok (Reject frame).

Definition decode_frame {A : Allocator} (source : bytes) (expected_role : SenderRole)
  (expected_nonce : bytes) (local_payload_limit : Z) : res NegotiationWireError NegotiationFrame :=
  if len source <? HEADER_LEN then Err WireError_Truncated else
  let? magic := index_range source 0 8 in
  if negb (bool_decide (magic = MAGIC)) then Err WireError_BadMagic else
  let? major := get_u16 source 8 in
  let? minor := get_u16 source 10 in
  if negb (major =? WIRE_MAJOR) || negb (minor =? WIRE_MINOR) then Err WireError_BadVersion else
  let? kind := get_u16 source 12 in
  let? role := get_u8 source 14 in
  let? role := SenderRole_decode role in
  if negb (bool_decide (role = expected_role)) then Err WireError_BadRole else
  let? reserved := get_u8 source 15 in
  let? header_len := get_u32 source 16 in
  let? tail := index_range source 198 224 in
  if negb (reserved =? 0) || negb (header_len =? HEADER_LEN) || any_nonzero tail
  then Err WireError_NonCanonical else
  let? frame_len := get_u32 source 20 in
  let? payload_len := get_u32 source 24 in
  let? expected_len := ok_or (checked_add USIZE_MAX HEADER_LEN payload_len)
                             WireError_LengthOverflow in
  if negb (frame_len =? expected_len) || negb (len source =? expected_len)
  then Err WireError_NonCanonical else
  let? nonce := index_range source 32 64 in
  if bool_decide (nonce = zeros 32) || negb (bool_decide (nonce = expected_nonce))
  then Err WireError_NonceMismatch else
  if kind =? KIND_HELLO then decode_hello source role nonce payload_len local_payload_limit else
  if kind =? KIND_ACCEPT then decode_accept source role nonce payload_len else
  if kind =? KIND_REJECT then decode_reject source role nonce payload_len else
  Err WireError_BadKind.

(** ** The HELLO digest

    A hasher is the byte string it was fed; [finalize] applies [sha256]. *)

Definition hello_prefix (frame : HelloFrame) : bytes :=
  MAGIC ++ le_bytes 2 WIRE_MAJOR ++ le_bytes 2 WIRE_MINOR ++ le_bytes 2 KIND_HELLO
  ++ le_bytes 1 (SenderRole_raw (hf_role frame)) ++ hf_nonce frame
  ++ le_bytes 8 (fst (hf_supported_features frame)) ++ le_bytes 8 (snd (hf_supported_features frame))
  ++ le_bytes 8 (fst (hf_required_features frame)) ++ le_bytes 8 (snd (hf_required_features frame))
  ++ le_bytes 2 (sl_max_regions_per_batch (hf_limits frame))
  ++ le_bytes 4 (sl_max_active_regions (hf_limits frame))
  ++ le_bytes 8 (sl_max_region_bytes (hf_limits frame))
  ++ le_bytes 8 (sl_max_batch_bytes (hf_limits frame))
  ++ le_bytes 8 (sl_max_active_bytes (hf_limits frame))
  ++ le_bytes 8 (sl_max_transactions (hf_limits frame))
  ++ le_bytes 4 (sl_max_bootstrap_payload_bytes (hf_limits frame))
  ++ le_bytes 4 (sl_max_control_payload_bytes (hf_limits frame))
  ++ le_bytes 4 (atomic_flags (hf_atomics frame))
  ++ le_bytes 2 (ao_u32_alignment (hf_atomics frame))
  ++ le_bytes 2 (ao_u64_alignment (hf_atomics frame))
  ++ le_bytes 4 (ao_page_alignment (hf_atomics frame))
  ++ le_bytes 4 (ao_cache_line_alignment (hf_atomics frame))
  ++ le_bytes 2 (tf_os (hf_target frame)) ++ le_bytes 2 (tf_architecture (hf_target frame))
  ++ le_bytes 1 (tf_pointer_width (hf_target frame)) ++ le_bytes 1 (tf_endian (hf_target frame)).

Definition hash_hello (hasher : bytes) (frame : HelloFrame) : res NegotiationWireError bytes :=
  let? payload_len := expect (try_from U32_MAX (len (hf_application_payload frame))) in
  Ok (hasher ++ hello_prefix frame ++ le_bytes 4 payload_len ++ hf_application_payload frame).

(** [b"native-ipc-vnext-hello-transcript-v1"]. *)
Definition HELLO_DOMAIN : bytes :=
  [x6e; x61; x74; x69; x76; x65; x2d; x69; x70; x63; x2d; x76; x6e; x65; x78; x74; x2d; x68;
   x65; x6c; x6c; x6f; x2d; x74; x72; x61; x6e; x73; x63; x72; x69; x70; x74; x2d; x76; x31].

Definition hello_preimage (coordinator receiver : HelloFrame) : res NegotiationWireError bytes :=
  let? hasher := hash_hello HELLO_DOMAIN coordinator in
  hash_hello hasher receiver.

Definition canonical_hello_digest {S : Sha256} (coordinator receiver : HelloFrame)
  : res NegotiationWireError bytes :=
  let? hasher := hello_preimage coordinator receiver in
  Ok (sha256 hasher).

(** ** The transcript *)

Record HelloPair := { hp_coordinator : HelloFrame; hp_receiver : HelloFrame }.

Record NegotiatedTranscript := {
  nt_nonce : bytes;
  nt_selected_features : FeatureBits;
  nt_effective_limits : SessionLimits;
  nt_effective_atomics : AtomicOffer;
  nt_target : TargetFacts;
  nt_wire_major : Z;
  nt_wire_minor : Z;
  nt_hello_digest : bytes;
  nt_decision_challenge : option DecisionChallenge;
  nt_accepted_roles : Z
}.

Record AcceptedTranscriptFacts := {
  atf_nonce : bytes;
  atf_selected_features : FeatureBits;
  atf_effective_limits : SessionLimits;
  atf_effective_atomics : AtomicOffer;
  atf_target : TargetFacts;
  atf_wire_major : Z;
  atf_wire_minor : Z;
  atf_hello_digest : bytes;
  atf_decision_challenge : DecisionChallenge
}.

Definition set_accepted_roles (roles : Z) (self : NegotiatedTranscript) : NegotiatedTranscript :=
  {| nt_nonce := nt_nonce self; nt_selected_features := nt_selected_features self;
     nt_effective_limits := nt_effective_limits self;
     nt_effective_atomics := nt_effective_atomics self; nt_target := nt_target self;
     nt_wire_major := nt_wire_major self; nt_wire_minor := nt_wire_minor self;
     nt_hello_digest := nt_hello_digest self;
     nt_decision_challenge := nt_decision_challenge self; nt_accepted_roles := roles |}.

Definition set_decision_challenge (challenge : option DecisionChallenge)
  (self : NegotiatedTranscript) : NegotiatedTranscript :=
  {| nt_nonce := nt_nonce self; nt_selected_features := nt_selected_features self;
     nt_effective_limits := nt_effective_limits self;
     nt_effective_atomics := nt_effective_atomics self; nt_target := nt_target self;
     nt_wire_major := nt_wire_major self; nt_wire_minor := nt_wire_minor self;
     nt_hello_digest := nt_hello_digest self;
     nt_decision_challenge := challenge; nt_accepted_roles := nt_accepted_roles self |}.

Definition same_alignments (offer local_atomics : AtomicOffer) : bool :=
  negb (negb (ao_u32_alignment offer =? ao_u32_alignment local_atomics)
        || negb (ao_u64_alignment offer =? ao_u64_alignment local_atomics)
        || negb (ao_page_alignment offer =? ao_page_alignment local_atomics)
        || negb (ao_cache_line_alignment offer =? ao_cache_line_alignment local_atomics)).

Definition from_hello_pair {S : Sha256} {P : Platform} (hellos : HelloPair)
  (verified_local_atomics : AtomicCapabilities) : res NegotiationWireError NegotiatedTranscript :=
  let coordinator := hp_coordinator hellos in
  let receiver := hp_receiver hellos in
  HelloFrame_validate coordinator >>?
  HelloFrame_validate receiver >>?
  if negb (bool_decide (hf_role coordinator = Coordinator))
     || negb (bool_decide (hf_role receiver = Receiver))
  then Err WireError_BadRole else
  if negb (bool_decide (hf_nonce coordinator = hf_nonce receiver))
  then Err WireError_NonceMismatch else
  let target := TargetFacts_current in
  if negb (bool_decide (hf_target coordinator = target))
     || negb (bool_decide (hf_target receiver = target))
  then Err WireError_TargetMismatch else
  let? local_atomics := AtomicOffer_from_local verified_local_atomics in
  rfor [hf_atomics coordinator; hf_atomics receiver]
    (fun offer _ => if same_alignments offer local_atomics then Ok tt
                    else Err WireError_AtomicMismatch) tt >>?
  let effective_atomics :=
    {| ao_u32_lock_free := ao_u32_lock_free local_atomics
         && ao_u32_lock_free (hf_atomics coordinator) && ao_u32_lock_free (hf_atomics receiver);
       ao_u64_lock_free := ao_u64_lock_free local_atomics
         && ao_u64_lock_free (hf_atomics coordinator) && ao_u64_lock_free (hf_atomics receiver);
       ao_u32_alignment := ao_u32_alignment local_atomics;
       ao_u64_alignment := ao_u64_alignment local_atomics;
       ao_page_alignment := ao_page_alignment local_atomics;
       ao_cache_line_alignment := ao_cache_line_alignment local_atomics |} in
  let atomic_features :=
    (Z.lor (Z.b2z (ao_u32_lock_free effective_atomics) * fst FEATURE_ATOMIC_U32)
           (Z.b2z (ao_u64_lock_free effective_atomics) * fst FEATURE_ATOMIC_U64), 0) in
  let selected_features :=
    features_intersection
      (features_intersection
         (features_intersection (hf_supported_features coordinator)
                                (hf_supported_features receiver))
         KNOWN_FEATURES)
      atomic_features in
  let required :=
    features_union (hf_required_features coordinator) (hf_required_features receiver) in
  if negb (is_subset_of required selected_features)
  then Err WireError_RequiredFeatureNotSupported else
  let? effective_limits :=
    map_err (fun _ => WireError_BadLimits)
            (SessionLimits_negotiate (hf_limits coordinator) (hf_limits receiver)) in
  let? hello_digest := canonical_hello_digest coordinator receiver in
  Ok {| nt_nonce := hf_nonce coordinator; nt_selected_features := selected_features;
        nt_effective_limits := effective_limits; nt_effective_atomics := effective_atomics;
        nt_target := target; nt_wire_major := WIRE_MAJOR; nt_wire_minor := WIRE_MINOR;
        nt_hello_digest := hello_digest; nt_decision_challenge := None; nt_accepted_roles := 0 |}.

Definition from_hellos {S : Sha256} {P : Platform} (hellos : HelloPair)
  (verified_local_atomics : AtomicCapabilities) : res NegotiationWireError NegotiatedTranscript :=
  from_hello_pair hellos verified_local_atomics.

Definition from_hellos_with_peer_payload {S : Sha256} {P : Platform} (hellos : HelloPair)
  (verified_local_atomics : AtomicCapabilities) (peer_role : SenderRole)
  : res NegotiationWireError (NegotiatedTranscript * bytes) :=
  let? transcript := from_hello_pair hellos verified_local_atomics in
  let peer_payload :=
    match peer_role with
    | Coordinator => hf_application_payload (hp_coordinator hellos)
    | Receiver => hf_application_payload (hp_receiver hellos)
    end in
  Ok (transcript, peer_payload).

Definition accept_frame (self : NegotiatedTranscript) (role : SenderRole)
  (decision_challenge : DecisionChallenge) : AcceptFrame :=
  {| af_role := role; af_nonce := nt_nonce self;
     af_selected_features := nt_selected_features self;
     af_effective_limits := nt_effective_limits self; af_atomics := nt_effective_atomics self;
     af_target := nt_target self; af_hello_digest := nt_hello_digest self;
     af_decision_challenge := decision_challenge |}.

Definition coordinator_accept (self : NegotiatedTranscript) (decision_challenge : DecisionChallenge)
  : res NegotiationWireError AcceptFrame :=
  if negb (nt_accepted_roles self =? 0) then Err WireError_DecisionReplayOrOrder else
  Ok (accept_frame self Coordinator decision_challenge).

Definition receiver_accept (self : NegotiatedTranscript) : res NegotiationWireError AcceptFrame :=
  if negb (nt_accepted_roles self =? 1) then Err WireError_DecisionReplayOrOrder else
  let? challenge := ok_or (nt_decision_challenge self) WireError_DecisionReplayOrOrder in
  Ok (accept_frame self Receiver challenge).

(** [self.accepted_roles = u8::MAX]. *)
Definition POISONED : Z := U8_MAX.
Definition poison : stm NegotiatedTranscript NegotiationWireError unit :=
  smodify (set_accepted_roles POISONED).

Definition take_accepted_facts
  : stm NegotiatedTranscript NegotiationWireError AcceptedTranscriptFacts :=
  let! self := sget in
  if negb (nt_accepted_roles self =? 3)
  then poison >>! serr WireError_DecisionReplayOrOrder else
  let! decision_challenge :=
    slift (ok_or (nt_decision_challenge self) WireError_DecisionReplayOrOrder) in
  poison >>!
  sret {| atf_nonce := nt_nonce self; atf_selected_features := nt_selected_features self;
          atf_effective_limits := nt_effective_limits self;
          atf_effective_atomics := nt_effective_atomics self; atf_target := nt_target self;
          atf_wire_major := nt_wire_major self; atf_wire_minor := nt_wire_minor self;
          atf_hello_digest := nt_hello_digest self;
          atf_decision_challenge := decision_challenge |}.

Definition coordinator_reject (decision_challenge : DecisionChallenge) (reason : Z)
  : stm NegotiatedTranscript NegotiationWireError RejectFrame :=
  let! self := sget in
  if negb (nt_accepted_roles self =? 0)
  then poison >>! serr WireError_DecisionReplayOrOrder else
  let reject := {| rf_role := Coordinator; rf_nonce := nt_nonce self; rf_reason := reason;
                   rf_decision_challenge := decision_challenge |} in
  slift (RejectFrame_validate reject) >>!
  poison >>!
  sret reject.

Definition receiver_reject (reason : Z)
  : stm NegotiatedTranscript NegotiationWireError RejectFrame :=
  let! self := sget in
  if negb (nt_accepted_roles self =? 1)
  then poison >>! serr WireError_DecisionReplayOrOrder else
  let! decision_challenge :=
    slift (ok_or (nt_decision_challenge self) WireError_DecisionReplayOrOrder) in
  let reject := {| rf_role := Receiver; rf_nonce := nt_nonce self; rf_reason := reason;
                   rf_decision_challenge := decision_challenge |} in
  slift (RejectFrame_validate reject) >>!
  poison >>!
  sret reject.

Definition validate_reject (reject : RejectFrame) (expected_role : SenderRole)
  : stm NegotiatedTranscript NegotiationWireError Z :=
  let! self := sget in
  let order_is_valid :=
    match expected_role with
    | Coordinator => nt_accepted_roles self =? 0
    | Receiver => nt_accepted_roles self =? 1
    end in
  if negb order_is_valid then poison >>! serr WireError_DecisionReplayOrOrder else
  match RejectFrame_validate reject with
  | Err error => poison >>! serr error
  | Panic => slift Panic
  | Ok _ =>
      if negb (bool_decide (rf_role reject = expected_role))
         || negb (bool_decide (rf_nonce reject = nt_nonce self))
      then poison >>! serr WireError_EffectiveMismatch else
      match expected_role, nt_decision_challenge self with
      | Receiver, None => poison >>! serr WireError_DecisionReplayOrOrder
      | Receiver, Some challenge =>
          if negb (bool_decide (rf_decision_challenge reject = challenge))
          then poison >>! serr WireError_DecisionChallengeMismatch
          else poison >>! sret (rf_reason reject)
      | Coordinator, _ => poison >>! sret (rf_reason reject)
      end
  end.

Definition validate_accept (accept : AcceptFrame) (expected_role : SenderRole)
  : stm NegotiatedTranscript NegotiationWireError unit :=
  let! self := sget in
  if negb (nt_wire_major self =? WIRE_MAJOR) || negb (nt_wire_minor self =? WIRE_MINOR)
  then serr WireError_BadVersion else
  let expected_bit := match expected_role with Coordinator => 1 | Receiver => 2 end in
  if (nt_accepted_roles self =? U8_MAX)
     || ((expected_bit =? 2) && negb (nt_accepted_roles self =? 1))
     || negb (Z.land (nt_accepted_roles self) expected_bit =? 0)
  then poison >>! serr WireError_DecisionReplayOrOrder else
  let! challenge :=
    slift (match expected_role with
           | Coordinator => Ok (af_decision_challenge accept)
           | Receiver => ok_or (nt_decision_challenge self) WireError_DecisionReplayOrOrder
           end) in
  if bool_decide (expected_role = Receiver)
     && negb (bool_decide (af_decision_challenge accept = challenge))
  then poison >>! serr WireError_DecisionChallengeMismatch else
  if negb (bool_decide (accept = accept_frame self expected_role challenge))
  then poison >>! serr WireError_EffectiveMismatch else
  (if bool_decide (expected_role = Coordinator)
   then smodify (set_decision_challenge (Some challenge)) else sret tt) >>!
  smodify (fun self => set_accepted_roles (Z.lor (nt_accepted_roles self) expected_bit) self).
