(* ===== verification/NegotiationCodec.v ===== *)
(** * NegotiationCodec: the HELLO, ACCEPT and REJECT wire format

    [frame_wire] is the 224-byte header plus payload of a frame as a
    concatenation of fields. The encoders produce it, for every reused
    destination buffer, and the decoder accepts exactly it. *)

From S2P Require Import Prelude Bytes Limits Negotiation.

(** ** The widths the fields have by their types *)

Definition features_wf (f : FeatureBits) : Prop := u64 (fst f) /\ u64 (snd f).

Definition limits_wf (l : SessionLimits) : Prop :=
  u16 (sl_max_regions_per_batch l) /\ u32 (sl_max_active_regions l) /\
  u64 (sl_max_region_bytes l) /\ u64 (sl_max_batch_bytes l) /\ u64 (sl_max_active_bytes l) /\
  u64 (sl_max_transactions l) /\ u32 (sl_max_bootstrap_payload_bytes l) /\
  u32 (sl_max_control_payload_bytes l).

Definition atomics_wf (a : AtomicOffer) : Prop :=
  u16 (ao_u32_alignment a) /\ u16 (ao_u64_alignment a) /\ u32 (ao_page_alignment a) /\
  u32 (ao_cache_line_alignment a).

Definition target_wf (t : TargetFacts) : Prop :=
  u16 (tf_os t) /\ u16 (tf_architecture t) /\ u8 (tf_pointer_width t) /\ u8 (tf_endian t).

(** A [DecisionChallenge] can only be made by [decode]: it is not zero. *)
Definition challenge_wf (c : DecisionChallenge) : Prop := len c = 16 /\ c <> zeros 16.

Definition hello_wf (f : HelloFrame) : Prop :=
  len (hf_nonce f) = 32 /\ features_wf (hf_supported_features f) /\
  features_wf (hf_required_features f) /\ limits_wf (hf_limits f) /\ atomics_wf (hf_atomics f) /\
  target_wf (hf_target f).

Definition accept_wf (f : AcceptFrame) : Prop :=
  len (af_nonce f) = 32 /\ features_wf (af_selected_features f) /\
  limits_wf (af_effective_limits f) /\ atomics_wf (af_atomics f) /\ target_wf (af_target f) /\
  len (af_hello_digest f) = 32 /\ challenge_wf (af_decision_challenge f).

(** The reason is a [NonZeroU32]. *)
Definition reject_wf (f : RejectFrame) : Prop :=
  len (rf_nonce f) = 32 /\ u32 (rf_reason f) /\ rf_reason f <> 0 /\
  challenge_wf (rf_decision_challenge f).

Definition frame_wf (f : NegotiationFrame) : Prop :=
  match f with
  | Hello f => hello_wf f
  | Accept f => accept_wf f
  | Reject f => reject_wf f
  end.

Definition frame_validate (f : NegotiationFrame) : res NegotiationWireError unit :=
  match f with
  | Hello f => HelloFrame_validate f
  | Accept f => AcceptFrame_validate f
  | Reject f => RejectFrame_validate f
  end.

(** ** The wire format *)

Definition features_wire (f : FeatureBits) : bytes := le_bytes 8 (fst f) ++ le_bytes 8 (snd f).

Definition limits_wire (l : SessionLimits) : bytes :=
  le_bytes 2 (sl_max_regions_per_batch l) ++ zeros 2 ++ le_bytes 4 (sl_max_active_regions l)
  ++ le_bytes 8 (sl_max_region_bytes l) ++ le_bytes 8 (sl_max_batch_bytes l)
  ++ le_bytes 8 (sl_max_active_bytes l) ++ le_bytes 8 (sl_max_transactions l)
  ++ le_bytes 4 (sl_max_bootstrap_payload_bytes l) ++ le_bytes 4 (sl_max_control_payload_bytes l).

Definition atomics_wire (a : AtomicOffer) : bytes :=
  le_bytes 4 (atomic_flags a) ++ le_bytes 2 (ao_u32_alignment a) ++ le_bytes 2 (ao_u64_alignment a)
  ++ le_bytes 4 (ao_page_alignment a) ++ le_bytes 4 (ao_cache_line_alignment a).

Definition target_wire (t : TargetFacts) : bytes :=
  le_bytes 2 (tf_os t) ++ le_bytes 2 (tf_architecture t) ++ le_bytes 1 (tf_pointer_width t)
  ++ le_bytes 1 (tf_endian t).

Definition facts_wire (l : SessionLimits) (a : AtomicOffer) (t : TargetFacts) : bytes :=
  limits_wire l ++ atomics_wire a ++ target_wire t.

(** The header common to the three kinds, with its kind-specific parts. *)
Definition head_wire (kind : Z) (role : SenderRole) (payload_len : Z)
  (b28 nonce b64 b80 b96 b166 : bytes) : bytes :=
  MAGIC ++ le_bytes 2 WIRE_MAJOR ++ le_bytes 2 WIRE_MINOR ++ le_bytes 2 kind
  ++ le_bytes 1 (SenderRole_raw role) ++ zeros 1 ++ le_bytes 4 HEADER_LEN
  ++ le_bytes 4 (HEADER_LEN + payload_len) ++ le_bytes 4 payload_len
  ++ b28 ++ nonce ++ b64 ++ b80 ++ b96 ++ b166 ++ zeros 26.

Definition frame_wire (f : NegotiationFrame) : bytes :=
  match f with
  | Hello f =>
      head_wire KIND_HELLO (hf_role f) (len (hf_application_payload f)) (zeros 4) (hf_nonce f)
        (features_wire (hf_supported_features f)) (features_wire (hf_required_features f))
        (facts_wire (hf_limits f) (hf_atomics f) (hf_target f)) (zeros 32)
      ++ hf_application_payload f
  | Accept f =>
      head_wire KIND_ACCEPT (af_role f) 0 (zeros 4) (af_nonce f)
        (features_wire (af_selected_features f)) (af_decision_challenge f)
        (facts_wire (af_effective_limits f) (af_atomics f) (af_target f)) (af_hello_digest f)
  | Reject f =>
      head_wire KIND_REJECT (rf_role f) 0 (le_bytes 4 (rf_reason f)) (rf_nonce f) (zeros 16)
        (rf_decision_challenge f) (zeros 70) (zeros 32)
  end.

Definition frame_role (f : NegotiationFrame) : SenderRole :=
  match f with Hello f => hf_role f | Accept f => af_role f | Reject f => rf_role f end.
Definition frame_nonce (f : NegotiationFrame) : bytes :=
  match f with Hello f => hf_nonce f | Accept f => af_nonce f | Reject f => rf_nonce f end.
Definition frame_payload (f : NegotiationFrame) : bytes :=
  match f with Hello f => hf_application_payload f | _ => [] end.

Lemma facts_wire_len l a t : len (facts_wire l a t) = 70.
Proof.
  unfold facts_wire, limits_wire, atomics_wire, target_wire.
  rewrite !len_app, !len_le_bytes. reflexivity.
Qed.

Lemma features_wire_len f : len (features_wire f) = 16.
Proof. unfold features_wire. now rewrite len_app, !len_le_bytes. Qed.

Lemma head_wire_len kind role pl b28 nonce b64 b80 b96 b166 :
  len b28 = 4 -> len nonce = 32 -> len b64 = 16 -> len b80 = 16 -> len b96 = 70 -> len b166 = 32 ->
  len (head_wire kind role pl b28 nonce b64 b80 b96 b166) = 224.
Proof.
  intros. unfold head_wire. rewrite !len_app, !len_le_bytes.
  change (len MAGIC) with 8. rewrite !len_zeros by lia. lia.
Qed.

Lemma frame_wire_len f : frame_wf f -> len (frame_wire f) = 224 + len (frame_payload f).
Proof.
  destruct f as [f|f|f]; cbn [frame_wf frame_wire frame_payload].
  - intros (? & _). rewrite len_app, head_wire_len; rewrite ?features_wire_len, ?facts_wire_len, ?len_zeros; lia.
  - intros (? & _ & _ & _ & _ & ? & ? & _).
    rewrite head_wire_len; rewrite ?features_wire_len, ?facts_wire_len, ?len_zeros; try done; lia.
  - intros (? & _ & _ & ? & _).
    rewrite head_wire_len; rewrite ?len_le_bytes, ?len_zeros; try done; lia.
Qed.

(** ** Decoding one part of the header *)

Section Parts.
Context (s : bytes).
Hypothesis Hs : 224 <= len s.

Lemma decode_features_iff o f :
  o = 64 \/ o = 80 ->
  decode_features s o = Ok f <-> slice s o (o + 16) = features_wire f /\ features_wf f.
Proof.
  intros Ho. unfold decode_features, features_wire, features_wf. rd.
  rewrite (slice_app_iff s o (o + 16) (o + 8)) by (rewrite ?len_le_bytes; lia). split.
  - intros [= <-]. cbn [fst snd]. split_and!; try fwidth.
    + now rewrite (le_bytes_field s o 8) by lia.
    + rewrite (le_bytes_field s (o + 8) 8) by lia. f_equal. lia.
  - intros ((H1 & H2) & Hw1 & Hw2). destruct f as [x y]. cbn [fst snd] in *. do 2 f_equal.
    + apply (field_iff s o (o + 8) 8 8); done || ulia.
    + apply (field_iff s (o + 8) (o + 16) 8 8); done || ulia.
Qed.

Lemma decode_features_ok o : o = 64 \/ o = 80 -> decode_features s o <> Panic /\ forall e, decode_features s o <> Err e.
Proof. intros Ho. unfold decode_features. rd. done. Qed.

Lemma decode_limits_iff l :
  decode_limits s = Ok l <-> slice s 96 144 = limits_wire l /\ limits_wf l.
Proof.
  unfold decode_limits, limits_wire, limits_wf. rd. wsplit s. split.
  - destruct (field s 98 2 =? 0) eqn:E; [|discriminate]. bsplit. intros [= <-].
    cbn [negb sl_max_regions_per_batch sl_max_region_bytes sl_max_batch_bytes sl_max_active_regions
         sl_max_active_bytes sl_max_transactions sl_max_bootstrap_payload_bytes
         sl_max_control_payload_bytes].
    split_and!; first [le_field | fwidth | apply field_zeros; done || lia].
  - intros (H & Hw). destruct_and! H. destruct_and! Hw. fval. destruct l. reflexivity.
Qed.

Lemma decode_limits_no_panic : decode_limits s <> Panic.
Proof. unfold decode_limits. rd. now destruct (negb _). Qed.

Lemma unknown_flags flags :
  u32 flags -> Z.land flags (u32_not KNOWN_ATOMIC_FLAGS) = 0 <-> flags < 4.
Proof.
  intros Hf. change (u32_not KNOWN_ATOMIC_FLAGS) with (Z.shiftl (Z.ones 30) 2). split.
  - intros H. apply (f_equal (fun z => Z.shiftr z 2)) in H.
    rewrite Z.shiftr_land, Z.shiftr_shiftl_l, Z.shiftl_0_r, Z.land_ones, Z.shiftr_div_pow2 in H by lia.
    change (Z.shiftr 0 2) with 0 in H. change (2 ^ 2) with 4 in H. change (2 ^ 30) with 1073741824 in H.
    pose proof (Z.div_mod flags 4 ltac:(lia)). pose proof (Z.mod_pos_bound flags 4 ltac:(lia)).
    rewrite Z.mod_small in H; ulia.
  - intros H. assert (flags = 0 \/ flags = 1 \/ flags = 2 \/ flags = 3) as Hc by ulia.
    now destruct Hc as [->|[->|[->| ->]]].
Qed.

Lemma atomic_flags_cases flags :
  0 <= flags < 4 ->
  atomic_flags {| ao_u32_lock_free := negb (Z.land flags ATOMIC_U32_LOCK_FREE =? 0);
                  ao_u64_lock_free := negb (Z.land flags ATOMIC_U64_LOCK_FREE =? 0);
                  ao_u32_alignment := 0; ao_u64_alignment := 0; ao_page_alignment := 0;
                  ao_cache_line_alignment := 0 |} = flags.
Proof.
  intros H. assert (flags = 0 \/ flags = 1 \/ flags = 2 \/ flags = 3) as Hc by lia.
  now destruct Hc as [->|[->|[->| ->]]].
Qed.

Lemma atomic_flags_bound a : 0 <= atomic_flags a < 4.
Proof. destruct a as [[] [] ? ? ? ?]; vm_compute; split; congruence. Qed.

Lemma AtomicOffer_validate_same a b : AtomicOffer_validate a = Ok b -> b = a.
Proof. unfold AtomicOffer_validate. destruct (_ || _); [discriminate|]. congruence. Qed.

Lemma TargetFacts_validate_same a b : TargetFacts_validate a = Ok b -> b = a.
Proof. unfold TargetFacts_validate. destruct (_ || _); [discriminate|]. congruence. Qed.

Lemma decode_atomics_iff a :
  decode_atomics s = Ok a <->
  slice s 144 160 = atomics_wire a /\ atomics_wf a /\ AtomicOffer_validate a = Ok a.
Proof.
  unfold decode_atomics, atomics_wire, atomics_wf. rd. wsplit s.
  pose proof (field_u32 s 144 ltac:(lia) ltac:(lia)) as Hfl. split.
  - destruct (_ =? 0) eqn:E; [|discriminate]. bsplit. apply unknown_flags in E; [|done]. cbn [negb].
    intros H. pose proof (AtomicOffer_validate_same _ _ H) as ->.
    pose proof (atomic_flags_cases (field s 144 4) ltac:(ulia)) as Hcf.
    unfold atomic_flags in *. cbn [ao_u32_lock_free ao_u64_lock_free ao_u32_alignment ao_u64_alignment
      ao_page_alignment ao_cache_line_alignment] in *. rewrite Hcf.
    split_and!; first [le_field | fwidth | done].
  - intros (H & Hw & Hv). pose proof (atomic_flags_bound a). destruct_and! H. destruct_and! Hw. fval.
    rewrite (proj2 (Z.eqb_eq _ _)) by (apply unknown_flags; [ulia|lia]). cbn [negb]. rewrite <- Hv.
    destruct a as [[] [] ? ? ? ?]; reflexivity.
Qed.

Lemma decode_atomics_no_panic : decode_atomics s <> Panic.
Proof.
  unfold decode_atomics. rd. destruct (negb _); [done|]. unfold AtomicOffer_validate. now destruct (_ || _).
Qed.

Lemma decode_target_iff t :
  decode_target s = Ok t <->
  slice s 160 166 = target_wire t /\ target_wf t /\ TargetFacts_validate t = Ok t.
Proof.
  unfold decode_target, target_wire, target_wf. rd. wsplit s. split.
  - intros H. pose proof (TargetFacts_validate_same _ _ H) as ->.
    cbn [tf_os tf_architecture tf_pointer_width tf_endian] in *.
    split_and!; first [le_field | fwidth | done].
  - intros (H & Hw & Hv). destruct_and! H. destruct_and! Hw. fval. rewrite <- Hv. now destruct t.
Qed.

Lemma decode_target_no_panic : decode_target s <> Panic.
Proof. unfold decode_target. rd. unfold TargetFacts_validate. now destruct (_ || _). Qed.

End Parts.

(** ** Validation as propositions *)

Lemma limits_or_bad_same l l' : limits_or_bad l = Ok l' -> l' = l.
Proof.
  unfold limits_or_bad, SessionLimits_validate, validate_for_native_max.
  repeat case_match; simpl; congruence.
Qed.

Lemma limits_or_bad_no_panic l : limits_or_bad l <> Panic.
Proof. unfold limits_or_bad, SessionLimits_validate, validate_for_native_max. now repeat case_match. Qed.

Lemma validate_payload_len_iff n m :
  validate_payload_len n m = Ok tt <-> n <= HARD_MAX_BOOTSTRAP_PAYLOAD_BYTES /\ n <= m.
Proof.
  unfold validate_payload_len. split.
  - destruct (_ || _) eqn:E; [discriminate|]. bsplit. lia.
  - intros [H1 H2]. rewrite (proj2 (Z.ltb_ge _ _) H1), (proj2 (Z.ltb_ge _ _) H2). done.
Qed.

Definition facts_valid (l : SessionLimits) (a : AtomicOffer) (t : TargetFacts) : Prop :=
  limits_or_bad l = Ok l /\ AtomicOffer_validate a = Ok a /\ TargetFacts_validate t = Ok t.

Lemma facts_validate_iff {A} l a t (k : res NegotiationWireError A) r :
  (limits_or_bad l >>? AtomicOffer_validate a >>? TargetFacts_validate t >>? k) = Ok r <->
  facts_valid l a t /\ k = Ok r.
Proof.
  unfold facts_valid. split.
  - destruct (limits_or_bad l) as [l'| |] eqn:El; try discriminate.
    destruct (AtomicOffer_validate a) as [a'| |] eqn:Ea; try discriminate.
    destruct (TargetFacts_validate t) as [t'| |] eqn:Et; try discriminate. cbn [rbind].
    apply limits_or_bad_same in El as Hl. apply AtomicOffer_validate_same in Ea as Ha.
    apply TargetFacts_validate_same in Et as Ht. now subst.
  - now intros ((-> & -> & ->) & ->).
Qed.

Lemma HelloFrame_validate_iff h :
  HelloFrame_validate h = Ok tt <->
  hf_nonce h <> zeros 32 /\
  is_subset_of (hf_required_features h) (hf_supported_features h) = true /\
  facts_valid (hf_limits h) (hf_atomics h) (hf_target h) /\
  len (hf_application_payload h) <= HARD_MAX_BOOTSTRAP_PAYLOAD_BYTES /\
  len (hf_application_payload h) <= sl_max_bootstrap_payload_bytes (hf_limits h).
Proof.
  unfold HelloFrame_validate. pose proof (len_nonneg (hf_application_payload h)).
  case_bool_decide as Hn; [split; [done|tauto]|].
  destruct (is_subset_of _ _); cbn [negb]; [|split; [done|naive_solver]].
  rewrite facts_validate_iff. split.
  - intros (Hf & Hk). destruct (try_from _ _) eqn:E; [|discriminate]. apply try_from_Some in E as [-> _].
    cbn [ok_or rbind] in Hk. apply validate_payload_len_iff in Hk. tauto.
  - intros (_ & _ & Hf & Hk). split; [done|].
    rewrite try_from_ok by (unfold HARD_MAX_BOOTSTRAP_PAYLOAD_BYTES in Hk; ulia).
    cbn [ok_or rbind]. now apply validate_payload_len_iff.
Qed.

Lemma AcceptFrame_validate_iff a :
  AcceptFrame_validate a = Ok tt <->
  af_nonce a <> zeros 32 /\ af_hello_digest a <> zeros 32 /\
  facts_valid (af_effective_limits a) (af_atomics a) (af_target a).
Proof.
  unfold AcceptFrame_validate. case_bool_decide; [split; [done|tauto]|].
  case_bool_decide; [split; [done|tauto]|]. rewrite facts_validate_iff. tauto.
Qed.

Lemma RejectFrame_validate_iff r : RejectFrame_validate r = Ok tt <-> rf_nonce r <> zeros 32.
Proof. unfold RejectFrame_validate. case_bool_decide; split; done. Qed.

Lemma DecisionChallenge_decode_iff b c :
  DecisionChallenge_decode b = Ok c <-> b = c /\ c <> zeros 16.
Proof. unfold DecisionChallenge_decode. case_bool_decide; naive_solver. Qed.

(** ** The three bodies *)

Section Bodies.
Context {A : Allocator} (s : bytes).
Hypothesis Hs : 224 <= len s.

Lemma facts_wire_iff l a t :
  slice s 96 166 = facts_wire l a t <->
  slice s 96 144 = limits_wire l /\ slice s 144 160 = atomics_wire a /\ slice s 160 166 = target_wire t.
Proof.
  unfold facts_wire.
  assert (len (limits_wire l) = 48) by (unfold limits_wire; rewrite !len_app, !len_le_bytes; reflexivity).
  assert (len (atomics_wire a) = 16) by (unfold atomics_wire; rewrite !len_app, !len_le_bytes; reflexivity).
  rewrite (slice_app_iff s 96 166 144) by lia. now rewrite (slice_app_iff s 144 166 160) by lia.
Qed.

Lemma decode_facts_iff {B} (k : SessionLimits -> AtomicOffer -> TargetFacts -> res NegotiationWireError B) r :
  (let? limits := decode_limits s in
   let? limits := limits_or_bad limits in
   let? atomics := decode_atomics s in
   let? target := decode_target s in
   k limits atomics target) = Ok r <->
  exists l a t, slice s 96 166 = facts_wire l a t /\ limits_wf l /\ atomics_wf a /\ target_wf t /\
                facts_valid l a t /\ k l a t = Ok r.
Proof.
  unfold facts_valid. split.
  - destruct (decode_limits s) as [l| |] eqn:El; try discriminate. cbn [rbind].
    destruct (limits_or_bad l) as [l'| |] eqn:Ev; try discriminate. cbn [rbind].
    destruct (decode_atomics s) as [a| |] eqn:Ea; try discriminate. cbn [rbind].
    destruct (decode_target s) as [t| |] eqn:Et; try discriminate. cbn [rbind].
    pose proof (limits_or_bad_same _ _ Ev) as ->. apply decode_limits_iff in El; [|done].
    apply decode_atomics_iff in Ea; [|done]. apply decode_target_iff in Et; [|done].
    intros Hk. exists l, a, t. rewrite facts_wire_iff. tauto.
  - intros (l & a & t & Hw & Hl & Ha & Ht & (Hvl & Hva & Hvt) & Hk).
    apply facts_wire_iff in Hw as (Hwl & Hwa & Hwt).
    rewrite (proj2 (decode_limits_iff s Hs l)) by done. cbn [rbind]. rewrite Hvl. cbn [rbind].
    rewrite (proj2 (decode_atomics_iff s Hs a)) by done. cbn [rbind].
    now rewrite (proj2 (decode_target_iff s Hs t)).
Qed.

(** What [decode_frame] still has to find in the header of a frame. *)
Definition body_matches (f : NegotiationFrame) : Prop :=
  match f with
  | Hello h =>
      slice s 28 32 = zeros 4 /\ slice s 64 80 = features_wire (hf_supported_features h) /\
      slice s 80 96 = features_wire (hf_required_features h) /\
      slice s 96 166 = facts_wire (hf_limits h) (hf_atomics h) (hf_target h) /\
      slice s 166 198 = zeros 32
  | Accept a =>
      slice s 28 32 = zeros 4 /\ slice s 64 80 = features_wire (af_selected_features a) /\
      slice s 80 96 = af_decision_challenge a /\
      slice s 96 166 = facts_wire (af_effective_limits a) (af_atomics a) (af_target a) /\
      slice s 166 198 = af_hello_digest a
  | Reject r =>
      slice s 28 32 = le_bytes 4 (rf_reason r) /\ slice s 64 80 = zeros 16 /\
      slice s 80 96 = rf_decision_challenge r /\ slice s 96 166 = zeros 70 /\
      slice s 166 198 = zeros 32
  end.

(** The local admission of a HELLO payload. *)
Definition payload_admitted (limit : Z) (f : NegotiationFrame) : Prop :=
  match f with
  | Hello h => len (hf_application_payload h) <= limit /\
               try_reserve_exact (len (hf_application_payload h)) = true
  | _ => True
  end.

Lemma decode_hello_iff role nonce limit f :
  len nonce = 32 ->
  decode_hello s role nonce (len s - 224) limit = Ok f <->
  (exists h, f = Hello h) /\ frame_role f = role /\ frame_nonce f = nonce /\
  frame_payload f = slice s 224 (len s) /\ frame_wf f /\ body_matches f /\
  frame_validate f = Ok tt /\ payload_admitted limit f.
Proof.
  intros Hn. unfold decode_hello, HEADER_LEN. rd.
  assert (Hpl : len (slice s 224 (len s)) = len s - 224) by (rewrite len_slice; lia). split.
  - destruct (_ || _) eqn:E; [discriminate|]. bsplit.
    apply (field_zeros s 28 32) in E; [|lia..]. apply (any_nonzero_slice s 166 198 32) in E0; [|lia..].
    destruct (validate_payload_len _ limit) as [[]| |] eqn:Hlim; try discriminate. cbn [rbind].
    apply validate_payload_len_iff in Hlim.
    destruct (decode_features s 64) as [sf| |] eqn:Hsf; try discriminate. cbn [rbind].
    destruct (decode_features s 80) as [rf| |] eqn:Hrf; try discriminate. cbn [rbind].
    apply decode_features_iff in Hsf as [Hsf Hsw], Hrf as [Hrf Hrw]; [|lia..].
    destruct (negb (is_subset_of _ _)); [discriminate|].
    intros (l & a & t & Hw & Hl & Ha & Ht & _ & Hk)%decode_facts_iff.
    destruct (validate_payload_len _ _) as [[]| |]; try discriminate. cbn [rbind] in Hk.
    destruct (negb (try_reserve_exact _)) eqn:Hal; [discriminate|]. bsplit.
    destruct (HelloFrame_validate _) as [[]| |] eqn:Hv; try discriminate. injection Hk as <-.
    cbn [frame_role frame_nonce frame_payload frame_wf body_matches frame_validate payload_admitted
         hf_role hf_nonce hf_application_payload hf_supported_features hf_required_features
         hf_limits hf_atomics hf_target]. rewrite Hpl. unfold hello_wf. cbn. split_and!; try done; [eauto|lia].
  - intros ([h ->] & Hr & Hno & Hp & Hw & Hb & Hv & Hadm). cbn in Hr, Hno, Hp, Hw, Hb, Hv, Hadm.
    destruct Hb as (H28 & H64 & H80 & H96 & H166).
    rewrite (proj1 (field_zeros s 28 32 4 ltac:(lia) ltac:(lia) eq_refl ltac:(lia)) H28).
    rewrite H166, any_nonzero_zeros. cbn [Z.eqb negb orb].
    destruct Hw as (Hn' & Hsw & Hrw & Hlw & Haw & Htw). rewrite <- Hpl, <- Hp.
    pose proof Hv as Hv'. apply HelloFrame_validate_iff in Hv' as (_ & Hsub & Hfv & Hh1 & Hh2).
    rewrite (proj2 (validate_payload_len_iff _ limit)) by tauto. cbn [rbind].
    rewrite (proj2 (decode_features_iff s Hs 64 (hf_supported_features h) ltac:(lia))) by done. cbn [rbind].
    rewrite (proj2 (decode_features_iff s Hs 80 (hf_required_features h) ltac:(lia))) by done. cbn [rbind].
    rewrite Hsub. cbn [negb]. apply decode_facts_iff. do 3 eexists. split; [exact H96|].
    split_and!; try done. rewrite (proj2 (validate_payload_len_iff _ _)) by done. cbn [rbind].
    destruct Hadm as [_ ->]. cbn [negb]. rewrite <- Hr, <- Hno, Hp. rewrite <- Hp. destruct h. cbn in *. now rewrite Hv.
Qed.

Lemma decode_accept_iff role nonce pl f :
  len nonce = 32 ->
  decode_accept s role nonce pl = Ok f <->
  (exists a, f = Accept a) /\ frame_role f = role /\ frame_nonce f = nonce /\ pl = 0 /\
  frame_wf f /\ body_matches f /\ frame_validate f = Ok tt.
Proof.
  intros Hn. unfold decode_accept. rd. split.
  - destruct (_ || _) eqn:E; [discriminate|]. bsplit. apply (field_zeros s 28 32) in E0; [|lia..].
    destruct (decode_features s 64) as [sf| |] eqn:Hsf; try discriminate. cbn [rbind].
    apply decode_features_iff in Hsf as [Hsf Hsw]; [|lia..].
    intros (l & a & t & Hw & Hl & Ha & Ht & _ & Hk)%decode_facts_iff.
    destruct (DecisionChallenge_decode _) as [c| |] eqn:Hc; try discriminate. cbn [rbind] in Hk.
    apply DecisionChallenge_decode_iff in Hc as [<- Hc].
    destruct (AcceptFrame_validate _) as [[]| |] eqn:Hv; try discriminate. injection Hk as <-.
    cbn. unfold accept_wf, challenge_wf. cbn. split_and!; try done; eauto; rewrite len_slice; lia.
  - intros ([a ->] & Hr & Hno & -> & Hw & Hb & Hv). cbn in Hr, Hno, Hw, Hb, Hv.
    destruct Hb as (H28 & H64 & H80 & H96 & H166).
    rewrite (proj1 (field_zeros s 28 32 4 ltac:(lia) ltac:(lia) eq_refl ltac:(lia)) H28).
    cbn [Z.eqb negb orb]. destruct Hw as (Hn' & Hsw & Hlw & Haw & Htw & Hdg & Hcl & Hcn).
    rewrite (proj2 (decode_features_iff s Hs 64 (af_selected_features a) ltac:(lia))) by done. cbn [rbind].
    apply decode_facts_iff. do 3 eexists. split; [exact H96|].
    apply AcceptFrame_validate_iff in Hv as Hv'. split_and!; try tauto.
    rewrite H166, H80. rewrite (proj2 (DecisionChallenge_decode_iff _ _) (conj eq_refl Hcn)). cbn [rbind].
    rewrite <- Hr, <- Hno. destruct a. cbn in *. now rewrite Hv.
Qed.

Lemma decode_reject_iff role nonce pl f :
  len nonce = 32 ->
  decode_reject s role nonce pl = Ok f <->
  (exists r, f = Reject r) /\ frame_role f = role /\ frame_nonce f = nonce /\ pl = 0 /\
  frame_wf f /\ body_matches f /\ frame_validate f = Ok tt.
Proof.
  intros Hn. unfold decode_reject. rd.
  assert (Hz : slice s 96 198 = zeros 102 <-> slice s 96 166 = zeros 70 /\ slice s 166 198 = zeros 32).
  { change (zeros 102) with (zeros 70 ++ zeros 32). now rewrite (slice_app_iff s 96 198 166) by (rewrite ?len_zeros; lia). }
  split.
  - destruct (_ || _) eqn:E; [discriminate|]. bsplit.
    apply (any_nonzero_slice s 64 80 16) in E1; [|lia..].
    apply (any_nonzero_slice s 96 198 102), Hz in E0; [|lia..].
    destruct (_ =? 0) eqn:Er; [discriminate|]. bsplit.
    destruct (DecisionChallenge_decode _) as [c| |] eqn:Hc; try discriminate. cbn [rbind].
    apply DecisionChallenge_decode_iff in Hc as [<- Hc].
    destruct (RejectFrame_validate _) as [[]| |] eqn:Hv; try discriminate. intros [= <-].
    cbn. unfold reject_wf, challenge_wf. cbn.
    split_and!; try done; try tauto; eauto; first [fwidth | le_field | rewrite len_slice; lia].
  - intros ([r ->] & Hr & Hno & -> & Hw & Hb & Hv). cbn in Hr, Hno, Hw, Hb, Hv.
    destruct Hb as (H28 & H64 & H80 & H96 & H166). destruct Hw as (_ & Hrw & Hrn & Hcl & Hcn).
    rewrite H64, (proj2 Hz (conj H96 H166)), !any_nonzero_zeros. cbn [Z.eqb negb orb].
    rewrite (proj1 (field_iff s 28 32 4 4 (rf_reason r) eq_refl ltac:(lia) eq_refl ltac:(lia) ltac:(ulia)) H28).
    rewrite (proj2 (Z.eqb_neq _ _) Hrn), H80.
    rewrite (proj2 (DecisionChallenge_decode_iff _ _) (conj eq_refl Hcn)). cbn [rbind].
    rewrite <- Hr, <- Hno. destruct r. cbn in *. now rewrite Hv.
Qed.

End Bodies.

(** ** The whole frame *)

(** The part of the header every kind shares. *)
Definition head_matches (s : bytes) (kind : Z) (role : SenderRole) (nonce : bytes) : Prop :=
  slice s 0 8 = MAGIC /\ slice s 8 10 = le_bytes 2 WIRE_MAJOR /\
  slice s 10 12 = le_bytes 2 WIRE_MINOR /\ slice s 12 14 = le_bytes 2 kind /\
  slice s 14 15 = le_bytes 1 (SenderRole_raw role) /\ slice s 15 16 = zeros 1 /\
  slice s 16 20 = le_bytes 4 HEADER_LEN /\ slice s 20 24 = le_bytes 4 (len s) /\
  slice s 24 28 = le_bytes 4 (len s - 224) /\ slice s 32 64 = nonce /\ slice s 198 224 = zeros 26.

Lemma head_wire_iff s kind role pl b28 nonce b64 b80 b96 b166 rest :
  len b28 = 4 -> len nonce = 32 -> len b64 = 16 -> len b80 = 16 -> len b96 = 70 -> len b166 = 32 ->
  224 <= len s -> pl = len s - 224 ->
  s = head_wire kind role pl b28 nonce b64 b80 b96 b166 ++ rest <->
  head_matches s kind role nonce /\ slice s 28 32 = b28 /\ slice s 64 80 = b64 /\
  slice s 80 96 = b80 /\ slice s 96 166 = b96 /\ slice s 166 198 = b166 /\ slice s 224 (len s) = rest.
Proof.
  intros ? ? ? ? ? ? Hs ->. transitivity
    (slice s 0 (len s) = head_wire kind role (len s - 224) b28 nonce b64 b80 b96 b166 ++ rest);
    [now rewrite slice_full|].
  assert (len MAGIC = 8) by done. unfold head_wire, head_matches. rewrite <- !app_assoc.
  replace (HEADER_LEN + (len s - 224)) with (len s) by (unfold HEADER_LEN; lia).
  rewrite (slice_app_iff s 0 (len s) 8), (slice_app_iff s 8 (len s) 10), (slice_app_iff s 10 (len s) 12),
    (slice_app_iff s 12 (len s) 14), (slice_app_iff s 14 (len s) 15), (slice_app_iff s 15 (len s) 16),
    (slice_app_iff s 16 (len s) 20), (slice_app_iff s 20 (len s) 24), (slice_app_iff s 24 (len s) 28),
    (slice_app_iff s 28 (len s) 32), (slice_app_iff s 32 (len s) 64), (slice_app_iff s 64 (len s) 80),
    (slice_app_iff s 80 (len s) 96), (slice_app_iff s 96 (len s) 166), (slice_app_iff s 166 (len s) 198),
    (slice_app_iff s 198 (len s) 224) by (rewrite ?len_le_bytes, ?len_zeros; lia).
  tauto.
Qed.

Definition frame_kind (f : NegotiationFrame) : Z :=
  match f with Hello _ => KIND_HELLO | Accept _ => KIND_ACCEPT | Reject _ => KIND_REJECT end.

Lemma frame_wire_iff s f :
  224 <= len s -> frame_wf f -> len s = 224 + len (frame_payload f) ->
  s = frame_wire f <->
  head_matches s (frame_kind f) (frame_role f) (frame_nonce f) /\ body_matches s f /\
  slice s 224 (len s) = frame_payload f.
Proof.
  intros Hs Hw Hl. destruct f as [f|f|f]; cbn [frame_wire frame_wf frame_payload frame_kind frame_role frame_nonce body_matches] in *.
  - destruct Hw as (? & _). rewrite head_wire_iff;
      rewrite ?features_wire_len, ?facts_wire_len, ?len_zeros; try done || lia. tauto.
  - destruct Hw as (? & _ & _ & _ & _ & ? & ? & _). rewrite <- (app_nil_r (head_wire _ _ _ _ _ _ _ _ _)).
    rewrite head_wire_iff; rewrite ?features_wire_len, ?facts_wire_len, ?len_zeros; try done || lia;
      [tauto|unfold len in Hl; simpl in Hl; unfold len; lia].
  - destruct Hw as (? & _ & _ & ? & _). rewrite <- (app_nil_r (head_wire _ _ _ _ _ _ _ _ _)).
    rewrite head_wire_iff; rewrite ?len_le_bytes, ?len_zeros; try done || lia;
      [tauto|unfold len in Hl; simpl in Hl; unfold len; lia].
Qed.

Lemma SenderRole_decode_iff v r :
  SenderRole_decode v = Ok r <-> v = SenderRole_raw r.
Proof.
  unfold SenderRole_decode. destruct (Z.eqb_spec v 1); [|destruct (Z.eqb_spec v 2)]; subst;
    destruct r; simpl; split; try done; lia.
Qed.

Section Frames.
Context {A : Allocator}.

(** The checks before [match kind]. *)
Lemma decode_head_iff s role nonce limit f :
  decode_frame s role nonce limit = Ok f <->
  224 <= len s /\ u32 (len s) /\ len nonce = 32 /\ nonce <> zeros 32 /\
  (exists kind, u16 kind /\ head_matches s kind role nonce /\
    (if kind =? KIND_HELLO then decode_hello s role nonce (len s - 224) limit else
     if kind =? KIND_ACCEPT then decode_accept s role nonce (len s - 224) else
     if kind =? KIND_REJECT then decode_reject s role nonce (len s - 224) else
     Err WireError_BadKind) = Ok f).
Proof.
  unfold decode_frame, head_matches, HEADER_LEN.
  destruct (len s <? 224) eqn:Hlen; [split; [done|lia]|]. bsplit. rd. split.
  - case_bool_decide as Hmg; [|discriminate]. cbn [negb].
    destruct (negb _ || negb _) eqn:Hver; [discriminate|]. unfold WIRE_MAJOR, WIRE_MINOR in *. bsplit.
    destruct (SenderRole_decode _) as [r| |] eqn:Hr; try discriminate. cbn [rbind].
    apply SenderRole_decode_iff in Hr. case_bool_decide as Hrole; [|discriminate]. subst r. cbn [negb].
    destruct (negb _ || negb _ || _) eqn:Hres; [discriminate|]. bsplit.
    apply (any_nonzero_slice s 198 224 26) in Hres0; [|lia..].
    pose proof (field_u32 s 20 ltac:(lia) ltac:(lia)) as Hw20.
    pose proof (field_u32 s 24 ltac:(lia) ltac:(lia)) as Hw24.
    rewrite checked_add_ok by ulia. cbn [ok_or rbind].
    destruct (negb _ || negb _) eqn:Hfl; [discriminate|]. bsplit.
    destruct (_ || _) eqn:Hno; [discriminate|]. bsplit. intros Hk.
    replace (field s 24 4) with (len s - 224) in Hk by lia.
    assert (Hnl : len nonce = 32) by (rewrite <- Hno0, len_slice; lia).
    split_and!; try done || ulia || congruence. exists (field s 12 2).
    rewrite Hno0 in Hk. split_and!; first [done | fwidth | le_field | idtac].
    + now apply (field_iff s 8 10 2 2); try lia.
    + now apply (field_iff s 10 12 2 2); try lia.
    + apply (field_iff s 14 15 1 1); try done || lia. destruct role; simpl; lia.
    + apply (field_zeros s 15 16 1); done || lia.
    + now apply (field_iff s 16 20 4 4); try lia.
    + apply (field_iff s 20 24 4 4); try done || lia || ulia.
    + apply (field_iff s 24 28 4 4); try done || lia || ulia.
  - intros (_ & Hls & Hnl & Hnz & kind & Hkw & (Hmg & H8 & H10 & H12 & H14 & H15 & H16 & H20 & H24 & H32 & H198) & Hk).
    assert (Hraw : u8 (SenderRole_raw role)) by (destruct role; simpl; ulia).
    unfold WIRE_MAJOR, WIRE_MINOR, HEADER_LEN in *.
    fval. rewrite Hmg, H32, H198, any_nonzero_zeros, bool_decide_eq_true_2 by done. cbn [negb orb Z.eqb Pos.eqb].
    rewrite (proj2 (SenderRole_decode_iff _ role)) by done. cbn [rbind].
    rewrite bool_decide_eq_true_2 by done. cbn [negb].
    rewrite checked_add_ok by ulia. cbn [ok_or rbind].
    replace (224 + (len s - 224)) with (len s) by lia. rewrite Z.eqb_refl. cbn [negb orb].
    rewrite bool_decide_eq_false_2 by done. rewrite bool_decide_eq_true_2 by done. exact Hk.
Qed.

Lemma decode_frame_iff s role nonce limit f :
  decode_frame s role nonce limit = Ok f <->
  s = frame_wire f /\ frame_wf f /\ frame_validate f = Ok tt /\ frame_role f = role /\
  frame_nonce f = nonce /\ payload_admitted limit f.
Proof.
  rewrite decode_head_iff. split.
  - intros (Hs & Hu & Hnl & Hnz & kind & Hkw & Hh & Hk).
    destruct (kind =? KIND_HELLO) eqn:E1; [|destruct (kind =? KIND_ACCEPT) eqn:E2;
      [|destruct (kind =? KIND_REJECT) eqn:E3; [|discriminate]]]; bsplit; subst kind.
    + apply decode_hello_iff in Hk as ([h ->] & Hr & Hn & Hp & Hw & Hb & Hv & Ha); [|done..].
      split_and!; try done. subst. apply frame_wire_iff; try done.
      rewrite Hp, len_slice; lia.
    + apply decode_accept_iff in Hk as ([h ->] & Hr & Hn & Hp & Hw & Hb & Hv); [|done..].
      split_and!; try done. subst. apply frame_wire_iff; try done; [unfold len at 2; simpl; lia|].
      split_and!; try done. apply slice_nil. lia.
    + apply decode_reject_iff in Hk as ([h ->] & Hr & Hn & Hp & Hw & Hb & Hv); [|done..].
      split_and!; try done. subst. apply frame_wire_iff; try done; [unfold len at 2; simpl; lia|].
      split_and!; try done. apply slice_nil. lia.
  - intros (Heq & Hw & Hv & Hr & Hn & Ha).
    assert (Hl : len s = 224 + len (frame_payload f)) by (rewrite Heq; now apply frame_wire_len).
    pose proof (len_nonneg (frame_payload f)).
    assert (Hpl : len (frame_payload f) <= HARD_MAX_BOOTSTRAP_PAYLOAD_BYTES).
    { destruct f; cbn in Hv; [now apply HelloFrame_validate_iff in Hv|done..]. }
    unfold HARD_MAX_BOOTSTRAP_PAYLOAD_BYTES in Hpl.
    apply frame_wire_iff in Heq as (Hh & Hb & Hp); [|lia|done|done].
    assert (Hnl : len nonce = 32 /\ nonce <> zeros 32).
    { rewrite <- Hn. destruct f; cbn in *; (split; [apply Hw|]);
        [now apply HelloFrame_validate_iff in Hv|now apply AcceptFrame_validate_iff in Hv
        |now apply RejectFrame_validate_iff in Hv]. }
    destruct Hnl as [Hnl Hnz]. split_and!; try done || lia || ulia.
    exists (frame_kind f). rewrite <- Hr, <- Hn in *. split; [destruct f; split; discriminate|]. split; [done|].
    destruct f as [h|a|r]; cbn [frame_kind KIND_HELLO KIND_ACCEPT KIND_REJECT Z.eqb Pos.eqb].
    + apply decode_hello_iff; [lia|done|]. split_and!; try done; eauto.
    + apply decode_accept_iff; [lia|done|]. change (len (frame_payload (Accept a))) with 0 in Hl.
      split_and!; try done; eauto. lia.
    + apply decode_reject_iff; [lia|done|]. change (len (frame_payload (Reject r))) with 0 in Hl.
      split_and!; try done; eauto. lia.
Qed.

End Frames.

(** ** Encoding *)

Lemma head_wire_intro s kind role pl b28 nonce b64 b80 b96 b166 :
  len s = 224 -> slice s 0 8 = MAGIC -> slice s 8 10 = le_bytes 2 WIRE_MAJOR ->
  slice s 10 12 = le_bytes 2 WIRE_MINOR -> slice s 12 14 = le_bytes 2 kind ->
  slice s 14 15 = le_bytes 1 (SenderRole_raw role) -> slice s 15 16 = zeros 1 ->
  slice s 16 20 = le_bytes 4 HEADER_LEN -> slice s 20 24 = le_bytes 4 (HEADER_LEN + pl) ->
  slice s 24 28 = le_bytes 4 pl -> slice s 28 32 = b28 -> slice s 32 64 = nonce ->
  slice s 64 80 = b64 -> slice s 80 96 = b80 -> slice s 96 166 = b96 -> slice s 166 198 = b166 ->
  slice s 198 224 = zeros 26 ->
  s = head_wire kind role pl b28 nonce b64 b80 b96 b166.
Proof.
  intros Hl H0 H8 H10 H12 H14 H15 H16 H20 H24 H28 H32 H64 H80 H96 H166 H198. unfold head_wire.
  rewrite <- H0, <- H8, <- H10, <- H12, <- H14, <- H15, <- H16, <- H20, <- H24, <- H28, <- H32, <- H64,
    <- H80, <- H96, <- H166, <- H198, !slice_cat by lia. now rewrite slice_full by lia.
Qed.

Definition facts_cuts : list Z :=
  [98; 100; 104; 112; 120; 128; 136; 140; 144; 148; 150; 152; 156; 160; 162; 164; 165; 166].

(** What [encode_common] does to a header, the rest of the buffer aside. *)
Lemma encode_common_spec h r nonce sup req l a t :
  len h = 224 -> len nonce = 32 -> slice h 98 100 = zeros 2 ->
  exists h', encode_common (h ++ r) nonce sup req l a t = Ok (h' ++ r) /\ len h' = 224 /\
    slice h' 32 64 = nonce /\ slice h' 64 80 = features_wire sup /\ slice h' 80 96 = features_wire req /\
    slice h' 96 166 = facts_wire l a t /\
    (forall x y, 0 <= x <= y -> y <= 32 \/ 166 <= x -> slice h' x y = slice h x y).
Proof.
  intros Hh Hn H98. pose proof (len_nonneg r). unfold encode_common, encode_features.
  eexists. split_and!.
  - rd. rewrite !splice_app_take by len_solve. reflexivity.
  - now rewrite !len_splice.
  - now rw_slice.
  - unfold features_wire. apply (slice_app_iff _ 64 80 72); [lia|now rewrite len_le_bytes|lia|len_solve|].
    split; now rw_slice.
  - unfold features_wire. apply (slice_app_iff _ 80 96 88); [lia|now rewrite len_le_bytes|lia|len_solve|].
    split; now rw_slice.
  - unfold facts_wire, limits_wire, atomics_wire, target_wire. rewrite <- !app_assoc.
    rewrite <- H98.
    match goal with
    | |- slice ?s 96 166 = _ =>
        transitivity (cut s 96 facts_cuts);
        [symmetry; apply (cut_slice s facts_cuts 96); done|]
    end.
    cbn [cut facts_cuts]. rw_slice. reflexivity.
  - intros x y Hxy Hd. rewrite !slice_splice_disjoint by (rewrite ?len_le_bytes; lia). reflexivity.
Qed.

Lemma encoded_len_valid f :
  frame_validate f = Ok tt ->
  encoded_len f = Ok (224 + len (frame_payload f)) /\ 224 + len (frame_payload f) <= U32_MAX.
Proof.
  intros Hv. assert (len (frame_payload f) <= HARD_MAX_BOOTSTRAP_PAYLOAD_BYTES).
  { destruct f; cbn in Hv; [now apply HelloFrame_validate_iff in Hv|done..]. }
  unfold HARD_MAX_BOOTSTRAP_PAYLOAD_BYTES in *. split; [|ulia]. unfold encoded_len, HEADER_LEN.
  replace (match f with Hello frame => HelloFrame_validate frame | Accept frame => AcceptFrame_validate frame
           | Reject frame => RejectFrame_validate frame end) with (frame_validate f) by now destruct f.
  rewrite Hv. cbn [rbind].
  replace (match f with Hello frame => len (hf_application_payload frame) | Accept _ | Reject _ => 0 end)
    with (len (frame_payload f)) by now destruct f.
  now rewrite checked_add_ok by ulia.
Qed.

Lemma frame_validate_no_panic f : frame_validate f <> Panic.
Proof.
  assert (HF : forall l a t (k : res NegotiationWireError unit), k <> Panic ->
            (limits_or_bad l >>? AtomicOffer_validate a >>? TargetFacts_validate t >>? k) <> Panic).
  { intros l a t k Hk. pose proof (limits_or_bad_no_panic l). destruct (limits_or_bad l); try done.
    unfold AtomicOffer_validate, TargetFacts_validate. cbn [rbind]. destruct (_ || _); [done|]. cbn [rbind].
    destruct (_ || _); [done|]. exact Hk. }
  destruct f as [f|f|f]; cbn [frame_validate].
  - unfold HelloFrame_validate. case_bool_decide; [done|]. destruct (negb _); [done|]. apply HF.
    destruct (try_from _ _); cbn [ok_or rbind]; [|done]. unfold validate_payload_len. now destruct (_ || _).
  - unfold AcceptFrame_validate. case_bool_decide; [done|]. case_bool_decide; [done|]. now apply HF.
  - unfold RejectFrame_validate. now case_bool_decide.
Qed.

Lemma encoded_len_invalid f e : frame_validate f = Err e -> encoded_len f = Err e.
Proof. intros H. unfold encoded_len. destruct f; cbn in H; now rewrite H. Qed.

(** The header and payload written over a destination of at least the needed
    length leave its tail unchanged. *)
Lemma payload_write (h' z rest p : bytes) :
  len h' = 224 -> len z = len p ->
  copy_range (E := NegotiationWireError) (h' ++ z ++ rest) HEADER_LEN (224 + len p) p
  = Ok (h' ++ p ++ rest).
Proof.
  intros Hh Hz. pose proof (len_nonneg p). pose proof (len_nonneg rest). unfold HEADER_LEN.
  rewrite copy_range_ok by (rewrite ?len_app; lia).
  rewrite (splice_app_skip h' _ _ _ 0) by lia. rewrite splice_app_take by lia.
  now rewrite splice_full by lia.
Qed.

Lemma destination_split (d : bytes) n :
  224 <= n <= len d -> d = slice d 0 224 ++ slice d 224 n ++ slice d n (len d).
Proof. intros. rewrite !slice_cat by lia. now rewrite slice_full. Qed.

(** The header of [encode_into] before the frame-specific part. *)
Definition blank (pl : Z) : bytes :=
  splice (splice (splice (splice (splice (splice (zeros 224) 0 MAGIC) 8 (le_bytes 2 WIRE_MAJOR))
    10 (le_bytes 2 WIRE_MINOR)) 16 (le_bytes 4 HEADER_LEN)) 20 (le_bytes 4 (HEADER_LEN + pl)))
    24 (le_bytes 4 pl).

Lemma blank_len pl : len (blank pl) = 224.
Proof. unfold blank. now rewrite !len_splice. Qed.

Lemma zeros224 : len (zeros 224) = 224. Proof. done. Qed.
Lemma hello_magic_len : len MAGIC = 8. Proof. done. Qed.

Lemma encode_into_blank f d n :
  frame_validate f = Ok tt -> n = 224 + len (frame_payload f) -> n <= len d ->
  NegotiationFrame_encode_into f d
  = (supdate (encode_body f n) >>! sret n)
      (blank (len (frame_payload f)) ++ zeros (len (frame_payload f)) ++ slice d n (len d)).
Proof.
  intros Hv Hn Hd. destruct (encoded_len_valid f Hv) as [He Hu]. set (pl := len (frame_payload f)) in *.
  pose proof (len_nonneg (frame_payload f)) as Hp. fold pl in Hp.
  unfold NegotiationFrame_encode_into. unfold sbind at 1. cbn [sget]. unfold sbind at 1, slift at 1.
  rewrite He, <- Hn. replace (len d <? n) with false by lia.
  set (rest := slice d n (len d)).
  assert (Hfill : fill_zero (E := NegotiationWireError) d 0 n = Ok (zeros 224 ++ zeros pl ++ rest)).
  { unfold fill_zero. rewrite Z.sub_0_r, copy_range_ok by (rewrite ?len_zeros; lia). f_equal.
    rewrite splice_head by (rewrite len_zeros; lia). rewrite len_zeros by lia.
    rewrite app_assoc. f_equal. unfold zeros. rewrite <- replicate_add. f_equal. lia. }
  pose proof zeros224. pose proof hello_magic_len. pose proof (len_nonneg rest).
  assert (len (zeros pl) = pl) by (apply len_zeros; lia).
  assert (Hsub : usub (E := NegotiationWireError) n HEADER_LEN = Ok pl).
  { unfold usub, HEADER_LEN. rewrite checked_sub_ok by lia. cbn [expect]. f_equal. lia. }
  unfold sbind at 1, supdate at 1. rewrite Hfill. cbn [rbind]. rd. cbn beta iota.
  unfold sbind at 1, slift at 1. rewrite try_from_ok by ulia. cbn [ok_or].
  unfold sbind at 1, supdate at 1. rd. cbn beta iota.
  unfold sbind at 1, slift at 1. rewrite Hsub.
  unfold sbind at 1, slift at 1. rewrite try_from_ok by ulia. cbn [ok_or].
  unfold sbind at 1, supdate at 1. rd. cbn beta iota.
  rewrite !splice_app_take by len_solve. unfold blank.
  replace (HEADER_LEN + pl) with n by (unfold HEADER_LEN; lia). reflexivity.
Qed.
