(* ===== verification/NegotiationTheory.v ===== *)
(** * NegotiationTheory: the negotiation codecs, end to end

    The two HELLO encoders agree on every destination; every frame that can be
    encoded decodes to itself; the decoder is total and accepts one encoding
    per frame; and the digest preimage determines both HELLOs. *)

From S2P Require Import Prelude Bytes Limits Negotiation NegotiationCodec.

(** ** The frame bodies *)

Section Bodies.
Context (rest : bytes) (pl : Z).
Hypothesis Hpl : 0 <= pl.

Lemma blank_98 kind role :
  slice (splice (splice (blank pl) 12 (le_bytes 2 kind)) 14 (le_bytes 1 (SenderRole_raw role))) 98 100
  = zeros 2.
Proof. pose proof zeros224. pose proof hello_magic_len. unfold blank. rw_slice. now rewrite slice_zeros by lia. Qed.

(** [hsolve]: a header assembled by writes is the wire format. *)
Ltac hsolve Hkeep :=
  apply head_wire_intro; rewrite ?len_splice;
  first [ assumption
        | rw_slice; try rewrite Hkeep by lia; unfold blank; rw_slice;
          first [assumption | reflexivity | rewrite slice_zeros by lia; reflexivity] ].

Lemma encode_hello_body h :
  hello_wf h -> HelloFrame_validate h = Ok tt -> pl = len (hf_application_payload h) ->
  encode_body (Hello h) (224 + pl) (blank pl ++ zeros pl ++ rest) = Ok (frame_wire (Hello h) ++ rest).
Proof.
  intros Hw Hv Hp. pose proof Hw as (Hn & _). pose proof zeros224. pose proof hello_magic_len.
  pose proof (blank_len pl). pose proof (len_nonneg rest).
  assert (Hzl : len (zeros pl) = pl) by (apply len_zeros; lia).
  unfold encode_body. rewrite Hv. cbn [rbind]. rd. rewrite !splice_app_take by len_solve.
  destruct (encode_common_spec
              (splice (splice (blank pl) 12 (le_bytes 2 KIND_HELLO)) 14 (le_bytes 1 (SenderRole_raw (hf_role h))))
              (zeros pl ++ rest) (hf_nonce h) (hf_supported_features h) (hf_required_features h)
              (hf_limits h) (hf_atomics h) (hf_target h))
    as (h' & -> & Hh' & H32 & H64 & H80 & H96 & Hkeep); [len_solve|done|apply blank_98|].
  cbn [rbind]. replace (224 + pl) with (224 + len (hf_application_payload h)) by lia.
  rewrite payload_write by lia. cbn [frame_wire]. rewrite <- app_assoc.
  do 2 f_equal. rewrite <- Hp. hsolve Hkeep.
Qed.

Lemma encode_accept_body a :
  accept_wf a -> AcceptFrame_validate a = Ok tt -> pl = 0 ->
  encode_body (Accept a) (224 + pl) (blank pl ++ zeros pl ++ rest) = Ok (frame_wire (Accept a) ++ rest).
Proof.
  intros Hw Hv Hp. pose proof Hw as (Hn & _ & _ & _ & _ & Hdg & Hc & _). pose proof zeros224. pose proof hello_magic_len.
  pose proof (blank_len pl). pose proof (len_nonneg rest).
  assert (Hzl : len (zeros pl) = pl) by (apply len_zeros; lia).
  unfold encode_body. rewrite Hv. cbn [rbind]. rd. rewrite !splice_app_take by len_solve.
  destruct (encode_common_spec
              (splice (splice (blank pl) 12 (le_bytes 2 KIND_ACCEPT)) 14 (le_bytes 1 (SenderRole_raw (af_role a))))
              (zeros pl ++ rest) (af_nonce a) (af_selected_features a) (0, 0)
              (af_effective_limits a) (af_atomics a) (af_target a))
    as (h' & -> & Hh' & H32 & H64 & H80 & H96 & Hkeep); [len_solve|done|apply blank_98|].
  cbn [rbind]. rd. rewrite !splice_app_take by len_solve. rewrite Hp. cbn [frame_wire].
  change (zeros 0) with (@nil byte). cbn [app]. do 2 f_equal. rewrite Hp in Hkeep. hsolve Hkeep.
Qed.

Lemma encode_reject_body r :
  reject_wf r -> RejectFrame_validate r = Ok tt -> pl = 0 ->
  encode_body (Reject r) (224 + pl) (blank pl ++ zeros pl ++ rest) = Ok (frame_wire (Reject r) ++ rest).
Proof.
  intros Hw Hv Hp. pose proof Hw as (Hn & _ & _ & Hc & _). pose proof zeros224. pose proof hello_magic_len.
  pose proof (blank_len pl). pose proof (len_nonneg rest).
  assert (Hzl : len (zeros pl) = pl) by (apply len_zeros; lia).
  unfold encode_body. rewrite Hv. cbn [rbind]. rd. rewrite !splice_app_take by len_solve. rewrite Hp. cbn [frame_wire].
  change (zeros 0) with (@nil byte). cbn [app]. do 2 f_equal.
  assert (Hkeep : forall x y : Z, 0 <= x <= y -> slice (blank 0) x y = slice (blank 0) x y) by done.
  rewrite Hp in *. hsolve Hkeep.
Qed.

End Bodies.

Lemma encode_into_spec f d :
  frame_wf f -> frame_validate f = Ok tt -> 224 + len (frame_payload f) <= len d ->
  NegotiationFrame_encode_into f d
  = (Ok (224 + len (frame_payload f)),
     frame_wire f ++ slice d (224 + len (frame_payload f)) (len d)).
Proof.
  intros Hw Hv Hd. rewrite (encode_into_blank f d _ Hv eq_refl) by done.
  pose proof (len_nonneg (frame_payload f)). unfold sbind, supdate.
  destruct f as [h|a|r]; [rewrite encode_hello_body|rewrite encode_accept_body|rewrite encode_reject_body];
    done.
Qed.

Lemma encode_into_invalid f d e :
  frame_validate f = Err e -> NegotiationFrame_encode_into f d = (Err e, d).
Proof.
  intros H. unfold NegotiationFrame_encode_into, sbind, sget, slift. now rewrite (encoded_len_invalid f e).
Qed.

Lemma encode_into_short f d :
  frame_validate f = Ok tt -> len d < 224 + len (frame_payload f) ->
  NegotiationFrame_encode_into f d = (Err WireError_DestinationTooSmall, d).
Proof.
  intros Hv Hd. destruct (encoded_len_valid f Hv) as [He _].
  unfold NegotiationFrame_encode_into, sbind, sget, slift. rewrite He.
  now replace (len d <? _) with true by lia.
Qed.

Lemma hello_encoded_len_eq h : hello_encoded_len h = encoded_len (Hello h).
Proof. done. Qed.

Lemma encode_hello_spec h d :
  hello_wf h -> HelloFrame_validate h = Ok tt -> 224 + len (hf_application_payload h) <= len d ->
  encode_hello_into h d
  = (Ok (224 + len (hf_application_payload h)),
     frame_wire (Hello h) ++ slice d (224 + len (hf_application_payload h)) (len d)).
Proof.
  intros Hw Hv Hd. destruct (encoded_len_valid (Hello h) Hv) as [He Hu]. cbn [frame_payload] in He, Hu.
  rewrite <- hello_encoded_len_eq in He. pose proof Hw as (Hn & _).
  pose proof (len_nonneg (hf_application_payload h)) as Hp0.
  remember (len (hf_application_payload h)) as pl eqn:Hpl. remember (224 + pl) as n eqn:Hnn.
  pose proof (destination_split d n ltac:(lia)) as Hsplit.
  assert (Hh0 : len (slice d 0 224) = 224) by (rewrite len_slice; lia).
  assert (Hz0 : len (slice d 224 n) = pl) by (rewrite len_slice; lia).
  set (h0 := slice d 0 224) in *. set (z0 := slice d 224 n) in *. set (rest := slice d n (len d)) in *.
  pose proof hello_magic_len. pose proof (len_nonneg rest).
  assert (Hz4 : len (zeros 4) = 4) by done. assert (Hz2 : len (zeros 2) = 2) by done.
  assert (Hz58 : len (zeros 58) = 58) by done.
  unfold encode_hello_into. unfold sbind at 1. cbn [sget]. unfold sbind at 1, slift at 1. rewrite He.
  replace (len d <? n) with false by lia. rewrite Hsplit at 1. clear Hsplit Hd.
  unfold sbind at 1, supdate at 1, fill_zero. unfold HEADER_LEN at 1 2.
  change (zeros (224 - 166)) with (zeros 58). change (zeros (32 - 28)) with (zeros 4).
  change (zeros (100 - 98)) with (zeros 2).
  rd. cbn beta iota.
  unfold sbind at 1, slift at 1. rewrite try_from_ok by ulia. cbn [ok_or].
  unfold sbind at 1, supdate at 1. rd. cbn beta iota.
  unfold sbind at 1, slift at 1. rewrite <- Hpl, try_from_ok by ulia. cbn [ok_or].
  unfold sbind at 1, supdate at 1. rd.
  rewrite !splice_app_take by len_solve.
  replace n with (HEADER_LEN + pl) by (unfold HEADER_LEN; lia).
  match goal with |- context [encode_common (?x ++ _) _ _ _ _ _ _] => remember x as hb eqn:Hhb end.
  destruct (encode_common_spec hb (z0 ++ rest) (hf_nonce h) (hf_supported_features h)
              (hf_required_features h) (hf_limits h) (hf_atomics h) (hf_target h))
    as (h' & -> & Hh' & H32 & H64 & H80 & H96 & Hkeep);
    [rewrite Hhb; len_solve|done|rewrite Hhb; now rw_slice|].
  cbn [rbind]. replace (HEADER_LEN + pl) with (224 + len (hf_application_payload h)) by (unfold HEADER_LEN; lia).
  rewrite payload_write by lia. unfold sret. cbn [frame_wire]. f_equal. rewrite <- app_assoc. do 2 f_equal. rewrite <- Hpl.
  assert (H166 : slice hb 166 224 = zeros 32 ++ zeros 26) by (rewrite Hhb; now rw_slice).
  apply (slice_app_iff hb 166 224 198) in H166 as [H166 H198];
    [|done|done|lia|rewrite Hhb; len_solve].
  apply head_wire_intro;
    first [assumption | rewrite Hkeep by lia; assumption
          | rewrite Hkeep by lia; rewrite Hhb; rw_slice; reflexivity].
Qed.

(** The two HELLO encoders agree. For every HELLO and every destination
    buffer, whatever it held before, encoding the borrowed frame and encoding
    the owned frame return the same result and leave the same bytes, although
    the first only clears the reserved ranges of the header. *)
Theorem encode_hello_equivalent h d :
  hello_wf h -> encode_hello_into h d = NegotiationFrame_encode_into (Hello h) d.
Proof.
  intros Hw. destruct (frame_validate (Hello h)) as [[]|e|] eqn:Hv.
  - destruct (Z.lt_ge_cases (len d) (224 + len (frame_payload (Hello h)))) as [Hd|Hd].
    + rewrite encode_into_short by done. destruct (encoded_len_valid (Hello h) Hv) as [He _].
      unfold encode_hello_into, sbind, sget, slift. rewrite hello_encoded_len_eq, He.
      now replace (len d <? _) with true by lia.
    + rewrite encode_into_spec by done. now apply encode_hello_spec.
  - rewrite (encode_into_invalid _ d e) by done.
    unfold encode_hello_into, sbind, sget, slift. now rewrite hello_encoded_len_eq, (encoded_len_invalid _ e).
  - exfalso. now apply frame_validate_no_panic in Hv.
Qed.

(** Round trip of negotiation frames. A HELLO, ACCEPT or REJECT that
    validates is written to the front of any large enough buffer, the rest of
    which is untouched, and the bytes written decode to the same frame at a peer
    that expects its role and nonce and admits its payload. *)
Theorem negotiation_roundtrip {A : Allocator} f d limit :
  frame_wf f -> frame_validate f = Ok tt -> 224 + len (frame_payload f) <= len d ->
  payload_admitted limit f ->
  exists n d', NegotiationFrame_encode_into f d = (Ok n, d') /\ n = 224 + len (frame_payload f) /\
    len d' = len d /\ slice d' n (len d) = slice d n (len d) /\
    decode_frame (slice d' 0 n) (frame_role f) (frame_nonce f) limit = Ok f.
Proof.
  intros Hw Hv Hd Ha. pose proof (frame_wire_len f Hw) as Hl. pose proof (len_nonneg (frame_payload f)).
  do 2 eexists. split; [now apply encode_into_spec|]. split; [done|]. split_and!.
  - rewrite len_app, len_slice; lia.
  - rewrite (slice_app_skip _ _ (224 + len (frame_payload f)) _ _ 0 (len d - (224 + len (frame_payload f)))) by lia.
    rewrite slice_full; [done|done|]. rewrite len_slice; lia.
  - rewrite (slice_app_take _ _ (224 + len (frame_payload f))) by done. now apply decode_frame_iff.
Qed.

(** ** The decoder on arbitrary bytes *)

Lemma decode_facts_no_panic {B} s (k : SessionLimits -> AtomicOffer -> TargetFacts -> res NegotiationWireError B) :
  224 <= len s -> (forall l a t, k l a t <> Panic) ->
  (let? limits := decode_limits s in
   let? limits := limits_or_bad limits in
   let? atomics := decode_atomics s in
   let? target := decode_target s in
   k limits atomics target) <> Panic.
Proof.
  intros Hs Hk. pose proof (decode_limits_no_panic s Hs).
  destruct (decode_limits s) as [l| |]; cbn [rbind]; try done. pose proof (limits_or_bad_no_panic l).
  destruct (limits_or_bad l) as [l'| |]; cbn [rbind]; try done. pose proof (decode_atomics_no_panic s Hs).
  destruct (decode_atomics s) as [a| |]; cbn [rbind]; try done. pose proof (decode_target_no_panic s Hs).
  destruct (decode_target s) as [t| |]; cbn [rbind]; try done.
Qed.

Lemma validated_no_panic f :
  (frame_validate f >>? Ok f) <> Panic.
Proof. pose proof (frame_validate_no_panic f). now destruct (frame_validate f). Qed.

Lemma challenge_no_panic b : DecisionChallenge_decode b <> Panic.
Proof. unfold DecisionChallenge_decode. now case_bool_decide. Qed.

Lemma decode_frame_no_panic {A : Allocator} s role nonce limit : decode_frame s role nonce limit <> Panic.
Proof.
  unfold decode_frame, HEADER_LEN. destruct (len s <? 224) eqn:Hs; [done|]. bsplit. rd.
  destruct (negb _); [done|]. destruct (_ || _); [done|].
  destruct (SenderRole_decode _) as [r| |] eqn:Hr; cbn [rbind]; [|done|].
  2:{ unfold SenderRole_decode in Hr. repeat case_match; discriminate. }
  destruct (negb _); [done|]. destruct (_ || _ || _); [done|].
  destruct (checked_add _ _ _) as [n|]; cbn [ok_or rbind]; [|done].
  destruct (_ || _); [done|]. destruct (_ || _); [done|].
  destruct (_ =? KIND_HELLO); [|destruct (_ =? KIND_ACCEPT); [|destruct (_ =? KIND_REJECT); [|done]]].
  - unfold decode_hello, decode_features, HEADER_LEN. rd. destruct (_ || _); [done|].
    unfold validate_payload_len. destruct (_ || _); [done|]. cbn [rbind].
    destruct (negb _); [done|]. apply decode_facts_no_panic; [lia|]. intros l a t.
    destruct (_ || _); [done|]. cbn [rbind]. destruct (negb _); [done|].
    match goal with |- (_ >>? Ok (Hello ?h)) <> _ => apply (validated_no_panic (Hello h)) end.
  - unfold decode_accept, decode_features. rd. destruct (_ || _); [done|].
    apply decode_facts_no_panic; [lia|]. intros l a t.
    pose proof (challenge_no_panic (slice s 80 96)). destruct (DecisionChallenge_decode _); cbn [rbind]; try done.
    match goal with |- (_ >>? Ok (Accept ?h)) <> _ => apply (validated_no_panic (Accept h)) end.
  - unfold decode_reject. rd. destruct (_ || _); [done|]. destruct (_ =? 0); [done|].
    pose proof (challenge_no_panic (slice s 80 96)). destruct (DecisionChallenge_decode _); cbn [rbind]; try done.
    match goal with |- (_ >>? Ok (Reject ?h)) <> _ => apply (validated_no_panic (Reject h)) end.
Qed.

(** The negotiation decoder is total and canonical. On arbitrary bytes from
    an untrusted peer it never panics; a frame it accepts validates, has the
    expected role and nonce, fits the local payload limit, and is the decoding
    of exactly one byte string, the one the encoder writes for it. *)
Theorem negotiation_decode_canonical {A : Allocator} s role nonce limit :
  decode_frame s role nonce limit <> Panic /\
  forall f, decode_frame s role nonce limit = Ok f ->
    frame_wf f /\ frame_validate f = Ok tt /\ frame_role f = role /\ frame_nonce f = nonce /\
    payload_admitted limit f /\ NegotiationFrame_encode_into f s = (Ok (len s), s) /\
    (forall s', decode_frame s' role nonce limit = Ok f -> s' = s).
Proof.
  split; [apply decode_frame_no_panic|].
  intros f (Hs & Hw & Hv & Hr & Hn & Ha)%decode_frame_iff. split_and!; try done.
  - pose proof (frame_wire_len f Hw) as Hl. rewrite encode_into_spec by (try done; rewrite Hs, Hl; lia).
    rewrite <- Hl, <- Hs. rewrite (slice_nil s) by lia. now rewrite app_nil_r.
  - intros s' (-> & _)%decode_frame_iff. done.
Qed.

(** ** Witnesses *)

Definition sample_offer : AtomicOffer :=
  {| ao_u32_lock_free := true; ao_u64_lock_free := false; ao_u32_alignment := 4;
     ao_u64_alignment := 8; ao_page_alignment := 4096; ao_cache_line_alignment := 64 |}.
Definition sample_hello (role : SenderRole) : HelloFrame :=
  {| hf_role := role; hf_nonce := replicate 32 x05; hf_supported_features := (7, 0);
     hf_required_features := (1, 0); hf_limits := SessionLimits_default; hf_atomics := sample_offer;
     hf_target := {| tf_os := 1; tf_architecture := 1; tf_pointer_width := 64; tf_endian := 1 |};
     hf_application_payload := [x01; x02; x03] |}.
#[local] Instance unlimited : Allocator := fun _ => true.

Lemma sample_hello_wf role : hello_wf (sample_hello role).
Proof.
  unfold hello_wf, features_wf, limits_wf, atomics_wf, target_wf, sample_hello, sample_offer, SessionLimits_default.
  cbn. split_and!; first [reflexivity | split; discriminate].
Qed.

Lemma encode_hello_equivalent_witness :
  encode_hello_into (sample_hello Coordinator) (replicate 256 xff)
  = NegotiationFrame_encode_into (Hello (sample_hello Coordinator)) (replicate 256 xff).
Proof. apply encode_hello_equivalent, sample_hello_wf. Defined.

Lemma negotiation_roundtrip_witness :
  exists n d', NegotiationFrame_encode_into (Hello (sample_hello Receiver)) (replicate 256 xff) = (Ok n, d') /\
    decode_frame (slice d' 0 n) Receiver (replicate 32 x05) 16 = Ok (Hello (sample_hello Receiver)).
Proof.
  destruct (negotiation_roundtrip (Hello (sample_hello Receiver)) (replicate 256 xff) 16)
    as (n & d' & H & _ & _ & _ & H');
    [apply sample_hello_wf|vm_compute; reflexivity|vm_compute; discriminate|split; [vm_compute; discriminate|reflexivity]|].
  exists n, d'. split; assumption.
Defined.

Definition sample_hello_bytes : bytes := Eval vm_compute in frame_wire (Hello (sample_hello Coordinator)).

Lemma negotiation_decode_canonical_witness :
  NegotiationFrame_encode_into (Hello (sample_hello Coordinator)) sample_hello_bytes
  = (Ok 227, sample_hello_bytes).
Proof.
  apply (negotiation_decode_canonical sample_hello_bytes Coordinator (replicate 32 x05) 16).
  vm_compute. reflexivity.
Defined.
