(* ===== verification/NegotiationDecision.v ===== *)
(** * NegotiationDecision: one transcript, one decision

    The HELLO digest binds both HELLOs, two endpoints reduce the same HELLOs to
    the same transcript, and a transcript releases its facts exactly once, after
    exactly the two expected ACCEPTs. *)

From S2P Require Import Prelude Bytes Limits Negotiation NegotiationCodec.

(** ** The digest preimage *)

Lemma app_inj_len {A} (x y x' y' : list A) : len x = len x' -> x ++ y = x' ++ y' -> x = x' /\ y = y'.
Proof. intros H. apply app_inj_1. unfold len in H. lia. Qed.

Lemma le_app_inj k m a b x y :
  m < 256 ^ Z.of_nat k -> fits m a -> fits m b ->
  le_bytes k a ++ x = le_bytes k b ++ y -> a = b /\ x = y.
Proof.
  intros Hm [Ha Ha'] [Hb Hb'] H. apply app_inj_len in H as [H ->]; [|now rewrite !len_le_bytes]. split; [|done].
  rewrite <- (le_val_le_bytes k a), <- (le_val_le_bytes k b) by lia. now rewrite H.
Qed.

Lemma atomic_flags_inj a b :
  atomic_flags a = atomic_flags b ->
  ao_u32_lock_free a = ao_u32_lock_free b /\ ao_u64_lock_free a = ao_u64_lock_free b.
Proof. destruct a as [[] [] ? ? ? ?], b as [[] [] ? ? ? ?]; vm_compute; intros; split; congruence. Qed.

Lemma hello_prefix_len h : len (hf_nonce h) = 32 -> len (hello_prefix h) = 147.
Proof.
  intros Hn. unfold hello_prefix. rewrite !len_app, !len_le_bytes, Hn. reflexivity.
Qed.

(** [fields_inj H]: the leading fields of two equal concatenations agree. *)
Ltac fields_inj H :=
  repeat match type of H with
         | le_bytes ?k ?a ++ _ = le_bytes ?k ?b ++ _ =>
             let m := match goal with _ : fits ?m a |- _ => m end in
             let F := fresh "F" in
             apply (le_app_inj k m a b) in H; [destruct H as [F H]|reflexivity|assumption|assumption]
         end.

Lemma hello_prefix_inj h h' :
  hello_wf h -> hello_wf h' -> hello_prefix h = hello_prefix h' ->
  hf_application_payload h = hf_application_payload h' -> h = h'.
Proof.
  intros (Hn & Hs & Hr & Hl & Ha & Ht) (Hn' & Hs' & Hr' & Hl' & Ha' & Ht') H Hp.
  unfold features_wf, limits_wf, atomics_wf, target_wf in *. destruct_and?.
  assert (u32 (atomic_flags (hf_atomics h))) by (pose proof (atomic_flags_bound (hf_atomics h)); ulia).
  assert (u32 (atomic_flags (hf_atomics h'))) by (pose proof (atomic_flags_bound (hf_atomics h')); ulia).
  assert (u8 (SenderRole_raw (hf_role h))) by (destruct (hf_role h); split; discriminate).
  assert (u8 (SenderRole_raw (hf_role h'))) by (destruct (hf_role h'); split; discriminate).
  unfold hello_prefix in H.
  do 4 (apply app_inj_len in H; [destruct H as [_ H]|now rewrite ?len_le_bytes]).
  fields_inj H. apply app_inj_len in H as [Hnonce H]; [|lia].
  rewrite <- (app_nil_r (le_bytes 1 (tf_endian (hf_target h)))),
    <- (app_nil_r (le_bytes 1 (tf_endian (hf_target h')))) in H.
  fields_inj H. apply atomic_flags_inj in F12 as [Ff1 Ff2].
  assert (Hrole : hf_role h = hf_role h') by (destruct (hf_role h), (hf_role h'); done).
  destruct h as [? ? [] [] [] [] [] ?], h' as [? ? [] [] [] [] [] ?]. cbn in *. now subst.
Qed.

Lemma hello_preimage_exact c r p :
  hello_preimage c r = Ok p <->
  len (hf_application_payload c) <= U32_MAX /\ len (hf_application_payload r) <= U32_MAX /\
  p = (HELLO_DOMAIN ++ hello_prefix c ++ le_bytes 4 (len (hf_application_payload c)) ++
         hf_application_payload c)
      ++ hello_prefix r ++ le_bytes 4 (len (hf_application_payload r)) ++ hf_application_payload r.
Proof.
  unfold hello_preimage, hash_hello. pose proof (len_nonneg (hf_application_payload c)).
  pose proof (len_nonneg (hf_application_payload r)). unfold try_from, fitsb.
  destruct (_ && _) eqn:E1; cbn [expect rbind]; [|split; [done|ulia]].
  destruct (_ && _) eqn:E2 in |- *; cbn [expect rbind]; [|split; [done|ulia]]. bsplit.
  split; [intros [= <-]; tauto|]. now intros (_ & _ & ->).
Qed.

(** The HELLO digest binds the negotiation. Its preimage determines both
    HELLOs: two pairs of HELLOs that feed the same bytes to SHA-256 are equal in
    every field, the application payloads included, so that no two different
    negotiations share a digest unless SHA-256 collides on them. *)
Theorem hello_preimage_injective c r c' r' p :
  hello_wf c -> hello_wf r -> hello_wf c' -> hello_wf r' ->
  hello_preimage c r = Ok p -> hello_preimage c' r' = Ok p -> c = c' /\ r = r'.
Proof.
  intros Hc Hr Hc' Hr' (Hl1 & Hl2 & Hp)%hello_preimage_exact (Hl1' & Hl2' & Hp')%hello_preimage_exact.
  rewrite Hp in Hp'. clear Hp. rewrite <- !app_assoc in Hp'.
  pose proof (len_nonneg (hf_application_payload c)). pose proof (len_nonneg (hf_application_payload r)).
  pose proof (len_nonneg (hf_application_payload c')). pose proof (len_nonneg (hf_application_payload r')).
  assert (Hpl : forall h, hello_wf h -> len (hello_prefix h) = 147)
    by (intros h Hh; apply hello_prefix_len, Hh).
  apply app_inj_len in Hp' as [_ Hp']; [|done].
  apply app_inj_len in Hp' as [Hpc Hp']; [|now rewrite !Hpl].
  apply (le_app_inj 4 U32_MAX) in Hp' as [Hlc Hp']; [|done|split; lia|split; lia].
  apply app_inj_len in Hp' as [Hyc Hp']; [|done].
  apply app_inj_len in Hp' as [Hpr Hp']; [|now rewrite !Hpl].
  apply (le_app_inj 4 U32_MAX) in Hp' as [_ Hyr]; [|done|split; lia|split; lia].
  split; now apply hello_prefix_inj.
Qed.

(** ** Feature words *)

Lemma u64_not_bits b i : u64 b -> 0 <= i < 64 -> Z.testbit (u64_not b) i = negb (Z.testbit b i).
Proof.
  intros Hb Hi. unfold u64_not. change U64_MAX with (Z.ones 64).
  assert (Hd : Z.ldiff b (Z.ones 64) = 0).
  { rewrite Z.ldiff_ones_r_low; [done|ulia|]. destruct (Z.eq_dec b 0) as [->|Hb0]; [done|].
    apply Z.log2_lt_pow2; [ulia|]. change (2 ^ 64) with (U64_MAX + 1). ulia. }
  rewrite Z.sub_nocarry_ldiff by done. rewrite Z.ldiff_spec, Z.ones_spec_low by lia. done.
Qed.

Lemma word_high b i : u64 b -> 64 <= i -> Z.testbit b i = false.
Proof.
  intros Hb Hi. destruct (Z.eq_dec b 0) as [->|]; [apply Z.bits_0|].
  apply Z.bits_above_log2; [ulia|]. apply Z.lt_le_trans with 64; [|done].
  apply Z.log2_lt_pow2; [ulia|]. change (2 ^ 64) with (U64_MAX + 1). ulia.
Qed.

Definition word_le (a b : Z) : Prop := forall i, Z.testbit a i = true -> Z.testbit b i = true.

Lemma word_subset a b : u64 a -> u64 b -> Z.land a (u64_not b) = 0 <-> word_le a b.
Proof.
  intros Ha Hb. split.
  - intros H i Hai. assert (Hi : 0 <= i < 64).
    { destruct (Z.lt_ge_cases i 0); [now rewrite Z.testbit_neg_r in Hai|].
      destruct (Z.lt_ge_cases i 64); [done|]. now rewrite word_high in Hai. }
    apply (f_equal (fun z => Z.testbit z i)) in H.
    rewrite Z.land_spec, u64_not_bits, Hai, Z.bits_0 in H by done. now apply negb_false_iff in H.
  - intros H. apply Z.bits_inj'. intros i Hi. rewrite Z.land_spec, Z.bits_0.
    destruct (Z.testbit a i) eqn:Hai; [|done].
    destruct (Z.lt_ge_cases i 64); [|now rewrite word_high in Hai].
    rewrite u64_not_bits by done. now rewrite (H i Hai).
Qed.

Definition features_le (f g : FeatureBits) : Prop := word_le (fst f) (fst g) /\ word_le (snd f) (snd g).

Lemma is_subset_of_iff f g :
  features_wf f -> features_wf g -> is_subset_of f g = true <-> features_le f g.
Proof.
  intros [] []. unfold is_subset_of, features_le. rewrite andb_true_iff, !Z.eqb_eq, !word_subset by done.
  done.
Qed.

Lemma word_land_le a b : word_le (Z.land a b) a /\ word_le (Z.land a b) b.
Proof. split; intros i; rewrite Z.land_spec, andb_true_iff; tauto. Qed.

Lemma word_le_trans a b c : word_le a b -> word_le b c -> word_le a c.
Proof. unfold word_le. auto. Qed.

Lemma word_lor_le a b c : word_le (Z.lor a b) c <-> word_le a c /\ word_le b c.
Proof.
  unfold word_le. split.
  - intros H. split; intros i Hi; apply H; rewrite Z.lor_spec, Hi; [done|apply orb_true_r].
  - intros [Ha Hb] i. rewrite Z.lor_spec, orb_true_iff. intros [Hi|Hi]; auto.
Qed.

Lemma u64_land a b : u64 a -> u64 b -> u64 (Z.land a b).
Proof.
  intros Ha Hb. split; [apply Z.land_nonneg; left; ulia|].
  destruct (Z.eq_dec (Z.land a b) 0) as [->|Hn]; [ulia|].
  assert (0 <= Z.land a b) by (apply Z.land_nonneg; left; ulia).
  assert (Z.land a b < 2 ^ 64); [|change (2 ^ 64) with (U64_MAX + 1) in *; lia].
  apply Z.log2_lt_pow2; [lia|]. apply Z.le_lt_trans with (Z.min (Z.log2 a) (Z.log2 b)).
  - apply Z.log2_land; ulia.
  - apply Z.le_lt_trans with (Z.log2 a); [lia|].
    destruct (Z.eq_dec a 0) as [->|]; [done|]. apply Z.log2_lt_pow2; [ulia|].
    change (2 ^ 64) with (U64_MAX + 1). ulia.
Qed.

Lemma u64_lor a b : u64 a -> u64 b -> u64 (Z.lor a b).
Proof.
  intros Ha Hb. assert (0 <= Z.lor a b) by (apply Z.lor_nonneg; ulia). split; [done|].
  destruct (Z.eq_dec (Z.lor a b) 0) as [->|Hn]; [ulia|].
  assert (Z.lor a b < 2 ^ 64); [|change (2 ^ 64) with (U64_MAX + 1) in *; lia].
  assert (Hlog : forall z, u64 z -> Z.log2 z < 64).
  { intros z Hz. destruct (Z.eq_dec z 0) as [->|]; [done|]. apply Z.log2_lt_pow2; [ulia|].
    change (2 ^ 64) with (U64_MAX + 1). ulia. }
  apply Z.log2_lt_pow2; [lia|]. rewrite Z.log2_lor by ulia.
  apply Z.max_lub_lt; now apply Hlog.
Qed.

(** ** Reduction of two HELLOs *)

Section Reduction.
Context {S : Sha256} {P : Platform}.

Lemma same_alignments_iff a b :
  same_alignments a b = true <->
  ao_u32_alignment a = ao_u32_alignment b /\ ao_u64_alignment a = ao_u64_alignment b /\
  ao_page_alignment a = ao_page_alignment b /\ ao_cache_line_alignment a = ao_cache_line_alignment b.
Proof.
  unfold same_alignments. rewrite negb_true_iff, !orb_false_iff, !negb_false_iff, !Z.eqb_eq. tauto.
Qed.

(** The effective atomics and features of a pair, from the local offer. *)
Definition effective_offer (l c r : AtomicOffer) : AtomicOffer :=
  {| ao_u32_lock_free := ao_u32_lock_free l && ao_u32_lock_free c && ao_u32_lock_free r;
     ao_u64_lock_free := ao_u64_lock_free l && ao_u64_lock_free c && ao_u64_lock_free r;
     ao_u32_alignment := ao_u32_alignment l; ao_u64_alignment := ao_u64_alignment l;
     ao_page_alignment := ao_page_alignment l; ao_cache_line_alignment := ao_cache_line_alignment l |}.

Definition selected (c r : HelloFrame) (e : AtomicOffer) : FeatureBits :=
  features_intersection
    (features_intersection
       (features_intersection (hf_supported_features c) (hf_supported_features r)) KNOWN_FEATURES)
    (Z.lor (Z.b2z (ao_u32_lock_free e) * fst FEATURE_ATOMIC_U32)
           (Z.b2z (ao_u64_lock_free e) * fst FEATURE_ATOMIC_U64), 0).

Lemma from_hello_pair_inv c r caps t :
  from_hello_pair {| hp_coordinator := c; hp_receiver := r |} caps = Ok t ->
  HelloFrame_validate c = Ok tt /\ HelloFrame_validate r = Ok tt /\
  hf_role c = Coordinator /\ hf_role r = Receiver /\ hf_nonce c = hf_nonce r /\
  hf_target c = TargetFacts_current /\ hf_target r = TargetFacts_current /\
  exists l, AtomicOffer_from_local caps = Ok l /\
    same_alignments (hf_atomics c) l = true /\ same_alignments (hf_atomics r) l = true /\
    let e := effective_offer l (hf_atomics c) (hf_atomics r) in
    is_subset_of (features_union (hf_required_features c) (hf_required_features r)) (selected c r e) = true /\
    exists limits digest,
      SessionLimits_negotiate (hf_limits c) (hf_limits r) = Ok limits /\
      canonical_hello_digest c r = Ok digest /\
      t = {| nt_nonce := hf_nonce c; nt_selected_features := selected c r e;
             nt_effective_limits := limits; nt_effective_atomics := e;
             nt_target := TargetFacts_current; nt_wire_major := WIRE_MAJOR; nt_wire_minor := WIRE_MINOR;
             nt_hello_digest := digest; nt_decision_challenge := None; nt_accepted_roles := 0 |}.
Proof.
  unfold from_hello_pair. cbn [hp_coordinator hp_receiver].
  destruct (HelloFrame_validate c) as [[]| |]; try discriminate. cbn [rbind].
  destruct (HelloFrame_validate r) as [[]| |]; try discriminate. cbn [rbind].
  destruct (_ || _) eqn:E1; [discriminate|]. bsplit.
  destruct (negb _) eqn:E2; [discriminate|]. bsplit.
  destruct (_ || _) eqn:E3 in |- *; [discriminate|]. bsplit.
  destruct (AtomicOffer_from_local caps) as [l| |]; try discriminate. cbn [rbind rfor].
  destruct (same_alignments (hf_atomics c) l) eqn:Ha1; [|discriminate]. cbn [rbind].
  destruct (same_alignments (hf_atomics r) l) eqn:Ha2; [|discriminate]. cbn [rbind].
  fold (effective_offer l (hf_atomics c) (hf_atomics r)).
  fold (selected c r (effective_offer l (hf_atomics c) (hf_atomics r))).
  destruct (negb _) eqn:Hsub; [discriminate|]. bsplit.
  destruct (SessionLimits_negotiate _ _) as [limits| |] eqn:Hl; try discriminate. cbn [map_err rbind].
  destruct (canonical_hello_digest c r) as [digest| |] eqn:Hd; try discriminate. cbn [rbind].
  intros [= <-]. split_and!; try done. exists l. split_and!; try done. eauto.
Qed.

Lemma from_hello_pair_intro c r caps l limits digest :
  HelloFrame_validate c = Ok tt -> HelloFrame_validate r = Ok tt ->
  hf_role c = Coordinator -> hf_role r = Receiver -> hf_nonce c = hf_nonce r ->
  hf_target c = TargetFacts_current -> hf_target r = TargetFacts_current ->
  AtomicOffer_from_local caps = Ok l ->
  same_alignments (hf_atomics c) l = true -> same_alignments (hf_atomics r) l = true ->
  is_subset_of (features_union (hf_required_features c) (hf_required_features r))
    (selected c r (effective_offer l (hf_atomics c) (hf_atomics r))) = true ->
  SessionLimits_negotiate (hf_limits c) (hf_limits r) = Ok limits ->
  canonical_hello_digest c r = Ok digest ->
  from_hello_pair {| hp_coordinator := c; hp_receiver := r |} caps
  = Ok {| nt_nonce := hf_nonce c;
          nt_selected_features := selected c r (effective_offer l (hf_atomics c) (hf_atomics r));
          nt_effective_limits := limits;
          nt_effective_atomics := effective_offer l (hf_atomics c) (hf_atomics r);
          nt_target := TargetFacts_current; nt_wire_major := WIRE_MAJOR; nt_wire_minor := WIRE_MINOR;
          nt_hello_digest := digest; nt_decision_challenge := None; nt_accepted_roles := 0 |}.
Proof.
  intros H1 H2 H3 H4 H5 H6 H7 H8 H9 H10 H11 H12 H13.
  unfold from_hello_pair. cbn [hp_coordinator hp_receiver].
  rewrite H1, H2. cbn [rbind]. rewrite H3, H4, !bool_decide_eq_true_2 by done. cbn [negb orb].
  rewrite H8. cbn [rbind rfor]. rewrite H9, H10. cbn [rbind].
  fold (effective_offer l (hf_atomics c) (hf_atomics r)).
  fold (selected c r (effective_offer l (hf_atomics c) (hf_atomics r))).
  rewrite H11. cbn [negb]. rewrite H12. cbn [map_err rbind]. now rewrite H13.
Qed.

Lemma effective_offer_ext l l' c r :
  same_alignments c l' = true -> same_alignments r l = true -> same_alignments c l = true ->
  l = c -> l' = r -> effective_offer l c r = effective_offer l' c r.
Proof.
  intros H1 H2 H3 -> ->. apply same_alignments_iff in H1 as (A1 & A2 & A3 & A4).
  unfold effective_offer. rewrite A1, A2, A3, A4.
  destruct (ao_u32_lock_free c), (ao_u32_lock_free r), (ao_u64_lock_free c), (ao_u64_lock_free r); done.
Qed.

(** Both endpoints derive the same transcript. When each endpoint offered,
    in its HELLO, the atomic facts it verified locally, and the reduction of the
    pair of HELLOs succeeds at the coordinator, it succeeds at the receiver with
    the same result, although each reduces against its own local facts. *)
Theorem reduction_agrees c r caps_c caps_r t :
  AtomicOffer_from_local caps_c = Ok (hf_atomics c) ->
  AtomicOffer_from_local caps_r = Ok (hf_atomics r) ->
  from_hello_pair {| hp_coordinator := c; hp_receiver := r |} caps_c = Ok t ->
  from_hello_pair {| hp_coordinator := c; hp_receiver := r |} caps_r = Ok t.
Proof.
  intros Hc Hr (H1 & H2 & H3 & H4 & H5 & H6 & H7 & l & Hl & H8 & H9 & H10 & limits & digest & H11 & H12 & ->)%from_hello_pair_inv.
  rewrite Hc in Hl. injection Hl as <-.
  assert (Hs : same_alignments (hf_atomics c) (hf_atomics r) = true).
  { apply same_alignments_iff. apply same_alignments_iff in H9. intuition congruence. }
  assert (Hsr : same_alignments (hf_atomics r) (hf_atomics r) = true) by now apply same_alignments_iff.
  rewrite (effective_offer_ext (hf_atomics c) (hf_atomics r)) in * by done.
  now apply from_hello_pair_intro.
Qed.

Lemma selected_wf c r e : hello_wf c -> hello_wf r -> features_wf (selected c r e).
Proof.
  intros (_ & [] & _) (_ & [] & _). unfold selected, features_intersection, features_wf. cbn [fst snd].
  assert (u64 (Z.lor (Z.b2z (ao_u32_lock_free e) * fst FEATURE_ATOMIC_U32)
                 (Z.b2z (ao_u64_lock_free e) * fst FEATURE_ATOMIC_U64)))
    by (destruct (ao_u32_lock_free e), (ao_u64_lock_free e); split; discriminate).
  assert (u64 (fst KNOWN_FEATURES)) by (split; discriminate).
  assert (u64 0) by (split; discriminate).
  split; (apply u64_land; [apply u64_land; [apply u64_land|]|]); assumption.
Qed.

Lemma selected_le c r e :
  features_le (selected c r e) (hf_supported_features c) /\
  features_le (selected c r e) (hf_supported_features r) /\
  features_le (selected c r e) KNOWN_FEATURES /\
  (Z.testbit (fst (selected c r e)) 0 = true -> ao_u32_lock_free e = true) /\
  (Z.testbit (fst (selected c r e)) 1 = true -> ao_u64_lock_free e = true).
Proof.
  unfold selected, features_intersection, features_le, word_le. cbn [fst snd].
  split_and!; intros; rewrite !Z.land_spec in *; repeat apply andb_prop in H as [H ?]; try done.
  - destruct (ao_u32_lock_free e), (ao_u64_lock_free e); done.
  - destruct (ao_u32_lock_free e), (ao_u64_lock_free e); done.
Qed.

(** A transcript as [from_hello_pair] returns it. *)
Definition fresh (t : NegotiatedTranscript) : Prop :=
  nt_wire_major t = WIRE_MAJOR /\ nt_wire_minor t = WIRE_MINOR /\ nt_nonce t <> zeros 32 /\
  nt_accepted_roles t = 0 /\ nt_decision_challenge t = None.

(** What a transcript promises. A reduction that succeeds has one nonzero
    nonce shared by both HELLOs, this build's target at both ends, the meet of
    the two limits, and a feature selection that contains every feature either
    side requires, only features both support and this version knows, and the
    atomic features only when every party is lock free; no decision has been
    taken on it. *)
Theorem transcript_sound c r caps t :
  hello_wf c -> hello_wf r ->
  from_hello_pair {| hp_coordinator := c; hp_receiver := r |} caps = Ok t ->
  (nt_nonce t = hf_nonce c /\ nt_nonce t = hf_nonce r /\ nt_nonce t <> zeros 32) /\
  (nt_target t = TargetFacts_current /\ hf_target c = nt_target t /\ hf_target r = nt_target t) /\
  nt_effective_limits t = limits_meet (hf_limits c) (hf_limits r) /\
  (features_le (hf_required_features c) (nt_selected_features t) /\
   features_le (hf_required_features r) (nt_selected_features t) /\
   features_le (nt_selected_features t) (hf_supported_features c) /\
   features_le (nt_selected_features t) (hf_supported_features r) /\
   features_le (nt_selected_features t) KNOWN_FEATURES) /\
  (Z.testbit (fst (nt_selected_features t)) 0 = true ->
     ao_u32_lock_free (hf_atomics c) = true /\ ao_u32_lock_free (hf_atomics r) = true /\
     ac_atomic_u32_lock_free caps = true) /\
  (Z.testbit (fst (nt_selected_features t)) 1 = true ->
     ao_u64_lock_free (hf_atomics c) = true /\ ao_u64_lock_free (hf_atomics r) = true /\
     ac_atomic_u64_lock_free caps = true) /\
  fresh t.
Proof.
  intros Hc Hr (H1 & H2 & H3 & H4 & H5 & H6 & H7 & l & Hl & H8 & H9 & H10 & limits & digest & H11 & H12 & ->)%from_hello_pair_inv.
  cbn. apply HelloFrame_validate_iff in H1 as (Hnz & _ & _), H2 as (_ & _ & _).
  assert (Hlim : limits = limits_meet (hf_limits c) (hf_limits r)).
  { apply negotiate_iff in H11 as (_ & _ & ->); [done| |].
    - destruct Hc as (_ & _ & _ & Hlw & _). unfold limits_wf in Hlw. destruct_and! Hlw.
      repeat (constructor; [ulia|]). constructor.
    - destruct Hr as (_ & _ & _ & Hlw & _). unfold limits_wf in Hlw. destruct_and! Hlw.
      repeat (constructor; [ulia|]). constructor. }
  assert (Hlf : ao_u32_lock_free l = ac_atomic_u32_lock_free caps /\
                ao_u64_lock_free l = ac_atomic_u64_lock_free caps).
  { unfold AtomicOffer_from_local in Hl. rinv Hl. now apply AtomicOffer_validate_same in Hl as ->. }
  destruct Hlf as [Hlf1 Hlf2].
  apply is_subset_of_iff in H10 as [Hq1 Hq2]; [|split; apply u64_lor; first [apply Hc | apply Hr]|now apply selected_wf].
  apply word_lor_le in Hq1 as [Hqc1 Hqr1], Hq2 as [Hqc2 Hqr2].
  destruct (selected_le c r (effective_offer l (hf_atomics c) (hf_atomics r))) as (Hs1 & Hs2 & Hs3 & Hb0 & Hb1).
  split_and!; try done; try congruence.
  - intros Hb. apply Hb0 in Hb. cbn in Hb. rewrite !andb_true_iff in Hb. intuition congruence.
  - intros Hb. apply Hb1 in Hb. cbn in Hb. rewrite !andb_true_iff in Hb. intuition congruence.
Qed.

End Reduction.

(** ** The decision state machine

    Every state-changing operation on a transcript, in any order a caller or a
    peer can cause. *)

Inductive DecisionOp :=
| TakeFacts
| CoordinatorReject (challenge : DecisionChallenge) (reason : Z)
| ReceiverReject (reason : Z)
| ValidateReject (reject : RejectFrame) (expected_role : SenderRole)
| ValidateAccept (accept : AcceptFrame) (expected_role : SenderRole).

(** What an operation hands back. *)
Inductive Outcome :=
| Facts (facts : AcceptedTranscriptFacts)
| Rejected
| Accepted
| Failed.

Definition outcome {A} (f : A -> Outcome) (m : stm NegotiatedTranscript NegotiationWireError A)
  (t : NegotiatedTranscript) : Outcome * NegotiatedTranscript :=
  match m t with
  | (Ok a, t') => (f a, t')
  | (_, t') => (Failed, t')
  end.

Definition run_op (op : DecisionOp) : NegotiatedTranscript -> Outcome * NegotiatedTranscript :=
  match op with
  | TakeFacts => outcome Facts take_accepted_facts
  | CoordinatorReject c reason => outcome (fun _ => Rejected) (coordinator_reject c reason)
  | ReceiverReject reason => outcome (fun _ => Rejected) (receiver_reject reason)
  | ValidateReject f role => outcome (fun _ => Rejected) (validate_reject f role)
  | ValidateAccept f role => outcome (fun _ => Accepted) (validate_accept f role)
  end.

Fixpoint run_ops (ops : list DecisionOp) (t : NegotiatedTranscript) : list Outcome :=
  match ops with
  | [] => []
  | op :: ops => let '(o, t') := run_op op t in o :: run_ops ops t'
  end.

Definition facts_of (t : NegotiatedTranscript) (c : DecisionChallenge) : AcceptedTranscriptFacts :=
  {| atf_nonce := nt_nonce t; atf_selected_features := nt_selected_features t;
     atf_effective_limits := nt_effective_limits t;
     atf_effective_atomics := nt_effective_atomics t; atf_target := nt_target t;
     atf_wire_major := nt_wire_major t; atf_wire_minor := nt_wire_minor t;
     atf_hello_digest := nt_hello_digest t; atf_decision_challenge := c |}.

(** The states the machine can be in. *)
Definition one_accept (t : NegotiatedTranscript) (c : DecisionChallenge) : NegotiatedTranscript :=
  set_accepted_roles 1 (set_decision_challenge (Some c) t).
Definition two_accepts (t : NegotiatedTranscript) (c : DecisionChallenge) : NegotiatedTranscript :=
  set_accepted_roles 3 (set_decision_challenge (Some c) t).

Ltac decide_op :=
  unfold run_op, outcome, take_accepted_facts, coordinator_reject, receiver_reject, validate_reject,
    validate_accept, RejectFrame_validate, poison, smodify, sbind, sget, sret, serr, slift, ok_or.

Lemma poisoned_op op t :
  nt_wire_major t = WIRE_MAJOR -> nt_wire_minor t = WIRE_MINOR -> nt_accepted_roles t = POISONED ->
  run_op op t = (Failed, set_accepted_roles POISONED t).
Proof.
  intros H1 H2 H3. destruct op as [|c r|r|f [|]|f [|]]; decide_op; rewrite ?H1, ?H2, H3; reflexivity.
Qed.

Lemma fresh_op op t :
  fresh t ->
  (exists c, op = ValidateAccept (accept_frame t Coordinator c) Coordinator /\
             run_op op t = (Accepted, one_accept t c)) \/
  (exists o t', run_op op t = (o, t') /\ (o = Rejected \/ o = Failed) /\
                t' = set_accepted_roles POISONED t).
Proof.
  intros (H1 & H2 & H3 & H4 & H5).
  destruct op as [|c r|r|f [|]|f [|]]; decide_op; rewrite ?H1, ?H2, ?H4, ?H5;
    change (Z.land 0 1) with 0; change (Z.land 1 2) with 0; change (Z.land 1 1) with 1;
    cbn [Z.eqb negb Z.land orb andb WIRE_MAJOR WIRE_MINOR Pos.eqb rf_nonce U8_MAX];
    try (right; do 2 eexists; split; [reflexivity|tauto]).
  - rewrite bool_decide_eq_false_2 by done. right. do 2 eexists. split; [reflexivity|tauto].
  - right. case_bool_decide; [do 2 eexists; split; [reflexivity|tauto]|].
    destruct (_ || _); do 2 eexists; (split; [reflexivity|tauto]).
  - rewrite (bool_decide_eq_false_2 (Coordinator = Receiver)) by done. cbn [andb].
    case_bool_decide as Hf; cbn [negb]; [|right; do 2 eexists; split; [reflexivity|tauto]].
    left. exists (af_decision_challenge f). split; [now rewrite <- Hf|].
    unfold one_accept, set_accepted_roles, set_decision_challenge.
    rewrite (bool_decide_eq_true_2 (Coordinator = Coordinator)) by done.
    cbn. now rewrite H4.
Qed.

Lemma one_accept_op op t c :
  fresh t ->
  (op = ValidateAccept (accept_frame t Receiver c) Receiver /\
   run_op op (one_accept t c) = (Accepted, two_accepts t c)) \/
  (exists o t', run_op op (one_accept t c) = (o, t') /\ (o = Rejected \/ o = Failed) /\
                t' = set_accepted_roles POISONED (one_accept t c)).
Proof.
  intros (H1 & H2 & H3 & H4 & H5). unfold one_accept, set_accepted_roles, set_decision_challenge.
  destruct op as [|c' r|r|f [|]|f [|]]; decide_op;
    cbn [nt_accepted_roles nt_decision_challenge nt_nonce nt_wire_major nt_wire_minor nt_selected_features
         nt_effective_limits nt_effective_atomics nt_target nt_hello_digest set_accepted_roles];
    rewrite ?H1, ?H2;
    change (Z.land 0 1) with 0; change (Z.land 1 2) with 0; change (Z.land 1 1) with 1;
    cbn [Z.eqb negb Z.land orb andb WIRE_MAJOR WIRE_MINOR Pos.eqb rf_nonce U8_MAX Pos.land];
    try (right; do 2 eexists; split; [reflexivity|tauto]).
  - rewrite bool_decide_eq_false_2 by done. right. do 2 eexists. split; [reflexivity|tauto].
  - right. case_bool_decide; [do 2 eexists; split; [reflexivity|tauto]|].
    destruct (_ || _); [do 2 eexists; split; [reflexivity|tauto]|].
    destruct (negb _); do 2 eexists; (split; [reflexivity|tauto]).
  - rewrite (bool_decide_eq_true_2 (Receiver = Receiver)) by done. cbn [andb].
    case_bool_decide as Hc; cbn [negb]; [|right; do 2 eexists; split; [reflexivity|tauto]].
    case_bool_decide as Hf; cbn [negb]; [|right; do 2 eexists; split; [reflexivity|tauto]].
    left. split; [now rewrite Hf|]. unfold two_accepts, set_accepted_roles, set_decision_challenge.
    rewrite (bool_decide_eq_false_2 (Receiver = Coordinator)) by done. cbn. now rewrite H1, H2.
Qed.

Lemma two_accepts_op op t c :
  fresh t ->
  exists t', t' = set_accepted_roles POISONED (two_accepts t c) /\
  run_op op (two_accepts t c) = (match op with TakeFacts => Facts (facts_of t c) | _ => Failed end, t').
Proof.
  intros (H1 & H2 & H3 & H4 & H5). unfold two_accepts, set_accepted_roles, set_decision_challenge.
  eexists. split; [reflexivity|].
  destruct op as [|c' r|r|f [|]|f [|]]; decide_op;
    cbn [nt_accepted_roles nt_decision_challenge nt_nonce nt_wire_major nt_wire_minor nt_selected_features
         nt_effective_limits nt_effective_atomics nt_target nt_hello_digest set_accepted_roles];
    rewrite ?H1, ?H2; try reflexivity.
  unfold facts_of. now rewrite H1, H2.
Qed.

Lemma poisoned_run ops t :
  nt_wire_major t = WIRE_MAJOR -> nt_wire_minor t = WIRE_MINOR -> nt_accepted_roles t = POISONED ->
  run_ops ops t = replicate (length ops) Failed.
Proof.
  revert t. induction ops as [|op ops IH]; intros t H1 H2 H3; [done|]. cbn [run_ops].
  rewrite poisoned_op by done. cbn [length replicate]. f_equal. now apply IH.
Qed.

(** What a run from a fresh transcript can be. *)
Lemma run_cases ops t :
  fresh t ->
  Forall (fun o => forall facts, o <> Facts facts) (run_ops ops t) \/
  exists c post,
    ops = [ValidateAccept (accept_frame t Coordinator c) Coordinator;
           ValidateAccept (accept_frame t Receiver c) Receiver; TakeFacts] ++ post /\
    run_ops ops t = [Accepted; Accepted; Facts (facts_of t c)] ++ replicate (length post) Failed.
Proof.
  intros Hf. pose proof Hf as (H1 & H2 & _).
  assert (Hpoison : forall ops t', nt_wire_major t' = WIRE_MAJOR -> nt_wire_minor t' = WIRE_MINOR ->
            Forall (fun o => forall facts, o <> Facts facts) (run_ops ops (set_accepted_roles POISONED t'))).
  { intros ops' t' ? ?. rewrite poisoned_run by done. now apply Forall_replicate. }
  destruct ops as [|op ops]; [left; constructor|]. cbn [run_ops].
  destruct (fresh_op op t Hf) as [(c & -> & ->)|(o & t' & -> & Ho & ->)].
  2:{ left. constructor; [intros facts; destruct Ho; congruence|now apply Hpoison]. }
  destruct ops as [|op ops]; [left; repeat constructor; done|]. cbn [run_ops].
  destruct (one_accept_op op t c Hf) as [(-> & ->)|(o & t' & -> & Ho & ->)].
  2:{ left. constructor; [done|]. constructor; [intros facts; destruct Ho; congruence|now apply Hpoison]. }
  destruct ops as [|op ops]; [left; repeat constructor; done|]. cbn [run_ops].
  destruct (two_accepts_op op t c Hf) as (t' & -> & ->).
  destruct op; try (left; constructor; [done|]; constructor; [done|]; constructor; [done|now apply Hpoison]).
  right. exists c, ops. split; [done|]. cbn [app]. do 3 f_equal. now apply poisoned_run.
Qed.

Lemma released_cases ops t facts :
  fresh t -> Facts facts ∈ run_ops ops t ->
  exists c post,
    ops = [ValidateAccept (accept_frame t Coordinator c) Coordinator;
           ValidateAccept (accept_frame t Receiver c) Receiver; TakeFacts] ++ post /\
    facts = facts_of t c /\
    run_ops ops t = [Accepted; Accepted; Facts facts] ++ replicate (length post) Failed.
Proof.
  intros Hf Hin. destruct (run_cases ops t Hf) as [Hno|(c & post & -> & Hrun)].
  - rewrite Forall_forall in Hno. exfalso. now apply (Hno _ Hin facts).
  - exists c, post. rewrite Hrun in Hin |- *. split; [done|].
    enough (facts = facts_of t c) as -> by done.
    apply elem_of_app in Hin as [Hin|Hin]; [|now apply elem_of_replicate in Hin as [? _]].
    apply list_elem_of_In in Hin. cbn in Hin. destruct Hin as [|[|[Heq|[]]]]; congruence.
Qed.

(** C19: Facts are released exactly once, after exactly the bilateral ACCEPT. In
    any run of operations on a fresh transcript, in any order and with any
    frames, the facts appear if and only if the run begins by validating the
    coordinator's ACCEPT and then the receiver's, both equal to this transcript
    in every field and carrying one challenge, and then takes the facts; every
    later operation fails, so they are never released twice. *)
Theorem facts_released_once ops t facts :
  fresh t ->
  Facts facts ∈ run_ops ops t <->
  exists c post,
    ops = [ValidateAccept (accept_frame t Coordinator c) Coordinator;
           ValidateAccept (accept_frame t Receiver c) Receiver; TakeFacts] ++ post /\
    facts = facts_of t c /\
    run_ops ops t = [Accepted; Accepted; Facts facts] ++ replicate (length post) Failed.
Proof.
  intros Hf. split.
  - now apply released_cases.
  - intros (c & post & -> & -> & ->). apply list_elem_of_In. cbn. tauto.
Qed.

(** Agreement. When two endpoints each release facts from their own
    transcript and the receiver ACCEPT they validated is the same frame, they
    hold the same facts: nonce, features, limits, atomics, target, version,
    digest and challenge. *)
Theorem bilateral_agreement ops ops' t t' facts facts' :
  fresh t -> fresh t' -> Facts facts ∈ run_ops ops t -> Facts facts' ∈ run_ops ops' t' ->
  ops !! 1%nat = ops' !! 1%nat -> facts = facts'.
Proof.
  intros Hf Hf' Hin Hin' Hsame.
  destruct (released_cases _ _ _ Hf Hin) as (c & post & -> & -> & _).
  destruct (released_cases _ _ _ Hf' Hin') as (c' & post' & -> & -> & _).
  destruct Hf as (M1 & M2 & _), Hf' as (M1' & M2' & _). cbn [app lookup list_lookup] in Hsame.
  unfold accept_frame in Hsame. injection Hsame as Q1 Q2 Q3 Q4 Q5 Q6 Q7.
  unfold facts_of. congruence.
Qed.

(** ** Witnesses *)

Definition offered : AtomicOffer :=
  {| ao_u32_lock_free := true; ao_u64_lock_free := false; ao_u32_alignment := 4;
     ao_u64_alignment := 8; ao_page_alignment := 4096; ao_cache_line_alignment := 64 |}.
Definition verified : AtomicCapabilities :=
  {| ac_atomic_u32_lock_free := true; ac_atomic_u32_alignment := 4;
     ac_atomic_u64_lock_free := false; ac_atomic_u64_alignment := 8;
     ac_page_alignment := 4096; ac_cache_line_alignment := 64 |}.
Definition a_hello (role : SenderRole) : HelloFrame :=
  {| hf_role := role; hf_nonce := replicate 32 x05; hf_supported_features := (7, 0);
     hf_required_features := (1, 0); hf_limits := SessionLimits_default; hf_atomics := offered;
     hf_target := {| tf_os := 1; tf_architecture := 1; tf_pointer_width := 64; tf_endian := 1 |};
     hf_application_payload := [x01; x02; x03] |}.
#[local] Instance first_bytes : Sha256 := fun s => take 32 (s ++ zeros 32).
#[local] Instance linux_x86_64 : Platform := {| target_os := Linux; target_arch := X86_64 |}.

Lemma a_hello_wf role : hello_wf (a_hello role).
Proof.
  unfold hello_wf, features_wf, limits_wf, atomics_wf, target_wf, a_hello, offered, SessionLimits_default.
  cbn. split_and!; first [reflexivity | split; discriminate].
Qed.

Definition a_transcript : NegotiatedTranscript := Eval vm_compute in
  match from_hello_pair {| hp_coordinator := a_hello Coordinator; hp_receiver := a_hello Receiver |} verified with
  | Ok t => t
  | _ => {| nt_nonce := []; nt_selected_features := (0, 0); nt_effective_limits := SessionLimits_default;
            nt_effective_atomics := offered; nt_target := TargetFacts_current; nt_wire_major := 0;
            nt_wire_minor := 0; nt_hello_digest := []; nt_decision_challenge := None; nt_accepted_roles := 0 |}
  end.

Definition a_preimage : bytes := Eval vm_compute in
  match hello_preimage (a_hello Coordinator) (a_hello Receiver) with Ok p => p | _ => [] end.

Lemma hello_preimage_injective_witness :
  a_hello Coordinator = a_hello Coordinator /\ a_hello Receiver = a_hello Receiver.
Proof.
  apply (hello_preimage_injective _ _ _ _ a_preimage);
    [apply a_hello_wf|apply a_hello_wf|apply a_hello_wf|apply a_hello_wf|vm_compute; reflexivity|vm_compute; reflexivity].
Defined.

Lemma reduction_agrees_witness :
  from_hello_pair {| hp_coordinator := a_hello Coordinator; hp_receiver := a_hello Receiver |} verified
  = Ok a_transcript.
Proof.
  apply (reduction_agrees (a_hello Coordinator) (a_hello Receiver) verified verified);
    vm_compute; reflexivity.
Defined.

Lemma transcript_sound_witness :
  features_le (hf_required_features (a_hello Receiver)) (nt_selected_features a_transcript).
Proof.
  apply (transcript_sound (a_hello Coordinator) (a_hello Receiver) verified a_transcript);
    [apply a_hello_wf|apply a_hello_wf|vm_compute; reflexivity].
Defined.

Lemma a_transcript_fresh : fresh a_transcript.
Proof. unfold fresh. cbn. split_and!; done. Qed.

Definition a_run : list DecisionOp :=
  [ValidateAccept (accept_frame a_transcript Coordinator (replicate 16 x09)) Coordinator;
   ValidateAccept (accept_frame a_transcript Receiver (replicate 16 x09)) Receiver; TakeFacts; TakeFacts].

Lemma facts_released_once_witness :
  Facts (facts_of a_transcript (replicate 16 x09)) ∈ run_ops a_run a_transcript /\
  run_ops a_run a_transcript
  = [Accepted; Accepted; Facts (facts_of a_transcript (replicate 16 x09)); Failed].
Proof.
  split; [|vm_compute; reflexivity]. apply facts_released_once; [apply a_transcript_fresh|].
  exists (replicate 16 x09), [TakeFacts]. split; [reflexivity|]. split; [reflexivity|]. vm_compute. reflexivity.
Defined.

Lemma bilateral_agreement_witness :
  facts_of a_transcript (replicate 16 x09) = facts_of a_transcript (replicate 16 x09).
Proof.
  apply (bilateral_agreement a_run a_run a_transcript a_transcript);
    [apply a_transcript_fresh|apply a_transcript_fresh|apply list_elem_of_In; vm_compute; tauto
    |apply list_elem_of_In; vm_compute; tauto|reflexivity].
Defined.
