(* ===== verification/Control.v ===== *)
(** * Control: ordered application control ([native-ipc/src/control.rs])

    The per-session control channel: a 72-byte header bound to the session
    nonce and to a monotonic sequence number per direction, the transaction
    interlock, and the poisoning rules. A [PendingControlReceive] borrows the
    state mutably; it is modelled by the validated header and the state it
    borrows, and its destructor by [drop_pending]. *)

From S2P Require Import Prelude Bytes Limits.

(** ** Constants *)

(** [*b"NIPCAPP1"]. *)
Definition CONTROL_MAGIC : bytes := [x4e; x49; x50; x43; x41; x50; x50; x31].
Definition VERSION_MAJOR : Z := 1.
Definition VERSION_MINOR : Z := 0.
Definition CONTROL_HEADER_LEN : Z := 72.
Definition APPLICATION_CONTROL_KIND_MIN : Z := 0x80000000.

Definition control_wire_len (payload_len : Z) : option Z :=
  checked_add USIZE_MAX CONTROL_HEADER_LEN payload_len.

Inductive ControlError :=
| ControlError_Poisoned
| ControlError_Truncated
| ControlError_BadMagic
| ControlError_BadVersion
| ControlError_NonCanonical
| ControlError_WrongSession
| ControlError_ReservedKind
| ControlError_PayloadTooLarge
| ControlError_ReplayOrReorder
| ControlError_TransactionConflict
| ControlError_SequenceExhausted
| ControlError_LengthOverflow
| ControlError_AllocationFailed
| ControlError_DestinationTooSmall.

(** ** State *)

Record ControlFrame := { cfr_kind : Z; cfr_payload : bytes }.

Record ControlState := {
  cs_nonce : bytes;
  cs_maximum_payload : Z;
  cs_next_send : Z;
  cs_next_receive : Z;
  cs_transaction_open : bool;
  cs_poisoned : bool;
  cs_pending_receive : bool
}.

Record ValidatedControlHeader := { vh_kind : Z; vh_payload_len : Z }.

Definition set_poisoned (st : ControlState) : ControlState :=
  {| cs_nonce := cs_nonce st; cs_maximum_payload := cs_maximum_payload st;
     cs_next_send := cs_next_send st; cs_next_receive := cs_next_receive st;
     cs_transaction_open := cs_transaction_open st; cs_poisoned := true;
     cs_pending_receive := cs_pending_receive st |}.
Definition set_pending (b : bool) (st : ControlState) : ControlState :=
  {| cs_nonce := cs_nonce st; cs_maximum_payload := cs_maximum_payload st;
     cs_next_send := cs_next_send st; cs_next_receive := cs_next_receive st;
     cs_transaction_open := cs_transaction_open st; cs_poisoned := cs_poisoned st;
     cs_pending_receive := b |}.
Definition set_transaction (b : bool) (st : ControlState) : ControlState :=
  {| cs_nonce := cs_nonce st; cs_maximum_payload := cs_maximum_payload st;
     cs_next_send := cs_next_send st; cs_next_receive := cs_next_receive st;
     cs_transaction_open := b; cs_poisoned := cs_poisoned st;
     cs_pending_receive := cs_pending_receive st |}.
Definition set_next_send (n : Z) (st : ControlState) : ControlState :=
  {| cs_nonce := cs_nonce st; cs_maximum_payload := cs_maximum_payload st;
     cs_next_send := n; cs_next_receive := cs_next_receive st;
     cs_transaction_open := cs_transaction_open st; cs_poisoned := cs_poisoned st;
     cs_pending_receive := cs_pending_receive st |}.
Definition set_next_receive (n : Z) (st : ControlState) : ControlState :=
  {| cs_nonce := cs_nonce st; cs_maximum_payload := cs_maximum_payload st;
     cs_next_send := cs_next_send st; cs_next_receive := n;
     cs_transaction_open := cs_transaction_open st; cs_poisoned := cs_poisoned st;
     cs_pending_receive := cs_pending_receive st |}.

Definition ControlState_new (nonce : bytes) (maximum_payload : Z) : option ControlState :=
  if bool_decide (nonce = zeros 32) || (maximum_payload =? 0)
     || (HARD_MAX_CONTROL_PAYLOAD_BYTES <? maximum_payload)
  then None
  else Some {| cs_nonce := nonce; cs_maximum_payload := maximum_payload; cs_next_send := 1;
               cs_next_receive := 1; cs_transaction_open := false; cs_poisoned := false;
               cs_pending_receive := false |}.

(** ** Sending *)

Definition check_local_parts (self : ControlState) (kind payload_len : Z) : res ControlError unit :=
  if cs_poisoned self then Err ControlError_Poisoned else
  if cs_transaction_open self then Err ControlError_TransactionConflict else
  if kind <? APPLICATION_CONTROL_KIND_MIN then Err ControlError_ReservedKind else
  let? payload_len := ok_or (try_from U32_MAX payload_len) ControlError_LengthOverflow in
  if (cs_maximum_payload self <? payload_len) || (HARD_MAX_CONTROL_PAYLOAD_BYTES <? payload_len)
  then Err ControlError_PayloadTooLarge else
  if cs_next_send self =? U64_MAX then Err ControlError_SequenceExhausted else
  Ok tt.

Definition encoded_len_parts (self : ControlState) (kind payload_len : Z) : res ControlError Z :=
  check_local_parts self kind payload_len >>?
  ok_or (control_wire_len payload_len) ControlError_LengthOverflow.

(** The state is the receiver [&mut self] and the destination buffer. *)
Definition on_state {E} (f : ControlState -> ControlState) : stm (ControlState * bytes) E unit :=
  smodify (fun '(st, d) => (f st, d)).
Definition on_buffer {E} (f : bytes -> res E bytes) : stm (ControlState * bytes) E unit :=
  supdate (fun '(st, d) => let? d := f d in Ok (st, d)).

Definition encode_parts_into (kind : Z) (payload : bytes)
  : stm (ControlState * bytes) ControlError Z :=
  let! both := sget in
  let self := fst both in
  let destination := snd both in
  if cs_transaction_open self || cs_pending_receive self
  then on_state set_poisoned >>! serr ControlError_TransactionConflict else
  if cs_next_send self =? U64_MAX
  then on_state set_poisoned >>! serr ControlError_SequenceExhausted else
  let! required := slift (encoded_len_parts self kind (len payload)) in
  if len destination <? required then serr ControlError_DestinationTooSmall else
  on_buffer (fun d =>
    let? d := fill_zero d 28 32 in
    let? d := copy_range d 0 8 CONTROL_MAGIC in
    let? d := put_u16 d 8 VERSION_MAJOR in
    let? d := put_u16 d 10 VERSION_MINOR in
    put_u32 d 12 CONTROL_HEADER_LEN) >>!
  let! required32 := slift (ok_or (try_from U32_MAX required) ControlError_LengthOverflow) in
  on_buffer (fun d => put_u32 d 16 required32) >>!
  let! payload_len := slift (ok_or (try_from U32_MAX (len payload)) ControlError_LengthOverflow) in
  on_buffer (fun d =>
    let? d := put_u32 d 20 payload_len in
    let? d := put_u32 d 24 kind in
    let? d := copy_range d 32 64 (cs_nonce self) in
    let? d := put_u64 d 64 (cs_next_send self) in
    copy_range d CONTROL_HEADER_LEN required payload) >>!
  let! next := slift (ok_or (checked_add U64_MAX (cs_next_send self) 1)
                            ControlError_SequenceExhausted) in
  on_state (set_next_send next) >>!
  sret required.

(** ** Receiving *)

Definition validate_header_inner (self : ControlState) (source : bytes)
  : res ControlError ValidatedControlHeader :=
  if cs_poisoned self then Err ControlError_Poisoned else
  if cs_transaction_open self then Err ControlError_TransactionConflict else
  if cs_pending_receive self then Err ControlError_ReplayOrReorder else
  if negb (len source =? CONTROL_HEADER_LEN) then Err ControlError_Truncated else
  let? magic := index_range source 0 8 in
  if negb (bool_decide (magic = CONTROL_MAGIC)) then Err ControlError_BadMagic else
  let? major := get_u16 source 8 in
  let? minor := get_u16 source 10 in
  if negb (major =? VERSION_MAJOR) || negb (minor =? VERSION_MINOR)
  then Err ControlError_BadVersion else
  let? header_len := get_u32 source 12 in
  let? reserved := get_u32 source 28 in
  if negb (header_len =? CONTROL_HEADER_LEN) || negb (reserved =? 0)
  then Err ControlError_NonCanonical else
  let? frame_len := get_u32 source 16 in
  let? payload_len := get_u32 source 20 in
  let? expected_len := ok_or (control_wire_len payload_len) ControlError_LengthOverflow in
  if negb (frame_len =? expected_len) then Err ControlError_NonCanonical else
  if (cs_maximum_payload self <? payload_len) || (HARD_MAX_CONTROL_PAYLOAD_BYTES <? payload_len)
  then Err ControlError_PayloadTooLarge else
  let? kind := get_u32 source 24 in
  if kind <? APPLICATION_CONTROL_KIND_MIN then Err ControlError_ReservedKind else
  let? nonce := index_range source 32 64 in
  if negb (bool_decide (nonce = cs_nonce self)) then Err ControlError_WrongSession else
  let? sequence := get_u64 source 64 in
  if negb (sequence =? cs_next_receive self) then Err ControlError_ReplayOrReorder else
  if cs_next_receive self =? U64_MAX then Err ControlError_SequenceExhausted else
  Ok {| vh_kind := kind; vh_payload_len := payload_len |}.

Definition validate_header (source : bytes)
  : stm ControlState ControlError ValidatedControlHeader :=
  let! self := sget in
  match validate_header_inner self source with
  | Ok header => smodify (set_pending true) >>! sret header
  | Err e => smodify set_poisoned >>! serr e
  | Panic => slift Panic
  end.

(** [Drop] of an uncommitted [PendingControlReceive]. *)
Definition drop_pending (st : ControlState) : ControlState := set_poisoned (set_pending false st).

(** A method that consumes the pending receive: on every early return it is
    dropped uncommitted. *)
Definition or_drop {A} (m : stm ControlState ControlError A) : stm ControlState ControlError A :=
  fun st => match m st with
            | (Ok a, st') => (Ok a, st')
            | (r, st') => (r, drop_pending st')
            end.

Definition finish_owned (header : ValidatedControlHeader) (payload : bytes)
  : stm ControlState ControlError ControlFrame :=
  or_drop (
    let! self := sget in
    if negb (len payload =? vh_payload_len header) then serr ControlError_NonCanonical else
    let! next := slift (ok_or (checked_add U64_MAX (cs_next_receive self) 1)
                              ControlError_SequenceExhausted) in
    smodify (set_next_receive next) >>!
    smodify (set_pending false) >>!
    sret {| cfr_kind := vh_kind header; cfr_payload := payload |}).

(** [source.copy_within(HEADER..expected, 0); source.truncate(payload_len)]. *)
Definition shift_payload {E} (source : bytes) (expected payload_len : Z) : res E bytes :=
  let? payload := index_range source CONTROL_HEADER_LEN expected in
  Ok (slice (splice source 0 payload) 0 payload_len).

Definition decode_owned (source : bytes) : stm ControlState ControlError ControlFrame :=
  if len source <? CONTROL_HEADER_LEN
  then smodify set_poisoned >>! serr ControlError_Truncated else
  let! head := slift (index_range source 0 CONTROL_HEADER_LEN) in
  let! header := validate_header head in
  let payload_len := vh_payload_len header in
  let! payload := or_drop (
    let! expected := slift (ok_or (control_wire_len payload_len) ControlError_LengthOverflow) in
    if negb (len source =? expected) then serr ControlError_NonCanonical else
    slift (shift_payload source expected payload_len)) in
  finish_owned header payload.

(** ** The transaction interlock *)

Definition begin_transaction : stm ControlState ControlError unit :=
  let! self := sget in
  if cs_poisoned self then serr ControlError_Poisoned else
  if cs_transaction_open self || cs_pending_receive self
  then smodify set_poisoned >>! serr ControlError_TransactionConflict else
  smodify (set_transaction true).

Definition end_transaction : stm ControlState ControlError unit :=
  let! self := sget in
  if cs_poisoned self then serr ControlError_Poisoned else
  if negb (cs_transaction_open self)
  then smodify set_poisoned >>! serr ControlError_TransactionConflict else
  smodify (set_transaction false).

Definition ControlState_poison : ControlState -> ControlState := set_poisoned.

(** * The control channel delivers in order or not at all *)

(** ** The wire format *)

Definition control_head (nonce : bytes) (sequence kind payload_len : Z) : bytes :=
  CONTROL_MAGIC ++ le_bytes 2 VERSION_MAJOR ++ le_bytes 2 VERSION_MINOR
  ++ le_bytes 4 CONTROL_HEADER_LEN ++ le_bytes 4 (72 + payload_len) ++ le_bytes 4 payload_len
  ++ le_bytes 4 kind ++ zeros 4 ++ nonce ++ le_bytes 8 sequence.

Definition control_wire (nonce : bytes) (sequence : Z) (f : ControlFrame) : bytes :=
  control_head nonce sequence (cfr_kind f) (len (cfr_payload f)) ++ cfr_payload f.

(** The state a [ControlState] has by its types and constructor. *)
Definition control_wf (st : ControlState) : Prop :=
  len (cs_nonce st) = 32 /\ u32 (cs_maximum_payload st) /\
  1 <= cs_next_send st <= U64_MAX /\ 1 <= cs_next_receive st <= U64_MAX.

(** Neither poisoned, nor in a transaction, nor holding an unfinished receive. *)
Definition usable (st : ControlState) : Prop :=
  cs_poisoned st = false /\ cs_transaction_open st = false /\ cs_pending_receive st = false.

(** A frame the negotiated limits admit. *)
Definition admissible (st : ControlState) (f : ControlFrame) : Prop :=
  u32 (cfr_kind f) /\ APPLICATION_CONTROL_KIND_MIN <= cfr_kind f /\
  len (cfr_payload f) <= cs_maximum_payload st /\
  len (cfr_payload f) <= HARD_MAX_CONTROL_PAYLOAD_BYTES.

Lemma control_head_len nonce n kind pl : len nonce = 32 -> len (control_head nonce n kind pl) = 72.
Proof. intros H. unfold control_head. rewrite !len_app, !len_le_bytes, H. reflexivity. Qed.

Lemma control_wire_bytes nonce n f :
  len nonce = 32 -> len (control_wire nonce n f) = 72 + len (cfr_payload f).
Proof. intros H. unfold control_wire. rewrite len_app, control_head_len by done. done. Qed.

Lemma small_payload n : n <= HARD_MAX_CONTROL_PAYLOAD_BYTES -> 0 <= n -> u32 (72 + n) /\ u32 n.
Proof. unfold HARD_MAX_CONTROL_PAYLOAD_BYTES. ulia. Qed.

(** ** Sending *)

Lemma check_local_ok st f :
  usable st -> cs_next_send st < U64_MAX -> admissible st f ->
  check_local_parts st (cfr_kind f) (len (cfr_payload f)) = Ok tt.
Proof.
  intros (H1 & H2 & H3) Hn (Hk & Hm & Hp & Hh). pose proof (len_nonneg (cfr_payload f)).
  destruct (small_payload _ Hh) as [_ Hu]; [done|].
  unfold check_local_parts. rewrite H1, H2, (proj2 (Z.ltb_ge _ _) Hm), try_from_ok by done.
  cbn [ok_or rbind]. rewrite (proj2 (Z.ltb_ge _ _) Hp), (proj2 (Z.ltb_ge _ _) Hh). cbn [orb].
  now rewrite (proj2 (Z.eqb_neq _ _)) by lia.
Qed.

Lemma encode_spec st d f :
  control_wf st -> usable st -> cs_next_send st < U64_MAX -> admissible st f ->
  72 + len (cfr_payload f) <= len d ->
  encode_parts_into (cfr_kind f) (cfr_payload f) (st, d)
  = (Ok (72 + len (cfr_payload f)),
     (set_next_send (cs_next_send st + 1) st,
      control_wire (cs_nonce st) (cs_next_send st) f ++ slice d (72 + len (cfr_payload f)) (len d))).
Proof.
  intros (Hnl & _ & Hns & _) Hus Hn Ha Hd. pose proof Hus as (H1 & H2 & H3).
  pose proof Ha as (Hk & Hm & Hp & Hh). pose proof (len_nonneg (cfr_payload f)) as Hp0.
  destruct (small_payload _ Hh Hp0) as [Hu Hu'].
  remember (len (cfr_payload f)) as pl eqn:Hpl. remember (72 + pl) as n eqn:Hnn.
  assert (Hsplit : d = slice d 0 72 ++ slice d 72 n ++ slice d n (len d))
    by (rewrite !slice_cat by lia; now rewrite slice_full).
  assert (Hh0 : len (slice d 0 72) = 72) by (rewrite len_slice; lia).
  assert (Hz0 : len (slice d 72 n) = pl) by (rewrite len_slice; lia).
  set (h0 := slice d 0 72) in *. set (z0 := slice d 72 n) in *. set (rest := slice d n (len d)) in *.
  pose proof (len_nonneg rest). assert (Hmg : len CONTROL_MAGIC = 8) by done.
  assert (Hz4 : len (zeros 4) = 4) by done.
  assert (Hcl : check_local_parts st (cfr_kind f) pl = Ok tt) by (rewrite Hpl; now apply check_local_ok).
  assert (Hwl : control_wire_len pl = Some n).
  { unfold control_wire_len, CONTROL_HEADER_LEN. rewrite Hnn. apply checked_add_ok. ulia. }
  unfold encode_parts_into. unfold sbind at 1. cbn [sget fst snd]. rewrite H2, H3. cbn [orb].
  rewrite (proj2 (Z.eqb_neq _ _)) by lia. unfold sbind at 1, slift at 1, encoded_len_parts.
  rewrite <- Hpl, Hcl. cbn [rbind]. rewrite Hwl. cbn [ok_or].
  replace (len d <? n) with false by lia. rewrite Hsplit at 1. clear Hsplit.
  unfold sbind at 1, on_buffer at 1, supdate at 1, fill_zero. change (zeros (32 - 28)) with (zeros 4).
  rd. cbn beta iota. unfold sbind at 1, slift at 1. rewrite try_from_ok by done. cbn [ok_or].
  unfold sbind at 1, on_buffer at 1, supdate at 1. rd. cbn beta iota.
  unfold sbind at 1, slift at 1. rewrite try_from_ok by done. cbn [ok_or].
  unfold sbind at 1, on_buffer at 1, supdate at 1. unfold CONTROL_HEADER_LEN. rd. cbn beta iota.
  unfold sbind at 1, slift at 1. rewrite checked_add_ok by lia. cbn [ok_or].
  unfold sbind, on_state, smodify, sret. do 2 f_equal. f_equal.
  rewrite !splice_app_take by len_solve. rewrite (splice_app_skip _ _ _ 72 0) by len_solve.
  rewrite (splice_app_take z0 rest) by lia. rewrite (splice_full z0) by lia. unfold control_wire.
  rewrite <- app_assoc. f_equal. rewrite <- Hpl.
  match goal with
  | |- ?s = _ => transitivity (cut s 0 [8; 10; 12; 16; 20; 24; 28; 32; 64; 72]);
      [symmetry; apply cut_full; [reflexivity|discriminate|cbn [cut_end]; len_solve]|]
  end.
  cbn [cut]. rw_slice. unfold control_head. now rewrite Hnn.
Qed.

(** ** Receiving *)

Lemma validate_header_iff st s h :
  control_wf st ->
  validate_header_inner st s = Ok h <->
  usable st /\ cs_next_receive st < U64_MAX /\ u32 (vh_kind h) /\
  APPLICATION_CONTROL_KIND_MIN <= vh_kind h /\ u32 (vh_payload_len h) /\
  vh_payload_len h <= cs_maximum_payload st /\
  vh_payload_len h <= HARD_MAX_CONTROL_PAYLOAD_BYTES /\
  s = control_head (cs_nonce st) (cs_next_receive st) (vh_kind h) (vh_payload_len h).
Proof.
  intros (Hnl & Hmax & _ & Hnr). unfold validate_header_inner, usable, CONTROL_HEADER_LEN.
  destruct (cs_poisoned st); [split; [done|naive_solver]|].
  destruct (cs_transaction_open st); [split; [done|naive_solver]|].
  destruct (cs_pending_receive st); [split; [done|naive_solver]|].
  destruct (len s =? 72) eqn:Hl; cbn [negb]; bsplit.
  2:{ split; [done|]. intros (_ & _ & _ & _ & _ & _ & _ & ->). now rewrite control_head_len in Hl. }
  assert (Hsp : forall kind pl, s = control_head (cs_nonce st) (cs_next_receive st) kind pl <->
    slice s 0 8 = CONTROL_MAGIC /\ slice s 8 10 = le_bytes 2 VERSION_MAJOR /\
    slice s 10 12 = le_bytes 2 VERSION_MINOR /\ slice s 12 16 = le_bytes 4 72 /\
    slice s 16 20 = le_bytes 4 (72 + pl) /\ slice s 20 24 = le_bytes 4 pl /\
    slice s 24 28 = le_bytes 4 kind /\ slice s 28 32 = zeros 4 /\ slice s 32 64 = cs_nonce st /\
    slice s 64 72 = le_bytes 8 (cs_next_receive st)).
  { intros kind pl. transitivity (slice s 0 72 = control_head (cs_nonce st) (cs_next_receive st) kind pl);
      [now rewrite slice_full|]. unfold control_head.
    assert (len CONTROL_MAGIC = 8) by done.
    rewrite (slice_app_iff s 0 72 8), (slice_app_iff s 8 72 10), (slice_app_iff s 10 72 12),
      (slice_app_iff s 12 72 16), (slice_app_iff s 16 72 20), (slice_app_iff s 20 72 24),
      (slice_app_iff s 24 72 28), (slice_app_iff s 28 72 32), (slice_app_iff s 32 72 64)
      by (rewrite ?len_le_bytes, ?len_zeros; lia). done. }
  rd. rewrite Hsp. clear Hsp. split.
  - case_bool_decide as Hmg; [|discriminate]. cbn [negb].
    destruct (_ || _) eqn:Hver; [discriminate|]. unfold VERSION_MAJOR, VERSION_MINOR in *. bsplit.
    destruct (_ || _) eqn:Hres in |- *; [discriminate|]. bsplit.
    pose proof (field_u32 s 16 ltac:(lia) ltac:(lia)) as Hw16.
    pose proof (field_u32 s 20 ltac:(lia) ltac:(lia)) as Hw20.
    unfold control_wire_len, CONTROL_HEADER_LEN. rewrite checked_add_ok by ulia. cbn [ok_or rbind].
    destruct (negb _) eqn:Hfl; [discriminate|]. bsplit.
    destruct (_ || _) eqn:Hpl in |- *; [discriminate|]. bsplit.
    destruct (_ <? _) eqn:Hk in |- *; [discriminate|]. bsplit.
    case_bool_decide as Hno; [|discriminate]. cbn [negb].
    destruct (negb _) eqn:Hseq; [discriminate|]. bsplit.
    destruct (_ =? U64_MAX) eqn:Hex; [discriminate|]. bsplit. intros [= <-]. cbn [vh_kind vh_payload_len].
    split_and!; try done; try lia; first [fwidth | le_field | idtac].
    + apply (field_iff s 8 10 2 2); done || lia.
    + apply (field_iff s 10 12 2 2); done || lia.
    + apply (field_iff s 12 16 4 4); done || lia.
    + apply (field_iff s 16 20 4 4); try done || lia || ulia.
    + apply (field_zeros s 28 32); done || lia.
    + apply (field_iff s 64 72 8 8); try done || lia || ulia.
  - intros (_ & Hn & Hk & Hkm & Hp & Hpm & Hph & Hmg & H8 & H10 & H12 & H16 & H20 & H24 & H28 & H32 & H64).
    unfold VERSION_MAJOR, VERSION_MINOR in *. pose proof (small_payload _ Hph ltac:(ulia)) as [Hu _].
    assert (u64 (cs_next_receive st)) by ulia. fval. rewrite Hmg, H32, !bool_decide_eq_true_2 by done.
    cbn [negb orb Z.eqb Pos.eqb]. unfold control_wire_len, CONTROL_HEADER_LEN.
    rewrite checked_add_ok by ulia. cbn [ok_or rbind]. rewrite !Z.eqb_refl. cbn [negb].
    rewrite (proj2 (Z.ltb_ge _ _) Hpm), (proj2 (Z.ltb_ge _ _) Hph), (proj2 (Z.ltb_ge _ _) Hkm). cbn [orb].
    rewrite (proj2 (Z.eqb_neq _ _)) by lia. now destruct h.
Qed.

Lemma validate_header_no_panic st s : validate_header_inner st s <> Panic.
Proof.
  unfold validate_header_inner, CONTROL_HEADER_LEN. do 3 (case_match; [done|]).
  destruct (negb _) eqn:Hl; [done|]. bsplit. rd. do 3 (case_match; [done|]).
  destruct (control_wire_len _); cbn [ok_or rbind]; [|done]. now repeat case_match.
Qed.

Lemma shift_payload_ok {E} s pl :
  0 <= pl -> len s = 72 + pl -> shift_payload (E := E) s (72 + pl) pl = Ok (slice s 72 (72 + pl)).
Proof.
  intros Hp Hl. unfold shift_payload, CONTROL_HEADER_LEN. rd. f_equal.
  apply slice_splice_eq; rewrite ?len_slice; lia.
Qed.

(** Whatever the receiver does not accept poisons it. *)
Definition refused (st st' : ControlState) : Prop :=
  cs_poisoned st' = true /\ cs_next_receive st' = cs_next_receive st /\
  cs_next_send st' = cs_next_send st /\ cs_nonce st' = cs_nonce st /\
  cs_maximum_payload st' = cs_maximum_payload st.

Lemma control_decode_cases st s :
  control_wf st ->
  (exists f, usable st /\ cs_next_receive st < U64_MAX /\ admissible st f /\
     s = control_wire (cs_nonce st) (cs_next_receive st) f /\
     decode_owned s st = (Ok f, set_next_receive (cs_next_receive st + 1) st)) \/
  (exists e st', decode_owned s st = (Err e, st') /\ refused st st').
Proof.
  intros Hwf. pose proof Hwf as (Hnl & Hmax & _ & Hnr). unfold decode_owned, CONTROL_HEADER_LEN, refused.
  destruct (len s <? 72) eqn:Hl; [right; do 2 eexists; split; [reflexivity|done]|]. bsplit.
  rd. rewrite (sbind_Ok _ _ st (slice s 0 72) st) by done.
  destruct (validate_header_inner st (slice s 0 72)) as [h|e|] eqn:Hv.
  3:{ exfalso. now apply validate_header_no_panic in Hv. }
  2:{ right. exists e, (set_poisoned st). split; [|done]. apply sbind_Err.
      unfold validate_header, sbind, sget. now rewrite Hv. }
  rewrite (sbind_Ok _ _ st h (set_pending true st))
    by (unfold validate_header, sbind, sget; now rewrite Hv).
  apply validate_header_iff in Hv as (Hus & Hn & Hk & Hkm & Hp & Hpm & Hph & Hs); [|done].
  pose proof Hus as (Hu1 & Hu2 & Hu3).
  unfold control_wire_len, CONTROL_HEADER_LEN. rewrite checked_add_ok by ulia. cbn [ok_or].
  destruct (len s =? 72 + vh_payload_len h) eqn:Hls; bsplit.
  2:{ right. exists ControlError_NonCanonical, (drop_pending (set_pending true st)). split; [|done]. apply sbind_Err.
      unfold or_drop, sbind, slift. now rewrite (proj2 (Z.eqb_neq _ _) Hls). }
  rewrite (sbind_Ok _ _ _ (slice s 72 (72 + vh_payload_len h)) (set_pending true st)).
  2:{ unfold or_drop, sbind, slift. rewrite Hls, Z.eqb_refl. cbn [negb].
      now rewrite shift_payload_ok by ulia. }
  unfold finish_owned, or_drop, sbind, sget, slift, smodify, sret.
  assert (Hpl : len (slice s 72 (72 + vh_payload_len h)) = vh_payload_len h) by (rewrite len_slice; ulia).
  rewrite Hpl, Z.eqb_refl. cbn [negb]. cbn [cs_next_receive set_pending]. rewrite checked_add_ok by lia. cbn [ok_or].
  left. eexists {| cfr_kind := vh_kind h; cfr_payload := slice s 72 (72 + vh_payload_len h) |}.
  unfold admissible, control_wire. cbn [cfr_kind cfr_payload]. rewrite Hpl. split_and!; try done.
  - rewrite <- Hs, slice_cat by ulia. now rewrite slice_full by ulia.
  - unfold set_next_receive, set_pending. cbn. now rewrite Hu3.
Qed.

Lemma control_wire_inj nonce n n' f f' :
  len nonce = 32 -> len (cfr_payload f) <= HARD_MAX_CONTROL_PAYLOAD_BYTES ->
  len (cfr_payload f') <= HARD_MAX_CONTROL_PAYLOAD_BYTES ->
  u32 (cfr_kind f) -> u32 (cfr_kind f') -> u64 n -> u64 n' ->
  control_wire nonce n f = control_wire nonce n' f' -> n = n' /\ f = f'.
Proof.
  intros Hn Hp Hp' Hk Hk' Hw Hw' H. unfold control_wire in H.
  apply app_inj_1 in H as [Hh Hpay].
  2:{ apply Nat2Z.inj. fold (len (control_head nonce n (cfr_kind f) (len (cfr_payload f)))).
      fold (len (control_head nonce n' (cfr_kind f') (len (cfr_payload f')))).
      now rewrite !control_head_len. }
  unfold control_head in Hh. rewrite Hpay in Hh.
  do 6 (apply app_inv_head in Hh). apply app_inj_1 in Hh as [Hkind Hh]; [|now rewrite !length_le_bytes].
  do 2 (apply app_inv_head in Hh).
  apply (f_equal le_val) in Hkind, Hh. rewrite !le_val_u32 in Hkind by done. rewrite !le_val_u64 in Hh by done.
  split; [done|]. destruct f, f'. cbn in *. now subst.
Qed.

(** The record the receiver expects next is accepted. *)
Lemma decode_accepts st f :
  control_wf st -> usable st -> cs_next_receive st < U64_MAX -> admissible st f ->
  decode_owned (control_wire (cs_nonce st) (cs_next_receive st) f) st
  = (Ok f, set_next_receive (cs_next_receive st + 1) st).
Proof.
  intros Hwf Hus Hn Ha. pose proof Hwf as (Hnl & Hmax & _ & Hnr).
  destruct (control_decode_cases st (control_wire (cs_nonce st) (cs_next_receive st) f) Hwf)
    as [(g & _ & _ & Hag & Hs & ->)|(e & st1 & Hd & _)].
  - destruct Ha as (?&?&?&?), Hag as (?&?&?&?). apply control_wire_inj in Hs as [_ ->]; try done || ulia.
  - exfalso. pose proof Ha as (Hk & Hkm & Hpm & Hph). pose proof (len_nonneg (cfr_payload f)) as Hp0.
    destruct (small_payload _ Hph Hp0) as [Hu Hu'].
    assert (Hv : validate_header_inner st (control_head (cs_nonce st) (cs_next_receive st) (cfr_kind f)
                   (len (cfr_payload f))) = Ok {| vh_kind := cfr_kind f; vh_payload_len := len (cfr_payload f) |})
      by (apply validate_header_iff; done).
    pose proof (control_wire_bytes (cs_nonce st) (cs_next_receive st) f Hnl) as Hl.
    pose proof (control_head_len (cs_nonce st) (cs_next_receive st) (cfr_kind f) (len (cfr_payload f)) Hnl) as Hhl.
    unfold decode_owned, CONTROL_HEADER_LEN in Hd. rewrite (proj2 (Z.ltb_ge _ _)) in Hd by lia.
    rewrite (sbind_Ok _ _ st (control_head (cs_nonce st) (cs_next_receive st) (cfr_kind f) (len (cfr_payload f))) st) in Hd.
    2:{ unfold slift. rewrite index_range_ok by lia. f_equal. f_equal. unfold control_wire.
        now rewrite (slice_app_take _ _ 72) by done. }
    rewrite (sbind_Ok _ _ st {| vh_kind := cfr_kind f; vh_payload_len := len (cfr_payload f) |} (set_pending true st)) in Hd
      by (unfold validate_header, sbind, sget; now rewrite Hv). cbn [vh_payload_len] in Hd.
    rewrite (sbind_Ok _ _ _ (cfr_payload f) (set_pending true st)) in Hd.
    2:{ unfold or_drop, sbind, slift, control_wire_len, CONTROL_HEADER_LEN.
        rewrite checked_add_ok by ulia. cbn [ok_or]. rewrite Hl, Z.eqb_refl. cbn [negb].
        rewrite shift_payload_ok by done. f_equal. f_equal. unfold control_wire.
        rewrite (slice_app_skip _ _ 72 _ _ 0 (len (cfr_payload f))) by lia. now apply slice_full. }
    unfold finish_owned, or_drop, sbind, sget, slift, smodify, sret in Hd. cbn [vh_payload_len] in Hd.
    rewrite Z.eqb_refl in Hd. cbn [negb cs_next_receive set_pending] in Hd. rewrite checked_add_ok in Hd by lia.
    discriminate.
Qed.

(** The control decoder, on arbitrary bytes. It never panics. It accepts
    exactly the canonical record for this session's nonce and the next sequence
    number, admitted by the limits, in a session that is neither poisoned nor in
    a transaction; it returns the frame in it and advances the sequence by one.
    On anything else it poisons the session and advances nothing. *)
Theorem control_decode_exact st s :
  control_wf st ->
  (forall f st', decode_owned s st = (Ok f, st') <->
     usable st /\ cs_next_receive st < U64_MAX /\ admissible st f /\
     s = control_wire (cs_nonce st) (cs_next_receive st) f /\
     st' = set_next_receive (cs_next_receive st + 1) st) /\
  (forall r st', decode_owned s st = (r, st') ->
     (exists f, r = Ok f) \/ (exists e, r = Err e) /\ refused st st').
Proof.
  intros Hwf. split.
  - intros f st'. destruct (control_decode_cases st s Hwf) as [(g & Hus & Hn & Ha & Hs & ->)|(e & st1 & Hd & Href)].
    + split; [intros [= <- <-]; done|]. intros (_ & _ & Ha' & Hs' & ->). f_equal. f_equal.
      rewrite Hs in Hs'. destruct Hwf as (Hnl & _ & _ & ?), Ha as (?&?&?&?), Ha' as (?&?&?&?).
      apply control_wire_inj in Hs' as [_ ->]; done || ulia.
    + rewrite Hd. split; [done|]. intros (Hus & Hn & Ha & -> & ->). exfalso.
      rewrite decode_accepts in Hd by done. discriminate.
  - intros r st' Hr. destruct (control_decode_cases st s Hwf) as [(g & _ & _ & _ & _ & Hd)|(e & st1 & Hd & Href)];
      rewrite Hd in Hr; injection Hr as <- <-; eauto.
Qed.

(** ** Streams *)

(** A sender that writes each frame to a fresh buffer of the exact length. *)
Fixpoint send_all (fs : list ControlFrame) (st : ControlState) : list bytes * ControlState :=
  match fs with
  | [] => ([], st)
  | f :: fs =>
      match encode_parts_into (cfr_kind f) (cfr_payload f) (st, zeros (72 + len (cfr_payload f))) with
      | (Ok _, (st', d)) => let '(ws, st'') := send_all fs st' in (d :: ws, st'')
      | (_, (st', _)) => send_all fs st'
      end
  end.

(** A receiver fed with records: the frames it delivers, [None] for a failure. *)
Fixpoint receive_all (ss : list bytes) (st : ControlState) : list (option ControlFrame) :=
  match ss with
  | [] => []
  | s :: ss =>
      match decode_owned s st with
      | (Ok f, st') => Some f :: receive_all ss st'
      | (_, st') => None :: receive_all ss st'
      end
  end.

(** The records of frames numbered from [n]. *)
Definition wires (nonce : bytes) (n : Z) (fs : list ControlFrame) : list bytes :=
  imap (fun i f => control_wire nonce (n + Z.of_nat i) f) fs.

Lemma wires_cons nonce n f fs :
  wires nonce n (f :: fs) = control_wire nonce n f :: wires nonce (n + 1) fs.
Proof.
  unfold wires. rewrite imap_cons. f_equal; [f_equal; lia|]. apply imap_ext. intros. simpl. f_equal. lia.
Qed.

Lemma send_all_wires fs st :
  control_wf st -> usable st -> Forall (admissible st) fs ->
  cs_next_send st + len fs <= U64_MAX ->
  send_all fs st = (wires (cs_nonce st) (cs_next_send st) fs, set_next_send (cs_next_send st + len fs) st).
Proof.
  intros Hwf Hus Ha. revert st Hwf Hus Ha. induction fs as [|f fs IH]; intros st Hwf Hus Ha Hn.
  - cbn. f_equal. unfold set_next_send, len. cbn. rewrite Z.add_0_r. now destruct st.
  - assert (Hlr : len (f :: fs) = 1 + len fs) by (unfold len; simpl; lia). pose proof (len_nonneg fs).
    inversion Ha as [|? ? Hf Hfs]; subst. cbn [send_all]. pose proof (len_nonneg (cfr_payload f)).
    rewrite encode_spec by (first [done | lia | rewrite len_zeros; lia]).
    rewrite len_zeros, slice_nil, app_nil_r by lia.
    rewrite IH; [|destruct Hwf as (?&?&?&?); unfold control_wf; cbn; split_and!; done || lia|done|done|cbn; lia].
    rewrite wires_cons. cbn. f_equal. unfold set_next_send. cbn. f_equal. lia.
Qed.

Lemma refused_wf st st' : control_wf st -> refused st st' -> control_wf st'.
Proof.
  intros (?&?&?&?) (_ & Hr & Hs & Hn & Hm). unfold control_wf. rewrite Hr, Hs, Hn, Hm. done.
Qed.

Lemma poisoned_receives ss st :
  control_wf st -> cs_poisoned st = true -> receive_all ss st = replicate (length ss) None.
Proof.
  revert st. induction ss as [|s ss IH]; intros st Hwf Hp; [done|]. cbn [receive_all].
  destruct (control_decode_cases st s Hwf) as [(g & (Hu & _) & _)|(e & st1 & -> & Href)]; [congruence|].
  cbn [length replicate]. f_equal. apply IH; [now apply refused_wf with st|apply Href].
Qed.

Lemma receive_some_wires all n0 ss :
  forall sent fs st, all = sent ++ fs ->
  control_wf st -> usable st -> Forall (admissible st) all -> 0 <= n0 ->
  cs_next_receive st = n0 + len sent -> n0 + len all <= U64_MAX ->
  Forall (fun s => s ∈ wires (cs_nonce st) n0 all) ss ->
  exists m, (m <= length fs)%nat /\ (m <= length ss)%nat /\
    receive_all ss st = (Some <$> take m fs) ++ replicate (length ss - m) None /\
    take m ss = take m (wires (cs_nonce st) (cs_next_receive st) fs).
Proof.
  induction ss as [|s ss IH]; intros sent fs st Hall Hwf Hus Ha Hn0 Hnr Hmax Hss.
  { exists 0%nat. split_and!; done || lia. }
  apply Forall_cons in Hss as [Hs Hss']. cbn [receive_all]. pose proof Hwf as (Hnl & _ & _ & Hnr').
  destruct (control_decode_cases st s Hwf) as [(g & _ & Hn & Hag & Heq & ->)|(e & st1 & -> & Href)].
  - apply list_elem_of_lookup in Hs as [j Hj]. unfold wires in Hj. rewrite list_lookup_imap in Hj.
    destruct (all !! j) as [f|] eqn:Hf; simpl in Hj; [|discriminate]. injection Hj as Hj.
    assert (Haf : admissible st f) by now apply (Forall_lookup_1 _ _ _ _ Ha Hf).
    pose proof (lookup_lt_Some _ _ _ Hf) as Hlt.
    pose proof Haf as (?&?&?&?). pose proof Hag as (?&?&?&?).
    rewrite <- Hj in Heq. unfold len in Hmax.
    apply control_wire_inj in Heq as [Hseq <-]; [|done || ulia..].
    assert (Hjs : j = length sent) by (unfold len in *; lia). subst j.
    rewrite Hall, lookup_app_r, Nat.sub_diag in Hf by lia.
    destruct fs as [|f' fs]; [discriminate|]. injection Hf as ->.
    destruct (IH (sent ++ [f]) fs (set_next_receive (cs_next_receive st + 1) st))
      as (m & Hm1 & Hm2 & Hrec & Htake); try done.
    + now rewrite <- app_assoc.
    + unfold control_wf. cbn. destruct Hwf as (?&?&?&?). split_and!; done || lia.
    + cbn. rewrite len_app. unfold len at 2. simpl. lia.
    + exists (S m). cbn [length take]. split_and!; try lia.
      * rewrite Hrec. done.
      * rewrite wires_cons. cbn [take]. f_equal; [|exact Htake]. rewrite <- Hj. f_equal. lia.
  - exists 0%nat. split_and!; try lia; [|done]. rewrite take_0. cbn [fmap list_fmap app length Nat.sub replicate].
    f_equal. apply poisoned_receives; [now apply refused_wf with st|apply Href].
Qed.

(** C18: Ordered delivery. A sender and a receiver of one session that agree on
    the nonce, the limits and the next sequence number: every frame the sender
    is asked to send is encoded, delivering the records in order yields exactly
    those frames, and whatever a channel does to the records, dropping, repeating
    or reordering them, the receiver delivers a prefix of the frames sent, in
    order and without duplicates, and refuses everything after the first record
    out of place. *)
Theorem control_ordered_delivery fs sender receiver ws sender' :
  control_wf sender -> usable sender -> control_wf receiver -> usable receiver ->
  cs_nonce receiver = cs_nonce sender -> cs_next_receive receiver = cs_next_send sender ->
  Forall (fun f => admissible sender f /\ admissible receiver f) fs ->
  cs_next_send sender + len fs <= U64_MAX ->
  send_all fs sender = (ws, sender') ->
  length ws = length fs /\
  receive_all ws receiver = Some <$> fs /\
  (forall ss, Forall (fun s => s ∈ ws) ss ->
     exists m, receive_all ss receiver = (Some <$> take m fs) ++ replicate (length ss - m) None /\
               (m <= length ss)%nat /\ take m ss = take m ws).
Proof.
  intros Hws Hus Hwr Hur Hno Hseq Ha Hmax Hsend. apply Forall_and in Ha as [Has Har].
  rewrite send_all_wires in Hsend by done. injection Hsend as <- <-.
  assert (Hany : forall ss, Forall (fun s => s ∈ wires (cs_nonce sender) (cs_next_send sender) fs) ss ->
     exists m, receive_all ss receiver = (Some <$> take m fs) ++ replicate (length ss - m) None /\
               (m <= length ss)%nat /\ take m ss = take m (wires (cs_nonce sender) (cs_next_send sender) fs)).
  { intros ss Hss. destruct Hws as (_ & _ & Hs1 & _).
    destruct (receive_some_wires fs (cs_next_send sender) ss [] fs receiver) as (m & _ & Hm2 & Hrec & Htake);
      try done; [lia|unfold len; simpl; lia|now rewrite Hno|].
    exists m. rewrite Hno, Hseq in Htake. done. }
  split; [unfold wires; apply length_imap|]. split; [|exact Hany].
  clear Hany Hus Has. rewrite <- Hno, <- Hseq. rewrite <- Hseq in Hmax. clear Hno Hseq Hws.
  revert receiver Hwr Hur Har Hmax. induction fs as [|f fs IH]; intros st Hwf Hus Ha Hmax; [done|].
  assert (Hlr : len (f :: fs) = 1 + len fs) by (unfold len; simpl; lia). pose proof (len_nonneg fs).
  apply Forall_cons in Ha as [Hf Hfs]. rewrite wires_cons. cbn [receive_all].
  rewrite decode_accepts by (done || lia). rewrite fmap_cons. f_equal.
  apply (IH (set_next_receive (cs_next_receive st + 1) st)); try done; [|cbn; lia].
  unfold control_wf. cbn. destruct Hwf as (?&?&?&?). split_and!; done || lia.
Qed.

(** The transaction interlock and poisoning. While the session is poisoned,
    inside a native transaction, or holding an unfinished receive, no control
    record is written or delivered: encoding fails and leaves the buffer and the
    sequence number alone, decoding fails, and both leave the session poisoned;
    once poisoned, transactions can be neither opened nor closed. *)
Theorem control_interlock st kind payload d s :
  control_wf st -> ~ usable st ->
  (exists e st', encode_parts_into kind payload (st, d) = (Err e, (st', d)) /\
     cs_poisoned st' = true /\ cs_next_send st' = cs_next_send st) /\
  (exists e st', decode_owned s st = (Err e, st') /\ refused st st') /\
  (cs_poisoned st = true ->
     begin_transaction st = (Err ControlError_Poisoned, st) /\
     end_transaction st = (Err ControlError_Poisoned, st)).
Proof.
  intros Hwf Hnu. split_and!.
  - unfold encode_parts_into. rewrite (sbind_Ok _ _ (st, d) (st, d) (st, d)) by done. cbn [fst snd].
    destruct (cs_transaction_open st || cs_pending_receive st) eqn:Htx;
      [do 2 eexists; split; [reflexivity|done]|].
    assert (Hp : cs_poisoned st = true).
    { apply orb_false_iff in Htx as [H1 H2]. destruct (cs_poisoned st) eqn:E; [done|]. exfalso. now apply Hnu. }
    destruct (_ =? U64_MAX); [do 2 eexists; split; [reflexivity|done]|].
    exists ControlError_Poisoned, st. split; [|done]. apply sbind_Err.
    unfold slift, encoded_len_parts, check_local_parts. now rewrite Hp.
  - destruct (control_decode_cases st s Hwf) as [(g & Hu & _)|H]; [contradiction|exact H].
  - intros Hp. unfold begin_transaction, end_transaction, sbind, sget. now rewrite Hp.
Qed.

(** ** Witnesses *)

Definition sample_control : ControlState :=
  {| cs_nonce := replicate 32 x07; cs_maximum_payload := 64; cs_next_send := 1; cs_next_receive := 1;
     cs_transaction_open := false; cs_poisoned := false; cs_pending_receive := false |}.
Definition sample_frames : list ControlFrame :=
  [{| cfr_kind := 0x80000001; cfr_payload := [x01; x02] |}; {| cfr_kind := 0x80000002; cfr_payload := [] |}].

Lemma sample_control_wf : control_wf sample_control.
Proof. unfold control_wf. cbn. split_and!; ulia || reflexivity. Qed.

Lemma sample_admissible :
  Forall (fun f => admissible sample_control f /\ admissible sample_control f) sample_frames.
Proof. repeat constructor; vm_compute; congruence. Qed.

Lemma control_decode_exact_witness :
  decode_owned (control_wire (replicate 32 x07) 1 {| cfr_kind := 0x80000001; cfr_payload := [x01] |}) sample_control
  = (Ok {| cfr_kind := 0x80000001; cfr_payload := [x01] |}, set_next_receive 2 sample_control).
Proof.
  destruct (control_decode_exact sample_control
    (control_wire (replicate 32 x07) 1 {| cfr_kind := 0x80000001; cfr_payload := [x01] |})) as [H _];
    [apply sample_control_wf|].
  apply H. split_and!; try reflexivity; repeat split; vm_compute; congruence.
Defined.

Lemma control_ordered_delivery_witness :
  receive_all (fst (send_all sample_frames sample_control)) sample_control = Some <$> sample_frames.
Proof.
  apply (control_ordered_delivery sample_frames sample_control sample_control
           (fst (send_all sample_frames sample_control)) (snd (send_all sample_frames sample_control)));
    [apply sample_control_wf|repeat split|apply sample_control_wf|repeat split|reflexivity|reflexivity
    |apply sample_admissible|vm_compute; congruence|vm_compute; reflexivity].
Defined.

Lemma control_interlock_witness :
  exists e st', decode_owned [] (set_transaction true sample_control) = (Err e, st') /\
                refused (set_transaction true sample_control) st'.
Proof.
  apply (control_interlock (set_transaction true sample_control) 0 [] [] []).
  - unfold control_wf. cbn. split_and!; ulia || reflexivity.
  - intros (_ & H & _). discriminate H.
Defined.
