(* ===== verification/Liveness.v ===== *)
(** * Liveness: the active-mapping ledger ([native-ipc/src/liveness.rs])

    A session's [ResourceOwner] and the [RegionLease]s it hands out share three
    atomics. Every atomic access is one step, so that the owner's operations
    interleave with the destructors of leases on other threads, between any two
    accesses. Steps interleave sequentially; [fetch_update] is one atomic
    read-modify-write, [fetch_sub] wraps at its width as in the source. *)

From S2P Require Import Prelude Limits.

(** ** State *)

Definition ACTIVE : Z := 0.
Definition POISONED : Z := 1.
Definition CLOSED : Z := 2.

Inductive LivenessState := Active | Poisoned | Closed.

Record SharedResources := {
  sr_state : Z;
  sr_active_regions : Z;
  sr_active_bytes : Z;
  sr_maximum_regions : Z;
  sr_maximum_bytes : Z
}.

Inductive LeaseFactsConsistency := Exact | ApproximateDuringConcurrentDrop.

Record ActiveLeaseFacts := {
  lf_regions : Z;
  lf_bytes : Z;
  lf_consistency : LeaseFactsConsistency
}.

Inductive ResourceError :=
| InvalidLimits
| ResourcePoisoned
| ResourceClosed
| ActiveLimit
| MappedLengthMismatch (reserved actual : Z)
| ActiveLeases (facts : ActiveLeaseFacts).

Definition with_state (s : Z) (sh : SharedResources) : SharedResources :=
  {| sr_state := s; sr_active_regions := sr_active_regions sh; sr_active_bytes := sr_active_bytes sh;
     sr_maximum_regions := sr_maximum_regions sh; sr_maximum_bytes := sr_maximum_bytes sh |}.
Definition with_regions (r : Z) (sh : SharedResources) : SharedResources :=
  {| sr_state := sr_state sh; sr_active_regions := r; sr_active_bytes := sr_active_bytes sh;
     sr_maximum_regions := sr_maximum_regions sh; sr_maximum_bytes := sr_maximum_bytes sh |}.
Definition with_bytes (b : Z) (sh : SharedResources) : SharedResources :=
  {| sr_state := sr_state sh; sr_active_regions := sr_active_regions sh; sr_active_bytes := b;
     sr_maximum_regions := sr_maximum_regions sh; sr_maximum_bytes := sr_maximum_bytes sh |}.

Definition ResourceOwner_new (limits : SessionLimits) : res ResourceError SharedResources :=
  let? limits := map_err (fun _ => InvalidLimits) (SessionLimits_validate limits) in
  Ok {| sr_state := ACTIVE; sr_active_regions := 0; sr_active_bytes := 0;
        sr_maximum_regions := sl_max_active_regions limits;
        sr_maximum_bytes := sl_max_active_bytes limits |}.

(** ** Atomic accesses *)

Definition decode_state (s : Z) : res ResourceError LivenessState :=
  if s =? ACTIVE then Ok Active else
  if s =? POISONED then Ok Poisoned else
  if s =? CLOSED then Ok Closed else
  Panic.

Definition ensure_active (s : Z) : res ResourceError unit :=
  let? st := decode_state s in
  match st with
  | Active => Ok tt
  | Poisoned => Err ResourcePoisoned
  | Closed => Err ResourceClosed
  end.

(** [fetch_sub] on an [AtomicU64] and on an [AtomicU32]. *)
Definition sub_bytes (b : Z) (sh : SharedResources) : SharedResources :=
  with_bytes ((sr_active_bytes sh - b) mod 2 ^ 64) sh.
Definition sub_region (sh : SharedResources) : SharedResources :=
  with_regions ((sr_active_regions sh - 1) mod 2 ^ 32) sh.

Definition lease_facts (regions bytes : Z) : ActiveLeaseFacts :=
  {| lf_regions := regions; lf_bytes := bytes;
     lf_consistency := if (regions =? 0) && (bytes =? 0) then Exact
                       else ApproximateDuringConcurrentDrop |}.

(** ** The owner's operations

    [OwnerPc] is the position of the owner between two atomic accesses;
    [owner_step] performs the next one. *)

Inductive Outcome :=
| Reserved (bytes : Z)
| ReserveFailed (e : ResourceError)
| PoisonDone
| CloseDone
| CloseFailed (e : ResourceError)
| Facts (facts : ActiveLeaseFacts)
| Panicked.

Inductive OwnerPc :=
| Idle
| ReserveStart (bytes : Z)
| ReserveRegion (bytes : Z)
| ReserveBytes (bytes : Z)
| ReserveRecheck (bytes : Z)
| UndoBytes (bytes : Z) (e : ResourceError)
| UndoRegion (e : ResourceError)
| PoisonStart
| CloseRegions
| CloseBytes (regions : Z)
| CloseLoad
| CloseCas (current : Z)
| FactsRegions
| FactsBytes (regions : Z)
| Finished (o : Outcome).

Definition owner_step (pc : OwnerPc) (sh : SharedResources) : OwnerPc * SharedResources :=
  match pc with
  | Idle => (Idle, sh)
  (* reserve *)
  | ReserveStart bytes =>
      if (bytes =? 0) || (sr_maximum_bytes sh <? bytes)
      then (Finished (ReserveFailed ActiveLimit), sh) else
      match ensure_active (sr_state sh) with
      | Ok _ => (ReserveRegion bytes, sh)
      | Err e => (Finished (ReserveFailed e), sh)
      | Panic => (Finished Panicked, sh)
      end
  | ReserveRegion bytes =>
      if sr_active_regions sh <? sr_maximum_regions sh
      then (ReserveBytes bytes, with_regions (sr_active_regions sh + 1) sh)
      else (Finished (ReserveFailed ActiveLimit), sh)
  | ReserveBytes bytes =>
      match checked_add U64_MAX (sr_active_bytes sh) bytes with
      | Some next => if next <=? sr_maximum_bytes sh
                     then (ReserveRecheck bytes, with_bytes next sh)
                     else (UndoRegion ActiveLimit, sh)
      | None => (UndoRegion ActiveLimit, sh)
      end
  | ReserveRecheck bytes =>
      match ensure_active (sr_state sh) with
      | Ok _ => (Finished (Reserved bytes), sh)
      | Err e => (UndoBytes bytes e, sh)
      | Panic => (Finished Panicked, sh)
      end
  | UndoBytes bytes e => (UndoRegion e, sub_bytes bytes sh)
  | UndoRegion e => (Finished (ReserveFailed e), sub_region sh)
  (* poison *)
  | PoisonStart =>
      (Finished PoisonDone, if sr_state sh =? ACTIVE then with_state POISONED sh else sh)
  (* try_close *)
  | CloseRegions => (CloseBytes (sr_active_regions sh), sh)
  | CloseBytes regions =>
      let facts := lease_facts regions (sr_active_bytes sh) in
      if negb (lf_regions facts =? 0) || negb (lf_bytes facts =? 0)
      then (Finished (CloseFailed (ActiveLeases facts)), sh)
      else (CloseLoad, sh)
  | CloseLoad =>
      if sr_state sh =? CLOSED then (Finished (CloseFailed ResourceClosed), sh)
      else (CloseCas (sr_state sh), sh)
  | CloseCas current =>
      if sr_state sh =? current then (Finished CloseDone, with_state CLOSED sh)
      else (CloseLoad, sh)
  (* active_lease_facts *)
  | FactsRegions => (FactsBytes (sr_active_regions sh), sh)
  | FactsBytes regions => (Finished (Facts (lease_facts regions (sr_active_bytes sh))), sh)
  | Finished o => (Finished o, sh)
  end.

(** ** Leases and the whole system *)

(** A lease is held, or its destructor has returned the bytes and not yet the
    region. *)
Inductive Lease :=
| Held (bytes : Z)
| Draining (bytes : Z).

Record System := {
  sys_shared : SharedResources;
  sys_owner : OwnerPc;
  sys_leases : list Lease
}.

(** The entry points of the owner's operations. *)
Definition entry (pc : OwnerPc) : Prop :=
  match pc with
  | ReserveStart b => u64 b
  | PoisonStart | CloseRegions | FactsRegions => True
  | _ => False
  end.

Definition granted (o : Outcome) : list Lease :=
  match o with Reserved b => [Held b] | _ => [] end.

Inductive step : System -> System -> Prop :=
| step_call sh pc ls :
    entry pc ->
    step {| sys_shared := sh; sys_owner := Idle; sys_leases := ls |}
         {| sys_shared := sh; sys_owner := pc; sys_leases := ls |}
| step_owner sh pc ls :
    step {| sys_shared := sh; sys_owner := pc; sys_leases := ls |}
         {| sys_shared := snd (owner_step pc sh); sys_owner := fst (owner_step pc sh); sys_leases := ls |}
| step_return sh o ls :
    step {| sys_shared := sh; sys_owner := Finished o; sys_leases := ls |}
         {| sys_shared := sh; sys_owner := Idle; sys_leases := granted o ++ ls |}
| step_drop_bytes sh pc pre b post :
    step {| sys_shared := sh; sys_owner := pc; sys_leases := pre ++ Held b :: post |}
         {| sys_shared := sub_bytes b sh; sys_owner := pc; sys_leases := pre ++ Draining b :: post |}
| step_drop_region sh pc pre b post :
    step {| sys_shared := sh; sys_owner := pc; sys_leases := pre ++ Draining b :: post |}
         {| sys_shared := sub_region sh; sys_owner := pc; sys_leases := pre ++ post |}.

Inductive reachable (limits : SessionLimits) : System -> Prop :=
| reachable_new sh :
    ResourceOwner_new limits = Ok sh ->
    reachable limits {| sys_shared := sh; sys_owner := Idle; sys_leases := [] |}
| reachable_step s s' : reachable limits s -> step s s' -> reachable limits s'.

(** ** The ledger invariant *)

Definition held_bytes (l : Lease) : Z := match l with Held b => b | Draining _ => 0 end.
Definition lease_bytes (l : Lease) : Z := match l with Held b | Draining b => b end.
Definition sum_bytes (ls : list Lease) : Z := foldr (fun l z => held_bytes l + z) 0 ls.

(** What the owner has charged and not yet handed over or returned. *)
Definition pending_regions (pc : OwnerPc) : Z :=
  match pc with
  | ReserveBytes _ | ReserveRecheck _ | UndoBytes _ _ | UndoRegion _ | Finished (Reserved _) => 1
  | _ => 0
  end.
Definition pending_bytes (pc : OwnerPc) : Z :=
  match pc with
  | ReserveRecheck b | UndoBytes b _ | Finished (Reserved b) => b
  | _ => 0
  end.

(** What the owner knows at each position. *)
Definition owner_knows (pc : OwnerPc) (sh : SharedResources) (ls : list Lease) : Prop :=
  match pc with
  | ReserveStart b => u64 b
  | ReserveRegion b | ReserveBytes b => sr_state sh = ACTIVE /\ 0 < b <= sr_maximum_bytes sh
  | ReserveRecheck b => sr_state sh = ACTIVE /\ 0 < b <= sr_maximum_bytes sh
  | UndoBytes b _ => 0 < b <= sr_maximum_bytes sh /\ sr_state sh <> CLOSED
  | UndoRegion _ => sr_state sh <> CLOSED
  | Finished (Reserved b) => sr_state sh = ACTIVE /\ 0 < b <= sr_maximum_bytes sh
  | CloseBytes r => r = 0 -> ls = []
  | CloseLoad => ls = []
  | CloseCas c => ls = [] /\ sr_state sh = c /\ c <> CLOSED
  | Finished CloseDone => ls = [] /\ sr_state sh = CLOSED
  | FactsBytes r => r = 0 -> ls = []
  | Finished (Facts f) => lf_consistency f = Exact -> ls = []
  | Finished (CloseFailed (ActiveLeases f)) => lf_regions f <> 0
  | Finished Panicked => False
  | _ => True
  end.

Record ledger (limits : SessionLimits) (s : System) : Prop := {
  lg_regions : sr_active_regions (sys_shared s) = len (sys_leases s) + pending_regions (sys_owner s);
  lg_bytes : sr_active_bytes (sys_shared s) = sum_bytes (sys_leases s) + pending_bytes (sys_owner s);
  lg_region_limit : sr_active_regions (sys_shared s) <= sr_maximum_regions (sys_shared s);
  lg_byte_limit : sr_active_bytes (sys_shared s) <= sr_maximum_bytes (sys_shared s);
  lg_maxima : sr_maximum_regions (sys_shared s) = sl_max_active_regions limits /\
              sr_maximum_bytes (sys_shared s) = sl_max_active_bytes limits;
  lg_leases : Forall (fun l => 0 < lease_bytes l) (sys_leases s);
  lg_state : sr_state (sys_shared s) = ACTIVE \/ sr_state (sys_shared s) = POISONED \/
             sr_state (sys_shared s) = CLOSED;
  lg_closed : sr_state (sys_shared s) = CLOSED -> sys_leases s = [];
  lg_knows : owner_knows (sys_owner s) (sys_shared s) (sys_leases s)
}.

(** The limits a validated [SessionLimits] imposes at machine width. *)
Definition ledger_limits (limits : SessionLimits) : Prop :=
  sl_max_active_regions limits < 2 ^ 32 /\ sl_max_active_bytes limits < 2 ^ 64.

Lemma sum_bytes_app l k : sum_bytes (l ++ k) = sum_bytes l + sum_bytes k.
Proof. induction l as [|x l IH]; [done|]. unfold sum_bytes in *. cbn. lia. Qed.

Lemma sum_bytes_cons x k : sum_bytes (x :: k) = held_bytes x + sum_bytes k.
Proof. done. Qed.

Lemma sum_bytes_nonneg l : Forall (fun x => 0 < lease_bytes x) l -> 0 <= sum_bytes l.
Proof.
  induction 1 as [|x l Hx Hl IH]; [done|]. rewrite sum_bytes_cons.
  destruct x; unfold held_bytes, lease_bytes in *; lia.
Qed.

Ltac ledger_simpl :=
  cbn [sys_shared sys_owner sys_leases sr_state sr_active_regions sr_active_bytes sr_maximum_regions
       sr_maximum_bytes with_state with_regions with_bytes sub_bytes sub_region pending_regions pending_bytes
       owner_knows fst snd granted app lf_regions lf_bytes lf_consistency lease_facts] in *.

Lemma pending_nonneg pc sh ls :
  owner_knows pc sh ls -> 0 <= pending_bytes pc /\ 0 <= pending_regions pc.
Proof. destruct pc as [| | | | | | | | | | | | | |[]]; ledger_simpl; lia. Qed.

Lemma ensure_active_0 : ensure_active ACTIVE = Ok tt. Proof. done. Qed.
Lemma ensure_active_1 : ensure_active POISONED = Err ResourcePoisoned. Proof. done. Qed.
Lemma ensure_active_2 : ensure_active CLOSED = Err ResourceClosed. Proof. done. Qed.

Section Ledger.
Context (limits : SessionLimits).
Hypothesis Hlim : ledger_limits limits.

Lemma ledger_init sh :
  limits_nonneg limits -> ResourceOwner_new limits = Ok sh ->
  ledger limits {| sys_shared := sh; sys_owner := Idle; sys_leases := [] |}.
Proof.
  intros Hnn H. unfold ResourceOwner_new in H.
  destruct (SessionLimits_validate limits) as [l| |] eqn:Hv; try discriminate.
  injection H as <-. apply validate_iff in Hv as [Hv ->]; [|done]. limits_split.
  constructor; ledger_simpl; try done; unfold ACTIVE, CLOSED; lia || tauto.
Qed.

Lemma ledger_call sh pc ls :
  entry pc -> ledger limits {| sys_shared := sh; sys_owner := Idle; sys_leases := ls |} ->
  ledger limits {| sys_shared := sh; sys_owner := pc; sys_leases := ls |}.
Proof.
  intros He []. constructor; ledger_simpl; try done; destruct pc; try contradiction; ledger_simpl; try done; lia.
Qed.

Lemma ledger_return sh o ls :
  ledger limits {| sys_shared := sh; sys_owner := Finished o; sys_leases := ls |} ->
  ledger limits {| sys_shared := sh; sys_owner := Idle; sys_leases := granted o ++ ls |}.
Proof.
  intros []. constructor; ledger_simpl; try done.
  - rewrite len_app. destruct o; ledger_simpl; unfold len in *; simpl in *; lia.
  - rewrite sum_bytes_app. destruct o; ledger_simpl; unfold sum_bytes in *; cbn in *; lia.
  - destruct o; ledger_simpl; try done. constructor; [|done]. cbn. lia.
  - destruct o; ledger_simpl; try done. intros Hc. destruct lg_knows0 as [Ha _]. rewrite Ha in Hc. discriminate.
Qed.

Lemma ledger_drop_bytes sh pc pre b post :
  ledger limits {| sys_shared := sh; sys_owner := pc; sys_leases := pre ++ Held b :: post |} ->
  ledger limits {| sys_shared := sub_bytes b sh; sys_owner := pc; sys_leases := pre ++ Draining b :: post |}.
Proof.
  intros []. ledger_simpl. destruct lg_maxima0 as [M1 M2], Hlim as [L1 L2].
  rewrite sum_bytes_app, sum_bytes_cons in lg_bytes0. cbn [held_bytes] in lg_bytes0.
  apply Forall_app in lg_leases0 as [Fp Fq]. apply Forall_cons in Fq as [Fb Fq]. cbn [lease_bytes] in Fb.
  pose proof (sum_bytes_nonneg _ Fp). pose proof (sum_bytes_nonneg _ Fq).
  destruct (pending_nonneg _ _ _ lg_knows0).
  assert (Hm : (sr_active_bytes sh - b) mod 2 ^ 64 = sr_active_bytes sh - b) by (apply Z.mod_small; lia).
  constructor; ledger_simpl; rewrite ?Hm; try done; try lia.
  - rewrite len_app, len_cons in *. lia.
  - rewrite sum_bytes_app, sum_bytes_cons. cbn [held_bytes]. lia.
  - apply Forall_app. split; [done|]. now constructor.
  - intros Hc. destruct pre; now apply lg_closed0 in Hc.
  - destruct pc as [| | | | | | | | | | | | | |[| | | | |? |]]; ledger_simpl; try done;
      intros; destruct pre; intuition discriminate.
Qed.

Lemma ledger_drop_region sh pc pre b post :
  ledger limits {| sys_shared := sh; sys_owner := pc; sys_leases := pre ++ Draining b :: post |} ->
  ledger limits {| sys_shared := sub_region sh; sys_owner := pc; sys_leases := pre ++ post |}.
Proof.
  intros []. ledger_simpl. destruct lg_maxima0 as [M1 M2], Hlim as [L1 L2].
  rewrite len_app, len_cons in lg_regions0. rewrite sum_bytes_app, sum_bytes_cons in lg_bytes0. cbn [held_bytes] in lg_bytes0.
  apply Forall_app in lg_leases0 as [Fp Fq]. apply Forall_cons in Fq as [Fb Fq].
  pose proof (len_nonneg pre). pose proof (len_nonneg post).
  destruct (pending_nonneg _ _ _ lg_knows0).
  assert (Hm : (sr_active_regions sh - 1) mod 2 ^ 32 = sr_active_regions sh - 1) by (apply Z.mod_small; lia).
  constructor; ledger_simpl; rewrite ?Hm; try done; try lia.
  - rewrite len_app. lia.
  - rewrite sum_bytes_app. lia.
  - apply Forall_app. split; done.
  - intros Hc. exfalso. destruct pre; now apply lg_closed0 in Hc.
  - destruct pc as [| | | | | | | | | | | | | |[| | | | |? |]]; ledger_simpl; try done;
      intros; exfalso; destruct pre; intuition discriminate.
Qed.

Ltac owner_case :=
  constructor; ledger_simpl; first [done | tauto | lia | unfold ACTIVE, POISONED, CLOSED in *; (lia || tauto || intuition lia) | split; first [done | ulia] | idtac].

Lemma ledger_owner sh pc ls :
  ledger limits {| sys_shared := sh; sys_owner := pc; sys_leases := ls |} ->
  ledger limits {| sys_shared := snd (owner_step pc sh); sys_owner := fst (owner_step pc sh); sys_leases := ls |}.
Proof.
  intros HL. pose proof HL as []. ledger_simpl. destruct lg_maxima0 as [M1 M2], Hlim as [L1 L2].
  pose proof (sum_bytes_nonneg _ lg_leases0). pose proof (len_nonneg ls).
  destruct pc as [|b|b|b|b|b e|e| | |r| |c| |r|o]; cbn [owner_step]; try exact HL; ledger_simpl.
  - destruct (_ || _) eqn:E1; [owner_case|]. bsplit.
    destruct lg_state0 as [Hs|[Hs|Hs]]; rewrite Hs;
      rewrite ?ensure_active_0, ?ensure_active_1, ?ensure_active_2; owner_case.
  - destruct (_ <? _) eqn:E1; bsplit; owner_case.
  - unfold checked_add. destruct (_ <=? U64_MAX); [destruct (_ <=? _) eqn:E1; bsplit|]; owner_case.
  - destruct lg_knows0 as [Hs Hb]. rewrite Hs, ensure_active_0. owner_case.
  - assert (Hm : (sr_active_bytes sh - b) mod 2 ^ 64 = sr_active_bytes sh - b) by (apply Z.mod_small; lia).
    constructor; ledger_simpl; rewrite ?Hm; tauto || lia || done.
  - assert (Hm : (sr_active_regions sh - 1) mod 2 ^ 32 = sr_active_regions sh - 1) by (apply Z.mod_small; lia).
    constructor; ledger_simpl; rewrite ?Hm; tauto || lia || done.
  - destruct (_ =? ACTIVE); owner_case.
  - owner_case. intros Hz. apply len_zero. lia.
  - destruct (_ || _) eqn:E1.
    + owner_case. intros ->. rewrite lg_knows0 in * by done. change (sum_bytes []) with 0 in lg_bytes0.
      rewrite lg_bytes0 in E1. discriminate.
    + bsplit. owner_case.
  - destruct (_ =? CLOSED) eqn:E1; bsplit; owner_case.
  - destruct lg_knows0 as (-> & Hs & Hc). rewrite Hs, Z.eqb_refl. owner_case.
  - owner_case. intros Hz. apply len_zero. lia.
  - owner_case. destruct (_ =? 0) eqn:E1; cbn [andb]; [|discriminate]. bsplit. auto.
Qed.

Lemma ledger_reachable s : limits_nonneg limits -> reachable limits s -> ledger limits s.
Proof.
  intros Hnn. induction 1 as [sh Hnew|s s' Hr IH Hstep]; [now apply ledger_init|].
  destruct Hstep; [now apply ledger_call|now apply ledger_owner|now apply ledger_return
                  |now apply ledger_drop_bytes|eapply ledger_drop_region; exact IH].
Qed.

End Ledger.

(** ** What the ledger promises *)

(** C36: Leases are never lost, double-counted or over-committed. In every state
    reachable under any interleaving of the owner with the destructors of leases,
    the region counter is the number of leases not yet fully released plus what
    an unfinished reservation has charged, the byte counter is the bytes of the
    leases that have not returned them plus the same, both stay within the
    negotiated limits, and no decrement underflows. *)
Theorem ledger_exact limits s :
  limits_nonneg limits -> ledger_limits limits -> reachable limits s ->
  let sh := sys_shared s in
  sr_active_regions sh = len (sys_leases s) + pending_regions (sys_owner s) /\
  sr_active_bytes sh = sum_bytes (sys_leases s) + pending_bytes (sys_owner s) /\
  0 <= sr_active_regions sh <= sl_max_active_regions limits /\
  0 <= sr_active_bytes sh <= sl_max_active_bytes limits /\
  (forall b, Held b ∈ sys_leases s -> sr_active_bytes (sub_bytes b sh) = sr_active_bytes sh - b) /\
  (forall b, Draining b ∈ sys_leases s -> sr_active_regions (sub_region sh) = sr_active_regions sh - 1).
Proof.
  intros Hnn Hlim Hr. pose proof (ledger_reachable limits Hlim s Hnn Hr) as []. cbn zeta.
  destruct lg_maxima0 as [M1 M2], Hlim as [L1 L2]. pose proof (sum_bytes_nonneg _ lg_leases0).
  pose proof (len_nonneg (sys_leases s)).
  destruct (pending_nonneg _ _ _ lg_knows0).
  split_and!; try done; try lia.
  - intros b Hb. cbn. apply Z.mod_small. apply list_elem_of_split in Hb as (p & q & Hpq).
    rewrite Hpq in *. apply Forall_app in lg_leases0 as [Fp Fq]. apply Forall_cons in Fq as [Fb Fq].
    cbn [lease_bytes] in Fb.
    pose proof (sum_bytes_nonneg _ Fp). pose proof (sum_bytes_nonneg _ Fq).
    rewrite sum_bytes_app, sum_bytes_cons in lg_bytes0. cbn [held_bytes] in lg_bytes0. lia.
  - intros b Hb. cbn. apply Z.mod_small. apply list_elem_of_split in Hb as (p & q & Hpq).
    rewrite Hpq in *. rewrite len_app, len_cons in *. pose proof (len_nonneg p). pose proof (len_nonneg q). lia.
Qed.

(** A session closes only when nothing is leased. When [try_close] succeeds
    every lease has been fully released; the session is then closed for good: it
    has no leases in any later state, and no reservation succeeds. Likewise facts
    reported as exact mean that no lease exists. *)
Theorem close_exact limits s :
  limits_nonneg limits -> ledger_limits limits -> reachable limits s ->
  (sys_owner s = Finished CloseDone -> sys_leases s = [] /\ sr_state (sys_shared s) = CLOSED) /\
  (sr_state (sys_shared s) = CLOSED ->
     sys_leases s = [] /\ (forall b, sys_owner s <> Finished (Reserved b)) /\
     forall s', step s s' -> sr_state (sys_shared s') = CLOSED) /\
  (forall f, sys_owner s = Finished (Facts f) -> lf_consistency f = Exact -> sys_leases s = []).
Proof.
  intros Hnn Hlim Hr. pose proof (ledger_reachable limits Hlim s Hnn Hr) as []. split_and!.
  - intros Ho. rewrite Ho in lg_knows0. exact lg_knows0.
  - intros Hc. split_and!; [auto|intros b Hb; rewrite Hb in lg_knows0; destruct lg_knows0 as [Ha _]; rewrite Hc in Ha; discriminate|].
    intros s' Hstep. destruct Hstep as [sh pc ls _|sh pc ls|sh o ls|sh pc pre b post|sh pc pre b post];
      ledger_simpl; try done.
    destruct pc; cbn [owner_step]; rewrite ?Hc; repeat case_match; cbn; try done.
  - intros f Hf Hx. rewrite Hf in lg_knows0. auto.
Qed.

(** How many atomic accesses an operation still needs at most. *)
Definition remaining (pc : OwnerPc) : Z :=
  match pc with
  | ReserveStart _ => 6
  | ReserveRegion _ => 5
  | ReserveBytes _ => 4
  | ReserveRecheck _ => 3
  | UndoBytes _ _ => 2
  | UndoRegion _ => 1
  | PoisonStart => 1
  | CloseRegions => 4
  | CloseBytes _ => 3
  | CloseLoad => 2
  | CloseCas _ => 1
  | FactsRegions => 2
  | FactsBytes _ => 1
  | Idle | Finished _ => 0
  end.

(** The owner running alone. *)
Fixpoint iterate (n : nat) (pc : OwnerPc) (sh : SharedResources) : OwnerPc * SharedResources :=
  match n with
  | O => (pc, sh)
  | S n => iterate n (fst (owner_step pc sh)) (snd (owner_step pc sh))
  end.

Lemma iterate_S n pc sh pc' sh' :
  owner_step pc sh = (pc', sh') -> iterate (S n) pc sh = iterate n pc' sh'.
Proof. intros H. cbn [iterate]. now rewrite H. Qed.

Lemma iterate_finished n o sh : iterate n (Finished o) sh = (Finished o, sh).
Proof. induction n; done. Qed.

(** Every operation of the owner finishes. In every reachable state, each
    atomic access the owner performs brings the operation strictly closer to its
    end, which is at most six accesses away, whatever leases do in between: in
    particular the compare-exchange loop of [try_close] does not retry. *)
Theorem owner_terminates limits s :
  limits_nonneg limits -> ledger_limits limits -> reachable limits s ->
  0 <= remaining (sys_owner s) <= 6 /\
  (0 < remaining (sys_owner s) ->
   remaining (fst (owner_step (sys_owner s) (sys_shared s))) < remaining (sys_owner s)) /\
  (remaining (sys_owner s) = 0 -> sys_owner s = Idle \/ exists o, sys_owner s = Finished o /\ o <> Panicked).
Proof.
  intros Hnn Hlim Hr. pose proof (ledger_reachable limits Hlim s Hnn Hr) as [].
  destruct s as [sh pc ls]. ledger_simpl.
  destruct pc as [|b|b|b|b|b e|e| | |r| |c| |r|o]; cbn [remaining]; split_and!; try lia.
  - tauto.
  - intros _. cbn [owner_step]. repeat case_match; cbn; lia.
  - intros _. cbn [owner_step]. repeat case_match; cbn; lia.
  - intros _. cbn [owner_step]. repeat case_match; cbn; lia.
  - intros _. cbn [owner_step]. repeat case_match; cbn; lia.
  - intros _. cbn; lia.
  - intros _. cbn; lia.
  - intros _. cbn; lia.
  - intros _. cbn; lia.
  - intros _. cbn [owner_step]. repeat case_match; cbn; lia.
  - intros _. cbn [owner_step]. repeat case_match; cbn; lia.
  - intros _. destruct lg_knows0 as (_ & Hs & _). cbn [owner_step]. rewrite Hs, Z.eqb_refl. cbn. lia.
  - intros _. cbn; lia.
  - intros _. cbn; lia.
  - intros _. right. exists o. split; [done|]. intros ->. exact lg_knows0.
Qed.

(** A reservation is all or nothing. Run without interference, it succeeds
    exactly when the session is active, the request is nonzero and both counters
    have room for it, and then charges exactly the request; otherwise it leaves
    the counters and the state as they were. *)
Lemma reserve_run sh b :
  sr_state sh = ACTIVE \/ sr_state sh = POISONED \/ sr_state sh = CLOSED ->
  0 <= sr_active_regions sh <= sr_maximum_regions sh -> sr_maximum_regions sh < 2 ^ 32 ->
  0 <= sr_active_bytes sh <= sr_maximum_bytes sh -> sr_maximum_bytes sh < 2 ^ 64 -> 0 <= b ->
  let room := 0 < b /\ sr_active_bytes sh + b <= sr_maximum_bytes sh /\
              sr_active_regions sh < sr_maximum_regions sh in
  (sr_state sh = ACTIVE /\ room ->
     iterate 6 (ReserveStart b) sh
     = (Finished (Reserved b),
        with_bytes (sr_active_bytes sh + b) (with_regions (sr_active_regions sh + 1) sh))) /\
  (~ (sr_state sh = ACTIVE /\ room) ->
     exists e, iterate 6 (ReserveStart b) sh = (Finished (ReserveFailed e), sh)).
Proof.
  intros lg_state0 Hregs Hregw Hbytes Hbytew Hb room.
  assert (Hmr : (sr_active_regions sh + 1 - 1) mod 2 ^ 32 = sr_active_regions sh)
    by (rewrite Z.mod_small; lia).
  set (sh1 := with_regions (sr_active_regions sh + 1) sh).
  assert (Hback : sub_region sh1 = sh).
  { unfold sub_region, sh1, with_regions. cbn. rewrite Hmr. now destruct sh. }
  unfold room. clear room.
  destruct ((b =? 0) || (sr_maximum_bytes sh <? b)) eqn:E1.
  { rewrite (iterate_S _ _ _ (Finished (ReserveFailed ActiveLimit)) sh), iterate_finished
      by (cbn; now rewrite E1). split; [|eauto]. apply orb_true_iff in E1. ulia. }
  assert (Hst : sr_state sh = ACTIVE \/ exists e, ensure_active (sr_state sh) = Err e /\ sr_state sh <> ACTIVE).
  { destruct lg_state0 as [Hs|[Hs|Hs]]; rewrite Hs; [tauto|right; eexists; split; [reflexivity|done]..]. }
  destruct Hst as [Hs|(e & He & Hs)].
  2:{ rewrite (iterate_S _ _ _ (Finished (ReserveFailed e)) sh), iterate_finished
        by (cbn; now rewrite E1, He). split; [tauto|eauto]. }
  rewrite (iterate_S _ _ _ (ReserveRegion b) sh) by (cbn; now rewrite E1, Hs). bsplit.
  destruct (Z.lt_ge_cases (sr_active_regions sh) (sr_maximum_regions sh)) as [Hlt|Hge].
  2:{ rewrite (iterate_S _ _ _ (Finished (ReserveFailed ActiveLimit)) sh), iterate_finished
        by (cbn; now rewrite (proj2 (Z.ltb_ge _ _) Hge)). split; [lia|eauto]. }
  rewrite (iterate_S _ _ _ (ReserveBytes b) sh1) by (cbn; now rewrite (proj2 (Z.ltb_lt _ _) Hlt)).
  destruct (Z.le_gt_cases (sr_active_bytes sh + b) (sr_maximum_bytes sh)) as [Hle|Hgt].
  - rewrite (iterate_S _ _ _ (ReserveRecheck b) (with_bytes (sr_active_bytes sh + b) sh1))
      by (cbn; rewrite checked_add_ok by ulia; now rewrite (proj2 (Z.leb_le _ _) Hle)).
    rewrite (iterate_S _ _ _ (Finished (Reserved b)) (with_bytes (sr_active_bytes sh + b) sh1)), iterate_finished
      by (cbn; now rewrite Hs).
    split; [done|]. intros Hn. exfalso. apply Hn. split_and!; done || ulia.
  - rewrite (iterate_S _ _ _ (UndoRegion ActiveLimit) sh1).
    2:{ cbn. unfold checked_add. destruct (_ <=? U64_MAX); [|done]. now rewrite (proj2 (Z.leb_gt _ _) Hgt). }
    rewrite (iterate_S _ _ _ (Finished (ReserveFailed ActiveLimit)) sh), iterate_finished
      by (cbn [owner_step]; now rewrite Hback). split; [lia|eauto].
Qed.

(** ** Witnesses *)

Definition lease_limits : SessionLimits := SessionLimits_default.

Definition fresh_shared : SharedResources :=
  {| sr_state := ACTIVE; sr_active_regions := 0; sr_active_bytes := 0;
     sr_maximum_regions := 4096; sr_maximum_bytes := 8 * 1024 * 1024 * 1024 |}.

Lemma lease_limits_ok : limits_nonneg lease_limits /\ ledger_limits lease_limits.
Proof.
  split; [repeat (constructor; [vm_compute; congruence|]); constructor|].
  split; vm_compute; reflexivity.
Qed.

(** A reservation that is granted, and then half released. *)
Definition granted_system : System :=
  {| sys_shared := with_bytes 4096 (with_regions 1 fresh_shared); sys_owner := Idle; sys_leases := [Held 4096] |}.
Definition draining_system : System :=
  {| sys_shared := with_regions 1 fresh_shared; sys_owner := Idle; sys_leases := [Draining 4096] |}.

Lemma fresh_reachable :
  reachable lease_limits {| sys_shared := fresh_shared; sys_owner := Idle; sys_leases := [] |}.
Proof. apply reachable_new. reflexivity. Qed.

Lemma granted_reachable : reachable lease_limits granted_system.
Proof.
  eapply reachable_step;
    [|apply (step_return (with_bytes 4096 (with_regions 1 fresh_shared)) (Reserved 4096) [])].
  eapply reachable_step; [|apply (step_owner (with_bytes 4096 (with_regions 1 fresh_shared)) (ReserveRecheck 4096))].
  eapply reachable_step; [|apply (step_owner (with_regions 1 fresh_shared) (ReserveBytes 4096))].
  eapply reachable_step; [|apply (step_owner fresh_shared (ReserveRegion 4096))].
  eapply reachable_step; [|apply (step_owner fresh_shared (ReserveStart 4096))].
  eapply reachable_step; [apply fresh_reachable|apply step_call]. split; discriminate.
Qed.

Lemma draining_reachable : reachable lease_limits draining_system.
Proof.
  eapply reachable_step; [apply granted_reachable|].
  apply (step_drop_bytes (with_bytes 4096 (with_regions 1 fresh_shared)) Idle [] 4096 []).
Qed.

Lemma ledger_exact_witness :
  sr_active_regions (sys_shared draining_system) = 1 /\ sr_active_bytes (sys_shared draining_system) = 0.
Proof.
  destruct (ledger_exact lease_limits draining_system) as (H1 & H2 & _);
    [apply lease_limits_ok|apply lease_limits_ok|apply draining_reachable|].
  split; [exact H1|exact H2].
Defined.

Definition closed_system : System :=
  {| sys_shared := with_state CLOSED fresh_shared; sys_owner := Finished CloseDone; sys_leases := [] |}.

Lemma closed_reachable : reachable lease_limits closed_system.
Proof.
  eapply reachable_step; [|apply (step_owner fresh_shared (CloseCas ACTIVE))].
  eapply reachable_step; [|apply (step_owner fresh_shared CloseLoad)].
  eapply reachable_step; [|apply (step_owner fresh_shared (CloseBytes 0))].
  eapply reachable_step; [|apply (step_owner fresh_shared CloseRegions)].
  eapply reachable_step; [apply fresh_reachable|apply step_call]. exact I.
Qed.

Lemma close_exact_witness : sys_leases closed_system = [] /\ sr_state (sys_shared closed_system) = CLOSED.
Proof.
  apply (close_exact lease_limits closed_system);
    [apply lease_limits_ok|apply lease_limits_ok|apply closed_reachable|reflexivity].
Defined.

Lemma owner_terminates_witness : 0 <= remaining (sys_owner closed_system) <= 6.
Proof.
  apply (owner_terminates lease_limits closed_system);
    [apply lease_limits_ok|apply lease_limits_ok|apply closed_reachable].
Defined.
