(* ===== verification/Reaper.v ===== *)
(** * Reaper: lifecycle ownership of a detached reaper
    ([native-ipc/src/backend/reaper_ownership.rs])

    External owners of a child reaper are cloned and released on any thread;
    the last release latches termination, which the worker polls. Every atomic
    access is one step of an interleaving. *)

From S2P Require Import Prelude.

(** ** State *)

Record ReaperOwnershipState := {
  ro_external_owners : Z;
  ro_terminate : bool
}.

(** The outcome of one atomic access by an owner. *)
Inductive ReaperError := CannotCloneReleased | OwnerCountOverflow | OwnerCountUnderflow.

Definition ReaperOwnership_new : ReaperOwnershipState :=
  {| ro_external_owners := 1; ro_terminate := false |}.

Definition set_owners (n : Z) (st : ReaperOwnershipState) : ReaperOwnershipState :=
  {| ro_external_owners := n; ro_terminate := ro_terminate st |}.
Definition latch (st : ReaperOwnershipState) : ReaperOwnershipState :=
  {| ro_external_owners := ro_external_owners st; ro_terminate := true |}.

(** [ReaperTermination::request] and [requested]. *)
Definition request (st : ReaperOwnershipState) : ReaperOwnershipState := latch st.
Definition requested (st : ReaperOwnershipState) : bool := ro_terminate st.

(** A [ReaperOwnership] handle: live, between the decrement and the store of
    [release], or inactive after [release] returned its boolean. *)
Inductive Owner :=
| Live
| Latching
| Released (latched : bool).

(** [Clone::clone]: [assert!(self.active)] and the checked increment. *)
Definition clone_owner (o : Owner) (st : ReaperOwnershipState)
  : res ReaperError ReaperOwnershipState :=
  match o with
  | Live => let? n := ok_or (checked_add USIZE_MAX (ro_external_owners st) 1) OwnerCountOverflow in
            Ok (set_owners n st)
  | _ => Err CannotCloneReleased
  end.

(** The next atomic access of [release] (and of [drop], which calls it); an
    inactive handle changes nothing. *)
Definition release_step (o : Owner) (st : ReaperOwnershipState)
  : res ReaperError (Owner * ReaperOwnershipState) :=
  match o with
  | Live =>
      let previous := ro_external_owners st in
      let? n := ok_or (checked_sub previous 1) OwnerCountUnderflow in
      Ok (if previous =? 1 then Latching else Released false, set_owners n st)
  | Latching => Ok (Released true, latch st)
  | Released latched => Ok (o, st)
  end.

(** ** Interleavings *)

Record System := { ss_state : ReaperOwnershipState; ss_owners : list Owner; ss_requested : bool }.

Inductive step : System -> System -> Prop :=
| step_clone st st' pre post rq :
    clone_owner Live st = Ok st' ->
    step {| ss_state := st; ss_owners := pre ++ Live :: post; ss_requested := rq |}
         {| ss_state := st'; ss_owners := pre ++ Live :: Live :: post; ss_requested := rq |}
| step_release st o o' st' pre post rq :
    o = Live \/ o = Latching ->
    release_step o st = Ok (o', st') ->
    step {| ss_state := st; ss_owners := pre ++ o :: post; ss_requested := rq |}
         {| ss_state := st'; ss_owners := pre ++ o' :: post; ss_requested := rq |}
| step_request st os rq :
    step {| ss_state := st; ss_owners := os; ss_requested := rq |}
         {| ss_state := request st; ss_owners := os; ss_requested := true |}.

Inductive reachable : System -> Prop :=
| reachable_new :
    reachable {| ss_state := ReaperOwnership_new; ss_owners := [Live]; ss_requested := false |}
| reachable_step s s' : reachable s -> step s s' -> reachable s'.

(** ** Invariant *)

Definition is_live (o : Owner) : Z := match o with Live => 1 | _ => 0 end.
Definition is_last (o : Owner) : Z := match o with Latching | Released true => 1 | _ => 0 end.
Definition is_latched (o : Owner) : Z := match o with Released true => 1 | _ => 0 end.
Definition count (f : Owner -> Z) (os : list Owner) : Z := foldr (fun o z => f o + z) 0 os.

Lemma count_app f l k : count f (l ++ k) = count f l + count f k.
Proof. induction l as [|x l IH]; [done|]. unfold count in *. cbn. lia. Qed.
Lemma count_cons f x k : count f (x :: k) = f x + count f k.
Proof. done. Qed.
Lemma count_nonneg f l : (forall o, 0 <= f o) -> 0 <= count f l.
Proof. intros H. induction l as [|x l IH]; [done|]. rewrite count_cons. specialize (H x). lia. Qed.

Arguments count : simpl never.

Lemma live_nonneg o : 0 <= is_live o. Proof. destruct o as [| |[]]; cbn; lia. Qed.
Lemma last_nonneg o : 0 <= is_last o. Proof. destruct o as [| |[]]; cbn; lia. Qed.
Lemma latched_nonneg o : 0 <= is_latched o. Proof. destruct o as [| |[]]; cbn; lia. Qed.

Lemma latched_le_last l : 0 <= count is_latched l <= count is_last l.
Proof. induction l as [|x l IH]; [done|]. rewrite !count_cons. destruct x as [| |[]]; cbn; lia. Qed.

Lemma count_elem f o l : (forall x, 0 <= f x) -> o ∈ l -> f o <= count f l.
Proof.
  intros Hf (p & q & ->)%list_elem_of_split. rewrite count_app, count_cons.
  pose proof (count_nonneg f p Hf). pose proof (count_nonneg f q Hf). lia.
Qed.

Lemma count_pos l : 0 < count is_latched l -> Released true ∈ l.
Proof.
  induction l as [|x l IH]; [done|]. rewrite count_cons. intros H.
  destruct x as [| |[]]; cbn in H; [right; apply IH; lia|right; apply IH; lia|left|right; apply IH; lia].
Qed.

Record owners_inv (s : System) : Prop := {
  oi_count : ro_external_owners (ss_state s) = count is_live (ss_owners s);
  oi_bound : ro_external_owners (ss_state s) <= USIZE_MAX;
  oi_last : count is_last (ss_owners s) = if ro_external_owners (ss_state s) =? 0 then 1 else 0;
  oi_latched : ro_terminate (ss_state s) = ss_requested s || (count is_latched (ss_owners s) =? 1)
}.

Lemma inv_reachable s : reachable s -> owners_inv s.
Proof.
  induction 1 as [|s s' Hr [Hc Hb Hl Ht] Hstep]; [constructor; done|].
  destruct Hstep as [st st' pre post rq Hcl|st o o' st' pre post rq Ho Hrel|st os rq]; cbn in *.
  - destruct (checked_add _ _ _) as [n|] eqn:En; [|discriminate]. injection Hcl as <-.
    apply checked_add_Some in En as [-> En]. rewrite !count_app, !count_cons in *. cbn in *.
    pose proof (count_nonneg is_live pre live_nonneg). pose proof (count_nonneg is_live post live_nonneg).
    constructor; cbn; rewrite ?count_app, ?count_cons; cbn; try lia; [|done].
    destruct (_ =? 0) eqn:E1 in Hl; bsplit; [lia|]. destruct (_ =? 0) eqn:E2 in |- *; bsplit; lia.
  - pose proof (count_nonneg is_live pre live_nonneg). pose proof (count_nonneg is_live post live_nonneg).
    pose proof (count_nonneg is_last pre last_nonneg). pose proof (count_nonneg is_last post last_nonneg).
    destruct Ho as [->| ->]; cbn in Hrel.
    + unfold checked_sub in Hrel. rewrite !count_app, !count_cons in *. cbn in *.
      replace (1 <=? ro_external_owners st) with true in Hrel by lia. injection Hrel as <- <-.
      destruct (_ =? 0) eqn:E0 in Hl; bsplit; [lia|].
      destruct (_ =? 1) eqn:E1 in |- *; bsplit; constructor; cbn; rewrite ?count_app, ?count_cons; cbn;
        try lia; try done; destruct (_ =? 0) eqn:E2 in |- *; bsplit; lia.
    + injection Hrel as <- <-. rewrite !count_app, !count_cons in *. cbn in *.
      assert (Hlast : count is_latched pre = 0 /\ count is_latched post = 0).
      { pose proof (latched_le_last pre). pose proof (latched_le_last post). destruct (_ =? 0) in Hl; lia. }
      destruct Hlast as [Z1 Z2].
      constructor; cbn; rewrite ?count_app, ?count_cons; cbn; try lia.
  - constructor; cbn; try done.
Qed.

(** The last owner, and only the last owner, latches termination. In every
    interleaving of clones, releases and explicit requests: the owner count is
    the number of live owners, so no release underflows; termination is set if
    and only if it was requested or a release has reported that it latched it;
    at most one release ever reports that, and only after every owner has let
    go; and once every owner has finished its release, termination is set. *)
Theorem reaper_last_owner s :
  reachable s ->
  ro_external_owners (ss_state s) = count is_live (ss_owners s) /\
  (forall o, o ∈ ss_owners s -> exists o' st', release_step o (ss_state s) = Ok (o', st')) /\
  (requested (ss_state s) = true <-> ss_requested s = true \/ Released true ∈ ss_owners s) /\
  count is_latched (ss_owners s) <= 1 /\
  (Released true ∈ ss_owners s \/ Latching ∈ ss_owners s -> count is_live (ss_owners s) = 0) /\
  (Forall (fun o => exists b, o = Released b) (ss_owners s) -> requested (ss_state s) = true).
Proof.
  intros Hr. destruct (inv_reachable s Hr) as [Hc Hb Hl Ht]. unfold requested.
  pose proof (count_nonneg is_live (ss_owners s) live_nonneg).
  pose proof (latched_le_last (ss_owners s)) as Hle.
  assert (Hlast1 : count is_last (ss_owners s) <= 1) by (destruct (_ =? 0) in Hl; lia).
  split_and!; try done; try lia.
  - intros o Ho. destruct o as [| |b]; cbn; eauto.
    apply (count_elem is_live) in Ho; [|apply live_nonneg]. cbn in Ho. rewrite checked_sub_ok by lia. cbn. eauto.
  - rewrite Ht, orb_true_iff, Z.eqb_eq. split.
    + intros [Hq|Hq]; [tauto|]. right. apply count_pos. lia.
    + intros [Hq|Hq]; [tauto|]. right. apply (count_elem is_latched) in Hq; [|apply latched_nonneg]. cbn in Hq. lia.
  - intros Hin. assert (1 <= count is_last (ss_owners s)).
    { destruct Hin as [Hin|Hin]; apply (count_elem is_last) in Hin; try apply last_nonneg; exact Hin. }
    destruct (_ =? 0) eqn:E0 in Hl; bsplit; lia.
  - intros Hall. assert (Hz : count is_live (ss_owners s) = 0 /\ count is_latched (ss_owners s) = count is_last (ss_owners s)).
    { clear -Hall. induction Hall as [|o l [b ->] Hall [IH1 IH2]]; [done|]. rewrite !count_cons. destruct b; cbn; lia. }
    destruct Hz as [Hz1 Hz2]. rewrite Hc, Hz1 in Hl. cbn in Hl. rewrite Ht, Hz2, Hl. cbn. apply orb_true_r.
Qed.

(** ** Witnesses *)

(** Two owners: the clone is released first, then the original, which latches. *)
Definition last_system : System :=
  {| ss_state := {| ro_external_owners := 0; ro_terminate := true |};
     ss_owners := [Released true; Released false]; ss_requested := false |}.

Lemma last_reachable : reachable last_system.
Proof.
  eapply reachable_step;
    [|apply (step_release {| ro_external_owners := 0; ro_terminate := false |} Latching (Released true) _ []);
      [tauto|reflexivity]].
  eapply reachable_step;
    [|apply (step_release {| ro_external_owners := 1; ro_terminate := false |} Live Latching _ []);
      [tauto|reflexivity]].
  eapply reachable_step;
    [|apply (step_release {| ro_external_owners := 2; ro_terminate := false |} Live (Released false) _ [Live]);
      [tauto|reflexivity]].
  eapply reachable_step; [apply reachable_new|].
  apply (step_clone ReaperOwnership_new _ [] []). reflexivity.
Qed.

Lemma reaper_last_owner_witness : requested (ss_state last_system) = true.
Proof.
  apply (reaper_last_owner last_system); [apply last_reachable|].
  constructor; [exists true; reflexivity|]. constructor; [exists false; reflexivity|]. constructor.
Defined.
