(* ===== verification/Native.v ===== *)
(** * Native: what every native backend shares ([native-ipc/src/backend/mod.rs])

    The identity of a spawned pair, the evidence a role holds after the
    bilateral ACCEPT, the parameters of the accepted session, the monotonic
    deadlines of [session.rs], and the interface of the authenticated record
    transports the backends implement. A transport is a type [T] that stands
    for the endpoint and for the system it runs on; an operation maps a value
    of [T] to its outcome and to the next value of [T], so that nothing is
    assumed of the peer or of the kernel beyond what a class states. *)

From S2P Require Import Prelude Limits Manifest Negotiation.

(** ** Identities and evidence *)

Record SpawnIdentityFacts := {
  sf_parent_pid : Z;
  sf_child_pid : Z;
  sf_parent_uid : Z;
  sf_parent_gid : Z;
  sf_child_uid : Z;
  sf_child_gid : Z;
  sf_nonce : bytes
}.

#[export] Instance SpawnIdentityFacts_eq_dec : EqDecision SpawnIdentityFacts.
Proof. solve_decision. Defined.

Definition SpawnIdentityFacts_new (parent_pid child_pid parent_uid parent_gid child_uid child_gid : Z)
  (nonce : bytes) : option SpawnIdentityFacts :=
  if (parent_pid =? 0) || (child_pid =? 0) || (parent_pid =? child_pid)
     || bool_decide (nonce = zeros 32)
  then None
  else Some {| sf_parent_pid := parent_pid; sf_child_pid := child_pid; sf_parent_uid := parent_uid;
               sf_parent_gid := parent_gid; sf_child_uid := child_uid; sf_child_gid := child_gid;
               sf_nonce := nonce |}.

Record ProtocolVersion := { pv_major : Z; pv_minor : Z }.

#[export] Instance ProtocolVersion_eq_dec : EqDecision ProtocolVersion.
Proof. solve_decision. Defined.
#[export] Instance AtomicCapabilities_eq_dec : EqDecision AtomicCapabilities.
Proof. solve_decision. Defined.

Definition from_accepted_offer (value : AtomicOffer) : AtomicCapabilities :=
  {| ac_atomic_u32_lock_free := ao_u32_lock_free value;
     ac_atomic_u32_alignment := ao_u32_alignment value;
     ac_atomic_u64_lock_free := ao_u64_lock_free value;
     ac_atomic_u64_alignment := ao_u64_alignment value;
     ac_page_alignment := ao_page_alignment value;
     ac_cache_line_alignment := ao_cache_line_alignment value |}.

Record AcceptedSessionParameters := {
  ap_facts : SpawnIdentityFacts;
  ap_limits : SessionLimits;
  ap_authority_profile : NativeAuthorityProfile;
  ap_atomics : AtomicCapabilities;
  ap_protocol_version : ProtocolVersion
}.

#[export] Instance AcceptedSessionParameters_eq_dec : EqDecision AcceptedSessionParameters.
Proof. solve_decision. Defined.

(** ** Transport outcomes *)

Inductive PeerState := Running | ExitedUnknown.

Inductive SessionTransportError :=
| TransportError_DeadlineExpired
| TransportError_PeerExited
| TransportError_MalformedRecord
| TransportError_RecordTooLarge
| TransportError_IdentityMismatch
| TransportError_Ambiguous
| TransportError_Poisoned
| TransportError_Native (code : option Z).

#[export] Instance SessionTransportError_eq_dec : EqDecision SessionTransportError.
Proof. solve_decision. Defined.

(** A receipt ([CoordinatorChildChannelReceipt], [CoordinatorChildImageReceipt])
    is the facts it carries; so is the evidence, with the transcript. *)
Record AcceptedEvidence := { ev_facts : SpawnIdentityFacts; ev_transcript : AcceptedTranscriptFacts }.

Definition CoordinatorAcceptedEvidence_combine (channel image : SpawnIdentityFacts)
  (transcript : AcceptedTranscriptFacts) : res SessionTransportError AcceptedEvidence :=
  if negb (bool_decide (channel = image)) || negb (bool_decide (sf_nonce channel = atf_nonce transcript))
  then Err TransportError_IdentityMismatch
  else Ok {| ev_facts := channel; ev_transcript := transcript |}.

Definition ReceiverSpawnerEvidence_from_verified_native (facts : SpawnIdentityFacts)
  (transcript : AcceptedTranscriptFacts) : res SessionTransportError AcceptedEvidence :=
  if negb (bool_decide (sf_nonce facts = atf_nonce transcript))
  then Err TransportError_IdentityMismatch
  else Ok {| ev_facts := facts; ev_transcript := transcript |}.

(** [session_parameters] of both kinds of evidence. *)
Definition session_parameters (self : AcceptedEvidence) (authority_profile : NativeAuthorityProfile)
  : AcceptedSessionParameters :=
  {| ap_facts := ev_facts self;
     ap_limits := atf_effective_limits (ev_transcript self);
     ap_authority_profile := authority_profile;
     ap_atomics := from_accepted_offer (atf_effective_atomics (ev_transcript self));
     ap_protocol_version := {| pv_major := atf_wire_major (ev_transcript self);
                               pv_minor := atf_wire_minor (ev_transcript self) |} |}.

(** ** Deadlines

    An [Instant] and a [Duration] are nanosecond counts. Reading the clock is
    an effect: successive reads may differ. [instant_max] is the last instant
    the platform represents. *)

Class Clock (T : Type) := {
  instant_now : T -> Z * T;
  instant_max : Z
}.

Section Deadlines.
Context {T : Type} {C : Clock T} {E : Type}.

Definition AbsoluteDeadline_after (duration : Z) : stm T NegotiationError Z :=
  if duration =? 0 then serr NegotiationError_InvalidDeadline else
  fun t => let '(now, t) := instant_now t in
           (ok_or (checked_add instant_max now duration) NegotiationError_InvalidDeadline, t).

(** [saturating_duration_since]. *)
Definition AbsoluteDeadline_remaining (deadline : Z) : stm T E Z :=
  fun t => let '(now, t) := instant_now t in (Ok (Z.max 0 (deadline - now)), t).

Definition is_expired (deadline : Z) : stm T E bool :=
  let! remaining := AbsoluteDeadline_remaining deadline in sret (remaining =? 0).

End Deadlines.

(** ** Transports

    The traits of [backend/mod.rs]. A [Result] of a trait method is [A + error]:
    the interface has no abnormal exit. *)

Definition io (T A : Type) : Type := T -> (A + SessionTransportError) * T.

Class AuthenticatedZeroRightsTransport (T : Type) := {
  send_record : bytes -> Z -> io T unit;
  receive_record : Z -> Z -> io T bytes;
  transport_try_poll_peer : io T PeerState;
  transport_poison : T -> T
}.

(** [CoordinatorCapabilityTransport]; [Cap] is the borrowed native authority. *)
Class CoordinatorCapabilityTransport (T Cap : Type) :=
  send_capability_record : CapabilityFrame -> Cap -> Z -> io T unit.

(** [ReceiverCapabilityTransport]; [Rcv] owns the installed capabilities. *)
Class ReceiverCapabilityTransport (T Rcv : Type) :=
  receive_capability_record : CapabilityFrame -> Z -> io T Rcv.

(** [receive_candidate_capability_record] of the Linux and macOS transports: one
    record of at most the given number of capabilities, not yet validated. *)
Class CandidateCapabilityTransport (T Right : Type) :=
  receive_candidate_capability_record : Z -> Z -> io T (bytes * list Right).

(** [OwnedChildLifecycle]. *)
Class OwnedChildLifecycle (T : Type) :=
  transport_terminate_and_reap : Z -> io T unit.

(** The contract of [poison]: every later operation fails at once and touches
    nothing. *)
Class TransportLaws (T : Type) {R : AuthenticatedZeroRightsTransport T} := {
  transport_poisoned : T -> bool;
  poison_poisons : forall t, transport_poisoned (transport_poison t) = true;
  poisoned_send : forall b d t, transport_poisoned t = true ->
    exists e, send_record b d t = (inr e, t);
  poisoned_receive : forall m d t, transport_poisoned t = true ->
    exists e, receive_record m d t = (inr e, t);
  poisoned_poll : forall t, transport_poisoned t = true ->
    exists e, transport_try_poll_peer t = (inr e, t)
}.

(** ** Transports that record what passes

    [Traced T] is [T] with the log of the records sent and received. Theorems
    about what an endpoint exchanges run it on a traced transport, which
    behaves as the transport it wraps. *)

Inductive Event :=
| Sent (record : bytes)
| SentCapabilities (frame : bytes)
| Received (record : bytes)
| ReceivedCapabilities (frame : bytes).

Record Traced (T : Type) := { tr_inner : T; tr_log : list Event }.
Arguments tr_inner {T}.
Arguments tr_log {T}.

Definition traced {T A} (m : io T A) (event : A -> list Event) : io (Traced T) A :=
  fun t => let '(r, t') := m (tr_inner t) in
           (r, {| tr_inner := t';
                  tr_log := tr_log t ++ match r with inl a => event a | inr _ => [] end |}).

Definition silent {A} (_ : A) : list Event := [].

#[export] Instance TracedTransport {T} `{AuthenticatedZeroRightsTransport T}
  : AuthenticatedZeroRightsTransport (Traced T) := {
  send_record := fun b d => traced (send_record b d) (fun _ => [Sent b]);
  receive_record := fun m d => traced (receive_record m d) (fun b => [Received b]);
  transport_try_poll_peer := traced transport_try_poll_peer silent;
  transport_poison := fun t => {| tr_inner := transport_poison (tr_inner t); tr_log := tr_log t |}
}.

#[export] Instance TracedClock {T} `{Clock T} : Clock (Traced T) := {
  instant_now := fun t => let '(n, t') := instant_now (tr_inner t) in
                          (n, {| tr_inner := t'; tr_log := tr_log t |});
  instant_max := instant_max
}.

#[export] Instance TracedCapabilities {T Cap} `{CoordinatorCapabilityTransport T Cap}
  : CoordinatorCapabilityTransport (Traced T) Cap :=
  fun frame cap d => traced (send_capability_record frame cap d) (fun _ => [SentCapabilities (cf_bytes frame)]).

#[export] Instance TracedCandidates {T Right} `{CandidateCapabilityTransport T Right}
  : CandidateCapabilityTransport (Traced T) Right :=
  fun count d => traced (receive_candidate_capability_record count d)
                        (fun r => [ReceivedCapabilities (fst r)]).

#[export] Instance TracedReceived {T Rcv} `{ReceiverCapabilityTransport T Rcv}
  : ReceiverCapabilityTransport (Traced T) Rcv :=
  fun frame d => traced (receive_capability_record frame d)
                        (fun _ => [ReceivedCapabilities (cf_bytes frame)]).
