(* ===== verification/Resources.v ===== *)
(** * Resources: the ledger's operations as method calls

    [Liveness.v] models every atomic access of [ResourceOwner] as a step. The
    other components call whole methods: each is the owner's steps run to their
    end. Here are the methods in that form, the reservations the dispatcher
    takes for a batch, the destructors that give charges back, and the
    invariant that ties the counters to the charges held. *)

From S2P Require Import Prelude Limits Liveness.

(** ** Methods *)

Definition ResourceOwner_reserve (bytes : Z) : stm SharedResources ResourceError Z :=
  fun sh => match iterate 6 (ReserveStart bytes) sh with
            | (Finished (Reserved b), sh') => (Ok b, sh')
            | (Finished (ReserveFailed e), sh') => (Err e, sh')
            | (_, sh') => (Panic, sh')
            end.

Definition ResourceOwner_poison (sh : SharedResources) : SharedResources :=
  snd (iterate 1 PoisonStart sh).

Definition ResourceOwner_try_close : stm SharedResources ResourceError unit :=
  fun sh => match iterate 4 CloseRegions sh with
            | (Finished CloseDone, sh') => (Ok tt, sh')
            | (Finished (CloseFailed e), sh') => (Err e, sh')
            | (_, sh') => (Panic, sh')
            end.

Definition ResourceOwner_state (sh : SharedResources) : res ResourceError LivenessState :=
  decode_state (sr_state sh).

Definition ResourceOwner_active_lease_facts (sh : SharedResources) : ActiveLeaseFacts :=
  lease_facts (sr_active_regions sh) (sr_active_bytes sh).

(** [Drop] of a [RegionLease], and of the [LeaseReservation] that still holds
    one: both are identified by the bytes they charge. *)
Definition drop_lease (bytes : Z) (sh : SharedResources) : SharedResources :=
  sub_region (sub_bytes bytes sh).

(** [Drop] of a [Vec<LeaseReservation>]. *)
Definition drop_leases (held : list Z) (sh : SharedResources) : SharedResources :=
  foldl (fun sh b => drop_lease b sh) sh held.

(** [RegionLease::state]. *)
Definition RegionLease_state (sh : SharedResources) : res ResourceError LivenessState :=
  decode_state (sr_state sh).

(** [LeaseReservation::complete]: on an error the reservation is dropped. *)
Definition LeaseReservation_complete (lease actual_mapped_len : Z)
  : stm SharedResources ResourceError Z :=
  fun sh =>
  if negb (lease =? actual_mapped_len)
  then (Err (MappedLengthMismatch lease actual_mapped_len), drop_lease lease sh) else
  match RegionLease_state sh with
  | Ok Active => (Ok lease, sh)
  | Ok Poisoned => (Err ResourcePoisoned, drop_lease lease sh)
  | Ok Closed => (Err ResourceClosed, drop_lease lease sh)
  | Err e => (Err e, drop_lease lease sh)
  | Panic => (Panic, drop_lease lease sh)
  end.

(** [reserve_mapped_lengths] of [backend/accepted_control.rs]: on an early
    return the reservations taken so far are dropped. *)
Fixpoint reserve_from (held : list Z) (mapped_lengths : list Z)
  : stm SharedResources ResourceError (list Z) :=
  match mapped_lengths with
  | [] => sret held
  | mapped_len :: rest => fun sh =>
      match ResourceOwner_reserve mapped_len sh with
      | (Ok b, sh') => reserve_from (held ++ [b]) rest sh'
      | (Err e, sh') => (Err e, drop_leases held sh')
      | (Panic, sh') => (Panic, drop_leases held sh')
      end
  end.

Definition reserve_mapped_lengths (mapped_lengths : list Z)
  : stm SharedResources ResourceError (list Z) :=
  reserve_from [] mapped_lengths.

(** ** The invariant

    The counters are exactly the charges held, in whatever order they were
    taken; [held] lists them. *)

Definition total (held : list Z) : Z := foldr Z.add 0 held.

Record balanced (sh : SharedResources) (held : list Z) : Prop := {
  bal_regions : sr_active_regions sh = len held;
  bal_bytes : sr_active_bytes sh = total held;
  bal_positive : Forall (Z.lt 0) held;
  bal_region_limit : len held <= sr_maximum_regions sh;
  bal_byte_limit : total held <= sr_maximum_bytes sh;
  bal_widths : sr_maximum_regions sh < 2 ^ 32 /\ sr_maximum_bytes sh < 2 ^ 64;
  bal_state : sr_state sh = ACTIVE \/ sr_state sh = POISONED \/ sr_state sh = CLOSED
}.

Lemma total_app l k : total (l ++ k) = total l + total k.
Proof. unfold total. induction l as [|x l IH]; [done|]. cbn. lia. Qed.

Lemma total_perm l k : l ≡ₚ k -> total l = total k.
Proof. unfold total. induction 1; cbn; lia. Qed.

Lemma total_nonneg l : Forall (Z.lt 0) l -> 0 <= total l.
Proof. unfold total. induction 1; cbn; lia. Qed.

(** The order in which charges were taken does not matter. *)
#[export] Instance balanced_proper : Proper (eq ==> (≡ₚ) ==> iff) balanced.
Proof.
  intros sh ? <- l k Hlk. split; intros []; constructor; rewrite ?Hlk in *;
    rewrite <- ?(len_perm _ _ Hlk), <- ?(total_perm _ _ Hlk) in *;
    rewrite ?(len_perm _ _ Hlk), ?(total_perm _ _ Hlk) in *; done.
Qed.

(** A balanced ledger is what [Liveness.v] reaches when the owner is idle and no
    destructor is half way. *)
Lemma balanced_reachable limits sh held :
  limits_nonneg limits -> ledger_limits limits ->
  reachable limits {| sys_shared := sh; sys_owner := Idle; sys_leases := map Held held |} ->
  balanced sh held.
Proof.
  intros Hnn Hlim Hr. pose proof (ledger_reachable limits Hlim _ Hnn Hr) as []. ledger_simpl.
  assert (Hl : len (map Held held) = len held) by (unfold len; now rewrite length_map).
  assert (Ht : sum_bytes (map Held held) = total held).
  { clear. induction held as [|b l IH]; [done|]. cbn [map]. rewrite sum_bytes_cons, IH. done. }
  destruct Hlim, lg_maxima. constructor; try done; try lia.
  rewrite Forall_map in lg_leases. exact lg_leases.
Qed.

(** ** What the methods do to a balanced ledger *)

Definition charge (b : Z) (sh : SharedResources) : SharedResources :=
  with_bytes (sr_active_bytes sh + b) (with_regions (sr_active_regions sh + 1) sh).

Definition room (sh : SharedResources) (b : Z) : Prop :=
  sr_state sh = ACTIVE /\ 0 < b /\ sr_active_bytes sh + b <= sr_maximum_bytes sh /\
  sr_active_regions sh < sr_maximum_regions sh.

#[export] Instance room_dec sh b : Decision (room sh b).
Proof. unfold room. apply _. Defined.

Lemma reserve_balanced sh held b :
  balanced sh held -> 0 <= b ->
  (room sh b -> ResourceOwner_reserve b sh = (Ok b, charge b sh)) /\
  (~ room sh b -> exists e, ResourceOwner_reserve b sh = (Err e, sh)).
Proof.
  intros [] Hb. destruct bal_widths0. pose proof (total_nonneg _ bal_positive0). pose proof (len_nonneg held).
  destruct (reserve_run sh b) as [Hok Herr]; [done|lia..|]. unfold ResourceOwner_reserve, room. split.
  - intros (Hs & Hr). now rewrite Hok.
  - intros Hn. destruct Herr as [e ->]; [tauto|eauto].
Qed.

Lemma charge_balanced sh held b : balanced sh held -> room sh b -> balanced (charge b sh) (b :: held).
Proof.
  intros [] (Hs & Hb & Hbytes & Hregs). constructor; cbn [charge with_bytes with_regions sr_state
    sr_active_regions sr_active_bytes sr_maximum_regions sr_maximum_bytes]; rewrite ?len_cons;
    change (total (b :: held)) with (b + total held); try lia; auto.
Qed.

Lemma drop_balanced sh held b : balanced sh (b :: held) -> balanced (drop_lease b sh) held.
Proof.
  intros []. destruct bal_widths0. rewrite len_cons in *. pose proof (len_nonneg held).
  change (total (b :: held)) with (b + total held) in *.
  apply Forall_cons in bal_positive0 as [Hb Hp]. pose proof (total_nonneg _ Hp).
  constructor; cbn [drop_lease sub_region sub_bytes with_bytes with_regions sr_state
    sr_active_regions sr_active_bytes sr_maximum_regions sr_maximum_bytes]; rewrite ?Z.mod_small by lia;
    try lia; done.
Qed.

Lemma drop_charge sh held b : balanced sh held -> room sh b -> drop_lease b (charge b sh) = sh.
Proof.
  intros [] (Hs & Hb & Hbytes & Hregs). destruct bal_widths0. pose proof (len_nonneg held).
  pose proof (total_nonneg _ bal_positive0).
  unfold drop_lease, sub_region, sub_bytes, charge, with_bytes, with_regions. destruct sh. cbn in *.
  f_equal; rewrite Z.mod_small; lia.
Qed.

(** ** Reservations of a whole batch *)

Definition same_session (sh sh' : SharedResources) : Prop :=
  sr_state sh' = sr_state sh /\ sr_maximum_regions sh' = sr_maximum_regions sh /\
  sr_maximum_bytes sh' = sr_maximum_bytes sh.

Lemma balanced_unique sh sh' held :
  balanced sh held -> balanced sh' held -> same_session sh sh' -> sh' = sh.
Proof. intros [] [] (H1 & H2 & H3). destruct sh, sh'. cbn in *. congruence. Qed.

Lemma drop_leases_balanced held rest sh :
  balanced sh (held ++ rest) -> balanced (drop_leases held sh) rest /\ same_session sh (drop_leases held sh).
Proof.
  revert sh. induction held as [|b held IH]; intros sh H; [done|].
  change (drop_leases (b :: held) sh) with (drop_leases held (drop_lease b sh)).
  destruct (IH (drop_lease b sh)) as [H1 (H2 & H3 & H4)]; [now apply drop_balanced|done].
Qed.

Lemma charge_same b sh : same_session sh (charge b sh).
Proof. done. Qed.

(** What a batch needs of the ledger. *)
Definition batch_room (sh : SharedResources) (mapped_lengths : list Z) : Prop :=
  Forall (Z.lt 0) mapped_lengths /\
  (mapped_lengths = [] \/ sr_state sh = ACTIVE) /\
  sr_active_bytes sh + total mapped_lengths <= sr_maximum_bytes sh /\
  sr_active_regions sh + len mapped_lengths <= sr_maximum_regions sh.

Lemma batch_room_cons sh held b l :
  balanced sh held -> batch_room sh (b :: l) <-> room sh b /\ batch_room (charge b sh) l.
Proof.
  intros []. unfold batch_room, room. cbn [charge with_bytes with_regions sr_state
    sr_active_regions sr_active_bytes sr_maximum_regions sr_maximum_bytes].
  rewrite Forall_cons, len_cons. change (total (b :: l)) with (b + total l).
  pose proof (len_nonneg l). split.
  - intros ((Hb & Hl) & Hs & H1 & H2). pose proof (total_nonneg _ Hl).
    destruct Hs as [|Hs]; [discriminate|]. split_and!; try done; try lia; now right.
  - intros ((Hs & Hb & H1 & H2) & Hl & _ & H3 & H4). split_and!; try done; try lia; now right.
Qed.

Lemma reserve_from_spec mapped_lengths : forall sh taken held,
  balanced sh (taken ++ held) -> Forall (Z.le 0) mapped_lengths ->
  (batch_room sh mapped_lengths ->
     exists sh', reserve_from taken mapped_lengths sh = (Ok (taken ++ mapped_lengths), sh') /\
       balanced sh' (taken ++ mapped_lengths ++ held) /\ same_session sh sh') /\
  (~ batch_room sh mapped_lengths ->
     exists e sh', reserve_from taken mapped_lengths sh = (Err e, sh') /\
       balanced sh' held /\ same_session sh sh').
Proof.
  induction mapped_lengths as [|b l IH]; intros sh taken held Hbal Hn; cbn [reserve_from].
  - split; [intros _; exists sh; now rewrite app_nil_r|]. intros Hf. exfalso. apply Hf.
    destruct Hbal. unfold batch_room. change (total []) with 0. change (len []) with 0.
    split_and!; [constructor|now left|lia|lia].
  - apply Forall_cons in Hn as [Hb Hn]. destruct (reserve_balanced sh _ b Hbal Hb) as [Hok Herr].
    rewrite (batch_room_cons _ _ _ _ Hbal). destruct (decide (room sh b)) as [Hr|Hr].
    + rewrite (Hok Hr). assert (Hbal' : balanced (charge b sh) ((taken ++ [b]) ++ held)).
      { rewrite <- app_assoc. cbn [app]. rewrite <- Permutation_middle. now apply charge_balanced. }
      destruct (IH _ _ _ Hbal' Hn) as [H1 H2]. destruct (charge_same b sh) as (C1 & C2 & C3). split.
      * intros [_ Hl]. destruct (H1 Hl) as (sh' & -> & Hb' & (S1 & S2 & S3)). exists sh'.
        rewrite <- !app_assoc in *. split_and!; try done; unfold same_session in *; intuition congruence.
      * intros Hf. destruct H2 as (e & sh' & -> & Hb' & (S1 & S2 & S3)); [tauto|]. exists e, sh'.
        split_and!; try done; unfold same_session in *; intuition congruence.
    + split; [tauto|]. intros _. destruct (Herr Hr) as [e ->]. exists e.
      destruct (drop_leases_balanced taken held sh Hbal). eauto.
Qed.

(** Reserving the mappings of a batch is all or nothing. It succeeds exactly when
    every length is positive, the session is active and both negotiated limits
    have room for the whole batch, and then charges exactly the batch; otherwise
    the reservations already taken are given back and the ledger is as before. *)
Theorem reserve_batch_exact sh held mapped_lengths :
  balanced sh held -> Forall (Z.le 0) mapped_lengths ->
  (batch_room sh mapped_lengths ->
     exists sh', reserve_mapped_lengths mapped_lengths sh = (Ok mapped_lengths, sh') /\
       balanced sh' (mapped_lengths ++ held) /\ same_session sh sh') /\
  (~ batch_room sh mapped_lengths ->
     exists e, reserve_mapped_lengths mapped_lengths sh = (Err e, sh)).
Proof.
  intros Hbal Hn. destruct (reserve_from_spec mapped_lengths sh [] held Hbal Hn) as [H1 H2].
  split; [exact H1|]. intros Hf. destruct (H2 Hf) as (e & sh' & Heq & Hb & Hs). exists e.
  unfold reserve_mapped_lengths. rewrite Heq. f_equal. eapply balanced_unique; eauto.
Qed.

(** ** Other methods *)

Lemma poison_balanced sh held : balanced sh held -> balanced (ResourceOwner_poison sh) held.
Proof.
  intros []. unfold ResourceOwner_poison. cbn. destruct (_ =? ACTIVE); constructor; cbn; auto.
Qed.

Lemma complete_balanced lease actual sh held r sh' :
  balanced sh (lease :: held) -> LeaseReservation_complete lease actual sh = (r, sh') ->
  match r with
  | Ok b => b = lease /\ lease = actual /\ sr_state sh = ACTIVE /\ sh' = sh
  | Err _ => balanced sh' held
  | Panic => False
  end.
Proof.
  intros Hbal H. pose proof (drop_balanced _ _ _ Hbal) as Hd. destruct Hbal.
  unfold LeaseReservation_complete in H. destruct (lease =? actual) eqn:E; cbn [negb] in H.
  - apply Z.eqb_eq in E. unfold RegionLease_state, decode_state in H.
    destruct bal_state0 as [Hs|[Hs|Hs]]; rewrite Hs in H; cbn in H; injection H as <- <-; auto.
  - injection H as <- <-. done.
Qed.

(** ** Witness *)

Definition four_region_limits : SharedResources :=
  {| sr_state := ACTIVE; sr_active_regions := 1; sr_active_bytes := 4096;
     sr_maximum_regions := 4; sr_maximum_bytes := 16384 |}.

Lemma four_balanced : balanced four_region_limits [4096].
Proof. constructor; vm_compute; auto; try (split; reflexivity); congruence. Qed.

Lemma reserve_batch_exact_witness :
  (exists e, reserve_mapped_lengths [4096; 4096; 8192] four_region_limits = (Err e, four_region_limits)) /\
  (exists sh', reserve_mapped_lengths [4096; 8192] four_region_limits = (Ok [4096; 8192], sh')).
Proof.
  split.
  - apply (reserve_batch_exact four_region_limits [4096]);
      [apply four_balanced|repeat constructor; lia|].
    intros (_ & _ & H & _). vm_compute in H. congruence.
  - destruct (reserve_batch_exact four_region_limits [4096] [4096; 8192]) as [H _];
      [apply four_balanced|repeat constructor; lia|].
    destruct H as (sh' & H & _); [|exists sh'; exact H].
    split; [repeat constructor; lia|]. split; [now right|]. split; vm_compute; congruence.
Defined.
