(* ===== verification/Region.v ===== *)
(** * Region: private and prepared regions ([native-ipc/src/memory.rs], [region.rs])

    The life of a region before it is shared: allocation under a growth and a
    cleanup policy, initialisation, replacement growth, clearing, and the
    consuming preparation that attaches its identity. A mapping is its bytes.
    [PlatformMemory] stands for the backend's quiescent mappings and random
    source; unmapping hands the mapping's last contents back to the system, so
    that what cleanup leaves behind can be stated. *)

From S2P Require Import Prelude Manifest.

(** ** Policies ([memory.rs]) *)

Inductive WriterOwner := Creator | Peer.
Inductive MemoryAccess := AccessReadOnly | AccessReadWrite.

(** [writer as u32]. *)
Definition WriterOwner_raw (w : WriterOwner) : Z := match w with Creator => 0 | Peer => 1 end.

(** A [PermissionPlan] is its writer. *)
Definition creator_access (plan : WriterOwner) : MemoryAccess :=
  match plan with Creator => AccessReadWrite | Peer => AccessReadOnly end.
Definition peer_access (plan : WriterOwner) : MemoryAccess :=
  match plan with Creator => AccessReadOnly | Peer => AccessReadWrite end.

Inductive GrowthPolicy := Fixed | ReplaceBeforeShare (maximum_len : Z).
Inductive CleanupPolicy := ReleaseOnDrop | ClearThenRelease.

#[export] Instance CleanupPolicy_eq_dec : EqDecision CleanupPolicy.
Proof. solve_decision. Defined.

(** [memory::RegionOptions]; the seal policy has one value. *)
Record MemoryOptions := {
  mo_logical_len : Z;
  mo_growth : GrowthPolicy;
  mo_cleanup : CleanupPolicy;
  mo_permissions : WriterOwner
}.

Definition MemoryOptions_fixed (logical_len : Z) (writer : WriterOwner) : MemoryOptions :=
  {| mo_logical_len := logical_len; mo_growth := Fixed; mo_cleanup := ClearThenRelease;
     mo_permissions := writer |}.
Definition MemoryOptions_growable (logical_len maximum_len : Z) (writer : WriterOwner)
  : MemoryOptions :=
  {| mo_logical_len := logical_len; mo_growth := ReplaceBeforeShare maximum_len;
     mo_cleanup := ClearThenRelease; mo_permissions := writer |}.
Definition with_cleanup (self : MemoryOptions) (cleanup : CleanupPolicy) : MemoryOptions :=
  {| mo_logical_len := mo_logical_len self; mo_growth := mo_growth self; mo_cleanup := cleanup;
     mo_permissions := mo_permissions self |}.

Definition MemoryOptions_maximum_len (self : MemoryOptions) : Z :=
  match mo_growth self with
  | Fixed => mo_logical_len self
  | ReplaceBeforeShare maximum_len => maximum_len
  end.

Inductive MemoryError :=
| MemoryError_ZeroLength
| MemoryError_MaximumBelowInitial (initial maximum : Z)
| MemoryError_FixedSize
| MemoryError_ShrinkUnsupported (current requested : Z)
| MemoryError_MaximumExceeded (requested maximum : Z)
| MemoryError_Platform
| MemoryError_RandomnessUnavailable.

Definition validate_options (options : MemoryOptions) : res MemoryError unit :=
  if mo_logical_len options =? 0 then Err MemoryError_ZeroLength else
  let maximum := MemoryOptions_maximum_len options in
  if maximum <? mo_logical_len options
  then Err (MemoryError_MaximumBelowInitial (mo_logical_len options) maximum) else
  Ok tt.

(** ** The backend's mappings *)

Class PlatformMemory (T : Type) := {
  quiescent_new : Z -> T -> option bytes * T;
  quiescent_release : bytes -> T -> T;
  mint_incarnation : T -> option bytes * T
}.

(** What [PlatformQuiescentRegion::new] and [mint_incarnation] promise. *)
Class PlatformMemoryLaws (T : Type) {P : PlatformMemory T} := {
  quiescent_zeroed : forall n t m t', quiescent_new n t = (Some m, t') ->
    m = zeros (len m) /\ n <= len m /\ usize (len m);
  incarnation_fresh : forall t i t', mint_incarnation t = (Some i, t') ->
    len i = 16 /\ i <> zeros 16
}.

(** ** Managed regions *)

Record NativeRegion := {
  nr_inner : option bytes;
  nr_logical_len : Z;
  nr_options : MemoryOptions
}.

Record NativeShareRequest := {
  sq_inner : option bytes;
  sq_incarnation : bytes;
  sq_logical_len : Z;
  sq_permissions : WriterOwner;
  sq_cleanup : CleanupPolicy
}.

(** [clear_mapping]: a volatile zero to every byte. *)
Definition clear_mapping (region : bytes) : bytes := map (fun _ => x00) region.

Definition release_inner {T} `{PlatformMemory T} (inner : option bytes) (clear : bool) (t : T) : T :=
  match inner with
  | Some m => quiescent_release (if clear then clear_mapping m else m) t
  | None => t
  end.

Definition clears (cleanup : CleanupPolicy) : bool := bool_decide (cleanup = ClearThenRelease).

Section Lifecycle.
Context {T : Type} {P : PlatformMemory T}.

Definition NativeRegion_allocate (options : MemoryOptions) : stm T MemoryError NativeRegion :=
  let! _ := slift (validate_options options) in
  fun t => match quiescent_new (mo_logical_len options) t with
           | (Some inner, t) =>
               (Ok {| nr_inner := Some inner; nr_logical_len := mo_logical_len options;
                      nr_options := options |}, t)
           | (None, t) => (Err MemoryError_Platform, t)
           end.

(** [initialize]: the closure runs on the logical bytes only. *)
Definition NativeRegion_initialize {R} (operation : stm bytes MemoryError R)
  : stm NativeRegion MemoryError R :=
  fun self => match nr_inner self with
              | None => (Panic, self)
              | Some m =>
                  let '(r, m) := on_range 0 (nr_logical_len self) operation m in
                  (r, {| nr_inner := Some m; nr_logical_len := nr_logical_len self;
                         nr_options := nr_options self |})
              end.

Definition NativeRegion_clear : stm NativeRegion MemoryError unit :=
  fun self => match nr_inner self with
              | None => (Panic, self)
              | Some m => (Ok tt, {| nr_inner := Some (clear_mapping m);
                                     nr_logical_len := nr_logical_len self;
                                     nr_options := nr_options self |})
              end.

Definition NativeRegion_grow (requested : Z) : stm (NativeRegion * T) MemoryError unit :=
  let! both := sget in
  let self := fst both in
  if requested =? 0 then serr MemoryError_ZeroLength else
  if requested <? nr_logical_len self
  then serr (MemoryError_ShrinkUnsupported (nr_logical_len self) requested) else
  if requested =? nr_logical_len self then sret tt else
  let! maximum := match mo_growth (nr_options self) with
                  | Fixed => serr MemoryError_FixedSize
                  | ReplaceBeforeShare maximum_len => sret maximum_len
                  end in
  if maximum <? requested then serr (MemoryError_MaximumExceeded requested maximum) else
  fun '(self, t) =>
  match quiescent_new requested t with
  | (None, t) => (Err MemoryError_Platform, (self, t))
  | (Some replacement, t) =>
      match (let? inner := expect (nr_inner self) in
             let? kept := index_range inner 0 (nr_logical_len self) in
             let? replacement := copy_range replacement 0 (nr_logical_len self) kept in
             Ok (inner, replacement)) with
      | Ok (previous, replacement) =>
          (Ok tt, ({| nr_inner := Some replacement; nr_logical_len := requested;
                      nr_options := nr_options self |},
                   release_inner (Some previous) (clears (mo_cleanup (nr_options self))) t))
      | Err e => (Err e, (self, t))
      | Panic => (Panic, (self, t))
      end
  end.

(** [release], run by [close] and by [Drop]. *)
Definition NativeRegion_release (self : NativeRegion) (t : T) : T :=
  release_inner (nr_inner self) (clears (mo_cleanup (nr_options self))) t.

(** [destroy] clears whatever the policy. *)
Definition NativeRegion_destroy (self : NativeRegion) (t : T) : T := release_inner (nr_inner self) true t.

(** The consuming transition: on an error the region is dropped, after a
    success only its moved-out shell is. *)
Definition prepare_for_sharing (self : NativeRegion) : stm T MemoryError NativeShareRequest :=
  fun t => match mint_incarnation t with
           | (Some incarnation, t) =>
               (Ok {| sq_inner := nr_inner self; sq_incarnation := incarnation;
                      sq_logical_len := nr_logical_len self;
                      sq_permissions := mo_permissions (nr_options self);
                      sq_cleanup := mo_cleanup (nr_options self) |}, t)
           | (None, t) => (Err MemoryError_RandomnessUnavailable, NativeRegion_release self t)
           end.

Definition prepare_with_writer (self : NativeRegion) (writer : WriterOwner)
  : stm T MemoryError NativeShareRequest :=
  prepare_for_sharing
    {| nr_inner := nr_inner self; nr_logical_len := nr_logical_len self;
       nr_options := {| mo_logical_len := mo_logical_len (nr_options self);
                        mo_growth := mo_growth (nr_options self);
                        mo_cleanup := mo_cleanup (nr_options self); mo_permissions := writer |} |}.

Definition NativeShareRequest_release (self : NativeShareRequest) (t : T) : T :=
  release_inner (sq_inner self) (clears (sq_cleanup self)) t.
Definition NativeShareRequest_destroy (self : NativeShareRequest) (t : T) : T :=
  release_inner (sq_inner self) true t.

End Lifecycle.

Definition NativeShareRequest_mapped_len {E} (self : NativeShareRequest) : res E Z :=
  let? inner := expect (sq_inner self) in Ok (len inner).

Definition native_spec (self : NativeShareRequest) (region_id : Z) : res unit NativeRegionSpec :=
  let? mapped_len := NativeShareRequest_mapped_len self in
  ok_or (NativeRegionSpec_new region_id (sq_incarnation self) (WriterOwner_raw (sq_permissions self))
                              (sq_logical_len self) mapped_len) tt.

(** ** The public states ([region.rs]) *)

(** A [RegionId] is its number. *)
Definition RegionId_new (value : Z) : option Z := if value =? 0 then None else Some value.

Inductive WriterEndpoint := CoordinatorWrites | ReceiverWrites.
Inductive GuardPolicy := BestEffort | Require | Disable.

#[export] Instance WriterEndpoint_eq_dec : EqDecision WriterEndpoint.
Proof. solve_decision. Defined.
#[export] Instance GuardPolicy_eq_dec : EqDecision GuardPolicy.
Proof. solve_decision. Defined.

Record RegionSpec := { rs_id : Z; rs_writer : WriterEndpoint }.
Record GuardCapability := { gc_requested : GuardPolicy; gc_installed : bool }.

(** [region::RegionOptions]. *)
Record RegionOptions := { ro_logical_len : Z; ro_maximum_len : Z; ro_guard : GuardPolicy }.

Record PrivateRegion := { pr_inner : NativeRegion; pr_guard : GuardPolicy }.
Record PreparedRegion := { pp_request : NativeShareRequest; pp_spec : RegionSpec; pp_guard : GuardCapability }.

(** [RegionError::Memory] is the only error of these functions. *)
Definition PrivateRegion_allocate {T} `{PlatformMemory T} (options : RegionOptions)
  : stm T MemoryError PrivateRegion :=
  let native :=
    if ro_maximum_len options =? ro_logical_len options
    then MemoryOptions_fixed (ro_logical_len options) Creator
    else MemoryOptions_growable (ro_logical_len options) (ro_maximum_len options) Creator in
  let! inner := NativeRegion_allocate native in
  sret {| pr_inner := inner; pr_guard := ro_guard options |}.

Definition PrivateRegion_prepare {T} `{PlatformMemory T} (self : PrivateRegion) (spec : RegionSpec)
  : stm T MemoryError PreparedRegion :=
  let writer := match rs_writer spec with CoordinatorWrites => Creator | ReceiverWrites => Peer end in
  let! request := prepare_with_writer (pr_inner self) writer in
  sret {| pp_request := request; pp_spec := spec;
          pp_guard := {| gc_requested := pr_guard self; gc_installed := false |} |}.

(** ** Invariant of a managed region *)

(** An initialisation closure: arbitrary, but a slice keeps its length. *)
Record SliceOp := { so_run : bytes -> bytes; so_len : forall s, len (so_run s) = len s }.

Inductive RegionOp :=
| OpInitialize (f : SliceOp)
| OpClear
| OpGrow (requested : Z).

Definition on_region {T A} (m : stm NativeRegion MemoryError A) : stm (NativeRegion * T) MemoryError A :=
  fun '(self, t) => let '(r, self) := m self in (r, (self, t)).

Definition run_region_op {T} `{PlatformMemory T} (op : RegionOp) : stm (NativeRegion * T) MemoryError unit :=
  match op with
  | OpInitialize f => on_region (NativeRegion_initialize (smodify (so_run f)))
  | OpClear => on_region NativeRegion_clear
  | OpGrow requested => NativeRegion_grow requested
  end.

(** Failed operations leave a region that can be used on. *)
Fixpoint run_region_ops {T} `{PlatformMemory T} (ops : list RegionOp) (s : NativeRegion * T)
  : NativeRegion * T :=
  match ops with
  | [] => s
  | op :: ops => run_region_ops ops (snd (run_region_op op s))
  end.

Record region_ok (self : NativeRegion) (m : bytes) : Prop := {
  rok_inner : nr_inner self = Some m;
  rok_logical : 0 < nr_logical_len self <= len m;
  rok_usize : usize (len m);
  rok_maximum : nr_logical_len self <= MemoryOptions_maximum_len (nr_options self);
  rok_padding : slice m (nr_logical_len self) (len m) = zeros (len m - nr_logical_len self)
}.

Lemma clear_mapping_zeros m : clear_mapping m = zeros (len m).
Proof.
  unfold clear_mapping, zeros, len. rewrite Nat2Z.id. induction m as [|b m IH]; [done|]. cbn. now rewrite IH.
Qed.

Lemma slice_zeros_tail n a : 0 <= a <= n -> slice (zeros n) a n = zeros (n - a).
Proof. intros. apply slice_zeros; lia. Qed.

Section RegionInvariant.
Context {T : Type} {P : PlatformMemory T} {L : PlatformMemoryLaws T}.

Lemma allocate_ok options t self t' :
  0 <= mo_logical_len options ->
  NativeRegion_allocate options t = (Ok self, t') ->
  exists m, region_ok self m /\ m = zeros (len m) /\ nr_options self = options.
Proof.
  unfold NativeRegion_allocate, validate_options. intros Hnn H.
  destruct (_ =? 0) eqn:E1; [discriminate|]. cbn zeta in H. destruct (_ <? _) eqn:E2; [discriminate|].
  bsplit. rewrite (sbind_Ok _ _ _ tt t) in H by done.
  destruct (quiescent_new _ t) as [[m|] t1] eqn:Hq; [|discriminate]. injection H as <- <-.
  apply quiescent_zeroed in Hq as (Hz & Hle & Hu). exists m. split_and!; [|done|done].
  constructor; cbn; try done; try lia. rewrite Hz at 1. apply slice_zeros_tail. lia.
Qed.

Lemma initialize_ok self m f self' r :
  region_ok self m -> NativeRegion_initialize (smodify (so_run f)) self = (r, self') ->
  let n := nr_logical_len self in
  r = Ok tt /\ nr_options self' = nr_options self /\ nr_logical_len self' = n /\
  region_ok self' (splice m 0 (so_run f (slice m 0 n))).
Proof.
  intros [] H n. unfold NativeRegion_initialize in H. rewrite rok_inner0 in H.
  fold n in H. assert (Hl : len (so_run f (slice m 0 n)) = n).
  { rewrite so_len, len_slice; lia. }
  rewrite on_range_ok in H by lia. cbn in H. injection H as <- <-. cbn. split_and!; try done.
  constructor; cbn; rewrite ?len_splice; try done; try lia.
  rewrite slice_splice_disjoint by (rewrite ?Hl; lia). exact rok_padding0.
Qed.

Lemma clear_ok self m self' r :
  region_ok self m -> NativeRegion_clear self = (r, self') ->
  r = Ok tt /\ nr_options self' = nr_options self /\ nr_logical_len self' = nr_logical_len self /\
  region_ok self' (zeros (len m)).
Proof.
  intros [] H. unfold NativeRegion_clear in H. rewrite rok_inner0, clear_mapping_zeros in H.
  injection H as <- <-. cbn. split_and!; try done. pose proof (len_nonneg m).
  constructor; cbn; rewrite ?len_zeros by lia; try done. apply slice_zeros_tail. lia.
Qed.

(** The contents after a successful [grow]: the old logical bytes, then zeros. *)
Definition grown (self : NativeRegion) (m m' : bytes) (requested : Z) : Prop :=
  let n := nr_logical_len self in
  slice m' 0 n = slice m 0 n /\ slice m' n (len m') = zeros (len m' - n) /\ requested <= len m'.

Lemma grow_replaces self m t requested maximum replacement t1 :
  region_ok self m -> nr_logical_len self < requested ->
  mo_growth (nr_options self) = ReplaceBeforeShare maximum -> requested <= maximum ->
  quiescent_new requested t = (Some replacement, t1) ->
  exists m', NativeRegion_grow requested (self, t) =
      (Ok tt, ({| nr_inner := Some m'; nr_logical_len := requested; nr_options := nr_options self |},
               quiescent_release (if clears (mo_cleanup (nr_options self)) then zeros (len m) else m) t1)) /\
    grown self m m' requested /\
    region_ok {| nr_inner := Some m'; nr_logical_len := requested; nr_options := nr_options self |} m'.
Proof.
  intros [] Hlt Hg Hmax Hq. pose proof (quiescent_zeroed _ _ _ _ Hq) as (Hz & Hle & Hu).
  set (n := nr_logical_len self) in *. exists (splice replacement 0 (slice m 0 n)).
  assert (Hl : len (slice m 0 n) = n) by (rewrite len_slice; lia).
  assert (Htail : forall a, n <= a <= len replacement ->
            slice (splice replacement 0 (slice m 0 n)) a (len replacement) = zeros (len replacement - a)).
  { intros a Ha. rewrite slice_splice_disjoint by lia. rewrite Hz at 1. apply slice_zeros_tail. lia. }
  split_and!.
  - unfold NativeRegion_grow. rewrite (sbind_Ok _ _ _ (self, t) (self, t)) by done. cbn [fst]. fold n.
    replace (requested =? 0) with false by lia. replace (requested <? n) with false by lia.
    replace (requested =? n) with false by lia.
    rewrite Hg, (sbind_Ok _ _ _ maximum (self, t)) by done.
    replace (maximum <? requested) with false by lia. rewrite Hq, rok_inner0. cbn [expect rbind].
    fold n. rewrite index_range_ok by lia. cbn [rbind]. rewrite copy_range_ok by lia. cbn [rbind release_inner].
    rewrite clear_mapping_zeros. done.
  - unfold grown. fold n. rewrite len_splice. split_and!; [|apply Htail; lia|lia].
    rewrite slice_splice_eq; [done|lia|lia|lia|lia].
  - constructor; cbn; rewrite ?len_splice; try done; try lia; [|apply Htail; lia].
    unfold MemoryOptions_maximum_len. now rewrite Hg.
Qed.

Lemma grow_ok self m t requested r self' t' :
  region_ok self m -> NativeRegion_grow requested (self, t) = (r, (self', t')) ->
  nr_options self' = nr_options self /\
  match r with
  | Ok _ => exists m', region_ok self' m' /\ nr_logical_len self' = requested /\
              (requested = nr_logical_len self /\ m' = m \/
               nr_logical_len self < requested /\ grown self m m' requested)
  | Err _ => self' = self
  | Panic => False
  end.
Proof.
  intros Hok H. pose proof Hok as []. unfold NativeRegion_grow in H.
  rewrite (sbind_Ok _ _ _ (self, t) (self, t)) in H by done. cbn [fst] in H.
  destruct (requested =? 0) eqn:E1; [injection H as <- <- <-; done|].
  destruct (requested <? _) eqn:E2; [injection H as <- <- <-; done|].
  destruct (requested =? nr_logical_len self) eqn:E3.
  { injection H as <- <- <-. bsplit. split; [done|]. exists m. split; [done|]. auto. }
  destruct (mo_growth (nr_options self)) as [|maximum] eqn:Hg; [injection H as <- <- <-; done|].
  rewrite (sbind_Ok _ _ _ maximum (self, t)) in H by done.
  destruct (maximum <? requested) eqn:E4; [injection H as <- <- <-; done|]. bsplit.
  destruct (quiescent_new requested t) as [[replacement|] t1] eqn:Hq; [|injection H as <- <- <-; done].
  destruct (grow_replaces self m t requested maximum replacement t1) as (m' & Hrun & Hgrown & Hok');
    [done|lia|done|lia|done|].
  unfold NativeRegion_grow in Hrun. rewrite (sbind_Ok _ _ _ (self, t) (self, t)) in Hrun by done.
  cbn [fst] in Hrun. rewrite (proj2 (Z.eqb_neq _ _)) in Hrun by done.
  rewrite (proj2 (Z.ltb_ge _ _)) in Hrun by lia. rewrite (proj2 (Z.eqb_neq _ _)) in Hrun by done.
  rewrite Hg, (sbind_Ok _ _ _ maximum (self, t)) in Hrun by done.
  rewrite (proj2 (Z.ltb_ge _ _)) in Hrun by lia. rewrite Hq in Hrun. rewrite Hrun in H.
  injection H as <- <- <-. split; [done|]. exists m'. split_and!; [done|done|]. right. split; [lia|done].
Qed.

Lemma ops_ok ops : forall self m t,
  region_ok self m ->
  exists m', region_ok (fst (run_region_ops ops (self, t))) m' /\
    nr_options (fst (run_region_ops ops (self, t))) = nr_options self.
Proof.
  induction ops as [|op ops IH]; intros self m t Hok; [now exists m|]. cbn [run_region_ops].
  destruct (run_region_op op (self, t)) as [r [self1 t1]] eqn:H. cbn [snd].
  assert (Hstep : exists m1, region_ok self1 m1 /\ nr_options self1 = nr_options self).
  { destruct op as [f| |n]; cbn [run_region_op] in H.
    - unfold on_region in H. destruct (NativeRegion_initialize _ self) as [r' s'] eqn:H1.
      injection H as <- <- <-. destruct (initialize_ok _ _ _ _ _ Hok H1) as (_ & Ho & _ & Hok1). eauto.
    - unfold on_region in H. destruct (NativeRegion_clear self) as [r' s'] eqn:H1.
      injection H as <- <- <-. destruct (clear_ok _ _ _ _ Hok H1) as (_ & Ho & _ & Hok1). eauto.
    - destruct (grow_ok _ _ _ _ _ _ _ Hok H) as [Ho Hr]. destruct r as [a|e|]; [|subst; eauto|done].
      destruct Hr as (m1 & Hok1 & _). eauto. }
  destruct Hstep as (m1 & Hok1 & Ho1). destruct (IH self1 m1 t1 Hok1) as (m' & Hok' & Ho').
  exists m'. split; [done|congruence].
Qed.

End RegionInvariant.

(** ** What a prepared region carries *)

Definition writer_owner (w : WriterEndpoint) : WriterOwner :=
  match w with CoordinatorWrites => Creator | ReceiverWrites => Peer end.

Record prepared_ok (p : PreparedRegion) (m : bytes) : Prop := {
  pok_inner : sq_inner (pp_request p) = Some m;
  pok_logical : 0 < sq_logical_len (pp_request p) <= len m;
  pok_usize : usize (len m);
  pok_incarnation : len (sq_incarnation (pp_request p)) = 16 /\ sq_incarnation (pp_request p) <> zeros 16;
  pok_writer : sq_permissions (pp_request p) = writer_owner (rs_writer (pp_spec p))
}.

Lemma private_prepare_ok {T} `{PlatformMemoryLaws T} self m spec t p t' :
  region_ok (pr_inner self) m -> PrivateRegion_prepare self spec t = (Ok p, t') ->
  prepared_ok p m /\ pp_spec p = spec /\
  pp_guard p = {| gc_requested := pr_guard self; gc_installed := false |}.
Proof.
  intros [] Hp. unfold PrivateRegion_prepare, prepare_with_writer, prepare_for_sharing in Hp.
  unfold sbind in Hp. destruct (mint_incarnation t) as [[i|] t1] eqn:Hm; [|discriminate].
  injection Hp as <- <-. cbn. apply incarnation_fresh in Hm. split_and!; try done.
Qed.

(** A private region never exposes stale bytes. After any sequence of
    initialisations, clears and growths, failed ones included, the region owns
    a mapping at least as long as its logical bytes and within its growth
    limit, and the padding beyond them is zero; a growth keeps the logical
    bytes and extends them with zeros or leaves the region as it was; and what
    is handed back to the system is all zero, under the clearing policy for
    every release and always for [destroy]. *)
Theorem region_lifecycle {T} `{PlatformMemoryLaws T} options (t t' : T) self ops :
  0 <= mo_logical_len options -> NativeRegion_allocate options t = (Ok self, t') ->
  let s := run_region_ops ops (self, t') in
  exists m, region_ok (fst s) m /\
    (forall requested r self2 t2, NativeRegion_grow requested s = (r, (self2, t2)) ->
       match r with
       | Ok _ => exists m', nr_inner self2 = Some m' /\ slice m' 0 (nr_logical_len (fst s))
                            = slice m 0 (nr_logical_len (fst s)) /\
                   nr_logical_len self2 = requested /\
                   slice m' (nr_logical_len (fst s)) (len m') = zeros (len m' - nr_logical_len (fst s))
       | Err _ => self2 = fst s
       | Panic => False
       end) /\
    (forall t2, mo_cleanup options = ClearThenRelease ->
       NativeRegion_release (fst s) t2 = quiescent_release (zeros (len m)) t2) /\
    (forall t2, NativeRegion_destroy (fst s) t2 = quiescent_release (zeros (len m)) t2).
Proof.
  intros Hnn Ha s. destruct (allocate_ok _ _ _ _ Hnn Ha) as (m0 & Hok0 & _ & Ho).
  destruct (ops_ok ops self m0 t' Hok0) as (m & Hok & Ho'). fold s in Hok, Ho'. exists m. split; [done|].
  pose proof (rok_inner _ _ Hok) as Hin. split_and!.
  - intros requested r self2 t2 Hg. destruct s as [self1 t1]. cbn [fst] in *.
    destruct (grow_ok _ _ _ _ _ _ _ Hok Hg) as [_ Hr]. destruct r as [a|e|]; [|done|done].
    destruct Hr as (m' & Hok' & Hl & [[E Em]|[_ (H1 & H2 & _)]]); exists m'; split_and!;
      try done; try apply Hok'; subst m'; try done; apply Hok.
  - intros t2 Hc. unfold NativeRegion_release. rewrite Hin, Ho', Ho. unfold clears.
    rewrite (bool_decide_eq_true_2 _ Hc). cbn. now rewrite clear_mapping_zeros.
  - intros t2. unfold NativeRegion_destroy. rewrite Hin. cbn. now rewrite clear_mapping_zeros.
Qed.

(** ** A concrete backend

    Pages of 4096 bytes, an unlimited system that keeps what was released, and
    a counter for a random source. *)

Record ToySystem := { toy_released : list bytes; toy_minted : Z }.

#[export] Instance ToyMemory : PlatformMemory ToySystem := {
  quiescent_new := fun n t =>
    if (0 <? n) && (n <=? 2 ^ 30) then (Some (zeros ((n + 4095) / 4096 * 4096)), t) else (None, t);
  quiescent_release := fun m t => {| toy_released := toy_released t ++ [m]; toy_minted := toy_minted t |};
  mint_incarnation := fun t =>
    (Some (x01 :: le_bytes 15 (toy_minted t)),
     {| toy_released := toy_released t; toy_minted := toy_minted t + 1 |})
}.

#[export] Instance ToyMemoryLaws : PlatformMemoryLaws ToySystem.
Proof.
  constructor.
  - intros n t m t' H. cbn in H. destruct (_ && _) eqn:E; [|discriminate]. bsplit. injection H as <- <-.
    assert (0 <= (n + 4095) / 4096) by (apply Z.div_pos; lia).
    pose proof (Z.mod_pos_bound (n + 4095) 4096). pose proof (Z_div_mod_eq_full (n + 4095) 4096).
    rewrite len_zeros by lia. split_and!; [done|lia|ulia].
  - intros t i t' H. cbn [mint_incarnation ToyMemory] in H. injection H as <- <-.
    split; [|intros H; discriminate H]. rewrite len_cons, len_le_bytes. reflexivity.
Qed.

Definition toy0 : ToySystem := {| toy_released := []; toy_minted := 0 |}.

Definition write_seven : SliceOp.
Proof. exists (fun s => map (fun _ => x07) s). intros s. unfold len. now rewrite length_map. Defined.

Definition grown_region : NativeRegion * ToySystem :=
  let s := NativeRegion_allocate (MemoryOptions_growable 3 8 Creator) toy0 in
  match fst s with
  | Ok self => run_region_ops [OpInitialize write_seven; OpGrow 20; OpGrow 5] (self, snd s)
  | _ => ({| nr_inner := None; nr_logical_len := 0; nr_options := MemoryOptions_fixed 0 Creator |}, snd s)
  end.

Lemma region_lifecycle_witness :
  exists m, region_ok (fst grown_region) m /\ slice m 0 6 = [x07; x07; x07; x00; x00; x00] /\
    toy_released (NativeRegion_release (fst grown_region) (snd grown_region)) = [zeros 4096; zeros 4096].
Proof.
  destruct (region_lifecycle (MemoryOptions_growable 3 8 Creator) toy0 toy0
              {| nr_inner := Some (zeros 4096); nr_logical_len := 3;
                 nr_options := MemoryOptions_growable 3 8 Creator |}
              [OpInitialize write_seven; OpGrow 20; OpGrow 5]) as (m & Hm & _ & Hr & _);
    [cbn; lia|vm_compute; reflexivity|].
  exists m. split; [exact Hm|]. pose proof (rok_inner _ _ Hm) as Hi. vm_compute in Hi. injection Hi as Hi.
  split; [rewrite <- Hi; vm_compute; reflexivity|]. vm_compute. reflexivity.
Defined.
