(* ===== verification/Active.v ===== *)
(** * Active: runtime mappings after commit ([native-ipc/src/active.rs], [binding.rs])

    An [ActiveReader] or [ActiveWriter] is a uniquely owned native mapping with
    the lease it is charged to. Each access first reads the session's liveness
    through the lease, then checks its range against the logical length, then
    runs the byte loop of [external_memory.c]. The native owner (a boxed trait
    object) is the record of the values its methods return, which its contract
    requires to be stable; the memory behind it is any [Loads] or [Stores]. The
    session's shared atomics are an argument: an access sees the value at its
    call boundary. *)

From S2P Require Import Prelude Layout Memory Mapping Reader Liveness Resources Region.

(** ** Errors and owners *)

Inductive AccessError := AccessError_OutOfBounds | AccessError_InvalidRange | AccessError_SessionInactive.

Inductive ActivationError :=
| ActivationError_Access (e : AccessError)
| ActivationError_Resource (e : ResourceError)
| ActivationError_MappingLengthOverflow.

Record PrefaultResult := { pf_requested_bytes : Z; pf_pages_touched : Z }.

(** [ActiveReadOwner] and [ActiveWriteOwner]. *)
Record ReadOwner := {
  rdo_as_ptr : Z;
  rdo_len : Z;
  rdo_page_size : Z;
  rdo_guard_installed : bool
}.
Record WriteOwner := { wro_read : ReadOwner; wro_as_mut_ptr : Z }.

(** The lease is that of [LeasedReadOwner] or [LeasedWriteOwner]; an owner
    without one reports no liveness. *)
Record ActiveReader := {
  rd_owner : ReadOwner;
  rd_lease : option Z;
  rd_logical_len : Z;
  rd_guard_requested : GuardPolicy
}.
Record ActiveWriter := {
  wt_owner : WriteOwner;
  wt_lease : option Z;
  wt_logical_len : Z;
  wt_guard_requested : GuardPolicy
}.

Definition liveness_state (lease : option Z) (sh : SharedResources)
  : res AccessError (option LivenessState) :=
  match lease with
  | None => Ok None
  | Some _ => match RegionLease_state sh with
              | Ok s => Ok (Some s)
              | _ => Panic
              end
  end.

(** [ensure_active] of readers and writers. *)
Definition Active_ensure_active (lease : option Z) (sh : SharedResources) : res AccessError unit :=
  let? state := liveness_state lease sh in
  match state with
  | None | Some Active => Ok tt
  | Some Poisoned | Some Closed => Err AccessError_SessionInactive
  end.

(** ** Ranges *)

Definition checked_end (offset length limit : Z) : res AccessError Z :=
  let? stop := ok_or (checked_add USIZE_MAX offset length) AccessError_OutOfBounds in
  if limit <? stop then Err AccessError_OutOfBounds else Ok stop.

Definition validate_range (start stop limit : Z) : res AccessError unit :=
  if stop <? start then Err AccessError_InvalidRange else
  checked_end start (stop - start) limit >>? Ok tt.

(** ** Construction *)

Definition reader_from_owner (owner : ReadOwner) (logical_len : Z) : res AccessError ActiveReader :=
  if (logical_len =? 0) || (rdo_len owner <? logical_len) || (rdo_page_size owner =? 0)
     || negb (rdo_as_ptr owner mod rdo_page_size owner =? 0)
  then Err AccessError_OutOfBounds
  else Ok {| rd_owner := owner; rd_lease := None; rd_logical_len := logical_len;
             rd_guard_requested := BestEffort |}.

Definition writer_from_owner (owner : WriteOwner) (logical_len : Z) : res AccessError ActiveWriter :=
  if (logical_len =? 0) || (rdo_len (wro_read owner) <? logical_len)
     || (rdo_page_size (wro_read owner) =? 0)
     || negb (rdo_as_ptr (wro_read owner) mod rdo_page_size (wro_read owner) =? 0)
     || negb (rdo_as_ptr (wro_read owner) =? wro_as_mut_ptr owner)
  then Err AccessError_OutOfBounds
  else Ok {| wt_owner := owner; wt_lease := None; wt_logical_len := logical_len;
             wt_guard_requested := BestEffort |}.

(** [new_leased] consumes the reservation: it becomes the mapping's lease, or it
    is dropped on the way out. *)
Definition ActiveReader_new_leased (owner : ReadOwner) (logical_len reservation : Z)
  (guard_requested : GuardPolicy) : stm SharedResources ActivationError ActiveReader :=
  match reader_from_owner owner logical_len with
  | Err e => fun sh => (Err (ActivationError_Access e), drop_lease reservation sh)
  | Panic => slift Panic
  | Ok active =>
      match try_from U64_MAX (rdo_len owner) with
      | None => fun sh => (Err ActivationError_MappingLengthOverflow, drop_lease reservation sh)
      | Some mapped_len =>
          let! lease := smap_err ActivationError_Resource (LeaseReservation_complete reservation mapped_len) in
          sret {| rd_owner := rd_owner active; rd_lease := Some lease;
                  rd_logical_len := rd_logical_len active; rd_guard_requested := guard_requested |}
      end
  end.

Definition ActiveWriter_new_leased (owner : WriteOwner) (logical_len reservation : Z)
  (guard_requested : GuardPolicy) : stm SharedResources ActivationError ActiveWriter :=
  match writer_from_owner owner logical_len with
  | Err e => fun sh => (Err (ActivationError_Access e), drop_lease reservation sh)
  | Panic => slift Panic
  | Ok active =>
      match try_from U64_MAX (rdo_len (wro_read owner)) with
      | None => fun sh => (Err ActivationError_MappingLengthOverflow, drop_lease reservation sh)
      | Some mapped_len =>
          let! lease := smap_err ActivationError_Resource (LeaseReservation_complete reservation mapped_len) in
          sret {| wt_owner := wt_owner active; wt_lease := Some lease;
                  wt_logical_len := wt_logical_len active; wt_guard_requested := guard_requested |}
      end
  end.

(** [Drop] of [LeasedReadOwner] and [LeasedWriteOwner]: the mapping goes first,
    then the charge. *)
Definition drop_active_lease (lease : option Z) (sh : SharedResources) : SharedResources :=
  match lease with Some b => drop_lease b sh | None => sh end.

Definition reader_guard_capability (self : ActiveReader) : GuardCapability :=
  {| gc_requested := rd_guard_requested self; gc_installed := rdo_guard_installed (rd_owner self) |}.

(** ** Accesses *)

Section Access.
Context {M S : Type} `{Loads M S}.

(** The destination is part of the state. *)
Definition read_into (self : ActiveReader) (sh : SharedResources) (m : M) (offset : Z)
  : stm (S * bytes) AccessError unit :=
  let! _ := slift (Active_ensure_active (rd_lease self) sh) in
  let! both := sget in
  let! _ := slift (checked_end offset (len (snd both)) (rd_logical_len self)) in
  let! copied := with_memory (volatile_copy m offset (length (snd both))) in
  smodify (fun '(s, d) => (s, splice d 0 copied)).

(** The page loop: one volatile load per iteration. [fuel] bounds the number of
    iterations; [prefault_read] starts with the number of bytes in the range. *)
Fixpoint touch_pages (fuel : nat) (m : M) (page_size stop offset touches : Z) : stm S AccessError Z :=
  match fuel with
  | O => slift Panic
  | Datatypes.S fuel =>
      let! _ := load_byte m offset in
      let! touches := slift (uadd USIZE_MAX touches 1) in
      if page_size =? 0 then slift Panic else
      let! next_page := slift (ok_or (checked_add USIZE_MAX (offset / page_size) 1) AccessError_OutOfBounds) in
      let! next := slift (ok_or (checked_mul USIZE_MAX next_page page_size) AccessError_OutOfBounds) in
      if stop <=? next then sret touches else
      touch_pages fuel m page_size stop next touches
  end.

Definition prefault_read (m : M) (page_size logical_len start stop : Z) : stm S AccessError PrefaultResult :=
  let! _ := slift (validate_range start stop logical_len) in
  let requested_bytes := stop - start in
  if requested_bytes =? 0 then sret {| pf_requested_bytes := 0; pf_pages_touched := 0 |} else
  let! touches := touch_pages (Z.to_nat requested_bytes) m page_size stop start 0 in
  sret {| pf_requested_bytes := requested_bytes; pf_pages_touched := touches |}.

Definition ActiveReader_prefault (self : ActiveReader) (sh : SharedResources) (m : M) (start stop : Z)
  : stm S AccessError PrefaultResult :=
  let! _ := slift (Active_ensure_active (rd_lease self) sh) in
  prefault_read m (rdo_page_size (rd_owner self)) (rd_logical_len self) start stop.

Context `{Stores M S}.

Definition write_from (self : ActiveWriter) (sh : SharedResources) (m : M) (offset : Z) (source : bytes)
  : stm S AccessError unit :=
  let! _ := slift (Active_ensure_active (wt_lease self) sh) in
  let! _ := slift (checked_end offset (len source) (wt_logical_len self)) in
  copy_in m offset source.

Definition fill (self : ActiveWriter) (sh : SharedResources) (m : M) (start stop : Z) (value : byte)
  : stm S AccessError unit :=
  let! _ := slift (Active_ensure_active (wt_lease self) sh) in
  let! _ := slift (validate_range start stop (wt_logical_len self)) in
  let length := stop - start in
  copy_in m start (replicate (Z.to_nat length) value).

(** [touch_write]: load a byte and store it back. *)
Fixpoint touch_writes (fuel : nat) (m : M) (page_size stop offset : Z) : stm S AccessError unit :=
  match fuel with
  | O => slift Panic
  | Datatypes.S fuel =>
      let! b := load_byte m offset in
      let! _ := copy_in m offset [b] in
      if page_size =? 0 then slift Panic else
      let! page := slift (ok_or (checked_add USIZE_MAX (offset / page_size) 1) AccessError_OutOfBounds) in
      let! next := slift (ok_or (checked_mul USIZE_MAX page page_size) AccessError_OutOfBounds) in
      if stop <=? next then sret tt else
      touch_writes fuel m page_size stop next
  end.

Definition ActiveWriter_prefault (self : ActiveWriter) (sh : SharedResources) (m : M) (start stop : Z)
  : stm S AccessError PrefaultResult :=
  let page_size := rdo_page_size (wro_read (wt_owner self)) in
  let! _ := slift (Active_ensure_active (wt_lease self) sh) in
  let! result := prefault_read m page_size (wt_logical_len self) start stop in
  if start <? stop
  then touch_writes (Z.to_nat (stop - start)) m page_size stop start >>! sret result
  else sret result.

End Access.

(** ** Binding to the core capabilities ([binding.rs]) *)

(** [BoundReadMapping] and [BoundWriteMapping]: the consumed mapping with a
    handle on its memory. *)
Record Bound (R M : Type) := { bd_active : R; bd_mem : M }.
Arguments bd_active {R M}.
Arguments bd_mem {R M}.

#[export] Instance BoundLoads {R M S} `{Loads M S} : Loads (Bound R M) S := {
  load := fun E b => load (bd_mem b);
  load_byte := fun E b => load_byte (bd_mem b)
}.
#[export] Instance BoundStores {R M S} `{Stores M S} : Stores (Bound R M) S := {
  store := fun E b => store (bd_mem b);
  copy_in := fun E b => copy_in (bd_mem b)
}.

(** [NonNull::new(..).expect(..)]. *)
Definition payload_base {E} (ptr : Z) : res E Z := if ptr =? 0 then Panic else Ok ptr.

(** A rejected bind hands the consumed mapping back. *)
Definition ActiveReader_bind {M} (self : ActiveReader) (m : M) (layout : ValidatedRegionLayout)
  (topology : RegionSetLayout) : res (BindingError * ActiveReader) (Region (Bound ActiveReader M)) :=
  let? base := payload_base (rdo_as_ptr (rd_owner self)) in
  map_err (fun '(witness, error) => (error, bd_active (mp_mem witness)))
    (Region_new {| mp_base := base; mp_len := rd_logical_len self;
                   mp_mem := {| bd_active := self; bd_mem := m |} |} layout topology).

Definition ActiveWriter_bind {M} (self : ActiveWriter) (m : M) (layout : ValidatedRegionLayout)
  (topology : RegionSetLayout) : res (BindingError * ActiveWriter) (Region (Bound ActiveWriter M)) :=
  let? base := payload_base (wro_as_mut_ptr (wt_owner self)) in
  map_err (fun '(witness, error) => (error, bd_active (mp_mem witness)))
    (Region_new {| mp_base := base; mp_len := wt_logical_len self;
                   mp_mem := {| bd_active := self; bd_mem := m |} |} layout topology).

(** * Accesses to active mappings stay inside them

    What [Active.v] promises its users: an access happens exactly when the
    session is live and the range is inside the logical payload, and then
    touches exactly that range; prefaulting touches every covered page once and
    changes nothing. *)

(** ** Guards *)

(** Whether an access may begin. *)
Definition live (lease : option Z) (sh : SharedResources) : Prop :=
  lease = None \/ sr_state sh = ACTIVE.

#[export] Instance live_dec lease sh : Decision (live lease sh).
Proof. unfold live. apply _. Defined.

Definition canonical_state (sh : SharedResources) : Prop :=
  sr_state sh = ACTIVE \/ sr_state sh = POISONED \/ sr_state sh = CLOSED.

Lemma ensure_active_iff lease sh :
  canonical_state sh ->
  Active_ensure_active lease sh
  = if decide (live lease sh) then Ok tt else Err AccessError_SessionInactive.
Proof.
  intros Hc. unfold Active_ensure_active, liveness_state, RegionLease_state, decode_state.
  destruct lease as [b|]; [|now rewrite decide_True by (left; done)].
  destruct (decide (live (Some b) sh)) as [[|H]|H]; [discriminate|now rewrite H|].
  destruct Hc as [Hs|[Hs|Hs]]; [now destruct H; right|now rewrite Hs..].
Qed.

Lemma checked_end_iff offset length limit :
  limit <= USIZE_MAX ->
  checked_end offset length limit
  = if decide (offset + length <= limit) then Ok (offset + length) else Err AccessError_OutOfBounds.
Proof.
  intros Hl. unfold checked_end, checked_add. destruct (decide (offset + length <= limit)) as [H|H].
  - rewrite (proj2 (Z.leb_le _ _)) by lia. cbn. rewrite (proj2 (Z.ltb_ge _ _)) by lia. done.
  - destruct (offset + length <=? USIZE_MAX); cbn; [|done]. rewrite (proj2 (Z.ltb_lt _ _)) by lia. done.
Qed.

Lemma validate_range_iff start stop limit :
  limit <= USIZE_MAX ->
  validate_range start stop limit
  = if decide (stop < start) then Err AccessError_InvalidRange else
    if decide (stop <= limit) then Ok tt else Err AccessError_OutOfBounds.
Proof.
  intros Hl. unfold validate_range. destruct (decide (stop < start)) as [H|H].
  - now rewrite (proj2 (Z.ltb_lt _ _)).
  - rewrite (proj2 (Z.ltb_ge _ _)), checked_end_iff by lia. replace (start + (stop - start)) with stop by lia.
    now destruct (decide _).
Qed.

Lemma slift_bind_Ok {S E A B} (r : res E A) (k : A -> stm S E B) s a :
  r = Ok a -> (let! x := slift r in k x) s = k a s.
Proof. intros ->. reflexivity. Qed.

Lemma slift_bind_Err {S E A B} (r : res E A) (k : A -> stm S E B) s e :
  r = Err e -> (let! x := slift r in k x) s = (Err e, s).
Proof. intros ->. reflexivity. Qed.

(** Case analysis on the two guards every access begins with. *)
Ltac live_case :=
  match goal with
  | |- context [decide (live ?l ?sh)] =>
      destruct (decide (live l sh)) as [Hl|Hl];
      [rewrite (slift_bind_Ok _ _ _ tt) by (rewrite ensure_active_iff by done; now rewrite decide_True)
      |apply slift_bind_Err; rewrite ensure_active_iff by done; now rewrite decide_False]
  end.
Ltac end_case :=
  match goal with
  | |- context [decide (?a + ?b <= ?c)] =>
      destruct (decide (a + b <= c)) as [He|He];
      [rewrite (slift_bind_Ok _ _ _ (a + b)) by (rewrite checked_end_iff by lia; now rewrite decide_True)
      |apply slift_bind_Err; rewrite checked_end_iff by lia; now rewrite decide_False]
  end.

(** ** Reads, writes and fills *)

(** Accesses to an active mapping are exact. Whatever the peer does to the
    bytes, a read returns, at each index, a byte the mapping held at that offset
    during the read; a write or fill stores its bytes at the given range and
    changes no other byte. Each succeeds exactly when the session has not been
    poisoned or closed and the range is inside the logical payload; otherwise
    the error says which, and neither the mapping nor the destination is
    touched. *)
Theorem active_access_exact rd wt sh (h : history) (t : nat) (d m : bytes) offset stop source value :
  canonical_state sh -> 0 <= offset ->
  0 <= rd_logical_len rd <= USIZE_MAX -> (forall t, rd_logical_len rd <= len (h t)) ->
  0 <= wt_logical_len wt <= len m -> len m <= USIZE_MAX ->
  read_into rd sh h offset (t, d)
  = (if decide (live (rd_lease rd) sh) then
       if decide (offset + len d <= rd_logical_len rd)
       then (Ok tt, ((t + length d)%nat, sampled h t offset (length d)))
       else (Err AccessError_OutOfBounds, (t, d))
     else (Err AccessError_SessionInactive, (t, d))) /\
  write_from wt sh own offset source m
  = (if decide (live (wt_lease wt) sh) then
       if decide (offset + len source <= wt_logical_len wt)
       then (Ok tt, splice m offset source)
       else (Err AccessError_OutOfBounds, m)
     else (Err AccessError_SessionInactive, m)) /\
  fill wt sh own offset stop value m
  = (if decide (live (wt_lease wt) sh) then
       if decide (stop < offset) then (Err AccessError_InvalidRange, m) else
       if decide (stop <= wt_logical_len wt)
       then (Ok tt, splice m offset (replicate (Z.to_nat (stop - offset)) value))
       else (Err AccessError_OutOfBounds, m)
     else (Err AccessError_SessionInactive, m)).
Proof.
  intros Hc Ho Hrl Hh Hwl Hm. split_and!.
  - unfold read_into. live_case.
    rewrite (sbind_Ok _ _ _ (t, d) (t, d)) by done. cbn [snd].
    end_case.
    rewrite (sbind_Ok _ _ _ (sampled h t offset (length d)) ((t + length d)%nat, d)).
    2:{ unfold with_memory. rewrite (volatile_copy_sampled h (rd_logical_len rd)); unfold len in *; done || lia. }
    unfold smodify. rewrite splice_full; [done|done|]. now rewrite sampled_len.
  - unfold write_from. live_case.
    end_case.
    apply own_copy_in; lia.
  - unfold fill. live_case.
    pose proof (validate_range_iff offset stop (wt_logical_len wt)) as Hv.
    destruct (decide (stop < offset)) as [Hs|Hs]; [apply slift_bind_Err, Hv; lia|].
    destruct (decide (stop <= wt_logical_len wt)) as [He|He]; [|apply slift_bind_Err, Hv; lia].
    rewrite (slift_bind_Ok _ _ _ tt) by (apply Hv; lia).
    apply own_copy_in; [lia|]. unfold len in *. rewrite length_replicate. lia.
Qed.

(** ** Prefaulting *)

(** One address in every page the range covers: its start, then the first byte
    of each later page. *)
Definition covered (page_size start stop : Z) : list Z :=
  start :: map (fun p => p * page_size) (seqZ (start / page_size + 1) ((stop - 1) / page_size - start / page_size)).

Section Touch.
Context {M S : Type} `{Loads M S} `{Stores M S}.

Fixpoint touch_all {E} (m : M) (addresses : list Z) : stm S E unit :=
  match addresses with
  | [] => sret tt
  | a :: rest => load_byte m a >>! touch_all m rest
  end.

Fixpoint rewrite_all {E} (m : M) (addresses : list Z) : stm S E unit :=
  match addresses with
  | [] => sret tt
  | a :: rest => let! b := load_byte m a in copy_in m a [b] >>! rewrite_all m rest
  end.

Context (page_size stop : Z).
Hypothesis Hps : 0 < page_size.
Hypothesis Hfit : stop + page_size <= USIZE_MAX.

(** The next address of the loop, and whether it is the last. *)
Lemma next_page offset :
  0 <= offset < stop ->
  let next := (offset / page_size + 1) * page_size in
  checked_add USIZE_MAX (offset / page_size) 1 = Some (offset / page_size + 1) /\
  checked_mul USIZE_MAX (offset / page_size + 1) page_size = Some next /\
  offset < next <= offset + page_size /\ next / page_size = offset / page_size + 1 /\
  ((stop <=? next) = true -> covered page_size offset stop = [offset]) /\
  ((stop <=? next) = false -> covered page_size offset stop = offset :: covered page_size next stop).
Proof.
  intros Ho next. pose proof (Z.mod_pos_bound offset page_size Hps).
  pose proof (Z_div_mod_eq_full offset page_size) as Hd.
  assert (Hn : offset < next <= offset + page_size) by (unfold next; lia).
  assert (0 <= offset / page_size <= offset) by (split; [apply Z.div_pos; lia|apply Z.div_le_upper_bound; nia]).
  assert (Hdiv : next / page_size = offset / page_size + 1) by (unfold next; apply Z.div_mul; lia).
  split_and!; try lia; try (apply checked_add_ok; lia); try (apply checked_mul_ok; unfold next in *; lia); try done.
  - intros Hs. bsplit. unfold covered. replace ((stop - 1) / page_size) with (offset / page_size); [now rewrite Z.sub_diag|].
    apply Z.div_unique with (stop - 1 - offset / page_size * page_size); [left; unfold next in *|]; lia.
  - intros Hs. bsplit. unfold covered. rewrite Hdiv.
    assert (offset / page_size + 1 <= (stop - 1) / page_size) by (apply Z.div_le_lower_bound; unfold next in *; lia).
    rewrite (seqZ_cons (offset / page_size + 1)) by lia. cbn [map]. fold next. do 4 f_equal; lia.
Qed.

Lemma touch_pages_run fuel m touches offset s :
  0 <= offset < stop -> (Z.to_nat (stop - offset) <= fuel)%nat ->
  0 <= touches -> touches + (stop - offset) <= USIZE_MAX ->
  touch_pages fuel m page_size stop offset touches s
  = (touch_all m (covered page_size offset stop) >>! sret (touches + len (covered page_size offset stop))) s.
Proof.
  revert offset touches s. induction fuel as [|fuel IH]; intros offset touches s Ho Hf Ht Htt; [lia|].
  destruct (next_page offset Ho) as (H1 & H2 & Hn & _ & Hlast & Hmore).
  cbn [touch_pages]. unfold sbind at 1. destruct (stop <=? (offset / page_size + 1) * page_size) eqn:E.
  - rewrite (Hlast eq_refl). cbn [touch_all]. unfold sbind, slift.
    destruct (load_byte m offset s) as [[b|e|] s1]; [|done|done].
    unfold uadd. rewrite checked_add_ok by lia. cbn [expect]. replace (page_size =? 0) with false by lia.
    rewrite H1. cbn [ok_or]. rewrite H2. cbn [ok_or]. now rewrite E.
  - rewrite (Hmore eq_refl). cbn [touch_all]. rewrite len_cons. bsplit.
    rewrite sbind_assoc.
    destruct (load_byte m offset s) as [[b|e|] s1] eqn:Hb; [|unfold sbind; now rewrite Hb..].
    rewrite (sbind_Ok _ _ _ _ _ Hb).
    unfold uadd. rewrite checked_add_ok by lia. unfold sbind at 1, slift at 1. cbn [expect].
    replace (page_size =? 0) with false by lia. rewrite H1. unfold sbind at 1, slift at 1. cbn [ok_or].
    rewrite H2. unfold sbind at 1, slift at 1. cbn [ok_or]. rewrite (proj2 (Z.leb_gt _ _) E), IH by lia.
    unfold sbind. destruct (touch_all _ _ _) as [[u|e|] s2]; [|done|done]. unfold sret. do 2 f_equal. lia.
Qed.

Lemma touch_writes_run fuel m offset s :
  0 <= offset < stop -> (Z.to_nat (stop - offset) <= fuel)%nat ->
  touch_writes fuel m page_size stop offset s = rewrite_all m (covered page_size offset stop) s.
Proof.
  revert offset s. induction fuel as [|fuel IH]; intros offset s Ho Hf; [lia|].
  destruct (next_page offset Ho) as (H1 & H2 & Hn & _ & Hlast & Hmore).
  cbn [touch_writes]. unfold sbind, slift. destruct (stop <=? (offset / page_size + 1) * page_size) eqn:E.
  - rewrite (Hlast eq_refl). cbn [rewrite_all]. unfold sbind, sret.
    destruct (load_byte m offset s) as [[b|e|] s1]; [|done|done].
    destruct (copy_in m offset [b] s1) as [[[]|e|] s2]; [|done|done].
    replace (page_size =? 0) with false by lia. rewrite H1. cbn [ok_or]. rewrite H2. cbn [ok_or]. now rewrite E.
  - rewrite (Hmore eq_refl). cbn [rewrite_all]. unfold sbind.
    destruct (load_byte m offset s) as [[b|e|] s1]; [|done|done].
    destruct (copy_in m offset [b] s1) as [[[]|e|] s2]; [|done|done].
    replace (page_size =? 0) with false by lia. rewrite H1. cbn [ok_or]. rewrite H2. cbn [ok_or]. rewrite E.
    bsplit. apply IH; lia.
Qed.

End Touch.

Lemma covered_pages page_size start stop :
  0 < page_size -> 0 <= start < stop ->
  map (fun a => a / page_size) (covered page_size start stop)
  = seqZ (start / page_size) ((stop - 1) / page_size - start / page_size + 1) /\
  Forall (fun a => start <= a < stop) (covered page_size start stop).
Proof.
  intros Hps Hs. assert (start / page_size <= (stop - 1) / page_size) by (apply Z.div_le_mono; lia).
  assert (0 <= start / page_size) by (apply Z.div_pos; lia). unfold covered. split.
  - rewrite (seqZ_cons (start / page_size)) by lia. cbn [map]. rewrite map_map. f_equal.
    replace (Z.pred _) with ((stop - 1) / page_size - start / page_size) by lia.
    rewrite <- (map_id (seqZ (Z.succ _) _)). apply map_ext. intros p. apply Z.div_mul. lia.
  - constructor; [lia|]. apply Forall_map, Forall_forall. intros p [Hp Hp']%elem_of_seqZ.
    pose proof (Z.mod_pos_bound start page_size Hps). pose proof (Z_div_mod_eq_full start page_size).
    pose proof (Z.mod_pos_bound (stop - 1) page_size Hps). pose proof (Z_div_mod_eq_full (stop - 1) page_size).
    nia.
Qed.

Lemma own_load_byte {E} m a : 0 <= a < len m -> exists b, m !! Z.to_nat a = Some b /\
  load_byte (E := E) own a m = (Ok b, m).
Proof.
  intros H. destruct (lookup_lt_is_Some_2 m (Z.to_nat a)) as [b Hb]; [unfold len in H; lia|].
  exists b. split; [done|]. simpl. rewrite Hb. now replace (0 <=? a) with true by lia.
Qed.

Lemma touch_all_own {E} m l : Forall (fun a => 0 <= a < len m) l -> touch_all (E := E) own l m = (Ok tt, m).
Proof.
  induction 1 as [|a l Ha Hl IH]; [done|]. cbn [touch_all]. destruct (own_load_byte (E := E) m a Ha) as (b & _ & Hb).
  now rewrite (sbind_Ok _ _ _ _ _ Hb).
Qed.

Lemma splice_same (m : bytes) a b : 0 <= a -> m !! Z.to_nat a = Some b -> splice m a [b] = m.
Proof.
  intros Ha Hb. apply list_eq. intros i. pose proof (lookup_lt_Some _ _ _ Hb).
  assert (Hone : len [b] = 1) by done. rewrite lookup_splice by (rewrite ?Hone; unfold len; lia).
  rewrite Hone. case_decide as Hi; [|done]. replace (i - Z.to_nat a)%nat with O by lia. cbn. rewrite <- Hb. f_equal. lia.
Qed.

Lemma rewrite_all_own {E} m l : Forall (fun a => 0 <= a < len m) l -> rewrite_all (E := E) own l m = (Ok tt, m).
Proof.
  induction 1 as [|a l Ha Hl IH]; [done|]. cbn [rewrite_all].
  destruct (own_load_byte (E := E) m a Ha) as (b & Hm & Hb). rewrite (sbind_Ok _ _ _ _ _ Hb).
  rewrite (sbind_Ok _ _ _ tt m); [done|]. rewrite own_copy_in by (change (len [b]) with 1; lia).
  now rewrite splice_same.
Qed.

(** Prefaulting a nonempty range inside the payload touches every page the
    range covers exactly once, at an address inside the range, and reports that
    number of pages; on any mapping it is the same as loading one byte at each
    of these addresses in order, so the page loop terminates. A writer's
    prefault stores back what it loads: the bytes do not change. *)
Theorem prefault_exact {M S} `{Loads M S} (m : M) (s : S) page_size logical start stop wt sh bytes :
  0 < page_size -> 0 <= start < stop -> stop <= logical -> logical + page_size <= USIZE_MAX ->
  wt_logical_len wt = logical -> rdo_page_size (wro_read (wt_owner wt)) = page_size ->
  canonical_state sh -> live (wt_lease wt) sh -> logical <= len bytes ->
  let result := {| pf_requested_bytes := stop - start;
                   pf_pages_touched := (stop - 1) / page_size - start / page_size + 1 |} in
  prefault_read m page_size logical start stop s
  = (touch_all m (covered page_size start stop) >>! sret result) s /\
  map (fun a => a / page_size) (covered page_size start stop)
  = seqZ (start / page_size) (pf_pages_touched result) /\
  Forall (fun a => start <= a < stop) (covered page_size start stop) /\
  ActiveWriter_prefault wt sh own start stop bytes = (Ok result, bytes).
Proof.
  intros Hps Hs Hl Hf Hwl Hwp Hc Hlive Hb result.
  destruct (covered_pages page_size start stop Hps Hs) as [Hpages Hin].
  assert (Hlen : len (covered page_size start stop) = pf_pages_touched result).
  { unfold result. cbn. unfold covered. rewrite len_cons. unfold len. rewrite length_map, length_seqZ.
    assert (start / page_size <= (stop - 1) / page_size) by (apply Z.div_le_mono; lia). lia. }
  assert (Hread : forall {M' S'} `{Loads M' S'} (m' : M') (s' : S'),
            prefault_read m' page_size logical start stop s'
            = (touch_all m' (covered page_size start stop) >>! sret result) s').
  { intros. unfold prefault_read.
    rewrite (slift_bind_Ok _ _ _ tt) by (rewrite validate_range_iff by lia; now rewrite decide_False, decide_True by lia).
    replace (stop - start =? 0) with false by lia.
    pose proof (touch_pages_run page_size stop Hps ltac:(lia) (Z.to_nat (stop - start)) m' 0 start s'
                  Hs ltac:(lia) ltac:(lia) ltac:(lia)) as Hrun.
    unfold sbind in *. rewrite Hrun. destruct (touch_all _ _ _) as [[u|e|] s1]; [|done|done].
    unfold sret. now rewrite Hlen. }
  split_and!; [apply Hread|exact Hpages|exact Hin|].
  unfold ActiveWriter_prefault. rewrite Hwp, Hwl.
  rewrite (slift_bind_Ok _ _ _ tt) by (rewrite ensure_active_iff by done; now rewrite decide_True).
  assert (Hin' : Forall (fun a => 0 <= a < len bytes) (covered page_size start stop))
    by (eapply Forall_impl; [exact Hin|]; cbn; lia).
  rewrite (sbind_Ok _ _ _ result bytes).
  2:{ rewrite Hread. now rewrite (sbind_Ok _ _ _ tt bytes) by now apply touch_all_own. }
  rewrite (proj2 (Z.ltb_lt _ _)) by lia.
  rewrite (sbind_Ok _ _ _ tt bytes); [done|]. rewrite touch_writes_run by lia. now apply rewrite_all_own.
Qed.

(** ** Witnesses *)

Definition page_owner : ReadOwner :=
  {| rdo_as_ptr := 8192; rdo_len := 8; rdo_page_size := 4; rdo_guard_installed := false |}.
Definition small_reader : ActiveReader :=
  {| rd_owner := page_owner; rd_lease := Some 8; rd_logical_len := 7; rd_guard_requested := BestEffort |}.
Definition small_writer : ActiveWriter :=
  {| wt_owner := {| wro_read := page_owner; wro_as_mut_ptr := 8192 |}; wt_lease := Some 8;
     wt_logical_len := 7; wt_guard_requested := BestEffort |}.

(** The mapping's bytes change while the reader copies them. *)
Definition shifting : history := fun t => replicate 8 (if (t <? 2)%nat then x01 else x02).

Lemma active_access_exact_witness :
  read_into small_reader fresh_shared shifting 3
    (O, [x00; x00; x00; x00]) = (Ok tt, (4%nat, [x01; x01; x02; x02])) /\
  write_from small_writer fresh_shared own 3 [x05; x06] (zeros 8)
  = (Ok tt, [x00; x00; x00; x05; x06; x00; x00; x00]) /\
  fill small_writer fresh_shared own 3 8 x09 (zeros 8) = (Err AccessError_OutOfBounds, zeros 8).
Proof.
  destruct (active_access_exact small_reader small_writer fresh_shared shifting 0 [x00; x00; x00; x00] (zeros 8)
              3 8 [x05; x06] x09) as (H1 & H2 & H3).
  - left. reflexivity.
  - lia.
  - cbn. unfold USIZE_MAX, U64_MAX. lia.
  - intros t. unfold shifting. destruct (t <? 2)%nat; vm_compute; congruence.
  - vm_compute. split; congruence.
  - vm_compute. congruence.
  - split; [etransitivity; [exact H1|reflexivity]|].
    split; [etransitivity; [exact H2|reflexivity]|etransitivity; [exact H3|reflexivity]].
Defined.

Lemma prefault_exact_witness :
  covered 4 1 7 = [1; 4] /\
  ActiveWriter_prefault small_writer fresh_shared own 1 7 (zeros 8)
  = (Ok {| pf_requested_bytes := 6; pf_pages_touched := 2 |}, zeros 8).
Proof.
  split; [reflexivity|].
  destruct (prefault_exact own (zeros 8) 4 7 1 7 small_writer fresh_shared (zeros 8)) as (_ & _ & _ & H);
    [lia|lia|lia|vm_compute; congruence|reflexivity|reflexivity|left; reflexivity|right; reflexivity
    |vm_compute; congruence|]. exact H.
Defined.

(** ** Binding *)

(** Binding neither loses nor alters a mapping. It is rejected exactly when
    the layout was validated over another length or another topology, and the
    mapping handed back is the one that was consumed; otherwise the region reads
    and writes through that mapping, at its own base and logical length. *)
Lemma bind_exact {M} self (m : M) layout topology :
  rdo_as_ptr (rd_owner self) <> 0 ->
  match ActiveReader_bind self m layout topology with
  | Ok region => rd_logical_len self = vrl_mapping_size layout /\ matches_topology layout topology = true /\
      bd_active (mp_mem (rg_mapping region)) = self /\ bd_mem (mp_mem (rg_mapping region)) = m /\
      mp_base (rg_mapping region) = rdo_as_ptr (rd_owner self) /\
      mp_len (rg_mapping region) = rd_logical_len self /\ rg_layout region = layout
  | Err (_, returned) => returned = self /\
      (rd_logical_len self <> vrl_mapping_size layout \/ matches_topology layout topology = false)
  | Panic => False
  end.
Proof.
  intros Hp. unfold ActiveReader_bind, payload_base. rewrite (proj2 (Z.eqb_neq _ _) Hp). cbn [rbind].
  unfold Region_new, validate_mapping_size, validate_topology. cbn [mp_len].
  destruct (_ =? _) eqn:E1; cbn; bsplit; [|auto].
  destruct (matches_topology layout topology) eqn:E2; cbn; auto 10.
Qed.
