(* ===== verification/Batch.v ===== *)
(** * Batch: transfer transactions and keyed region sets ([native-ipc/src/batch.rs])

    The coordinator's [TransferBatch], the receiver's [ExpectedBatch], and the
    [ActiveRegionSet] each endpoint obtains after COMMIT. A [BTreeMap] is a
    [gmap]; a [RegionId] is its number. *)

From stdpp Require Import gmap.
From S2P Require Import Prelude Limits Manifest ManifestTheory Region Active.

Inductive BatchError :=
| BatchError_InvalidLimits
| BatchError_Empty
| BatchError_TooManyRegions
| BatchError_DuplicateRegionId (id : Z)
| BatchError_BatchBytesExceeded
| BatchError_InvalidRegionLength
| BatchError_UnknownRegion (id : Z)
| BatchError_WrongDirection (id : Z)
| BatchError_CommitMismatch.

(** ** The receiver's expectation *)

Record ExpectedRegion := { er_id : Z; er_writer : WriterEndpoint; er_logical_len : Z }.
Record ExpectedBatch := { eb_regions : list ExpectedRegion; eb_total_logical : Z }.

(** [sort_unstable_by_key] and the search of [windows(2)] for a repeated key. *)
Definition key_leb {A} (key : A -> Z) (a b : A) : bool := key a <=? key b.

Fixpoint first_duplicate {A} (key : A -> Z) (l : list A) : option Z :=
  match l with
  | a :: (b :: _) as rest => if key a =? key b then Some (key a) else first_duplicate key rest
  | _ => None
  end.

Definition add_logical (region : ExpectedRegion) (total : Z) : res BatchError Z :=
  let? logical :=
    match try_from U64_MAX (er_logical_len region) with
    | Some logical => if logical =? 0 then Err BatchError_InvalidRegionLength else Ok logical
    | None => Err BatchError_InvalidRegionLength
    end in
  ok_or (checked_add U64_MAX total logical) BatchError_BatchBytesExceeded.

Definition try_from_regions (regions : list ExpectedRegion) : res BatchError ExpectedBatch :=
  if bool_decide (regions = []) then Err BatchError_Empty else
  if 16 <? len regions then Err BatchError_TooManyRegions else
  let regions := sort_by (key_leb er_id) regions in
  match first_duplicate er_id regions with
  | Some duplicate => Err (BatchError_DuplicateRegionId duplicate)
  | None =>
      let? total_logical := rfor regions add_logical 0 in
      Ok {| eb_regions := regions; eb_total_logical := total_logical |}
  end.

(** ** The coordinator's batch *)

Record TransferBatch := {
  tb_regions : list PreparedRegion;
  tb_max_regions : Z;
  tb_max_region_bytes : Z;
  tb_max_batch_bytes : Z;
  tb_total_logical : Z;
  tb_total_mapped : Z
}.

Definition TransferBatch_new (max_regions max_region_bytes max_batch_bytes : Z)
  : res BatchError TransferBatch :=
  if (max_regions =? 0) || (16 <? max_regions) then Err BatchError_TooManyRegions else
  if (max_region_bytes =? 0) || (max_batch_bytes =? 0) then Err BatchError_InvalidLimits else
  Ok {| tb_regions := []; tb_max_regions := max_regions; tb_max_region_bytes := max_region_bytes;
        tb_max_batch_bytes := max_batch_bytes; tb_total_logical := 0; tb_total_mapped := 0 |}.

Definition prepared_id (p : PreparedRegion) : Z := rs_id (pp_spec p).
Definition prepared_logical_len (p : PreparedRegion) : Z := sq_logical_len (pp_request p).
Definition prepared_mapped_len {E} (p : PreparedRegion) : res E Z :=
  NativeShareRequest_mapped_len (pp_request p).

(** [add] consumes the region; the batch is unchanged on an error. *)
Definition TransferBatch_add (region : PreparedRegion) : stm TransferBatch BatchError unit :=
  let! self := sget in
  if len (tb_regions self) =? tb_max_regions self then serr BatchError_TooManyRegions else
  let id := prepared_id region in
  if existsb (fun existing => prepared_id existing =? id) (tb_regions self)
  then serr (BatchError_DuplicateRegionId id) else
  let! logical := slift (ok_or (try_from U64_MAX (prepared_logical_len region)) BatchError_BatchBytesExceeded) in
  let! mapped := slift (prepared_mapped_len region) in
  let! mapped := slift (ok_or (try_from U64_MAX mapped) BatchError_BatchBytesExceeded) in
  if tb_max_region_bytes self <? logical then serr BatchError_InvalidRegionLength else
  let! total_logical := slift (ok_or (checked_add U64_MAX (tb_total_logical self) logical)
                                     BatchError_BatchBytesExceeded) in
  let! total_mapped := slift (ok_or (checked_add U64_MAX (tb_total_mapped self) mapped)
                                    BatchError_BatchBytesExceeded) in
  if (tb_max_batch_bytes self <? total_logical) || (tb_max_batch_bytes self <? total_mapped)
  then serr BatchError_BatchBytesExceeded else
  sput {| tb_regions := tb_regions self ++ [region]; tb_max_regions := tb_max_regions self;
          tb_max_region_bytes := tb_max_region_bytes self;
          tb_max_batch_bytes := tb_max_batch_bytes self;
          tb_total_logical := total_logical; tb_total_mapped := total_mapped |}.

(** A loop that collects. *)
Fixpoint rcollect {E A B} (f : A -> res E B) (l : list A) : res E (list B) :=
  match l with
  | [] => Ok []
  | x :: l => let? y := f x in let? ys := rcollect f l in Ok (y :: ys)
  end.

Definition TransferBatch_reservation_lengths (self : TransferBatch) : res BatchError (list Z) :=
  let? lengths :=
    rcollect (fun region =>
      let? mapped := prepared_mapped_len region in
      let? mapped := expect (try_from U64_MAX mapped) in
      Ok (prepared_id region, mapped)) (tb_regions self) in
  Ok (map snd (sort_by (key_leb fst) lengths)).

Definition region_entry (region : PreparedRegion) : res unit ManifestEntry :=
  let access := match rs_writer (pp_spec region) with
                | CoordinatorWrites => ReadOnly
                | ReceiverWrites => SoleWriter
                end in
  let? spec := native_spec (pp_request region) (prepared_id region) in
  Ok (ManifestEntry_from_native spec access).

(** [manifest_entries] of [TransferBatch] and of [PendingBatch]. *)
Definition TransferBatch_manifest_entries (self : TransferBatch) : res unit (list ManifestEntry) :=
  rcollect region_entry (tb_regions self).

Record PendingBatch := {
  pb_regions : list PreparedRegion;
  pb_total_logical : Z;
  pb_total_mapped : Z
}.

Definition into_pending (self : TransferBatch) : res BatchError PendingBatch :=
  if bool_decide (tb_regions self = []) then Err BatchError_Empty else
  Ok {| pb_regions := tb_regions self; pb_total_logical := tb_total_logical self;
        pb_total_mapped := tb_total_mapped self |}.

(** ** Committed sets *)

Inductive CommittedRegion := CommittedReader (r : ActiveReader) | CommittedWriter (w : ActiveWriter).
Inductive LocalRegionAuthority := LocalReader | LocalWriter.

#[export] Instance LocalRegionAuthority_eq_dec : EqDecision LocalRegionAuthority.
Proof. solve_decision. Defined.

Definition ActiveRegionSet : Type := gmap Z CommittedRegion.

Definition authority_of (r : CommittedRegion) : LocalRegionAuthority :=
  match r with CommittedReader _ => LocalReader | CommittedWriter _ => LocalWriter end.

(** The insertion loop and the comparison loop of [from_local_committed]. *)
Definition insert_committed (entry : Z * CommittedRegion) (keyed : gmap Z CommittedRegion)
  : res BatchError (gmap Z CommittedRegion) :=
  match keyed !! fst entry with
  | Some _ => Err (BatchError_DuplicateRegionId (fst entry))
  | None => Ok (<[fst entry := snd entry]> keyed)
  end.

Definition check_committed (keyed : gmap Z CommittedRegion) (entry : Z * LocalRegionAuthority) (_ : unit)
  : res BatchError unit :=
  match snd entry, keyed !! fst entry with
  | LocalWriter, Some (CommittedWriter _) => Ok tt
  | LocalReader, Some (CommittedReader _) => Ok tt
  | _, _ => Err BatchError_CommitMismatch
  end.

Definition from_local_committed (expected : list (Z * LocalRegionAuthority))
  (regions : list (Z * CommittedRegion)) : res BatchError ActiveRegionSet :=
  if 16 <? len expected then Err BatchError_CommitMismatch else
  let expected := sort_by (key_leb fst) expected in
  match first_duplicate fst expected with
  | Some duplicate => Err (BatchError_DuplicateRegionId duplicate)
  | None =>
      let? keyed := rfor regions insert_committed ∅ in
      if negb (Z.of_nat (size keyed) =? len expected) || (16 <? Z.of_nat (size keyed))
      then Err BatchError_CommitMismatch else
      rfor expected (check_committed keyed) tt >>? Ok keyed
  end.

Definition from_committed (pending : PendingBatch) (regions : list (Z * CommittedRegion))
  : res BatchError ActiveRegionSet :=
  from_local_committed
    (map (fun region =>
       (prepared_id region,
        match rs_writer (pp_spec region) with
        | CoordinatorWrites => LocalWriter
        | ReceiverWrites => LocalReader
        end)) (pb_regions pending)) regions.

Definition take_writer (id : Z) : stm ActiveRegionSet BatchError ActiveWriter :=
  let! regions := sget in
  match (regions : gmap Z CommittedRegion) !! id with
  | None => serr (BatchError_UnknownRegion id)
  | Some (CommittedReader _) => serr (BatchError_WrongDirection id)
  | Some (CommittedWriter writer) => sput (delete id regions) >>! sret writer
  end.

Definition take_reader (id : Z) : stm ActiveRegionSet BatchError ActiveReader :=
  let! regions := sget in
  match (regions : gmap Z CommittedRegion) !! id with
  | None => serr (BatchError_UnknownRegion id)
  | Some (CommittedWriter _) => serr (BatchError_WrongDirection id)
  | Some (CommittedReader reader) => sput (delete id regions) >>! sret reader
  end.

(** * Batches become canonical manifests, commits become region sets *)

(** ** Sorting by a key *)

Section Keys.
Context {A : Type} (key : A -> Z).
Abbreviation sorted := (sort_by (key_leb key)).

Lemma key_sorted l : StronglySorted (fun a b => key_leb key a b = true) (sorted l).
Proof. apply sort_by_sorted with (P := fun _ => True); unfold key_leb; try (intros; lia). now apply Forall_forall. Qed.

Lemma no_duplicate_strict l :
  StronglySorted (fun a b => key_leb key a b = true) l -> first_duplicate key l = None ->
  StronglySorted (fun a b => key a < key b) l.
Proof.
  induction 1 as [|a l Hs IH Ha]; intros Hd; [constructor|]. destruct l as [|b l]; [repeat constructor|].
  cbn [first_duplicate] in Hd. destruct (key a =? key b) eqn:E; [discriminate|]. bsplit. specialize (IH Hd).
  constructor; [done|]. inversion Ha as [|? ? Hab _]; subst. inversion IH as [|? ? _ Hb]; subst.
  unfold key_leb in Hab. constructor; [lia|]. eapply Forall_impl; [exact Hb|]. cbn. lia.
Qed.

Lemma strict_keys l : StronglySorted (fun a b => key a < key b) l -> NoDup (key <$> l).
Proof.
  induction 1 as [|a l Hs IH Ha]; cbn; constructor; [|done].
  intros (b & Heq & Hb)%list_elem_of_fmap. rewrite Forall_forall in Ha. specialize (Ha b Hb). lia.
Qed.

Lemma first_duplicate_in l k : first_duplicate key l = Some k -> ~ NoDup (key <$> l).
Proof.
  induction l as [|a l IH]; [done|]. destruct l as [|b l]; [done|]. cbn [first_duplicate].
  destruct (key a =? key b) eqn:E; bsplit; cbn [fmap list_fmap].
  - intros _ [H _]%NoDup_cons. apply H. rewrite E. constructor.
  - intros H Hn. apply NoDup_cons in Hn as [_ Hn]. now apply IH.
Qed.

Lemma first_duplicate_iff l : first_duplicate key (sorted l) = None <-> NoDup (key <$> l).
Proof.
  rewrite <- (fmap_Permutation key _ _ (sort_by_perm (key_leb key) l)). split.
  - intros H. now apply strict_keys, no_duplicate_strict; [apply key_sorted|].
  - intros H. destruct (first_duplicate key (sorted l)) eqn:E; [|done]. now apply first_duplicate_in in E.
Qed.

End Keys.

(** ** The receiver's expectation *)

Definition logical_sum (l : list ExpectedRegion) : Z := foldr (fun r a => er_logical_len r + a) 0 l.

Lemma add_logical_loop l : forall total,
  match rfor l add_logical total with
  | Ok total' => total' = total + logical_sum l /\ Forall (fun r => 0 < er_logical_len r) l
  | Err _ => True
  | Panic => False
  end.
Proof.
  induction l as [|r l IH]; intros total; cbn [rfor]; [split; [unfold logical_sum; cbn; lia|constructor]|].
  unfold add_logical at 1. destruct (try_from _ _) as [z|] eqn:E; [|done]. apply try_from_Some in E as [-> Hu].
  destruct (_ =? 0) eqn:Ez; [done|]. bsplit. cbn [rbind]. destruct (checked_add _ _ _) eqn:Ec; [|done].
  apply checked_add_Some in Ec as [-> _]. cbn [ok_or rbind]. specialize (IH (total + er_logical_len r)).
  destruct (rfor _ _ _); [|done|done]. destruct IH as [-> IH]. split; [unfold logical_sum; cbn; lia|]. constructor; [ulia|done].
Qed.

(** An expectation has its regions in order, without repetition, with their
    exact total. *)
Lemma try_from_regions_Ok rs expected :
  try_from_regions rs = Ok expected ->
  eb_regions expected = sort_by (key_leb er_id) rs /\ NoDup (er_id <$> rs) /\ 1 <= len rs <= 16 /\
  eb_total_logical expected = logical_sum (eb_regions expected) /\
  Forall (fun r => 0 < er_logical_len r) (eb_regions expected).
Proof.
  unfold try_from_regions. destruct (bool_decide (rs = [])) eqn:E1; [done|]. destruct (16 <? _) eqn:E2; [done|]. bsplit.
  destruct (first_duplicate _ _) eqn:E3; [done|]. apply first_duplicate_iff in E3.
  pose proof (add_logical_loop (sort_by (key_leb er_id) rs) 0) as H. destruct (rfor _ _ _); [|done|done].
  destruct H as [-> H]. intros [= <-]. cbn. split_and!; try done.
  destruct rs; [done|]. rewrite len_cons. pose proof (len_nonneg rs). lia.
Qed.

(** ** The coordinator's batch *)

(** A region as [PrivateRegion::prepare] leaves it, under a valid identity. *)
Definition prepared_wf (p : PreparedRegion) : Prop :=
  (exists m, prepared_ok p m) /\ 0 < prepared_id p /\ u128 (prepared_id p).

Definition mapped_of (p : PreparedRegion) : Z := match sq_inner (pp_request p) with Some m => len m | None => 0 end.
Definition sum_over {A} (f : A -> Z) (l : list A) : Z := foldr (fun x a => f x + a) 0 l.

Lemma sum_over_app {A} (f : A -> Z) l k : sum_over f (l ++ k) = sum_over f l + sum_over f k.
Proof. unfold sum_over. induction l as [|x l IH]; [done|]. cbn. lia. Qed.

Lemma mapped_of_run {E} p : prepared_wf p -> prepared_mapped_len (E := E) p = Ok (mapped_of p) /\
  0 < prepared_logical_len p <= mapped_of p /\ u64 (mapped_of p).
Proof.
  intros [[m []] _]. unfold prepared_mapped_len, NativeShareRequest_mapped_len, mapped_of, prepared_logical_len.
  rewrite pok_inner. cbn. done.
Qed.

Record batch_ok (b : TransferBatch) : Prop := {
  bo_regions : Forall prepared_wf (tb_regions b);
  bo_ids : NoDup (prepared_id <$> tb_regions b);
  bo_count : len (tb_regions b) <= tb_max_regions b <= 16;
  bo_logical : tb_total_logical b = sum_over prepared_logical_len (tb_regions b);
  bo_mapped : tb_total_mapped b = sum_over mapped_of (tb_regions b);
  bo_limits : tb_total_logical b <= tb_max_batch_bytes b /\ tb_total_mapped b <= tb_max_batch_bytes b;
  bo_fits : u64 (tb_total_mapped b) /\ u64 (tb_total_logical b);
  bo_region : Forall (fun p => prepared_logical_len p <= tb_max_region_bytes b) (tb_regions b)
}.

(** Exactly when a batch has room for a region. *)
Definition fits_batch (b : TransferBatch) (p : PreparedRegion) : Prop :=
  len (tb_regions b) <> tb_max_regions b /\ (prepared_id p ∉ prepared_id <$> tb_regions b) /\
  prepared_logical_len p <= tb_max_region_bytes b /\
  tb_total_logical b + prepared_logical_len p <= Z.min U64_MAX (tb_max_batch_bytes b) /\
  tb_total_mapped b + mapped_of p <= Z.min U64_MAX (tb_max_batch_bytes b).

Definition extended (b : TransferBatch) (p : PreparedRegion) : TransferBatch :=
  {| tb_regions := tb_regions b ++ [p]; tb_max_regions := tb_max_regions b;
     tb_max_region_bytes := tb_max_region_bytes b; tb_max_batch_bytes := tb_max_batch_bytes b;
     tb_total_logical := tb_total_logical b + prepared_logical_len p;
     tb_total_mapped := tb_total_mapped b + mapped_of p |}.

Lemma duplicate_id_iff b p :
  existsb (fun existing => prepared_id existing =? prepared_id p) (tb_regions b) = true <->
  prepared_id p ∈ (prepared_id <$> tb_regions b).
Proof.
  rewrite existsb_exists, list_elem_of_fmap. split.
  - intros (x & Hx & He). exists x. bsplit. split; [done|now apply list_elem_of_In].
  - intros (x & He & Hx). exists x. split; [now apply list_elem_of_In|]. apply Z.eqb_eq. congruence.
Qed.

Lemma add_exact b p r b' :
  prepared_wf p -> TransferBatch_add p b = (r, b') ->
  match r with
  | Ok _ => fits_batch b p /\ b' = extended b p
  | Err _ => ~ fits_batch b p /\ b' = b
  | Panic => False
  end.
Proof.
  intros Hwf. destruct (mapped_of_run (E := BatchError) p Hwf) as (Hm & Hl & Hu).
  unfold TransferBatch_add, fits_batch. rewrite (sbind_Ok _ _ b b b) by done.
  destruct (_ =? _) eqn:E1; bsplit; [intros [= <- <-]; tauto|].
  destruct (existsb _ _) eqn:E2; [apply duplicate_id_iff in E2; intros [= <- <-]; tauto|].
  assert (E2' : (prepared_id p ∉ prepared_id <$> tb_regions b)) by (rewrite <- duplicate_id_iff; congruence).
  rewrite try_from_ok by ulia. rewrite (sbind_Ok _ _ b (prepared_logical_len p) b) by done.
  rewrite Hm, (sbind_Ok _ _ b (mapped_of p) b) by done. rewrite try_from_ok by done.
  rewrite (sbind_Ok _ _ b (mapped_of p) b) by done.
  destruct (_ <? _) eqn:E3; bsplit; [intros [= <- <-]; split; [lia|done]|].
  destruct (checked_add U64_MAX (tb_total_logical b) _) eqn:E4.
  2:{ intros [= <- <-]. unfold checked_add in E4. destruct (_ <=? _) eqn:?; [discriminate|]. bsplit. split; [lia|done]. }
  apply checked_add_Some in E4 as [-> E4]. rewrite (sbind_Ok _ _ b (tb_total_logical b + prepared_logical_len p) b) by done.
  destruct (checked_add U64_MAX (tb_total_mapped b) _) eqn:E5.
  2:{ intros [= <- <-]. unfold checked_add in E5. destruct (_ <=? _) eqn:?; [discriminate|]. bsplit. split; [lia|done]. }
  apply checked_add_Some in E5 as [-> E5]. rewrite (sbind_Ok _ _ b (tb_total_mapped b + mapped_of p) b) by done.
  destruct (_ || _) eqn:E6; intros [= <- <-].
  - split; [|done]. intros (_ & _ & _ & H1 & H2). apply orb_true_iff in E6 as [?|?]; bsplit; lia.
  - bsplit. split; [|done]. split_and!; done || lia.
Qed.

Lemma batch_ok_new max_regions max_region_bytes max_batch_bytes b :
  0 <= max_batch_bytes -> 0 <= max_regions -> TransferBatch_new max_regions max_region_bytes max_batch_bytes = Ok b -> batch_ok b.
Proof.
  unfold TransferBatch_new. intros Hb Hr H. destruct (_ || _) eqn:E1; [discriminate|].
  destruct (_ || _) eqn:E2 in H; [discriminate|]. bsplit. injection H as <-.
  constructor; cbn; try constructor; try done; try lia; unfold len; cbn; lia.
Qed.

Lemma batch_ok_extend b p : batch_ok b -> prepared_wf p -> fits_batch b p -> batch_ok (extended b p).
Proof.
  intros [] Hwf (H1 & H2 & H3 & H4 & H5). destruct (mapped_of_run (E := unit) p Hwf) as (_ & Hl & Hu).
  assert (Hsum : forall f : PreparedRegion -> Z, sum_over f [p] = f p) by (intros; unfold sum_over; cbn; lia).
  constructor; cbn [extended tb_regions tb_max_regions tb_max_region_bytes tb_max_batch_bytes tb_total_logical tb_total_mapped];
    rewrite ?sum_over_app, ?Hsum; try (rewrite Forall_app; split; [done|now constructor]); try lia.
  - rewrite fmap_app. apply NoDup_app. split_and!; [done| |apply NoDup_singleton].
    intros x Hx Hx'. apply list_elem_of_singleton in Hx'. subst x. contradiction.
  - rewrite len_app. change (len [p]) with 1. lia.
  - destruct bo_fits0, bo_limits0. split; ulia.
Qed.

(** Batches that a caller can build. *)
Fixpoint add_all (ps : list PreparedRegion) (b : TransferBatch) : TransferBatch :=
  match ps with
  | [] => b
  | p :: ps => add_all ps (snd (TransferBatch_add p b))
  end.

Lemma add_all_ok ps : forall b, batch_ok b -> Forall prepared_wf ps ->
  batch_ok (add_all ps b) /\ tb_max_regions (add_all ps b) = tb_max_regions b /\
  tb_max_region_bytes (add_all ps b) = tb_max_region_bytes b /\
  tb_max_batch_bytes (add_all ps b) = tb_max_batch_bytes b.
Proof.
  induction ps as [|p ps IH]; intros b Hb Hps; [done|]. apply Forall_cons in Hps as [Hp Hps]. cbn [add_all].
  destruct (TransferBatch_add p b) as [r b'] eqn:Ha. pose proof (add_exact b p r b' Hp Ha) as H. cbn [snd].
  destruct r as [u|e|]; [|destruct H as [_ ->]; auto|done]. destruct H as [Hf ->].
  destruct (IH (extended b p)) as (H1 & H2 & H3 & H4); [now apply batch_ok_extend|done|done].
Qed.

(** ** From a batch to its manifest *)

Definition access_of (w : WriterEndpoint) : PeerAccess :=
  match w with CoordinatorWrites => ReadOnly | ReceiverWrites => SoleWriter end.

(** The entry a prepared region contributes. *)
Definition entry_of (p : PreparedRegion) : ManifestEntry :=
  {| me_region_id := prepared_id p; me_incarnation := sq_incarnation (pp_request p);
     me_writer := WriterOwner_raw (writer_owner (rs_writer (pp_spec p)));
     me_access := access_of (rs_writer (pp_spec p)); me_logical_len := prepared_logical_len p;
     me_mapped_len := mapped_of p; me_ordinal := 0; me_flags := REQUIRED_ENTRY_FLAGS |}.

Lemma region_entry_run p : prepared_wf p -> region_entry p = Ok (entry_of p).
Proof.
  intros Hwf. destruct (mapped_of_run (E := unit) p Hwf) as (Hm & Hl & Hu). destruct Hwf as [[m []] [Hid _]].
  unfold region_entry, native_spec. unfold prepared_mapped_len in Hm. rewrite Hm. cbn [rbind].
  unfold NativeRegionSpec_new. rewrite (proj2 (Z.eqb_neq _ _)) by lia.
  rewrite bool_decide_eq_false_2 by apply pok_incarnation. unfold prepared_logical_len in *.
  rewrite (proj2 (Z.eqb_neq (sq_logical_len _) _)) by lia. rewrite (proj2 (Z.ltb_ge _ _)) by lia. cbn [orb ok_or rbind].
  unfold entry_of, ManifestEntry_from_native, access_of. cbn. rewrite pok_writer. done.
Qed.

Lemma entry_of_wf p : prepared_wf p -> ManifestEntry_wf (entry_of p) /\ entry_ok (entry_of p).
Proof.
  intros Hwf. destruct (mapped_of_run (E := unit) p Hwf) as (_ & Hl & Hu). destruct Hwf as [[m []] [Hid Hu']].
  destruct pok_incarnation as [Hi Hi']. unfold ManifestEntry_wf, entry_ok, entry_of. cbn. split_and!; try done; try lia; try ulia.
  all: destruct (rs_writer (pp_spec p)); done.
Qed.

Lemma rcollect_map {E A B} (f : A -> res E B) (g : A -> B) l :
  Forall (fun x => f x = Ok (g x)) l -> rcollect f l = Ok (map g l).
Proof. induction 1 as [|x l Hx Hl IH]; [done|]. cbn. now rewrite Hx, IH. Qed.

Lemma manifest_entries_run b : batch_ok b -> TransferBatch_manifest_entries b = Ok (map entry_of (tb_regions b)).
Proof.
  intros []. apply rcollect_map. eapply Forall_impl; [exact bo_regions0|]. apply region_entry_run.
Qed.

Lemma sum_of_map f l : sum_of f (map entry_of l) = sum_over (fun p => f (entry_of p)) l.
Proof. unfold sum_of, sum_over. induction l as [|p l IH]; [done|]. cbn. now rewrite IH. Qed.

(** When [new_with_authority] succeeds. *)
Lemma new_succeeds nonce parent_pid child_pid transfer_id profile es :
  nonce <> zeros 32 -> parent_pid <> 0 -> child_pid <> 0 -> transfer_id <> 0 -> transfer_id <> U64_MAX ->
  1 <= len es <= 16 -> Forall ManifestEntry_wf es -> Forall entry_ok es -> sum_of me_mapped_len es <= U64_MAX ->
  NoDup (me_region_id <$> es) -> NoDup (me_incarnation <$> es) ->
  exists m, new_with_authority nonce parent_pid child_pid transfer_id profile es = Ok m /\
    tm_total_logical m = sum_of me_logical_len es /\ tm_total_mapped m = sum_of me_mapped_len es.
Proof.
  intros Hn Hp Hc Ht Ht' Hl Hwf Hok Hsum Hids Hinc. unfold new_with_authority, MAX_TRANSFER_ENTRIES.
  rewrite !bool_decide_eq_false_2; [|intros ->; unfold len in Hl; cbn in Hl; lia|done].
  replace (parent_pid =? 0) with false by lia. replace (child_pid =? 0) with false by lia.
  replace (transfer_id =? 0) with false by lia. replace (transfer_id =? U64_MAX) with false by lia.
  replace (16 <? len es) with false by lia. cbn [orb].
  pose proof (sum_le es Hok). rewrite account_ok by (done || lia). cbn [rbind].
  rewrite strict_adjacent_ids.
  2:{ apply sorted_nodup_strict; [apply id_leb_sorted|]. now rewrite sort_by_perm. }
  rewrite (proj2 (repeated_incarnation_false _)) by now rewrite sort_by_perm.
  rewrite number_entries_ok.
  2:{ unfold len in *. rewrite sort_by_perm. ulia. }
  cbn [rbind]. eexists. split; [reflexivity|]. cbn. split; lia.
Qed.

(** Sorting commutes with a key-preserving map. *)
Lemma sort_by_map {A B} (leb : A -> A -> bool) (leb' : B -> B -> bool) (f : A -> B) l :
  (forall a b, leb' (f a) (f b) = leb a b) -> sort_by leb' (map f l) = map f (sort_by leb l).
Proof.
  intros Hf. induction l as [|a l IH]; [done|]. cbn [map sort_by]. rewrite IH. generalize (sort_by leb l). clear -Hf.
  intros l. induction l as [|b l IH]; [done|]. cbn. rewrite Hf. destruct (leb a b); [done|]. cbn. now rewrite IH.
Qed.

Lemma reservation_lengths_run b :
  batch_ok b ->
  TransferBatch_reservation_lengths b = Ok (map mapped_of (sort_by (key_leb prepared_id) (tb_regions b))).
Proof.
  intros []. unfold TransferBatch_reservation_lengths.
  rewrite (rcollect_map _ (fun p => (prepared_id p, mapped_of p))).
  - cbn [rbind]. f_equal. rewrite (sort_by_map (key_leb prepared_id)) by done. now rewrite map_map.
  - eapply Forall_impl; [exact bo_regions0|]. intros p Hp.
    destruct (mapped_of_run (E := BatchError) p Hp) as (-> & _ & Hu). cbn [rbind]. now rewrite try_from_ok.
Qed.

(** The lengths the manifest announces are the lengths the ledger is charged. *)
Lemma announced_lengths b nonce parent_pid child_pid transfer_id profile m :
  batch_ok b -> new_with_authority nonce parent_pid child_pid transfer_id profile (map entry_of (tb_regions b)) = Ok m ->
  tm_entries m = numbered (map entry_of (sort_by (key_leb prepared_id) (tb_regions b))) /\
  TransferBatch_reservation_lengths b = Ok (map me_mapped_len (tm_entries m)).
Proof.
  intros Hb Hm. pose proof Hb as []. pose proof Hm as (_ & _ & _ & _ & _ & _ & Hes)%new_sound.
  2:{ rewrite Forall_map. eapply Forall_impl; [exact bo_regions0|]. intros p ?. now apply entry_of_wf. }
  rewrite (sort_by_map (key_leb prepared_id)) in Hes by done. split; [done|]. rewrite reservation_lengths_run by done. f_equal.
  rewrite Hes. transitivity (me_mapped_len <$> (entry_of <$> sort_by (key_leb prepared_id) (tb_regions b))).
  - now rewrite <- list_fmap_compose.
  - symmetry. now apply numbered_fmap.
Qed.

Lemma batch_fits b limits m :
  batch_ok b -> tb_max_regions b = sl_max_regions_per_batch limits -> tb_max_region_bytes b = sl_max_region_bytes limits ->
  tb_max_batch_bytes b = sl_max_batch_bytes limits -> tm_total_logical m = tb_total_logical b ->
  tm_total_mapped m = tb_total_mapped b -> tm_entries m = numbered (sort_by id_leb (map entry_of (tb_regions b))) ->
  fits_limits m limits = true.
Proof.
  intros [] H1 H2 H3 Hl Hm He.
  assert (Hlen : len (tm_entries m) = len (tb_regions b)).
  { rewrite He. unfold len, numbered. now rewrite length_imap, sort_by_perm, length_map. }
  unfold fits_limits. rewrite Hlen, Hl, Hm, !(proj2 (Z.leb_le _ _)) by lia. cbn [andb].
  apply forallb_forall. intros e Hin%list_elem_of_In. apply Z.leb_le. rewrite He in Hin.
  assert (Hall : Forall (fun e => me_logical_len e <= sl_max_region_bytes limits)
                   (numbered (sort_by id_leb (map entry_of (tb_regions b))))).
  { apply numbered_Forall; [done|]. rewrite sort_by_perm, Forall_map. cbn. rewrite <- H2. exact bo_region0. }
  rewrite Forall_forall in Hall. now apply Hall.
Qed.

(** A batch is always a valid manifest. Whatever regions a caller adds, in whatever
    order and whichever of the additions fail, a non-empty batch built under the
    session's limits yields manifest entries, and, their incarnations being
    distinct, a canonical manifest for every session and transaction number: the
    manifest's totals are the batch's running totals, it fits the limits, its
    entries are the batch's regions in the order of their identities, and the
    ledger is charged entry by entry with the lengths the manifest announces. *)
Theorem batch_manifest_exact limits ps b0 nonce parent_pid child_pid transfer_id profile :
  limits_nonneg limits -> Forall prepared_wf ps ->
  TransferBatch_new (sl_max_regions_per_batch limits) (sl_max_region_bytes limits) (sl_max_batch_bytes limits) = Ok b0 ->
  let b := add_all ps b0 in
  tb_regions b <> [] -> NoDup (map (fun p => sq_incarnation (pp_request p)) (tb_regions b)) ->
  nonce <> zeros 32 -> parent_pid <> 0 -> child_pid <> 0 -> transfer_id <> 0 -> transfer_id <> U64_MAX ->
  exists entries m, TransferBatch_manifest_entries b = Ok entries /\
    new_with_authority nonce parent_pid child_pid transfer_id profile entries = Ok m /\
    tm_total_logical m = tb_total_logical b /\ tm_total_mapped m = tb_total_mapped b /\
    fits_limits m limits = true /\
    tm_entries m = numbered (map entry_of (sort_by (key_leb prepared_id) (tb_regions b))) /\
    TransferBatch_reservation_lengths b = Ok (map me_mapped_len (tm_entries m)).
Proof.
  intros Hlim Hps Hnew b Hne Hinc Hn Hp Hc Ht Ht'.
  assert (Hb0 : batch_ok b0) by (eapply batch_ok_new; [..|exact Hnew]; destruct limits; limits_split; cbn in *; lia).
  destruct (add_all_ok ps b0 Hb0 Hps) as (Hb & H1 & H2 & H3). fold b in Hb, H1, H2, H3.
  assert (Hmax : tb_max_regions b0 = sl_max_regions_per_batch limits /\ tb_max_region_bytes b0 = sl_max_region_bytes limits /\
                 tb_max_batch_bytes b0 = sl_max_batch_bytes limits).
  { unfold TransferBatch_new in Hnew. destruct (_ || _); [discriminate|]. destruct (_ || _); [discriminate|]. now injection Hnew as <-. }
  destruct Hmax as (M1 & M2 & M3). pose proof Hb as [].
  set (es := map entry_of (tb_regions b)).
  assert (Hwf : Forall ManifestEntry_wf es /\ Forall entry_ok es).
  { unfold es. rewrite !Forall_map. split; (eapply Forall_impl; [exact bo_regions0|]); intros p ?; now apply entry_of_wf. }
  assert (Hsl : sum_of me_logical_len es = tb_total_logical b) by (unfold es; now rewrite sum_of_map, bo_logical0).
  assert (Hsm : sum_of me_mapped_len es = tb_total_mapped b) by (unfold es; now rewrite sum_of_map, bo_mapped0).
  assert (Hlen : len es = len (tb_regions b)) by (unfold es, len; now rewrite length_map).
  destruct (new_succeeds nonce parent_pid child_pid transfer_id profile es) as (m & Hm & Hml & Hmm); try done; try apply Hwf.
  - assert (0 < len (tb_regions b)); [|lia]. destruct (tb_regions b); [done|]. rewrite len_cons. pose proof (len_nonneg l). lia.
  - rewrite Hsm. apply bo_fits0.
  - unfold es. rewrite <- list_fmap_compose. exact bo_ids0.
  - unfold es. rewrite <- list_fmap_compose. exact Hinc.
  - destruct (announced_lengths b _ _ _ _ _ m Hb Hm) as [Hes Hlens]. exists es, m.
    split_and!; try congruence; [now apply manifest_entries_run|].
    apply (batch_fits b); try congruence. rewrite Hes. now rewrite (sort_by_map (key_leb prepared_id)).
Qed.

(** ** Committed region sets *)

Lemma insert_loop regions : forall keyed,
  match rfor regions insert_committed keyed with
  | Ok keyed' => NoDup (fst <$> regions) /\ (forall k, k ∈ fst <$> regions -> keyed !! k = None) /\
                 keyed' = list_to_map regions ∪ keyed
  | Err _ => ~ (NoDup (fst <$> regions) /\ forall k, k ∈ fst <$> regions -> keyed !! k = None)
  | Panic => False
  end.
Proof.
  induction regions as [|[id r] regions IH]; intros keyed; cbn [rfor].
  { split_and!; [constructor|set_solver|]. cbn. now rewrite (left_id_L ∅ (∪)). }
  unfold insert_committed at 1. cbn [fst snd fmap list_fmap]. destruct (keyed !! id) eqn:Hk.
  { cbn [rbind]. intros [_ H]. rewrite (H id) in Hk by constructor. discriminate. }
  cbn [rbind]. specialize (IH (<[id := r]> keyed)).
  destruct (rfor _ _ _) as [keyed'|e|]; [|intros [[Hid Hnd]%NoDup_cons H]; apply IH|done].
  - destruct IH as (Hnd & Hfresh & ->). split_and!; [apply NoDup_cons; split; [|done]| |].
    + intros Hin. specialize (Hfresh id Hin). now rewrite lookup_insert_eq in Hfresh.
    + intros k Hin. apply elem_of_cons in Hin as [->|Hin]; [done|]. specialize (Hfresh k Hin).
      rewrite lookup_insert_None in Hfresh. apply Hfresh.
    + cbn. rewrite <- insert_union_r; [now rewrite insert_union_l|].
      apply not_elem_of_list_to_map_1. intros Hin. specialize (Hfresh id Hin). now rewrite lookup_insert_eq in Hfresh.
  - split; [done|]. intros k Hin. apply lookup_insert_None. split; [apply H; now constructor|]. intros ->. contradiction.
Qed.

Definition authorities (regions : list (Z * CommittedRegion)) : list (Z * LocalRegionAuthority) :=
  (fun e => (fst e, authority_of (snd e))) <$> regions.

Lemma check_loop keyed expected :
  match rfor expected (check_committed keyed) tt with
  | Ok _ => Forall (fun e => exists r, keyed !! fst e = Some r /\ authority_of r = snd e) expected
  | Err _ => ~ Forall (fun e => exists r, keyed !! fst e = Some r /\ authority_of r = snd e) expected
  | Panic => False
  end.
Proof.
  induction expected as [|[id a] expected IH]; cbn [rfor]; [constructor|].
  assert (Hc : match check_committed keyed (id, a) tt with
               | Ok _ => exists r, keyed !! id = Some r /\ authority_of r = a
               | Err _ => ~ exists r, keyed !! id = Some r /\ authority_of r = a
               | Panic => False end).
  { unfold check_committed. cbn. destruct a, (keyed !! id) as [[r|w]|]; cbn; eauto; intros (x & [= <-] & [=]). }
  destruct (check_committed keyed (id, a) tt) as [[]|e|]; cbn [rbind]; [|rewrite Forall_cons; tauto|done].
  destruct (rfor _ _ _); rewrite ?Forall_cons; tauto.
Qed.

Lemma from_local_committed_total expected regions : from_local_committed expected regions <> Panic.
Proof.
  unfold from_local_committed. destruct (_ <? _); [done|]. destruct (first_duplicate _ _); [done|].
  pose proof (insert_loop regions ∅). destruct (rfor _ _ _); cbn [rbind]; try done.
  destruct (_ || _); [done|]. pose proof (check_loop a (sort_by (key_leb fst) expected)).
  destruct (rfor _ _ _) as [[]| |]; cbn [rbind]; done.
Qed.

(** The set exists exactly when the committed owners are the expected ones. *)
Lemma from_local_committed_iff expected regions keyed :
  from_local_committed expected regions = Ok keyed <->
  len expected <= 16 /\ NoDup (fst <$> expected) /\ NoDup (fst <$> regions) /\
  authorities regions ≡ₚ expected /\ keyed = list_to_map regions.
Proof.
  unfold from_local_committed.
  destruct (16 <? len expected) eqn:Hl; bsplit; [split; [done|lia]|].
  destruct (first_duplicate fst _) as [k|] eqn:Hd.
  { split; [done|]. intros (_ & Hn & _). apply first_duplicate_iff in Hn. congruence. }
  apply first_duplicate_iff in Hd.
  pose proof (insert_loop regions ∅) as Hi. destruct (rfor regions insert_committed ∅) as [k|e|]; [| |done].
  2:{ split; [done|]. intros (_ & _ & Hn & _). exfalso. apply Hi. split; [done|]. intros. apply lookup_empty. }
  destruct Hi as (Hnd & _ & ->). rewrite (right_id_L ∅ (∪)). cbn [rbind].
  assert (Hsize : Z.of_nat (size (list_to_map regions : gmap Z CommittedRegion)) = len regions).
  { unfold len. rewrite map_size_list_to_map by done. done. }
  assert (Hlook : forall e, (exists r, (list_to_map regions : gmap Z CommittedRegion) !! fst e = Some r /\ authority_of r = snd e)
                            <-> e ∈ authorities regions).
  { intros [id a]. unfold authorities. rewrite list_elem_of_fmap. cbn. split.
    - intros (r & Hr & <-). exists (id, r). split; [done|]. now apply elem_of_list_to_map_2.
    - intros ([id' r] & [= -> ->] & Hin). exists r. split; [now apply elem_of_list_to_map_1|done]. }
  assert (Hperm : Forall (fun e => e ∈ authorities regions) (sort_by (key_leb fst) expected) /\ len regions = len expected
                  <-> authorities regions ≡ₚ expected).
  { rewrite sort_by_perm. split.
    - intros [HF Hlen]. symmetry. apply submseteq_length_Permutation.
      + apply NoDup_submseteq; [now apply NoDup_fmap_1 in Hd|]. rewrite Forall_forall in HF. exact HF.
      + unfold authorities. rewrite length_fmap. unfold len in Hlen. lia.
    - intros Hp. split; [apply Forall_forall; intros e; now rewrite Hp|]. unfold len. rewrite <- Hp.
      unfold authorities. now rewrite length_fmap. }
  assert (Hsl : len (sort_by (key_leb fst) expected) = len expected) by (unfold len; now rewrite sort_by_perm).
  rewrite Hsize, Hsl. destruct (_ || _) eqn:Hs.
  { split; [done|]. intros (_ & _ & _ & Hp & _). apply Hperm in Hp as [_ Hp]. apply orb_true_iff in Hs as [Hs|Hs]; bsplit.
    all: lia. }
  bsplit. pose proof (check_loop (list_to_map regions) (sort_by (key_leb fst) expected)) as Hc.
  assert (Hc' : Forall (fun e => exists r, (list_to_map regions : gmap Z CommittedRegion) !! fst e = Some r /\ authority_of r = snd e)
                  (sort_by (key_leb fst) expected) <-> authorities regions ≡ₚ expected).
  { rewrite <- Hperm. split; [intros H; split; [|done]|intros [H _]]; (eapply Forall_impl; [exact H|]); intros e; apply Hlook. }
  destruct (rfor _ _ _) as [[]|e|]; cbn [rbind]; [| |done].
  - split; [intros [= <-]; tauto|]. intros (_ & _ & _ & _ & ->). done.
  - split; [done|]. tauto.
Qed.

(** ** Handing regions out *)

Inductive Take := TakeReader (id : Z) | TakeWriter (id : Z).

Definition run_take (t : Take) : stm ActiveRegionSet BatchError (Z * CommittedRegion) :=
  match t with
  | TakeReader id => let! r := take_reader id in sret (id, CommittedReader r)
  | TakeWriter id => let! w := take_writer id in sret (id, CommittedWriter w)
  end.

(** The regions a sequence of calls hands out, and what the set keeps. *)
Fixpoint run_takes (ts : list Take) (set : ActiveRegionSet) : list (Z * CommittedRegion) * ActiveRegionSet :=
  match ts with
  | [] => ([], set)
  | t :: ts => match run_take t set with
               | (Ok out, set) => let '(outs, set) := run_takes ts set in (out :: outs, set)
               | (_, set) => run_takes ts set
               end
  end.

Lemma run_take_spec t (set : gmap Z CommittedRegion) :
  match run_take t set with
  | (Ok (id, r), set') => set !! id = Some r /\ set' = delete id set
  | (Err _, set') => set' = set
  | (Panic, _) => False
  end.
Proof.
  destruct t as [id|id]; cbn; unfold take_reader, take_writer, sbind, sget, sput, sret, serr;
    destruct (set !! id) as [[r|w]|] eqn:E;
    try (split; [exact E|reflexivity]); reflexivity.
Qed.

Lemma run_takes_conserve ts : forall set : gmap Z CommittedRegion,
  let '(outs, rest) := run_takes ts set in outs ++ map_to_list rest ≡ₚ map_to_list set.
Proof.
  induction ts as [|t ts IH]; intros set; cbn [run_takes]; [done|].
  pose proof (run_take_spec t set) as H. destruct (run_take t set) as [[[id r]|e|] set'].
  - destruct H as [Hid ->]. specialize (IH (delete id set)). destruct (run_takes ts _) as [outs rest].
    cbn [app]. rewrite IH. now apply map_to_list_delete.
  - subst. apply IH.
  - done.
Qed.

(** A commit's region set is exact and affine. The set is built precisely when the
    committed owners are the expected identities, each once and with the expected
    local authority; and whatever sequence of [take_reader] and [take_writer]
    calls follows, every committed owner is handed out at most once, under its own
    identity, and is otherwise still in the set: none is lost or duplicated. *)
Theorem region_set_exact expected regions ts :
  (forall keyed, from_local_committed expected regions = Ok keyed <->
     len expected <= 16 /\ NoDup (fst <$> expected) /\ NoDup (fst <$> regions) /\
     authorities regions ≡ₚ expected /\ keyed = list_to_map regions) /\
  (forall keyed, from_local_committed expected regions = Ok keyed ->
     let '(outs, rest) := run_takes ts keyed in
     outs ++ map_to_list rest ≡ₚ regions /\ NoDup (fst <$> outs)).
Proof.
  split; [intros; apply from_local_committed_iff|]. intros keyed (_ & _ & Hnd & _ & ->)%from_local_committed_iff.
  pose proof (run_takes_conserve ts (list_to_map regions)) as H. destruct (run_takes ts _) as [outs rest].
  rewrite map_to_list_to_map in H by done. split; [done|].
  assert (Hnd' : NoDup (fst <$> (outs ++ map_to_list rest))) by now rewrite H.
  rewrite fmap_app in Hnd'. now apply NoDup_app in Hnd'.
Qed.

(** ** Witness *)

Definition request_of (tag : byte) (n logical : Z) (w : WriterEndpoint) : NativeShareRequest :=
  {| sq_inner := Some (zeros n); sq_incarnation := replicate 16 tag; sq_logical_len := logical;
     sq_permissions := writer_owner w; sq_cleanup := ClearThenRelease |}.
Definition prepared_of (id : Z) (tag : byte) (n logical : Z) (w : WriterEndpoint) : PreparedRegion :=
  {| pp_request := request_of tag n logical w; pp_spec := {| rs_id := id; rs_writer := w |};
     pp_guard := {| gc_requested := BestEffort; gc_installed := false |} |}.

(** The second region repeats an identity and is refused. *)
Definition sample_regions : list PreparedRegion :=
  [prepared_of 9 x01 64 60 CoordinatorWrites; prepared_of 9 x02 64 64 ReceiverWrites; prepared_of 4 x03 32 7 ReceiverWrites].

Lemma sample_regions_wf : Forall prepared_wf sample_regions.
Proof.
  repeat constructor; try (eexists; constructor; [reflexivity|..]; cbn; try done; vm_compute; split; congruence).
  all: vm_compute; congruence.
Qed.

Definition sample_batch : TransferBatch :=
  {| tb_regions := []; tb_max_regions := 16; tb_max_region_bytes := 268435456; tb_max_batch_bytes := 1073741824;
     tb_total_logical := 0; tb_total_mapped := 0 |}.

Lemma batch_manifest_exact_witness :
  exists entries m, TransferBatch_manifest_entries (add_all sample_regions sample_batch) = Ok entries /\
    new_with_authority sample_nonce 7 8 1 LinuxMdweV1 entries = Ok m /\ tm_total_mapped m = 96 /\
    TransferBatch_reservation_lengths (add_all sample_regions sample_batch) = Ok [32; 64].
Proof.
  destruct (batch_manifest_exact SessionLimits_default sample_regions sample_batch sample_nonce 7 8 1 LinuxMdweV1)
    as (entries & m & H1 & H2 & _ & H3 & _ & _ & _).
  - repeat (constructor; [discriminate|]). constructor.
  - apply sample_regions_wf.
  - reflexivity.
  - discriminate.
  - vm_compute. repeat constructor; set_solver.
  - discriminate.
  - lia.
  - lia.
  - lia.
  - unfold U64_MAX. lia.
  - exists entries, m. split; [exact H1|]. split; [exact H2|]. split; [rewrite H3; reflexivity|]. vm_compute. reflexivity.
Defined.

Definition sample_owner : ReadOwner :=
  {| rdo_as_ptr := 4096; rdo_len := 64; rdo_page_size := 64; rdo_guard_installed := false |}.
Definition sample_committed : list (Z * CommittedRegion) :=
  [(9, CommittedReader {| rd_owner := sample_owner; rd_lease := Some 64; rd_logical_len := 60; rd_guard_requested := BestEffort |});
   (4, CommittedWriter {| wt_owner := {| wro_read := sample_owner; wro_as_mut_ptr := 4096 |}; wt_lease := Some 64;
                          wt_logical_len := 7; wt_guard_requested := BestEffort |})].

Lemma region_set_exact_witness :
  exists keyed, from_local_committed [(4, LocalWriter); (9, LocalReader)] sample_committed = Ok keyed /\
    NoDup (fst <$> fst (run_takes [TakeReader 9; TakeReader 4; TakeReader 9; TakeWriter 4] keyed)).
Proof.
  destruct (region_set_exact [(4, LocalWriter); (9, LocalReader)] sample_committed
              [TakeReader 9; TakeReader 4; TakeReader 9; TakeWriter 4]) as [H1 H2].
  assert (H : from_local_committed [(4, LocalWriter); (9, LocalReader)] sample_committed = Ok (list_to_map sample_committed)).
  { apply H1. split; [unfold len; cbn; lia|]. split; [vm_compute; repeat constructor; set_solver|].
    split; [vm_compute; repeat constructor; set_solver|]. split; [apply Permutation_swap|reflexivity]. }
  exists (list_to_map sample_committed). split; [exact H|]. specialize (H2 _ H).
  destruct (run_takes _ _) as [outs rest]. apply H2.
Defined.
