(* ===== verification/Dispatcher.v ===== *)
(** * Dispatcher: the owner of an accepted session ([backend/accepted_control.rs])

    [AcceptedControlDispatcher] owns the transport, the sequence state of the
    control channel, the resource ledger and the transaction counter. Its
    methods are modelled on any transport of [Native.v]. A
    [CoordinatorCapabilityTransaction] borrows the dispatcher; it is modelled by
    its own fields and the dispatcher it borrows, and its destructor by
    [CoordinatorCapabilityTransaction_drop]. *)

From S2P Require Import Prelude Bytes Limits Manifest Control Liveness Native Resources.

Inductive AcceptedControlError :=
| AcceptedError_Control (error : ControlError)
| AcceptedError_Transport (error : SessionTransportError).

Inductive SessionState := SessionReady | SessionPoisoned.

Record Dispatcher (T : Type) := {
  d_transport : T;
  d_state : ControlState;
  d_maximum_wire_len : Z;
  d_parameters : AcceptedSessionParameters;
  d_next_transaction : Z;
  d_resources : SharedResources
}.
Arguments d_transport {T}.
Arguments d_state {T}.
Arguments d_maximum_wire_len {T}.
Arguments d_parameters {T}.
Arguments d_next_transaction {T}.
Arguments d_resources {T}.

Section Updates.
Context {T : Type}.
Implicit Types self : Dispatcher T.

Definition with_transport (t : T) self : Dispatcher T :=
  {| d_transport := t; d_state := d_state self; d_maximum_wire_len := d_maximum_wire_len self;
     d_parameters := d_parameters self; d_next_transaction := d_next_transaction self;
     d_resources := d_resources self |}.
Definition with_control (st : ControlState) self : Dispatcher T :=
  {| d_transport := d_transport self; d_state := st; d_maximum_wire_len := d_maximum_wire_len self;
     d_parameters := d_parameters self; d_next_transaction := d_next_transaction self;
     d_resources := d_resources self |}.
Definition with_next (n : Z) self : Dispatcher T :=
  {| d_transport := d_transport self; d_state := d_state self;
     d_maximum_wire_len := d_maximum_wire_len self; d_parameters := d_parameters self;
     d_next_transaction := n; d_resources := d_resources self |}.
Definition with_resources (sh : SharedResources) self : Dispatcher T :=
  {| d_transport := d_transport self; d_state := d_state self;
     d_maximum_wire_len := d_maximum_wire_len self; d_parameters := d_parameters self;
     d_next_transaction := d_next_transaction self; d_resources := sh |}.

(** Code that runs on one field. *)
Definition on_io {A} (m : io T A) : stm (Dispatcher T) SessionTransportError A :=
  fun self => let '(r, t) := m (d_transport self) in
              (match r with inl a => Ok a | inr e => Err e end, with_transport t self).
Definition on_native {E A} (m : stm T E A) : stm (Dispatcher T) E A :=
  fun self => let '(r, t) := m (d_transport self) in (r, with_transport t self).
Definition on_control {A} (m : stm ControlState ControlError A) : stm (Dispatcher T) ControlError A :=
  fun self => let '(r, st) := m (d_state self) in (r, with_control st self).
Definition on_resources {E A} (m : stm SharedResources E A) : stm (Dispatcher T) E A :=
  fun self => let '(r, sh) := m (d_resources self) in (r, with_resources sh self).

End Updates.

(** A frame function that cannot return [None]. *)
Definition infallible {E A} (m : res unit A) : res E A :=
  match m with Ok a => Ok a | _ => Panic end.

Section Methods.
Context {T : Type} {R : AuthenticatedZeroRightsTransport T} {C : Clock T} {AL : Allocator}.

Definition poison_both (self : Dispatcher T) : Dispatcher T :=
  {| d_transport := transport_poison (d_transport self); d_state := ControlState_poison (d_state self);
     d_maximum_wire_len := d_maximum_wire_len self; d_parameters := d_parameters self;
     d_next_transaction := d_next_transaction self;
     d_resources := ResourceOwner_poison (d_resources self) |}.

(** [if let Err(error) = m { self.poison_both(); return Err(error) }]. *)
Definition or_poison_both {E A} (m : stm (Dispatcher T) E A) : stm (Dispatcher T) E A :=
  fun self => match m self with
              | (Err e, self) => (Err e, poison_both self)
              | other => other
              end.

Definition transport_send (record : bytes) (deadline : Z)
  : stm (Dispatcher T) AcceptedControlError unit :=
  smap_err AcceptedError_Transport (on_io (send_record record deadline)).
Definition transport_receive (maximum_len deadline : Z)
  : stm (Dispatcher T) AcceptedControlError bytes :=
  smap_err AcceptedError_Transport (on_io (receive_record maximum_len deadline)).

(** ** Construction: [None] hands the transport back *)

Definition Dispatcher_new (transport : T) (parameters : AcceptedSessionParameters)
  : option (Dispatcher T) :=
  let limits := ap_limits parameters in
  let maximum_payload := sl_max_control_payload_bytes limits in
  match SessionLimits_validate limits with
  | Ok _ =>
      if negb (NativeAuthorityProfile_is_vnext (ap_authority_profile parameters)) then None else
      match try_from USIZE_MAX maximum_payload ≫= control_wire_len with
      | None => None
      | Some maximum_wire_len =>
          match ControlState_new (sf_nonce (ap_facts parameters)) maximum_payload with
          | None => None
          | Some state =>
              match ResourceOwner_new limits with
              | Ok resources =>
                  Some {| d_transport := transport; d_state := state;
                          d_maximum_wire_len := maximum_wire_len; d_parameters := parameters;
                          d_next_transaction := 1; d_resources := resources |}
              | _ => None
              end
          end
      end
  | _ => None
  end.

(** ** Application control *)

(** The encoding step of [send_parts]: on an error only the transport follows a
    poisoned sequence state. *)
Definition encode_wire (kind : Z) (payload : bytes) (wire_len : Z)
  : stm (Dispatcher T) AcceptedControlError bytes :=
  fun self =>
  match encode_parts_into kind payload (d_state self, zeros wire_len) with
  | (Ok _, (st, wire)) => (Ok wire, with_control st self)
  | (Err error, (st, _)) =>
      let self := with_control st self in
      (Err (AcceptedError_Control error),
       if cs_poisoned st then with_transport (transport_poison (d_transport self)) self else self)
  | (Panic, (st, _)) => (Panic, with_control st self)
  end.

Definition send_parts (kind : Z) (payload : bytes) (deadline : Z)
  : stm (Dispatcher T) AcceptedControlError unit :=
  let! self := sget in
  if cs_poisoned (d_state self) then serr (AcceptedError_Control ControlError_Poisoned) else
  let! wire_len :=
    match encoded_len_parts (d_state self) kind (len payload) with
    | Ok wire_len => sret wire_len
    | Err ((ControlError_TransactionConflict | ControlError_SequenceExhausted) as error) =>
        smodify poison_both >>! serr (AcceptedError_Control error)
    | Err error => serr (AcceptedError_Control error)
    | Panic => slift Panic
    end in
  if negb (try_reserve_exact wire_len)
  then serr (AcceptedError_Control ControlError_AllocationFailed) else
  let! wire := encode_wire kind payload wire_len in
  or_poison_both (transport_send wire deadline).

Definition send (frame : ControlFrame) (deadline : Z) : stm (Dispatcher T) AcceptedControlError unit :=
  send_parts (cfr_kind frame) (cfr_payload frame) deadline.

Definition receive (deadline : Z) : stm (Dispatcher T) AcceptedControlError ControlFrame :=
  let! self := sget in
  if cs_poisoned (d_state self) then serr (AcceptedError_Control ControlError_Poisoned) else
  or_poison_both (
    if cs_transaction_open (d_state self)
    then serr (AcceptedError_Control ControlError_TransactionConflict) else
    let! wire := transport_receive (d_maximum_wire_len self) deadline in
    if d_maximum_wire_len self <? len wire
    then serr (AcceptedError_Transport TransportError_RecordTooLarge) else
    smap_err AcceptedError_Control (on_control (decode_owned wire))).

Definition try_poll_peer : stm (Dispatcher T) AcceptedControlError PeerState :=
  let! self := sget in
  if cs_poisoned (d_state self) then serr (AcceptedError_Control ControlError_Poisoned) else
  let! state := or_poison_both (smap_err AcceptedError_Transport (on_io transport_try_poll_peer)) in
  match state with
  | Running => sret Running
  | ExitedUnknown => smodify poison_both >>! sret ExitedUnknown
  end.

Definition session_state (self : Dispatcher T) : res unit SessionState :=
  if cs_poisoned (d_state self) then Ok SessionPoisoned else
  match ResourceOwner_state (d_resources self) with
  | Ok Active => Ok SessionReady
  | Ok _ => Ok SessionPoisoned
  | _ => Panic
  end.

Definition active_lease_facts (self : Dispatcher T) : ActiveLeaseFacts :=
  ResourceOwner_active_lease_facts (d_resources self).

Definition try_close_resources : stm (Dispatcher T) ResourceError unit :=
  on_resources ResourceOwner_try_close.

Definition poison_session (self : Dispatcher T) : Dispatcher T := poison_both self.

Definition reserve (mapped_lengths : list Z) : stm (Dispatcher T) ResourceError (list Z) :=
  on_resources (reserve_mapped_lengths mapped_lengths).

(** ** Native transactions *)

Definition frame_matches_entries (self : Dispatcher T) (frame : CapabilityFrame)
  (entries : list ManifestEntry) : res unit bool :=
  match CapabilityFrame_decode (cf_bytes frame) with
  | Err _ => Ok false
  | Panic => Panic
  | Ok (_, manifest) =>
      let facts := ap_facts (d_parameters self) in
      match new_with_authority (sf_nonce facts) (sf_parent_pid facts) (sf_child_pid facts)
              (tm_transfer_id manifest) (ap_authority_profile (d_parameters self)) entries with
      | Err _ => Ok false
      | Panic => Panic
      | Ok expected => Ok (bool_decide (manifest = expected)
                           && fits_limits manifest (ap_limits (d_parameters self)))
      end
  end.

(** The guards that [begin_native_transaction] and [enter_native_transaction]
    start with. *)
Definition transaction_guard (deadline : Z) : stm (Dispatcher T) AcceptedControlError unit :=
  let! self := sget in
  if cs_poisoned (d_state self) then serr (AcceptedError_Control ControlError_Poisoned) else
  let! expired := on_native (is_expired deadline) in
  if (expired : bool) then serr (AcceptedError_Transport TransportError_DeadlineExpired) else
  if sl_max_transactions (ap_limits (d_parameters self)) <? d_next_transaction self
  then smodify poison_both >>! serr (AcceptedError_Control ControlError_SequenceExhausted) else
  sret tt.

Definition enter_native_transaction (deadline : Z) : stm (Dispatcher T) AcceptedControlError Z :=
  transaction_guard deadline >>!
  (fun self => match begin_transaction (d_state self) with
               | (Ok _, st) => (Ok tt, with_control st self)
               | (Err error, st) =>
                   let self := with_control st self in
                   (Err (AcceptedError_Control error),
                    if cs_poisoned st then with_transport (transport_poison (d_transport self)) self
                    else self)
               | (Panic, st) => (Panic, with_control st self)
               end) >>!
  let! self := sget in
  let transaction_id := d_next_transaction self in
  let! next := slift (expect (checked_add U64_MAX (d_next_transaction self) 1)) in
  smodify (with_next next) >>!
  sret transaction_id.

Definition begin_native_transaction (entries : list ManifestEntry) (deadline : Z)
  : stm (Dispatcher T) AcceptedControlError CapabilityFrame :=
  transaction_guard deadline >>!
  let! self := sget in
  let limits := ap_limits (d_parameters self) in
  let facts := ap_facts (d_parameters self) in
  let! manifest :=
    slift (map_err (fun _ => AcceptedError_Control ControlError_NonCanonical)
      (new_with_authority (sf_nonce facts) (sf_parent_pid facts) (sf_child_pid facts)
         (d_next_transaction self) (ap_authority_profile (d_parameters self)) entries)) in
  if negb (fits_limits manifest limits)
  then serr (AcceptedError_Control ControlError_PayloadTooLarge) else
  let! transaction_id := enter_native_transaction deadline in
  if negb (transaction_id =? tm_transfer_id manifest) then slift Panic else
  slift (infallible (CapabilityFrame_from_manifest manifest)).

(** ** The child's end *)

(** [terminate_and_reap]: the ledger is left to the session's destructor. *)
Definition terminate_and_reap {L : OwnedChildLifecycle T} (deadline : Z)
  : stm (Dispatcher T) SessionTransportError unit :=
  smodify (fun self => with_transport (transport_poison (d_transport self)) self) >>!
  smodify (fun self => with_control (ControlState_poison (d_state self)) self) >>!
  on_io (transport_terminate_and_reap deadline).

End Methods.

(** The facts of [session.rs] about a child's end, and the operations of the
    native transports that wait for it. *)

Inductive ChildExitStatus :=
| Exited (code : Z)
| Signaled (signal : Z) (dumped_core : bool)
| AlreadyReaped.
Inductive DescendantCleanupStatus :=
| NotEstablished
| FreshGroupUnverified
| FreshGroupTerminated
| ContainedProcessTreeComplete
| OwnedContainmentUnverified.

Record ChildCleanupFacts := {
  cc_direct_child : option ChildExitStatus;
  cc_descendants : DescendantCleanupStatus;
  cc_native_error : option Z
}.
Definition direct_child_complete (self : ChildCleanupFacts) : bool :=
  match cc_direct_child self with Some _ => true | None => false end.

Class ReapedChild (T : Type) := {
  wait_and_reap_facts : Z -> T -> ChildCleanupFacts * T;
  terminate_and_reap_facts : Z -> T -> ChildCleanupFacts * T
}.
Class ExitCodeChild (T : Type) := {
  wait_for_child_exit : Z -> io T Z;
  terminate_and_reap_code : Z -> io T Z
}.
Class WatchedPeer (T : Type) := wait_for_peer_exit : Z -> io T PeerState.

Section Children.
Context {T : Type} {R : AuthenticatedZeroRightsTransport T}.
Implicit Types self : Dispatcher T.

Definition wait_for_linux_child {L : ReapedChild T} (deadline : Z) self
  : ChildCleanupFacts * Dispatcher T :=
  let '(cleanup, t) := wait_and_reap_facts deadline (d_transport self) in
  let self := with_transport t self in
  (cleanup,
   if direct_child_complete cleanup || bool_decide (cc_native_error cleanup <> None)
   then poison_both self else self).
Definition abort_linux_child {L : ReapedChild T} (deadline : Z) self
  : ChildCleanupFacts * Dispatcher T :=
  let self := poison_both self in
  let '(cleanup, t) := terminate_and_reap_facts deadline (d_transport self) in
  (cleanup, with_transport t self).

(** The macOS methods have the same bodies. *)
Definition wait_for_macos_child {L : ReapedChild T} (deadline : Z) self
  : ChildCleanupFacts * Dispatcher T :=
  let '(cleanup, t) := wait_and_reap_facts deadline (d_transport self) in
  let self := with_transport t self in
  (cleanup,
   if direct_child_complete cleanup || bool_decide (cc_native_error cleanup <> None)
   then poison_both self else self).
Definition abort_macos_child {L : ReapedChild T} (deadline : Z) self
  : ChildCleanupFacts * Dispatcher T :=
  let self := poison_both self in
  let '(cleanup, t) := terminate_and_reap_facts deadline (d_transport self) in
  (cleanup, with_transport t self).

Definition wait_for_windows_child {L : ExitCodeChild T} (deadline : Z)
  : stm (Dispatcher T) SessionTransportError Z :=
  fun self =>
  let '(result, self) := on_io (wait_for_child_exit deadline) self in
  (result, match result with Err TransportError_DeadlineExpired => self | _ => poison_both self end).
Definition terminate_windows_child {L : ExitCodeChild T} (deadline : Z)
  : stm (Dispatcher T) SessionTransportError Z :=
  smodify (fun self => with_transport (transport_poison (d_transport self)) self) >>!
  smodify (fun self => with_control (ControlState_poison (d_state self)) self) >>!
  on_io (terminate_and_reap_code deadline).

Definition wait_for_linux_peer_exit {L : WatchedPeer T} (deadline : Z)
  : stm (Dispatcher T) SessionTransportError PeerState :=
  fun self =>
  match on_io (wait_for_peer_exit deadline) self with
  | (Ok ExitedUnknown, self) => (Ok ExitedUnknown, poison_both self)
  | (Ok Running, self) => (Ok Running, self)
  | (Err error, self) =>
      (Err error, if bool_decide (error <> TransportError_DeadlineExpired) then poison_both self else self)
  | (Panic, self) => (Panic, self)
  end.

End Children.

(** ** Coordinator-owned open transactions *)

Record CoordinatorTransaction (T : Type) := {
  ct_dispatcher : Dispatcher T;
  ct_frame : CapabilityFrame;
  ct_deadline : Z;
  ct_attempted : bool;
  ct_already_poisoned : bool
}.
Arguments ct_dispatcher {T}.
Arguments ct_frame {T}.
Arguments ct_deadline {T}.
Arguments ct_attempted {T}.
Arguments ct_already_poisoned {T}.

Section Transaction.
Context {T Cap : Type} {R : AuthenticatedZeroRightsTransport T}
        {CC : CoordinatorCapabilityTransport T Cap}.
Implicit Types self : CoordinatorTransaction T.

Definition with_dispatcher (d : Dispatcher T) self : CoordinatorTransaction T :=
  {| ct_dispatcher := d; ct_frame := ct_frame self; ct_deadline := ct_deadline self;
     ct_attempted := ct_attempted self; ct_already_poisoned := ct_already_poisoned self |}.
Definition set_attempted self : CoordinatorTransaction T :=
  {| ct_dispatcher := ct_dispatcher self; ct_frame := ct_frame self; ct_deadline := ct_deadline self;
     ct_attempted := true; ct_already_poisoned := ct_already_poisoned self |}.
Definition set_already self : CoordinatorTransaction T :=
  {| ct_dispatcher := ct_dispatcher self; ct_frame := ct_frame self; ct_deadline := ct_deadline self;
     ct_attempted := ct_attempted self; ct_already_poisoned := true |}.

Definition on_dispatcher {E A} (m : stm (Dispatcher T) E A) : stm (CoordinatorTransaction T) E A :=
  fun self => let '(r, d) := m (ct_dispatcher self) in (r, with_dispatcher d self).

Definition CoordinatorTransaction_poison self : CoordinatorTransaction T :=
  if ct_already_poisoned self then self
  else set_already (with_dispatcher (poison_both (ct_dispatcher self)) self).

(** [if let Err(error) = m { self.poison(); return Err(error) }]. *)
Definition or_poison {E A} (m : stm (CoordinatorTransaction T) E A) : stm (CoordinatorTransaction T) E A :=
  fun self => match m self with
              | (Err e, self) => (Err e, CoordinatorTransaction_poison self)
              | other => other
              end.

Definition CoordinatorTransaction_send (capabilities : Cap)
  : stm (CoordinatorTransaction T) AcceptedControlError unit :=
  or_poison (
    let! self := sget in
    if ct_attempted self then serr (AcceptedError_Control ControlError_ReplayOrReorder) else
    smodify set_attempted >>!
    on_dispatcher (smap_err AcceptedError_Transport
      (on_io (send_capability_record (ct_frame self) capabilities (ct_deadline self))))).

(** [receive_preparation] and [receive_completion] have the same body; a frame
    is its bytes. *)
Definition receive_preparation (expected : bytes)
  : stm (CoordinatorTransaction T) AcceptedControlError unit :=
  or_poison (
    let! self := sget in
    let! bytes := on_dispatcher (transport_receive (len expected) (ct_deadline self)) in
    if negb (frame_matches expected bytes)
    then serr (AcceptedError_Control ControlError_NonCanonical) else
    sret tt).
Definition receive_completion (expected : bytes)
  : stm (CoordinatorTransaction T) AcceptedControlError unit :=
  or_poison (
    let! self := sget in
    let! bytes := on_dispatcher (transport_receive (len expected) (ct_deadline self)) in
    if negb (frame_matches expected bytes)
    then serr (AcceptedError_Control ControlError_NonCanonical) else
    sret tt).

Definition send_preparation_bytes (bytes : bytes)
  : stm (CoordinatorTransaction T) AcceptedControlError unit :=
  or_poison (
    let! self := sget in
    on_dispatcher (transport_send bytes (ct_deadline self))).
Definition send_preparation (frame : bytes) : stm (CoordinatorTransaction T) AcceptedControlError unit :=
  send_preparation_bytes frame.
Definition send_completion (frame : bytes) : stm (CoordinatorTransaction T) AcceptedControlError unit :=
  send_preparation_bytes frame.

Definition finish : stm (CoordinatorTransaction T) AcceptedControlError unit :=
  or_poison (
    let! self := sget in
    if negb (ct_attempted self) then serr (AcceptedError_Control ControlError_ReplayOrReorder) else
    on_dispatcher (smap_err AcceptedError_Control (on_control end_transaction))) >>!
  smodify set_already.

(** [Drop]: the borrow of the dispatcher ends here. *)
Definition CoordinatorTransaction_drop self : Dispatcher T :=
  ct_dispatcher (CoordinatorTransaction_poison self).

End Transaction.
