(* ===== verification/DispatcherTheory.v ===== *)
(** * DispatcherTheory: an accepted session as an abstract machine

    Whatever the transport does, a dispatcher behaves as a small machine with
    three modes: open, inside a native transaction, dead. [abstract] forgets
    everything else; every method of the dispatcher is a step of the machine,
    with the records it exchanges. *)

From S2P Require Import Prelude Bytes Tools Limits Manifest ManifestTheory Control Liveness Native Resources Dispatcher.

(** ** The abstract session *)

Inductive Session :=
| SessionOpen (sent received transactions : Z)
| SessionBusy (sent received transactions : Z)
| SessionDead.

(** What a caller learns. *)
Inductive Reply :=
| ReplySent (f : ControlFrame)
| ReplyFrame (f : ControlFrame)
| ReplyPeer (p : PeerState)
| ReplyOpened (transaction : Z)
| ReplyClosed
| ReplyAborted
| ReplyError.

Section Machine.
Context (nonce : bytes) (maximum_payload maximum_transactions : Z).

Definition permitted (f : ControlFrame) : Prop :=
  u32 (cfr_kind f) /\ APPLICATION_CONTROL_KIND_MIN <= cfr_kind f /\
  len (cfr_payload f) <= maximum_payload.

Inductive session_step : Session -> Reply -> list Event -> Session -> Prop :=
| step_sent s r t f : permitted f ->
    session_step (SessionOpen s r t) (ReplySent f) [Sent (control_wire nonce (s + 1) f)]
                 (SessionOpen (s + 1) r t)
| step_delivered s r t f : permitted f ->
    session_step (SessionOpen s r t) (ReplyFrame f) [Received (control_wire nonce (r + 1) f)]
                 (SessionOpen s (r + 1) t)
| step_opened s r t : t < maximum_transactions ->
    session_step (SessionOpen s r t) (ReplyOpened (t + 1)) [] (SessionBusy s r (t + 1))
| step_closed s r t : session_step (SessionBusy s r t) ReplyClosed [] (SessionOpen s r t)
| step_running a : a <> SessionDead -> session_step a (ReplyPeer Running) [] a
| step_exited a : a <> SessionDead -> session_step a (ReplyPeer ExitedUnknown) [] SessionDead
| step_aborted a : session_step a ReplyAborted [] SessionDead
| step_refused a : session_step a ReplyError [] a
| step_failed a : session_step a ReplyError [] SessionDead
| step_rejected s r t w :
    (r + 1 < U64_MAX -> forall f, permitted f -> w <> control_wire nonce (r + 1) f) ->
    session_step (SessionOpen s r t) ReplyError [Received w] SessionDead.

Inductive session_steps : Session -> list Reply -> list Event -> Session -> Prop :=
| steps_nil a : session_steps a [] [] a
| steps_cons a r es b rs fs c :
    session_step a r es b -> session_steps b rs fs c -> session_steps a (r :: rs) (es ++ fs) c.

End Machine.

(** ** Calls *)

Inductive Call :=
| CallSend (f : ControlFrame) (deadline : Z)
| CallReceive (deadline : Z)
| CallPoll
| CallBegin (entries : list ManifestEntry) (deadline : Z)
| CallEnter (deadline : Z)
| CallEnd
| CallPoison.

(** The arguments a caller can pass, by their types. *)
Definition call_wf (c : Call) : Prop :=
  match c with
  | CallSend f _ => u32 (cfr_kind f)
  | CallBegin entries _ => Forall ManifestEntry_wf entries
  | _ => True
  end.

Section Calls.
Context {T : Type} {R : AuthenticatedZeroRightsTransport T} {C : Clock T} {AL : Allocator}.

Definition call (c : Call) : stm (Dispatcher T) AcceptedControlError Reply :=
  match c with
  | CallSend f deadline => send f deadline >>! sret (ReplySent f)
  | CallReceive deadline => let! f := receive deadline in sret (ReplyFrame f)
  | CallPoll => let! p := try_poll_peer in sret (ReplyPeer p)
  | CallBegin entries deadline =>
      let! self := sget in
      begin_native_transaction entries deadline >>! sret (ReplyOpened (d_next_transaction self))
  | CallEnter deadline => let! id := enter_native_transaction deadline in sret (ReplyOpened id)
  | CallEnd => smap_err AcceptedError_Control (on_control end_transaction) >>! sret ReplyClosed
  | CallPoison => smodify poison_session >>! sret ReplyAborted
  end.

Fixpoint run_calls (cs : list Call) (d : Dispatcher T) : list (res AcceptedControlError Reply) * Dispatcher T :=
  match cs with
  | [] => ([], d)
  | c :: cs => let '(r, d1) := call c d in let '(rs, d2) := run_calls cs d1 in (r :: rs, d2)
  end.

End Calls.

(** The reply a caller sees; [None] for a panic. *)
Definition reply_of (r : res AcceptedControlError Reply) : option Reply :=
  match r with Ok reply => Some reply | Err _ => Some ReplyError | Panic => None end.

(** ** The dispatcher's invariant *)

Definition parameters_wf (p : AcceptedSessionParameters) : Prop :=
  limits_nonneg (ap_limits p) /\ len (sf_nonce (ap_facts p)) = 32 /\
  u32 (sf_parent_pid (ap_facts p)) /\ u32 (sf_child_pid (ap_facts p)).

Record dispatcher_ok {T} (d : Dispatcher T) : Prop := {
  do_control : control_wf (d_state d);
  do_settled : cs_pending_receive (d_state d) = false;
  do_parameters : parameters_wf (d_parameters d);
  do_limits : limits_valid (ap_limits (d_parameters d));
  do_nonce : cs_nonce (d_state d) = sf_nonce (ap_facts (d_parameters d));
  do_payload : cs_maximum_payload (d_state d) = sl_max_control_payload_bytes (ap_limits (d_parameters d));
  do_wire : d_maximum_wire_len d = 72 + cs_maximum_payload (d_state d);
  do_next : 1 <= d_next_transaction d <= sl_max_transactions (ap_limits (d_parameters d)) + 1;
  do_ledger : exists held, balanced (d_resources d) held
}.

Definition abstract {T} (d : Dispatcher T) : Session :=
  let st := d_state d in
  if cs_poisoned st then SessionDead else
  (if cs_transaction_open st then SessionBusy else SessionOpen)
    (cs_next_send st - 1) (cs_next_receive st - 1) (d_next_transaction d - 1).

(** ** Preservation of the invariant by the elementary updates *)

Section Updates.
Context {T : Type} {R : AuthenticatedZeroRightsTransport T}.
Implicit Types d : Dispatcher T.

Lemma ok_transport t d : dispatcher_ok d -> dispatcher_ok (with_transport t d).
Proof. intros []. now constructor. Qed.

Lemma ok_control st d :
  dispatcher_ok d -> control_wf st -> cs_pending_receive st = false -> cs_nonce st = cs_nonce (d_state d) ->
  cs_maximum_payload st = cs_maximum_payload (d_state d) -> dispatcher_ok (with_control st d).
Proof. intros [] Hwf Hp Hn Hm. constructor; cbn; try done; congruence. Qed.

Lemma ok_poison d : dispatcher_ok d -> dispatcher_ok (poison_both d).
Proof.
  intros []. constructor; try done. destruct do_ledger0 as [held H]. exists held. now apply poison_balanced.
Qed.

Lemma ok_next d :
  dispatcher_ok d -> d_next_transaction d <= sl_max_transactions (ap_limits (d_parameters d)) ->
  dispatcher_ok (with_next (d_next_transaction d + 1) d).
Proof. intros [] Hle. constructor; try done. cbn. lia. Qed.

Lemma abstract_poison d : abstract (poison_both d) = SessionDead.
Proof. done. Qed.

Lemma abstract_dead d : cs_poisoned (d_state d) = true -> abstract d = SessionDead.
Proof. unfold abstract. now intros ->. Qed.

Lemma abstract_alive d : cs_poisoned (d_state d) = false -> abstract d <> SessionDead.
Proof. unfold abstract. intros ->. now destruct (cs_transaction_open _). Qed.

End Updates.
#[export] Hint Resolve ok_transport ok_poison : nipc.

(** ** Methods *)

Lemma hard_payload {T} (d : Dispatcher T) :
  dispatcher_ok d -> cs_maximum_payload (d_state d) <= HARD_MAX_CONTROL_PAYLOAD_BYTES.
Proof. intros []. rewrite do_payload0. destruct (ap_limits (d_parameters d)). cbn in *. limits_split. cbn in *. lia. Qed.

Lemma permitted_admissible {T} (d : Dispatcher T) f :
  dispatcher_ok d -> permitted (cs_maximum_payload (d_state d)) f <-> admissible (d_state d) f.
Proof.
  intros Hok%hard_payload. unfold permitted, admissible. split; [|tauto]. intros (?&?&?). split_and!; try done; lia.
Qed.

Lemma encoded_len_inv st kind n wl :
  0 <= n -> encoded_len_parts st kind n = Ok wl ->
  cs_poisoned st = false /\ cs_transaction_open st = false /\ APPLICATION_CONTROL_KIND_MIN <= kind /\
  n <= cs_maximum_payload st /\ n <= HARD_MAX_CONTROL_PAYLOAD_BYTES /\ cs_next_send st <> U64_MAX /\ wl = 72 + n.
Proof.
  intros Hn H. unfold encoded_len_parts in H. destruct (check_local_parts st kind n) eqn:Ec; try discriminate.
  unfold check_local_parts in Ec. cbn [rbind] in H. rinv Ec. apply ok_or_Ok, try_from_Some in E2 as [-> _].
  apply ok_or_Ok, checked_add_Some in H. unfold CONTROL_HEADER_LEN in H. bsplit. naive_solver lia.
Qed.

Lemma encoded_len_no_panic st kind n : encoded_len_parts st kind n <> Panic.
Proof.
  unfold encoded_len_parts, check_local_parts, ok_or. repeat case_match; cbn; try done; repeat case_match; done.
Qed.

Section Refinement.
Context {T : Type} {R : AuthenticatedZeroRightsTransport T} {C : Clock T} {AL : Allocator}.
Implicit Types d : Dispatcher (Traced T).

(** One call as a step of the machine. *)
Definition refines d (r : res AcceptedControlError Reply) d' : Prop :=
  dispatcher_ok d' /\ d_parameters d' = d_parameters d /\
  exists reply es, reply_of r = Some reply /\
    tr_log (d_transport d') = tr_log (d_transport d) ++ es /\
    session_step (sf_nonce (ap_facts (d_parameters d)))
      (sl_max_control_payload_bytes (ap_limits (d_parameters d)))
      (sl_max_transactions (ap_limits (d_parameters d))) (abstract d) reply es (abstract d').

Lemma refines_intro d r d' reply es :
  dispatcher_ok d' -> d_parameters d' = d_parameters d -> reply_of r = Some reply ->
  tr_log (d_transport d') = tr_log (d_transport d) ++ es ->
  session_step (sf_nonce (ap_facts (d_parameters d)))
    (sl_max_control_payload_bytes (ap_limits (d_parameters d)))
    (sl_max_transactions (ap_limits (d_parameters d))) (abstract d) reply es (abstract d') ->
  refines d r d'.
Proof. unfold refines. eauto 10. Qed.

(** The two ways a call fails: without any effect, or killing the session. *)
Lemma refines_refused d e d' :
  dispatcher_ok d' -> d_parameters d' = d_parameters d ->
  tr_log (d_transport d') = tr_log (d_transport d) -> abstract d' = abstract d ->
  refines d (Err e) d'.
Proof.
  intros Hok Hp Hl Ha. eapply (refines_intro _ _ _ ReplyError []); [done..|now rewrite app_nil_r|].
  rewrite Ha. constructor.
Qed.

Lemma refines_failed d e d' :
  dispatcher_ok d' -> d_parameters d' = d_parameters d ->
  tr_log (d_transport d') = tr_log (d_transport d) -> abstract d' = SessionDead ->
  refines d (Err e) d'.
Proof.
  intros Hok Hp Hl Ha. eapply (refines_intro _ _ _ ReplyError []); [done..|now rewrite app_nil_r|].
  rewrite Ha. constructor.
Qed.

(** What the transport's operations leave in the log. *)
Lemma wp_transport_send record deadline d (Q : res AcceptedControlError unit -> Dispatcher (Traced T) -> Prop) :
  (forall t, tr_log t = tr_log (d_transport d) ++ [Sent record] -> Q (Ok tt) (with_transport t d)) ->
  (forall e t, tr_log t = tr_log (d_transport d) -> Q (Err e) (with_transport t d)) ->
  wp (transport_send record deadline) Q d.
Proof.
  intros Hok Herr. unfold transport_send, wp, smap_err, on_io. cbn [send_record TracedTransport].
  unfold traced. destruct (send_record record deadline _) as [[[]|e] t]; cbn; [now apply Hok|].
  apply Herr. cbn. apply app_nil_r.
Qed.

Lemma wp_transport_receive maximum deadline d (Q : res AcceptedControlError bytes -> Dispatcher (Traced T) -> Prop) :
  (forall w t, tr_log t = tr_log (d_transport d) ++ [Received w] -> Q (Ok w) (with_transport t d)) ->
  (forall e t, tr_log t = tr_log (d_transport d) -> Q (Err e) (with_transport t d)) ->
  wp (transport_receive maximum deadline) Q d.
Proof.
  intros Hok Herr. unfold transport_receive, wp, smap_err, on_io. cbn [receive_record TracedTransport].
  unfold traced. destruct (receive_record maximum deadline _) as [[w|e] t]; cbn; [now apply Hok|].
  apply Herr. cbn. apply app_nil_r.
Qed.

Lemma wp_is_expired {E} deadline d (Q : res E bool -> Dispatcher (Traced T) -> Prop) :
  (forall b t, tr_log t = tr_log (d_transport d) -> Q (Ok b) (with_transport t d)) ->
  wp (on_native (is_expired deadline)) Q d.
Proof.
  intros H. unfold wp, on_native, is_expired, AbsoluteDeadline_remaining, sbind, sret. cbn [instant_now TracedClock].
  destruct (instant_now (tr_inner (d_transport d))) as [n t]. now apply H.
Qed.

Lemma wp_or_poison_both {E A} (m : stm (Dispatcher (Traced T)) E A) Q d :
  wp m (fun r d' => Q r (match r with Err _ => poison_both d' | _ => d' end)) d -> wp (or_poison_both m) Q d.
Proof. unfold wp, or_poison_both. now destruct (m d) as [[a|e|] d']. Qed.

Lemma encode_wire_run f d :
  dispatcher_ok d -> usable (d_state d) -> cs_next_send (d_state d) <> U64_MAX -> admissible (d_state d) f ->
  encode_wire (cfr_kind f) (cfr_payload f) (72 + len (cfr_payload f)) d
  = (Ok (control_wire (cs_nonce (d_state d)) (cs_next_send (d_state d)) f),
     with_control (set_next_send (cs_next_send (d_state d) + 1) (d_state d)) d).
Proof.
  intros [] Hus Hn Ha. pose proof (len_nonneg (cfr_payload f)). pose proof do_control0 as (_ & _ & ? & _).
  unfold encode_wire. rewrite encode_spec; [|done|done|lia|done|rewrite len_zeros; lia].
  rewrite len_zeros, slice_nil, app_nil_r by lia. done.
Qed.

Lemma send_refines f deadline d :
  dispatcher_ok d -> u32 (cfr_kind f) -> wp (call (CallSend f deadline)) (refines d) d.
Proof.
  intros Hok Hk. pose proof Hok as []. cbn [call]. unfold send, send_parts. wp_steps.
  { now apply refines_refused. }
  destruct (encoded_len_parts _ _ _) as [wl|e|] eqn:Hl.
  3:{ exfalso. now apply encoded_len_no_panic in Hl. }
  2:{ destruct e; wp_steps; first [now apply refines_refused
        | apply refines_failed; [now apply ok_poison|done..]]. }
  wp_steps; [now apply refines_refused|].
  apply encoded_len_inv in Hl as (Hpo & Htx & Hkm & Hpm & Hph & Hns & ->); [|apply len_nonneg].
  unfold wp at 1. rewrite encode_wire_run by done. cbn [bound]. apply wp_or_poison_both.
  assert (Hok' : dispatcher_ok (with_control (set_next_send (cs_next_send (d_state d) + 1) (d_state d)) d)).
  { destruct do_control0 as (? & ? & ? & ?). apply ok_control; try done. unfold control_wf. cbn. split_and!; done || lia. }
  apply wp_transport_send.
  - intros t Ht. wp_steps. eapply refines_intro; [now apply ok_transport|done|done|exact Ht|].
    unfold abstract. cbn. rewrite Hpo, Htx. rewrite do_nonce0 in *.
    replace (cs_next_send (d_state d)) with (cs_next_send (d_state d) - 1 + 1) at 2 by lia.
    replace (cs_next_send (d_state d) + 1 - 1) with (cs_next_send (d_state d) - 1 + 1) by lia.
    constructor. unfold permitted. rewrite <- do_payload0. done.
  - intros e t Ht. wp_steps. apply refines_failed; [now apply ok_poison, ok_transport|done|exact Ht|done].
Qed.

Lemma on_control_run {A} (m : stm ControlState ControlError A) d :
  on_control m d = (fst (m (d_state d)), with_control (snd (m (d_state d))) d).
Proof. unfold on_control. now destruct (m (d_state d)). Qed.

Lemma decode_settled s st :
  cs_pending_receive st = false -> cs_pending_receive (snd (decode_owned s st)) = false.
Proof.
  intros Hp. unfold decode_owned. destruct (_ <? _); [done|].
  unfold slift at 1, sbind at 1. destruct (index_range _ _ _); [|done..].
  unfold sbind at 1, validate_header, sget, smodify, serr, sret, slift, sbind at 1.
  destruct (validate_header_inner st _); cbn [sbind]; [|done..]. cbn. unfold sbind at 1, or_drop at 1.
  match goal with |- context [match ?m ?st' with _ => _ end] => destruct (m st') as [[pl|e|] st1] eqn:E end; [|done..].
  unfold finish_owned, or_drop. match goal with |- context [match ?m ?st' with _ => _ end] => destruct (m st') as [[?|?|] st2] eqn:E' end; [|done..].
  unfold sbind, sget, slift, smodify, sret, serr in E'. repeat case_match; simplify_eq; done.
Qed.

Lemma receive_refines deadline d :
  dispatcher_ok d -> wp (call (CallReceive deadline)) (refines d) d.
Proof.
  intros Hok. pose proof Hok as []. cbn [call]. unfold receive. wp_steps.
  { now apply refines_refused. }
  apply wp_or_poison_both. wp_steps.
  { apply refines_failed; [now apply ok_poison|done..]. }
  assert (Habs : abstract d = SessionOpen (cs_next_send (d_state d) - 1) (cs_next_receive (d_state d) - 1)
                                (d_next_transaction d - 1)) by (unfold abstract; now rewrite E, E0).
  assert (Hrej : forall e w d', dispatcher_ok d' -> d_parameters d' = d_parameters d ->
            tr_log (d_transport d') = tr_log (d_transport d) ++ [Received w] -> abstract d' = SessionDead ->
            (cs_next_receive (d_state d) < U64_MAX -> forall f, admissible (d_state d) f ->
               w <> control_wire (cs_nonce (d_state d)) (cs_next_receive (d_state d)) f) ->
            refines d (Err e) d').
  { intros e w d' Hok' Hp Ht Ha Hw. eapply (refines_intro _ _ _ ReplyError); [done..|].
    rewrite Ha, Habs. constructor. replace (cs_next_receive (d_state d) - 1 + 1) with (cs_next_receive (d_state d)) by lia.
    rewrite <- do_nonce0, <- do_payload0. intros Hlt f Hf. apply Hw; [done|]. now apply permitted_admissible. }
  apply wp_transport_receive.
  2:{ intros e t Ht. wp_steps. apply refines_failed; [now apply ok_poison, ok_transport|done|exact Ht|done]. }
  intros w t Ht. wp_steps.
  { bsplit. eapply Hrej; [now apply ok_poison, ok_transport|done|exact Ht|done|].
    intros _ f (_ & _ & Hf & _) ->. destruct do_control0 as (Hnl & _). rewrite control_wire_bytes in E1 by done. lia. }
  unfold wp at 1. rewrite on_control_run. cbn [d_state with_transport].
  destruct (control_decode_cases (d_state d) w) as [(f & Hus & Hn & Ha & Hw & ->)|(e & st & Hd & Href)]; [done| |].
  - cbn [fst snd map_err bound]. wp_steps. pose proof do_control0 as (? & ? & ? & ?).
    eapply refines_intro; [|done|done|exact Ht|].
    { apply ok_control; [now apply ok_transport| |done..]. unfold control_wf. cbn. split_and!; done || lia. }
    rewrite Habs, Hw, do_nonce0. unfold abstract. cbn [d_state with_control set_next_receive cs_poisoned
      cs_transaction_open cs_next_send cs_next_receive d_next_transaction with_transport]. rewrite E, E0.
    replace (cs_next_receive (d_state d)) with (cs_next_receive (d_state d) - 1 + 1) at 2 by lia.
    replace (cs_next_receive (d_state d) + 1 - 1) with (cs_next_receive (d_state d) - 1 + 1) by lia.
    constructor. rewrite <- do_payload0. now apply permitted_admissible.
  - rewrite Hd. cbn [fst snd map_err bound]. eapply Hrej; [|done|exact Ht|done|].
    + apply ok_poison, ok_control; [now apply ok_transport| | |apply Href..].
      * eapply refused_wf; eauto.
      * pose proof (decode_settled w (d_state d) do_settled0) as Hs. now rewrite Hd in Hs.
    + intros Hlt f Hf ->. rewrite decode_accepts in Hd by done. discriminate.
Qed.

Lemma with_transport_same d : with_transport (d_transport d) d = d.
Proof. now destruct d. Qed.

Lemma poll_refines d : dispatcher_ok d -> wp (call CallPoll) (refines d) d.
Proof.
  intros Hok. cbn [call]. unfold try_poll_peer. wp_steps; [now apply refines_refused|].
  pose proof (abstract_alive _ E) as Ha.
  apply wp_or_poison_both, wp_map_err. unfold wp at 1, on_io. cbn [transport_try_poll_peer TracedTransport].
  unfold traced. destruct (transport_try_poll_peer _) as [[[]|e] t]; cbn [map_err bound]; wp_steps;
    [eapply (refines_intro _ _ _ (ReplyPeer Running) [])|eapply (refines_intro _ _ _ (ReplyPeer ExitedUnknown) [])
    |eapply (refines_intro _ _ _ ReplyError [])]; try done; auto with nipc; try now constructor.
Qed.

(** What the shared guards of the two ways into a transaction establish. *)
Lemma wp_guard deadline d (Q : res AcceptedControlError unit -> Dispatcher (Traced T) -> Prop) :
  (forall e t, tr_log t = tr_log (d_transport d) -> Q (Err e) (with_transport t d)) ->
  (forall e t, tr_log t = tr_log (d_transport d) -> Q (Err e) (poison_both (with_transport t d))) ->
  (forall t, tr_log t = tr_log (d_transport d) -> cs_poisoned (d_state d) = false ->
     d_next_transaction d <= sl_max_transactions (ap_limits (d_parameters d)) ->
     Q (Ok tt) (with_transport t d)) ->
  wp (transaction_guard deadline) Q d.
Proof.
  intros Hr Hf Hok. unfold transaction_guard. wp_steps.
  { rewrite <- (with_transport_same d). now apply Hr. }
  apply wp_is_expired. intros b t Ht. wp_steps; [now apply Hr|now apply Hf|]. bsplit. now apply Hok.
Qed.

Lemma begin_run st :
  cs_poisoned st = false -> cs_pending_receive st = false ->
  begin_transaction st = if cs_transaction_open st then (Err ControlError_TransactionConflict, set_poisoned st)
                         else (Ok tt, set_transaction true st).
Proof. intros Hp Hs. unfold begin_transaction, sbind, sget. rewrite Hp, Hs, orb_false_r. now destruct (cs_transaction_open st). Qed.

Lemma end_run st :
  end_transaction st = if cs_poisoned st then (Err ControlError_Poisoned, st) else
                       if cs_transaction_open st then (Ok tt, set_transaction false st)
                       else (Err ControlError_TransactionConflict, set_poisoned st).
Proof. unfold end_transaction, sbind, sget. destruct (cs_poisoned st), (cs_transaction_open st); done. Qed.

Lemma enter_refines deadline d :
  dispatcher_ok d ->
  wp (enter_native_transaction deadline)
     (fun r d' => match r with Ok id => id = d_next_transaction d | _ => True end /\
                  refines d (match r with Ok id => Ok (ReplyOpened id) | Err e => Err e | Panic => Panic end) d') d.
Proof.
  intros Hok. pose proof Hok as []. unfold enter_native_transaction. wp_steps. apply wp_guard; cbn [bound].
  - intros e t Ht. split; [done|]. apply refines_refused; auto with nipc.
  - intros e t Ht. split; [done|]. apply refines_failed; auto with nipc.
  - intros t Ht Hp Hn. wp_steps. unfold wp at 1. cbn [d_state with_transport].
    rewrite begin_run by done. destruct (cs_transaction_open (d_state d)) eqn:Htx.
    + cbn [cs_poisoned set_poisoned bound]. split; [done|].
      apply refines_failed; [|done|exact Ht|done]. apply ok_transport, ok_control; auto with nipc.
    + cbn [bound]. wp_steps.
      assert (Hmax : sl_max_transactions (ap_limits (d_parameters d)) <= 2 ^ 48).
      { destruct (ap_limits (d_parameters d)). cbn in *. limits_split. cbn in *. lia. }
      cbn [d_next_transaction with_control with_transport]. rewrite checked_add_ok by ulia. cbn [expect bound]. wp_steps.
      split; [done|]. eapply (refines_intro _ _ _ (ReplyOpened (d_next_transaction d)) []); [|done|done|cbn; now rewrite app_nil_r|].
      * refine (ok_next (with_control (set_transaction true (d_state d)) (with_transport t d)) _ Hn).
        apply ok_control; auto with nipc.
      * unfold abstract. cbn [d_state with_control with_next with_transport set_transaction cs_poisoned cs_transaction_open
          cs_next_send cs_next_receive d_next_transaction]. rewrite Hp, Htx.
        replace (d_next_transaction d) with (d_next_transaction d - 1 + 1) at 2 by lia.
        replace (d_next_transaction d + 1 - 1) with (d_next_transaction d - 1 + 1) by lia. constructor. lia.
Qed.

Lemma refines_shift t d r d' :
  tr_log t = tr_log (d_transport d) -> refines (with_transport t d) r d' -> refines d r d'.
Proof. unfold refines. cbn. now intros ->. Qed.

(** The manifest a dispatcher builds for its next transaction. *)
Definition next_manifest d (entries : list ManifestEntry) : res unit TransferManifest :=
  let facts := ap_facts (d_parameters d) in
  new_with_authority (sf_nonce facts) (sf_parent_pid facts) (sf_child_pid facts) (d_next_transaction d)
    (ap_authority_profile (d_parameters d)) entries.

Lemma next_manifest_ok d entries m :
  dispatcher_ok d -> Forall ManifestEntry_wf entries -> next_manifest d entries = Ok m ->
  manifest_ok m /\ manifest_widths m /\ tm_transfer_id m = d_next_transaction d.
Proof.
  intros [] He Hm. pose proof Hm as (_ & _ & _ & _ & Hid & _)%new_sound; [|done].
  destruct do_parameters0 as (_ & Hn & Hp & Hc).
  assert (Hmax : sl_max_transactions (ap_limits (d_parameters d)) <= 2 ^ 48).
  { destruct (ap_limits (d_parameters d)). cbn in *. limits_split. cbn in *. lia. }
  apply new_widths in Hm as [H1 H2]; try done. ulia.
Qed.

(** Beginning a transaction: the frame announces exactly the given entries under
    the transaction's number, and the limits admit it. *)
Lemma begin_run_spec entries deadline d :
  dispatcher_ok d -> Forall ManifestEntry_wf entries ->
  wp (begin_native_transaction entries deadline)
     (fun r d' =>
        match r with
        | Ok frame => exists m, next_manifest d entries = Ok m /\ fits_limits m (ap_limits (d_parameters d)) = true /\
                                CapabilityFrame_from_manifest m = Ok frame
        | _ => True
        end /\
        refines d (match r with Ok _ => Ok (ReplyOpened (d_next_transaction d)) | Err e => Err e | Panic => Panic end) d') d.
Proof.
  intros Hok He. unfold begin_native_transaction. wp_steps. apply wp_guard; cbn [bound].
  - intros e t Ht. split; [done|]. apply refines_refused; auto with nipc.
  - intros e t Ht. split; [done|]. apply refines_failed; auto with nipc.
  - intros t Ht Hp Hn. wp_steps. cbn [d_parameters d_next_transaction with_transport]. fold (next_manifest d entries).
    destruct (next_manifest d entries) as [m|[]|] eqn:Hm.
    3:{ exfalso. now apply new_no_panic in Hm. }
    2:{ wp_steps. split; [done|]. apply refines_refused; auto with nipc. }
    wp_steps. { split; [done|]. apply refines_refused; auto with nipc. } bsplit.
    destruct (next_manifest_ok d entries m Hok He Hm) as (Hmo & Hmw & Hid).
    eapply wp_mono; [apply enter_refines; auto with nipc|].
    intros [id|e|] d' [Hi Hr]; cbn [bound].
    + cbn in Hi. subst id. rewrite Hid, Z.eqb_refl. cbn [negb]. wp_steps.
      rewrite capability_frame_ok by done. cbn [infallible].
      split; [eexists; rewrite capability_frame_ok by done; done|]. now apply (refines_shift t).
    + split; [done|]. now apply (refines_shift t).
    + split; [done|]. now apply (refines_shift t).
Qed.

Lemma call_refines c d : dispatcher_ok d -> call_wf c -> wp (call c) (refines d) d.
Proof.
  intros Hok Hc. destruct c as [f deadline|deadline| |entries deadline|deadline| |]; cbn [call_wf] in Hc.
  - now apply send_refines.
  - now apply receive_refines.
  - now apply poll_refines.
  - cbn [call]. wp_steps. eapply wp_mono; [now apply begin_run_spec|].
    intros [id|e|] d' [_ H]; cbn [bound]; wp_steps; exact H.
  - cbn [call]. wp_steps. eapply wp_mono; [now apply enter_refines|].
    intros [id|e|] d' [_ H]; cbn [bound]; wp_steps; exact H.
  - cbn [call]. wp_steps. unfold wp. rewrite on_control_run, end_run.
    destruct (cs_poisoned (d_state d)) eqn:Hp; [|destruct (cs_transaction_open (d_state d)) eqn:Htx];
      cbn [fst snd map_err bound]; wp_steps.
    + apply refines_failed; try done; [apply ok_control; destruct Hok; done|]. unfold abstract. cbn. now rewrite Hp.
    + eapply (refines_intro _ _ _ ReplyClosed []); [apply ok_control; destruct Hok; done|done|done|now rewrite app_nil_r|].
      unfold abstract. cbn. rewrite Hp, Htx. constructor.
    + apply refines_failed; try done. apply ok_control; destruct Hok; done.
  - cbn [call]. wp_steps. eapply (refines_intro _ _ _ ReplyAborted []); [now apply ok_poison|done|done|now rewrite app_nil_r|].
    constructor.
Qed.

End Refinement.

(** ** Whole sessions *)

Lemma new_ok {T} (t : T) p d :
  parameters_wf p -> Dispatcher_new t p = Some d ->
  dispatcher_ok d /\ abstract d = SessionOpen 0 0 0 /\ d_parameters d = p /\ d_transport d = t.
Proof.
  intros Hp H. pose proof Hp as (Hnn & Hlen & _). unfold Dispatcher_new in H.
  destruct (SessionLimits_validate (ap_limits p)) as [l| |] eqn:Hv; try discriminate.
  apply validate_iff in Hv as [Hv ->]; [|done]. destruct (negb _); [discriminate|].
  assert (Hmax : 0 < sl_max_control_payload_bytes (ap_limits p) <= HARD_MAX_CONTROL_PAYLOAD_BYTES /\
                 0 < sl_max_transactions (ap_limits p) /\ sl_max_active_regions (ap_limits p) < 2 ^ 32 /\
                 sl_max_active_bytes (ap_limits p) < 2 ^ 64 /\ 0 < sl_max_active_regions (ap_limits p) /\
                 0 < sl_max_active_bytes (ap_limits p)).
  { destruct (ap_limits p). cbn in *. limits_split. cbn in *. lia. }
  unfold HARD_MAX_CONTROL_PAYLOAD_BYTES in Hmax. rewrite try_from_ok in H by ulia. cbn in H.
  unfold control_wire_len, CONTROL_HEADER_LEN in H. rewrite checked_add_ok in H by ulia.
  unfold ControlState_new in H. destruct (_ || _) eqn:Hz; [discriminate|]. bsplit.
  unfold ResourceOwner_new in H.
  destruct (SessionLimits_validate (ap_limits p)) as [l| |] eqn:Hv'; try discriminate.
  apply validate_iff in Hv' as [_ ->]; [|done]. cbn in H. injection H as <-.
  split; [|done]. constructor; try done; cbn [d_next_transaction d_parameters d_state]; try lia.
  - unfold control_wf. cbn. split_and!; ulia || done.
  - exists []. constructor; cbn; try done; auto; change (len (A := Z) []) with 0; lia.
Qed.

Section Sessions.
Context {T : Type} {R : AuthenticatedZeroRightsTransport T} {C : Clock T} {AL : Allocator}.

Lemma run_refines cs : forall (d : Dispatcher (Traced T)),
  dispatcher_ok d -> Forall call_wf cs ->
  let '(rs, d') := run_calls cs d in
  dispatcher_ok d' /\ d_parameters d' = d_parameters d /\
  exists replies es, map reply_of rs = map Some replies /\
    tr_log (d_transport d') = tr_log (d_transport d) ++ es /\
    session_steps (sf_nonce (ap_facts (d_parameters d)))
      (sl_max_control_payload_bytes (ap_limits (d_parameters d)))
      (sl_max_transactions (ap_limits (d_parameters d))) (abstract d) replies es (abstract d').
Proof.
  induction cs as [|c cs IH]; intros d Hok Hwf; cbn [run_calls].
  - split_and!; try done. exists [], []. rewrite app_nil_r. split_and!; try done. constructor.
  - apply Forall_cons in Hwf as [Hc Hwf]. destruct (call c d) as [r d1] eqn:Hcall.
    destruct (wp_elim _ _ _ _ _ (call_refines c d Hok Hc) Hcall) as (Hok1 & Hp1 & reply & es & Hr & Hl & Hs).
    specialize (IH d1 Hok1 Hwf). destruct (run_calls cs d1) as [rs d2].
    destruct IH as (Hok2 & Hp2 & replies & es2 & Hrs & Hl2 & Hs2). rewrite Hp1 in *.
    split_and!; [done|congruence|]. exists (reply :: replies), (es ++ es2). cbn [map]. rewrite Hr, Hrs.
    split_and!; [done|now rewrite Hl2, Hl, app_assoc|]. econstructor; eauto.
Qed.

(** C5: An accepted session refines the abstract machine. Whatever the transport, the
    clock and the allocator do, and whatever sequence of calls a client makes,
    no call panics, the dispatcher's invariant holds, and the replies and the
    records exchanged are those of a run of the machine from its open state:
    frames are sent and delivered only outside a transaction and within the
    limits, a transaction number is granted only when none is open, a refused
    call changes nothing, and a dead session never exchanges a record again. *)
Theorem dispatcher_refines (t : Traced T) p d cs :
  parameters_wf p -> Forall call_wf cs -> Dispatcher_new t p = Some d ->
  let '(rs, d') := run_calls cs d in
  dispatcher_ok d' /\
  exists replies es, map reply_of rs = map Some replies /\
    tr_log (d_transport d') = tr_log t ++ es /\
    session_steps (sf_nonce (ap_facts p)) (sl_max_control_payload_bytes (ap_limits p))
      (sl_max_transactions (ap_limits p)) (SessionOpen 0 0 0) replies es (abstract d').
Proof.
  intros Hp Hcs Hd. destruct (new_ok t p d Hp Hd) as (Hok & <- & <- & <-).
  pose proof (run_refines cs d Hok Hcs) as H. destruct (run_calls cs d) as [rs d'].
  destruct H as (H1 & _ & H2). auto.
Qed.

End Sessions.

(** ** What a run of the machine exchanges *)

Definition frame_sent (r : Reply) : option ControlFrame :=
  match r with ReplySent f => Some f | _ => None end.
Definition frame_delivered (r : Reply) : option ControlFrame :=
  match r with ReplyFrame f => Some f | _ => None end.
Definition transaction_opened (r : Reply) : option Z :=
  match r with ReplyOpened t => Some t | _ => None end.
Definition record_sent (e : Event) : option bytes := match e with Sent w => Some w | _ => None end.
Definition record_received (e : Event) : option bytes := match e with Received w => Some w | _ => None end.

Section Streams.
Context (nonce : bytes) (maximum_payload maximum_transactions : Z).
Abbreviation steps := (session_steps nonce maximum_payload maximum_transactions).

Lemma dead_silent a rs es b : steps a rs es b -> a = SessionDead ->
  b = SessionDead /\ es = [] /\ omap frame_sent rs = [] /\ omap frame_delivered rs = [] /\
  omap transaction_opened rs = [].
Proof.
  induction 1 as [|a r es b rs fs c Hs Hss IH]; [auto|]. intros ->.
  inversion Hs; subst; destruct IH as (-> & -> & H1 & H2 & H3); auto.
Qed.

(** The counters an abstract session carries. *)
Definition counters (a : Session) : Z * Z * Z :=
  match a with SessionOpen s r t | SessionBusy s r t => (s, r, t) | SessionDead => (0, 0, 0) end.

Lemma stream_of a rs es b : steps a rs es b -> a <> SessionDead ->
  let '(s, r, t) := counters a in
  omap record_sent es = wires nonce (s + 1) (omap frame_sent rs) /\
  (exists rest, omap record_received es = wires nonce (r + 1) (omap frame_delivered rs) ++ rest /\
     (rest = [] \/ b = SessionDead /\ len rest = 1)) /\
  omap transaction_opened rs = seqZ (t + 1) (len (omap transaction_opened rs)) /\
  t + len (omap transaction_opened rs) <= Z.max t maximum_transactions.
Proof.
  induction 1 as [a|a r es b rs fs c Hs Hss IH]; intros Ha.
  - destruct (counters a) as [[s r] t]. cbn. split_and!; try done; [exists []; auto|change (len (A := Z) []) with 0; lia].
  - assert (Hdead : b = SessionDead -> omap record_sent fs = [] /\ omap record_received fs = [] /\
              omap frame_sent rs = [] /\ omap frame_delivered rs = [] /\ omap transaction_opened rs = [] /\ c = SessionDead).
    { intros Hb. destruct (dead_silent _ _ _ _ Hss Hb) as (? & -> & ? & ? & ?). auto 10. }
    rewrite !omap_app. pose proof (len_nonneg (omap transaction_opened rs)).
    assert (Hend : a <> SessionDead -> b = SessionDead -> omap record_received es = [] ->
              omap record_sent es = [] -> frame_sent r = None -> frame_delivered r = None ->
              transaction_opened r = None ->
              let '(s, r0, t) := counters a in
              omap record_sent es ++ omap record_sent fs = wires nonce (s + 1) (omap frame_sent (r :: rs)) /\
              (exists rest, omap record_received es ++ omap record_received fs
                            = wires nonce (r0 + 1) (omap frame_delivered (r :: rs)) ++ rest /\
                 (rest = [] \/ c = SessionDead /\ len rest = 1)) /\
              omap transaction_opened (r :: rs) = seqZ (t + 1) (len (omap transaction_opened (r :: rs))) /\
              t + len (omap transaction_opened (r :: rs)) <= Z.max t maximum_transactions).
    { intros _ Hb E1 E2 E3 E4 E5. destruct (Hdead Hb) as (D1 & D2 & D3 & D4 & D5 & _).
      destruct (counters a) as [[s0 r0] t0]. cbn. rewrite E1, E2, E3, E4, E5, D1, D2, D3, D4, D5.
      split_and!; try done; [exists []; auto|change (len (A := Z) []) with 0; lia]. }
    inversion Hs; subst; try congruence; try (apply Hend; done).
    all: try (specialize (IH ltac:(done)); destruct (counters b) as [[s0 r0] t0]; exact IH).
    all: cbn [counters omap list_omap frame_sent frame_delivered transaction_opened record_sent record_received app] in *.
    + destruct IH as (H1 & (rest & H2 & H2') & H3 & H4); [done|].
      rewrite wires_cons, H1. split_and!; eauto.
    + destruct IH as (H1 & (rest & H2 & H2') & H3 & H4); [done|].
      rewrite wires_cons, H2. split_and!; eauto.
    + destruct IH as (H1 & (rest & H2 & H2') & H3 & H4); [done|].
      rewrite len_cons. split_and!; eauto; [|lia].
      rewrite seqZ_cons by lia. f_equal. rewrite H3 at 1. f_equal; lia.
    + apply IH. done.
    + destruct (Hdead eq_refl) as (D1 & D2 & D3 & D4 & D5 & ->). rewrite D1, D2, D3, D4, D5.
      split_and!; try done; [exists [w]; auto|change (len (A := Z) []) with 0; lia].
Qed.

End Streams.

(** C6: The streams of a session. In any run of an accepted session from its creation,
    the records it sent are exactly the frames its caller was told were sent, in
    order and numbered from one; the records it received are exactly the frames
    it delivered, in order and numbered from one, followed by at most one record,
    which killed the session; the transaction numbers it granted are 1, 2, 3, ...
    and never exceed the negotiated maximum. *)
Theorem session_stream {T} {R : AuthenticatedZeroRightsTransport T} {C : Clock T} {AL : Allocator}
  (t : T) p d cs :
  parameters_wf p -> Forall call_wf cs -> Dispatcher_new {| tr_inner := t; tr_log := [] |} p = Some d ->
  let '(rs, d') := run_calls cs d in
  let log := tr_log (d_transport d') in
  let nonce := sf_nonce (ap_facts p) in
  exists replies, map reply_of rs = map Some replies /\
    omap record_sent log = wires nonce 1 (omap frame_sent replies) /\
    (exists rest, omap record_received log = wires nonce 1 (omap frame_delivered replies) ++ rest /\
       (rest = [] \/ cs_poisoned (d_state d') = true /\ len rest = 1)) /\
    omap transaction_opened replies = seqZ 1 (len (omap transaction_opened replies)) /\
    len (omap transaction_opened replies) <= sl_max_transactions (ap_limits p).
Proof.
  intros Hp Hcs Hd. destruct (new_ok _ p d Hp Hd) as (Hok & Ha & Hpar & Ht).
  pose proof (run_refines cs d Hok Hcs) as H. destruct (run_calls cs d) as [rs d'].
  destruct H as (Hok' & _ & replies & es & Hr & Hl & Hs). rewrite Ha, Hpar in Hs. rewrite Ht in Hl. cbn [tr_log app] in Hl.
  destruct (stream_of _ _ _ _ _ _ _ Hs) as (H1 & (rest & H2 & H2') & H3 & H4); [done|].
  exists replies. rewrite Hl. split_and!; try done; [|].
  - exists rest. split; [done|]. destruct H2' as [|[Hdead ?]]; [now left|right]. split; [|done].
    unfold abstract in Hdead. destruct (cs_poisoned (d_state d')); [done|].
    destruct (cs_transaction_open (d_state d')); discriminate.
  - assert (0 < sl_max_transactions (ap_limits p)); [|lia]. rewrite <- Hpar. destruct Hok, (ap_limits (d_parameters d)).
    cbn in *. limits_split. cbn in *. lia.
Qed.

(** ** Witnesses *)

(** A transport whose peer echoes every record. *)
Record EchoTransport := { et_queue : list bytes; et_dead : bool }.

#[export] Instance EchoZeroRights : AuthenticatedZeroRightsTransport EchoTransport := {
  send_record := fun record _ t =>
    if et_dead t then (inr TransportError_Poisoned, t)
    else (inl tt, {| et_queue := et_queue t ++ [record]; et_dead := false |});
  receive_record := fun _ _ t =>
    if et_dead t then (inr TransportError_Poisoned, t) else
    match et_queue t with
    | [] => (inr TransportError_DeadlineExpired, t)
    | record :: rest => (inl record, {| et_queue := rest; et_dead := false |})
    end;
  transport_try_poll_peer := fun t => (if et_dead t then inr TransportError_Poisoned else inl Running, t);
  transport_poison := fun t => {| et_queue := et_queue t; et_dead := true |}
}.

#[export] Instance EchoLaws : TransportLaws EchoTransport.
Proof.
  refine {| transport_poisoned := et_dead |}; cbn; try done; intros; destruct (et_dead t); try discriminate; eauto.
Defined.

#[export] Instance EchoClock : Clock EchoTransport := { instant_now := fun t => (1, t); instant_max := U64_MAX }.
#[export] Instance EveryAllocation : Allocator := fun _ => true.

Definition sample_parameters : AcceptedSessionParameters :=
  {| ap_facts := {| sf_parent_pid := 7; sf_child_pid := 8; sf_parent_uid := 0; sf_parent_gid := 0; sf_child_uid := 0;
                    sf_child_gid := 0; sf_nonce := sample_nonce |};
     ap_limits := SessionLimits_default; ap_authority_profile := LinuxMdweV1;
     ap_atomics := {| ac_atomic_u32_lock_free := true; ac_atomic_u32_alignment := 4; ac_atomic_u64_lock_free := true;
                      ac_atomic_u64_alignment := 8; ac_page_alignment := 4096; ac_cache_line_alignment := 64 |};
     ap_protocol_version := {| pv_major := 1; pv_minor := 0 |} |}.

Lemma sample_parameters_wf : parameters_wf sample_parameters.
Proof. split; [repeat (constructor; [discriminate|]); constructor|]. split; [reflexivity|]. split; split; discriminate. Qed.

Definition quiet {T} (t : T) : Traced T := {| tr_inner := t; tr_log := [] |}.
Definition echo_dispatcher : Dispatcher (Traced EchoTransport) := Eval vm_compute in
  match Dispatcher_new (quiet {| et_queue := []; et_dead := false |}) sample_parameters with
  | Some d => d
  | None => with_next 0 (with_next 0 (Build_Dispatcher _ (quiet {| et_queue := []; et_dead := false |})
      sample_control 0 sample_parameters 0 fresh_shared))
  end.

(** Two frames out, both echoed back, a transaction, and a send inside it. *)
Definition sample_calls : list Call :=
  [CallSend {| cfr_kind := 0x80000001; cfr_payload := [x01] |} 9; CallSend {| cfr_kind := 0x80000002; cfr_payload := [] |} 9;
   CallReceive 9; CallReceive 9; CallEnter 9; CallEnd; CallEnter 9;
   CallSend {| cfr_kind := 0x80000001; cfr_payload := [] |} 9; CallReceive 9].

Lemma sample_calls_wf : Forall call_wf sample_calls.
Proof. repeat constructor; discriminate. Qed.

Lemma dispatcher_refines_witness :
  map reply_of (fst (run_calls sample_calls echo_dispatcher))
  = map Some [ReplySent {| cfr_kind := 0x80000001; cfr_payload := [x01] |};
              ReplySent {| cfr_kind := 0x80000002; cfr_payload := [] |};
              ReplyFrame {| cfr_kind := 0x80000001; cfr_payload := [x01] |};
              ReplyFrame {| cfr_kind := 0x80000002; cfr_payload := [] |};
              ReplyOpened 1; ReplyClosed; ReplyOpened 2; ReplyError; ReplyError] /\
  exists replies es, session_steps sample_nonce (1024 * 1024) (2 ^ 32) (SessionOpen 0 0 0) replies es SessionDead.
Proof.
  split; [vm_compute; reflexivity|].
  pose proof (dispatcher_refines (quiet {| et_queue := []; et_dead := false |}) sample_parameters echo_dispatcher
                sample_calls sample_parameters_wf sample_calls_wf eq_refl) as H.
  assert (Hd : abstract (snd (run_calls sample_calls echo_dispatcher)) = SessionDead) by (vm_compute; reflexivity).
  destruct (run_calls sample_calls echo_dispatcher) as [rs d']. cbn [snd] in Hd. rewrite Hd in H.
  destruct H as (_ & replies & es & _ & _ & Hs). exists replies, es. exact Hs.
Defined.

Lemma session_stream_witness :
  exists replies, map reply_of (fst (run_calls sample_calls echo_dispatcher)) = map Some replies /\
    omap transaction_opened replies = [1; 2].
Proof.
  pose proof (session_stream {| et_queue := []; et_dead := false |} sample_parameters echo_dispatcher
                sample_calls sample_parameters_wf sample_calls_wf eq_refl) as H.
  assert (Hr : map reply_of (fst (run_calls sample_calls echo_dispatcher))
               = map Some [ReplySent {| cfr_kind := 0x80000001; cfr_payload := [x01] |};
              ReplySent {| cfr_kind := 0x80000002; cfr_payload := [] |};
              ReplyFrame {| cfr_kind := 0x80000001; cfr_payload := [x01] |};
              ReplyFrame {| cfr_kind := 0x80000002; cfr_payload := [] |};
              ReplyOpened 1; ReplyClosed; ReplyOpened 2; ReplyError; ReplyError]) by (vm_compute; reflexivity).
  destruct (run_calls sample_calls echo_dispatcher) as [rs d']. destruct H as (replies & H1 & _ & _ & H2 & _).
  exists replies. split; [exact H1|]. cbn [fst] in Hr. rewrite H1 in Hr. apply (inj (fmap Some)) in Hr.
  rewrite Hr. reflexivity.
Defined.
