(* ===== verification/Expected.v ===== *)
(** * Expected: what a receiver fixes before any capability arrives

    The native form of an [ExpectedBatch] on the three platforms
    ([linux_vnext/memory.rs], [macos_vnext/memory.rs], [windows_vnext/memory.rs]):
    its construction under the session limits, the page rounding of every
    length, and the comparison with a received manifest. The page size is asked
    of the system; its answer is [page_query]. *)

From S2P Require Import Prelude Tools Layout LayoutGeometry Limits Manifest ManifestTheory Native Region Batch.

(** ** Page rounding *)

Definition ISIZE_MAX : Z := 9223372036854775807.
Definition OFF_T_MAX : Z := 9223372036854775807.

(** The answer of [sysconf(_SC_PAGESIZE)], [getpagesize] or [GetSystemInfo], and
    the value of [errno]. *)
Class PageQuery := { page_query : Z; last_os_error : Z }.

Inductive MemfdError :=
| MemfdError_InvalidSize
| MemfdError_InvalidBatch
| MemfdError_UnsupportedDirection
| MemfdError_DeadlineExpired
| MemfdError_DeadlineMismatch
| MemfdError_InvalidObject
| MemfdError_WrongObject
| MemfdError_WrongProvenance
| MemfdError_ExecutableAuthorityUnsupported
| MemfdError_GuardUnavailable
| MemfdError_Native (code : Z).

(** The errors of [MachError] these functions raise, and the others by a number. *)
Inductive MachError := MachZeroSize | MachSizeOverflow (requested : Z) | MachInvalidPageSize (size : Z) | MachOther (code : Z).
Inductive MacBatchError :=
| MacBatchError_InvalidBatch
| MacBatchError_InvalidSize
| MacBatchError_DeadlineExpired
| MacBatchError_WrongProvenance
| MacBatchError_WrongObject
| MacBatchError_GuardUnavailable
| MacBatchError_Mach (error : MachError).
(** [WindowsError], less the names of the operations and the wrapped layout and
    binding errors. *)
Inductive WindowsError :=
| WindowsOs (code : Z)
| WindowsInvalidSize (size : Z)
| WindowsWrongPeer
| WindowsInvalidHandle
| WindowsLayout
| WindowsBinding
| WindowsInvalidBootstrap
| WindowsMissingBootstrap
| WindowsCapabilityAlreadyTransferred
| WindowsTimedOut
| WindowsChildExit (code : Z)
| WindowsForeignPending.
Inductive WindowsBatchError :=
| WindowsBatchError_InvalidBatch
| WindowsBatchError_InvalidSize
| WindowsBatchError_DeadlineExpired
| WindowsBatchError_WrongProvenance
| WindowsBatchError_WrongObject
| WindowsBatchError_WrongAccess
| WindowsBatchError_GuardUnavailable
| WindowsBatchError_Native (error : WindowsError).

(** [value & !(page - 1)] on a [usize]. *)
Definition page_mask (value page : Z) : Z := Z.land value (U64_MAX - (page - 1)).

Section Expectations.
Context {PQ : PageQuery}.

Definition native_page_size : res MemfdError Z :=
  match try_from USIZE_MAX page_query with
  | Some page => if is_power_of_two page then Ok page else Err (MemfdError_Native last_os_error)
  | None => Err (MemfdError_Native last_os_error)
  end.

Definition linux_page_align (size : Z) : res MemfdError Z :=
  if size =? 0 then Err MemfdError_InvalidSize else
  let? page := native_page_size in
  match checked_add USIZE_MAX size (page - 1) with
  | Some sum =>
      let value := page_mask sum page in
      if (value <=? OFF_T_MAX) && (value <=? ISIZE_MAX) then Ok value else Err MemfdError_InvalidSize
  | None => Err MemfdError_InvalidSize
  end.

Definition mac_page_size : res MachError Z :=
  match try_from USIZE_MAX page_query with
  | None => Err (MachInvalidPageSize page_query)
  | Some converted =>
      if (converted =? 0) || negb (is_power_of_two converted) then Err (MachInvalidPageSize page_query)
      else Ok converted
  end.

Definition mac_page_align (size page_size : Z) : res MachError Z :=
  if size =? 0 then Err MachZeroSize else
  let? aligned :=
    match checked_add USIZE_MAX size (page_size - 1) with
    | Some sum => Ok (page_mask sum page_size)
    | None => Err (MachSizeOverflow size)
    end in
  if ISIZE_MAX <? aligned then Err (MachSizeOverflow size) else Ok aligned.

(** [dwPageSize] is a [u32]. *)
Definition windows_page_align (size : Z) : res WindowsError Z :=
  if size =? 0 then Err (WindowsInvalidSize size) else
  let page := page_query in
  if (page =? 0) || negb (is_power_of_two page) then Err (WindowsInvalidSize size) else
  match checked_add USIZE_MAX size (page - 1) with
  | Some sum =>
      let value := page_mask sum page in
      if value <=? ISIZE_MAX then Ok value else Err (WindowsInvalidSize size)
  | None => Err (WindowsInvalidSize size)
  end.

(** ** Expectations *)

Record ExpectedEntry := { ee_id : Z; ee_writer : WriterEndpoint; ee_logical_len : Z; ee_mapped_len : Z }.
Record Expectation := {
  ex_entries : list ExpectedEntry;
  ex_total_logical : Z;
  ex_total_mapped : Z;
  ex_deadline : Z
}.

Context {T : Type} {C : Clock T}.

Definition check_deadline {E} (expired_error : E) (deadline : Z) : stm T E unit :=
  let! expired := is_expired deadline in
  if (expired : bool) then serr expired_error else sret tt.

Definition linux_expected_entry (limits : SessionLimits) (deadline : Z) (region : ExpectedRegion)
  (state : Z * list ExpectedEntry) : stm T MemfdError (Z * list ExpectedEntry) :=
  let '(total_mapped, entries) := state in
  check_deadline MemfdError_DeadlineExpired deadline >>!
  let! logical_len :=
    slift (match try_from U64_MAX (er_logical_len region) with
           | Some logical => if logical <=? sl_max_region_bytes limits then Ok logical
                             else Err MemfdError_InvalidBatch
           | None => Err MemfdError_InvalidBatch
           end) in
  let! mapped_len := slift (linux_page_align (er_logical_len region)) in
  let! mapped_len := slift (ok_or (try_from U64_MAX mapped_len) MemfdError_InvalidSize) in
  let! total_mapped :=
    slift (match checked_add U64_MAX total_mapped mapped_len with
           | Some total =>
               if (total <=? sl_max_batch_bytes limits) && (total <=? sl_max_active_bytes limits)
               then Ok total else Err MemfdError_InvalidBatch
           | None => Err MemfdError_InvalidBatch
           end) in
  sret (total_mapped, entries ++ [{| ee_id := er_id region; ee_writer := er_writer region;
                                     ee_logical_len := logical_len; ee_mapped_len := mapped_len |}]).

Definition too_large (expected : ExpectedBatch) (limits : SessionLimits) : bool :=
  (sl_max_regions_per_batch limits <? len (eb_regions expected))
  || (sl_max_active_regions limits <? len (eb_regions expected))
  || (sl_max_batch_bytes limits <? eb_total_logical expected).

(** [LinuxExpectedMixedDirectionBatch::prepare]. *)
Definition linux_expected_prepare (expected : ExpectedBatch) (limits : SessionLimits) (deadline : Z)
  : stm T MemfdError Expectation :=
  check_deadline MemfdError_DeadlineExpired deadline >>!
  if too_large expected limits then serr MemfdError_InvalidBatch else
  let! done := sfor (eb_regions expected) (linux_expected_entry limits deadline) (0, []) in
  sret {| ex_entries := snd done; ex_total_logical := eb_total_logical expected;
          ex_total_mapped := fst done; ex_deadline := deadline |}.

Definition mac_expected_entry (limits : SessionLimits) (native_page_size : Z) (region : ExpectedRegion)
  (state : Z * list ExpectedEntry) : res MacBatchError (Z * list ExpectedEntry) :=
  let '(total_mapped, entries) := state in
  let? logical := ok_or (try_from U64_MAX (er_logical_len region)) MacBatchError_InvalidSize in
  if sl_max_region_bytes limits <? logical then Err MacBatchError_InvalidSize else
  let? mapped_len := map_err MacBatchError_Mach (mac_page_align (er_logical_len region) native_page_size) in
  let? mapped := ok_or (try_from U64_MAX mapped_len) MacBatchError_InvalidSize in
  let? total_mapped := ok_or (checked_add U64_MAX total_mapped mapped) MacBatchError_InvalidSize in
  Ok (total_mapped, entries ++ [{| ee_id := er_id region; ee_writer := er_writer region;
                                   ee_logical_len := er_logical_len region; ee_mapped_len := mapped_len |}]).

(** [MacExpectedMixedDirectionBatch::new]. *)
Definition mac_expected_new (expected : ExpectedBatch) (limits : SessionLimits) (deadline : Z)
  : stm T MacBatchError Expectation :=
  check_deadline MacBatchError_DeadlineExpired deadline >>!
  slift (map_err (fun _ => MacBatchError_InvalidBatch) (SessionLimits_validate limits)) >>!
  if too_large expected limits then serr MacBatchError_InvalidBatch else
  let! native_page_size := slift (map_err MacBatchError_Mach mac_page_size) in
  let! done := slift (rfor (eb_regions expected) (mac_expected_entry limits native_page_size) (0, [])) in
  if (sl_max_batch_bytes limits <? fst done) || (sl_max_active_bytes limits <? fst done)
  then serr MacBatchError_InvalidSize else
  sret {| ex_entries := snd done; ex_total_logical := eb_total_logical expected;
          ex_total_mapped := fst done; ex_deadline := deadline |}.

Definition windows_expected_entry (limits : SessionLimits) (region : ExpectedRegion)
  (state : Z * list ExpectedEntry) : res WindowsBatchError (Z * list ExpectedEntry) :=
  let '(total_mapped, entries) := state in
  let? logical := ok_or (try_from U64_MAX (er_logical_len region)) WindowsBatchError_InvalidSize in
  if sl_max_region_bytes limits <? logical then Err WindowsBatchError_InvalidSize else
  let? mapped_len := map_err WindowsBatchError_Native (windows_page_align (er_logical_len region)) in
  let? mapped := ok_or (try_from U64_MAX mapped_len) WindowsBatchError_InvalidSize in
  let? total_mapped := ok_or (checked_add U64_MAX total_mapped mapped) WindowsBatchError_InvalidSize in
  Ok (total_mapped, entries ++ [{| ee_id := er_id region; ee_writer := er_writer region;
                                   ee_logical_len := er_logical_len region; ee_mapped_len := mapped_len |}]).

(** [WindowsExpectedMixedDirectionBatch::new]. *)
Definition windows_expected_new (expected : ExpectedBatch) (limits : SessionLimits) (deadline : Z)
  : stm T WindowsBatchError Expectation :=
  check_deadline WindowsBatchError_DeadlineExpired deadline >>!
  slift (map_err (fun _ => WindowsBatchError_InvalidBatch) (SessionLimits_validate limits)) >>!
  if too_large expected limits then serr WindowsBatchError_InvalidBatch else
  let! done := slift (rfor (eb_regions expected) (windows_expected_entry limits) (0, [])) in
  if (sl_max_batch_bytes limits <? fst done) || (sl_max_active_bytes limits <? fst done)
  then serr WindowsBatchError_InvalidSize else
  sret {| ex_entries := snd done; ex_total_logical := eb_total_logical expected;
          ex_total_mapped := fst done; ex_deadline := deadline |}.

End Expectations.

Definition expectation_len (self : Expectation) : Z := len (ex_entries self).
Definition reservation_lengths (self : Expectation) : list Z := map ee_mapped_len (ex_entries self).

Definition writer_is_receiver (w : WriterEndpoint) : bool :=
  match w with ReceiverWrites => true | CoordinatorWrites => false end.

Definition requires_imported_sealed (self : Expectation) : bool :=
  existsb (fun entry => writer_is_receiver (ee_writer entry)) (ex_entries self).

(** The pair (writer, access) an entry must announce. *)
Definition announced (w : WriterEndpoint) : Z * PeerAccess :=
  match w with CoordinatorWrites => (0, ReadOnly) | ReceiverWrites => (1, SoleWriter) end.

Definition entry_matches (ordinal : nat) (expected : ExpectedEntry) (received : ManifestEntry) : bool :=
  let '(writer, access) := announced (ee_writer expected) in
  (me_region_id received =? ee_id expected)
  && (me_writer received =? writer)
  && bool_decide (me_access received = access)
  && (me_logical_len received =? ee_logical_len expected)
  && (me_mapped_len received =? ee_mapped_len expected)
  && (me_ordinal received =? Z.of_nat ordinal).

(** [iter().zip(..).enumerate().all(..)]. *)
Fixpoint all_match (ordinal : nat) (expected : list ExpectedEntry) (received : list ManifestEntry) : bool :=
  match expected, received with
  | e :: es, r :: rs => entry_matches ordinal e r && all_match (S ordinal) es rs
  | _, _ => true
  end.

Definition linux_matches_manifest (self : Expectation) (manifest : TransferManifest) : bool :=
  (len (tm_entries manifest) =? len (ex_entries self))
  && (tm_total_logical manifest =? ex_total_logical self)
  && (tm_total_mapped manifest =? ex_total_mapped self)
  && all_match 0 (ex_entries self) (tm_entries manifest).

Definition mac_matches_manifest (self : Expectation) (manifest : TransferManifest) : bool :=
  bool_decide (tm_authority_profile manifest = MacMachV1)
  && (len (tm_entries manifest) =? len (ex_entries self))
  && (tm_total_logical manifest =? ex_total_logical self)
  && (tm_total_mapped manifest =? ex_total_mapped self)
  && all_match 0 (ex_entries self) (tm_entries manifest).

Definition windows_matches_manifest (self : Expectation) (manifest : TransferManifest) : bool :=
  bool_decide (tm_authority_profile manifest = WindowsSectionsV1)
  && (len (tm_entries manifest) =? len (ex_entries self))
  && (tm_total_logical manifest =? ex_total_logical self)
  && (tm_total_mapped manifest =? ex_total_mapped self)
  && all_match 0 (ex_entries self) (tm_entries manifest).

(** * A receiver accepts exactly the manifest it expects *)

(** ** Pages *)

Lemma pow2_inv z : is_power_of_two z = true -> z <= U64_MAX -> exists k, 0 <= k <= 63 /\ z = 2 ^ k.
Proof.
  unfold is_power_of_two. intros H Hm. bsplit. exists (Z.log2 z). pose proof (Z.log2_spec z H) as [Hlo Hhi].
  pose proof (Z.log2_nonneg z).
  assert (Z.log2 z < 64) by (apply Z.log2_lt_pow2; ulia).
  split; [lia|]. destruct (Z.eq_dec z (2 ^ Z.log2 z)) as [|Hne]; [done|]. exfalso.
  assert (Hlog : Z.log2 (z - 1) = Z.log2 z) by (apply Z.log2_unique; lia).
  assert (Hbit : Z.testbit (Z.land z (z - 1)) (Z.log2 z) = true).
  { rewrite Z.land_spec, Z.bit_log2 by lia. rewrite <- Hlog, Z.bit_log2; [done|]. lia. }
  rewrite H0, Z.bits_0 in Hbit. discriminate.
Qed.

Lemma page_mask_round size page :
  is_power_of_two page = true -> 0 <= size -> size + (page - 1) <= U64_MAX -> page <= U64_MAX ->
  page_mask (size + (page - 1)) page = round_up size page /\ size <= round_up size page.
Proof.
  intros Hp Hs Hm Hmax. destruct (pow2_inv page Hp Hmax) as (k & Hk & ->).
  assert (0 < 2 ^ k) by (apply Z.pow_pos_nonneg; lia).
  destruct (align_up_pow2 size k ltac:(ulia) Hk) as (_ & Hle & _ & _). split; [|done].
  unfold page_mask. rewrite land_high_ones by ulia. unfold round_up. do 2 f_equal. lia.
Qed.

Section Pages.
Context {PQ : PageQuery}.

Definition page_known : Prop := is_power_of_two page_query = true /\ page_query <= U64_MAX.

Lemma native_page_size_Ok p : native_page_size = Ok p -> p = page_query /\ page_known.
Proof.
  unfold native_page_size, page_known. destruct (try_from _ _) eqn:E; [|done]. apply try_from_Some in E as [-> [_ ?]].
  destruct (is_power_of_two _) eqn:Ep; [|done]. now intros [= <-].
Qed.

Lemma mac_page_size_Ok p : mac_page_size = Ok p -> p = page_query /\ page_known.
Proof.
  unfold mac_page_size, page_known. destruct (try_from _ _) eqn:E; [|done]. apply try_from_Some in E as [-> [_ ?]].
  destruct (_ || _) eqn:Ep; [done|]. bsplit. now intros [= <-].
Qed.

Lemma linux_page_align_Ok size v :
  0 <= size -> linux_page_align size = Ok v -> v = round_up size page_query /\ size <= v /\ u64 v.
Proof.
  intros Hs H. unfold linux_page_align in H. destruct (size =? 0); [discriminate|].
  destruct native_page_size as [p| |] eqn:Hp; try discriminate. apply native_page_size_Ok in Hp as [-> [Hp Hm]].
  cbn [rbind] in H. destruct (checked_add _ _ _) eqn:E; [|discriminate]. apply checked_add_Some in E as [-> E].
  destruct (page_mask_round size page_query Hp Hs E Hm) as [Hr Hle]. rewrite Hr in H.
  destruct (_ && _) eqn:Hb; [|discriminate]. injection H as <-. bsplit. unfold ISIZE_MAX in *. split_and!; done || ulia.
Qed.

Lemma mac_page_align_Ok size v :
  page_known -> 0 <= size -> mac_page_align size page_query = Ok v -> v = round_up size page_query /\ size <= v /\ u64 v.
Proof.
  intros [Hp Hm] Hs H. unfold mac_page_align in H. destruct (size =? 0); [discriminate|].
  destruct (checked_add _ _ _) eqn:E; [|discriminate]. apply checked_add_Some in E as [-> E]. cbn [rbind] in H.
  destruct (page_mask_round size page_query Hp Hs E Hm) as [Hr Hle]. rewrite Hr in H.
  destruct (_ <? _) eqn:Hb; [discriminate|]. injection H as <-. bsplit. unfold ISIZE_MAX in *. split_and!; done || ulia.
Qed.

Lemma windows_page_align_Ok size v :
  page_query <= U64_MAX -> 0 <= size -> windows_page_align size = Ok v ->
  v = round_up size page_query /\ size <= v /\ u64 v.
Proof.
  intros Hm Hs H. unfold windows_page_align in H. destruct (size =? 0); [discriminate|].
  destruct (_ || _) eqn:Hp; [discriminate|]. bsplit.
  destruct (checked_add _ _ _) eqn:E; [|discriminate]. apply checked_add_Some in E as [-> E].
  destruct (page_mask_round size page_query Hp0 Hs E Hm) as [Hr Hle]. rewrite Hr in H.
  destruct (_ <=? _) eqn:Hb; [|discriminate]. injection H as <-. bsplit. unfold ISIZE_MAX in *. split_and!; done || ulia.
Qed.

(** ** Construction *)

Definition native_entry (r : ExpectedRegion) : ExpectedEntry :=
  {| ee_id := er_id r; ee_writer := er_writer r; ee_logical_len := er_logical_len r;
     ee_mapped_len := round_up (er_logical_len r) page_query |}.

Definition mapped_sum (l : list ExpectedEntry) : Z := foldr (fun e a => ee_mapped_len e + a) 0 l.

Lemma mapped_sum_app l k : mapped_sum (l ++ k) = mapped_sum l + mapped_sum k.
Proof. unfold mapped_sum. induction l as [|x l IH]; [done|]. cbn. lia. Qed.

(** The expectation a platform derives from an [ExpectedBatch]. *)
Record expectation_of (expected : ExpectedBatch) (limits : SessionLimits) (deadline : Z) (ex : Expectation) : Prop := {
  xo_entries : ex_entries ex = map native_entry (eb_regions expected);
  xo_logical : ex_total_logical ex = eb_total_logical expected;
  xo_mapped : ex_total_mapped ex = mapped_sum (ex_entries ex);
  xo_deadline : ex_deadline ex = deadline;
  xo_count : len (ex_entries ex) <= sl_max_regions_per_batch limits /\
             len (ex_entries ex) <= sl_max_active_regions limits;
  xo_batch : ex_total_logical ex <= sl_max_batch_bytes limits /\ ex_total_mapped ex <= sl_max_batch_bytes limits /\
             ex_total_mapped ex <= sl_max_active_bytes limits;
  xo_region : Forall (fun e => 0 <= ee_logical_len e <= sl_max_region_bytes limits /\
                               ee_logical_len e <= ee_mapped_len e) (ex_entries ex)
}.

(** What each iteration of the three loops adds. *)
Definition loop_inv (limits : SessionLimits) (before : list ExpectedRegion) (state : Z * list ExpectedEntry) : Prop :=
  snd state = map native_entry before /\ fst state = mapped_sum (snd state) /\
  Forall (fun e => 0 <= ee_logical_len e <= sl_max_region_bytes limits /\ ee_logical_len e <= ee_mapped_len e) (snd state).

Lemma loop_extend limits before r total entries logical mapped :
  loop_inv limits before (total, entries) -> 0 <= er_logical_len r -> logical = er_logical_len r ->
  logical <= sl_max_region_bytes limits -> mapped = round_up (er_logical_len r) page_query -> logical <= mapped ->
  loop_inv limits (before ++ [r])
    (total + mapped, entries ++ [{| ee_id := er_id r; ee_writer := er_writer r; ee_logical_len := logical; ee_mapped_len := mapped |}]).
Proof.
  intros (H1 & H2 & H3) Hn -> Hl -> Hm. cbn [fst snd] in *. split_and!; cbn [fst snd].
  - now rewrite map_app, H1.
  - rewrite mapped_sum_app, H2. cbn. lia.
  - apply Forall_app. split; [done|]. constructor; [|constructor]. cbn. lia.
Qed.

Section Prepare.
Context {T : Type} {C : Clock T} (expected : ExpectedBatch) (limits : SessionLimits) (deadline : Z).
Hypothesis Hnonneg : Forall (fun r => 0 <= er_logical_len r) (eb_regions expected).

Lemma is_expired_run {E} (t : T) : exists b t', is_expired (E := E) deadline t = (Ok b, t').
Proof.
  unfold is_expired, AbsoluteDeadline_remaining, sbind, sret. destruct (instant_now t). eauto.
Qed.

Lemma wp_check_deadline {E} (e : E) (t : T) Q :
  (forall t', Q (Ok tt) t') -> (forall t', Q (Err e) t') -> wp (check_deadline e deadline) Q t.
Proof.
  intros Hok He. unfold check_deadline, wp, sbind. destruct (is_expired_run (E := E) t) as (b & t' & ->).
  destruct b; [apply He|apply Hok].
Qed.

Lemma linux_page_align_total size : linux_page_align size <> Panic.
Proof. unfold linux_page_align, native_page_size, rbind. repeat case_match; congruence. Qed.
Lemma mac_page_align_total size p : mac_page_align size p <> Panic.
Proof. unfold mac_page_align, rbind. repeat case_match; congruence. Qed.
Lemma windows_page_align_total size : windows_page_align size <> Panic.
Proof. unfold windows_page_align. repeat case_match; congruence. Qed.

Lemma linux_loop regions : forall before state t,
  Forall (fun r => 0 <= er_logical_len r) regions -> loop_inv limits before state ->
  fst state <= sl_max_batch_bytes limits /\ fst state <= sl_max_active_bytes limits ->
  wp (sfor regions (linux_expected_entry limits deadline) state)
     (fun r _ => match r with
                 | Ok state' => loop_inv limits (before ++ regions) state' /\
                     fst state' <= sl_max_batch_bytes limits /\ fst state' <= sl_max_active_bytes limits
                 | Err _ => True
                 | Panic => False
                 end) t.
Proof.
  induction regions as [|r regions IH]; intros before [total entries] t Hn Hinv Hlim; cbn [sfor].
  { wp_steps. now rewrite app_nil_r. }
  apply Forall_cons in Hn as [Hr Hn]. wp_steps. unfold linux_expected_entry. wp_steps.
  apply wp_check_deadline; [|done]. intros t1. wp_steps.
  destruct (try_from U64_MAX (er_logical_len r)) as [logical|] eqn:El; [|done].
  apply try_from_Some in El as [-> _]. destruct (_ <=? _) eqn:Elim; [|done]. bsplit. wp_steps.
  destruct (linux_page_align (er_logical_len r)) as [mapped|e|] eqn:Em; [|done|now apply linux_page_align_total in Em].
  apply linux_page_align_Ok in Em as (-> & Hle & Hu); [|done]. wp_steps. rewrite try_from_ok by done.
  cbn [ok_or]. wp_steps.
  destruct (checked_add U64_MAX total _) as [total'|] eqn:Et; [|done]. apply checked_add_Some in Et as [-> _].
  destruct (_ && _) eqn:Eb; [|done]. bsplit. wp_steps.
  eapply wp_mono; [apply (IH (before ++ [r])); [done|now apply loop_extend|done]|].
  intros [state'|e|] t2; [|done|done]. now rewrite <- app_assoc.
Qed.

(** The two loops that check the total at the end. *)
Lemma rfor_loop {E} (f : ExpectedRegion -> Z * list ExpectedEntry -> res E (Z * list ExpectedEntry)) regions :
  (forall r before state, 0 <= er_logical_len r -> loop_inv limits before state ->
     match f r state with Ok state' => loop_inv limits (before ++ [r]) state' | Err _ => True | Panic => False end) ->
  forall before state, Forall (fun r => 0 <= er_logical_len r) regions -> loop_inv limits before state ->
  match rfor regions f state with
  | Ok state' => loop_inv limits (before ++ regions) state' | Err _ => True | Panic => False
  end.
Proof.
  intros Hf. induction regions as [|r regions IH]; intros before state Hn Hinv; cbn [rfor].
  { now rewrite app_nil_r. }
  apply Forall_cons in Hn as [Hr Hn]. specialize (Hf r before state Hr Hinv).
  destruct (f r state) as [state'|e|]; [|done|done]. cbn [rbind].
  specialize (IH (before ++ [r]) state' Hn Hf). now rewrite <- app_assoc in IH.
Qed.

Lemma mac_entry_inv r before state :
  page_known -> 0 <= er_logical_len r -> loop_inv limits before state ->
  match mac_expected_entry limits page_query r state with
  | Ok state' => loop_inv limits (before ++ [r]) state' | Err _ => True | Panic => False
  end.
Proof.
  intros Hp Hr Hinv. destruct state as [total entries]. unfold mac_expected_entry.
  destruct (try_from U64_MAX (er_logical_len r)) eqn:El; [|done]. apply try_from_Some in El as [-> _]. cbn [ok_or rbind].
  destruct (_ <? _) eqn:Elim; [done|]. bsplit.
  destruct (mac_page_align _ _) as [mapped|e|] eqn:Em; [|done|now apply mac_page_align_total in Em].
  apply mac_page_align_Ok in Em as (-> & Hle & Hu); [|done..]. cbn [map_err rbind]. rewrite try_from_ok by done.
  cbn [ok_or rbind]. destruct (checked_add _ _ _) eqn:Et; [|done]. apply checked_add_Some in Et as [-> _].
  cbn [ok_or rbind]. now apply loop_extend.
Qed.

Lemma windows_entry_inv r before state :
  page_query <= U64_MAX -> 0 <= er_logical_len r -> loop_inv limits before state ->
  match windows_expected_entry limits r state with
  | Ok state' => loop_inv limits (before ++ [r]) state' | Err _ => True | Panic => False
  end.
Proof.
  intros Hp Hr Hinv. destruct state as [total entries]. unfold windows_expected_entry.
  destruct (try_from U64_MAX (er_logical_len r)) eqn:El; [|done]. apply try_from_Some in El as [-> _]. cbn [ok_or rbind].
  destruct (_ <? _) eqn:Elim; [done|]. bsplit.
  destruct (windows_page_align _) as [mapped|e|] eqn:Em; [|done|now apply windows_page_align_total in Em].
  apply windows_page_align_Ok in Em as (-> & Hle & Hu); [|done..]. cbn [map_err rbind]. rewrite try_from_ok by done.
  cbn [ok_or rbind]. destruct (checked_add _ _ _) eqn:Et; [|done]. apply checked_add_Some in Et as [-> _].
  cbn [ok_or rbind]. now apply loop_extend.
Qed.

Lemma expectation_intro total entries :
  too_large expected limits = false -> loop_inv limits (eb_regions expected) (total, entries) ->
  total <= sl_max_batch_bytes limits /\ total <= sl_max_active_bytes limits ->
  expectation_of expected limits deadline
    {| ex_entries := entries; ex_total_logical := eb_total_logical expected; ex_total_mapped := total; ex_deadline := deadline |}.
Proof.
  intros Hbig (H1 & H2 & H3) Hl. unfold too_large in Hbig. bsplit. cbn [fst snd] in *.
  assert (Hlen : len entries = len (eb_regions expected)) by (rewrite H1; unfold len; now rewrite length_map).
  constructor; cbn; try done; lia.
Qed.

Lemma initial_loop_inv : loop_inv limits [] (0, []).
Proof. split_and!; done || constructor. Qed.

Lemma linux_prepared (t : T) :
  limits_nonneg limits ->
  wp (linux_expected_prepare expected limits deadline)
     (fun r _ => match r with Ok ex => expectation_of expected limits deadline ex | Err _ => True | Panic => False end) t.
Proof.
  intros Hlim. unfold linux_expected_prepare. wp_steps. apply wp_check_deadline; [|done]. intros t1. wp_steps; [done|].
  eapply wp_mono; [apply (linux_loop (eb_regions expected) [] (0, []) t1 Hnonneg initial_loop_inv)|].
  { destruct limits. cbn in *. limits_split. cbn in *. lia. }
  intros [[total entries]|e|] t2; cbn [bound]; [|done|done]. intros [Hi Hl]. wp_steps. now apply expectation_intro.
Qed.

Lemma mac_prepared (t : T) :
  wp (mac_expected_new expected limits deadline)
     (fun r _ => match r with Ok ex => expectation_of expected limits deadline ex | Err _ => True | Panic => False end) t.
Proof.
  unfold mac_expected_new. wp_steps. apply wp_check_deadline; [|done]. intros t1. wp_steps.
  destruct (SessionLimits_validate limits) as [l|e|] eqn:Hv; [|done|].
  2:{ unfold SessionLimits_validate, validate_for_native_max in Hv. repeat case_match; discriminate. }
  wp_steps; [done|]. destruct mac_page_size as [p|e|] eqn:Hp; [|done|].
  2:{ unfold mac_page_size in Hp. repeat case_match; discriminate. }
  apply mac_page_size_Ok in Hp as [-> Hp]. wp_steps.
  pose proof (rfor_loop _ (eb_regions expected) (fun r b s H => mac_entry_inv r b s Hp H) [] (0, []) Hnonneg initial_loop_inv) as Hl.
  destruct (rfor _ _ _) as [[total entries]|e|]; [|done|done]. wp_steps; [done|]. cbn [fst snd] in *. bsplit.
  now apply expectation_intro.
Qed.

Lemma windows_prepared (t : T) :
  page_query <= U64_MAX ->
  wp (windows_expected_new expected limits deadline)
     (fun r _ => match r with Ok ex => expectation_of expected limits deadline ex | Err _ => True | Panic => False end) t.
Proof.
  intros Hp. unfold windows_expected_new. wp_steps. apply wp_check_deadline; [|done]. intros t1. wp_steps.
  destruct (SessionLimits_validate limits) as [l|e|] eqn:Hv; [|done|].
  2:{ unfold SessionLimits_validate, validate_for_native_max in Hv. repeat case_match; discriminate. }
  wp_steps; [done|].
  pose proof (rfor_loop _ (eb_regions expected) (fun r b s H => windows_entry_inv r b s Hp H) [] (0, []) Hnonneg initial_loop_inv) as Hl.
  destruct (rfor _ _ _) as [[total entries]|e|]; [|done|done]. wp_steps; [done|]. cbn [fst snd] in *. bsplit.
  now apply expectation_intro.
Qed.

End Prepare.
End Pages.

(** ** Matching *)

(** What an entry announces about a region. *)
Definition entry_signature (e : ManifestEntry) : Z * (Z * PeerAccess) * Z * Z :=
  (me_region_id e, (me_writer e, me_access e), me_logical_len e, me_mapped_len e).
Definition expected_signature (e : ExpectedEntry) : Z * (Z * PeerAccess) * Z * Z :=
  (ee_id e, announced (ee_writer e), ee_logical_len e, ee_mapped_len e).

Lemma entry_matches_iff n e r :
  entry_matches n e r = true <-> entry_signature r = expected_signature e /\ me_ordinal r = Z.of_nat n.
Proof.
  unfold entry_matches, entry_signature, expected_signature. destruct (announced (ee_writer e)) as [w a].
  rewrite !andb_true_iff, !Z.eqb_eq, bool_decide_eq_true. split.
  - intros (((((-> & ->) & ->) & ->) & ->) & ->). done.
  - intros [[= -> -> -> -> ->] ->]. done.
Qed.

Lemma all_match_iff es : forall n rs,
  length es = length rs ->
  all_match n es rs = true <->
  map entry_signature rs = map expected_signature es /\ me_ordinal <$> rs = seqZ (Z.of_nat n) (len rs).
Proof.
  induction es as [|e es IH]; intros n [|r rs] Hl; try discriminate; cbn [all_match map]; [done|].
  injection Hl as Hl. rewrite andb_true_iff, entry_matches_iff, (IH (S n) rs Hl), len_cons.
  rewrite (seqZ_cons (Z.of_nat n) (1 + len rs)) by (pose proof (len_nonneg rs); lia). cbn [fmap list_fmap].
  replace (Z.of_nat (S n)) with (Z.succ (Z.of_nat n)) by lia. replace (Z.pred (1 + len rs)) with (len rs) by lia.
  split; [intros ([-> ->] & -> & ->); done|]. intros [H1 H2].
  pose proof (f_equal (@tl _) H1). pose proof (f_equal (@hd_error _) H1).
  pose proof (f_equal (@tl _) H2). pose proof (f_equal (@hd_error _) H2). cbn [tl hd_error] in *. split_and!; congruence.
Qed.

Lemma sum_signature l k : map entry_signature l = map expected_signature k ->
  sum_of me_logical_len l = foldr (fun e a => ee_logical_len e + a) 0 k /\ sum_of me_mapped_len l = mapped_sum k.
Proof.
  revert k. induction l as [|r l IH]; intros [|e k]; try discriminate; [done|]. cbn [map].
  intros [= H1 H2 H3 H4 H5]. destruct (IH k H5) as [E1 E2]. unfold sum_of, mapped_sum in *. cbn. rewrite E1, E2, H3, H4. done.
Qed.

(** The lengths a matching manifest announces. *)
Lemma matching_lengths ex m :
  linux_matches_manifest ex m = true -> reservation_lengths ex = map me_mapped_len (tm_entries m).
Proof.
  intros H. unfold linux_matches_manifest in H. rewrite !andb_true_iff, !Z.eqb_eq in H. destruct H as [[[Hlen _] _] Hall].
  apply all_match_iff in Hall as [Hsig _]; [|unfold len in Hlen; lia].
  unfold reservation_lengths. apply (f_equal (map snd)) in Hsig. rewrite !map_map in Hsig. cbn in Hsig. symmetry. exact Hsig.
Qed.

Section Matching.
Context {PQ : PageQuery} (rs : list ExpectedRegion) (expected : ExpectedBatch) (limits : SessionLimits) (deadline : Z)
        (ex : Expectation) (m : TransferManifest).
Hypotheses (Hrs : try_from_regions rs = Ok expected) (Hex : expectation_of expected limits deadline ex) (Hm : manifest_ok m).

(** The manifest a coordinator must send. *)
Definition awaited (l : list ExpectedRegion) : list (Z * (Z * PeerAccess) * Z * Z) :=
  map (fun r => (er_id r, announced (er_writer r), er_logical_len r, round_up (er_logical_len r) page_query))
    (sort_by (key_leb er_id) l).

Lemma expected_awaited : map expected_signature (ex_entries ex) = awaited rs.
Proof. destruct (try_from_regions_Ok _ _ Hrs) as (Hr & _). rewrite (xo_entries _ _ _ _ Hex), Hr, map_map. done. Qed.

Lemma matching_exact :
  linux_matches_manifest ex m = true <-> map entry_signature (tm_entries m) = awaited rs.
Proof.
  destruct (try_from_regions_Ok _ _ Hrs) as (Hr & _ & _ & Ht & _). pose proof (mo_totals _ Hm) as (Hl & Hmp & _).
  unfold linux_matches_manifest. rewrite !andb_true_iff, !Z.eqb_eq, <- expected_awaited.
  assert (Hlog : ex_total_logical ex = foldr (fun e a => ee_logical_len e + a) 0 (ex_entries ex)).
  { rewrite (xo_logical _ _ _ _ Hex), Ht, (xo_entries _ _ _ _ Hex). unfold logical_sum.
    generalize (eb_regions expected). intros l. induction l as [|r l IH]; [done|]. cbn. now rewrite IH. }
  split.
  - intros [[[Hlen _] _] Hall]. apply all_match_iff in Hall; [tauto|]. unfold len in Hlen. lia.
  - intros Hsig. assert (Hlen : length (ex_entries ex) = length (tm_entries m)).
    { apply (f_equal length) in Hsig. now rewrite !length_map in Hsig. }
    destruct (sum_signature _ _ Hsig) as [E1 E2]. rewrite (xo_mapped _ _ _ _ Hex). split_and!; [unfold len; lia|congruence|congruence|].
    apply all_match_iff; [done|]. split; [done|]. apply (mo_ordinals _ Hm).
Qed.

(** A matched manifest needs no further check against the limits. *)
Lemma matching_fits :
  linux_matches_manifest ex m = true ->
  fits_limits m limits = true /\ reservation_lengths ex = map me_mapped_len (tm_entries m).
Proof.
  intros Hmt. pose proof Hmt as Hsig%matching_exact. rewrite <- expected_awaited in Hsig.
  unfold linux_matches_manifest in Hmt. bsplit. destruct Hex. split.
  - unfold fits_limits. rewrite !(proj2 (Z.leb_le _ _)) by lia. cbn [andb]. apply forallb_forall. intros e He%list_elem_of_In.
    apply Z.leb_le. assert (Hin : entry_signature e ∈ map expected_signature (ex_entries ex)).
    { rewrite <- Hsig. apply list_elem_of_fmap. eauto. }
    apply list_elem_of_fmap in Hin as (x & [= _ _ -> _] & Hx). rewrite Forall_forall in xo_region0.
    destruct (xo_region0 x Hx) as [? _]. lia.
  - unfold reservation_lengths. apply (f_equal (map snd)) in Hsig. rewrite !map_map in Hsig. cbn in Hsig. symmetry. exact Hsig.
Qed.

End Matching.

(** A receiver accepts exactly the manifest it expects. On each platform, for an
    expectation it was able to build under the session's limits, a well-formed
    manifest matches if and only if it announces, in the order of their
    identities, the expected regions and no others, each with its writer, the
    access that writer implies, its logical length, and that length rounded up to
    the page size (and, on macOS and Windows, the platform's authority profile);
    such a manifest fits the session's limits, and the receiver charges exactly the
    lengths it announces. *)
Theorem expectation_exact {PQ : PageQuery} {T} {C : Clock T} rs expected limits deadline (t : T) m :
  limits_nonneg limits -> page_query <= U64_MAX -> try_from_regions rs = Ok expected -> manifest_ok m ->
  (forall ex t', linux_expected_prepare expected limits deadline t = (Ok ex, t') ->
     (linux_matches_manifest ex m = true <-> map entry_signature (tm_entries m) = awaited rs) /\
     (linux_matches_manifest ex m = true ->
        fits_limits m limits = true /\ reservation_lengths ex = map me_mapped_len (tm_entries m))) /\
  (forall ex t', mac_expected_new expected limits deadline t = (Ok ex, t') ->
     mac_matches_manifest ex m = true <->
     tm_authority_profile m = MacMachV1 /\ map entry_signature (tm_entries m) = awaited rs) /\
  (forall ex t', windows_expected_new expected limits deadline t = (Ok ex, t') ->
     windows_matches_manifest ex m = true <->
     tm_authority_profile m = WindowsSectionsV1 /\ map entry_signature (tm_entries m) = awaited rs).
Proof.
  intros Hlim Hpage Hrs Hm. pose proof (try_from_regions_Ok _ _ Hrs) as (_ & _ & _ & _ & Hpos).
  assert (Hnn : Forall (fun r => 0 <= er_logical_len r) (eb_regions expected))
    by (eapply Forall_impl; [exact Hpos|]; cbn; lia).
  split_and!; intros ex t' Hrun.
  - pose proof (wp_elim _ _ _ _ _ (linux_prepared expected limits deadline Hnn t Hlim) Hrun) as Hex. cbn in Hex.
    split; [exact (matching_exact rs expected limits deadline ex m Hrs Hex Hm)
          |exact (matching_fits rs expected limits deadline ex m Hrs Hex Hm)].
  - pose proof (wp_elim _ _ _ _ _ (mac_prepared expected limits deadline Hnn t) Hrun) as Hex. cbn in Hex.
    rewrite <- (matching_exact rs expected limits deadline ex m Hrs Hex Hm).
    unfold mac_matches_manifest, linux_matches_manifest. rewrite !andb_true_iff, bool_decide_eq_true. tauto.
  - pose proof (wp_elim _ _ _ _ _ (windows_prepared expected limits deadline Hnn t Hpage) Hrun) as Hex. cbn in Hex.
    rewrite <- (matching_exact rs expected limits deadline ex m Hrs Hex Hm).
    unfold windows_matches_manifest, linux_matches_manifest. rewrite !andb_true_iff, bool_decide_eq_true. tauto.
Qed.

(** ** Witness *)

#[export] Instance FourKibPages : PageQuery := { page_query := 4096; last_os_error := 0 }.
#[export] Instance StillClock : Clock unit := { instant_now := fun t => (1, t); instant_max := U64_MAX }.

Definition sample_expected_regions : list ExpectedRegion :=
  [{| er_id := 9; er_writer := CoordinatorWrites; er_logical_len := 60 |};
   {| er_id := 4; er_writer := ReceiverWrites; er_logical_len := 4097 |}].
Definition sample_expected : ExpectedBatch := Eval vm_compute in
  match try_from_regions sample_expected_regions with Ok e => e | _ => {| eb_regions := []; eb_total_logical := 0 |} end.
Definition sample_expectation : Expectation := Eval vm_compute in
  match fst (linux_expected_prepare sample_expected SessionLimits_default 9 tt) with
  | Ok e => e
  | _ => {| ex_entries := []; ex_total_logical := 0; ex_total_mapped := 0; ex_deadline := 0 |}
  end.

Definition page_entry (id : Z) (tag : byte) (logical mapped : Z) (w : WriterEndpoint) : ManifestEntry :=
  {| me_region_id := id; me_incarnation := replicate 16 tag; me_writer := fst (announced w); me_access := snd (announced w);
     me_logical_len := logical; me_mapped_len := mapped; me_ordinal := 0; me_flags := REQUIRED_ENTRY_FLAGS |}.
Definition page_manifest : TransferManifest := Eval vm_compute in
  match new_with_authority sample_nonce 7 8 1 LinuxMdweV1
          [page_entry 9 x01 60 4096 CoordinatorWrites; page_entry 4 x02 4097 8192 ReceiverWrites] with
  | Ok m => m
  | _ => sample_manifest
  end.

Lemma page_manifest_ok : manifest_ok page_manifest /\ manifest_widths page_manifest.
Proof.
  apply (new_widths sample_nonce 7 8 1 LinuxMdweV1
           [page_entry 9 x01 60 4096 CoordinatorWrites; page_entry 4 x02 4097 8192 ReceiverWrites]);
    try reflexivity; repeat constructor; try (vm_compute; congruence).
Qed.

Lemma expectation_exact_witness :
  linux_matches_manifest sample_expectation page_manifest = true /\ reservation_lengths sample_expectation = [8192; 4096].
Proof.
  destruct (expectation_exact sample_expected_regions sample_expected SessionLimits_default 9 tt page_manifest) as [H _].
  - repeat (constructor; [discriminate|]). constructor.
  - discriminate.
  - reflexivity.
  - apply page_manifest_ok.
  - destruct (H sample_expectation tt) as [H1 H2]; [reflexivity|].
    assert (Hm : linux_matches_manifest sample_expectation page_manifest = true) by (apply H1; reflexivity).
    split; [exact Hm|]. rewrite (proj2 (H2 Hm)). reflexivity.
Defined.
