(* ===== verification/Transfer.v ===== *)
(** * Transfer: one atomic transfer of a batch ([backend/accepted_control.rs])

    The capacity exchange, the capability transaction of both roles
    (capabilities, IMPORTED, SEALED, READY, COMMIT), the activation of committed
    mappings, and the public [transfer_batch] and [receive_batch]
    ([linux_vnext/spawn.rs], [macos_vnext/session.rs], [windows_vnext/session.rs]).

    The three platforms run the same protocol with small differences, which a
    [Platform] lists; each platform's method is the generic one at its
    [Platform]. The native memory of a batch is behind the classes
    [NativeBatch] and [ImportedBatch]. Destructors that release the ledger's
    charges are modelled where values are dropped; what the system does with
    the mappings of a dropped batch is not. *)

From stdpp Require Import gmap.
From S2P Require Import Prelude Limits Manifest Control Liveness Native Resources Region Active Batch Dispatcher Expected.

(** ** Errors *)

Inductive CapabilityBatchError (M : Type) :=
| CapabilityError_Memory (error : M)
| CapabilityError_Control (error : AcceptedControlError)
| CapabilityError_Resource (error : ResourceError)
| CapabilityError_ActiveLimit
| CapabilityError_PeerPreparationFailed.
Arguments CapabilityError_Memory {M}.
Arguments CapabilityError_Control {M}.
Arguments CapabilityError_Resource {M}.
Arguments CapabilityError_ActiveLimit {M}.
Arguments CapabilityError_PeerPreparationFailed {M}.

Inductive RegionActivationError (M : Type) :=
| ActivationFailed_WrongSession
| ActivationFailed_Memory (error : M)
| ActivationFailed_Active (error : ActivationError)
| ActivationFailed_Batch (error : BatchError).
Arguments ActivationFailed_WrongSession {M}.
Arguments ActivationFailed_Memory {M}.
Arguments ActivationFailed_Active {M}.
Arguments ActivationFailed_Batch {M}.

(** The public errors of the three backends; only Linux reports a code for a
    failed activation. *)
Inductive PublicSessionError :=
| Public_InvalidInput
| Public_DeadlineExpired
| Public_PeerExited
| Public_IdentityMismatch
| Public_MalformedPeer
| Public_Ambiguous
| Public_NegotiationFailed
| Public_NativeNegotiation (error : NegotiationError)
| Public_Control (error : ControlError)
| Public_Batch (error : BatchError)
| Public_ActiveLimit
| Public_PeerPreparationFailed
| Public_ActivationFailed (code : option Z)
| Public_Poisoned
| Public_Native (code : option Z).

Definition map_public_transport_error (error : SessionTransportError) : PublicSessionError :=
  match error with
  | TransportError_DeadlineExpired => Public_DeadlineExpired
  | TransportError_PeerExited => Public_PeerExited
  | TransportError_MalformedRecord | TransportError_RecordTooLarge => Public_MalformedPeer
  | TransportError_IdentityMismatch => Public_IdentityMismatch
  | TransportError_Ambiguous => Public_Ambiguous
  | TransportError_Poisoned => Public_Poisoned
  | TransportError_Native code => Public_Native code
  end.

Definition linux_map_control_error (error : AcceptedControlError) : PublicSessionError :=
  match error with
  | AcceptedError_Control error => Public_Control error
  | AcceptedError_Transport error => map_public_transport_error error
  end.
Definition mac_map_control_error (error : AcceptedControlError) : PublicSessionError :=
  match error with
  | AcceptedError_Control ControlError_Poisoned => Public_Poisoned
  | AcceptedError_Control error => Public_Control error
  | AcceptedError_Transport error => map_public_transport_error error
  end.
Definition windows_map_control_error (error : AcceptedControlError) : PublicSessionError :=
  match error with
  | AcceptedError_Control ControlError_Poisoned => Public_Poisoned
  | AcceptedError_Control error => Public_Control error
  | AcceptedError_Transport error => map_public_transport_error error
  end.

Definition linux_map_local_memory_error (error : MemfdError) : PublicSessionError :=
  match error with
  | MemfdError_DeadlineExpired => Public_DeadlineExpired
  | MemfdError_InvalidSize | MemfdError_InvalidBatch | MemfdError_UnsupportedDirection
  | MemfdError_DeadlineMismatch => Public_InvalidInput
  | MemfdError_InvalidObject | MemfdError_WrongObject | MemfdError_WrongProvenance
  | MemfdError_ExecutableAuthorityUnsupported | MemfdError_GuardUnavailable => Public_Native None
  | MemfdError_Native code => Public_Native (Some code)
  end.
Definition mac_map_memory_error (error : MacBatchError) : PublicSessionError :=
  match error with
  | MacBatchError_DeadlineExpired => Public_DeadlineExpired
  | MacBatchError_InvalidBatch | MacBatchError_InvalidSize | MacBatchError_WrongProvenance => Public_InvalidInput
  | MacBatchError_WrongObject => Public_MalformedPeer
  | MacBatchError_GuardUnavailable | MacBatchError_Mach _ => Public_Native None
  end.
Definition map_windows_error (error : WindowsError) : PublicSessionError :=
  match error with
  | WindowsTimedOut => Public_DeadlineExpired
  | WindowsChildExit _ => Public_PeerExited
  | WindowsWrongPeer => Public_IdentityMismatch
  | WindowsInvalidBootstrap | WindowsForeignPending | WindowsInvalidHandle => Public_MalformedPeer
  | WindowsOs code => Public_Native (Some code)
  | WindowsMissingBootstrap | WindowsInvalidSize _ | WindowsLayout | WindowsBinding
  | WindowsCapabilityAlreadyTransferred => Public_InvalidInput
  end.
Definition windows_map_memory_error (error : WindowsBatchError) : PublicSessionError :=
  match error with
  | WindowsBatchError_DeadlineExpired => Public_DeadlineExpired
  | WindowsBatchError_InvalidBatch | WindowsBatchError_InvalidSize | WindowsBatchError_WrongProvenance =>
      Public_InvalidInput
  | WindowsBatchError_GuardUnavailable => Public_Native None
  | WindowsBatchError_WrongObject | WindowsBatchError_WrongAccess => Public_MalformedPeer
  | WindowsBatchError_Native error => map_windows_error error
  end.

Definition linux_map_batch_transaction_error (error : CapabilityBatchError MemfdError) : PublicSessionError :=
  match error with
  | CapabilityError_Memory error => linux_map_local_memory_error error
  | CapabilityError_Control error => linux_map_control_error error
  | CapabilityError_Resource _ => Public_ActiveLimit
  | CapabilityError_ActiveLimit => Public_ActiveLimit
  | CapabilityError_PeerPreparationFailed => Public_PeerPreparationFailed
  end.
Definition linux_map_receiver_begin_error (error : CapabilityBatchError MemfdError) : PublicSessionError :=
  match error with
  | CapabilityError_Memory error => linux_map_local_memory_error error
  | CapabilityError_Control error => linux_map_control_error error
  | CapabilityError_Resource _ => Public_ActiveLimit
  | CapabilityError_ActiveLimit => Public_ActiveLimit
  | CapabilityError_PeerPreparationFailed => Public_PeerPreparationFailed
  end.
Definition linux_map_receiver_transaction_error (error : CapabilityBatchError MemfdError) : PublicSessionError :=
  match error with
  | CapabilityError_Memory MemfdError_DeadlineExpired => Public_DeadlineExpired
  | CapabilityError_Memory (MemfdError_Native code) => Public_Native (Some code)
  | CapabilityError_Memory _ => Public_MalformedPeer
  | CapabilityError_Control error => linux_map_control_error error
  | CapabilityError_Resource _ => Public_ActiveLimit
  | CapabilityError_ActiveLimit => Public_ActiveLimit
  | CapabilityError_PeerPreparationFailed => Public_PeerPreparationFailed
  end.
Definition linux_map_activation_error (error : RegionActivationError MemfdError) : PublicSessionError :=
  match error with
  | ActivationFailed_Batch error => Public_Batch error
  | ActivationFailed_Memory (MemfdError_Native code) => Public_ActivationFailed (Some code)
  | ActivationFailed_WrongSession | ActivationFailed_Memory _ | ActivationFailed_Active _ =>
      Public_ActivationFailed None
  end.

Definition mac_map_batch_error (error : CapabilityBatchError MacBatchError) : PublicSessionError :=
  match error with
  | CapabilityError_Memory error => mac_map_memory_error error
  | CapabilityError_Control error => mac_map_control_error error
  | CapabilityError_Resource _ => Public_ActiveLimit
  | CapabilityError_ActiveLimit => Public_ActiveLimit
  | CapabilityError_PeerPreparationFailed => Public_PeerPreparationFailed
  end.
Definition mac_map_activation_error (error : RegionActivationError MacBatchError) : PublicSessionError :=
  match error with
  | ActivationFailed_Batch error => Public_Batch error
  | ActivationFailed_WrongSession | ActivationFailed_Memory _ | ActivationFailed_Active _ =>
      Public_ActivationFailed None
  end.
Definition windows_map_batch_error (error : CapabilityBatchError WindowsBatchError) : PublicSessionError :=
  match error with
  | CapabilityError_Memory error => windows_map_memory_error error
  | CapabilityError_Control error => windows_map_control_error error
  | CapabilityError_Resource _ | CapabilityError_ActiveLimit => Public_ActiveLimit
  | CapabilityError_PeerPreparationFailed => Public_PeerPreparationFailed
  end.
Definition windows_map_activation_error (error : RegionActivationError WindowsBatchError) : PublicSessionError :=
  match error with
  | ActivationFailed_Batch error => Public_Batch error
  | ActivationFailed_WrongSession | ActivationFailed_Memory _ | ActivationFailed_Active _ =>
      Public_ActivationFailed None
  end.

Definition map_close_resource_error (error : ResourceError) : PublicSessionError :=
  match error with
  | ActiveLeases _ | Liveness.ActiveLimit => Public_ActiveLimit
  | ResourcePoisoned | ResourceClosed => Public_Poisoned
  | InvalidLimits | MappedLengthMismatch _ _ => Public_Native None
  end.

(** ** Native memory behind a batch *)

(** [LinuxActiveRegionSpec] and its macOS and Windows counterparts. *)
Record ActiveRegionSpec := {
  as_id : Z;
  as_authority : LocalRegionAuthority;
  as_logical_len : Z;
  as_mapped_len : Z;
  as_guard_requested : GuardPolicy
}.

#[export] Instance ActiveRegionSpec_eq_dec : EqDecision ActiveRegionSpec.
Proof. solve_decision. Defined.

Inductive ActiveRegionOwner :=
| OwnerReader (spec : ActiveRegionSpec) (owner : ReadOwner)
| OwnerWriter (spec : ActiveRegionSpec) (owner : WriteOwner).

Definition owner_spec (o : ActiveRegionOwner) : ActiveRegionSpec :=
  match o with OwnerReader spec _ | OwnerWriter spec _ => spec end.

(** A coordinator's [*MixedDirectionBatch]; [nb_seal_after_import] is Linux's. *)
Class NativeBatch (T B Cap M : Type) := {
  nb_prepare : TransferBatch -> NativeAuthorityProfile -> Z -> stm T M B;
  nb_deadline : B -> Z;
  nb_manifest_entries : B -> list ManifestEntry;
  nb_reservation_lengths : B -> list Z;
  nb_capabilities : B -> Cap;
  nb_requires_imported_sealed : B -> bool;
  nb_revalidate_before_send : B -> stm T M unit;
  nb_seal_after_import : stm (B * T) M unit;
  nb_activation_specs : B -> stm T M (list ActiveRegionSpec);
  nb_into_active_region_owners : B -> list ActiveRegionOwner
}.

(** A receiver's [*ImportedMixedDirectionBatch]; [ib_verify_final_seals] is
    Linux's. *)
Class ImportedBatch (T I Right M : Type) := {
  ib_import : Expectation -> TransferManifest -> list Right -> stm T M I;
  ib_verify_final_seals : Z -> stm (I * T) M unit;
  ib_activation_specs : I -> Z -> stm T M (list ActiveRegionSpec);
  ib_into_active_region_owners : I -> list ActiveRegionOwner
}.

(** [complete_remote_capability_transaction] of the Windows transport. *)
Class RemoteHandles (T : Type) := complete_remote_capability_transaction : T -> T.

(** ** The platforms

    [pl_announces]: the coordinator sends the capability frame as a record of
    its own before the capabilities. [pl_compares_preflight]: the receiver
    compares the capability frame with the one of the capacity exchange.
    [pl_always_seals]: the IMPORTED/SEALED barrier is run whatever the
    directions of the batch, and revalidates the batch instead of sealing it.
    [pl_receive_checks_deadline]: [receive_batch] itself looks at the deadline. *)

Record Platform (T M : Type) := {
  pl_profile : NativeAuthorityProfile;
  pl_announces : bool;
  pl_compares_preflight : bool;
  pl_always_seals : bool;
  pl_receive_checks_deadline : bool;
  pl_expect : ExpectedBatch -> SessionLimits -> Z -> stm T M Expectation;
  pl_matches : Expectation -> TransferManifest -> bool;
  pl_activation_page : res M unit;
  pl_wrong_provenance : M;
  pl_invalid_batch : M;
  pl_map_local_memory : M -> PublicSessionError;
  pl_map_batch : CapabilityBatchError M -> PublicSessionError;
  pl_map_receiver_begin : CapabilityBatchError M -> PublicSessionError;
  pl_map_receiver : CapabilityBatchError M -> PublicSessionError;
  pl_map_activation : RegionActivationError M -> PublicSessionError
}.
Arguments pl_profile {T M}.
Arguments pl_announces {T M}.
Arguments pl_compares_preflight {T M}.
Arguments pl_always_seals {T M}.
Arguments pl_receive_checks_deadline {T M}.
Arguments pl_expect {T M}.
Arguments pl_matches {T M}.
Arguments pl_activation_page {T M}.
Arguments pl_wrong_provenance {T M}.
Arguments pl_invalid_batch {T M}.
Arguments pl_map_local_memory {T M}.
Arguments pl_map_batch {T M}.
Arguments pl_map_receiver_begin {T M}.
Arguments pl_map_receiver {T M}.
Arguments pl_map_activation {T M}.

Definition linux {PQ : PageQuery} {T} {C : Clock T} : Platform T MemfdError :=
  {| pl_profile := LinuxMdweV1; pl_announces := false; pl_compares_preflight := true;
     pl_always_seals := false; pl_receive_checks_deadline := false;
     pl_expect := linux_expected_prepare; pl_matches := linux_matches_manifest;
     pl_activation_page := native_page_size >>? Ok tt;
     pl_wrong_provenance := MemfdError_WrongProvenance; pl_invalid_batch := MemfdError_InvalidBatch;
     pl_map_local_memory := linux_map_local_memory_error;
     pl_map_batch := linux_map_batch_transaction_error;
     pl_map_receiver_begin := linux_map_receiver_begin_error;
     pl_map_receiver := linux_map_receiver_transaction_error;
     pl_map_activation := linux_map_activation_error |}.

Definition macos {PQ : PageQuery} {T} {C : Clock T} : Platform T MacBatchError :=
  {| pl_profile := MacMachV1; pl_announces := false; pl_compares_preflight := false;
     pl_always_seals := true; pl_receive_checks_deadline := true;
     pl_expect := mac_expected_new; pl_matches := mac_matches_manifest;
     pl_activation_page := Ok tt;
     pl_wrong_provenance := MacBatchError_WrongProvenance; pl_invalid_batch := MacBatchError_InvalidBatch;
     pl_map_local_memory := mac_map_memory_error;
     pl_map_batch := mac_map_batch_error; pl_map_receiver_begin := mac_map_batch_error;
     pl_map_receiver := mac_map_batch_error; pl_map_activation := mac_map_activation_error |}.

Definition windows {PQ : PageQuery} {T} {C : Clock T} : Platform T WindowsBatchError :=
  {| pl_profile := WindowsSectionsV1; pl_announces := true; pl_compares_preflight := false;
     pl_always_seals := true; pl_receive_checks_deadline := true;
     pl_expect := windows_expected_new; pl_matches := windows_matches_manifest;
     pl_activation_page := Ok tt;
     pl_wrong_provenance := WindowsBatchError_WrongProvenance; pl_invalid_batch := WindowsBatchError_InvalidBatch;
     pl_map_local_memory := windows_map_memory_error;
     pl_map_batch := windows_map_batch_error; pl_map_receiver_begin := windows_map_batch_error;
     pl_map_receiver := windows_map_batch_error; pl_map_activation := windows_map_activation_error |}.

(** [*_received_mixed_manifest_matches]. *)
Definition received_manifest_matches {T M} (p : Platform T M) (parameters : AcceptedSessionParameters)
  (transaction_id : Z) (expected : Expectation) (manifest : TransferManifest) : bool :=
  let facts := ap_facts parameters in
  bool_decide (tm_nonce manifest = sf_nonce facts)
  && (tm_parent_pid manifest =? sf_parent_pid facts)
  && (tm_child_pid manifest =? sf_child_pid facts)
  && (tm_transfer_id manifest =? transaction_id)
  && bool_decide (tm_authority_profile manifest = ap_authority_profile parameters)
  && fits_limits manifest (ap_limits parameters)
  && pl_matches p expected manifest.

(** ** Activation *)

Definition committed_lease (r : CommittedRegion) : option Z :=
  match r with CommittedReader r => rd_lease r | CommittedWriter w => wt_lease w end.

(** The charges a list of activated regions holds. *)
Definition leases (active : list (Z * CommittedRegion)) : list Z :=
  omap (fun e => committed_lease (snd e)) active.

Section Activation.
Context {T M : Type} {R : AuthenticatedZeroRightsTransport T} (p : Platform T M).

(** [dispatcher.poison_both(); return Err(..)], dropping what is held. *)
Definition fail_releasing {E A} (error : E) (held : list Z) : stm (Dispatcher T) E A :=
  smodify poison_both >>!
  smodify (fun d => with_resources (drop_leases held (d_resources d)) d) >>!
  serr error.

(** [new_leased] of either kind; on an error it has dropped its reservation. *)
Definition activate_region {A} (held : list Z) (m : stm SharedResources ActivationError A)
  : stm (Dispatcher T) (RegionActivationError M) A :=
  fun d => match on_resources m d with
           | (Ok a, d) => (Ok a, d)
           | (Err e, d) => fail_releasing (ActivationFailed_Active e) held d
           | (Panic, d) => (Panic, d)
           end.

Fixpoint activate_loop (items : list (ActiveRegionSpec * ActiveRegionOwner * Z))
  (active : list (Z * CommittedRegion)) : stm (Dispatcher T) (RegionActivationError M) (list (Z * CommittedRegion)) :=
  match items with
  | [] => sret active
  | (spec, owner, reservation) :: rest =>
      let others := map snd rest ++ leases active in
      if negb (bool_decide (owner_spec owner = spec))
      then fail_releasing (ActivationFailed_Memory (pl_wrong_provenance p)) (reservation :: others) else
      let! region :=
        match as_authority spec, owner with
        | LocalReader, OwnerReader _ o =>
            let! reader := activate_region others
              (ActiveReader_new_leased o (as_logical_len spec) reservation (as_guard_requested spec)) in
            sret (CommittedReader reader)
        | LocalWriter, OwnerWriter _ o =>
            let! writer := activate_region others
              (ActiveWriter_new_leased o (as_logical_len spec) reservation (as_guard_requested spec)) in
            sret (CommittedWriter writer)
        | _, _ => fail_releasing (ActivationFailed_Memory (pl_wrong_provenance p)) (reservation :: others)
        end in
      activate_loop rest (active ++ [(as_id spec, region)])
  end.

(** [activate_linux_regions], [activate_mac_regions], [activate_windows_regions]. *)
Definition activate_regions (specs : list ActiveRegionSpec) (reservations : list Z)
  (owners : list ActiveRegionOwner) : stm (Dispatcher T) (RegionActivationError M) ActiveRegionSet :=
  let expected := map (fun spec => (as_id spec, as_authority spec)) specs in
  if negb (len reservations =? len specs)
  then fail_releasing (ActivationFailed_Memory (pl_wrong_provenance p)) reservations else
  if negb (len owners =? len specs)
  then fail_releasing (ActivationFailed_Memory (pl_wrong_provenance p)) reservations else
  let! active := activate_loop (zip (zip specs owners) reservations) [] in
  match from_local_committed expected active with
  | Ok set => sret set
  | Err error => fail_releasing (ActivationFailed_Batch error) (leases active)
  | Panic => slift Panic
  end.

End Activation.

(** A batch that has passed COMMIT: [X] is the native batch of either role. *)
Record CommittedBatch (X : Type) := {
  cmb_batch : X;
  cmb_reservations : list Z;
  cmb_parameters : AcceptedSessionParameters;
  cmb_deadline : Z
}.
Arguments cmb_batch {X}.
Arguments cmb_reservations {X}.
Arguments cmb_parameters {X}.
Arguments cmb_deadline {X}.

(** ** The coordinator *)

Record CoordinatorMixed (T B : Type) := {
  cm_transaction : CoordinatorTransaction T;
  cm_batch : B;
  cm_reservations : list Z;
  cm_attempted : bool
}.
Arguments cm_transaction {T B}.
Arguments cm_batch {T B}.
Arguments cm_reservations {T B}.
Arguments cm_attempted {T B}.

Section Coordinator.
Context {T B Cap M : Type} {R : AuthenticatedZeroRightsTransport T} {C : Clock T}
        {CC : CoordinatorCapabilityTransport T Cap} {NB : NativeBatch T B Cap M} {RH : RemoteHandles T}
        (p : Platform T M).

Definition begin_transfer_capacity (batch : TransferBatch) (deadline : Z)
  : stm (Dispatcher T) (CapabilityBatchError M) CapabilityFrame :=
  let! entries := slift (map_err (fun _ => CapabilityError_Memory (pl_invalid_batch p))
                                 (TransferBatch_manifest_entries batch)) in
  smap_err CapabilityError_Control (begin_native_transaction entries deadline).

(** [reserve_*_transfer_batch]: [reservation_lengths] has no error. *)
Definition reserve_transfer_batch (batch : TransferBatch) : stm (Dispatcher T) ResourceError (list Z) :=
  let! lengths := slift (match TransferBatch_reservation_lengths batch with Ok l => Ok l | _ => Panic end) in
  reserve lengths.

Definition fail_both {E A} (error : E) : stm (Dispatcher T) E A := smodify poison_both >>! serr error.

Definition exchange_transfer_capacity (frame : CapabilityFrame) (local_status : CoordinatorCapacityStatus)
  (deadline : Z) : stm (Dispatcher T) (CapabilityBatchError M) bool :=
  let local_ready := match local_status with CapacityReady => true | _ => false end in
  let! offer := slift (infallible (coordinator_capacity_frame frame local_status)) in
  smap_err CapabilityError_Control (or_poison_both (transport_send offer deadline)) >>!
  let! response := smap_err CapabilityError_Control
                     (or_poison_both (transport_receive CONTROL_FRAME_LEN deadline)) in
  let! accepted := slift (infallible (receiver_capacity_frame frame true)) in
  let! rejected := slift (infallible (receiver_capacity_frame frame false)) in
  let! peer_ready :=
    if frame_matches accepted response then sret true else
    if frame_matches rejected response then sret false else
    fail_both (CapabilityError_Control (AcceptedError_Control ControlError_NonCanonical)) in
  if negb local_ready && peer_ready
  then fail_both (CapabilityError_Control (AcceptedError_Control ControlError_NonCanonical)) else
  (if negb local_ready || negb peer_ready
   then smap_err (fun e => CapabilityError_Control (AcceptedError_Control e)) (on_control end_transaction)
   else sret tt) >>!
  sret peer_ready.

(** [begin_public_*_mixed_direction_batch_preflighted]: [Err] returns the
    dispatcher whose borrow ends. *)
Definition begin_preflighted (batch : B) (reservations : list Z) (frame : CapabilityFrame) (deadline : Z)
  (self : Dispatcher T) : res (CapabilityBatchError M * Dispatcher T) (CoordinatorMixed T B) :=
  let refused :=
    Err (CapabilityError_Memory (pl_wrong_provenance p),
         let d := poison_both self in with_resources (drop_leases reservations (d_resources d)) d) in
  if negb (bool_decide (ap_authority_profile (d_parameters self) = pl_profile p))
     || negb (nb_deadline batch =? deadline)
     || negb (len reservations =? len (nb_reservation_lengths batch))
     || negb (cs_transaction_open (d_state self))
  then refused else
  match frame_matches_entries self frame (nb_manifest_entries batch) with
  | Ok false => refused
  | Ok true =>
      Ok {| cm_transaction := {| ct_dispatcher := self; ct_frame := frame; ct_deadline := deadline;
                                 ct_attempted := false; ct_already_poisoned := false |};
            cm_batch := batch; cm_reservations := reservations; cm_attempted := false |}
  | _ => Panic
  end.

(** Code that runs on one field of the transaction. *)
Definition on_transaction {A} (m : stm (CoordinatorTransaction T) AcceptedControlError A)
  : stm (CoordinatorMixed T B) (CapabilityBatchError M) A :=
  fun self => let '(r, t) := m (cm_transaction self) in
              (map_err CapabilityError_Control r,
               {| cm_transaction := t; cm_batch := cm_batch self; cm_reservations := cm_reservations self;
                  cm_attempted := cm_attempted self |}).
Definition poison_mixed (self : CoordinatorMixed T B) : CoordinatorMixed T B :=
  {| cm_transaction := CoordinatorTransaction_poison (cm_transaction self); cm_batch := cm_batch self;
     cm_reservations := cm_reservations self; cm_attempted := cm_attempted self |}.
Definition set_mixed_attempted (self : CoordinatorMixed T B) : CoordinatorMixed T B :=
  {| cm_transaction := cm_transaction self; cm_batch := cm_batch self;
     cm_reservations := cm_reservations self; cm_attempted := true |}.

(** A memory operation on the batch: an error poisons the transaction. *)
Definition on_batch (m : stm (B * T) M unit) : stm (CoordinatorMixed T B) (CapabilityBatchError M) unit :=
  fun self =>
  let t := cm_transaction self in
  let d := ct_dispatcher t in
  let '(r, (batch, native)) := m (cm_batch self, d_transport d) in
  let self := {| cm_transaction := with_dispatcher (with_transport native d) t; cm_batch := batch;
                 cm_reservations := cm_reservations self; cm_attempted := cm_attempted self |} in
  match r with
  | Ok u => (Ok u, self)
  | Err e => (Err (CapabilityError_Memory e), poison_mixed self)
  | Panic => (Panic, self)
  end.
Definition revalidate : stm (B * T) M unit :=
  fun '(batch, t) => let '(r, t) := nb_revalidate_before_send batch t in (r, (batch, t)).

Definition phase_frame {E} (m : CapabilityFrame -> res unit bytes)
  : stm (CoordinatorMixed T B) E bytes :=
  fun self => (infallible (m (ct_frame (cm_transaction self))), self).

Definition coordinator_prepare : stm (CoordinatorMixed T B) (CapabilityBatchError M) unit :=
  let! self := sget in
  if cm_attempted self
  then smodify poison_mixed >>! serr (CapabilityError_Control (AcceptedError_Control ControlError_ReplayOrReorder))
  else
  smodify set_mixed_attempted >>!
  on_batch revalidate >>!
  let! self := sget in
  let requires := pl_always_seals p || nb_requires_imported_sealed (cm_batch self) in
  (if pl_announces p
   then on_transaction (send_preparation_bytes (cf_bytes (ct_frame (cm_transaction self))))
   else sret tt) >>!
  on_transaction (CoordinatorTransaction_send (nb_capabilities (cm_batch self))) >>!
  if requires then
    let! imported := phase_frame (fun frame => preparation_frame frame Imported) in
    on_transaction (receive_preparation imported) >>!
    on_batch (if pl_always_seals p then revalidate else nb_seal_after_import) >>!
    let! sealed := phase_frame (fun frame => preparation_frame frame Sealed) in
    on_transaction (send_preparation sealed)
  else sret tt.

(** The value goes away: the transaction first, then the reservations. *)
Definition coordinator_drop (self : CoordinatorMixed T B) : Dispatcher T :=
  let d := CoordinatorTransaction_drop (cm_transaction self) in
  with_resources (drop_leases (cm_reservations self) (d_resources d)) d.

Definition commit_steps : stm (CoordinatorMixed T B) (CapabilityBatchError M) unit :=
  let! self := sget in
  if negb (cm_attempted self)
  then smodify poison_mixed >>! serr (CapabilityError_Control (AcceptedError_Control ControlError_ReplayOrReorder))
  else
  let! ready := phase_frame (fun frame => completion_frame frame Ready) in
  on_transaction (receive_completion ready) >>!
  let! commit := phase_frame (fun frame => completion_frame frame Commit) in
  on_transaction (send_completion commit) >>!
  on_transaction finish.

(** [commit] consumes the transaction; [complete_remote_capability_transaction]
    is Windows's. *)
Definition coordinator_commit (self : CoordinatorMixed T B)
  : res (CapabilityBatchError M) (CommittedBatch B) * Dispatcher T :=
  match commit_steps self with
  | (Ok _, self) =>
      let d := CoordinatorTransaction_drop (cm_transaction self) in
      let d := if pl_announces p
               then with_transport (complete_remote_capability_transaction (d_transport d)) d else d in
      (Ok {| cmb_batch := cm_batch self; cmb_reservations := cm_reservations self;
             cmb_parameters := d_parameters d; cmb_deadline := ct_deadline (cm_transaction self) |}, d)
  | (Err e, self) => (Err e, coordinator_drop self)
  | (Panic, self) => (Panic, coordinator_drop self)
  end.

Definition activate_coordinator (committed : CommittedBatch B)
  : stm (Dispatcher T) (RegionActivationError M) ActiveRegionSet :=
  let reservations := cmb_reservations committed in
  let! self := sget in
  if negb (bool_decide (cmb_parameters committed = d_parameters self))
     || negb (nb_deadline (cmb_batch committed) =? cmb_deadline committed)
  then fail_releasing ActivationFailed_WrongSession reservations else
  match pl_activation_page p with
  | Err error => fail_releasing (ActivationFailed_Memory error) reservations
  | Panic => slift Panic
  | Ok _ => fun self =>
      match on_native (nb_activation_specs (cmb_batch committed)) self with
      | (Ok specs, self) =>
          activate_regions p specs reservations (nb_into_active_region_owners (cmb_batch committed)) self
      | (Err error, self) => fail_releasing (ActivationFailed_Memory error) reservations self
      | (Panic, self) => (Panic, self)
      end
  end.

(** [LinuxPublicReadyFailure]; macOS and Windows return the error alone. *)
Record ReadyFailure := { rf_error : PublicSessionError; rf_transaction_open_on_failure : bool }.
Definition before_transaction (error : PublicSessionError) : ReadyFailure :=
  {| rf_error := error; rf_transaction_open_on_failure := false |}.
Definition after_transaction (error : PublicSessionError) : ReadyFailure :=
  {| rf_error := error; rf_transaction_open_on_failure := true |}.
Definition ready_after_transaction (error : PublicSessionError) : ReadyFailure :=
  {| rf_error := error; rf_transaction_open_on_failure := false |}.

(** The transfer once both sides have capacity. *)
Definition transfer_prepared (prepared : B) (reservations : list Z) (frame : CapabilityFrame) (deadline : Z)
  : stm (Dispatcher T) ReadyFailure ActiveRegionSet :=
  fun self =>
  match begin_preflighted prepared reservations frame deadline self with
  | Panic => (Panic, self)
  | Err (e, self) => (Err (after_transaction (pl_map_batch p e)), self)
  | Ok transaction =>
      match coordinator_prepare transaction with
      | (Panic, transaction) => (Panic, coordinator_drop transaction)
      | (Err e, transaction) => (Err (after_transaction (pl_map_batch p e)), coordinator_drop transaction)
      | (Ok _, transaction) =>
          match coordinator_commit transaction with
          | (Panic, self) => (Panic, self)
          | (Err e, self) => (Err (after_transaction (pl_map_batch p e)), self)
          | (Ok committed, self) =>
              smap_err (fun e => after_transaction (pl_map_activation p e)) (activate_coordinator committed) self
          end
      end
  end.

(** [?] after the exchange drops the reservations. *)
Definition release {A} (held : list Z) (error : ReadyFailure) : stm (Dispatcher T) ReadyFailure A :=
  smodify (fun d => with_resources (drop_leases held (d_resources d)) d) >>! serr error.

Definition transfer_batch (batch : TransferBatch) (deadline : Z)
  : stm (Dispatcher T) ReadyFailure ActiveRegionSet :=
  let! expired := on_native (is_expired deadline) in
  if (expired : bool) then serr (before_transaction Public_DeadlineExpired) else
  let! frame := smap_err (fun e => before_transaction (pl_map_batch p e)) (begin_transfer_capacity batch deadline) in
  fun self =>
  match reserve_transfer_batch batch self with
  | (Panic, self) => (Panic, self)
  | (Err _, self) =>
      (smap_err (fun e => after_transaction (pl_map_batch p e))
         (exchange_transfer_capacity frame Manifest.ActiveLimit deadline) >>!
       serr (ready_after_transaction Public_ActiveLimit)) self
  | (Ok reservations, self) =>
      match on_native (nb_prepare batch (ap_authority_profile (d_parameters self)) deadline) self with
      | (Panic, self) => (Panic, self)
      | (Err error, self) =>
          match exchange_transfer_capacity frame PreparationFailed deadline self with
          | (Err e, self) => release reservations (after_transaction (pl_map_batch p e)) self
          | (Panic, self) => (Panic, self)
          | (Ok _, self) => release reservations (ready_after_transaction (pl_map_local_memory p error)) self
          end
      | (Ok prepared, self) =>
          match exchange_transfer_capacity frame CapacityReady deadline self with
          | (Err e, self) => release reservations (after_transaction (pl_map_batch p e)) self
          | (Panic, self) => (Panic, self)
          | (Ok peer_ready, self) =>
              if negb peer_ready
              then release reservations (ready_after_transaction Public_ActiveLimit) self
              else transfer_prepared prepared reservations frame deadline self
          end
      end
  end.

End Coordinator.

(** ** The receiver *)

Record ReceiverMixed (T I : Type) := {
  rm_dispatcher : Dispatcher T;
  rm_expected : option Expectation;
  rm_imported : option I;
  rm_frame : option CapabilityFrame;
  rm_preflight_frame : option CapabilityFrame;
  rm_reservations : list Z;
  rm_deadline : Z;
  rm_transaction_id : Z;
  rm_attempted : bool;
  rm_already_poisoned : bool
}.
Arguments rm_dispatcher {T I}.
Arguments rm_expected {T I}.
Arguments rm_imported {T I}.
Arguments rm_frame {T I}.
Arguments rm_preflight_frame {T I}.
Arguments rm_reservations {T I}.
Arguments rm_deadline {T I}.
Arguments rm_transaction_id {T I}.
Arguments rm_attempted {T I}.
Arguments rm_already_poisoned {T I}.

Section Receiver.
Context {T I Right Rcv M : Type} {R : AuthenticatedZeroRightsTransport T} {C : Clock T}
        {CT : CandidateCapabilityTransport T Right} {RC : ReceiverCapabilityTransport T Rcv}
        {IB : ImportedBatch T I Right M} (into_handles : Rcv -> list Right) (p : Platform T M).

Definition rm_with_dispatcher (d : Dispatcher T) (self : ReceiverMixed T I) : ReceiverMixed T I :=
  {| rm_dispatcher := d; rm_expected := rm_expected self; rm_imported := rm_imported self;
     rm_frame := rm_frame self; rm_preflight_frame := rm_preflight_frame self;
     rm_reservations := rm_reservations self; rm_deadline := rm_deadline self;
     rm_transaction_id := rm_transaction_id self; rm_attempted := rm_attempted self;
     rm_already_poisoned := rm_already_poisoned self |}.
Definition rm_set_attempted (self : ReceiverMixed T I) : ReceiverMixed T I :=
  {| rm_dispatcher := rm_dispatcher self; rm_expected := rm_expected self; rm_imported := rm_imported self;
     rm_frame := rm_frame self; rm_preflight_frame := rm_preflight_frame self;
     rm_reservations := rm_reservations self; rm_deadline := rm_deadline self;
     rm_transaction_id := rm_transaction_id self; rm_attempted := true;
     rm_already_poisoned := rm_already_poisoned self |}.
Definition rm_set_already (self : ReceiverMixed T I) : ReceiverMixed T I :=
  {| rm_dispatcher := rm_dispatcher self; rm_expected := rm_expected self; rm_imported := rm_imported self;
     rm_frame := rm_frame self; rm_preflight_frame := rm_preflight_frame self;
     rm_reservations := rm_reservations self; rm_deadline := rm_deadline self;
     rm_transaction_id := rm_transaction_id self; rm_attempted := rm_attempted self;
     rm_already_poisoned := true |}.
(** [self.expected.take()]. *)
Definition rm_take_expected (self : ReceiverMixed T I) : ReceiverMixed T I :=
  {| rm_dispatcher := rm_dispatcher self; rm_expected := None; rm_imported := rm_imported self;
     rm_frame := rm_frame self; rm_preflight_frame := rm_preflight_frame self;
     rm_reservations := rm_reservations self; rm_deadline := rm_deadline self;
     rm_transaction_id := rm_transaction_id self; rm_attempted := rm_attempted self;
     rm_already_poisoned := rm_already_poisoned self |}.
Definition rm_set_imported (imported : I) (frame : CapabilityFrame) (self : ReceiverMixed T I) : ReceiverMixed T I :=
  {| rm_dispatcher := rm_dispatcher self; rm_expected := rm_expected self; rm_imported := Some imported;
     rm_frame := Some frame; rm_preflight_frame := rm_preflight_frame self;
     rm_reservations := rm_reservations self; rm_deadline := rm_deadline self;
     rm_transaction_id := rm_transaction_id self; rm_attempted := rm_attempted self;
     rm_already_poisoned := rm_already_poisoned self |}.

Definition receiver_poison (self : ReceiverMixed T I) : ReceiverMixed T I :=
  if rm_already_poisoned self then self
  else rm_set_already (rm_with_dispatcher (poison_both (rm_dispatcher self)) self).

(** [begin_public_*_expected_mixed_direction_batch] in its two parts: up to the
    open transaction, then the capacity exchange. The flag of an error is
    [transaction_open_on_failure] of [LinuxBatchBeginError]. *)
Definition open_expected (expected : ExpectedBatch) (deadline : Z)
  : stm (Dispatcher T) (CapabilityBatchError M * bool) (Expectation * Z) :=
  let! self := sget in
  if negb (bool_decide (ap_authority_profile (d_parameters self) = pl_profile p))
  then serr (CapabilityError_Memory (pl_wrong_provenance p), false) else
  let! expected := smap_err (fun e => (CapabilityError_Memory e, false))
                     (on_native (pl_expect p expected (ap_limits (d_parameters self)) deadline)) in
  let! transaction_id := smap_err (fun e => (CapabilityError_Control e, false))
                           (enter_native_transaction deadline) in
  sret (expected, transaction_id).

(** [self.reserve_mapped_lengths(..).ok()]. *)
Definition try_reserve (mapped_lengths : list Z)
  : stm (Dispatcher T) (CapabilityBatchError M * bool) (option (list Z)) :=
  fun d => match reserve mapped_lengths d with
           | (Ok l, d) => (Ok (Some l), d)
           | (Err _, d) => (Ok None, d)
           | (Panic, d) => (Panic, d)
           end.

(** The answer to the offer: reservations already taken are dropped with it when
    it cannot be sent. *)
Definition answer_capacity (response : bytes) (held : list Z) (deadline : Z)
  : stm (Dispatcher T) (CapabilityBatchError M * bool) unit :=
  fun d => match or_poison_both (transport_send response deadline) d with
           | (Ok u, d) => (Ok u, d)
           | (Err e, d) => (Err (CapabilityError_Control e, true),
                            with_resources (drop_leases held (d_resources d)) d)
           | (Panic, d) => (Panic, d)
           end.

Definition exchange_expected (expected : Expectation) (transaction_id deadline : Z)
  : stm (Dispatcher T) (CapabilityBatchError M * bool) (CapabilityFrame * list Z) :=
  let noncanonical := (CapabilityError_Control (AcceptedError_Control ControlError_NonCanonical), true) in
  let! offer := smap_err (fun e => (CapabilityError_Control e, true))
                  (or_poison_both (transport_receive CONTROL_FRAME_LEN deadline)) in
  let! decoded :=
    match decode_coordinator_capacity offer with
    | Ok decoded => sret decoded
    | Err _ => fail_both noncanonical
    | Panic => slift Panic
    end in
  let '(frame, manifest, coordinator_status) := decoded in
  let! self := sget in
  if negb (received_manifest_matches p (d_parameters self) transaction_id expected manifest)
  then fail_both noncanonical else
  let coordinator_ready := match coordinator_status with CapacityReady => true | _ => false end in
  let! reservations :=
    (if coordinator_ready then try_reserve (reservation_lengths expected) else sret None) in
  let local_ready := coordinator_ready && bool_decide (reservations <> None) in
  let! response := slift (infallible (receiver_capacity_frame frame local_ready)) in
  answer_capacity response (default [] reservations) deadline >>!
  if negb local_ready then
    smap_err (fun e => (CapabilityError_Control (AcceptedError_Control e), true)) (on_control end_transaction) >>!
    serr (match coordinator_status with
          | PreparationFailed => CapabilityError_PeerPreparationFailed
          | _ => CapabilityError_ActiveLimit
          end, false)
  else
  let! reservations := slift (expect reservations) in
  sret (frame, reservations).

Definition begin_expected (expected : ExpectedBatch) (deadline : Z) (self : Dispatcher T)
  : res ((CapabilityBatchError M * bool) * Dispatcher T) (ReceiverMixed T I) :=
  match (let! opened := open_expected expected deadline in
         let! exchanged := exchange_expected (fst opened) (snd opened) deadline in
         sret (opened, exchanged)) self with
  | (Err e, self) => Err (e, self)
  | (Panic, _) => Panic
  | (Ok ((expectation, transaction_id), (frame, reservations)), self) =>
      Ok {| rm_dispatcher := self; rm_expected := Some expectation; rm_imported := None; rm_frame := None;
            rm_preflight_frame := if pl_compares_preflight p then Some frame else None;
            rm_reservations := reservations; rm_deadline := deadline; rm_transaction_id := transaction_id;
            rm_attempted := false; rm_already_poisoned := false |}
  end.

(** Code on the borrowed dispatcher, whose errors poison the transaction. *)
Definition guarded {A} (m : stm (Dispatcher T) (CapabilityBatchError M) A)
  : stm (ReceiverMixed T I) (CapabilityBatchError M) A :=
  fun self => match m (rm_dispatcher self) with
              | (Ok a, d) => (Ok a, rm_with_dispatcher d self)
              | (Err e, d) => (Err e, receiver_poison (rm_with_dispatcher d self))
              | (Panic, d) => (Panic, rm_with_dispatcher d self)
              end.
Definition refuse {A} (error : ControlError) : stm (ReceiverMixed T I) (CapabilityBatchError M) A :=
  smodify receiver_poison >>! serr (CapabilityError_Control (AcceptedError_Control error)).

(** The record that carries the capability frame, and the capabilities with it
    where they travel together. *)
Definition receive_offer (expected : Expectation) (deadline : Z)
  : stm (Dispatcher T) (CapabilityBatchError M) (bytes * option (list Right)) :=
  if pl_announces p then
    let! offer := smap_err CapabilityError_Control (transport_receive CONTROL_FRAME_LEN deadline) in
    sret (offer, None)
  else
    let! record := smap_err (fun e => CapabilityError_Control (AcceptedError_Transport e))
                     (on_io (receive_candidate_capability_record (expectation_len expected) deadline)) in
    sret (fst record, Some (snd record)).
Definition receive_rights (frame : CapabilityFrame) (carried : option (list Right)) (deadline : Z)
  : stm (Dispatcher T) (CapabilityBatchError M) (list Right) :=
  match carried with
  | Some rights => sret rights
  | None =>
      let! received := smap_err (fun e => CapabilityError_Control (AcceptedError_Transport e))
                         (on_io (receive_capability_record frame deadline)) in
      sret (into_handles received)
  end.

(** The last check before the imported batch is kept. *)
Definition final_check (deadline : Z) (imported : I)
  : stm (Dispatcher T) (CapabilityBatchError M) I :=
  fun d =>
  if pl_always_seals p then
    let '(r, t) := ib_activation_specs imported deadline (d_transport d) in
    (map_err CapabilityError_Memory (r >>? Ok imported), with_transport t d)
  else
    let '(r, (imported, t)) := ib_verify_final_seals deadline (imported, d_transport d) in
    (map_err CapabilityError_Memory (r >>? Ok imported), with_transport t d).

Definition receiver_prepare : stm (ReceiverMixed T I) (CapabilityBatchError M) unit :=
  let! self := sget in
  if rm_attempted self then refuse ControlError_ReplayOrReorder else
  smodify rm_set_attempted >>!
  let! expected := slift (expect (rm_expected self)) in
  let deadline := rm_deadline self in
  if negb (pl_always_seals p) && negb (ex_deadline expected =? deadline) then slift Panic else
  let requires := pl_always_seals p || requires_imported_sealed expected in
  let! offer := guarded (receive_offer expected deadline) in
  let! decoded :=
    match CapabilityFrame_decode (fst offer) with
    | Ok decoded => sret decoded
    | Err _ => refuse ControlError_NonCanonical
    | Panic => slift Panic
    end in
  let '(frame, manifest) := decoded in
  if match rm_preflight_frame self with
     | Some preflight => negb (bool_decide (cf_bytes preflight = cf_bytes frame))
     | None => false
     end
  then refuse ControlError_NonCanonical else
  if negb (received_manifest_matches p (d_parameters (rm_dispatcher self)) (rm_transaction_id self) expected manifest)
  then refuse ControlError_NonCanonical else
  let! rights := guarded (receive_rights frame (snd offer) deadline) in
  smodify rm_take_expected >>!
  let! imported := guarded (smap_err CapabilityError_Memory (on_native (ib_import expected manifest rights))) in
  (if requires then
     let! imported_frame := slift (infallible (preparation_frame frame Imported)) in
     guarded (smap_err CapabilityError_Control (transport_send imported_frame deadline)) >>!
     let! sealed_frame := slift (infallible (preparation_frame frame Sealed)) in
     let! sealed := guarded (smap_err CapabilityError_Control (transport_receive (len sealed_frame) deadline)) in
     if negb (frame_matches sealed_frame sealed) then refuse ControlError_NonCanonical else sret tt
   else sret tt) >>!
  let! imported := guarded (final_check deadline imported) in
  smodify (rm_set_imported imported frame).

Definition receiver_drop (self : ReceiverMixed T I) : Dispatcher T :=
  let d := rm_dispatcher (receiver_poison self) in
  with_resources (drop_leases (rm_reservations self) (d_resources d)) d.

Definition receiver_commit_steps : stm (ReceiverMixed T I) (CapabilityBatchError M) I :=
  let! self := sget in
  let deadline := rm_deadline self in
  match rm_imported self, rm_frame self with
  | Some imported, Some frame =>
      if negb (rm_attempted self) then refuse ControlError_ReplayOrReorder else
      let! ready := slift (infallible (completion_frame frame Ready)) in
      guarded (smap_err CapabilityError_Control (transport_send ready deadline)) >>!
      let! commit := slift (infallible (completion_frame frame Commit)) in
      let! committed := guarded (smap_err CapabilityError_Control (transport_receive (len commit) deadline)) in
      if negb (frame_matches commit committed) then refuse ControlError_NonCanonical else
      guarded (smap_err (fun e => CapabilityError_Control (AcceptedError_Control e)) (on_control end_transaction)) >>!
      smodify rm_set_already >>!
      sret imported
  | _, _ => refuse ControlError_ReplayOrReorder
  end.

Definition receiver_commit (self : ReceiverMixed T I)
  : res (CapabilityBatchError M) (CommittedBatch I) * Dispatcher T :=
  match receiver_commit_steps self with
  | (Ok imported, self) =>
      let d := rm_dispatcher (receiver_poison self) in
      (Ok {| cmb_batch := imported; cmb_reservations := rm_reservations self;
             cmb_parameters := d_parameters d; cmb_deadline := rm_deadline self |}, d)
  | (Err e, self) => (Err e, receiver_drop self)
  | (Panic, self) => (Panic, receiver_drop self)
  end.

Definition activate_receiver (committed : CommittedBatch I)
  : stm (Dispatcher T) (RegionActivationError M) ActiveRegionSet :=
  let reservations := cmb_reservations committed in
  let! self := sget in
  if negb (bool_decide (cmb_parameters committed = d_parameters self))
  then fail_releasing ActivationFailed_WrongSession reservations else
  match pl_activation_page p with
  | Err error => fail_releasing (ActivationFailed_Memory error) reservations
  | Panic => slift Panic
  | Ok _ => fun self =>
      match on_native (ib_activation_specs (cmb_batch committed) (cmb_deadline committed)) self with
      | (Ok specs, self) =>
          activate_regions p specs reservations (ib_into_active_region_owners (cmb_batch committed)) self
      | (Err error, self) => fail_releasing (ActivationFailed_Memory error) reservations self
      | (Panic, self) => (Panic, self)
      end
  end.

Definition receive_batch (expected : ExpectedBatch) (deadline : Z)
  : stm (Dispatcher T) ReadyFailure ActiveRegionSet :=
  (if pl_receive_checks_deadline p then
     let! expired := on_native (is_expired deadline) in
     if (expired : bool) then serr (before_transaction Public_DeadlineExpired) else sret tt
   else sret tt) >>!
  fun self =>
  match begin_expected expected deadline self with
  | Panic => (Panic, self)
  | Err ((e, open), self) =>
      (Err {| rf_error := pl_map_receiver_begin p e; rf_transaction_open_on_failure := open |}, self)
  | Ok transaction =>
      match receiver_prepare transaction with
      | (Panic, transaction) => (Panic, receiver_drop transaction)
      | (Err e, transaction) => (Err (after_transaction (pl_map_receiver p e)), receiver_drop transaction)
      | (Ok _, transaction) =>
          match receiver_commit transaction with
          | (Panic, self) => (Panic, self)
          | (Err e, self) => (Err (after_transaction (pl_map_receiver p e)), self)
          | (Ok committed, self) =>
              smap_err (fun e => after_transaction (pl_map_activation p e)) (activate_receiver committed) self
          end
      end
  end.

End Receiver.
