(* ===== verification/Platforms.v ===== *)
(** * Platforms: each platform's methods ([backend/accepted_control.rs], the three public sessions)

    The methods of [Transfer.v] at each [Platform], under the names the code
    gives them, and the entry points that reserve and open a transaction without
    the capacity exchange. *)

From S2P Require Import Prelude Tools Limits Manifest Control Liveness Native Resources Region Active Batch Dispatcher Expected Transfer.

(** ** Coordinators *)

Section Linux.
Context {T B Cap : Type} {PQ : PageQuery} {R : AuthenticatedZeroRightsTransport T} {C : Clock T}
        {CC : CoordinatorCapabilityTransport T Cap} {NB : NativeBatch T B Cap MemfdError} {RH : RemoteHandles T}.
Implicit Types d : Dispatcher T.

Definition begin_public_linux_transfer_capacity := begin_transfer_capacity (T := T) linux.
Definition reserve_linux_transfer_batch := reserve_transfer_batch (T := T).
Definition exchange_public_linux_transfer_capacity := exchange_transfer_capacity (T := T) (M := MemfdError).
Definition begin_public_linux_mixed_direction_batch_preflighted := begin_preflighted (T := T) (B := B) linux.
Definition linux_coordinator_prepare := coordinator_prepare (T := T) (B := B) linux.
Definition linux_coordinator_commit := coordinator_commit (T := T) (B := B) linux.
Definition activate_linux_coordinator_mixed_direction_batch := activate_coordinator (T := T) (B := B) linux.
Definition activate_linux_regions := activate_regions (T := T) linux.
Definition linux_transfer_batch := transfer_batch (T := T) (B := B) linux.

(** [Err] hands the borrowed dispatcher back; reservations not stored in the
    transaction are dropped. *)
Definition begin_linux_mixed_direction_batch_reserved (batch : B) (reservations : list Z) (deadline : Z) d
  : res (CapabilityBatchError MemfdError * Dispatcher T) (CoordinatorMixed T B) :=
  let refused (error : CapabilityBatchError MemfdError) d :=
    Err (error, with_resources (drop_leases reservations (d_resources d)) d) in
  if negb (bool_decide (ap_authority_profile (d_parameters d) = LinuxMdweV1))
  then refused (CapabilityError_Memory MemfdError_WrongProvenance) d else
  if negb (nb_deadline batch =? deadline)
  then refused (CapabilityError_Memory MemfdError_DeadlineMismatch) d else
  if negb (len reservations =? len (nb_reservation_lengths batch))
  then refused (CapabilityError_Memory MemfdError_InvalidBatch) d else
  match begin_native_transaction (nb_manifest_entries batch) deadline d with
  | (Err e, d) => refused (CapabilityError_Control e) d
  | (Panic, _) => Panic
  | (Ok frame, d) =>
      Ok {| cm_transaction := {| ct_dispatcher := d; ct_frame := frame; ct_deadline := deadline;
                                 ct_attempted := false; ct_already_poisoned := false |};
            cm_batch := batch; cm_reservations := reservations; cm_attempted := false |}
  end.

Definition begin_linux_mixed_direction_batch (batch : B) (deadline : Z) d
  : res (CapabilityBatchError MemfdError * Dispatcher T) (CoordinatorMixed T B) :=
  match reserve (nb_reservation_lengths batch) d with
  | (Err e, d) => Err (CapabilityError_Resource e, d)
  | (Panic, _) => Panic
  | (Ok reservations, d) => begin_linux_mixed_direction_batch_reserved batch reservations deadline d
  end.

End Linux.

(** The direct entry points of macOS and Windows: the profile and the deadline
    are checked before anything is reserved. *)
Section Direct.
Context {T B Cap M : Type} {R : AuthenticatedZeroRightsTransport T} {C : Clock T}
        {CC : CoordinatorCapabilityTransport T Cap} {NB : NativeBatch T B Cap M} (p : Platform T M).

Definition begin_direct (batch : B) (deadline : Z) (self : Dispatcher T)
  : res (CapabilityBatchError M * Dispatcher T) (CoordinatorMixed T B) :=
  if negb (bool_decide (ap_authority_profile (d_parameters self) = pl_profile p))
     || negb (nb_deadline batch =? deadline)
  then Err (CapabilityError_Memory (pl_wrong_provenance p), self) else
  match reserve (nb_reservation_lengths batch) self with
  | (Err e, self) => Err (CapabilityError_Resource e, self)
  | (Panic, _) => Panic
  | (Ok reservations, self) =>
      match begin_native_transaction (nb_manifest_entries batch) deadline self with
      | (Err e, self) =>
          Err (CapabilityError_Control e, with_resources (drop_leases reservations (d_resources self)) self)
      | (Panic, _) => Panic
      | (Ok frame, self) =>
          Ok {| cm_transaction := {| ct_dispatcher := self; ct_frame := frame; ct_deadline := deadline;
                                     ct_attempted := false; ct_already_poisoned := false |};
                cm_batch := batch; cm_reservations := reservations; cm_attempted := false |}
      end
  end.

End Direct.

Section Mac.
Context {T B Cap : Type} {PQ : PageQuery} {R : AuthenticatedZeroRightsTransport T} {C : Clock T}
        {CC : CoordinatorCapabilityTransport T Cap} {NB : NativeBatch T B Cap MacBatchError} {RH : RemoteHandles T}.

Definition begin_public_macos_transfer_capacity := begin_transfer_capacity (T := T) macos.
Definition reserve_macos_transfer_batch := reserve_transfer_batch (T := T).
Definition exchange_public_macos_transfer_capacity := exchange_transfer_capacity (T := T) (M := MacBatchError).
Definition begin_public_macos_mixed_direction_batch_preflighted := begin_preflighted (T := T) (B := B) macos.
Definition begin_macos_mixed_direction_batch := begin_direct (T := T) (B := B) macos.
Definition mac_coordinator_prepare := coordinator_prepare (T := T) (B := B) macos.
Definition mac_coordinator_commit := coordinator_commit (T := T) (B := B) macos.
Definition activate_macos_coordinator_mixed_direction_batch := activate_coordinator (T := T) (B := B) macos.
Definition activate_mac_regions := activate_regions (T := T) macos.
Definition mac_transfer_batch := transfer_batch (T := T) (B := B) macos.

End Mac.

Section Windows.
Context {T B Cap : Type} {PQ : PageQuery} {R : AuthenticatedZeroRightsTransport T} {C : Clock T}
        {CC : CoordinatorCapabilityTransport T Cap} {NB : NativeBatch T B Cap WindowsBatchError} {RH : RemoteHandles T}.

Definition begin_public_windows_transfer_capacity := begin_transfer_capacity (T := T) windows.
Definition reserve_windows_transfer_batch := reserve_transfer_batch (T := T).
Definition exchange_public_windows_transfer_capacity := exchange_transfer_capacity (T := T) (M := WindowsBatchError).
Definition begin_public_windows_mixed_direction_batch_preflighted := begin_preflighted (T := T) (B := B) windows.
Definition begin_windows_mixed_direction_batch := begin_direct (T := T) (B := B) windows.
Definition windows_coordinator_prepare := coordinator_prepare (T := T) (B := B) windows.
Definition windows_coordinator_commit := coordinator_commit (T := T) (B := B) windows.
Definition activate_windows_coordinator_mixed_direction_batch := activate_coordinator (T := T) (B := B) windows.
Definition activate_windows_regions := activate_regions (T := T) windows.
Definition windows_transfer_batch := transfer_batch (T := T) (B := B) windows.

End Windows.

(** ** Receivers *)

Section Receivers.
Context {T I Right Rcv : Type} {PQ : PageQuery} {R : AuthenticatedZeroRightsTransport T} {C : Clock T}
        {CT : CandidateCapabilityTransport T Right} {RC : ReceiverCapabilityTransport T Rcv}
        (into_handles : Rcv -> list Right).

(** [begin_*_expected_mixed_direction_batch]: the reservations come before the
    transaction. *)
Definition begin_expected_direct {M} {IB : ImportedBatch T I Right M} (p : Platform T M) (expected : ExpectedBatch)
  (deadline : Z) (self : Dispatcher T) : res (CapabilityBatchError M * Dispatcher T) (ReceiverMixed T I) :=
  if negb (bool_decide (ap_authority_profile (d_parameters self) = pl_profile p))
  then Err (CapabilityError_Memory (pl_wrong_provenance p), self) else
  match on_native (pl_expect p expected (ap_limits (d_parameters self)) deadline) self with
  | (Err e, self) => Err (CapabilityError_Memory e, self)
  | (Panic, _) => Panic
  | (Ok expected, self) =>
      match reserve (reservation_lengths expected) self with
      | (Err e, self) => Err (CapabilityError_Resource e, self)
      | (Panic, _) => Panic
      | (Ok reservations, self) =>
          match enter_native_transaction deadline self with
          | (Err e, self) =>
              Err (CapabilityError_Control e, with_resources (drop_leases reservations (d_resources self)) self)
          | (Panic, _) => Panic
          | (Ok transaction_id, self) =>
              Ok {| rm_dispatcher := self; rm_expected := Some expected; rm_imported := None; rm_frame := None;
                    rm_preflight_frame := None; rm_reservations := reservations; rm_deadline := deadline;
                    rm_transaction_id := transaction_id; rm_attempted := false; rm_already_poisoned := false |}
          end
      end
  end.

Section LinuxReceiver.
Context {IB : ImportedBatch T I Right MemfdError}.
Definition linux_received_mixed_manifest_matches := received_manifest_matches (T := T) linux.
Definition begin_public_linux_expected_mixed_direction_batch := begin_expected (T := T) (I := I) linux.
Definition begin_linux_expected_mixed_direction_batch := begin_expected_direct (M := MemfdError) linux.
Definition linux_receiver_prepare := receiver_prepare (T := T) (I := I) into_handles linux.
Definition linux_receiver_commit := receiver_commit (T := T) (I := I) (M := MemfdError).
Definition activate_linux_receiver_mixed_direction_batch := activate_receiver (T := T) (I := I) linux.
Definition linux_receive_batch := receive_batch (T := T) (I := I) into_handles linux.
End LinuxReceiver.

Section MacReceiver.
Context {IB : ImportedBatch T I Right MacBatchError}.
Definition mac_received_mixed_manifest_matches := received_manifest_matches (T := T) macos.
Definition begin_public_macos_expected_mixed_direction_batch := begin_expected (T := T) (I := I) macos.
Definition begin_macos_expected_mixed_direction_batch := begin_expected_direct (M := MacBatchError) macos.
Definition mac_receiver_prepare := receiver_prepare (T := T) (I := I) into_handles macos.
Definition mac_receiver_commit := receiver_commit (T := T) (I := I) (M := MacBatchError).
Definition activate_macos_receiver_mixed_direction_batch := activate_receiver (T := T) (I := I) macos.
Definition mac_receive_batch := receive_batch (T := T) (I := I) into_handles macos.
End MacReceiver.

Section WindowsReceiver.
Context {IB : ImportedBatch T I Right WindowsBatchError}.
Definition windows_received_mixed_manifest_matches := received_manifest_matches (T := T) windows.
Definition begin_public_windows_expected_mixed_direction_batch := begin_expected (T := T) (I := I) windows.
Definition begin_windows_expected_mixed_direction_batch := begin_expected_direct (M := WindowsBatchError) windows.
Definition windows_receiver_prepare := receiver_prepare (T := T) (I := I) into_handles windows.
Definition windows_receiver_commit := receiver_commit (T := T) (I := I) (M := WindowsBatchError).
Definition activate_windows_receiver_mixed_direction_batch := activate_receiver (T := T) (I := I) windows.
Definition windows_receive_batch := receive_batch (T := T) (I := I) into_handles windows.
End WindowsReceiver.

End Receivers.

(** ** The error maps that are the same on all platforms *)

Definition mac_map_transport_error := map_public_transport_error.
Definition windows_map_transport_error := map_public_transport_error.
Definition mac_map_resource_error := map_close_resource_error.
Definition windows_map_resource_error := map_close_resource_error.

(** * Code that exchanges a fixed sequence of records

    A protocol step either follows its script to the end and leaves the session
    alive, or stops somewhere in the script, having exchanged a prefix of it and
    perhaps received one record that is not in it, and leaves the session dead.
    [triple] states this of a piece of code; its rules compose scripts. *)

(** What was exchanged, against the script. *)
Definition stopped (script es : list Event) : Prop :=
  exists a b, script = a ++ b /\ (es = a \/ exists w, es = a ++ [Received w]).

Lemma stopped_nil script : stopped script [].
Proof. exists [], script. auto. Qed.

Lemma stopped_received script w : stopped script [Received w].
Proof. exists [], script. split; [done|]. right. now exists w. Qed.

Lemma stopped_app_l a b es : stopped a es -> stopped (a ++ b) es.
Proof. intros (x & y & -> & H). exists x, (y ++ b). now rewrite app_assoc. Qed.

Lemma stopped_app_r a b es : stopped b es -> stopped (a ++ b) (a ++ es).
Proof.
  intros (x & y & -> & H). exists (a ++ x), y. split; [now rewrite app_assoc|].
  destruct H as [->|[w ->]]; [now left|]. right. exists w. now rewrite app_assoc.
Qed.

Lemma stopped_self a : stopped a a.
Proof. exists a, []. rewrite app_nil_r. auto. Qed.

Section Triples.
Context {S E : Type} (log : S -> list Event) (alive dead : S -> Prop).

Definition follows (script : list Event) (s : S) {A} (Q : A -> S -> Prop) (r : res E A) (s' : S) : Prop :=
  exists es, log s' = log s ++ es /\
    match r with
    | Ok x => alive s' /\ Q x s' /\ es = script
    | Err _ => dead s' /\ stopped script es
    | Panic => False
    end.

Definition triple {A} (P : S -> Prop) (script : list Event) (m : stm S E A) (Q : A -> S -> Prop) : Prop :=
  forall s, alive s -> P s -> wp m (follows script s Q) s.

Lemma triple_bind {A B} (P : S -> Prop) script1 script2 (m : stm S E A) (k : A -> stm S E B) Q1 Q2 :
  triple P script1 m Q1 -> (forall x, triple (Q1 x) script2 (k x) Q2) ->
  triple P (script1 ++ script2) (sbind m k) Q2.
Proof.
  intros Hm Hk s Ha HP. apply wp_bind. eapply wp_mono; [now apply Hm|].
  intros [x|e|] s1 (es & Hl & H); cbn [bound]; [|exists es; split; [done|]; destruct H; split; [done|now apply stopped_app_l]|done].
  destruct H as (Ha1 & HQ & ->). eapply wp_mono; [now apply Hk|].
  intros r s2 (es2 & Hl2 & H2). exists (script1 ++ es2). split; [now rewrite Hl2, Hl, app_assoc|].
  destruct r as [y|e|]; [|destruct H2; split; [done|now apply stopped_app_r]|done].
  destruct H2 as (? & ? & ->). auto.
Qed.

Lemma triple_ret {A} (P : S -> Prop) (x : A) : triple P [] (sret x) (fun y s => y = x /\ P s).
Proof. intros s Ha HP. exists []. rewrite app_nil_r. auto. Qed.

Lemma triple_conseq {A} (P P' : S -> Prop) script (m : stm S E A) (Q Q' : A -> S -> Prop) :
  triple P script m Q -> (forall s, P' s -> P s) -> (forall x s, Q x s -> Q' x s) -> triple P' script m Q'.
Proof.
  intros H HP HQ s Ha HP'. eapply wp_mono; [apply H; auto|]. intros r s' (es & Hl & Hr). exists es. split; [done|].
  destruct r; naive_solver.
Qed.

Lemma triple_get (P : S -> Prop) : triple P [] (sget (E := E)) (fun x s => x = s /\ P s).
Proof. intros s Ha HP. exists []. rewrite app_nil_r. auto. Qed.

Lemma triple_lift {A} (P : S -> Prop) (r : res E A) x :
  r = Ok x -> triple P [] (slift r) (fun y s => y = x /\ P s).
Proof. intros -> s Ha HP. exists []. rewrite app_nil_r. auto. Qed.

(** Reading the state first. *)
Lemma triple_read {B} (P : S -> Prop) script (k : S -> stm S E B) Q :
  (forall s, alive s -> P s -> triple (fun s' => s' = s) script (k s) Q) ->
  triple P script (let! x := sget in k x) Q.
Proof. intros H s Ha HP. apply wp_bind, wp_get. cbn [bound]. now apply H. Qed.

End Triples.
