(* ===== verification/ActivationTheory.v ===== *)
(** * ActivationTheory: committed batches become active regions, or nothing does

    [held_by] is the state of a session between the steps of a transfer: its
    invariant, its parameters, its abstract mode and the exact list of charges
    its ledger holds. Activation turns each reservation into the lease of one
    region, or gives every charge of the batch back and kills the session. *)

From stdpp Require Import gmap.
From S2P Require Import Prelude Tools Limits Manifest Control Liveness Native Resources Region Active Batch Dispatcher DispatcherTheory Expected Transfer.

Record held_by {T} (P : AcceptedSessionParameters) (a : Session) (held : list Z) (d : Dispatcher T) : Prop := {
  hb_ok : dispatcher_ok d;
  hb_parameters : d_parameters d = P;
  hb_mode : abstract d = a;
  hb_ledger : balanced (d_resources d) held
}.

(** The order of charges does not matter. *)
#[export] Instance held_by_proper {T} P a : Proper ((≡ₚ) ==> eq ==> iff) (@held_by T P a).
Proof.
  intros l k Hlk d ? <-. split; intros []; constructor; try done; [now rewrite <- Hlk|now rewrite Hlk].
Qed.

Section Steps.
Context {T : Type} {R : AuthenticatedZeroRightsTransport T}.
Implicit Types d : Dispatcher T.

Lemma hb_transport P a held t d : held_by P a held d -> held_by P a held (with_transport t d).
Proof. intros []. constructor; auto with nipc. Qed.

Lemma hb_poison P a held d : held_by P a held d -> held_by P SessionDead held (poison_both d).
Proof. intros []. constructor; auto with nipc. cbn. now apply poison_balanced. Qed.

Lemma ok_resources sh held d : dispatcher_ok d -> balanced sh held -> dispatcher_ok (with_resources sh d).
Proof. intros [] Hb. constructor; try done. now exists held. Qed.

Lemma hb_resources P a held held' sh d :
  held_by P a held d -> balanced sh held' -> held_by P a held' (with_resources sh d).
Proof. intros [] Hb. constructor; try done. now apply ok_resources with held'. Qed.

Lemma hb_release P a freed held d :
  held_by P a (freed ++ held) d -> held_by P a held (with_resources (drop_leases freed (d_resources d)) d).
Proof. intros H. eapply hb_resources; [exact H|]. apply drop_leases_balanced, H. Qed.

(** Leaving with an error that kills the session and releases what is held. *)
Lemma wp_fail_releasing {E A} P a (e : E) freed held d (Q : res E A -> Dispatcher T -> Prop) :
  held_by P a (freed ++ held) d ->
  (forall d', d_transport d' = transport_poison (d_transport d) -> held_by P SessionDead held d' -> Q (Err e) d') ->
  wp (fail_releasing e freed) Q d.
Proof.
  intros Hd HQ. unfold fail_releasing. wp_steps. apply HQ; [done|]. eapply hb_release, hb_poison, Hd.
Qed.

End Steps.

(** ** One region *)

(** A reservation becomes the lease of the new mapping, or is given back. *)
Lemma reader_leased owner logical b guard sh rest :
  balanced sh (b :: rest) ->
  match ActiveReader_new_leased owner logical b guard sh with
  | (Ok rd, sh') => rd_lease rd = Some b /\ rdo_len (rd_owner rd) = b /\ rd_logical_len rd = logical /\ sh' = sh
  | (Err _, sh') => balanced sh' rest
  | (Panic, _) => False
  end.
Proof.
  intros Hb. pose proof (drop_balanced _ _ _ Hb). unfold ActiveReader_new_leased, reader_from_owner.
  destruct (_ || _); [done|]. cbn [rd_owner rd_logical_len]. destruct (try_from U64_MAX (rdo_len owner)) as [n|] eqn:Hn; [|done].
  apply try_from_Some in Hn as [-> _]. unfold sbind, smap_err.
  destruct (LeaseReservation_complete b (rdo_len owner) sh) as [r sh'] eqn:Hc.
  pose proof (complete_balanced _ _ _ _ _ _ Hb Hc) as Hr. destruct r as [c|e|]; cbn [map_err]; [|done|done].
  destruct Hr as (-> & Hlen & _ & ->). cbn. auto.
Qed.

Lemma writer_leased owner logical b guard sh rest :
  balanced sh (b :: rest) ->
  match ActiveWriter_new_leased owner logical b guard sh with
  | (Ok wt, sh') => wt_lease wt = Some b /\ rdo_len (wro_read (wt_owner wt)) = b /\ wt_logical_len wt = logical /\ sh' = sh
  | (Err _, sh') => balanced sh' rest
  | (Panic, _) => False
  end.
Proof.
  intros Hb. pose proof (drop_balanced _ _ _ Hb). unfold ActiveWriter_new_leased, writer_from_owner.
  destruct (_ || _); [done|]. cbn [wt_owner wt_logical_len].
  destruct (try_from U64_MAX (rdo_len (wro_read owner))) as [n|] eqn:Hn; [|done].
  apply try_from_Some in Hn as [-> _]. unfold sbind, smap_err.
  destruct (LeaseReservation_complete b (rdo_len (wro_read owner)) sh) as [r sh'] eqn:Hc.
  pose proof (complete_balanced _ _ _ _ _ _ Hb Hc) as Hr. destruct r as [c|e|]; cbn [map_err]; [|done|done].
  destruct Hr as (-> & Hlen & _ & ->). cbn. auto.
Qed.

(** ** A whole batch *)

Definition committed_lengths (r : CommittedRegion) : Z * Z :=
  match r with
  | CommittedReader r => (rd_logical_len r, rdo_len (rd_owner r))
  | CommittedWriter w => (wt_logical_len w, rdo_len (wro_read (wt_owner w)))
  end.

(** The region activated for an item of the loop. *)
Definition activated (item : ActiveRegionSpec * ActiveRegionOwner * Z) (entry : Z * CommittedRegion) : Prop :=
  let '(spec, _, reservation) := item in
  fst entry = as_id spec /\ authority_of (snd entry) = as_authority spec /\
  committed_lengths (snd entry) = (as_logical_len spec, reservation) /\ committed_lease (snd entry) = Some reservation.

Lemma leases_activated items active : Forall2 activated items active -> leases active = map snd items.
Proof.
  induction 1 as [|[[spec owner] b] entry items active Hx Hl IH]; [done|].
  destruct Hx as (_ & _ & _ & Hx). unfold leases. cbn. rewrite Hx. f_equal. exact IH.
Qed.

Lemma leases_app l k : leases (l ++ k) = leases l ++ leases k.
Proof. unfold leases. apply omap_app. Qed.

Section Activation.
Context {T M : Type} {R : AuthenticatedZeroRightsTransport T} (p : Platform T M)
        (P : AcceptedSessionParameters) (a : Session) (held : list Z).
Implicit Types d : Dispatcher T.

(** [activate_region] around either kind of region. *)
Lemma wp_activate_region {A} (m : stm SharedResources ActivationError A) (good : A -> Prop) b others d Q :
  held_by P a (b :: others ++ held) d ->
  (forall sh rest, balanced sh (b :: rest) ->
     match m sh with (Ok x, sh') => good x /\ sh' = sh | (Err _, sh') => balanced sh' rest | (Panic, _) => False end) ->
  (forall x, good x -> Q (Ok x) d) ->
  (forall e d', d_transport d' = transport_poison (d_transport d) -> held_by P SessionDead held d' -> Q (Err e) d') ->
  wp (activate_region (M := M) others m) Q d.
Proof.
  intros Hd Hm Hok Herr. unfold wp, activate_region, on_resources.
  specialize (Hm (d_resources d) (others ++ held) (hb_ledger _ _ _ _ Hd)).
  destruct (m (d_resources d)) as [[x|e|] sh']; [| |done].
  - destruct Hm as [Hx ->]. replace (with_resources (d_resources d) d) with d by now destruct d. now apply Hok.
  - apply (wp_fail_releasing P a (ActivationFailed_Active e) others held); [|now intros; apply Herr].
    eapply hb_resources; [exact Hd|exact Hm].
Qed.

Lemma activate_loop_spec items : forall active d,
  held_by P a (map snd items ++ leases active ++ held) d ->
  wp (activate_loop p items active)
     (fun r d' => match r with
                  | Ok active' => d' = d /\ exists l, active' = active ++ l /\ Forall2 activated items l
                  | Err _ => d_transport d' = transport_poison (d_transport d) /\ held_by P SessionDead held d'
                  | Panic => False
                  end) d.
Proof.
  induction items as [|[[spec owner] b] items IH]; intros active d Hd; cbn [activate_loop].
  { wp_step. split; [done|]. exists []. now rewrite app_nil_r. }
  cbn [map snd app] in Hd. rewrite app_assoc in Hd.
  wp_step. { eapply wp_fail_releasing; [exact Hd|auto]. }
  assert (Hnext : forall region, activated (spec, owner, b) (as_id spec, region) ->
            wp (activate_loop p items (active ++ [(as_id spec, region)]))
              (fun r d' => match r with
                  | Ok active' => d' = d /\ exists l, active' = active ++ l /\ Forall2 activated ((spec, owner, b) :: items) l
                  | Err _ => d_transport d' = transport_poison (d_transport d) /\ held_by P SessionDead held d'
                  | Panic => False
                  end) d).
  { intros region Hr. eapply wp_mono; [apply IH|].
    - rewrite leases_app, <- app_assoc. destruct Hr as (_ & _ & _ & Hr). cbn in Hr. unfold leases at 2. cbn. rewrite Hr. cbn.
      rewrite app_assoc, <- Permutation_middle. exact Hd.
    - intros [active'|e|] d'; [|done|done]. intros (-> & l & -> & Hl). split; [done|].
      exists ((as_id spec, region) :: l). rewrite <- app_assoc. auto. }
  wp_step. destruct (as_authority spec) eqn:Ha, owner as [s o|s o]; cbn [bound].
  - wp_step. eapply (wp_activate_region _ (fun rd => rd_lease rd = Some b /\ rdo_len (rd_owner rd) = b /\
      rd_logical_len rd = as_logical_len spec)); [exact Hd| | |now intros e d' ? ?; cbn [bound]].
    + intros sh rest Hb. pose proof (reader_leased o (as_logical_len spec) b (as_guard_requested spec) sh rest Hb).
      repeat case_match; naive_solver.
    + intros rd (H1 & H2 & H3). wp_steps. apply Hnext. cbn. rewrite Ha, H1, H2, H3. done.
  - eapply wp_fail_releasing; [exact Hd|now intros d' ? ?; cbn [bound]].
  - eapply wp_fail_releasing; [exact Hd|now intros d' ? ?; cbn [bound]].
  - wp_step. eapply (wp_activate_region _ (fun wt => wt_lease wt = Some b /\ rdo_len (wro_read (wt_owner wt)) = b /\
      wt_logical_len wt = as_logical_len spec)); [exact Hd| | |now intros e d' ? ?; cbn [bound]].
    + intros sh rest Hb. pose proof (writer_leased o (as_logical_len spec) b (as_guard_requested spec) sh rest Hb).
      repeat case_match; naive_solver.
    + intros rd (H1 & H2 & H3). wp_steps. apply Hnext. cbn. rewrite Ha, H1, H2, H3. done.
Qed.

(** The regions a batch becomes. *)
Definition activates (specs : list ActiveRegionSpec) (owners : list ActiveRegionOwner) (reservations : list Z)
  (set : ActiveRegionSet) : Prop :=
  exists active, set = list_to_map active /\ NoDup (fst <$> active) /\ len specs <= 16 /\
    Forall2 activated (zip (zip specs owners) reservations) active /\
    fst <$> active = as_id <$> specs /\ leases active = reservations.

Lemma activate_regions_spec specs reservations owners d :
  held_by P a (reservations ++ held) d ->
  wp (activate_regions p specs reservations owners)
     (fun r d' => match r with
                  | Ok set => d' = d /\ activates specs owners reservations set
                  | Err _ => d_transport d' = transport_poison (d_transport d) /\ held_by P SessionDead held d'
                  | Panic => False
                  end) d.
Proof.
  intros Hd. unfold activate_regions. wp_step. { eapply wp_fail_releasing; [exact Hd|auto]. }
  wp_step. { eapply wp_fail_releasing; [exact Hd|auto]. } bsplit.
  assert (Hz : map snd (zip (zip specs owners) reservations) = reservations).
  { apply snd_zip. rewrite length_zip. unfold len in *. lia. }
  wp_step. eapply wp_mono; [apply activate_loop_spec; rewrite Hz; exact Hd|].
  intros [active|e|] d' H; cbn [bound]; [|done|done]. destruct H as (-> & l & -> & Hl). cbn [app].
  pose proof (leases_activated _ _ Hl) as Hle. rewrite Hz in Hle.
  destruct (from_local_committed _ l) as [set|e|] eqn:Hs.
  - wp_step. split; [done|]. apply from_local_committed_iff in Hs as (H1 & H2 & H3 & _ & ->).
    exists l. unfold len in *. rewrite length_map in H1. split_and!; try done.
    rewrite <- (fst_zip specs owners), <- (fst_zip (zip specs owners) reservations) by (rewrite ?length_zip; lia).
    clear -Hl. rewrite <- !list_fmap_compose. induction Hl as [|[[spec owner] b] e items l Hx Hl IH]; [done|].
    cbn. rewrite IH. now destruct Hx as [-> _].
  - rewrite Hle. eapply wp_fail_releasing; [exact Hd|auto].
  - wp_step. now apply from_local_committed_total in Hs.
Qed.

(** Activation is all or nothing. For every list of specifications, owners and
    reservations, and whatever else the ledger holds, activating a committed
    batch either yields one active region per specification, with that
    specification's identity, authority and logical length, mapped at exactly the
    length reserved for it, whose lease is that reservation, and then the session
    and its charges are untouched; or it fails, and then every charge of the
    batch is given back, the other charges remain, and the session is dead. *)
Theorem activation_all_or_nothing specs reservations owners d :
  held_by P a (reservations ++ held) d ->
  match activate_regions p specs reservations owners d with
  | (Ok set, d') => d' = d /\ activates specs owners reservations set
  | (Err _, d') => d_transport d' = transport_poison (d_transport d) /\ held_by P SessionDead held d'
  | (Panic, _) => False
  end.
Proof.
  intros Hd%(activate_regions_spec specs reservations owners). unfold wp in Hd.
  destruct (activate_regions p specs reservations owners d) as [[set|e|] d']; exact Hd.
Qed.

End Activation.
