(* ===== verification/CoordinatorTheory.v ===== *)
(** * CoordinatorTheory: a transfer, from the coordinator's side

    The native memory of a batch is any [NativeBatch] whose operations have no
    abnormal exit. On a traced transport every step of the capability
    transaction is a [triple]: it follows the script of the protocol and keeps
    the transaction open, or it stops in the script and leaves the session dead. *)

From stdpp Require Import gmap.
From S2P Require Import Prelude Tools Limits Manifest ManifestTheory Control Liveness Native Resources Region Active Batch Dispatcher DispatcherTheory Expected Transfer Platforms ActivationTheory.

(** ** Native memory *)

Class NativeBatchLaws {T B Cap M : Type} (NB : NativeBatch T B Cap M) := {
  nb_prepare_returns : forall batch profile deadline t, fst (nb_prepare batch profile deadline t) <> Panic;
  nb_revalidate_returns : forall b t, fst (nb_revalidate_before_send b t) <> Panic;
  nb_seal_returns : forall s, fst (nb_seal_after_import s) <> Panic;
  nb_specs_return : forall b t, fst (nb_activation_specs b t) <> Panic
}.

(** Native memory operations exchange no record. *)
Definition quietly {T E A} (m : stm T E A) : stm (Traced T) E A :=
  fun t => let '(r, t') := m (tr_inner t) in (r, {| tr_inner := t'; tr_log := tr_log t |}).

#[export] Instance TracedBatch {T B Cap M} `{NB : NativeBatch T B Cap M} : NativeBatch (Traced T) B Cap M := {
  nb_prepare := fun batch profile deadline => quietly (nb_prepare batch profile deadline);
  nb_deadline := nb_deadline;
  nb_manifest_entries := nb_manifest_entries;
  nb_reservation_lengths := nb_reservation_lengths;
  nb_capabilities := nb_capabilities;
  nb_requires_imported_sealed := nb_requires_imported_sealed;
  nb_revalidate_before_send := fun b => quietly (nb_revalidate_before_send b);
  nb_seal_after_import := fun '(b, t) =>
    let '(r, (b', t')) := nb_seal_after_import (b, tr_inner t) in (r, (b', {| tr_inner := t'; tr_log := tr_log t |}));
  nb_activation_specs := fun b => quietly (nb_activation_specs b);
  nb_into_active_region_owners := nb_into_active_region_owners
}.

#[export] Instance TracedRemote {T} `{RH : RemoteHandles T} : RemoteHandles (Traced T) :=
  fun t => {| tr_inner := complete_remote_capability_transaction (tr_inner t); tr_log := tr_log t |}.

Definition log_of {T} (d : Dispatcher (Traced T)) : list Event := tr_log (d_transport d).

(** ** The phase frames of one manifest *)

Section Phases.
Context (m : TransferManifest) (Hw : manifest_widths m).

Definition frame_of : CapabilityFrame :=
  {| cf_bytes := frame_bytes m CAPABILITY_MAGIC; cf_capability_count := len (tm_entries m) |}.

Lemma capacity_phase {E} status :
  infallible (E := E) (coordinator_capacity_frame frame_of status) = Ok (frame_bytes m (coordinator_capacity_magic status)).
Proof. unfold coordinator_capacity_frame, frame_of. rewrite phase_frame_ok; [done|done|now destruct status]. Qed.

Lemma answer_phase {E} (ready : bool) :
  infallible (E := E) (receiver_capacity_frame frame_of ready)
  = Ok (frame_bytes m (if ready then RECEIVER_CAPACITY_READY_MAGIC else RECEIVER_CAPACITY_REJECT_MAGIC)).
Proof. unfold receiver_capacity_frame, frame_of. rewrite phase_frame_ok; [done|done|now destruct ready]. Qed.

Lemma preparation_phase {E} kind :
  infallible (E := E) (preparation_frame frame_of kind)
  = Ok (frame_bytes m (match kind with Imported => IMPORTED_MAGIC | Sealed => SEALED_MAGIC end)).
Proof. unfold preparation_frame, frame_of. rewrite phase_frame_ok; [done|done|now destruct kind]. Qed.

Lemma completion_phase {E} kind :
  infallible (E := E) (completion_frame frame_of kind)
  = Ok (frame_bytes m (match kind with Ready => READY_MAGIC | Commit => COMMIT_MAGIC end)).
Proof. unfold completion_frame, frame_of. rewrite phase_frame_ok; [done|done|now destruct kind]. Qed.

(** What a coordinator exchanges, in order. *)
Definition capacity_script (status : CoordinatorCapacityStatus) (ready : bool) : list Event :=
  [Sent (frame_bytes m (coordinator_capacity_magic status));
   Received (frame_bytes m (if ready then RECEIVER_CAPACITY_READY_MAGIC else RECEIVER_CAPACITY_REJECT_MAGIC))].
Definition preparation_script (announces requires : bool) : list Event :=
  (if announces then [Sent (frame_bytes m CAPABILITY_MAGIC)] else []) ++
  [SentCapabilities (frame_bytes m CAPABILITY_MAGIC)] ++
  (if requires then [Received (frame_bytes m IMPORTED_MAGIC); Sent (frame_bytes m SEALED_MAGIC)] else []).
Definition completion_script : list Event :=
  [Received (frame_bytes m READY_MAGIC); Sent (frame_bytes m COMMIT_MAGIC)].
Definition coordinator_script (announces requires : bool) : list Event :=
  preparation_script announces requires ++ completion_script.

End Phases.

Section Coordinator.
Context {T B Cap M : Type} {R : AuthenticatedZeroRightsTransport T} {C : Clock T}
        {CC : CoordinatorCapabilityTransport T Cap} {NB : NativeBatch T B Cap M} {NL : NativeBatchLaws NB}
        {RH : RemoteHandles T}.
Implicit Types d : Dispatcher (Traced T).

Lemma wp_quietly {E A} (n : stm T E A) d (Q : res E A -> Dispatcher (Traced T) -> Prop) :
  (forall t, fst (n t) <> Panic) ->
  (forall r t, r <> Panic -> tr_log t = log_of d -> Q r (with_transport t d)) ->
  wp (on_native (quietly n)) Q d.
Proof.
  intros Hn H. unfold wp, on_native, quietly. specialize (Hn (tr_inner (d_transport d))).
  destruct (n (tr_inner (d_transport d))) as [r t]. now apply H.
Qed.

Lemma busy_flags d s r t :
  abstract d = SessionBusy s r t -> cs_poisoned (d_state d) = false /\ cs_transaction_open (d_state d) = true.
Proof. unfold abstract. destruct (cs_poisoned _), (cs_transaction_open _); done. Qed.

(** The end of a transaction. *)
Lemma end_transaction_open P s r t charges d :
  held_by P (SessionBusy s r t) charges d ->
  exists d', on_control end_transaction d = (Ok tt, d') /\ d_transport d' = d_transport d /\
    held_by P (SessionOpen s r t) charges d'.
Proof.
  intros []. destruct (busy_flags _ _ _ _ hb_mode) as [Hp Ho]. rewrite on_control_run, end_run, Hp, Ho.
  eexists. split; [reflexivity|]. split; [done|]. constructor; try done.
  - apply ok_control; destruct hb_ok; done.
  - revert hb_mode. unfold abstract. cbn. rewrite Hp, Ho. intros [= -> -> ->]. done.
Qed.

(** ** The open transaction *)

Section Transaction.
Context (P : AcceptedSessionParameters) (s0 r0 t0 : Z) (charges : list Z) (m : TransferManifest) (deadline : Z)
        (Hm : manifest_widths m).
Abbreviation CT := (CoordinatorTransaction (Traced T)).

Definition ct_log (t : CT) : list Event := log_of (ct_dispatcher t).
Definition ct_alive (t : CT) : Prop :=
  held_by P (SessionBusy s0 r0 t0) charges (ct_dispatcher t) /\ ct_frame t = frame_of m /\
  ct_deadline t = deadline /\ ct_already_poisoned t = false.
Definition ct_dead (t : CT) : Prop := held_by P SessionDead charges (ct_dispatcher t).
(** Before [or_poison] an error may leave any mode. *)
Definition ct_failed (t : CT) : Prop :=
  exists a, held_by P a charges (ct_dispatcher t) /\ ct_already_poisoned t = false.

Lemma poison_dead (t : CT) : ct_failed t -> ct_dead (CoordinatorTransaction_poison t) /\
  ct_log (CoordinatorTransaction_poison t) = ct_log t.
Proof.
  intros (a & H & Ha). unfold CoordinatorTransaction_poison. rewrite Ha. split; [|done]. eapply hb_poison, H.
Qed.

Lemma triple_or_poison {A} (pre : CT -> Prop) script (n : stm CT AcceptedControlError A) Q :
  triple ct_log ct_alive ct_failed pre script n Q ->
  triple ct_log ct_alive ct_dead pre script (or_poison n) Q.
Proof.
  intros H t Ha Hp. specialize (H t Ha Hp). unfold wp, or_poison in *. destruct (n t) as [[x|e|] t']; [exact H| |exact H].
  destruct H as (es & Hl & Hf & Hs). destruct (poison_dead t' Hf) as [H1 H2]. exists es. now rewrite H2.
Qed.

(** [attempted] is the only field the steps' guards look at. *)
Definition attempted (b : bool) (t : CT) : Prop := ct_attempted t = b.

Lemma ct_alive_transport t0' (t : CT) :
  ct_alive t -> ct_alive (with_dispatcher (with_transport t0' (ct_dispatcher t)) t).
Proof. intros (H & ? & ? & ?). split_and!; try done. now apply hb_transport. Qed.

Lemma ct_failed_transport t0' (t : CT) :
  ct_alive t -> ct_failed (with_dispatcher (with_transport t0' (ct_dispatcher t)) t).
Proof. intros (H & ? & ? & ?). eexists. split; [apply hb_transport, H|done]. Qed.

Lemma triple_send_bytes b w :
  triple ct_log ct_alive ct_dead (attempted b) [Sent w] (send_preparation_bytes w) (fun _ => attempted b).
Proof.
  apply triple_or_poison. intros t Ha Hb. wp_steps. unfold wp, on_dispatcher.
  pose proof (wp_transport_send w (ct_deadline t) (ct_dispatcher t)
    (fun r d => follows ct_log ct_alive ct_failed [Sent w] t (fun _ => attempted b) r (with_dispatcher d t))) as H.
  unfold wp in H. destruct (transport_send _ _ _) as [r d]. apply H.
  - intros t' Ht'. exists [Sent w]. split; [done|]. split; [now apply ct_alive_transport|done].
  - intros e t' Ht'. exists []. split; [unfold ct_log, log_of; cbn; now rewrite app_nil_r|].
    split; [now apply ct_failed_transport|apply stopped_nil].
Qed.

Lemma receive_match b w (n : stm CT AcceptedControlError unit) :
  n = or_poison (
    let! self := sget in
    let! bytes := on_dispatcher (transport_receive (len w) (ct_deadline self)) in
    if negb (frame_matches w bytes)
    then serr (AcceptedError_Control ControlError_NonCanonical) else
    sret tt) ->
  triple ct_log ct_alive ct_dead (attempted b) [Received w] n (fun _ => attempted b).
Proof.
  intros ->. apply triple_or_poison. intros t Ha Hb. wp_steps. unfold wp at 1, on_dispatcher.
  pose proof (wp_transport_receive (len w) (ct_deadline t) (ct_dispatcher t)
    (fun r d => bound (fun bytes => if negb (frame_matches w bytes)
        then serr (AcceptedError_Control ControlError_NonCanonical) else sret tt)
      (follows ct_log ct_alive ct_failed [Received w] t (fun _ => attempted b)) r (with_dispatcher d t))) as H.
  unfold wp in H at 1. destruct (transport_receive _ _ _) as [r d]. apply H; clear H r d.
  - intros w' t' Ht'. cbn [bound]. unfold frame_matches. wp_steps; bsplit.
    + exists [Received w']. split; [done|]. split; [now apply ct_failed_transport|apply stopped_received].
    + subst w'. exists [Received w]. split; [done|]. split; [now apply ct_alive_transport|done].
  - intros e t' Ht'. exists []. split; [unfold ct_log, log_of; cbn; now rewrite app_nil_r|].
    split; [now apply ct_failed_transport|apply stopped_nil].
Qed.

Lemma triple_send_capabilities (caps : Cap) :
  triple ct_log ct_alive ct_dead (attempted false) [SentCapabilities (frame_bytes m CAPABILITY_MAGIC)]
    (CoordinatorTransaction_send caps) (fun _ => attempted true).
Proof.
  apply triple_or_poison. intros t Ha Hb. unfold attempted in Hb. wp_steps; [congruence|].
  pose proof Ha as (_ & Hf & _). rewrite Hf.
  unfold wp, on_dispatcher, smap_err, on_io. cbn [set_attempted ct_dispatcher].
  unfold send_capability_record, TracedCapabilities, send_capability_record, traced.
  destruct (CC _ _ _ _) as [[[]|e] t']; cbn [map_err].
  - exists [SentCapabilities (frame_bytes m CAPABILITY_MAGIC)]. split; [reflexivity|]. split; [|split; reflexivity].
    destruct Ha as (H & ? & ? & ?). split_and!; try done. now apply hb_transport.
  - exists []. split; [unfold ct_log, log_of; cbn; now rewrite app_nil_r|]. split; [|apply stopped_nil].
    destruct Ha as (H & ? & ? & ?). eexists. split; [apply hb_transport, H|done].
Qed.

(** ** The mixed-direction transaction *)

Section Mixed.
Context (p : Platform (Traced T) M) (rs : list Z).
Abbreviation CMX := (CoordinatorMixed (Traced T) B).

Definition cm_log (s : CMX) : list Event := ct_log (cm_transaction s).
Definition cm_alive (s : CMX) : Prop := ct_alive (cm_transaction s) /\ cm_reservations s = rs.
Definition cm_dead (s : CMX) : Prop := ct_dead (cm_transaction s) /\ cm_reservations s = rs.
Definition flags (a b : bool) (s : CMX) : Prop := attempted a (cm_transaction s) /\ cm_attempted s = b.

Lemma triple_on_transaction a a' b x script n :
  triple ct_log ct_alive ct_dead (attempted a) script n (fun _ : unit => attempted a') ->
  triple cm_log cm_alive cm_dead (fun s => flags a b s /\ cm_batch s = x) script (on_transaction (M := M) n)
    (fun _ s => flags a' b s /\ cm_batch s = x).
Proof.
  intros H s [Ha Hr] [[Hf Hb] Hx]. specialize (H _ Ha Hf). unfold wp, on_transaction in *.
  destruct (n (cm_transaction s)) as [[u|e|] t]; destruct H as (es & Hl & H); exists es; (split; [exact Hl|]); [| |done].
  - destruct H as (H1 & H2 & ->). split; [done|]. split; [|done]. split; [|done]. split; done.
  - destruct H as (H1 & H2). done.
Qed.

(** Memory operations: the batch may change, nothing is exchanged. *)
Lemma on_batch_spec (n : stm (B * Traced T) M unit) (keeps : B -> B -> Prop) a b x :
  (forall y t, match n (y, t) with (r, (y', t')) => r <> Panic /\ tr_log t' = tr_log t /\ keeps y y' end) ->
  triple cm_log cm_alive cm_dead (fun s => flags a b s /\ cm_batch s = x) [] (on_batch n)
    (fun _ s => flags a b s /\ keeps x (cm_batch s)).
Proof.
  intros Hn s [Ha Hr] [[Hf Hb] Hx]. unfold wp, on_batch. rewrite Hx.
  specialize (Hn x (d_transport (ct_dispatcher (cm_transaction s)))).
  destruct (n (x, d_transport (ct_dispatcher (cm_transaction s)))) as [r [y t]]. destruct Hn as (Hp & Hl & Hk).
  assert (Hlog : forall s', cm_log s' = tr_log t -> cm_log s' = cm_log s ++ []).
  { intros s' ->. rewrite app_nil_r. exact Hl. }
  destruct r as [u|e|]; [| |done].
  - exists []. split; [now apply Hlog|]. split; [split; [now apply ct_alive_transport|done]|done].
  - destruct (poison_dead (with_dispatcher (with_transport t (ct_dispatcher (cm_transaction s))) (cm_transaction s)))
      as [Hd Hdl]; [now apply ct_failed_transport|].
    exists []. split; [apply Hlog, Hdl|]. split; [done|apply stopped_nil].
Qed.

Lemma revalidate_keeps (y : B) (t : Traced T) :
  match revalidate (Cap := Cap) (M := M) (y, t) with (r, (y', t')) => r <> Panic /\ tr_log t' = tr_log t /\ y' = y end.
Proof.
  unfold revalidate. cbn [nb_revalidate_before_send TracedBatch]. unfold quietly.
  pose proof (nb_revalidate_returns y (tr_inner t)) as H. destruct (nb_revalidate_before_send y (tr_inner t)) as [r t'].
  done.
Qed.

Lemma seal_quiet (y : B) (t : Traced T) :
  match nb_seal_after_import (Cap := Cap) (M := M) (y, t) with (r, (y', t')) => r <> Panic /\ tr_log t' = tr_log t /\ True end.
Proof.
  cbn [nb_seal_after_import TracedBatch]. pose proof (nb_seal_returns (y, tr_inner t)) as H.
  destruct (nb_seal_after_import (y, tr_inner t)) as [r [y' t']]. done.
Qed.

Lemma triple_phase_frame {E} (f : CapabilityFrame -> res unit bytes) w (pre : CMX -> Prop) :
  infallible (E := E) (f (frame_of m)) = Ok w ->
  triple cm_log cm_alive cm_dead pre [] (phase_frame (E := E) f) (fun x s => x = w /\ pre s).
Proof.
  intros Hf s [Ha Hr] Hp. unfold wp, phase_frame. pose proof Ha as (_ & -> & _). rewrite Hf. exists [].
  rewrite app_nil_r. done.
Qed.

(** A guard that the precondition discharges. *)
Lemma triple_guard {A} (pre : CMX -> Prop) script (b : CMX -> bool) (k1 k2 : stm CMX (CapabilityBatchError M) A) Q :
  (forall s, pre s -> b s = false) -> triple cm_log cm_alive cm_dead pre script k2 Q ->
  triple cm_log cm_alive cm_dead pre script (let! s := sget in if b s then k1 else k2) Q.
Proof. intros Hb H s Ha Hp. wp_steps; [rewrite Hb in E by done; discriminate|]. now apply H. Qed.

Definition needs_seal (x : B) : bool := pl_always_seals p || nb_requires_imported_sealed (Cap := Cap) (M := M) x.

Lemma barrier_triple x :
  triple cm_log cm_alive cm_dead (fun s => flags true true s /\ cm_batch s = x)
    (if needs_seal x then [Received (frame_bytes m IMPORTED_MAGIC); Sent (frame_bytes m SEALED_MAGIC)] else [])
    (if needs_seal x then
       let! imported := phase_frame (fun frame => preparation_frame frame Imported) in
       on_transaction (M := M) (receive_preparation imported) >>!
       on_batch (if pl_always_seals p then revalidate else nb_seal_after_import) >>!
       let! sealed := phase_frame (fun frame => preparation_frame frame Sealed) in
       on_transaction (send_preparation sealed)
     else sret tt) (fun _ => flags true true).
Proof.
  destruct (needs_seal x).
  2:{ eapply triple_conseq; [apply triple_ret|exact (fun _ H => H)|]. cbn. tauto. }
  apply (triple_bind _ _ _ _ [] [_; _] _ _ _ _ (triple_phase_frame _ _ _ (preparation_phase m Hm Imported))).
  intros imported s Ha [-> Hs]. revert s Ha Hs.
  apply (triple_bind _ _ _ _ [_] [_] _ _ _ _ (triple_on_transaction _ _ _ _ _ _ (receive_match _ _ _ eq_refl))).
  intros _. apply (triple_bind _ _ _ _ [] [_] _ _ (fun _ s => flags true true s /\ True)).
  { destruct (pl_always_seals p).
    - eapply triple_conseq; [apply (on_batch_spec _ (fun _ _ => True))|exact (fun _ H => H)|done].
      intros y t. pose proof (revalidate_keeps y t). now destruct (revalidate (y, t)) as [r [y' t']].
    - exact (on_batch_spec _ (fun _ _ => True) _ _ _ seal_quiet). }
  intros _ s Ha [Hf _]. revert s Ha Hf.
  apply (triple_bind _ _ _ _ [] [_] _ _ _ _ (triple_phase_frame _ _ _ (preparation_phase m Hm Sealed))).
  intros sealed s Ha [-> Hf].
  refine (triple_conseq _ _ _ _ _ _ _ _ _ (triple_on_transaction _ _ _ (cm_batch s) _ _ (triple_send_bytes _ _))
            (fun _ H => H) _ s Ha (conj Hf eq_refl)).
  now intros ? ? [? _].
Qed.

Lemma prepare_triple x :
  triple cm_log cm_alive cm_dead (fun s => flags false false s /\ cm_batch s = x)
    (preparation_script m (pl_announces p) (needs_seal x)) (coordinator_prepare p) (fun _ => flags true true).
Proof.
  unfold coordinator_prepare. apply triple_guard; [now intros s [[_ Hf] _]|].
  apply (triple_bind _ _ _ _ [] _ _ _ (fun _ s => flags false true s /\ cm_batch s = x)).
  { intros s [Ha Hr] [[Hf Hb] Hx]. wp_step. exists []. rewrite app_nil_r. done. }
  intros _. apply (triple_bind _ _ _ _ [] _ _ _ (fun _ s => flags false true s /\ cm_batch s = x)).
  { eapply triple_conseq; [apply (on_batch_spec _ (fun y y' => y' = y)); apply revalidate_keeps|exact (fun _ H => H)|done]. }
  intros _. apply triple_read. intros s0' [Ha0 _] [Hf0 Hx0]. rewrite Hx0. fold (needs_seal x).
  pose proof Ha0 as (_ & Hfr & _). rewrite Hfr. unfold preparation_script.
  eapply triple_conseq with (P := fun s => flags false true s /\ cm_batch s = x);
    [|intros s ->; done|exact (fun _ _ H => H)].
  apply (triple_bind _ _ _ _ _ _ _ _ (fun _ s => flags false true s /\ cm_batch s = x)).
  { destruct (pl_announces p); [apply triple_on_transaction, triple_send_bytes|].
    eapply triple_conseq; [apply triple_ret|exact (fun _ H => H)|]. cbn. tauto. }
  intros _. apply (triple_bind _ _ _ _ _ _ _ _ (fun _ s => flags true true s /\ cm_batch s = x)).
  { apply triple_on_transaction, triple_send_capabilities. }
  intros _. apply barrier_triple.
Qed.

Lemma completion_triple x :
  triple cm_log cm_alive cm_dead (fun s => flags true true s /\ cm_batch s = x) (completion_script m)
    (let! ready := phase_frame (fun frame => completion_frame frame Ready) in
     on_transaction (M := M) (receive_completion ready) >>!
     let! commit := phase_frame (fun frame => completion_frame frame Commit) in
     on_transaction (send_completion commit)) (fun _ s => flags true true s /\ cm_batch s = x).
Proof.
  apply (triple_bind _ _ _ _ [] [_; _] _ _ _ _ (triple_phase_frame _ _ _ (completion_phase m Hm Ready))).
  intros ready s Ha [-> Hs]. revert s Ha Hs.
  apply (triple_bind _ _ _ _ [_] [_] _ _ _ _ (triple_on_transaction _ _ _ _ _ _ (receive_match _ _ _ eq_refl))).
  intros _. apply (triple_bind _ _ _ _ [] [_] _ _ _ _ (triple_phase_frame _ _ _ (completion_phase m Hm Commit))).
  intros commit s Ha [-> Hs]. revert s Ha Hs. apply triple_on_transaction, triple_send_bytes.
Qed.

(** [finish] and the end of [commit]. *)
Lemma finish_spec (s : CMX) :
  cm_alive s -> flags true true s ->
  exists s', on_transaction (M := M) finish s = (Ok tt, s') /\ cm_log s' = cm_log s /\
    held_by P (SessionOpen s0 r0 t0) charges (ct_dispatcher (cm_transaction s')) /\
    ct_already_poisoned (cm_transaction s') = true /\ cm_reservations s' = rs /\ cm_batch s' = cm_batch s.
Proof.
  intros [(Hh & _ & _ & Hp) Hr] [Hat _]. unfold on_transaction, finish, or_poison, sbind, sget. rewrite Hat. cbn [negb].
  destruct (end_transaction_open _ _ _ _ _ _ Hh) as (d' & He & Ht & Hh').
  unfold on_dispatcher, smap_err. rewrite He. cbn [map_err smodify].
  eexists. split; [reflexivity|]. unfold cm_log, ct_log, log_of. cbn. rewrite Ht. done.
Qed.

Lemma commit_spec (s : CMX) x :
  cm_alive s -> flags true true s -> cm_batch s = x ->
  match coordinator_commit p s with
  | (Ok committed, d') => log_of d' = cm_log s ++ completion_script m /\
      held_by P (SessionOpen s0 r0 t0) charges d' /\ cmb_reservations committed = rs /\ cmb_batch committed = x
  | (Err _, d') => exists es, log_of d' = cm_log s ++ es /\ stopped (completion_script m) es /\
      exists s' : CMX, ct_dead (cm_transaction s') /\ d' = coordinator_drop s' /\ cm_reservations s' = rs
  | (Panic, _) => False
  end.
Proof.
  intros Ha Hf Hx. pose proof (completion_triple x s Ha (conj Hf Hx)) as H. unfold coordinator_commit.
  assert (Hc : commit_steps s = (sbind (let! ready := phase_frame (fun frame => completion_frame frame Ready) in
     on_transaction (M := M) (receive_completion ready) >>!
     let! commit := phase_frame (fun frame => completion_frame frame Commit) in
     on_transaction (send_completion commit)) (fun _ => on_transaction finish)) s).
  { unfold commit_steps, sbind at 1 2, sget. destruct Hf as [_ Hf]. rewrite Hf. cbn [negb]. unfold sbind.
    destruct (phase_frame _ _) as [[?|?|] ?]; [|done|done].
    destruct (on_transaction _ _) as [[?|?|] ?]; [|done|done].
    destruct (phase_frame _ _) as [[?|?|] ?]; [|done|done].
    destruct (on_transaction _ _) as [[?|?|] ?]; done. }
  rewrite Hc. clear Hc. unfold wp in H.
  match goal with |- context [sbind ?n _ s] => unfold sbind at 1; destruct (n s) as [[u|e|] s'] end.
  - destruct H as (es & Hl & (Ha' & (Hf' & Hx') & ->)). destruct (finish_spec s' Ha' Hf') as (s2 & -> & Hl2 & Hh & Hp & Hr & Hb).
    unfold CoordinatorTransaction_drop, CoordinatorTransaction_poison. rewrite Hp.
    split_and!; [| |done|cbn; congruence].
    + transitivity (cm_log s2); [now destruct (pl_announces p)|congruence].
    + destruct (pl_announces p); [now apply hb_transport|done].
  - destruct H as (es & Hl & (Hd & Hr) & Hs). exists es. split_and!; [|done|eauto]. rewrite <- Hl.
    unfold coordinator_drop, log_of, CoordinatorTransaction_drop, CoordinatorTransaction_poison.
    now destruct (ct_already_poisoned _).
  - destruct H as (es & _ & []).
Qed.

End Mixed.
End Transaction.

(** ** A transfer once both sides have capacity *)

Lemma matches_entries_returns d frame entries : frame_matches_entries d frame entries <> Panic.
Proof.
  unfold frame_matches_entries, CapabilityFrame_decode. destruct (decode_cases CAPABILITY_MAGIC (cf_bytes frame) eq_refl) as [Hp Hd].
  destruct (TransferManifest_decode _ _) as [m|[]|]; cbn [rbind]; [|done|done].
  destruct (Hd m eq_refl) as (_ & Hw & _). rewrite capability_frame_ok by done. cbn [rbind].
  pose proof (new_no_panic (sf_nonce (ap_facts (d_parameters d))) (sf_parent_pid (ap_facts (d_parameters d)))
    (sf_child_pid (ap_facts (d_parameters d))) (tm_transfer_id m) (ap_authority_profile (d_parameters d)) entries).
  now destruct (new_with_authority _ _ _ _ _ _).
Qed.

Section Transfer.
Context (p : Platform (Traced T) M) (P : AcceptedSessionParameters) (s0 r0 : Z) (held : list Z)
        (Hpage : pl_activation_page p <> Panic).

Lemma drop_dead rs (s : CoordinatorMixed (Traced T) B) :
  ct_dead P (rs ++ held) (cm_transaction s) -> cm_reservations s = rs ->
  held_by P SessionDead held (coordinator_drop s) /\ log_of (coordinator_drop s) = ct_log (cm_transaction s).
Proof.
  intros Hd Hr. unfold coordinator_drop, CoordinatorTransaction_drop, CoordinatorTransaction_poison. rewrite Hr.
  destruct (ct_already_poisoned _); (split; [|done]); apply hb_release; [exact Hd|eapply hb_poison, Hd].
Qed.

(** What activation does to the session. *)
Definition activated_or_dead a rs d (r : res (RegionActivationError M) ActiveRegionSet) d' : Prop :=
  log_of d' = log_of d /\
  match r with
  | Ok set => held_by P a (rs ++ held) d' /\ exists specs owners, activates specs owners rs set
  | Err _ => held_by P SessionDead held d'
  | Panic => False
  end.

Lemma wp_activation_refused a rs e d :
  held_by P a (rs ++ held) d -> wp (fail_releasing e rs) (activated_or_dead a rs d) d.
Proof.
  intros Hd. eapply wp_fail_releasing; [exact Hd|]. intros d' Ht Hh. split; [|done]. unfold log_of. now rewrite Ht.
Qed.

(** Either role: the page size is asked again, then the specifications. *)
Lemma page_activation_spec a rs (n : stm T M (list ActiveRegionSpec)) owners d :
  held_by P a (rs ++ held) d -> (forall t, fst (n t) <> Panic) ->
  wp (match pl_activation_page p with
      | Err error => fail_releasing (ActivationFailed_Memory error) rs
      | Panic => slift Panic
      | Ok _ => fun self =>
          match on_native (quietly n) self with
          | (Ok specs, self) => activate_regions p specs rs owners self
          | (Err error, self) => fail_releasing (ActivationFailed_Memory error) rs self
          | (Panic, self) => (Panic, self)
          end
      end) (activated_or_dead a rs d) d.
Proof.
  intros Hd Hn. destruct (pl_activation_page p) as [u|e|]; [|now apply wp_activation_refused|done].
  apply wp_match, wp_quietly; [exact Hn|]. intros [specs|e|] t Hp Ht; [| |done].
  - eapply wp_mono; [eapply activate_regions_spec, hb_transport, Hd|].
    intros [set|e|] d'; cbn beta iota; [| |tauto].
    + intros [-> Ha]. split; [exact Ht|]. split; [now apply hb_transport|eauto].
    + intros [Hd' Hh]. split; [|done]. unfold log_of. now rewrite Hd'.
  - eapply wp_mono; [apply wp_activation_refused, hb_transport, Hd|].
    intros r' d' [Hl H]. split; [|exact H]. rewrite Hl. exact Ht.
Qed.

Lemma activate_coordinator_spec a rs committed d :
  held_by P a (rs ++ held) d -> cmb_reservations committed = rs ->
  wp (activate_coordinator (Cap := Cap) p committed) (activated_or_dead a rs d) d.
Proof.
  intros Hd Hr. unfold activate_coordinator. rewrite Hr. wp_steps; [now apply wp_activation_refused|].
  apply page_activation_spec; [exact Hd|apply nb_specs_return].
Qed.

(** What a transfer leaves behind, relative to a script. *)
Definition settles (a : Session) (rs : list Z) (script : list Event) d
  (r : res ReadyFailure ActiveRegionSet) d' : Prop :=
  exists es, log_of d' = log_of d ++ es /\
    match r with
    | Ok set => es = script /\ held_by P a (rs ++ held) d' /\ exists specs owners, activates specs owners rs set
    | Err f => rf_transaction_open_on_failure f = true /\ held_by P SessionDead held d' /\ stopped script es
    | Panic => False
    end.

Lemma transfer_prepared_spec t0 m rs prepared deadline d :
  manifest_widths m -> held_by P (SessionBusy s0 r0 t0) (rs ++ held) d ->
  wp (transfer_prepared (Cap := Cap) p prepared rs (frame_of m) deadline)
     (settles (SessionOpen s0 r0 t0) rs (coordinator_script m (pl_announces p) (needs_seal p prepared)) d) d.
Proof.
  intros Hm Hd. unfold wp, transfer_prepared, begin_preflighted.
  assert (Hrefuse : forall error, settles (SessionOpen s0 r0 t0) rs
            (coordinator_script m (pl_announces p) (needs_seal p prepared)) d (Err (after_transaction error))
            (with_resources (drop_leases rs (d_resources (poison_both d))) (poison_both d))).
  { intros error. exists []. split; [now rewrite app_nil_r|]. split; [done|].
    split; [eapply hb_release, hb_poison, Hd|apply stopped_nil]. }
  destruct (_ || _); [apply Hrefuse|].
  pose proof (matches_entries_returns d (frame_of m) (nb_manifest_entries prepared)) as Hme.
  destruct (frame_matches_entries _ _ _) as [[]|[]|] eqn:Efm; [|apply Hrefuse| |done].
  2:{ exfalso. clear -Efm. unfold frame_matches_entries in Efm. repeat case_match; discriminate. }
  set (s := {| cm_transaction := _ |}).
  assert (Ha : cm_alive P s0 r0 t0 (rs ++ held) m deadline rs s) by done.
  pose proof (prepare_triple P s0 r0 t0 (rs ++ held) m deadline Hm p rs prepared s Ha ltac:(done)) as H.
  unfold wp in H. destruct (coordinator_prepare p s) as [[[]|e|] s1]; [| |destruct H as (? & _ & [])].
  - destruct H as (es & Hl & Ha1 & Hf & ->).
    pose proof (commit_spec P s0 r0 t0 (rs ++ held) m deadline Hm p rs s1 _ Ha1 Hf eq_refl) as Hc.
    destruct (coordinator_commit p s1) as [[committed|e|] d1]; [| |done].
    + destruct Hc as (Hl1 & Hh & Hr & _).
      pose proof (activate_coordinator_spec (SessionOpen s0 r0 t0) rs committed d1 Hh Hr) as Hac.
      unfold wp, smap_err in *. destruct (activate_coordinator p committed d1) as [[set|e|] d2]; cbn [map_err];
        destruct Hac as [Hlog Hac]; [| |done]; (eexists; split; [rewrite Hlog, Hl1, Hl, <- app_assoc; reflexivity|]).
      * done.
      * split; [done|]. split; [done|]. apply stopped_self.
    + destruct Hc as (es & Hl1 & Hs & s2 & Hd2 & -> & Hr). destruct (drop_dead rs s2 Hd2 Hr) as [Hh _].
      eexists. split; [rewrite Hl1, Hl, <- app_assoc; reflexivity|]. split; [done|]. split; [done|].
      now apply stopped_app_r.
  - destruct H as (es & Hl & [Hdd Hr] & Hs). destruct (drop_dead rs s1 Hdd Hr) as [Hh Hlog].
    exists es. split; [rewrite Hlog; exact Hl|]. split; [done|]. split; [done|]. now apply stopped_app_l.
Qed.

(** The capacity exchange. *)
Lemma exchange_spec t0 m charges status deadline d :
  manifest_widths m -> held_by P (SessionBusy s0 r0 t0) charges d ->
  wp (exchange_transfer_capacity (M := M) (frame_of m) status deadline)
     (fun r d' => exists es, log_of d' = log_of d ++ es /\
        match r with
        | Ok ready => es = capacity_script m status ready /\ (ready = true -> status = CapacityReady) /\
            held_by P (if ready then SessionBusy s0 r0 t0 else SessionOpen s0 r0 t0) charges d'
        | Err _ => held_by P SessionDead charges d' /\ stopped [Sent (frame_bytes m (coordinator_capacity_magic status))] es
        | Panic => False
        end) d.
Proof.
  intros Hm Hd. unfold exchange_transfer_capacity. set (offer := frame_bytes m (coordinator_capacity_magic status)).
  assert (Hdead : forall es d', held_by P SessionDead charges d' -> log_of d' = log_of d ++ es -> stopped [Sent offer] es ->
    exists es, log_of d' = log_of d ++ es /\ held_by P SessionDead charges d' /\ stopped [Sent offer] es) by eauto.
  wp_step. wp_step. rewrite capacity_phase by done. cbn [bound]. fold offer. wp_steps. apply wp_or_poison_both.
  apply wp_transport_send; cbn [map_err bound].
  2:{ intros e t Ht. eapply (Hdead []); [eapply hb_poison, hb_transport, Hd|cbn; now rewrite app_nil_r|apply stopped_nil]. }
  intros t Ht. wp_steps. apply wp_or_poison_both. apply wp_transport_receive; cbn [map_err bound].
  2:{ intros e t' Ht'. cbn in Ht'. eapply (Hdead [Sent offer]);
        [eapply hb_poison, hb_transport, hb_transport, Hd|unfold log_of; cbn; congruence|apply stopped_self]. }
  intros w t' Ht'. cbn in Ht'. rewrite Ht, <- app_assoc in Ht'. cbn [app] in Ht'.
  assert (Hbusy : held_by P (SessionBusy s0 r0 t0) charges (with_transport t' (with_transport t d)))
    by apply hb_transport, hb_transport, Hd.
  assert (Hbad : exists es, log_of (poison_both (with_transport t' (with_transport t d))) = log_of d ++ es /\
            held_by P SessionDead charges (poison_both (with_transport t' (with_transport t d))) /\ stopped [Sent offer] es).
  { exists [Sent offer; Received w]. split; [exact Ht'|]. split; [eapply hb_poison, Hbusy|].
    exists [Sent offer], []. split; [done|]. right. now exists w. }
  do 2 (wp_steps; rewrite answer_phase by done; cbn [bound]; cbn beta).
  destruct (end_transaction_open _ _ _ _ _ _ Hbusy) as (d2 & He & Ht2 & Hh2).
  do 2 wp_step. cbn [bound]. apply wp_bind. unfold frame_matches. wp_step; [|wp_step]; bsplit; try subst w; wp_steps; cbn [bound].
  all: try (unfold fail_both; wp_steps; exact Hbad).
  all: try (unfold wp at 1; rewrite He; cbn [map_err bound]; wp_steps).
  all: destruct status; try discriminate; eexists; (split; [unfold log_of; rewrite ?Ht2; exact Ht'|]); done.
Qed.

(** ** Opening *)

Definition ledger_kept {A} d (r : res AcceptedControlError A) d' : Prop :=
  d_resources d' = d_resources d \/
  d_resources d' = ResourceOwner_poison (d_resources d) /\ exists e, r = Err e.

Lemma enter_ledger deadline d : wp (enter_native_transaction deadline) (ledger_kept d) d.
Proof.
  unfold enter_native_transaction. wp_steps. apply wp_guard; cbn [bound].
  - intros e t _. now left.
  - intros e t _. right. eauto.
  - intros t _ _ _. wp_steps. unfold wp at 1. destruct (begin_transaction _) as [[u|e|] st]; cbn [bound].
    + wp_steps. destruct (expect _); cbn [bound]; wp_steps; now left.
    + left. now destruct (cs_poisoned st).
    + now left.
Qed.

Lemma begin_ledger entries deadline d : wp (begin_native_transaction entries deadline) (ledger_kept d) d.
Proof.
  unfold begin_native_transaction. wp_steps. apply wp_guard; cbn [bound].
  - intros e t _. now left.
  - intros e t _. right. eauto.
  - intros t _ _ _. wp_steps. destruct (new_with_authority _ _ _ _ _ _); cbn [map_err bound]; [|now left|now left].
    wp_steps; [now left|]. eapply wp_mono; [apply enter_ledger|]. intros [id|e|] d' H; cbn [bound].
    + wp_steps; destruct H as [H|[_ [e He]]]; try discriminate; now left.
    + destruct H as [H|[H _]]; [now left|right; eauto].
    + destruct H as [H|[_ [e He]]]; [now left|discriminate].
Qed.

End Transfer.

(** The manifest a coordinator sends for a batch under a transaction number. *)
Definition manifest_for (P : AcceptedSessionParameters) (id : Z) (batch : TransferBatch) (m : TransferManifest) : Prop :=
  let facts := ap_facts P in
  new_with_authority (sf_nonce facts) (sf_parent_pid facts) (sf_child_pid facts) id (ap_authority_profile P)
    (map entry_of (tb_regions batch)) = Ok m /\ fits_limits m (ap_limits P) = true /\
  manifest_ok m /\ manifest_widths m.

Lemma opened_modes d n d' :
  refines d (Ok (ReplyOpened n)) d' ->
  exists s r t, abstract d = SessionOpen s r t /\ n = t + 1 /\ abstract d' = SessionBusy s r (t + 1) /\ log_of d' = log_of d.
Proof.
  intros (_ & _ & reply & es & [= <-] & Hl & Hs). inversion Hs; subst; try discriminate.
  exists s, r, t. rewrite app_nil_r in Hl. auto.
Qed.

Lemma refused_modes d e d' :
  refines d (Err e) d' ->
  exists es, log_of d' = log_of d ++ es /\ (abstract d' = abstract d /\ es = [] \/
    abstract d' = SessionDead /\ forall script, stopped script es).
Proof.
  intros (_ & _ & reply & es & [= <-] & Hl & Hs). exists es. split; [exact Hl|].
  inversion Hs; subst; auto using stopped_nil, stopped_received.
Qed.

Section Opening.
Context (p : Platform (Traced T) M) (P : AcceptedSessionParameters).

Lemma begin_transfer_spec a held batch deadline d :
  held_by P a held d -> batch_ok batch ->
  wp (begin_transfer_capacity p batch deadline)
     (fun r d' => match r with
        | Ok frame => exists s r t m, a = SessionOpen s r t /\ manifest_for P (t + 1) batch m /\ manifest_widths m /\
            frame = frame_of m /\ log_of d' = log_of d /\ held_by P (SessionBusy s r (t + 1)) held d'
        | Err _ => exists es a', log_of d' = log_of d ++ es /\ held_by P a' held d' /\
            (a' = a /\ es = [] \/ a' = SessionDead /\ forall script, stopped script es)
        | Panic => False
        end) d.
Proof.
  intros [Hok Hp Ha Hb] Hbatch. unfold begin_transfer_capacity. wp_step. wp_step.
  rewrite manifest_entries_run by done. cbn [map_err bound]. wp_step.
  assert (Hwf : Forall ManifestEntry_wf (map entry_of (tb_regions batch))).
  { rewrite Forall_map. eapply Forall_impl; [exact (bo_regions _ Hbatch)|]. intros q ?. now apply entry_of_wf. }
  eapply wp_mono; [apply wp_and; [apply (begin_run_spec _ deadline d Hok Hwf)|apply begin_ledger]|].
  assert (Hk : forall {A} (r : res AcceptedControlError A) d', ledger_kept d r d' -> balanced (d_resources d') held).
  { intros A r d' [->|[-> _]]; [done|now apply poison_balanced]. }
  intros [frame|e|] d' [[Hfr Href] Hl%Hk]; cbn [map_err].
  - destruct (opened_modes _ _ _ Href) as (s & r & t & Hs & Hn & Hs' & Hlog). destruct Hfr as (m & Hm & Hfit & Hf).
    destruct (next_manifest_ok d _ m Hok Hwf Hm) as (Hmo & Hw & _). rewrite capability_frame_ok in Hf by done. injection Hf as <-.
    exists s, r, t, m. split_and!; try done; [congruence| |].
    + unfold manifest_for. unfold next_manifest in Hm. rewrite Hn, Hp in Hm. rewrite Hp in Hfit. done.
    + destruct Href as (Hok' & Hp' & _). constructor; try done. congruence.
  - destruct (refused_modes _ _ _ Href) as (es & Hlog & Hmode). exists es, (abstract d'). rewrite Ha in Hmode.
    destruct Href as (Hok' & Hp' & _). split_and!; try done. constructor; try done. congruence.
  - now destruct Href as (_ & _ & reply & es & [=] & _).
Qed.

Lemma reserve_spec a held lengths d :
  held_by P a held d -> Forall (Z.le 0) lengths ->
  wp (reserve lengths)
     (fun r d' => log_of d' = log_of d /\
        match r with
        | Ok l => l = lengths /\ held_by P a (lengths ++ held) d'
        | Err _ => held_by P a held d'
        | Panic => False
        end) d.
Proof.
  intros Hd Hn. pose proof (hb_ledger _ _ _ _ Hd) as Hb. unfold wp, reserve, on_resources, reserve_mapped_lengths.
  destruct (reserve_from_spec lengths (d_resources d) [] held Hb Hn) as [H1 H2].
  assert (Hdec : batch_room (d_resources d) lengths \/ ~ batch_room (d_resources d) lengths).
  { destruct (decide (batch_room (d_resources d) lengths)); auto. }
  destruct Hdec as [Hr|Hr].
  - destruct (H1 Hr) as (sh & -> & Hb' & _). split; [done|]. split; [done|]. eapply hb_resources; [exact Hd|exact Hb'].
  - destruct (H2 Hr) as (e & sh & -> & Hb' & _). split; [done|]. eapply hb_resources; [exact Hd|exact Hb'].
Qed.

(** ** Whole transfers *)

(** The records of a transfer whose capacity status is [status]. *)
Definition transfer_script (m : TransferManifest) (status : CoordinatorCapacityStatus) (requires : bool) : list Event :=
  match status with
  | CapacityReady => capacity_script m CapacityReady true ++ coordinator_script m (pl_announces p) requires
  | _ => [Sent (frame_bytes m (coordinator_capacity_magic status))]
  end.

Definition transferred (a : Session) (held : list Z) (batch : TransferBatch) (set : ActiveRegionSet) d'
  (es : list Event) : Prop :=
  exists s r t m requires specs owners, a = SessionOpen s r t /\ manifest_for P (t + 1) batch m /\
    (pl_always_seals p = true -> requires = true) /\ es = transfer_script m CapacityReady requires /\
    held_by P (SessionOpen s r (t + 1)) (map me_mapped_len (tm_entries m) ++ held) d' /\
    activates specs owners (map me_mapped_len (tm_entries m)) set.

Definition not_transferred (a : Session) (held : list Z) (batch : TransferBatch) (f : ReadyFailure) d'
  (es : list Event) : Prop :=
  exists a', held_by P a' held d' /\ (rf_transaction_open_on_failure f = true -> a' = SessionDead) /\
    (a' = a /\ es = [] \/
     (exists s r t m status, a = SessionOpen s r t /\ a' = SessionOpen s r (t + 1) /\ manifest_for P (t + 1) batch m /\
        es = capacity_script m status false) \/
     a' = SessionDead /\ ((forall script, stopped script es) \/
        exists s r t m status requires, a = SessionOpen s r t /\ manifest_for P (t + 1) batch m /\
          (pl_always_seals p = true -> requires = true) /\ stopped (transfer_script m status requires) es)).

Definition transfer_outcome a held batch d (r : res ReadyFailure ActiveRegionSet) d' : Prop :=
  exists es, log_of d' = log_of d ++ es /\
    match r with
    | Ok set => transferred a held batch set d' es
    | Err f => not_transferred a held batch f d' es
    | Panic => False
    end.

Lemma offer_stopped m status es requires :
  stopped [Sent (frame_bytes m (coordinator_capacity_magic status))] es -> stopped (transfer_script m status requires) es.
Proof. destruct status; [|done|done]. intros H. exact (stopped_app_l _ (Received _ :: _) _ H). Qed.

Lemma exchange_failed s r t m status charges freed held batch deadline d0 d (f : CapabilityBatchError M -> ReadyFailure) (k : bool -> stm (Dispatcher (Traced T)) ReadyFailure ActiveRegionSet) :
  charges = freed ++ held -> manifest_for P (t + 1) batch m -> manifest_widths m ->
  held_by P (SessionBusy s r (t + 1)) charges d -> log_of d = log_of d0 ->
  (forall e, rf_transaction_open_on_failure (f e) = true) ->
  (forall ready d', (ready = true -> status = CapacityReady) ->
     held_by P (if ready then SessionBusy s r (t + 1) else SessionOpen s r (t + 1)) charges d' ->
     log_of d' = log_of d0 ++ capacity_script m status ready ->
     wp (k ready) (transfer_outcome (SessionOpen s r t) held batch d0) d') ->
  wp (fun self => match exchange_transfer_capacity (frame_of m) status deadline self with
                  | (Ok ready, self) => k ready self
                  | (Err e, self) => release freed (f e) self
                  | (Panic, self) => (Panic, self)
                  end) (transfer_outcome (SessionOpen s r t) held batch d0) d.
Proof.
  intros -> Hm Hw Hd Hlog Hf Hk. apply wp_match. eapply wp_mono; [eapply exchange_spec; [exact Hw|exact Hd]|].
  intros [ready|e|] d' (es & Hl & H); [| |done]; rewrite Hlog in Hl.
  - destruct H as (-> & Hr & Hh). now apply Hk.
  - destruct H as [Hh Hs]. unfold release. wp_steps. exists es. split; [exact Hl|]. exists SessionDead.
    split; [apply hb_release, Hh|]. split; [done|]. right. right. split; [done|]. right.
    exists s, r, t, m, status, true. split_and!; try done. now apply offer_stopped.
Qed.

(** Nothing was transferred, and the peer knows. *)
Lemma declined s r t m status freed held batch d0 d f :
  manifest_for P (t + 1) batch m -> held_by P (SessionOpen s r (t + 1)) (freed ++ held) d ->
  log_of d = log_of d0 ++ capacity_script m status false -> rf_transaction_open_on_failure f = false ->
  wp (release (A := ActiveRegionSet) freed f) (transfer_outcome (SessionOpen s r t) held batch d0) d.
Proof.
  intros Hm Hd Hl Hf. unfold release. wp_steps. eexists. split; [exact Hl|]. exists (SessionOpen s r (t + 1)).
  split; [apply hb_release, Hd|]. split; [congruence|]. right. left. do 5 eexists. done.
Qed.

Lemma transfer_spec a held batch deadline d :
  pl_activation_page p <> Panic -> held_by P a held d -> batch_ok batch ->
  wp (transfer_batch (B := B) (Cap := Cap) p batch deadline) (transfer_outcome a held batch d) d.
Proof.
  intros Hpage Hd Hb. unfold transfer_batch. wp_step. apply wp_is_expired. intros expired t1 Ht1. cbn [bound].
  assert (Hd1 : held_by P a held (with_transport t1 d)) by apply hb_transport, Hd.
  wp_step. { exists []. rewrite app_nil_r. split; [exact Ht1|]. exists a. split; [done|]. split; [done|]. now left. }
  wp_step. wp_step. eapply wp_mono; [apply (begin_transfer_spec a held batch deadline _ Hd1 Hb)|].
  intros [frame|e|] d2 H2; cbn [map_err bound]; [| |done].
  2:{ destruct H2 as (es & a' & Hl & Hh & Hc). exists es. split; [rewrite Hl; unfold log_of; cbn; now rewrite Ht1|].
      exists a'. split; [done|]. split; [done|]. tauto. }
  destruct H2 as (s & r & t & m & -> & Hm & Hw & -> & Hl2 & Hd2).
  assert (Hlog2 : log_of d2 = log_of d) by (rewrite Hl2; exact Ht1). clear Hl2 Hd1.
  destruct (announced_lengths batch _ _ _ _ _ m Hb (proj1 Hm)) as [_ Hlens].
  set (rs := map me_mapped_len (tm_entries m)) in *.
  assert (Hnn : Forall (Z.le 0) rs).
  { rewrite reservation_lengths_run in Hlens by done. injection Hlens as <-. rewrite Forall_map, sort_by_perm.
    eapply Forall_impl; [exact (bo_regions _ Hb)|]. intros q Hq. destruct (mapped_of_run (E := unit) q Hq) as (_ & ? & _). lia. }
  apply wp_match. unfold reserve_transfer_batch. wp_step. wp_step. rewrite Hlens. cbn [bound].
  eapply wp_mono; [eapply reserve_spec; [exact Hd2|exact Hnn]|].
  intros [l|e|] d3 [Hl3 H3]; [| |done].
  2:{ apply wp_eta. wp_steps. eapply wp_mono; [eapply exchange_spec; [exact Hw|exact H3]|].
      intros [ready|e'|] d4 (es & Hl4 & H4); cbn [map_err bound]; [| |done]; rewrite Hl3, Hlog2 in Hl4.
      - destruct H4 as (-> & Hr & Hh). destruct ready; [now discriminate Hr|]. wp_steps.
        exists (capacity_script m Manifest.ActiveLimit false). split; [exact Hl4|]. exists (SessionOpen s r (t + 1)).
        split; [done|]. split; [done|]. right. left. do 5 eexists. done.
      - destruct H4 as [Hh Hs]. exists es. split; [exact Hl4|]. exists SessionDead. split; [done|]. split; [done|].
        right. right. split; [done|]. right. exists s, r, t, m, Manifest.ActiveLimit, true.
        split_and!; try done. }
  destruct H3 as [-> Hd3]. apply wp_match, wp_quietly; [apply nb_prepare_returns|].
  intros r4 t4 Hp4 Ht4.
  assert (Hd4 : held_by P (SessionBusy s r (t + 1)) (rs ++ held) (with_transport t4 d3)) by apply hb_transport, Hd3.
  assert (Hlog4 : log_of (with_transport t4 d3) = log_of d) by (unfold log_of at 1; cbn; congruence).
  destruct r4 as [prepared|error|]; [| |done].
  - eapply (exchange_failed s r t m _ _ rs held); try done. intros ready d5 Hr Hh Hl5. destruct ready; cbn [negb].
    2:{ apply wp_eta. eapply declined; [exact Hm|exact Hh|exact Hl5|done]. }
    apply wp_eta. eapply wp_mono; [eapply transfer_prepared_spec; [exact Hpage|exact Hw|exact Hh]|].
    intros [set|f|] d6 (es & Hl6 & H6); [| |done]; rewrite Hl5, <- app_assoc in Hl6; (eexists; split; [exact Hl6|]).
    + destruct H6 as (-> & Hh6 & specs & owners & Hact).
      exists s, r, t, m, (needs_seal p prepared), specs, owners. split_and!; try done. unfold needs_seal. now intros ->.
    + destruct H6 as (Hf & Hh6 & Hs). exists SessionDead. split; [done|]. split; [done|]. right. right. split; [done|]. right.
      exists s, r, t, m, CapacityReady, (needs_seal p prepared). split_and!; try done.
      * unfold needs_seal. now intros ->.
      * now apply stopped_app_r.
  - eapply (exchange_failed s r t m _ _ rs held); try done. intros ready d5 Hr Hh Hl5. destruct ready; [now discriminate Hr|].
    apply wp_eta. eapply declined; [exact Hm|exact Hh|exact Hl5|done].
Qed.

End Opening.
End Coordinator.
