(* ===== verification/ReceiverTheory.v ===== *)
(** * ReceiverTheory: a transfer, from the receiver's side

    The imported memory of a batch is any [ImportedBatch] whose operations have
    no abnormal exit. A receiver that reports success has exchanged exactly the
    records of the protocol for one manifest, which is the one it expected; a
    receiver that fails holds no charge of the batch. *)

From stdpp Require Import gmap.
From S2P Require Import Prelude Tools Limits Manifest ManifestTheory Control Liveness Native Resources Region Active Batch Dispatcher DispatcherTheory Expected Transfer Platforms ActivationTheory CoordinatorTheory.

(** ** Native memory *)

Class ImportedBatchLaws {T I Right M : Type} (IB : ImportedBatch T I Right M) := {
  ib_import_returns : forall expected manifest rights t, fst (ib_import expected manifest rights t) <> Panic;
  ib_verify_returns : forall deadline s, fst (ib_verify_final_seals deadline s) <> Panic;
  ib_specs_return : forall i deadline t, fst (ib_activation_specs i deadline t) <> Panic
}.

#[export] Instance TracedImported {T I Right M} `{IB : ImportedBatch T I Right M} : ImportedBatch (Traced T) I Right M := {
  ib_import := fun expected manifest rights => quietly (ib_import expected manifest rights);
  ib_verify_final_seals := fun deadline '(i, t) =>
    let '(r, (i', t')) := ib_verify_final_seals deadline (i, tr_inner t) in
    (r, (i', {| tr_inner := t'; tr_log := tr_log t |}));
  ib_activation_specs := fun i deadline => quietly (ib_activation_specs i deadline);
  ib_into_active_region_owners := ib_into_active_region_owners
}.

(** ** What a platform promises *)

Definition expected_wf (e : ExpectedBatch) : Prop := Forall (fun r => 0 <= er_logical_len r) (eb_regions e).

Class PlatformLaws {T M} (p : Platform (Traced T) M) := {
  pl_page_returns : pl_activation_page p <> Panic;
  pl_expect_returns : forall expected limits deadline t, limits_nonneg limits -> expected_wf expected ->
    wp (pl_expect p expected limits deadline)
       (fun r t' => tr_log t' = tr_log t /\
          match r with
          | Ok ex => Forall (Z.le 0) (reservation_lengths ex) /\ ex_deadline ex = deadline
          | Err _ => True
          | Panic => False
          end) t;
  pl_matches_lengths : forall ex m, pl_matches p ex m = true -> reservation_lengths ex = map me_mapped_len (tm_entries m)
}.

(** Code that only reads the clock exchanges nothing. *)
Definition unlogged {T E A} (m : stm (Traced T) E A) : Prop := forall t, tr_log (snd (m t)) = tr_log t.

Section Unlogged.
Context {T E : Type}.

Lemma unlogged_bind {A B} (m : stm (Traced T) E A) (k : A -> stm (Traced T) E B) :
  unlogged m -> (forall x, unlogged (k x)) -> unlogged (sbind m k).
Proof.
  intros Hm Hk t. unfold sbind. specialize (Hm t). destruct (m t) as [[x|e|] t1]; [|exact Hm|exact Hm].
  rewrite Hk. exact Hm.
Qed.
Lemma unlogged_ret {A} (x : A) : unlogged (sret (S := Traced T) (E := E) x). Proof. done. Qed.
Lemma unlogged_err {A} e : unlogged (serr (S := Traced T) (E := E) (A := A) e). Proof. done. Qed.
Lemma unlogged_lift {A} (r : res E A) : unlogged (slift (S := Traced T) r). Proof. done. Qed.
Lemma unlogged_for {A B} (l : list A) (f : A -> B -> stm (Traced T) E B) :
  (forall x b, unlogged (f x b)) -> forall b, unlogged (sfor l f b).
Proof. intros Hf. induction l as [|x l IH]; intros b; [done|]. cbn [sfor]. now apply unlogged_bind. Qed.
Lemma unlogged_deadline {C : Clock T} (e : E) deadline : unlogged (check_deadline e deadline).
Proof.
  apply unlogged_bind; [|intros []; done].
  intros t. unfold is_expired, AbsoluteDeadline_remaining, sbind, sret. cbn [instant_now TracedClock].
  now destruct (instant_now (tr_inner t)).
Qed.

Lemma wp_unlogged {A} (m : stm (Traced T) E A) (Q : res E A -> Prop) t :
  unlogged m -> wp m (fun r _ => Q r) t -> wp m (fun r t' => tr_log t' = tr_log t /\ Q r) t.
Proof. intros Hm H. specialize (Hm t). unfold wp in *. now destruct (m t). Qed.

End Unlogged.
Create HintDb unlogged.
#[export] Hint Resolve unlogged_bind unlogged_ret unlogged_err unlogged_lift unlogged_for unlogged_deadline : unlogged.

Section Platforms.
Context {T : Type} {C : Clock T} {PQ : PageQuery}.

Lemma expected_lengths expected limits deadline ex :
  expectation_of expected limits deadline ex -> Forall (Z.le 0) (reservation_lengths ex) /\ ex_deadline ex = deadline.
Proof.
  intros []. split; [|done]. unfold reservation_lengths. rewrite Forall_map.
  eapply Forall_impl; [exact xo_region|]. cbn. intros e He. lia.
Qed.
(** The three platforms keep the promise. *)
#[export] Instance linux_laws : PlatformLaws (T := T) linux.
Proof.
  constructor.
  - cbn [pl_activation_page linux]. unfold native_page_size. repeat case_match; done.
  - intros expected limits deadline t Hl He. cbn [pl_expect linux].
    apply (wp_unlogged _ (fun r => match r with Ok ex => _ | Err _ => True | Panic => False end)).
    + unfold linux_expected_prepare, linux_expected_entry. repeat (auto with unlogged; first [apply unlogged_bind; [auto with unlogged|intros ?]
        |apply unlogged_for; intros ? [? ?]|case_match]).
    + eapply wp_mono; [now apply linux_prepared|]. intros [ex|e|] _; [apply expected_lengths|done|done].
  - apply matching_lengths.
Qed.

#[export] Instance macos_laws : PlatformLaws (T := T) macos.
Proof.
  constructor; [done| |].
  2:{ intros ex m. cbn [pl_matches macos]. unfold mac_matches_manifest. intros H. apply matching_lengths.
      unfold linux_matches_manifest. now rewrite !andb_true_iff in *. }
  intros expected limits deadline t Hl He. cbn [pl_expect macos].
  apply (wp_unlogged _ (fun r => match r with Ok ex => _ | Err _ => True | Panic => False end)).
  - unfold mac_expected_new. repeat (auto with unlogged; first [apply unlogged_bind; [auto with unlogged|intros ?]|case_match]).
  - eapply wp_mono; [now apply mac_prepared|]. intros [ex|e|] _; [apply expected_lengths|done|done].
Qed.

Lemma windows_laws : page_query <= U64_MAX -> PlatformLaws (T := T) windows.
Proof.
  intros Hq. constructor; [done| |].
  2:{ intros ex m. cbn [pl_matches windows]. unfold windows_matches_manifest. intros H. apply matching_lengths.
      unfold linux_matches_manifest. now rewrite !andb_true_iff in *. }
  intros expected limits deadline t Hl He. cbn [pl_expect windows].
  apply (wp_unlogged _ (fun r => match r with Ok ex => _ | Err _ => True | Panic => False end)).
  - unfold windows_expected_new. repeat (auto with unlogged; first [apply unlogged_bind; [auto with unlogged|intros ?]|case_match]).
  - eapply wp_mono; [now apply windows_prepared|]. intros [ex|e|] _; [apply expected_lengths|done|done].
Qed.

End Platforms.

(** ** Received frames *)

Lemma decode_capability w :
  CapabilityFrame_decode w <> Panic /\
  forall frame m, CapabilityFrame_decode w = Ok (frame, m) ->
    frame = frame_of m /\ manifest_ok m /\ manifest_widths m /\ w = frame_bytes m CAPABILITY_MAGIC.
Proof.
  unfold CapabilityFrame_decode. destruct (decode_cases CAPABILITY_MAGIC w eq_refl) as [Hp Hd].
  destruct (TransferManifest_decode _ _) as [m|[]|]; cbn [rbind]; [|done|done].
  destruct (Hd m eq_refl) as (Ho & Hw & ->). rewrite capability_frame_ok by done. cbn [rbind]. split; [done|].
  now intros frame m' [= <- <-].
Qed.

Lemma decode_capacity w :
  decode_coordinator_capacity w <> Panic /\
  forall frame m status, decode_coordinator_capacity w = Ok (frame, m, status) ->
    frame = frame_of m /\ manifest_ok m /\ manifest_widths m /\ w = frame_bytes m (coordinator_capacity_magic status).
Proof.
  unfold decode_coordinator_capacity. generalize [CapacityReady; Manifest.ActiveLimit; PreparationFailed].
  intros l. induction l as [|status l IH]; [done|]. cbn [decode_first].
  assert (Hmg : len (coordinator_capacity_magic status) = 8) by now destruct status.
  destruct (decode_cases (coordinator_capacity_magic status) w Hmg) as [Hp Hd].
  destruct (TransferManifest_decode _ _) as [m|[]|]; [|exact IH|done].
  destruct (Hd m eq_refl) as (Ho & Hw & ->). rewrite capability_frame_ok by done. cbn [rbind]. split; [done|].
  now intros frame m' status' [= <- <- <-].
Qed.

(** What a receiver exchanges, in order. *)
Definition answer_script (m : TransferManifest) : list Event :=
  [Received (frame_bytes m COORDINATOR_CAPACITY_READY_MAGIC); Sent (frame_bytes m RECEIVER_CAPACITY_READY_MAGIC)].
Definition import_script (m : TransferManifest) (announces requires : bool) : list Event :=
  (if announces then [Received (frame_bytes m CAPABILITY_MAGIC)] else []) ++
  [ReceivedCapabilities (frame_bytes m CAPABILITY_MAGIC)] ++
  (if requires then [Sent (frame_bytes m IMPORTED_MAGIC); Received (frame_bytes m SEALED_MAGIC)] else []).
Definition ready_script (m : TransferManifest) : list Event :=
  [Sent (frame_bytes m READY_MAGIC); Received (frame_bytes m COMMIT_MAGIC)].
Definition receiver_script (offered m : TransferManifest) (announces requires : bool) : list Event :=
  answer_script offered ++ import_script m announces requires ++ ready_script m.

Section Receiver.
Context {T I Right Rcv M : Type} {R : AuthenticatedZeroRightsTransport T} {C : Clock T}
        {CT : CandidateCapabilityTransport T Right} {RC : ReceiverCapabilityTransport T Rcv}
        {IB : ImportedBatch T I Right M} {IL : ImportedBatchLaws IB} (into_handles : Rcv -> list Right)
        (p : Platform (Traced T) M) {PL : PlatformLaws p} (P : AcceptedSessionParameters).
Implicit Types d : Dispatcher (Traced T).

(** ** The capacity exchange *)

Section Begin.
Context (s r id : Z) (held : list Z) (ex : Expectation) (Hlens : Forall (Z.le 0) (reservation_lengths ex)).

Lemma try_reserve_spec d Q :
  held_by P (SessionBusy s r id) held d ->
  (forall d', log_of d' = log_of d -> held_by P (SessionBusy s r id) (reservation_lengths ex ++ held) d' ->
     Q (Ok (Some (reservation_lengths ex))) d') ->
  (forall d', log_of d' = log_of d -> held_by P (SessionBusy s r id) held d' -> Q (Ok None) d') ->
  wp (try_reserve (M := M) (reservation_lengths ex)) Q d.
Proof.
  intros Hd Hok Hno. pose proof (reserve_spec P _ _ _ d Hd Hlens) as H. unfold wp, try_reserve in *.
  destruct (reserve _ d) as [[l|e|] d']; [| |tauto]; destruct H as [Hl H].
  - destruct H as [-> H]. now apply Hok.
  - now apply Hno.
Qed.

Lemma answer_spec w kept deadline d (Q : res (CapabilityBatchError M * bool) unit -> Dispatcher (Traced T) -> Prop) :
  held_by P (SessionBusy s r id) (kept ++ held) d ->
  (forall d', log_of d' = log_of d ++ [Sent w] -> held_by P (SessionBusy s r id) (kept ++ held) d' -> Q (Ok tt) d') ->
  (forall e d', held_by P SessionDead held d' -> Q (Err (e, true)) d') ->
  wp (answer_capacity w kept deadline) Q d.
Proof.
  intros Hd Hok Herr. unfold answer_capacity. apply wp_match, wp_or_poison_both, wp_transport_send; intros; unfold wp.
  - apply Hok; [done|]. now apply hb_transport.
  - apply Herr. eapply hb_release, hb_poison, hb_transport, Hd.
Qed.

(** Declining: the answer goes out, the transaction ends. *)
Definition declines {A} (res : res (CapabilityBatchError M * bool) A) d : Prop :=
  match res with
  | Err (_, open) => exists a, held_by P a held d /\ (open = true -> a = SessionDead) /\
      (a = SessionDead \/ a = SessionOpen s r id)
  | _ => False
  end.

Lemma declines_dead {A} e d : held_by P SessionDead held d -> declines (A := A) (Err (e, true)) d.
Proof. intros H. exists SessionDead. auto. Qed.

Lemma decline_spec {A} w (e : CapabilityBatchError M) deadline d :
  held_by P (SessionBusy s r id) held d ->
  wp (answer_capacity w [] deadline >>!
      (smap_err (fun e => (CapabilityError_Control (AcceptedError_Control e), true)) (on_control end_transaction) >>!
       serr (e, false))) (declines (A := A)) d.
Proof.
  intros Hd. wp_step. apply answer_spec; [exact Hd| |].
  - intros d1 _ Hd1. cbn [bound]. wp_step. wp_step. unfold wp at 1.
    destruct (end_transaction_open _ _ _ _ _ _ Hd1) as (d2 & -> & _ & Hd2). cbn [map_err bound]. wp_step.
    exists (SessionOpen s r id). split; [done|]. split; [done|now right].
  - intros e' d1 Hd1. now apply declines_dead.
Qed.

Definition exchanged d (res : res (CapabilityBatchError M * bool) (CapabilityFrame * list Z)) d' : Prop :=
  match res with
  | Ok (frame, rs) => exists m, frame = frame_of m /\ manifest_ok m /\ manifest_widths m /\
      received_manifest_matches p P id ex m = true /\ rs = reservation_lengths ex /\
      held_by P (SessionBusy s r id) (rs ++ held) d' /\ log_of d' = log_of d ++ answer_script m
  | _ => declines res d'
  end.

Lemma declines_exchanged d res d' : declines res d' -> exchanged d res d'.
Proof. destruct res as [[]|[]|]; done. Qed.

Lemma exchange_expected_spec deadline d :
  held_by P (SessionBusy s r id) held d -> wp (exchange_expected p ex id deadline) (exchanged d) d.
Proof.
  intros Hd. unfold exchange_expected. wp_steps. apply wp_or_poison_both, wp_transport_receive; cbn [map_err bound].
  2:{ intros e t Ht. apply declines_dead. eapply hb_poison, hb_transport, Hd. }
  intros w t Ht. assert (Hd1 : held_by P (SessionBusy s r id) held (with_transport t d)) by apply hb_transport, Hd.
  assert (Hfail : forall (e : CapabilityBatchError M) A (k : A -> _),
            wp (fail_both (e, true)) (bound k (exchanged d)) (with_transport t d)).
  { intros e A k. unfold fail_both. wp_steps. apply declines_dead. eapply hb_poison, Hd1. }
  wp_step. destruct (decode_capacity w) as [Hp Hdec].
  destruct (decode_coordinator_capacity w) as [[[frame m] status]|[]|]; [|apply Hfail|done].
  destruct (Hdec _ _ _ eq_refl) as (-> & Hok & Hw & ->). wp_step. cbn [bound]. wp_step. wp_step. cbn [bound].
  cbn [d_parameters with_transport]. rewrite (hb_parameters _ _ _ _ Hd).
  destruct (received_manifest_matches p P id ex m) eqn:Hmt; cbn [negb].
  2:{ unfold fail_both. wp_steps. apply declines_dead. eapply hb_poison, Hd1. }
  assert (Hreject : forall e d1, held_by P (SessionBusy s r id) held d1 ->
    wp (let! response := slift (infallible (receiver_capacity_frame (frame_of m) false)) in
        answer_capacity response [] deadline >>!
        (smap_err (fun e => (CapabilityError_Control (AcceptedError_Control e), true)) (on_control end_transaction) >>!
         serr (e, false))) (exchanged d) d1).
  { intros e d1 Hh. wp_step. wp_step. rewrite answer_phase by done. cbn [bound].
    eapply wp_mono; [now apply decline_spec|]. intros res d'. apply declines_exchanged. }
  wp_step. destruct status.
  - apply try_reserve_spec; [exact Hd1| |].
    + intros d2 Hl2 Hh2. cbn [bound]. rewrite bool_decide_eq_true_2 by done. cbn [andb negb default].
      wp_step. wp_step. rewrite answer_phase by done. cbn [bound]. wp_step. apply answer_spec; [exact Hh2| |].
      * intros d3 Hl3 Hh3. cbn [bound expect]. wp_steps. exists m. split_and!; [reflexivity|exact Hok|exact Hw|exact Hmt|reflexivity|exact Hh3|].
        rewrite Hl3, Hl2. unfold log_of. cbn [d_transport with_transport]. rewrite Ht, <- app_assoc. done.
      * intros e d3 Hh3. now apply declines_dead.
    + intros d2 Hl2 Hh2. cbn [bound]. rewrite bool_decide_eq_false_2 by tauto. cbn [andb negb default]. now apply Hreject.
  - wp_step. cbn [bound andb negb default]. now apply Hreject.
  - wp_step. cbn [bound andb negb default]. now apply Hreject.
Qed.

End Begin.

(** Up to the open transaction. *)
Lemma enter_modes a held deadline d :
  held_by P a held d ->
  wp (enter_native_transaction deadline)
     (fun res d' => match res with
        | Ok id => exists s r t, a = SessionOpen s r t /\ id = t + 1 /\ log_of d' = log_of d /\
                     held_by P (SessionBusy s r (t + 1)) held d'
        | Err _ => exists a', held_by P a' held d' /\ (a' = a \/ a' = SessionDead)
        | Panic => False
        end) d.
Proof.
  intros [Hok Hp Ha Hb]. eapply wp_mono; [apply wp_and; [now apply enter_refines|apply enter_ledger]|].
  assert (Hk : forall {A} (res : res AcceptedControlError A) d', ledger_kept d res d' -> balanced (d_resources d') held).
  { intros A res d' [->|[-> _]]; [done|now apply poison_balanced]. }
  intros [id|e|] d' [[Hid Href] Hl%Hk].
  - destruct (opened_modes _ _ _ Href) as (s & r & t & Hs & Hn & Hs' & Hlog). exists s, r, t.
    split_and!; try congruence. destruct Href as (Hok' & Hp' & _). constructor; try done. congruence.
  - destruct (refused_modes _ _ _ Href) as (es & _ & Hmode). exists (abstract d'). destruct Href as (Hok' & Hp' & _).
    split; [constructor; try done; congruence|]. rewrite <- Ha. tauto.
  - now destruct Href as (_ & _ & reply & es & [=] & _).
Qed.

Lemma open_expected_spec a held expected deadline d :
  held_by P a held d -> expected_wf expected ->
  wp (open_expected p expected deadline)
     (fun res d' => match res with
        | Ok (ex, id) => exists s r t, a = SessionOpen s r t /\ id = t + 1 /\ log_of d' = log_of d /\
            held_by P (SessionBusy s r (t + 1)) held d' /\ Forall (Z.le 0) (reservation_lengths ex) /\ ex_deadline ex = deadline /\
            exists t1 t2, pl_expect p expected (ap_limits P) deadline t1 = (Ok ex, t2)
        | Err (_, open) => open = false /\ exists a', held_by P a' held d' /\ (a' = a \/ a' = SessionDead)
        | Panic => False
        end) d.
Proof.
  intros Hd Hwf. unfold open_expected. wp_steps. { split; [done|]. exists a. auto. }
  rewrite (hb_parameters _ _ _ _ Hd). assert (Hl : limits_nonneg (ap_limits P)).
  { destruct Hd as [[] <- _ _]. apply do_parameters. }
  unfold wp at 1, on_native. pose proof (pl_expect_returns expected (ap_limits P) deadline (d_transport d) Hl Hwf) as He.
  unfold wp in He. destruct (pl_expect _ _ _ _ _) as [[ex|e|] t1] eqn:Hex; cbn [map_err bound]; [| |tauto]; destruct He as [Hlog He].
  2:{ split; [done|]. exists a. split; [now apply hb_transport|auto]. }
  wp_steps. eapply wp_mono; [eapply enter_modes, hb_transport, Hd|].
  intros [id|e|] d' H; cbn [map_err bound]; [| |done].
  - destruct H as (s & r & t & -> & -> & Hl' & Hh). wp_steps. exists s, r, t. destruct He. split_and!; try done; eauto.
    rewrite Hl'. exact Hlog.
  - destruct H as (a' & Hh & Ha'). eauto.
Qed.

(** ** The open transaction *)

Section Import.
Context (s r id deadline : Z) (rs held : list Z).
Abbreviation RMX := (ReceiverMixed (Traced T) I).
Abbreviation ch := (rs ++ held).

Definition rm_alive (self : RMX) : Prop :=
  held_by P (SessionBusy s r id) ch (rm_dispatcher self) /\ rm_already_poisoned self = false /\
  rm_reservations self = rs /\ rm_deadline self = deadline /\ rm_transaction_id self = id.
Definition rm_dead (self : RMX) : Prop :=
  held_by P SessionDead ch (rm_dispatcher self) /\ rm_reservations self = rs.

(** Success as stated, or a dead session. *)
Definition goes {A} (Q : A -> RMX -> Prop) (res : res (CapabilityBatchError M) A) (self : RMX) : Prop :=
  match res with Ok x => Q x self | Err _ => rm_dead self | Panic => False end.

Lemma wp_goes_bind {A B} (m : stm RMX (CapabilityBatchError M) A) (k : A -> stm RMX (CapabilityBatchError M) B) Q1 Q2 self :
  wp m (goes Q1) self -> (forall x self', Q1 x self' -> wp (k x) (goes Q2) self') -> wp (sbind m k) (goes Q2) self.
Proof. intros Hm Hk. apply wp_bind. eapply wp_mono; [exact Hm|]. intros [x|e|] self' H; cbn [bound]; [now apply Hk|exact H|exact H]. Qed.

Lemma poison_rm a (self : RMX) d :
  held_by P a ch d -> rm_already_poisoned self = false -> rm_reservations self = rs ->
  rm_dead (receiver_poison (rm_with_dispatcher d self)).
Proof.
  intros Hd Hp Hr. unfold receiver_poison. cbn [rm_already_poisoned rm_with_dispatcher]. rewrite Hp.
  split; [eapply hb_poison, Hd|exact Hr].
Qed.

Lemma wp_refuse {A} e (Q : A -> RMX -> Prop) self : rm_alive self -> wp (refuse e) (goes Q) self.
Proof.
  intros (Hd & Hp & Hr & _). unfold refuse. wp_steps.
  pose proof (poison_rm _ self (rm_dispatcher self) Hd Hp Hr) as H. now destruct self.
Qed.

(** A step of the borrowed dispatcher, with the events it logs. *)
Definition moves {A} d (es : A -> list Event) (good : A -> Prop) (res : res (CapabilityBatchError M) A) d' : Prop :=
  match res with
  | Ok x => held_by P (SessionBusy s r id) ch d' /\ log_of d' = log_of d ++ es x /\ good x
  | Err _ => exists a, held_by P a ch d'
  | Panic => False
  end.
Definition moved {A} (self : RMX) (es : A -> list Event) (good : A -> Prop) (x : A) (self' : RMX) : Prop :=
  exists d', self' = rm_with_dispatcher d' self /\ held_by P (SessionBusy s r id) ch d' /\
    log_of d' = log_of (rm_dispatcher self) ++ es x /\ good x.

Lemma wp_guarded {A} (m : stm (Dispatcher (Traced T)) (CapabilityBatchError M) A) es good self :
  rm_alive self -> wp m (moves (rm_dispatcher self) es good) (rm_dispatcher self) ->
  wp (guarded m) (goes (moved self es good)) self.
Proof.
  intros (_ & Hp & Hr & _) Hm. unfold wp, guarded in *. destruct (m (rm_dispatcher self)) as [[x|e|] d']; [| |exact Hm].
  - destruct Hm as (Hd & Hl & Hg). exists d'. auto.
  - destruct Hm as [a Ha]. now apply (poison_rm a).
Qed.

Lemma alive_moved {A} self es good (x : A) self' : rm_alive self -> moved self es good x self' -> rm_alive self'.
Proof. intros (_ & H) (d' & -> & Hd & _). split; [exact Hd|exact H]. Qed.

Lemma send_moves w d : held_by P (SessionBusy s r id) ch d ->
  wp (smap_err CapabilityError_Control (transport_send w deadline)) (moves d (fun _ => [Sent w]) (fun _ => True)) d.
Proof.
  intros Hd. wp_step. apply wp_transport_send; cbn [map_err].
  - intros t Ht. split; [now apply hb_transport|]. auto.
  - intros e t _. eexists. apply hb_transport, Hd.
Qed.

Lemma receive_moves n d : held_by P (SessionBusy s r id) ch d ->
  wp (smap_err CapabilityError_Control (transport_receive n deadline)) (moves d (fun w => [Received w]) (fun _ => True)) d.
Proof.
  intros Hd. wp_step. apply wp_transport_receive; cbn [map_err].
  - intros w t Ht. split; [now apply hb_transport|]. auto.
  - intros e t _. eexists. apply hb_transport, Hd.
Qed.

Lemma offer_moves ex d : held_by P (SessionBusy s r id) ch d ->
  wp (receive_offer p ex deadline)
     (moves d (fun x => if pl_announces p then [Received (fst x)] else [ReceivedCapabilities (fst x)])
        (fun x => snd x = None <-> pl_announces p = true)) d.
Proof.
  intros Hd. unfold receive_offer. destruct (pl_announces p).
  - wp_step. eapply wp_mono; [now apply receive_moves|]. intros [w|e|] d'; cbn [bound]; [|done|done].
    intros (Hh & Hl & _). wp_steps. done.
  - wp_step. wp_step. unfold wp at 1, on_io, receive_candidate_capability_record, TracedCandidates,
      receive_candidate_capability_record, traced.
    destruct (CT _ _ _) as [[w|e] t]; cbn [map_err bound]; wp_steps.
    + split; [now apply hb_transport|]. done.
    + eexists. apply hb_transport, Hd.
Qed.

Lemma rights_moves m carried d : held_by P (SessionBusy s r id) ch d ->
  wp (receive_rights into_handles (frame_of m) carried deadline)
     (moves d (fun _ => match carried with None => [ReceivedCapabilities (frame_bytes m CAPABILITY_MAGIC)] | Some _ => [] end)
        (fun _ => True)) d.
Proof.
  intros Hd. unfold receive_rights. destruct carried as [l|].
  - wp_step. split; [done|]. rewrite app_nil_r. done.
  - wp_step. wp_step. unfold wp at 1, on_io, receive_capability_record, TracedReceived, receive_capability_record, traced.
    destruct (RC _ _ _) as [[x|e] t]; cbn [map_err bound]; wp_steps.
    + split; [now apply hb_transport|]. done.
    + eexists. apply hb_transport, Hd.
Qed.

Lemma import_moves ex m rights d : held_by P (SessionBusy s r id) ch d ->
  wp (smap_err CapabilityError_Memory (on_native (ib_import ex m rights))) (moves (A := I) d (fun _ => []) (fun _ => True)) d.
Proof.
  intros Hd. wp_step. cbn [ib_import TracedImported]. apply wp_quietly; [apply ib_import_returns|].
  intros [x|e|] t Hp Ht; cbn [map_err]; [| |done].
  - split; [now apply hb_transport|]. rewrite app_nil_r. done.
  - eexists. apply hb_transport, Hd.
Qed.

Lemma final_moves x d : held_by P (SessionBusy s r id) ch d ->
  wp (final_check (Right := Right) p deadline x) (moves d (fun _ => []) (fun _ => True)) d.
Proof.
  intros Hd. unfold wp, final_check. destruct (pl_always_seals p).
  - cbn [ib_activation_specs TracedImported]. unfold quietly.
    pose proof (ib_specs_return x deadline (tr_inner (d_transport d))) as H.
    destruct (ib_activation_specs _ _ _) as [[y|e|] t]; cbn [rbind map_err]; [| |done].
    + split; [now apply hb_transport|]. rewrite app_nil_r. done.
    + eexists. apply hb_transport, Hd.
  - cbn [ib_verify_final_seals TracedImported].
    pose proof (ib_verify_returns deadline (x, tr_inner (d_transport d))) as H.
    destruct (ib_verify_final_seals _ _) as [[y|e|] [i t]]; cbn [rbind map_err]; [| |done].
    + split; [now apply hb_transport|]. rewrite app_nil_r. done.
    + eexists. apply hb_transport, Hd.
Qed.

(** The state of the transaction after the events [es]. *)
Definition after (l0 es : list Event) (self : RMX) : Prop :=
  rm_alive self /\ rm_attempted self = true /\ log_of (rm_dispatcher self) = l0 ++ es.

Lemma step_after {A} l0 es es' good (m : stm _ _ A) self :
  after l0 es self ->
  (held_by P (SessionBusy s r id) ch (rm_dispatcher self) -> wp m (moves (rm_dispatcher self) es' good) (rm_dispatcher self)) ->
  wp (guarded m) (goes (fun x self' => after l0 (es ++ es' x) self' /\ good x)) self.
Proof.
  intros (Ha & Hat & Hl) Hm. eapply wp_mono; [apply wp_guarded; [exact Ha|apply Hm, Ha]|].
  intros [x|e|] self'; cbn [goes]; [|tauto|tauto]. intros Hmv. pose proof (alive_moved _ _ _ _ _ Ha Hmv).
  destruct Hmv as (d' & -> & Hd & Hl' & Hg). split; [|done]. split; [done|]. split; [exact Hat|].
  cbn [rm_dispatcher rm_with_dispatcher]. now rewrite Hl', Hl, app_assoc.
Qed.

(** The barrier: IMPORTED out, SEALED in. *)
Lemma import_barrier l0 es m (requires : bool) self :
  manifest_widths m -> after l0 es self ->
  wp (if requires then
       let! imported_frame := slift (infallible (preparation_frame (frame_of m) Imported)) in
       guarded (smap_err CapabilityError_Control (transport_send imported_frame deadline)) >>!
       let! sealed_frame := slift (infallible (preparation_frame (frame_of m) Sealed)) in
       let! sealed := guarded (smap_err CapabilityError_Control (transport_receive (len sealed_frame) deadline)) in
       if negb (frame_matches sealed_frame sealed) then refuse ControlError_NonCanonical else sret tt
     else sret tt)
    (goes (fun _ self' => after l0 (es ++ if requires then [Sent (frame_bytes m IMPORTED_MAGIC); Received (frame_bytes m SEALED_MAGIC)]
                                          else []) self')) self.
Proof.
  intros Hw Ha. destruct requires; [|wp_step; cbn [goes]; now rewrite app_nil_r].
  rewrite !(preparation_phase m Hw). wp_step. wp_step. cbn [bound].
  eapply wp_goes_bind; [eapply step_after; [exact Ha|apply send_moves]|]. intros _ self1 [H1 _].
  wp_step. wp_step. cbn [bound].
  eapply wp_goes_bind; [eapply step_after; [exact H1|apply receive_moves]|]. intros w self2 [H2 _].
  unfold frame_matches. destruct (bool_decide (w = frame_bytes m SEALED_MAGIC)) eqn:E; cbn [negb].
  - bsplit. subst w. wp_step. cbn [goes]. rewrite <- app_assoc in H2. exact H2.
  - apply wp_refuse, H2.
Qed.

Lemma prepare_spec ex self :
  rm_alive self -> rm_attempted self = false -> rm_expected self = Some ex -> ex_deadline ex = deadline ->
  wp (receiver_prepare into_handles p)
     (goes (fun _ self' => exists m, manifest_ok m /\ manifest_widths m /\ received_manifest_matches p P id ex m = true /\
        (forall pf, rm_preflight_frame self = Some pf -> cf_bytes pf = frame_bytes m CAPABILITY_MAGIC) /\
        after (log_of (rm_dispatcher self))
          (import_script m (pl_announces p) (pl_always_seals p || requires_imported_sealed ex)) self' /\
        rm_frame self' = Some (frame_of m) /\ exists x, rm_imported self' = Some x)) self.
Proof.
  intros Ha Hat Hex Hdl. unfold receiver_prepare. set (l0 := log_of (rm_dispatcher self)).
  pose proof Ha as (_ & _ & _ & Hd & Hid). wp_step. wp_step. cbn [bound]. rewrite Hat, Hex, Hd, Hid.
  do 2 (wp_step; wp_step; cbn [expect bound]). rewrite Hdl, Z.eqb_refl, andb_false_r.
  assert (H0 : after l0 [] (rm_set_attempted self)) by (split; [exact Ha|]; split; [done|]; cbn; now rewrite app_nil_r).
  eapply wp_goes_bind; [eapply step_after; [exact H0|apply offer_moves]|]. intros [w carried] self1 [H1 Hc]. cbn [fst snd app] in *.
  apply wp_bind. destruct (decode_capability w) as [Hnp Hdec].
  destruct (CapabilityFrame_decode w) as [[frame m]|[]|]; [| |done].
  2:{ eapply wp_mono; [apply (wp_refuse _ (fun _ _ => False)), H1|]. intros [[]|e|]; done. }
  destruct (Hdec _ _ eq_refl) as (-> & Hok & Hw & ->). wp_step. cbn [bound].
  destruct (match rm_preflight_frame self with Some _ => _ | None => _ end) eqn:Epf; [apply wp_refuse, H1|].
  assert (Hpar : d_parameters (rm_dispatcher self) = P) by apply Ha. rewrite Hpar.
  destruct (received_manifest_matches p P id ex m) eqn:Hmt; cbn [negb]; [|apply wp_refuse, H1].
  eapply wp_goes_bind; [eapply step_after; [exact H1|apply rights_moves]|]. intros rights self2 [H2 _].
  wp_step. wp_step. cbn [bound].
  assert (H3 : after l0 ((if pl_announces p then [Received (frame_bytes m CAPABILITY_MAGIC)] else []) ++
                 [ReceivedCapabilities (frame_bytes m CAPABILITY_MAGIC)]) (rm_take_expected self2)).
  { destruct H2 as ((A1 & A2 & A3 & A4 & A5) & A6 & A7). split; [split_and!; done|]. split; [done|].
    change (log_of (rm_dispatcher (rm_take_expected self2))) with (log_of (rm_dispatcher self2)). rewrite A7.
    destruct (pl_announces p), carried as [l|]; try done; exfalso; naive_solver. }
  eapply wp_goes_bind; [eapply step_after; [exact H3|apply import_moves]|]. intros x self3 [H4 _]. rewrite app_nil_r in H4.
  eapply wp_goes_bind; [apply import_barrier; [exact Hw|exact H4]|]. intros u4 self4 H5. cbn beta in H5.
  eapply wp_goes_bind; [eapply step_after; [exact H5|apply final_moves]|]. intros y self5 [H6 _]. rewrite app_nil_r in H6.
  wp_step. exists m. split_and!; [exact Hok|exact Hw|exact Hmt| | |reflexivity|exists y; reflexivity].
  - intros pf Hpf. rewrite Hpf in Epf. bsplit. exact Epf.
  - destruct H6 as ((A1 & A2 & A3 & A4 & A5) & A6 & A7). split; [split_and!; done|]. split; [done|].
    change (log_of (rm_dispatcher (rm_set_imported y (frame_of m) self5))) with (log_of (rm_dispatcher self5)). rewrite A7.
    unfold import_script. now rewrite <- !app_assoc.
Qed.

Lemma receiver_drop_dead self : rm_dead self -> held_by P SessionDead held (receiver_drop self).
Proof.
  intros [Hd Hr]. unfold receiver_drop, receiver_poison. rewrite Hr.
  destruct (rm_already_poisoned self); apply hb_release; [exact Hd|eapply hb_poison, Hd].
Qed.

Lemma receiver_commit_spec m self l0 es :
  manifest_widths m -> after l0 es self -> rm_frame self = Some (frame_of m) -> (exists x, rm_imported self = Some x) ->
  match receiver_commit (M := M) self with
  | (Ok committed, d') => log_of d' = l0 ++ es ++ ready_script m /\ held_by P (SessionOpen s r id) ch d' /\
      cmb_reservations committed = rs
  | (Err _, d') => held_by P SessionDead held d'
  | (Panic, _) => False
  end.
Proof.
  intros Hw Haf Hf [x Hx].
  assert (H : wp (receiver_commit_steps (M := M)) (goes (fun _ self' => exists d', rm_dispatcher self' = d' /\
            log_of d' = l0 ++ es ++ ready_script m /\ held_by P (SessionOpen s r id) ch d' /\ rm_already_poisoned self' = true /\
            rm_reservations self' = rs)) self).
  { unfold receiver_commit_steps. pose proof Haf as ((_ & _ & _ & Hd & _) & Hat & _).
    wp_step. wp_step. cbn [bound]. rewrite Hx, Hf, Hat, Hd. cbn [negb]. rewrite !(completion_phase m Hw).
    wp_step. wp_step. cbn [bound].
    eapply wp_goes_bind; [eapply step_after; [exact Haf|apply send_moves]|]. intros _ self1 [H1 _].
    wp_step. wp_step. cbn [bound].
    eapply wp_goes_bind; [eapply step_after; [exact H1|apply receive_moves]|]. intros w self2 [H2 _].
    unfold frame_matches. destruct (bool_decide (w = frame_bytes m COMMIT_MAGIC)) eqn:E; cbn [negb]; [|apply wp_refuse, H2].
    bsplit. subst w. destruct H2 as ((A1 & A2 & A3 & _) & _ & A7). wp_step. unfold wp at 1, guarded, smap_err.
    destruct (end_transaction_open _ _ _ _ _ _ A1) as (d2 & -> & Ht & Hd2). cbn [map_err bound]. wp_steps.
    exists d2. split_and!; try done. unfold log_of. rewrite Ht. unfold log_of in A7. rewrite A7, <- !app_assoc. done. }
  unfold receiver_commit. unfold wp in H. destruct (receiver_commit_steps self) as [[y|e|] self']; [| |done].
  - destruct H as (d' & Hd' & Hl & Hh & Hp & Hr). unfold receiver_poison. rewrite Hp, Hd'. done.
  - now apply receiver_drop_dead.
Qed.

End Import.

(** ** Whole receptions *)

Lemma activate_receiver_spec a rs held committed d :
  held_by P a (rs ++ held) d -> cmb_reservations committed = rs ->
  wp (activate_receiver (Right := Right) p committed) (activated_or_dead P held a rs d) d.
Proof.
  intros Hd Hr. unfold activate_receiver. rewrite Hr. wp_steps; [now apply wp_activation_refused|].
  apply page_activation_spec; [apply pl_page_returns|exact Hd|]. intros t. apply ib_specs_return.
Qed.

(** A manifest that is the one this session awaits under this number. *)
Definition awaits (expected : ExpectedBatch) (deadline id : Z) (ex : Expectation) (m : TransferManifest) : Prop :=
  (exists t1 t2, pl_expect p expected (ap_limits P) deadline t1 = (Ok ex, t2)) /\
  manifest_ok m /\ manifest_widths m /\ received_manifest_matches p P id ex m = true.

Definition received (a : Session) (held : list Z) (expected : ExpectedBatch) (deadline : Z) (set : ActiveRegionSet) d'
  (es : list Event) : Prop :=
  exists s r t ex offered m specs owners, a = SessionOpen s r t /\
    awaits expected deadline (t + 1) ex offered /\ awaits expected deadline (t + 1) ex m /\
    (pl_compares_preflight p = true -> offered = m) /\
    es = receiver_script offered m (pl_announces p) (pl_always_seals p || requires_imported_sealed ex) /\
    held_by P (SessionOpen s r (t + 1)) (map me_mapped_len (tm_entries m) ++ held) d' /\
    activates specs owners (map me_mapped_len (tm_entries m)) set.

Definition not_received (a : Session) (held : list Z) (f : ReadyFailure) d' : Prop :=
  exists a', held_by P a' held d' /\ (rf_transaction_open_on_failure f = true -> a' = SessionDead) /\
    (a' = a \/ a' = SessionDead \/ exists s r t, a = SessionOpen s r t /\ a' = SessionOpen s r (t + 1)).

Definition receive_outcome a held expected deadline d (res : res ReadyFailure ActiveRegionSet) d' : Prop :=
  match res with
  | Ok set => exists es, log_of d' = log_of d ++ es /\ received a held expected deadline set d' es
  | Err f => not_received a held f d'
  | Panic => False
  end.

Lemma matches_lengths id ex m :
  received_manifest_matches p P id ex m = true -> reservation_lengths ex = map me_mapped_len (tm_entries m).
Proof. unfold received_manifest_matches. rewrite !andb_true_iff. intros [_ H]. now apply pl_matches_lengths. Qed.

Lemma frame_bytes_inj m m' magic magic' :
  manifest_ok m -> manifest_widths m -> manifest_ok m' -> manifest_widths m' -> len magic = 8 -> len magic' = 8 ->
  frame_bytes m magic = frame_bytes m' magic' -> m = m' /\ magic = magic'.
Proof.
  intros Hok Hw Hok' Hw' Hl Hl' Heq. assert (magic = magic') as <-.
  { destruct (decide (magic = magic')) as [|Hne]; [done|]. exfalso.
    pose proof (decode_wrong_magic m magic magic' Hw Hl Hl' Hne) as Hd. rewrite Heq, decode_frame_bytes in Hd by done. done. }
  split; [|done]. pose proof (decode_frame_bytes m magic Hok Hw Hl) as Hd. rewrite Heq, decode_frame_bytes in Hd by done.
  congruence.
Qed.

(** The transaction, once both sides have capacity. *)
Lemma receive_prepared_spec s r t ex offered deadline held d0 d expected :
  held_by P (SessionBusy s r (t + 1)) (reservation_lengths ex ++ held) d -> ex_deadline ex = deadline ->
  awaits expected deadline (t + 1) ex offered -> log_of d = log_of d0 ++ answer_script offered ->
  wp (fun _ => match receiver_prepare (Rcv := Rcv) into_handles p
          {| rm_dispatcher := d; rm_expected := Some ex; rm_imported := None; rm_frame := None;
             rm_preflight_frame := if pl_compares_preflight p then Some (frame_of offered) else None;
             rm_reservations := reservation_lengths ex; rm_deadline := deadline; rm_transaction_id := t + 1;
             rm_attempted := false; rm_already_poisoned := false |} with
      | (Panic, transaction) => (Panic, receiver_drop transaction)
      | (Err e, transaction) => (Err (after_transaction (pl_map_receiver p e)), receiver_drop transaction)
      | (Ok _, transaction) =>
          match receiver_commit transaction with
          | (Panic, self) => (Panic, self)
          | (Err e, self) => (Err (after_transaction (pl_map_receiver p e)), self)
          | (Ok committed, self) =>
              smap_err (fun e => after_transaction (pl_map_activation p e)) (activate_receiver (Right := Right) p committed) self
          end
      end) (receive_outcome (SessionOpen s r t) held expected deadline d0) d.
Proof.
  intros Hd Hdl Haw Hl. unfold wp. set (self := {| rm_dispatcher := d |}).
  pose proof (prepare_spec s r (t + 1) deadline (reservation_lengths ex) held ex self ltac:(done) eq_refl eq_refl Hdl) as H.
  unfold wp in H. destruct (receiver_prepare into_handles p self) as [[u|e|] self1]; cbn [goes] in H; [| |done].
  2:{ exists SessionDead. split; [eapply receiver_drop_dead, H|]. auto. }
  destruct H as (m & Hok & Hw & Hmt & Hpf & Haf & Hfr & Him).
  pose proof (receiver_commit_spec s r (t + 1) deadline (reservation_lengths ex) held m self1 _ _ Hw Haf Hfr Him) as Hc.
  destruct (receiver_commit self1) as [[committed|e|] d1]; [| |done].
  2:{ exists SessionDead. auto. }
  destruct Hc as (Hl1 & Hh1 & Hr1).
  pose proof (activate_receiver_spec _ _ _ committed d1 Hh1 Hr1) as Hact. unfold wp, smap_err in *.
  destruct (activate_receiver p committed d1) as [[set|e|] d2]; cbn [map_err]; destruct Hact as [Hl2 Hact]; [| |done].
  2:{ exists SessionDead. auto. }
  destruct Hact as [Hh2 (specs & owners & Ha)]. cbn [rm_dispatcher self] in Hl1. rewrite (matches_lengths _ _ _ Hmt) in *.
  eexists. split; [rewrite Hl2, Hl1, Hl, <- app_assoc; reflexivity|].
  destruct Haw as (Hex & Hok' & Hw' & Hmt').
  exists s, r, t, ex, offered, m, specs, owners. split_and!; try done.
  intros Hpre. cbn [rm_preflight_frame self] in Hpf. rewrite Hpre in Hpf. specialize (Hpf _ eq_refl). cbn [cf_bytes frame_of] in Hpf.
  now apply frame_bytes_inj in Hpf.
Qed.

Lemma receive_spec a held expected deadline d :
  held_by P a held d -> expected_wf expected ->
  wp (receive_batch (I := I) (Rcv := Rcv) into_handles p expected deadline) (receive_outcome a held expected deadline d) d.
Proof.
  intros Hd Hwf. unfold receive_batch. wp_step.
  assert (Hgo : forall d1, log_of d1 = log_of d -> held_by P a held d1 ->
    wp (fun self => match begin_expected (I := I) p expected deadline self with
          | Panic => (Panic, self)
          | Err ((e, open), self) =>
              (Err {| rf_error := pl_map_receiver_begin p e; rf_transaction_open_on_failure := open |}, self)
          | Ok transaction =>
              match receiver_prepare (Rcv := Rcv) into_handles p transaction with
              | (Panic, transaction) => (Panic, receiver_drop transaction)
              | (Err e, transaction) => (Err (after_transaction (pl_map_receiver p e)), receiver_drop transaction)
              | (Ok _, transaction) =>
                  match receiver_commit transaction with
                  | (Panic, self) => (Panic, self)
                  | (Err e, self) => (Err (after_transaction (pl_map_receiver p e)), self)
                  | (Ok committed, self) =>
                      smap_err (fun e => after_transaction (pl_map_activation p e)) (activate_receiver (Right := Right) p committed) self
                  end
              end
          end) (receive_outcome a held expected deadline d) d1).
  { intros d1 Hl1 Hd1. unfold wp, begin_expected, sbind.
    pose proof (open_expected_spec a held expected deadline d1 Hd1 Hwf) as Ho. unfold wp in Ho.
    destruct (open_expected p expected deadline d1) as [[[ex id]|[e open]|] d2]; [| |done].
    2:{ destruct Ho as (-> & a' & Hh & Ha'). exists a'. split; [done|]. split; [done|]. tauto. }
    destruct Ho as (s & r & t & -> & -> & Hl2 & Hh2 & Hn & Hdl & Hex). cbn [fst snd].
    pose proof (exchange_expected_spec s r (t + 1) held ex Hn deadline d2 Hh2) as He. unfold wp in He.
    destruct (exchange_expected p ex (t + 1) deadline d2) as [[[frame rs]|[e open]|] d3]; [| |done].
    - cbn [exchanged] in He. destruct He as (m & -> & Hok & Hw & Hmt & -> & Hh3 & Hl3).
      apply (receive_prepared_spec s r t ex m deadline held d d3 expected Hh3 Hdl); [done|]. rewrite Hl3, Hl2, Hl1. done.
    - destruct He as (a' & Hh & Ho & Ha'). exists a'. split; [done|]. split; [done|].
      destruct Ha' as [->| ->]; [auto|]. right. right. eauto. }
  destruct (pl_receive_checks_deadline p).
  - wp_step. apply wp_is_expired. intros b t Ht. cbn [bound]. destruct b.
    + wp_step. cbn [bound receive_outcome]. exists a. split; [now apply hb_transport|]. split; [done|now left].
    + wp_step. cbn [bound]. apply Hgo; [exact Ht|now apply hb_transport].
  - wp_step. cbn [bound]. now apply Hgo.
Qed.

End Receiver.
