(* ===== verification/TransferTheory.v ===== *)
(** * TransferTheory: transfers are atomic and the two sides agree

    What [CoordinatorTheory.v] and [ReceiverTheory.v] prove of each side, stated
    of the public [transfer_batch] and [receive_batch], and the agreement of the
    two sides over a channel that only delivers what was sent. *)

From stdpp Require Import gmap.
From S2P Require Import Prelude Bytes Tools Limits Manifest ManifestTheory Control Liveness Native Resources Region Active Batch Dispatcher DispatcherTheory Expected Transfer Platforms ActivationTheory CoordinatorTheory ReceiverTheory.

(** ** Scripts, seen by the peer *)

(** In a script that ends with [c] and has it nowhere else, only the whole
    script reaches [c]. *)
Lemma stopped_last init c es :
  (c ∉ init) -> (forall w, c <> Received w) -> stopped (init ++ [c]) es -> c ∈ es -> init ++ [c] `prefix_of` es.
Proof.
  intros Hni Hc (a & b & Hab & Hes) Hin.
  assert (Ha : c ∈ a).
  { destruct Hes as [->|[w ->]]; [done|]. apply elem_of_app in Hin as [|Hin]; [done|].
    apply list_elem_of_singleton in Hin. now apply Hc in Hin. }
  destruct b as [|y b] using rev_ind.
  - rewrite app_nil_r in Hab. rewrite Hab. destruct Hes as [->|[w ->]]; [done|]. apply prefix_app_r. done.
  - rewrite app_assoc in Hab. apply app_inj_tail in Hab as [-> _]. exfalso. apply Hni. apply elem_of_app. now left.
Qed.

(** The records a coordinator sends in a transfer of [m]. *)
Lemma script_records {T M} (p : Platform (Traced T) M) m status requires w :
  Sent w ∈ transfer_script p m status requires ->
  exists magic, magic ∈ phase_magics /\ w = frame_bytes m magic.
Proof.
  unfold transfer_script, capacity_script, coordinator_script, preparation_script, completion_script.
  assert (Hin : forall magic, bool_decide (magic ∈ phase_magics) = true -> magic ∈ phase_magics)
    by (intros magic H; now apply bool_decide_eq_true in H).
  destruct status; cbn [coordinator_capacity_magic]; rewrite ?elem_of_app, ?elem_of_cons;
    destruct (pl_announces p), requires; rewrite ?elem_of_app, ?elem_of_cons, ?elem_of_nil; intros H;
    repeat (destruct H as [H|H]); try discriminate; try tauto; injection H as ->;
    eexists; (split; [|reflexivity]); apply Hin; vm_compute; reflexivity.
Qed.

(** COMMIT is the last thing sent, and sent once. *)
Lemma commit_last {T M} (p : Platform (Traced T) M) m requires :
  manifest_ok m -> manifest_widths m ->
  exists init, transfer_script p m CapacityReady requires = init ++ [Sent (frame_bytes m COMMIT_MAGIC)] /\
    (Sent (frame_bytes m COMMIT_MAGIC) ∉ init).
Proof.
  intros Hok Hw. exists (capacity_script m CapacityReady true ++ preparation_script m (pl_announces p) requires ++
                         [Received (frame_bytes m READY_MAGIC)]).
  split; [cbn [transfer_script]; unfold coordinator_script, completion_script; now rewrite <- !app_assoc|].
  unfold capacity_script, preparation_script. cbn [coordinator_capacity_magic].
  assert (Hne : forall magic, len magic = 8 -> bool_decide (magic = COMMIT_MAGIC) = false ->
            Sent (frame_bytes m COMMIT_MAGIC) <> Sent (frame_bytes m magic)).
  { intros magic Hl Hn [= He]. apply bool_decide_eq_false in Hn.
    apply frame_bytes_inj in He as [_ <-]; done. }
  destruct (pl_announces p), requires; rewrite ?elem_of_app, ?elem_of_cons, ?elem_of_nil; intros H;
    repeat (destruct H as [H|H]); try discriminate; try tauto; now apply Hne in H.
Qed.

#[local] Instance Sent_inj : Inj (=) (=) Sent.
Proof. now intros a b [= ->]. Qed.

Lemma sent_stopped script es w : stopped script es -> Sent w ∈ es -> Sent w ∈ script.
Proof.
  intros (a & b & -> & Hes) Hin. apply elem_of_app. left. destruct Hes as [->|[x ->]]; [done|].
  apply elem_of_app in Hin as [|Hin]; [done|]. now apply list_elem_of_singleton in Hin.
Qed.

(** Whatever the outcome, a coordinator that sent anything followed the script of
    one manifest; if it reports an error and its session survives, it sent at
    most its refusal or offer. *)
Lemma outcome_follows {T M} (p : Platform (Traced T) M) P a held batch d res d' :
  transfer_outcome p P a held batch d res d' ->
  exists es, log_of d' = log_of d ++ es /\ res <> Panic /\
    ((forall w, Sent w ∉ es) \/
     exists s r t m status requires, a = SessionOpen s r t /\ manifest_for P (t + 1) batch m /\
       stopped (transfer_script p m status requires) es) /\
    (forall f, res = Err f -> abstract d' = SessionDead \/
       forall w, Sent w ∈ es -> exists m status, manifest_ok m /\ manifest_widths m /\
         w = frame_bytes m (coordinator_capacity_magic status)).
Proof.
  intros (es & Hl & H). exists es. split; [done|]. destruct res as [set|f|]; [| |done]; (split; [done|]).
  - split; [|done]. destruct H as (s & r & t & m & requires & specs & owners & -> & Hm & _ & -> & _). right.
    exists s, r, t, m, CapacityReady, requires. auto using stopped_self.
  - destruct H as (a' & [_ _ Hmode _] & _ & H).
    destruct H as [[_ ->]|[(s & r & t & m & status & -> & _ & Hm & ->)|[Hdead [Hs|(s & r & t & m & status & requires & -> & Hm & _ & Hs)]]]].
    + assert (Hno : forall w, Sent w ∉ []) by (intros w Hw; now apply elem_of_nil in Hw).
      split; [now left|]. intros _ _. right. intros w Hw. now apply Hno in Hw.
    + split.
      * right. exists s, r, t, m, status, true. split; [done|]. split; [done|].
        exists [Sent (frame_bytes m (coordinator_capacity_magic status))].
        destruct status; cbn [transfer_script]; (eexists; split; [reflexivity|]); right; eexists; reflexivity.
      * intros _ _. right. intros w Hw. unfold capacity_script in Hw. rewrite !elem_of_cons, elem_of_nil in Hw.
        destruct Hw as [[= ->]|[|]]; [|discriminate|done]. destruct Hm as (_ & _ & ? & ?). eauto.
    + split; [left|intros _ _; left; congruence]. intros w Hw. destruct (Hs []) as (x & y & Hxy & He). symmetry in Hxy.
      apply app_eq_nil in Hxy as [-> _]. destruct He as [->|[v ->]]; [now apply elem_of_nil in Hw|].
      now apply list_elem_of_singleton in Hw.
    + split; [right|intros _ _; left; congruence]. exists s, r, t, m, status, requires. auto.
Qed.

(** ** The theorems *)

Section Coordinators.
Context {T B Cap M : Type} {R : AuthenticatedZeroRightsTransport T} {C : Clock T}
        {CC : CoordinatorCapabilityTransport T Cap} {NB : NativeBatch T B Cap M} {NL : NativeBatchLaws NB}
        {RH : RemoteHandles T} (p : Platform (Traced T) M) {PL : PlatformLaws p}.

(** C2: A transfer is atomic. On every platform, whatever the peer, the clock, the
    transport and the native memory do, a call of [transfer_batch] on a session
    in any mode returns, and leaves the session's invariant. If it reports
    success, it has exchanged exactly the records of the protocol, in order, for
    the canonical manifest of the batch under the next transaction number; the
    session is open again; there is one active region per entry; and the ledger
    holds, beside what it held, exactly the mapped lengths the manifest announces.
    If it reports a failure, the ledger holds exactly what it held before, and the
    session is as it was with nothing exchanged, or open after a capacity exchange
    that ended in a refusal, or dead, having exchanged a prefix of the protocol;
    a failure that says the transaction was left open leaves a dead session. *)
Theorem transfer_atomic P a held batch deadline (d : Dispatcher (Traced T)) :
  held_by P a held d -> batch_ok batch ->
  let '(res, d') := transfer_batch (B := B) (Cap := Cap) p batch deadline d in
  transfer_outcome p P a held batch d res d'.
Proof. intros Hd Hb. exact (transfer_spec p P a held batch deadline d pl_page_returns Hd Hb). Qed.

End Coordinators.

Section Receivers.
Context {T I Right Rcv M : Type} {R : AuthenticatedZeroRightsTransport T} {C : Clock T}
        {CT : CandidateCapabilityTransport T Right} {RC : ReceiverCapabilityTransport T Rcv}
        {IB : ImportedBatch T I Right M} {IL : ImportedBatchLaws IB} (into_handles : Rcv -> list Right)
        (p : Platform (Traced T) M) {PL : PlatformLaws p}.

(** C4: A reception is atomic. On every platform, whatever the peer, the clock, the
    transport and the native memory do, a call of [receive_batch] on a session in
    any mode returns and leaves the session's invariant. If it reports success, it
    has exchanged exactly the records of the protocol, in order; the offered
    manifest and the one whose capabilities were imported both name this session,
    its identities and the next transaction number, fit its limits and match the
    expectation the caller gave (and are the same where the platform compares
    them); the session is open again and the ledger holds exactly the announced
    lengths beside what it held. If it fails, the ledger holds exactly what it held
    before, and the session is as it was, open after a refusal, or dead. *)
Theorem receive_atomic P a held expected deadline (d : Dispatcher (Traced T)) :
  held_by P a held d -> expected_wf expected ->
  let '(res, d') := receive_batch (I := I) (Rcv := Rcv) into_handles p expected deadline d in
  receive_outcome p P a held expected deadline d res d'.
Proof. intros Hd He. exact (receive_spec into_handles p P a held expected deadline d Hd He). Qed.

End Receivers.

Section Agreement.
Context {T1 B Cap M1 : Type} {R1 : AuthenticatedZeroRightsTransport T1} {C1 : Clock T1}
        {CC : CoordinatorCapabilityTransport T1 Cap} {NB : NativeBatch T1 B Cap M1} {NL : NativeBatchLaws NB}
        {RH : RemoteHandles T1} (p1 : Platform (Traced T1) M1) {PL1 : PlatformLaws p1}.
Context {T2 I Right Rcv M2 : Type} {R2 : AuthenticatedZeroRightsTransport T2} {C2 : Clock T2}
        {CT : CandidateCapabilityTransport T2 Right} {RC : ReceiverCapabilityTransport T2 Rcv}
        {IB : ImportedBatch T2 I Right M2} {IL : ImportedBatchLaws IB} (into_handles : Rcv -> list Right)
        (p2 : Platform (Traced T2) M2) {PL2 : PlatformLaws p2}.

(** C3: The two sides agree. Take a coordinator and a receiver of one session, at
    whatever transaction numbers, and let one call of [transfer_batch] and one of
    [receive_batch] run over a channel that delivers to the receiver only records
    the coordinator sent in that call. If the receiver reports success, then both
    were at the same transaction number; the manifest the receiver imported is the
    canonical manifest of the coordinator's batch and also the one of the capacity
    offer; the coordinator had received READY and sent COMMIT for it; and the
    coordinator reports success too, or its session is dead. *)
Theorem transfer_agreement P s1 r1 t1 s2 r2 t2 held1 held2 batch expected deadline1 deadline2
  (d1 d1' : Dispatcher (Traced T1)) (d2 d2' : Dispatcher (Traced T2)) es1 es2 res set :
  held_by P (SessionOpen s1 r1 t1) held1 d1 -> held_by P (SessionOpen s2 r2 t2) held2 d2 ->
  batch_ok batch -> expected_wf expected ->
  transfer_batch (B := B) (Cap := Cap) p1 batch deadline1 d1 = (res, d1') -> log_of d1' = log_of d1 ++ es1 ->
  receive_batch (I := I) (Rcv := Rcv) into_handles p2 expected deadline2 d2 = (Ok set, d2') -> log_of d2' = log_of d2 ++ es2 ->
  (forall w, Received w ∈ es2 -> Sent w ∈ es1) ->
  t1 = t2 /\
  exists m requires ex, manifest_for P (t1 + 1) batch m /\ awaits p2 P expected deadline2 (t1 + 1) ex m /\
    transfer_script p1 m CapacityReady requires `prefix_of` es1 /\
    es2 = receiver_script m m (pl_announces p2) (pl_always_seals p2 || requires_imported_sealed ex) /\
    ((exists regions, res = Ok regions) \/ abstract d1' = SessionDead).
Proof.
  intros Hd1 Hd2 Hb He Ht Hl1 Hr Hl2 Hchan.
  pose proof (wp_elim _ _ _ _ _ (transfer_spec p1 P _ held1 batch deadline1 d1 pl_page_returns Hd1 Hb) Ht) as Hout.
  pose proof (wp_elim _ _ _ _ _ (receive_spec into_handles p2 P _ held2 expected deadline2 d2 Hd2 He) Hr) as Hin.
  destruct Hin as (es & Hes & s & r & t & ex & offered & m & specs & owners & [= <- <- <-] & Hof & Hm & _ & -> & _ & _).
  rewrite Hl2 in Hes. apply app_inv_head in Hes. subst es2.
  destruct (outcome_follows _ _ _ _ _ _ _ _ Hout) as (es & Hes & Hnp & Hsent & Hdead).
  rewrite Hl1 in Hes. apply app_inv_head in Hes. subst es.
  pose proof Hm as (_ & Hok & Hw & Hmt). pose proof Hof as (_ & Hok' & Hw' & _).
  assert (Hc : Sent (frame_bytes m COMMIT_MAGIC) ∈ es1).
  { apply Hchan. unfold receiver_script, ready_script. rewrite !elem_of_app, !elem_of_cons. tauto. }
  assert (Hf : Sent (frame_bytes offered COORDINATOR_CAPACITY_READY_MAGIC) ∈ es1).
  { apply Hchan. unfold receiver_script, answer_script. rewrite !elem_of_app, !elem_of_cons. tauto. }
  destruct Hsent as [Hno|(s' & r' & t' & m' & status & requires & [= <- <- <-] & Hmf & Hst)]; [now apply Hno in Hc|].
  pose proof Hmf as (Hnew & _ & Hok1 & Hw1).
  assert (Hsame : forall n magic, manifest_ok n -> manifest_widths n -> len magic = 8 -> Sent (frame_bytes n magic) ∈ es1 -> n = m').
  { intros n magic Hn1 Hn2 Hn3 Hin. apply (sent_stopped _ _ _ Hst), script_records in Hin as (magic' & Hmg & Heq).
    apply frame_bytes_inj in Heq; try done; [tauto|now apply phase_magics_len]. }
  assert (m' = m) as -> by (symmetry; exact (Hsame m COMMIT_MAGIC Hok Hw eq_refl Hc)).
  assert (offered = m) as -> by exact (Hsame offered COORDINATOR_CAPACITY_READY_MAGIC Hok' Hw' eq_refl Hf).
  assert (status = CapacityReady) as ->.
  { destruct status; [done| |]; apply (sent_stopped _ _ _ Hst), list_elem_of_singleton, (inj Sent), frame_bytes_inj in Hc as [_ Hc]; done. }
  destruct (commit_last p1 m requires Hok Hw) as (init & Hscript & Hinit).
  assert (Hid : tm_transfer_id m = t1 + 1 /\ tm_transfer_id m = t2 + 1).
  { apply new_sound in Hnew as (_ & _ & _ & _ & Hid & _). 2:{ rewrite Forall_map. eapply Forall_impl; [exact (bo_regions _ Hb)|]. intros q ?. now apply entry_of_wf. }
    unfold received_manifest_matches in Hmt. rewrite !andb_true_iff, !Z.eqb_eq in Hmt. tauto. }
  assert (t2 = t1) as -> by lia. split; [done|]. exists m, requires, ex. split_and!; try done.
  - rewrite Hscript in *. now apply stopped_last.
  - destruct res as [regions|f|]; [eauto| |done]. right. destruct (Hdead f eq_refl) as [|Hall]; [done|]. exfalso.
    destruct (Hall _ Hc) as (n & status & Hn1 & Hn2 & Heq). apply frame_bytes_inj in Heq as [_ Heq]; try done; now destruct status.
Qed.

End Agreement.

(** * One transfer, both sides, evaluated

    A transport that answers from an inbox, and native memory that always works,
    on which both sides of a two-region transfer run to their end. They show
    that the hypotheses of the theorems of [ActivationTheory.v] and
    [TransferTheory.v] can hold, and what the theorems then say. *)

(** ** A system *)

Record Inbox := { ib_records : list bytes; ib_dead : bool }.

Definition pop : io Inbox bytes := fun t =>
  if ib_dead t then (inr TransportError_Poisoned, t) else
  match ib_records t with
  | [] => (inr TransportError_DeadlineExpired, t)
  | record :: rest => (inl record, {| ib_records := rest; ib_dead := false |})
  end.
Definition push : io Inbox unit := fun t =>
  (if ib_dead t then inr TransportError_Poisoned else inl tt, t).

#[export] Instance InboxZeroRights : AuthenticatedZeroRightsTransport Inbox := {
  send_record := fun _ _ => push;
  receive_record := fun _ _ => pop;
  transport_try_poll_peer := fun t => (if ib_dead t then inr TransportError_Poisoned else inl Running, t);
  transport_poison := fun t => {| ib_records := ib_records t; ib_dead := true |}
}.
#[export] Instance InboxClock : Clock Inbox := { instant_now := fun t => (1, t); instant_max := U64_MAX }.
#[export] Instance InboxCapabilities : CoordinatorCapabilityTransport Inbox unit := fun _ _ _ => push.
#[export] Instance InboxCandidates : CandidateCapabilityTransport Inbox Z := fun _ _ t =>
  match pop t with (inl record, t) => (inl (record, [3; 4]), t) | (inr e, t) => (inr e, t) end.
#[export] Instance InboxReceived : ReceiverCapabilityTransport Inbox (list Z) := fun _ _ t =>
  (if ib_dead t then inr TransportError_Poisoned else inl [3; 4], t).
#[export] Instance InboxRemote : RemoteHandles Inbox := fun t => t.

(** Memory that maps every region at one page address. *)
Record HeapBatch := { hp_deadline : Z; hp_entries : list ManifestEntry; hp_specs : list ActiveRegionSpec }.

Definition heap_owner (spec : ActiveRegionSpec) : ActiveRegionOwner :=
  let owner := {| rdo_as_ptr := 65536; rdo_len := as_mapped_len spec; rdo_page_size := 4096; rdo_guard_installed := false |} in
  match as_authority spec with
  | LocalReader => OwnerReader spec owner
  | LocalWriter => OwnerWriter spec {| wro_read := owner; wro_as_mut_ptr := 65536 |}
  end.
(** [writer] is the raw writer whose entries the local role may write. *)
Definition heap_specs (writer : Z) (entries : list ManifestEntry) : list ActiveRegionSpec :=
  map (fun e => {| as_id := me_region_id e; as_authority := if me_writer e =? writer then LocalWriter else LocalReader;
                   as_logical_len := me_logical_len e; as_mapped_len := me_mapped_len e;
                   as_guard_requested := BestEffort |}) (sort_by id_leb entries).

#[export] Instance HeapNative : NativeBatch Inbox HeapBatch unit MemfdError := {
  nb_prepare := fun batch _ deadline =>
    slift (match TransferBatch_manifest_entries batch with
           | Ok entries => Ok {| hp_deadline := deadline; hp_entries := entries; hp_specs := heap_specs 0 entries |}
           | _ => Err MemfdError_InvalidBatch
           end);
  nb_deadline := hp_deadline;
  nb_manifest_entries := hp_entries;
  nb_reservation_lengths := fun b => map as_mapped_len (hp_specs b);
  nb_capabilities := fun _ => tt;
  nb_requires_imported_sealed := fun b => existsb (fun e => me_writer e =? 1) (hp_entries b);
  nb_revalidate_before_send := fun _ => sret tt;
  nb_seal_after_import := sret tt;
  nb_activation_specs := fun b => sret (hp_specs b);
  nb_into_active_region_owners := fun b => map heap_owner (hp_specs b)
}.
#[export] Instance HeapNativeLaws : NativeBatchLaws HeapNative.
Proof. constructor; try done. intros batch profile deadline t. cbn. now destruct (TransferBatch_manifest_entries batch). Qed.

#[export] Instance HeapImported : ImportedBatch Inbox (list ActiveRegionSpec) Z MemfdError := {
  ib_import := fun _ m _ => sret (heap_specs 1 (tm_entries m));
  ib_verify_final_seals := fun _ => sret tt;
  ib_activation_specs := fun specs _ => sret specs;
  ib_into_active_region_owners := map heap_owner
}.
#[export] Instance HeapImportedLaws : ImportedBatchLaws HeapImported.
Proof. now constructor. Qed.

(** ** A session at its first transaction *)

Definition fresh_session (records : list bytes) : Dispatcher (Traced Inbox) :=
  match Dispatcher_new (quiet {| ib_records := records; ib_dead := false |}) sample_parameters with
  | Some d => d
  | None => Build_Dispatcher _ (quiet {| ib_records := records; ib_dead := false |}) sample_control 0 sample_parameters 0 fresh_shared
  end.

Lemma fresh_held records : held_by sample_parameters (SessionOpen 0 0 0) [] (fresh_session records).
Proof.
  assert (Hd : Dispatcher_new (quiet {| ib_records := records; ib_dead := false |}) sample_parameters = Some (fresh_session records))
    by reflexivity.
  destruct (new_ok _ _ _ sample_parameters_wf Hd) as (Hok & Ha & Hp & _). constructor; try done.
  constructor; vm_compute; auto; try (split; reflexivity); congruence.
Qed.

Definition example_batch : TransferBatch :=
  add_all [prepared_of 9 x01 4096 60 CoordinatorWrites; prepared_of 4 x02 8192 4097 ReceiverWrites] sample_batch.

Lemma example_batch_ok : batch_ok example_batch.
Proof.
  apply add_all_ok.
  - constructor; cbn; try done; try constructor; change (len (A := PreparedRegion) []) with 0; try lia; ulia.
  - repeat constructor; try (eexists; constructor; [reflexivity|..]; try done; vm_compute; split; congruence).
    all: vm_compute; congruence.
Qed.

Lemma example_expected_wf : expected_wf sample_expected.
Proof. repeat constructor; vm_compute; congruence. Qed.

(** The peer's records, for the manifest both sides build. *)
Definition answers : list bytes :=
  [frame_bytes page_manifest RECEIVER_CAPACITY_READY_MAGIC; frame_bytes page_manifest IMPORTED_MAGIC;
   frame_bytes page_manifest READY_MAGIC].
Definition commands : list bytes :=
  [frame_bytes page_manifest COORDINATOR_CAPACITY_READY_MAGIC; frame_bytes page_manifest CAPABILITY_MAGIC;
   frame_bytes page_manifest SEALED_MAGIC; frame_bytes page_manifest COMMIT_MAGIC].

Abbreviation coordinator_run := (transfer_batch (Cap := unit) (B := HeapBatch) (linux (T := Traced Inbox)) example_batch 9 (fresh_session answers)).
Abbreviation receiver_run := (receive_batch (I := list ActiveRegionSpec) (fun x : list Z => x) (linux (T := Traced Inbox)) sample_expected 9 (fresh_session commands)).

Definition regions_of {E} (r : res E ActiveRegionSet) : option (list (Z * LocalRegionAuthority)) :=
  match r with Ok set => Some (map (fun e => (fst e, authority_of (snd e))) (map_to_list set)) | _ => None end.

(** ** Witnesses *)

(** One reservation, one region, nothing else held. *)
Definition charged_session : Dispatcher (Traced Inbox) :=
  with_resources (charge 4096 (d_resources (fresh_session []))) (fresh_session []).
Lemma charged_held : held_by sample_parameters (SessionOpen 0 0 0) ([4096] ++ []) charged_session.
Proof.
  eapply hb_resources; [apply fresh_held|]. apply (charge_balanced _ []); [apply (hb_ledger _ _ _ _ (fresh_held []))|].
  vm_compute. split_and!; congruence.
Qed.

Lemma activation_all_or_nothing_witness :
  let spec := {| as_id := 9; as_authority := LocalReader; as_logical_len := 60; as_mapped_len := 4096;
                 as_guard_requested := BestEffort |} in
  (exists set d', activate_regions (linux (T := Traced Inbox)) [spec] [4096] [heap_owner spec] charged_session = (Ok set, d') /\
     activates [spec] [heap_owner spec] [4096] set) /\
  (exists e d', activate_regions (linux (T := Traced Inbox)) [spec] [4096] [] charged_session = (Err e, d') /\
     held_by sample_parameters SessionDead [] d').
Proof.
  intros spec. split.
  - pose proof (activation_all_or_nothing (linux (T := Traced Inbox)) sample_parameters (SessionOpen 0 0 0) [] [spec] [4096]
                  [heap_owner spec] charged_session charged_held) as H.
    assert (Hr : regions_of (fst (activate_regions (linux (T := Traced Inbox)) [spec] [4096] [heap_owner spec] charged_session))
                 = Some [(9, LocalReader)]) by (vm_compute; reflexivity).
    destruct (activate_regions _ _ _ _ _) as [[set|e|] d']; [|discriminate Hr|discriminate Hr].
    exists set, d'. split; [reflexivity|apply H].
  - pose proof (activation_all_or_nothing (linux (T := Traced Inbox)) sample_parameters (SessionOpen 0 0 0) [] [spec] [4096]
                  [] charged_session charged_held) as H.
    assert (Hr : regions_of (fst (activate_regions (linux (T := Traced Inbox)) [spec] [4096] [] charged_session)) = None)
      by (vm_compute; reflexivity).
    destruct (activate_regions _ _ _ _ _) as [[set|e|] d']; [discriminate Hr| |destruct H].
    exists e, d'. split; [reflexivity|apply H].
Defined.

Lemma coordinator_regions : regions_of (fst coordinator_run) = Some [(9, LocalWriter); (4, LocalReader)].
Proof. vm_compute. reflexivity. Qed.
Lemma receiver_regions : regions_of (fst receiver_run) = Some [(9, LocalReader); (4, LocalWriter)].
Proof. vm_compute. reflexivity. Qed.

Lemma transfer_atomic_witness :
  exists set d' m, coordinator_run = (Ok set, d') /\ regions_of (Ok (E := unit) set) = Some [(9, LocalWriter); (4, LocalReader)] /\
    held_by sample_parameters (SessionOpen 0 0 1) (map me_mapped_len (tm_entries m) ++ []) d'.
Proof.
  pose proof (transfer_atomic (B := HeapBatch) (Cap := unit) (linux (T := Traced Inbox)) sample_parameters (SessionOpen 0 0 0) []
                example_batch 9 (fresh_session answers) (fresh_held answers) example_batch_ok) as H.
  pose proof coordinator_regions as Hr. destruct coordinator_run as [[set|e|] d']; [|discriminate Hr|discriminate Hr].
  destruct H as (es & _ & s & r & t & m & requires & specs & owners & [= <- <- <-] & _ & _ & _ & Hh & _).
  exists set, d', m. split; [reflexivity|]. split; [exact Hr|exact Hh].
Defined.

Lemma receive_atomic_witness :
  (exists set d' m, receiver_run = (Ok set, d') /\ regions_of (Ok (E := unit) set) = Some [(9, LocalReader); (4, LocalWriter)] /\
     held_by sample_parameters (SessionOpen 0 0 1) (map me_mapped_len (tm_entries m) ++ []) d').
Proof.
  pose proof (receive_atomic (fun x : list Z => x) (I := list ActiveRegionSpec) (linux (T := Traced Inbox)) sample_parameters
                (SessionOpen 0 0 0) [] sample_expected 9 (fresh_session commands) (fresh_held commands) example_expected_wf) as H.
  pose proof receiver_regions as Hr. destruct receiver_run as [[set|e|] d']; [|discriminate Hr|discriminate Hr].
  destruct H as (es & _ & s & r & t & ex & offered & m & specs & owners & [= <- <- <-] & _ & _ & _ & _ & Hh & _).
  exists set, d', m. split; [reflexivity|]. split; [exact Hr|exact Hh].
Defined.

(** What the two runs exchange. *)
Definition coordinator_events : list Event := Eval vm_compute in log_of (snd coordinator_run).
Definition receiver_events : list Event := Eval vm_compute in log_of (snd receiver_run).
Lemma events_delivered w : Received w ∈ receiver_events -> Sent w ∈ coordinator_events.
Proof.
  intros H. assert (Hin : w ∈ omap record_received receiver_events) by (apply list_elem_of_omap; eauto).
  assert (Hsub : bool_decide (omap record_received receiver_events ⊆ omap record_sent coordinator_events) = true) by (vm_compute; reflexivity).
  apply bool_decide_eq_true in Hsub. apply Hsub, list_elem_of_omap in Hin as (e & He & Hw). destruct e; try discriminate.
  now injection Hw as ->.
Qed.

Lemma transfer_agreement_witness :
  exists m requires, transfer_script (linux (T := Traced Inbox)) m CapacityReady requires `prefix_of` coordinator_events.
Proof.
  destruct coordinator_run as [res d1'] eqn:H1, receiver_run as [[set|e|] d2'] eqn:H2;
    [|apply (f_equal (fun r => regions_of (fst r))) in H2; vm_compute in H2; discriminate H2..].
  destruct (transfer_agreement (B := HeapBatch) (Cap := unit) (I := list ActiveRegionSpec) (linux (T := Traced Inbox)) (fun x : list Z => x)
              (linux (T := Traced Inbox)) sample_parameters 0 0 0 0 0 0 [] []
              example_batch sample_expected 9 9 (fresh_session answers) d1' (fresh_session commands) d2'
              coordinator_events receiver_events res set) as (_ & m & requires & ex & _ & _ & Hp & _).
  - apply fresh_held.
  - apply fresh_held.
  - apply example_batch_ok.
  - apply example_expected_wf.
  - exact H1.
  - apply (f_equal snd) in H1. cbn [snd] in H1. rewrite <- H1. vm_compute. reflexivity.
  - exact H2.
  - apply (f_equal snd) in H2. cbn [snd] in H2. rewrite <- H2. vm_compute. reflexivity.
  - apply events_delivered.
  - exists m, requires. exact Hp.
Defined.
