(* ===== verification/Handshake.v ===== *)
(** * Handshake: from a spawned child to an accepted session

    The negotiating sessions of the three backends
    ([linux_vnext/spawn.rs], [macos_vnext/session.rs],
    [windows_vnext/session.rs]): the command and the options they are given
    ([session.rs]), the HELLO offer and its validation, the exchange of HELLOs,
    the challenged decisions of both roles, and the identity evidence from which
    the owner of the accepted session is made.

    The backends run one protocol and differ in their errors, their bounds and
    what they check natively; a [Handshake] lists the differences, an [Owner]
    adds what only the coordinator has, the child. Sockets, Mach ports, pipes,
    process creation, entropy and image hashes are behind the classes
    [LinuxNative], [MacNative] and [WindowsNative]; [T] stands for the endpoint
    and the system it runs on. *)

From S2P Require Import Prelude Limits Manifest Negotiation Control Native Dispatcher Expected Transfer.

(** ** Commands and options ([session.rs]) *)

(** An [OsString] is its bytes. *)
Definition OsString : Type := bytes.

Record SessionCommand := {
  sc_executable : OsString;
  sc_arguments : list OsString;
  sc_environment : list (OsString * OsString)
}.

Definition SessionCommand_new (executable : OsString) : SessionCommand :=
  {| sc_executable := executable; sc_arguments := [executable]; sc_environment := [] |}.

(** [self.arguments[0] = ..]: a command always has argument zero. *)
Definition arg0 (argument : OsString) (self : SessionCommand) : res unit SessionCommand :=
  match sc_arguments self with
  | [] => Panic
  | _ :: rest => Ok {| sc_executable := sc_executable self; sc_arguments := argument :: rest;
                       sc_environment := sc_environment self |}
  end.

Definition arg (argument : OsString) (self : SessionCommand) : SessionCommand :=
  {| sc_executable := sc_executable self; sc_arguments := sc_arguments self ++ [argument];
     sc_environment := sc_environment self |}.

(** [find] and replace the first entry of the key, or push. *)
Fixpoint env_set (key value : OsString) (environment : list (OsString * OsString))
  : list (OsString * OsString) :=
  match environment with
  | [] => [(key, value)]
  | (existing, v) :: rest =>
      if bool_decide (existing = key) then (existing, value) :: rest
      else (existing, v) :: env_set key value rest
  end.
Definition env (key value : OsString) (self : SessionCommand) : SessionCommand :=
  {| sc_executable := sc_executable self; sc_arguments := sc_arguments self;
     sc_environment := env_set key value (sc_environment self) |}.

(** [NATIVE_IPC_], [VNEXT_] and what follows. *)
Definition NATIVE_IPC : bytes := [x4e; x41; x54; x49; x56; x45; x5f; x49; x50; x43; x5f].
Definition VNEXT : bytes := NATIVE_IPC ++ [x56; x4e; x45; x58; x54; x5f].
Definition BOOTSTRAP_FD_ENV : bytes :=
  VNEXT ++ [x42; x4f; x4f; x54; x53; x54; x52; x41; x50; x5f; x46; x44].
Definition PUBLIC_BOOTSTRAP_ENV : bytes :=
  VNEXT ++ [x50; x55; x42; x4c; x49; x43; x5f; x42; x4f; x4f; x54; x53; x54; x52; x41; x50].
Definition MACH_NONCE_ENV : bytes := NATIVE_IPC ++ [x4d; x41; x43; x48; x5f; x4e; x4f; x4e; x43; x45].
Definition PARENT_PID_ENV : bytes := NATIVE_IPC ++ [x50; x41; x52; x45; x4e; x54; x5f; x50; x49; x44].
Definition WINDOWS_PIPE_ENV : bytes :=
  NATIVE_IPC ++ [x57; x49; x4e; x44; x4f; x57; x53; x5f; x50; x49; x50; x45].
Definition WINDOWS_NONCE_ENV : bytes :=
  NATIVE_IPC ++ [x57; x49; x4e; x44; x4f; x57; x53; x5f; x4e; x4f; x4e; x43; x45].
Definition RESERVED : list bytes :=
  [BOOTSTRAP_FD_ENV; PUBLIC_BOOTSTRAP_ENV; MACH_NONCE_ENV; PARENT_PID_ENV; WINDOWS_PIPE_ENV;
   WINDOWS_NONCE_ENV].

Definition has_reserved_environment (self : SessionCommand) : bool :=
  existsb (fun entry : OsString * OsString =>
             existsb (fun name => bool_decide (fst entry = name)) RESERVED) (sc_environment self).

(** A [Duration] is its nanoseconds. *)
Record ChildProcessLimits := {
  cpl_commit_memory_bytes : option Z;
  cpl_user_cpu_time : option Z;
  cpl_active_processes : option Z;
  cpl_open_descriptors : option Z
}.
Definition ChildProcessLimits_default : ChildProcessLimits :=
  {| cpl_commit_memory_bytes := None; cpl_user_cpu_time := None; cpl_active_processes := None;
     cpl_open_descriptors := None |}.

Definition is_none {A} (o : option A) : bool := match o with Some _ => false | None => true end.

Definition ChildProcessLimits_is_empty (self : ChildProcessLimits) : bool :=
  is_none (cpl_commit_memory_bytes self) && is_none (cpl_user_cpu_time self)
  && is_none (cpl_active_processes self) && is_none (cpl_open_descriptors self).

Definition ChildProcessLimits_has_zero (self : ChildProcessLimits) : bool :=
  bool_decide (cpl_commit_memory_bytes self = Some 0)
  || match cpl_user_cpu_time self with Some duration => duration =? 0 | None => false end
  || bool_decide (cpl_active_processes self = Some 0)
  || bool_decide (cpl_open_descriptors self = Some 0).

(** [ExecutableIdentityPolicy] has one value. *)
Inductive ExecutableIdentityPolicy := ExactOpenedFile.

Record SessionOptions := {
  so_deadline : Z;
  so_limits : SessionLimits;
  so_child_process_limits : ChildProcessLimits;
  so_application_payload : bytes;
  so_executable_identity : ExecutableIdentityPolicy;
  so_require_atomic_u32 : bool;
  so_require_atomic_u64 : bool
}.
Definition SessionOptions_new (deadline : Z) (executable_identity : ExecutableIdentityPolicy)
  : SessionOptions :=
  {| so_deadline := deadline; so_limits := SessionLimits_default;
     so_child_process_limits := ChildProcessLimits_default; so_application_payload := [];
     so_executable_identity := executable_identity; so_require_atomic_u32 := false;
     so_require_atomic_u64 := false |}.

(** The builders: each returns the options with one field replaced. *)
Definition with_limits (limits : SessionLimits) (self : SessionOptions) : SessionOptions :=
  {| so_deadline := so_deadline self; so_limits := limits;
     so_child_process_limits := so_child_process_limits self;
     so_application_payload := so_application_payload self;
     so_executable_identity := so_executable_identity self;
     so_require_atomic_u32 := so_require_atomic_u32 self; so_require_atomic_u64 := so_require_atomic_u64 self |}.
Definition with_child_process_limits (limits : ChildProcessLimits) (self : SessionOptions) : SessionOptions :=
  {| so_deadline := so_deadline self; so_limits := so_limits self; so_child_process_limits := limits;
     so_application_payload := so_application_payload self;
     so_executable_identity := so_executable_identity self;
     so_require_atomic_u32 := so_require_atomic_u32 self; so_require_atomic_u64 := so_require_atomic_u64 self |}.
Definition with_application_payload (payload : bytes) (self : SessionOptions) : SessionOptions :=
  {| so_deadline := so_deadline self; so_limits := so_limits self;
     so_child_process_limits := so_child_process_limits self; so_application_payload := payload;
     so_executable_identity := so_executable_identity self;
     so_require_atomic_u32 := so_require_atomic_u32 self; so_require_atomic_u64 := so_require_atomic_u64 self |}.
Definition require_atomic_u32 (self : SessionOptions) : SessionOptions :=
  {| so_deadline := so_deadline self; so_limits := so_limits self;
     so_child_process_limits := so_child_process_limits self;
     so_application_payload := so_application_payload self;
     so_executable_identity := so_executable_identity self;
     so_require_atomic_u32 := true; so_require_atomic_u64 := so_require_atomic_u64 self |}.
Definition require_atomic_u64 (self : SessionOptions) : SessionOptions :=
  {| so_deadline := so_deadline self; so_limits := so_limits self;
     so_child_process_limits := so_child_process_limits self;
     so_application_payload := so_application_payload self;
     so_executable_identity := so_executable_identity self;
     so_require_atomic_u32 := so_require_atomic_u32 self; so_require_atomic_u64 := true |}.

(** ** Native interfaces *)

(** A native operation fails with an error of its own or returns. *)
Definition nio (T E A : Type) : Type := T -> (A + E) * T.
Definition native {T E A} (m : nio T E A) : stm T E A :=
  fun t => let '(r, t) := m t in (match r with inl a => Ok a | inr e => Err e end, t).

(** Identities the system and the channel report: [peer_pid] is the spawned
    child of a coordinator and the parent a receiver was bootstrapped by. *)
Class Process (T : Type) := {
  getpid : T -> Z;
  getppid : T -> Z;
  getuid : T -> Z;
  getgid : T -> Z;
  peer_pid : T -> Z;
  lifecycle_pid : T -> Z;
  channel_nonce : T -> bytes
}.

Record PacketCredentials := { pc_pid : Z; pc_uid : Z; pc_gid : Z }.

Inductive PacketError :=
| Packet_InvalidInput
| Packet_WouldBlock
| Packet_Interrupted
| Packet_Truncated
| Packet_RecordTooLarge
| Packet_MalformedAncillary
| Packet_WrongPeer
| Packet_WrongDescriptorCount
| Packet_DeadlineExpired
| Packet_AmbiguousAfterSend
| Packet_AmbiguousAfterReceive
| Packet_Poisoned
| Packet_PeerExited
| Packet_Native (code : Z).

Inductive LinuxSpawnError :=
| Spawn_InvalidInput
| Spawn_DeadlineExpired
| Spawn_MalformedChildError
| Spawn_Child (stage errno : Z)
| Spawn_ExitedBeforeConfirmation
| Spawn_WrongExecutable
| Spawn_EntropyUnavailable
| Spawn_Packet (error : PacketError)
| Spawn_Negotiation (error : NegotiationWireError)
| Spawn_NativeNegotiation (error : NegotiationError)
| Spawn_Native (code : Z).

Inductive SpawnPolicyError :=
| Policy_InvalidExecutable
| Policy_WrongExecutable
| Policy_ExitedBeforeVerification
| Policy_Native (code : Z).

Inductive BootstrapError :=
| Bootstrap_Mach (code : Z)
| Bootstrap_Spawn (code : Z)
| Bootstrap_InvalidMessage
| Bootstrap_WrongPeer (expected actual : Z)
| Bootstrap_InvalidEnvironment
| Bootstrap_MissingEnvironment
| Bootstrap_DeadlineExpired
| Bootstrap_Ambiguous
| Bootstrap_ExactAuthorityUnavailable (native_error : option Z).

(** [ExactChildCleanup] of [linux_vnext/process.rs]. *)
Inductive ExactChildExit :=
| ExactExited (code : Z)
| ExactSignaled (signal : Z) (dumped_core : bool)
| ExactAlreadyReaped.
Inductive DescendantCleanup := GroupNotEstablished | GroupUnverified | GroupTerminated.
Record ExactChildCleanup := {
  xc_direct_child : option ExactChildExit;
  xc_descendants : DescendantCleanup;
  xc_last_native_error : option Z
}.

(** Where a coordinator's construction failed. *)
Inductive FailureState := State_NotEstablished | State_Spawned | State_Negotiating.

Record LinuxCoordinatorSpawnFailure := {
  lsf_error : LinuxSpawnError;
  lsf_cleanup : option ExactChildCleanup;
  lsf_state : FailureState
}.

(** [ChildSpawnFailure] of [windows.rs]. *)
Record ChildSpawnFailure := {
  cf_error : WindowsError;
  cf_cleanup : option ChildCleanupFacts;
  cf_limits_applied : bool
}.

(** [linux_entropy] is [generate_entropy]; [linux_send] and [linux_receive] are
    the bounded loops over the packet socket, the receive with the exact
    credentials it demands of the sender. *)
Class LinuxNative (T : Type) := {
  linux_discover_atomics : nio T NegotiationError AtomicCapabilities;
  linux_entropy : Z -> Z -> nio T LinuxSpawnError bytes;
  linux_open : OsString -> nio T SpawnPolicyError unit;
  linux_reject_credential_changing_mode : nio T LinuxSpawnError unit;
  linux_spawn_held : list OsString -> list (OsString * OsString) -> Z ->
                     nio T LinuxCoordinatorSpawnFailure unit;
  linux_adopt_inherited : nio T PacketError unit;
  linux_send : bytes -> Z -> nio T LinuxSpawnError unit;
  linux_receive : PacketCredentials -> Z -> nio T LinuxSpawnError bytes;
  linux_ensure_live : Z -> nio T LinuxSpawnError unit;
  linux_matches_process_image : T -> bool;
  linux_terminate_and_reap : Z -> T -> ExactChildCleanup * T
}.

(** [mac_matches_running_image false] is asked about the suspended child,
    [true] about the execution behind the authenticated channel. *)
Class MacNative (T : Type) := {
  mac_discover_atomics : nio T PublicSessionError AtomicCapabilities;
  mac_random_nonce : nio T BootstrapError bytes;
  mac_hold_executable : OsString -> nio T PublicSessionError unit;
  mac_spawn_explicit : OsString -> list OsString -> list bytes -> nio T BootstrapError unit;
  mac_matches_running_image : bool -> nio T PublicSessionError bool;
  mac_authenticate : Z -> nio T (BootstrapError * ChildCleanupFacts) unit;
  mac_connect_from_environment : Z -> nio T BootstrapError unit;
  mac_send : bytes -> Z -> io T unit;
  mac_receive : Z -> Z -> io T bytes;
  mac_try_poll : io T PeerState;
  mac_wait_and_reap_status : Z -> io T unit;
  mac_cleanup_until : Z -> T -> ChildCleanupFacts * T;
  mac_terminate_and_reap_facts : Z -> T -> ChildCleanupFacts * T
}.

Class WindowsNative (T : Type) := {
  windows_discover_atomics : nio T PublicSessionError AtomicCapabilities;
  windows_session_nonce : nio T WindowsError bytes;
  windows_command_is_valid : SessionCommand -> bool;
  windows_spawn_until : SessionCommand -> Z -> ChildProcessLimits -> nio T ChildSpawnFailure unit;
  windows_connect_spawned_helper : Z -> nio T WindowsError unit;
  windows_write_message : bytes -> Z -> io T unit;
  windows_read_message : Z -> Z -> io T bytes;
  windows_cleanup_after_failure : T -> ChildCleanupFacts * T
}.

(** ** The HELLO offer *)

Record HelloOffer := {
  ho_supported_features : FeatureBits;
  ho_required_features : FeatureBits;
  ho_limits : SessionLimits;
  ho_application_payload : bytes
}.

(** [public_linux_offer], and the offer the other backends validate. *)
Definition public_offer (limits : SessionLimits) (application_payload : bytes)
  (require_atomic_u32 require_atomic_u64 : bool) : HelloOffer :=
  {| ho_supported_features := (3, 0);
     ho_required_features :=
       (Z.lor (Z.b2z require_atomic_u32) (Z.shiftl (Z.b2z require_atomic_u64) 1), 0);
     ho_limits := limits; ho_application_payload := application_payload |}.

Definition set_max_control_payload (z : Z) (l : SessionLimits) : SessionLimits :=
  {| sl_max_regions_per_batch := sl_max_regions_per_batch l; sl_max_region_bytes := sl_max_region_bytes l;
     sl_max_batch_bytes := sl_max_batch_bytes l; sl_max_active_regions := sl_max_active_regions l;
     sl_max_active_bytes := sl_max_active_bytes l; sl_max_transactions := sl_max_transactions l;
     sl_max_bootstrap_payload_bytes := sl_max_bootstrap_payload_bytes l;
     sl_max_control_payload_bytes := z |}.
Definition set_max_bootstrap_payload (z : Z) (l : SessionLimits) : SessionLimits :=
  {| sl_max_regions_per_batch := sl_max_regions_per_batch l; sl_max_region_bytes := sl_max_region_bytes l;
     sl_max_batch_bytes := sl_max_batch_bytes l; sl_max_active_regions := sl_max_active_regions l;
     sl_max_active_bytes := sl_max_active_bytes l; sl_max_transactions := sl_max_transactions l;
     sl_max_bootstrap_payload_bytes := z;
     sl_max_control_payload_bytes := sl_max_control_payload_bytes l |}.
Definition with_offer_limits (l : SessionLimits) (offer : HelloOffer) : HelloOffer :=
  {| ho_supported_features := ho_supported_features offer;
     ho_required_features := ho_required_features offer; ho_limits := l;
     ho_application_payload := ho_application_payload offer |}.

Definition MAX_ZERO_RIGHTS_PACKET_BYTES : Z := 64 * 1024.
Definition MAX_LINUX_HELLO_PAYLOAD : Z := MAX_ZERO_RIGHTS_PACKET_BYTES - HEADER_LEN.
Definition MAX_LINUX_CONTROL_PAYLOAD : Z := MAX_ZERO_RIGHTS_PACKET_BYTES - CONTROL_HEADER_LEN.
(** macOS and Windows declare the same bounds. *)
Definition MAX_VNEXT_RECORD_BYTES : Z := 64 * 1024.
Definition MAX_HELLO_PAYLOAD : Z := MAX_VNEXT_RECORD_BYTES - HEADER_LEN.
Definition MAX_CONTROL_PAYLOAD : Z := MAX_VNEXT_RECORD_BYTES - CONTROL_HEADER_LEN.

Definition validate_linux_offer (offer : HelloOffer) : res LinuxSpawnError HelloOffer :=
  if negb (is_subset_of (ho_required_features offer) (ho_supported_features offer))
  then Err (Spawn_Negotiation WireError_RequiredFeatureNotSupported) else
  let limits := ho_limits offer in
  let limits :=
    set_max_control_payload (Z.min (sl_max_control_payload_bytes limits) MAX_LINUX_CONTROL_PAYLOAD) limits in
  map_err Spawn_NativeNegotiation (SessionLimits_validate limits) >>?
  if MAX_LINUX_HELLO_PAYLOAD <? len (ho_application_payload offer) then Err Spawn_InvalidInput else
  let limits :=
    set_max_bootstrap_payload (Z.min (sl_max_bootstrap_payload_bytes limits) MAX_LINUX_HELLO_PAYLOAD) limits in
  if sl_max_bootstrap_payload_bytes limits <? len (ho_application_payload offer)
  then Err Spawn_InvalidInput else
  Ok (with_offer_limits limits offer).

(** [validate_offer] of macOS and of Windows. *)
Definition validate_offer (offer : HelloOffer) : res PublicSessionError HelloOffer :=
  if MAX_HELLO_PAYLOAD <? len (ho_application_payload offer) then Err Public_InvalidInput else
  let limits := ho_limits offer in
  let limits :=
    set_max_bootstrap_payload (Z.min (sl_max_bootstrap_payload_bytes limits) MAX_HELLO_PAYLOAD) limits in
  let limits :=
    set_max_control_payload (Z.min (sl_max_control_payload_bytes limits) MAX_CONTROL_PAYLOAD) limits in
  map_err Public_NativeNegotiation (SessionLimits_validate limits) >>?
  if sl_max_bootstrap_payload_bytes limits <? len (ho_application_payload offer)
  then Err Public_InvalidInput else
  Ok (with_offer_limits limits offer).

Definition offer_of (options : SessionOptions) : HelloOffer :=
  public_offer (so_limits options) (so_application_payload options) (so_require_atomic_u32 options)
    (so_require_atomic_u64 options).

(** ** What the backends differ in

    [hs_unexpected]: the error for a frame of another kind. [hs_identity]: for
    identities that do not make a pair. [hs_admits]: the comparison a transport
    makes before it is built from the evidence. *)

Record Handshake (T E : Type) := {
  hs_wire : NegotiationWireError -> E;
  hs_unexpected : E;
  hs_invalid : E;
  hs_identity : E;
  hs_evidence : SessionTransportError -> E;
  hs_public : E -> PublicSessionError;
  hs_max_record : Z;
  hs_max_hello : Z;
  hs_profile : NativeAuthorityProfile;
  hs_send : bytes -> Z -> stm T E unit;
  hs_receive : Z -> stm T E bytes;
  hs_facts : T -> bytes -> option SpawnIdentityFacts;
  hs_admits : T -> SpawnIdentityFacts -> bool
}.
Arguments hs_wire {T E}.
Arguments hs_unexpected {T E}.
Arguments hs_invalid {T E}.
Arguments hs_identity {T E}.
Arguments hs_evidence {T E}.
Arguments hs_public {T E}.
Arguments hs_max_record {T E}.
Arguments hs_max_hello {T E}.
Arguments hs_profile {T E}.
Arguments hs_send {T E}.
Arguments hs_receive {T E}.
Arguments hs_facts {T E}.
Arguments hs_admits {T E}.

(** The coordinator also draws the challenge, checks the image of its child
    once more, and answers for the child: [ow_terminate] ends and reaps it. *)
Record Owner (T E : Type) := {
  ow_handshake :> Handshake T E;
  ow_challenge : Z -> stm T E DecisionChallenge;
  ow_verify_image : Z -> stm T E unit;
  ow_terminate : Z -> T -> ChildCleanupFacts * T
}.
Arguments ow_handshake {T E}.
Arguments ow_challenge {T E}.
Arguments ow_verify_image {T E}.
Arguments ow_terminate {T E}.

(** ** The exchange of HELLOs *)

Section Hello.
Context {T E : Type} {AL : Allocator} {SH : Sha256} {TP : Negotiation.Platform} (h : Handshake T E).

Definition make_hello (role : SenderRole) (nonce : bytes) (offer : HelloOffer) (atomics : AtomicCapabilities)
  : res E HelloFrame :=
  let? local_atomics := map_err (hs_wire h) (AtomicOffer_from_local atomics) in
  Ok {| hf_role := role; hf_nonce := nonce; hf_supported_features := ho_supported_features offer;
        hf_required_features := ho_required_features offer; hf_limits := ho_limits offer;
        hf_atomics := local_atomics; hf_target := TargetFacts_current;
        hf_application_payload := ho_application_payload offer |}.

(** The bytes an encoder writes to a fresh buffer of the length. *)
Definition encoded (length : Z) (encode_into : stm bytes NegotiationWireError Z) : res E bytes :=
  if hs_max_record h <? length then Err (hs_invalid h) else
  match encode_into (zeros length) with
  | (Ok _, buffer) => Ok buffer
  | (Err error, _) => Err (hs_wire h error)
  | (Panic, _) => Panic
  end.

Definition encode_hello (hello : HelloFrame) : res E bytes :=
  let? length := map_err (hs_wire h) (hello_encoded_len hello) in
  encoded length (encode_hello_into hello).

Definition encode_frame (frame : NegotiationFrame) : res E bytes :=
  let? length := map_err (hs_wire h) (encoded_len frame) in
  encoded length (NegotiationFrame_encode_into frame).

Definition expect_hello (packet : bytes) (role : SenderRole) (nonce : bytes) : res E HelloFrame :=
  let? frame := map_err (hs_wire h) (decode_frame packet role nonce (hs_max_hello h)) in
  match frame with
  | Hello hello => Ok hello
  | Accept _ | Reject _ => Err (hs_unexpected h)
  end.

(** The transcript and the peer's application payload. *)
Definition coordinator_hello (coordinator : HelloFrame) (atomics : AtomicCapabilities) (deadline : Z)
  : stm T E (NegotiatedTranscript * bytes) :=
  let! packet := slift (encode_hello coordinator) in
  hs_send h packet deadline >>!
  let! packet := hs_receive h deadline in
  let! receiver := slift (expect_hello packet Receiver (hf_nonce coordinator)) in
  slift (map_err (hs_wire h) (from_hellos_with_peer_payload
           {| hp_coordinator := coordinator; hp_receiver := receiver |} atomics Receiver)).

(** The nonce is the channel's, or the one the first packet carries. *)
Definition receiver_hello (nonce_of : T -> bytes -> res E bytes) (offer : HelloOffer)
  (atomics : AtomicCapabilities) (deadline : Z) : stm T E (bytes * (NegotiatedTranscript * bytes)) :=
  let! connected := sget in
  let! packet := hs_receive h deadline in
  let! nonce := slift (nonce_of connected packet) in
  let! coordinator := slift (expect_hello packet Coordinator nonce) in
  let! receiver := slift (make_hello Receiver nonce offer atomics) in
  let! packet := slift (encode_hello receiver) in
  hs_send h packet deadline >>!
  let! agreed := slift (map_err (hs_wire h) (from_hellos_with_peer_payload
           {| hp_coordinator := coordinator; hp_receiver := receiver |} atomics Coordinator)) in
  sret (nonce, agreed).

End Hello.

(** ** The decisions *)

Inductive NativeOutcome (D : Type) :=
| Outcome_Accepted (session : D)
| Outcome_Rejected (by_role : SenderRole) (reason : Z) (cleanup : option ChildCleanupFacts).
Arguments Outcome_Accepted {D}.
Arguments Outcome_Rejected {D}.

(** [*CoordinatorSessionFailure]; only Windows reports [csf_limits_applied]. *)
Record CoordinatorFailure := {
  csf_error : PublicSessionError;
  csf_cleanup : option ChildCleanupFacts;
  csf_state : FailureState;
  csf_poisoned : bool;
  csf_limits_applied : bool
}.

(** What both roles hold between the HELLOs and the decision. *)
Record Negotiating (T : Type) := {
  ng_native : T;
  ng_transcript : NegotiatedTranscript;
  ng_nonce : bytes;
  ng_deadline : Z;
  ng_peer_application_payload : bytes
}.
Arguments ng_native {T}.
Arguments ng_transcript {T}.
Arguments ng_nonce {T}.
Arguments ng_deadline {T}.
Arguments ng_peer_application_payload {T}.

(** The state a receiver is left in by the exchange of HELLOs. *)
Definition negotiating_of {T E} (agreed : bytes * (NegotiatedTranscript * bytes)) (deadline : Z)
  : stm T E (Negotiating T) :=
  let '(nonce, (transcript, payload)) := agreed in
  let! t := sget in
  sret {| ng_native := t; ng_transcript := transcript; ng_nonce := nonce; ng_deadline := deadline;
          ng_peer_application_payload := payload |}.

Section Decide.
Context {T E : Type} {AL : Allocator}.

Definition endpoint {A} (m : stm T E A) : stm (T * NegotiatedTranscript) E A :=
  fun '(t, transcript) => let '(r, t) := m t in (r, (t, transcript)).
Definition on_transcript {A} (h : Handshake T E) (m : stm NegotiatedTranscript NegotiationWireError A)
  : stm (T * NegotiatedTranscript) E A :=
  fun '(t, transcript) => let '(r, transcript) := m transcript in (map_err (hs_wire h) r, (t, transcript)).
Definition read_transcript {A} (h : Handshake T E) (f : NegotiatedTranscript -> res NegotiationWireError A)
  : stm (T * NegotiatedTranscript) E A :=
  fun '(t, transcript) => (map_err (hs_wire h) (f transcript), (t, transcript)).

Definition send_frame (h : Handshake T E) (frame : NegotiationFrame) (deadline : Z)
  : stm (T * NegotiatedTranscript) E unit :=
  let! packet := slift (encode_frame h frame) in
  endpoint (hs_send h packet deadline).

(** The peer's decision: [None] for ACCEPT, the reason of a REJECT. *)
Definition receive_decision (h : Handshake T E) (role : SenderRole) (nonce : bytes) (deadline : Z)
  : stm (T * NegotiatedTranscript) E (option Z) :=
  let! packet := endpoint (hs_receive h deadline) in
  let! frame := slift (map_err (hs_wire h) (decode_frame packet role nonce (hs_max_hello h))) in
  match frame with
  | Accept accept => on_transcript h (validate_accept accept role) >>! sret None
  | Reject reject => let! reason := on_transcript h (validate_reject reject role) in sret (Some reason)
  | Hello _ => serr (hs_unexpected h)
  end.

(** From the facts of the transcript to the parameters of the session. *)
Definition accepted_parameters (h : Handshake T E) (nonce : bytes)
  (combine : SpawnIdentityFacts -> AcceptedTranscriptFacts -> res SessionTransportError AcceptedEvidence)
  : stm (T * NegotiatedTranscript) E AcceptedSessionParameters :=
  let! transcript := on_transcript h take_accepted_facts in
  let! state := sget in
  let! facts := slift (ok_or (hs_facts h (fst state) nonce) (hs_identity h)) in
  let! evidence := slift (map_err (hs_evidence h) (combine facts transcript)) in
  if negb (hs_admits h (fst state) (ev_facts evidence)) then serr (hs_evidence h TransportError_IdentityMismatch) else
  sret (session_parameters evidence (hs_profile h)).

(** *** The coordinator *)

(** Who rejected and why, or [None] when both accepted. *)
Definition coordinator_decision (o : Owner T E) (rejection : option Z) (nonce : bytes) (deadline : Z)
  : stm (T * NegotiatedTranscript) E (option (SenderRole * Z)) :=
  let! challenge := endpoint (ow_challenge o deadline) in
  match rejection with
  | Some reason =>
      let! reject := on_transcript o (coordinator_reject challenge reason) in
      send_frame o (Reject reject) deadline >>!
      sret (Some (Coordinator, reason))
  | None =>
      let! accept := read_transcript o (fun t => coordinator_accept t challenge) in
      on_transcript o (validate_accept accept Coordinator) >>!
      send_frame o (Accept accept) deadline >>!
      let! rejected := receive_decision o Receiver nonce deadline in
      sret (match rejected with Some reason => Some (Receiver, reason) | None => None end)
  end.

(** The decision, the last look at the child's image, and the evidence. *)
Definition coordinator_accepts (o : Owner T E) (rejection : option Z) (nonce : bytes) (deadline : Z)
  : stm (T * NegotiatedTranscript) E (AcceptedSessionParameters + SenderRole * Z) :=
  let! rejected := coordinator_decision o rejection nonce deadline in
  match rejected with
  | Some who => sret (inr who)
  | None =>
      endpoint (ow_verify_image o deadline) >>!
      let! parameters := accepted_parameters o nonce
             (fun facts transcript => CoordinatorAcceptedEvidence_combine facts facts transcript) in
      sret (inl parameters)
  end.

(** Every end but an accepted session terminates and reaps the child. *)
Definition negotiation_failure (o : Owner T E) (error : E) (deadline : Z) (t : T)
  : res CoordinatorFailure (NativeOutcome (Dispatcher T)) * T :=
  let '(cleanup, t) := ow_terminate o deadline t in
  (Err {| csf_error := hs_public o error; csf_cleanup := Some cleanup; csf_state := State_Negotiating;
          csf_poisoned := true; csf_limits_applied := true |}, t).

Definition coordinator_decide (o : Owner T E) (rejection : option Z) (self : Negotiating T)
  : res CoordinatorFailure (NativeOutcome (Dispatcher T)) * T :=
  let deadline := ng_deadline self in
  match coordinator_accepts o rejection (ng_nonce self) deadline (ng_native self, ng_transcript self) with
  | (Ok (inr (by_role, reason)), (t, _)) =>
      let '(cleanup, t) := ow_terminate o deadline t in
      (Ok (Outcome_Rejected by_role reason (Some cleanup)), t)
  | (Ok (inl parameters), (t, _)) =>
      match Dispatcher_new t parameters with
      | Some dispatcher => (Ok (Outcome_Accepted dispatcher), t)
      | None => negotiation_failure o (hs_invalid o) deadline t
      end
  | (Err error, (t, _)) => negotiation_failure o error deadline t
  | (Panic, (t, _)) => (Panic, t)
  end.

(** *** The receiver *)

(** [decide] sees the coordinator's payload, and only after its ACCEPT. *)
Definition receiver_decision (h : Handshake T E) (decide : bytes -> option Z) (payload nonce : bytes)
  (deadline : Z) : stm (T * NegotiatedTranscript) E (AcceptedSessionParameters + SenderRole * Z) :=
  let! rejected := receive_decision h Coordinator nonce deadline in
  match rejected with
  | Some reason => sret (inr (Coordinator, reason))
  | None =>
      match decide payload with
      | Some reason =>
          let! reject := on_transcript h (receiver_reject reason) in
          send_frame h (Reject reject) deadline >>!
          sret (inr (Receiver, reason))
      | None =>
          let! accept := read_transcript h receiver_accept in
          on_transcript h (validate_accept accept Receiver) >>!
          send_frame h (Accept accept) deadline >>!
          let! parameters := accepted_parameters h nonce ReceiverSpawnerEvidence_from_verified_native in
          sret (inl parameters)
      end
  end.

Definition receiver_decide (h : Handshake T E) (decide : bytes -> option Z) (self : Negotiating T)
  : res PublicSessionError (NativeOutcome (Dispatcher T)) * T :=
  match receiver_decision h decide (ng_peer_application_payload self) (ng_nonce self) (ng_deadline self)
          (ng_native self, ng_transcript self) with
  | (Ok (inr (by_role, reason)), (t, _)) => (Ok (Outcome_Rejected by_role reason None), t)
  | (Ok (inl parameters), (t, _)) =>
      match Dispatcher_new t parameters with
      | Some dispatcher => (Ok (Outcome_Accepted dispatcher), t)
      | None => (Err (hs_public h (hs_invalid h)), t)
      end
  | (Err error, (t, _)) => (Err (hs_public h error), t)
  | (Panic, (t, _)) => (Panic, t)
  end.

End Decide.

(** [if deadline.is_expired() || wrong { Err(if deadline.is_expired() .. ) }]:
    the clock is read again for the error. *)
Definition expired_or {T E} {C : Clock T} (deadline : Z) (wrong : bool) (expired invalid : E) : stm T E unit :=
  let! first := is_expired deadline in
  if (first : bool) || wrong
  then let! again := is_expired deadline in serr (if (again : bool) then expired else invalid)
  else sret tt.

(** ** Linux *)

Definition map_public_spawn_error (error : LinuxSpawnError) : PublicSessionError :=
  match error with
  | Spawn_InvalidInput => Public_InvalidInput
  | Spawn_DeadlineExpired => Public_DeadlineExpired
  | Spawn_ExitedBeforeConfirmation => Public_PeerExited
  | Spawn_WrongExecutable => Public_IdentityMismatch
  | Spawn_Negotiation _ => Public_NegotiationFailed
  | Spawn_NativeNegotiation error => Public_NativeNegotiation error
  | Spawn_Packet error =>
      match error with
      | Packet_DeadlineExpired => Public_DeadlineExpired
      | Packet_PeerExited => Public_PeerExited
      | Packet_WrongPeer => Public_IdentityMismatch
      | Packet_Poisoned => Public_Poisoned
      | Packet_AmbiguousAfterSend | Packet_AmbiguousAfterReceive => Public_Ambiguous
      | Packet_Native code => Public_Native (Some code)
      | _ => Public_MalformedPeer
      end
  | Spawn_MalformedChildError => Public_MalformedPeer
  | Spawn_Child _ errno => Public_Native (Some errno)
  | Spawn_Native code => Public_Native (Some code)
  | Spawn_EntropyUnavailable => Public_Native None
  end.

Definition map_child_cleanup (cleanup : ExactChildCleanup) : ChildCleanupFacts :=
  {| cc_direct_child :=
       match xc_direct_child cleanup with
       | Some (ExactExited code) => Some (Exited code)
       | Some (ExactSignaled signal dumped_core) => Some (Signaled signal dumped_core)
       | Some ExactAlreadyReaped => Some AlreadyReaped
       | None => None
       end;
     cc_descendants :=
       match xc_descendants cleanup with
       | GroupNotEstablished => NotEstablished
       | GroupUnverified => FreshGroupUnverified
       | GroupTerminated => FreshGroupTerminated
       end;
     cc_native_error := xc_last_native_error cleanup |}.

Definition before_child (error : LinuxSpawnError) : LinuxCoordinatorSpawnFailure :=
  {| lsf_error := error; lsf_cleanup := None; lsf_state := State_NotEstablished |}.
Definition during_negotiation (error : LinuxSpawnError) (cleanup : ExactChildCleanup)
  : LinuxCoordinatorSpawnFailure :=
  {| lsf_error := error; lsf_cleanup := Some cleanup; lsf_state := State_Negotiating |}.

Definition authenticated_nonce (packet : bytes) : res LinuxSpawnError bytes :=
  if len packet <? HEADER_LEN then Err (Spawn_Negotiation WireError_Truncated) else
  let? nonce := index_range packet 32 64 in
  if bool_decide (nonce = zeros 32) then Err (Spawn_Negotiation WireError_NonceMismatch) else Ok nonce.

Section Linux.
Context {T : Type} {C : Clock T} {PR : Process T} {L : LinuxNative T}
        {AL : Allocator} {SH : Sha256} {TP : Negotiation.Platform}.

Definition generate_decision_challenge (deadline : Z) : stm T LinuxSpawnError DecisionChallenge :=
  let! entropy := native (linux_entropy 16 deadline) in
  slift (map_err Spawn_Negotiation (DecisionChallenge_decode entropy)).

(** Packets carry real ids; the child keeps this process's. *)
Definition exact_child_credentials (t : T) : res LinuxSpawnError PacketCredentials :=
  let? pid := ok_or (try_from U32_MAX (peer_pid t)) Spawn_InvalidInput in
  Ok {| pc_pid := pid; pc_uid := getuid t; pc_gid := getgid t |}.

Definition receive_with_exact_child (deadline : Z) : stm T LinuxSpawnError bytes :=
  let! t := sget in
  let! expected_peer := slift (exact_child_credentials t) in
  native (linux_receive expected_peer deadline).

(** Live, the held image, live: the sandwich before an ACCEPT counts. *)
Definition linux_verify_image (deadline : Z) : stm T LinuxSpawnError unit :=
  native (linux_ensure_live deadline) >>!
  let! t := sget in
  if negb (linux_matches_process_image t) then serr Spawn_WrongExecutable else
  native (linux_ensure_live deadline) >>!
  let! t := sget in
  slift (exact_child_credentials t) >>!
  sret tt.

Definition linux_owner : Owner T LinuxSpawnError :=
  {| ow_handshake :=
       {| hs_wire := Spawn_Negotiation; hs_unexpected := Spawn_Negotiation WireError_BadKind;
          hs_invalid := Spawn_InvalidInput; hs_identity := Spawn_InvalidInput;
          hs_evidence := fun _ => Spawn_InvalidInput; hs_public := map_public_spawn_error;
          hs_max_record := MAX_ZERO_RIGHTS_PACKET_BYTES; hs_max_hello := MAX_LINUX_HELLO_PAYLOAD;
          hs_profile := LinuxMdweV1;
          hs_send := fun packet deadline => native (linux_send packet deadline);
          hs_receive := receive_with_exact_child;
          hs_facts := fun t nonce =>
            SpawnIdentityFacts_new (getpid t) (peer_pid t) (getuid t) (getgid t) (getuid t) (getgid t) nonce;
          hs_admits := fun _ _ => true |};
     ow_challenge := generate_decision_challenge;
     ow_verify_image := linux_verify_image;
     ow_terminate := fun deadline t =>
       let '(cleanup, t) := linux_terminate_and_reap deadline t in (map_child_cleanup cleanup, t) |}.

(** The receiver demands its parent's credentials of every packet. *)
Definition linux_receiver (parent child : PacketCredentials) : Handshake T LinuxSpawnError :=
  {| hs_wire := Spawn_Negotiation; hs_unexpected := Spawn_Negotiation WireError_BadKind;
     hs_invalid := Spawn_InvalidInput; hs_identity := Spawn_InvalidInput;
     hs_evidence := fun _ => Spawn_InvalidInput; hs_public := map_public_spawn_error;
     hs_max_record := MAX_ZERO_RIGHTS_PACKET_BYTES; hs_max_hello := MAX_LINUX_HELLO_PAYLOAD;
     hs_profile := LinuxMdweV1;
     hs_send := fun packet deadline => native (linux_send packet deadline);
     hs_receive := fun deadline => native (linux_receive parent deadline);
     hs_facts := fun _ nonce =>
       SpawnIdentityFacts_new (pc_pid parent) (pc_pid child) (pc_uid parent) (pc_gid parent)
         (pc_uid child) (pc_gid child) nonce;
     hs_admits := fun _ _ => true |}.

Definition spawn_unauthenticated_diagnostic (executable : OsString) (arguments : list OsString)
  (environment : list (OsString * OsString)) (deadline : Z) : stm T LinuxCoordinatorSpawnFailure unit :=
  expired_or deadline (bool_decide (arguments = [])) (before_child Spawn_DeadlineExpired)
    (before_child Spawn_InvalidInput) >>!
  smap_err (fun error => before_child (match error with
                                       | Policy_Native code => Spawn_Native code
                                       | _ => Spawn_InvalidInput
                                       end)) (native (linux_open executable)) >>!
  smap_err before_child (native linux_reject_credential_changing_mode) >>!
  native (linux_spawn_held arguments environment deadline).

Definition exchange_coordinator_hello_diagnostic (offer : HelloOffer) (atomics : AtomicCapabilities)
  (nonce : bytes) (deadline : Z) (t : T) : res LinuxCoordinatorSpawnFailure (Negotiating T) * T :=
  match (let! coordinator := slift (make_hello linux_owner Coordinator nonce offer atomics) in
         coordinator_hello linux_owner coordinator atomics deadline) t with
  | (Ok (transcript, payload), t) =>
      (Ok {| ng_native := t; ng_transcript := transcript; ng_nonce := nonce; ng_deadline := deadline;
             ng_peer_application_payload := payload |}, t)
  | (Err error, t) =>
      let '(cleanup, t) := linux_terminate_and_reap deadline t in
      (Err (during_negotiation error cleanup), t)
  | (Panic, t) => (Panic, t)
  end.

Definition spawn_negotiating (executable : OsString) (arguments : list OsString)
  (environment : list (OsString * OsString)) (offer : HelloOffer) (deadline : Z)
  : stm T LinuxCoordinatorSpawnFailure (Negotiating T) :=
  let! offer := slift (map_err before_child (validate_linux_offer offer)) in
  let! atomics :=
    smap_err (fun error => before_child (Spawn_NativeNegotiation error)) (native linux_discover_atomics) in
  let! nonce := smap_err before_child (native (linux_entropy 32 deadline)) in
  spawn_unauthenticated_diagnostic executable arguments environment deadline >>!
  exchange_coordinator_hello_diagnostic offer atomics nonce deadline.

(** [LinuxCoordinatorNegotiatingSession::spawn]. *)
Definition linux_spawn (command : SessionCommand) (options : SessionOptions)
  : stm T CoordinatorFailure (Negotiating T) :=
  smap_err (fun failure =>
    {| csf_error := map_public_spawn_error (lsf_error failure);
       csf_cleanup := option_map map_child_cleanup (lsf_cleanup failure);
       csf_state := lsf_state failure; csf_poisoned := negb (is_none (lsf_cleanup failure));
       csf_limits_applied := false |})
  (spawn_negotiating (sc_executable command) (sc_arguments command)
     (sc_environment command ++ [(PUBLIC_BOOTSTRAP_ENV, [x31])]) (offer_of options) (so_deadline options)).

Definition linux_decide := coordinator_decide linux_owner.

(** [receive_inherited_hello_owned]: the credentials are captured first. *)
Definition linux_from_inherited_bootstrap (options : SessionOptions)
  : stm T PublicSessionError (PacketCredentials * PacketCredentials * Negotiating T) :=
  smap_err map_public_spawn_error (
    let deadline := so_deadline options in
    let! offer := slift (validate_linux_offer (offer_of options)) in
    let! atomics := smap_err Spawn_NativeNegotiation (native linux_discover_atomics) in
    smap_err Spawn_Packet (native linux_adopt_inherited) >>!
    let! t := sget in
    let parent := {| pc_pid := getppid t; pc_uid := getuid t; pc_gid := getgid t |} in
    let child := {| pc_pid := getpid t; pc_uid := getuid t; pc_gid := getgid t |} in
    let! agreed :=
      receiver_hello (linux_receiver parent child) (fun _ => authenticated_nonce) offer atomics deadline in
    let! negotiating := negotiating_of agreed deadline in
    sret (parent, child, negotiating)).

Definition linux_decide_after_coordinator (decide : bytes -> option Z)
  (self : PacketCredentials * PacketCredentials * Negotiating T)
  : res PublicSessionError (NativeOutcome (Dispatcher T)) * T :=
  let '(parent, child, negotiating) := self in
  receiver_decide (linux_receiver parent child) decide negotiating.

End Linux.

(** ** macOS *)

Definition map_bootstrap_error (error : BootstrapError) : PublicSessionError :=
  match error with
  | Bootstrap_DeadlineExpired => Public_DeadlineExpired
  | Bootstrap_Ambiguous => Public_Ambiguous
  | Bootstrap_WrongPeer _ _ => Public_IdentityMismatch
  | Bootstrap_InvalidMessage | Bootstrap_InvalidEnvironment => Public_MalformedPeer
  | Bootstrap_MissingEnvironment => Public_InvalidInput
  | Bootstrap_Spawn code => Public_Native (Some code)
  | Bootstrap_Mach code => Public_Native (Some code)
  | Bootstrap_ExactAuthorityUnavailable native_error => Public_Native native_error
  end.

(** [CString::new]: a string without a zero byte. *)
Definition cstring (value : bytes) : res PublicSessionError bytes :=
  if bool_decide (x00 ∈ value) then Err Public_InvalidInput else Ok value.

Definition RESERVED_ENVIRONMENT : list bytes :=
  [BOOTSTRAP_FD_ENV; PUBLIC_BOOTSTRAP_ENV; MACH_NONCE_ENV; PARENT_PID_ENV].

(** An iterator's [map(..).collect::<Result<Vec<_>, _>>()]. *)
Fixpoint collect {E A B} (f : A -> res E B) (l : list A) : res E (list B) :=
  match l with
  | [] => Ok []
  | x :: l => let? y := f x in let? ys := collect f l in Ok (y :: ys)
  end.

Definition encode_entry (entry : OsString * OsString) : res PublicSessionError bytes :=
  let '(key, value) := entry in
  if bool_decide (key = []) || bool_decide (x3d ∈ key) || bool_decide (key ∈ RESERVED_ENVIRONMENT)
  then Err Public_InvalidInput
  else cstring (key ++ [x3d] ++ value).
Definition encode_environment (environment : list (OsString * OsString))
  : res PublicSessionError (list bytes) := collect encode_entry environment.

Definition coordinator_failure (error : PublicSessionError) (cleanup : option ChildCleanupFacts)
  (state : FailureState) (poisoned limits_applied : bool) : CoordinatorFailure :=
  {| csf_error := error; csf_cleanup := cleanup; csf_state := state; csf_poisoned := poisoned;
     csf_limits_applied := limits_applied |}.

Definition mac_before_child (error : PublicSessionError) : CoordinatorFailure :=
  coordinator_failure error None State_NotEstablished false false.
Definition mac_after_spawn (error : PublicSessionError) (cleanup : ChildCleanupFacts) : CoordinatorFailure :=
  coordinator_failure error (Some cleanup) State_Spawned true false.
Definition mac_during_negotiation (error : PublicSessionError) (cleanup : ChildCleanupFacts)
  : CoordinatorFailure := coordinator_failure error (Some cleanup) State_Negotiating true false.

(** A native operation of the accepted-transport interface. *)
Definition transport {T A} (m : io T A) : stm T PublicSessionError A :=
  smap_err map_public_transport_error (native m).

Section Macos.
Context {T : Type} {C : Clock T} {PR : Process T} {M : MacNative T}
        {AL : Allocator} {SH : Sha256} {TP : Negotiation.Platform}.

(** [decision_challenge] of macOS and of Windows: the first half of a nonce. *)
Definition challenge_of_nonce (nonce : bytes) : res PublicSessionError DecisionChallenge :=
  let? half := index_range nonce 0 16 in
  map_err (fun _ => Public_NegotiationFailed) (DecisionChallenge_decode half).

Definition mac_decision_challenge (_ : Z) : stm T PublicSessionError DecisionChallenge :=
  let! entropy := smap_err map_bootstrap_error (native mac_random_nonce) in
  slift (challenge_of_nonce entropy).

(** The child's decision is in hand: an exact exit that is confirmed does not
    undo it, and anything else but a match fails. *)
Definition mac_verify_image (deadline : Z) : stm T PublicSessionError unit :=
  fun t =>
  match mac_matches_running_image true t with
  | (inl true, t) => (Ok tt, t)
  | (inr Public_PeerExited, t) => transport (mac_wait_and_reap_status deadline) t
  | (inl false, t) =>
      (let! state := transport mac_try_poll in
       match state with ExitedUnknown => sret tt | Running => serr Public_IdentityMismatch end) t
  | (inr error, t) =>
      (let! state := transport mac_try_poll in
       match state with ExitedUnknown => sret tt | Running => serr error end) t
  end.

Definition mac_handshake (facts : T -> bytes -> option SpawnIdentityFacts)
  (admits : T -> SpawnIdentityFacts -> bool) : Handshake T PublicSessionError :=
  {| hs_wire := fun _ => Public_NegotiationFailed; hs_unexpected := Public_MalformedPeer;
     hs_invalid := Public_InvalidInput; hs_identity := Public_IdentityMismatch;
     hs_evidence := map_public_transport_error; hs_public := fun error => error;
     hs_max_record := MAX_VNEXT_RECORD_BYTES; hs_max_hello := MAX_HELLO_PAYLOAD;
     hs_profile := MacMachV1;
     hs_send := fun packet deadline => transport (mac_send packet deadline);
     hs_receive := fun deadline => transport (mac_receive MAX_VNEXT_RECORD_BYTES deadline);
     hs_facts := facts; hs_admits := admits |}.

(** [CoordinatorMacControlTransport::from_accepted_with_lifecycle]. *)
Definition mac_coordinator_admits (t : T) (facts : SpawnIdentityFacts) : bool :=
  negb (negb (sf_parent_pid facts =? getpid t) || negb (sf_child_pid facts =? peer_pid t)
        || negb (lifecycle_pid t =? peer_pid t) || negb (bool_decide (sf_nonce facts = channel_nonce t))).
(** [ReceiverMacControlTransport::from_accepted]. *)
Definition mac_receiver_admits (t : T) (facts : SpawnIdentityFacts) : bool :=
  negb (negb (sf_child_pid facts =? getpid t) || negb (sf_parent_pid facts =? peer_pid t)
        || negb (bool_decide (sf_nonce facts = channel_nonce t))).

Definition mac_owner : Owner T PublicSessionError :=
  {| ow_handshake := mac_handshake (fun t nonce => SpawnIdentityFacts_new (getpid t) (peer_pid t) 0 0 0 0 nonce)
                       mac_coordinator_admits;
     ow_challenge := mac_decision_challenge;
     ow_verify_image := mac_verify_image;
     ow_terminate := mac_terminate_and_reap_facts |}.
Definition mac_receiver : Handshake T PublicSessionError :=
  mac_handshake (fun t nonce => SpawnIdentityFacts_new (peer_pid t) (getpid t) 0 0 0 0 nonce) mac_receiver_admits.

(** End the child with the given cleanup and fail. *)
Definition fail_with {A} (cleanup : T -> ChildCleanupFacts * T) (failure : ChildCleanupFacts -> CoordinatorFailure)
  : stm T CoordinatorFailure A :=
  fun t => let '(facts, t) := cleanup t in (Err (failure facts), t).

(** The code-directory hash of the child, suspended or behind the channel. *)
Definition mac_check_image (authenticated : bool) (cleanup : T -> ChildCleanupFacts * T)
  : stm T CoordinatorFailure unit :=
  fun t =>
  match mac_matches_running_image authenticated t with
  | (inl true, t) => (Ok tt, t)
  | (inl false, t) => fail_with cleanup (mac_after_spawn Public_IdentityMismatch) t
  | (inr error, t) => fail_with cleanup (mac_after_spawn error) t
  end.

Definition mac_spawn_explicit_child (command : SessionCommand) (arguments environment : list bytes)
  : stm T CoordinatorFailure unit :=
  fun t =>
  match mac_spawn_explicit (sc_executable command) arguments environment t with
  | (inl _, t) => (Ok tt, t)
  | (inr (Bootstrap_ExactAuthorityUnavailable native_error), t) =>
      (Err (mac_after_spawn (Public_Native native_error)
              {| cc_direct_child := None; cc_descendants := FreshGroupUnverified;
                 cc_native_error := native_error |}), t)
  | (inr error, t) => (Err (mac_before_child (map_bootstrap_error error)), t)
  end.

Definition mac_exchange_hello (offer : HelloOffer) (atomics : AtomicCapabilities) (deadline : Z)
  : stm T CoordinatorFailure (Negotiating T) :=
  fun t =>
  let nonce := channel_nonce t in
  match (let! coordinator := slift (make_hello mac_owner Coordinator nonce offer atomics) in
         coordinator_hello mac_owner coordinator atomics deadline) t with
  | (Ok (transcript, payload), t) =>
      (Ok {| ng_native := t; ng_transcript := transcript; ng_nonce := nonce; ng_deadline := deadline;
             ng_peer_application_payload := payload |}, t)
  | (Err error, t) => fail_with (mac_terminate_and_reap_facts deadline) (mac_during_negotiation error) t
  | (Panic, t) => (Panic, t)
  end.

(** [spawn_with_hooks] with the empty hooks of [spawn]. *)
Definition mac_spawn (command : SessionCommand) (options : SessionOptions)
  : stm T CoordinatorFailure (Negotiating T) :=
  let deadline := so_deadline options in
  expired_or deadline (bool_decide (sc_arguments command = [])) (mac_before_child Public_DeadlineExpired)
    (mac_before_child Public_InvalidInput) >>!
  let! offer := slift (map_err mac_before_child (validate_offer (offer_of options))) in
  let! atomics := smap_err mac_before_child (native mac_discover_atomics) in
  smap_err mac_before_child (native (mac_hold_executable (sc_executable command))) >>!
  slift (map_err mac_before_child (cstring (sc_executable command))) >>!
  let! arguments := slift (map_err mac_before_child (collect cstring (sc_arguments command))) in
  let! environment := slift (map_err mac_before_child (encode_environment (sc_environment command))) in
  mac_spawn_explicit_child command arguments (environment ++ [PUBLIC_BOOTSTRAP_ENV ++ [x3d; x31]]) >>!
  mac_check_image false (mac_cleanup_until deadline) >>!
  smap_err (fun '(error, cleanup) => mac_after_spawn (map_bootstrap_error error) cleanup)
    (native (mac_authenticate deadline)) >>!
  mac_check_image true (mac_terminate_and_reap_facts deadline) >>!
  mac_exchange_hello offer atomics deadline.

Definition mac_decide := coordinator_decide mac_owner.

Definition mac_from_environment (options : SessionOptions) : stm T PublicSessionError (Negotiating T) :=
  let deadline := so_deadline options in
  let! offer := slift (validate_offer (offer_of options)) in
  let! atomics := native mac_discover_atomics in
  smap_err map_bootstrap_error (native (mac_connect_from_environment deadline)) >>!
  let! agreed :=
    receiver_hello mac_receiver (fun connected _ => Ok (channel_nonce connected)) offer atomics deadline in
  negotiating_of agreed deadline.

Definition mac_decide_after_coordinator := receiver_decide mac_receiver.

End Macos.

(** ** Windows *)

Definition windows_before_child (error : PublicSessionError) : CoordinatorFailure :=
  coordinator_failure error None State_NotEstablished false false.
Definition windows_after_cleanup (error : PublicSessionError) (state : FailureState) (limits_applied : bool)
  (cleanup : ChildCleanupFacts) : CoordinatorFailure :=
  coordinator_failure error (Some cleanup) state true limits_applied.

Section Windows.
Context {T : Type} {C : Clock T} {PR : Process T} {W : WindowsNative T}
        {AL : Allocator} {SH : Sha256} {TP : Negotiation.Platform}.

(** [WindowsCoordinatorSessionFailure::after_child] ends the child. *)
Definition windows_after_child {A} (error : PublicSessionError) (state : FailureState)
  : stm T CoordinatorFailure A :=
  fail_with windows_cleanup_after_failure (windows_after_cleanup error state true).

Definition windows_decision_challenge (_ : Z) : stm T PublicSessionError DecisionChallenge :=
  let! nonce := smap_err map_windows_error (native windows_session_nonce) in
  slift (challenge_of_nonce nonce).

Definition windows_handshake (facts : T -> bytes -> option SpawnIdentityFacts)
  (admits : T -> SpawnIdentityFacts -> bool) : Handshake T PublicSessionError :=
  {| hs_wire := fun _ => Public_NegotiationFailed; hs_unexpected := Public_MalformedPeer;
     hs_invalid := Public_InvalidInput; hs_identity := Public_IdentityMismatch;
     hs_evidence := map_public_transport_error; hs_public := fun error => error;
     hs_max_record := MAX_VNEXT_RECORD_BYTES; hs_max_hello := MAX_HELLO_PAYLOAD;
     hs_profile := WindowsSectionsV1;
     hs_send := fun packet deadline => transport (windows_write_message packet deadline);
     hs_receive := fun deadline => transport (windows_read_message MAX_VNEXT_RECORD_BYTES deadline);
     hs_facts := facts; hs_admits := admits |}.

(** [CoordinatorWindowsControlTransport::from_accepted]. *)
Definition windows_coordinator_admits (t : T) (facts : SpawnIdentityFacts) : bool :=
  negb (negb (sf_parent_pid facts =? getpid t) || negb (sf_child_pid facts =? peer_pid t)
        || negb (bool_decide (sf_nonce facts = channel_nonce t))).
(** [ReceiverWindowsControlTransport::from_accepted]. *)
Definition windows_receiver_admits (t : T) (facts : SpawnIdentityFacts) : bool :=
  negb (negb (sf_child_pid facts =? getpid t) || negb (sf_parent_pid facts =? peer_pid t)
        || negb (bool_decide (sf_nonce facts = channel_nonce t))).

(** Nothing looks at the image again: the process was created from it. *)
Definition windows_owner : Owner T PublicSessionError :=
  {| ow_handshake :=
       windows_handshake (fun t nonce => SpawnIdentityFacts_new (getpid t) (peer_pid t) 0 0 0 0 nonce)
         windows_coordinator_admits;
     ow_challenge := windows_decision_challenge;
     ow_verify_image := fun _ => sret tt;
     ow_terminate := fun _ => windows_cleanup_after_failure |}.
Definition windows_receiver : Handshake T PublicSessionError :=
  windows_handshake (fun t nonce => SpawnIdentityFacts_new (peer_pid t) (getpid t) 0 0 0 0 nonce)
    windows_receiver_admits.

Definition windows_spawn_child (command : SessionCommand) (options : SessionOptions)
  : stm T CoordinatorFailure unit :=
  smap_err (fun failure =>
    let error := map_windows_error (cf_error failure) in
    match cf_cleanup failure with
    | Some cleanup => windows_after_cleanup error State_Spawned (cf_limits_applied failure) cleanup
    | None => windows_before_child error
    end)
  (native (windows_spawn_until command (so_deadline options) (so_child_process_limits options))).

Definition windows_exchange_hello (offer : HelloOffer) (atomics : AtomicCapabilities) (deadline : Z)
  : stm T CoordinatorFailure (Negotiating T) :=
  fun t =>
  let nonce := channel_nonce t in
  match make_hello windows_owner Coordinator nonce offer atomics with
  | Err error => windows_after_child error State_Spawned t
  | Panic => (Panic, t)
  | Ok coordinator =>
      match coordinator_hello windows_owner coordinator atomics deadline t with
      | (Ok (transcript, payload), t) =>
          (Ok {| ng_native := t; ng_transcript := transcript; ng_nonce := nonce; ng_deadline := deadline;
                 ng_peer_application_payload := payload |}, t)
      | (Err error, t) => windows_after_child error State_Negotiating t
      | (Panic, t) => (Panic, t)
      end
  end.

(** [windows_command_is_valid] is [is_absolute] and
    [public_command_strings_are_valid]. *)
Definition windows_spawn (command : SessionCommand) (options : SessionOptions)
  : stm T CoordinatorFailure (Negotiating T) :=
  let deadline := so_deadline options in
  let! expired := is_expired deadline in
  if (expired : bool) || bool_decide (sc_arguments command = []) || negb (windows_command_is_valid command)
  then serr (windows_before_child Public_InvalidInput) else
  let! offer := slift (map_err windows_before_child (validate_offer (offer_of options))) in
  let! atomics := smap_err windows_before_child (native windows_discover_atomics) in
  windows_spawn_child command options >>!
  windows_exchange_hello offer atomics deadline.

Definition windows_decide := coordinator_decide windows_owner.

(** The channel is adopted before the offer is looked at. *)
Definition windows_from_environment (options : SessionOptions) : stm T PublicSessionError (Negotiating T) :=
  let deadline := so_deadline options in
  smap_err map_windows_error (native (windows_connect_spawned_helper deadline)) >>!
  let! offer := slift (validate_offer (offer_of options)) in
  let! atomics := native windows_discover_atomics in
  let! agreed :=
    receiver_hello windows_receiver (fun connected _ => Ok (channel_nonce connected)) offer atomics deadline in
  negotiating_of agreed deadline.

Definition windows_decide_after_coordinator := receiver_decide windows_receiver.

End Windows.
