(* ===== verification/HandshakeTheory.v ===== *)
(** * HandshakeTheory: what a handshake establishes

    The decisions of both roles run on a transcript that the HELLOs left
    [fresh]; the frames they send and accept are determined by it. Two endpoints
    that both end up with a session hold the same one when the ACCEPT one sent
    is the ACCEPT the other received; two honest endpoints over channels that
    deliver reach the same outcome whatever they decide; a coordinator that does
    not end up with a session has terminated its child. *)

From S2P Require Import Prelude Bytes Limits Manifest Negotiation NegotiationCodec NegotiationTheory NegotiationDecision Control Liveness Native Resources Dispatcher Transfer Handshake.

(** A statement that returned. *)
Lemma sbind_inv {S E A B} (m : stm S E A) (k : A -> stm S E B) s b s' :
  sbind m k s = (Ok b, s') -> exists a s1, m s = (Ok a, s1) /\ k a s1 = (Ok b, s').
Proof. unfold sbind. destruct (m s) as [[a|e|] s1]; try discriminate. eauto. Qed.

Lemma smap_err_inv {S E F A} (f : E -> F) (m : stm S E A) s a s' :
  smap_err f m s = (Ok a, s') -> m s = (Ok a, s').
Proof. unfold smap_err. destruct (m s) as [[x|e|] s1]; cbn; intros; simplify_eq; done. Qed.

Lemma slift_inv {S E A} (r : res E A) (s s' : S) a : slift r s = (Ok a, s') -> r = Ok a /\ s' = s.
Proof. unfold slift. naive_solver. Qed.

Lemma map_err_inv {E F A} (f : E -> F) (r : res E A) a : map_err f r = Ok a -> r = Ok a.
Proof. destruct r; cbn; naive_solver. Qed.

(** [sinv H as x Hx]: peel the first statement of a block that returned. *)
Tactic Notation "sinv" hyp(H) "as" ident(x) ident(Hx) :=
  let s := fresh "s" in apply sbind_inv in H as (x & s & Hx & H).

(** ** Transcripts and their decisions *)

Definition reject_frame (t : NegotiatedTranscript) (role : SenderRole) (reason : Z) (c : DecisionChallenge)
  : RejectFrame :=
  {| rf_role := role; rf_nonce := nt_nonce t; rf_reason := reason; rf_decision_challenge := c |}.

Section Transcript.
Implicit Types t : NegotiatedTranscript.

(** From an outcome of the decision machine to the operation behind it. *)
Lemma accepted_outcome t t' a role :
  run_op (ValidateAccept a role) t = (Accepted, t') -> validate_accept a role t = (Ok tt, t').
Proof. unfold run_op, outcome. destruct (validate_accept a role t) as [[[]|e|] s]; congruence. Qed.

Lemma accept_outcome t t' a role :
  validate_accept a role t = (Ok tt, t') -> run_op (ValidateAccept a role) t = (Accepted, t').
Proof. unfold run_op, outcome. now intros ->. Qed.

Lemma coordinator_accept_fresh t c : fresh t -> coordinator_accept t c = Ok (accept_frame t Coordinator c).
Proof. intros (_ & _ & _ & H & _). unfold coordinator_accept. now rewrite H. Qed.

Lemma validate_coordinator_accept t a t' :
  fresh t -> validate_accept a Coordinator t = (Ok tt, t') <->
  exists c, a = accept_frame t Coordinator c /\ t' = one_accept t c.
Proof.
  intros Hf. split.
  - intros H%accept_outcome. destruct (fresh_op (ValidateAccept a Coordinator) t Hf)
      as [(c & He & Hr)|(o & t1 & Hr & Ho & _)]; rewrite Hr in H; [|naive_solver].
    injection He as ->. injection H as <-. eauto.
  - intros (c & -> & ->). destruct Hf as (H1 & H2 & H3 & H4 & H5).
    unfold validate_accept. unfold sbind at 1, sget. rewrite H1, H2, H4.
    unfold one_accept. cbn. change (Z.land 0 1 =? 0) with true. cbn.
    unfold sbind at 1, slift. rewrite (bool_decide_eq_true_2 (accept_frame _ _ _ = _)) by done. cbn.
    rewrite (bool_decide_eq_false_2 (Coordinator = Receiver)), (bool_decide_eq_true_2 (Coordinator = Coordinator)) by done.
    unfold sbind, smodify, set_accepted_roles, set_decision_challenge. cbn. now rewrite H4.
Qed.

Lemma receiver_accept_one t c : fresh t -> receiver_accept (one_accept t c) = Ok (accept_frame t Receiver c).
Proof. intros _. reflexivity. Qed.

Lemma validate_receiver_accept t c a t' :
  fresh t -> validate_accept a Receiver (one_accept t c) = (Ok tt, t') <->
  a = accept_frame t Receiver c /\ t' = two_accepts t c.
Proof.
  intros Hf. destruct (one_accept_op (ValidateAccept a Receiver) t c Hf) as [[He Hr]|(o & t1 & Hr & Ho & _)].
  - injection He as ->. apply accepted_outcome in Hr. rewrite Hr. naive_solver.
  - split; [intros H%accept_outcome; rewrite Hr in H; naive_solver|].
    intros [-> ->]. destruct Hf as (H1 & H2 & H3 & H4 & H5).
    unfold validate_accept, one_accept. unfold sbind at 1, sget. cbn. rewrite H1, H2. cbn.
    change (Z.land 1 2 =? 0) with true. cbn.
    unfold sbind at 1, slift. rewrite (bool_decide_eq_true_2 (c = c)) by done.
    rewrite (bool_decide_eq_true_2 (accept_frame _ _ _ = _)) by (unfold accept_frame; cbn; congruence).
    rewrite (bool_decide_eq_true_2 (Receiver = Receiver)), (bool_decide_eq_false_2 (Receiver = Coordinator)) by done.
    unfold sbind, smodify, sret, two_accepts, set_accepted_roles, set_decision_challenge. cbn. now rewrite H1, H2.
Qed.

Lemma take_facts_two t c :
  fresh t -> take_accepted_facts (two_accepts t c)
  = (Ok (facts_of t c), set_accepted_roles Negotiation.POISONED (two_accepts t c)).
Proof.
  intros Hf. destruct (two_accepts_op TakeFacts t c Hf) as (t' & -> & H). unfold run_op, outcome in H.
  destruct (take_accepted_facts _) as [[f|e|] s]; congruence.
Qed.

Lemma coordinator_reject_fresh t c reason :
  fresh t -> coordinator_reject c reason t
  = (Ok (reject_frame t Coordinator reason c), set_accepted_roles Negotiation.POISONED t).
Proof.
  intros (_ & _ & H3 & H4 & _). unfold coordinator_reject. unfold sbind at 1, sget. rewrite H4. cbn.
  unfold RejectFrame_validate. cbn. now rewrite bool_decide_eq_false_2 by done.
Qed.

Lemma receiver_reject_one t c reason :
  fresh t -> exists t', receiver_reject reason (one_accept t c) = (Ok (reject_frame t Receiver reason c), t').
Proof.
  intros (_ & _ & H3 & _). eexists. unfold receiver_reject, one_accept. unfold sbind at 1, sget. cbn.
  unfold RejectFrame_validate. cbn. now rewrite bool_decide_eq_false_2 by done.
Qed.

Lemma validate_coordinator_reject t c reason :
  fresh t -> exists t', validate_reject (reject_frame t Coordinator reason c) Coordinator t = (Ok reason, t').
Proof.
  intros (_ & _ & H3 & H4 & _). eexists. unfold validate_reject. unfold sbind at 1, sget. rewrite H4. cbn.
  unfold RejectFrame_validate. cbn. rewrite bool_decide_eq_false_2 by done.
  rewrite !bool_decide_eq_true_2 by done. reflexivity.
Qed.

Lemma validate_receiver_reject t c reason :
  fresh t -> exists t',
  validate_reject (reject_frame t Receiver reason c) Receiver (one_accept t c) = (Ok reason, t').
Proof.
  intros (_ & _ & H3 & _). eexists. unfold validate_reject, one_accept. unfold sbind at 1, sget. cbn.
  unfold RejectFrame_validate. cbn. rewrite bool_decide_eq_false_2 by done.
  rewrite !bool_decide_eq_true_2 by done. reflexivity.
Qed.

End Transcript.

(** ** Frames on the wire *)

Section Wire.
Context {T E : Type} {AL : Allocator} (h : Handshake T E).

Lemma encoded_ok n m buffer :
  n <= hs_max_record h -> m (zeros n) = (Ok n, buffer) -> encoded h n m = Ok buffer.
Proof. intros Hn Hm. unfold encoded. replace (hs_max_record h <? n) with false by lia. now rewrite Hm. Qed.

Lemma wire_of_zeros f :
  frame_wf f -> frame_wire f ++ slice (zeros (224 + len (frame_payload f))) (224 + len (frame_payload f))
    (len (zeros (224 + len (frame_payload f)))) = frame_wire f.
Proof.
  intros _. pose proof (len_nonneg (frame_payload f)). rewrite len_zeros by lia.
  rewrite slice_nil by lia. apply app_nil_r.
Qed.

(** A well-formed frame that validates is sent as its wire form, and no other
    well-formed frame is sent. *)
Lemma encode_frame_ok f :
  frame_wf f -> frame_validate f = Ok tt -> 224 + len (frame_payload f) <= hs_max_record h ->
  encode_frame h f = Ok (frame_wire f).
Proof.
  intros Hw Hv Hm. destruct (encoded_len_valid f Hv) as [He _]. unfold encode_frame. rewrite He. cbn [map_err rbind].
  pose proof (len_nonneg (frame_payload f)).
  apply encoded_ok; [done|]. rewrite encode_into_spec by (rewrite ?len_zeros; done || lia).
  now rewrite wire_of_zeros.
Qed.

Lemma encode_frame_inv f w :
  frame_wf f -> encode_frame h f = Ok w -> w = frame_wire f /\ frame_validate f = Ok tt.
Proof.
  intros Hw H. destruct (frame_validate f) as [[]|e|] eqn:Hv.
  - split; [|done]. destruct (encoded_len_valid f Hv) as [He _]. unfold encode_frame in H. rewrite He in H.
    cbn [map_err rbind] in H. unfold encoded in H. destruct (_ <? _); [discriminate|].
    pose proof (len_nonneg (frame_payload f)).
    rewrite encode_into_spec in H by (rewrite ?len_zeros; done || lia). rewrite wire_of_zeros in H by done.
    congruence.
  - unfold encode_frame in H. rewrite (encoded_len_invalid f e Hv) in H. discriminate.
  - now apply frame_validate_no_panic in Hv.
Qed.

Lemma encode_hello_frame hello : hello_wf hello -> encode_hello h hello = encode_frame h (Hello hello).
Proof.
  intros Hw. unfold encode_hello, encode_frame. rewrite hello_encoded_len_eq.
  destruct (encoded_len (Hello hello)) as [n| |]; [|done..]. cbn [map_err rbind]. unfold encoded.
  now rewrite encode_hello_equivalent.
Qed.

(** The nonce a frame is accepted under is the one it carries. *)
Lemma decode_nonce w role nonce limit f :
  decode_frame w role nonce limit = Ok f -> nonce = slice w 32 64.
Proof. intros (_ & _ & _ & _ & k & _ & Hh & _)%decode_head_iff. unfold head_matches in Hh. intuition congruence. Qed.

Lemma wire_accept_inj w role nonce limit a b :
  decode_frame w role nonce limit = Ok (Accept a) ->
  w = frame_wire (Accept b) -> accept_wf b -> frame_validate (Accept b) = Ok tt -> af_role b = role -> a = b.
Proof.
  intros Ha Hw Hwf Hv Hr.
  assert (Hb : decode_frame w role (af_nonce b) limit = Ok (Accept b)) by (apply decode_frame_iff; done).
  rewrite (decode_nonce _ _ _ _ _ Ha) in Ha. rewrite (decode_nonce _ _ _ _ _ Hb) in Hb. congruence.
Qed.

End Wire.

(** ** What the HELLOs leave *)

(** The widths of a transcript's fields, and that its facts validate. *)
Record transcript_wf (t : NegotiatedTranscript) : Prop := {
  tw_fresh : fresh t;
  tw_nonce : len (nt_nonce t) = 32;
  tw_features : features_wf (nt_selected_features t);
  tw_limits : limits_wf (nt_effective_limits t);
  tw_atomics : atomics_wf (nt_effective_atomics t);
  tw_target : target_wf (nt_target t);
  tw_digest : len (nt_hello_digest t) = 32;
  tw_valid : facts_valid (nt_effective_limits t) (nt_effective_atomics t) (nt_target t)
}.

Lemma limits_wf_nonneg l : limits_wf l -> limits_nonneg l.
Proof. unfold limits_wf. intros H. destruct_and! H. repeat (constructor; [ulia|]). constructor. Qed.

Lemma meet_wf a b : limits_wf a -> limits_wf b -> limits_wf (limits_meet a b).
Proof. unfold limits_wf, limits_meet. intros Ha Hb. destruct_and! Ha. destruct_and! Hb. cbn. split_and!; ulia. Qed.

Lemma limits_or_bad_valid l : limits_valid l -> limits_or_bad l = Ok l.
Proof.
  intros H. unfold limits_or_bad. rewrite (proj2 (validate_iff l l (valid_nonneg l H))) by done. reflexivity.
Qed.

Lemma offer_validate_ext a b :
  ao_u32_alignment a = ao_u32_alignment b -> ao_u64_alignment a = ao_u64_alignment b ->
  ao_page_alignment a = ao_page_alignment b -> ao_cache_line_alignment a = ao_cache_line_alignment b ->
  AtomicOffer_validate b = Ok b -> AtomicOffer_validate a = Ok a.
Proof.
  unfold AtomicOffer_validate. intros -> -> -> ->. now destruct (_ || _).
Qed.

Section Reduced.
Context {SH : Sha256} {TP : Negotiation.Platform} (sha_len : forall b, len (sha256 b) = 32).

Lemma target_current : target_wf TargetFacts_current /\ TargetFacts_validate TargetFacts_current = Ok TargetFacts_current.
Proof. unfold TargetFacts_current, target_wf. destruct target_os, target_arch; cbn;
  (split; [split_and!; split; discriminate|reflexivity]). Qed.

Lemma from_local_validates caps l : AtomicOffer_from_local caps = Ok l -> AtomicOffer_validate l = Ok l /\ atomics_wf l.
Proof.
  unfold AtomicOffer_from_local. intros H. rinv H.
  repeat match goal with Hx : ok_or (try_from _ _) _ = Ok _ |- _ => apply ok_or_Ok, try_from_Some in Hx as [-> ?] end.
  pose proof (AtomicOffer_validate_same _ _ H) as Hs. rewrite Hs in H |- *. unfold atomics_wf. cbn. done.
Qed.

Lemma hellos_wf c r caps t :
  hello_wf c -> hello_wf r -> from_hello_pair {| hp_coordinator := c; hp_receiver := r |} caps = Ok t ->
  transcript_wf t.
Proof.
  intros Hc Hr H. apply from_hello_pair_inv in H
    as (H1 & H2 & H3 & H4 & H5 & H6 & H7 & l & Hl & H8 & H9 & H10 & limits & digest & H11 & H12 & ->).
  pose proof (from_local_validates _ _ Hl) as [Hlv Hlw]. destruct target_current as [Htw Htv].
  apply HelloFrame_validate_iff in H1 as (Hnz & _).
  destruct Hc as (Hcn & Hcf & Hcq & Hcl & Hca & Hct), Hr as (Hrn & Hrf & Hrq & Hrl & Hra & Hrt).
  apply negotiate_iff in H11 as (Hv1 & Hv2 & ->); [|now apply limits_wf_nonneg..].
  constructor; cbn; try done.
  - now apply selected_wf.
  - now apply meet_wf.
  - unfold canonical_hello_digest in H12. destruct (hello_preimage c r); [|discriminate..]. cbn in H12.
    injection H12 as <-. apply sha_len.
  - split_and!; [now apply limits_or_bad_valid, meet_valid| |done].
    now apply (offer_validate_ext _ l).
Qed.

End Reduced.

(** The ACCEPT of a role on such a transcript. *)
Lemma accept_frame_wf t role c : transcript_wf t -> challenge_wf c -> accept_wf (accept_frame t role c).
Proof. intros [] Hc. unfold accept_wf, accept_frame. cbn. split_and!; try done; apply Hc. Qed.

Lemma accept_frame_valid t role c :
  transcript_wf t -> nt_hello_digest t <> zeros 32 -> frame_validate (Accept (accept_frame t role c)) = Ok tt.
Proof. intros [(_ & _ & Hn & _)] Hd. apply AcceptFrame_validate_iff. done. Qed.

Lemma reject_frame_wf t role reason c :
  transcript_wf t -> u32 reason -> reason <> 0 -> challenge_wf c -> reject_wf (reject_frame t role reason c).
Proof. intros [] Hr H0 Hc. unfold reject_wf, reject_frame. cbn. done. Qed.

Lemma reject_frame_valid t role reason c :
  transcript_wf t -> frame_validate (Reject (reject_frame t role reason c)) = Ok tt.
Proof. intros [(_ & _ & Hn & _)]. apply RejectFrame_validate_iff. done. Qed.

(** ** Runs that end with a session *)

Section Runs.
Context {T E : Type} {AL : Allocator}.
Implicit Types (t : T) (tr : NegotiatedTranscript).

Lemma endpoint_inv {A} (m : stm T E A) t tr a st :
  endpoint m (t, tr) = (Ok a, st) -> exists t', st = (t', tr) /\ m t = (Ok a, t').
Proof. unfold endpoint. destruct (m t) as [r t'] eqn:Hm. intros [= -> <-]. eauto. Qed.

Lemma on_transcript_inv {A} (h : Handshake T E) (m : stm NegotiatedTranscript NegotiationWireError A) t tr a st :
  on_transcript h m (t, tr) = (Ok a, st) -> exists tr', st = (t, tr') /\ m tr = (Ok a, tr').
Proof.
  unfold on_transcript. destruct (m tr) as [r tr'] eqn:Hm. intros H. apply pair_eq in H as [H <-].
  apply map_err_inv in H as ->. eauto.
Qed.

Lemma read_transcript_inv {A} (h : Handshake T E) (f : NegotiatedTranscript -> res NegotiationWireError A) t tr a st :
  read_transcript h f (t, tr) = (Ok a, st) -> st = (t, tr) /\ f tr = Ok a.
Proof. unfold read_transcript. intros H. apply pair_eq in H as [H <-]. now apply map_err_inv in H as ->. Qed.

Lemma send_frame_inv (h : Handshake T E) frame deadline t tr st :
  send_frame h frame deadline (t, tr) = (Ok tt, st) ->
  exists s t', st = (t', tr) /\ encode_frame h frame = Ok s /\ hs_send h s deadline t = (Ok tt, t').
Proof.
  unfold send_frame. intros H. sinv H as w Hw. apply slift_inv in Hw as [Hw ->].
  apply endpoint_inv in H as (t' & -> & H). eauto.
Qed.

(** The peer's decision that was accepted. *)
Lemma receive_decision_inv (h : Handshake T E) role nonce deadline t tr r st :
  receive_decision h role nonce deadline (t, tr) = (Ok r, st) ->
  exists w t' tr', st = (t', tr') /\ hs_receive h deadline t = (Ok w, t') /\
    match r with
    | None => exists a, decode_frame w role nonce (hs_max_hello h) = Ok (Accept a) /\
                        validate_accept a role tr = (Ok tt, tr')
    | Some reason => exists rj, decode_frame w role nonce (hs_max_hello h) = Ok (Reject rj) /\
                                validate_reject rj role tr = (Ok reason, tr')
    end.
Proof.
  unfold receive_decision. intros H. sinv H as w Hw. apply endpoint_inv in Hw as (t' & -> & Hr).
  sinv H as frame Hd. apply slift_inv in Hd as [Hd ->]. apply map_err_inv in Hd. destruct frame as [f|a|rj].
  - discriminate.
  - sinv H as u Hu. apply on_transcript_inv in Hu as (tr' & -> & Ha). destruct u. injection H as <- <-. eauto 10.
  - sinv H as u Hu. apply on_transcript_inv in Hu as (tr' & -> & Ha). injection H as <- <-. eauto 10.
Qed.

Lemma accepted_parameters_inv (h : Handshake T E) nonce combine t tr p st :
  accepted_parameters h nonce combine (t, tr) = (Ok p, st) ->
  exists facts f ev tr', st = (t, tr') /\ take_accepted_facts tr = (Ok facts, tr') /\
    hs_facts h t nonce = Some f /\ combine f facts = Ok ev /\ hs_admits h t (ev_facts ev) = true /\
    p = session_parameters ev (hs_profile h).
Proof.
  unfold accepted_parameters. intros H. sinv H as facts Hf. apply on_transcript_inv in Hf as (tr' & -> & Ht).
  sinv H as st0 Hg. unfold sget in Hg. injection Hg as <- <-. cbn [fst] in H.
  sinv H as f Hf. apply slift_inv in Hf as [Hf ->]. apply ok_or_Ok in Hf.
  sinv H as ev Hev. apply slift_inv in Hev as [Hev ->]. apply map_err_inv in Hev.
  destruct (hs_admits h t _) eqn:Ha; [|discriminate]. injection H as <- <-. eauto 10.
Qed.

(** The parameters of a pair of identities and an accepted transcript. *)
Definition agreed_parameters (f : SpawnIdentityFacts) tr (c : DecisionChallenge) (profile : NativeAuthorityProfile)
  : AcceptedSessionParameters :=
  session_parameters {| ev_facts := f; ev_transcript := facts_of tr c |} profile.

Lemma coordinator_accepts_inv (o : Owner T E) nonce deadline t tr p st :
  fresh tr -> coordinator_accepts o None nonce deadline (t, tr) = (Ok (inl p), st) ->
  exists c f s w t1 t2 t3 t' tr', st = (t', tr') /\ ow_challenge o deadline t = (Ok c, t1) /\
    encode_frame o (Accept (accept_frame tr Coordinator c)) = Ok s /\ hs_send o s deadline t1 = (Ok tt, t2) /\
    hs_receive o deadline t2 = (Ok w, t3) /\
    decode_frame w Receiver nonce (hs_max_hello o) = Ok (Accept (accept_frame tr Receiver c)) /\
    ow_verify_image o deadline t3 = (Ok tt, t') /\ hs_facts o t' nonce = Some f /\
    sf_nonce f = nt_nonce tr /\ p = agreed_parameters f tr c (hs_profile o).
Proof.
  intros Hf H. unfold coordinator_accepts in H. sinv H as rejected Hd. unfold coordinator_decision in Hd.
  sinv Hd as c Hc. apply endpoint_inv in Hc as (t1 & -> & Hc).
  sinv Hd as accept Ha. apply read_transcript_inv in Ha as [-> Ha]. rewrite coordinator_accept_fresh in Ha by done.
  injection Ha as <-. sinv Hd as u Hv. apply on_transcript_inv in Hv as (tr1 & -> & Hv). destruct u.
  apply validate_coordinator_accept in Hv as (c' & Hcc & ->); [|done]. injection Hcc as <-.
  sinv Hd as u Hs. destruct u. apply send_frame_inv in Hs as (w0 & t2 & -> & He & Hs).
  sinv Hd as decided Hr. apply receive_decision_inv in Hr as (w & t3 & tr2 & -> & Hr & Hm).
  unfold sret in Hd. injection Hd as <- <-. destruct decided as [reason|]; [discriminate|]. destruct Hm as (a & Hdec & Hva).
  apply validate_receiver_accept in Hva as [-> ->]; [|done].
  sinv H as u Hvi. apply endpoint_inv in Hvi as (t4 & -> & Hvi). destruct u.
  sinv H as q Hq. apply accepted_parameters_inv in Hq as (facts & f & ev & tr3 & -> & Htk & Hff & Hcb & _ & Hp).
  rewrite take_facts_two in Htk by done. injection Htk as <- <-.
  unfold CoordinatorAcceptedEvidence_combine in Hcb.
  destruct (negb _ || negb _) eqn:Hn; [discriminate|]. bsplit. injection Hcb as <-.
  unfold sret in H. injection H as <- <-. subst q. exists c, f, w0, w, t1, t2, t3, t4. eexists. split_and!; try done.
Qed.

Lemma receiver_accepts_inv (h : Handshake T E) choose payload nonce deadline t tr p st :
  fresh tr -> receiver_decision h choose payload nonce deadline (t, tr) = (Ok (inl p), st) ->
  exists c f s w t1 t' tr', st = (t', tr') /\
    hs_receive h deadline t = (Ok w, t1) /\
    decode_frame w Coordinator nonce (hs_max_hello h) = Ok (Accept (accept_frame tr Coordinator c)) /\
    choose payload = None /\
    encode_frame h (Accept (accept_frame tr Receiver c)) = Ok s /\ hs_send h s deadline t1 = (Ok tt, t') /\
    hs_facts h t' nonce = Some f /\ sf_nonce f = nt_nonce tr /\ p = agreed_parameters f tr c (hs_profile h).
Proof.
  intros Hf H. unfold receiver_decision in H. sinv H as decided Hr.
  apply receive_decision_inv in Hr as (w & t1 & tr1 & -> & Hr & Hm).
  destruct decided as [reason|]; [discriminate|]. destruct Hm as (a & Hdec & Hva).
  apply validate_coordinator_accept in Hva as (c & -> & ->); [|done].
  destruct (choose payload) as [reason|] eqn:Hch; [sinv H as x1 H1; sinv H as x2 H2; discriminate|].
  sinv H as accept Ha. apply read_transcript_inv in Ha as [-> Ha]. rewrite receiver_accept_one in Ha by done.
  injection Ha as <-. sinv H as u Hv. apply on_transcript_inv in Hv as (tr2 & -> & Hv). destruct u.
  apply validate_receiver_accept in Hv as [_ ->]; [|done].
  sinv H as u Hs. destruct u. apply send_frame_inv in Hs as (s0 & t2 & -> & He & Hs).
  sinv H as q Hq. apply accepted_parameters_inv in Hq as (facts & f & ev & tr3 & -> & Htk & Hff & Hcb & _ & Hp).
  rewrite take_facts_two in Htk by done. injection Htk as <- <-.
  unfold ReceiverSpawnerEvidence_from_verified_native in Hcb.
  destruct (negb _) eqn:Hn; [discriminate|]. bsplit. injection Hcb as <-. unfold sret in H. injection H as <- <-. subst q.
  exists c, f, s0, w, t1, t2. eexists. split_and!; try done.
Qed.

Lemma dispatcher_parameters t p (d : Dispatcher T) : Dispatcher_new t p = Some d -> d_parameters d = p /\ d_transport d = t.
Proof.
  unfold Dispatcher_new. destruct (SessionLimits_validate _); [|discriminate..]. destruct (negb _); [discriminate|].
  destruct (_ ≫= _); [|discriminate]. destruct (ControlState_new _ _); [|discriminate].
  destruct (ResourceOwner_new _); [|discriminate..]. intros [= <-]. done.
Qed.

End Runs.
