(* ===== verification/HandshakeClaims.v ===== *)
(** * HandshakeClaims: two endpoints, one outcome

    A whole handshake is the exchange of HELLOs followed by the decisions. Over
    channels that deliver, two endpoints whose HELLOs are compatible reach the
    same outcome whatever each decides; over any channel, two endpoints that both
    hold a session hold the same one if the last packet one received is the last
    one the other sent; a coordinator without a session has terminated its child. *)

From S2P Require Import Prelude Bytes Limits Manifest Negotiation NegotiationCodec NegotiationTheory NegotiationDecision Control Liveness Native Resources Dispatcher Transfer Handshake HandshakeTheory.

(** ** Whole handshakes *)

Definition returned {E A} (r : res E A) : option A := match r with Ok a => Some a | _ => None end.

Section Sessions.
Context {T E : Type} {AL : Allocator} {SH : Sha256} {TP : Negotiation.Platform}.

(** The HELLOs and the decision of the coordinator: [exchange_hello] and
    [decide] of a backend. *)
Definition coordinator_session (o : Owner T E) (hello : HelloFrame) (atomics : AtomicCapabilities)
  (rejection : option Z) (deadline : Z) (t : T) : option (NativeOutcome (Dispatcher T)) * T :=
  match coordinator_hello o hello atomics deadline t with
  | (Ok (transcript, payload), t) =>
      let '(r, t) := coordinator_decide o rejection
        {| ng_native := t; ng_transcript := transcript; ng_nonce := hf_nonce hello; ng_deadline := deadline;
           ng_peer_application_payload := payload |} in
      (returned r, t)
  | (_, t) => (None, t)
  end.

(** The same of the receiver. *)
Definition receiver_session (h : Handshake T E) (nonce_of : T -> bytes -> res E bytes) (offer : HelloOffer)
  (atomics : AtomicCapabilities) (choose : bytes -> option Z) (deadline : Z) (t : T)
  : option (NativeOutcome (Dispatcher T)) * T :=
  match (let! agreed := receiver_hello h nonce_of offer atomics deadline in
         negotiating_of agreed deadline) t with
  | (Ok negotiating, t) => let '(r, t) := receiver_decide h choose negotiating in (returned r, t)
  | (_, t) => (None, t)
  end.

End Sessions.

(** ** Channels that deliver *)

(** The identities an endpoint reports do not change under an operation. *)
Definition same_identity {T E} (h : Handshake T E) (t t' : T) : Prop :=
  (forall nonce, hs_facts h t' nonce = hs_facts h t nonce) /\ (forall f, hs_admits h t' f = hs_admits h t f).

(** An endpoint with the packets it will be given and those it has sent. *)
Class Mailbox {T E} (h : Handshake T E) := {
  mb_inbox : T -> list bytes;
  mb_outbox : T -> list bytes
}.

Section Moves.
Context {T E : Type} (h : Handshake T E) {M : Mailbox h}.

Definition moves (received sent : list bytes) (t t' : T) : Prop :=
  mb_inbox t = received ++ mb_inbox t' /\ mb_outbox t' = mb_outbox t ++ sent /\ same_identity h t t'.

Lemma moves_trans r1 s1 r2 s2 t1 t2 t3 :
  moves r1 s1 t1 t2 -> moves r2 s2 t2 t3 -> moves (r1 ++ r2) (s1 ++ s2) t1 t3.
Proof.
  unfold moves, same_identity. intros (Hi1 & Ho1 & Hf1 & Ha1) (Hi2 & Ho2 & Hf2 & Ha2).
  rewrite Hi1, Hi2, Ho2, Ho1, !app_assoc. split_and!; try done; congruence.
Qed.

End Moves.

(** Sends and receives succeed, in order. *)
Class Reliable {T E} (h : Handshake T E) {M : Mailbox h} := {
  rl_send w deadline t :
    len w <= hs_max_record h -> exists t', hs_send h w deadline t = (Ok tt, t') /\ moves h [] [w] t t';
  rl_receive w rest deadline t :
    mb_inbox t = w :: rest -> exists t', hs_receive h deadline t = (Ok w, t') /\ moves h [w] [] t t'
}.

(** The challenge is drawn, the image of the child is the held one, and ending
    the child sends nothing. *)
Class ReliableOwner {T E} (o : Owner T E) (challenge : DecisionChallenge) {M : Mailbox o} := {
  ro_reliable :: Reliable o;
  ro_challenge deadline t : exists t', ow_challenge o deadline t = (Ok challenge, t') /\ moves o [] [] t t';
  ro_verify deadline t : exists t', ow_verify_image o deadline t = (Ok tt, t') /\ moves o [] [] t t';
  ro_terminate deadline t : moves o [] [] t (snd (ow_terminate o deadline t))
}.

(** The identities of an endpoint make a pair bound to the nonce. *)
Record identified {T E} (h : Handshake T E) (t : T) (nonce : bytes) (f : SpawnIdentityFacts) : Prop := {
  id_facts : hs_facts h t nonce = Some f;
  id_nonce : sf_nonce f = nonce;
  id_admits : hs_admits h t f = true
}.

Lemma identified_moves {T E} (h : Handshake T E) {M : Mailbox h} r s t t' nonce f :
  moves h r s t t' -> identified h t nonce f -> identified h t' nonce f.
Proof. intros (_ & _ & Hf & Ha) [H1 H2 H3]. split; [now rewrite Hf|done|now rewrite Ha]. Qed.

(** A frame the endpoint can send, and one it can be sent. *)
Definition sendable {T E} (h : Handshake T E) (f : NegotiationFrame) : Prop :=
  frame_wf f /\ frame_validate f = Ok tt /\ 224 + len (frame_payload f) <= hs_max_record h.
Definition receivable {T E} {AL : Allocator} (h : Handshake T E) (f : NegotiationFrame) : Prop :=
  frame_wf f /\ frame_validate f = Ok tt /\ payload_admitted (hs_max_hello h) f.

Lemma receivable_decode {T E} {AL : Allocator} (h : Handshake T E) f :
  receivable h f ->
  decode_frame (frame_wire f) (frame_role f) (frame_nonce f) (hs_max_hello h) = Ok f.
Proof. intros (Hw & Hv & Ha). now apply decode_frame_iff. Qed.

(** ** Each step, forwards *)

Section Forward.
Context {T E : Type} {AL : Allocator} (h : Handshake T E) {M : Mailbox h} {R : Reliable h}.
Implicit Types (t : T) (tr : NegotiatedTranscript).

(** The sequence of a statement that returns. *)
Lemma sbind_ok {S F A B} (m : stm S F A) (k : A -> stm S F B) s a s1 :
  m s = (Ok a, s1) -> sbind m k s = k a s1.
Proof. unfold sbind. now intros ->. Qed.

Lemma endpoint_ok {A} (m : stm T E A) t tr a t' : m t = (Ok a, t') -> endpoint m (t, tr) = (Ok a, (t', tr)).
Proof. unfold endpoint. now intros ->. Qed.

Lemma on_transcript_ok {A} (m : stm NegotiatedTranscript NegotiationWireError A) t tr a tr' :
  m tr = (Ok a, tr') -> on_transcript h m (t, tr) = (Ok a, (t, tr')).
Proof. unfold on_transcript. now intros ->. Qed.

Lemma send_packet f deadline t :
  sendable h f -> exists t', hs_send h (frame_wire f) deadline t = (Ok tt, t') /\ moves h [] [frame_wire f] t t'.
Proof. intros (Hw & Hv & Hm). apply rl_send. now rewrite frame_wire_len. Qed.

Lemma encode_sendable f : sendable h f -> encode_frame h f = Ok (frame_wire f).
Proof. intros (Hw & Hv & Hm). now apply encode_frame_ok. Qed.

Lemma send_frame_ok f deadline t tr :
  sendable h f -> exists t', send_frame h f deadline (t, tr) = (Ok tt, (t', tr)) /\ moves h [] [frame_wire f] t t'.
Proof.
  intros Hs. destruct (send_packet f deadline t Hs) as (t' & He & Hm). exists t'. split; [|done].
  unfold send_frame. rewrite encode_sendable by done. now apply endpoint_ok.
Qed.

(** A decision that is waiting in the mailbox. *)
Lemma receive_accept_ok a rest deadline t tr tr' :
  receivable h (Accept a) -> mb_inbox t = frame_wire (Accept a) :: rest ->
  validate_accept a (af_role a) tr = (Ok tt, tr') ->
  exists t', receive_decision h (af_role a) (af_nonce a) deadline (t, tr) = (Ok None, (t', tr')) /\
             moves h [frame_wire (Accept a)] [] t t'.
Proof.
  intros Hr Hi Hv. destruct (rl_receive _ _ deadline t Hi) as (t' & He & Hm). exists t'. split; [|done].
  unfold receive_decision. rewrite (sbind_ok _ _ _ _ _ (endpoint_ok _ _ _ _ _ He)).
  pose proof (receivable_decode h _ Hr) as Hd. cbn [frame_role frame_nonce] in Hd. rewrite Hd.
  unfold slift, sbind at 1. cbn [map_err]. now rewrite (sbind_ok _ _ _ _ _ (on_transcript_ok _ _ _ _ _ Hv)).
Qed.

Lemma receive_reject_ok rj reason rest deadline t tr tr' :
  receivable h (Reject rj) -> mb_inbox t = frame_wire (Reject rj) :: rest ->
  validate_reject rj (rf_role rj) tr = (Ok reason, tr') ->
  exists t', receive_decision h (rf_role rj) (rf_nonce rj) deadline (t, tr) = (Ok (Some reason), (t', tr')) /\
             moves h [frame_wire (Reject rj)] [] t t'.
Proof.
  intros Hr Hi Hv. destruct (rl_receive _ _ deadline t Hi) as (t' & He & Hm). exists t'. split; [|done].
  unfold receive_decision. rewrite (sbind_ok _ _ _ _ _ (endpoint_ok _ _ _ _ _ He)).
  pose proof (receivable_decode h _ Hr) as Hd. cbn [frame_role frame_nonce] in Hd. rewrite Hd.
  unfold slift, sbind at 1. cbn [map_err]. now rewrite (sbind_ok _ _ _ _ _ (on_transcript_ok _ _ _ _ _ Hv)).
Qed.

(** The evidence of an identified endpoint over a transcript both accepted. *)
Lemma accepted_parameters_ok combine f c t tr :
  fresh tr -> identified h t (nt_nonce tr) f ->
  combine f (facts_of tr c) = Ok {| ev_facts := f; ev_transcript := facts_of tr c |} ->
  exists tr', accepted_parameters h (nt_nonce tr) combine (t, two_accepts tr c)
              = (Ok (agreed_parameters f tr c (hs_profile h)), (t, tr')).
Proof.
  intros Hf [H1 H2 H3] Hc. eexists. unfold accepted_parameters.
  rewrite (sbind_ok _ _ _ _ _ (on_transcript_ok _ _ _ _ _ (take_facts_two _ c Hf))).
  unfold sget at 1, sbind at 1. cbn [fst]. rewrite H1. unfold slift at 1, sbind at 1. cbn [ok_or].
  rewrite Hc. unfold slift, sbind at 1. cbn [map_err ev_facts]. now rewrite H3.
Qed.

Lemma dispatcher_accepts t f tr c :
  transcript_wf tr -> sf_nonce f = nt_nonce tr -> NativeAuthorityProfile_is_vnext (hs_profile h) = true ->
  exists d, Dispatcher_new t (agreed_parameters f tr c (hs_profile h)) = Some d.
Proof.
  intros [(_ & _ & Hz & _) _ _ Hlw _ _ _ (Hv & _)] Hn Hp. apply map_err_inv in Hv.
  set (p := agreed_parameters f tr c (hs_profile h)).
  change (nt_effective_limits tr) with (ap_limits p) in *. change (sf_nonce f) with (sf_nonce (ap_facts p)) in Hn.
  change (hs_profile h) with (ap_authority_profile p) in Hp. clearbody p.
  pose proof (proj1 (validate_iff _ _ (limits_wf_nonneg _ Hlw)) Hv) as [Hlv _].
  unfold Dispatcher_new. rewrite Hv, Hp, Hn. cbn [negb]. limits_split.
  assert (Ht : try_from USIZE_MAX (sl_max_control_payload_bytes (ap_limits p))
               = Some (sl_max_control_payload_bytes (ap_limits p))).
  { apply try_from_Some. split; [done|]. unfold fits, USIZE_MAX, U64_MAX. lia. }
  rewrite Ht. cbn [mbind option_bind]. unfold control_wire_len.
  rewrite checked_add_ok by (unfold CONTROL_HEADER_LEN, USIZE_MAX, U64_MAX; lia).
  unfold ControlState_new, HARD_MAX_CONTROL_PAYLOAD_BYTES.
  rewrite bool_decide_eq_false_2 by done. destruct (_ || _) eqn:Hb; [rewrite orb_true_iff in Hb; lia|].
  unfold ResourceOwner_new. rewrite Hv. cbn. eauto.
Qed.

End Forward.

(** ** The decisions, forwards *)

(** What each side sends once the HELLOs reduced to [tr]. *)
Definition coordinator_frame (tr : NegotiatedTranscript) (c : DecisionChallenge) (rejection : option Z)
  : NegotiationFrame :=
  match rejection with
  | Some reason => Reject (reject_frame tr Coordinator reason c)
  | None => Accept (accept_frame tr Coordinator c)
  end.
Definition receiver_frame (tr : NegotiatedTranscript) (c : DecisionChallenge) (choice : option Z)
  : NegotiationFrame :=
  match choice with
  | Some reason => Reject (reject_frame tr Receiver reason c)
  | None => Accept (accept_frame tr Receiver c)
  end.
(** A receiver answers an ACCEPT only. *)
Definition receiver_frames (tr : NegotiatedTranscript) (c : DecisionChallenge) (rejection choice : option Z)
  : list bytes :=
  match rejection with Some _ => [] | None => [frame_wire (receiver_frame tr c choice)] end.

(** Who rejects, given what each side wants. *)
Definition decided (rejection choice : option Z) : option (SenderRole * Z) :=
  match rejection with Some reason => Some (Coordinator, reason) | None => pair Receiver <$> choice end.

(** A [NonZeroU32], if any. *)
Definition reason_wf (rejection : option Z) : Prop :=
  match rejection with Some reason => u32 reason /\ reason <> 0 | None => True end.

(** A transcript with decisions that can be put on the wire. *)
Record decidable (tr : NegotiatedTranscript) (c : DecisionChallenge) : Prop := {
  dc_wf : transcript_wf tr;
  dc_digest : nt_hello_digest tr <> zeros 32;
  dc_challenge : challenge_wf c
}.

Section Frames.
Context {T E : Type} {AL : Allocator} (h : Handshake T E) (tr : NegotiatedTranscript) (c : DecisionChallenge)
        (Hd : decidable tr c).

Lemma accept_ready role : frame_wf (Accept (accept_frame tr role c)) /\ frame_validate (Accept (accept_frame tr role c)) = Ok tt.
Proof. destruct Hd. split; [now apply accept_frame_wf|now apply accept_frame_valid]. Qed.

Lemma reject_ready role reason :
  u32 reason /\ reason <> 0 -> frame_wf (Reject (reject_frame tr role reason c)) /\
  frame_validate (Reject (reject_frame tr role reason c)) = Ok tt.
Proof. intros []. destruct Hd. split; [now apply reject_frame_wf|now apply reject_frame_valid]. Qed.

Lemma coordinator_frame_ready rejection :
  reason_wf rejection -> 224 <= hs_max_record h ->
  sendable h (coordinator_frame tr c rejection) /\ receivable h (coordinator_frame tr c rejection).
Proof.
  intros Hr Hm. assert (H : frame_wf (coordinator_frame tr c rejection) /\
    frame_validate (coordinator_frame tr c rejection) = Ok tt)
    by (destruct rejection; [now apply reject_ready|apply accept_ready]).
  destruct rejection; unfold sendable, receivable; cbn in *; tauto.
Qed.

Lemma receiver_frame_ready choice :
  reason_wf choice -> 224 <= hs_max_record h ->
  sendable h (receiver_frame tr c choice) /\ receivable h (receiver_frame tr c choice).
Proof.
  intros Hr Hm. assert (H : frame_wf (receiver_frame tr c choice) /\ frame_validate (receiver_frame tr c choice) = Ok tt)
    by (destruct choice; [now apply reject_ready|apply accept_ready]).
  destruct choice; unfold sendable, receivable; cbn in *; tauto.
Qed.

End Frames.

(** The outcome of a side: a session with the parameters when nobody rejects,
    else who rejected and why, with the cleanup of the child at its owner. *)
Definition settled {T} (who : option (SenderRole * Z)) (parameters : AcceptedSessionParameters) (owner : bool)
  (outcome : NativeOutcome (Dispatcher T)) : Prop :=
  match outcome, who with
  | Outcome_Accepted session, None => d_parameters session = parameters
  | Outcome_Rejected by_role reason cleanup, Some (role, why) =>
      by_role = role /\ reason = why /\ (is_Some cleanup <-> owner = true)
  | _, _ => False
  end.

Section CoordinatorForward.
Context {T E : Type} {AL : Allocator} (o : Owner T E) (c : DecisionChallenge) {M : Mailbox o}
        {RO : ReliableOwner o c} (tr : NegotiatedTranscript) (Hd : decidable tr c)
        (Hmax : 224 <= hs_max_record o).

Lemma coordinator_rejects reason deadline t :
  u32 reason /\ reason <> 0 -> exists t' tr',
  coordinator_decision o (Some reason) (nt_nonce tr) deadline (t, tr) = (Ok (Some (Coordinator, reason)), (t', tr')) /\
  moves o [] [frame_wire (coordinator_frame tr c (Some reason))] t t'.
Proof.
  intros Hr. destruct (ro_challenge deadline t) as (t1 & Hc & Hm1).
  destruct (coordinator_frame_ready o tr c Hd (Some reason) Hr Hmax) as [Hs _].
  destruct (send_frame_ok o _ deadline t1 (set_accepted_roles Negotiation.POISONED tr) Hs) as (t2 & Hf & Hm2).
  exists t2, (set_accepted_roles Negotiation.POISONED tr). split; [|exact (moves_trans o _ _ _ _ _ _ _ Hm1 Hm2)].
  unfold coordinator_decision. rewrite (sbind_ok _ _ _ _ _ (endpoint_ok _ _ _ _ _ Hc)).
  rewrite (sbind_ok _ _ _ _ _ (on_transcript_ok _ _ _ _ _ _ (coordinator_reject_fresh tr c reason (tw_fresh _ (dc_wf _ _ Hd))))).
  now rewrite (sbind_ok _ _ _ _ _ Hf).
Qed.

(** An ACCEPT and the receiver's answer to it. *)
Lemma coordinator_answered choice deadline t rest :
  reason_wf choice -> mb_inbox t = frame_wire (receiver_frame tr c choice) :: rest -> exists t' tr',
  coordinator_decision o None (nt_nonce tr) deadline (t, tr) = (Ok (decided None choice), (t', tr')) /\
  (choice = None -> tr' = two_accepts tr c) /\
  moves o [frame_wire (receiver_frame tr c choice)] [frame_wire (coordinator_frame tr c None)] t t'.
Proof.
  intros Hr Hi. pose proof (tw_fresh _ (dc_wf _ _ Hd)) as Hfr. destruct (ro_challenge deadline t) as (t1 & Hc & Hm1).
  destruct (coordinator_frame_ready o tr c Hd None I Hmax) as [Hs _].
  destruct (send_frame_ok o _ deadline t1 (one_accept tr c) Hs) as (t2 & Hf & Hm2).
  pose proof (moves_trans o _ _ _ _ _ _ _ Hm1 Hm2) as Hm. destruct (Hm) as (Hin & _). rewrite Hi in Hin.
  destruct (receiver_frame_ready o tr c Hd choice Hr Hmax) as [_ Hrec].
  assert (Hdec : exists t' tr', receive_decision o Receiver (nt_nonce tr) deadline (t2, one_accept tr c)
                   = (Ok choice, (t', tr')) /\ (choice = None -> tr' = two_accepts tr c) /\
                   moves o [frame_wire (receiver_frame tr c choice)] [] t2 t').
  { destruct choice as [reason|].
    - destruct (validate_receiver_reject tr c reason Hfr) as (tr' & Hv).
      destruct (receive_reject_ok o _ _ _ deadline _ _ _ Hrec (eq_sym Hin) Hv) as (t' & He & Hm3). now exists t', tr'.
    - destruct (receive_accept_ok o _ _ deadline _ _ _ Hrec (eq_sym Hin)
        (proj2 (validate_receiver_accept tr c _ _ Hfr) (conj eq_refl eq_refl))) as (t' & He & Hm3). now exists t', (two_accepts tr c). }
  destruct Hdec as (t' & tr' & He & Htr & Hm3). exists t', tr'.
  split_and!; [|done|exact (moves_trans o _ _ _ _ _ _ _ Hm Hm3)].
  unfold coordinator_decision. rewrite (sbind_ok _ _ _ _ _ (endpoint_ok _ _ _ _ _ Hc)).
  unfold read_transcript at 1, sbind at 1. rewrite coordinator_accept_fresh by done. cbn [map_err].
  rewrite (sbind_ok _ _ _ _ _ (on_transcript_ok _ _ _ _ _ _ (proj2 (validate_coordinator_accept tr _ _ Hfr) (ex_intro _ c (conj eq_refl eq_refl))))).
  rewrite (sbind_ok _ _ _ _ _ Hf), (sbind_ok _ _ _ _ _ He). now destruct choice.
Qed.

Lemma coordinator_decides rejection choice payload f deadline t rest :
  reason_wf rejection -> reason_wf choice -> identified o t (nt_nonce tr) f ->
  NativeAuthorityProfile_is_vnext (hs_profile o) = true ->
  mb_inbox t = receiver_frames tr c rejection choice ++ rest -> exists outcome t',
  coordinator_decide o rejection
    {| ng_native := t; ng_transcript := tr; ng_nonce := nt_nonce tr; ng_deadline := deadline;
       ng_peer_application_payload := payload |} = (Ok outcome, t') /\
  moves o (receiver_frames tr c rejection choice) [frame_wire (coordinator_frame tr c rejection)] t t' /\
  settled (decided rejection choice) (agreed_parameters f tr c (hs_profile o)) true outcome.
Proof.
  intros Hr Hch Hid Hp Hi. pose proof (tw_fresh _ (dc_wf _ _ Hd)) as Hfr.
  assert (Hdec : exists t1 tr1, coordinator_decision o rejection (nt_nonce tr) deadline (t, tr)
            = (Ok (decided rejection choice), (t1, tr1)) /\
            (decided rejection choice = None -> tr1 = two_accepts tr c) /\
            moves o (receiver_frames tr c rejection choice) [frame_wire (coordinator_frame tr c rejection)] t t1).
  { destruct rejection as [reason|].
    - destruct (coordinator_rejects reason deadline t Hr) as (t1 & tr1 & He & Hm). now exists t1, tr1.
    - destruct (coordinator_answered choice deadline t rest Hch Hi) as (t1 & tr1 & He & Htr & Hm).
      exists t1, tr1. split_and!; try done. destruct choice; naive_solver. }
  destruct Hdec as (t1 & tr1 & He & Htr & Hm). unfold coordinator_decide, coordinator_accepts. cbn [ng_deadline ng_nonce ng_native ng_transcript].
  rewrite (sbind_ok _ _ _ _ _ He). destruct (decided rejection choice) as [[role why]|] eqn:Hw.
  - pose proof (ro_terminate deadline t1) as Hm2. unfold sret.
    destruct (ow_terminate o deadline t1) as [cleanup t2]. cbn [snd] in Hm2.
    exists (Outcome_Rejected role why (Some cleanup)), t2. split_and!; [done| |now split_and!; eauto].
    pose proof (moves_trans o _ _ _ _ _ _ _ Hm Hm2) as H. now rewrite !app_nil_r in H.
  - rewrite (Htr eq_refl) in *. destruct (ro_verify deadline t1) as (t2 & Hv & Hm2).
    rewrite (sbind_ok _ _ _ _ _ (endpoint_ok _ _ _ _ _ Hv)).
    pose proof (moves_trans o _ _ _ _ _ _ _ Hm Hm2) as Hm3. rewrite !app_nil_r in Hm3.
    pose proof (identified_moves o _ _ _ _ _ _ Hm3 Hid) as Hid2. pose proof (id_nonce _ _ _ _ Hid2) as Hn.
    destruct (accepted_parameters_ok o (fun facts transcript => CoordinatorAcceptedEvidence_combine facts facts transcript)
                f c t2 tr Hfr Hid2) as (tr2 & Ha).
    { unfold CoordinatorAcceptedEvidence_combine. now rewrite !bool_decide_eq_true_2. }
    rewrite (sbind_ok _ _ _ _ _ Ha). unfold sret.
    destruct (dispatcher_accepts o t2 f tr c (dc_wf _ _ Hd) Hn Hp) as (d & Hdn). rewrite Hdn.
    exists (Outcome_Accepted d), t2. split_and!; [done..|]. exact (proj1 (dispatcher_parameters _ _ _ Hdn)).
Qed.

End CoordinatorForward.

Section ReceiverForward.
Context {T E : Type} {AL : Allocator} (h : Handshake T E) (c : DecisionChallenge) {M : Mailbox h}
        {R : Reliable h} (tr : NegotiatedTranscript) (Hd : decidable tr c) (Hmax : 224 <= hs_max_record h).

(** The coordinator's decision arrives. *)
Lemma receiver_hears rejection rest deadline t :
  reason_wf rejection -> mb_inbox t = frame_wire (coordinator_frame tr c rejection) :: rest -> exists t' tr',
  receive_decision h Coordinator (nt_nonce tr) deadline (t, tr) = (Ok rejection, (t', tr')) /\
  (rejection = None -> tr' = one_accept tr c) /\
  moves h [frame_wire (coordinator_frame tr c rejection)] [] t t'.
Proof.
  intros Hr Hi. pose proof (tw_fresh _ (dc_wf _ _ Hd)) as Hfr.
  destruct (coordinator_frame_ready h tr c Hd rejection Hr Hmax) as [_ Hrec].
  destruct rejection as [reason|].
  - destruct (validate_coordinator_reject tr c reason Hfr) as (tr' & Hv).
    destruct (receive_reject_ok h _ _ _ deadline _ _ _ Hrec Hi Hv) as (t' & He & Hm). now exists t', tr'.
  - destruct (receive_accept_ok h _ _ deadline _ _ _ Hrec Hi
      (proj2 (validate_coordinator_accept tr _ _ Hfr) (ex_intro _ c (conj eq_refl eq_refl)))) as (t' & He & Hm).
    now exists t', (one_accept tr c).
Qed.

Lemma receiver_accepts_ok f deadline t :
  identified h t (nt_nonce tr) f -> exists t' tr',
  (let! accept := read_transcript h receiver_accept in
   on_transcript h (validate_accept accept Receiver) >>!
   send_frame h (Accept accept) deadline >>!
   let! parameters := accepted_parameters h (nt_nonce tr) ReceiverSpawnerEvidence_from_verified_native in
   sret (inl parameters)) (t, one_accept tr c)
  = (Ok (inl (agreed_parameters f tr c (hs_profile h)) : AcceptedSessionParameters + SenderRole * Z), (t', tr')) /\
  moves h [] [frame_wire (receiver_frame tr c None)] t t'.
Proof.
  intros Hid. pose proof (tw_fresh _ (dc_wf _ _ Hd)) as Hfr.
  destruct (receiver_frame_ready h tr c Hd None I Hmax) as [Hs _].
  destruct (send_frame_ok h _ deadline t (two_accepts tr c) Hs) as (t1 & He & Hm).
  pose proof (identified_moves h _ _ _ _ _ _ Hm Hid) as Hid1.
  destruct (accepted_parameters_ok h ReceiverSpawnerEvidence_from_verified_native f c t1 tr Hfr Hid1) as (tr2 & Ha).
  { unfold ReceiverSpawnerEvidence_from_verified_native. rewrite bool_decide_eq_true_2; [done|].
    exact (id_nonce _ _ _ _ Hid1). }
  exists t1, tr2. split; [|done]. unfold read_transcript at 1, sbind at 1. rewrite receiver_accept_one by done. cbn [map_err].
  rewrite (sbind_ok _ _ _ _ _ (on_transcript_ok _ _ _ _ _ _ (proj2 (validate_receiver_accept tr c _ _ Hfr) (conj eq_refl eq_refl)))).
  now rewrite (sbind_ok _ _ _ _ _ He), (sbind_ok _ _ _ _ _ Ha).
Qed.

Lemma receiver_rejects_ok reason deadline t :
  u32 reason /\ reason <> 0 -> exists t' tr',
  (let! reject := on_transcript h (receiver_reject reason) in
   send_frame h (Reject reject) deadline >>!
   sret (inr (Receiver, reason))) (t, one_accept tr c)
  = (Ok (inr (Receiver, reason) : AcceptedSessionParameters + SenderRole * Z), (t', tr')) /\
  moves h [] [frame_wire (receiver_frame tr c (Some reason))] t t'.
Proof.
  intros Hr. destruct (receiver_reject_one tr c reason (tw_fresh _ (dc_wf _ _ Hd))) as (tr1 & Hj).
  destruct (receiver_frame_ready h tr c Hd (Some reason) Hr Hmax) as [Hs _].
  destruct (send_frame_ok h _ deadline t tr1 Hs) as (t1 & He & Hm). exists t1, tr1. split; [|done].
  rewrite (sbind_ok _ _ _ _ _ (on_transcript_ok _ _ _ _ _ _ Hj)). now rewrite (sbind_ok _ _ _ _ _ He).
Qed.

Lemma receiver_decides rejection choose payload f deadline t rest :
  reason_wf rejection -> reason_wf (choose payload) -> identified h t (nt_nonce tr) f ->
  NativeAuthorityProfile_is_vnext (hs_profile h) = true ->
  mb_inbox t = frame_wire (coordinator_frame tr c rejection) :: rest -> exists outcome t',
  receiver_decide h choose
    {| ng_native := t; ng_transcript := tr; ng_nonce := nt_nonce tr; ng_deadline := deadline;
       ng_peer_application_payload := payload |} = (Ok outcome, t') /\
  moves h [frame_wire (coordinator_frame tr c rejection)] (receiver_frames tr c rejection (choose payload)) t t' /\
  settled (decided rejection (choose payload)) (agreed_parameters f tr c (hs_profile h)) false outcome.
Proof.
  intros Hr Hch Hid Hp Hi. destruct (receiver_hears rejection rest deadline t Hr Hi) as (t1 & tr1 & He & Htr & Hm).
  unfold receiver_decide, receiver_decision. cbn [ng_deadline ng_nonce ng_native ng_transcript ng_peer_application_payload].
  rewrite (sbind_ok _ _ _ _ _ He). destruct rejection as [reason|].
  - exists (Outcome_Rejected Coordinator reason None), t1. split_and!; [done..|]. split_and!; [done..|].
    split; [intros []|]; done.
  - rewrite (Htr eq_refl). pose proof (identified_moves h _ _ _ _ _ _ Hm Hid) as Hid1.
    destruct (choose payload) as [reason|] eqn:Hc.
    + destruct (receiver_rejects_ok reason deadline t1 Hch) as (t2 & tr2 & Hs & Hm2). rewrite Hs.
      exists (Outcome_Rejected Receiver reason None), t2. split_and!; [done|exact (moves_trans h _ _ _ _ _ _ _ Hm Hm2)|].
      split_and!; [done..|]. split; [intros []|]; done.
    + destruct (receiver_accepts_ok f deadline t1 Hid1) as (t2 & tr2 & Hs & Hm2). rewrite Hs.
      destruct (dispatcher_accepts h t2 f tr c (dc_wf _ _ Hd) (id_nonce _ _ _ _ Hid1) Hp) as (d & Hdn). rewrite Hdn.
      exists (Outcome_Accepted d), t2. split_and!; [done|exact (moves_trans h _ _ _ _ _ _ _ Hm Hm2)|].
      exact (proj1 (dispatcher_parameters _ _ _ Hdn)).
Qed.

End ReceiverForward.

(** ** The HELLOs, forwards *)

Section HelloForward.
Context {T E : Type} {AL : Allocator} {SH : Sha256} {TP : Negotiation.Platform} (h : Handshake T E)
        {M : Mailbox h} {R : Reliable h}.

Lemma send_hello_ok hello deadline t :
  sendable h (Hello hello) -> encode_hello h hello = Ok (frame_wire (Hello hello)) /\ exists t',
  hs_send h (frame_wire (Hello hello)) deadline t = (Ok tt, t') /\ moves h [] [frame_wire (Hello hello)] t t'.
Proof.
  intros Hs. split; [|now apply send_packet]. rewrite encode_hello_frame by apply Hs. now apply encode_sendable.
Qed.

Lemma expect_hello_ok hello :
  receivable h (Hello hello) -> expect_hello h (frame_wire (Hello hello)) (hf_role hello) (hf_nonce hello) = Ok hello.
Proof.
  intros Hr. pose proof (receivable_decode h _ Hr) as Hd. cbn [frame_role frame_nonce] in Hd.
  unfold expect_hello. now rewrite Hd.
Qed.

Lemma coordinator_hello_ok c r atomics tr deadline t rest :
  sendable h (Hello c) -> receivable h (Hello r) -> hf_role r = Receiver -> hf_nonce r = hf_nonce c ->
  from_hello_pair {| hp_coordinator := c; hp_receiver := r |} atomics = Ok tr ->
  mb_inbox t = frame_wire (Hello r) :: rest -> exists t',
  coordinator_hello h c atomics deadline t = (Ok (tr, hf_application_payload r), t') /\
  moves h [frame_wire (Hello r)] [frame_wire (Hello c)] t t'.
Proof.
  intros Hc Hr Hrole Hn Hp Hi. destruct (send_hello_ok c deadline t Hc) as (Henc & t1 & Hs & Hm1).
  destruct (Hm1) as (Hin & _). rewrite Hi in Hin.
  destruct (rl_receive _ _ deadline t1 (eq_sym Hin)) as (t2 & Hrc & Hm2).
  exists t2. split; [|exact (moves_trans h _ _ _ _ _ _ _ Hm1 Hm2)].
  pose proof (expect_hello_ok r Hr) as Hx. rewrite Hrole, Hn in Hx.
  unfold coordinator_hello. rewrite Henc. unfold slift at 1, sbind at 1.
  rewrite (sbind_ok _ _ _ _ _ Hs), (sbind_ok _ _ _ _ _ Hrc), Hx. unfold slift, sbind.
  unfold from_hellos_with_peer_payload. now rewrite Hp.
Qed.

Lemma receiver_hello_ok nonce_of offer c r atomics tr deadline t rest :
  receivable h (Hello c) -> sendable h (Hello r) -> hf_role c = Coordinator ->
  (forall t, nonce_of t (frame_wire (Hello c)) = Ok (hf_nonce c)) ->
  make_hello h Receiver (hf_nonce c) offer atomics = Ok r ->
  from_hello_pair {| hp_coordinator := c; hp_receiver := r |} atomics = Ok tr ->
  mb_inbox t = frame_wire (Hello c) :: rest -> exists t',
  receiver_hello h nonce_of offer atomics deadline t = (Ok (hf_nonce c, (tr, hf_application_payload c)), t') /\
  moves h [frame_wire (Hello c)] [frame_wire (Hello r)] t t'.
Proof.
  intros Hc Hr Hrole Hno Hmk Hp Hi. destruct (rl_receive _ _ deadline t Hi) as (t1 & Hrc & Hm1).
  destruct (send_hello_ok r deadline t1 Hr) as (Henc & t2 & Hs & Hm2).
  exists t2. split; [|exact (moves_trans h _ _ _ _ _ _ _ Hm1 Hm2)].
  pose proof (expect_hello_ok c Hc) as Hx. rewrite Hrole in Hx.
  unfold receiver_hello. unfold sget at 1, sbind at 1. rewrite (sbind_ok _ _ _ _ _ Hrc), Hno.
  unfold slift at 1, sbind at 1. rewrite Hx. unfold slift at 1, sbind at 1. rewrite Hmk.
  unfold slift at 1, sbind at 1. rewrite Henc. unfold slift at 1, sbind at 1.
  rewrite (sbind_ok _ _ _ _ _ Hs). unfold from_hellos_with_peer_payload. now rewrite Hp.
Qed.

End HelloForward.

Lemma hellos_shape {SH : Sha256} {TP : Negotiation.Platform} c r atomics tr :
  from_hello_pair {| hp_coordinator := c; hp_receiver := r |} atomics = Ok tr ->
  hf_role c = Coordinator /\ hf_role r = Receiver /\ hf_nonce r = hf_nonce c /\ nt_nonce tr = hf_nonce c.
Proof.
  intros (_ & _ & H3 & H4 & H5 & _ & _ & l & _ & _ & _ & _ & limits & digest & _ & _ & ->)%from_hello_pair_inv. done.
Qed.

(** ** The two sides *)

(** A coordinator that sends [c] and a receiver that answers with [r]: each can
    send and take the packets, they offer what they verified locally, and the
    HELLOs reduce to [tr]. *)
Record compatible {TC EC TR ER} {AL : Allocator} {SH : Sha256} {TP : Negotiation.Platform}
  (o : Owner TC EC) (h : Handshake TR ER) (c r : HelloFrame) (atomics_c atomics_r : AtomicCapabilities)
  (tr : NegotiatedTranscript) : Prop := {
  cp_coordinator : sendable o (Hello c) /\ receivable h (Hello c);
  cp_receiver : sendable h (Hello r) /\ receivable o (Hello r);
  cp_atomics : AtomicOffer_from_local atomics_c = Ok (hf_atomics c) /\
               AtomicOffer_from_local atomics_r = Ok (hf_atomics r);
  cp_reduced : from_hello_pair {| hp_coordinator := c; hp_receiver := r |} atomics_c = Ok tr;
  cp_digest : nt_hello_digest tr <> zeros 32;
  cp_profiles : NativeAuthorityProfile_is_vnext (hs_profile o) = true /\
                NativeAuthorityProfile_is_vnext (hs_profile h) = true
}.

Section TwoSides.
Context {TC EC TR ER : Type} {AL : Allocator} {SH : Sha256} {TP : Negotiation.Platform}
        (o : Owner TC EC) (h : Handshake TR ER) {MC : Mailbox o} {MR : Mailbox h}
        (challenge : DecisionChallenge) {RO : ReliableOwner o challenge} {RL : Reliable h}.

(** C7: A negotiation between two honest endpoints over channels that deliver
    completes, and both sides reach the same outcome. Whatever the coordinator
    decides and the receiver's application chooses on seeing the coordinator's
    payload, each side, given exactly the packets the other one sends (its HELLO
    and its decision, in their wire form), ends with the same verdict: rejected
    by the same role for the same reason, with the child cleaned up at the
    coordinator, or accepted with sessions whose parameters are those of the
    one transcript the HELLOs reduced to. The coordinator's packets depend on
    its own decision only, and the receiver answers an ACCEPT only. *)
Theorem negotiation_completes (sha_len : forall b, len (sha256 b) = 32) nonce_of offer c r atomics_c atomics_r tr
  rejection choose deadline_c deadline_r tc t fc fr :
  compatible o h c r atomics_c atomics_r tr -> challenge_wf challenge ->
  make_hello h Receiver (hf_nonce c) offer atomics_r = Ok r ->
  (forall t, nonce_of t (frame_wire (Hello c)) = Ok (hf_nonce c)) ->
  let choice := choose (hf_application_payload c) in
  reason_wf rejection -> reason_wf choice ->
  identified o tc (hf_nonce c) fc -> identified h t (hf_nonce c) fr ->
  let sent_c := [frame_wire (Hello c); frame_wire (coordinator_frame tr challenge rejection)] in
  let sent_r := frame_wire (Hello r) :: receiver_frames tr challenge rejection choice in
  mb_inbox tc = sent_r -> mb_inbox t = sent_c ->
  exists outcome_c tc' outcome_r t',
    coordinator_session o c atomics_c rejection deadline_c tc = (Some outcome_c, tc') /\
    receiver_session h nonce_of offer atomics_r choose deadline_r t = (Some outcome_r, t') /\
    moves o sent_r sent_c tc tc' /\ moves h sent_c sent_r t t' /\
    settled (decided rejection choice) (agreed_parameters fc tr challenge (hs_profile o)) true outcome_c /\
    settled (decided rejection choice) (agreed_parameters fr tr challenge (hs_profile h)) false outcome_r.
Proof.
  intros [[Hcs Hcr] [Hrs Hrr] [Hac Har] Hred Hdg [Hpo Hph]] Hch Hmk Hno choice Hr1 Hr2 Hidc Hidr sent_c sent_r Hic Hir.
  pose proof (reduction_agrees _ _ _ _ _ Hac Har Hred) as Hred2.
  pose proof (hellos_shape _ _ _ _ Hred) as (Hrc & Hrl & Hnn & Hnt).
  assert (Hd : decidable tr challenge).
  { split; [|done..]. exact (hellos_wf sha_len _ _ _ _ (proj1 Hcs) (proj1 Hrs) Hred). }
  destruct (coordinator_hello_ok o c r atomics_c tr deadline_c tc _ Hcs Hrr Hrl Hnn Hred Hic) as (tc1 & Hh & Hm1).
  destruct (receiver_hello_ok h nonce_of offer c r atomics_r tr deadline_r t _ Hcr Hrs Hrc Hno Hmk Hred2 Hir) as (t1 & Hh2 & Hm2).
  destruct (Hm1) as (Hin1 & _). rewrite Hic in Hin1. injection Hin1 as Hin1.
  destruct (Hm2) as (Hin2 & _). rewrite Hir in Hin2. injection Hin2 as Hin2.
  pose proof (len_nonneg (hf_application_payload c)). pose proof (len_nonneg (hf_application_payload r)).
  pose proof (proj2 (proj2 Hcs)) as Hmc. pose proof (proj2 (proj2 Hrs)) as Hmr. cbn [frame_payload] in Hmc, Hmr.
  rewrite <- Hnt in Hidc, Hidr.
  destruct (coordinator_decides o challenge tr Hd ltac:(lia) rejection choice (hf_application_payload r) fc deadline_c tc1 []
    Hr1 Hr2 (identified_moves o _ _ _ _ _ _ Hm1 Hidc) Hpo) as (oc & tc2 & Hdc & Hm3 & Hsc); [now rewrite app_nil_r|].
  destruct (receiver_decides h challenge tr Hd ltac:(lia) rejection choose (hf_application_payload c) fr deadline_r t1 []
    Hr1 Hr2 (identified_moves h _ _ _ _ _ _ Hm2 Hidr) Hph (eq_sym Hin2)) as (or & t2 & Hdr & Hm4 & Hsr).
  exists oc, tc2, or, t2. unfold coordinator_session, receiver_session. rewrite Hh, (sbind_ok _ _ _ _ _ Hh2).
  unfold negotiating_of, sget, sbind, sret. rewrite <- Hnt, Hdc, Hdr. split_and!; try done.
  - exact (moves_trans o _ _ _ _ _ _ _ Hm1 Hm3).
  - exact (moves_trans h _ _ _ _ _ _ _ Hm2 Hm4).
Qed.

End TwoSides.

(** ** Accepted on both sides *)

(** What an endpoint has sent and received, whatever else it does. *)
Class Logged {T E} (h : Handshake T E) := {
  lg_sent : T -> list bytes;
  lg_received : T -> list bytes;
  lg_send w deadline t t' :
    hs_send h w deadline t = (Ok tt, t') -> lg_sent t' = lg_sent t ++ [w] /\ lg_received t' = lg_received t;
  lg_receive w deadline t t' :
    hs_receive h deadline t = (Ok w, t') -> lg_sent t' = lg_sent t /\ lg_received t' = lg_received t ++ [w]
}.

(** The coordinator's look at the image neither sends nor receives. *)
Class LoggedOwner {T E} (o : Owner T E) := {
  lo_logged :: Logged o;
  lo_verify deadline t t' : ow_verify_image o deadline t = (Ok tt, t') -> lg_received t' = lg_received t
}.

(** An offer with fields of their widths. *)
Definition offer_wf (offer : HelloOffer) : Prop :=
  features_wf (ho_supported_features offer) /\ features_wf (ho_required_features offer) /\
  limits_wf (ho_limits offer).

Section Inversion.
Context {T E : Type} {AL : Allocator} {SH : Sha256} {TP : Negotiation.Platform} (h : Handshake T E).

Lemma expect_hello_inv w role nonce hello :
  expect_hello h w role nonce = Ok hello -> hello_wf hello /\ hf_nonce hello = nonce.
Proof.
  unfold expect_hello. destruct (decode_frame w role nonce _) as [[f|a|j]| |] eqn:Hd; try discriminate. cbn. intros [= <-].
  apply decode_frame_iff in Hd. tauto.
Qed.

Lemma make_hello_inv role nonce offer atomics hello :
  offer_wf offer -> len nonce = 32 -> make_hello h role nonce offer atomics = Ok hello -> hello_wf hello.
Proof.
  intros (H1 & H2 & H3) Hn H. unfold make_hello in H.
  destruct (AtomicOffer_from_local atomics) as [l| |] eqn:Hl; try discriminate. cbn in H. injection H as <-.
  unfold hello_wf. cbn. destruct (from_local_validates _ _ Hl). destruct target_current. done.
Qed.

Lemma reduced_inv c r atomics role tr payload :
  from_hellos_with_peer_payload {| hp_coordinator := c; hp_receiver := r |} atomics role = Ok (tr, payload) ->
  from_hello_pair {| hp_coordinator := c; hp_receiver := r |} atomics = Ok tr /\
  payload = hf_application_payload (match role with Coordinator => c | Receiver => r end).
Proof.
  unfold from_hellos_with_peer_payload. destruct (from_hello_pair _ _) as [t| |]; try discriminate. cbn.
  intros [= <- <-]. now destruct role.
Qed.

Lemma coordinator_hello_inv c atomics deadline t tr payload t' :
  coordinator_hello h c atomics deadline t = (Ok (tr, payload), t') ->
  exists r, hello_wf r /\ from_hello_pair {| hp_coordinator := c; hp_receiver := r |} atomics = Ok tr.
Proof.
  unfold coordinator_hello. intros H. sinv H as w1 H1. sinv H as u H2. sinv H as w2 H3. sinv H as r H4.
  apply slift_inv in H4 as [H4 ->]. apply expect_hello_inv in H4 as [Hw _].
  apply slift_inv in H as [H _]. apply map_err_inv, reduced_inv in H as [H _]. eauto.
Qed.

Lemma receiver_hello_inv nonce_of offer atomics deadline t nonce tr payload t' :
  offer_wf offer -> receiver_hello h nonce_of offer atomics deadline t = (Ok (nonce, (tr, payload)), t') ->
  exists c r, hello_wf c /\ hello_wf r /\ payload = hf_application_payload c /\
    from_hello_pair {| hp_coordinator := c; hp_receiver := r |} atomics = Ok tr.
Proof.
  unfold receiver_hello. intros Ho H. sinv H as conn H0. sinv H as w1 H1. sinv H as n H2. sinv H as c H3.
  sinv H as r H4. sinv H as w2 H5. sinv H as u H6. sinv H as agreed H7. unfold sret in H. injection H as -> -> ->.
  apply slift_inv in H3 as [H3 _]. apply expect_hello_inv in H3 as [Hc Hn].
  apply slift_inv in H4 as [H4 _]. apply make_hello_inv in H4; [|done|subst; apply Hc].
  apply slift_inv in H7 as [H7 _]. apply map_err_inv, reduced_inv in H7 as [H7 ->]. eauto 10.
Qed.

End Inversion.

Section Agreement.
Context {AL : Allocator} {SH : Sha256} {TP : Negotiation.Platform}.

(** A collision of the digest. *)
Definition sha256_collides : Prop := exists x y, x <> y /\ sha256 x = sha256 y.

Lemma digest_binds c r c' r' atomics atomics' tr tr' :
  hello_wf c -> hello_wf r -> hello_wf c' -> hello_wf r' ->
  from_hello_pair {| hp_coordinator := c; hp_receiver := r |} atomics = Ok tr ->
  from_hello_pair {| hp_coordinator := c'; hp_receiver := r' |} atomics' = Ok tr' ->
  nt_hello_digest tr = nt_hello_digest tr' -> (c = c' /\ r = r') \/ sha256_collides.
Proof.
  intros Hc Hr Hc' Hr' (_ & _ & _ & _ & _ & _ & _ & l & _ & _ & _ & _ & lim & dg & _ & Hd & ->)%from_hello_pair_inv
    (_ & _ & _ & _ & _ & _ & _ & l' & _ & _ & _ & _ & lim' & dg' & _ & Hd' & ->)%from_hello_pair_inv Heq.
  cbn in Heq. unfold canonical_hello_digest in Hd, Hd'.
  destruct (hello_preimage c r) as [p| |] eqn:Hp; try discriminate.
  destruct (hello_preimage c' r') as [p'| |] eqn:Hp'; try discriminate. cbn in Hd, Hd'.
  destruct (decide (p = p')) as [<-|Hne].
  - left. now apply (hello_preimage_injective c r c' r' p).
  - right. exists p, p'. split; [done|congruence].
Qed.

(** A session both sides hold. *)
Definition same_session (a b : AcceptedSessionParameters) : Prop :=
  ap_limits a = ap_limits b /\ ap_atomics a = ap_atomics b /\ ap_protocol_version a = ap_protocol_version b /\
  sf_nonce (ap_facts a) = sf_nonce (ap_facts b).

Lemma same_accepts tr tr' c c' f f' profile profile' :
  fresh tr -> fresh tr' -> accept_frame tr Receiver c = accept_frame tr' Receiver c' ->
  sf_nonce f = nt_nonce tr -> sf_nonce f' = nt_nonce tr' ->
  same_session (agreed_parameters f tr c profile) (agreed_parameters f' tr' c' profile') /\
  nt_hello_digest tr = nt_hello_digest tr'.
Proof.
  intros (H1 & H2 & _) (H1' & H2' & _) Ha Hn Hn'. unfold accept_frame in Ha. injection Ha as E1 E2 E3 E4 E5 E6 E7.
  unfold same_session, agreed_parameters, session_parameters, facts_of. cbn.
  rewrite H1, H2, H1', H2', E3, E4, Hn, Hn'. done.
Qed.

Lemma coordinator_decide_accepted {T E} (o : Owner T E) rejection self d t' :
  coordinator_decide o rejection self = (Ok (Outcome_Accepted d), t') ->
  exists p tr', coordinator_accepts o rejection (ng_nonce self) (ng_deadline self) (ng_native self, ng_transcript self)
             = (Ok (inl p), (t', tr')) /\ d_parameters d = p.
Proof.
  unfold coordinator_decide, negotiation_failure. intros H.
  destruct (coordinator_accepts _ _ _ _ _) as [[[p|[role why]]|e|] [t2 tr2]] eqn:Ha.
  - destruct (Dispatcher_new t2 p) as [d'|] eqn:Hd; [|destruct (ow_terminate _ _ _); discriminate].
    injection H as <- <-. apply dispatcher_parameters in Hd as [Hp _]. eauto.
  - destruct (ow_terminate _ _ _). discriminate.
  - destruct (ow_terminate _ _ _). discriminate.
  - discriminate.
Qed.

Lemma receiver_decide_accepted {T E} (h : Handshake T E) choose self d t' :
  receiver_decide h choose self = (Ok (Outcome_Accepted d), t') ->
  exists p tr', receiver_decision h choose (ng_peer_application_payload self) (ng_nonce self) (ng_deadline self)
             (ng_native self, ng_transcript self) = (Ok (inl p), (t', tr')) /\ d_parameters d = p.
Proof.
  unfold receiver_decide. intros H.
  destruct (receiver_decision _ _ _ _ _ _) as [[[p|[role why]]|e|] [t2 tr2]] eqn:Ha; try discriminate.
  destruct (Dispatcher_new t2 p) as [d'|] eqn:Hd; [|discriminate].
  injection H as <- <-. apply dispatcher_parameters in Hd as [Hp _]. eauto.
Qed.

(** A coordinator that rejects holds no session. *)
Lemma coordinator_rejected {T E} (o : Owner T E) reason nonce deadline st p st' :
  coordinator_accepts o (Some reason) nonce deadline st <> (Ok (inl p), st').
Proof.
  intros H. unfold coordinator_accepts in H. sinv H as who Hd. unfold coordinator_decision in Hd.
  sinv Hd as ch H1. sinv Hd as rj H2. sinv Hd as u H3. unfold sret in Hd. injection Hd as <- <-. discriminate.
Qed.

Context (sha_len : forall b, len (sha256 b) = 32).

(** The ACCEPT that ends an accepted run of the coordinator. *)
Lemma coordinator_ends {T E} (o : Owner T E) {L : LoggedOwner o} c atomics rejection deadline t d t' :
  hello_wf c -> coordinator_session o c atomics rejection deadline t = (Some (Outcome_Accepted d), t') ->
  exists r tr ch f w, hello_wf r /\
    from_hello_pair {| hp_coordinator := c; hp_receiver := r |} atomics = Ok tr /\
    last (lg_received t') = Some w /\
    decode_frame w Receiver (hf_nonce c) (hs_max_hello o) = Ok (Accept (accept_frame tr Receiver ch)) /\
    rejection = None /\ sf_nonce f = nt_nonce tr /\ d_parameters d = agreed_parameters f tr ch (hs_profile o).
Proof.
  unfold coordinator_session. intros Hw H.
  destruct (coordinator_hello o c atomics deadline t) as [[[tr payload]|e|] t1] eqn:Hh; try discriminate.
  apply coordinator_hello_inv in Hh as (r & Hr & Hp).
  destruct (coordinator_decide _ _ _) as [[[d'|]|e|] t2] eqn:Hd; try discriminate. injection H as -> ->.
  apply coordinator_decide_accepted in Hd as (p & tr' & Ha & Hpar). cbn in Ha.
  destruct rejection as [reason|]; [now apply coordinator_rejected in Ha|].
  pose proof (tw_fresh _ (hellos_wf sha_len _ _ _ _ Hw Hr Hp)) as Hf.
  apply coordinator_accepts_inv in Ha
    as (ch & f & s & w & u1 & u2 & u3 & u4 & tr2 & [= <- <-] & _ & _ & Hs & Hrc & Hdec & Hv & _ & Hn & ->); [|done].
  exists r, tr, ch, f, w. split_and!; try done.
  rewrite (lo_verify _ _ _ Hv), (proj2 (lg_receive _ _ _ _ Hrc)). apply last_snoc.
Qed.

(** The ACCEPT that ends an accepted run of the receiver. *)
Lemma receiver_ends {T E} (h : Handshake T E) {L : Logged h} nonce_of offer atomics choose deadline t d t' :
  offer_wf offer ->
  receiver_session h nonce_of offer atomics choose deadline t = (Some (Outcome_Accepted d), t') ->
  exists c r tr ch f, hello_wf c /\ hello_wf r /\
    from_hello_pair {| hp_coordinator := c; hp_receiver := r |} atomics = Ok tr /\
    last (lg_sent t') = Some (frame_wire (Accept (accept_frame tr Receiver ch))) /\
    accept_wf (accept_frame tr Receiver ch) /\ frame_validate (Accept (accept_frame tr Receiver ch)) = Ok tt /\
    choose (hf_application_payload c) = None /\ sf_nonce f = nt_nonce tr /\
    d_parameters d = agreed_parameters f tr ch (hs_profile h).
Proof.
  unfold receiver_session. intros Ho H.
  destruct (sbind _ _ _) as [[self|e|] t1] eqn:Hh; try discriminate. sinv Hh as agreed Hh1.
  destruct agreed as [nonce [tr payload]]. apply receiver_hello_inv in Hh1 as (c & r & Hc & Hr & -> & Hp); [|done].
  unfold negotiating_of, sbind, sget, sret in Hh. injection Hh as <- <-.
  destruct (receiver_decide _ _ _) as [[[d'|]|e|] t2] eqn:Hd; try discriminate. injection H as -> ->.
  apply receiver_decide_accepted in Hd as (p & tr' & Ha & Hpar). cbn in Ha.
  pose proof (hellos_wf sha_len _ _ _ _ Hc Hr Hp) as Hwf.
  apply receiver_accepts_inv in Ha as (ch & f & w1 & w & u1 & u2 & tr2 & [= <- <-] & Hrc & Hdec & Hch & Hen & Hs & _ & Hn & ->);
    [|apply Hwf].
  apply decode_frame_iff in Hdec as (_ & (_ & _ & _ & _ & _ & _ & Hcw) & _). cbn in Hcw.
  pose proof (accept_frame_wf tr Receiver ch Hwf Hcw) as Haw. apply encode_frame_inv in Hen as [-> Hv]; [|done].
  exists c, r, tr, ch, f. split_and!; try done. rewrite (proj1 (lg_send _ _ _ _ Hs)). apply last_snoc.
Qed.

(** C8: Sessions that both sides accepted are the same session. Whatever the
    channel between them did, and whatever bytes either side received, if a
    coordinator and a receiver both come out of their handshake with a session
    and the last packet the coordinator received is the last one the receiver
    sent, then neither side had decided to reject, the two sessions have the
    same limits, atomic facts, protocol version and nonce, and the payload on
    which the receiver's application decided is the one the coordinator offered,
    unless SHA-256 collides. *)
Theorem accepted_sessions_agree {TC EC TR ER} (o : Owner TC EC) (h : Handshake TR ER) {LC : LoggedOwner o}
  {LR : Logged h} c offer nonce_of atomics_c atomics_r rejection choose deadline_c deadline_r tc t dc dr tc' t' :
  hello_wf c -> offer_wf offer ->
  coordinator_session o c atomics_c rejection deadline_c tc = (Some (Outcome_Accepted dc), tc') ->
  receiver_session h nonce_of offer atomics_r choose deadline_r t = (Some (Outcome_Accepted dr), t') ->
  last (lg_received tc') = last (lg_sent t') ->
  same_session (d_parameters dc) (d_parameters dr) /\ rejection = None /\
  (choose (hf_application_payload c) = None \/ sha256_collides).
Proof.
  intros Hw Ho Hcs Hrs Hl.
  apply (coordinator_ends o) in Hcs as (r & tr & ch & f & w & Hr & Hp & Hw1 & Hdec & -> & Hn & ->); [|done].
  apply (receiver_ends h) in Hrs as (c' & r' & tr' & ch' & f' & Hc' & Hr' & Hp' & Hw2 & Haw & Hav & Hch & Hn' & ->); [|done].
  assert (Hww : w = frame_wire (Accept (accept_frame tr' Receiver ch'))) by congruence.
  pose proof (wire_accept_inj _ _ _ _ _ _ Hdec Hww Haw Hav eq_refl) as Hsame.
  destruct (same_accepts tr tr' ch ch' f f' (hs_profile o) (hs_profile h)) as [Hss Hdg]; try done;
    [exact (tw_fresh _ (hellos_wf sha_len _ _ _ _ Hw Hr Hp))|exact (tw_fresh _ (hellos_wf sha_len _ _ _ _ Hc' Hr' Hp'))|].
  split_and!; [done|done|].
  destruct (digest_binds _ _ _ _ _ _ _ _ Hw Hr Hc' Hr' Hp Hp' Hdg) as [[-> _]|]; [left; congruence|by right].
Qed.

End Agreement.

(** ** A pair of macOS endpoints *)

Record Box := { bx_pid : Z; bx_peer : Z; bx_in : list bytes; bx_got : list bytes; bx_out : list bytes }.

#[local] Instance box_process : Process Box :=
  {| getpid := bx_pid; getppid := bx_peer; getuid := fun _ => 0; getgid := fun _ => 0; peer_pid := bx_peer;
     lifecycle_pid := bx_peer; channel_nonce := fun _ => replicate 32 x05 |}.

Definition reaped : ChildCleanupFacts :=
  {| cc_direct_child := Some (Exited 0); cc_descendants := FreshGroupTerminated; cc_native_error := None |}.

Definition box_send (w : bytes) (_ : Z) : io Box unit :=
  fun t => (inl tt, {| bx_pid := bx_pid t; bx_peer := bx_peer t; bx_in := bx_in t;
                     bx_got := bx_got t; bx_out := bx_out t ++ [w] |}).
Definition box_receive (_ _ : Z) : io Box bytes :=
  fun t => match bx_in t with
           | [] => (inr TransportError_DeadlineExpired, t)
           | w :: rest => (inl w, {| bx_pid := bx_pid t; bx_peer := bx_peer t; bx_in := rest;
                                    bx_got := bx_got t ++ [w]; bx_out := bx_out t |})
           end.

#[local] Instance box_native : MacNative Box :=
  {| mac_discover_atomics := fun t => (inl verified, t);
     mac_random_nonce := fun t => (inl (replicate 32 x09), t);
     mac_hold_executable := fun _ t => (inl tt, t);
     mac_spawn_explicit := fun _ _ _ t => (inl tt, t);
     mac_matches_running_image := fun _ t => (inl true, t);
     mac_authenticate := fun _ t => (inl tt, t);
     mac_connect_from_environment := fun _ t => (inl tt, t);
     mac_send := box_send; mac_receive := box_receive;
     mac_try_poll := fun t => (inl Running, t);
     mac_wait_and_reap_status := fun _ t => (inl tt, t);
     mac_cleanup_until := fun _ t => (reaped, t);
     mac_terminate_and_reap_facts := fun _ t => (reaped, t) |}.

#[local] Instance ample : Allocator := fun _ => true.
#[local] Instance prefix_digest : Sha256 := fun s => take 32 (s ++ zeros 32).
#[local] Instance macos_aarch64 : Negotiation.Platform := {| target_os := Macos; target_arch := OtherArch |}.

#[local] Instance owner_box : Mailbox (mac_owner (T := Box)) := {| mb_inbox := bx_in; mb_outbox := bx_out |}.
#[local] Instance receiver_box : Mailbox (mac_receiver (T := Box)) := {| mb_inbox := bx_in; mb_outbox := bx_out |}.

Lemma box_reliable {h : Handshake Box PublicSessionError} (M : Mailbox h) :
  mb_inbox = bx_in -> mb_outbox = bx_out ->
  (forall w deadline, hs_send h w deadline = transport (mac_send w deadline)) ->
  (forall deadline, hs_receive h deadline = transport (mac_receive MAX_VNEXT_RECORD_BYTES deadline)) ->
  (forall t t', bx_pid t = bx_pid t' -> bx_peer t = bx_peer t' -> same_identity h t t') -> Reliable h.
Proof.
  intros Hi Ho Hs Hr Hid. split; unfold moves; rewrite Hi, Ho.
  - intros w deadline t _. rewrite Hs. eexists. split; [reflexivity|]. split_and!; [done..|]. now apply Hid.
  - intros w rest deadline t Hin. rewrite Hr. unfold transport, smap_err, native. cbn. unfold box_receive. rewrite Hin.
    eexists. split; [reflexivity|]. cbn. rewrite app_nil_r. split_and!; [done..|]. now apply Hid.
Qed.

#[local] Instance receiver_reliable : Reliable (mac_receiver (T := Box)).
Proof.
  apply (box_reliable _); try done. intros t t' H1 H2. unfold same_identity, mac_receiver, mac_receiver_admits. cbn.
  now rewrite H1, H2.
Qed.

#[local] Instance owner_reliable : ReliableOwner (mac_owner (T := Box)) (replicate 16 x09).
Proof.
  assert (Hs : forall t : Box, moves mac_owner [] [] t t) by (intros; unfold moves; now rewrite app_nil_r).
  split; [|intros deadline t; exists t; split; [vm_compute; reflexivity|apply Hs]..|intros; apply Hs].
  apply (box_reliable _); try done. intros t t' H1 H2. unfold same_identity, mac_owner, mac_coordinator_admits. cbn.
  now rewrite H1, H2.
Qed.

Definition an_offer : HelloOffer := public_offer SessionLimits_default [x01; x02; x03] true false.
Definition mac_hello (role : SenderRole) : HelloFrame := Eval vm_compute in
  match make_hello (mac_owner (T := Box)) role (replicate 32 x05) an_offer verified with
  | Ok hello => hello
  | _ => a_hello role
  end.
Definition mac_transcript : NegotiatedTranscript := Eval vm_compute in
  match from_hello_pair {| hp_coordinator := mac_hello Coordinator; hp_receiver := mac_hello Receiver |} verified with
  | Ok t => t
  | _ => a_transcript
  end.

Lemma mac_hello_ready role : sendable (mac_receiver (T := Box)) (Hello (mac_hello role)) /\
  receivable (mac_receiver (T := Box)) (Hello (mac_hello role)).
Proof.
  assert (Hw : frame_wf (Hello (mac_hello role))).
  { unfold frame_wf, hello_wf, features_wf, limits_wf, atomics_wf, target_wf. destruct role; cbn;
    split_and!; first [reflexivity | split; discriminate]. }
  unfold sendable, receivable. split_and!; try done; destruct role; vm_compute; done.
Qed.

Lemma prefix_digest_len b : len (sha256 b) = 32.
Proof. unfold sha256, prefix_digest, len, zeros. rewrite length_take, length_app, length_replicate. lia. Qed.

Definition box_identity : SpawnIdentityFacts :=
  {| sf_parent_pid := 100; sf_child_pid := 200; sf_parent_uid := 0; sf_parent_gid := 0; sf_child_uid := 0;
     sf_child_gid := 0; sf_nonce := replicate 32 x05 |}.
Definition coordinator_box (rejection choice : option Z) : Box :=
  {| bx_pid := 100; bx_peer := 200; bx_got := []; bx_out := [];
     bx_in := frame_wire (Hello (mac_hello Receiver)) ::
              receiver_frames mac_transcript (replicate 16 x09) rejection choice |}.
Definition child_box (rejection : option Z) : Box :=
  {| bx_pid := 200; bx_peer := 100; bx_got := []; bx_out := [];
     bx_in := [frame_wire (Hello (mac_hello Coordinator));
               frame_wire (coordinator_frame mac_transcript (replicate 16 x09) rejection)] |}.

Lemma mac_compatible :
  compatible (mac_owner (T := Box)) (mac_receiver (T := Box)) (mac_hello Coordinator) (mac_hello Receiver)
    verified verified mac_transcript.
Proof.
  split; [split; apply mac_hello_ready..|split; vm_compute; reflexivity|vm_compute; reflexivity|vm_compute; discriminate|done].
Qed.

(** The receiver's application rejects for reason 3. *)
Lemma negotiation_completes_witness :
  exists outcome_c tc outcome_r t,
    coordinator_session mac_owner (mac_hello Coordinator) verified None 9 (coordinator_box None (Some 3))
    = (Some outcome_c, tc) /\
    receiver_session mac_receiver (fun connected _ => Ok (channel_nonce connected)) an_offer verified
      (fun _ => Some 3) 9 (child_box None) = (Some outcome_r, t) /\
    bx_out tc = bx_in (child_box None) /\ bx_out t = bx_in (coordinator_box None (Some 3)) /\
    outcome_c = Outcome_Rejected Receiver 3 (Some reaped).
Proof.
  destruct (negotiation_completes (mac_owner (T := Box)) (mac_receiver (T := Box)) (replicate 16 x09) prefix_digest_len
    (fun connected _ => Ok (channel_nonce connected)) an_offer
    (mac_hello Coordinator) (mac_hello Receiver) verified verified mac_transcript None (fun _ => Some 3) 9 9
    (coordinator_box None (Some 3)) (child_box None) box_identity box_identity)
    as (oc & tc & or & t & H1 & H2 & (_ & H3 & _) & (_ & H4 & _) & _ & _).
  - apply mac_compatible.
  - split; [reflexivity|discriminate].
  - vm_compute. reflexivity.
  - reflexivity.
  - exact I.
  - split; [split; discriminate|discriminate].
  - now split; vm_compute.
  - now split; vm_compute.
  - reflexivity.
  - reflexivity.
  - exists oc, tc, or, t. split_and!; [exact H1|exact H2|exact H3|exact H4|]. clear - H1. vm_compute in H1. injection H1 as <- _. reflexivity.
Defined.

Lemma box_log {h : Handshake Box PublicSessionError} :
  (forall w deadline, hs_send h w deadline = transport (mac_send w deadline)) ->
  (forall deadline, hs_receive h deadline = transport (mac_receive MAX_VNEXT_RECORD_BYTES deadline)) -> Logged h.
Proof.
  intros Hs Hr. refine {| lg_sent := bx_out; lg_received := bx_got |}.
  - intros w deadline t t' H. rewrite Hs in H. injection H as <-. done.
  - intros w deadline t t' H. rewrite Hr in H. unfold transport, smap_err, native in H. cbn in H.
    unfold box_receive in H. destruct (bx_in t); [discriminate|]. injection H as <- <-. done.
Defined.
#[local] Instance receiver_logged : Logged (mac_receiver (T := Box)) :=
  box_log (h := mac_receiver) (fun _ _ => eq_refl) (fun _ => eq_refl).
#[local] Instance owner_logged : LoggedOwner (mac_owner (T := Box)).
Proof.
  refine {| lo_logged := box_log (h := mac_owner) (fun _ _ => eq_refl) (fun _ => eq_refl) |}. intros deadline t t' H. now injection H as <-.
Defined.

Lemma accepted_sessions_agree_witness :
  exists dc tc dr t,
    coordinator_session mac_owner (mac_hello Coordinator) verified None 9 (coordinator_box None None)
    = (Some (Outcome_Accepted dc), tc) /\
    receiver_session mac_receiver (fun connected _ => Ok (channel_nonce connected)) an_offer verified
      (fun _ => None) 9 (child_box None) = (Some (Outcome_Accepted dr), t) /\
    same_session (d_parameters dc) (d_parameters dr).
Proof.
  eexists _, _, _, _. split; [vm_compute; reflexivity|]. split; [vm_compute; reflexivity|].
  eapply (accepted_sessions_agree prefix_digest_len (mac_owner (T := Box)) (mac_receiver (T := Box)) (mac_hello Coordinator)
    an_offer (fun connected _ => Ok (channel_nonce connected)) verified verified None (fun _ => None) 9 9
    (coordinator_box None None) (child_box None) _ _ _ _).
  - apply mac_hello_ready.
  - unfold offer_wf, features_wf, limits_wf. cbn. split_and!; split; discriminate.
  - vm_compute. reflexivity.
  - vm_compute. reflexivity.
  - vm_compute. reflexivity.
Defined.
