(* ===== verification/Session.v ===== *)
(** * Session: the public session API ([native-ipc/src/session.rs])

    What an application sees: the failure values, the limits of the child
    process and what became of them, the rejection reasons, the construction of
    a session on either side, the decisions, the operations of a ready session
    and its orderly and forced ends. The code selects a backend per target; a
    [CoordinatorBackend] or a [ReceiverBackend] is that choice, and the three of
    each are defined from [Handshake.v], [Dispatcher.v] and [Transfer.v].

    A method that takes [&mut self] is a computation on the dispatcher the
    session owns; so is one that consumes [self] and may hand it back: the
    owner its outcome returns is the state afterwards. *)

From stdpp Require Import gmap.
From S2P Require Import Prelude Limits Negotiation Control Liveness Native Resources Active Batch Dispatcher Expected Transfer Handshake.

(** ** Failures *)

Inductive SessionError :=
| Session_BackendUnavailable
| Session_InvalidInput
| Session_UnsupportedChildProcessLimits
| Session_DeadlineExpired
| Session_PeerDisconnected
| Session_IdentityMismatch
| Session_MalformedPeer
| Session_Ambiguous
| Session_NegotiationFailed
| Session_NativeNegotiation (error : NegotiationError)
| Session_Control (error : ControlError)
| Session_Batch (error : BatchError)
| Session_ActiveLimit
| Session_PeerPreparationFailed
| Session_ActivationFailed
| Session_Poisoned
| Session_Native.

(** [From<*PublicSessionError> for SessionError], the same on every target. *)
Definition session_error (error : PublicSessionError) : SessionError :=
  match error with
  | Public_InvalidInput => Session_InvalidInput
  | Public_DeadlineExpired => Session_DeadlineExpired
  | Public_PeerExited => Session_PeerDisconnected
  | Public_IdentityMismatch => Session_IdentityMismatch
  | Public_MalformedPeer => Session_MalformedPeer
  | Public_Ambiguous => Session_Ambiguous
  | Public_NegotiationFailed => Session_NegotiationFailed
  | Public_NativeNegotiation error => Session_NativeNegotiation error
  | Public_Control error => Session_Control error
  | Public_Batch error => Session_Batch error
  | Public_ActiveLimit => Session_ActiveLimit
  | Public_PeerPreparationFailed => Session_PeerPreparationFailed
  | Public_ActivationFailed _ => Session_ActivationFailed
  | Public_Poisoned => Session_Poisoned
  | Public_Native _ => Session_Native
  end.

Inductive SessionOperation :=
| Op_Bootstrap | Op_Spawn | Op_Negotiate | Op_PollPeer | Op_WaitForExit | Op_Close | Op_Abort
| Op_TransferBatch | Op_ReceiveBatch | Op_SendControl | Op_ReceiveControl.

Inductive SessionTransactionState :=
| Tx_NotEstablished | Tx_Spawned | Tx_Negotiating | Tx_Ready | Tx_TransactionOpen | Tx_Poisoned.

Inductive PeerStatus := Connected | Disconnected.

(** ** Child-process limits *)

Record ChildProcessLimitFacts := {
  clf_memory_bytes : Z;
  clf_user_cpu_time : Z;
  clf_active_processes : Z;
  clf_open_descriptors : Z;
  clf_requested_mask : Z;
  clf_applied_mask : Z;
  clf_unsupported_mask : Z
}.
Definition ChildProcessLimitFacts_default : ChildProcessLimitFacts :=
  {| clf_memory_bytes := 0; clf_user_cpu_time := 0; clf_active_processes := 0; clf_open_descriptors := 0;
     clf_requested_mask := 0; clf_applied_mask := 0; clf_unsupported_mask := 0 |}.

Definition MASK_MEMORY : Z := Z.shiftl 1 0.
Definition MASK_CPU : Z := Z.shiftl 1 1.
Definition MASK_PROCESSES : Z := Z.shiftl 1 2.
Definition MASK_DESCRIPTORS : Z := Z.shiftl 1 3.

Definition mask (limits : ChildProcessLimits) : Z :=
  Z.lor (Z.lor (Z.lor
    (if is_none (cpl_commit_memory_bytes limits) then 0 else MASK_MEMORY)
    (if is_none (cpl_user_cpu_time limits) then 0 else MASK_CPU))
    (if is_none (cpl_active_processes limits) then 0 else MASK_PROCESSES))
    (if is_none (cpl_open_descriptors limits) then 0 else MASK_DESCRIPTORS).

Definition ChildProcessLimitFacts_new (requested applied unsupported : ChildProcessLimits)
  : ChildProcessLimitFacts :=
  {| clf_memory_bytes := default 0 (cpl_commit_memory_bytes requested);
     clf_user_cpu_time := default 0 (cpl_user_cpu_time requested);
     clf_active_processes := default 0 (cpl_active_processes requested);
     clf_open_descriptors := default 0 (cpl_open_descriptors requested);
     clf_requested_mask := mask requested; clf_applied_mask := mask applied;
     clf_unsupported_mask := mask unsupported |}.

Definition limits_for_mask (self : ChildProcessLimitFacts) (m : Z) : ChildProcessLimits :=
  {| cpl_commit_memory_bytes :=
       if negb (Z.land m MASK_MEMORY =? 0) then Some (clf_memory_bytes self) else None;
     cpl_user_cpu_time := if negb (Z.land m MASK_CPU =? 0) then Some (clf_user_cpu_time self) else None;
     cpl_active_processes :=
       if negb (Z.land m MASK_PROCESSES =? 0) then Some (clf_active_processes self) else None;
     cpl_open_descriptors :=
       if negb (Z.land m MASK_DESCRIPTORS =? 0) then Some (clf_open_descriptors self) else None |}.
Definition requested (self : ChildProcessLimitFacts) : ChildProcessLimits :=
  limits_for_mask self (clf_requested_mask self).
Definition applied (self : ChildProcessLimitFacts) : ChildProcessLimits :=
  limits_for_mask self (clf_applied_mask self).
Definition unsupported (self : ChildProcessLimitFacts) : ChildProcessLimits :=
  limits_for_mask self (clf_unsupported_mask self).

(** The targets the crate compiles for. *)
Inductive Target := OnLinux | OnMacos | OnWindows.

Definition child_process_limit_unsupported (target : Target) (requested : ChildProcessLimits)
  : ChildProcessLimits :=
  match target with
  | OnWindows => {| cpl_commit_memory_bytes := None; cpl_user_cpu_time := None; cpl_active_processes := None;
                    cpl_open_descriptors := cpl_open_descriptors requested |}
  | OnLinux | OnMacos => requested
  end.

Definition child_process_limit_preflight (target : Target) (requested : ChildProcessLimits)
  : ChildProcessLimitFacts :=
  let unsupported := child_process_limit_unsupported target requested in
  let applied :=
    match target with
    | OnWindows =>
        if ChildProcessLimits_is_empty unsupported
        then {| cpl_commit_memory_bytes := cpl_commit_memory_bytes requested;
                cpl_user_cpu_time := cpl_user_cpu_time requested;
                cpl_active_processes := cpl_active_processes requested;
                cpl_open_descriptors := None |}
        else ChildProcessLimits_default
    | OnLinux | OnMacos => ChildProcessLimits_default
    end in
  ChildProcessLimitFacts_new requested applied unsupported.

Definition child_process_limit_invalid_facts (target : Target) (requested : ChildProcessLimits)
  : ChildProcessLimitFacts :=
  ChildProcessLimitFacts_new requested ChildProcessLimits_default
    (child_process_limit_unsupported target requested).

(** ** The failure record *)

Record SessionFailure := {
  fl_operation : SessionOperation;
  fl_transaction_state : SessionTransactionState;
  fl_reason : SessionError;
  fl_native_code : option Z;
  fl_poisoned : bool;
  fl_peer : option PeerStatus;
  fl_cleanup : option ChildCleanupFacts;
  fl_child_process_limit_facts : option ChildProcessLimitFacts
}.

Definition SessionFailure_new (operation : SessionOperation) (transaction_state : SessionTransactionState)
  (reason : SessionError) : SessionFailure :=
  {| fl_operation := operation; fl_transaction_state := transaction_state; fl_reason := reason;
     fl_native_code := None;
     fl_poisoned := match transaction_state with Tx_Poisoned => true | _ => false end;
     fl_peer := match reason with Session_PeerDisconnected => Some Disconnected | _ => None end;
     fl_cleanup := None; fl_child_process_limit_facts := None |}.

Definition with_optional_cleanup (cleanup : option ChildCleanupFacts) (self : SessionFailure) : SessionFailure :=
  {| fl_operation := fl_operation self; fl_transaction_state := fl_transaction_state self;
     fl_reason := fl_reason self; fl_native_code := fl_native_code self; fl_poisoned := fl_poisoned self;
     fl_peer := fl_peer self; fl_cleanup := cleanup;
     fl_child_process_limit_facts := fl_child_process_limit_facts self |}.
Definition with_cleanup (cleanup : ChildCleanupFacts) : SessionFailure -> SessionFailure :=
  with_optional_cleanup (Some cleanup).
Definition with_child_process_limit_facts (facts : ChildProcessLimitFacts) (self : SessionFailure)
  : SessionFailure :=
  {| fl_operation := fl_operation self; fl_transaction_state := fl_transaction_state self;
     fl_reason := fl_reason self; fl_native_code := fl_native_code self; fl_poisoned := fl_poisoned self;
     fl_peer := fl_peer self; fl_cleanup := fl_cleanup self;
     fl_child_process_limit_facts := Some facts |}.
Definition with_native_code (native_code : option Z) (self : SessionFailure) : SessionFailure :=
  {| fl_operation := fl_operation self; fl_transaction_state := fl_transaction_state self;
     fl_reason := fl_reason self; fl_native_code := native_code; fl_poisoned := fl_poisoned self;
     fl_peer := fl_peer self; fl_cleanup := fl_cleanup self;
     fl_child_process_limit_facts := fl_child_process_limit_facts self |}.
Definition with_poisoned (poisoned : bool) (self : SessionFailure) : SessionFailure :=
  {| fl_operation := fl_operation self; fl_transaction_state := fl_transaction_state self;
     fl_reason := fl_reason self; fl_native_code := fl_native_code self; fl_poisoned := poisoned;
     fl_peer := fl_peer self; fl_cleanup := fl_cleanup self;
     fl_child_process_limit_facts := fl_child_process_limit_facts self |}.

(** [*_public_native_code]: only Linux has a code for a failed activation. *)
Definition public_native_code (error : PublicSessionError) : option Z :=
  match error with
  | Public_Native code => code
  | Public_ActivationFailed code => code
  | _ => None
  end.

(** [mac_session_failure], [windows_session_failure], and the same record
    built in place on Linux. *)
Definition session_failure (operation : SessionOperation) (transaction_state : SessionTransactionState)
  (error : PublicSessionError) (poisoned : bool) : SessionFailure :=
  with_poisoned poisoned (with_native_code (public_native_code error)
    (SessionFailure_new operation transaction_state (session_error error))).

Definition ready_failure (operation : SessionOperation) (state : SessionState) (error : PublicSessionError)
  : SessionFailure :=
  match state with
  | SessionPoisoned => session_failure operation Tx_Poisoned error true
  | SessionReady => session_failure operation Tx_Ready error false
  end.

Definition linux_ready_batch_failure (operation : SessionOperation) (state : SessionState)
  (failure : ReadyFailure) : SessionFailure :=
  let poisoned := match state with SessionPoisoned => true | SessionReady => false end in
  session_failure operation
    (if rf_transaction_open_on_failure failure then Tx_TransactionOpen
     else if poisoned then Tx_Poisoned else Tx_Ready)
    (rf_error failure) poisoned.

(** ** Rejections *)

(** A [RejectionReason] is its [NonZeroU32]. *)
Definition RejectionReason : Type := Z.
Definition APPLICATION_DECLINED : RejectionReason := 1.
Definition INCOMPATIBLE_APPLICATION_PROTOCOL : RejectionReason := 2.
Definition APPLICATION_POLICY : RejectionReason := 3.

Definition application_specific (value : Z) : option RejectionReason :=
  if value <? 2147483648 then None else if value =? 0 then None else Some value.

Definition from_wire (value : Z) : option RejectionReason :=
  if value =? 1 then Some APPLICATION_DECLINED else
  if value =? 2 then Some INCOMPATIBLE_APPLICATION_PROTOCOL else
  if value =? 3 then Some APPLICATION_POLICY else
  application_specific value.

Inductive NegotiationDecision := Decide_Accept | Decide_Reject (reason : RejectionReason).

Definition decision_rejection (decision : NegotiationDecision) : option Z :=
  match decision with Decide_Accept => None | Decide_Reject reason => Some reason end.

Inductive NegotiationOutcome (S : Type) :=
| Negotiated_Accepted (session : S)
| Negotiated_Rejected (by_role : SenderRole) (reason : RejectionReason) (cleanup : option ChildCleanupFacts).
Arguments Negotiated_Accepted {S}.
Arguments Negotiated_Rejected {S}.

(** ** Sessions and backends *)

(** [Session<Role, State>]: what the typestate owns, and the limit facts. *)
Record Session (I : Type) := {
  ss_inner : I;
  ss_child_process_limit_facts : ChildProcessLimitFacts
}.
Arguments ss_inner {I}.
Arguments ss_child_process_limit_facts {I}.

Definition from_inner {I} (inner : I) (facts : ChildProcessLimitFacts) : Session I :=
  {| ss_inner := inner; ss_child_process_limit_facts := facts |}.

(** The coordinator's side of a target. *)
Record CoordinatorBackend (T : Type) := {
  cb_target : Target;
  cb_spawn : SessionCommand -> SessionOptions -> stm T CoordinatorFailure (Negotiating T);
  cb_decide : option Z -> Negotiating T -> res CoordinatorFailure (NativeOutcome (Dispatcher T)) * T;
  cb_map_control : AcceptedControlError -> PublicSessionError;
  cb_wait_for_exit : Z -> stm (Dispatcher T) unit ChildCleanupFacts;
  cb_abort : Z -> stm (Dispatcher T) unit ChildCleanupFacts;
  cb_transfer_batch : TransferBatch -> Z -> stm (Dispatcher T) ReadyFailure ActiveRegionSet;
  cb_batch_failure : SessionOperation -> SessionState -> ReadyFailure -> SessionFailure
}.
Arguments cb_target {T}.
Arguments cb_spawn {T}.
Arguments cb_decide {T}.
Arguments cb_map_control {T}.
Arguments cb_wait_for_exit {T}.
Arguments cb_abort {T}.
Arguments cb_transfer_batch {T}.
Arguments cb_batch_failure {T}.

(** The receiver's side; [N] is what its negotiating session owns. *)
Record ReceiverBackend (T N : Type) := {
  rb_from_bootstrap : SessionOptions -> stm T PublicSessionError N;
  rb_bootstrap_failure : PublicSessionError -> SessionFailure;
  rb_decide : (bytes -> option Z) -> N -> res PublicSessionError (NativeOutcome (Dispatcher T)) * T;
  rb_map_control : AcceptedControlError -> PublicSessionError;
  rb_receive_batch : ExpectedBatch -> Z -> stm (Dispatcher T) ReadyFailure ActiveRegionSet;
  rb_batch_failure : SessionOperation -> SessionState -> ReadyFailure -> SessionFailure
}.
Arguments rb_from_bootstrap {T N}.
Arguments rb_bootstrap_failure {T N}.
Arguments rb_decide {T N}.
Arguments rb_map_control {T N}.
Arguments rb_receive_batch {T N}.
Arguments rb_batch_failure {T N}.

(** ** Construction *)

Section Construction.
Context {T : Type} {C : Clock T}.

Definition windows_cpu_time_is_exact (limits : ChildProcessLimits) : bool :=
  match cpl_user_cpu_time limits with
  | Some ticks => negb (negb (ticks mod 100 =? 0) || (9223372036854775807 <? ticks / 100))
  | None => true
  end.
Definition windows_memory_fits (limits : ChildProcessLimits) : bool :=
  match cpl_commit_memory_bytes limits with
  | Some bytes => negb (is_none (try_from USIZE_MAX bytes))
  | None => true
  end.

Definition validate_public_options (target : Target) (options : SessionOptions) : stm T SessionError unit :=
  let limits := so_child_process_limits options in
  expired_or (so_deadline options)
    (sl_max_bootstrap_payload_bytes (so_limits options) <? len (so_application_payload options))
    Session_DeadlineExpired Session_InvalidInput >>!
  if ChildProcessLimits_has_zero limits then serr Session_InvalidInput else
  match target with
  | OnWindows =>
      if negb (windows_cpu_time_is_exact limits) then serr Session_InvalidInput else
      if negb (windows_memory_fits limits) then serr Session_InvalidInput else sret tt
  | OnLinux | OnMacos => sret tt
  end >>!
  slift (map_err Session_NativeNegotiation (SessionLimits_validate (so_limits options))) >>!
  sret tt.

Definition transaction_state (state : FailureState) : SessionTransactionState :=
  match state with
  | State_NotEstablished => Tx_NotEstablished
  | State_Spawned => Tx_Spawned
  | State_Negotiating => Tx_Negotiating
  end.

(** The failure of a backend's spawn; Windows adds what became of the limits. *)
Definition spawn_failure (target : Target) (limit_facts : ChildProcessLimitFacts) (failure : CoordinatorFailure)
  : SessionFailure :=
  let mapped :=
    with_optional_cleanup (csf_cleanup failure)
      (session_failure Op_Spawn (transaction_state (csf_state failure)) (csf_error failure) (csf_poisoned failure)) in
  match target with
  | OnWindows =>
      if negb (ChildProcessLimits_is_empty (requested limit_facts))
      then with_child_process_limit_facts
             (if csf_limits_applied failure then limit_facts
              else child_process_limit_invalid_facts target (requested limit_facts)) mapped
      else mapped
  | OnLinux | OnMacos => mapped
  end.

Definition spawn (b : CoordinatorBackend T) (command : SessionCommand) (options : SessionOptions)
  : stm T SessionFailure (Session (Negotiating T)) :=
  let limits := so_child_process_limits options in
  smap_err (fun reason =>
    with_child_process_limit_facts (child_process_limit_invalid_facts (cb_target b) limits)
      (SessionFailure_new Op_Spawn Tx_NotEstablished reason))
    (validate_public_options (cb_target b) options) >>!
  let limit_facts := child_process_limit_preflight (cb_target b) limits in
  if negb (ChildProcessLimits_is_empty (unsupported limit_facts))
  then serr (with_child_process_limit_facts limit_facts
               (SessionFailure_new Op_Spawn Tx_NotEstablished Session_UnsupportedChildProcessLimits)) else
  if has_reserved_environment command
  then serr (SessionFailure_new Op_Spawn Tx_NotEstablished Session_InvalidInput) else
  let! inner := smap_err (spawn_failure (cb_target b) limit_facts) (cb_spawn b command options) in
  sret (from_inner inner limit_facts).

Definition from_bootstrap {N} (target : Target) (b : ReceiverBackend T N) (options : SessionOptions)
  : stm T SessionFailure (Session N) :=
  let limits := so_child_process_limits options in
  smap_err (SessionFailure_new Op_Bootstrap Tx_NotEstablished) (validate_public_options target options) >>!
  if negb (ChildProcessLimits_is_empty limits)
  then serr (with_child_process_limit_facts
               (ChildProcessLimitFacts_new limits ChildProcessLimits_default limits)
               (SessionFailure_new Op_Bootstrap Tx_NotEstablished Session_UnsupportedChildProcessLimits)) else
  let! inner := smap_err (rb_bootstrap_failure b) (rb_from_bootstrap b options) in
  sret (from_inner inner ChildProcessLimitFacts_default).

(** [from_bootstrap]'s [map_err] on Linux, and on macOS and Windows. *)
Definition linux_bootstrap_failure (error : PublicSessionError) : SessionFailure :=
  session_failure Op_Bootstrap Tx_Negotiating error true.
Definition designation_failure (error : PublicSessionError) : SessionFailure :=
  match error with
  | Public_InvalidInput => session_failure Op_Bootstrap Tx_NotEstablished error false
  | _ => session_failure Op_Bootstrap Tx_Negotiating error true
  end.

(** ** Decisions *)

(** [map_*_coordinator_outcome] and [map_*_receiver_outcome] for the value
    [invalid] of a reason outside the namespace. *)
Definition map_outcome (invalid : option ChildCleanupFacts -> SessionFailure) (facts : ChildProcessLimitFacts)
  (outcome : NativeOutcome (Dispatcher T)) : res SessionFailure (NegotiationOutcome (Session (Dispatcher T))) :=
  match outcome with
  | Outcome_Accepted inner => Ok (Negotiated_Accepted (from_inner inner facts))
  | Outcome_Rejected by_role reason cleanup =>
      let? reason := ok_or (from_wire reason) (invalid cleanup) in
      Ok (Negotiated_Rejected by_role reason cleanup)
  end.

Definition map_coordinator_outcome (facts : ChildProcessLimitFacts)
  : NativeOutcome (Dispatcher T) -> res SessionFailure (NegotiationOutcome (Session (Dispatcher T))) :=
  map_outcome (fun cleanup =>
    let failure := with_child_process_limit_facts facts
                     (SessionFailure_new Op_Negotiate Tx_Poisoned Session_MalformedPeer) in
    match cleanup with Some cleanup => with_cleanup cleanup failure | None => failure end) facts.
Definition map_receiver_outcome
  : NativeOutcome (Dispatcher T) -> res SessionFailure (NegotiationOutcome (Session (Dispatcher T))) :=
  map_outcome (fun _ => SessionFailure_new Op_Negotiate Tx_Poisoned Session_MalformedPeer)
    ChildProcessLimitFacts_default.

Definition decide (b : CoordinatorBackend T) (decision : NegotiationDecision) (self : Session (Negotiating T))
  : res SessionFailure (NegotiationOutcome (Session (Dispatcher T))) * T :=
  let facts := ss_child_process_limit_facts self in
  let '(outcome, t) := cb_decide b (decision_rejection decision) (ss_inner self) in
  (let? outcome := map_err (fun failure =>
     with_child_process_limit_facts facts
       (with_optional_cleanup (csf_cleanup failure)
          (session_failure Op_Negotiate Tx_Negotiating (csf_error failure) (csf_poisoned failure)))) outcome in
   map_coordinator_outcome facts outcome, t).

Definition decide_after_coordinator {N} (b : ReceiverBackend T N) (choose : bytes -> NegotiationDecision)
  (self : Session N) : res SessionFailure (NegotiationOutcome (Session (Dispatcher T))) * T :=
  let '(outcome, t) := rb_decide b (fun payload => decision_rejection (choose payload)) (ss_inner self) in
  (let? outcome :=
     map_err (fun error => session_failure Op_Negotiate Tx_Negotiating error true) outcome in
   map_receiver_outcome outcome, t).

End Construction.

(** ** Ready sessions *)

Inductive CoordinatorCloseOutcome :=
| Close_Closed (facts : ChildCleanupFacts)
| Close_ActiveLeases (facts : ActiveLeaseFacts)
| Close_CleanupPending (facts : ChildCleanupFacts) (failure : SessionFailure)
| Close_Failed (error : SessionFailure).

Inductive ReceiverCloseOutcome :=
| Receiver_Closed
| Receiver_ActiveLeases (facts : ActiveLeaseFacts)
| Receiver_Failed (error : SessionFailure).

Record CoordinatorAbortOutcome := {
  ab_cleanup : ChildCleanupFacts;
  ab_failure : option SessionFailure
}.

Definition leases_empty (facts : ActiveLeaseFacts) : bool := (lf_regions facts =? 0) && (lf_bytes facts =? 0).

Definition peer_status (state : PeerState) : PeerStatus :=
  match state with Running => Connected | ExitedUnknown => Disconnected end.

Definition is_poisoned (state : SessionState) : bool :=
  match state with SessionPoisoned => true | SessionReady => false end.

(** [self.state()] of the dispatcher, an abnormal exit with the state word. *)
Definition current_state {T E} : stm (Dispatcher T) E SessionState :=
  fun self => (match session_state self with Ok state => Ok state | _ => Panic end, self).

(** [let result = ..; let state = inner.state(); result.map_err(..)]. *)
Definition reporting {T E A} (failure : SessionState -> E -> SessionFailure) (m : stm (Dispatcher T) E A)
  : stm (Dispatcher T) SessionFailure A :=
  fun self =>
  match m self with
  | (Ok a, self) => (current_state >>! sret a) self
  | (Err error, self) => (let! state := current_state in serr (failure state error)) self
  | (Panic, self) => (Panic, self)
  end.

(** What a close or an abort that did not reap the child says. *)
Definition incomplete_reason (cleanup : ChildCleanupFacts) : SessionError :=
  match cc_native_error cleanup with Some _ => Session_Native | None => Session_DeadlineExpired end.

Section Ready.
Context {T : Type} {R : AuthenticatedZeroRightsTransport T} {C : Clock T} {AL : Allocator}.

Definition poll_peer_with (map_control : AcceptedControlError -> PublicSessionError)
  : stm (Dispatcher T) PublicSessionError PeerStatus :=
  let! state := smap_err map_control try_poll_peer in sret (peer_status state).

Definition close_resources : stm (Dispatcher T) PublicSessionError unit :=
  smap_err map_close_resource_error try_close_resources.

(** *** The coordinator *)

Definition poll_peer (b : CoordinatorBackend T) : stm (Dispatcher T) SessionFailure PeerStatus :=
  reporting (ready_failure Op_PollPeer) (poll_peer_with (cb_map_control b)).
Definition send_control (b : CoordinatorBackend T) (kind : Z) (payload : bytes) (deadline : Z)
  : stm (Dispatcher T) SessionFailure unit :=
  reporting (ready_failure Op_SendControl) (smap_err (cb_map_control b) (send_parts kind payload deadline)).
Definition receive_control (b : CoordinatorBackend T) (deadline : Z)
  : stm (Dispatcher T) SessionFailure ControlFrame :=
  reporting (ready_failure Op_ReceiveControl) (smap_err (cb_map_control b) (receive deadline)).
Definition session_transfer_batch (b : CoordinatorBackend T) (batch : TransferBatch) (deadline : Z)
  : stm (Dispatcher T) SessionFailure ActiveRegionSet :=
  reporting (cb_batch_failure b Op_TransferBatch) (cb_transfer_batch b batch deadline).

(** A builder within the limits both sides accepted. *)
Definition new_transfer_batch (self : Dispatcher T) : res BatchError TransferBatch :=
  let limits := ap_limits (d_parameters self) in
  TransferBatch_new (sl_max_regions_per_batch limits) (sl_max_region_bytes limits) (sl_max_batch_bytes limits).

Definition try_close (b : CoordinatorBackend T) (deadline : Z)
  : stm (Dispatcher T) unit CoordinatorCloseOutcome :=
  let! self := sget in
  let facts := active_lease_facts self in
  if negb (leases_empty facts) then sret (Close_ActiveLeases facts) else
  let! cleanup := cb_wait_for_exit b deadline in
  if negb (direct_child_complete cleanup) then
    let! state := current_state in
    let failure :=
      with_cleanup cleanup (with_poisoned (is_poisoned state) (with_native_code (cc_native_error cleanup)
        (SessionFailure_new Op_Close (if is_poisoned state then Tx_Poisoned else Tx_Ready)
           (incomplete_reason cleanup)))) in
    sret (Close_CleanupPending cleanup failure)
  else
  fun self =>
  match reporting (ready_failure Op_Close) close_resources self with
  | (Ok _, self) => (Ok (Close_Closed cleanup), self)
  | (Err error, self) => (Ok (Close_Failed (with_cleanup cleanup error)), self)
  | (Panic, self) => (Panic, self)
  end.

Definition abort (b : CoordinatorBackend T) (deadline : Z) : stm (Dispatcher T) unit CoordinatorAbortOutcome :=
  let! cleanup := cb_abort b deadline in
  sret {| ab_cleanup := cleanup;
          ab_failure :=
            if direct_child_complete cleanup then None
            else Some (with_cleanup cleanup (with_poisoned true (with_native_code (cc_native_error cleanup)
                        (SessionFailure_new Op_Abort Tx_Poisoned (incomplete_reason cleanup))))) |}.

(** *** The receiver *)

Section Receiver.
Context {N : Type} (b : ReceiverBackend T N).

Definition receiver_poll_peer : stm (Dispatcher T) SessionFailure PeerStatus :=
  reporting (ready_failure Op_PollPeer) (poll_peer_with (rb_map_control b)).
Definition receiver_send_control (kind : Z) (payload : bytes) (deadline : Z)
  : stm (Dispatcher T) SessionFailure unit :=
  reporting (ready_failure Op_SendControl) (smap_err (rb_map_control b) (send_parts kind payload deadline)).
Definition receiver_receive_control (deadline : Z) : stm (Dispatcher T) SessionFailure ControlFrame :=
  reporting (ready_failure Op_ReceiveControl) (smap_err (rb_map_control b) (receive deadline)).
Definition session_receive_batch (expected : ExpectedBatch) (deadline : Z)
  : stm (Dispatcher T) SessionFailure ActiveRegionSet :=
  reporting (rb_batch_failure b Op_ReceiveBatch) (rb_receive_batch b expected deadline).

Definition receiver_try_close : stm (Dispatcher T) unit ReceiverCloseOutcome :=
  let! self := sget in
  let facts := active_lease_facts self in
  if negb (leases_empty facts) then sret (Receiver_ActiveLeases facts) else
  fun self =>
  match reporting (ready_failure Op_Close) close_resources self with
  | (Ok _, self) => (Ok Receiver_Closed, self)
  | (Err error, self) => (Ok (Receiver_Failed error), self)
  | (Panic, self) => (Panic, self)
  end.

Definition receiver_abort (self : Dispatcher T) : Dispatcher T := poison_session self.

End Receiver.

(** The wait of a Linux receiver, and of the others: poll, then sleep a
    millisecond at most, until the deadline. [None]: the fuel ran out. *)
Definition linux_wait_for_peer_exit {WP : WatchedPeer T} (deadline : Z)
  : stm (Dispatcher T) SessionFailure PeerStatus :=
  reporting (ready_failure Op_WaitForExit)
    (let! state := smap_err map_public_transport_error (wait_for_linux_peer_exit deadline) in
     sret (peer_status state)).

Fixpoint polling_wait (map_control : AcceptedControlError -> PublicSessionError) (sleep : Z -> T -> T)
  (fuel : nat) (deadline : Z) : Dispatcher T -> option (res PublicSessionError PeerStatus * Dispatcher T) :=
  match fuel with
  | O => fun _ => None
  | S fuel => fun self =>
      match poll_peer_with map_control self with
      | (Ok Disconnected, self) => Some (Ok Disconnected, self)
      | (Ok Connected, self) =>
          match on_native (E := PublicSessionError) (is_expired deadline) self with
          | (Ok true, self) => Some (Err Public_DeadlineExpired, self)
          | (Ok false, self) =>
              match on_native (E := PublicSessionError) (AbsoluteDeadline_remaining deadline) self with
              | (Ok remaining, self) =>
                  polling_wait map_control sleep fuel deadline
                    (with_transport (sleep (Z.min 1000000 remaining) (d_transport self)) self)
              | (_, self) => Some (Panic, self)
              end
          | (_, self) => Some (Panic, self)
          end
      | (Err error, self) => Some (Err error, self)
      | (Panic, self) => Some (Panic, self)
      end
  end.

(** [wait_for_exit] of the API on macOS and Windows. *)
Definition receiver_wait_for_exit (map_control : AcceptedControlError -> PublicSessionError) (sleep : Z -> T -> T)
  (fuel : nat) (deadline : Z) (self : Dispatcher T) : option (res SessionFailure PeerStatus * Dispatcher T) :=
  match polling_wait map_control sleep fuel deadline self with
  | Some (result, self) => Some (reporting (ready_failure Op_WaitForExit) (fun self => (result, self)) self)
  | None => None
  end.

End Ready.

(** ** The three targets *)

Definition infallibly {S A} (f : S -> A * S) : stm S unit A := fun s => let '(a, s) := f s in (Ok a, s).

(** [code as i32]. *)
Definition i32_of_u32 (code : Z) : Z := if code <? 2147483648 then code else code - 4294967296.

Definition cleanup_from_transport (error : SessionTransportError) : ChildCleanupFacts :=
  {| cc_direct_child := None; cc_descendants := OwnedContainmentUnverified;
     cc_native_error := match error with TransportError_Native code => code | _ => None end |}.
Definition terminated_cleanup (code : option Z) : ChildCleanupFacts :=
  {| cc_direct_child := option_map (fun code => Exited (i32_of_u32 code)) code;
     cc_descendants := ContainedProcessTreeComplete; cc_native_error := None |}.

(** An exit code, or the error that stands for it. *)
Definition windows_cleanup {T} (m : stm (Dispatcher T) SessionTransportError Z)
  : stm (Dispatcher T) unit ChildCleanupFacts :=
  fun self =>
  match m self with
  | (Ok code, self) => (Ok (terminated_cleanup (Some code)), self)
  | (Err error, self) => (Ok (cleanup_from_transport error), self)
  | (Panic, self) => (Panic, self)
  end.

(** macOS and Windows report the error of a batch alone. *)
Definition atomic_batch_failure (operation : SessionOperation) (state : SessionState) (failure : ReadyFailure)
  : SessionFailure := ready_failure operation state (rf_error failure).

Section Targets.
Context {T : Type} {R : AuthenticatedZeroRightsTransport T} {C : Clock T} {PR : Process T}
        {AL : Allocator} {SH : Sha256} {TP : Negotiation.Platform}
        (transfer : TransferBatch -> Z -> stm (Dispatcher T) ReadyFailure ActiveRegionSet)
        (import : ExpectedBatch -> Z -> stm (Dispatcher T) ReadyFailure ActiveRegionSet).

Definition linux_coordinator_backend {L : LinuxNative T} {RC : ReapedChild T} : CoordinatorBackend T :=
  {| cb_target := OnLinux; cb_spawn := linux_spawn; cb_decide := linux_decide;
     cb_map_control := linux_map_control_error;
     cb_wait_for_exit := fun deadline => infallibly (wait_for_linux_child deadline);
     cb_abort := fun deadline => infallibly (abort_linux_child deadline);
     cb_transfer_batch := transfer; cb_batch_failure := linux_ready_batch_failure |}.
Definition mac_coordinator_backend {M : MacNative T} {RC : ReapedChild T} : CoordinatorBackend T :=
  {| cb_target := OnMacos; cb_spawn := mac_spawn; cb_decide := mac_decide;
     cb_map_control := mac_map_control_error;
     cb_wait_for_exit := fun deadline => infallibly (wait_for_macos_child deadline);
     cb_abort := fun deadline => infallibly (abort_macos_child deadline);
     cb_transfer_batch := transfer; cb_batch_failure := atomic_batch_failure |}.
Definition windows_coordinator_backend {W : WindowsNative T} {XC : ExitCodeChild T} : CoordinatorBackend T :=
  {| cb_target := OnWindows; cb_spawn := windows_spawn; cb_decide := windows_decide;
     cb_map_control := windows_map_control_error;
     cb_wait_for_exit := fun deadline => windows_cleanup (wait_for_windows_child deadline);
     cb_abort := fun deadline => windows_cleanup (terminate_windows_child deadline);
     cb_transfer_batch := transfer; cb_batch_failure := atomic_batch_failure |}.

Definition linux_receiver_backend {L : LinuxNative T}
  : ReceiverBackend T (PacketCredentials * PacketCredentials * Negotiating T) :=
  {| rb_from_bootstrap := linux_from_inherited_bootstrap; rb_bootstrap_failure := linux_bootstrap_failure;
     rb_decide := linux_decide_after_coordinator; rb_map_control := linux_map_control_error;
     rb_receive_batch := import; rb_batch_failure := linux_ready_batch_failure |}.
Definition mac_receiver_backend {M : MacNative T} : ReceiverBackend T (Negotiating T) :=
  {| rb_from_bootstrap := mac_from_environment; rb_bootstrap_failure := designation_failure;
     rb_decide := mac_decide_after_coordinator; rb_map_control := mac_map_control_error;
     rb_receive_batch := import; rb_batch_failure := atomic_batch_failure |}.
Definition windows_receiver_backend {W : WindowsNative T} : ReceiverBackend T (Negotiating T) :=
  {| rb_from_bootstrap := windows_from_environment; rb_bootstrap_failure := designation_failure;
     rb_decide := windows_decide_after_coordinator; rb_map_control := windows_map_control_error;
     rb_receive_batch := import; rb_batch_failure := atomic_batch_failure |}.

End Targets.

(** ** The receiver's bootstrap

    The hook that the loader runs before [main] on Linux, and the take that
    [receiver_main!] performs. An environment is the loader's vector of C
    strings, each the bytes before its terminator; writing a zero over the first
    byte leaves the empty string. The process holds the vector and the atomic
    [RECEIVER_BOOTSTRAP_FD]. *)

Definition BOOTSTRAP_ABSENT : Z := -2.
Definition BOOTSTRAP_INVALID : Z := -1.
Definition BOOTSTRAP_TAKEN : Z := -3.
Definition PR_MDWE_REFUSE_EXEC_GAIN : Z := 1.
(** [libc] on Linux. *)
Definition O_NONBLOCK : Z := 2048.
Definition SOCK_SEQPACKET : Z := 5.
Definition I32_MAX : Z := 2147483647.

Definition RECEIVER_BOOTSTRAP_ENV_PREFIX : bytes := BOOTSTRAP_FD_ENV ++ [x3d].
Definition RECEIVER_PUBLIC_BOOTSTRAP_ENV_ENTRY : bytes := PUBLIC_BOOTSTRAP_ENV ++ [x3d; x31].

(** [for (offset, expected) in ..enumerate()]: what is left of the string after
    the bytes that matched, [None] at the first that did not. *)
Fixpoint matched (expected candidate : bytes) : option bytes :=
  match expected, candidate with
  | [], rest => Some rest
  | _ :: _, [] => None
  | e :: expected, actual :: candidate =>
      if bool_decide (actual = x00) || negb (bool_decide (actual = e)) then None
      else matched expected candidate
  end.

(** The first entry the test selects is scrubbed; what the test returned for it,
    and the vector afterwards. *)
Fixpoint scrub_first {A} (test : bytes -> option A) (environment : list bytes) : option (A * list bytes) :=
  match environment with
  | [] => None
  | candidate :: rest =>
      match test candidate with
      | Some found => Some (found, [] :: rest)
      | None =>
          match scrub_first test rest with
          | Some (found, rest) => Some (found, candidate :: rest)
          | None => None
          end
      end
  end.

Definition is_public_entry (candidate : bytes) : option unit :=
  match matched RECEIVER_PUBLIC_BOOTSTRAP_ENV_ENTRY candidate with
  | Some [] => Some tt
  | _ => None
  end.

(** The digits: [None] stores [BOOTSTRAP_INVALID]. *)
Fixpoint parse_descriptor (value : bytes) (raw length : Z) : option (Z * Z) :=
  if length =? 10 then None else
  match value with
  | [] => Some (raw, length)
  | byte :: value =>
      if negb ((48 <=? Z_of_byte byte) && (Z_of_byte byte <=? 57)) || ((length =? 0) && (Z_of_byte byte =? 48))
      then None else
      match checked_mul I32_MAX raw 10 ≫= (fun current => checked_add I32_MAX current (Z_of_byte byte - 48)) with
      | Some next => parse_descriptor value next (length + 1)
      | None => None
      end
  end.

(** What the scalar queries about the process and the descriptor return. *)
Record DescriptorFacts := {
  df_descriptor_flags : Z;
  df_descriptor_status : Z;
  df_mdwe : Z;
  df_pid : Z;
  df_sid : Z;
  df_process_group : Z;
  df_socket_result : Z;
  df_socket_type_len : Z;
  df_socket_type : Z
}.

Class PreinitNative (T : Type) := {
  descriptor_facts : Z -> T -> DescriptorFacts * T;
  close_descriptor : Z -> T -> T;
  set_cloexec : Z -> T -> Z * T
}.

Record ReceiverProcess (T : Type) := {
  rp_environment : option (list bytes);
  rp_bootstrap_fd : Z;
  rp_native : T
}.
Arguments rp_environment {T}.
Arguments rp_bootstrap_fd {T}.
Arguments rp_native {T}.

Section Preinit.
Context {T : Type} {P : PreinitNative T}.

Definition wrong_descriptor (facts : DescriptorFacts) : bool :=
  negb (df_descriptor_flags facts =? 0) || (df_descriptor_status facts <? 0)
  || (Z.land (df_descriptor_status facts) O_NONBLOCK =? 0)
  || negb (df_mdwe facts =? PR_MDWE_REFUSE_EXEC_GAIN) || (df_pid facts <=? 0)
  || negb (df_sid facts =? df_pid facts) || negb (df_process_group facts =? df_pid facts)
  || negb (df_socket_result facts =? 0) || negb (df_socket_type_len facts =? 4)
  || negb (df_socket_type facts =? SOCK_SEQPACKET).

(** What is stored in [RECEIVER_BOOTSTRAP_FD], from the value of the entry on. *)
Definition reserve_descriptor (value : bytes) (t : T) : Z * T :=
  match parse_descriptor value 0 0 with
  | None => (BOOTSTRAP_INVALID, t)
  | Some (raw, length) =>
      if (length =? 0) || (raw <? 3) then (BOOTSTRAP_INVALID, t) else
      let '(facts, t) := descriptor_facts raw t in
      if wrong_descriptor facts then (BOOTSTRAP_INVALID, close_descriptor raw t) else
      let '(result, t) := set_cloexec raw t in
      if negb (result =? 0) then (BOOTSTRAP_INVALID, close_descriptor raw t) else (raw, t)
  end.

Definition receiver_bootstrap_preinit_linux (self : ReceiverProcess T) : ReceiverProcess T :=
  match rp_environment self with
  | None => self
  | Some environment =>
      match scrub_first is_public_entry environment with
      | None => self
      | Some (_, environment) =>
          match scrub_first (matched RECEIVER_BOOTSTRAP_ENV_PREFIX) environment with
          | None => {| rp_environment := Some environment; rp_bootstrap_fd := rp_bootstrap_fd self;
                       rp_native := rp_native self |}
          | Some (value, environment) =>
              let '(fd, t) := reserve_descriptor value (rp_native self) in
              {| rp_environment := Some environment; rp_bootstrap_fd := fd; rp_native := t |}
          end
      end
  end.

(** [__take_receiver_bootstrap] on Linux: the descriptor is swapped out. *)
Definition take_receiver_bootstrap : stm (ReceiverProcess T) SessionFailure Z :=
  fun self =>
  let raw := rp_bootstrap_fd self in
  (if raw <? 3 then Err (SessionFailure_new Op_Bootstrap Tx_NotEstablished Session_InvalidInput) else Ok raw,
   {| rp_environment := rp_environment self; rp_bootstrap_fd := BOOTSTRAP_TAKEN; rp_native := rp_native self |}).

End Preinit.
