(* ===== verification/SessionTheory.v ===== *)
(** * SessionTheory: what the public session API promises

    Orderly ends, truthful failures, limits that are never weakened, and waits
    that return, for the three targets of [Session.v]. *)

From stdpp Require Import gmap.
From S2P Require Import Prelude Bytes Tools Limits Manifest Negotiation NegotiationCodec NegotiationTheory NegotiationDecision Control Liveness Native Resources Active Batch Dispatcher Expected Transfer Handshake HandshakeTheory HandshakeClaims Session.

(** ** Closing *)

(** A ledger whose state word a method may have poisoned, and nothing else. *)
Definition poisoned_from (sh sh' : SharedResources) : Prop := sh' = sh \/ sh' = ResourceOwner_poison sh.

Lemma poison_ledger sh : ResourceOwner_poison sh = if sr_state sh =? ACTIVE then with_state Liveness.POISONED sh else sh.
Proof. reflexivity. Qed.

Lemma poisoned_from_balanced sh sh' held :
  poisoned_from sh sh' -> balanced sh held -> balanced sh' held /\ (sr_state sh <> CLOSED -> sr_state sh' <> CLOSED).
Proof.
  intros [->| ->] Hb; [done|]. rewrite poison_ledger. destruct (sr_state sh =? ACTIVE); [|done].
  destruct Hb. split; [|done]. constructor; cbn; auto.
Qed.

(** What a target's wait for the child does to the dispatcher. *)
Class WaitsForChild {T} (b : CoordinatorBackend T) := {
  wc_wait deadline self : exists cleanup self', cb_wait_for_exit b deadline self = (Ok cleanup, self') /\
    poisoned_from (d_resources self) (d_resources self')
}.

Lemma close_empty sh :
  balanced sh [] -> sr_state sh <> CLOSED -> ResourceOwner_try_close sh = (Ok tt, with_state CLOSED sh).
Proof.
  intros [Hr Hb _ _ _ _ _] Hs. unfold ResourceOwner_try_close. cbn.
  change (len []) with 0 in Hr. change (total []) with 0 in Hb. rewrite Hr, Hb. cbn.
  destruct (sr_state sh =? CLOSED) eqn:E; [bsplit; done|]. cbn. now rewrite Z.eqb_refl.
Qed.

Lemma state_of_balanced {T} (self : Dispatcher T) held :
  balanced (d_resources self) held -> exists st, session_state self = Ok st.
Proof.
  intros [_ _ _ _ _ _ Hs]. unfold session_state, ResourceOwner_state, decode_state.
  destruct (cs_poisoned _); [eauto|]. destruct Hs as [->|[->| ->]]; cbn; eauto.
Qed.

Lemma closed_balanced sh : balanced sh [] -> balanced (with_state CLOSED sh) [].
Proof. intros []. constructor; cbn; auto. Qed.

Lemma closed_refuses bytes sh :
  sr_state sh = CLOSED -> exists e, ResourceOwner_reserve bytes sh = (Err e, sh).
Proof.
  intros Hs. unfold ResourceOwner_reserve. cbn. destruct (_ || _); [cbn; eauto|].
  unfold ensure_active, decode_state. rewrite Hs. cbn. eauto.
Qed.

(** What a close may come to, from a session with the leases [held]. *)
Definition close_promise {T} (held : list Z) (self : Dispatcher T)
  (result : res unit CoordinatorCloseOutcome * Dispatcher T) : Prop :=
  match result with
  | (Ok (Close_ActiveLeases facts), self') =>
      held <> [] /\ lf_regions facts = len held /\ lf_bytes facts = total held /\ self' = self
  | (Ok (Close_Closed cleanup), self') =>
      held = [] /\ direct_child_complete cleanup = true /\ balanced (d_resources self') [] /\
      sr_state (d_resources self') = CLOSED /\
      forall bytes, exists e, ResourceOwner_reserve bytes (d_resources self') = (Err e, d_resources self')
  | (Ok (Close_CleanupPending cleanup failure), self') =>
      held = [] /\ direct_child_complete cleanup = false /\ fl_cleanup failure = Some cleanup /\
      balanced (d_resources self') [] /\ sr_state (d_resources self') <> CLOSED /\
      session_state self' = Ok (if fl_poisoned failure then SessionPoisoned else SessionReady)
  | _ => False
  end.

Section Close.
Context {T : Type} {R : AuthenticatedZeroRightsTransport T}.

(** The last step: the ledger is closed once the child was reaped. *)
Lemma close_ledger (self : Dispatcher T) :
  balanced (d_resources self) [] -> sr_state (d_resources self) <> CLOSED ->
  reporting (ready_failure Op_Close) close_resources self
  = (Ok tt, with_resources (with_state CLOSED (d_resources self)) self).
Proof.
  intros Hb Hs. unfold reporting, close_resources, smap_err, try_close_resources, on_resources.
  rewrite close_empty by done. cbn [map_err]. unfold current_state, sbind, sret.
  destruct (state_of_balanced (with_resources (with_state CLOSED (d_resources self)) self) []) as [st Hst];
    [now apply closed_balanced|]. now rewrite Hst.
Qed.

Lemma close_kept (b : CoordinatorBackend T) {W : WaitsForChild b} deadline self held :
  balanced (d_resources self) held -> sr_state (d_resources self) <> CLOSED ->
  close_promise held self (try_close b deadline self).
Proof.
  intros Hb Hs. unfold try_close. unfold sbind at 1, sget.
  destruct (leases_empty (active_lease_facts self)) eqn:He; cbn [negb].
  2:{ destruct Hb. split_and!; try done. intros ->. unfold leases_empty in He. cbn in He.
      rewrite bal_regions, bal_bytes in He. done. }
  unfold leases_empty in He. cbn in He. bsplit. destruct (Hb) as [Hr _ _ _ _ _ _].
  assert (held = []) as -> by (destruct held; [done|rewrite len_cons in Hr; pose proof (len_nonneg held); lia]).
  destruct (wc_wait deadline self) as (cleanup & self1 & Hw & Hp). unfold sbind at 1. rewrite Hw.
  destruct (poisoned_from_balanced _ _ _ Hp Hb) as [Hb1 Hs1]. specialize (Hs1 Hs).
  destruct (direct_child_complete cleanup) eqn:Hd; cbn [negb].
  - rewrite close_ledger by done. unfold close_promise. split_and!; try done; [now apply closed_balanced|].
    intros bytes. now apply closed_refuses.
  - destruct (state_of_balanced self1 [] Hb1) as [st Hst]. unfold sbind, current_state. rewrite Hst.
    unfold sret. cbn. split_and!; try done. rewrite Hst. now destruct st.
Qed.

End Close.

(** The three targets *)

Section CloseTargets.
Context {T : Type} {R : AuthenticatedZeroRightsTransport T} {C : Clock T} {PR : Process T} {AL : Allocator}
        {SH : Sha256} {TP : Negotiation.Platform} {L : LinuxNative T} {MN : MacNative T} {WN : WindowsNative T}
        {RC : ReapedChild T} {XC : ExitCodeChild T}
        (transfer : TransferBatch -> Z -> stm (Dispatcher T) ReadyFailure ActiveRegionSet).

#[export] Instance linux_waits : WaitsForChild (linux_coordinator_backend transfer).
Proof.
  split. intros deadline self. cbn. unfold infallibly, wait_for_linux_child.
  destruct (wait_and_reap_facts deadline (d_transport self)) as [cleanup t]. eexists _, _. split; [reflexivity|].
  destruct (_ || _); [right|left]; done.
Qed.
#[export] Instance mac_waits : WaitsForChild (mac_coordinator_backend transfer).
Proof.
  split. intros deadline self. cbn. unfold infallibly, wait_for_macos_child.
  destruct (wait_and_reap_facts deadline (d_transport self)) as [cleanup t]. eexists _, _. split; [reflexivity|].
  destruct (_ || _); [right|left]; done.
Qed.
#[export] Instance windows_waits : WaitsForChild (windows_coordinator_backend transfer).
Proof.
  split. intros deadline self. cbn. unfold windows_cleanup, wait_for_windows_child, on_io.
  destruct (wait_for_child_exit deadline (d_transport self)) as [[code|e] t].
  - eexists _, _. split; [reflexivity|]. by right.
  - destruct e; eexists _, _; (split; [reflexivity|]); first [by left | by right].
Qed.

(** The backends a coordinator is built with. *)
Definition coordinator_targets : list (CoordinatorBackend T) :=
  [linux_coordinator_backend transfer; mac_coordinator_backend transfer; windows_coordinator_backend transfer].

(** C12: The orderly end of a coordinator's session. With leases outstanding
    [try_close] reports exactly how many and how many bytes, and hands the
    session back untouched. Without any, it waits for the child: if the child
    was reaped the session is closed, its ledger refuses every later lease, and
    the exit is reported; if not, the session is handed back open, with a failure
    that carries the cleanup facts and says exactly whether the session is now
    poisoned. A close never fails otherwise and never ends abnormally, on any of
    the three targets. *)
Theorem session_close_exact b deadline self held :
  b ∈ coordinator_targets -> balanced (d_resources self) held -> sr_state (d_resources self) <> CLOSED ->
  close_promise held self (try_close b deadline self).
Proof.
  unfold coordinator_targets. intros Hin Hb Hs. rewrite !elem_of_cons in Hin.
  destruct Hin as [->|[->|[->|[]%elem_of_nil]]]; now apply (close_kept _).
Qed.

End CloseTargets.

(** ** Custody of the child

    Who owns a child is what a run of the native operations shows: the spawn
    gives the owner of a child or is refused, and the operations that end a child
    consume its owner. The theorems run the code on natives that also log this;
    nothing is assumed of the natives. *)

Inductive Custody :=
| Obtained
| Refused (cleanup : option ChildCleanupFacts) (state : FailureState)
| Ended (cleanup : ChildCleanupFacts).

Section Tracked.
Context {T : Type}.

Definition Tracked : Type := T * list Custody.

Definition tracking {A} (events : A -> list Custody) (f : T -> A * T) : Tracked -> A * Tracked :=
  fun '(t, log) => let '(a, t) := f t in (a, (t, log ++ events a)).
Definition untracked {A} (f : T -> A * T) : Tracked -> A * Tracked :=
  fun '(t, log) => let '(a, t) := f t in (a, (t, log)).

(** What a native spawn tells: its facts and its state, which each target reads
    off its own error. *)
Definition spawned {E} (refusal : E -> Custody) (r : unit + E) : list Custody :=
  match r with inl _ => [Obtained] | inr error => [refusal error] end.
Definition linux_refusal (failure : LinuxCoordinatorSpawnFailure) : Custody :=
  Refused (option_map map_child_cleanup (lsf_cleanup failure)) (lsf_state failure).
Definition mac_refusal (error : BootstrapError) : Custody :=
  match error with
  | Bootstrap_ExactAuthorityUnavailable code =>
      Refused (Some {| cc_direct_child := None; cc_descendants := FreshGroupUnverified; cc_native_error := code |}) State_Spawned
  | _ => Refused None State_NotEstablished
  end.
Definition windows_refusal (failure : ChildSpawnFailure) : Custody :=
  Refused (cf_cleanup failure) (if is_none (cf_cleanup failure) then State_NotEstablished else State_Spawned).

#[local] Instance tracked_clock {C : Clock T} : Clock Tracked :=
  {| instant_now := untracked instant_now; instant_max := instant_max |}.

#[local] Instance tracked_linux {L : LinuxNative T} : LinuxNative Tracked :=
  {| linux_discover_atomics := untracked linux_discover_atomics;
     linux_entropy := fun length deadline => untracked (linux_entropy length deadline);
     linux_open := fun executable => untracked (linux_open executable);
     linux_reject_credential_changing_mode := untracked linux_reject_credential_changing_mode;
     linux_spawn_held := fun arguments environment deadline =>
       tracking (spawned linux_refusal) (linux_spawn_held arguments environment deadline);
     linux_adopt_inherited := untracked linux_adopt_inherited;
     linux_send := fun packet deadline => untracked (linux_send packet deadline);
     linux_receive := fun credentials deadline => untracked (linux_receive credentials deadline);
     linux_ensure_live := fun deadline => untracked (linux_ensure_live deadline);
     linux_matches_process_image := fun s => linux_matches_process_image (fst s);
     linux_terminate_and_reap := fun deadline =>
       tracking (fun cleanup => [Ended (map_child_cleanup cleanup)]) (linux_terminate_and_reap deadline) |}.

#[local] Instance tracked_mac {M : MacNative T} : MacNative Tracked :=
  {| mac_discover_atomics := untracked mac_discover_atomics; mac_random_nonce := untracked mac_random_nonce;
     mac_hold_executable := fun executable => untracked (mac_hold_executable executable);
     mac_spawn_explicit := fun executable arguments environment =>
       tracking (spawned mac_refusal) (mac_spawn_explicit executable arguments environment);
     mac_matches_running_image := fun authenticated => untracked (mac_matches_running_image authenticated);
     mac_authenticate := fun deadline =>
       tracking (fun r => match r with inl _ => [] | inr (_, cleanup) => [Ended cleanup] end) (mac_authenticate deadline);
     mac_connect_from_environment := fun deadline => untracked (mac_connect_from_environment deadline);
     mac_send := fun packet deadline => untracked (mac_send packet deadline);
     mac_receive := fun length deadline => untracked (mac_receive length deadline);
     mac_try_poll := untracked mac_try_poll;
     mac_wait_and_reap_status := fun deadline => untracked (mac_wait_and_reap_status deadline);
     mac_cleanup_until := fun deadline => tracking (fun cleanup => [Ended cleanup]) (mac_cleanup_until deadline);
     mac_terminate_and_reap_facts := fun deadline =>
       tracking (fun cleanup => [Ended cleanup]) (mac_terminate_and_reap_facts deadline) |}.

#[local] Instance tracked_windows {W : WindowsNative T} : WindowsNative Tracked :=
  {| windows_discover_atomics := untracked windows_discover_atomics;
     windows_session_nonce := untracked windows_session_nonce; windows_command_is_valid := windows_command_is_valid;
     windows_spawn_until := fun command deadline limits =>
       tracking (spawned windows_refusal) (windows_spawn_until command deadline limits);
     windows_connect_spawned_helper := fun deadline => untracked (windows_connect_spawned_helper deadline);
     windows_write_message := fun packet deadline => untracked (windows_write_message packet deadline);
     windows_read_message := fun length deadline => untracked (windows_read_message length deadline);
     windows_cleanup_after_failure := tracking (fun cleanup => [Ended cleanup]) windows_cleanup_after_failure |}.

(** Code that leaves the custody as it is, where [p] finds the log. *)
Section Quiet.
Context {S E : Type} (p : S -> list Custody).

Definition quiet {A} (m : stm S E A) : Prop := forall s, p (snd (m s)) = p s.

Lemma quiet_ret {A} (a : A) : quiet (sret a).
Proof. done. Qed.
Lemma quiet_err {A} e : quiet (A := A) (serr e).
Proof. done. Qed.
Lemma quiet_lift {A} (r : res E A) : quiet (slift r).
Proof. done. Qed.
Lemma quiet_bind {A B} (m : stm S E A) (k : A -> stm S E B) : quiet m -> (forall a, quiet (k a)) -> quiet (sbind m k).
Proof.
  intros Hm Hk s. specialize (Hm s). unfold sbind. destruct (m s) as [[a|e|] s'] eqn:Em; cbn in *; [|done..].
  now rewrite Hk.
Qed.
Lemma quiet_read {A B} (f : S -> A) (k : A -> stm S E B) : (forall a, quiet (k a)) -> quiet (fun s => k (f s) s).
Proof. intros Hk s. apply Hk. Qed.
End Quiet.

Lemma quiet_get {S E A} (p : S -> list Custody) (k : S -> stm S E A) : (forall s, quiet p (k s)) -> quiet p (let! s := sget in k s).
Proof. intros Hk s. exact (Hk s s). Qed.
Lemma quiet_map_err {S E G A} (p : S -> list Custody) (f : G -> E) (m : stm S G A) : quiet p m -> quiet p (smap_err f m).
Proof. intros Hm s. specialize (Hm s). unfold smap_err. now destruct (m s) as [[a|e|] s']. Qed.
Lemma quiet_untracked {E A} (m : nio T E A) : quiet snd (native (untracked m)).
Proof. intros [t log]. unfold native, untracked. now destruct (m t) as [[a|e] t']. Qed.
Lemma quiet_expired {C : Clock T} {E} deadline : quiet (E := E) snd (is_expired (C := tracked_clock) deadline).
Proof.
  intros [t log]. unfold is_expired, AbsoluteDeadline_remaining, sbind, sret. cbn. now destruct (instant_now t).
Qed.
Lemma quiet_expired_or {C : Clock T} {E} deadline wrong (expired invalid : E) :
  quiet snd (expired_or (C := tracked_clock) deadline wrong expired invalid).
Proof.
  apply quiet_bind; [apply quiet_expired|intros first]. destruct (_ || _); [|apply quiet_ret].
  apply quiet_bind; [apply quiet_expired|intros again]. apply quiet_err.
Qed.

(** *** A handshake in custody *)

Definition transcript_log (s : Tracked * NegotiatedTranscript) : list Custody := snd (fst s).

Lemma quiet_endpoint {E A} (m : stm Tracked E A) : quiet snd m -> quiet transcript_log (endpoint m).
Proof. intros Hm [t tr]. specialize (Hm t). unfold endpoint. now destruct (m t). Qed.
Lemma quiet_on_transcript {E A} (h : Handshake Tracked E) (m : stm NegotiatedTranscript NegotiationWireError A) :
  quiet transcript_log (on_transcript h m).
Proof. intros [t tr]. unfold on_transcript. now destruct (m tr). Qed.
Lemma quiet_read_transcript {E A} (h : Handshake Tracked E) (f : NegotiatedTranscript -> res NegotiationWireError A) :
  quiet transcript_log (read_transcript h f).
Proof. now intros [t tr]. Qed.

Record quiet_handshake {E} (h : Handshake Tracked E) : Prop := {
  qh_send packet deadline : quiet snd (hs_send h packet deadline);
  qh_receive deadline : quiet snd (hs_receive h deadline)
}.

(** The owner of a child: only the termination changes the custody. *)
Record keeper {E} (o : Owner Tracked E) : Prop := {
  kp_handshake : quiet_handshake o;
  kp_challenge deadline : quiet snd (ow_challenge o deadline);
  kp_verify deadline : quiet snd (ow_verify_image o deadline);
  kp_terminate deadline s : exists facts, fst (ow_terminate o deadline s) = facts /\
    snd (snd (ow_terminate o deadline s)) = snd s ++ [Ended facts]
}.

Lemma quiet_coordinator_hello {E} {SH : Sha256} {TP : Negotiation.Platform} {AL : Allocator} (h : Handshake Tracked E) coordinator atomics deadline :
  quiet_handshake h -> quiet (S := Tracked) snd (coordinator_hello h coordinator atomics deadline).
Proof.
  intros [Hs Hr]. unfold coordinator_hello. apply quiet_bind; [apply quiet_lift|intros packet].
  apply quiet_bind; [apply Hs|intros _]. apply quiet_bind; [apply Hr|intros packet'].
  apply quiet_bind; [apply quiet_lift|intros receiver]. apply quiet_lift.
Qed.

Lemma quiet_accepts {E} {AL : Allocator} (o : Owner Tracked E) rejection nonce deadline :
  keeper o -> quiet transcript_log (coordinator_accepts o rejection nonce deadline).
Proof.
  intros [[Hs Hr] Hc Hv _].
  assert (Hsend : forall frame, quiet transcript_log (send_frame o frame deadline)).
  { intros frame. apply quiet_bind; [apply quiet_lift|intros packet]. apply quiet_endpoint, Hs. }
  unfold coordinator_accepts. apply quiet_bind; [|intros [who|]; [apply quiet_ret|]].
  - apply quiet_bind; [apply quiet_endpoint, Hc|intros challenge]. destruct rejection as [reason|].
    + apply quiet_bind; [apply quiet_on_transcript|intros reject]. apply quiet_bind; [apply Hsend|intros _]. apply quiet_ret.
    + apply quiet_bind; [apply quiet_read_transcript|intros accept]. apply quiet_bind; [apply quiet_on_transcript|intros _].
      apply quiet_bind; [apply Hsend|intros _]. apply quiet_bind; [|intros rejected; apply quiet_ret].
      apply quiet_bind; [apply quiet_endpoint, Hr|intros packet]. apply quiet_bind; [apply quiet_lift|intros frame].
      destruct frame; [apply quiet_err|..]; (apply quiet_bind; [apply quiet_on_transcript|intros ?; apply quiet_ret]).
  - apply quiet_bind; [apply quiet_endpoint, Hv|intros _]. apply quiet_bind; [|intros parameters; apply quiet_ret].
    apply quiet_bind; [apply quiet_on_transcript|intros transcript]. apply quiet_get. intros state.
    apply quiet_bind; [apply quiet_lift|intros facts]. apply quiet_bind; [apply quiet_lift|intros evidence].
    destruct (negb _); [apply quiet_err|apply quiet_ret].
Qed.

(** A decision keeps the child with the session, or ends it and has its facts. *)
Definition decided (log : list Custody) (result : res CoordinatorFailure (NativeOutcome (Dispatcher Tracked)) * Tracked) : Prop :=
  match result with
  | (Ok (Outcome_Accepted dispatcher), s) => snd s = log /\ snd (d_transport dispatcher) = log
  | (Ok (Outcome_Rejected _ _ cleanup), s) => exists facts, snd s = log ++ [Ended facts] /\ cleanup = Some facts
  | (Err failure, s) => exists facts, snd s = log ++ [Ended facts] /\ csf_cleanup failure = Some facts /\ csf_poisoned failure = true
  | (Panic, s) => snd s = log
  end.

Lemma Dispatcher_new_transport (t : Tracked) parameters dispatcher : Dispatcher_new t parameters = Some dispatcher -> d_transport dispatcher = t.
Proof.
  unfold Dispatcher_new. repeat (case_match || case_decide); intros [=]; now subst.
Qed.

Lemma decide_custody {E} {AL : Allocator} (o : Owner Tracked E) rejection (self : Negotiating Tracked) :
  keeper o -> decided (snd (ng_native self)) (coordinator_decide o rejection self).
Proof.
  intros Ho. pose proof (quiet_accepts o rejection (ng_nonce self) (ng_deadline self) Ho (ng_native self, ng_transcript self)) as Hq.
  assert (Hfail : forall error (t : Tracked), snd t = snd (ng_native self) ->
    decided (snd (ng_native self)) (negotiation_failure o error (ng_deadline self) t)).
  { intros error t Ht. unfold negotiation_failure. destruct (kp_terminate _ Ho (ng_deadline self) t) as (facts & Hf & Hl).
    destruct (ow_terminate o (ng_deadline self) t) as [cleanup t']. cbn in *. subst. rewrite Ht in Hl. eauto. }
  unfold coordinator_decide. destruct (coordinator_accepts _ _ _ _ _) as [[[p|[role why]]|e|] [t tr]]; unfold transcript_log in Hq; cbn in Hq.
  - destruct (Dispatcher_new t p) as [d|] eqn:Ed; [|now apply Hfail]. cbn. now rewrite (Dispatcher_new_transport _ _ _ Ed).
  - destruct (kp_terminate _ Ho (ng_deadline self) t) as (facts & Hf & Hl).
    destruct (ow_terminate o (ng_deadline self) t) as [cleanup t']. cbn in *. subst. rewrite Hq in Hl. eauto.
  - now apply Hfail.
  - done.
Qed.

End Tracked.
Arguments Tracked : clear implicits.

(** *** Stages of a construction

    From one custody to the next, with failures that tell the truth. *)

(** What a failure must tell after what happened to the child. *)
Definition told (cleanup : option ChildCleanupFacts) (state : SessionTransactionState) (poisoned : bool) (log : list Custody) : Prop :=
  poisoned = negb (is_none cleanup) /\
  match log with
  | [] => cleanup = None /\ state = Tx_NotEstablished
  | [Refused facts refused] => cleanup = facts /\ state = transaction_state refused
  | [Obtained; Ended facts] => cleanup = Some facts /\ state <> Tx_NotEstablished
  | _ => False
  end.

Section Stages.
Context {T E : Type} (F : E -> list Custody -> Prop).

Definition stage {A} (before after : list Custody) (m : stm (Tracked T) E A) : Prop :=
  forall s : Tracked T, snd s = before ->
  match m s with
  | (Ok _, s') => snd s' = after
  | (Err e, s') => F e (snd s')
  | (Panic, s') => snd s' = [] \/ snd s' = [Obtained]
  end.

Lemma stage_then {A B} l1 l2 l3 (m : stm (Tracked T) E A) (k : A -> stm (Tracked T) E B) :
  stage l1 l2 m -> (forall a, stage l2 l3 (k a)) -> stage l1 l3 (sbind m k).
Proof.
  intros Hm Hk s Hs. specialize (Hm s Hs). unfold sbind. destruct (m s) as [[a|e|] s']; [now apply Hk|done..].
Qed.

Lemma stage_quiet {A} l (m : stm (Tracked T) E A) :
  (l = [] \/ l = [Obtained]) -> quiet snd m -> (forall s, match fst (m s) with Err e => F e l | _ => True end) -> stage l l m.
Proof.
  intros Hl Hm He s Hs. specialize (Hm s). specialize (He s). destruct (m s) as [[a|e|] s']; cbn in *; subst; [done| |now rewrite Hm].
  now rewrite Hm.
Qed.

Lemma stage_native {G A} (f : G -> E) (m : nio T G A) :
  (forall e, F (f e) []) -> stage [] [] (smap_err f (native (untracked m))).
Proof.
  intros Hf. apply stage_quiet; [now left|apply quiet_map_err, quiet_untracked|]. intros [t log].
  unfold smap_err, native, untracked. destruct (m t) as [[a|e] t']; cbn; auto.
Qed.
Lemma stage_lift {G A} (f : G -> E) (r : res G A) : (forall e, F (f e) []) -> stage [] [] (slift (map_err f r)).
Proof. intros Hf. apply stage_quiet; [now left|apply quiet_lift|]. intros s. cbn. destruct r; cbn; auto. Qed.
Lemma stage_expired {C : Clock T} deadline wrong expired invalid :
  F expired [] -> F invalid [] -> stage [] [] (expired_or (C := tracked_clock) deadline wrong expired invalid).
Proof.
  intros He Hi. apply stage_quiet; [now left|apply quiet_expired_or|]. intros [t log].
  unfold expired_or, is_expired, AbsoluteDeadline_remaining, sbind, sret, serr. cbn.
  destruct (instant_now t) as [n1 t1]. destruct (_ || _); [|done]. cbn. destruct (instant_now t1) as [n2 t2]. cbn. now destruct (Z.max 0 (deadline - n2) =? 0).
Qed.
Lemma stage_spawn {G} (f : G -> E) refusal (m : nio T G unit) :
  (forall e, F (f e) [refusal e]) -> stage [] [Obtained] (smap_err f (native (tracking (spawned refusal) m))).
Proof.
  intros Hf [t log] Hs. cbn in Hs. subst. unfold smap_err, native, tracking. destruct (m t) as [[[]|e] t']; cbn; auto.
Qed.

End Stages.

Definition failure_told (failure : CoordinatorFailure) : list Custody -> Prop :=
  told (csf_cleanup failure) (transaction_state (csf_state failure)) (csf_poisoned failure).

Section TrackedTargets.
Context {T : Type} {C : Clock T} {PR : Process (Tracked T)} {AL : Allocator} {SH : Sha256} {TP : Negotiation.Platform}
        {L : LinuxNative T} {MN : MacNative T} {WN : WindowsNative T}.
#[local] Existing Instances tracked_clock tracked_linux tracked_mac tracked_windows.

Lemma linux_keeper : keeper (linux_owner (T := Tracked T)).
Proof.
  assert (Hcred : forall deadline, quiet snd (receive_with_exact_child (T := Tracked T) deadline)).
  { intros deadline. apply quiet_get. intros s. apply quiet_bind; [apply quiet_lift|intros credentials]. apply quiet_untracked. }
  split; [split; [|exact Hcred]|..].
  - intros. apply quiet_untracked.
  - intros. apply quiet_bind; [apply quiet_untracked|intros ?]. apply quiet_lift.
  - intros. apply quiet_bind; [apply quiet_untracked|intros _]. apply quiet_get. intros s. destruct (negb _); [apply quiet_err|].
    apply quiet_bind; [apply quiet_untracked|intros _]. apply quiet_get. intros s'.
    apply quiet_bind; [apply quiet_lift|intros _]. apply quiet_ret.
  - intros deadline [t log]. cbn. destruct (linux_terminate_and_reap deadline t) as [c t']. cbn. eauto.
Qed.

Lemma quiet_transport {A} (m : io T A) : quiet (S := Tracked T) snd (transport (untracked m)).
Proof. apply quiet_map_err, quiet_untracked. Qed.

Lemma mac_keeper : keeper (mac_owner (T := Tracked T)).
Proof.
  split; [split|..].
  - intros. apply quiet_transport.
  - intros. apply quiet_transport.
  - intros. apply quiet_bind; [apply quiet_map_err, quiet_untracked|intros ?]. apply quiet_lift.
  - intros deadline [t log]. cbn. unfold mac_verify_image. cbn. destruct (mac_matches_running_image true t) as [[[]|e] t']; [done|..].
    + refine (quiet_bind snd _ _ (quiet_transport mac_try_poll) _ (t', log)). intros []; [apply quiet_err|apply quiet_ret].
    + destruct e; try exact (quiet_transport (mac_wait_and_reap_status deadline) (t', log));
        (refine (quiet_bind snd _ _ (quiet_transport mac_try_poll) _ (t', log)); intros []; [apply quiet_err|apply quiet_ret]).
  - intros deadline [t log]. cbn. destruct (mac_terminate_and_reap_facts deadline t) as [c t']. cbn. eauto.
Qed.

Lemma windows_keeper : keeper (windows_owner (T := Tracked T)).
Proof.
  split; [split|..].
  - intros. apply quiet_transport.
  - intros. apply quiet_transport.
  - intros. apply quiet_bind; [apply quiet_map_err, quiet_untracked|intros ?]. apply quiet_lift.
  - intros. apply quiet_ret.
  - intros deadline [t log]. cbn. destruct (windows_cleanup_after_failure t) as [c t']. cbn. eauto.
Qed.

Lemma linux_spawn_stage command options : stage failure_told [] [Obtained] (linux_spawn (T := Tracked T) command options).
Proof.
  set (linux_told f := told (option_map map_child_cleanup (lsf_cleanup f)) (transaction_state (lsf_state f)) (negb (is_none (lsf_cleanup f)))).
  assert (Hb : forall e, linux_told (before_child e) []) by done.
  assert (H : stage linux_told [] [Obtained] (spawn_negotiating (T := Tracked T) (sc_executable command) (sc_arguments command)
     (sc_environment command ++ [(PUBLIC_BOOTSTRAP_ENV, [x31])]) (offer_of options) (so_deadline options))).
  { apply stage_then with (l2 := []); [now apply stage_lift|intros offer]. apply stage_then with (l2 := []); [now apply stage_native|intros atomics].
    apply stage_then with (l2 := []); [now apply stage_native|intros nonce]. apply stage_then with (l2 := [Obtained]).
    - apply stage_then with (l2 := []); [now apply stage_expired|intros _]. apply stage_then with (l2 := []); [now apply stage_native|intros _].
      apply stage_then with (l2 := []); [now apply stage_native|intros _]. intros [t log] Hs. cbn in Hs. subst.
      unfold native. cbn. destruct (linux_spawn_held _ _ _ t) as [[[]|f] t']; [done|]. cbn. split; [|done]. now destruct (lsf_cleanup f).
    - intros _ s Hs. unfold exchange_coordinator_hello_diagnostic.
      assert (Hq : quiet (S := Tracked T) snd (let! coordinator := slift (make_hello linux_owner Coordinator nonce offer atomics) in
                              coordinator_hello (linux_owner (T := Tracked T)) coordinator atomics (so_deadline options))).
      { apply quiet_bind; [apply quiet_lift|intros c]. apply quiet_coordinator_hello, linux_keeper. }
      specialize (Hq s). match type of Hq with snd (snd ?m) = _ => destruct m as [[[tr payload]|error|] [t log]] end; cbn in Hq; rewrite Hs in Hq; subst; [done| |now right].
      cbn. destruct (linux_terminate_and_reap _ t) as [c t']. done. }
  intros s Hs. specialize (H s Hs). unfold linux_spawn, smap_err. match type of H with match ?m with _ => _ end => destruct m as [[ng|f|] s'] end; [done| |done].
  destruct H as [H1 H2]. split; [cbn; now destruct (lsf_cleanup f)|exact H2].
Qed.

(** The child ends with the failure. *)
Lemma stage_fail {A} (cleanup : T -> ChildCleanupFacts * T) (failure : ChildCleanupFacts -> CoordinatorFailure) after :
  (forall facts, failure_told (failure facts) [Obtained; Ended facts]) ->
  stage (A := A) failure_told [Obtained] after (fail_with (tracking (fun facts => [Ended facts]) cleanup) failure).
Proof. intros Hf [t log] Hs. cbn in Hs. subst. unfold fail_with. cbn. destruct (cleanup t) as [facts t']. apply Hf. Qed.

Lemma mac_image_stage authenticated cleanup :
  stage failure_told [Obtained] [Obtained] (mac_check_image authenticated (tracking (fun facts => [Ended facts]) cleanup)).
Proof.
  intros [t log] Hs. cbn in Hs. subst. unfold mac_check_image. cbn.
  destruct (mac_matches_running_image authenticated t) as [[[]|e] t']; [done|..];
    (refine (stage_fail (A := unit) cleanup _ [Obtained] _ (t', [Obtained]) eq_refl); done).
Qed.

Lemma mac_spawn_stage command options : stage failure_told [] [Obtained] (mac_spawn (T := Tracked T) command options).
Proof.
  assert (Hb : forall e, failure_told (mac_before_child e) []) by done.
  unfold mac_spawn. apply stage_then with (l2 := []); [now apply stage_expired|intros _].
  apply stage_then with (l2 := []); [now apply stage_lift|intros offer]. apply stage_then with (l2 := []); [now apply stage_native|intros atomics].
  apply stage_then with (l2 := []); [now apply stage_native|intros _].
  do 3 (apply stage_then with (l2 := []); [now apply stage_lift|intros ?]).
  apply stage_then with (l2 := [Obtained]).
  { intros [t log] Hs. cbn in Hs. subst. unfold mac_spawn_explicit_child. cbn.
    destruct (mac_spawn_explicit _ _ _ t) as [[[]|error] t']; [done|]. now destruct error. }
  intros _. apply stage_then with (l2 := [Obtained]); [apply mac_image_stage|intros _]. apply stage_then with (l2 := [Obtained]).
  { intros [t log] Hs. cbn in Hs. subst. unfold smap_err, native. cbn.
    destruct (mac_authenticate _ t) as [[[]|[error cleanup]] t']; done. }
  intros _. apply stage_then with (l2 := [Obtained]); [apply mac_image_stage|intros _].
  intros s Hs. unfold mac_exchange_hello.
  assert (Hq : quiet (S := Tracked T) snd (let! coordinator := slift (make_hello mac_owner Coordinator (channel_nonce s) offer atomics) in
                          coordinator_hello (mac_owner (T := Tracked T)) coordinator atomics (so_deadline options))).
  { apply quiet_bind; [apply quiet_lift|intros c]. apply quiet_coordinator_hello, mac_keeper. }
  specialize (Hq s). match type of Hq with snd (snd ?m) = _ => destruct m as [[[tr payload]|error|] s'] end; cbn in Hq; rewrite Hs in Hq; [done| |now right].
  now refine (stage_fail (A := Negotiating (Tracked T)) (mac_terminate_and_reap_facts (so_deadline options)) (mac_during_negotiation error) [Obtained] _ s' Hq).
Qed.

Lemma windows_abandon_stage {A} error state :
  state <> State_NotEstablished -> stage (A := A) failure_told [Obtained] [Obtained] (windows_after_child (T := Tracked T) error state).
Proof. intros Hs. apply stage_fail. intros facts. split; [done|]. split; [done|]. now destruct state. Qed.

Lemma windows_spawn_stage command options : stage failure_told [] [Obtained] (windows_spawn (T := Tracked T) command options).
Proof.
  assert (Hb : forall e, failure_told (windows_before_child e) []) by done.
  unfold windows_spawn. apply stage_then with (l2 := []).
  { apply stage_quiet; [now left|apply quiet_expired|]. intros [t log].
    unfold is_expired, AbsoluteDeadline_remaining, sbind, sret. cbn. now destruct (instant_now t). }
  intros expired. destruct (_ || _); [intros s Hs; cbn; now rewrite Hs|].
  apply stage_then with (l2 := []); [now apply stage_lift|intros offer]. apply stage_then with (l2 := []); [now apply stage_native|intros atomics].
  apply stage_then with (l2 := [Obtained]).
  { apply stage_spawn. intros f. unfold windows_refusal. destruct (cf_cleanup f); done. }
  intros _ s Hs. unfold windows_exchange_hello. destruct (make_hello _ _ _ _ _) as [coordinator|e|]; [| |now right].
  - pose proof (quiet_coordinator_hello (windows_owner (T := Tracked T)) coordinator atomics (so_deadline options) (kp_handshake _ windows_keeper) s) as Hq.
    destruct (coordinator_hello _ _ _ _ s) as [[[tr payload]|error|] s']; cbn in Hq; rewrite Hs in Hq; [done| |now right].
    now refine (windows_abandon_stage (A := Negotiating (Tracked T)) error State_Negotiating _ s' Hq).
  - now refine (windows_abandon_stage (A := Negotiating (Tracked T)) e State_Spawned _ s Hs).
Qed.

(** *** Through the session API *)

Lemma quiet_validate target options : quiet (S := Tracked T) snd (validate_public_options target options).
Proof.
  unfold validate_public_options. apply quiet_bind; [apply quiet_expired_or|intros _].
  destruct (ChildProcessLimits_has_zero _); [apply quiet_err|].
  apply quiet_bind; [destruct target; repeat destruct (negb _); first [apply quiet_err|apply quiet_ret]|intros _].
  apply quiet_bind; [apply quiet_lift|intros _]. apply quiet_ret.
Qed.

Lemma spawn_failure_told target facts failure log :
  failure_told failure log ->
  let mapped := spawn_failure target facts failure in
  told (fl_cleanup mapped) (fl_transaction_state mapped) (fl_poisoned mapped) log.
Proof.
  cbn zeta. set (x := spawn_failure target facts failure).
  assert (fl_cleanup x = csf_cleanup failure /\ fl_poisoned x = csf_poisoned failure /\
          fl_transaction_state x = transaction_state (csf_state failure)) as (-> & -> & ->); [|done].
  unfold x, spawn_failure; destruct target; [| |destruct (negb (ChildProcessLimits_is_empty _))]; split_and!; reflexivity.
Qed.

Definition session_told (failure : SessionFailure) : list Custody -> Prop :=
  told (fl_cleanup failure) (fl_transaction_state failure) (fl_poisoned failure).

Lemma spawn_stage (b : CoordinatorBackend (Tracked T)) command options :
  (forall command options, stage failure_told [] [Obtained] (cb_spawn b command options)) ->
  stage session_told [] [Obtained] (spawn b command options).
Proof.
  intros Hb. unfold spawn. apply stage_then with (l2 := []).
  { apply stage_quiet; [now left|apply quiet_map_err, quiet_validate|]. intros s. unfold smap_err.
    now destruct (validate_public_options _ _ s) as [[[]|e|] s']. }
  intros _. destruct (negb _); [intros s Hs; cbn; now rewrite Hs|]. destruct (has_reserved_environment command); [intros s Hs; cbn; now rewrite Hs|].
  apply stage_then with (l2 := [Obtained]); [|now intros inner s].
  intros s Hs. specialize (Hb command options s Hs). unfold smap_err. destruct (cb_spawn b command options s) as [[ng|f|] s']; [done| |done].
  now apply spawn_failure_told.
Qed.

Definition session_decided (log : list Custody) (result : res SessionFailure (NegotiationOutcome (Session (Dispatcher (Tracked T)))) * Tracked T) : Prop :=
  match result with
  | (Ok (Negotiated_Accepted session), s) => snd s = log /\ snd (d_transport (ss_inner session)) = log
  | (Ok (Negotiated_Rejected _ _ cleanup), s) => exists facts, snd s = log ++ [Ended facts] /\ cleanup = Some facts
  | (Err failure, s) => exists facts, snd s = log ++ [Ended facts] /\ fl_cleanup failure = Some facts /\ fl_poisoned failure = true
  | (Panic, s) => snd s = log
  end.

Lemma decide_told (b : CoordinatorBackend (Tracked T)) decision (self : Session (Negotiating (Tracked T))) :
  decided (snd (ng_native (ss_inner self))) (cb_decide b (decision_rejection decision) (ss_inner self)) ->
  session_decided (snd (ng_native (ss_inner self))) (decide b decision self).
Proof.
  intros H. unfold decide. destruct (cb_decide b _ _) as [[[d|role why cleanup]|f|] s]; cbn in *; [done| | |done].
  - destruct H as (facts & Hl & ->). destruct (from_wire why); cbn; eauto.
  - destruct H as (facts & Hl & -> & ->). cbn. eauto.
Qed.

Context {R : AuthenticatedZeroRightsTransport (Tracked T)} {RC : ReapedChild (Tracked T)} {XC : ExitCodeChild (Tracked T)}
        (transfer : TransferBatch -> Z -> stm (Dispatcher (Tracked T)) ReadyFailure ActiveRegionSet).

(** C11: The child of a coordinator is never dropped and its end is always
    reported. On each of the three targets, with any behaviour of the natives:
    a construction that succeeds holds the owner of the one child it obtained.
    One that fails either never called the native spawn, and tells of no child;
    or the native spawn was refused, and it passes on the facts and the state of
    the refusal, nothing else having happened; or it obtained a child, ended it
    as its last act and carries exactly the facts of that end. It is reported
    poisoned exactly when it carries facts. A decision keeps the child with the
    accepted session, and in every other case ends it and carries the facts: for
    either side's rejection, for an error, and for a reason outside the namespace
    of the API. *)
Theorem child_owner_accounted b :
  b ∈ coordinator_targets transfer ->
  (forall command options t,
     match spawn (T := Tracked T) b command options (t, []) with
     | (Ok session, (_, log)) => log = [Obtained]
     | (Err failure, (_, log)) =>
         fl_poisoned failure = negb (is_none (fl_cleanup failure)) /\
         match log with
         | [] => fl_cleanup failure = None /\ fl_transaction_state failure = Tx_NotEstablished
         | [Refused cleanup state] => fl_cleanup failure = cleanup /\ fl_transaction_state failure = transaction_state state
         | [Obtained; Ended facts] => fl_cleanup failure = Some facts /\ fl_transaction_state failure <> Tx_NotEstablished
         | _ => False
         end
     | (Panic, (_, log)) => log = [] \/ log = [Obtained]
     end) /\
  (forall decision (self : Session (Negotiating (Tracked T))), session_decided (snd (ng_native (ss_inner self))) (decide b decision self)).
Proof.
  unfold coordinator_targets. intros Hin. rewrite !elem_of_cons in Hin.
  assert (Hspawn : forall b command options t,
    (forall command options, stage failure_told [] [Obtained] (cb_spawn b command options)) ->
    match spawn (T := Tracked T) b command options (t, []) with
    | (Ok session, (_, log)) => log = [Obtained]
    | (Err failure, (_, log)) => session_told failure log
    | (Panic, (_, log)) => log = [] \/ log = [Obtained]
    end).
  { intros b' command options t Hb. pose proof (spawn_stage b' command options Hb (t, []) eq_refl) as H.
    now destruct (spawn b' command options (t, [])) as [[session|f|] [t' log]]. }
  destruct Hin as [->|[->|[->|[]%elem_of_nil]]]; (split; [intros command options t; apply Hspawn|intros; apply decide_told]).
  - exact linux_spawn_stage.
  - apply decide_custody, linux_keeper.
  - exact mac_spawn_stage.
  - apply decide_custody, mac_keeper.
  - exact windows_spawn_stage.
  - apply decide_custody, windows_keeper.
Qed.

End TrackedTargets.

(** ** Limits of the child process *)

Definition covers (limits : ChildProcessLimits) (m : ChildProcessLimits) : Prop :=
  (cpl_commit_memory_bytes m = None \/ cpl_commit_memory_bytes m = cpl_commit_memory_bytes limits) /\
  (cpl_user_cpu_time m = None \/ cpl_user_cpu_time m = cpl_user_cpu_time limits) /\
  (cpl_active_processes m = None \/ cpl_active_processes m = cpl_active_processes limits) /\
  (cpl_open_descriptors m = None \/ cpl_open_descriptors m = cpl_open_descriptors limits).

(** The three masks and the one copy of the values lose nothing. *)
Lemma facts_roundtrip r a u :
  covers r a -> covers r u ->
  requested (ChildProcessLimitFacts_new r a u) = r /\ applied (ChildProcessLimitFacts_new r a u) = a /\
  unsupported (ChildProcessLimitFacts_new r a u) = u.
Proof.
  assert (H : forall m, covers r m -> limits_for_mask (ChildProcessLimitFacts_new r a u) (mask m) = m).
  { intros [mm mc mp md] (H1 & H2 & H3 & H4). destruct r as [rm rc rp rd]. unfold ChildProcessLimitFacts_new. cbn in *.
    unfold limits_for_mask, mask. cbn.
    destruct H1 as [->|<-], H2 as [->|<-], H3 as [->|<-], H4 as [->|<-];
      repeat match goal with |- context [is_none ?x] => is_var x; destruct x end; reflexivity. }
  intros Ha Hu. split_and!; apply H; try done. repeat split; by right.
Qed.

Lemma limits_empty_iff l : ChildProcessLimits_is_empty l = true <-> l = ChildProcessLimits_default.
Proof. destruct l as [[] [] [] []]; cbn; split; try done; intros H; discriminate. Qed.

Lemma unsupported_covered target limits : covers limits (child_process_limit_unsupported target limits).
Proof. destruct target; cbn; repeat split; cbn; auto. Qed.

Lemma default_covered limits : covers limits ChildProcessLimits_default.
Proof. repeat split; cbn; auto. Qed.

Lemma preflight_facts target limits :
  let facts := child_process_limit_preflight target limits in
  requested facts = limits /\ unsupported facts = child_process_limit_unsupported target limits /\
  applied facts = if ChildProcessLimits_is_empty (child_process_limit_unsupported target limits)
                  then limits else ChildProcessLimits_default.
Proof.
  unfold child_process_limit_preflight. cbv zeta.
  set (a := match target with OnWindows => _ | _ => _ end).
  assert (Ha : a = if ChildProcessLimits_is_empty (child_process_limit_unsupported target limits)
                   then limits else ChildProcessLimits_default).
  { unfold a. destruct target, limits as [[] [] [] []]; reflexivity. }
  destruct (facts_roundtrip limits a (child_process_limit_unsupported target limits)) as (H1 & H2 & H3).
  - rewrite Ha. destruct (ChildProcessLimits_is_empty _); [repeat split; by right|apply default_covered].
  - apply unsupported_covered.
  - now rewrite H1, H2, H3, Ha.
Qed.

Lemma invalid_facts target limits :
  requested (child_process_limit_invalid_facts target limits) = limits /\
  applied (child_process_limit_invalid_facts target limits) = ChildProcessLimits_default.
Proof.
  destruct (facts_roundtrip limits ChildProcessLimits_default (child_process_limit_unsupported target limits))
    as (H1 & H2 & _); [apply default_covered|apply unsupported_covered|done].
Qed.

Section Limits.
Context {T : Type} {C : Clock T}.

(** A request this target cannot honour, or a command it must not run. *)
Definition refused (target : Target) (command : SessionCommand) (options : SessionOptions) : Prop :=
  child_process_limit_unsupported target (so_child_process_limits options) <> ChildProcessLimits_default \/
  ChildProcessLimits_has_zero (so_child_process_limits options) = true \/
  has_reserved_environment command = true.

(** What the facts of a construction say of the limits it was asked for. *)
Definition honest_facts (limits : ChildProcessLimits) (facts : ChildProcessLimitFacts) : Prop :=
  requested facts = limits /\ (applied facts = limits \/ applied facts = ChildProcessLimits_default).

Lemma preflight_honest target limits : honest_facts limits (child_process_limit_preflight target limits).
Proof.
  destruct (preflight_facts target limits) as (H1 & _ & H3). split; [done|]. rewrite H3.
  destruct (ChildProcessLimits_is_empty _); auto.
Qed.
Lemma invalid_honest target limits : honest_facts limits (child_process_limit_invalid_facts target limits).
Proof. destruct (invalid_facts target limits) as [H1 H2]. split; [done|by right]. Qed.

Lemma spawn_failure_honest target limits failure facts :
  fl_child_process_limit_facts (spawn_failure target (child_process_limit_preflight target limits) failure) = Some facts ->
  honest_facts limits facts.
Proof.
  destruct (preflight_facts target limits) as (H1 & _). unfold spawn_failure. rewrite H1.
  destruct target; try discriminate. destruct (negb _); [|discriminate]. cbn. intros [= <-].
  destruct (csf_limits_applied failure); [apply preflight_honest|apply invalid_honest].
Qed.

Lemma validate_rejects_zero target options t t' u :
  validate_public_options target options t = (Ok u, t') ->
  ChildProcessLimits_has_zero (so_child_process_limits options) = false.
Proof.
  unfold validate_public_options. intros H. sinv H as x Hx. destruct (ChildProcessLimits_has_zero _); [discriminate|done].
Qed.

(** Past the checks the request is one the target honours. *)
Lemma admitted_not_refused target command options t t' u :
  validate_public_options target options t = (Ok u, t') ->
  ChildProcessLimits_is_empty (child_process_limit_unsupported target (so_child_process_limits options)) = true ->
  has_reserved_environment command = false -> ~ refused target command options.
Proof.
  intros Hv He Hr [H|[H|H]]; [now apply limits_empty_iff in He| |congruence].
  apply validate_rejects_zero in Hv. congruence.
Qed.

(** C13: The limits of a child process are never weakened. A session is
    constructed only if every limit that was asked for can be applied on this
    target, and then its facts say that exactly those limits were requested and
    applied and none was unsupported; the facts of a failure repeat the request
    and report either all of it applied or nothing. A request the target cannot
    honour, a limit of zero or a reserved environment variable is refused before
    the target's spawn is called: the result does not depend on what that spawn
    would do. *)
Theorem limits_never_weakened (b : CoordinatorBackend T) command options t :
  let limits := so_child_process_limits options in
  match fst (spawn b command options t) with
  | Ok session =>
      let facts := ss_child_process_limit_facts session in
      requested facts = limits /\ applied facts = limits /\ unsupported facts = ChildProcessLimits_default /\
      ~ refused (cb_target b) command options
  | Err failure =>
      forall facts, fl_child_process_limit_facts failure = Some facts -> honest_facts limits facts
  | Panic => True
  end /\
  (refused (cb_target b) command options -> forall b' : CoordinatorBackend T, cb_target b' = cb_target b ->
     spawn b' command options t = spawn b command options t).
Proof.
  intros limits. destruct (preflight_facts (cb_target b) limits) as (Hq & Hu & Ha). split.
  - unfold spawn, sbind, smap_err. fold limits. rewrite Hu.
    destruct (validate_public_options _ options t) as [[u|e|] t1] eqn:Hv; cbn; [|intros facts [= <-]; apply invalid_honest|done].
    destruct (ChildProcessLimits_is_empty _) eqn:He; cbn; [|intros facts [= <-]; apply preflight_honest].
    destruct (has_reserved_environment command) eqn:Hr; cbn; [discriminate|].
    destruct (cb_spawn b command options t1) as [[ng|f|] t2]; cbn; [|apply spawn_failure_honest|done].
    split_and!; [done|done|rewrite Hu; now apply limits_empty_iff|]. now apply (admitted_not_refused _ _ _ t t1 u).
  - intros Href b' Hb. unfold spawn, sbind, smap_err. rewrite Hb. fold limits. rewrite Hu.
    destruct (validate_public_options _ options t) as [[u|e|] t1] eqn:Hv; cbn; [|done|done].
    destruct (ChildProcessLimits_is_empty _) eqn:He; cbn; [|done].
    destruct (has_reserved_environment command) eqn:Hr; cbn; [done|].
    now apply (admitted_not_refused _ _ _ t t1 u) in Href.
Qed.

End Limits.

(** ** A receiver's wait *)

(** A clock that does not run backwards, which polling does not turn back and a
    sleep advances by what it was asked for. *)
Class SteadyClock (T : Type) {R : AuthenticatedZeroRightsTransport T} {C : Clock T} (sleep : Z -> T -> T) := {
  now : T -> Z;
  now_read t n t' : instant_now t = (n, t') -> now t <= n <= now t';
  now_poll t r t' : transport_try_poll_peer t = (r, t') -> now t <= now t';
  now_sleep d t : 0 <= d -> now t + d <= now (sleep d t)
}.

Section Wait.
Context {T : Type} {R : AuthenticatedZeroRightsTransport T} {C : Clock T} (sleep : Z -> T -> T)
        {S : SteadyClock T sleep} (map_control : AcceptedControlError -> PublicSessionError).

Lemma poll_cases (self : Dispatcher T) :
  exists r self', poll_peer_with map_control self = (r, self') /\
  match r with
  | Ok Connected => now (d_transport self) <= now (d_transport self')
  | Ok Disconnected => session_state self' = Ok SessionPoisoned
  | Err error => (exists e, error = map_control e) /\ session_state self' = Ok SessionPoisoned
  | Panic => False
  end.
Proof.
  unfold poll_peer_with, try_poll_peer, smap_err. unfold sbind at 1 2, sget.
  destruct (cs_poisoned (d_state self)) eqn:Hc.
  - eexists _, _. split; [reflexivity|]. split; [eauto|]. unfold session_state. now rewrite Hc.
  - unfold or_poison_both, smap_err, on_io, sbind, serr, sret, smodify.
    destruct (transport_try_poll_peer (d_transport self)) as [[[]|e] t'] eqn:Ht; eexists _, _; (split; [reflexivity|]); cbn.
    + exact (now_poll _ _ _ Ht).
    + reflexivity.
    + split; [eauto|reflexivity].
Qed.

(** C15: A receiver's wait for its peer's exit returns. Polling every
    millisecond at most, over a clock that does not run backwards, it returns
    within one poll more than the milliseconds left until the deadline (rounded
    up): with the peer's exit, after which the session is poisoned, with the
    deadline, and then the deadline has passed, or with the failure of a poll,
    after which the session is poisoned too. It never reports a connected peer
    and never ends abnormally. *)
Theorem receiver_wait_returns fuel deadline self :
  Z.max 0 (deadline - now (d_transport self)) <= 1000000 * (Z.of_nat fuel - 1) ->
  exists r self', polling_wait map_control sleep fuel deadline self = Some (r, self') /\
  match r with
  | Ok Disconnected => session_state self' = Ok SessionPoisoned
  | Ok Connected => False
  | Err error => (error = Public_DeadlineExpired /\ deadline <= now (d_transport self')) \/
                 ((exists e, error = map_control e) /\ session_state self' = Ok SessionPoisoned)
  | Panic => False
  end.
Proof.
  revert self. induction fuel as [|fuel IH]; intros self Hf; [lia|]. cbn [polling_wait].
  destruct (poll_cases self) as (r & self1 & Hp & Hr). rewrite Hp.
  destruct r as [[|]|error|]; [|now eexists _, _|eexists _, _; split; [reflexivity|by right]|done].
  unfold on_native, is_expired, AbsoluteDeadline_remaining, sbind, sret.
  destruct (instant_now (d_transport self1)) as [n1 t1] eqn:H1. apply now_read in H1.
  destruct (_ =? 0) eqn:Hx; bsplit.
  - eexists _, _. split; [reflexivity|]. left. split; [done|]. cbn. lia.
  - cbn. destruct (instant_now t1) as [n2 t2] eqn:H2. apply now_read in H2. apply IH. cbn.
    pose proof (now_sleep (Z.min 1000000 (Z.max 0 (deadline - n2))) t2 ltac:(lia)). lia.
Qed.

End Wait.

(** ** An oversized payload at the receiver *)

Section Oversized.
Context {T : Type} {R : AuthenticatedZeroRightsTransport T} {C : Clock T} {PR : Process T} {AL : Allocator}
        {SH : Sha256} {TP : Negotiation.Platform} {L : LinuxNative T} {MN : MacNative T}
        (import : ExpectedBatch -> Z -> stm (Dispatcher T) ReadyFailure ActiveRegionSet).

Lemma control_cap_valid l :
  limits_valid l -> limits_valid (set_max_control_payload (Z.min (sl_max_control_payload_bytes l) MAX_LINUX_CONTROL_PAYLOAD) l).
Proof.
  intros H. unfold set_max_control_payload, MAX_LINUX_CONTROL_PAYLOAD, MAX_ZERO_RIGHTS_PACKET_BYTES, CONTROL_HEADER_LEN.
  limits_split. cbn. repeat (constructor; [lia|]). constructor.
Qed.

Lemma public_features a b :
  is_subset_of (Z.lor (Z.b2z a) (Z.shiftl (Z.b2z b) 1), 0) (3, 0) = true.
Proof. now destruct a, b. Qed.

Lemma oversized_linux options :
  limits_valid (so_limits options) -> MAX_LINUX_HELLO_PAYLOAD < len (so_application_payload options) ->
  validate_linux_offer (offer_of options) = Err Spawn_InvalidInput.
Proof.
  intros Hl Hp. unfold validate_linux_offer, offer_of, public_offer. cbn [ho_required_features ho_supported_features ho_limits ho_application_payload].
  rewrite public_features. cbn [negb].
  rewrite (proj2 (validate_iff _ _ (valid_nonneg _ (control_cap_valid _ Hl)))) by (split; [now apply control_cap_valid|reflexivity]).
  cbn [map_err rbind]. now replace (_ <? _) with true by lia.
Qed.

Lemma oversized_mac options :
  MAX_HELLO_PAYLOAD < len (so_application_payload options) -> validate_offer (offer_of options) = Err Public_InvalidInput.
Proof. intros Hp. unfold validate_offer, offer_of, public_offer. cbn. now replace (_ <? _) with true by lia. Qed.

(** C40: A payload the options allow and no HELLO can carry. A receiver whose
    application payload is within its session limits but longer than a HELLO has
    room for is refused on Linux and on macOS before anything is sent or
    received, as invalid input. Linux reports a poisoned session in negotiation,
    macOS a session that was never established and is not poisoned. *)
Theorem oversized_bootstrap_diverges options t u t1 :
  limits_wf (so_limits options) -> so_child_process_limits options = ChildProcessLimits_default ->
  validate_public_options OnLinux options t = (Ok u, t1) ->
  MAX_LINUX_HELLO_PAYLOAD < len (so_application_payload options) ->
  exists on_linux on_macos,
    from_bootstrap OnLinux (linux_receiver_backend import) options t = (Err on_linux, t1) /\
    from_bootstrap OnMacos (mac_receiver_backend import) options t = (Err on_macos, t1) /\
    fl_reason on_linux = Session_InvalidInput /\ fl_reason on_macos = Session_InvalidInput /\
    fl_transaction_state on_linux = Tx_Negotiating /\ fl_poisoned on_linux = true /\
    fl_transaction_state on_macos = Tx_NotEstablished /\ fl_poisoned on_macos = false.
Proof.
  intros Hw Hc Hv Hp. assert (Hl : limits_valid (so_limits options)).
  { unfold validate_public_options in Hv. sinv Hv as x Hx. destruct (ChildProcessLimits_has_zero _); [discriminate|].
    sinv Hv as y Hy. sinv Hv as l Hl. apply slift_inv in Hl as [Hl _]. apply map_err_inv in Hl.
    now apply validate_iff in Hl as [Hl _]; [|apply limits_wf_nonneg]. }
  assert (Hv2 : validate_public_options OnMacos options t = (Ok u, t1)) by exact Hv.
  unfold from_bootstrap, sbind, smap_err. rewrite Hv, Hv2, Hc. cbn.
  unfold linux_from_inherited_bootstrap, mac_from_environment, smap_err, sbind, slift.
  rewrite oversized_linux, oversized_mac by done. cbn. eexists _, _. split_and!; reflexivity.
Qed.

End Oversized.

(** ** The receiver's bootstrap *)

(** The value of decimal digits, and the numerals the hook accepts: no sign, no
    leading zero, nine digits at most. *)
Definition decimal (value : bytes) (raw : Z) : Z := foldl (fun raw byte => raw * 10 + (Z_of_byte byte - 48)) raw value.
Definition digit (byte : byte) : Prop := 48 <= Z_of_byte byte <= 57.
Definition numeral (value : bytes) (d : Z) : Prop :=
  Forall digit value /\ head value <> Some x30 /\ len value <= 9 /\ d = decimal value 0.

Lemma decimal_bound value raw length :
  Forall digit value -> 0 <= length -> 0 <= raw < 10 ^ length ->
  0 <= decimal value raw < 10 ^ (length + len value).
Proof.
  revert raw length. induction value as [|b value IH]; intros raw length Hd Hl Hr; [unfold decimal, len; cbn; now rewrite Z.add_0_r|].
  inversion_clear Hd. unfold digit in *. rewrite len_cons. change (decimal (b :: value) raw) with (decimal value (raw * 10 + (Z_of_byte b - 48))).
  replace (length + (1 + len value)) with ((length + 1) + len value) by lia. apply IH; [done|lia|].
  rewrite Z.pow_add_r by lia. lia.
Qed.

Lemma zero_digit b : Z_of_byte b = 48 <-> b = x30.
Proof. split; [|now intros ->]. intros H. now rewrite <- (byte_of_Z_of_byte b), H. Qed.

Lemma parse_descriptor_spec value raw length d n :
  0 <= length <= 10 -> 0 <= raw < 10 ^ length ->
  parse_descriptor value raw length = Some (d, n) <->
  Forall digit value /\ (length = 0 -> head value <> Some x30) /\ length + len value <= 9 /\
  d = decimal value raw /\ n = length + len value.
Proof.
  revert raw length. induction value as [|b value IH]; intros raw length Hl Hr; cbn [parse_descriptor].
  - unfold len. cbn. destruct (length =? 10) eqn:E; bsplit; [split; [done|lia]|].
    split; [intros [= <- <-]; split_and!; try done; lia|]. intros (_ & _ & _ & -> & ->). f_equal. f_equal. lia.
  - rewrite len_cons. pose proof (len_nonneg value). destruct (length =? 10) eqn:E; bsplit; [split; [done|lia]|].
    rewrite Forall_cons. destruct (negb _ || _) eqn:Hb.
    + split; [done|]. intros ([Hd _] & Hh & _). unfold digit in Hd. apply orb_true_iff in Hb as [Hb|Hb]; [lia|].
      apply andb_true_iff in Hb as [Hb0 Hb]. bsplit. apply zero_digit in Hb as ->. now destruct Hh.
    + apply orb_false_iff in Hb as [Hb0 Hb]. assert (Hd : digit b) by (unfold digit; bsplit; lia).
      assert (Hh : length = 0 -> head (b :: value) <> Some x30).
      { intros -> [= ->]. done. }
      assert (Hstep : forall next, next = raw * 10 + (Z_of_byte b - 48) -> parse_descriptor value next (length + 1) = Some (d, n) <->
        (digit b /\ Forall digit value) /\ (length = 0 -> head (b :: value) <> Some x30) /\
        length + (1 + len value) <= 9 /\ d = decimal (b :: value) raw /\ n = length + (1 + len value)).
      { intros next ->. rewrite IH by (unfold digit in Hd; rewrite ?Z.pow_add_r; lia).
        replace (length + 1 + len value) with (length + (1 + len value)) by lia.
        change (decimal (b :: value) raw) with (decimal value (raw * 10 + (Z_of_byte b - 48))).
        split; intros; destruct_and!; split_and!; try done; lia. }
      unfold checked_mul, checked_add, I32_MAX. unfold digit in Hd.
      destruct (Z.eq_dec length 9) as [->|H9].
      * split; [|intros; lia]. destruct (raw * 10 <=? _); cbn; [|done]. destruct (raw * 10 + (Z_of_byte b - 48) <=? _); cbn; [|done]. intros H1%Hstep; [lia|done].
      * assert (10 ^ length <= 10 ^ 8) by (apply Z.pow_le_mono_r; lia). change (10 ^ 8) with 100000000 in *.
        replace (raw * 10 <=? _) with true by lia. cbn. replace (raw * 10 + (Z_of_byte b - 48) <=? _) with true by lia. now apply Hstep.
Qed.

Lemma matched_spec expected candidate rest :
  x00 ∉ expected -> matched expected candidate = Some rest <-> candidate = expected ++ rest.
Proof.
  revert candidate. induction expected as [|e expected IH]; intros candidate Hz; cbn; [naive_solver|].
  rewrite not_elem_of_cons in Hz. destruct Hz as [Hz1 Hz2]. destruct candidate as [|b candidate]; [naive_solver|].
  destruct (_ || _) eqn:E.
  - split; [done|]. intros [= -> ->]. rewrite orb_true_iff, bool_decide_eq_true, negb_true_iff, bool_decide_eq_false in E. naive_solver.
  - bsplit. subst b. rewrite IH by done. naive_solver.
Qed.

(** The first entry a test selects, and the vector with it emptied. *)
Definition scrubbed {A} (test : bytes -> option A) (environment : list bytes) (found : A) (after : list bytes) : Prop :=
  exists before entry rest, environment = before ++ entry :: rest /\ test entry = Some found /\
    Forall (fun e => test e = None) before /\ after = before ++ [] :: rest.

Lemma scrub_first_spec {A} (test : bytes -> option A) environment found after :
  scrub_first test environment = Some (found, after) <-> scrubbed test environment found after.
Proof.
  split.
  - revert after. induction environment as [|c rest IH]; intros after H; cbn in H; [discriminate|].
    destruct (test c) as [a|] eqn:Hc.
    + injection H as <- <-. exists [], c, rest. done.
    + destruct (scrub_first test rest) as [[a after']|]; [|discriminate]. injection H as <- <-.
      destruct (IH _ eq_refl) as (before & entry & rest' & -> & Ht & Hf & ->).
      exists (c :: before), entry, rest'. split_and!; try done. now constructor.
  - intros (before & entry & rest & -> & Ht & Hf & ->). induction Hf as [|c before Hc Hf IH]; cbn; [now rewrite Ht|].
    now rewrite Hc, IH.
Qed.

(** The first entry of a kind, erased. *)
Definition erases (kind : bytes -> Prop) (environment : list bytes) (entry : bytes) (after : list bytes) : Prop :=
  exists before rest, environment = before ++ entry :: rest /\ kind entry /\ Forall (fun e => ~ kind e) before /\
    after = before ++ [] :: rest.

Lemma scrubbed_erases {A} (test : bytes -> option A) (kind : bytes -> Prop) (entry_of : A -> bytes) environment found after :
  (forall e a, test e = Some a <-> kind e /\ e = entry_of a) -> (forall e, kind e -> is_Some (test e)) ->
  scrubbed test environment found after <-> erases kind environment (entry_of found) after.
Proof.
  intros Ht Hk. assert (Hn : forall e, test e = None <-> ~ kind e).
  { intros e. rewrite eq_None_not_Some. split; intros H HH; apply H; [now apply Hk|]. destruct HH as [a Ha]. now apply Ht in Ha. }
  split.
  - intros (before & entry & rest & -> & He & Hf & ->). apply Ht in He as [He ->]. exists before, rest. split_and!; try done.
    eapply Forall_impl; [exact Hf|]. intros e. apply Hn.
  - intros (before & rest & -> & He & Hf & ->). exists before, (entry_of found), rest. split_and!; try done; [now apply Ht|].
    eapply Forall_impl; [exact Hf|]. intros e. apply Hn.
Qed.

Lemma marker_erased environment after :
  scrubbed is_public_entry environment tt after <->
  erases (eq RECEIVER_PUBLIC_BOOTSTRAP_ENV_ENTRY) environment RECEIVER_PUBLIC_BOOTSTRAP_ENV_ENTRY after.
Proof.
  assert (Hz : x00 ∉ RECEIVER_PUBLIC_BOOTSTRAP_ENV_ENTRY) by (refine (bool_decide_unpack _ _); vm_compute; exact I).
  assert (Ht : forall e, is_public_entry e = Some tt <-> e = RECEIVER_PUBLIC_BOOTSTRAP_ENV_ENTRY).
  { intros e. unfold is_public_entry. rewrite <- (app_nil_r RECEIVER_PUBLIC_BOOTSTRAP_ENV_ENTRY) at 2. rewrite <- (matched_spec _ _ [] Hz).
    destruct (matched _ e) as [[|]|]; split; congruence. }
  apply (scrubbed_erases _ _ (fun _ => RECEIVER_PUBLIC_BOOTSTRAP_ENV_ENTRY)).
  - intros e []. rewrite Ht. naive_solver.
  - intros e <-. exists tt. now apply Ht.
Qed.

Lemma value_erased environment value after :
  scrubbed (matched RECEIVER_BOOTSTRAP_ENV_PREFIX) environment value after <->
  erases (prefix RECEIVER_BOOTSTRAP_ENV_PREFIX) environment (RECEIVER_BOOTSTRAP_ENV_PREFIX ++ value) after.
Proof.
  assert (Hz : x00 ∉ RECEIVER_BOOTSTRAP_ENV_PREFIX) by (refine (bool_decide_unpack _ _); vm_compute; exact I).
  apply (scrubbed_erases _ _ (app RECEIVER_BOOTSTRAP_ENV_PREFIX)).
  - intros e a. rewrite matched_spec by done. split; [intros ->; split; [now eexists|done]|tauto].
  - intros e [k ->]. exists k. now apply matched_spec.
Qed.

Section Preinit.
Context {T : Type} {P : PreinitNative T}.

(** A descriptor that may be reserved: the numeral designates it, it and the
    process are what a spawned receiver has, and it is now closed on exec. *)
Definition reservable (value : bytes) (t : T) (fd : Z) (t' : T) : Prop :=
  numeral value fd /\ 3 <= fd /\ wrong_descriptor (fst (descriptor_facts fd t)) = false /\
  set_cloexec fd (snd (descriptor_facts fd t)) = (0, t').

Lemma numeral_bound value fd : numeral value fd -> 0 <= fd < 10 ^ 9.
Proof.
  intros (Hd & _ & Hl & ->). pose proof (decimal_bound value 0 0 Hd ltac:(lia) ltac:(lia)) as H. rewrite Z.add_0_l in H.
  assert (10 ^ len value <= 10 ^ 9) by (apply Z.pow_le_mono_r; lia). lia.
Qed.

Lemma parse_numeral value d n : parse_descriptor value 0 0 = Some (d, n) <-> numeral value d /\ n = len value.
Proof.
  rewrite parse_descriptor_spec by (done || lia). unfold numeral. rewrite Z.add_0_l. tauto.
Qed.

Lemma reserve_descriptor_iff value (t : T) fd t' :
  fd <> BOOTSTRAP_INVALID -> reserve_descriptor value t = (fd, t') <-> reservable value t fd t'.
Proof.
  intros Hi. unfold reserve_descriptor, reservable.
  destruct (parse_descriptor value 0 0) as [[raw length]|] eqn:Hp.
  - apply parse_numeral in Hp as [Hn ->].
    assert (Heq : forall d, numeral value d -> d = raw) by (intros d (_ & _ & _ & ->); symmetry; apply Hn).
    destruct (_ || _) eqn:He.
    { split; [congruence|]. intros (Hd & H3 & _). apply Heq in Hd as ->. apply orb_true_iff in He as [He|He]; [|lia].
      destruct value; [destruct Hn as (_ & _ & _ & ->); cbn in H3; lia|rewrite len_cons in He; pose proof (len_nonneg value); lia]. }
    bsplit. destruct (descriptor_facts raw t) as [facts t1] eqn:Hf.
    destruct (wrong_descriptor facts) eqn:Hw.
    { split; [congruence|]. intros (Hd & _ & Hw' & _). apply Heq in Hd as ->. rewrite Hf in Hw'. cbn in Hw'. congruence. }
    destruct (set_cloexec raw t1) as [result t2] eqn:Hs. split.
    + destruct (negb _) eqn:Hr; [congruence|]. bsplit. intros [= <- <-]. subst. rewrite Hf. done.
    + intros (Hd & _ & _ & Hc). apply Heq in Hd as ->. rewrite Hf in Hc. cbn in Hc. rewrite Hs in Hc. injection Hc as -> ->. done.
  - split; [congruence|]. intros (Hd & _). enough (parse_descriptor value 0 0 = Some (fd, len value)) by congruence.
    now apply parse_numeral.
Qed.

(** Unless the vector lacks the marker or the entry, the hook reserved from it. *)
Lemma reserved_from (self : ReceiverProcess T) :
  let self' := receiver_bootstrap_preinit_linux self in
  rp_bootstrap_fd self' = rp_bootstrap_fd self \/
  exists environment marked erased value,
    rp_environment self = Some environment /\ scrubbed is_public_entry environment tt marked /\
    scrubbed (matched RECEIVER_BOOTSTRAP_ENV_PREFIX) marked value erased /\
    reserve_descriptor value (rp_native self) = (rp_bootstrap_fd self', rp_native self') /\
    rp_environment self' = Some erased.
Proof.
  unfold receiver_bootstrap_preinit_linux. cbv zeta.
  destruct (rp_environment self) as [environment|]; [|by left].
  destruct (scrub_first is_public_entry environment) as [[[] marked]|] eqn:Hm; [|by left].
  destruct (scrub_first _ marked) as [[value erased]|] eqn:He; [|by left].
  destruct (reserve_descriptor value (rp_native self)) as [fd t] eqn:Hr. right.
  exists environment, marked, erased, value. split_and!; try done; now apply scrub_first_spec.
Qed.

(** C14: The receiver's inherited endpoint is designated exactly and taken once.
    From a process that has not been bootstrapped, the hook reserves descriptor
    [d] exactly when the environment holds the public marker and a bootstrap
    entry whose value is a decimal numeral for [d] (digits, no leading zero, at
    most nine, so that no value overflows), [d] is not a standard stream, the
    queries find a nonblocking sequenced-packet socket inherited by a session
    leader with exec-gain refused, and close-on-exec could be set; the first
    marker and the first bootstrap entry are then erased. Otherwise nothing is
    reserved. A reserved descriptor is handed out by the first take and by no
    later one; a take without one fails as invalid input. *)
Theorem receiver_bootstrap_exact (self : ReceiverProcess T) d :
  rp_bootstrap_fd self = BOOTSTRAP_ABSENT -> 3 <= d ->
  let self' := receiver_bootstrap_preinit_linux self in
  (rp_bootstrap_fd self' = d <->
   exists environment marked erased value,
     rp_environment self = Some environment /\
     erases (eq RECEIVER_PUBLIC_BOOTSTRAP_ENV_ENTRY) environment RECEIVER_PUBLIC_BOOTSTRAP_ENV_ENTRY marked /\
     erases (prefix RECEIVER_BOOTSTRAP_ENV_PREFIX) marked (RECEIVER_BOOTSTRAP_ENV_PREFIX ++ value) erased /\
     reservable value (rp_native self) d (rp_native self') /\ rp_environment self' = Some erased) /\
  (rp_bootstrap_fd self' = BOOTSTRAP_ABSENT \/ rp_bootstrap_fd self' = BOOTSTRAP_INVALID \/
   3 <= rp_bootstrap_fd self' < 10 ^ 9) /\
  (fst (take_receiver_bootstrap self') = Ok d <-> rp_bootstrap_fd self' = d) /\
  (forall later, fst (take_receiver_bootstrap (snd (take_receiver_bootstrap self'))) <> Ok later).
Proof.
  intros Ha H3 self'. split_and!; [| | |done].
  - split.
    + intros Hfd. destruct (reserved_from self) as [He|(environment & marked & erased & value & H1 & H2 & H4 & H5 & H6)].
      { fold self' in He. unfold BOOTSTRAP_ABSENT in Ha. lia. }
      exists environment, marked, erased, value. fold self' in H5, H6.
      split_and!; [done|now apply marker_erased|now apply value_erased| |done].
      apply reserve_descriptor_iff; [unfold BOOTSTRAP_INVALID; lia|]. now rewrite <- Hfd.
    + intros (environment & marked & erased & value & H1 & H2%marker_erased%scrub_first_spec & H4%value_erased%scrub_first_spec & H5 & H6).
      apply reserve_descriptor_iff in H5; [|unfold BOOTSTRAP_INVALID; lia].
      unfold self', receiver_bootstrap_preinit_linux in *. rewrite H1, H2, H4 in *.
      destruct (reserve_descriptor value (rp_native self)) as [fd t]. cbn in *. congruence.
  - destruct (reserved_from self) as [He|(environment & marked & erased & value & _ & _ & _ & H5 & _)];
      [fold self' in He; left; congruence|fold self' in H5].
    destruct (Z.eq_dec (rp_bootstrap_fd self') BOOTSTRAP_INVALID) as [|Hn]; [auto|].
    apply reserve_descriptor_iff in H5 as (Hv & H & _); [|done]. apply numeral_bound in Hv. auto with lia.
  - unfold take_receiver_bootstrap. cbn. destruct (_ <? 3) eqn:E; bsplit; split; try done; [lia|congruence|congruence].
Qed.

End Preinit.

(** ** An endpoint on every target

    The time, and whether the child runs; no peer ever answers. *)

Record Rig := { rg_now : Z; rg_child : bool }.
Definition childless (r : Rig) : Rig := {| rg_now := rg_now r; rg_child := false |}.
Definition with_child (r : Rig) : Rig := {| rg_now := rg_now r; rg_child := true |}.

#[local] Existing Instances ample prefix_digest macos_aarch64.
#[local] Instance rig_clock : Clock Rig := {| instant_now r := (rg_now r, r); instant_max := U64_MAX |}.
#[local] Instance rig_transport : AuthenticatedZeroRightsTransport Rig :=
  {| send_record := fun _ _ r => (inr TransportError_DeadlineExpired, r);
     receive_record := fun _ _ r => (inr TransportError_DeadlineExpired, r);
     transport_try_poll_peer := fun r => (inl Running, r); transport_poison := fun r => r |}.
#[local] Instance rig_process : Process Rig :=
  {| getpid := fun _ => 100; getppid := fun _ => 1; getuid := fun _ => 0; getgid := fun _ => 0;
     peer_pid := fun _ => 200; lifecycle_pid := fun _ => 200; channel_nonce := fun _ => replicate 32 x05 |}.
Definition exact_exit : ExactChildCleanup :=
  {| xc_direct_child := Some (ExactExited 0); xc_descendants := GroupTerminated; xc_last_native_error := None |}.
#[local] Instance rig_linux : LinuxNative Rig :=
  {| linux_discover_atomics := fun r => (inl verified, r); linux_entropy := fun n _ r => (inl (replicate (Z.to_nat n) x09), r);
     linux_open := fun _ r => (inl tt, r); linux_reject_credential_changing_mode := fun r => (inl tt, r);
     linux_spawn_held := fun _ _ _ r => (inl tt, with_child r); linux_adopt_inherited := fun r => (inl tt, r);
     linux_send := fun _ _ r => (inr Spawn_DeadlineExpired, r); linux_receive := fun _ _ r => (inr Spawn_DeadlineExpired, r);
     linux_ensure_live := fun _ r => (inl tt, r); linux_matches_process_image := fun _ => true;
     linux_terminate_and_reap := fun _ r => (exact_exit, childless r) |}.
#[local] Instance rig_mac : MacNative Rig :=
  {| mac_discover_atomics := fun r => (inl verified, r); mac_random_nonce := fun r => (inl (replicate 32 x09), r);
     mac_hold_executable := fun _ r => (inl tt, r); mac_spawn_explicit := fun _ _ _ r => (inl tt, with_child r);
     mac_matches_running_image := fun _ r => (inl true, r); mac_authenticate := fun _ r => (inl tt, r);
     mac_connect_from_environment := fun _ r => (inl tt, r);
     mac_send := fun _ _ r => (inr TransportError_DeadlineExpired, r);
     mac_receive := fun _ _ r => (inr TransportError_DeadlineExpired, r); mac_try_poll := fun r => (inl Running, r);
     mac_wait_and_reap_status := fun _ r => (inl tt, childless r); mac_cleanup_until := fun _ r => (reaped, childless r);
     mac_terminate_and_reap_facts := fun _ r => (reaped, childless r) |}.
#[local] Instance rig_windows : WindowsNative Rig :=
  {| windows_discover_atomics := fun r => (inl verified, r); windows_session_nonce := fun r => (inl (replicate 32 x09), r);
     windows_command_is_valid := fun _ => true; windows_spawn_until := fun _ _ _ r => (inl tt, with_child r);
     windows_connect_spawned_helper := fun _ r => (inl tt, r);
     windows_write_message := fun _ _ r => (inr TransportError_DeadlineExpired, r);
     windows_read_message := fun _ _ r => (inr TransportError_DeadlineExpired, r);
     windows_cleanup_after_failure := fun r => (reaped, childless r) |}.
#[local] Instance rig_reaped : ReapedChild Rig :=
  {| wait_and_reap_facts := fun _ r => (reaped, childless r); terminate_and_reap_facts := fun _ r => (reaped, childless r) |}.
#[local] Instance rig_exit_code : ExitCodeChild Rig :=
  {| wait_for_child_exit := fun _ r => (inl 0, childless r); terminate_and_reap_code := fun _ r => (inl 0, childless r) |}.

Definition rig_sleep (d : Z) (r : Rig) : Rig := {| rg_now := rg_now r + d; rg_child := rg_child r |}.
#[local] Instance rig_steady : SteadyClock Rig rig_sleep.
Proof.
  refine {| now := rg_now |}.
  - intros t n t' [= <- <-]. lia.
  - intros t r t' [= <- <-]. lia.
  - intros d t Hd. cbn. lia.
Defined.

Definition no_transfer : TransferBatch -> Z -> stm (Dispatcher Rig) ReadyFailure ActiveRegionSet := fun _ _ => slift Panic.
Definition no_import : ExpectedBatch -> Z -> stm (Dispatcher Rig) ReadyFailure ActiveRegionSet := fun _ _ => slift Panic.
Definition idle : Rig := {| rg_now := 0; rg_child := false |}.
Definition running : Rig := {| rg_now := 0; rg_child := true |}.

Definition rig_parameters : AcceptedSessionParameters :=
  agreed_parameters box_identity mac_transcript (replicate 16 x09) MacMachV1.
Definition rig_session : Dispatcher Rig :=
  {| d_transport := running;
     d_state := {| cs_nonce := replicate 32 x05; cs_maximum_payload := 65536; cs_next_send := 1; cs_next_receive := 1;
                   cs_transaction_open := false; cs_poisoned := false; cs_pending_receive := false |};
     d_maximum_wire_len := 65600; d_parameters := rig_parameters; d_next_transaction := 1;
     d_resources := {| sr_state := ACTIVE; sr_active_regions := 0; sr_active_bytes := 0; sr_maximum_regions := 16;
                       sr_maximum_bytes := 4096 |} |}.

Lemma session_close_exact_witness :
  close_promise [] rig_session (try_close (windows_coordinator_backend no_transfer) 9 rig_session) /\
  exists facts, fst (try_close (windows_coordinator_backend no_transfer) 9 rig_session) = Ok (Close_Closed facts).
Proof.
  split; [|eexists; vm_compute; reflexivity].
  apply (session_close_exact no_transfer (windows_coordinator_backend no_transfer) 9 rig_session []).
  - unfold coordinator_targets. rewrite !elem_of_cons. auto.
  - constructor; cbn; try done. auto.
  - done.
Defined.

Definition rig_options : SessionOptions := SessionOptions_new 1000 ExactOpenedFile.
Definition rig_command : SessionCommand := SessionCommand_new [x2f; x62].

(** The same endpoint in custody: the child is obtained, no HELLO gets through,
    and the child is ended. *)
Section TrackedRig.
#[local] Existing Instances tracked_clock tracked_linux tracked_mac tracked_windows.
#[local] Instance tracked_rig_process : Process (Tracked Rig) :=
  {| getpid := fun _ => 100; getppid := fun _ => 1; getuid := fun _ => 0; getgid := fun _ => 0;
     peer_pid := fun _ => 200; lifecycle_pid := fun _ => 200; channel_nonce := fun _ => replicate 32 x05 |}.
#[local] Instance tracked_rig_transport : AuthenticatedZeroRightsTransport (Tracked Rig) :=
  {| send_record := fun packet deadline => untracked (send_record packet deadline);
     receive_record := fun length deadline => untracked (receive_record length deadline);
     transport_try_poll_peer := untracked transport_try_poll_peer;
     transport_poison := fun '(t, log) => (transport_poison t, log) |}.
#[local] Instance tracked_rig_reaped : ReapedChild (Tracked Rig) :=
  {| wait_and_reap_facts := fun deadline => untracked (wait_and_reap_facts deadline);
     terminate_and_reap_facts := fun deadline => untracked (terminate_and_reap_facts deadline) |}.
#[local] Instance tracked_rig_exit_code : ExitCodeChild (Tracked Rig) :=
  {| wait_for_child_exit := fun deadline => untracked (wait_for_child_exit deadline);
     terminate_and_reap_code := fun deadline => untracked (terminate_and_reap_code deadline) |}.

Definition no_tracked_transfer : TransferBatch -> Z -> stm (Dispatcher (Tracked Rig)) ReadyFailure ActiveRegionSet := fun _ _ => slift Panic.
Definition tracked_linux_backend : CoordinatorBackend (Tracked Rig) := linux_coordinator_backend no_tracked_transfer.

Lemma child_owner_accounted_witness :
  exists failure r, spawn tracked_linux_backend rig_command rig_options (idle, []) = (Err failure, (r, [Obtained; Ended reaped])) /\
    fl_cleanup failure = Some reaped /\ fl_poisoned failure = true.
Proof.
  assert (Hs : exists failure r, spawn tracked_linux_backend rig_command rig_options (idle, []) = (Err failure, (r, [Obtained; Ended reaped])))
    by (eexists _, _; vm_compute; reflexivity).
  pose proof (proj1 (child_owner_accounted no_tracked_transfer tracked_linux_backend
    ltac:(unfold coordinator_targets; rewrite !elem_of_cons; auto)) rig_command rig_options idle) as H.
  destruct Hs as (failure & r & Hs). rewrite Hs in H. destruct H as (Hp & Hc & _).
  exists failure, r. split; [exact Hs|]. split; [exact Hc|]. now rewrite Hp, Hc.
Defined.

End TrackedRig.

(** A limit on the descriptors of the child, which Windows has no means for. *)
Definition limited_options : SessionOptions :=
  with_child_process_limits
    {| cpl_commit_memory_bytes := Some 4096; cpl_user_cpu_time := None; cpl_active_processes := None;
       cpl_open_descriptors := Some 8 |} rig_options.

Lemma limits_never_weakened_witness :
  exists failure, spawn (windows_coordinator_backend no_transfer) rig_command limited_options idle = (Err failure, idle) /\
    fl_reason failure = Session_UnsupportedChildProcessLimits /\
    (forall b, cb_target b = OnWindows -> spawn b rig_command limited_options idle = (Err failure, idle)).
Proof.
  eexists. split; [vm_compute; reflexivity|]. split; [reflexivity|]. intros b Hb.
  destruct (limits_never_weakened (windows_coordinator_backend no_transfer) rig_command limited_options idle) as [_ H].
  rewrite (H ltac:(left; discriminate) b Hb). vm_compute. reflexivity.
Defined.

Lemma receiver_wait_returns_witness :
  exists r self', polling_wait mac_map_control_error rig_sleep 3 2000000 rig_session = Some (r, self') /\
    r = Err Public_DeadlineExpired /\ 2000000 <= rg_now (d_transport self').
Proof.
  assert (Hf : Z.max 0 (2000000 - now (d_transport rig_session)) <= 1000000 * (Z.of_nat 3 - 1)) by (cbn; lia).
  destruct (receiver_wait_returns rig_sleep mac_map_control_error 3 2000000 rig_session Hf) as (r & self' & H & _).
  exists r, self'. split; [exact H|]. vm_compute in H. injection H as <- <-. split; [reflexivity|vm_compute; discriminate].
Defined.

(** 65 400 bytes, within limits of 65 536. *)
Definition oversized_options : SessionOptions := with_application_payload (zeros 65400) rig_options.

Lemma oversized_bootstrap_diverges_witness :
  exists failure, from_bootstrap OnLinux (linux_receiver_backend no_import) oversized_options idle = (Err failure, idle) /\
    fl_poisoned failure = true.
Proof.
  destruct (oversized_bootstrap_diverges no_import oversized_options idle tt idle) as (f & g & H & _ & _ & _ & _ & Hp & _).
  - unfold limits_wf. cbn. split_and!; split; discriminate.
  - reflexivity.
  - vm_compute. reflexivity.
  - vm_compute. reflexivity.
  - exists f. split; [exact H|exact Hp].
Defined.

(** Descriptor 17, designated after an unrelated variable; [true] once it is
    closed on exec. *)
#[local] Instance receiver_startup : PreinitNative bool :=
  {| descriptor_facts := fun _ t =>
       ({| df_descriptor_flags := 0; df_descriptor_status := 2050; df_mdwe := 1; df_pid := 7; df_sid := 7;
           df_process_group := 7; df_socket_result := 0; df_socket_type_len := 4; df_socket_type := 5 |}, t);
     close_descriptor := fun _ t => t; set_cloexec := fun _ _ => (0, true) |}.
Definition started : ReceiverProcess bool :=
  {| rp_environment := Some [[x41; x3d; x31]; RECEIVER_PUBLIC_BOOTSTRAP_ENV_ENTRY;
                             RECEIVER_BOOTSTRAP_ENV_PREFIX ++ [x31; x37]];
     rp_bootstrap_fd := BOOTSTRAP_ABSENT; rp_native := false |}.

Lemma receiver_bootstrap_exact_witness :
  let self' := receiver_bootstrap_preinit_linux started in
  rp_bootstrap_fd self' = 17 /\ rp_environment self' = Some [[x41; x3d; x31]; []; []] /\
  fst (take_receiver_bootstrap self') = Ok 17 /\
  forall later, fst (take_receiver_bootstrap (snd (take_receiver_bootstrap self'))) <> Ok later.
Proof.
  destruct (receiver_bootstrap_exact started 17 eq_refl ltac:(done)) as (_ & _ & Ht & Hl).
  split; [vm_compute; reflexivity|]. split; [vm_compute; reflexivity|]. split; [|exact Hl].
  apply Ht. vm_compute. reflexivity.
Defined.
