(* ===== verification/SupervisorWire.v ===== *)
(** * SupervisorWire: records of the macOS supervisor ([backend/macos/supervisor.rs])

    The service that launches a receiver on macOS is a separate process. This
    file models the wire contract between it and its clients: the shared-clock
    deadlines, the checks of caller-supplied names, paths and environment keys,
    the 96-byte record header, the spawn request and the spawn result. *)

From S2P Require Import Prelude Bytes Tools Limits Manifest Negotiation Native.
From Stdlib Require Import Strings.String.

(** A byte string literal. *)
Definition ascii (s : string) : bytes := list_byte_of_string s.
#[global] Arguments ascii s%_string.

(** ** Constants *)

Definition MAGIC : bytes := ascii "NIPCSUP1".
Definition VERSION : Z := 1.
Definition HEADER_LEN : Z := 96.
Definition SPAWN_PREFIX_LEN : Z := 16.
Definition SPAWN_RESULT_LEN : Z := 40.
Definition MAX_SUPERVISOR_RECORD_BYTES : Z := 65536.
Definition MAX_POLICY_ID_BYTES : Z := 128.
Definition MAX_ARGUMENTS : Z := 64.
Definition MAX_ENVIRONMENT : Z := 64.
Definition MAX_COMPONENT_BYTES : Z := 4096.
(** [Duration::from_secs(30)] in nanoseconds. *)
Definition MAX_SUPERVISOR_DEADLINE : Z := 30000000000.

(** ** Errors and record kinds *)

Inductive SupervisorWireError :=
| WireError_Malformed
| WireError_LimitExceeded
| WireError_AuthenticationRequired
| WireError_PeerMismatch
| WireError_ReplayOrSubstitution
| WireError_InvalidPolicy
| WireError_InvalidTargetInput
| WireError_StateViolation
| WireError_ClockUnavailable.

#[export] Instance SupervisorWireError_eq_dec : EqDecision SupervisorWireError.
Proof. solve_decision. Defined.

Inductive RecordKind := ClientHello | ServiceHello | Spawn | SpawnResult.

#[export] Instance RecordKind_eq_dec : EqDecision RecordKind.
Proof. solve_decision. Defined.

Definition RecordKind_raw (kind : RecordKind) : Z :=
  match kind with ClientHello => 1 | ServiceHello => 2 | Spawn => 3 | SpawnResult => 4 end.

Definition RecordKind_decode (value : Z) : res SupervisorWireError RecordKind :=
  if value =? 1 then Ok ClientHello else
  if value =? 2 then Ok ServiceHello else
  if value =? 3 then Ok Spawn else
  if value =? 4 then Ok SpawnResult else Err WireError_Malformed.

Record Header := {
  hd_kind : RecordKind;
  hd_payload_len : Z;
  hd_generation : Z;
  hd_sequence : Z;
  hd_client_nonce : bytes;
  hd_service_nonce : bytes
}.

(** ** Deadlines on the shared clock

    [clock_gettime(CLOCK_UPTIME_RAW)] returns its status and the two fields it
    filled in; [Instant::now] is [instant_now]. A [SupervisorDeadline] is its
    [u64]. *)

Class UptimeClock (W : Type) := clock_gettime : W -> (Z * Z * Z) * W.

Record SupervisorDeadlineBinding := { db_wire : Z; db_local : Z }.

#[export] Instance SupervisorDeadlineBinding_eq_dec : EqDecision SupervisorDeadlineBinding.
Proof. solve_decision. Defined.

Definition SupervisorDeadline_earlier (self other : Z) : Z := if self <=? other then self else other.

Section Deadlines.
Context {W : Type} {C : Clock W} {U : UptimeClock W}.

Definition read_instant {E} : stm W E Z := fun w => let '(now, w) := instant_now w in (Ok now, w).

Definition monotonic_now_nanos : stm W SupervisorWireError Z :=
  fun w =>
    let '(status, tv_sec, tv_nsec, w) := clock_gettime w in
    (if negb (status =? 0) || (tv_sec <? 0) || negb ((0 <=? tv_nsec) && (tv_nsec <? 1000000000))
     then Err WireError_ClockUnavailable else
     let? seconds := ok_or (try_from U64_MAX tv_sec) WireError_ClockUnavailable in
     let? nanoseconds := ok_or (try_from U64_MAX tv_nsec) WireError_ClockUnavailable in
     ok_or (checked_mul U64_MAX seconds 1000000000 ≫= fun value => checked_add U64_MAX value nanoseconds)
           WireError_ClockUnavailable, w).

Definition from_instant (deadline : Z) : stm W SupervisorWireError Z :=
  let! monotonic_now := monotonic_now_nanos in
  let! local_now := read_instant in
  let! remaining := slift (ok_or (checked_sub deadline local_now) WireError_LimitExceeded) in
  if (remaining =? 0) || (MAX_SUPERVISOR_DEADLINE <? remaining) then serr WireError_LimitExceeded else
  let! remaining_nanos := slift (ok_or (try_from U64_MAX remaining) WireError_LimitExceeded) in
  slift (ok_or (checked_add U64_MAX monotonic_now remaining_nanos) WireError_LimitExceeded).

Definition to_local_instant (self : Z) : stm W SupervisorWireError Z :=
  let! local_now := read_instant in
  let! monotonic_now := monotonic_now_nanos in
  let! remaining := slift (ok_or (checked_sub self monotonic_now) WireError_LimitExceeded) in
  if (remaining =? 0) || (MAX_SUPERVISOR_DEADLINE <? remaining) then serr WireError_LimitExceeded else
  slift (ok_or (checked_add instant_max local_now remaining) WireError_LimitExceeded).

Definition from_wire (wire : Z) : stm W SupervisorWireError SupervisorDeadlineBinding :=
  let! local := to_local_instant wire in
  sret {| db_wire := wire; db_local := local |}.

End Deadlines.

(** ** Checked reads

    [u16_at] and its siblings of [supervisor.rs]: [slice::get]. *)

Definition get_range {A} (l : list A) (a b : Z) : option (list A) :=
  if in_range l a b then Some (slice l a b) else None.

Definition uint_at (n : Z) (l : bytes) (offset : Z) : res SupervisorWireError Z :=
  let? stop := ok_or (checked_add USIZE_MAX offset n) WireError_Malformed in
  let? field := ok_or (get_range l offset stop) WireError_Malformed in
  Ok (le_val field).

Definition u16_at (l : bytes) (offset : Z) : res SupervisorWireError Z := uint_at 2 l offset.
Definition u32_at (l : bytes) (offset : Z) : res SupervisorWireError Z := uint_at 4 l offset.
Definition u64_at (l : bytes) (offset : Z) : res SupervisorWireError Z := uint_at 8 l offset.

Definition array_at (n : Z) (l : bytes) (offset : Z) : res SupervisorWireError bytes :=
  let? stop := ok_or (checked_add USIZE_MAX offset n) WireError_Malformed in
  ok_or (get_range l offset stop) WireError_Malformed.

(** ** Checks of caller-supplied strings *)

Definition byte_between (lo hi b : byte) : bool :=
  (Z_of_byte lo <=? Z_of_byte b) && (Z_of_byte b <=? Z_of_byte hi).

Definition is_ascii_uppercase (b : byte) : bool := byte_between "A" "Z" b.
Definition is_ascii_lowercase (b : byte) : bool := byte_between "a" "z" b.
Definition is_ascii_digit (b : byte) : bool := byte_between "0" "9" b.
Definition is_ascii_alphanumeric (b : byte) : bool :=
  is_ascii_uppercase b || is_ascii_lowercase b || is_ascii_digit b.

Definition contains (b : byte) (l : bytes) : bool := existsb (Byte.eqb b) l.

(** [slice::split] by one byte: one piece more than separators. *)
Fixpoint split_on (sep : byte) (l : bytes) : list bytes :=
  match l with
  | [] => [[]]
  | b :: l =>
      if Byte.eqb b sep then [] :: split_on sep l else
      match split_on sep l with
      | [] => [[b]]
      | piece :: pieces => (b :: piece) :: pieces
      end
  end.

Fixpoint starts_with (prefix l : bytes) : bool :=
  match prefix, l with
  | [], _ => true
  | p :: prefix, b :: l => Byte.eqb p b && starts_with prefix l
  | _, [] => false
  end.

Definition dot : bytes := ascii ".".
Definition dot_dot : bytes := ascii "..".

Definition validate_policy_id (policy_id : bytes) : res SupervisorWireError unit :=
  if bool_decide (policy_id = []) || (MAX_POLICY_ID_BYTES <? len policy_id)
     || bool_decide (policy_id = dot) || bool_decide (policy_id = dot_dot)
     || negb (forallb (fun b => is_ascii_alphanumeric b || Byte.eqb b "." || Byte.eqb b "_" || Byte.eqb b "-")
                      policy_id)
  then Err WireError_InvalidPolicy else Ok tt.

Definition validate_installed_executable (path : bytes) : res SupervisorWireError unit :=
  if bool_decide (path = []) || (MAX_COMPONENT_BYTES <? len path)
     || negb (bool_decide (take 1 path = ascii "/")) || contains x00 path
     || existsb (fun component => bool_decide (component = []) || bool_decide (component = dot)
                                  || bool_decide (component = dot_dot))
                (drop 1 (split_on "/" path))
  then Err WireError_InvalidPolicy else Ok tt.

Definition validate_component (component : bytes) : res SupervisorWireError unit :=
  if (MAX_COMPONENT_BYTES <? len component) || contains x00 component
  then Err WireError_InvalidTargetInput else Ok tt.

Definition FORBIDDEN_PREFIXES : list bytes :=
  [ascii "DYLD_"; ascii "LD_"; ascii "__XPC_"; ascii "XPC_"; ascii "NATIVE_IPC_"].

Definition validate_environment_key (key : bytes) : res SupervisorWireError unit :=
  if bool_decide (key = []) || (MAX_COMPONENT_BYTES <? len key)
     || negb (forallb (fun b => is_ascii_uppercase b || is_ascii_digit b || Byte.eqb b "_") key)
     || existsb (fun prefix => starts_with prefix key) FORBIDDEN_PREFIXES
  then Err WireError_InvalidTargetInput else Ok tt.

(** ** Target input *)

Record TargetEnvironmentEntry := { te_key : bytes; te_value : bytes }.

#[export] Instance TargetEnvironmentEntry_eq_dec : EqDecision TargetEnvironmentEntry.
Proof. solve_decision. Defined.

Definition TargetEnvironmentEntry_new (key value : bytes) : res SupervisorWireError TargetEnvironmentEntry :=
  validate_environment_key key >>?
  validate_component value >>?
  Ok {| te_key := key; te_value := value |}.

Record SpawnRequest := {
  sq_deadline : Z;
  sq_policy_id : bytes;
  sq_arguments : list bytes;
  sq_environment : list TargetEnvironmentEntry
}.

(** A loop of checks. *)
Definition rcheck {E A} (check : A -> res E unit) (l : list A) : res E unit :=
  rfor l (fun x _ => check x) tt.

Definition SpawnRequest_new (deadline : Z) (policy_id : bytes) (arguments : list bytes)
  (environment : list TargetEnvironmentEntry) : res SupervisorWireError SpawnRequest :=
  validate_policy_id policy_id >>?
  if (MAX_ARGUMENTS <=? len arguments) || (MAX_ENVIRONMENT <? len environment)
  then Err WireError_LimitExceeded else
  rcheck validate_component arguments >>?
  Ok {| sq_deadline := deadline; sq_policy_id := policy_id; sq_arguments := arguments;
        sq_environment := environment |}.

(** ** The record header *)

Definition encode_record (header : Header) (payload : bytes) : res SupervisorWireError bytes :=
  if negb (hd_payload_len header =? len payload)
     || (MAX_SUPERVISOR_RECORD_BYTES <? Z.min USIZE_MAX (HEADER_LEN + len payload))
  then Err WireError_LimitExceeded else
  let? payload_len := ok_or (try_from U32_MAX (len payload)) WireError_LimitExceeded in
  let head := MAGIC ++ le_bytes 2 VERSION ++ le_bytes 2 (RecordKind_raw (hd_kind header))
              ++ le_bytes 4 payload_len ++ le_bytes 8 (hd_generation header)
              ++ le_bytes 8 (hd_sequence header) ++ hd_client_nonce header ++ hd_service_nonce header in
  if negb (len head =? HEADER_LEN) then Panic else
  Ok (head ++ payload).

Definition decode_header (l : bytes) : res SupervisorWireError Header :=
  if (len l <? HEADER_LEN) || (MAX_SUPERVISOR_RECORD_BYTES <? len l) then Err WireError_Malformed else
  let? magic := index_range l 0 8 in
  if negb (bool_decide (magic = MAGIC)) then Err WireError_Malformed else
  let? version := u16_at l 8 in
  if negb (version =? VERSION) then Err WireError_Malformed else
  let? raw_len := u32_at l 12 in
  let? payload_len := ok_or (try_from USIZE_MAX raw_len) WireError_LimitExceeded in
  if negb (bool_decide (checked_add USIZE_MAX HEADER_LEN payload_len = Some (len l)))
  then Err WireError_Malformed else
  let? raw_kind := u16_at l 10 in
  let? kind := RecordKind_decode raw_kind in
  let? generation := u64_at l 16 in
  let? sequence := u64_at l 24 in
  let? client_nonce := array_at 32 l 32 in
  let? service_nonce := array_at 32 l 64 in
  Ok {| hd_kind := kind; hd_payload_len := payload_len; hd_generation := generation;
        hd_sequence := sequence; hd_client_nonce := client_nonce; hd_service_nonce := service_nonce |}.

(** ** The spawn request *)

Definition push_component (component payload : bytes) : res SupervisorWireError bytes :=
  let? length := ok_or (try_from U16_MAX (len component)) WireError_LimitExceeded in
  Ok (payload ++ le_bytes 2 length ++ component).

Definition encode_spawn_payload (request : SpawnRequest) : res SupervisorWireError bytes :=
  let? policy_len := ok_or (try_from U16_MAX (len (sq_policy_id request))) WireError_LimitExceeded in
  let? argument_count := ok_or (try_from U16_MAX (len (sq_arguments request))) WireError_LimitExceeded in
  let? environment_count := ok_or (try_from U16_MAX (len (sq_environment request))) WireError_LimitExceeded in
  let payload := le_bytes 8 (sq_deadline request) ++ le_bytes 2 policy_len ++ le_bytes 2 argument_count
                 ++ le_bytes 2 environment_count ++ le_bytes 2 0 ++ sq_policy_id request in
  let? payload := rfor (sq_arguments request) push_component payload in
  let? payload := rfor (sq_environment request)
    (fun entry payload => let? payload := push_component (te_key entry) payload in
                          push_component (te_value entry) payload) payload in
  if MAX_SUPERVISOR_RECORD_BYTES <? Z.min USIZE_MAX (HEADER_LEN + len payload)
  then Err WireError_LimitExceeded else Ok payload.

(** [PayloadCursor] is the input that remains. *)
Definition cursor_take (count : Z) : stm bytes SupervisorWireError bytes :=
  fun remaining => if len remaining <? count then (Err WireError_Malformed, remaining)
                   else (Ok (slice remaining 0 count), slice remaining count (len remaining)).

Definition cursor_component : stm bytes SupervisorWireError bytes :=
  let! length_bytes := cursor_take 2 in
  let length := le_val length_bytes in
  if MAX_COMPONENT_BYTES <? length then serr WireError_LimitExceeded else cursor_take length.

Definition cursor_entry : stm bytes SupervisorWireError TargetEnvironmentEntry :=
  let! key := cursor_component in
  let! value := cursor_component in
  slift (TargetEnvironmentEntry_new key value).

Definition decode_spawn_payload (payload : bytes) : res SupervisorWireError SpawnRequest :=
  if len payload <? SPAWN_PREFIX_LEN then Err WireError_Malformed else
  let? deadline := u64_at payload 0 in
  let? policy_len := u16_at payload 8 in
  let? argument_count := u16_at payload 10 in
  let? environment_count := u16_at payload 12 in
  let? reserved := u16_at payload 14 in
  if negb (reserved =? 0) || (MAX_POLICY_ID_BYTES <? policy_len) || (MAX_ARGUMENTS <? argument_count)
     || (MAX_ENVIRONMENT <? environment_count)
  then Err WireError_LimitExceeded else
  let? rest := index_range payload SPAWN_PREFIX_LEN (len payload) in
  let '(read, remaining) :=
    (let! policy_id := cursor_take policy_len in
     let! arguments := srepeat (Z.to_nat argument_count) cursor_component in
     let! environment := srepeat (Z.to_nat environment_count) cursor_entry in
     sret (policy_id, arguments, environment)) rest in
  let? fields := read in
  let '(policy_id, arguments, environment) := fields in
  if negb (bool_decide (remaining = [])) then Err WireError_Malformed else
  SpawnRequest_new deadline policy_id arguments environment.

(** ** The four records *)

Definition encode_client_hello (client_nonce : bytes) : res SupervisorWireError bytes :=
  if bool_decide (client_nonce = zeros 32) then Err WireError_ReplayOrSubstitution else
  encode_record {| hd_kind := ClientHello; hd_payload_len := 0; hd_generation := 0; hd_sequence := 0;
                   hd_client_nonce := client_nonce; hd_service_nonce := zeros 32 |} [].

Record ServiceHelloFacts := { sh_generation : Z; sh_service_nonce : bytes }.

Definition decode_service_hello (l expected_client_nonce : bytes)
  : res SupervisorWireError ServiceHelloFacts :=
  if bool_decide (expected_client_nonce = zeros 32) then Err WireError_ReplayOrSubstitution else
  let? header := decode_header l in
  if negb (bool_decide (hd_kind header = ServiceHello)) || negb (hd_payload_len header =? 0)
     || (hd_generation header =? 0) || negb (hd_sequence header =? 0)
     || negb (bool_decide (hd_client_nonce header = expected_client_nonce))
     || bool_decide (hd_service_nonce header = zeros 32)
     || bool_decide (hd_service_nonce header = expected_client_nonce)
  then Err WireError_ReplayOrSubstitution
  else Ok {| sh_generation := hd_generation header; sh_service_nonce := hd_service_nonce header |}.

Definition encode_spawn_request (request : SpawnRequest) (generation : Z) (client_nonce service_nonce : bytes)
  : res SupervisorWireError bytes :=
  if (generation =? 0) || bool_decide (client_nonce = zeros 32) || bool_decide (service_nonce = zeros 32)
  then Err WireError_ReplayOrSubstitution else
  let? payload := encode_spawn_payload request in
  encode_record {| hd_kind := Spawn; hd_payload_len := len payload; hd_generation := generation;
                   hd_sequence := 1; hd_client_nonce := client_nonce; hd_service_nonce := service_nonce |}
                payload.

Inductive SpawnFailure := SpawnFailure_Denied | SpawnFailure_Busy | SpawnFailure_DeadlineExpired | SpawnFailure_LaunchFailed.

#[export] Instance SpawnFailure_eq_dec : EqDecision SpawnFailure.
Proof. solve_decision. Defined.

Definition SpawnFailure_raw (failure : SpawnFailure) : Z :=
  match failure with SpawnFailure_Denied => 1 | SpawnFailure_Busy => 2 | SpawnFailure_DeadlineExpired => 3 | SpawnFailure_LaunchFailed => 4 end.

Definition SpawnFailure_decode (value : Z) : res SupervisorWireError SpawnFailure :=
  if value =? 1 then Ok SpawnFailure_Denied else
  if value =? 2 then Ok SpawnFailure_Busy else
  if value =? 3 then Ok SpawnFailure_DeadlineExpired else
  if value =? 4 then Ok SpawnFailure_LaunchFailed else Err WireError_Malformed.

(** An [OpaqueSessionHandle] is its bytes. *)
Inductive DecodedSpawnResult := SpawnReady (handle : bytes) | SpawnRejected (failure : SpawnFailure).

#[export] Instance DecodedSpawnResult_eq_dec : EqDecision DecodedSpawnResult.
Proof. solve_decision. Defined.

Definition decode_spawn_result (l : bytes) (generation : Z) (client_nonce service_nonce : bytes)
  : res SupervisorWireError DecodedSpawnResult :=
  if (generation =? 0) || bool_decide (client_nonce = zeros 32) || bool_decide (service_nonce = zeros 32)
  then Err WireError_ReplayOrSubstitution else
  let? header := decode_header l in
  if negb (bool_decide (hd_kind header = SpawnResult)) || negb (hd_payload_len header =? SPAWN_RESULT_LEN)
     || negb (hd_generation header =? generation) || negb (hd_sequence header =? 1)
     || negb (bool_decide (hd_client_nonce header = client_nonce))
     || negb (bool_decide (hd_service_nonce header = service_nonce))
  then Err WireError_ReplayOrSubstitution else
  let? payload := index_range l HEADER_LEN (len l) in
  let? outcome := u16_at payload 0 in
  let? detail := u16_at payload 2 in
  let? reserved := u32_at payload 4 in
  if negb (reserved =? 0) then Err WireError_Malformed else
  let? handle := array_at 32 payload 8 in
  if (outcome =? 1) && (detail =? 0) && negb (bool_decide (handle = zeros 32))
  then Ok (SpawnReady handle) else
  if (outcome =? 2) && bool_decide (handle = zeros 32)
  then let? failure := SpawnFailure_decode detail in Ok (SpawnRejected failure)
  else Err WireError_Malformed.

(** [result] is [Result<[u8; 32], SpawnFailure>]. *)
Definition encode_spawn_result (result : DecodedSpawnResult) (generation : Z)
  (client_nonce service_nonce : bytes) : res SupervisorWireError bytes :=
  if (generation =? 0) || bool_decide (client_nonce = zeros 32) || bool_decide (service_nonce = zeros 32)
  then Err WireError_ReplayOrSubstitution else
  let? fields :=
    match result with
    | SpawnReady handle => if negb (bool_decide (handle = zeros 32)) then Ok (1, 0, handle) else Err WireError_Malformed
    | SpawnRejected failure => Ok (2, SpawnFailure_raw failure, zeros 32)
    end in
  let '(outcome, detail, handle) := fields in
  let payload := le_bytes 2 outcome ++ le_bytes 2 detail ++ le_bytes 4 0 ++ handle in
  encode_record {| hd_kind := SpawnResult; hd_payload_len := len payload; hd_generation := generation;
                   hd_sequence := 1; hd_client_nonce := client_nonce; hd_service_nonce := service_nonce |}
                payload.

Definition encode_ready_spawn_result (handle : bytes) (generation : Z) (client_nonce service_nonce : bytes)
  : res SupervisorWireError bytes :=
  encode_spawn_result (SpawnReady handle) generation client_nonce service_nonce.
