(* ===== verification/SupervisorCodec.v ===== *)
(** * SupervisorCodec: the supervisor's records have one encoding each

    [header_wire] and [request_wire] are the wire formats as concatenations of
    fields. The decoders accept exactly them, the encoders produce exactly
    them, and no decoder exits abnormally on any input. *)

From S2P Require Import Prelude Bytes Tools Limits Manifest Negotiation Native SupervisorWire.

(** ** Checked reads *)

Lemma get_range_ok {A} (l : list A) a b : 0 <= a <= b -> b <= len l -> get_range l a b = Some (slice l a b).
Proof.
  intros Ha Hb. unfold get_range, in_range.
  rewrite (proj2 (Z.leb_le 0 a)), (proj2 (Z.leb_le a b)), (proj2 (Z.leb_le b (len l))) by lia. done.
Qed.

Section Reads.
Context (l : bytes).
Hypothesis Hl : len l <= USIZE_MAX.

Lemma uint_at_ok n off : 0 <= off -> 0 <= n -> off + n <= len l -> uint_at n l off = Ok (field l off n).
Proof.
  intros ???. unfold uint_at. rewrite checked_add_ok by lia. cbn [ok_or rbind]. now rewrite get_range_ok by lia.
Qed.

Lemma array_at_ok n off stop :
  0 <= off -> 0 <= n -> stop = off + n -> stop <= len l -> array_at n l off = Ok (slice l off stop).
Proof.
  intros ?? -> ?. unfold array_at. rewrite checked_add_ok by lia. cbn [ok_or rbind]. now rewrite get_range_ok by lia.
Qed.

Lemma u16_at_ok off : 0 <= off -> off + 2 <= len l -> u16_at l off = Ok (field l off 2).
Proof. intros. now apply uint_at_ok. Qed.
Lemma u32_at_ok off : 0 <= off -> off + 4 <= len l -> u32_at l off = Ok (field l off 4).
Proof. intros. now apply uint_at_ok. Qed.
Lemma u64_at_ok off : 0 <= off -> off + 8 <= len l -> u64_at l off = Ok (field l off 8).
Proof. intros. now apply uint_at_ok. Qed.

End Reads.

(** [rat]: perform the in-range checked reads of a goal. *)
Ltac rat1 :=
  match goal with
  | |- context [u16_at ?l ?o] => rewrite (u16_at_ok l ltac:(ulia) o) by lia
  | |- context [u32_at ?l ?o] => rewrite (u32_at_ok l ltac:(ulia) o) by lia
  | |- context [u64_at ?l ?o] => rewrite (u64_at_ok l ltac:(ulia) o) by lia
  | |- context [array_at ?n ?l ?o] =>
      let stop := eval cbv in (o + n) in rewrite (array_at_ok l ltac:(ulia) n o stop) by lia
  | |- context [index_range ?l ?a ?b] => rewrite (index_range_ok l a b) by lia
  end; cbn [rbind].
Ltac rat := repeat rat1.

(** ** The record header *)

Lemma RecordKind_decode_iff z k : RecordKind_decode z = Ok k <-> z = RecordKind_raw k.
Proof.
  unfold RecordKind_decode. split.
  - repeat (case_match; bsplit); now intros [= <-].
  - intros ->. now destruct k.
Qed.

Lemma RecordKind_decode_no_panic z : RecordKind_decode z <> Panic.
Proof. unfold RecordKind_decode. now repeat case_match. Qed.

Definition header_wf (h : Header) : Prop :=
  u64 (hd_generation h) /\ u64 (hd_sequence h) /\ len (hd_client_nonce h) = 32 /\ len (hd_service_nonce h) = 32.

Definition header_wire (h : Header) : bytes :=
  MAGIC ++ le_bytes 2 VERSION ++ le_bytes 2 (RecordKind_raw (hd_kind h)) ++ le_bytes 4 (hd_payload_len h)
  ++ le_bytes 8 (hd_generation h) ++ le_bytes 8 (hd_sequence h) ++ hd_client_nonce h ++ hd_service_nonce h.

Lemma record_magic_len : len MAGIC = 8.
Proof. reflexivity. Qed.

Lemma header_wire_len h : header_wf h -> len (header_wire h) = 96.
Proof. intros (_ & _ & H1 & H2). unfold header_wire. rewrite !len_app, !len_le_bytes, record_magic_len, H1, H2. reflexivity. Qed.

Lemma RecordKind_raw_bound k : 0 <= RecordKind_raw k < 256 ^ 2.
Proof. destruct k; simpl; lia. Qed.

Lemma header_fields s h :
  96 <= len s -> header_wf h -> u32 (hd_payload_len h) ->
  slice s 0 96 = header_wire h <->
  slice s 0 8 = MAGIC /\ field s 8 2 = VERSION /\ field s 10 2 = RecordKind_raw (hd_kind h) /\
  field s 12 4 = hd_payload_len h /\ field s 16 8 = hd_generation h /\ field s 24 8 = hd_sequence h /\
  slice s 32 64 = hd_client_nonce h /\ slice s 64 96 = hd_service_nonce h.
Proof.
  intros Hs (Hg & Hq & Hc & Hn) Hp. unfold header_wire. pose proof (RecordKind_raw_bound (hd_kind h)).
  rewrite (slice_app_iff s 0 96 8) by (rewrite ?record_magic_len; lia). wsplit s.
  rewrite (slice_app_iff s 32 96 64) by lia.
  rewrite (field_iff s 8 10 2 2) by (try reflexivity; lia || (unfold VERSION; lia)).
  rewrite (field_iff s 10 12 2 2), (field_iff s 12 16 4 4), (field_iff s 16 24 8 8), (field_iff s 24 32 8 8)
    by (try reflexivity; lia || ulia).
  reflexivity.
Qed.

Lemma whole_iff (s w p : bytes) n :
  len w = n -> s = w ++ p <-> n <= len s /\ slice s 0 n = w /\ slice s n (len s) = p.
Proof.
  intros Hw. split.
  - intros ->. rewrite len_app. pose proof (len_nonneg p). split; [lia|]. split.
    + rewrite slice_app_l by (pose proof (len_nonneg w); lia). apply slice_full; lia.
    + rewrite (slice_app_skip w p n _ _ 0 (len p)) by lia. apply slice_full; lia.
  - pose proof (len_nonneg w). intros (Hn & <- & <-). rewrite slice_cat by lia. symmetry. apply slice_full; lia.
Qed.

Lemma decode_header_iff s h :
  decode_header s = Ok h <->
  exists payload, s = header_wire h ++ payload /\ header_wf h /\ hd_payload_len h = len payload /\
                  HEADER_LEN + len payload <= MAX_SUPERVISOR_RECORD_BYTES.
Proof.
  unfold decode_header, HEADER_LEN, MAX_SUPERVISOR_RECORD_BYTES. split.
  - destruct ((len s <? 96) || (65536 <? len s)) eqn:E; [discriminate|]. bsplit. rat.
    case_bool_decide as Hm; [|discriminate]. cbn [negb].
    destruct (field s 8 2 =? VERSION) eqn:Hv; [|discriminate]. bsplit. cbn [negb].
    pose proof (field_u32 s 12 ltac:(lia) ltac:(lia)) as Hw.
    rewrite try_from_ok by ulia. cbn [ok_or rbind].
    case_bool_decide as Hp; [|discriminate]. apply checked_add_Some in Hp as [Hp _]. cbn [negb].
    destruct (RecordKind_decode _) as [k| |] eqn:Ek; try discriminate. apply RecordKind_decode_iff in Ek.
    intros [= <-]. exists (slice s 96 (len s)).
    assert (Hwf : header_wf {| hd_kind := k; hd_payload_len := field s 12 4; hd_generation := field s 16 8;
              hd_sequence := field s 24 8; hd_client_nonce := slice s 32 64; hd_service_nonce := slice s 64 96 |}).
    { unfold header_wf; cbn [hd_generation hd_sequence hd_client_nonce hd_service_nonce].
      rewrite !len_slice by lia. split_and!; (fwidth || lia). }
    split_and!; [|done|cbn [hd_payload_len]; rewrite len_slice by lia; lia|rewrite len_slice by lia; lia].
    apply (whole_iff _ _ _ 96); [now apply header_wire_len|]. split; [lia|]. split; [|done].
    apply header_fields; [lia|done|done|]. split_and!; done.
  - intros (p & -> & Hwf & Hp & Hb). pose proof (len_nonneg p).
    pose proof (header_wire_len h Hwf) as Hl. set (s := header_wire h ++ p).
    assert (Hs : len s = 96 + len p) by (unfold s; rewrite len_app; lia).
    assert (slice s 0 96 = header_wire h) as Hh by (unfold s; now apply (slice_app_take _ _ 96)).
    apply header_fields in Hh as (Hm & Hv & Hk & Hpl & Hg & Hq & Hc & Hn); [|lia|done|ulia].
    replace ((len s <? 96) || (65536 <? len s)) with false by lia. rat.
    rewrite bool_decide_eq_true_2 by done. cbn [negb]. rewrite Hv. cbn [negb Z.eqb].
    rewrite Hpl, try_from_ok by ulia. cbn [ok_or rbind].
    rewrite bool_decide_eq_true_2 by (apply checked_add_Some; split; ulia). cbn [negb].
    rewrite Hk, (proj2 (RecordKind_decode_iff _ (hd_kind h)) eq_refl). cbn [rbind].
    rewrite Hg, Hq, Hc, Hn. now destruct h.
Qed.

Lemma decode_header_no_panic s : decode_header s <> Panic.
Proof.
  unfold decode_header, HEADER_LEN, MAX_SUPERVISOR_RECORD_BYTES.
  destruct ((len s <? 96) || (65536 <? len s)) eqn:E; [done|]. bsplit. rat.
  destruct (negb _); [done|]. destruct (negb _); [done|]. destruct (ok_or _ _) as [|?|] eqn:Eo; try done.
  - cbn [rbind]. destruct (negb _); [done|]. pose proof (RecordKind_decode_no_panic (field s 10 2)).
    now destruct (RecordKind_decode _).
  - unfold ok_or in Eo. now case_match.
Qed.

Lemma encode_record_iff h p l :
  header_wf h ->
  encode_record h p = Ok l <->
  hd_payload_len h = len p /\ HEADER_LEN + len p <= MAX_SUPERVISOR_RECORD_BYTES /\ l = header_wire h ++ p.
Proof.
  intros Hwf. unfold encode_record, HEADER_LEN, MAX_SUPERVISOR_RECORD_BYTES. pose proof (len_nonneg p).
  destruct (hd_payload_len h =? len p) eqn:Hp; bsplit; [|now split; [|intros (? & _)]]. cbn [negb orb].
  destruct (65536 <? Z.min USIZE_MAX (96 + len p)) eqn:Hb; bsplit.
  { split; [done|]. intros (_ & ? & _). ulia. }
  rewrite try_from_ok by ulia. cbn [ok_or rbind]. rewrite <- Hp. fold (header_wire h).
  rewrite header_wire_len by done. cbn [Z.eqb Pos.eqb negb]. split.
  - intros [= <-]. split_and!; (done || ulia).
  - now intros (_ & _ & ->).
Qed.

(** A record is accepted exactly when it is the encoding of what is read. *)
Lemma decode_header_encode s h :
  decode_header s = Ok h <-> header_wf h /\ exists payload, encode_record h payload = Ok s.
Proof.
  rewrite decode_header_iff. split.
  - intros (p & Hs & Hwf & Hp & Hb). split; [done|]. exists p. now apply encode_record_iff.
  - intros (Hwf & p & (? & ? & ->)%encode_record_iff); [|done]. eauto.
Qed.

Lemma decode_header_payload s h :
  decode_header s = Ok h ->
  s = header_wire h ++ slice s HEADER_LEN (len s) /\ header_wf h /\
  hd_payload_len h = len (slice s HEADER_LEN (len s)) /\
  HEADER_LEN + len (slice s HEADER_LEN (len s)) <= MAX_SUPERVISOR_RECORD_BYTES /\
  index_range (E := SupervisorWireError) s HEADER_LEN (len s) = Ok (slice s HEADER_LEN (len s)).
Proof.
  intros (p & Hs & Hwf & Hp & Hb)%decode_header_iff. pose proof (len_nonneg p).
  apply (whole_iff _ _ _ HEADER_LEN) in Hs as (Hl & Hh & Hpay); [|now apply header_wire_len].
  split_and!; try done.
  - apply (whole_iff _ _ _ HEADER_LEN); [now apply header_wire_len|]. done.
  - now rewrite Hpay.
  - now rewrite Hpay.
  - apply index_range_ok; unfold HEADER_LEN in *; lia.
Qed.

(** ** Validated strings *)

Lemma validate_component_iff c : validate_component c = Ok tt <-> len c <= MAX_COMPONENT_BYTES /\ x00 ∉ c.
Proof.
  unfold validate_component, contains.
  destruct (existsb (Byte.eqb x00) c) eqn:E.
  - rewrite orb_true_r. split; [done|]. intros [_ Hn]. exfalso. apply Hn.
    apply existsb_exists in E as (b & Hb & Heq). apply Byte.byte_dec_bl in Heq as <-. now apply list_elem_of_In.
  - rewrite orb_false_r. destruct (_ <? _) eqn:El; bsplit; [split; [done|lia]|].
    split; [intros _|done]. split; [lia|]. intros Hin%list_elem_of_In.
    apply not_true_iff_false in E. apply E, existsb_exists. exists x00. split; [done|]. reflexivity.
Qed.

Lemma validate_environment_key_len k :
  validate_environment_key k = Ok tt -> k <> [] /\ len k <= MAX_COMPONENT_BYTES.
Proof.
  unfold validate_environment_key. destruct (_ || _) eqn:E; [done|]. intros _. bsplit. split; [done|lia].
Qed.

Lemma validate_policy_id_len k : validate_policy_id k = Ok tt -> k <> [] /\ len k <= MAX_POLICY_ID_BYTES.
Proof. unfold validate_policy_id. destruct (_ || _) eqn:E; [done|]. intros _. bsplit. split; [done|lia]. Qed.

Lemma validate_installed_executable_len k :
  validate_installed_executable k = Ok tt -> k <> [] /\ len k <= MAX_COMPONENT_BYTES.
Proof. unfold validate_installed_executable. destruct (_ || _) eqn:E; [done|]. intros _. bsplit. split; [done|lia]. Qed.

Lemma validate_cases :
  forall x, (validate_policy_id x = Ok tt \/ exists e, validate_policy_id x = Err e) /\
            (validate_installed_executable x = Ok tt \/ exists e, validate_installed_executable x = Err e) /\
            (validate_component x = Ok tt \/ exists e, validate_component x = Err e) /\
            (validate_environment_key x = Ok tt \/ exists e, validate_environment_key x = Err e).
Proof.
  intros x. unfold validate_policy_id, validate_installed_executable, validate_component, validate_environment_key.
  split_and!; case_match; eauto.
Qed.

Lemma rcheck_Ok {E A} (check : A -> res E unit) l : rcheck check l = Ok tt <-> Forall (fun x => check x = Ok tt) l.
Proof.
  unfold rcheck. induction l as [|x l IH]; simpl; [split; [constructor|done]|].
  rewrite Forall_cons, <- IH. destruct (check x) as [[]|e|]; simpl; naive_solver.
Qed.

Lemma rcheck_no_panic {E A} (check : A -> res E unit) l : (forall x, check x <> Panic) -> rcheck check l <> Panic.
Proof.
  intros Hc. unfold rcheck. induction l as [|x l IH]; simpl; [done|].
  specialize (Hc x). now destruct (check x) as [[]| |].
Qed.

(** ** Target input as the private constructors make it *)

Definition entry_ok (e : TargetEnvironmentEntry) : Prop :=
  validate_environment_key (te_key e) = Ok tt /\ validate_component (te_value e) = Ok tt.

Lemma TargetEnvironmentEntry_new_iff k v e :
  TargetEnvironmentEntry_new k v = Ok e <-> e = {| te_key := k; te_value := v |} /\ entry_ok e.
Proof.
  unfold TargetEnvironmentEntry_new, entry_ok. split.
  - destruct (validate_environment_key k) as [[]| |] eqn:E1; try discriminate.
    destruct (validate_component v) as [[]| |] eqn:E2; try discriminate. now intros [= <-].
  - intros (-> & H1 & H2). cbn [te_key te_value] in *. now rewrite H1, H2.
Qed.

Definition request_ok (r : SpawnRequest) : Prop :=
  u64 (sq_deadline r) /\ validate_policy_id (sq_policy_id r) = Ok tt /\
  len (sq_arguments r) < MAX_ARGUMENTS /\ len (sq_environment r) <= MAX_ENVIRONMENT /\
  Forall (fun a => validate_component a = Ok tt) (sq_arguments r) /\ Forall entry_ok (sq_environment r).

Lemma SpawnRequest_new_iff d p a e r :
  u64 d -> Forall entry_ok e ->
  SpawnRequest_new d p a e = Ok r <->
  r = {| sq_deadline := d; sq_policy_id := p; sq_arguments := a; sq_environment := e |} /\ request_ok r.
Proof.
  intros Hd He. unfold SpawnRequest_new, request_ok. split.
  - destruct (validate_policy_id p) as [[]| |] eqn:E1; try discriminate. cbn [rbind].
    destruct (_ || _) eqn:E2; [discriminate|]. bsplit.
    destruct (rcheck _ a) as [[]| |] eqn:E3; try discriminate. apply rcheck_Ok in E3. intros [= <-]. auto 8.
  - intros (-> & _ & H1 & H2 & H3 & H4 & _). cbn [sq_policy_id sq_arguments sq_environment] in *.
    rewrite H1. cbn [rbind].
    replace ((MAX_ARGUMENTS <=? len a) || (MAX_ENVIRONMENT <? len e)) with false by lia.
    now rewrite (proj2 (rcheck_Ok _ _) H4).
Qed.

Lemma SpawnRequest_new_no_panic d p a e : SpawnRequest_new d p a e <> Panic.
Proof.
  unfold SpawnRequest_new. destruct (validate_cases p) as [[->|[? ->]] _]; [|done]. cbn [rbind].
  case_match; [done|]. pose proof (rcheck_no_panic validate_component a) as H0.
  destruct (rcheck _ a); try done. exfalso. apply H0; [|done].
  intros x. destruct (validate_cases x) as (_ & _ & [->|[? ->]] & _); done.
Qed.

(** ** The cursor over a spawn payload *)

Abbreviation unread := (fun remaining : bytes => remaining).
Abbreviation any_cursor := (fun _ : bytes => True).

Lemma cursor_inj (s s' : bytes) : any_cursor s -> any_cursor s' -> unread s = unread s' -> s = s'.
Proof. done. Qed.

Lemma cursor_suffix (s x y : bytes) : any_cursor s -> unread s = x ++ y -> exists s', any_cursor s' /\ unread s' = y.
Proof. eauto. Qed.

#[local] Hint Resolve cursor_inj cursor_suffix : core.

Lemma cursor_take_parses n : 0 <= n -> parses unread any_cursor (cursor_take n) id (fun a => len a = n).
Proof.
  intros Hn s a s' _. unfold cursor_take. destruct (len s <? n) eqn:E; bsplit.
  - split; [done|]. intros (_ & Ha & ->). rewrite len_app in E. pose proof (len_nonneg s'). unfold id in E. lia.
  - split.
    + intros [= <- <-]. split_and!; [done|rewrite len_slice; lia|].
      unfold id. rewrite slice_cat by lia. symmetry. now apply slice_full.
    + intros (_ & Ha & ->). unfold id. do 2 f_equal.
      * now apply (slice_app_take _ _ n).
      * pose proof (len_nonneg s'). rewrite len_app,  (slice_app_skip a s' n _ _ 0 (len s')) by lia. now apply slice_full.
Qed.

Definition component_wire (c : bytes) : bytes := le_bytes 2 (len c) ++ c.
Definition component_fits (c : bytes) : Prop := len c <= MAX_COMPONENT_BYTES.

Lemma cursor_component_parses : parses unread any_cursor cursor_component component_wire component_fits.
Proof.
  intros s c s' Hs. unfold cursor_component, component_wire, component_fits, MAX_COMPONENT_BYTES.
  rewrite (parses_then unread any_cursor cursor_suffix (cursor_take 2) id (fun a => len a = 2) _ (fun _ => id)
             (fun a c => le_val a <= 4096 /\ len c = le_val a)); [|now apply cursor_take_parses|clear|done].
  - split.
    + intros (_ & a & Ha & [Hm Hc] & Hu). split; [done|]. split; [lia|].
      rewrite Hc, le_bytes_le_val, <- app_assoc by (unfold len in Ha; lia). exact Hu.
    + intros (_ & Hc & Hu). split; [done|]. pose proof (len_nonneg c). exists (le_bytes 2 (len c)).
      rewrite le_val_u16 by ulia. rewrite <- app_assoc in Hu. split_and!; done.
  - intros a Ha s c s' Hs. pose proof (le_val_bound a). destruct (4096 <? le_val a) eqn:E; bsplit.
    + unfold serr. split; [done|]. intros (_ & [? _] & _). lia.
    + rewrite (cursor_take_parses (le_val a) ltac:(lia) s c s' Hs). naive_solver.
Qed.

Definition entry_wire (e : TargetEnvironmentEntry) : bytes :=
  component_wire (te_key e) ++ component_wire (te_value e).

Lemma entry_ok_fits e : entry_ok e -> component_fits (te_key e) /\ component_fits (te_value e).
Proof.
  intros [Hk Hv]. apply validate_environment_key_len in Hk as [_ Hk]. now apply validate_component_iff in Hv as [Hv _].
Qed.

Lemma cursor_entry_parses : parses unread any_cursor cursor_entry entry_wire entry_ok.
Proof.
  intros s e s' Hs. unfold cursor_entry, entry_wire.
  rewrite (parses_then unread any_cursor cursor_suffix cursor_component component_wire component_fits _
             (fun _ e => component_wire (te_value e)) (fun k e => te_key e = k /\ entry_ok e));
    [|exact cursor_component_parses|clear|done].
  - split.
    + intros (_ & k & Hk & [<- He] & Hu). now rewrite <- app_assoc.
    + intros (_ & He & Hu). rewrite <- app_assoc in Hu. pose proof (entry_ok_fits e He) as [Hk _]. eauto 6.
  - intros k Hk s e s' Hs.
    rewrite (parses_then unread any_cursor cursor_suffix cursor_component component_wire component_fits _
               (fun _ _ => []) (fun v e => TargetEnvironmentEntry_new k v = Ok e));
      [|exact cursor_component_parses|intros v Hv; apply parses_lift; auto|done].
    setoid_rewrite TargetEnvironmentEntry_new_iff. split.
    + intros (_ & v & Hv & [-> He] & Hu). cbn [te_key te_value] in *. auto.
    + intros (_ & [<- He] & Hu). split; [done|]. pose proof (entry_ok_fits e He) as [_ Hv].
      exists (te_value e). split_and!; try done. now destruct e.
Qed.

Lemma cursor_take_safe n : safe any_cursor (cursor_take n).
Proof. intros s _. unfold cursor_take. now destruct (_ <? _). Qed.

Lemma cursor_component_safe : safe any_cursor cursor_component.
Proof.
  apply safe_bind; [apply cursor_take_safe|]. intros a. case_match; [apply safe_err|apply cursor_take_safe].
Qed.

Lemma TargetEnvironmentEntry_new_no_panic k v : TargetEnvironmentEntry_new k v <> Panic.
Proof.
  unfold TargetEnvironmentEntry_new. destruct (validate_cases k) as (_ & _ & _ & [->|[? ->]]); [|done].
  now destruct (validate_cases v) as (_ & _ & [->|[? ->]] & _).
Qed.

Lemma cursor_entry_safe : safe any_cursor cursor_entry.
Proof.
  apply safe_bind; [apply cursor_component_safe|]. intros k.
  apply safe_bind; [apply cursor_component_safe|]. intros v. apply safe_lift, TargetEnvironmentEntry_new_no_panic.
Qed.

(** ** The spawn request *)

Definition request_wire (r : SpawnRequest) : bytes :=
  le_bytes 8 (sq_deadline r) ++ le_bytes 2 (len (sq_policy_id r)) ++ le_bytes 2 (len (sq_arguments r))
  ++ le_bytes 2 (len (sq_environment r)) ++ le_bytes 2 0
  ++ sq_policy_id r ++ concat (map component_wire (sq_arguments r))
  ++ concat (map entry_wire (sq_environment r)).

Lemma push_component_ok c payload : len c <= U16_MAX -> push_component c payload = Ok (payload ++ component_wire c).
Proof.
  intros Hc. unfold push_component. pose proof (len_nonneg c). now rewrite try_from_ok by ulia.
Qed.

(** A loop whose body appends. *)
Lemma rfor_append {E A} (f : A -> bytes -> res E bytes) (w : A -> bytes) l start :
  (forall x acc, x ∈ l -> f x acc = Ok (acc ++ w x)) -> rfor l f start = Ok (start ++ concat (map w l)).
Proof.
  revert start. induction l as [|x l IH]; intros start Hf; simpl; [now rewrite app_nil_r|].
  rewrite Hf by left. cbn [rbind]. rewrite IH by (intros; apply Hf; now right). now rewrite <- app_assoc.
Qed.

Lemma encode_spawn_payload_iff r p :
  request_ok r ->
  encode_spawn_payload r = Ok p <-> p = request_wire r /\ HEADER_LEN + len p <= MAX_SUPERVISOR_RECORD_BYTES.
Proof.
  intros (Hd & Hp & Ha & He & Hac & Hec). apply validate_policy_id_len in Hp as [_ Hp].
  unfold encode_spawn_payload, MAX_POLICY_ID_BYTES, MAX_ARGUMENTS, MAX_ENVIRONMENT in *.
  pose proof (len_nonneg (sq_policy_id r)). pose proof (len_nonneg (sq_arguments r)).
  pose proof (len_nonneg (sq_environment r)).
  rewrite !try_from_ok by ulia. cbn [ok_or rbind].
  rewrite (rfor_append push_component component_wire).
  2:{ intros x acc Hx. apply push_component_ok. rewrite Forall_forall in Hac.
      apply Hac, validate_component_iff in Hx as [Hx _]. unfold MAX_COMPONENT_BYTES in Hx. ulia. }
  cbn [rbind]. rewrite (rfor_append _ entry_wire).
  2:{ intros e acc Hx. rewrite Forall_forall in Hec. pose proof (entry_ok_fits e (Hec e Hx)) as [Hk Hv].
      unfold component_fits, MAX_COMPONENT_BYTES in *. rewrite push_component_ok by ulia. cbn [rbind].
      rewrite push_component_ok by ulia. unfold entry_wire. now rewrite app_assoc. }
  cbn [rbind]. rewrite <- !app_assoc. fold (request_wire r). unfold HEADER_LEN, MAX_SUPERVISOR_RECORD_BYTES.
  destruct (_ <? _) eqn:E; bsplit.
  - split; [done|]. intros [-> ?]. ulia.
  - split; [intros [= <-]; split; [done|ulia]|]. now intros [-> _].
Qed.

Definition spawn_body (policy_len : Z) (arguments environment : nat)
  : stm bytes SupervisorWireError (bytes * list bytes * list TargetEnvironmentEntry) :=
  let! policy_id := cursor_take policy_len in
  let! arguments := srepeat arguments cursor_component in
  let! environment := srepeat environment cursor_entry in
  sret (policy_id, arguments, environment).

Lemma spawn_body_iff n i j s p a e s' :
  0 <= n ->
  spawn_body n i j s = (Ok (p, a, e), s') <->
  len p = n /\ (length a = i /\ Forall component_fits a) /\ (length e = j /\ Forall entry_ok e) /\
  s = p ++ concat (map component_wire a) ++ concat (map entry_wire e) ++ s'.
Proof.
  intros Hn. unfold spawn_body.
  rewrite (parses_then unread any_cursor cursor_suffix (cursor_take n) id (fun a => len a = n) _
    (fun _ '(_, a, e) => concat (map component_wire a) ++ concat (map entry_wire e))
    (fun p '(p', a, e) => p' = p /\ (length a = i /\ Forall component_fits a) /\ (length e = j /\ Forall entry_ok e)));
    [|now apply cursor_take_parses|clear p a e s s'|done].
  - split.
    + intros (_ & q & Hq & (<- & Ha & He) & Hu). unfold id in Hu. rewrite <- app_assoc in Hu. auto 10.
    + intros (Hp & Ha & He & Hu). split; [done|]. exists p. rewrite <- app_assoc. auto 10.
  - intros p Hp s [[p' a] e] s' Hs.
    rewrite (parses_then unread any_cursor cursor_suffix (srepeat i cursor_component) _ _ _
      (fun _ '(_, _, e) => concat (map entry_wire e))
      (fun a '(p', a', e) => p' = p /\ a' = a /\ length e = j /\ Forall entry_ok e)
      (parses_repeat unread any_cursor cursor_inj cursor_suffix _ _ _ i cursor_component_parses)); [|clear|done].
    + split.
      * intros (_ & b & [Hb Hf] & (-> & -> & He) & Hu). rewrite <- app_assoc. auto 10.
      * intros (_ & (-> & Ha & He) & Hu). rewrite <- app_assoc in Hu. split; [done|]. exists a. auto 10.
    + intros a Ha s [[p' a'] e] s' Hs.
      rewrite (parses_then unread any_cursor cursor_suffix (srepeat j cursor_entry) _ _ _ (fun _ _ => [])
        (fun e x => x = (p, a, e))
        (parses_repeat unread any_cursor cursor_inj cursor_suffix _ _ _ j cursor_entry_parses));
        [|intros; now apply parses_ret|done].
      split.
      * intros (_ & b & Hb & [= -> -> ->] & Hu). auto 10.
      * intros (_ & (-> & -> & He) & Hu). split; [done|]. exists e. auto 10.
Qed.

Lemma spawn_body_safe n i j s : fst (spawn_body n i j s) <> Panic.
Proof.
  assert (safe any_cursor (spawn_body n i j)) as H; [|now apply H].
  repeat (apply safe_bind; [|intros ?]).
  - apply cursor_take_safe.
  - apply safe_repeat, cursor_component_safe.
  - apply safe_repeat, cursor_entry_safe.
  - apply safe_ret.
Qed.

Lemma prefix_fields s d a b c :
  16 <= len s -> u64 d -> u16 a -> u16 b -> u16 c ->
  slice s 0 16 = le_bytes 8 d ++ le_bytes 2 a ++ le_bytes 2 b ++ le_bytes 2 c ++ le_bytes 2 0 <->
  field s 0 8 = d /\ field s 8 2 = a /\ field s 10 2 = b /\ field s 12 2 = c /\ field s 14 2 = 0.
Proof.
  intros. wsplit s.
  rewrite (field_iff s 0 8 8 8), (field_iff s 8 10 2 2), (field_iff s 10 12 2 2), (field_iff s 12 14 2 2),
    (field_iff s 14 16 2 2) by (try reflexivity; lia || ulia).
  reflexivity.
Qed.

Lemma decode_spawn_payload_iff s r :
  len s <= USIZE_MAX -> decode_spawn_payload s = Ok r <-> request_ok r /\ s = request_wire r.
Proof.
  intros Hs. unfold decode_spawn_payload, SPAWN_PREFIX_LEN. split.
  - destruct (len s <? 16) eqn:E; [discriminate|]. bsplit. rat.
    destruct (_ || _) eqn:Eg; [discriminate|]. bsplit.
    pose proof (field_u64 s 0 ltac:(lia) ltac:(lia)). pose proof (field_u16 s 8 ltac:(lia) ltac:(lia)).
    pose proof (field_u16 s 10 ltac:(lia) ltac:(lia)). pose proof (field_u16 s 12 ltac:(lia) ltac:(lia)).
    fold (spawn_body (field s 8 2) (Z.to_nat (field s 10 2)) (Z.to_nat (field s 12 2))).
    destruct (spawn_body _ _ _ _) as [[[[p a] e]| |] t] eqn:Eb; try discriminate. cbn [rbind].
    apply spawn_body_iff in Eb as (Hp & [Ha Haf] & [He Hef] & Hu); [|ulia].
    case_bool_decide as Ht; [|discriminate]. subst t. cbn [negb].
    rewrite SpawnRequest_new_iff by done. intros [-> Hok]. split; [done|].
    unfold request_wire; cbn [sq_deadline sq_policy_id sq_arguments sq_environment].
    rewrite app_nil_r in Hu. rewrite <- Hu. rewrite !app_assoc.
    apply (whole_iff _ _ _ 16); [rewrite !len_app, !len_le_bytes; reflexivity|].
    split; [lia|]. split; [|done]. rewrite <- !app_assoc.
    apply prefix_fields; unfold len in *; ulia || done.
  - intros (Hok & Heq). pose proof Hok as (Hd & Hp & Ha & He & Hac & Hec).
    apply validate_policy_id_len in Hp as [_ Hp].
    unfold MAX_POLICY_ID_BYTES, MAX_ARGUMENTS, MAX_ENVIRONMENT in *.
    pose proof (len_nonneg (sq_policy_id r)). pose proof (len_nonneg (sq_arguments r)).
    pose proof (len_nonneg (sq_environment r)).
    set (prefix := le_bytes 8 (sq_deadline r) ++ le_bytes 2 (len (sq_policy_id r))
      ++ le_bytes 2 (len (sq_arguments r)) ++ le_bytes 2 (len (sq_environment r)) ++ le_bytes 2 0).
    assert (s = prefix ++ sq_policy_id r ++ concat (map component_wire (sq_arguments r))
                ++ concat (map entry_wire (sq_environment r))) as Hw
      by (unfold prefix; rewrite Heq; unfold request_wire; now rewrite <- !app_assoc).
    apply (whole_iff _ _ _ 16) in Hw as (Hl & Hf & Hb); [|reflexivity].
    apply prefix_fields in Hf as (Hf1 & Hf2 & Hf3 & Hf4 & Hf5); try ulia.
    replace (len s <? 16) with false by lia. rat. rewrite Hf1, Hf2, Hf3, Hf4, Hf5. cbn [Z.eqb negb orb].
    unfold MAX_POLICY_ID_BYTES, MAX_ARGUMENTS, MAX_ENVIRONMENT.
    replace ((128 <? _) || (64 <? _) || (64 <? _)) with false by lia.
    fold (spawn_body (len (sq_policy_id r)) (Z.to_nat (len (sq_arguments r))) (Z.to_nat (len (sq_environment r)))).
    rewrite (proj2 (spawn_body_iff (len (sq_policy_id r)) _ _ _ (sq_policy_id r) (sq_arguments r) (sq_environment r) [] ltac:(lia))).
    + cbn [rbind]. rewrite bool_decide_eq_true_2 by done. cbn [negb].
      apply SpawnRequest_new_iff; try done. split; [now destruct r|done].
    + unfold len. rewrite !Nat2Z.id, app_nil_r. split_and!; try done.
      eapply Forall_impl; [exact Hac|]. intros x Hx. now apply validate_component_iff in Hx as [Hx _].
Qed.

Lemma decode_spawn_payload_no_panic s : len s <= USIZE_MAX -> decode_spawn_payload s <> Panic.
Proof.
  intros Hs. unfold decode_spawn_payload, SPAWN_PREFIX_LEN.
  destruct (len s <? 16) eqn:E; [done|]. bsplit. rat. case_match; [done|].
  fold (spawn_body (field s 8 2) (Z.to_nat (field s 10 2)) (Z.to_nat (field s 12 2))).
  pose proof (spawn_body_safe (field s 8 2) (Z.to_nat (field s 10 2)) (Z.to_nat (field s 12 2)) (slice s 16 (len s))) as Hb.
  destruct (spawn_body _ _ _ _) as [[[[p a] e]| |] t]; cbn [fst] in Hb; try done. cbn [rbind].
  case_match; [done|]. apply SpawnRequest_new_no_panic.
Qed.

(** ** Whole records *)

Definition fresh_nonce (n : bytes) : Prop := len n = 32 /\ n <> zeros 32.

Definition spawn_header (payload_len generation : Z) (client_nonce service_nonce : bytes) : Header :=
  {| hd_kind := Spawn; hd_payload_len := payload_len; hd_generation := generation; hd_sequence := 1;
     hd_client_nonce := client_nonce; hd_service_nonce := service_nonce |}.

Lemma spawn_header_wf n g cn sn : u64 g -> len cn = 32 -> len sn = 32 -> header_wf (spawn_header n g cn sn).
Proof. intros ? ? ?. unfold header_wf; simpl. split_and!; (done || ulia). Qed.

Lemma encode_spawn_request_iff r g cn sn l :
  request_ok r -> u64 g -> len cn = 32 -> len sn = 32 ->
  encode_spawn_request r g cn sn = Ok l <->
  g <> 0 /\ cn <> zeros 32 /\ sn <> zeros 32 /\
  HEADER_LEN + len (request_wire r) <= MAX_SUPERVISOR_RECORD_BYTES /\
  l = header_wire (spawn_header (len (request_wire r)) g cn sn) ++ request_wire r.
Proof.
  intros Hr Hg Hc Hs. unfold encode_spawn_request. split.
  - destruct (_ || _) eqn:E; [discriminate|]. bsplit.
    destruct (encode_spawn_payload r) as [p| |] eqn:Ep; try discriminate. cbn [rbind].
    apply encode_spawn_payload_iff in Ep as [-> Hb]; [|done].
    intros (_ & _ & ->)%encode_record_iff; [done|now apply spawn_header_wf].
  - intros (Hg0 & Hc0 & Hs0 & Hb & ->).
    rewrite (proj2 (Z.eqb_neq _ _) Hg0), !bool_decide_eq_false_2 by done. cbn [orb].
    rewrite (proj2 (encode_spawn_payload_iff r (request_wire r) Hr)) by done. cbn [rbind].
    apply encode_record_iff; [now apply spawn_header_wf|done].
Qed.

(** What the service checks of a spawn record before it decodes the payload. *)
Definition spawn_facts (h : Header) (g : Z) (cn sn : bytes) : Prop :=
  hd_kind h = Spawn /\ hd_generation h = g /\ hd_sequence h = 1 /\ hd_client_nonce h = cn /\ hd_service_nonce h = sn.

Lemma spawn_facts_header h g cn sn : spawn_facts h g cn sn <-> h = spawn_header (hd_payload_len h) g cn sn.
Proof.
  unfold spawn_facts, spawn_header. split.
  - intros (H1 & H2 & H3 & H4 & H5). destruct h; simpl in *. now subst.
  - intros ->. done.
Qed.

Lemma spawn_record_iff l g cn sn r :
  u64 g -> fresh_nonce cn -> fresh_nonce sn -> g <> 0 ->
  (exists h, decode_header l = Ok h /\ spawn_facts h g cn sn /\
             decode_spawn_payload (slice l HEADER_LEN (len l)) = Ok r) <->
  request_ok r /\ encode_spawn_request r g cn sn = Ok l.
Proof.
  intros Hg [Hc Hc0] [Hs Hs0] Hg0. split.
  - intros (h & Hh & Hf & Hp).
    apply decode_header_payload in Hh as (Hl & Hwf & Hpl & Hb & _).
    apply decode_spawn_payload_iff in Hp as [Hok Hp]; [|unfold HEADER_LEN, MAX_SUPERVISOR_RECORD_BYTES in *; ulia].
    split; [done|]. apply encode_spawn_request_iff; try done. rewrite Hp in *. split_and!; try done.
    apply spawn_facts_header in Hf. now rewrite <- Hpl, <- Hf.
  - intros [Hok Henc]. apply encode_spawn_request_iff in Henc as (_ & _ & _ & Hb & Hl); try done.
    exists (spawn_header (len (request_wire r)) g cn sn).
    pose proof (spawn_header_wf (len (request_wire r)) g cn sn Hg Hc Hs) as Hwf.
    split_and!; [|done|].
    + apply decode_header_iff. eauto.
    + apply (whole_iff _ _ _ HEADER_LEN) in Hl as (_ & _ & ->); [|now apply header_wire_len].
      apply decode_spawn_payload_iff; [unfold HEADER_LEN, MAX_SUPERVISOR_RECORD_BYTES in *; ulia|done].
Qed.

Definition service_hello_header (generation : Z) (client_nonce service_nonce : bytes) : Header :=
  {| hd_kind := ServiceHello; hd_payload_len := 0; hd_generation := generation; hd_sequence := 0;
     hd_client_nonce := client_nonce; hd_service_nonce := service_nonce |}.

Lemma decode_service_hello_iff l cn f :
  len cn = 32 ->
  decode_service_hello l cn = Ok f <->
  cn <> zeros 32 /\ u64 (sh_generation f) /\ sh_generation f <> 0 /\ fresh_nonce (sh_service_nonce f) /\
  sh_service_nonce f <> cn /\
  encode_record (service_hello_header (sh_generation f) cn (sh_service_nonce f)) [] = Ok l.
Proof.
  intros Hc. unfold decode_service_hello, fresh_nonce. case_bool_decide as H0; [naive_solver|]. split.
  - destruct (decode_header l) as [h| |] eqn:Eh; try discriminate. cbn [rbind].
    destruct (_ || _) eqn:E; [discriminate|]. bsplit. intros [= <-]. cbn [sh_generation sh_service_nonce].
    apply decode_header_encode in Eh as [Hwf [p Hp]]. pose proof Hwf as (Hg & _ & _ & Hsn).
    apply encode_record_iff in Hp as Hi; [|done]. destruct Hi as (Hpl & _).
    assert (p = []) as -> by (apply len_zero; lia).
    split_and!; try done. rewrite <- Hp. f_equal. unfold service_hello_header. destruct h; simpl in *. now subst.
  - intros (_ & Hg & Hg0 & [Hs Hs0] & Hne & Henc).
    assert (header_wf (service_hello_header (sh_generation f) cn (sh_service_nonce f))) as Hwf
      by (unfold header_wf; simpl; split_and!; (done || ulia)).
    rewrite (proj2 (decode_header_encode l _) (conj Hwf (ex_intro _ [] Henc))). cbn [rbind service_hello_header
      hd_kind hd_payload_len hd_generation hd_sequence hd_client_nonce hd_service_nonce].
    rewrite (proj2 (Z.eqb_neq _ _) Hg0), !bool_decide_eq_true_2, !bool_decide_eq_false_2 by done. simpl. now destruct f.
Qed.

(** The payload of a spawn result. *)
Definition result_wire (r : DecodedSpawnResult) : bytes :=
  match r with
  | SpawnReady handle => le_bytes 2 1 ++ le_bytes 2 0 ++ le_bytes 4 0 ++ handle
  | SpawnRejected failure => le_bytes 2 2 ++ le_bytes 2 (SpawnFailure_raw failure) ++ le_bytes 4 0 ++ zeros 32
  end.

Definition result_ok (r : DecodedSpawnResult) : Prop :=
  match r with SpawnReady handle => fresh_nonce handle | SpawnRejected _ => True end.

Lemma result_wire_len r : result_ok r -> len (result_wire r) = SPAWN_RESULT_LEN.
Proof. destruct r as [h|f]; cbn [result_ok result_wire]; [intros [Hh _]|intros _]; rewrite !len_app, !len_le_bytes; [rewrite Hh|]; reflexivity. Qed.

Lemma SpawnFailure_decode_iff z f : SpawnFailure_decode z = Ok f <-> z = SpawnFailure_raw f.
Proof.
  unfold SpawnFailure_decode. split.
  - repeat (case_match; bsplit); now intros [= <-].
  - intros ->. now destruct f.
Qed.

Definition result_header (generation : Z) (client_nonce service_nonce : bytes) : Header :=
  {| hd_kind := SpawnResult; hd_payload_len := SPAWN_RESULT_LEN; hd_generation := generation; hd_sequence := 1;
     hd_client_nonce := client_nonce; hd_service_nonce := service_nonce |}.

Lemma result_header_wf g cn sn : u64 g -> len cn = 32 -> len sn = 32 -> header_wf (result_header g cn sn).
Proof. intros. unfold header_wf; simpl. split_and!; (done || ulia). Qed.

Lemma encode_spawn_result_iff r g cn sn l :
  result_ok r -> u64 g -> len cn = 32 -> len sn = 32 ->
  encode_spawn_result r g cn sn = Ok l <->
  g <> 0 /\ cn <> zeros 32 /\ sn <> zeros 32 /\ l = header_wire (result_header g cn sn) ++ result_wire r.
Proof.
  intros Hr Hg Hc Hs. unfold encode_spawn_result.
  assert (forall p, len p = SPAWN_RESULT_LEN ->
    encode_record {| hd_kind := SpawnResult; hd_payload_len := len p; hd_generation := g; hd_sequence := 1;
                     hd_client_nonce := cn; hd_service_nonce := sn |} p
    = Ok (header_wire (result_header g cn sn) ++ p)) as Hp.
  { intros p Hp. rewrite Hp. apply (encode_record_iff (result_header g cn sn)); [now apply result_header_wf|].
    rewrite Hp. done. }
  split.
  - destruct (_ || _) eqn:E; [discriminate|]. bsplit. destruct r as [h|f]; cbn [rbind].
    + destruct Hr as [Hh Hh0]. rewrite bool_decide_eq_false_2 by done. cbn [negb rbind].
      rewrite Hp by (rewrite !len_app, !len_le_bytes, Hh; reflexivity). now intros [= <-].
    + rewrite Hp by (rewrite !len_app, !len_le_bytes; reflexivity). now intros [= <-].
  - intros (Hg0 & Hc0 & Hs0 & ->).
    rewrite (proj2 (Z.eqb_neq _ _) Hg0), !bool_decide_eq_false_2 by done. cbn [orb].
    pose proof (Hp (result_wire r) (result_wire_len r Hr)) as Hw. destruct r as [h|f]; [|exact Hw].
    destruct Hr as [Hh Hh0]. rewrite bool_decide_eq_false_2 by done. exact Hw.
Qed.

Lemma result_fields s o d h :
  len s = 40 -> 0 <= o < 65536 -> 0 <= d < 65536 -> len h = 32 ->
  s = le_bytes 2 o ++ le_bytes 2 d ++ le_bytes 4 0 ++ h <->
  field s 0 2 = o /\ field s 2 2 = d /\ field s 4 4 = 0 /\ slice s 8 40 = h.
Proof.
  intros Hs Ho Hd Hh. rewrite <- (slice_full s 0 40) at 1 by lia. wsplit s.
  rewrite (field_iff s 0 2 2 2), (field_iff s 2 4 2 2), (field_iff s 4 8 4 4) by (try reflexivity; lia || ulia).
  reflexivity.
Qed.

Lemma decode_spawn_result_iff l g cn sn r :
  u64 g -> len cn = 32 -> len sn = 32 ->
  decode_spawn_result l g cn sn = Ok r <-> result_ok r /\ encode_spawn_result r g cn sn = Ok l.
Proof.
  intros Hg Hc Hs. unfold decode_spawn_result. split.
  - destruct (_ || _) eqn:E; [discriminate|]. bsplit.
    destruct (decode_header l) as [h| |] eqn:Eh; try discriminate. cbn [rbind].
    destruct (_ || _) eqn:E'; [discriminate|]. bsplit.
    apply decode_header_payload in Eh as (Hl & Hwf & Hpl & Hb & ->). cbn [rbind].
    set (p := slice l HEADER_LEN (len l)) in *. unfold SPAWN_RESULT_LEN in *.
    assert (h = result_header g cn sn) as -> by (clear Hl Hwf; unfold result_header, SPAWN_RESULT_LEN; destruct h; simpl in *; congruence).
    cbn [hd_payload_len result_header] in Hpl. unfold SPAWN_RESULT_LEN in Hpl. rat.
    destruct (negb _) eqn:Ez; [discriminate|]. bsplit.
    assert (len (slice p 8 40) = 32) as Hsl by (rewrite len_slice; lia).
    intros Hr. enough (result_ok r /\ p = result_wire r) as [Hok Hp].
    { split; [done|]. apply encode_spawn_result_iff; try done. rewrite <- Hp. done. }
    destruct (_ && _) eqn:Ea in Hr; bsplit; [|clear Ea; destruct (_ && _) eqn:Ea in Hr; bsplit; [|discriminate]].
    + injection Hr as <-. split; [now split|]. apply result_fields; try done; lia.
    + destruct (SpawnFailure_decode _) as [f| |] eqn:Ef; try discriminate. injection Hr as <-.
      apply SpawnFailure_decode_iff in Ef. split; [done|].
      apply result_fields; try done; destruct f; simpl; lia.
  - intros [Hok Henc]. apply encode_spawn_result_iff in Henc as (Hg0 & Hc0 & Hs0 & ->); try done.
    rewrite (proj2 (Z.eqb_neq _ _) Hg0), !bool_decide_eq_false_2 by done. cbn [orb].
    pose proof (result_wire_len r Hok) as Hrl. unfold SPAWN_RESULT_LEN in Hrl.
    set (l := header_wire (result_header g cn sn) ++ result_wire r).
    pose proof (result_header_wf g cn sn Hg Hc Hs) as Hwf.
    assert (decode_header l = Ok (result_header g cn sn)) as Hd.
    { apply decode_header_iff. exists (result_wire r). split_and!; try done; unfold HEADER_LEN; simpl;
        unfold SPAWN_RESULT_LEN, MAX_SUPERVISOR_RECORD_BYTES; lia. }
    rewrite Hd. cbn [rbind result_header hd_kind hd_payload_len hd_generation hd_sequence hd_client_nonce hd_service_nonce].
    rewrite !bool_decide_eq_true_2, !Z.eqb_refl by done. cbn [negb orb].
    apply decode_header_payload in Hd as (_ & _ & _ & _ & ->). cbn [rbind].
    assert (slice l HEADER_LEN (len l) = result_wire r) as ->.
    { assert (l = header_wire (result_header g cn sn) ++ result_wire r) as Hw by done.
      apply (whole_iff _ _ _ HEADER_LEN) in Hw; [tauto|now apply header_wire_len]. }
    rat. destruct r as [h|f]; cbn [result_wire result_ok] in *.
    + destruct Hok as [Hh Hh0]. pose proof (result_fields _ 1 0 h Hrl ltac:(lia) ltac:(lia) Hh) as Hi.
      destruct (proj1 Hi eq_refl) as (-> & -> & -> & ->). cbn [Z.eqb Pos.eqb negb andb].
      now rewrite bool_decide_eq_false_2.
    + pose proof (result_fields _ 2 (SpawnFailure_raw f) (zeros 32) Hrl ltac:(lia) ltac:(destruct f; simpl; lia) eq_refl) as Hi.
      destruct (proj1 Hi eq_refl) as (-> & -> & -> & ->). cbn [Z.eqb Pos.eqb negb andb].
      rewrite bool_decide_eq_true_2 by done. now rewrite (proj2 (SpawnFailure_decode_iff _ f) eq_refl).
Qed.
