(* ===== verification/Supervisor.v ===== *)
(** * Supervisor: both ends of the supervisor protocol, and installed policy

    [supervisor.rs]: the peer facts of an authenticated message, the service's
    side of one connection, the installed catalog of launch policies.
    [supervisor_client.rs]: the client's side. *)

From S2P Require Import Prelude Bytes Tools Limits Manifest Negotiation Native SupervisorWire.

(** ** Methods over a part of the state *)

Definition on_self {S W E A} (m : stm S E A) : stm (S * W) E A :=
  fun '(s, w) => let '(r, s) := m s in (r, (s, w)).
Definition on_world {S W E A} (m : stm W E A) : stm (S * W) E A :=
  fun '(s, w) => let '(r, w) := m w in (r, (s, w)).

(** ** Identities

    A [ConnectionGeneration], its [ConnectionIdentity] and a fresh nonce are the
    values they wrap. *)

Definition from_unique_service_value (value : Z) : res SupervisorWireError Z :=
  if value =? 0 then Err WireError_ReplayOrSubstitution else Ok value.

Definition FreshServiceNonce_from_fresh_random (value : bytes) : res SupervisorWireError bytes :=
  if bool_decide (value = zeros 32) then Err WireError_ReplayOrSubstitution else Ok value.

Record VerifiedPeer := {
  vp_connection_identity : Z;
  vp_audit_identity : bytes;
  vp_effective_uid : Z;
  vp_effective_gid : Z;
  vp_code_identity : bytes
}.

#[export] Instance VerifiedPeer_eq_dec : EqDecision VerifiedPeer.
Proof. solve_decision. Defined.

Definition VerifiedPeer_from_authenticated_message_audit_token (connection_identity : Z)
  (audit_identity : bytes) (effective_uid effective_gid : Z) (code_identity : bytes)
  : res SupervisorWireError VerifiedPeer :=
  if bool_decide (audit_identity = zeros 32) || (effective_uid =? 0) || (effective_gid =? 0)
     || (effective_uid =? U32_MAX) || (effective_gid =? U32_MAX) || bool_decide (code_identity = zeros 32)
  then Err WireError_PeerMismatch
  else Ok {| vp_connection_identity := connection_identity; vp_audit_identity := audit_identity;
             vp_effective_uid := effective_uid; vp_effective_gid := effective_gid;
             vp_code_identity := code_identity |}.

Record VerifiedMessage := { vm_peer : VerifiedPeer; vm_bytes : bytes }.

Record AuthenticatedSpawnRequest := {
  as_peer : VerifiedPeer;
  as_deadline : SupervisorDeadlineBinding;
  as_request : SpawnRequest
}.

(** ** The service's side of a connection *)

Inductive ConnectionState :=
| AwaitingHello
| Authenticated (client_nonce : bytes) (peer : VerifiedPeer)
| SpawnConsumed
| Poisoned.

#[export] Instance ConnectionState_eq_dec : EqDecision ConnectionState.
Proof. solve_decision. Defined.

Record SupervisorConnection := {
  sc_connection_identity : Z;
  sc_service_nonce : bytes;
  sc_state : ConnectionState
}.

Definition SupervisorConnection_new (generation : Z) (service_nonce : bytes) : SupervisorConnection :=
  {| sc_connection_identity := generation; sc_service_nonce := service_nonce; sc_state := AwaitingHello |}.

Definition set_state (state : ConnectionState) (self : SupervisorConnection) : SupervisorConnection :=
  {| sc_connection_identity := sc_connection_identity self; sc_service_nonce := sc_service_nonce self;
     sc_state := state |}.

Definition verify_connection (self : SupervisorConnection) (peer : VerifiedPeer) : res SupervisorWireError unit :=
  if vp_connection_identity peer =? sc_connection_identity self then Ok tt else Err WireError_PeerMismatch.

Definition receive_client_hello (message : VerifiedMessage)
  : stm SupervisorConnection SupervisorWireError bytes :=
  let! self := sget in
  if negb (bool_decide (sc_state self = AwaitingHello))
  then smodify (set_state Poisoned) >>! serr WireError_StateViolation else
  smodify (set_state Poisoned) >>!
  slift (verify_connection self (vm_peer message)) >>!
  let! header := slift (decode_header (vm_bytes message)) in
  if negb (bool_decide (hd_kind header = ClientHello)) || negb (hd_payload_len header =? 0)
     || negb (hd_generation header =? 0) || negb (hd_sequence header =? 0)
     || bool_decide (hd_client_nonce header = zeros 32)
     || negb (bool_decide (hd_service_nonce header = zeros 32))
     || bool_decide (hd_client_nonce header = sc_service_nonce self)
  then serr WireError_AuthenticationRequired else
  smodify (set_state (Authenticated (hd_client_nonce header) (vm_peer message))) >>!
  slift (encode_record {| hd_kind := ServiceHello; hd_payload_len := 0;
                          hd_generation := sc_connection_identity self; hd_sequence := 0;
                          hd_client_nonce := hd_client_nonce header;
                          hd_service_nonce := sc_service_nonce self |} []).

Definition receive_spawn {W} {C : Clock W} {U : UptimeClock W} (message : VerifiedMessage)
  : stm (SupervisorConnection * W) SupervisorWireError AuthenticatedSpawnRequest :=
  let! (self, _) := sget in
  match sc_state self with
  | AwaitingHello =>
      on_self (smodify (set_state Poisoned)) >>! serr WireError_AuthenticationRequired
  | SpawnConsumed | Poisoned =>
      on_self (smodify (set_state Poisoned)) >>! serr WireError_StateViolation
  | Authenticated client_nonce peer =>
      if negb (bool_decide (vm_peer message = peer)) then serr WireError_PeerMismatch else
      let! header := slift (decode_header (vm_bytes message)) in
      if negb (bool_decide (hd_kind header = Spawn))
         || negb (hd_generation header =? sc_connection_identity self) || negb (hd_sequence header =? 1)
         || negb (bool_decide (hd_client_nonce header = client_nonce))
         || negb (bool_decide (hd_service_nonce header = sc_service_nonce self))
      then serr WireError_ReplayOrSubstitution else
      on_self (smodify (set_state Poisoned)) >>!
      let! payload := slift (index_range (vm_bytes message) HEADER_LEN (len (vm_bytes message))) in
      let! request := slift (decode_spawn_payload payload) in
      let! deadline := on_world (from_wire (sq_deadline request)) in
      on_self (smodify (set_state SpawnConsumed)) >>!
      sret {| as_peer := peer; as_deadline := deadline; as_request := request |}
  end.

Definition connection_is_poisoned (self : SupervisorConnection) : bool :=
  bool_decide (sc_state self = Poisoned).

(** ** Installed policy *)

(** [Ord] of [[u8]]. *)
Fixpoint bytes_compare (a b : bytes) : comparison :=
  match a, b with
  | [], [] => Eq
  | [], _ => Lt
  | _, [] => Gt
  | x :: a, y :: b => match Z_of_byte x ?= Z_of_byte y with Eq => bytes_compare a b | c => c end
  end.

Definition bytes_leb (a b : bytes) : bool := match bytes_compare a b with Gt => false | _ => true end.

(** [windows(2).any(|pair| pair[0] == pair[1])] over the keys. *)
Fixpoint adjacent_equal {A} (key : A -> bytes) (l : list A) : bool :=
  match l with
  | a :: (b :: _) as rest => bool_decide (key a = key b) || adjacent_equal key rest
  | _ => false
  end.

Record TargetPolicyDefinition := {
  tp_policy_id : bytes;
  tp_authorized_client_code_identity : bytes;
  tp_target_identity : bytes;
  tp_installed_executable : bytes;
  tp_argument0 : bytes;
  tp_maximum_additional_arguments : Z;
  tp_allowed_environment_keys : list bytes
}.

Definition TargetPolicyDefinition_new (policy_id authorized_client_code_identity target_identity
  installed_executable argument0 : bytes) (maximum_additional_arguments : Z)
  (allowed_environment_keys : list bytes) : res SupervisorWireError TargetPolicyDefinition :=
  validate_policy_id policy_id >>?
  validate_installed_executable installed_executable >>?
  validate_component argument0 >>?
  if bool_decide (authorized_client_code_identity = zeros 32) || bool_decide (target_identity = zeros 32)
     || bool_decide (argument0 = []) || (MAX_ARGUMENTS <=? maximum_additional_arguments)
     || (MAX_ENVIRONMENT <? len allowed_environment_keys)
  then Err WireError_InvalidPolicy else
  rcheck validate_environment_key allowed_environment_keys >>?
  let allowed_environment_keys := sort_by bytes_leb allowed_environment_keys in
  if adjacent_equal id allowed_environment_keys then Err WireError_InvalidPolicy else
  Ok {| tp_policy_id := policy_id; tp_authorized_client_code_identity := authorized_client_code_identity;
        tp_target_identity := target_identity; tp_installed_executable := installed_executable;
        tp_argument0 := argument0; tp_maximum_additional_arguments := maximum_additional_arguments;
        tp_allowed_environment_keys := allowed_environment_keys |}.

(** An [InstalledTargetPolicy] has the fields of its definition, and the
    [InstalledPolicyCatalog] is its list of policies. *)
Definition InstalledTargetPolicy : Type := TargetPolicyDefinition.
Definition InstalledTargetPolicy_from_definition (definition : TargetPolicyDefinition) : InstalledTargetPolicy :=
  definition.

Definition policy_leb (left right : TargetPolicyDefinition) : bool :=
  bytes_leb (tp_policy_id left) (tp_policy_id right).

Definition from_verified_installation (definitions : list TargetPolicyDefinition)
  : res SupervisorWireError (list InstalledTargetPolicy) :=
  if len definitions =? 0 then Err WireError_InvalidPolicy else
  let definitions := sort_by policy_leb definitions in
  if adjacent_equal tp_policy_id definitions then Err WireError_InvalidPolicy else
  Ok (map InstalledTargetPolicy_from_definition definitions).

Definition resolve (self : list InstalledTargetPolicy) (policy_id : bytes)
  : res SupervisorWireError (option InstalledTargetPolicy) :=
  let? found := binary_search_by (fun candidate => Ok (bytes_compare (tp_policy_id candidate) policy_id)) self in
  match found with
  | Some position => let? policy := index self position in Ok (Some policy)
  | None => Ok None
  end.

Record ValidatedSpawn := {
  vs_peer : VerifiedPeer;
  vs_deadline : SupervisorDeadlineBinding;
  vs_policy_id : bytes;
  vs_target_identity : bytes;
  vs_installed_executable : bytes;
  vs_arguments : list bytes;
  vs_environment : list TargetEnvironmentEntry
}.

(** The body of the loop over the environment; [seen] is the [HashSet]. *)
Definition admit_environment (self : InstalledTargetPolicy) (entry : TargetEnvironmentEntry)
  (seen : list bytes) : res SupervisorWireError (list bytes) :=
  let? allowed := binary_search_by (fun candidate => Ok (bytes_compare candidate (te_key entry)))
                                   (tp_allowed_environment_keys self) in
  match allowed with
  | None => Err WireError_InvalidTargetInput
  | Some _ => if bool_decide (te_key entry ∈ seen) then Err WireError_InvalidTargetInput
              else Ok (te_key entry :: seen)
  end.

Definition InstalledTargetPolicy_validate (self : InstalledTargetPolicy)
  (authenticated : AuthenticatedSpawnRequest) : res SupervisorWireError ValidatedSpawn :=
  let request := as_request authenticated in
  if negb (bool_decide (sq_policy_id request = tp_policy_id self)) then Err WireError_InvalidPolicy else
  if negb (bool_decide (vp_code_identity (as_peer authenticated) = tp_authorized_client_code_identity self))
  then Err WireError_PeerMismatch else
  if tp_maximum_additional_arguments self <? len (sq_arguments request)
  then Err WireError_InvalidTargetInput else
  let? _ := rfor (sq_environment request) (admit_environment self) [] in
  Ok {| vs_peer := as_peer authenticated; vs_deadline := as_deadline authenticated;
        vs_policy_id := tp_policy_id self; vs_target_identity := tp_target_identity self;
        vs_installed_executable := tp_installed_executable self;
        vs_arguments := tp_argument0 self :: sq_arguments request;
        vs_environment := sq_environment request |}.

Definition AuthenticatedSpawnRequest_validate (self : AuthenticatedSpawnRequest)
  (catalog : list InstalledTargetPolicy) : res SupervisorWireError ValidatedSpawn :=
  let? found := resolve catalog (sq_policy_id (as_request self)) in
  let? policy := ok_or found WireError_InvalidPolicy in
  InstalledTargetPolicy_validate policy self.

(** ** The client's side *)

Definition from_unique_client_value (value : Z) : res SupervisorWireError Z :=
  if value =? 0 then Err WireError_ReplayOrSubstitution else Ok value.

Definition FreshClientNonce_from_fresh_random (value : bytes) : res SupervisorWireError bytes :=
  if bool_decide (value = zeros 32) then Err WireError_ReplayOrSubstitution else Ok value.

Record VerifiedServicePeer := { vsp_connection_identity : Z; vsp_code_identity : bytes }.

Definition from_authenticated_service_message (connection_identity : Z) (code_identity : bytes)
  : res SupervisorWireError VerifiedServicePeer :=
  if bool_decide (code_identity = zeros 32) then Err WireError_PeerMismatch
  else Ok {| vsp_connection_identity := connection_identity; vsp_code_identity := code_identity |}.

Record VerifiedServiceMessage := { vsm_peer : VerifiedServicePeer; vsm_bytes : bytes }.

Inductive ClientState :=
| Fresh
| AwaitingServiceHello
| ClientAuthenticated (generation : Z) (service_nonce : bytes)
| AwaitingSpawnResult (generation : Z) (service_nonce : bytes)
| ClientActive (handle : bytes)
| TerminalFailure
| ClientPoisoned.

#[export] Instance ClientState_eq_dec : EqDecision ClientState.
Proof. solve_decision. Defined.

Record SupervisorClient := {
  cl_connection_identity : Z;
  cl_expected_service_code_identity : bytes;
  cl_client_nonce : bytes;
  cl_state : ClientState
}.

Definition SupervisorClient_new (generation : Z) (nonce expected_service_code_identity : bytes)
  : res SupervisorWireError SupervisorClient :=
  if bool_decide (expected_service_code_identity = zeros 32) then Err WireError_PeerMismatch
  else Ok {| cl_connection_identity := generation;
             cl_expected_service_code_identity := expected_service_code_identity;
             cl_client_nonce := nonce; cl_state := Fresh |}.

Definition cl_set_state (state : ClientState) (self : SupervisorClient) : SupervisorClient :=
  {| cl_connection_identity := cl_connection_identity self;
     cl_expected_service_code_identity := cl_expected_service_code_identity self;
     cl_client_nonce := cl_client_nonce self; cl_state := state |}.

Definition client_refuse {A} (error : SupervisorWireError) : stm SupervisorClient SupervisorWireError A :=
  smodify (cl_set_state ClientPoisoned) >>! serr error.

Definition from_service (self : SupervisorClient) (message : VerifiedServiceMessage) : bool :=
  (vsp_connection_identity (vsm_peer message) =? cl_connection_identity self)
  && bool_decide (vsp_code_identity (vsm_peer message) = cl_expected_service_code_identity self).

Definition take_client_hello : stm SupervisorClient SupervisorWireError bytes :=
  let! self := sget in
  if negb (bool_decide (cl_state self = Fresh)) then client_refuse WireError_StateViolation else
  smodify (cl_set_state ClientPoisoned) >>!
  let! hello := slift (encode_client_hello (cl_client_nonce self)) in
  smodify (cl_set_state AwaitingServiceHello) >>!
  sret hello.

Definition receive_service_hello (message : VerifiedServiceMessage)
  : stm SupervisorClient SupervisorWireError unit :=
  let! self := sget in
  if negb (bool_decide (cl_state self = AwaitingServiceHello))
  then client_refuse WireError_StateViolation else
  smodify (cl_set_state ClientPoisoned) >>!
  if negb (from_service self message) then serr WireError_PeerMismatch else
  let! hello := slift (decode_service_hello (vsm_bytes message) (cl_client_nonce self)) in
  smodify (cl_set_state (ClientAuthenticated (sh_generation hello) (sh_service_nonce hello))).

Definition encode_spawn (request : SpawnRequest) : stm SupervisorClient SupervisorWireError bytes :=
  let! self := sget in
  match cl_state self with
  | ClientAuthenticated generation service_nonce =>
      smodify (cl_set_state ClientPoisoned) >>!
      let! encoded := slift (encode_spawn_request request generation (cl_client_nonce self) service_nonce) in
      smodify (cl_set_state (AwaitingSpawnResult generation service_nonce)) >>!
      sret encoded
  | Fresh | AwaitingServiceHello => client_refuse WireError_AuthenticationRequired
  | _ => client_refuse WireError_StateViolation
  end.

Definition receive_spawn_result (message : VerifiedServiceMessage)
  : stm SupervisorClient SupervisorWireError DecodedSpawnResult :=
  let! self := sget in
  match cl_state self with
  | AwaitingSpawnResult generation service_nonce =>
      smodify (cl_set_state ClientPoisoned) >>!
      if negb (from_service self message) then serr WireError_PeerMismatch else
      let! result := slift (decode_spawn_result (vsm_bytes message) generation (cl_client_nonce self)
                                                service_nonce) in
      smodify (cl_set_state (match result with
                             | SpawnReady handle => ClientActive handle
                             | SpawnRejected _ => TerminalFailure
                             end)) >>!
      sret result
  | Fresh | AwaitingServiceHello | ClientAuthenticated _ _ => client_refuse WireError_AuthenticationRequired
  | _ => client_refuse WireError_StateViolation
  end.

Definition session_handle (self : SupervisorClient) : option bytes :=
  match cl_state self with ClientActive handle => Some handle | _ => None end.
