(* ===== verification/SupervisorAuth.v ===== *)
(** * SupervisorAuth: authentication before effects in the supervisor protocol

    A service connection and a client under every sequence of operations on
    them, whatever messages they are given, and the run of both together with
    hostile traffic in between. *)

From S2P Require Import Prelude Bytes Tools Limits Manifest Negotiation Native SupervisorWire SupervisorCodec Supervisor.

(** ** Histories *)

Section History.
Context {S Op R : Type} (step : Op -> S -> R * S).

Fixpoint run (ops : list Op) (s : S) : list (Op * R) * S :=
  match ops with
  | [] => ([], s)
  | op :: ops => let '(r, s) := step op s in let '(h, s) := run ops s in ((op, r) :: h, s)
  end.

Lemma run_app ops1 ops2 s :
  run (ops1 ++ ops2) s =
  let '(h1, s1) := run ops1 s in let '(h2, s2) := run ops2 s1 in (h1 ++ h2, s2).
Proof.
  revert s. induction ops1 as [|op ops1 IH]; intros s; simpl; [now destruct (run ops2 s)|].
  destruct (step op s) as [r s']. rewrite IH. destruct (run ops1 s') as [h1 s1]. now destruct (run ops2 s1).
Qed.

(** An invariant of the history so far and the state it leaves. *)
Lemma run_invariant (I : list (Op * R) -> S -> Prop) s0 :
  I [] s0 -> (forall h s op r s', I h s -> step op s = (r, s') -> I (h ++ [(op, r)]) s') ->
  forall ops h s, run ops s0 = (h, s) -> I h s.
Proof.
  intros H0 Hstep. induction ops as [|op ops IH] using rev_ind; intros h s Hr; simpl in *; [now injection Hr as <- <-|].
  rewrite run_app in Hr. destruct (run ops s0) as [h1 s1] eqn:E1. simpl in Hr.
  destruct (step op s1) as [r s2] eqn:E2. injection Hr as <- <-. eapply Hstep; eauto.
Qed.

End History.

(** ** The service's connection *)

Definition connection_wf (k : SupervisorConnection) : Prop :=
  u64 (sc_connection_identity k) /\ sc_connection_identity k <> 0 /\ fresh_nonce (sc_service_nonce k).

(** The hello [message] opens the connection [k] for the client nonce [cn]. *)
Definition hello_opens (k : SupervisorConnection) (message : VerifiedMessage) (cn : bytes) : Prop :=
  vp_connection_identity (vm_peer message) = sc_connection_identity k /\
  encode_client_hello cn = Ok (vm_bytes message) /\ fresh_nonce cn /\ cn <> sc_service_nonce k.

Definition client_hello_header (cn : bytes) : Header :=
  {| hd_kind := ClientHello; hd_payload_len := 0; hd_generation := 0; hd_sequence := 0;
     hd_client_nonce := cn; hd_service_nonce := zeros 32 |}.

Lemma client_hello_header_wf cn : len cn = 32 -> header_wf (client_hello_header cn).
Proof. intros. unfold header_wf; simpl. split_and!; first [done | ulia]. Qed.

Lemma service_hello_header_wf g cn sn : u64 g -> len cn = 32 -> len sn = 32 -> header_wf (service_hello_header g cn sn).
Proof. intros. unfold header_wf; simpl. split_and!; first [done | ulia]. Qed.

Lemma encode_client_hello_iff cn l :
  len cn = 32 -> encode_client_hello cn = Ok l <-> cn <> zeros 32 /\ l = header_wire (client_hello_header cn).
Proof.
  intros Hc. unfold encode_client_hello. case_bool_decide as H0; [now split; [|intros []]|].
  fold (client_hello_header cn). rewrite encode_record_iff by now apply client_hello_header_wf.
  rewrite app_nil_r. split; [now intros (_ & _ & ->)|now intros [_ ->]].
Qed.

Lemma empty_record h l :
  header_wf h -> hd_payload_len h = 0 -> encode_record h [] = Ok l <-> l = header_wire h.
Proof.
  intros Hwf Hp. rewrite encode_record_iff, app_nil_r, Hp by done. split; [now intros (_ & _ & ->)|now intros ->].
Qed.

Lemma hello_cases message k :
  connection_wf k ->
  (exists cn, sc_state k = AwaitingHello /\ hello_opens k message cn /\
     receive_client_hello message k =
       (Ok (header_wire (service_hello_header (sc_connection_identity k) cn (sc_service_nonce k))),
        set_state (Authenticated cn (vm_peer message)) k)) \/
  ((forall cn, sc_state k = AwaitingHello -> ~ hello_opens k message cn) /\
   exists e, receive_client_hello message k = (Err e, set_state Poisoned k)).
Proof.
  intros (Hg & Hg0 & [Hs Hs0]). unfold receive_client_hello, sget, sbind.
  case_bool_decide as Hst; [|right; split; [done|eauto]]. cbn [negb smodify slift serr].
  unfold hello_opens, verify_connection, smodify, slift, serr. rewrite Z.eqb_sym.
  destruct (_ =? _) eqn:Ei; bsplit; [|right; split; [intros ? _ [? _]; congruence|eauto]].
  destruct (decode_header (vm_bytes message)) as [h|e|] eqn:Eh.
  - apply decode_header_encode in Eh as [Hwf [p Hp]]. pose proof Hwf as (_ & _ & Hc & _).
    destruct (_ || _) eqn:E.
    + right. split; [|eauto]. intros cn _ (_ & Henc & [Hcn Hcn0] & Hne).
      apply encode_client_hello_iff in Henc as [_ Hl]; [|done].
      assert (decode_header (vm_bytes message) = Ok (client_hello_header cn)) as Hd.
      { apply decode_header_encode. split; [now apply client_hello_header_wf|]. exists [].
        apply empty_record; [now apply client_hello_header_wf|done..]. }
      rewrite (proj2 (decode_header_encode _ h)) in Hd by eauto. injection Hd as ->.
      simpl in E. rewrite !bool_decide_eq_false_2 in E by done. discriminate.
    + bsplit. left. exists (hd_client_nonce h). assert (h = client_hello_header (hd_client_nonce h)) as Hh.
      { clear Hp Hwf. unfold client_hello_header. destruct h; simpl in *; congruence. }
      split; [done|]. split.
      * split_and!; try done. apply encode_client_hello_iff; [done|]. split; [done|]. rewrite <- Hh.
        apply encode_record_iff in Hp as (Hpl & _ & ->); [|done]. rewrite (len_zero p) by lia. now rewrite app_nil_r.
      * f_equal. apply empty_record; [now apply service_hello_header_wf|done..].
  - right. split; [|eauto]. intros cn _ (_ & Henc & [Hcn Hcn0] & Hne).
    apply encode_client_hello_iff in Henc as [_ Hl]; [|done].
    assert (decode_header (vm_bytes message) = Ok (client_hello_header cn)) as Hd; [|congruence].
    apply decode_header_encode. split; [now apply client_hello_header_wf|]. exists [].
    apply empty_record; [now apply client_hello_header_wf|done..].
  - now apply decode_header_no_panic in Eh.
Qed.

Lemma set_state_identity state k :
  sc_connection_identity (set_state state k) = sc_connection_identity k /\
  sc_service_nonce (set_state state k) = sc_service_nonce k.
Proof. done. Qed.

Section Connection.
Context {W : Type} {C : Clock W} {U : UptimeClock W}.

(** [message] passes the peer and freshness checks of a connection that
    accepted the hello of [peer] for [cn]. *)
Definition spawn_addressed (k : SupervisorConnection) (cn : bytes) (peer : VerifiedPeer)
  (message : VerifiedMessage) : Prop :=
  vm_peer message = peer /\
  exists h, decode_header (vm_bytes message) = Ok h /\
            spawn_facts h (sc_connection_identity k) cn (sc_service_nonce k).

(** [a] is what [message] asks for: the message is the one encoding of the
    request under the connection's generation and nonces. *)
Definition spawn_carries (k : SupervisorConnection) (cn : bytes) (message : VerifiedMessage)
  (a : AuthenticatedSpawnRequest) : Prop :=
  vm_peer message = as_peer a /\ request_ok (as_request a) /\
  encode_spawn_request (as_request a) (sc_connection_identity k) cn (sc_service_nonce k) = Ok (vm_bytes message) /\
  db_wire (as_deadline a) = sq_deadline (as_request a).

Lemma from_wire_wire d (w w' : W) b : from_wire d w = (Ok b, w') -> db_wire b = d.
Proof.
  unfold from_wire, sbind. destruct (to_local_instant d w) as [[l| |] t]; try discriminate. now intros [= <- _].
Qed.

Lemma monotonic_no_panic (w : W) : fst (monotonic_now_nanos w) <> Panic.
Proof.
  unfold monotonic_now_nanos. destruct (clock_gettime w) as [[[st s] n] w']. simpl.
  case_match; [done|]. unfold ok_or. repeat (case_match; simpl; try done).
Qed.

Lemma ok_or_no_panic {E A} (o : option A) (e : E) : ok_or o e <> Panic.
Proof. now destruct o. Qed.

Lemma to_local_no_panic d (w : W) : fst (to_local_instant d w) <> Panic.
Proof.
  unfold to_local_instant, sbind, read_instant, slift. destruct (instant_now w) as [now w1].
  pose proof (monotonic_no_panic w1). destruct (monotonic_now_nanos w1) as [[m| |] w2]; simpl in *; try done.
  destruct (ok_or _ _) eqn:Eo; simpl; try done; [|now apply ok_or_no_panic in Eo].
  case_match; simpl; [done|]. apply ok_or_no_panic.
Qed.

Lemma from_wire_no_panic d (w : W) : fst (from_wire d w) <> Panic.
Proof.
  unfold from_wire, sbind. pose proof (to_local_no_panic d w). now destruct (to_local_instant d w) as [[| |] ?].
Qed.

Lemma spawn_facts_dec h g cn sn :
  (negb (bool_decide (hd_kind h = Spawn)) || negb (hd_generation h =? g) || negb (hd_sequence h =? 1)
   || negb (bool_decide (hd_client_nonce h = cn)) || negb (bool_decide (hd_service_nonce h = sn))) = false
  <-> spawn_facts h g cn sn.
Proof.
  unfold spawn_facts. rewrite !orb_false_iff, !negb_false_iff, !bool_decide_eq_true, !Z.eqb_eq. tauto.
Qed.

(** [receive_spawn] on a connection that has accepted a hello. *)
Lemma receive_spawn_open message k w cn peer :
  sc_state k = Authenticated cn peer ->
  receive_spawn message (k, w) =
  if negb (bool_decide (vm_peer message = peer)) then (Err WireError_PeerMismatch, (k, w)) else
  match decode_header (vm_bytes message) with
  | Ok header =>
      if negb (bool_decide (hd_kind header = Spawn))
         || negb (hd_generation header =? sc_connection_identity k) || negb (hd_sequence header =? 1)
         || negb (bool_decide (hd_client_nonce header = cn))
         || negb (bool_decide (hd_service_nonce header = sc_service_nonce k))
      then (Err WireError_ReplayOrSubstitution, (k, w)) else
      match decode_spawn_payload (slice (vm_bytes message) HEADER_LEN (len (vm_bytes message))) with
      | Ok r =>
          match from_wire (sq_deadline r) w with
          | (Ok b, w) => (Ok {| as_peer := peer; as_deadline := b; as_request := r |}, (set_state SpawnConsumed k, w))
          | (Err e, w) => (Err e, (set_state Poisoned k, w))
          | (Panic, w) => (Panic, (set_state Poisoned k, w))
          end
      | Err e => (Err e, (set_state Poisoned k, w))
      | Panic => (Panic, (set_state Poisoned k, w))
      end
  | Err e => (Err e, (k, w))
  | Panic => (Panic, (k, w))
  end.
Proof.
  intros Hst. unfold receive_spawn, sbind, sget, slift, serr, on_self, on_world, smodify, sret.
  cbn iota beta. rewrite Hst. destruct (negb _); [done|].
  destruct (decode_header (vm_bytes message)) as [h|e|] eqn:Eh; try done.
  pose proof (decode_header_payload _ _ Eh) as (_ & _ & _ & _ & Hi). destruct (_ || _); [done|].
  rewrite Hi. destruct (decode_spawn_payload _) as [r| |]; try done.
  now destruct (from_wire (sq_deadline r) w) as [[b| |] w'].
Qed.

(** The three things that can happen to a spawn message on an open connection:
    it is not addressed to it and nothing changes; it is, and carries no
    request or too late a one; it is accepted. *)
Lemma spawn_cases message k w cn peer :
  connection_wf k -> fresh_nonce cn -> sc_state k = Authenticated cn peer ->
  (~ spawn_addressed k cn peer message /\ exists e, receive_spawn message (k, w) = (Err e, (k, w))) \/
  (spawn_addressed k cn peer message /\
   ((exists e w', receive_spawn message (k, w) = (Err e, (set_state Poisoned k, w'))) \/
    (exists a w', receive_spawn message (k, w) = (Ok a, (set_state SpawnConsumed k, w')) /\
       as_peer a = peer /\ spawn_carries k cn message a /\
       from_wire (sq_deadline (as_request a)) w = (Ok (as_deadline a), w')))).
Proof.
  intros (Hg & Hg0 & Hs) Hcn Hst. unfold spawn_addressed. rewrite (receive_spawn_open _ _ _ _ _ Hst).
  case_bool_decide as Hp; cbn [negb]; [|left; split; [now intros [? _]|eauto]].
  destruct (decode_header (vm_bytes message)) as [h|e|] eqn:Eh.
  2:{ left. split; [intros (_ & h & ? & _); congruence|eauto]. }
  2:{ now apply decode_header_no_panic in Eh. }
  destruct (_ || _) eqn:E.
  { left. split; [|eauto]. intros (_ & h' & [= <-] & Hf%spawn_facts_dec). congruence. }
  apply spawn_facts_dec in E. right. split; [eauto|].
  pose proof (decode_header_payload _ _ Eh) as (_ & Hwf & _ & Hb & _).
  destruct (decode_spawn_payload _) as [r|e|] eqn:Er; [|left; eauto|].
  2:{ apply decode_spawn_payload_no_panic in Er; [done|]. unfold HEADER_LEN, MAX_SUPERVISOR_RECORD_BYTES in *. ulia. }
  pose proof (from_wire_no_panic (sq_deadline r) w) as Hn.
  destruct (from_wire (sq_deadline r) w) as [[b|e|] w'] eqn:Ew; [|left; eauto|done].
  right. exists {| as_peer := peer; as_deadline := b; as_request := r |}, w'. split_and!; try done.
  unfold spawn_carries; cbn [as_peer as_request as_deadline]. apply from_wire_wire in Ew.
  destruct (proj1 (spawn_record_iff (vm_bytes message) _ cn _ r Hg Hcn Hs Hg0)) as [Hok Henc]; [eauto|].
  split_and!; done.
Qed.

Lemma spawn_closed message k w :
  (forall cn peer, sc_state k <> Authenticated cn peer) ->
  exists e, receive_spawn message (k, w) = (Err e, (set_state Poisoned k, w)).
Proof.
  intros Hst. unfold receive_spawn, sbind, sget, on_self, smodify, serr.
  destruct (sc_state k); eauto. now exfalso; eapply Hst.
Qed.

(** ** Every sequence of messages *)

Inductive ConnectionOp := OpHello (message : VerifiedMessage) | OpSpawn (message : VerifiedMessage).

Inductive ConnectionOutcome :=
| HelloOutcome (r : res SupervisorWireError bytes)
| SpawnOutcome (r : res SupervisorWireError AuthenticatedSpawnRequest).

Definition connection_step (op : ConnectionOp) (s : SupervisorConnection * W)
  : ConnectionOutcome * (SupervisorConnection * W) :=
  match op with
  | OpHello m => let '(r, s) := on_self (receive_client_hello m) s in (HelloOutcome r, s)
  | OpSpawn m => let '(r, s) := receive_spawn m s in (SpawnOutcome r, s)
  end.

(** The requests a history accepted. *)
Definition accepted (history : list (ConnectionOp * ConnectionOutcome)) : list AuthenticatedSpawnRequest :=
  omap (fun '(_, r) => match r with SpawnOutcome (Ok a) => Some a | _ => None end) history.

(** [a] was accepted from a message after a hello of the same peer, which
    fixed the client nonce that the message carries. *)
Definition authenticated (k : SupervisorConnection) (history : list (ConnectionOp * ConnectionOutcome))
  (a : AuthenticatedSpawnRequest) : Prop :=
  exists cn hello reply message h1 h2 h3,
    history = h1 ++ (OpHello hello, HelloOutcome (Ok reply)) :: h2
                 ++ (OpSpawn message, SpawnOutcome (Ok a)) :: h3 /\
    vm_peer hello = vm_peer message /\ hello_opens k hello cn /\ spawn_carries k cn message a.

Definition connection_inv (k0 : SupervisorConnection) (history : list (ConnectionOp * ConnectionOutcome))
  (s : SupervisorConnection * W) : Prop :=
  let k := fst s in
  k = set_state (sc_state k) k0 /\
  match sc_state k with
  | AwaitingHello => accepted history = []
  | Authenticated cn peer =>
      accepted history = [] /\ fresh_nonce cn /\
      exists hello reply h1 h2, history = h1 ++ (OpHello hello, HelloOutcome (Ok reply)) :: h2 /\
        vm_peer hello = peer /\ hello_opens k0 hello cn
  | SpawnConsumed | Poisoned =>
      (length (accepted history) <= 1)%nat /\ forall a, a ∈ accepted history -> authenticated k0 history a
  end.

Lemma accepted_app h1 h2 : accepted (h1 ++ h2) = accepted h1 ++ accepted h2.
Proof. apply omap_app. Qed.

Lemma authenticated_app k h1 h2 a : authenticated k h1 a -> authenticated k (h1 ++ h2) a.
Proof.
  intros (cn & hello & reply & message & x & y & z & -> & H). exists cn, hello, reply, message, x, y, (z ++ h2).
  split; [|done]. rewrite <- !app_assoc. simpl. now rewrite <- !app_assoc.
Qed.

(** A step that accepts nothing and poisons. *)
Lemma inv_poisoned k0 history k w op r w' :
  connection_inv k0 history (k, w) -> accepted [(op, r)] = [] ->
  connection_inv k0 (history ++ [(op, r)]) (set_state Poisoned k, w').
Proof.
  intros [Hk Hi] Hr. cbn [fst] in *. split; [cbn [fst]; rewrite Hk; now destruct k0|]. simpl. rewrite accepted_app, Hr, app_nil_r.
  destruct (sc_state k).
  - rewrite Hi. split; [simpl; lia|]. intros a Ha. set_solver.
  - destruct Hi as [-> _]. split; [simpl; lia|]. intros a Ha. set_solver.
  - destruct Hi as [Hl Ha]. split; [done|]. intros a H. now apply authenticated_app, Ha.
  - destruct Hi as [Hl Ha]. split; [done|]. intros a H. now apply authenticated_app, Ha.
Qed.

Lemma connection_inv_step k0 :
  connection_wf k0 -> forall history s op r s',
  connection_inv k0 history s -> connection_step op s = (r, s') -> connection_inv k0 (history ++ [(op, r)]) s'.
Proof.
  intros Hwf history [k w] op r s' Hinv Hstep. pose proof Hinv as [Hk Hi]. cbn [fst] in Hk, Hi.
  assert (connection_wf k) as Hwfk by now rewrite Hk.
  assert (sc_connection_identity k = sc_connection_identity k0 /\ sc_service_nonce k = sc_service_nonce k0)
    as [Hid Hsn] by now rewrite Hk.
  destruct op as [m|m]; simpl in Hstep.
  - destruct (hello_cases m k Hwfk) as [(cn & Hst & Ho & Hr)|[_ [e Hr]]]; rewrite Hr in Hstep; injection Hstep as <- <-.
    + rewrite Hst in Hi. split; [cbn [fst]; rewrite Hk; now destruct k0|]. simpl. rewrite accepted_app, Hi.
      unfold hello_opens in *. rewrite Hid, Hsn in Ho. destruct Ho as (H1 & H2 & H3 & H4).
      split; [done|]. split; [done|]. eauto 10.
    + (eapply inv_poisoned; [exact Hinv|done]).
  - destruct (receive_spawn m (k, w)) as [o s] eqn:Em. injection Hstep as <- <-.
    destruct (sc_state k) as [|cn peer| |] eqn:Hst;
      [destruct (spawn_closed m k w) as [e Hr]; [congruence|]; rewrite Hr in Em; injection Em as <- <-; (eapply inv_poisoned; [exact Hinv|done])|
      |destruct (spawn_closed m k w) as [e Hr]; [congruence|]; rewrite Hr in Em; injection Em as <- <-; (eapply inv_poisoned; [exact Hinv|done])..].
    destruct Hi as (Ha & Hcn & hello & reply & h1 & h2 & Hh & Hp & Ho).
    destruct (spawn_cases m k w cn peer Hwfk Hcn Hst) as [[_ [e Hr]]|[_ [(e & w' & Hr)|(a & w' & Hr & Hpe & Hc & _)]]];
      rewrite Hr in Em; injection Em as <- <-.
    + split; cbn [fst]; rewrite Hst; [done|]. rewrite accepted_app, Ha. split; [done|]. split; [done|].
      exists hello, reply, h1, (h2 ++ [(OpSpawn m, SpawnOutcome (Err e))]). rewrite Hh. split; [|done].
      now rewrite <- app_assoc.
    + (eapply inv_poisoned; [exact Hinv|done]).
    + split; [cbn [fst]; rewrite Hk; now destruct k0|]. simpl. rewrite accepted_app, Ha. split; [simpl; lia|].
      intros b Hb. apply list_elem_of_singleton in Hb as ->.
      exists cn, hello, reply, m, h1, h2, []. split; [rewrite Hh, <- app_assoc; done|].
      unfold spawn_carries in *. rewrite Hid, Hsn in Hc. destruct Hc as (H1 & H2 & H3 & H4).
      split_and!; try done. congruence.
Qed.

Lemma connection_history k0 w ops history s :
  connection_wf k0 -> sc_state k0 = AwaitingHello -> run connection_step ops (k0, w) = (history, s) ->
  connection_inv k0 history s.
Proof.
  intros Hwf Hst. apply (run_invariant connection_step (connection_inv k0)); [|intros h s0 op r s1 Hi Hs; exact (connection_inv_step k0 Hwf h s0 op r s1 Hi Hs)].
  split; cbn [fst]; [destruct k0; cbn in Hst |- *; now subst|]. now rewrite Hst.
Qed.

(** Whatever messages a service connection is given, in any order, it
    accepts at most one spawn request; an accepted request came after a hello
    from the same authenticated peer, whose client nonce, with the service's own
    nonce and the connection's generation, is what the spawn message carries,
    and that message is the one encoding of the request. *)
Theorem connection_single_spawn k w ops history s :
  connection_wf k -> sc_state k = AwaitingHello -> run connection_step ops (k, w) = (history, s) ->
  (length (accepted history) <= 1)%nat /\ forall a, a ∈ accepted history -> authenticated k history a.
Proof.
  intros Hwf Hst Hr. destruct (connection_history _ _ _ _ _ Hwf Hst Hr) as [_ Hi].
  destruct (sc_state (fst s)).
  - rewrite Hi. split; [simpl; lia|set_solver].
  - destruct Hi as [-> _]. split; [simpl; lia|set_solver].
  - done.
  - done.
Qed.

End Connection.

(** ** A complete exchange amid hostile traffic *)

Section Handshake.
Context {W : Type} {C : Clock W} {U : UptimeClock W}.

(** A spawn message from another peer, or without the connection's generation
    and nonces. *)
Definition hostile_op (k : SupervisorConnection) (cn : bytes) (peer : VerifiedPeer) (op : ConnectionOp) : Prop :=
  match op with OpHello _ => False | OpSpawn m => ~ spawn_addressed k cn peer m end.

Lemma hostile_run k w cn peer ops :
  connection_wf k -> fresh_nonce cn -> sc_state k = Authenticated cn peer -> Forall (hostile_op k cn peer) ops ->
  exists h, run (connection_step (W := W)) ops (k, w) = (h, (k, w)) /\ accepted h = [].
Proof.
  intros Hwf Hcn Hst Hops. induction Hops as [|op ops Hop Hops IH]; [exists []; done|].
  destruct op as [m|m]; [done|]. destruct IH as (h & Hr & Ha).
  destruct (spawn_cases m k w cn peer Hwf Hcn Hst) as [[_ [e Hm]]|[H _]]; [|done].
  exists ((OpSpawn m, SpawnOutcome (Err e)) :: h). simpl. rewrite Hm, Hr. done.
Qed.

Definition fresh_client (identity : Z) (code_identity cn : bytes) : SupervisorClient :=
  {| cl_connection_identity := identity; cl_expected_service_code_identity := code_identity;
     cl_client_nonce := cn; cl_state := Fresh |}.

Lemma client_nonce_read c : len c = 32 -> slice (header_wire (client_hello_header c)) 32 64 = c.
Proof.
  intros Hc. pose proof (client_hello_header_wf c Hc) as Hw. pose proof (header_wire_len _ Hw) as Hl.
  apply (header_fields _ (client_hello_header c)); try done; [lia|]. now apply slice_full.
Qed.

Lemma accepts_hello k cn peer :
  connection_wf k -> sc_state k = AwaitingHello -> fresh_nonce cn -> cn <> sc_service_nonce k ->
  vp_connection_identity peer = sc_connection_identity k ->
  receive_client_hello {| vm_peer := peer; vm_bytes := header_wire (client_hello_header cn) |} k =
  (Ok (header_wire (service_hello_header (sc_connection_identity k) cn (sc_service_nonce k))),
   set_state (Authenticated cn peer) k).
Proof.
  intros Hwf Hst Hcn Hne Hid. pose proof Hcn as [Hc Hc0].
  assert (encode_client_hello cn = Ok (header_wire (client_hello_header cn))) as Hh by now apply encode_client_hello_iff.
  destruct (hello_cases {| vm_peer := peer; vm_bytes := header_wire (client_hello_header cn) |} k Hwf)
    as [(cn' & _ & (_ & Henc & [Hc' _] & _) & Ho)|[Hno _]].
  - assert (cn' = cn) as ->; [|exact Ho].
    apply encode_client_hello_iff in Henc as [_ Hl]; [|done]. cbn [vm_bytes] in Hl.
    apply (f_equal (fun l => slice l 32 64)) in Hl. now rewrite !client_nonce_read in Hl.
  - destruct (Hno cn Hst). unfold hello_opens. split_and!; done.
Qed.

Lemma accepts_spawn k cn peer r spawn w w' b :
  connection_wf k -> fresh_nonce cn -> sc_state k = Authenticated cn peer -> request_ok r ->
  encode_spawn_request r (sc_connection_identity k) cn (sc_service_nonce k) = Ok spawn ->
  from_wire (sq_deadline r) w = (Ok b, w') ->
  receive_spawn {| vm_peer := peer; vm_bytes := spawn |} (k, w) =
  (Ok {| as_peer := peer; as_deadline := b; as_request := r |}, (set_state SpawnConsumed k, w')).
Proof.
  intros (Hg & Hg0 & Hsn) Hcn Hst Hr Henc Hb.
  destruct (proj2 (spawn_record_iff spawn _ cn _ r Hg Hcn Hsn Hg0)) as (hd & Hd1 & Hd2 & Hd3); [done|].
  rewrite (receive_spawn_open _ _ _ cn peer) by done. cbn [vm_peer vm_bytes].
  rewrite bool_decide_eq_true_2 by done. cbn [negb]. rewrite Hd1.
  now rewrite (proj2 (spawn_facts_dec _ _ _ _) Hd2), Hd3, Hb.
Qed.

(** The client's side, one step at a time. *)
Section ClientSteps.
Context (c : SupervisorClient) (cn : bytes).
Hypothesis Hcn : fresh_nonce cn.
Hypothesis Hc : cl_client_nonce c = cn.

Let message (l : bytes) : VerifiedServiceMessage :=
  {| vsm_peer := {| vsp_connection_identity := cl_connection_identity c;
                    vsp_code_identity := cl_expected_service_code_identity c |}; vsm_bytes := l |}.

Lemma message_from_service l : from_service c (message l) = true.
Proof. unfold from_service, message; simpl. now rewrite Z.eqb_refl, bool_decide_eq_true_2. Qed.

Lemma client_takes_hello :
  cl_state c = Fresh ->
  take_client_hello c = (Ok (header_wire (client_hello_header cn)), cl_set_state AwaitingServiceHello c).
Proof.
  intros Hst. destruct Hcn as [Hl H0]. unfold take_client_hello, sbind, sget, smodify, slift, sret.
  cbn iota beta. rewrite Hst, Hc. cbn [bool_decide]. rewrite bool_decide_eq_true_2 by done. cbn [negb].
  now rewrite (proj2 (encode_client_hello_iff cn _ Hl) (conj H0 eq_refl)).
Qed.

Lemma client_receives_hello g sn :
  cl_state c = AwaitingServiceHello -> u64 g -> g <> 0 -> fresh_nonce sn -> cn <> sn ->
  receive_service_hello (message (header_wire (service_hello_header g cn sn))) c =
  (Ok tt, cl_set_state (ClientAuthenticated g sn) c).
Proof.
  intros Hst Hg Hg0 Hsn Hne. pose proof Hcn as [Hl H0]. pose proof Hsn as [Hs _].
  unfold receive_service_hello, sbind, sget, smodify, slift. cbn iota beta.
  rewrite Hst, Hc, message_from_service, bool_decide_eq_true_2 by done. cbn [negb message vsm_bytes].
  rewrite (proj2 (decode_service_hello_iff _ cn {| sh_generation := g; sh_service_nonce := sn |} Hl)); [done|].
  cbn [sh_generation sh_service_nonce]. split_and!; try done.
  apply empty_record; [now apply service_hello_header_wf|done..].
Qed.

Lemma client_sends_spawn g sn r spawn :
  cl_state c = ClientAuthenticated g sn -> encode_spawn_request r g cn sn = Ok spawn ->
  encode_spawn r c = (Ok spawn, cl_set_state (AwaitingSpawnResult g sn) c).
Proof.
  intros Hst Henc. unfold encode_spawn, sbind, sget, smodify, slift, sret. cbn iota beta. now rewrite Hst, Hc, Henc.
Qed.

Lemma client_receives_result g sn result answer :
  cl_state c = AwaitingSpawnResult g sn -> u64 g -> fresh_nonce sn -> result_ok result ->
  encode_spawn_result result g cn sn = Ok answer ->
  receive_spawn_result (message answer) c =
  (Ok result, cl_set_state (match result with
                            | SpawnReady handle => ClientActive handle
                            | SpawnRejected _ => TerminalFailure
                            end) c).
Proof.
  intros Hst Hg [Hs _] Hr Henc. pose proof Hcn as [Hl _].
  unfold receive_spawn_result, sbind, sget, smodify, slift, sret. cbn iota beta.
  rewrite Hst, Hc, message_from_service. cbn [negb message vsm_bytes].
  now rewrite (proj2 (decode_spawn_result_iff answer g cn sn result Hg Hl Hs) (conj Hr Henc)).
Qed.

End ClientSteps.

(** C29: A client and a service connection that exchange their four records
    complete the exchange, whatever spawn messages other peers, or replays with
    other nonces, send to that connection in between: the service obtains
    exactly the client's request with its deadline, the client exactly the
    service's result. *)
Theorem handshake_completes k w w' identity code_identity cn peer speer r b result hostile :
  connection_wf k -> sc_state k = AwaitingHello -> fresh_nonce cn -> cn <> sc_service_nonce k ->
  vp_connection_identity peer = sc_connection_identity k ->
  speer = {| vsp_connection_identity := identity; vsp_code_identity := code_identity |} ->
  request_ok r -> HEADER_LEN + len (request_wire r) <= MAX_SUPERVISOR_RECORD_BYTES ->
  from_wire (sq_deadline r) w = (Ok b, w') -> result_ok result ->
  Forall (hostile_op k cn peer) hostile ->
  exists hello reply spawn answer c1 c2 c3 c4 h,
    take_client_hello (fresh_client identity code_identity cn) = (Ok hello, c1) /\
    run (connection_step (W := W))
        (OpHello {| vm_peer := peer; vm_bytes := hello |} :: hostile
         ++ [OpSpawn {| vm_peer := peer; vm_bytes := spawn |}]) (k, w)
      = ((OpHello {| vm_peer := peer; vm_bytes := hello |}, HelloOutcome (Ok reply)) :: h,
         (set_state SpawnConsumed k, w')) /\
    accepted h = [{| as_peer := peer; as_deadline := b; as_request := r |}] /\
    receive_service_hello {| vsm_peer := speer; vsm_bytes := reply |} c1 = (Ok tt, c2) /\
    encode_spawn r c2 = (Ok spawn, c3) /\
    encode_spawn_result result (sc_connection_identity k) cn (sc_service_nonce k) = Ok answer /\
    receive_spawn_result {| vsm_peer := speer; vsm_bytes := answer |} c3 = (Ok result, c4) /\
    session_handle c4 = match result with SpawnReady handle => Some handle | SpawnRejected _ => None end.
Proof.
  intros Hwf Hst Hcn Hne Hid -> Hr Hfit Hdl Hres Hh.
  pose proof Hwf as (Hg & Hg0 & Hsn). pose proof Hcn as [Hc Hc0]. pose proof Hsn as [Hs Hs0].
  set (g := sc_connection_identity k) in *. set (sn := sc_service_nonce k) in *.
  set (spawn := header_wire (spawn_header (len (request_wire r)) g cn sn) ++ request_wire r).
  set (answer := header_wire (result_header g cn sn) ++ result_wire result).
  assert (encode_spawn_request r g cn sn = Ok spawn) as Hspawn by now apply encode_spawn_request_iff.
  assert (encode_spawn_result result g cn sn = Ok answer) as Hanswer by now apply encode_spawn_result_iff.
  set (k1 := set_state (Authenticated cn peer) k).
  destruct (hostile_run k1 w cn peer hostile) as (h & Hrun & Hacc); [done..|].
  pose proof (accepts_hello k cn peer Hwf Hst Hcn Hne Hid) as Hopen. fold g sn k1 in Hopen.
  pose proof (accepts_spawn k1 cn peer r spawn w w' b Hwf Hcn eq_refl Hr Hspawn Hdl) as Htake.
  set (c0 := fresh_client identity code_identity cn). set (c1 := cl_set_state AwaitingServiceHello c0).
  set (c2 := cl_set_state (ClientAuthenticated g sn) c1). set (c3 := cl_set_state (AwaitingSpawnResult g sn) c2).
  exists (header_wire (client_hello_header cn)), (header_wire (service_hello_header g cn sn)), spawn, answer, c1, c2, c3.
  eexists _, (h ++ [(OpSpawn {| vm_peer := peer; vm_bytes := spawn |}, SpawnOutcome (Ok _))]).
  split; [exact (client_takes_hello c0 cn Hcn eq_refl eq_refl)|].
  split.
  { cbn [run connection_step on_self]. rewrite Hopen. cbn [on_self]. rewrite run_app, Hrun.
    cbn [run connection_step]. rewrite Htake. reflexivity. }
  split; [now rewrite accepted_app, Hacc|].
  split; [exact (client_receives_hello c1 cn Hcn eq_refl g sn eq_refl Hg Hg0 Hsn Hne)|].
  split; [exact (client_sends_spawn c2 cn eq_refl g sn r spawn eq_refl Hspawn)|].
  split; [done|].
  split; [exact (client_receives_result c3 cn Hcn eq_refl g sn result answer eq_refl Hg Hsn Hres Hanswer)|].
  now destruct result.
Qed.

End Handshake.

(** ** The client under every sequence of operations *)

Inductive ClientOp :=
| TakeHello
| ReceiveHello (message : VerifiedServiceMessage)
| EncodeSpawn (request : SpawnRequest)
| ReceiveResult (message : VerifiedServiceMessage).

Inductive ClientOutcome :=
| HelloTaken (r : res SupervisorWireError bytes)
| HelloReceived (r : res SupervisorWireError unit)
| SpawnEncoded (r : res SupervisorWireError bytes)
| ResultReceived (r : res SupervisorWireError DecodedSpawnResult).

Definition client_step (op : ClientOp) (s : SupervisorClient) : ClientOutcome * SupervisorClient :=
  match op with
  | TakeHello => let '(r, s) := take_client_hello s in (HelloTaken r, s)
  | ReceiveHello m => let '(r, s) := receive_service_hello m s in (HelloReceived r, s)
  | EncodeSpawn r => let '(r, s) := encode_spawn r s in (SpawnEncoded r, s)
  | ReceiveResult m => let '(r, s) := receive_spawn_result m s in (ResultReceived r, s)
  end.

Definition client_history : Type := list (ClientOp * ClientOutcome).

(** The spawn records a history put out. *)
Definition emitted (history : client_history) : list bytes :=
  omap (fun '(_, r) => match r with SpawnEncoded (Ok l) => Some l | _ => None end) history.

(** The installed service answered the client's nonce with generation [g] and
    its own nonce [sn]. *)
Definition service_bound (c : SupervisorClient) (history : client_history) (g : Z) (sn : bytes) : Prop :=
  exists m h1 h2, history = h1 ++ (ReceiveHello m, HelloReceived (Ok tt)) :: h2 /\ from_service c m = true /\
    u64 g /\ g <> 0 /\ fresh_nonce sn /\ sn <> cl_client_nonce c /\
    vsm_bytes m = header_wire (service_hello_header g (cl_client_nonce c) sn).

(** The one record put out is the encoding of a request under those facts. *)
Definition spawn_bound (c : SupervisorClient) (history : client_history) (g : Z) (sn : bytes) : Prop :=
  service_bound c history g sn /\
  exists r l, emitted history = [l] /\ encode_spawn_request r g (cl_client_nonce c) sn = Ok l.

Definition client_inv (c0 : SupervisorClient) (history : client_history) (c : SupervisorClient) : Prop :=
  c = cl_set_state (cl_state c) c0 /\
  match cl_state c with
  | Fresh | AwaitingServiceHello => emitted history = []
  | ClientAuthenticated g sn => emitted history = [] /\ service_bound c0 history g sn
  | AwaitingSpawnResult g sn => spawn_bound c0 history g sn
  | ClientActive handle =>
      exists g sn m, spawn_bound c0 history g sn /\ (ReceiveResult m, ResultReceived (Ok (SpawnReady handle))) ∈ history /\
        from_service c0 m = true /\ fresh_nonce handle /\
        encode_spawn_result (SpawnReady handle) g (cl_client_nonce c0) sn = Ok (vsm_bytes m)
  | TerminalFailure | ClientPoisoned => emitted history = [] \/ exists g sn, spawn_bound c0 history g sn
  end.

Definition client_wf (c : SupervisorClient) : Prop := fresh_nonce (cl_client_nonce c).

Lemma emitted_app h1 h2 : emitted (h1 ++ h2) = emitted h1 ++ emitted h2.
Proof. apply omap_app. Qed.

Lemma service_bound_app c h h' g sn : service_bound c h g sn -> service_bound c (h ++ h') g sn.
Proof.
  intros (m & h1 & h2 & -> & H). exists m, h1, (h2 ++ h'). split; [now rewrite <- app_assoc|done].
Qed.

Lemma spawn_bound_app c h h' g sn : spawn_bound c h g sn -> emitted h' = [] -> spawn_bound c (h ++ h') g sn.
Proof.
  intros [Hs (r & l & He & Henc)] Hn. split; [now apply service_bound_app|]. exists r, l.
  now rewrite emitted_app, He, Hn.
Qed.

(** At most one record was put out, and it is bound. *)
Lemma client_inv_emitted c0 h c :
  client_inv c0 h c -> emitted h = [] \/ exists g sn, spawn_bound c0 h g sn.
Proof.
  intros [_ Hi]. destruct (cl_state c) as [| |g sn|g sn|handle| |]; [tauto..|right; eauto| |tauto|tauto].
  right. destruct Hi as (g & sn & m & Hb & _). eauto.
Qed.

(** A step that puts nothing out and poisons, or ends the client. *)
Lemma client_inv_closed c0 h c op r state :
  client_inv c0 h c -> emitted [(op, r)] = [] -> state = ClientPoisoned \/ state = TerminalFailure ->
  client_inv c0 (h ++ [(op, r)]) (cl_set_state state c).
Proof.
  intros Hinv Hr Hst. pose proof Hinv as [Hc _]. split.
  - simpl. rewrite Hc. now destruct c0.
  - assert (emitted (h ++ [(op, r)]) = [] \/ exists g sn, spawn_bound c0 (h ++ [(op, r)]) g sn) as Hgoal.
    { destruct (client_inv_emitted _ _ _ Hinv) as [He|(g & sn & Hb)].
      - left. now rewrite emitted_app, He, Hr.
      - right. exists g, sn. now apply spawn_bound_app. }
    now destruct Hst as [-> | ->].
Qed.

Lemma take_hello_cases c :
  client_wf c ->
  (cl_state c = Fresh /\ exists l, take_client_hello c = (Ok l, cl_set_state AwaitingServiceHello c)) \/
  exists e, take_client_hello c = (Err e, cl_set_state ClientPoisoned c).
Proof.
  intros Hn. destruct (decide (cl_state c = Fresh)) as [Hst|Hst].
  - left. split; [done|]. rewrite (client_takes_hello c _ Hn) by done. eauto.
  - right. unfold take_client_hello, sbind, sget. rewrite bool_decide_eq_false_2 by done. eauto.
Qed.

Lemma receive_hello_cases c m :
  client_wf c ->
  (exists g sn, cl_state c = AwaitingServiceHello /\ from_service c m = true /\
     u64 g /\ g <> 0 /\ fresh_nonce sn /\ sn <> cl_client_nonce c /\
     vsm_bytes m = header_wire (service_hello_header g (cl_client_nonce c) sn) /\
     receive_service_hello m c = (Ok tt, cl_set_state (ClientAuthenticated g sn) c)) \/
  exists e, receive_service_hello m c = (Err e, cl_set_state ClientPoisoned c).
Proof.
  intros [Hl H0]. unfold receive_service_hello, sbind, sget, smodify, slift, client_refuse.
  case_bool_decide as Hst; cbn [negb]; [|right; eexists; reflexivity].
  destruct (from_service c m) eqn:Ef; cbn [negb]; [|right; eexists; reflexivity].
  destruct (decode_service_hello _ _) as [f|e|] eqn:Ed; [|right; eexists; reflexivity|].
  - apply decode_service_hello_iff in Ed as (_ & Hg & Hg0 & Hs & Hne & Henc); [|done].
    left. exists (sh_generation f), (sh_service_nonce f). split_and!; try done.
    apply empty_record in Henc; try done. pose proof Hs as [? _]. now apply service_hello_header_wf.
  - exfalso. revert Ed. unfold decode_service_hello. case_bool_decide; [done|].
    pose proof (decode_header_no_panic (vsm_bytes m)). destruct (decode_header _); try done.
    simpl. now case_match.
Qed.

Lemma encode_spawn_cases c r :
  (exists g sn l, cl_state c = ClientAuthenticated g sn /\ encode_spawn_request r g (cl_client_nonce c) sn = Ok l /\
     encode_spawn r c = (Ok l, cl_set_state (AwaitingSpawnResult g sn) c)) \/
  exists o, (forall l, o <> Ok l) /\ encode_spawn r c = (o, cl_set_state ClientPoisoned c).
Proof.
  unfold encode_spawn, sbind, sget, smodify, slift, client_refuse, sret, serr.
  destruct (cl_state c) as [| |g sn|g sn|h| |] eqn:Hst;
    try (right; eexists (Err _); split; [|reflexivity]; done).
  destruct (encode_spawn_request _ _ _ _) as [l|e|] eqn:El.
  - left. exists g, sn, l. done.
  - right. exists (Err e). done.
  - right. exists Panic. done.
Qed.

Lemma receive_result_cases c m :
  client_wf c -> (forall g sn, cl_state c = AwaitingSpawnResult g sn -> u64 g /\ fresh_nonce sn) ->
  (exists g sn result, cl_state c = AwaitingSpawnResult g sn /\ from_service c m = true /\ result_ok result /\
     encode_spawn_result result g (cl_client_nonce c) sn = Ok (vsm_bytes m) /\
     receive_spawn_result m c =
       (Ok result, cl_set_state (match result with
                                 | SpawnReady handle => ClientActive handle
                                 | SpawnRejected _ => TerminalFailure
                                 end) c)) \/
  exists o, (forall x, o <> Ok x) /\ receive_spawn_result m c = (o, cl_set_state ClientPoisoned c).
Proof.
  intros [Hl H0] Hfresh. unfold receive_spawn_result, sbind, sget, smodify, slift, client_refuse, sret, serr.
  destruct (cl_state c) as [| |g sn|g sn|h| |] eqn:Hst;
    try (right; eexists (Err _); split; [|reflexivity]; done).
  destruct (Hfresh g sn eq_refl) as [Hg [Hs Hs0]].
  destruct (from_service c m) eqn:Ef; cbn [negb]; [|right; eexists (Err _); split; [|reflexivity]; done].
  destruct (decode_spawn_result _ _ _ _) as [result|e|] eqn:Ed.
  - apply decode_spawn_result_iff in Ed as [Hok Henc]; try done. left. exists g, sn, result. done.
  - right. exists (Err e). done.
  - right. exists Panic. done.
Qed.

Lemma service_bound_facts c h g sn : service_bound c h g sn -> u64 g /\ fresh_nonce sn.
Proof. now intros (m & h1 & h2 & _ & _ & ? & _ & ? & _). Qed.

Lemma client_inv_step c0 :
  client_wf c0 -> forall h c op r c',
  client_inv c0 h c -> client_step op c = (r, c') -> client_inv c0 (h ++ [(op, r)]) c'.
Proof.
  intros Hwf h c op r c' Hinv Hstep. pose proof Hinv as [Hc Hi].
  assert (cl_client_nonce c = cl_client_nonce c0) as Hn by now rewrite Hc.
  assert (forall m, from_service c m = from_service c0 m) as Hfs by (intros m; rewrite Hc; done).
  assert (client_wf c) as Hwfc by (unfold client_wf; now rewrite Hn).
  assert (forall state, cl_set_state state c = cl_set_state state c0) as Hset by (intros; rewrite Hc; done).
  destruct op as [|m|q|m]; simpl in Hstep.
  - destruct (take_hello_cases c Hwfc) as [(Hst & l & Hr)|[e Hr]]; rewrite Hr in Hstep; injection Hstep as <- <-.
    + rewrite Hst in Hi. rewrite Hset. split; [done|]. simpl. now rewrite emitted_app, Hi.
    + apply client_inv_closed; auto.
  - destruct (receive_hello_cases c m Hwfc) as [(g & sn & Hst & Hf & Hg & Hg0 & Hs & Hne & Hb & Hr)|[e Hr]];
      rewrite Hr in Hstep; injection Hstep as <- <-.
    + rewrite Hst in Hi. rewrite Hset. split; [done|]. simpl. rewrite emitted_app, Hi. split; [done|].
      exists m, h, []. rewrite <- Hfs, <- Hn. auto 10.
    + apply client_inv_closed; auto.
  - destruct (encode_spawn_cases c q) as [(g & sn & l & Hst & Henc & Hr)|(o & Ho & Hr)];
      rewrite Hr in Hstep; injection Hstep as <- <-.
    + rewrite Hst in Hi. destruct Hi as [He Hb]. rewrite Hset. split; [done|]. simpl.
      split; [now apply service_bound_app|]. exists q, l. rewrite emitted_app, He, <- Hn. done.
    + apply client_inv_closed; [done| |auto]. simpl. destruct o; try done. now destruct (Ho a).
  - assert (forall g sn, cl_state c = AwaitingSpawnResult g sn -> u64 g /\ fresh_nonce sn) as Hfresh.
    { intros g sn Hst. rewrite Hst in Hi. destruct Hi as [Hb _]. now eapply service_bound_facts in Hb. }
    destruct (receive_result_cases c m Hwfc Hfresh) as [(g & sn & result & Hst & Hf & Hok & Henc & Hr)|(o & Ho & Hr)];
      rewrite Hr in Hstep; injection Hstep as <- <-.
    + destruct result as [handle|f]; [|apply client_inv_closed; auto].
      rewrite Hst in Hi. rewrite Hset. split; [done|]. simpl. exists g, sn, m. rewrite <- Hfs, <- Hn.
      split_and!; try done; [now apply spawn_bound_app|]. apply elem_of_app. right. now left.
    + apply client_inv_closed; auto.
Qed.

(** Whatever a client is asked and told, in any order, it puts out at most
    one spawn record, and only after the installed service's authenticated
    reply to its own nonce: the record carries that nonce, the service's nonce
    and generation; and the client reports a session only when an authenticated
    result under the same three values granted it. *)
Theorem client_single_spawn c ops history c' :
  client_wf c -> cl_state c = Fresh -> run client_step ops c = (history, c') ->
  (emitted history = [] \/ exists g sn, spawn_bound c history g sn) /\
  forall handle, session_handle c' = Some handle ->
    exists g sn m, spawn_bound c history g sn /\
      (ReceiveResult m, ResultReceived (Ok (SpawnReady handle))) ∈ history /\ from_service c m = true /\
      fresh_nonce handle /\ encode_spawn_result (SpawnReady handle) g (cl_client_nonce c) sn = Ok (vsm_bytes m).
Proof.
  intros Hwf Hst Hr.
  assert (client_inv c history c') as Hinv.
  { revert Hr. apply (run_invariant client_step (client_inv c)).
    - split; [destruct c; cbn in Hst |- *; now subst|]. now rewrite Hst.
    - intros h s op r s' Hi Hs. exact (client_inv_step c Hwf h s op r s' Hi Hs). }
  split; [now eapply client_inv_emitted in Hinv|].
  intros handle. unfold session_handle. destruct Hinv as [_ Hi]. destruct (cl_state c'); try discriminate.
  now intros [= ->].
Qed.

(** ** Deadlines cross processes without growing *)

(** Both clocks read the one [CLOCK_UPTIME_RAW]: a reading lies between the
    times before and after it. *)
Class UptimeLaws (W : Type) {C : Clock W} {U : UptimeClock W} := {
  uptime : W -> Z;
  uptime_nonneg : forall w, 0 <= uptime w;
  instant_reads : forall w now w', instant_now w = (now, w') -> uptime w <= now <= uptime w';
  gettime_reads : forall w status sec nsec w', clock_gettime w = ((status, sec, nsec), w') ->
    uptime w <= uptime w' /\
    (status = 0 -> uptime w <= sec * 1000000000 + nsec <= uptime w')
}.

Section DeadlineTheory.
Context {W : Type} {C : Clock W} {U : UptimeClock W} {L : UptimeLaws W}.

Lemma monotonic_reads (w w' : W) r :
  monotonic_now_nanos w = (r, w') ->
  uptime w <= uptime w' /\ forall now, r = Ok now -> uptime w <= now <= uptime w'.
Proof.
  unfold monotonic_now_nanos. destruct (clock_gettime w) as [[[st s] n] t] eqn:Eg.
  apply gettime_reads in Eg as [Hle Heq]. intros [= <- <-]. split; [done|]. intros now Hr.
  destruct (_ || _) eqn:E in Hr; [discriminate|]. bsplit. specialize (Heq ltac:(lia)).
  destruct (ok_or (try_from U64_MAX s) _) as [a| |] eqn:Ea in Hr; try discriminate. cbn [rbind] in Hr.
  destruct (ok_or (try_from U64_MAX n) _) as [b| |] eqn:Eb in Hr; try discriminate. cbn [rbind] in Hr.
  apply ok_or_Ok, try_from_Some in Ea as [-> _], Eb as [-> _]. apply ok_or_Ok, bind_Some in Hr as (c & Hc & Hr).
  apply checked_mul_Some in Hc as [-> _]. apply checked_add_Some in Hr as [-> _]. lia.
Qed.

Lemma to_local_reads d (w w' : W) r :
  to_local_instant d w = (r, w') ->
  uptime w <= uptime w' /\
  forall local, r = Ok local -> uptime w < local <= d /\ d <= uptime w' + MAX_SUPERVISOR_DEADLINE.
Proof.
  unfold to_local_instant, sbind, read_instant, slift, serr.
  destruct (instant_now w) as [l w1] eqn:El. apply instant_reads in El.
  destruct (monotonic_now_nanos w1) as [r2 w2] eqn:Em. apply monotonic_reads in Em as [Hle Hm].
  destruct r2 as [m|e|]; [|intros [= <- <-]; split; [lia|done]..].
  specialize (Hm m eq_refl). unfold checked_sub, checked_add, ok_or.
  destruct (m <=? d) eqn:Ed; simpl; [|intros [= <- <-]; split; [lia|done]]. bsplit.
  destruct (_ || _) eqn:E; [intros [= <- <-]; split; [lia|done]|]. bsplit. unfold MAX_SUPERVISOR_DEADLINE in *.
  intros [= <- <-]. split; [lia|]. intros local. destruct (_ <=? _) eqn:Ec; [|discriminate]. intros [= <-]. lia.
Qed.

(** C39: A deadline that one process puts on the wire and another binds later is
    never extended: the wire value is at most the caller's instant, the local
    instant the receiver obtains is at most the wire value and later than the
    moment of binding, and no more than thirty seconds remain. *)
Theorem deadline_never_extended deadline wire binding (w1 w2 w3 w4 : W) :
  from_instant deadline w1 = (Ok wire, w2) -> uptime w2 <= uptime w3 ->
  from_wire wire w3 = (Ok binding, w4) ->
  db_wire binding = wire /\ uptime w3 < db_local binding /\ db_local binding <= wire /\ wire <= deadline /\
  wire <= uptime w4 + MAX_SUPERVISOR_DEADLINE /\ deadline <= uptime w2 + MAX_SUPERVISOR_DEADLINE.
Proof.
  intros Hf Hle Hb.
  assert (wire <= deadline /\ deadline <= uptime w2 + MAX_SUPERVISOR_DEADLINE) as [Hw Hd].
  { revert Hf. unfold from_instant, sbind, read_instant, slift, serr.
    destruct (monotonic_now_nanos w1) as [r t1] eqn:Em. apply monotonic_reads in Em as [Hle1 Hm].
    destruct r as [m|e|]; try discriminate. specialize (Hm m eq_refl).
    destruct (instant_now t1) as [l t2] eqn:El. apply instant_reads in El.
    unfold checked_sub, checked_add, try_from, ok_or. destruct (l <=? deadline) eqn:E1; simpl; [|discriminate].
    destruct (_ || _) eqn:E2; [discriminate|]. destruct (fitsb _ _); simpl; [|discriminate].
    destruct (m + _ <=? U64_MAX); [|discriminate]. intros [= <- <-]. bsplit. unfold MAX_SUPERVISOR_DEADLINE in *. lia. }
  pose proof (from_wire_wire _ _ _ _ Hb) as Hbw. unfold from_wire, sbind, sret in Hb.
  destruct (to_local_instant wire w3) as [[local| |] t] eqn:Et; try discriminate. injection Hb as <- <-.
  apply to_local_reads in Et as [_ Hl]. specialize (Hl local eq_refl). simpl. lia.
Qed.

End DeadlineTheory.
