(* ===== verification/SupervisorPolicy.v ===== *)
(** * SupervisorPolicy: a launch is what one installed policy allows

    The catalog is a sorted list searched by halving; admission through it is
    shown equal to the declarative reading: there is a definition with the
    requested identity, and the request is within it. *)

From S2P Require Import Prelude Bytes Tools Limits Manifest Negotiation Native SupervisorWire SupervisorCodec Supervisor.

(** ** The order of byte strings *)

Lemma Z_of_byte_inj a b : Z_of_byte a = Z_of_byte b -> a = b.
Proof. intros H. rewrite <- (byte_of_Z_of_byte a), <- (byte_of_Z_of_byte b). now rewrite H. Qed.

Lemma bytes_compare_eq a b : bytes_compare a b = Eq <-> a = b.
Proof.
  revert b. induction a as [|x a IH]; intros [|y b]; simpl; try done.
  destruct (Z.compare_spec (Z_of_byte x) (Z_of_byte y)) as [H|H|H].
  - apply Z_of_byte_inj in H as ->. rewrite IH. naive_solver.
  - split; [done|]. intros [= -> ->]. lia.
  - split; [done|]. intros [= -> ->]. lia.
Qed.

Lemma bytes_compare_refl a : bytes_compare a a = Eq.
Proof. now apply bytes_compare_eq. Qed.

Lemma bytes_compare_antisym a b : bytes_compare b a = CompOpp (bytes_compare a b).
Proof.
  revert b. induction a as [|x a IH]; intros [|y b]; simpl; try done.
  rewrite Z.compare_antisym. destruct (Z_of_byte x ?= Z_of_byte y); simpl; auto.
Qed.

Lemma bytes_compare_trans a b c : bytes_compare a b = Lt -> bytes_compare b c = Lt -> bytes_compare a c = Lt.
Proof.
  revert b c. induction a as [|x a IH]; intros [|y b] [|z c]; simpl; try done.
  destruct (Z.compare_spec (Z_of_byte x) (Z_of_byte y)); [|intros _|done];
    destruct (Z.compare_spec (Z_of_byte y) (Z_of_byte z)); intros; try done;
    destruct (Z.compare_spec (Z_of_byte x) (Z_of_byte z)); try done; try lia.
  now apply (IH b).
Qed.

Definition bytes_lt (a b : bytes) : Prop := bytes_compare a b = Lt.

Lemma bytes_leb_total a b : bytes_leb a b = false -> bytes_leb b a = true.
Proof. unfold bytes_leb. rewrite (bytes_compare_antisym a b). now destruct (bytes_compare a b). Qed.

Lemma bytes_leb_cases a b : bytes_leb a b = true <-> bytes_lt a b \/ a = b.
Proof.
  unfold bytes_leb, bytes_lt. rewrite <- bytes_compare_eq. destruct (bytes_compare a b); naive_solver.
Qed.

Lemma bytes_leb_trans a b c : bytes_leb a b = true -> bytes_leb b c = true -> bytes_leb a c = true.
Proof.
  rewrite !bytes_leb_cases. intros [H1| ->] [H2| ->]; auto. left. now apply (bytes_compare_trans a b).
Qed.

(** A sorted list without equal neighbours is strictly increasing. *)
Lemma strictly_sorted {A} (key : A -> bytes) l :
  StronglySorted (fun a b => bytes_leb (key a) (key b) = true) l -> adjacent_equal key l = false ->
  StronglySorted (fun a b => bytes_lt (key a) (key b)) l.
Proof.
  intros Hs. induction Hs as [|x l Hs IH Hx]; intros Ha; [constructor|].
  destruct l as [|y l]; [repeat constructor|].
  change (bool_decide (key x = key y) || adjacent_equal key (y :: l) = false) in Ha. bsplit.
  specialize (IH Ha0). constructor; [done|]. inversion Hx as [|? ? Hxy _]; subst.
  inversion IH as [|? ? _ Hy]; subst.
  assert (bytes_lt (key x) (key y)) as Hlt by (apply bytes_leb_cases in Hxy as [?|?]; done).
  constructor; [done|]. eapply Forall_impl; [exact Hy|]. intros z Hz. now apply (bytes_compare_trans _ (key y)).
Qed.

(** Halving finds a key in a strictly increasing list exactly when it is there. *)
Lemma search_sorted {E A} (key : A -> bytes) (l : list A) k :
  StronglySorted (fun a b => bytes_lt (key a) (key b)) l ->
  exists o, binary_search_by (E := E) (fun x => Ok (bytes_compare (key x) k)) l = Ok o /\
    match o with
    | Some r => 0 <= r /\ exists x, l !! Z.to_nat r = Some x /\ key x = k
    | None => forall x, x ∈ l -> key x <> k
    end.
Proof.
  intros Hs. destruct (binary_search_by_spec (E := E) (fun x => Ok (bytes_compare (key x) k))
    (fun x => bytes_compare (key x) k) l) as (o & Ho & Hspec); [done| |].
  - intros i j x y Hx Hy Hij. pose proof (StronglySorted_lookup_lt _ _ _ _ _ _ Hs Hx Hy Hij) as Hlt.
    unfold bytes_lt in Hlt. split.
    + intros Hk%bytes_compare_eq. now rewrite <- Hk.
    + intros Hk%bytes_compare_eq. rewrite <- Hk, (bytes_compare_antisym (key x)), Hlt. done.
  - exists o. split; [done|]. destruct o as [r|].
    + destruct Hspec as (Hr & x & Hx & Hk). apply bytes_compare_eq in Hk. eauto.
    + intros x Hx Hk. apply (Hspec x Hx). now apply bytes_compare_eq.
Qed.

Lemma sort_by_key {A} (key : A -> bytes) (l : list A) :
  StronglySorted (fun a b => bytes_leb (key a) (key b) = true) (sort_by (fun a b => bytes_leb (key a) (key b)) l).
Proof.
  apply (sort_by_sorted _ (fun _ => True)).
  - intros x y _ _. apply bytes_leb_total.
  - intros x y z _ _ _. apply bytes_leb_trans.
  - now apply Forall_true.
Qed.

(** ** Definitions and catalogs as the constructors make them *)

Definition definition_ok (d : TargetPolicyDefinition) : Prop :=
  exists policy_id client target executable argument0 maximum keys,
    TargetPolicyDefinition_new policy_id client target executable argument0 maximum keys = Ok d.

Lemma definition_facts d :
  definition_ok d ->
  validate_policy_id (tp_policy_id d) = Ok tt /\
  validate_installed_executable (tp_installed_executable d) = Ok tt /\
  validate_component (tp_argument0 d) = Ok tt /\ tp_argument0 d <> [] /\
  tp_authorized_client_code_identity d <> zeros 32 /\ tp_target_identity d <> zeros 32 /\
  tp_maximum_additional_arguments d < MAX_ARGUMENTS /\
  StronglySorted bytes_lt (tp_allowed_environment_keys d) /\
  Forall (fun k => validate_environment_key k = Ok tt) (tp_allowed_environment_keys d).
Proof.
  intros (p & c & t & x & a & m & ks & H). unfold TargetPolicyDefinition_new in H.
  destruct (validate_policy_id p) as [[]| |] eqn:E1; try discriminate.
  destruct (validate_installed_executable x) as [[]| |] eqn:E2; try discriminate.
  destruct (validate_component a) as [[]| |] eqn:E3; try discriminate. cbn [rbind] in H.
  destruct (_ || _) eqn:E4 in H; [discriminate|]. bsplit.
  destruct (rcheck _ ks) as [[]| |] eqn:Ek; try discriminate. cbn [rbind] in H.
  destruct (adjacent_equal id _) eqn:Eadj; [discriminate|]. injection H as <-. simpl. split_and!; try done; try lia.
  - apply (strictly_sorted id); [|done]. apply (sort_by_key id).
  - apply rcheck_Ok in Ek. now rewrite sort_by_perm.
Qed.

Lemma catalog_facts definitions catalog :
  from_verified_installation definitions = Ok catalog ->
  catalog ≡ₚ definitions /\ StronglySorted (fun a b => bytes_lt (tp_policy_id a) (tp_policy_id b)) catalog.
Proof.
  unfold from_verified_installation, InstalledTargetPolicy_from_definition. destruct (_ =? _); [discriminate|].
  destruct (adjacent_equal _ _) eqn:E; [discriminate|]. intros [= <-]. rewrite map_id.
  split; [apply sort_by_perm|]. apply strictly_sorted; [|done]. apply (sort_by_key tp_policy_id).
Qed.

(** ** Admission *)

(** [d] allows the request of [a]. *)
Definition allows (d : TargetPolicyDefinition) (a : AuthenticatedSpawnRequest) : Prop :=
  tp_policy_id d = sq_policy_id (as_request a) /\
  vp_code_identity (as_peer a) = tp_authorized_client_code_identity d /\
  len (sq_arguments (as_request a)) <= tp_maximum_additional_arguments d /\
  NoDup (te_key <$> sq_environment (as_request a)) /\
  Forall (fun e => te_key e ∈ tp_allowed_environment_keys d) (sq_environment (as_request a)).

(** What is launched then. *)
Definition launch (d : TargetPolicyDefinition) (a : AuthenticatedSpawnRequest) : ValidatedSpawn :=
  {| vs_peer := as_peer a; vs_deadline := as_deadline a; vs_policy_id := tp_policy_id d;
     vs_target_identity := tp_target_identity d; vs_installed_executable := tp_installed_executable d;
     vs_arguments := tp_argument0 d :: sq_arguments (as_request a);
     vs_environment := sq_environment (as_request a) |}.

Lemma environment_loop d l seen :
  StronglySorted bytes_lt (tp_allowed_environment_keys d) ->
  (exists out, rfor l (admit_environment d) seen = Ok out /\
     NoDup (te_key <$> l) /\ Forall (fun e => te_key e ∈ tp_allowed_environment_keys d /\ te_key e ∉ seen) l) \/
  (exists e, rfor l (admit_environment d) seen = Err e /\
     ~ (NoDup (te_key <$> l) /\ Forall (fun e => te_key e ∈ tp_allowed_environment_keys d /\ te_key e ∉ seen) l)).
Proof.
  intros Hs. revert seen. induction l as [|e l IH]; intros seen; simpl.
  { left. exists seen. repeat constructor. }
  unfold admit_environment at 1 3.
  destruct (search_sorted (E := SupervisorWireError) id (tp_allowed_environment_keys d) (te_key e) Hs) as (o & Ho & Hspec).
  unfold id in Ho. rewrite Ho. cbn [rbind]. setoid_rewrite Forall_cons. setoid_rewrite NoDup_cons. destruct o as [r|]; cycle 1.
  { right. eexists. split; [reflexivity|]. intros (_ & [Hin _] & _). now apply (Hspec (te_key e)). }
  destruct Hspec as (_ & x & Hx%list_elem_of_lookup_2 & Hk). unfold id in Hk. subst x.
  case_bool_decide as Hseen.
  { right. eexists. split; [reflexivity|]. intros (_ & [_ Hn] & _). done. }
  cbn [rbind]. destruct (IH (te_key e :: seen)) as [(out & -> & Hnd & Hf)|(er & -> & Hno)].
  - left. exists out. split; [done|]. split; [split; [|done]|split; [done|]].
    + intros (e' & He' & Hin)%list_elem_of_fmap. rewrite Forall_forall in Hf. destruct (Hf e' Hin) as [_ Hn]. set_solver.
    + eapply Forall_impl; [exact Hf|]. set_solver.
  - right. exists er. split; [done|]. intros ([Hnin Hnd] & _ & Hf). apply Hno. split; [done|].
    rewrite Forall_forall in Hf |- *. intros e' Hin. destruct (Hf e' Hin) as [H1 H2]. split; [done|].
    rewrite not_elem_of_cons. split; [|done]. intros Heq. apply Hnin. rewrite <- Heq. now apply list_elem_of_fmap_2.
Qed.

Lemma validate_allows d a :
  definition_ok d -> tp_policy_id d = sq_policy_id (as_request a) ->
  (InstalledTargetPolicy_validate d a = Ok (launch d a) /\ allows d a) \/
  (exists e, InstalledTargetPolicy_validate d a = Err e /\ ~ allows d a).
Proof.
  intros Hd Hid. apply definition_facts in Hd as (_ & _ & _ & _ & _ & _ & _ & Hs & _).
  unfold InstalledTargetPolicy_validate, allows. rewrite bool_decide_eq_true_2 by done. cbn [negb].
  case_bool_decide as Hc; cbn [negb]; [|right; eexists; split; [reflexivity|tauto]].
  destruct (_ <? _) eqn:El; bsplit; [right; eexists; split; [reflexivity|]; intros (_ & _ & ? & _); lia|].
  destruct (environment_loop d (sq_environment (as_request a)) [] Hs) as [(out & -> & Hnd & Hf)|(e & -> & Hno)]; cbn [rbind].
  - left. split; [done|]. split_and!; try done. eapply Forall_impl; [exact Hf|]. naive_solver.
  - right. exists e. split; [done|]. intros (_ & _ & _ & Hnd & Hf). apply Hno. split; [done|].
    eapply Forall_impl; [exact Hf|]. set_solver.
Qed.

(** C33: Admission through the installed catalog is exact: a request is admitted
    exactly when the catalog has a definition with the requested identity whose
    client identity is the peer's, whose argument bound the request meets and
    whose allowed keys contain each environment key, no key twice; the launch is
    then the policy's executable, target and first argument with the client's
    arguments, environment, peer and deadline. No such definition is shadowed by
    another, and the binary searches never exit abnormally. *)
Theorem admission_exact definitions catalog a :
  Forall definition_ok definitions -> from_verified_installation definitions = Ok catalog ->
  AuthenticatedSpawnRequest_validate a catalog <> Panic /\
  forall v, AuthenticatedSpawnRequest_validate a catalog = Ok v <->
            exists d, d ∈ definitions /\ allows d a /\ v = launch d a.
Proof.
  intros Hok Hcat. apply catalog_facts in Hcat as [Hperm Hs].
  unfold AuthenticatedSpawnRequest_validate, resolve.
  destruct (search_sorted (E := SupervisorWireError) tp_policy_id catalog (sq_policy_id (as_request a)) Hs)
    as (o & -> & Hspec). cbn [rbind]. destruct o as [r|]; cbn [ok_or rbind]; cycle 1.
  { split; [done|]. intros v. split; [done|]. intros (d & Hd & [Hid _] & _). rewrite <- Hperm in Hd.
    now apply Hspec in Hd. }
  destruct Hspec as (Hr & d & Hd & Hid). rewrite (index_ok catalog r d) by done. cbn [rbind ok_or].
  apply list_elem_of_lookup_2 in Hd as Hin. rewrite Forall_forall in Hok.
  assert (d ∈ definitions) as Hdd by now rewrite <- Hperm.
  assert (forall d', d' ∈ definitions -> allows d' a -> d' = d) as Huniq.
  { intros d' Hd' [Hid' _]. rewrite <- Hperm in Hd'. apply list_elem_of_lookup in Hd' as [i Hi].
    destruct (Nat.lt_trichotomy i (Z.to_nat r)) as [Hlt|[->|Hlt]]; [|congruence|].
    - pose proof (StronglySorted_lookup_lt _ _ _ _ _ _ Hs Hi Hd Hlt) as Hc. unfold bytes_lt in Hc.
      rewrite Hid, Hid', bytes_compare_refl in Hc. done.
    - pose proof (StronglySorted_lookup_lt _ _ _ _ _ _ Hs Hd Hi Hlt) as Hc. unfold bytes_lt in Hc.
      rewrite Hid, Hid', bytes_compare_refl in Hc. done. }
  destruct (validate_allows d a (Hok d Hdd) Hid) as [[-> Ha]|(e & -> & Hno)].
  - split; [done|]. intros v. split; [intros [= <-]; eauto|]. intros (d' & Hd' & Ha' & ->). now rewrite (Huniq d').
  - split; [done|]. intros v. split; [done|]. intros (d' & Hd' & Ha' & ->). rewrite (Huniq d') in Ha' by done. done.
Qed.
