(* ===== verification/SupervisorExample.v ===== *)
(** * SupervisorExample: one exchange with the macOS supervisor

    A clock that advances with every read, a client, a service, an installed
    policy; the theorems of [SupervisorAuth.v] and [SupervisorPolicy.v] at
    these. *)

From S2P Require Import Prelude Bytes Tools Limits Manifest Negotiation Native SupervisorWire SupervisorCodec Supervisor SupervisorAuth SupervisorPolicy.
From Stdlib Require Import Strings.String.

(** ** A clock: the world is the time in nanoseconds *)

#[local] Instance ticking : Clock nat :=
  { instant_now w := (Z.of_nat w, S w); instant_max := U64_MAX }.
#[local] Instance ticking_uptime : UptimeClock nat :=
  fun w => ((0, Z.of_nat w / 1000000000, Z.of_nat w mod 1000000000), S w).
#[local] Instance ticking_laws : UptimeLaws nat.
Proof.
  refine {| uptime := Z.of_nat |}.
  - intros w. lia.
  - intros w now w' [= <- <-]. lia.
  - intros w st s n w' [= <- <- <- <-]. split; [lia|]. intros _. pose proof (Z.div_mod (Z.of_nat w) 1000000000 ltac:(lia)). lia.
Defined.

Lemma deadline_never_extended_witness :
  fst (from_instant 5000 (10%nat)) = Ok 4999 /\
  exists binding, fst (from_wire 4999 (40%nat)) = Ok binding /\ db_wire binding = 4999 /\ 40 < db_local binding <= 4999.
Proof.
  split; [vm_compute; reflexivity|].
  exists {| db_wire := 4999; db_local := 4998 |}. split; [vm_compute; reflexivity|].
  destruct (deadline_never_extended 5000 4999 {| db_wire := 4999; db_local := 4998 |} (10%nat) (12%nat) (40%nat) (42%nat))
    as (H1 & H2 & H3 & _).
  - vm_compute. reflexivity.
  - vm_compute. congruence.
  - vm_compute. reflexivity.
  - change (uptime (40%nat)) with 40 in H2. split; [exact H1|]. split; [exact H2|exact H3].
Defined.

(** ** The parties *)

Definition client_nonce : bytes := replicate 32 x01.
Definition service_nonce : bytes := replicate 32 x02.
Definition client_code : bytes := replicate 32 x03.
Definition service_code : bytes := replicate 32 x04.

Definition connection : SupervisorConnection := SupervisorConnection_new 7 service_nonce.
Definition peer : VerifiedPeer :=
  {| vp_connection_identity := 7; vp_audit_identity := replicate 32 x05; vp_effective_uid := 501;
     vp_effective_gid := 20; vp_code_identity := client_code |}.
Definition other_peer : VerifiedPeer :=
  {| vp_connection_identity := 7; vp_audit_identity := replicate 32 x06; vp_effective_uid := 502;
     vp_effective_gid := 20; vp_code_identity := client_code |}.

Definition request : SpawnRequest :=
  {| sq_deadline := 5000; sq_policy_id := ascii "org.example.render"; sq_arguments := [ascii "--once"];
     sq_environment := [{| te_key := ascii "LANG"; te_value := ascii "C" |}] |}.

Lemma request_is_ok : request_ok request.
Proof. unfold request_ok. split_and!; try (vm_compute; reflexivity); repeat constructor; vm_compute; congruence. Qed.

Lemma connection_is_wf : connection_wf connection.
Proof. split_and!; vm_compute; first [congruence | split; congruence]. Qed.

(** ** The service's connection *)

Definition hello_message : VerifiedMessage :=
  {| vm_peer := peer; vm_bytes := header_wire (client_hello_header client_nonce) |}.
Definition spawn_message : VerifiedMessage :=
  {| vm_peer := peer;
     vm_bytes := header_wire (spawn_header (len (request_wire request)) 7 client_nonce service_nonce)
                 ++ request_wire request |}.
Definition forged_message : VerifiedMessage := {| vm_peer := other_peer; vm_bytes := vm_bytes spawn_message |}.

Definition service_ops : list ConnectionOp :=
  [OpHello hello_message; OpSpawn forged_message; OpSpawn spawn_message; OpSpawn spawn_message].

Lemma connection_single_spawn_witness :
  map as_request (accepted (fst (run connection_step service_ops (connection, 0%nat)))) = [request] /\
  forall a, a ∈ accepted (fst (run connection_step service_ops (connection, 0%nat))) ->
    authenticated connection (fst (run connection_step service_ops (connection, 0%nat))) a.
Proof.
  split; [vm_compute; reflexivity|].
  exact (proj2 (connection_single_spawn connection 0%nat service_ops
    (fst (run connection_step service_ops (connection, 0%nat)))
    (snd (run connection_step service_ops (connection, 0%nat))) connection_is_wf eq_refl
    (surjective_pairing _))).
Defined.

Lemma forged_is_hostile : hostile_op connection client_nonce peer (OpSpawn forged_message).
Proof. intros [H _]. discriminate H. Qed.

Lemma handshake_completes_witness :
  exists hello reply spawn answer c1 c2 c3 c4,
    take_client_hello (fresh_client 7 service_code client_nonce) = (Ok hello, c1) /\
    receive_service_hello {| vsm_peer := {| vsp_connection_identity := 7; vsp_code_identity := service_code |};
                             vsm_bytes := reply |} c1 = (Ok tt, c2) /\
    encode_spawn request c2 = (Ok spawn, c3) /\
    receive_spawn_result {| vsm_peer := {| vsp_connection_identity := 7; vsp_code_identity := service_code |};
                            vsm_bytes := answer |} c3 = (Ok (SpawnReady (replicate 32 x09)), c4) /\
    session_handle c4 = Some (replicate 32 x09).
Proof.
  destruct (handshake_completes connection 0%nat 2%nat 7 service_code client_nonce peer
    {| vsp_connection_identity := 7; vsp_code_identity := service_code |} request
    {| db_wire := 5000; db_local := 4999 |} (SpawnReady (replicate 32 x09)) [OpSpawn forged_message])
    as (hello & reply & spawn & answer & c1 & c2 & c3 & c4 & h & H1 & _ & _ & H2 & H3 & _ & H4 & H5).
  - exact connection_is_wf.
  - reflexivity.
  - split; vm_compute; congruence.
  - vm_compute; congruence.
  - reflexivity.
  - reflexivity.
  - exact request_is_ok.
  - vm_compute; congruence.
  - vm_compute; reflexivity.
  - split; vm_compute; congruence.
  - constructor; [exact forged_is_hostile|constructor].
  - exists hello, reply, spawn, answer, c1, c2, c3, c4. split_and!; assumption.
Defined.

(** ** The client *)

Definition service_peer : VerifiedServicePeer := {| vsp_connection_identity := 7; vsp_code_identity := service_code |}.
Definition client_ops : list ClientOp :=
  [TakeHello;
   ReceiveHello {| vsm_peer := service_peer;
                   vsm_bytes := header_wire (service_hello_header 7 client_nonce service_nonce) |};
   EncodeSpawn request;
   ReceiveResult {| vsm_peer := service_peer;
                    vsm_bytes := header_wire (result_header 7 client_nonce service_nonce)
                                 ++ result_wire (SpawnReady (replicate 32 x09)) |};
   EncodeSpawn request].

(** Stopped after the result, a session is open. *)
Definition client_run := run client_step (take 4 client_ops) (fresh_client 7 service_code client_nonce).

Lemma client_single_spawn_witness :
  session_handle (snd client_run) = Some (replicate 32 x09) /\
  exists g sn, spawn_bound (fresh_client 7 service_code client_nonce) (fst client_run) g sn.
Proof.
  assert (Hh : session_handle (snd client_run) = Some (replicate 32 x09)) by (vm_compute; reflexivity).
  split; [exact Hh|].
  destruct (client_single_spawn (fresh_client 7 service_code client_nonce) (take 4 client_ops) (fst client_run) (snd client_run))
    as [_ H].
  - split; vm_compute; congruence.
  - reflexivity.
  - exact (surjective_pairing _).
  - destruct (H _ Hh) as (g & sn & m & Hb & _). exists g, sn. exact Hb.
Defined.

(** ** Policy *)

Definition render_policy : TargetPolicyDefinition :=
  {| tp_policy_id := ascii "org.example.render"; tp_authorized_client_code_identity := client_code;
     tp_target_identity := replicate 32 x07; tp_installed_executable := ascii "/opt/render/bin/render";
     tp_argument0 := ascii "render"; tp_maximum_additional_arguments := 4;
     tp_allowed_environment_keys := [ascii "LANG"; ascii "TZ"] |}.
Definition decode_policy : TargetPolicyDefinition :=
  {| tp_policy_id := ascii "org.example.decode"; tp_authorized_client_code_identity := client_code;
     tp_target_identity := replicate 32 x08; tp_installed_executable := ascii "/opt/decode";
     tp_argument0 := ascii "decode"; tp_maximum_additional_arguments := 0;
     tp_allowed_environment_keys := [] |}.

Definition admitted : AuthenticatedSpawnRequest :=
  {| as_peer := peer; as_deadline := {| db_wire := 5000; db_local := 4999 |}; as_request := request |}.

Lemma policies_are_ok : Forall definition_ok [render_policy; decode_policy].
Proof.
  repeat constructor.
  - exists (ascii "org.example.render"), client_code, (replicate 32 x07), (ascii "/opt/render/bin/render"),
      (ascii "render"), 4, [ascii "TZ"; ascii "LANG"]. vm_compute. reflexivity.
  - exists (ascii "org.example.decode"), client_code, (replicate 32 x08), (ascii "/opt/decode"),
      (ascii "decode"), 0, []. vm_compute. reflexivity.
Qed.

Lemma admission_exact_witness :
  from_verified_installation [render_policy; decode_policy] = Ok [decode_policy; render_policy] /\
  exists d, d ∈ [render_policy; decode_policy] /\ allows d admitted.
Proof.
  assert (Hc : from_verified_installation [render_policy; decode_policy] = Ok [decode_policy; render_policy])
    by (vm_compute; reflexivity).
  split; [exact Hc|].
  destruct (admission_exact [render_policy; decode_policy] [decode_policy; render_policy] admitted policies_are_ok Hc) as [_ H].
  destruct (proj1 (H (launch render_policy admitted))) as (d & Hd & Ha & _).
  - vm_compute. reflexivity.
  - exists d. split; [exact Hd|exact Ha].
Defined.
