(* ===== verification/BrokerReport.v ===== *)
(** * BrokerReport: the broker's one-shot trace report ([supervisor_broker_report.rs])

    The broker reports over a stream socket that the receiver is held at its
    exec trap; the service polls the socket without blocking, checks the report
    against the plan it staged, and later writes one byte back.

    A stream is what the kernel and the peer will do with it: the outcome of
    each coming [read], and of each coming [write]. Reads beyond those find
    nothing yet ([WouldBlock]); writes beyond those are accepted. *)

From S2P Require Import Prelude Bytes Native SupervisorWire.
From Stdlib Require Import Strings.String.

(** ** Streams *)

Inductive ReadEvent :=
| Arrives (first : byte) (rest : bytes)
| Interrupted
| WouldBlock
| ReadFails (code : Z)
| EndOfStream.

Inductive WriteEvent := WriteInterrupted | WriteFails (code : Z) | WriteShort.

Record UnixStream := {
  us_nonblocking : option Z;
  us_reads : list ReadEvent;
  us_writes : list WriteEvent
}.

Definition with_reads (reads : list ReadEvent) (self : UnixStream) : UnixStream :=
  {| us_nonblocking := us_nonblocking self; us_reads := reads; us_writes := us_writes self |}.

(** ** Constants and data *)

Definition REPORT_MAGIC : bytes := ascii "NIPCBTR1".
Definition REPORT_VERSION : Z := 1.
Definition EXEC_TRAP_HELD : Z := 2.
Definition BROKER_TRACE_REPORT_BYTES : Z := 224.
Definition BROKER_RESUME_BYTE : bytes := [x01].

Inductive BrokerTraceReportError :=
| ReportError_Malformed
| ReportError_Binding
| ReportError_DeadlineExpired
| ReportError_InvalidTransition
| ReportError_Io (code : Z).

#[export] Instance BrokerTraceReportError_eq_dec : EqDecision BrokerTraceReportError.
Proof. solve_decision. Defined.

Record BrokerTraceReportBinding := {
  br_deadline : Z;
  br_connection_generation : Z;
  br_sequence : Z;
  br_effective_uid : Z;
  br_effective_gid : Z;
  br_session : bytes;
  br_client_nonce : bytes;
  br_service_nonce : bytes;
  br_target_identity : bytes;
  br_plan_digest : bytes
}.

#[export] Instance BrokerTraceReportBinding_eq_dec : EqDecision BrokerTraceReportBinding.
Proof. solve_decision. Defined.

Definition BrokerTraceReportBinding_validate (self : BrokerTraceReportBinding) : res BrokerTraceReportError unit :=
  if (br_deadline self =? 0) || (br_connection_generation self =? 0) || negb (br_sequence self =? 1)
     || (br_effective_uid self =? 0) || (br_effective_gid self =? 0)
     || bool_decide (br_session self = zeros 32) || bool_decide (br_client_nonce self = zeros 32)
     || bool_decide (br_service_nonce self = zeros 32) || bool_decide (br_client_nonce self = br_service_nonce self)
     || bool_decide (br_target_identity self = zeros 32) || bool_decide (br_plan_digest self = zeros 32)
  then Err ReportError_Malformed else Ok tt.

(** ** The frame *)

Definition encode_broker_trace_report (binding : BrokerTraceReportBinding) : res BrokerTraceReportError bytes :=
  BrokerTraceReportBinding_validate binding >>?
  let l := zeros BROKER_TRACE_REPORT_BYTES in
  let? l := copy_range l 0 8 REPORT_MAGIC in
  let? l := put_u16 l 8 REPORT_VERSION in
  let? l := put_u16 l 10 EXEC_TRAP_HELD in
  let? l := put_u32 l 12 BROKER_TRACE_REPORT_BYTES in
  let? l := put_u64 l 16 (br_deadline binding) in
  let? l := put_u64 l 24 (br_connection_generation binding) in
  let? l := put_u64 l 32 (br_sequence binding) in
  let? l := put_u32 l 40 (br_effective_uid binding) in
  let? l := put_u32 l 44 (br_effective_gid binding) in
  let? l := copy_range l 48 80 (br_session binding) in
  let? l := copy_range l 80 112 (br_client_nonce binding) in
  let? l := copy_range l 112 144 (br_service_nonce binding) in
  let? l := copy_range l 144 176 (br_target_identity binding) in
  copy_range l 176 208 (br_plan_digest binding).

Definition ReceivedBrokerTraceReport_decode (l : bytes) : res BrokerTraceReportError BrokerTraceReportBinding :=
  let? magic := index_range l 0 8 in
  let? version := get_u16 l 8 in
  let? state := get_u16 l 10 in
  let? length := get_u32 l 12 in
  let? reserved := index_range l 208 (len l) in
  if negb (bool_decide (magic = REPORT_MAGIC)) || negb (version =? REPORT_VERSION)
     || negb (state =? EXEC_TRAP_HELD) || negb (length =? BROKER_TRACE_REPORT_BYTES) || any_nonzero reserved
  then Err ReportError_Malformed else
  let? session := index_range l 48 80 in
  let? client_nonce := index_range l 80 112 in
  let? service_nonce := index_range l 112 144 in
  let? target_identity := index_range l 144 176 in
  let? plan_digest := index_range l 176 208 in
  let? deadline := get_u64 l 16 in
  let? connection_generation := get_u64 l 24 in
  let? sequence := get_u64 l 32 in
  let? effective_uid := get_u32 l 40 in
  let? effective_gid := get_u32 l 44 in
  let binding := {| br_deadline := deadline; br_connection_generation := connection_generation;
                    br_sequence := sequence; br_effective_uid := effective_uid;
                    br_effective_gid := effective_gid; br_session := session;
                    br_client_nonce := client_nonce; br_service_nonce := service_nonce;
                    br_target_identity := target_identity; br_plan_digest := plan_digest |} in
  BrokerTraceReportBinding_validate binding >>? Ok binding.

(** ** The reverse commit

    [sent] is what has been written to the peer. *)

Record BrokerResumeSender := { rs_stream : option UnixStream }.

Fixpoint write_resume (writes : list WriteEvent) : res BrokerTraceReportError unit * list WriteEvent :=
  match writes with
  | [] => (Ok tt, [])
  | WriteInterrupted :: writes => write_resume writes
  | WriteShort :: writes => (Err ReportError_InvalidTransition, writes)
  | WriteFails code :: writes => (Err (ReportError_Io code), writes)
  end.

Definition commit_after_ready : stm (BrokerResumeSender * bytes) BrokerTraceReportError unit :=
  fun '(self, sent) =>
    match rs_stream self with
    | None => (Err ReportError_InvalidTransition, (self, sent))
    | Some stream =>
        match write_resume (us_writes stream) with
        | (Ok _, _) => (Ok tt, ({| rs_stream := None |}, sent ++ BROKER_RESUME_BYTE))
        | (Err error, writes) =>
            (Err error, ({| rs_stream := Some {| us_nonblocking := us_nonblocking stream;
                                                 us_reads := us_reads stream; us_writes := writes |} |}, sent))
        | (Panic, _) => (Panic, (self, sent))
        end
    end.

(** ** The receiver *)

Record BrokerTraceReportReceiver := {
  rr_stream : option UnixStream;
  rr_expected : BrokerTraceReportBinding;
  rr_deadline : Z;
  rr_bytes : bytes;
  rr_filled : Z;
  rr_finished : bool
}.

Record ReceivedBrokerTraceReport := {
  rc_binding : BrokerTraceReportBinding;
  rc_resume : BrokerResumeSender
}.

Record AuthenticatedBrokerTraceReport := {
  ab_handle : bytes;
  ab_connection : Z;
  ab_resume : BrokerResumeSender
}.

Definition authenticate_registered (self : ReceivedBrokerTraceReport) (handle : bytes) (connection : Z)
  : res (BrokerTraceReportError * BrokerResumeSender) AuthenticatedBrokerTraceReport :=
  if negb (bool_decide (br_session (rc_binding self) = handle))
     || negb (br_connection_generation (rc_binding self) =? connection)
  then Err (ReportError_Binding, rc_resume self)
  else Ok {| ab_handle := handle; ab_connection := connection; ab_resume := rc_resume self |}.

(** The loop that fills the buffer: [Some] when it is full, [None] when the
    stream has no more for now. *)
Fixpoint fill_report (reads : list ReadEvent) (buffer : bytes) (filled : Z)
  : res BrokerTraceReportError (option unit) * (list ReadEvent * bytes * Z) :=
  if negb (filled <? len buffer) then (Ok (Some tt), (reads, buffer, filled)) else
  match reads with
  | [] => (Ok None, ([], buffer, filled))
  | EndOfStream :: _ => (Err ReportError_Malformed, (reads, buffer, filled))
  | Interrupted :: reads => fill_report reads buffer filled
  | WouldBlock :: reads => (Ok None, (reads, buffer, filled))
  | ReadFails code :: reads => (Err (ReportError_Io code), (reads, buffer, filled))
  | Arrives first rest :: reads =>
      let count := Z.min (len (first :: rest)) (len buffer - filled) in
      let buffer := splice buffer filled (slice (first :: rest) 0 count) in
      match slice (first :: rest) count (len (first :: rest)) with
      | [] => fill_report reads buffer (filled + count)
      | next :: more => (Ok (Some tt), (Arrives next more :: reads, buffer, filled + count))
      end
  end.

(** The loop that waits for the end of the stream. *)
Fixpoint await_end (reads : list ReadEvent) : res BrokerTraceReportError (option unit) * list ReadEvent :=
  match reads with
  | [] => (Ok None, [])
  | EndOfStream :: _ => (Ok (Some tt), reads)
  | Arrives _ [] :: reads => (Err ReportError_Malformed, reads)
  | Arrives _ (next :: more) :: reads => (Err ReportError_Malformed, Arrives next more :: reads)
  | Interrupted :: reads => await_end reads
  | WouldBlock :: reads => (Ok None, reads)
  | ReadFails code :: reads => (Err (ReportError_Io code), reads)
  end.

Section Receiver.
Context {W : Type} {C : Clock W}.

Definition BrokerTraceReportReceiver_new (stream : UnixStream) (expected : BrokerTraceReportBinding) (deadline : Z)
  : stm W BrokerTraceReportError BrokerTraceReportReceiver :=
  slift (BrokerTraceReportBinding_validate expected) >>!
  let! now := read_instant in
  if deadline <=? now then serr ReportError_DeadlineExpired else
  match us_nonblocking stream with
  | Some code => serr (ReportError_Io code)
  | None => sret {| rr_stream := Some stream; rr_expected := expected; rr_deadline := deadline;
                    rr_bytes := zeros BROKER_TRACE_REPORT_BYTES; rr_filled := 0; rr_finished := false |}
  end.

(** The reads a [poll] has performed, written back to the receiver. *)
Definition after_reads (stream : UnixStream) (reads : list ReadEvent) (buffer : bytes) (filled : Z)
  (self : BrokerTraceReportReceiver) : BrokerTraceReportReceiver :=
  {| rr_stream := Some (with_reads reads stream); rr_expected := rr_expected self;
     rr_deadline := rr_deadline self; rr_bytes := buffer; rr_filled := filled; rr_finished := rr_finished self |}.

Definition poll : stm (BrokerTraceReportReceiver * W) BrokerTraceReportError (option ReceivedBrokerTraceReport) :=
  fun '(self, w) =>
    if rr_finished self then (Err ReportError_InvalidTransition, (self, w)) else
    match rr_stream self with
    | None => (Err ReportError_InvalidTransition, (self, w))
    | Some stream =>
        let '(now, w) := instant_now w in
        if rr_deadline self <=? now then (Err ReportError_DeadlineExpired, (self, w)) else
        let '(full, (reads, buffer, filled)) := fill_report (us_reads stream) (rr_bytes self) (rr_filled self) in
        let self := after_reads stream reads buffer filled self in
        match full with
        | Err error => (Err error, (self, w))
        | Panic => (Panic, (self, w))
        | Ok None => (Ok None, (self, w))
        | Ok (Some _) =>
            let '(ended, reads) := await_end reads in
            let self := after_reads stream reads buffer filled self in
            match ended with
            | Err error => (Err error, (self, w))
            | Panic => (Panic, (self, w))
            | Ok None => (Ok None, (self, w))
            | Ok (Some _) =>
                let '(now, w) := instant_now w in
                if rr_deadline self <=? now then (Err ReportError_DeadlineExpired, (self, w)) else
                match ReceivedBrokerTraceReport_decode (rr_bytes self) with
                | Err error => (Err error, (self, w))
                | Panic => (Panic, (self, w))
                | Ok binding =>
                    if negb (bool_decide (binding = rr_expected self)) then (Err ReportError_Binding, (self, w)) else
                    (Ok (Some {| rc_binding := binding; rc_resume := {| rs_stream := rr_stream self |} |}),
                     ({| rr_stream := None; rr_expected := rr_expected self; rr_deadline := rr_deadline self;
                         rr_bytes := rr_bytes self; rr_filled := rr_filled self; rr_finished := true |}, w))
                end
            end
        end
    end.

End Receiver.

Definition report_to_wire_error (error : BrokerTraceReportError) : SupervisorWireError :=
  match error with
  | ReportError_DeadlineExpired => WireError_LimitExceeded
  | ReportError_Binding => WireError_ReplayOrSubstitution
  | ReportError_Malformed | ReportError_InvalidTransition | ReportError_Io _ => WireError_Malformed
  end.
