(* ===== verification/BrokerPlan.v ===== *)
(** * BrokerPlan: launch plans across [exec] ([supervisor_broker_plan.rs])

    The canonical frame the service stages to a dormant broker, the smaller one
    the broker passes on to the launcher, and the acknowledgement between them.
    A decoder's cursor is an offset into the frame. *)

From S2P Require Import Prelude Bytes Tools Negotiation Native SupervisorWire BrokerReport.
From Stdlib Require Import Strings.String.

(** ** Constants and data *)

Definition PLAN_MAGIC : bytes := ascii "NIPCBP01".
Definition PLAN_VERSION : Z := 1.
Definition HEADER_BYTES : Z := 256.
Definition LAUNCHER_MAGIC : bytes := ascii "NIPCLP01".
Definition LAUNCHER_VERSION : Z := 1.
Definition LAUNCHER_HEADER_BYTES : Z := 40.
Definition LAUNCHER_PLAN_PREFIX_BYTES : Z := 24.
Definition MAX_BROKER_PLAN_BYTES : Z := 81920.
Definition BROKER_PLAN_PREFIX_BYTES : Z := 24.
Definition BROKER_ACK_BYTES : Z := 40.
Definition ACK_MAGIC : bytes := ascii "NIPCBPA1".
Definition ACK_DOMAIN : bytes := ascii "native-ipc-macos-broker-plan-ack-v1".

Record BrokerLaunchPlan := {
  bp_deadline : Z;
  bp_connection_generation : Z;
  bp_sequence : Z;
  bp_effective_uid : Z;
  bp_effective_gid : Z;
  bp_session : bytes;
  bp_audit_identity : bytes;
  bp_code_identity : bytes;
  bp_target_identity : bytes;
  bp_client_nonce : bytes;
  bp_service_nonce : bytes;
  bp_policy_id : bytes;
  bp_installed_executable : bytes;
  bp_arguments : list bytes;
  bp_environment : list TargetEnvironmentEntry
}.

Record LauncherExecPlan := {
  lp_deadline : Z;
  lp_effective_uid : Z;
  lp_effective_gid : Z;
  lp_installed_executable : bytes;
  lp_arguments : list bytes;
  lp_environment : list TargetEnvironmentEntry
}.

(** Received, acknowledged and activated plans hold the same three fields. *)
Record ReceivedBrokerLaunchPlan := {
  rp_plan : BrokerLaunchPlan;
  rp_deadline : SupervisorDeadlineBinding;
  rp_digest : bytes
}.
Record AcknowledgedBrokerLaunchPlan := {
  kp_plan : BrokerLaunchPlan;
  kp_deadline : SupervisorDeadlineBinding;
  kp_digest : bytes
}.
Record ExactParentBrokerLaunchPlan := {
  ep_plan : BrokerLaunchPlan;
  ep_deadline : SupervisorDeadlineBinding;
  ep_digest : bytes
}.

Record ReceivedLauncherExecPlan := {
  rl_plan : LauncherExecPlan;
  rl_deadline : SupervisorDeadlineBinding
}.

Record BrokerPlanPrefix := {
  pp_frame_len : Z;
  pp_deadline : SupervisorDeadlineBinding
}.

(** ** Components *)

Definition uint_get (n : Z) (l : bytes) (offset : Z) : option Z := le_val <$> get_range l offset (offset + n).
Definition plan_get_u16 (l : bytes) (offset : Z) : option Z := uint_get 2 l offset.
Definition plan_get_u32 (l : bytes) (offset : Z) : option Z := uint_get 4 l offset.
Definition plan_get_u64 (l : bytes) (offset : Z) : option Z := uint_get 8 l offset.

Definition plan_array_at (n : Z) (l : bytes) (offset : Z) : res SupervisorWireError bytes :=
  ok_or (get_range l offset (offset + n)) WireError_Malformed.

Definition usize_at (l : bytes) (offset : Z) : res SupervisorWireError Z :=
  let? value := ok_or (plan_get_u32 l offset) WireError_Malformed in
  ok_or (try_from USIZE_MAX value) WireError_LimitExceeded.

Definition u32_len (value : bytes) : res SupervisorWireError Z :=
  ok_or (try_from U32_MAX (len value)) WireError_LimitExceeded.
Definition u16_len {A} (value : list A) : res SupervisorWireError Z :=
  ok_or (try_from U16_MAX (len value)) WireError_LimitExceeded.

Definition append_component (component l : bytes) : res SupervisorWireError bytes :=
  let? length := u32_len component in Ok (l ++ le_bytes 4 length ++ component).

Definition append_entry (entry : TargetEnvironmentEntry) (l : bytes) : res SupervisorWireError bytes :=
  let? l := append_component (te_key entry) l in append_component (te_value entry) l.

Definition take_exact (l : bytes) (length : Z) : stm Z SupervisorWireError bytes :=
  let! cursor := sget in
  let! stop := slift (ok_or (checked_add USIZE_MAX cursor length) WireError_LimitExceeded) in
  let! value := slift (ok_or (get_range l cursor stop) WireError_Malformed) in
  sput stop >>!
  sret value.

Definition take_component (l : bytes) : stm Z SupervisorWireError bytes :=
  let! length_bytes := take_exact l 4 in
  let! length := slift (ok_or (try_from USIZE_MAX (le_val length_bytes)) WireError_LimitExceeded) in
  take_exact l length.

Definition take_entry (l : bytes) : stm Z SupervisorWireError TargetEnvironmentEntry :=
  let! key := take_component l in
  let! value := take_component l in
  slift (TargetEnvironmentEntry_new key value).

(** The loop over the environment of both [validate] functions; [keys] is the
    [HashSet]. *)
Definition validate_entry (entry : TargetEnvironmentEntry) (keys : list bytes) : res SupervisorWireError (list bytes) :=
  validate_environment_key (te_key entry) >>?
  validate_component (te_value entry) >>?
  if bool_decide (te_key entry ∈ keys) then Err WireError_InvalidTargetInput else Ok (te_key entry :: keys).

(** ** The broker's plan *)

Definition plan_validate (self : BrokerLaunchPlan) : res SupervisorWireError unit :=
  if (bp_deadline self =? 0) || (bp_connection_generation self =? 0) || negb (bp_sequence self =? 1)
     || (bp_effective_uid self =? 0) || (bp_effective_uid self =? U32_MAX)
     || (bp_effective_gid self =? 0) || (bp_effective_gid self =? U32_MAX)
     || existsb (fun field => bool_decide (field = zeros 32))
                [bp_session self; bp_audit_identity self; bp_code_identity self; bp_target_identity self;
                 bp_client_nonce self; bp_service_nonce self]
     || bool_decide (bp_client_nonce self = bp_service_nonce self)
     || bool_decide (bp_arguments self = []) || (MAX_ARGUMENTS <? len (bp_arguments self))
     || (MAX_ENVIRONMENT <? len (bp_environment self))
  then Err WireError_Malformed else
  validate_policy_id (bp_policy_id self) >>?
  validate_installed_executable (bp_installed_executable self) >>?
  rcheck validate_component (bp_arguments self) >>?
  let? _ := rfor (bp_environment self) validate_entry [] in
  Ok tt.

Definition plan_encode (self : BrokerLaunchPlan) : res SupervisorWireError bytes :=
  plan_validate self >>?
  let l := zeros HEADER_BYTES in
  let? l := copy_range l 0 8 PLAN_MAGIC in
  let? l := put_u16 l 8 PLAN_VERSION in
  let? l := put_u64 l 16 (bp_deadline self) in
  let? l := put_u64 l 24 (bp_connection_generation self) in
  let? l := put_u64 l 32 (bp_sequence self) in
  let? l := put_u32 l 40 (bp_effective_uid self) in
  let? l := put_u32 l 44 (bp_effective_gid self) in
  let? l := copy_range l 48 80 (bp_session self) in
  let? l := copy_range l 80 112 (bp_audit_identity self) in
  let? l := copy_range l 112 144 (bp_code_identity self) in
  let? l := copy_range l 144 176 (bp_target_identity self) in
  let? l := copy_range l 176 208 (bp_client_nonce self) in
  let? l := copy_range l 208 240 (bp_service_nonce self) in
  let? policy_len := u32_len (bp_policy_id self) in
  let? l := put_u32 l 240 policy_len in
  let? executable_len := u32_len (bp_installed_executable self) in
  let? l := put_u32 l 244 executable_len in
  let? argument_count := u16_len (bp_arguments self) in
  let? l := put_u16 l 248 argument_count in
  let? environment_count := u16_len (bp_environment self) in
  let? l := put_u16 l 250 environment_count in
  let l := l ++ bp_policy_id self in
  let l := l ++ bp_installed_executable self in
  let? l := rfor (bp_arguments self) append_component l in
  let? l := rfor (bp_environment self) append_entry l in
  if MAX_BROKER_PLAN_BYTES <? len l then Err WireError_LimitExceeded else
  let? length := u32_len l in
  put_u32 l 12 length.

Definition plan_decode_untrusted (l : bytes) : res SupervisorWireError BrokerLaunchPlan :=
  if (len l <? HEADER_BYTES) || (MAX_BROKER_PLAN_BYTES <? len l) then Err WireError_Malformed else
  let? magic := index_range l 0 8 in
  if negb (bool_decide (magic = PLAN_MAGIC)) || negb (bool_decide (plan_get_u16 l 8 = Some PLAN_VERSION))
  then Err WireError_Malformed else
  let? reserved := index_range l 10 12 in
  if negb (bool_decide (reserved = zeros 2)) || negb (bool_decide (plan_get_u32 l 12 = try_from U32_MAX (len l)))
  then Err WireError_Malformed else
  let? tail := index_range l 252 256 in
  if negb (bool_decide (tail = zeros 4)) then Err WireError_Malformed else
  let? policy_len := usize_at l 240 in
  let? executable_len := usize_at l 244 in
  let? argument_count := ok_or (plan_get_u16 l 248) WireError_Malformed in
  let? environment_count := ok_or (plan_get_u16 l 250) WireError_Malformed in
  if (MAX_POLICY_ID_BYTES <? policy_len) || (MAX_COMPONENT_BYTES <? executable_len) || (argument_count =? 0)
     || (MAX_ARGUMENTS <? argument_count) || (MAX_ENVIRONMENT <? environment_count)
  then Err WireError_LimitExceeded else
  let '(read, cursor) :=
    (let! policy_id := take_exact l policy_len in
     let! installed_executable := take_exact l executable_len in
     let! arguments := srepeat (Z.to_nat argument_count) (take_component l) in
     let! environment := srepeat (Z.to_nat environment_count) (take_entry l) in
     sret (policy_id, installed_executable, arguments, environment)) HEADER_BYTES in
  let? fields := read in
  let '(policy_id, installed_executable, arguments, environment) := fields in
  if negb (cursor =? len l) then Err WireError_Malformed else
  let? deadline := ok_or (plan_get_u64 l 16) WireError_Malformed in
  let? connection_generation := ok_or (plan_get_u64 l 24) WireError_Malformed in
  let? sequence := ok_or (plan_get_u64 l 32) WireError_Malformed in
  let? effective_uid := ok_or (plan_get_u32 l 40) WireError_Malformed in
  let? effective_gid := ok_or (plan_get_u32 l 44) WireError_Malformed in
  let? session := plan_array_at 32 l 48 in
  let? audit_identity := plan_array_at 32 l 80 in
  let? code_identity := plan_array_at 32 l 112 in
  let? target_identity := plan_array_at 32 l 144 in
  let? client_nonce := plan_array_at 32 l 176 in
  let? service_nonce := plan_array_at 32 l 208 in
  let plan := {| bp_deadline := deadline; bp_connection_generation := connection_generation;
                 bp_sequence := sequence; bp_effective_uid := effective_uid; bp_effective_gid := effective_gid;
                 bp_session := session; bp_audit_identity := audit_identity; bp_code_identity := code_identity;
                 bp_target_identity := target_identity; bp_client_nonce := client_nonce;
                 bp_service_nonce := service_nonce; bp_policy_id := policy_id;
                 bp_installed_executable := installed_executable; bp_arguments := arguments;
                 bp_environment := environment |} in
  plan_validate plan >>? Ok plan.

(** ** The launcher's plan *)

Definition from_broker (plan : BrokerLaunchPlan) : LauncherExecPlan :=
  {| lp_deadline := bp_deadline plan; lp_effective_uid := bp_effective_uid plan;
     lp_effective_gid := bp_effective_gid plan; lp_installed_executable := bp_installed_executable plan;
     lp_arguments := bp_arguments plan; lp_environment := bp_environment plan |}.

Definition launcher_validate (self : LauncherExecPlan) : res SupervisorWireError unit :=
  if (lp_deadline self =? 0) || (lp_effective_uid self =? 0) || (lp_effective_uid self =? U32_MAX)
     || (lp_effective_gid self =? 0) || (lp_effective_gid self =? U32_MAX)
     || bool_decide (lp_arguments self = []) || (MAX_ARGUMENTS <? len (lp_arguments self))
     || (MAX_ENVIRONMENT <? len (lp_environment self))
  then Err WireError_Malformed else
  validate_installed_executable (lp_installed_executable self) >>?
  rcheck validate_component (lp_arguments self) >>?
  let? _ := rfor (lp_environment self) validate_entry [] in
  Ok tt.

Definition launcher_encode (self : LauncherExecPlan) : res SupervisorWireError bytes :=
  launcher_validate self >>?
  let l := zeros LAUNCHER_HEADER_BYTES in
  let? l := copy_range l 0 8 LAUNCHER_MAGIC in
  let? l := put_u16 l 8 LAUNCHER_VERSION in
  let? l := put_u64 l 16 (lp_deadline self) in
  let? l := put_u32 l 24 (lp_effective_uid self) in
  let? l := put_u32 l 28 (lp_effective_gid self) in
  let? executable_len := u32_len (lp_installed_executable self) in
  let? l := put_u32 l 32 executable_len in
  let? argument_count := u16_len (lp_arguments self) in
  let? l := put_u16 l 36 argument_count in
  let? environment_count := u16_len (lp_environment self) in
  let? l := put_u16 l 38 environment_count in
  let l := l ++ lp_installed_executable self in
  let? l := rfor (lp_arguments self) append_component l in
  let? l := rfor (lp_environment self) append_entry l in
  if MAX_BROKER_PLAN_BYTES <? len l then Err WireError_LimitExceeded else
  let? length := u32_len l in
  put_u32 l 12 length.

Definition launcher_decode_untrusted (l : bytes) : res SupervisorWireError LauncherExecPlan :=
  if (len l <? LAUNCHER_HEADER_BYTES) || (MAX_BROKER_PLAN_BYTES <? len l) then Err WireError_Malformed else
  let? magic := index_range l 0 8 in
  if negb (bool_decide (magic = LAUNCHER_MAGIC)) || negb (bool_decide (plan_get_u16 l 8 = Some LAUNCHER_VERSION))
  then Err WireError_Malformed else
  let? reserved := index_range l 10 12 in
  if negb (bool_decide (reserved = zeros 2)) || negb (bool_decide (plan_get_u32 l 12 = try_from U32_MAX (len l)))
  then Err WireError_Malformed else
  let? executable_len := usize_at l 32 in
  let? argument_count := ok_or (plan_get_u16 l 36) WireError_Malformed in
  let? environment_count := ok_or (plan_get_u16 l 38) WireError_Malformed in
  if (MAX_COMPONENT_BYTES <? executable_len) || (argument_count =? 0) || (MAX_ARGUMENTS <? argument_count)
     || (MAX_ENVIRONMENT <? environment_count)
  then Err WireError_LimitExceeded else
  let '(read, cursor) :=
    (let! installed_executable := take_exact l executable_len in
     let! arguments := srepeat (Z.to_nat argument_count) (take_component l) in
     let! environment := srepeat (Z.to_nat environment_count) (take_entry l) in
     sret (installed_executable, arguments, environment)) LAUNCHER_HEADER_BYTES in
  let? fields := read in
  let '(installed_executable, arguments, environment) := fields in
  if negb (cursor =? len l) then Err WireError_Malformed else
  let? deadline := ok_or (plan_get_u64 l 16) WireError_Malformed in
  let? effective_uid := ok_or (plan_get_u32 l 24) WireError_Malformed in
  let? effective_gid := ok_or (plan_get_u32 l 28) WireError_Malformed in
  let plan := {| lp_deadline := deadline; lp_effective_uid := effective_uid; lp_effective_gid := effective_gid;
                 lp_installed_executable := installed_executable; lp_arguments := arguments;
                 lp_environment := environment |} in
  launcher_validate plan >>? Ok plan.

(** ** Prefixes: the first 24 bytes bind the deadline before the rest arrives *)

Section Receipt.
Context {W : Type} {C : Clock W} {U : UptimeClock W} {S : Sha256}.

Definition parse_prefix (magic : bytes) (version header_bytes : Z) (prefix : bytes) (outer_len : Z)
  : stm W SupervisorWireError BrokerPlanPrefix :=
  if negb ((header_bytes <=? outer_len) && (outer_len <=? MAX_BROKER_PLAN_BYTES))
  then serr WireError_Malformed else
  let! found := slift (index_range prefix 0 8) in
  if negb (bool_decide (found = magic)) || negb (bool_decide (plan_get_u16 prefix 8 = Some version))
  then serr WireError_Malformed else
  let! reserved := slift (index_range prefix 10 12) in
  if negb (bool_decide (reserved = zeros 2))
     || negb (bool_decide (plan_get_u32 prefix 12 = try_from U32_MAX outer_len))
  then serr WireError_Malformed else
  let! wire := slift (ok_or (plan_get_u64 prefix 16) WireError_Malformed) in
  let! deadline := from_wire wire in
  sret {| pp_frame_len := outer_len; pp_deadline := deadline |}.

Definition parse_launcher_plan_prefix : bytes -> Z -> stm W SupervisorWireError BrokerPlanPrefix :=
  parse_prefix LAUNCHER_MAGIC LAUNCHER_VERSION LAUNCHER_HEADER_BYTES.
Definition parse_broker_plan_prefix : bytes -> Z -> stm W SupervisorWireError BrokerPlanPrefix :=
  parse_prefix PLAN_MAGIC PLAN_VERSION HEADER_BYTES.

Definition broker_plan_digest (frame : bytes) : bytes := sha256 (ACK_DOMAIN ++ frame).

Definition broker_plan_ack (frame : bytes) : res SupervisorWireError bytes :=
  let ack := zeros BROKER_ACK_BYTES in
  let? ack := copy_range ack 0 8 ACK_MAGIC in
  copy_range ack 8 (len ack) (broker_plan_digest frame).

Definition ReceivedBrokerLaunchPlan_decode_with_deadline (l : bytes) (deadline : SupervisorDeadlineBinding)
  : res SupervisorWireError ReceivedBrokerLaunchPlan :=
  let? plan := plan_decode_untrusted l in
  if negb (bp_deadline plan =? db_wire deadline) then Err WireError_ReplayOrSubstitution else
  Ok {| rp_plan := plan; rp_deadline := deadline; rp_digest := broker_plan_digest l |}.

Definition ReceivedBrokerLaunchPlan_decode (l : bytes) : stm W SupervisorWireError ReceivedBrokerLaunchPlan :=
  let! prefix := slift (ok_or (get_range l 0 BROKER_PLAN_PREFIX_BYTES) WireError_Malformed) in
  let! parsed := parse_broker_plan_prefix prefix (len l) in
  slift (ReceivedBrokerLaunchPlan_decode_with_deadline l (pp_deadline parsed)).

Definition acknowledge_exact_parent (self : ReceivedBrokerLaunchPlan) : AcknowledgedBrokerLaunchPlan :=
  {| kp_plan := rp_plan self; kp_deadline := rp_deadline self; kp_digest := rp_digest self |}.
Definition activate (self : AcknowledgedBrokerLaunchPlan) : ExactParentBrokerLaunchPlan :=
  {| ep_plan := kp_plan self; ep_deadline := kp_deadline self; ep_digest := kp_digest self |}.

Definition plan_trace_report_binding (self : BrokerLaunchPlan) (plan_digest : bytes) : BrokerTraceReportBinding :=
  {| br_deadline := bp_deadline self; br_connection_generation := bp_connection_generation self;
     br_sequence := bp_sequence self; br_effective_uid := bp_effective_uid self;
     br_effective_gid := bp_effective_gid self; br_session := bp_session self;
     br_client_nonce := bp_client_nonce self; br_service_nonce := bp_service_nonce self;
     br_target_identity := bp_target_identity self; br_plan_digest := plan_digest |}.

Definition exact_trace_report_binding (self : ExactParentBrokerLaunchPlan) : BrokerTraceReportBinding :=
  plan_trace_report_binding (ep_plan self) (ep_digest self).

Definition trace_report_binding_from_frame (frame : bytes) : res SupervisorWireError BrokerTraceReportBinding :=
  let? plan := plan_decode_untrusted frame in
  Ok (plan_trace_report_binding plan (broker_plan_digest frame)).

Definition launcher_frame (self : ExactParentBrokerLaunchPlan) : res SupervisorWireError bytes :=
  launcher_encode (from_broker (ep_plan self)).

Definition ReceivedLauncherExecPlan_decode_with_deadline (l : bytes) (deadline : SupervisorDeadlineBinding)
  : res SupervisorWireError ReceivedLauncherExecPlan :=
  let? plan := launcher_decode_untrusted l in
  if negb (lp_deadline plan =? db_wire deadline) then Err WireError_ReplayOrSubstitution else
  Ok {| rl_plan := plan; rl_deadline := deadline |}.

End Receipt.
