(* ===== verification/BrokerCodec.v ===== *)
(** * BrokerCodec: broker reports and launch plans have one encoding each

    The wire formats as concatenations of fields, and for each frame: the
    decoder accepts exactly what the encoder produces for a value that
    validates, and neither exits abnormally. *)

From S2P Require Import Prelude Bytes Tools Negotiation Native SupervisorWire SupervisorCodec BrokerReport BrokerPlan.

(** ** The trace report *)

Definition report_widths (b : BrokerTraceReportBinding) : Prop :=
  u64 (br_deadline b) /\ u64 (br_connection_generation b) /\ u64 (br_sequence b) /\
  u32 (br_effective_uid b) /\ u32 (br_effective_gid b) /\
  len (br_session b) = 32 /\ len (br_client_nonce b) = 32 /\ len (br_service_nonce b) = 32 /\
  len (br_target_identity b) = 32 /\ len (br_plan_digest b) = 32.

Definition report_wire (b : BrokerTraceReportBinding) : bytes :=
  REPORT_MAGIC ++ le_bytes 2 REPORT_VERSION ++ le_bytes 2 EXEC_TRAP_HELD ++ le_bytes 4 BROKER_TRACE_REPORT_BYTES
  ++ le_bytes 8 (br_deadline b) ++ le_bytes 8 (br_connection_generation b) ++ le_bytes 8 (br_sequence b)
  ++ le_bytes 4 (br_effective_uid b) ++ le_bytes 4 (br_effective_gid b)
  ++ br_session b ++ br_client_nonce b ++ br_service_nonce b ++ br_target_identity b ++ br_plan_digest b
  ++ zeros 16.

Definition report_cuts : list Z := [8; 10; 12; 16; 24; 32; 40; 44; 48; 80; 112; 144; 176; 208; 224].

Lemma report_magic_len : len REPORT_MAGIC = 8.
Proof. reflexivity. Qed.

Lemma report_blank_len : len (zeros BROKER_TRACE_REPORT_BYTES) = 224.
Proof. reflexivity. Qed.

Lemma report_validate_cases b :
  BrokerTraceReportBinding_validate b = Ok tt \/ BrokerTraceReportBinding_validate b = Err ReportError_Malformed.
Proof. unfold BrokerTraceReportBinding_validate. case_match; auto. Qed.

Lemma report_wire_len b : report_widths b -> len (report_wire b) = 224.
Proof.
  intros (_ & _ & _ & _ & _ & H1 & H2 & H3 & H4 & H5). unfold report_wire.
  rewrite !len_app, !len_le_bytes, report_magic_len, H1, H2, H3, H4, H5. reflexivity.
Qed.

Lemma encode_report_iff b l :
  report_widths b ->
  encode_broker_trace_report b = Ok l <-> BrokerTraceReportBinding_validate b = Ok tt /\ l = report_wire b.
Proof.
  intros (Hd & Hg & Hq & Hu & Hi & H1 & H2 & H3 & H4 & H5).
  pose proof report_magic_len. pose proof report_blank_len as Hz.
  unfold encode_broker_trace_report.
  destruct (report_validate_cases b) as [-> | ->]; cbn [rbind]; [|split; [discriminate|now intros []]].
  set (z := zeros BROKER_TRACE_REPORT_BYTES) in *. rd.
  assert (forall x y : bytes, x = y -> Ok (E := BrokerTraceReportError) x = Ok l <-> Ok (E := BrokerTraceReportError) tt = Ok tt /\ l = y) as Hx.
  { intros x y ->. split; [now intros [= ->]|now intros [_ ->]]. }
  apply Hx. by_cuts report_cuts. reflexivity.
Qed.

Lemma report_fields s b :
  len s = 224 -> report_widths b ->
  s = report_wire b <->
  slice s 0 8 = REPORT_MAGIC /\ field s 8 2 = REPORT_VERSION /\ field s 10 2 = EXEC_TRAP_HELD /\
  field s 12 4 = BROKER_TRACE_REPORT_BYTES /\ field s 16 8 = br_deadline b /\
  field s 24 8 = br_connection_generation b /\ field s 32 8 = br_sequence b /\
  field s 40 4 = br_effective_uid b /\ field s 44 4 = br_effective_gid b /\ slice s 48 80 = br_session b /\
  slice s 80 112 = br_client_nonce b /\ slice s 112 144 = br_service_nonce b /\
  slice s 144 176 = br_target_identity b /\ slice s 176 208 = br_plan_digest b /\ slice s 208 224 = zeros 16.
Proof.
  intros Hs (Hd & Hg & Hq & Hu & Hi & H1 & H2 & H3 & H4 & H5).
  rewrite <- (slice_full s 0 224) at 1 by lia. unfold report_wire.
  rewrite (slice_app_iff s 0 224 8) by (rewrite ?report_magic_len; lia). wsplit s.
  rewrite (slice_app_iff s 48 224 80), (slice_app_iff s 80 224 112), (slice_app_iff s 112 224 144),
    (slice_app_iff s 144 224 176), (slice_app_iff s 176 224 208) by lia.
  rewrite (field_iff s 8 10 2 2), (field_iff s 10 12 2 2), (field_iff s 12 16 4 4)
    by (try reflexivity; lia || (unfold REPORT_VERSION, EXEC_TRAP_HELD, BROKER_TRACE_REPORT_BYTES; lia)).
  rewrite (field_iff s 16 24 8 8), (field_iff s 24 32 8 8), (field_iff s 32 40 8 8), (field_iff s 40 44 4 4),
    (field_iff s 44 48 4 4) by (try reflexivity; lia || ulia).
  reflexivity.
Qed.

Lemma decode_report_iff l b :
  len l = 224 ->
  ReceivedBrokerTraceReport_decode l = Ok b <->
  report_widths b /\ BrokerTraceReportBinding_validate b = Ok tt /\ l = report_wire b.
Proof.
  intros Hl. unfold ReceivedBrokerTraceReport_decode. rewrite Hl. rd. split.
  - destruct (_ || _) eqn:E; [discriminate|]. bsplit.
    apply (any_nonzero_slice l 208 224 16) in E0; try lia.
    set (b' := {| br_deadline := _ |}). destruct (report_validate_cases b') as [Hv | ->]; [|discriminate].
    rewrite Hv. intros [= <-].
    assert (report_widths b') as Hw.
    { unfold report_widths, b'; cbn. rewrite !len_slice by lia. split_and!; (fwidth || lia). }
    split; [done|]. split; [done|]. apply report_fields; done.
  - intros (Hw & Hv & Heq). apply report_fields in Heq as (-> & -> & -> & -> & -> & -> & -> & -> & -> & -> & -> & -> & -> & -> & ->); try done.
    rewrite bool_decide_eq_true_2 by done. cbn [negb orb Z.eqb Pos.eqb REPORT_VERSION EXEC_TRAP_HELD BROKER_TRACE_REPORT_BYTES].
    rewrite any_nonzero_zeros. destruct b; cbn in *. now rewrite Hv.
Qed.

Lemma decode_report_no_panic l : len l = 224 -> ReceivedBrokerTraceReport_decode l <> Panic.
Proof.
  intros Hl. unfold ReceivedBrokerTraceReport_decode. rewrite Hl. rd. case_match; [done|].
  match goal with |- context [BrokerTraceReportBinding_validate ?b] => destruct (report_validate_cases b) as [-> | ->] end; done.
Qed.

Lemma decode_report_error l e : len l = 224 -> ReceivedBrokerTraceReport_decode l = Err e -> e = ReportError_Malformed.
Proof.
  intros Hl. unfold ReceivedBrokerTraceReport_decode. rewrite Hl. rd. case_match; [now intros [= <-]|].
  match goal with |- context [BrokerTraceReportBinding_validate ?b] => destruct (report_validate_cases b) as [-> | ->] end;
    [done|now intros [= <-]].
Qed.

(** ** Components of a plan *)

Definition component4_wire (c : bytes) : bytes := le_bytes 4 (len c) ++ c.
Definition component4_fits (c : bytes) : Prop := len c <= U32_MAX.
Definition entry4_wire (e : TargetEnvironmentEntry) : bytes :=
  component4_wire (te_key e) ++ component4_wire (te_value e).

Lemma append_component_ok c l : component4_fits c -> append_component c l = Ok (l ++ component4_wire c).
Proof.
  intros Hc. unfold append_component, u32_len, component4_fits in *. pose proof (len_nonneg c).
  now rewrite try_from_ok by ulia.
Qed.

Lemma entry_fits4 e : entry_ok e -> component4_fits (te_key e) /\ component4_fits (te_value e).
Proof.
  intros He. apply entry_ok_fits in He as [H1 H2]. unfold component_fits, component4_fits, MAX_COMPONENT_BYTES in *. ulia.
Qed.

Lemma append_entry_ok e l : entry_ok e -> append_entry e l = Ok (l ++ entry4_wire e).
Proof.
  intros [Hk Hv]%entry_fits4. unfold append_entry, entry4_wire. rewrite append_component_ok by done. cbn [rbind].
  rewrite append_component_ok by done. now rewrite app_assoc.
Qed.

Section Cursor.
Context (l : bytes).
Hypothesis Hl : len l <= USIZE_MAX.

Let unread (c : Z) : bytes := slice l c (len l).
Let valid (c : Z) : Prop := 0 <= c <= len l.

Lemma plan_cursor_inj c c' : valid c -> valid c' -> unread c = unread c' -> c = c'.
Proof.
  unfold valid, unread. intros Hc Hc' Heq. apply (f_equal len) in Heq. rewrite !len_slice in Heq by lia. lia.
Qed.

Lemma plan_cursor_suffix c x y : valid c -> unread c = x ++ y -> exists c', valid c' /\ unread c' = y.
Proof.
  unfold valid, unread. intros Hc Heq. pose proof (len_nonneg x). pose proof (len_nonneg y).
  pose proof Heq as Hlen. apply (f_equal len) in Hlen. rewrite len_slice, len_app in Hlen by lia.
  exists (c + len x). split; [lia|]. apply (slice_app_iff l c (len l) (c + len x)) in Heq as [_ Heq]; done || lia.
Qed.

Lemma take_exact_parses n : 0 <= n -> parses unread valid (take_exact l n) id (fun a => len a = n).
Proof.
  intros Hn c a c' Hc. unfold valid, unread, id in *.
  unfold take_exact, sbind, sget, slift, sput, sret, ok_or, checked_add.
  destruct (c + n <=? USIZE_MAX) eqn:E1; bsplit.
  - destruct (decide (c + n <= len l)) as [Hin|Hout].
    + rewrite get_range_ok by lia. split.
      * intros [= <- <-]. rewrite len_slice by lia. split; [lia|]. split; [lia|]. now rewrite slice_cat by lia.
      * intros (Hc' & Ha & Heq). pose proof Heq as Hlen. apply (f_equal len) in Hlen.
        rewrite len_app, !len_slice in Hlen by lia. replace c' with (c + n) in * by lia.
        apply (slice_app_iff l c (len l) (c + n)) in Heq as [<- _]; done || lia.
    + unfold get_range, in_range. replace (c + n <=? len l) with false by lia. rewrite andb_false_r. split; [done|].
      intros (Hc' & Ha & Heq). apply (f_equal len) in Heq. rewrite len_app, !len_slice in Heq by lia. lia.
  - split; [done|]. intros (Hc' & Ha & Heq). apply (f_equal len) in Heq. rewrite len_app, !len_slice in Heq by lia. lia.
Qed.

Lemma take_component_parses : parses unread valid (take_component l) component4_wire component4_fits.
Proof.
  intros c a c' Hc. unfold take_component, component4_wire, component4_fits.
  rewrite (parses_then unread valid plan_cursor_suffix (take_exact l 4) id (fun b => len b = 4) _ (fun _ => id)
             (fun b a => len a = le_val b)); [|now apply take_exact_parses|clear a c c' Hc|done].
  - split.
    + intros (Hc' & b & Hb & Ha & Hu). split; [done|]. pose proof (le_val_bound b) as Hv. rewrite Hb in Hv.
      split; [ulia|]. rewrite Ha, le_bytes_le_val, <- app_assoc by (unfold len in Hb; lia). exact Hu.
    + intros (Hc' & Ha & Hu). split; [done|]. pose proof (len_nonneg a). exists (le_bytes 4 (len a)).
      rewrite le_val_u32 by ulia. rewrite <- app_assoc in Hu. split_and!; done.
  - intros b Hb c a c' Hc. pose proof (le_val_bound b) as Hv. rewrite Hb in Hv.
    unfold sbind at 1, slift. rewrite try_from_ok by ulia. cbn [ok_or].
    now apply take_exact_parses.
Qed.

Lemma take_entry_parses : parses unread valid (take_entry l) entry4_wire entry_ok.
Proof.
  intros c e c' Hc. unfold take_entry, entry4_wire.
  rewrite (parses_then unread valid plan_cursor_suffix (take_component l) component4_wire component4_fits _
             (fun _ e => component4_wire (te_value e)) (fun k e => te_key e = k /\ entry_ok e));
    [|exact take_component_parses|clear e c c' Hc|done].
  - split.
    + intros (Hc' & k & Hk & [<- He] & Hu). now rewrite <- app_assoc.
    + intros (Hc' & He & Hu). rewrite <- app_assoc in Hu. pose proof (entry_fits4 e He) as [Hk _]. eauto 6.
  - intros k Hk c e c' Hc.
    rewrite (parses_then unread valid plan_cursor_suffix (take_component l) component4_wire component4_fits _
               (fun _ _ => []) (fun v e => TargetEnvironmentEntry_new k v = Ok e));
      [|exact take_component_parses|intros v Hv; apply parses_lift; exact plan_cursor_inj|done].
    setoid_rewrite TargetEnvironmentEntry_new_iff. split.
    + intros (Hc' & v & Hv & [-> He] & Hu). cbn [te_key te_value] in *. auto.
    + intros (Hc' & [<- He] & Hu). split; [done|]. pose proof (entry_fits4 e He) as [_ Hv].
      exists (te_value e). split_and!; try done. now destruct e.
Qed.

(** The arguments and the environment, which end both plans. *)
Definition take_inputs (i j : nat) : stm Z SupervisorWireError (list bytes * list TargetEnvironmentEntry) :=
  let! arguments := srepeat i (take_component l) in
  let! environment := srepeat j (take_entry l) in
  sret (arguments, environment).

Definition inputs_wire (x : list bytes * list TargetEnvironmentEntry) : bytes :=
  concat (map component4_wire (fst x)) ++ concat (map entry4_wire (snd x)).

Lemma take_inputs_parses i j :
  parses unread valid (take_inputs i j) inputs_wire
    (fun x => (length (fst x) = i /\ Forall component4_fits (fst x)) /\ (length (snd x) = j /\ Forall entry_ok (snd x))).
Proof.
  intros c [a e] c' Hc. unfold take_inputs, inputs_wire; cbn [fst snd].
  rewrite (parses_then unread valid plan_cursor_suffix (srepeat i (take_component l)) _ _ _
    (fun _ x => concat (map entry4_wire (snd x))) (fun a x => fst x = a /\ length (snd x) = j /\ Forall entry_ok (snd x))
    (parses_repeat unread valid plan_cursor_inj plan_cursor_suffix _ _ _ i take_component_parses)); [|clear a e c c' Hc|done].
  - cbn [fst snd]. split.
    + intros (Hc' & b & Hb & (<- & He) & Hu). rewrite <- app_assoc. auto.
    + intros (Hc' & (Ha & He) & Hu). rewrite <- app_assoc in Hu. eauto 8.
  - intros a Ha c [a' e] c' Hc. cbn [fst snd].
    rewrite (parses_then unread valid plan_cursor_suffix (srepeat j (take_entry l)) _ _ _ (fun _ _ => [])
      (fun e x => x = (a, e)) (parses_repeat unread valid plan_cursor_inj plan_cursor_suffix _ _ _ j take_entry_parses));
      [|intros; apply parses_ret; exact plan_cursor_inj|done].
    split.
    + intros (Hc' & b & Hb & [= -> ->] & Hu). auto.
    + intros (Hc' & (-> & He) & Hu). split; [done|]. exists e. auto.
Qed.

Lemma take_exact_safe n : 0 <= n -> safe valid (take_exact l n).
Proof.
  intros Hn c Hc. unfold valid, take_exact, sbind, sget, slift, sput, sret, ok_or, checked_add in *.
  destruct (_ <=? _) eqn:E1; [|done]. bsplit. unfold get_range, in_range.
  destruct (_ && _) eqn:E2; [|done]. bsplit. split; [done|]. intros a c' [= _ <-]. lia.
Qed.

Lemma take_component_safe : safe valid (take_component l).
Proof.
  unfold take_component. apply safe_bind; [now apply take_exact_safe|]. intros a.
  pose proof (le_val_bound a). unfold try_from. destruct (fitsb _ _) eqn:E; unfold slift, sbind; cbn [ok_or].
  - intros c Hc. now apply take_exact_safe.
  - split; done.
Qed.

Lemma take_entry_safe : safe valid (take_entry l).
Proof.
  unfold take_entry. apply safe_bind; [apply take_component_safe|]. intros k.
  apply safe_bind; [apply take_component_safe|]. intros v. apply safe_lift, TargetEnvironmentEntry_new_no_panic.
Qed.

Lemma take_inputs_safe i j : safe valid (take_inputs i j).
Proof.
  unfold take_inputs. apply safe_bind; [apply safe_repeat, take_component_safe|]. intros a.
  apply safe_bind; [apply safe_repeat, take_entry_safe|]. intros e. apply safe_ret.
Qed.

End Cursor.

(** ** Plans that validate *)

Definition inputs_ok (executable : bytes) (arguments : list bytes) (environment : list TargetEnvironmentEntry) : Prop :=
  validate_installed_executable executable = Ok tt /\
  arguments <> [] /\ len arguments <= MAX_ARGUMENTS /\ Forall (fun a => validate_component a = Ok tt) arguments /\
  len environment <= MAX_ENVIRONMENT /\ Forall entry_ok environment /\ NoDup (te_key <$> environment).

Definition credential_ok (id : Z) : Prop := id <> 0 /\ id <> U32_MAX.

Definition plan_ok (p : BrokerLaunchPlan) : Prop :=
  bp_deadline p <> 0 /\ bp_connection_generation p <> 0 /\ bp_sequence p = 1 /\
  credential_ok (bp_effective_uid p) /\ credential_ok (bp_effective_gid p) /\
  bp_session p <> zeros 32 /\ bp_audit_identity p <> zeros 32 /\ bp_code_identity p <> zeros 32 /\
  bp_target_identity p <> zeros 32 /\ bp_client_nonce p <> zeros 32 /\ bp_service_nonce p <> zeros 32 /\
  bp_client_nonce p <> bp_service_nonce p /\ validate_policy_id (bp_policy_id p) = Ok tt /\
  inputs_ok (bp_installed_executable p) (bp_arguments p) (bp_environment p).

Definition launcher_ok (p : LauncherExecPlan) : Prop :=
  lp_deadline p <> 0 /\ credential_ok (lp_effective_uid p) /\ credential_ok (lp_effective_gid p) /\
  inputs_ok (lp_installed_executable p) (lp_arguments p) (lp_environment p).

Lemma validate_entry_cases e keys :
  (entry_ok e /\ te_key e ∉ keys /\ validate_entry e keys = Ok (te_key e :: keys)) \/
  (~ (entry_ok e /\ te_key e ∉ keys) /\ exists er, validate_entry e keys = Err er).
Proof.
  unfold validate_entry, entry_ok. destruct (validate_cases (te_key e)) as (_ & _ & _ & [-> |[er ->]]).
  2:{ right. split; [now intros [[] _]|eauto]. }
  destruct (validate_cases (te_value e)) as (_ & _ & [-> |[er ->]] & _); cbn [rbind].
  2:{ right. split; [now intros [[] _]|eauto]. }
  case_bool_decide; [right|left; auto]. split; [now intros [_ []]|eauto].
Qed.

Lemma validate_environment_iff l keys :
  (exists out, rfor l validate_entry keys = Ok out) <->
  Forall entry_ok l /\ NoDup (te_key <$> l) /\ Forall (fun e => te_key e ∉ keys) l.
Proof.
  revert keys. induction l as [|e l IH]; intros keys; simpl; [split; [repeat constructor|eauto]|].
  rewrite !Forall_cons, NoDup_cons.
  destruct (validate_entry_cases e keys) as [(He & Hn & ->)|[Hno [er ->]]]; cbn [rbind].
  - rewrite IH. split.
    + intros (H1 & H2 & H3). rewrite Forall_forall in H3. split_and!; try done.
      * intros (e' & He' & Hin)%list_elem_of_fmap. specialize (H3 e' Hin). set_solver.
      * rewrite Forall_forall. intros e' Hin. specialize (H3 e' Hin). set_solver.
    + intros ((_ & H1) & (H2 & H2') & _ & H3). split_and!; try done. rewrite Forall_forall in H3 |- *.
      intros e' Hin. specialize (H3 e' Hin). apply not_elem_of_cons. split; [|done]. intros Heq. apply H2.
      rewrite <- Heq. now apply list_elem_of_fmap_2.
  - split; [intros [? ?]; discriminate|]. intros ((H1 & _) & _ & H2 & _). now destruct Hno.
Qed.

Lemma validate_environment_no_panic l keys : rfor l validate_entry keys <> Panic.
Proof.
  apply (rfor_no_panic (fun _ => True)); [done|]. intros e s _ _.
  destruct (validate_entry_cases e s) as [(_ & _ & ->)|[_ [er ->]]]; done.
Qed.

(** The checks that end both [validate] functions. *)
Lemma inputs_validate_iff x a e :
  a <> [] -> len a <= MAX_ARGUMENTS -> len e <= MAX_ENVIRONMENT ->
  (validate_installed_executable x >>? rcheck validate_component a >>?
   (let? _ := rfor e validate_entry [] in Ok tt)) = Ok tt <-> inputs_ok x a e.
Proof.
  intros Ha Hla Hle. unfold inputs_ok. rewrite <- (rcheck_Ok validate_component a).
  pose proof (validate_environment_iff e []) as He. split.
  - destruct (validate_installed_executable x) as [[]| |]; try discriminate. cbn [rbind].
    destruct (rcheck _ a) as [[]| |]; try discriminate. cbn [rbind].
    destruct (rfor e _ _) as [out| |] eqn:Er; try discriminate. intros _.
    destruct (proj1 He) as (H1 & H2 & _); [eauto|]. auto 8.
  - intros (-> & _ & _ & -> & _ & H1 & H2). cbn [rbind]. destruct (proj2 He) as [out ->]; [|done].
    split_and!; try done. rewrite Forall_forall. set_solver.
Qed.

Lemma inputs_validate_no_panic x a e :
  (validate_installed_executable x >>? rcheck validate_component a >>?
   (let? _ := rfor e validate_entry [] in Ok tt)) <> (Panic : res SupervisorWireError unit).
Proof.
  destruct (validate_cases x) as (_ & [-> |[er ->]] & _); [|done]. cbn [rbind].
  pose proof (rcheck_no_panic validate_component a) as Ha. destruct (rcheck _ a); cbn [rbind]; try done.
  - pose proof (validate_environment_no_panic e []) as He. now destruct (rfor e _ _).
  - exfalso. apply Ha; [|done]. intros y. destruct (validate_cases y) as (_ & _ & [-> |[? ->]] & _); done.
Qed.

(** [guards]: decide the equality tests that the context refutes. *)
Ltac guards :=
  repeat match goal with
         | |- context [?a =? ?b] => rewrite (proj2 (Z.eqb_neq a b)) by assumption
         | |- context [bool_decide (?P)] => rewrite (bool_decide_eq_false_2 P) by assumption
         end.

Lemma plan_validate_iff p : plan_validate p = Ok tt <-> plan_ok p.
Proof.
  unfold plan_validate, plan_ok, credential_ok. cbn [existsb]. split.
  - destruct (_ || _) eqn:E; [discriminate|]. bsplit.
    destruct (validate_policy_id _) as [[]| |]; try discriminate. cbn [rbind].
    rewrite inputs_validate_iff by (done || lia). auto 20.
  - intros (H1 & H2 & H3 & (H4 & H5) & (H6 & H7) & H8 & H9 & H10 & H11 & H12 & H13 & H14 & H15 & Hi).
    pose proof Hi as (_ & Ha & Hla & _ & Hle & _).
    rewrite H3. guards. cbn [orb negb Z.eqb Pos.eqb].
    replace ((MAX_ARGUMENTS <? len (bp_arguments p)) || (MAX_ENVIRONMENT <? len (bp_environment p))) with false by lia.
    rewrite H15. cbn [rbind]. now apply inputs_validate_iff.
Qed.

Lemma plan_validate_no_panic p : plan_validate p <> Panic.
Proof.
  unfold plan_validate. case_match; [done|]. destruct (validate_cases (bp_policy_id p)) as [[-> |[er ->]] _]; [|done].
  cbn [rbind]. apply inputs_validate_no_panic.
Qed.

Lemma launcher_validate_iff p : launcher_validate p = Ok tt <-> launcher_ok p.
Proof.
  unfold launcher_validate, launcher_ok, credential_ok. split.
  - destruct (_ || _) eqn:E; [discriminate|]. bsplit.
    rewrite inputs_validate_iff by (done || lia). auto 20.
  - intros (H1 & (H4 & H5) & (H6 & H7) & Hi). pose proof Hi as (_ & Ha & Hla & _ & Hle & _).
    guards. cbn [orb].
    replace ((MAX_ARGUMENTS <? len (lp_arguments p)) || (MAX_ENVIRONMENT <? len (lp_environment p))) with false by lia.
    now apply inputs_validate_iff.
Qed.

Lemma launcher_validate_no_panic p : launcher_validate p <> Panic.
Proof. unfold launcher_validate. case_match; [done|]. apply inputs_validate_no_panic. Qed.

(** ** The broker's plan on the wire *)

Definition plan_widths (p : BrokerLaunchPlan) : Prop :=
  u64 (bp_deadline p) /\ u64 (bp_connection_generation p) /\ u64 (bp_sequence p) /\
  u32 (bp_effective_uid p) /\ u32 (bp_effective_gid p) /\
  len (bp_session p) = 32 /\ len (bp_audit_identity p) = 32 /\ len (bp_code_identity p) = 32 /\
  len (bp_target_identity p) = 32 /\ len (bp_client_nonce p) = 32 /\ len (bp_service_nonce p) = 32.

Definition plan_body (p : BrokerLaunchPlan) : bytes :=
  bp_policy_id p ++ bp_installed_executable p ++ inputs_wire (bp_arguments p, bp_environment p).

Definition plan_head (p : BrokerLaunchPlan) (total : Z) : bytes :=
  PLAN_MAGIC ++ le_bytes 2 PLAN_VERSION ++ zeros 2 ++ le_bytes 4 total ++ le_bytes 8 (bp_deadline p)
  ++ le_bytes 8 (bp_connection_generation p) ++ le_bytes 8 (bp_sequence p)
  ++ le_bytes 4 (bp_effective_uid p) ++ le_bytes 4 (bp_effective_gid p)
  ++ bp_session p ++ bp_audit_identity p ++ bp_code_identity p ++ bp_target_identity p
  ++ bp_client_nonce p ++ bp_service_nonce p
  ++ le_bytes 4 (len (bp_policy_id p)) ++ le_bytes 4 (len (bp_installed_executable p))
  ++ le_bytes 2 (len (bp_arguments p)) ++ le_bytes 2 (len (bp_environment p)) ++ zeros 4.

Definition plan_wire (p : BrokerLaunchPlan) : bytes := plan_head p (256 + len (plan_body p)) ++ plan_body p.

Definition plan_cuts : list Z :=
  [8; 10; 12; 16; 24; 32; 40; 44; 48; 80; 112; 144; 176; 208; 240; 244; 248; 250; 252; 256].

Lemma plan_magic_len : len PLAN_MAGIC = 8.
Proof. reflexivity. Qed.

Lemma plan_head_len p total : plan_widths p -> len (plan_head p total) = 256.
Proof.
  intros (_ & _ & _ & _ & _ & H1 & H2 & H3 & H4 & H5 & H6). unfold plan_head.
  rewrite !len_app, !len_le_bytes, plan_magic_len, H1, H2, H3, H4, H5, H6. reflexivity.
Qed.

Lemma inputs_ok_counts x a e :
  inputs_ok x a e -> len x <= 4096 /\ 1 <= len a <= 64 /\ 0 <= len e <= 64 /\ 0 <= len x /\
  Forall component4_fits a /\ Forall entry_ok e.
Proof.
  intros (Hx & Ha & Hla & Hfa & Hle & He & _). apply validate_installed_executable_len in Hx as [_ Hx].
  unfold MAX_COMPONENT_BYTES, MAX_ARGUMENTS, MAX_ENVIRONMENT in *.
  pose proof (len_nonneg x). pose proof (len_nonneg e). pose proof (len_nonneg a).
  split_and!; try lia; try done.
  - destruct a; [done|]. rewrite len_cons. pose proof (len_nonneg a). lia.
  - eapply Forall_impl; [exact Hfa|]. intros c Hc. apply validate_component_iff in Hc as [Hc _].
    unfold component4_fits, MAX_COMPONENT_BYTES in *. ulia.
Qed.

(** Appending the inputs. *)
Lemma append_inputs x a e l :
  inputs_ok x a e ->
  rfor (E := SupervisorWireError) a append_component l = Ok (l ++ concat (map component4_wire a)) /\
  rfor (E := SupervisorWireError) e append_entry (l ++ concat (map component4_wire a)) = Ok (l ++ inputs_wire (a, e)).
Proof.
  intros Hi. apply inputs_ok_counts in Hi as (_ & _ & _ & _ & Ha & He). rewrite Forall_forall in Ha. rewrite Forall_forall in He. split.
  - apply rfor_append. intros c acc Hc. apply append_component_ok. auto.
  - rewrite (rfor_append _ entry4_wire); [now rewrite <- app_assoc|]. intros x' acc Hx. apply append_entry_ok. auto.
Qed.

Lemma plan_encode_iff p l :
  plan_widths p ->
  plan_encode p = Ok l <-> plan_ok p /\ l = plan_wire p /\ len l <= MAX_BROKER_PLAN_BYTES.
Proof.
  intros Hw. rewrite <- plan_validate_iff. unfold plan_encode.
  destruct (plan_validate p) as [[]| |] eqn:Ev; cbn [rbind]; try (split; [discriminate|now intros []]).
  apply plan_validate_iff in Ev. pose proof Ev as (_ & _ & _ & _ & _ & _ & _ & _ & _ & _ & _ & _ & Hp & Hi).
  pose proof (inputs_ok_counts _ _ _ Hi) as (Hx & Ha & He & Hx0 & _).
  apply validate_policy_id_len in Hp as [_ Hp]. unfold MAX_POLICY_ID_BYTES in Hp. pose proof (len_nonneg (bp_policy_id p)).
  pose proof Hw as (Hd & Hg & Hq & Hu & Hgi & H1 & H2 & H3 & H4 & H5 & H6).
  pose proof plan_magic_len. assert (len (zeros HEADER_BYTES) = 256) as Hz by reflexivity.
  set (z := zeros HEADER_BYTES) in *. unfold u32_len, u16_len. rewrite !try_from_ok by ulia. cbn [ok_or]. rd.
  match goal with |- context [?h ++ bp_policy_id p] => set (head := h) end.
  destruct (append_inputs _ _ _ ((head ++ bp_policy_id p) ++ bp_installed_executable p) Hi) as [Hr1 Hr2].
  rewrite Hr1. cbn [rbind]. rewrite Hr2. cbn [rbind]. rewrite <- !app_assoc. fold (plan_body p).
  assert (len head = 256) as Hh by (unfold head; rewrite !len_splice; exact Hz).
  pose proof (plan_head_len p (256 + len (plan_body p)) Hw) as Hph.
  pose proof (len_nonneg (plan_body p)).
  assert (len (plan_wire p) = 256 + len (plan_body p)) as Hpw by (unfold plan_wire; rewrite len_app; lia).
  unfold MAX_BROKER_PLAN_BYTES. rewrite len_app, Hh.
  destruct (_ <? _) eqn:El; bsplit; [split; [discriminate|]; intros (_ & -> & ?); lia|].
  rewrite try_from_ok by ulia. cbn [ok_or rbind].
  rewrite put_u32_ok by (rewrite ?len_app; lia). rewrite splice_app_take by (rewrite len_le_bytes; lia).
  assert (splice head 12 (le_bytes 4 (256 + len (plan_body p))) = plan_head p (256 + len (plan_body p))) as ->.
  { unfold head. by_cuts plan_cuts. reflexivity. }
  fold (plan_wire p). split; [|now intros (_ & -> & _)]. intros [= <-]. split_and!; [done|done|lia].
Qed.

(** Optional reads in range. *)
Lemma uint_get_ok n l off : 0 <= off -> 0 <= n -> off + n <= len l -> uint_get n l off = Some (field l off n).
Proof. intros. unfold uint_get. now rewrite get_range_ok by lia. Qed.

Lemma plan_array_at_ok n l off stop :
  0 <= off -> 0 <= n -> stop = off + n -> stop <= len l -> plan_array_at n l off = Ok (slice l off stop).
Proof. intros ?? -> ?. unfold plan_array_at. now rewrite get_range_ok by lia. Qed.

Lemma usize_at_ok l off : 0 <= off -> off + 4 <= len l -> usize_at l off = Ok (field l off 4).
Proof.
  intros. unfold usize_at, plan_get_u32. rewrite uint_get_ok by lia. cbn [ok_or rbind].
  pose proof (field_u32 l off ltac:(lia) ltac:(lia)). now rewrite try_from_ok by ulia.
Qed.

(** [pat]: perform the in-range optional reads of a goal. *)
Ltac pat1 :=
  match goal with
  | |- context [plan_get_u16 ?l ?o] => change (plan_get_u16 l o) with (uint_get 2 l o); rewrite (uint_get_ok 2 l o) by lia
  | |- context [plan_get_u32 ?l ?o] => change (plan_get_u32 l o) with (uint_get 4 l o); rewrite (uint_get_ok 4 l o) by lia
  | |- context [plan_get_u64 ?l ?o] => change (plan_get_u64 l o) with (uint_get 8 l o); rewrite (uint_get_ok 8 l o) by lia
  | |- context [usize_at ?l ?o] => rewrite (usize_at_ok l o) by lia
  | |- context [plan_array_at ?n ?l ?o] =>
      let stop := eval cbv in (o + n) in rewrite (plan_array_at_ok n l o stop) by lia
  | |- context [index_range ?l ?a ?b] => rewrite (index_range_ok l a b) by lia
  end; cbn [rbind ok_or].
Ltac pat := repeat pat1.

Lemma plan_fields s p total :
  256 <= len s -> plan_widths p -> u32 total -> u32 (len (bp_policy_id p)) ->
  u32 (len (bp_installed_executable p)) -> u16 (len (bp_arguments p)) -> u16 (len (bp_environment p)) ->
  slice s 0 256 = plan_head p total <->
  slice s 0 8 = PLAN_MAGIC /\ field s 8 2 = PLAN_VERSION /\ slice s 10 12 = zeros 2 /\ field s 12 4 = total /\
  field s 16 8 = bp_deadline p /\ field s 24 8 = bp_connection_generation p /\ field s 32 8 = bp_sequence p /\
  field s 40 4 = bp_effective_uid p /\ field s 44 4 = bp_effective_gid p /\
  slice s 48 80 = bp_session p /\ slice s 80 112 = bp_audit_identity p /\ slice s 112 144 = bp_code_identity p /\
  slice s 144 176 = bp_target_identity p /\ slice s 176 208 = bp_client_nonce p /\
  slice s 208 240 = bp_service_nonce p /\ field s 240 4 = len (bp_policy_id p) /\
  field s 244 4 = len (bp_installed_executable p) /\ field s 248 2 = len (bp_arguments p) /\
  field s 250 2 = len (bp_environment p) /\ slice s 252 256 = zeros 4.
Proof.
  intros Hs (Hd & Hg & Hq & Hu & Hi & H1 & H2 & H3 & H4 & H5 & H6) Ht Hpl Hxl Hal Hel. unfold plan_head.
  rewrite (slice_app_iff s 0 256 8) by (rewrite ?plan_magic_len; lia). wsplit s.
  rewrite (slice_app_iff s 48 256 80), (slice_app_iff s 80 256 112), (slice_app_iff s 112 256 144),
    (slice_app_iff s 144 256 176), (slice_app_iff s 176 256 208), (slice_app_iff s 208 256 240) by lia. wsplit s.
  rewrite (field_iff s 8 10 2 2) by (try reflexivity; lia || (unfold PLAN_VERSION; lia)).
  rewrite (field_iff s 12 16 4 4), (field_iff s 16 24 8 8), (field_iff s 24 32 8 8), (field_iff s 32 40 8 8),
    (field_iff s 40 44 4 4), (field_iff s 44 48 4 4), (field_iff s 240 244 4 4), (field_iff s 244 248 4 4),
    (field_iff s 248 250 2 2), (field_iff s 250 252 2 2) by (try reflexivity; lia || ulia).
  reflexivity.
Qed.

Definition take_plan (l : bytes) (n m : Z) (i j : nat)
  : stm Z SupervisorWireError (bytes * bytes * list bytes * list TargetEnvironmentEntry) :=
  let! policy_id := take_exact l n in
  let! installed_executable := take_exact l m in
  let! arguments := srepeat i (take_component l) in
  let! environment := srepeat j (take_entry l) in
  sret (policy_id, installed_executable, arguments, environment).

Definition take_launcher (l : bytes) (m : Z) (i j : nat)
  : stm Z SupervisorWireError (bytes * list bytes * list TargetEnvironmentEntry) :=
  let! installed_executable := take_exact l m in
  let! arguments := srepeat i (take_component l) in
  let! environment := srepeat j (take_entry l) in
  sret (installed_executable, arguments, environment).

Section Takes.
Context (l : bytes).
Hypothesis Hl : len l <= USIZE_MAX.
#[local] Abbreviation unread := (fun c : Z => slice l c (len l)).
#[local] Abbreviation valid := (fun c : Z => 0 <= c <= len l).

Lemma take_launcher_iff m i j c x a e c' :
  0 <= m -> 0 <= c <= len l ->
  take_launcher l m i j c = (Ok (x, a, e), c') <->
  0 <= c' <= len l /\ len x = m /\ (length a = i /\ Forall component4_fits a) /\
  (length e = j /\ Forall entry_ok e) /\ slice l c (len l) = x ++ inputs_wire (a, e) ++ slice l c' (len l).
Proof.
  intros Hm Hc.
  assert (take_launcher l m i j c = (let! x := take_exact l m in let! y := take_inputs l i j in sret (x, fst y, snd y)) c) as ->.
  { unfold take_launcher, take_inputs, sbind, sret. destruct (take_exact l m c) as [[?| |] ?]; try done.
    destruct (srepeat i _ _) as [[?| |] ?]; try done. now destruct (srepeat j _ _) as [[?| |] ?]. }
  rewrite (parses_then unread valid (plan_cursor_suffix l) (take_exact l m) id (fun x => len x = m) _
    (fun _ '(_, a, e) => inputs_wire (a, e))
    (fun x '(x', a, e) => x' = x /\ (length a = i /\ Forall component4_fits a) /\ length e = j /\ Forall entry_ok e));
    [|now apply take_exact_parses|clear c x a e c' Hc|done].
  - unfold id. split.
    + intros (Hc' & y & Hy & (<- & Ha & He) & Hu). auto 10.
    + intros (Hc' & Hx & Ha & He & Hu). eauto 10.
  - intros x Hx c [[x' a] e] c' Hc.
    rewrite (parses_then unread valid (plan_cursor_suffix l) _ _ _ _ (fun _ _ => []) (fun y z => z = (x, fst y, snd y))
      (take_inputs_parses l Hl i j)); [|intros; apply parses_ret; exact (plan_cursor_inj l)|done].
    split.
    + intros (Hc' & [a' e'] & [Ha He] & [= -> -> ->] & Hu). auto.
    + intros (Hc' & (-> & Ha & He) & Hu). split; [done|]. exists (a, e). auto.
Qed.

Lemma take_plan_iff n m i j c p x a e c' :
  0 <= n -> 0 <= m -> 0 <= c <= len l ->
  take_plan l n m i j c = (Ok (p, x, a, e), c') <->
  0 <= c' <= len l /\ len p = n /\ len x = m /\ (length a = i /\ Forall component4_fits a) /\
  (length e = j /\ Forall entry_ok e) /\ slice l c (len l) = p ++ x ++ inputs_wire (a, e) ++ slice l c' (len l).
Proof.
  intros Hn Hm Hc.
  assert (take_plan l n m i j c =
    (let! p := take_exact l n in let! y := take_launcher l m i j in sret (p, y.1.1, y.1.2, y.2)) c) as ->.
  { unfold take_plan, take_launcher, sbind, sret. destruct (take_exact l n c) as [[?| |] ?]; try done.
    destruct (take_exact l m _) as [[?| |] ?]; try done.
    destruct (srepeat i _ _) as [[?| |] ?]; try done. now destruct (srepeat j _ _) as [[?| |] ?]. }
  unfold sbind, sret. pose proof (take_exact_parses l Hl n Hn) as Hp. unfold parses, id in Hp. split.
  - destruct (take_exact l n c) as [[p'| |] c1] eqn:E1; try discriminate.
    apply Hp in E1 as (Hc1 & Hp' & Hu1); [|done].
    destruct (take_launcher l m i j c1) as [[[[x' a'] e']| |] c2] eqn:E2; try discriminate.
    apply take_launcher_iff in E2 as (Hc2 & Hx & Ha & He & Hu2); [|done..]. intros [= <- <- <- <- <-].
    rewrite Hu1, Hu2. auto 10.
  - intros (Hc' & Hpn & Hx & Ha & He & Hu).
    destruct (plan_cursor_suffix l c p _ Hc Hu) as (c1 & Hc1 & Hu1). cbn beta in Hu1.
    assert (take_exact l n c = (Ok p, c1)) as ->.
    { apply Hp; [done|]. rewrite Hu1. auto. }
    rewrite (proj2 (take_launcher_iff m i j c1 x a e c' Hm Hc1)); [done|]. auto 10.
Qed.

Lemma take_plan_safe n m i j c : 0 <= n -> 0 <= m -> 0 <= c <= len l -> fst (take_plan l n m i j c) <> Panic.
Proof.
  intros Hn Hm Hc. assert (safe valid (take_plan l n m i j)) as H; [|now apply H].
  unfold take_plan. apply safe_bind; [now apply take_exact_safe|]. intros p.
  apply safe_bind; [now apply take_exact_safe|]. intros x.
  apply safe_bind; [now apply safe_repeat, take_component_safe|]. intros a.
  apply safe_bind; [now apply safe_repeat, take_entry_safe|]. intros e. apply safe_ret.
Qed.

Lemma take_launcher_safe m i j c : 0 <= m -> 0 <= c <= len l -> fst (take_launcher l m i j c) <> Panic.
Proof.
  intros Hm Hc. assert (safe valid (take_launcher l m i j)) as H; [|now apply H].
  unfold take_launcher. apply safe_bind; [now apply take_exact_safe|]. intros x.
  apply safe_bind; [now apply safe_repeat, take_component_safe|]. intros a.
  apply safe_bind; [now apply safe_repeat, take_entry_safe|]. intros e. apply safe_ret.
Qed.

End Takes.

(** [reject]: the first guard of the goal did not refuse. *)
Ltac reject := match goal with |- (if ?b then _ else _) = _ -> _ => destruct b eqn:?; [discriminate|] end.

Lemma to_nat_len {A} (l : list A) : Z.to_nat (len l) = length l.
Proof. unfold len. apply Nat2Z.id. Qed.

Lemma plan_decode_iff l p :
  plan_decode_untrusted l = Ok p <->
  plan_widths p /\ plan_ok p /\ l = plan_wire p /\ len l <= MAX_BROKER_PLAN_BYTES.
Proof.
  rewrite <- plan_validate_iff. unfold plan_decode_untrusted, HEADER_BYTES, MAX_BROKER_PLAN_BYTES. split.
  - destruct (_ || _) eqn:E; [discriminate|]. bsplit. pat.
    do 4 reject. bsplit.
    assert (field l 12 4 = len l) as Htot.
    { match goal with H : Some (field l 12 4) = try_from _ _ |- _ => rewrite try_from_ok in H by ulia; now injection H end. }
    assert (field l 8 2 = PLAN_VERSION) as Hver.
    { match goal with H : Some (field l 8 2) = _ |- _ => now injection H end. }
    pose proof (field_u32 l 240 ltac:(lia) ltac:(lia)). pose proof (field_u32 l 244 ltac:(lia) ltac:(lia)).
    pose proof (field_u16 l 248 ltac:(lia) ltac:(lia)). pose proof (field_u16 l 250 ltac:(lia) ltac:(lia)).
    fold (take_plan l (field l 240 4) (field l 244 4) (Z.to_nat (field l 248 2)) (Z.to_nat (field l 250 2))).
    destruct (take_plan _ _ _ _ _ _) as [[[[[q x] a] e]| |] c] eqn:Et; try discriminate. cbn [rbind].
    apply take_plan_iff in Et as (Hc & Hq & Hx & [Ha Haf] & [He Hef] & Hu); [|ulia..].
    reject. bsplit. subst c. rewrite (slice_nil l (len l)), app_nil_r in Hu by lia.
    set (p' := {| bp_deadline := _ |}).
    destruct (plan_validate p') as [[]| |] eqn:Ev; try discriminate. intros [= <-].
    assert (plan_widths p') as Hw.
    { unfold plan_widths, p'; cbn. rewrite !len_slice by lia. split_and!; (fwidth || lia). }
    split; [done|]. split; [done|]. split; [|lia].
    assert (slice l 256 (len l) = plan_body p') as Hb by exact Hu.
    assert (len (plan_body p') = len l - 256) as Hbl by (rewrite <- Hb, len_slice; lia).
    unfold plan_wire. apply (whole_iff _ _ _ 256); [now apply plan_head_len|]. split; [lia|]. split; [|done].
    rewrite Hbl. replace (256 + (len l - 256)) with (len l) by lia.
    assert (len a = field l 248 2) as Ha' by (unfold len; ulia).
    assert (len e = field l 250 2) as He' by (unfold len; ulia).
    apply plan_fields; [lia|done|ulia|unfold p'; cbn [bp_policy_id bp_installed_executable bp_arguments bp_environment];
      rewrite ?Hq, ?Hx, ?Ha', ?He'; done..|].
    unfold p'; cbn; rewrite Hq, Hx, Ha', He'; split_and!; done.
  - intros (Hw & Hv & Heq & Hmax). pose proof Hv as Hok. apply plan_validate_iff in Hok.
    pose proof Hok as (_ & _ & _ & _ & _ & _ & _ & _ & _ & _ & _ & _ & Hp & Hi).
    pose proof (inputs_ok_counts _ _ _ Hi) as (Hx & Ha & He & Hx0 & Haf & Hef).
    apply validate_policy_id_len in Hp as [_ Hp]. unfold MAX_POLICY_ID_BYTES in Hp.
    pose proof (len_nonneg (bp_policy_id p)).
    apply (whole_iff _ _ _ 256) in Heq as (Hl & Hh & Hb); [|now apply plan_head_len].
    assert (256 + len (plan_body p) = len l) as Htot by (rewrite <- Hb, len_slice; lia). rewrite Htot in Hh.
    apply plan_fields in Hh as (F1 & F2 & F3 & F4 & F5 & F6 & F7 & F8 & F9 & F10 & F11 & F12 & F13 & F14 & F15 & F16 & F17 & F18 & F19 & F20);
      try done; try ulia.
    replace ((len l <? 256) || (81920 <? len l)) with false by lia. pat.
    rewrite F1, F2, F3, F4, F16, F17, F18, F19, F20, try_from_ok by ulia.
    rewrite !bool_decide_eq_true_2 by done. cbn [negb orb].
    unfold MAX_POLICY_ID_BYTES, MAX_COMPONENT_BYTES, MAX_ARGUMENTS, MAX_ENVIRONMENT.
    replace (_ || _ || _ || _ || _) with false by lia.
    fold (take_plan l (len (bp_policy_id p)) (len (bp_installed_executable p)) (Z.to_nat (len (bp_arguments p))) (Z.to_nat (len (bp_environment p)))).
    assert (take_plan l (len (bp_policy_id p)) (len (bp_installed_executable p)) (Z.to_nat (len (bp_arguments p)))
              (Z.to_nat (len (bp_environment p))) 256
            = (Ok (bp_policy_id p, bp_installed_executable p, bp_arguments p, bp_environment p), len l)) as ->.
    { apply take_plan_iff; try lia; [ulia|]. rewrite (slice_nil l (len l)), app_nil_r by lia.
      rewrite !to_nat_len. split_and!; try done; lia. }
    cbn [rbind]. rewrite Z.eqb_refl. cbn [negb].
    rewrite F5, F6, F7, F8, F9, F10, F11, F12, F13, F14, F15. destruct p; cbn in *. now rewrite Hv.
Qed.

Lemma plan_decode_no_panic l : plan_decode_untrusted l <> Panic.
Proof.
  unfold plan_decode_untrusted, HEADER_BYTES, MAX_BROKER_PLAN_BYTES.
  destruct (_ || _) eqn:E; [done|]. bsplit. pat. repeat (case_match; [done|]).
  pose proof (field_u32 l 240 ltac:(lia) ltac:(lia)). pose proof (field_u32 l 244 ltac:(lia) ltac:(lia)).
  fold (take_plan l (field l 240 4) (field l 244 4) (Z.to_nat (field l 248 2)) (Z.to_nat (field l 250 2))).
  assert (fst (take_plan l (field l 240 4) (field l 244 4) (Z.to_nat (field l 248 2)) (Z.to_nat (field l 250 2)) 256)
          <> Panic) as Hs by (apply take_plan_safe; ulia).
  destruct (take_plan _ _ _ _ _ _) as [[[[[q x] a] e]| |] c]; cbn [fst] in Hs; try done. cbn [rbind].
  case_match; [done|]. match goal with |- context [plan_validate ?p] => pose proof (plan_validate_no_panic p) end.
  now destruct (plan_validate _).
Qed.
