(* ===== verification/LauncherCodec.v ===== *)
(** * LauncherCodec: the launcher's plan has one encoding

    The frame the broker passes to the launcher, and the acknowledgement and
    prefixes of both frames. *)

From S2P Require Import Prelude Bytes Tools Negotiation Native SupervisorWire SupervisorCodec BrokerReport BrokerPlan BrokerCodec.

Definition launcher_widths (p : LauncherExecPlan) : Prop :=
  u64 (lp_deadline p) /\ u32 (lp_effective_uid p) /\ u32 (lp_effective_gid p).

Definition launcher_body (p : LauncherExecPlan) : bytes :=
  lp_installed_executable p ++ inputs_wire (lp_arguments p, lp_environment p).

Definition launcher_head (p : LauncherExecPlan) (total : Z) : bytes :=
  LAUNCHER_MAGIC ++ le_bytes 2 LAUNCHER_VERSION ++ zeros 2 ++ le_bytes 4 total ++ le_bytes 8 (lp_deadline p)
  ++ le_bytes 4 (lp_effective_uid p) ++ le_bytes 4 (lp_effective_gid p)
  ++ le_bytes 4 (len (lp_installed_executable p))
  ++ le_bytes 2 (len (lp_arguments p)) ++ le_bytes 2 (len (lp_environment p)).

Definition launcher_wire (p : LauncherExecPlan) : bytes :=
  launcher_head p (40 + len (launcher_body p)) ++ launcher_body p.

Definition launcher_cuts : list Z := [8; 10; 12; 16; 24; 28; 32; 36; 38; 40].

Lemma launcher_magic_len : len LAUNCHER_MAGIC = 8.
Proof. reflexivity. Qed.

Lemma launcher_head_len p total : len (launcher_head p total) = 40.
Proof. unfold launcher_head. rewrite !len_app, !len_le_bytes, launcher_magic_len. reflexivity. Qed.

Lemma launcher_encode_iff p l :
  launcher_widths p ->
  launcher_encode p = Ok l <-> launcher_ok p /\ l = launcher_wire p /\ len l <= MAX_BROKER_PLAN_BYTES.
Proof.
  intros Hw. rewrite <- launcher_validate_iff. unfold launcher_encode.
  destruct (launcher_validate p) as [[]| |] eqn:Ev; cbn [rbind]; try (split; [discriminate|now intros []]).
  apply launcher_validate_iff in Ev. pose proof Ev as (_ & _ & _ & Hi).
  pose proof (inputs_ok_counts _ _ _ Hi) as (Hx & Ha & He & Hx0 & _).
  pose proof Hw as (Hd & Hu & Hgi).
  pose proof launcher_magic_len. assert (len (zeros LAUNCHER_HEADER_BYTES) = 40) as Hz by reflexivity.
  set (z := zeros LAUNCHER_HEADER_BYTES) in *. unfold u32_len, u16_len. rewrite !try_from_ok by ulia. cbn [ok_or]. rd.
  match goal with |- context [?h ++ lp_installed_executable p] => set (head := h) end.
  destruct (append_inputs _ _ _ (head ++ lp_installed_executable p) Hi) as [Hr1 Hr2].
  rewrite Hr1. cbn [rbind]. rewrite Hr2. cbn [rbind]. rewrite <- !app_assoc. fold (launcher_body p).
  assert (len head = 40) as Hh by (unfold head; rewrite !len_splice; exact Hz).
  pose proof (launcher_head_len p (40 + len (launcher_body p))) as Hph.
  pose proof (len_nonneg (launcher_body p)).
  assert (len (launcher_wire p) = 40 + len (launcher_body p)) as Hpw by (unfold launcher_wire; rewrite len_app; lia).
  unfold MAX_BROKER_PLAN_BYTES. rewrite len_app, Hh.
  destruct (_ <? _) eqn:El; bsplit; [split; [discriminate|]; intros (_ & -> & ?); lia|].
  rewrite try_from_ok by ulia. cbn [ok_or rbind].
  rewrite put_u32_ok by (rewrite ?len_app; lia). rewrite splice_app_take by (rewrite len_le_bytes; lia).
  assert (splice head 12 (le_bytes 4 (40 + len (launcher_body p))) = launcher_head p (40 + len (launcher_body p))) as ->.
  { unfold head. by_cuts launcher_cuts. reflexivity. }
  fold (launcher_wire p). split; [|now intros (_ & -> & _)]. intros [= <-]. split_and!; [done|done|lia].
Qed.

Lemma launcher_fields s p total :
  40 <= len s -> launcher_widths p -> u32 total ->
  u32 (len (lp_installed_executable p)) -> u16 (len (lp_arguments p)) -> u16 (len (lp_environment p)) ->
  slice s 0 40 = launcher_head p total <->
  slice s 0 8 = LAUNCHER_MAGIC /\ field s 8 2 = LAUNCHER_VERSION /\ slice s 10 12 = zeros 2 /\ field s 12 4 = total /\
  field s 16 8 = lp_deadline p /\ field s 24 4 = lp_effective_uid p /\ field s 28 4 = lp_effective_gid p /\
  field s 32 4 = len (lp_installed_executable p) /\ field s 36 2 = len (lp_arguments p) /\
  field s 38 2 = len (lp_environment p).
Proof.
  intros Hs (Hd & Hu & Hi) Ht Hxl Hal Hel. unfold launcher_head.
  rewrite (slice_app_iff s 0 40 8) by (rewrite ?launcher_magic_len; lia). wsplit s.
  rewrite (field_iff s 8 10 2 2) by (try reflexivity; lia || (unfold LAUNCHER_VERSION; lia)).
  rewrite (field_iff s 12 16 4 4), (field_iff s 16 24 8 8), (field_iff s 24 28 4 4), (field_iff s 28 32 4 4),
    (field_iff s 32 36 4 4), (field_iff s 36 38 2 2), (field_iff s 38 40 2 2) by (try reflexivity; lia || ulia).
  reflexivity.
Qed.

Lemma launcher_decode_iff l p :
  launcher_decode_untrusted l = Ok p <->
  launcher_widths p /\ launcher_ok p /\ l = launcher_wire p /\ len l <= MAX_BROKER_PLAN_BYTES.
Proof.
  rewrite <- launcher_validate_iff. unfold launcher_decode_untrusted, LAUNCHER_HEADER_BYTES, MAX_BROKER_PLAN_BYTES. split.
  - destruct (_ || _) eqn:E; [discriminate|]. bsplit. pat. do 3 reject. bsplit.
    assert (field l 12 4 = len l) as Htot.
    { match goal with H : Some (field l 12 4) = try_from _ _ |- _ => rewrite try_from_ok in H by ulia; now injection H end. }
    assert (field l 8 2 = LAUNCHER_VERSION) as Hver.
    { match goal with H : Some (field l 8 2) = _ |- _ => now injection H end. }
    pose proof (field_u32 l 32 ltac:(lia) ltac:(lia)).
    pose proof (field_u16 l 36 ltac:(lia) ltac:(lia)). pose proof (field_u16 l 38 ltac:(lia) ltac:(lia)).
    fold (take_launcher l (field l 32 4) (Z.to_nat (field l 36 2)) (Z.to_nat (field l 38 2))).
    destruct (take_launcher _ _ _ _ _) as [[[[x a] e]| |] c] eqn:Et; try discriminate. cbn [rbind].
    apply take_launcher_iff in Et as (Hc & Hx & [Ha Haf] & [He Hef] & Hu); [|ulia..].
    reject. bsplit. subst c. rewrite (slice_nil l (len l)), app_nil_r in Hu by lia.
    set (p' := {| lp_deadline := _ |}).
    destruct (launcher_validate p') as [[]| |] eqn:Ev; try discriminate. intros [= <-].
    assert (launcher_widths p') as Hw by (unfold launcher_widths, p'; cbn; split_and!; fwidth).
    split; [done|]. split; [done|]. split; [|lia].
    assert (slice l 40 (len l) = launcher_body p') as Hb by exact Hu.
    assert (len (launcher_body p') = len l - 40) as Hbl by (rewrite <- Hb, len_slice; lia).
    unfold launcher_wire. apply (whole_iff _ _ _ 40); [now apply launcher_head_len|]. split; [lia|]. split; [|done].
    rewrite Hbl. replace (40 + (len l - 40)) with (len l) by lia.
    assert (len a = field l 36 2) as Ha' by (unfold len; ulia).
    assert (len e = field l 38 2) as He' by (unfold len; ulia).
    apply launcher_fields; [lia|done|ulia|unfold p'; cbn [lp_installed_executable lp_arguments lp_environment];
      rewrite ?Hx, ?Ha', ?He'; done..|].
    unfold p'; cbn; rewrite Hx, Ha', He'; split_and!; done.
  - intros (Hw & Hv & Heq & Hmax). pose proof Hv as Hok. apply launcher_validate_iff in Hok.
    pose proof Hok as (_ & _ & _ & Hi).
    pose proof (inputs_ok_counts _ _ _ Hi) as (Hx & Ha & He & Hx0 & Haf & Hef).
    apply (whole_iff _ _ _ 40) in Heq as (Hl & Hh & Hb); [|now apply launcher_head_len].
    assert (40 + len (launcher_body p) = len l) as Htot by (rewrite <- Hb, len_slice; lia). rewrite Htot in Hh.
    apply launcher_fields in Hh as (F1 & F2 & F3 & F4 & F5 & F6 & F7 & F8 & F9 & F10); try done; try ulia.
    replace ((len l <? 40) || (81920 <? len l)) with false by lia. pat.
    rewrite F1, F2, F3, F4, F8, F9, F10, try_from_ok by ulia.
    rewrite !bool_decide_eq_true_2 by done. cbn [negb orb].
    unfold MAX_COMPONENT_BYTES, MAX_ARGUMENTS, MAX_ENVIRONMENT. replace (_ || _ || _ || _) with false by lia.
    fold (take_launcher l (len (lp_installed_executable p)) (Z.to_nat (len (lp_arguments p))) (Z.to_nat (len (lp_environment p)))).
    assert (take_launcher l (len (lp_installed_executable p)) (Z.to_nat (len (lp_arguments p)))
              (Z.to_nat (len (lp_environment p))) 40
            = (Ok (lp_installed_executable p, lp_arguments p, lp_environment p), len l)) as ->.
    { apply take_launcher_iff; try lia; [ulia|]. rewrite (slice_nil l (len l)), app_nil_r by lia.
      rewrite !to_nat_len. split_and!; try done; lia. }
    cbn [rbind]. rewrite Z.eqb_refl. cbn [negb].
    rewrite F5, F6, F7. destruct p; cbn in *. now rewrite Hv.
Qed.

Lemma launcher_decode_no_panic l : launcher_decode_untrusted l <> Panic.
Proof.
  unfold launcher_decode_untrusted, LAUNCHER_HEADER_BYTES, MAX_BROKER_PLAN_BYTES.
  destruct (_ || _) eqn:E; [done|]. bsplit. pat. repeat (case_match; [done|]).
  pose proof (field_u32 l 32 ltac:(lia) ltac:(lia)).
  fold (take_launcher l (field l 32 4) (Z.to_nat (field l 36 2)) (Z.to_nat (field l 38 2))).
  assert (fst (take_launcher l (field l 32 4) (Z.to_nat (field l 36 2)) (Z.to_nat (field l 38 2)) 40) <> Panic) as Hs
    by (apply take_launcher_safe; ulia).
  destruct (take_launcher _ _ _ _ _) as [[[[x a] e]| |] c]; cbn [fst] in Hs; try done. cbn [rbind].
  case_match; [done|]. match goal with |- context [launcher_validate ?p] => pose proof (launcher_validate_no_panic p) end.
  now destruct (launcher_validate _).
Qed.

(** The launcher's part of a plan is within the limits of the whole. *)
Lemma launcher_of_broker p :
  plan_widths p -> plan_ok p -> len (plan_wire p) <= MAX_BROKER_PLAN_BYTES ->
  launcher_widths (from_broker p) /\ launcher_ok (from_broker p) /\
  len (launcher_wire (from_broker p)) <= MAX_BROKER_PLAN_BYTES.
Proof.
  intros Hw Hok Hlen. pose proof (plan_head_len p (256 + len (plan_body p)) Hw) as Hh.
  destruct Hw as (Hd & _ & _ & Hu & Hg & _).
  pose proof Hok as (H1 & _ & _ & H2 & H3 & _ & _ & _ & _ & _ & _ & _ & Hp & Hi). split; [done|]. split; [done|].
  unfold plan_wire, launcher_wire, plan_body, launcher_body in *. rewrite !len_app in *.
  rewrite launcher_head_len, Hh in *. cbn [from_broker lp_installed_executable lp_arguments lp_environment] in *.
  pose proof (len_nonneg (bp_policy_id p)). lia.
Qed.

(** * The plan a service stages is the plan that is launched

    The service, the broker and the launcher are three processes that pass one
    plan along as bytes. *)

Section Chain.
Context {W : Type} {C : Clock W} {U : UptimeClock W} {S : Sha256}.

(** The frame of a plan is read back by the prefix parser. *)
Lemma plan_frame_prefix p l (w : W) :
  plan_widths p -> plan_ok p -> l = plan_wire p -> len l <= MAX_BROKER_PLAN_BYTES ->
  24 <= len l /\
  parse_broker_plan_prefix (slice l 0 24) (len l) w =
  (let! deadline := from_wire (bp_deadline p) in sret {| pp_frame_len := len l; pp_deadline := deadline |}) w.
Proof.
  intros Hw Hok Heq Hmax. pose proof Hok as (_ & _ & _ & _ & _ & _ & _ & _ & _ & _ & _ & _ & Hp & Hi).
  pose proof (inputs_ok_counts _ _ _ Hi) as (Hx & Ha & He & Hx0 & _).
  apply validate_policy_id_len in Hp as [_ Hp]. unfold MAX_POLICY_ID_BYTES in Hp. unfold MAX_BROKER_PLAN_BYTES in *.
  pose proof (len_nonneg (bp_policy_id p)).
  apply (whole_iff _ _ _ 256) in Heq as (Hl & Hh & Hb); [|now apply plan_head_len].
  assert (256 + len (plan_body p) = len l) as Htot by (rewrite <- Hb, len_slice; lia). rewrite Htot in Hh.
  apply plan_fields in Hh as (F1 & F2 & F3 & F4 & F5 & _); try done; try ulia.
  split; [lia|]. set (x := slice l 0 24). assert (len x = 24) as Hlx by (unfold x; rewrite len_slice; lia).
  assert (forall a b, 0 <= a <= b -> b <= 24 -> slice x a b = slice l a b) as Hs.
  { intros a b Hab Hb'. unfold x. rewrite slice_slice by lia. f_equal; lia. }
  assert (forall a n, 0 <= a -> 0 <= n -> a + n <= 24 -> field x a n = field l a n) as Hf.
  { intros a n ? ? ?. unfold field. now rewrite Hs by lia. }
  unfold parse_broker_plan_prefix, parse_prefix, HEADER_BYTES, MAX_BROKER_PLAN_BYTES.
  replace ((256 <=? len l) && (len l <=? 81920)) with true by lia. cbn [negb].
  unfold sbind at 1, slift. rewrite index_range_ok, Hs, F1 by lia. unfold plan_get_u16, plan_get_u32, plan_get_u64.
  rewrite uint_get_ok, Hf, F2 by lia. rewrite !bool_decide_eq_true_2 by done. cbn [negb orb].
  unfold sbind at 1. rewrite index_range_ok, Hs, F3 by lia.
  rewrite uint_get_ok, Hf, F4, try_from_ok by ulia. rewrite !bool_decide_eq_true_2 by done. cbn [negb orb].
  unfold sbind at 1. rewrite uint_get_ok, Hf, F5 by lia. done.
Qed.

(** C32: The plan a service stages is the plan that is launched: exactly one
    frame decodes to the plan; the broker that receives it binds the plan's own
    deadline and recovers every field; the launcher frame it passes on decodes
    to the executable, arguments, environment and credentials of that plan
    under the same deadline; and the service and the broker derive the same
    binding for the trace report. *)
Theorem broker_chain_agreement p frame (w : W) :
  plan_widths p -> plan_encode p = Ok frame ->
  (forall l, plan_decode_untrusted l = Ok p <-> l = frame) /\
  let '(outcome, w') := from_wire (bp_deadline p) w in
  match outcome with
  | Ok deadline =>
      let received := {| rp_plan := p; rp_deadline := deadline; rp_digest := broker_plan_digest frame |} in
      let exact := activate (acknowledge_exact_parent received) in
      ReceivedBrokerLaunchPlan_decode frame w = (Ok received, w') /\
      trace_report_binding_from_frame frame = Ok (exact_trace_report_binding exact) /\
      exists launcher_bytes, launcher_frame exact = Ok launcher_bytes /\
        ReceivedLauncherExecPlan_decode_with_deadline launcher_bytes deadline
        = Ok {| rl_plan := from_broker p; rl_deadline := deadline |}
  | Err e => ReceivedBrokerLaunchPlan_decode frame w = (Err e, w')
  | Panic => ReceivedBrokerLaunchPlan_decode frame w = (Panic, w')
  end.
Proof.
  intros Hw He. apply (plan_encode_iff _ _ Hw) in He as (Hok & Hf & Hmax).
  assert (plan_decode_untrusted frame = Ok p) as Hd by (apply plan_decode_iff; subst; auto).
  split. { intros l. rewrite plan_decode_iff. split; [now intros (_ & _ & -> & _)|intros ->; subst; auto]. }
  destruct (plan_frame_prefix p frame w Hw Hok Hf Hmax) as [H24 Hprefix].
  assert (ReceivedBrokerLaunchPlan_decode frame w =
          (let! parsed := parse_broker_plan_prefix (slice frame 0 24) (len frame) in
           slift (ReceivedBrokerLaunchPlan_decode_with_deadline frame (pp_deadline parsed))) w) as Hdec.
  { unfold ReceivedBrokerLaunchPlan_decode, BROKER_PLAN_PREFIX_BYTES, sbind at 1, slift. now rewrite get_range_ok by lia. }
  unfold sbind in Hdec. rewrite Hprefix in Hdec. unfold sbind in Hdec.
  assert (forall d w0 w1, from_wire (bp_deadline p) w0 = (Ok d, w1) -> db_wire d = bp_deadline p) as Hwire.
  { intros d w0 w1. unfold from_wire, sbind. destruct (to_local_instant (bp_deadline p) w0) as [[x| |] t]; try discriminate.
    now intros [= <- _]. }
  destruct (from_wire (bp_deadline p) w) as [[deadline|e|] w'] eqn:Ew; [|exact Hdec..].
  specialize (Hwire _ _ _ Ew). cbn [sret pp_deadline] in Hdec.
  assert (ReceivedBrokerLaunchPlan_decode_with_deadline frame deadline
          = Ok {| rp_plan := p; rp_deadline := deadline; rp_digest := broker_plan_digest frame |}) as Hr.
  { unfold ReceivedBrokerLaunchPlan_decode_with_deadline. rewrite Hd. cbn [rbind]. now rewrite Hwire, Z.eqb_refl. }
  split; [rewrite Hdec; unfold slift, sret; cbn; now rewrite Hr|]. split.
  - unfold trace_report_binding_from_frame. now rewrite Hd.
  - assert (len (plan_wire p) <= MAX_BROKER_PLAN_BYTES) as Hmax' by now rewrite <- Hf.
    destruct (launcher_of_broker p Hw Hok Hmax') as (Hlw & Hlo & Hll).
    exists (launcher_wire (from_broker p)). split; [now apply launcher_encode_iff|].
    unfold ReceivedLauncherExecPlan_decode_with_deadline.
    assert (launcher_decode_untrusted (launcher_wire (from_broker p)) = Ok (from_broker p)) as -> by now apply launcher_decode_iff.
    cbn [rbind from_broker lp_deadline]. now rewrite Hwire, Z.eqb_refl.
Qed.

End Chain.
