(* ===== verification/BrokerReportTheory.v ===== *)
(** * BrokerReportTheory: a report is received whole, however it arrives

    The peer's bytes reach the service in pieces, with interruptions and pauses
    between them. Polled once more than there are pauses, the receiver answers,
    and it accepts exactly the one frame it expects, ended by the peer. *)

From S2P Require Import Prelude Bytes Tools Negotiation Native SupervisorWire SupervisorCodec BrokerReport BrokerPlan BrokerCodec LauncherCodec.
From Stdlib Require Import Strings.String.

(** ** What a stream brings *)

(** The bytes up to the end of the stream. *)
Fixpoint arrived (reads : list ReadEvent) : bytes :=
  match reads with
  | Arrives first rest :: reads => (first :: rest) ++ arrived reads
  | Interrupted :: reads | WouldBlock :: reads => arrived reads
  | _ => []
  end.

(** The peer ends the stream, and no read fails before. *)
Fixpoint clean (reads : list ReadEvent) : bool :=
  match reads with
  | EndOfStream :: _ => true
  | Arrives _ _ :: reads | Interrupted :: reads | WouldBlock :: reads => clean reads
  | _ => false
  end.

Fixpoint pauses (reads : list ReadEvent) : nat :=
  match reads with
  | WouldBlock :: reads => S (pauses reads)
  | Arrives _ _ :: reads | Interrupted :: reads => pauses reads
  | _ => 0
  end.

(** ** The two loops *)

Lemma splice_slice {A} (l s : list A) o :
  0 <= o -> o + len s <= len l -> slice (splice l o s) 0 (o + len s) = slice l 0 o ++ s.
Proof.
  intros Ho Hs. pose proof (len_nonneg s). rewrite <- (slice_cat _ 0 o) by lia.
  rewrite slice_splice_disjoint by lia. now rewrite slice_splice_eq by lia.
Qed.

(** What a filling loop leaves behind: the bytes in the buffer followed by
    those still to come are the same. *)
Definition fill_keeps (reads : list ReadEvent) (buffer : bytes) (filled : Z)
  (reads' : list ReadEvent) (buffer' : bytes) (filled' : Z) : Prop :=
  len buffer' = len buffer /\ filled <= filled' <= len buffer /\
  slice buffer' 0 filled' ++ arrived reads' = slice buffer 0 filled ++ arrived reads /\ clean reads' = true.

Lemma fill_report_spec reads buffer filled :
  clean reads = true -> 0 <= filled <= len buffer ->
  exists out reads' buffer' filled', fill_report reads buffer filled = (out, (reads', buffer', filled')) /\
    fill_keeps reads buffer filled reads' buffer' filled' /\
    match out with
    | Ok (Some _) => filled' = len buffer /\ (pauses reads' <= pauses reads)%nat
    | Ok None => (pauses reads' < pauses reads)%nat
    | Err e => e = ReportError_Malformed /\ arrived reads' = [] /\ filled' < len buffer
    | Panic => False
    end.
Proof.
  unfold fill_keeps. revert buffer filled. induction reads as [|event reads IH]; intros buffer filled Hc Hf; [done|].
  cbn [fill_report]. destruct (filled <? len buffer) eqn:E; bsplit; cbn [negb].
  2:{ assert (filled = len buffer) as -> by lia. do 4 eexists. split; [reflexivity|].
      split; [split_and!; (done || lia)|]. split; [done|lia]. }
  destruct event as [first rest| | | |]; cbn [clean arrived pauses] in *; try discriminate.
  - set (data := first :: rest) in *. set (count := Z.min (len data) (len buffer - filled)).
    assert (0 < len data) as Hd by (unfold data; rewrite len_cons; pose proof (len_nonneg rest); lia).
    assert (len (slice data 0 count) = count) as Hs by (rewrite len_slice; lia).
    assert (len (splice buffer filled (slice data 0 count)) = len buffer) as Hb by apply len_splice.
    assert (slice (splice buffer filled (slice data 0 count)) 0 (filled + count) ++ slice data count (len data)
            = slice buffer 0 filled ++ data) as Hkeep.
    { pose proof (splice_slice buffer (slice data 0 count) filled ltac:(lia) ltac:(lia)) as Hx. rewrite Hs in Hx.
      rewrite Hx, <- app_assoc, slice_cat by lia. f_equal. now apply slice_full. }
    destruct (slice data count (len data)) as [|next more] eqn:Em.
    + destruct (IH (splice buffer filled (slice data 0 count)) (filled + count) Hc ltac:(lia))
        as (out & r & b & f & -> & (H1 & H2 & H3 & H4) & Ho).
      do 4 eexists. split; [reflexivity|]. rewrite Hb in *. rewrite app_nil_r in Hkeep.
      split; [split_and!; (lia || done || idtac)|exact Ho]. rewrite H3, Hkeep. now rewrite app_assoc.
    + do 4 eexists. split; [reflexivity|]. cbn [arrived clean pauses].
      assert (count = len buffer - filled) as Hfull.
      { destruct (decide (len data <= len buffer - filled)); [|lia]. apply (f_equal len) in Em.
        rewrite len_slice, len_cons in Em by lia. pose proof (len_nonneg more). lia. }
      split; [split_and!; (lia || done || idtac)|split; lia].
      rewrite app_assoc, Hkeep. now rewrite app_assoc.
  - apply IH; done.
  - do 4 eexists. split; [reflexivity|]. split; [split_and!; (done || lia)|lia].
  - do 4 eexists. split; [reflexivity|]. split; [split_and!; (done || lia)|]. auto.
Qed.

Lemma await_end_spec reads :
  clean reads = true ->
  exists out reads', await_end reads = (out, reads') /\ clean reads' = true /\
    match out with
    | Ok (Some _) => arrived reads = []
    | Ok None => arrived reads' = arrived reads /\ (pauses reads' < pauses reads)%nat
    | Err e => e = ReportError_Malformed /\ arrived reads <> []
    | Panic => False
    end.
Proof.
  induction reads as [|event reads IH]; intros Hc; [done|]. destruct event as [first [|next more]| | | |];
    cbn [await_end clean arrived pauses] in *; try discriminate; eauto 10.
Qed.

(** ** Polling *)

Section Polling.
Context {W : Type} {C : Clock W}.

(** The next [n] readings of the clock are before [deadline]. *)
Fixpoint early (deadline : Z) (n : nat) (w : W) : Prop :=
  match n with
  | O => True
  | S n => fst (instant_now w) < deadline /\ early deadline n (snd (instant_now w))
  end.

Lemma early_le d n m w : (n <= m)%nat -> early d m w -> early d n w.
Proof.
  revert m w. induction n as [|n IH]; intros m w Hnm He; [done|]. destruct m as [|m]; [lia|].
  destruct He as [H1 H2]. split; [done|]. apply (IH m); [lia|done].
Qed.

(** Poll until there is an answer, at most [n] times. *)
Fixpoint poll_until (n : nat) (s : BrokerTraceReportReceiver * W)
  : res BrokerTraceReportError (option ReceivedBrokerTraceReport) * (BrokerTraceReportReceiver * W) :=
  match n with
  | O => (Ok None, s)
  | S n => match poll s with
           | (Ok None, s) => poll_until n s
           | r => r
           end
  end.

(** The receiver has read a part of [data] and the rest is still to come. *)
Definition receiving (expected : BrokerTraceReportBinding) (deadline : Z) (data : bytes) (n : nat)
  (self : BrokerTraceReportReceiver) : Prop :=
  rr_finished self = false /\ rr_expected self = expected /\ rr_deadline self = deadline /\
  len (rr_bytes self) = 224 /\ 0 <= rr_filled self <= 224 /\
  exists stream, rr_stream self = Some stream /\ clean (us_reads stream) = true /\
    (pauses (us_reads stream) <= n)%nat /\
    slice (rr_bytes self) 0 (rr_filled self) ++ arrived (us_reads stream) = data.

(** The answer to [data]. *)
Definition answers (expected : BrokerTraceReportBinding) (data : bytes)
  (out : res BrokerTraceReportError (option ReceivedBrokerTraceReport)) (self : BrokerTraceReportReceiver) : Prop :=
  (data = report_wire expected /\ rr_finished self = true /\
   exists r stream, out = Ok (Some r) /\ rc_binding r = expected /\ rs_stream (rc_resume r) = Some stream) \/
  (data <> report_wire expected /\ rr_finished self = false /\
   (out = Err ReportError_Malformed \/ out = Err ReportError_Binding)).

Context (expected : BrokerTraceReportBinding).
Hypothesis Hwidths : report_widths expected.
Hypothesis Hvalid : BrokerTraceReportBinding_validate expected = Ok tt.

Lemma poll_spec self w deadline data n :
  receiving expected deadline data n self -> early deadline 2 w ->
  exists out self' w', poll (self, w) = (out, (self', w')) /\
    ((out = Ok None /\ w' = snd (instant_now w) /\ exists m, n = S m /\ receiving expected deadline data m self') \/
     answers expected data out self').
Proof.
  intros (Hfin & Hexp & Hdl & Hlen & Hfill & stream & Hst & Hclean & Hn & Hdata) (He1 & He2 & _).
  unfold poll. rewrite Hfin, Hst, Hdl. destruct (instant_now w) as [t1 w1] eqn:Et1. cbn [fst snd] in *.
  replace (deadline <=? t1) with false by lia.
  destruct (fill_report_spec (us_reads stream) (rr_bytes self) (rr_filled self) Hclean ltac:(lia))
    as (out & reads & buffer & filled & -> & (H1 & H2 & H3 & H4) & Ho). rewrite Hlen in *.
  assert (len (report_wire expected) = 224) as Hw by now apply report_wire_len.
  destruct out as [[[]|]|e|]; [| | |done].
  - destruct Ho as [-> Hp1]. destruct (await_end_spec reads H4) as (out & reads' & -> & Hc' & Ho).
    rewrite slice_full in H3 by lia.
    destruct out as [[[]|]|e|]; [| | |done].
    + rewrite Ho, app_nil_r, Hdata in H3. cbn [after_reads rr_deadline rr_expected rr_bytes rr_stream rr_finished rr_filled].
      rewrite Hdl. destruct (instant_now w1) as [t2 w2]. cbn [fst snd] in *.
      replace (deadline <=? t2) with false by lia. subst buffer. rewrite Hexp.
      pose proof (decode_report_iff data expected H1) as Hdec.
      pose proof (decode_report_no_panic data H1) as Hnp.
      destruct (ReceivedBrokerTraceReport_decode data) as [b|e|] eqn:Ed; [|..|done].
      * case_bool_decide as Hb; cbn [negb].
        -- subst b. do 3 eexists. split; [reflexivity|]. right. left. split; [now apply Hdec|]. split; [done|].
           do 2 eexists. split_and!; reflexivity.
        -- do 3 eexists. split; [reflexivity|]. right. right. split; [|auto]. intros Hd.
           assert (Ok b = Ok (E := BrokerTraceReportError) expected) as [= ->]; [|done]. now apply Hdec.
      * do 3 eexists. split; [reflexivity|]. right. right. split; [|split; [done|]].
        -- intros Hd. assert (Err e = Ok expected); [|done]. now apply Hdec.
        -- left. f_equal. now apply decode_report_error in Ed.
    + destruct Ho as [Ha Hp2]. do 3 eexists. split; [reflexivity|]. left. split; [done|]. split; [done|].
      destruct n as [|m]; [lia|]. exists m. split; [done|].
      unfold receiving, after_reads; cbn. rewrite Hfin, Hexp, Hdl. split_and!; try done; try lia.
      eexists. split; [reflexivity|]. cbn [us_reads with_reads]. split_and!; [done|lia|].
      rewrite slice_full by lia. now rewrite Ha, H3.
    + destruct Ho as [-> Ha]. do 3 eexists. split; [reflexivity|]. right. right. split; [|auto].
      intros Hd. apply Ha. rewrite Hd in Hdata. rewrite Hdata in H3. apply (f_equal len) in H3.
      rewrite len_app in H3. apply len_zero. lia.
  - do 3 eexists. split; [reflexivity|]. left. split; [done|]. split; [done|].
    destruct n as [|m]; [lia|]. exists m. split; [done|].
    unfold receiving, after_reads; cbn. rewrite Hfin, Hexp, Hdl. split_and!; try done; try lia.
    eexists. split; [reflexivity|]. cbn [us_reads with_reads]. split_and!; [done|lia|]. now rewrite H3.
  - destruct Ho as (-> & Ha & Hlt). do 3 eexists. split; [reflexivity|]. right. right. split; [|auto].
    intros Hd. rewrite Hdata, Hd, Ha in H3. apply (f_equal len) in H3. rewrite app_nil_r, len_slice in H3 by lia. lia.
Qed.

Lemma poll_until_spec n self w deadline data :
  receiving expected deadline data n self -> early deadline (2 * S n) w ->
  exists out self' w', poll_until (S n) (self, w) = (out, (self', w')) /\ answers expected data out self'.
Proof.
  revert self w. induction n as [|n IH]; intros self w Hr He;
    (destruct (poll_spec self w deadline data _ Hr) as (out & self' & w' & Hp & Ho); [now eapply early_le; [|exact He]; lia|]);
    cbn [poll_until]; rewrite Hp.
  - destruct Ho as [(_ & _ & m & [=] & _)|Ha]. exists out, self', w'. split; [|done].
    now destruct Ha as [(_ & _ & r & s & -> & _)|(_ & _ & [-> | ->])].
  - destruct Ho as [(-> & -> & m & [= <-] & Hr')|Ha].
    + apply (IH self' (snd (instant_now w)) Hr'). destruct He as [_ He]. now eapply early_le; [|exact He]; lia.
    + exists out, self', w'. split; [|done]. now destruct Ha as [(_ & _ & r & s & -> & _)|(_ & _ & [-> | ->])].
Qed.

End Polling.

(** A trace report is received exactly: for every way the peer's bytes are
    cut into reads, interrupted and delayed before the peer ends the stream, a
    receiver polled once more than there are delays, before its deadline,
    answers; it accepts, with the plan's own facts and the way back to the
    broker, exactly when the bytes are the one frame those facts encode to, and
    refuses every other stream; after it has accepted, it accepts nothing more. *)
Theorem report_received {W} {C : Clock W} expected stream deadline (w : W) :
  report_widths expected -> BrokerTraceReportBinding_validate expected = Ok tt ->
  us_nonblocking stream = None -> clean (us_reads stream) = true ->
  early deadline (2 * S (pauses (us_reads stream)) + 1) w ->
  exists self out self' w',
    BrokerTraceReportReceiver_new stream expected deadline w = (Ok self, snd (instant_now w)) /\
    poll_until (S (pauses (us_reads stream))) (self, snd (instant_now w)) = (out, (self', w')) /\
    answers expected (arrived (us_reads stream)) out self' /\
    (rr_finished self' = true -> forall w2, fst (poll (self', w2)) = Err ReportError_InvalidTransition).
Proof.
  intros Hw Hv Hnb Hc He. rewrite Nat.add_comm in He. destruct He as [H1 He].
  set (self := {| rr_stream := Some stream; rr_expected := expected; rr_deadline := deadline;
                  rr_bytes := zeros BROKER_TRACE_REPORT_BYTES; rr_filled := 0; rr_finished := false |}).
  destruct (poll_until_spec expected Hw Hv (pauses (us_reads stream)) self (snd (instant_now w)) deadline
    (arrived (us_reads stream))) as (out & self' & w' & Hp & Ha); [|done|].
  { unfold receiving, self; cbn. split_and!; try done; try lia. eexists. split; [reflexivity|]. split_and!; done || lia. }
  exists self, out, self', w'. split_and!; [|done|done|].
  - unfold BrokerTraceReportReceiver_new, sbind, slift, read_instant. rewrite Hv. destruct (instant_now w) as [t w1].
    cbn [fst snd] in *. replace (deadline <=? t) with false by lia. now rewrite Hnb.
  - intros Hfin w2. unfold poll. now rewrite Hfin.
Qed.

(** * One plan, and one report that arrives in pieces *)

#[local] Instance ticking : Clock nat := { instant_now w := (Z.of_nat w, S w); instant_max := U64_MAX }.
#[local] Instance ticking_uptime : UptimeClock nat :=
  fun w => ((0, Z.of_nat w / 1000000000, Z.of_nat w mod 1000000000), S w).
#[local] Instance first_bytes : Sha256 := fun s => take 32 (s ++ zeros 32).

(** ** A plan *)

Definition plan : BrokerLaunchPlan :=
  {| bp_deadline := 5000; bp_connection_generation := 7; bp_sequence := 1; bp_effective_uid := 501; bp_effective_gid := 20;
     bp_session := replicate 32 x01; bp_audit_identity := replicate 32 x02; bp_code_identity := replicate 32 x03;
     bp_target_identity := replicate 32 x04; bp_client_nonce := replicate 32 x05; bp_service_nonce := replicate 32 x06;
     bp_policy_id := ascii "org.example.render"; bp_installed_executable := ascii "/usr/libexec/render";
     bp_arguments := [ascii "render"; ascii "--once"];
     bp_environment := [{| te_key := ascii "LANG"; te_value := ascii "C" |}] |}.

Definition plan_bytes : bytes := plan_wire plan.

Lemma plan_fits : plan_widths plan.
Proof. unfold plan_widths, plan; cbn. repeat split; try ulia; reflexivity. Qed.

Lemma broker_chain_agreement_witness :
  plan_encode plan = Ok plan_bytes /\ plan_decode_untrusted plan_bytes = Ok plan /\
  exists w', ReceivedBrokerLaunchPlan_decode plan_bytes (40%nat)
    = (Ok {| rp_plan := plan; rp_deadline := {| db_wire := 5000; db_local := 4999 |};
             rp_digest := broker_plan_digest plan_bytes |}, w').
Proof.
  assert (He : plan_encode plan = Ok plan_bytes) by (vm_compute; reflexivity).
  destruct (broker_chain_agreement plan plan_bytes (40%nat) plan_fits He) as (Hd & Hr).
  split; [exact He|]. split; [now apply Hd|].
  change (from_wire (bp_deadline plan) (40%nat)) with (from_wire 5000 (40%nat)) in Hr.
  replace (from_wire 5000 (40%nat)) with (Ok (E := SupervisorWireError) {| db_wire := 5000; db_local := 4999 |}, 42%nat) in Hr
    by (vm_compute; reflexivity).
  destruct Hr as (Hr & _). eauto.
Defined.

(** ** A report *)

Definition report_binding : BrokerTraceReportBinding := plan_trace_report_binding plan (replicate 32 x09).
Definition report_bytes : bytes := report_wire report_binding.
Definition arrives (l : bytes) : list ReadEvent := match l with b :: l => [Arrives b l] | [] => [] end.

Definition report_stream : UnixStream :=
  {| us_nonblocking := None; us_writes := [];
     us_reads := arrives (slice report_bytes 0 10) ++ [WouldBlock; Interrupted] ++ arrives (slice report_bytes 10 200)
                 ++ [WouldBlock] ++ arrives (slice report_bytes 200 224) ++ [EndOfStream] |}.

Lemma report_binding_fits : report_widths report_binding.
Proof. unfold report_widths, report_binding, plan; cbn. repeat split; try ulia; reflexivity. Qed.

Lemma report_received_witness :
  arrived (us_reads report_stream) = report_bytes /\
  exists self out self' w',
    BrokerTraceReportReceiver_new report_stream report_binding 1000 (0%nat) = (Ok self, 1%nat) /\
    poll_until 3 (self, 1%nat) = (out, (self', w')) /\ answers report_binding report_bytes out self'.
Proof.
  assert (Ha : arrived (us_reads report_stream) = report_bytes) by (vm_compute; reflexivity).
  split; [exact Ha|].
  destruct (report_received report_binding report_stream 1000 (0%nat)) as (self & out & self' & w' & H1 & H2 & H3 & _).
  - exact report_binding_fits.
  - vm_compute. reflexivity.
  - reflexivity.
  - vm_compute. reflexivity.
  - vm_compute. repeat split.
  - exists self, out, self', w'. split; [exact H1|]. split; [exact H2|]. rewrite Ha in H3. exact H3.
Defined.
