(* ===== verification/Watchdog.v ===== *)
(** * Watchdog: the table of running brokers ([supervisor_watchdog.rs])

    The service keeps, for every session it started, the sole authority over
    one unreaped child. Sessions are entries in a table; the caller holds
    guards on them: a pending session until its launch is traced, then a
    pending delivery until the client was told. Entries are shared
    ([Rc<RefCell<..>>]) between the table and the guards, so they live in a heap
    and both refer to them by location; a cell counts the [Ref]s that are held
    on it. [wd_events] is not in the code: it is the effects so far, in order.

    [std::process::abort] is [Panic]. Two kinds of abort leave an event: one of
    the authority, which may end the process when it cannot reap, and a mutable
    borrow of an entry on which a [Ref] is held. *)

From stdpp Require Import gmap.
From S2P Require Import Prelude Tools Native SupervisorWire Supervisor BrokerReport.

#[export] Instance byte_countable : Countable byte.
Proof. refine (inj_countable Byte.to_N Byte.of_N _). intros b. apply Byte.of_to_N. Defined.

(** ** Data *)

Definition MAX_LIVE_SESSIONS : Z := 64.
Definition MAX_SESSIONS_PER_SERVICE_GENERATION : Z := 4096.

Inductive WatchdogStateError :=
| Watchdog_CapacityExceeded
| Watchdog_UnknownSession
| Watchdog_WrongConnection
| Watchdog_InvalidTransition
| Watchdog_DeadlineExpired
| Watchdog_BrokerActivationFailed
| Watchdog_BrokerResumeFailed.

Inductive TerminationReason :=
| LaunchAbandoned
| ClientDisconnected
| DeadlineExpired
| ClientRequested
| UnexpectedBrokerStop
| ProtocolViolation
| SpawnResultUndeliverable.

Inductive BrokerPhase :=
| Starting
| Traced
| ReadyCommitted
| TerminationRequired (reason : TerminationReason)
| Reaping (reason : TerminationReason)
| Reaped (reason : TerminationReason).

#[export] Instance WatchdogStateError_eq_dec : EqDecision WatchdogStateError.
Proof. solve_decision. Defined.
#[export] Instance TerminationReason_eq_dec : EqDecision TerminationReason.
Proof. solve_decision. Defined.
#[export] Instance BrokerPhase_eq_dec : EqDecision BrokerPhase.
Proof. solve_decision. Defined.

(** A [FreshSessionId] and its [SessionHandle] are the bytes they wrap. *)
Definition FreshSessionId_from_fresh_random (value : bytes) : res WatchdogStateError bytes :=
  if bool_decide (value = zeros 32) then Err Watchdog_UnknownSession else Ok value.

(** The platform's authority over one child, and the child it stands for. A
    [ReapedBroker] is the success of a method that returns one. *)
Class ExactBrokerAuthority (A W F : Type) := {
  exact_child : A -> Z;
  activate_after_registration : stm (A * W) F unit;
  terminate_and_reap : TerminationReason -> stm (A * W) F unit;
  emergency_terminate_and_reap : option TerminationReason -> stm (A * W) Empty_set unit
}.

Class RegisteredLaunchEffect (L : Type) := {
  connection_identity : L -> Z;
  launch_deadline : L -> Z
}.

#[export] Instance ValidatedSpawn_effect : RegisteredLaunchEffect ValidatedSpawn :=
  { connection_identity spawn := vp_connection_identity (vs_peer spawn);
    launch_deadline spawn := db_local (vs_deadline spawn) }.

(** One prepared Ready reply: at most one nonblocking send. *)
Class NonblockingReadySend (M W X : Type) := {
  send_cleanup_reason : X -> TerminationReason;
  send_once : M -> bytes -> Z -> Z -> stm W X unit
}.

Record ExactBroker (A : Type) := { eb_authority : A; eb_armed : bool }.
Arguments eb_authority {A} _.
Arguments eb_armed {A} _.

Definition from_unreaped_direct_child {A} (authority : A) : ExactBroker A :=
  {| eb_authority := authority; eb_armed := true |}.

Record AtomicallySpawnedBroker (L A R : Type) := {
  sb_session : bytes;
  sb_launch : L;
  sb_broker : ExactBroker A;
  sb_report : R
}.
Arguments sb_session {L A R} _.
Arguments sb_launch {L A R} _.
Arguments sb_broker {L A R} _.
Arguments sb_report {L A R} _.

Record RegisteredLaunch (L : Type) := {
  rg_handle : bytes;
  rg_connection : Z;
  rg_deadline : Z;
  rg_launch : L
}.
Arguments rg_handle {L} _.
Arguments rg_connection {L} _.
Arguments rg_deadline {L} _.
Arguments rg_launch {L} _.

Record RegisteredSession (L R : Type) := {
  rs_handle : bytes;
  rs_launch : RegisteredLaunch L;
  rs_report : R
}.
Arguments rs_handle {L R} _.
Arguments rs_launch {L R} _.
Arguments rs_report {L R} _.

Record TraceEstablished := { te_handle : bytes; te_connection : Z; te_resume : option BrokerResumeSender }.

Definition from_authenticated_broker_report (report : AuthenticatedBrokerTraceReport) : TraceEstablished :=
  {| te_handle := ab_handle report; te_connection := ab_connection report; te_resume := Some (ab_resume report) |}.

Record ReadySessionProof := { rp_handle : bytes; rp_connection : Z; rp_resume : option BrokerResumeSender }.

Record PendingReadyDelivery := {
  pd_entry : nat;
  pd_proof : option ReadySessionProof;
  pd_cleanup_reason : TerminationReason
}.

Record PendingRegisteredSession (L R : Type) := {
  ps_entry : nat;
  ps_handle : bytes;
  ps_connection : Z;
  ps_launch : option (RegisteredLaunch L);
  ps_report : option R;
  ps_trace : option TraceEstablished;
  ps_cleanup_reason : TerminationReason;
  ps_armed : bool
}.
Arguments ps_entry {L R} _.
Arguments ps_handle {L R} _.
Arguments ps_connection {L R} _.
Arguments ps_launch {L R} _.
Arguments ps_report {L R} _.
Arguments ps_trace {L R} _.
Arguments ps_cleanup_reason {L R} _.
Arguments ps_armed {L R} _.

Record RegisteredLaunchPermit (L : Type) := { rl_entry : nat; rl_launch : RegisteredLaunch L }.
Arguments rl_entry {L} _.
Arguments rl_launch {L} _.

Record WatchdogEntry (A : Type) := {
  we_handle : bytes;
  we_connection : Z;
  we_deadline : Z;
  we_broker : option (ExactBroker A);
  we_phase : BrokerPhase
}.
Arguments we_handle {A} _.
Arguments we_connection {A} _.
Arguments we_deadline {A} _.
Arguments we_broker {A} _.
Arguments we_phase {A} _.

Record Cell (A : Type) := { cell_entry : WatchdogEntry A; cell_readers : nat }.
Arguments cell_entry {A} _.
Arguments cell_readers {A} _.

Inductive WatchdogEvent :=
| Activated (child : Z) (ok : bool)
| Terminated (child : Z) (reason : TerminationReason) (ok : bool)
| EmergencyReaped (child : Z) (reason : option TerminationReason)
| ReadySent (handle : bytes) (connection : Z) (ok : bool)
| Resumed (handle : bytes) (ok : bool)
| Committed (handle : bytes)
| AuthorityAborted (child : Z)
| BorrowConflict (location : nat).

Record WatchdogTable (A W : Type) := {
  wd_heap : gmap nat (Cell A);
  wd_live : gmap bytes nat;
  wd_tombstones : gset bytes;
  wd_events : list WatchdogEvent;
  wd_world : W
}.
Arguments wd_heap {A W} _.
Arguments wd_live {A W} _.
Arguments wd_tombstones {A W} _.
Arguments wd_events {A W} _.
Arguments wd_world {A W} _.

Definition WatchdogTable_new {A W} (w : W) : WatchdogTable A W :=
  {| wd_heap := ∅; wd_live := ∅; wd_tombstones := ∅; wd_events := []; wd_world := w |}.

(** ** The table as a state *)

Section Operations.
Context {A W F L R M X : Type} {C : Clock W} {B : ExactBrokerAuthority A W F} {EF : RegisteredLaunchEffect L}
  {N : NonblockingReadySend M W X}.

Abbreviation WD := (WatchdogTable A W).

Definition with_heap (heap : gmap nat (Cell A)) (self : WD) : WD :=
  {| wd_heap := heap; wd_live := wd_live self; wd_tombstones := wd_tombstones self;
     wd_events := wd_events self; wd_world := wd_world self |}.
Definition with_live (live : gmap bytes nat) (self : WD) : WD :=
  {| wd_heap := wd_heap self; wd_live := live; wd_tombstones := wd_tombstones self;
     wd_events := wd_events self; wd_world := wd_world self |}.
Definition with_tombstones (tombstones : gset bytes) (self : WD) : WD :=
  {| wd_heap := wd_heap self; wd_live := wd_live self; wd_tombstones := tombstones;
     wd_events := wd_events self; wd_world := wd_world self |}.
Definition with_world (w : W) (self : WD) : WD :=
  {| wd_heap := wd_heap self; wd_live := wd_live self; wd_tombstones := wd_tombstones self;
     wd_events := wd_events self; wd_world := w |}.
Definition record_event (event : WatchdogEvent) (self : WD) : WD :=
  {| wd_heap := wd_heap self; wd_live := wd_live self; wd_tombstones := wd_tombstones self;
     wd_events := wd_events self ++ [event]; wd_world := wd_world self |}.

Section Polymorphic.
Context {E : Type}.

Definition abort {T} : stm WD E T := slift Panic.

(** [Instant::now]. *)
Definition clock_now : stm WD E Z :=
  fun self => let '(now, w) := instant_now (wd_world self) in (Ok now, with_world w self).

(** [try_borrow] and [try_borrow_mut] with their [abort]. Every [RefMut] of the
    code ends before another borrow begins, so that only a [Ref] that a guard
    holds can be in the way of a mutable borrow. *)
Definition borrow (location : nat) : stm WD E (WatchdogEntry A) :=
  let! self := sget in slift (expect (cell_entry <$> wd_heap self !! location)).

Definition borrow_mut (location : nat) : stm WD E (WatchdogEntry A) :=
  let! self := sget in
  let! cell := slift (expect (wd_heap self !! location)) in
  if (0 <? cell_readers cell)%nat then smodify (record_event (BorrowConflict location)) >>! abort
  else sret (cell_entry cell).

Definition put_entry (location : nat) (entry : WatchdogEntry A) : stm WD E unit :=
  smodify (fun self => with_heap
    (alter (fun cell => {| cell_entry := entry; cell_readers := cell_readers cell |}) location (wd_heap self)) self).

Definition with_phase (phase : BrokerPhase) (self : WatchdogEntry A) : WatchdogEntry A :=
  {| we_handle := we_handle self; we_connection := we_connection self; we_deadline := we_deadline self;
     we_broker := we_broker self; we_phase := phase |}.
Definition with_broker (broker : option (ExactBroker A)) (self : WatchdogEntry A) : WatchdogEntry A :=
  {| we_handle := we_handle self; we_connection := we_connection self; we_deadline := we_deadline self;
     we_broker := broker; we_phase := we_phase self |}.

(** The entry at [location], which the caller takes to be that of [handle]. *)
Definition bound_entry (location : nat) (handle : bytes) (connection : Z) : stm WD E (WatchdogEntry A) :=
  let! entry := borrow location in
  if negb (bool_decide (we_handle entry = handle)) || negb (we_connection entry =? connection)
  then abort else sret entry.

(** A call of the authority: its success or failure, and the authority after;
    or the end of the process. *)
Definition call_authority {G} (event : bool -> WatchdogEvent) (method : stm (A * W) G unit) (authority : A)
  : stm WD E ((unit + G) * A) :=
  fun self =>
    match method (authority, wd_world self) with
    | (Ok _, (authority, w)) => (Ok (inl tt, authority), record_event (event true) (with_world w self))
    | (Err e, (authority, w)) => (Ok (inr e, authority), record_event (event false) (with_world w self))
    | (Panic, (_, w)) => (Panic, record_event (AuthorityAborted (exact_child authority)) (with_world w self))
    end.

(** [Drop for ExactBroker]. *)
Definition drop_broker (broker : ExactBroker A) : stm WD E unit :=
  if eb_armed broker
  then let! _ := call_authority (fun _ => EmergencyReaped (exact_child (eb_authority broker)) None)
                                (emergency_terminate_and_reap None) (eb_authority broker) in
       sret tt
  else sret tt.

(** The reason that takes effect: the first one that was recorded. *)
Definition effective (phase : BrokerPhase) (reason : TerminationReason) : TerminationReason :=
  match phase with TerminationRequired existing => existing | _ => reason end.

Definition still_reaping (reason : TerminationReason) (entry : WatchdogEntry A) : bool :=
  bool_decide (we_phase entry = Reaping reason) && negb (bool_decide (is_Some (we_broker entry))).

Definition emergency_terminate_entry (location : nat) (handle : bytes) (connection : Z)
  (reason : TerminationReason) : stm WD E unit :=
  let! entry := borrow_mut location in
  if negb (bool_decide (we_handle entry = handle)) || negb (we_connection entry =? connection) then abort else
  match we_phase entry with
  | Reaped _ => sret tt
  | Reaping _ => abort
  | Starting | Traced | ReadyCommitted | TerminationRequired _ =>
      let effective_reason := effective (we_phase entry) reason in
      put_entry location (with_broker None (with_phase (Reaping effective_reason) entry)) >>!
      let! broker := slift (expect (we_broker entry)) in
      let! _ := call_authority
        (fun _ => EmergencyReaped (exact_child (eb_authority broker)) (Some effective_reason))
        (emergency_terminate_and_reap (Some effective_reason)) (eb_authority broker) in
      let! entry := borrow_mut location in
      if negb (still_reaping effective_reason entry) then abort else
      put_entry location (with_phase (Reaped effective_reason) entry)
  end.

(** ** The table's own methods *)

Definition reaped_entry (handle_entry : bytes * nat) (reaped : list bytes) : stm WD E (list bytes) :=
  let '(handle, location) := handle_entry in
  let! entry := borrow location in
  match we_phase entry with
  | Reaped _ => sret (reaped ++ [handle])
  | Reaping _ => abort
  | Starting | Traced | ReadyCommitted | TerminationRequired _ => sret reaped
  end.

Definition retire (handle : bytes) (_ : unit) : stm WD E unit :=
  let! self := sget in
  if bool_decide (handle ∈ wd_tombstones self) then abort else
  smodify (with_tombstones ({[handle]} ∪ wd_tombstones self)) >>!
  let! _ := slift (expect (wd_live self !! handle)) in
  smodify (with_live (delete handle (wd_live self))).

Definition sweep_reaped : stm WD E unit :=
  let! self := sget in
  let! reaped := sfor (map_to_list (wd_live self)) reaped_entry [] in
  sfor reaped retire tt.

(** [Rc::new(RefCell::new(..))] and its insertion under the handle. *)
Definition insert_entry (handle : bytes) (entry : WatchdogEntry A) : stm WD E unit :=
  smodify (fun self =>
    let location := fresh (dom (wd_heap self)) in
    with_live (<[handle := location]> (wd_live self))
      (with_heap (<[location := {| cell_entry := entry; cell_readers := 0 |}]> (wd_heap self)) self)).

Definition live_location (handle : bytes) : stm WD E (option nat) :=
  let! self := sget in sret (wd_live self !! handle).

(** [drop] of the table. *)
Definition drop_entry (handle_entry : bytes * nat) (_ : unit) : stm WD E unit :=
  let location := snd handle_entry in
  let! entry := borrow location in
  match we_phase entry with
  | Reaped _ => sret tt
  | Reaping _ => abort
  | Starting | Traced | ReadyCommitted | TerminationRequired _ =>
      emergency_terminate_entry location (we_handle entry) (we_connection entry) ProtocolViolation
  end.

Definition drop_table : stm WD E unit :=
  let! self := sget in sfor (map_to_list (wd_live self)) drop_entry tt.

End Polymorphic.

Abbreviation method T := (stm WD WatchdogStateError T).

(** The call of [activate_after_registration] through the entry. *)
Definition activate_entry (location : nat) : method bool :=
  let! entry := borrow_mut location in
  let! broker := slift (expect (we_broker entry)) in
  let! (result, authority) := call_authority (Activated (exact_child (eb_authority broker)))
                                             activate_after_registration (eb_authority broker) in
  put_entry location (with_broker (Some {| eb_authority := authority; eb_armed := eb_armed broker |}) entry) >>!
  sret (match result with inl _ => true | inr _ => false end).

Definition register (spawned : AtomicallySpawnedBroker L A R) : method (RegisteredSession L R) :=
  sweep_reaped >>!
  let launch := sb_launch spawned in
  let broker := sb_broker spawned in
  let! self := sget in
  let live := Z.of_nat (size (wd_live self)) in
  if (MAX_LIVE_SESSIONS <=? live)
     || (MAX_SESSIONS_PER_SERVICE_GENERATION
         <=? Z.min USIZE_MAX (live + Z.of_nat (size (wd_tombstones self))))
  then drop_broker broker >>! serr Watchdog_CapacityExceeded else
  let handle := sb_session spawned in
  let connection := connection_identity launch in
  let deadline := launch_deadline launch in
  if bool_decide (is_Some (wd_live self !! handle)) || bool_decide (handle ∈ wd_tombstones self)
  then drop_broker broker >>! serr Watchdog_UnknownSession else
  insert_entry handle {| we_handle := handle; we_connection := connection; we_deadline := deadline;
                         we_broker := Some broker; we_phase := Starting |} >>!
  let! now := clock_now in
  if deadline <=? now then
    let! found := live_location handle in
    let! entry := slift (expect found) in
    emergency_terminate_entry entry handle connection DeadlineExpired >>!
    sweep_reaped >>!
    serr Watchdog_DeadlineExpired
  else
  let! found := live_location handle in
  let! entry := slift (expect found) in
  let! activated := activate_entry entry in
  if negb activated then
    emergency_terminate_entry entry handle connection LaunchAbandoned >>!
    sweep_reaped >>!
    serr Watchdog_BrokerActivationFailed
  else
  sret {| rs_handle := handle;
          rs_launch := {| rg_handle := handle; rg_connection := connection; rg_deadline := deadline;
                          rg_launch := launch |};
          rs_report := sb_report spawned |}.

Definition register_armed (spawned : AtomicallySpawnedBroker L A R) : method (PendingRegisteredSession L R) :=
  let! registered := register spawned in
  let handle := rs_handle registered in
  let connection := rg_connection (rs_launch registered) in
  let! found := live_location handle in
  let! entry := slift (expect found) in
  sret {| ps_entry := entry; ps_handle := handle; ps_connection := connection;
          ps_launch := Some (rs_launch registered); ps_report := Some (rs_report registered);
          ps_trace := None; ps_cleanup_reason := LaunchAbandoned; ps_armed := true |}.

Definition client_entry (handle : bytes) (connection : Z) : method nat :=
  sweep_reaped >>!
  let! found := live_location handle in
  let! location := slift (ok_or found Watchdog_UnknownSession) in
  let! entry := borrow location in
  if negb (we_connection entry =? connection) then serr Watchdog_WrongConnection else sret location.

Definition terminate_internal (handle : bytes) (reason : TerminationReason) : method (unit + F) :=
  sweep_reaped >>!
  let! found := live_location handle in
  let! location := slift (ok_or found Watchdog_UnknownSession) in
  let! entry := borrow_mut location in
  match we_phase entry with
  | Reaping _ => abort
  | Reaped _ => serr Watchdog_UnknownSession
  | Starting | Traced | ReadyCommitted | TerminationRequired _ =>
      let effective_reason := effective (we_phase entry) reason in
      put_entry location (with_broker None (with_phase (Reaping effective_reason) entry)) >>!
      let! broker := slift (expect (we_broker entry)) in
      let! (result, authority) := call_authority
        (Terminated (exact_child (eb_authority broker)) effective_reason)
        (terminate_and_reap effective_reason) (eb_authority broker) in
      let! entry := borrow_mut location in
      if negb (still_reaping effective_reason entry) then abort else
      match result with
      | inl _ =>
          put_entry location (with_phase (Reaped effective_reason) entry) >>!
          sweep_reaped >>!
          sret (inl tt)
      | inr error =>
          put_entry location
            (with_broker (Some {| eb_authority := authority; eb_armed := eb_armed broker |})
               (with_phase (TerminationRequired effective_reason) entry)) >>!
          sret (inr error)
      end
  end.

Definition terminate_for_client (handle : bytes) (connection : Z) (reason : TerminationReason) : method (unit + F) :=
  let! _ := client_entry handle connection in terminate_internal handle reason.
Definition terminate_for_client_disconnect (handle : bytes) (connection : Z) : method (unit + F) :=
  terminate_for_client handle connection ClientDisconnected.
Definition terminate_for_client_request (handle : bytes) (connection : Z) : method (unit + F) :=
  terminate_for_client handle connection ClientRequested.
Definition terminate_for_unexpected_stop (handle : bytes) : method (unit + F) :=
  terminate_internal handle UnexpectedBrokerStop.
Definition terminate_for_protocol_violation (handle : bytes) : method (unit + F) :=
  terminate_internal handle ProtocolViolation.

Definition terminate_for_deadline (handle : bytes) : method (unit + F) :=
  sweep_reaped >>!
  let! found := live_location handle in
  let! location := slift (ok_or found Watchdog_UnknownSession) in
  let! entry := borrow location in
  match we_phase entry with
  | ReadyCommitted => serr Watchdog_InvalidTransition
  | Reaped _ => serr Watchdog_UnknownSession
  | Reaping _ => abort
  | Starting | Traced | TerminationRequired _ =>
      let! now := clock_now in
      if now <? we_deadline entry then serr Watchdog_InvalidTransition else
      terminate_internal handle DeadlineExpired
  end.

Definition terminate_undelivered_ready (proof : ReadySessionProof) : method (unit + F) :=
  let! location := client_entry (rp_handle proof) (rp_connection proof) in
  let! entry := borrow location in
  if negb (bool_decide (we_phase entry = Traced)) then serr Watchdog_InvalidTransition else
  terminate_internal (rp_handle proof) SpawnResultUndeliverable.

(** [let _ = ..]: neither outcome is looked at. *)
Definition ignoring {T} (m : method T) : method unit :=
  fun self => match m self with (Panic, self) => (Panic, self) | (_, self) => (Ok tt, self) end.

Definition ready_proof (proof : TraceEstablished) : ReadySessionProof :=
  {| rp_handle := te_handle proof; rp_connection := te_connection proof; rp_resume := te_resume proof |}.

Definition mark_traced (proof : TraceEstablished) : method ReadySessionProof :=
  let! location := client_entry (te_handle proof) (te_connection proof) in
  let! entry := borrow_mut location in
  if negb (bool_decide (we_phase entry = Starting)) then serr Watchdog_InvalidTransition else
  let! now := clock_now in
  if we_deadline entry <=? now
  then ignoring (terminate_internal (te_handle proof) DeadlineExpired) >>! serr Watchdog_DeadlineExpired
  else put_entry location (with_phase Traced entry) >>! sret (ready_proof proof).

Definition transition_registered_for_delivery (location : nat) (proof : TraceEstablished)
  : method PendingReadyDelivery :=
  let! entry := borrow_mut location in
  if negb (bool_decide (we_handle entry = te_handle proof)) || negb (we_connection entry =? te_connection proof)
  then abort else
  let! transition_error :=
    (if negb (bool_decide (we_phase entry = Starting)) then sret (Some Watchdog_InvalidTransition) else
     let! now := clock_now in
     if we_deadline entry <=? now then sret (Some Watchdog_DeadlineExpired) else
     put_entry location (with_phase Traced entry) >>! sret None) in
  match transition_error with
  | Some error =>
      emergency_terminate_entry location (te_handle proof) (te_connection proof)
        (if bool_decide (error = Watchdog_DeadlineExpired) then DeadlineExpired else ProtocolViolation) >>!
      serr error
  | None => sret {| pd_entry := location; pd_proof := Some (ready_proof proof);
                    pd_cleanup_reason := SpawnResultUndeliverable |}
  end.

Definition table_mark_traced_for_delivery (proof : TraceEstablished) : method PendingReadyDelivery :=
  let! location := client_entry (te_handle proof) (te_connection proof) in
  transition_registered_for_delivery location proof.

Definition emergency_terminate_registered (handle : bytes) (connection : Z) (reason : TerminationReason)
  : stm WD WatchdogStateError unit :=
  fun self =>
    match client_entry handle connection self with
    | (Ok location, self) => (emergency_terminate_entry location handle connection reason >>! sweep_reaped) self
    | (_, self) => (Panic, self)
    end.

End Operations.
