(* ===== verification/WatchdogGuards.v ===== *)
(** * WatchdogGuards: the guards on a session ([supervisor_watchdog.rs])

    A pending session, the permit to launch it, and the delivery of its Ready
    reply. A guard that is dropped cleans up the entry it is bound to. *)

From stdpp Require Import gmap.
From S2P Require Import Prelude Tools Native SupervisorWire Supervisor BrokerReport Watchdog.

Section Guards.
Context {A W F L R M X : Type} {C : Clock W} {B : ExactBrokerAuthority A W F} {EF : RegisteredLaunchEffect L}
  {N : NonblockingReadySend M W X}.

Abbreviation WD := (WatchdogTable A W).
Abbreviation method T := (stm WD WatchdogStateError T).
Abbreviation PS := (PendingRegisteredSession L R).

(** A method that consumes its guard: the guard is dropped at its end. *)
Definition consuming {T E Y} (drop : T -> stm WD E unit) (m : stm (T * WD) E Y) (self : T) : stm WD E Y :=
  fun table =>
    match m (self, table) with
    | (Panic, (_, table)) => (Panic, table)
    | (outcome, (self, table)) =>
        match drop self table with
        | (Ok _, table) => (outcome, table)
        | (Err e, table) => (Err e, table)
        | (Panic, table) => (Panic, table)
        end
    end.

(** ** Delivery of Ready *)

Definition drop_delivery {E} (self : PendingReadyDelivery) : stm WD E unit :=
  match pd_proof self with
  | Some proof => emergency_terminate_entry (F := F) (pd_entry self) (rp_handle proof) (rp_connection proof) (pd_cleanup_reason self)
  | None => sret tt
  end.

Definition with_cleanup_reason (reason : TerminationReason) (self : PendingReadyDelivery) : PendingReadyDelivery :=
  {| pd_entry := pd_entry self; pd_proof := pd_proof self; pd_cleanup_reason := reason |}.
Definition with_proof (proof : option ReadySessionProof) (self : PendingReadyDelivery) : PendingReadyDelivery :=
  {| pd_entry := pd_entry self; pd_proof := proof; pd_cleanup_reason := pd_cleanup_reason self |}.

(** The one send: its failure is a value the caller looks at. *)
Definition send_ready_once (send : M) (handle : bytes) (connection deadline : Z) : method (unit + X) :=
  fun table =>
    match send_once send handle connection deadline (wd_world table) with
    | (Ok _, w) => (Ok (inl tt), record_event (ReadySent handle connection true) (with_world w table))
    | (Err e, w) => (Ok (inr e), record_event (ReadySent handle connection false) (with_world w table))
    | (Panic, w) => (Panic, with_world w table)
    end.

(** [resume.commit_after_ready()] on the sender of the proof, if there is one. *)
Definition commit_resume (proof : ReadySessionProof) : stm (PendingReadyDelivery * WD) WatchdogStateError bool :=
  match rp_resume proof with
  | None => sret true
  | Some resume =>
      fun '(self, table) =>
        let '(outcome, (resume, _)) := commit_after_ready (resume, []) in
        let self := with_proof (Some {| rp_handle := rp_handle proof; rp_connection := rp_connection proof;
                                        rp_resume := Some resume |}) self in
        match outcome with
        | Ok _ => (Ok true, (self, record_event (Resumed (rp_handle proof) true) table))
        | Err _ => (Ok false, (self, record_event (Resumed (rp_handle proof) false) table))
        | Panic => (Panic, (self, table))
        end
  end.

Definition deliver_at (now : Z) (send : M) : stm (PendingReadyDelivery * WD) WatchdogStateError (unit + X) :=
  let! (self, _) := sget in
  let! proof := slift (expect (pd_proof self)) in
  let handle := rp_handle proof in
  let connection := rp_connection proof in
  let! entry := on_world (bound_entry (pd_entry self) handle connection) in
  match we_phase entry with
  | Reaped _ => serr Watchdog_UnknownSession
  | Reaping _ => on_world abort
  | Starting | Traced | ReadyCommitted | TerminationRequired _ =>
      if negb (bool_decide (we_phase entry = Traced)) then serr Watchdog_InvalidTransition else
      if we_deadline entry <=? now
      then on_self (smodify (with_cleanup_reason DeadlineExpired)) >>! serr Watchdog_DeadlineExpired else
      let! sent := on_world (send_ready_once send handle connection (we_deadline entry)) in
      match sent with
      | inr error =>
          on_self (smodify (with_cleanup_reason (send_cleanup_reason error))) >>!
          sret (inr error)
      | inl _ =>
          let! resumed := commit_resume proof in
          if negb resumed
          then on_self (smodify (with_cleanup_reason ProtocolViolation)) >>! serr Watchdog_BrokerResumeFailed else
          let! entry := on_world (borrow_mut (pd_entry self)) in
          if negb (bool_decide (we_handle entry = handle)) || negb (we_connection entry =? connection)
             || negb (bool_decide (we_phase entry = Traced))
          then on_world abort else
          on_world (put_entry (pd_entry self) (with_phase ReadyCommitted entry) >>!
                    smodify (record_event (Committed handle))) >>!
          on_self (smodify (with_proof None)) >>!
          sret (inl tt)
      end
  end.

Definition deliver (self : PendingReadyDelivery) (send : M) : method (unit + X) :=
  let! now := clock_now in
  consuming drop_delivery (deliver_at now send) self.

(** ** The pending session *)

Definition with_report (report : option R) (self : PS) : PS :=
  {| ps_entry := ps_entry self; ps_handle := ps_handle self; ps_connection := ps_connection self;
     ps_launch := ps_launch self; ps_report := report; ps_trace := ps_trace self;
     ps_cleanup_reason := ps_cleanup_reason self; ps_armed := ps_armed self |}.
Definition with_trace (trace : option TraceEstablished) (self : PS) : PS :=
  {| ps_entry := ps_entry self; ps_handle := ps_handle self; ps_connection := ps_connection self;
     ps_launch := ps_launch self; ps_report := ps_report self; ps_trace := trace;
     ps_cleanup_reason := ps_cleanup_reason self; ps_armed := ps_armed self |}.
Definition with_reason (reason : TerminationReason) (self : PS) : PS :=
  {| ps_entry := ps_entry self; ps_handle := ps_handle self; ps_connection := ps_connection self;
     ps_launch := ps_launch self; ps_report := ps_report self; ps_trace := ps_trace self;
     ps_cleanup_reason := reason; ps_armed := ps_armed self |}.
Definition disarmed (self : PS) : PS :=
  {| ps_entry := ps_entry self; ps_handle := ps_handle self; ps_connection := ps_connection self;
     ps_launch := ps_launch self; ps_report := ps_report self; ps_trace := ps_trace self;
     ps_cleanup_reason := ps_cleanup_reason self; ps_armed := false |}.

Definition mark_protocol_violation (self : PS) : PS := with_reason ProtocolViolation self.
Definition mark_deadline_expired (self : PS) : PS := with_reason DeadlineExpired self.

Definition drop_pending {E} (self : PS) : stm WD E unit :=
  if ps_armed self
  then emergency_terminate_entry (F := F) (ps_entry self) (ps_handle self) (ps_connection self) (ps_cleanup_reason self)
  else sret tt.

Definition launch_permit (self : PS) : method (RegisteredLaunchPermit L) :=
  let! entry := bound_entry (ps_entry self) (ps_handle self) (ps_connection self) in
  if negb (bool_decide (we_phase entry = Starting)) then serr Watchdog_InvalidTransition else
  let! now := clock_now in
  if we_deadline entry <=? now then
    emergency_terminate_entry (F := F) (ps_entry self) (ps_handle self) (ps_connection self) DeadlineExpired >>!
    serr Watchdog_DeadlineExpired
  else
  let! launch := slift (ok_or (ps_launch self) Watchdog_InvalidTransition) in
  sret {| rl_entry := ps_entry self; rl_launch := launch |}.

(** [commit_guard] holds a [Ref] on the entry until the guard is dropped. *)
Definition adjust_readers (f : nat -> nat) (location : nat) (self : WD) : WD :=
  with_heap (alter (fun cell => {| cell_entry := cell_entry cell; cell_readers := f (cell_readers cell) |})
                   location (wd_heap self)) self.

Definition commit_guard (self : RegisteredLaunchPermit L) : method nat :=
  let handle := rg_handle (rl_launch self) in
  let connection := rg_connection (rl_launch self) in
  let! entry := bound_entry (rl_entry self) handle connection in
  match we_phase entry with
  | Reaped _ => serr Watchdog_UnknownSession
  | Reaping _ => abort
  | Traced | ReadyCommitted | TerminationRequired _ => serr Watchdog_InvalidTransition
  | Starting =>
      let! now := clock_now in
      if we_deadline entry <=? now then
        emergency_terminate_entry (F := F) (rl_entry self) handle connection DeadlineExpired >>!
        serr Watchdog_DeadlineExpired
      else
      smodify (adjust_readers S (rl_entry self)) >>!
      sret (rl_entry self)
  end.

Definition drop_commit_guard {E} (guard : nat) : stm WD E unit := smodify (adjust_readers pred guard).

(** The checks that [report_mut] and [consume_report] share. *)
Definition report_open : stm (PS * WD) WatchdogStateError unit :=
  let! (self, _) := sget in
  if negb (ps_armed self) then on_world abort else
  let! entry := on_world (bound_entry (ps_entry self) (ps_handle self) (ps_connection self)) in
  if negb (bool_decide (we_phase entry = Starting)) then serr Watchdog_InvalidTransition else
  let! now := on_world clock_now in
  if we_deadline entry <=? now
  then on_self (smodify (with_reason DeadlineExpired)) >>! serr Watchdog_DeadlineExpired
  else sret tt.

(** [report_mut]: the report, which the caller may replace ([with_report]). *)
Definition report_mut : stm (PS * WD) WatchdogStateError R :=
  report_open >>!
  let! (self, _) := sget in
  slift (ok_or (ps_report self) Watchdog_InvalidTransition).

Definition consume_report : stm (PS * WD) WatchdogStateError R :=
  report_open >>!
  let! (self, _) := sget in
  on_self (smodify (with_report None)) >>!
  slift (ok_or (ps_report self) Watchdog_InvalidTransition).

(** [bind_trace]: the trace comes back when it does not fit. *)
Definition bind_trace (trace : TraceEstablished) : stm PS TraceEstablished unit :=
  let! self := sget in
  if bool_decide (is_Some (ps_trace self)) || negb (bool_decide (te_handle trace = ps_handle self))
     || negb (te_connection trace =? ps_connection self)
  then serr trace else smodify (with_trace (Some trace)).

Definition mark_traced_for_delivery (self : PS) : method PendingReadyDelivery :=
  consuming drop_pending
    (let! (self, _) := sget in
     match ps_trace self with
     | None => on_self (smodify mark_protocol_violation) >>! serr Watchdog_InvalidTransition
     | Some trace =>
         on_self (smodify (fun self => disarmed (with_trace None self))) >>!
         on_world (transition_registered_for_delivery (F := F) (ps_entry self) trace)
     end) self.

End Guards.
