(* ===== verification/WatchdogSteps.v ===== *)
(** * WatchdogSteps: what can happen to the table, as a step relation

    [wstep] is the abstract specification of the watchdog: the clock and the
    log move, an entry that owns its child changes phase, a child is reaped, a
    reaped session becomes a tombstone (an entry on which a commit guard is held
    does not change), a new session is inserted, an
    unregistered child is reaped, a session becomes Ready once its reply was
    sent. The methods of [Watchdog.v] and [WatchdogGuards.v] are shown to be
    sequences of these steps; the invariants follow from the steps. *)

From stdpp Require Import gmap fin_maps.
From S2P Require Import Prelude Tools Native SupervisorWire Supervisor BrokerReport Watchdog.

(** ** Phases and events *)

Definition active (phase : BrokerPhase) : bool :=
  match phase with Starting | Traced | ReadyCommitted | TerminationRequired _ => true | Reaping _ | Reaped _ => false end.

Definition is_reaped (phase : BrokerPhase) : bool := match phase with Reaped _ => true | _ => false end.

(** The child an event reaped. *)
Definition reap_of (event : WatchdogEvent) : option Z :=
  match event with
  | Terminated child _ true | EmergencyReaped child _ => Some child
  | _ => None
  end.

Definition commit_of (event : WatchdogEvent) : option bytes :=
  match event with Committed handle => Some handle | _ => None end.

Definition reaps (child : Z) (events : list WatchdogEvent) : nat :=
  length (filter (fun event => reap_of event = Some child) events).
Arguments reaps : simpl never.

Lemma reaps_app c l1 l2 : reaps c (l1 ++ l2) = (reaps c l1 + reaps c l2)%nat.
Proof. unfold reaps. now rewrite filter_app, length_app. Qed.

Lemma reaps_snoc c l event :
  reaps c (l ++ [event]) = (reaps c l + (if decide (reap_of event = Some c) then 1 else 0))%nat.
Proof.
  rewrite reaps_app. f_equal. unfold reaps. rewrite filter_cons. now destruct (decide _).
Qed.

Lemma reaps_snoc_none c l event : reap_of event = None -> reaps c (l ++ [event]) = reaps c l.
Proof. intros H. rewrite reaps_snoc, H, decide_False by done. lia. Qed.

Lemma reaps_snoc_some c l event child :
  reap_of event = Some child -> reaps c (l ++ [event]) = (reaps c l + (if decide (c = child) then 1 else 0))%nat.
Proof. intros H. rewrite reaps_snoc, H. repeat case_decide; congruence. Qed.

Lemma reaps_none c l : Forall (fun event => reap_of event = None) l -> reaps c l = 0%nat.
Proof.
  intros H. unfold reaps. induction H as [|event l Hr _ IH]; [done|].
  rewrite filter_cons, Hr. now rewrite decide_False by done.
Qed.

(** The commits of a log, oldest first. *)
Definition commits (events : list WatchdogEvent) : list bytes := omap commit_of events.
Arguments commits : simpl never.

Lemma commits_app l1 l2 : commits (l1 ++ l2) = commits l1 ++ commits l2.
Proof. apply omap_app. Qed.

Lemma commits_none l : Forall (fun event => reap_of event = None /\ commit_of event = None) l -> commits l = [].
Proof. unfold commits. induction 1 as [|event l [_ Hc] _ IH]; [done|]. cbn. now rewrite Hc. Qed.

(** Every commit of a log comes after a successful send of the same session. *)
Definition sent_first (events : list WatchdogEvent) : Prop :=
  forall i handle, events !! i = Some (Committed handle) ->
    exists j connection, (j < i)%nat /\ events !! j = Some (ReadySent handle connection true).

Lemma sent_first_app l1 l2 :
  sent_first l1 ->
  (forall i handle, l2 !! i = Some (Committed handle) ->
     exists j connection, (j < i)%nat /\ l2 !! j = Some (ReadySent handle connection true)) ->
  sent_first (l1 ++ l2).
Proof.
  intros H1 H2 i handle Hi. apply lookup_app_Some in Hi as [Hi|[Hl Hi]].
  - destruct (H1 _ _ Hi) as (j & c & Hj & Hs). exists j, c. split; [done|]. now apply lookup_app_l_Some.
  - destruct (H2 _ _ Hi) as (j & c & Hj & Hs). exists (length l1 + j)%nat, c. split; [lia|].
    rewrite lookup_app_r by lia. now replace (length l1 + j - length l1)%nat with j by lia.
Qed.

Lemma sent_first_none l1 l2 :
  Forall (fun event => commit_of event = None) l2 -> sent_first l1 -> sent_first (l1 ++ l2).
Proof.
  intros Hl H. apply sent_first_app; [done|]. intros i handle Hi.
  now pose proof (Forall_lookup_1 _ _ _ _ Hl Hi).
Qed.

Section Steps.
Context {A W F : Type} {B : ExactBrokerAuthority A W F}.

Abbreviation WD := (WatchdogTable A W).

Definition set_entry (location : nat) (cell : Cell A) (entry : WatchdogEntry A) (self : WD) : WD :=
  with_heap (<[location := {| cell_entry := entry; cell_readers := cell_readers cell |}]> (wd_heap self)) self.

Definition same_session (e e' : WatchdogEntry A) : Prop :=
  we_handle e' = we_handle e /\ we_connection e' = we_connection e /\ we_deadline e' = we_deadline e.

Definition reaped_as (reason : TerminationReason) (e : WatchdogEntry A) : WatchdogEntry A :=
  with_phase (Reaped reason) (with_broker None e).

(** A step, with the child it brings under the watchdog. *)
Inductive wstep : option Z -> WD -> WD -> Prop :=
| ws_world w wd : wstep None wd (with_world w wd)
| ws_event event wd : reap_of event = None -> commit_of event = None -> wstep None wd (record_event event wd)
| ws_entry location cell e b b' wd :
    wd_heap wd !! location = Some cell -> cell_readers cell = 0%nat -> active (we_phase (cell_entry cell)) = true ->
    active (we_phase e) = true -> (we_phase e = ReadyCommitted -> we_phase (cell_entry cell) = ReadyCommitted) ->
    same_session (cell_entry cell) e ->
    we_broker (cell_entry cell) = Some b -> we_broker e = Some b' ->
    exact_child (eb_authority b') = exact_child (eb_authority b) -> eb_armed b' = eb_armed b ->
    (we_phase (cell_entry cell) = ReadyCommitted -> we_phase e <> Starting /\ we_phase e <> Traced) ->
    (forall r, we_phase (cell_entry cell) = TerminationRequired r -> we_phase e = TerminationRequired r) ->
    wstep None wd (set_entry location cell e wd)
| ws_reap location cell b event reason wd :
    wd_heap wd !! location = Some cell -> cell_readers cell = 0%nat -> active (we_phase (cell_entry cell)) = true ->
    we_broker (cell_entry cell) = Some b -> reap_of event = Some (exact_child (eb_authority b)) ->
    wstep None wd (record_event event (set_entry location cell (reaped_as reason (cell_entry cell)) wd))
| ws_retire handle location cell wd :
    wd_live wd !! handle = Some location -> wd_heap wd !! location = Some cell ->
    is_reaped (we_phase (cell_entry cell)) = true ->
    wstep None wd (with_live (delete handle (wd_live wd)) (with_tombstones ({[handle]} ∪ wd_tombstones wd) wd))
| ws_insert handle location e b wd :
    wd_heap wd !! location = None -> wd_live wd !! handle = None -> handle ∉ wd_tombstones wd ->
    Z.of_nat (size (wd_live wd)) < MAX_LIVE_SESSIONS ->
    Z.of_nat (size (wd_live wd)) + Z.of_nat (size (wd_tombstones wd)) < MAX_SESSIONS_PER_SERVICE_GENERATION ->
    we_handle e = handle -> we_phase e = Starting -> we_broker e = Some b -> eb_armed b = true ->
    wstep (Some (exact_child (eb_authority b))) wd
      (with_live (<[handle := location]> (wd_live wd))
         (with_heap (<[location := {| cell_entry := e; cell_readers := 0 |}]> (wd_heap wd)) wd))
| ws_refuse event child wd : reap_of event = Some child -> wstep (Some child) wd (record_event event wd)
| ws_commit location cell resumes w wd :
    wd_heap wd !! location = Some cell -> cell_readers cell = 0%nat -> we_phase (cell_entry cell) = Traced ->
    Forall (fun event => reap_of event = None /\ commit_of event = None) resumes ->
    wstep None wd
      (let handle := we_handle (cell_entry cell) in
       {| wd_heap := <[location := {| cell_entry := with_phase ReadyCommitted (cell_entry cell);
                                      cell_readers := cell_readers cell |}]> (wd_heap wd);
          wd_live := wd_live wd; wd_tombstones := wd_tombstones wd;
          wd_events := wd_events wd ++ ReadySent handle (we_connection (cell_entry cell)) true :: resumes
                       ++ [Committed handle];
          wd_world := w |}).

(** Sequences of steps, with the children they bring. *)
Inductive wsteps : list Z -> WD -> WD -> Prop :=
| wss_refl wd : wsteps [] wd wd
| wss_snoc children label wd1 wd2 wd3 :
    wsteps children wd1 wd2 -> wstep label wd2 wd3 ->
    wsteps (children ++ option_list label) wd1 wd3.

Lemma wsteps_one wd wd' : wstep None wd wd' -> wsteps [] wd wd'.
Proof. intros H. exact (wss_snoc [] None _ _ _ (wss_refl _) H). Qed.

Lemma wsteps_trans cs1 cs2 wd1 wd2 wd3 : wsteps cs1 wd1 wd2 -> wsteps cs2 wd2 wd3 -> wsteps (cs1 ++ cs2) wd1 wd3.
Proof.
  intros H1 H2. revert H1. induction H2 as [wd|cs label wd2 wd3 wd4 H IH Hs]; intros H1; [now rewrite app_nil_r|].
  rewrite app_assoc. eapply wss_snoc; [now apply IH|done].
Qed.

Lemma wsteps_nil_trans wd1 wd2 wd3 : wsteps [] wd1 wd2 -> wsteps [] wd2 wd3 -> wsteps [] wd1 wd3.
Proof. intros H1 H2. exact (wsteps_trans [] [] _ _ _ H1 H2). Qed.

(** ** The invariant *)

(** An entry owns its armed child and is live until the child is reaped; then
    its handle is a tombstone, or will be after the next sweep. *)
Definition entry_ok (e : WatchdogEntry A) : Prop :=
  (is_reaped (we_phase e) = true /\ we_broker e = None) \/
  (active (we_phase e) = true /\ exists b, we_broker e = Some b /\ eb_armed b = true).

Definition placed (wd : WD) (location : nat) (e : WatchdogEntry A) : Prop :=
  wd_live wd !! we_handle e = Some location \/
  (is_reaped (we_phase e) = true /\ we_handle e ∈ wd_tombstones wd).

(** Only a session that is still starting can have a commit guard. *)
Record table_wf (wd : WD) : Prop := {
  tw_live : forall handle location, wd_live wd !! handle = Some location ->
    exists cell, wd_heap wd !! location = Some cell /\ we_handle (cell_entry cell) = handle;
  tw_entry : forall location cell, wd_heap wd !! location = Some cell ->
    ((0 < cell_readers cell)%nat -> we_phase (cell_entry cell) = Starting) /\
    entry_ok (cell_entry cell) /\ placed wd location (cell_entry cell);
  tw_tombstones : forall handle, handle ∈ wd_tombstones wd -> wd_live wd !! handle = None;
  tw_handles : forall l1 l2 c1 c2, wd_heap wd !! l1 = Some c1 -> wd_heap wd !! l2 = Some c2 ->
    we_handle (cell_entry c1) = we_handle (cell_entry c2) -> l1 = l2;
  tw_capacity : Z.of_nat (size (wd_live wd)) <= MAX_LIVE_SESSIONS;
  tw_generation : Z.of_nat (size (wd_live wd)) + Z.of_nat (size (wd_tombstones wd)) <= MAX_SESSIONS_PER_SERVICE_GENERATION
}.

(** The children brought so far: each has exactly one owner and was not reaped,
    or was reaped once and has no owner. *)
Definition owns (wd : WD) (location : nat) (child : Z) : Prop :=
  exists cell b, wd_heap wd !! location = Some cell /\ we_broker (cell_entry cell) = Some b /\
    exact_child (eb_authority b) = child.

Definition held (wd : WD) (child : Z) : Prop :=
  reaps child (wd_events wd) = 0%nat /\ exists location, owns wd location child /\ forall l, owns wd l child -> l = location.

Definition gone (n : nat) (wd : WD) (child : Z) : Prop :=
  reaps child (wd_events wd) = n /\ forall l, ~ owns wd l child.

Record accounted (children : list Z) (wd : WD) : Prop := {
  ac_brought : forall child, child ∈ children -> held wd child \/ gone 1 wd child;
  ac_other : forall child, child ∉ children -> gone 0 wd child
}.

(** A session that is Ready was committed, once, after its reply was sent. *)
Record ready_ok (wd : WD) : Prop := {
  ro_ready : forall location cell, wd_heap wd !! location = Some cell ->
    we_phase (cell_entry cell) = ReadyCommitted -> we_handle (cell_entry cell) ∈ commits (wd_events wd);
  ro_before : forall location cell, wd_heap wd !! location = Some cell ->
    we_phase (cell_entry cell) = Starting \/ we_phase (cell_entry cell) = Traced ->
    we_handle (cell_entry cell) ∉ commits (wd_events wd);
  ro_once : NoDup (commits (wd_events wd));
  ro_known : forall handle, handle ∈ commits (wd_events wd) ->
    exists location cell, wd_heap wd !! location = Some cell /\ we_handle (cell_entry cell) = handle;
  ro_sent : sent_first (wd_events wd)
}.

Record wd_ok (children : list Z) (wd : WD) : Prop := {
  wo_wf : table_wf wd;
  wo_accounted : accounted children wd;
  wo_ready : ready_ok wd
}.

End Steps.
