(* ===== verification/WatchdogInv.v ===== *)
(** * WatchdogInv: the invariant of the table

    Every step of [WatchdogSteps.v] preserves [wd_ok]; a sequence of steps
    preserves it when the children it brings are new and distinct. *)

From stdpp Require Import gmap fin_maps.
From S2P Require Import Prelude Tools Native SupervisorWire Supervisor BrokerReport Watchdog WatchdogSteps.

Section Inv.
Context {A W F : Type} {B : ExactBrokerAuthority A W F}.

Abbreviation WD := (WatchdogTable A W).
Implicit Types (wd : WD) (e : WatchdogEntry A) (cell : Cell A).

(** ** Replacing the entry of a session *)

Lemma lookup_set location cell e wd l c :
  wd_heap wd !! location = Some cell -> wd_heap (set_entry location cell e wd) !! l = Some c ->
  (l = location /\ cell_entry c = e /\ cell_readers c = cell_readers cell) \/
  (l <> location /\ wd_heap wd !! l = Some c).
Proof.
  intros Hl H. cbn in H. apply lookup_insert_Some in H as [[<- <-]|[Hne H]]; [left|right]; auto.
Qed.

Lemma table_wf_set location cell e wd :
  table_wf wd -> wd_heap wd !! location = Some cell -> cell_readers cell = 0%nat ->
  we_handle e = we_handle (cell_entry cell) -> entry_ok e ->
  (is_reaped (we_phase (cell_entry cell)) = true -> is_reaped (we_phase e) = true) ->
  table_wf (set_entry location cell e wd).
Proof.
  intros [Hl He Ht Hh Hc Hg] Hloc Hfree Hhandle Hok Hreap. split; [| |exact Ht| |exact Hc|exact Hg].
  - intros handle l H. destruct (Hl _ _ H) as (c & Hc' & Heq). cbn. destruct (decide (l = location)) as [->|Hne].
    + rewrite lookup_insert_eq. eexists. split; [done|]. cbn. simplify_eq. congruence.
    + rewrite lookup_insert_ne by done. eauto.
  - intros l c H. apply (lookup_set _ _ _ _ _ _ Hloc) in H as [(-> & Hce & Hcr)|[_ H]]; [|exact (He _ _ H)].
    destruct (He _ _ Hloc) as (Hr & _ & Hp). rewrite Hce, Hcr, Hfree. split_and!; [lia|done|].
    unfold placed in *. rewrite Hhandle. cbn. naive_solver.
  - intros l1 l2 c1 c2 H1 H2 Heq.
    apply (lookup_set _ _ _ _ _ _ Hloc) in H1 as [(-> & Hc1 & _)|[Hn1 H1]];
      apply (lookup_set _ _ _ _ _ _ Hloc) in H2 as [(-> & Hc2 & _)|[Hn2 H2]]; [done|..].
    + destruct Hn2. apply (Hh _ _ _ _ H2 Hloc). congruence.
    + destruct Hn1. apply (Hh _ _ _ _ H1 Hloc). congruence.
    + exact (Hh _ _ _ _ H1 H2 Heq).
Qed.

(** The parts of the state an invariant reads. *)
Lemma table_wf_ext wd wd' :
  wd_heap wd' = wd_heap wd -> wd_live wd' = wd_live wd -> wd_tombstones wd' = wd_tombstones wd ->
  table_wf wd -> table_wf wd'.
Proof.
  intros Hh Hl Ht [H1 H2 H3 H4 H5 H6]. split; rewrite ?Hh, ?Hl, ?Ht; auto.
  intros location cell H. unfold placed. rewrite Hl, Ht. exact (H2 _ _ H).
Qed.

(** ** The table is well formed *)

Lemma active_broker wd location cell :
  table_wf wd -> wd_heap wd !! location = Some cell -> active (we_phase (cell_entry cell)) = true ->
  exists b, we_broker (cell_entry cell) = Some b /\ eb_armed b = true.
Proof.
  intros Hwf Hl Ha. destruct (tw_entry wd Hwf _ _ Hl) as (_ & [[Hr _]|[_ Hb]] & _); [|done].
  now destruct (we_phase (cell_entry cell)).
Qed.

Lemma retire_wf handle location cell wd :
  table_wf wd -> wd_live wd !! handle = Some location -> wd_heap wd !! location = Some cell ->
  is_reaped (we_phase (cell_entry cell)) = true ->
  table_wf (with_live (delete handle (wd_live wd)) (with_tombstones ({[handle]} ∪ wd_tombstones wd) wd)).
Proof.
  intros [Hl He Ht Hh Hc Hg] Hlive Hloc Hr.
  destruct (Hl _ _ Hlive) as (cell' & Hcell' & Hhandle). simplify_eq.
  assert (Hsize : size (wd_live wd) = S (size (delete (we_handle (cell_entry cell)) (wd_live wd)))).
  { rewrite map_size_delete_Some by eauto.
    assert (size (wd_live wd) <> 0%nat); [|lia]. rewrite map_size_ne_0_lookup. eauto. }
  assert (Hnew : we_handle (cell_entry cell) ∉ wd_tombstones wd).
  { intros H. apply Ht in H. congruence. }
  split; cbn.
  - intros h l H. apply lookup_delete_Some in H as [_ H]. eauto.
  - intros l c H. destruct (He _ _ H) as (Hrd & Hok & Hp). split_and!; [done..|].
    destruct (decide (l = location)) as [->|Hne].
    + simplify_eq. right. cbn. split; [done|set_solver].
    + destruct Hp as [Hp|[Hp1 Hp2]]; [left|right; cbn; set_solver]. cbn.
      apply lookup_delete_Some. split; [|done]. intros Heq. apply Hne. exact (Hh _ _ _ _ H Hloc (eq_sym Heq)).
  - intros h [->%elem_of_singleton|H]%elem_of_union; [apply lookup_delete_eq|].
    apply lookup_delete_None. right. now apply Ht.
  - exact Hh.
  - lia.
  - rewrite size_union by set_solver. rewrite size_singleton. lia.
Qed.

Lemma insert_wf handle location e b wd :
  table_wf wd -> wd_heap wd !! location = None -> wd_live wd !! handle = None -> handle ∉ wd_tombstones wd ->
  Z.of_nat (size (wd_live wd)) < MAX_LIVE_SESSIONS ->
  Z.of_nat (size (wd_live wd)) + Z.of_nat (size (wd_tombstones wd)) < MAX_SESSIONS_PER_SERVICE_GENERATION ->
  we_handle e = handle -> we_phase e = Starting -> we_broker e = Some b -> eb_armed b = true ->
  table_wf (with_live (<[handle := location]> (wd_live wd))
     (with_heap (<[location := {| cell_entry := e; cell_readers := 0 |}]> (wd_heap wd)) wd)).
Proof.
  intros [Hl He Ht Hh Hc Hg] Hfree Hnone Hnt H64 H4096 Hhandle Hphase Hb Harm.
  assert (Hother : forall l c, wd_heap wd !! l = Some c -> we_handle (cell_entry c) <> handle).
  { intros l c H Heq. destruct (He _ _ H) as (_ & _ & [Hp|[_ Hp]]); rewrite Heq in Hp; [congruence|done]. }
  split; cbn.
  - intros h l H. apply lookup_insert_Some in H as [[<- <-]|[_ H]].
    + rewrite lookup_insert_eq. eauto.
    + destruct (Hl _ _ H) as (c & Hcell & Heq). exists c. split; [|done].
      rewrite lookup_insert_ne; [done|]. intros ->. congruence.
  - intros l c H. apply lookup_insert_Some in H as [[<- <-]|[_ H]].
    + split_and!; [cbn; lia| |].
      * right. cbn. rewrite Hphase. eauto.
      * left. cbn. rewrite Hhandle. apply lookup_insert_eq.
    + destruct (He _ _ H) as (Hrd & Hok & Hp). split_and!; [done..|]. destruct Hp as [Hp|Hp]; [left|right; exact Hp].
      cbn. rewrite lookup_insert_ne; [done|]. intros Heq. exact (Hother _ _ H (eq_sym Heq)).
  - intros h H. rewrite lookup_insert_ne; [now apply Ht|]. intros ->. contradiction.
  - intros l1 l2 c1 c2 H1 H2 Heq.
    apply lookup_insert_Some in H1 as [[<- <-]|[_ H1]]; apply lookup_insert_Some in H2 as [[<- <-]|[_ H2]]; cbn in Heq.
    + done.
    + destruct (Hother _ _ H2). congruence.
    + destruct (Hother _ _ H1). congruence.
    + exact (Hh _ _ _ _ H1 H2 Heq).
  - rewrite map_size_insert_None by done. lia.
  - rewrite map_size_insert_None by done. lia.
Qed.

Lemma wstep_wf label wd wd' : wstep label wd wd' -> table_wf wd -> table_wf wd'.
Proof.
  intros H Hwf. destruct H as
    [w wd|event wd ? ?|location cell e b b' wd Hl Hf Ha He Hready Hs Hb Hb' Hx Harm Hr Ht
    |location cell b event reason wd Hl Hf Ha Hb He|handle location cell wd Hv Hl Hr
    |handle location e b wd ? ? ? ? ? ? ? ? ?|event child wd ?|location cell resumes w wd Hl Hf Hp Hn].
  - now apply (table_wf_ext wd).
  - now apply (table_wf_ext wd).
  - destruct (active_broker _ _ _ Hwf Hl Ha) as (b0 & Hb0 & Harm0).
    apply table_wf_set; [done|done|done|apply Hs| |].
    + right. split; [done|]. exists b'. split; [done|]. congruence.
    + now destruct (we_phase (cell_entry cell)).
  - apply (table_wf_ext (set_entry location cell (reaped_as reason (cell_entry cell)) wd)); [done..|].
    apply table_wf_set; [done|done|done|done| |done]. now left.
  - now apply (retire_wf _ location cell).
  - now apply (insert_wf handle location e b).
  - now apply (table_wf_ext wd).
  - apply (table_wf_ext (set_entry location cell (with_phase ReadyCommitted (cell_entry cell)) wd)); [done..|].
    destruct (active_broker _ _ _ Hwf Hl) as (b & Hb & Harm); [now rewrite Hp|].
    apply table_wf_set; [done|done|done|done| |now rewrite Hp]. right. eauto.
Qed.

(** ** Every child is accounted for *)

Lemma accounted_ext children wd wd' :
  (forall location child, owns wd' location child <-> owns wd location child) ->
  (forall child, reaps child (wd_events wd') = reaps child (wd_events wd)) ->
  accounted children wd -> accounted children wd'.
Proof.
  intros Ho Hr [H1 H2]. split; intros child Hc.
  - destruct (H1 _ Hc) as [[Hz (l & Hl & Hu)]|[Hz Hn]]; [left|right]; (split; [now rewrite Hr|]).
    + exists l. split; [now apply Ho|]. intros l' Hl'. apply Hu. now apply Ho.
    + intros l Hl. apply (Hn l). now apply Ho.
  - destruct (H2 _ Hc) as [Hz Hn]. split; [now rewrite Hr|]. intros l Hl. apply (Hn l). now apply Ho.
Qed.

(** The owners of the other locations are the same. *)
Lemma owns_set location cell e wd l child :
  wd_heap wd !! location = Some cell ->
  owns (set_entry location cell e wd) l child <->
  (l = location /\ exists b, we_broker e = Some b /\ exact_child (eb_authority b) = child) \/
  (l <> location /\ owns wd l child).
Proof.
  intros Hl. split.
  - intros (c & b & Hc & Hb & Hx). apply (lookup_set _ _ _ _ _ _ Hl) in Hc as [(-> & <- & _)|[Hne Hc]].
    + left. eauto.
    + right. split; [done|]. exists c, b. auto.
  - intros [(-> & b & Hb & Hx)|[Hne (c & b & Hc & Hb & Hx)]].
    + eexists _, b. split; [apply lookup_insert_eq|]. auto.
    + exists c, b. split; [|auto]. cbn. now rewrite lookup_insert_ne by done.
Qed.

(** An entry whose child stays the same. *)
Lemma owns_same location cell e b b' wd :
  wd_heap wd !! location = Some cell -> we_broker (cell_entry cell) = Some b -> we_broker e = Some b' ->
  exact_child (eb_authority b') = exact_child (eb_authority b) ->
  forall l child, owns (set_entry location cell e wd) l child <-> owns wd l child.
Proof.
  intros Hl Hb Hb' Hx l child. rewrite owns_set by done. split.
  - intros [(-> & b0 & Hb0 & Hc)|[_ H]]; [|done]. exists cell, b. split_and!; [done..|]. congruence.
  - intros H. destruct (decide (l = location)) as [->|Hne]; [left|right; auto].
    destruct H as (c & b0 & Hc & Hb0 & Hx0). split; [done|]. exists b'. split; [done|]. congruence.
Qed.

Lemma reap_accounted children location cell e b event wd :
  accounted children wd -> wd_heap wd !! location = Some cell ->
  we_broker (cell_entry cell) = Some b -> we_broker e = None ->
  reap_of event = Some (exact_child (eb_authority b)) ->
  accounted children (record_event event (set_entry location cell e wd)).
Proof.
  intros [H1 H2] Hl Hb He Hev. set (child := exact_child (eb_authority b)) in *.
  assert (Howned : owns wd location child) by (exists cell, b; auto).
  assert (Hin : child ∈ children).
  { destruct (decide (child ∈ children)) as [|Hnot]; [done|]. destruct (H2 _ Hnot) as [_ Hno]. now destruct (Hno location). }
  destruct (H1 _ Hin) as [[Hz (l0 & _ & Hu)]|[_ Hno]]; [|now destruct (Hno location)].
  assert (Ho : forall l c, owns (set_entry location cell e wd) l c <-> l <> location /\ owns wd l c).
  { intros l c. rewrite owns_set by done. split; [|now right].
    intros [(_ & b0 & Hb0 & _)|?]; [congruence|done]. }
  assert (Hreaps : forall c, reaps c (wd_events (record_event event (set_entry location cell e wd)))
                     = (reaps c (wd_events wd) + (if decide (c = child) then 1 else 0))%nat).
  { intros c. now apply reaps_snoc_some. }
  split; intros c Hc.
  - destruct (decide (c = child)) as [->|Hne].
    + right. split; [rewrite Hreaps, decide_True by done; lia|]. intros l H%Ho. destruct H as [Hne H].
      apply Hne. rewrite (Hu _ H). now rewrite (Hu _ Howned).
    + destruct (H1 _ Hc) as [[Hz' (l & Hlo & Hu')]|[Hz' Hno]]; [left|right]; (split; [rewrite Hreaps, decide_False by done; lia|]).
      * exists l. split; [|intros l' H%Ho; now apply Hu']. apply Ho. split; [|done]. intros ->.
        apply Hne. destruct Hlo as (c0 & b0 & Hc0 & Hb0 & Hx). unfold child. congruence.
      * intros l H%Ho. now apply (Hno l).
  - destruct (H2 _ Hc) as [Hz' Hno]. split.
    + rewrite Hreaps, decide_False; [lia|congruence].
    + intros l H%Ho. now apply (Hno l).
Qed.

Lemma insert_accounted children location e b live wd :
  accounted children wd -> wd_heap wd !! location = None -> we_broker e = Some b ->
  exact_child (eb_authority b) ∉ children ->
  accounted (children ++ [exact_child (eb_authority b)])
    (with_live live (with_heap (<[location := {| cell_entry := e; cell_readers := 0 |}]> (wd_heap wd)) wd)).
Proof.
  intros [H1 H2] Hl Hb Hnew. set (wd' := with_live live _). set (child := exact_child (eb_authority b)) in *.
  assert (Ho : forall l c, owns wd' l c <-> (l = location /\ c = child) \/ owns wd l c).
  { intros l c. split.
    - intros (cl & b0 & Hc & Hb0 & Hx). cbn in Hc. apply lookup_insert_Some in Hc as [[<- <-]|[_ Hc]].
      + left. split; [done|]. cbn in Hb0. unfold child. congruence.
      + right. exists cl, b0. auto.
    - intros [[-> ->]|(cl & b0 & Hc & Hb0 & Hx)].
      + eexists _, b. split; [apply lookup_insert_eq|]. auto.
      + exists cl, b0. split; [|auto]. cbn. rewrite lookup_insert_ne; [done|congruence]. }
  destruct (H2 _ Hnew) as [Hz0 Hno0].
  split; intros c Hc.
  - apply elem_of_app in Hc as [Hc|Hc%list_elem_of_singleton].
    + assert (Hne : c <> child) by congruence.
      destruct (H1 _ Hc) as [[Hz (l & Hlo & Hu)]|[Hz Hno]]; [left|right]; (split; [done|]).
      * exists l. split; [apply Ho; now right|]. intros l' [[_ ?]|H]%Ho; [done|auto].
      * intros l [[_ ?]|H]%Ho; [done|now apply (Hno l)].
    + subst c. left. split; [done|]. exists location. split; [apply Ho; now left|].
      intros l [[-> _]|H]%Ho; [done|]. now destruct (Hno0 l).
  - apply not_elem_of_app in Hc as [Hc1 Hc2]. destruct (H2 _ Hc1) as [Hz Hno]. split; [done|].
    intros l [[_ ->]|H]%Ho; [|now apply (Hno l)]. apply Hc2. now left.
Qed.

Lemma refuse_accounted children event child wd :
  accounted children wd -> reap_of event = Some child -> child ∉ children ->
  accounted (children ++ [child]) (record_event event wd).
Proof.
  intros [H1 H2] Hev Hnew. destruct (H2 _ Hnew) as [Hz Hno].
  assert (Hreaps : forall c, reaps c (wd_events (record_event event wd))
                     = (reaps c (wd_events wd) + (if decide (c = child) then 1 else 0))%nat).
  { intros c. now apply reaps_snoc_some. }
  split; intros c Hc.
  - apply elem_of_app in Hc as [Hc| ->%list_elem_of_singleton].
    + assert (Hne : c <> child) by congruence.
      destruct (H1 _ Hc) as [[Hz' Ho]|[Hz' Ho]]; [left|right];
        (split; [rewrite Hreaps, decide_False by congruence; lia|exact Ho]).
    + right. split; [rewrite Hreaps, decide_True by done; lia|exact Hno].
  - apply not_elem_of_app in Hc as [Hc1 Hc2]. destruct (H2 _ Hc1) as [Hz' Ho]. split; [|exact Ho].
    rewrite Hreaps, decide_False; [lia|]. intros ->. apply Hc2. now left.
Qed.

Lemma wstep_accounted children label wd wd' :
  wstep label wd wd' -> table_wf wd -> (forall child, label = Some child -> child ∉ children) ->
  accounted children wd -> accounted (children ++ option_list label) wd'.
Proof.
  intros H Hwf Hnew Hac. destruct H as
    [w wd|event wd Hr Hc|location cell e b b' wd Hl Hf Ha He Hready Hs Hb Hb' Hx Harm Hrc Ht
    |location cell b event reason wd Hl Hf Ha Hb He|handle location cell wd Hv Hl Hr
    |handle location e b wd ? ? ? ? ? ? ? ? ?|event child wd ?|location cell resumes w wd Hl Hf Hp Hn];
    cbn [option_list]; rewrite ?app_nil_r.
  - now apply (accounted_ext _ wd).
  - apply (accounted_ext _ wd); [done| |done]. intros child. now apply reaps_snoc_none.
  - apply (accounted_ext _ wd); [|done|done]. now apply (owns_same _ _ _ b b').
  - now apply (reap_accounted _ _ _ _ b).
  - now apply (accounted_ext _ wd).
  - apply insert_accounted; auto.
  - apply refuse_accounted; auto.
  - destruct (active_broker _ _ _ Hwf Hl) as (b & Hb & _); [now rewrite Hp|].
    apply (accounted_ext _ wd); [|intros child; cbn|done].
    + exact (owns_same location cell (with_phase ReadyCommitted (cell_entry cell)) b b wd Hl Hb Hb eq_refl).
    + rewrite reaps_app, (reaps_none child (_ :: _)); [lia|]. constructor; [done|]. apply Forall_app. split; [|by constructor].
      eapply Forall_impl; [exact Hn|]. now intros ? [].
Qed.

(** ** Ready *)

Lemma ready_set location cell e wd :
  ready_ok wd -> wd_heap wd !! location = Some cell -> we_handle e = we_handle (cell_entry cell) ->
  (we_phase e = ReadyCommitted -> we_phase (cell_entry cell) = ReadyCommitted) ->
  (we_phase e = Starting \/ we_phase e = Traced ->
   we_phase (cell_entry cell) = Starting \/ we_phase (cell_entry cell) = Traced) ->
  ready_ok (set_entry location cell e wd).
Proof.
  intros [H1 H2 H3 H4 H5] Hl Hh Hr Hb. split; [..|exact H3| |exact H5].
  - intros l c Hc Hp. apply (lookup_set _ _ _ _ _ _ Hl) in Hc as [(-> & Hce & _)|[_ Hc]]; [|exact (H1 _ _ Hc Hp)].
    rewrite Hce in *. cbn. rewrite Hh. eauto.
  - intros l c Hc Hp. apply (lookup_set _ _ _ _ _ _ Hl) in Hc as [(-> & Hce & _)|[_ Hc]]; [|exact (H2 _ _ Hc Hp)].
    rewrite Hce in *. cbn. rewrite Hh. eauto.
  - intros h Hin. destruct (H4 _ Hin) as (l & c & Hc & Heq). cbn.
    destruct (decide (l = location)) as [->|Hne]; [|exists l, c; now rewrite lookup_insert_ne by done].
    eexists _, _. split; [apply lookup_insert_eq|]. cbn. simplify_eq. congruence.
Qed.

Lemma ready_event events wd :
  Forall (fun event => commit_of event = None) events -> ready_ok wd ->
  ready_ok {| wd_heap := wd_heap wd; wd_live := wd_live wd; wd_tombstones := wd_tombstones wd;
              wd_events := wd_events wd ++ events; wd_world := wd_world wd |}.
Proof.
  intros Hn [H1 H2 H3 H4 H5].
  assert (Hc : commits (wd_events wd ++ events) = commits (wd_events wd)).
  { rewrite commits_app. replace (commits events) with (@nil bytes); [apply app_nil_r|].
    unfold commits. induction Hn as [|ev l Hev _ IH]; cbn; [done|]. now rewrite Hev. }
  split; cbn; rewrite ?Hc; auto. now apply sent_first_none.
Qed.

Lemma ready_ext wd wd' :
  wd_heap wd' = wd_heap wd -> wd_events wd' = wd_events wd -> ready_ok wd -> ready_ok wd'.
Proof. intros Hh He [H1 H2 H3 H4 H5]. split; rewrite ?Hh, ?He; auto. Qed.

Lemma insert_ready handle location e live wd :
  table_wf wd -> ready_ok wd -> wd_heap wd !! location = None -> we_handle e = handle ->
  wd_live wd !! handle = None -> handle ∉ wd_tombstones wd -> we_phase e = Starting ->
  ready_ok (with_live live (with_heap (<[location := {| cell_entry := e; cell_readers := 0 |}]> (wd_heap wd)) wd)).
Proof.
  intros Hwf [H1 H2 H3 H4 H5] Hfree Hh Hnone Hnt Hp.
  assert (Hnew : handle ∉ commits (wd_events wd)).
  { intros Hin. destruct (H4 _ Hin) as (l & c & Hc & Heq).
    destruct (tw_entry wd Hwf _ _ Hc) as (_ & _ & [H|[_ H]]); rewrite Heq in H; [congruence|done]. }
  split; cbn; [..|done| |done].
  - intros l c Hc Hpc. apply lookup_insert_Some in Hc as [[<- <-]|[_ Hc]]; [cbn in Hpc; congruence|eauto].
  - intros l c Hc Hpc. apply lookup_insert_Some in Hc as [[<- <-]|[_ Hc]]; [cbn; congruence|eauto].
  - intros h Hin. destruct (H4 _ Hin) as (l & c & Hc & Heq). exists l, c. split; [|done].
    rewrite lookup_insert_ne; [done|congruence].
Qed.

Lemma commit_ready location cell resumes w wd :
  table_wf wd -> ready_ok wd -> wd_heap wd !! location = Some cell -> we_phase (cell_entry cell) = Traced ->
  Forall (fun event => reap_of event = None /\ commit_of event = None) resumes ->
  ready_ok (W := W)
    (let handle := we_handle (cell_entry cell) in
     {| wd_heap := <[location := {| cell_entry := with_phase ReadyCommitted (cell_entry cell);
                                    cell_readers := cell_readers cell |}]> (wd_heap wd);
        wd_live := wd_live wd; wd_tombstones := wd_tombstones wd;
        wd_events := wd_events wd ++ ReadySent handle (we_connection (cell_entry cell)) true :: resumes
                     ++ [Committed handle];
        wd_world := w |}).
Proof.
  intros Hwf [H1 H2 H3 H4 H5] Hl Hp Hn. cbn zeta. set (handle := we_handle (cell_entry cell)).
  assert (Hc : commits (wd_events wd ++ ReadySent handle (we_connection (cell_entry cell)) true :: resumes
                        ++ [Committed handle]) = commits (wd_events wd) ++ [handle]).
  { rewrite commits_app. f_equal.
    transitivity (commits (resumes ++ [Committed handle])); [reflexivity|].
    now rewrite commits_app, commits_none by done. }
  assert (Hnot : handle ∉ commits (wd_events wd)) by (apply (H2 _ _ Hl); auto).
  assert (Hset : forall l c, <[location := {| cell_entry := with_phase ReadyCommitted (cell_entry cell);
                                cell_readers := cell_readers cell |}]> (wd_heap wd) !! l = Some c ->
                 (l = location /\ cell_entry c = with_phase ReadyCommitted (cell_entry cell)) \/
                 (l <> location /\ wd_heap wd !! l = Some c)).
  { intros l c H. apply lookup_insert_Some in H as [[<- <-]|[? H]]; auto. }
  split; cbn; rewrite ?Hc.
  - intros l c [(-> & Hce)|[_ Hl']]%Hset Hpc; apply elem_of_app.
    + right. rewrite Hce. now left.
    + left. eauto.
  - intros l c [(-> & Hce)|[Hne Hl']]%Hset Hpc; [rewrite Hce in Hpc; cbn in Hpc; now destruct Hpc|].
    apply not_elem_of_app. split; [eauto|]. intros Heq%list_elem_of_singleton.
    exact (Hne (tw_handles wd Hwf _ _ _ _ Hl' Hl Heq)).
  - apply NoDup_app. split_and!; [done| |apply NoDup_singleton]. intros h Hin ->%list_elem_of_singleton. done.
  - intros h [Hin| ->%list_elem_of_singleton]%elem_of_app.
    + destruct (H4 _ Hin) as (l & c & Hc' & Heq). destruct (decide (l = location)) as [->|Hne].
      * eexists _, _. split; [apply lookup_insert_eq|]. cbn. simplify_eq. congruence.
      * exists l, c. now rewrite lookup_insert_ne by done.
    + eexists _, _. split; [apply lookup_insert_eq|]. done.
  - apply sent_first_app; [done|]. intros [|i] h Hi; cbn in Hi; [done|].
    apply lookup_app_Some in Hi as [Hi|[_ Hi]].
    + destruct (Forall_lookup_1 _ _ _ _ Hn Hi) as [_ Hx]. done.
    + destruct (i - length resumes)%nat as [|[]]; cbn in Hi; simplify_eq.
      exists 0%nat, (we_connection (cell_entry cell)). split; [lia|done].
Qed.

Lemma wstep_ready label wd wd' : wstep label wd wd' -> table_wf wd -> ready_ok wd -> ready_ok wd'.
Proof.
  intros H Hwf Hro. destruct H as
    [w wd|event wd Hr Hc|location cell e b b' wd Hl Hf Ha He Hready Hs Hb Hb' Hx Harm Hrc Ht
    |location cell b event reason wd Hl Hf Ha Hb He|handle location cell wd Hv Hl Hr
    |handle location e b wd ? ? ? ? ? ? ? ? ?|event child wd He|location cell resumes w wd Hl Hf Hp Hn].
  - now apply (ready_ext wd).
  - apply (ready_event [event]); auto.
  - apply ready_set; [done|done|apply Hs|done|]. intros Hphase.
    destruct (we_phase (cell_entry cell)) as [| | |r|r|r] eqn:Ep; try done; auto.
    + destruct (Hrc eq_refl) as [Hn1 Hn2]. now destruct Hphase.
    + rewrite (Ht _ eq_refl) in Hphase. now destruct Hphase.
  - apply (ready_event [event] (set_entry location cell (reaped_as reason (cell_entry cell)) wd)).
    + constructor; [|done]. now destruct event as [| ? ? []| | | | | |].
    + apply ready_set; [done|done|done|done|]. intros [?|?]; discriminate.
  - now apply (ready_ext wd).
  - apply (insert_ready handle); auto.
  - apply (ready_event [event]); [|done]. constructor; [|done]. now destruct event as [| ? ? []| | | | | |].
  - now apply commit_ready.
Qed.

(** ** The invariant *)

Lemma wstep_ok children label wd wd' :
  wstep label wd wd' -> (forall child, label = Some child -> child ∉ children) ->
  wd_ok children wd -> wd_ok (children ++ option_list label) wd'.
Proof.
  intros H Hnew [Hwf Hac Hro]. split.
  - exact (wstep_wf _ _ _ H Hwf).
  - exact (wstep_accounted _ _ _ _ H Hwf Hnew Hac).
  - exact (wstep_ready _ _ _ H Hwf Hro).
Qed.

Lemma wsteps_wf children wd wd' : wsteps children wd wd' -> table_wf wd -> table_wf wd'.
Proof. induction 1 as [|cs label wd1 wd2 wd3 _ IH Hs]; intros Hwf; [done|]. exact (wstep_wf _ _ _ Hs (IH Hwf)). Qed.

Lemma wsteps_ok before children wd wd' :
  wsteps children wd wd' -> NoDup (before ++ children) -> wd_ok before wd -> wd_ok (before ++ children) wd'.
Proof.
  induction 1 as [wd|cs label wd1 wd2 wd3 H IH Hs]; intros Hnd Hok; [now rewrite app_nil_r|].
  rewrite app_assoc in Hnd |- *. apply NoDup_app in Hnd as (Hnd & Hdis & _).
  apply (wstep_ok _ _ _ _ Hs); [|now apply IH].
  intros child -> Hin. apply (Hdis child Hin). now left.
Qed.

Lemma new_table_ok w : wd_ok [] (WatchdogTable_new (A := A) w).
Proof.
  split.
  - split; cbn; try done; intros; try (rewrite size_empty; unfold MAX_LIVE_SESSIONS, MAX_SESSIONS_PER_SERVICE_GENERATION; lia);
      set_solver.
  - split; [set_solver|]. intros c _. split; [done|]. intros l (cell & b & H & _). cbn in H. set_solver.
  - split; cbn; [set_solver..|constructor|set_solver|]. intros i h H. cbn in H. now rewrite lookup_nil in H.
Qed.

End Inv.
