(* ===== verification/WatchdogTheory.v ===== *)
(** * WatchdogTheory: the methods of the table are sequences of steps

    [does cs m Q wd]: [m] run from [wd] is a sequence of steps that brings the
    children [cs], and ends with an outcome and a table that satisfy [Q]; or it
    aborts the process in one of the two ways the code has for it, after a
    sequence of steps: a call of the authority ended the process, or an entry
    was to be changed while a commit guard is held on it. *)

From stdpp Require Import gmap fin_maps.
From S2P Require Import Prelude Tools Native SupervisorWire Supervisor BrokerReport Watchdog WatchdogSteps WatchdogInv.

(** What the table relies on: an authority keeps standing for the same child. A
    call of it may end the process. *)
Class AuthorityLaws {A W F} (B : ExactBrokerAuthority A W F) : Prop := {
  activate_law : forall a w r a' w', activate_after_registration (a, w) = (r, (a', w')) -> r <> Panic -> exact_child a' = exact_child a;
  terminate_law : forall reason a w r a' w',
    terminate_and_reap reason (a, w) = (r, (a', w')) -> r <> Panic -> exact_child a' = exact_child a
}.

(** A call of an authority over [child] ends the process. *)
Definition authority_aborts {A W F} (B : ExactBrokerAuthority A W F) (child : Z) : Prop :=
  exists a w, exact_child a = child /\
    (fst (activate_after_registration (a, w)) = Panic \/
     (exists reason, fst (terminate_and_reap reason (a, w)) = Panic) \/
     (exists reason, fst (emergency_terminate_and_reap reason (a, w)) = Panic)).

Section Theory.
Context {A W F : Type} {B : ExactBrokerAuthority A W F} {BL : AuthorityLaws B} {C : Clock W}.

Abbreviation WD := (WatchdogTable A W).
Implicit Types (wd : WD) (e : WatchdogEntry A) (cell : Cell A).

(** ** How the process can end *)

(** A commit guard is held on the entry. *)
Definition pinned wd (location : nat) : Prop :=
  exists cell, wd_heap wd !! location = Some cell /\ (0 < cell_readers cell)%nat.

Definition cause wd (event : WatchdogEvent) : Prop :=
  match event with
  | AuthorityAborted child => authority_aborts B child
  | BorrowConflict location => pinned wd location
  | _ => False
  end.

(** After a sequence of steps that brought some of the children, the event that
    ended the process. *)
Definition stopped (cs : list Z) wd wd' : Prop :=
  exists cs' wd1 event, cs' `prefix_of` cs /\ wsteps cs' wd wd1 /\ wd_events wd' = wd_events wd1 ++ [event] /\ cause wd1 event.

Lemma stopped_here cs wd wd' event : wd_events wd' = wd_events wd ++ [event] -> cause wd event -> stopped cs wd wd'.
Proof. intros He Hc. exists [], wd, event. split; [apply prefix_nil|]. split; [constructor|done]. Qed.

Lemma stopped_after cs1 cs2 wd wd1 wd' : wsteps cs1 wd wd1 -> stopped cs2 wd1 wd' -> stopped (cs1 ++ cs2) wd wd'.
Proof.
  intros Hs (cs' & wd2 & event & Hp & Hs2 & He). exists (cs1 ++ cs'), wd2, event. split; [now apply prefix_app|].
  split; [|done]. exact (wsteps_trans cs1 cs' _ _ _ Hs Hs2).
Qed.

Lemma stopped_more cs1 cs2 wd wd' : stopped cs1 wd wd' -> stopped (cs1 ++ cs2) wd wd'.
Proof.
  intros (cs' & wd1 & event & Hp & Hrest). exists cs', wd1, event. split; [now apply prefix_app_r|done].
Qed.

(** ** The triple *)

Definition does {E T} (cs : list Z) (m : stm WD E T) (Q : res E T -> WD -> Prop) (wd : WD) : Prop :=
  wp m (fun r wd' => r = Panic /\ stopped cs wd wd' \/ r <> Panic /\ wsteps cs wd wd' /\ Q r wd') wd.

Lemma does_intro {E T} cs (m : stm WD E T) (Q : res E T -> WD -> Prop) wd r wd' :
  m wd = (r, wd') -> r <> Panic -> wsteps cs wd wd' -> Q r wd' -> does cs m Q wd.
Proof. unfold does, wp. intros ->. auto. Qed.

Lemma does_stop {E T} cs (m : stm WD E T) (Q : res E T -> WD -> Prop) wd wd' :
  m wd = (Panic, wd') -> stopped cs wd wd' -> does cs m Q wd.
Proof. unfold does, wp. intros ->. auto. Qed.

Lemma does_elim {E T} cs (m : stm WD E T) (Q : res E T -> WD -> Prop) wd :
  does cs m Q wd -> exists r wd', m wd = (r, wd') /\
    (r = Panic /\ stopped cs wd wd' \/ r <> Panic /\ wsteps cs wd wd' /\ Q r wd').
Proof. unfold does, wp. destruct (m wd) as [r wd']. eauto. Qed.

Lemma does_mono {E T} cs (m : stm WD E T) (P Q : res E T -> WD -> Prop) wd :
  does cs m P wd -> (forall r wd', wsteps cs wd wd' -> P r wd' -> Q r wd') -> does cs m Q wd.
Proof. unfold does, wp. destruct (m wd). naive_solver. Qed.

Lemma does_done {E T} (r : res E T) (Q : res E T -> WD -> Prop) wd :
  r <> Panic -> Q r wd -> does [] (slift r) Q wd.
Proof. intros. apply (does_intro _ _ _ _ r wd); [done|done|constructor|done]. Qed.

Lemma does_ret {E T} (a : T) (Q : res E T -> WD -> Prop) wd : Q (Ok a) wd -> does [] (sret a) Q wd.
Proof. apply (does_done (Ok a)). discriminate. Qed.

Lemma does_err {E T} (e : E) (Q : res E T -> WD -> Prop) wd : Q (Err e) wd -> does [] (serr e) Q wd.
Proof. apply (does_done (Err e)). discriminate. Qed.

(** Statements whose outcome is known: the code that follows. *)
Lemma does_from {E T U} cs1 cs2 (m : stm WD E T) (k : T -> stm WD E U) (Q : res E U -> WD -> Prop) wd a wd' :
  m wd = (Ok a, wd') -> wsteps cs1 wd wd' -> does cs2 (k a) Q wd' -> does (cs1 ++ cs2) (sbind m k) Q wd.
Proof.
  intros Hm Hs H. unfold does, wp, sbind in *. rewrite Hm. destruct (k a wd') as [r wd''].
  destruct H as [[-> H]|(H1 & H2 & H3)]; [left|right]; (split; [done|]).
  - exact (stopped_after _ _ _ _ _ Hs H).
  - split; [|done]. exact (wsteps_trans cs1 cs2 _ _ _ Hs H2).
Qed.

Lemma does_run {E T U} cs (m : stm WD E T) (k : T -> stm WD E U) (Q : res E U -> WD -> Prop) wd a wd' :
  m wd = (Ok a, wd') -> wsteps [] wd wd' -> does cs (k a) Q wd' -> does cs (sbind m k) Q wd.
Proof. exact (does_from [] cs m k Q wd a wd'). Qed.

Lemma does_brings {E T U} cs (m : stm WD E T) (k : T -> stm WD E U) (Q : res E U -> WD -> Prop) wd a wd' :
  m wd = (Ok a, wd') -> wsteps cs wd wd' -> does [] (k a) Q wd' -> does cs (sbind m k) Q wd.
Proof. intros Hm Hs H. rewrite <- (app_nil_r cs). now apply (does_from cs [] m k Q wd a wd'). Qed.

Lemma does_same {E T U} cs (m : stm WD E T) (k : T -> stm WD E U) (Q : res E U -> WD -> Prop) wd a :
  m wd = (Ok a, wd) -> does cs (k a) Q wd -> does cs (sbind m k) Q wd.
Proof. intros Hm. apply (does_run _ _ _ _ _ _ _ Hm). constructor. Qed.

Lemma does_fails {E T U} (m : stm WD E T) (k : T -> stm WD E U) (Q : res E U -> WD -> Prop) wd error :
  m wd = (Err error, wd) -> Q (Err error) wd -> does [] (sbind m k) Q wd.
Proof.
  intros Hm HQ. apply (does_intro _ _ _ _ (Err error) wd); [|discriminate|constructor|done].
  unfold sbind. now rewrite Hm.
Qed.

Lemma does_bind {E T U} cs (m : stm WD E T) (k : T -> stm WD E U) P (Q : res E U -> WD -> Prop) wd :
  does cs m P wd ->
  (forall a wd', wsteps cs wd wd' -> P (Ok a) wd' -> does [] (k a) Q wd') ->
  (forall error wd', wsteps cs wd wd' -> P (Err error) wd' -> Q (Err error) wd') ->
  does cs (sbind m k) Q wd.
Proof.
  intros H Hk He. apply does_elim in H as (r & wd1 & Hm & [[-> Hst]|(Hr & Hs & HP)]).
  { apply (does_stop _ _ _ _ wd1); [|done]. unfold sbind. now rewrite Hm. }
  destruct r as [a|error|]; [now apply (does_brings _ _ _ _ _ a wd1), Hk| |done].
  apply (does_intro _ _ _ _ (Err error) wd1); [|discriminate|done|auto]. unfold sbind. now rewrite Hm.
Qed.

Lemma does_assoc {E T U V} cs (m : stm WD E T) (k : T -> stm WD E U) (f : U -> stm WD E V) (Q : res E V -> WD -> Prop) wd :
  does cs (let! x := m in let! y := k x in f y) Q wd -> does cs (let! y := (let! x := m in k x) in f y) Q wd.
Proof. unfold does, wp, sbind. now destruct (m wd) as [[a|error|] wd1]. Qed.

(** Statements whose intermediate tables are not steps: the code from [wd1] on
    is measured from [wd], where they began. *)
Lemma does_through {E T} (m : stm WD E T) (Q : res E T -> WD -> Prop) wd wd1 :
  wsteps [] wd wd1 -> does [] m Q wd1 ->
  wp m (fun r wd' => r = Panic /\ stopped [] wd wd' \/ r <> Panic /\ wsteps [] wd wd' /\ Q r wd') wd1.
Proof.
  intros Hs H. eapply wp_mono; [exact H|]. cbn. intros r wd' [[-> H1]|(H1 & H2 & H3)]; [left|right]; (split; [done|]).
  - exact (stopped_after [] [] _ _ _ Hs H1).
  - split; [|done]. exact (wsteps_nil_trans _ _ _ Hs H2).
Qed.

(** ** Sessions keep their location *)

Definition session_at wd (location : nat) (handle : bytes) (connection deadline : Z) : Prop :=
  exists cell, wd_heap wd !! location = Some cell /\ we_handle (cell_entry cell) = handle /\
    we_connection (cell_entry cell) = connection /\ we_deadline (cell_entry cell) = deadline.

Lemma wstep_session label wd wd' location handle connection deadline :
  wstep label wd wd' -> session_at wd location handle connection deadline ->
  session_at wd' location handle connection deadline.
Proof.
  intros H (c & Hc & Heq).
  destruct H as [| |l cell e b b' wd Hl Hf Ha He Hready Hs| l cell b event reason wd Hl| |h l e b wd Hfree| |l cell rs w wd Hl];
    try (now exists c).
  all: destruct (decide (location = l)) as [->|Hne];
    [|exists c; split; [cbn; now rewrite lookup_insert_ne by done|done]].
  all: try congruence.
  all: eexists; split; [apply lookup_insert_eq|]; cbn; simplify_eq; unfold same_session in *; naive_solver.
Qed.

Lemma wsteps_session cs wd wd' location handle connection deadline :
  wsteps cs wd wd' -> session_at wd location handle connection deadline ->
  session_at wd' location handle connection deadline.
Proof. induction 1; eauto using wstep_session. Qed.

(** Steps leave the commit guards as they are; a new entry has none. *)
Lemma wsteps_readers cs wd wd' location cell' :
  wsteps cs wd wd' -> wd_heap wd' !! location = Some cell' ->
  match wd_heap wd !! location with
  | Some cell => cell_readers cell' = cell_readers cell
  | None => cell_readers cell' = 0%nat
  end.
Proof.
  intros Hs. revert location cell'. induction Hs as [|cs label wd1 wd2 wd3 Hss IH Hs]; intros location cell' Hl; [now rewrite Hl|].
  destruct Hs as [| |l cell e b b' wd Hc|l cell b event reason wd Hc| |h l e b wd Hfree| |l cell rs w wd Hc];
    try (now apply IH); cbn in Hl; apply lookup_insert_Some in Hl as [[<- <-]|[_ Hl]]; try (now apply IH); cbn.
  1,2,4: exact (IH _ _ Hc).
  pose proof (IH l) as IHl. destruct (wd_heap wd1 !! l) as [cell|] eqn:E; [|done].
  exfalso. destruct (wsteps_session _ _ _ l _ _ _ Hss (ex_intro _ cell (conj E (conj eq_refl (conj eq_refl eq_refl)))))
    as (c & Hc & _). congruence.
Qed.

(** ** The statements of the methods *)

Lemma entry_facts wd location cell :
  table_wf wd -> wd_heap wd !! location = Some cell ->
  is_reaped (we_phase (cell_entry cell)) = true \/
  (active (we_phase (cell_entry cell)) = true /\ exists b, we_broker (cell_entry cell) = Some b /\ eb_armed b = true).
Proof. intros Hwf Hl. destruct (tw_entry wd Hwf _ _ Hl) as (_ & [[? _]|?] & _); auto. Qed.

Lemma borrow_run {E} wd location cell :
  wd_heap wd !! location = Some cell -> borrow (E := E) location wd = (Ok (cell_entry cell), wd).
Proof. intros Hl. unfold borrow, sbind, sget, slift. now rewrite Hl. Qed.

Lemma borrow_mut_run {E} wd location cell :
  wd_heap wd !! location = Some cell -> cell_readers cell = 0%nat ->
  borrow_mut (E := E) location wd = (Ok (cell_entry cell), wd).
Proof. intros Hl Hr. unfold borrow_mut, sbind, sget, slift. rewrite Hl. cbn. now rewrite Hr. Qed.

(** The entry can be changed, or a commit guard is held on it. *)
Lemma does_borrow_mut {E T} cs location cell (k : WatchdogEntry A -> stm WD E T) (Q : res E T -> WD -> Prop) wd :
  wd_heap wd !! location = Some cell ->
  (cell_readers cell = 0%nat -> does cs (k (cell_entry cell)) Q wd) -> does cs (sbind (borrow_mut location) k) Q wd.
Proof.
  intros Hl Hk. destruct (cell_readers cell) as [|n] eqn:Hr.
  - apply (does_same _ _ _ _ _ (cell_entry cell)); [now apply borrow_mut_run|auto].
  - apply (does_stop _ _ _ _ (record_event (BorrowConflict location) wd)).
    + unfold sbind, borrow_mut, sbind, sget, slift. rewrite Hl. cbn. now rewrite Hr.
    + apply (stopped_here _ _ _ (BorrowConflict location)); [done|]. exists cell. split; [done|lia].
Qed.

Lemma put_entry_run {E} wd location cell e :
  wd_heap wd !! location = Some cell -> put_entry (E := E) location e wd = (Ok tt, set_entry location cell e wd).
Proof.
  intros Hl. unfold put_entry, smodify, set_entry. do 3 f_equal. apply map_eq. intros l.
  destruct (decide (l = location)) as [->|Hne].
  - now rewrite lookup_alter_eq, Hl, lookup_insert_eq.
  - now rewrite lookup_alter_ne, lookup_insert_ne by done.
Qed.

Lemma set_entry_again location cell e r e' event w wd :
  set_entry location {| cell_entry := e; cell_readers := r |} e' (record_event event (with_world w (set_entry location cell e wd)))
  = record_event event (set_entry location {| cell_entry := e; cell_readers := r |} e' (with_world w wd)).
Proof. unfold set_entry, with_heap, record_event, with_world. cbn. f_equal. apply insert_insert_eq. Qed.

Lemma set_lookup location cell e wd :
  wd_heap (set_entry location cell e wd) !! location = Some {| cell_entry := e; cell_readers := cell_readers cell |}.
Proof. apply lookup_insert_eq. Qed.

Lemma bound_entry_run {E} wd location cell :
  wd_heap wd !! location = Some cell ->
  bound_entry (E := E) location (we_handle (cell_entry cell)) (we_connection (cell_entry cell)) wd
  = (Ok (cell_entry cell), wd).
Proof.
  intros Hl. unfold bound_entry, sbind. rewrite (borrow_run wd _ cell) by done.
  rewrite bool_decide_true by done. now rewrite Z.eqb_refl.
Qed.

Lemma clock_now_run {E} wd : exists now w, instant_now (wd_world wd) = (now, w) /\
  clock_now (E := E) wd = (Ok now, with_world w wd).
Proof. unfold clock_now. destruct (instant_now (wd_world wd)) as [now w]. eauto. Qed.

Lemma world_steps wd w : wsteps [] wd (with_world w wd).
Proof. apply wsteps_one. constructor. Qed.

(** ** The emergency reap of an entry *)

Definition emergency_outcome (location : nat) cell (reason : TerminationReason) wd wd' : Prop :=
  (is_reaped (we_phase (cell_entry cell)) = true /\ wd' = wd) \/
  (active (we_phase (cell_entry cell)) = true /\ exists b w',
    we_broker (cell_entry cell) = Some b /\
    let effective_reason := effective (we_phase (cell_entry cell)) reason in
    wd' = record_event (EmergencyReaped (exact_child (eb_authority b)) (Some effective_reason))
            (set_entry location cell (reaped_as effective_reason (cell_entry cell)) (with_world w' wd))).

(** The two kinds of phase that [match]es of the code tell apart. *)
Lemma active_branch {T} phase (f g : TerminationReason -> T) (x : T) :
  active phase = true ->
  match phase with
  | Starting => x | Traced => x | ReadyCommitted => x | TerminationRequired _ => x
  | Reaping r => f r | Reaped r => g r
  end = x.
Proof. now destruct phase. Qed.

Lemma reaped_branch {T} phase (f : TerminationReason -> T) (x y : T) :
  is_reaped phase = true ->
  match phase with
  | Starting => x | Traced => x | ReadyCommitted => x | TerminationRequired _ => x
  | Reaping r => f r | Reaped r => y
  end = y.
Proof. now destruct phase. Qed.

Lemma call_run {E G} (event : bool -> WatchdogEvent) (method : stm (A * W) G unit) a wd r a' w' :
  method (a, wd_world wd) = (r, (a', w')) -> r <> Panic ->
  call_authority (E := E) event method a wd =
  (Ok (match r with Err e => inr e | _ => inl tt end, a'),
   record_event (event (match r with Ok _ => true | _ => false end)) (with_world w' wd)).
Proof. unfold call_authority. intros -> Hr. now destruct r as [[]|e|]. Qed.

(** A call that ends the process. *)
Lemma call_aborts {E G} cs (event : bool -> WatchdogEvent) (method : stm (A * W) G unit) a wd wd0 s :
  method (a, wd_world wd) = (Panic, s) -> wd_events wd = wd_events wd0 -> authority_aborts B (exact_child a) ->
  exists wd', call_authority (E := E) event method a wd = (Panic, wd') /\ stopped cs wd0 wd'.
Proof.
  unfold call_authority. intros -> He Ha. destruct s as [a' w']. eexists. split; [reflexivity|].
  apply (stopped_here _ _ _ (AuthorityAborted (exact_child a))); [cbn; now rewrite He|done].
Qed.

Lemma reap_steps location cell b event reason w' wd :
  wd_heap wd !! location = Some cell -> cell_readers cell = 0%nat -> active (we_phase (cell_entry cell)) = true ->
  we_broker (cell_entry cell) = Some b -> reap_of event = Some (exact_child (eb_authority b)) ->
  wsteps [] wd (record_event event (set_entry location cell (reaped_as reason (cell_entry cell)) (with_world w' wd))).
Proof.
  intros Hl Hf Ha Hb Hev. eapply wsteps_nil_trans; [apply (world_steps _ w')|]. apply wsteps_one.
  now apply (ws_reap location cell b).
Qed.

Lemma still_reaping_put reason e :
  still_reaping reason (with_broker None (with_phase (Reaping reason) e)) = true.
Proof. unfold still_reaping. cbn. now rewrite !bool_decide_true by (done || now intros [? [=]]). Qed.

Lemma emergency_does {E} wd location cell reason :
  table_wf wd -> wd_heap wd !! location = Some cell ->
  does [] (emergency_terminate_entry (F := F) (E := E) location (we_handle (cell_entry cell))
             (we_connection (cell_entry cell)) reason)
    (fun r wd' => r = Ok tt /\ emergency_outcome location cell reason wd wd') wd.
Proof.
  intros Hwf Hl. unfold emergency_terminate_entry. apply (does_borrow_mut _ _ _ _ _ _ Hl). intros Hr.
  rewrite bool_decide_true, Z.eqb_refl by done. cbn [negb orb].
  destruct (entry_facts _ _ _ Hwf Hl) as [Hreaped|(Hactive & b & Hb & Harm)].
  - rewrite reaped_branch by done. apply does_ret. split; [done|now left].
  - rewrite active_branch by done.
    set (eff := effective (we_phase (cell_entry cell)) reason).
    set (wd1 := set_entry location cell (with_broker None (with_phase (Reaping eff) (cell_entry cell))) wd).
    destruct (emergency_terminate_and_reap (Some eff) (eb_authority b, wd_world wd1)) as [r s] eqn:Hem.
    assert (Hgo : forall k : unit -> stm WD E unit,
      (put_entry location (with_broker None (with_phase (Reaping eff) (cell_entry cell))) >>!
       (let! broker := slift (expect (we_broker (cell_entry cell))) in
        let! _ := call_authority (fun _ => EmergencyReaped (exact_child (eb_authority broker)) (Some eff))
                    (emergency_terminate_and_reap (Some eff)) (eb_authority broker) in k tt)) wd
      = (let! _ := call_authority (fun _ => EmergencyReaped (exact_child (eb_authority b)) (Some eff))
                     (emergency_terminate_and_reap (Some eff)) (eb_authority b) in k tt) wd1).
    { intros k. unfold sbind at 1. rewrite (put_entry_run wd _ cell) by done. unfold sbind at 1, slift. now rewrite Hb. }
    unfold does, wp. rewrite (Hgo (fun _ => _)). clear Hgo. destruct r as [[]|[]|].
    + destruct s as [a' w'].
      unfold sbind at 1. rewrite (call_run _ _ _ _ (Ok tt) a' w') by (done || discriminate).
      unfold sbind. erewrite borrow_mut_run; [|apply set_lookup|done]. cbn [cell_entry]. rewrite still_reaping_put. cbn [negb].
      erewrite put_entry_run; [|apply set_lookup]. unfold wd1. rewrite set_entry_again. right. split; [done|].
      split; [now apply (reap_steps location cell b (EmergencyReaped (exact_child (eb_authority b)) (Some eff)) eff w')|].
      split; [done|]. right. split; [done|]. now exists b, w'.
    + destruct (call_aborts (E := E) [] (fun _ => EmergencyReaped (exact_child (eb_authority b)) (Some eff)) _ _ wd1 wd s Hem)
        as (wd' & Hrun & Hst); [done| |].
      { exists (eb_authority b), (wd_world wd1). split; [done|]. right; right. exists (Some eff). now rewrite Hem. }
      unfold sbind. rewrite Hrun. now left.
Qed.

(** ** The sweep *)

Definition reaped_at wd (location : nat) : Prop :=
  exists cell, wd_heap wd !! location = Some cell /\ is_reaped (we_phase (cell_entry cell)) = true.
Definition active_at wd (location : nat) : Prop :=
  exists cell, wd_heap wd !! location = Some cell /\ active (we_phase (cell_entry cell)) = true.

Lemma live_entry wd handle location :
  table_wf wd -> wd_live wd !! handle = Some location ->
  exists cell, wd_heap wd !! location = Some cell /\ we_handle (cell_entry cell) = handle /\
    (is_reaped (we_phase (cell_entry cell)) = true \/ active (we_phase (cell_entry cell)) = true).
Proof.
  intros Hwf Hl. destruct (tw_live wd Hwf _ _ Hl) as (cell & Hc & Hh). exists cell.
  destruct (entry_facts _ _ _ Hwf Hc) as [?|[? _]]; auto.
Qed.

Definition swept_handle wd (p : bytes * nat) : option bytes :=
  match wd_heap wd !! snd p with
  | Some cell => if is_reaped (we_phase (cell_entry cell)) then Some (fst p) else None
  | None => None
  end.

Lemma reaped_loop {E} l acc wd :
  table_wf wd -> Forall (fun p => wd_live wd !! fst p = Some (snd p)) l ->
  sfor l (reaped_entry (E := E)) acc wd = (Ok (acc ++ omap (swept_handle wd) l), wd).
Proof.
  intros Hwf. revert acc. induction l as [|[h loc] l IH]; intros acc Hl; cbn [sfor]; [unfold sret; cbn; now rewrite app_nil_r|].
  apply Forall_cons in Hl as [Hp Hl]. destruct (live_entry _ _ _ Hwf Hp) as (cell & Hc & _ & Hphase).
  unfold sbind at 1, reaped_entry, sbind at 1. cbn [fst snd] in *. rewrite (borrow_run wd _ cell) by done.
  cbn [omap list_omap]. unfold swept_handle at 1. cbn [snd fst]. rewrite Hc.
  destruct Hphase as [Hr|Ha].
  - rewrite reaped_branch, Hr by done. cbn. rewrite IH by done. now rewrite <- app_assoc.
  - rewrite active_branch by done. cbn. rewrite IH by done. now destruct (we_phase (cell_entry cell)).
Qed.

Lemma retire_loop {E} hs wd :
  table_wf wd -> NoDup hs -> Forall (fun h => exists l, wd_live wd !! h = Some l /\ reaped_at wd l) hs ->
  exists wd', sfor hs (retire (E := E)) tt wd = (Ok tt, wd') /\ wsteps [] wd wd' /\
    wd_heap wd' = wd_heap wd /\ wd_events wd' = wd_events wd /\ wd_world wd' = wd_world wd /\
    forall h, wd_live wd' !! h = if decide (h ∈ hs) then None else wd_live wd !! h.
Proof.
  revert wd. induction hs as [|h hs IH]; intros wd Hwf Hnd Hall.
  - exists wd. split_and!; try done; constructor.
  - apply NoDup_cons in Hnd as [Hh Hnd]. apply Forall_cons in Hall as [(l & Hl & cell & Hc & Hr) Hall].
    set (wd1 := with_live (delete h (wd_live wd)) (with_tombstones ({[h]} ∪ wd_tombstones wd) wd)).
    assert (Hstep : wstep None wd wd1) by (now apply (ws_retire h l cell)).
    destruct (IH wd1) as (wd' & Hrun & Hs & Hheap & Hev & Hw & Hlive); [exact (wstep_wf _ _ _ Hstep Hwf)|done| |].
    { rewrite Forall_forall in Hall |- *. intros h' Hin. destruct (Hall _ Hin) as (l' & Hl' & Hr').
      exists l'. split; [|exact Hr']. cbn. rewrite lookup_delete_ne; [done|set_solver]. }
    exists wd'. split_and!; [|exact (wsteps_nil_trans _ _ _ (wsteps_one _ _ Hstep) Hs)|done|done|done|].
    + cbn [sfor]. unfold sbind at 1. replace (retire h () wd) with (Ok (E := E) tt, wd1); [exact Hrun|].
      unfold retire, sbind, sget, smodify, slift. cbn.
      rewrite bool_decide_false; [|intros Ht; apply (tw_tombstones wd Hwf) in Ht; congruence].
      now rewrite Hl.
    + intros h'. rewrite Hlive. cbn. destruct (decide (h' = h)) as [->|Hne].
      * rewrite lookup_delete_eq. rewrite (decide_True (P := h ∈ h :: hs)) by now left. now case_decide.
      * rewrite lookup_delete_ne by done. destruct (decide (h' ∈ hs)) as [Hin|Hin].
        -- now rewrite decide_True by now right.
        -- rewrite decide_False; [done|]. set_solver.
Qed.

Definition swept wd wd' : Prop :=
  wd_heap wd' = wd_heap wd /\ wd_events wd' = wd_events wd /\ wd_world wd' = wd_world wd /\
  forall h l, wd_live wd' !! h = Some l <-> wd_live wd !! h = Some l /\ active_at wd l.

Lemma swept_handle_nodup wd : NoDup (omap (swept_handle wd) (map_to_list (wd_live wd))).
Proof.
  assert (Hsub : omap (swept_handle wd) (map_to_list (wd_live wd)) `sublist_of` (map_to_list (wd_live wd)).*1).
  { induction (map_to_list (wd_live wd)) as [|p l IH]; [constructor|].
    cbn [omap list_omap fmap list_fmap]. unfold swept_handle at 1. destruct (wd_heap wd !! snd p) as [cell|]; [|now constructor].
    destruct (is_reaped _); now constructor. }
  eapply sublist_NoDup; [|exact Hsub]. apply NoDup_fst_map_to_list.
Qed.

Lemma sweep_run {E} wd : table_wf wd ->
  exists wd', sweep_reaped (E := E) wd = (Ok tt, wd') /\ wsteps [] wd wd' /\ swept wd wd'.
Proof.
  intros Hwf. set (hs := omap (swept_handle wd) (map_to_list (wd_live wd))).
  assert (Hin : forall h, h ∈ hs <-> exists l, wd_live wd !! h = Some l /\ reaped_at wd l).
  { intros h. unfold hs. rewrite list_elem_of_omap. unfold swept_handle, reaped_at. split.
    - intros ([h' l] & Hel & Hs). apply elem_of_map_to_list in Hel. cbn in Hs. exists l.
      destruct (wd_heap wd !! l) as [cell|]; [|done]. destruct (is_reaped _) eqn:Er; [|done]. simplify_eq. eauto.
    - intros (l & Hl & cell & Hc & Hr). exists (h, l). split; [now apply elem_of_map_to_list|]. cbn. now rewrite Hc, Hr. }
  destruct (retire_loop (E := E) hs wd Hwf) as (wd' & Hrun & Hs & Hheap & Hev & Hw & Hlive).
  - apply swept_handle_nodup.
  - apply Forall_forall. intros h. apply Hin.
  - exists wd'. split_and!; [|done|]; [|split_and!; [done..|]].
    + unfold sweep_reaped, sbind at 1, sget. unfold sbind. rewrite reaped_loop; [exact Hrun|done|].
      apply Forall_forall. intros [h l] Hel. now apply elem_of_map_to_list in Hel.
    + intros h l. rewrite Hlive. destruct (decide (h ∈ hs)) as [Hh|Hh].
      * split; [done|]. intros [Hl (c & Hc & Ha)]. apply Hin in Hh as (l' & Hl' & c' & Hc' & Hr).
        simplify_eq. now destruct (we_phase (cell_entry c')).
      * split; [|now intros [? _]]. intros Hl. split; [done|].
        destruct (live_entry _ _ _ Hwf Hl) as (cell & Hc & _ & [Hr|Ha]); [|now exists cell].
        destruct Hh. apply Hin. exists l. split; [done|]. now exists cell.
Qed.

End Theory.
