(* ===== verification/WatchdogMethods.v ===== *)
(** * WatchdogMethods: registration, termination and the trace transition

    The methods of the table, each with what its outcomes mean. *)

From stdpp Require Import gmap fin_maps.
From S2P Require Import Prelude Tools Native SupervisorWire Supervisor BrokerReport Watchdog WatchdogSteps WatchdogInv WatchdogTheory.

Section Methods.
Context {A W F : Type} {B : ExactBrokerAuthority A W F} {BL : AuthorityLaws B} {C : Clock W}.

Abbreviation WD := (WatchdogTable A W).
Implicit Types (wd : WD) (e : WatchdogEntry A) (cell : Cell A).

(** ** Rules for the statements the methods share *)

Lemma does_sweep {E T} (k : unit -> stm WD E T) (Q : res E T -> WD -> Prop) wd :
  table_wf wd ->
  (forall wd', table_wf wd' -> wsteps [] wd wd' -> swept wd wd' -> does [] (k tt) Q wd') ->
  does [] (sbind sweep_reaped k) Q wd.
Proof.
  intros Hwf Hk. destruct (sweep_run (E := E) wd Hwf) as (wd' & Hrun & Hs & Hsw).
  apply (does_run _ _ _ _ _ _ _ Hrun Hs). apply Hk; [exact (wsteps_wf _ _ _ Hs Hwf)|done|done].
Qed.

Lemma does_clock {E T} (k : Z -> stm WD E T) (Q : res E T -> WD -> Prop) wd cs :
  (forall now w, instant_now (wd_world wd) = (now, w) -> does cs (k now) Q (with_world w wd)) ->
  does cs (sbind clock_now k) Q wd.
Proof.
  intros Hk. destruct (clock_now_run (E := E) wd) as (now & w & Hi & Hrun).
  apply (does_run _ _ _ _ _ _ _ Hrun (world_steps wd w)). now apply Hk.
Qed.

Lemma does_emergency {E T} (k : unit -> stm WD E T) (Q : res E T -> WD -> Prop) wd location cell reason :
  table_wf wd -> wd_heap wd !! location = Some cell ->
  (forall wd', table_wf wd' -> wsteps [] wd wd' -> emergency_outcome location cell reason wd wd' -> does [] (k tt) Q wd') ->
  does [] (sbind (emergency_terminate_entry (F := F) location (we_handle (cell_entry cell))
                    (we_connection (cell_entry cell)) reason) k) Q wd.
Proof.
  intros Hwf Hl Hk. eapply does_bind; [now apply emergency_does| |now intros error wd' _ [[=] _]].
  intros [] wd' Hs [_ Ho]. apply Hk; [exact (wsteps_wf _ _ _ Hs Hwf)|done|done].
Qed.

(** ** Looking a session up *)

Definition session_of wd (handle : bytes) (location : nat) cell : Prop :=
  wd_live wd !! handle = Some location /\ wd_heap wd !! location = Some cell /\
  we_handle (cell_entry cell) = handle /\ active (we_phase (cell_entry cell)) = true.

(** What [client_entry] answers. *)
Definition client_outcome (handle : bytes) (connection : Z) wd (r : res WatchdogStateError nat) wd' : Prop :=
  swept wd wd' /\
  ((r = Err Watchdog_UnknownSession /\ forall location cell, ~ session_of wd handle location cell) \/
   (exists location cell, session_of wd handle location cell /\ session_of wd' handle location cell /\
      ((we_connection (cell_entry cell) = connection /\ r = Ok location) \/
       (we_connection (cell_entry cell) <> connection /\ r = Err Watchdog_WrongConnection)))).

Lemma swept_session wd wd' handle location :
  table_wf wd -> swept wd wd' -> wd_live wd' !! handle = Some location ->
  exists cell, session_of wd handle location cell /\ session_of wd' handle location cell.
Proof.
  intros Hwf (Hh & _ & _ & Hl) Hlive. pose proof Hlive as (Hlive0 & cell & Hc & Ha)%Hl.
  destruct (live_entry _ _ _ Hwf Hlive0) as (cell' & Hc' & Hhandle & _). simplify_eq.
  exists cell. unfold session_of. rewrite Hh. now split_and!.
Qed.

Lemma swept_unknown wd wd' handle location cell :
  swept wd wd' -> wd_live wd' !! handle = None -> ~ session_of wd handle location cell.
Proof.
  intros (_ & _ & _ & Hl) Hn (Hlive & Hc & _ & Ha).
  assert (wd_live wd' !! handle = Some location) by (apply Hl; split; [done|now exists cell]). congruence.
Qed.

Lemma client_entry_does handle connection wd :
  table_wf wd -> does [] (client_entry handle connection) (client_outcome handle connection wd) wd.
Proof.
  intros Hwf. apply does_sweep; [done|]. intros wd' Hwf' Hs Hsw.
  apply (does_same _ _ _ _ _ _ eq_refl). unfold live_location.
  destruct (wd_live wd' !! handle) as [location|] eqn:El; cbn [ok_or].
  - destruct (swept_session _ _ _ _ Hwf Hsw El) as (cell & Hc0 & Hc).
    apply (does_same _ _ _ _ _ _ eq_refl). apply (does_same _ _ _ _ _ (cell_entry cell)); [now apply borrow_run, Hc|].
    destruct (we_connection (cell_entry cell) =? connection) eqn:Ec; cbn [negb].
    + apply does_ret. split; [done|]. right. exists location, cell. split_and!; try done. left. split; [lia|done].
    + apply does_err. split; [done|]. right. exists location, cell. split_and!; try done. right. split; [lia|done].
  - apply (does_fails _ _ _ _ Watchdog_UnknownSession); [done|]. split; [done|]. left. split; [done|].
    intros location cell. now apply (swept_unknown _ wd').
Qed.

Lemma swept_tombstone wd wd' location cell :
  table_wf wd' -> swept wd wd' -> wd_heap wd !! location = Some cell ->
  is_reaped (we_phase (cell_entry cell)) = true -> we_handle (cell_entry cell) ∈ wd_tombstones wd'.
Proof.
  intros Hwf (Hh & _ & _ & Hl) Hc Hr. rewrite <- Hh in Hc.
  destruct (tw_entry wd' Hwf _ _ Hc) as (_ & _ & [Hlive|[_ Ht]]); [|done].
  apply Hl in Hlive as (_ & c & Hc' & Ha). rewrite Hh in Hc. assert (c = cell) as -> by congruence. now destruct (we_phase (cell_entry cell)).
Qed.

(** ** Termination *)

(** The first recorded reason stays; a child that could not be reaped stays
    with the session, which can only be terminated again. *)
Definition termination_outcome (handle : bytes) (reason : TerminationReason) wd
  (r : res WatchdogStateError (unit + F)) wd' : Prop :=
  (r = Err Watchdog_UnknownSession /\ wd_events wd' = wd_events wd /\ forall location cell, ~ session_of wd handle location cell) \/
  exists location cell b ok,
    session_of wd handle location cell /\ we_broker (cell_entry cell) = Some b /\
    let effective_reason := effective (we_phase (cell_entry cell)) reason in
    wd_events wd' = wd_events wd ++ [Terminated (exact_child (eb_authority b)) effective_reason ok] /\
    if ok then r = Ok (inl tt) /\ handle ∈ wd_tombstones wd'
    else (exists error, r = Ok (inr error)) /\
         exists cell' b', session_of wd' handle location cell' /\
           we_phase (cell_entry cell') = TerminationRequired effective_reason /\
           we_broker (cell_entry cell') = Some b' /\ exact_child (eb_authority b') = exact_child (eb_authority b).

Lemma entry_steps location cell e b b' wd :
  wd_heap wd !! location = Some cell -> cell_readers cell = 0%nat -> active (we_phase (cell_entry cell)) = true ->
  we_phase e = we_phase (cell_entry cell) \/
    (exists reason, we_phase e = TerminationRequired (effective (we_phase (cell_entry cell)) reason)) \/
    (we_phase (cell_entry cell) = Starting /\ we_phase e = Traced) ->
  same_session (cell_entry cell) e ->
  we_broker (cell_entry cell) = Some b -> we_broker e = Some b' ->
  exact_child (eb_authority b') = exact_child (eb_authority b) -> eb_armed b' = eb_armed b ->
  wstep None wd (set_entry location cell e wd).
Proof.
  intros Hl Hf Ha Hp Hs Hb Hb' Hx Harm. apply (ws_entry location cell e b b'); auto.
  - destruct Hp as [->|[[reason ->]|[_ ->]]]; done.
  - destruct Hp as [->|[[reason ->]|[_ ->]]]; done.
  - intros Hr. destruct Hp as [->|[[reason ->]|[Hs' _]]]; [rewrite Hr| |congruence]; now split.
  - intros r Hr. destruct Hp as [->|[[reason ->]|[Hs' _]]]; [done|now rewrite Hr|congruence].
Qed.

Lemma event_steps event w wd :
  reap_of event = None -> commit_of event = None -> wsteps [] wd (record_event event (with_world w wd)).
Proof.
  intros Hr Hc. eapply wsteps_nil_trans; [apply (world_steps _ w)|]. apply wsteps_one. now constructor.
Qed.

Lemma terminate_internal_does handle reason wd :
  table_wf wd -> does [] (terminate_internal (F := F) handle reason) (termination_outcome handle reason wd) wd.
Proof.
  intros Hwf. apply does_sweep; [done|]. intros wd1 Hwf1 Hs1 Hsw.
  assert (Hev1 : wd_events wd1 = wd_events wd) by apply Hsw.
  apply (does_same _ _ _ _ _ _ eq_refl). unfold live_location.
  destruct (wd_live wd1 !! handle) as [location|] eqn:El; cbn [ok_or].
  2: { apply (does_fails _ _ _ _ Watchdog_UnknownSession); [done|]. left. split; [done|]. split; [done|].
       intros location cell. now apply (swept_unknown _ wd1). }
  destruct (swept_session _ _ _ _ Hwf Hsw El) as (cell & Hc0 & (Hl & Hc & Hh & Ha)).
  destruct (active_broker _ _ _ Hwf1 Hc Ha) as (b & Hb & Harm).
  apply (does_same _ _ _ _ _ _ eq_refl).
  apply (does_borrow_mut _ _ _ _ _ _ Hc). intros Hr.
  rewrite active_branch by done. set (eff := effective (we_phase (cell_entry cell)) reason).
  destruct (terminate_and_reap eff (eb_authority b, wd_world wd1)) as [r s] eqn:Hcall.
  set (e1 := with_broker None (with_phase (Reaping eff) (cell_entry cell))).
  assert (r = Panic \/ r <> Panic) as [->|Hnp] by (destruct r; auto).
  { destruct (call_aborts (E := WatchdogStateError) [] (Terminated (exact_child (eb_authority b)) eff) _ (eb_authority b)
      (set_entry location cell e1 wd1) wd1 s Hcall) as (wd2 & Hrun & Hst); [done| |].
    - exists (eb_authority b), (wd_world wd1). split; [done|]. right; left. exists eff. now rewrite Hcall.
    - apply (does_stop _ _ _ _ wd2); [|done]. unfold sbind at 1. rewrite (put_entry_run wd1 _ cell) by done.
      unfold sbind at 1, slift. rewrite Hb. cbn [expect]. unfold sbind at 1. now rewrite Hrun. }
  destruct s as [a' w']. pose proof (terminate_law _ _ _ _ _ _ Hcall Hnp) as Hx.
  set (ok := match r with Ok _ => true | _ => false end).
  set (ev := Terminated (exact_child (eb_authority b)) eff ok).
  set (wd2 := record_event ev (with_world w' (set_entry location cell e1 wd1))).
  assert (Hc2 : wd_heap wd2 !! location = Some {| cell_entry := e1; cell_readers := cell_readers cell |}) by apply set_lookup.
  apply (wp_run _ _ _ _ tt (set_entry location cell e1 wd1)); [now apply put_entry_run|].
  apply (wp_run _ _ _ _ b (set_entry location cell e1 wd1)); [now rewrite Hb|].
  eapply wp_run; [exact (call_run _ _ _ (set_entry location cell e1 wd1) r a' w' Hcall Hnp)|]. cbn zeta beta iota. fold ok ev wd2.
  eapply wp_run; [exact (borrow_mut_run wd2 _ _ Hc2 Hr)|]. cbn [cell_entry]. unfold e1 at 1. rewrite still_reaping_put. cbn [negb].
  destruct r as [u|error|]; [| |done].
  - (* reaped *)
    apply (wp_run _ _ _ _ tt (record_event ev (set_entry location cell (reaped_as eff (cell_entry cell)) (with_world w' wd1)))).
    { rewrite (put_entry_run _ _ _ _ Hc2). unfold wd2. now rewrite set_entry_again. }
    assert (Hs2 : wsteps [] wd1 (record_event ev (set_entry location cell (reaped_as eff (cell_entry cell)) (with_world w' wd1))))
      by now apply (reap_steps location cell b).
    apply (does_through _ _ _ _ Hs2). apply does_sweep; [exact (wsteps_wf _ _ _ Hs2 Hwf1)|]. intros wd3 Hwf3 Hs3 Hsw3.
    apply does_ret. right. exists location, cell, b, true. split; [done|]. split; [done|]. split; [|split; [done|]].
    + destruct Hsw3 as (_ & -> & _). cbn. now rewrite Hev1.
    + rewrite <- Hh. change (we_handle (cell_entry cell)) with (we_handle (reaped_as eff (cell_entry cell))).
      refine (swept_tombstone _ wd3 location {| cell_entry := reaped_as eff (cell_entry cell); cell_readers := cell_readers cell |} Hwf3 Hsw3 _ _);
        [apply set_lookup|done].
  - (* retained *)
    set (b' := {| eb_authority := a'; eb_armed := eb_armed b |}).
    set (e2 := with_broker (Some b') (with_phase (TerminationRequired eff) (cell_entry cell))).
    apply (wp_run _ _ _ _ tt (record_event ev (set_entry location cell e2 (with_world w' wd1)))).
    { rewrite (put_entry_run _ _ _ _ Hc2). unfold wd2. now rewrite set_entry_again. }
    apply (does_through _ _ wd1).
    { eapply wsteps_nil_trans; [apply (world_steps _ w')|].
      eapply wsteps_nil_trans; [|apply wsteps_one, ws_event; done].
      apply wsteps_one. apply (entry_steps location cell e2 b b'); auto; [|now split_and!]. right. left. now exists reason. }
    apply does_ret. right. exists location, cell, b, false. split; [done|]. split; [done|]. split; [|split; [eauto|]].
    + cbn. now rewrite Hev1.
    + exists {| cell_entry := e2; cell_readers := cell_readers cell |}, b'. split; [|done].
      split_and!; [exact El|apply set_lookup|done|done].
Qed.

(** ** Registration *)

Section Registration.
Context {L R : Type} {EF : RegisteredLaunchEffect L}.
Implicit Types spawned : AtomicallySpawnedBroker L A R.

Definition child_of spawned : Z := exact_child (eb_authority (sb_broker spawned)).

(** A registered session owns its activated child; otherwise the child was
    reaped before [register] returned. *)
Definition registration_outcome spawned (r : res WatchdogStateError (RegisteredSession L R)) wd' : Prop :=
  match r with
  | Ok registered =>
      let handle := sb_session spawned in
      let launch := sb_launch spawned in
      registered = {| rs_handle := handle;
                      rs_launch := {| rg_handle := handle; rg_connection := connection_identity launch;
                                      rg_deadline := launch_deadline launch; rg_launch := launch |};
                      rs_report := sb_report spawned |} /\
      last (wd_events wd') = Some (Activated (child_of spawned) true) /\
      exists location cell b, session_of wd' handle location cell /\
        we_phase (cell_entry cell) = Starting /\ we_connection (cell_entry cell) = connection_identity launch /\
        we_deadline (cell_entry cell) = launch_deadline launch /\
        we_broker (cell_entry cell) = Some b /\ exact_child (eb_authority b) = child_of spawned
  | _ => exists reason, last (wd_events wd') = Some (EmergencyReaped (child_of spawned) reason)
  end.

(** Reaping a child that was not registered. *)
Lemma does_drop_broker {E T} (error : E) broker (Q : res E T -> WD -> Prop) wd :
  eb_armed broker = true ->
  (forall w', Q (Err error) (record_event (EmergencyReaped (exact_child (eb_authority broker)) None) (with_world w' wd))) ->
  does [exact_child (eb_authority broker)] (drop_broker (F := F) broker >>! serr error) Q wd.
Proof.
  intros Harm HQ. destruct (emergency_terminate_and_reap None (eb_authority broker, wd_world wd)) as [r [a' w']] eqn:Hcall.
  set (ev := EmergencyReaped (exact_child (eb_authority broker)) None).
  destruct r as [[]|[]|]; cycle 1.
  { destruct (call_aborts (E := E) [exact_child (eb_authority broker)] (fun _ => ev) _ _ wd wd _ Hcall) as (wd' & Hrun & Hst); [done| |].
    - exists (eb_authority broker), (wd_world wd). split; [done|]. right; right. exists None. now rewrite Hcall.
    - apply (does_stop _ _ _ _ wd'); [|done]. unfold ev in Hrun. unfold sbind at 1, drop_broker. rewrite Harm. unfold sbind. now rewrite Hrun. }
  apply (does_intro _ _ _ _ (Err error) (record_event ev (with_world w' wd))); [|discriminate| |apply HQ].
  - unfold sbind at 1, drop_broker. rewrite Harm. unfold sbind.
    now rewrite (call_run _ _ _ _ (Ok tt) a' w') by (done || discriminate).
  - apply (wss_snoc [] (Some (exact_child (eb_authority broker))) _ (with_world w' wd)); [apply world_steps|].
    now apply ws_refuse.
Qed.

Lemma insert_run {E} handle e wd :
  let location := fresh (dom (wd_heap wd)) in
  insert_entry (E := E) handle e wd =
  (Ok tt, with_live (<[handle := location]> (wd_live wd))
            (with_heap (<[location := {| cell_entry := e; cell_readers := 0 |}]> (wd_heap wd)) wd)).
Proof. reflexivity. Qed.

Lemma fresh_location wd : wd_heap wd !! fresh (dom (wd_heap wd)) = None.
Proof. apply not_elem_of_dom. apply is_fresh. Qed.

(** The error paths after the insertion. *)
Lemma does_abandon {T} error location cell reason spawned (Q : res WatchdogStateError T -> WD -> Prop) wd b :
  table_wf wd -> wd_heap wd !! location = Some cell -> active (we_phase (cell_entry cell)) = true ->
  we_broker (cell_entry cell) = Some b -> exact_child (eb_authority b) = child_of spawned ->
  (forall wd', (exists reason, last (wd_events wd') = Some (EmergencyReaped (child_of spawned) reason)) -> Q (Err error) wd') ->
  does [] (emergency_terminate_entry (F := F) location (we_handle (cell_entry cell)) (we_connection (cell_entry cell)) reason >>!
           sweep_reaped >>! serr error) Q wd.
Proof.
  intros Hwf Hl Ha Hb Hx HQ. apply does_emergency; [done|done|]. intros wd1 Hwf1 Hs1 Ho.
  apply does_sweep; [done|]. intros wd2 Hwf2 Hs2 (_ & Hev & _). apply does_err, HQ. rewrite Hev.
  destruct Ho as [[Hr _]|(_ & b' & w' & Hb' & ->)]; [now destruct (we_phase (cell_entry cell))|].
  eexists. cbn. rewrite last_snoc. rewrite <- Hx. simplify_eq. done.
Qed.

Lemma activate_does {U} location cell b (k : bool -> stm WD WatchdogStateError U) (Q : res WatchdogStateError U -> WD -> Prop) wd :
  table_wf wd -> wd_heap wd !! location = Some cell -> active (we_phase (cell_entry cell)) = true ->
  we_broker (cell_entry cell) = Some b ->
  (forall ok a' w', exact_child a' = exact_child (eb_authority b) ->
     let e' := with_broker (Some {| eb_authority := a'; eb_armed := eb_armed b |}) (cell_entry cell) in
     let wd' := set_entry location cell e' (record_event (Activated (exact_child (eb_authority b)) ok) (with_world w' wd)) in
     table_wf wd' -> does [] (k ok) Q wd') ->
  does [] (sbind (activate_entry location) k) Q wd.
Proof.
  intros Hwf Hl Ha Hb Hk. unfold activate_entry. apply does_assoc, (does_borrow_mut _ _ _ _ _ _ Hl). intros Hr.
  rewrite Hb. apply does_assoc, (does_same _ _ _ _ _ b eq_refl).
  destruct (activate_after_registration (eb_authority b, wd_world wd)) as [r [a' w']] eqn:Hcall.
  assert (r = Panic \/ r <> Panic) as [->|Hnp] by (destruct r; auto).
  { destruct (call_aborts (E := WatchdogStateError) [] (Activated (exact_child (eb_authority b))) _ (eb_authority b) wd wd _ Hcall)
      as (wd' & Hrun & Hst); [done| |].
    - exists (eb_authority b), (wd_world wd). split; [done|]. left. now rewrite Hcall.
    - apply (does_stop _ _ _ _ wd'); [|done]. unfold sbind. now rewrite Hrun. }
  pose proof (activate_law _ _ _ _ _ Hcall Hnp) as Hx.
  set (ok := match r with Ok _ => true | _ => false end).
  set (e' := with_broker (Some {| eb_authority := a'; eb_armed := eb_armed b |}) (cell_entry cell)).
  set (wd' := set_entry location cell e' (record_event (Activated (exact_child (eb_authority b)) ok) (with_world w' wd))).
  assert (Hs : wsteps [] wd wd').
  { eapply wsteps_nil_trans; [now apply (event_steps (Activated (exact_child (eb_authority b)) ok) w')|].
    apply wsteps_one. apply (entry_steps location cell e' b {| eb_authority := a'; eb_armed := eb_armed b |}); auto.
    now split_and!. }
  apply (does_run _ _ _ _ _ ok wd'); [|done|apply (Hk ok a' w' Hx), (wsteps_wf _ _ _ Hs Hwf)].
  unfold sbind. rewrite (call_run _ _ _ _ r a' w') by done. fold ok.
  rewrite (put_entry_run _ _ cell) by done. fold e'. unfold sret. unfold ok. now destruct r.
Qed.

Lemma register_does spawned wd :
  table_wf wd -> eb_armed (sb_broker spawned) = true ->
  does [child_of spawned] (register (F := F) spawned) (registration_outcome spawned) wd.
Proof.
  intros Hwf Harm. destruct (sweep_run (E := WatchdogStateError) wd Hwf) as (wd1 & Hrun & Hs1 & Hsw).
  pose proof (wsteps_wf _ _ _ Hs1 Hwf) as Hwf1. apply (does_run _ _ _ _ _ _ _ Hrun Hs1). cbn zeta.
  eapply does_same; [reflexivity|]. cbn beta.
  assert (Hrefuse : forall error, does [child_of spawned] (drop_broker (F := F) (sb_broker spawned) >>! serr error)
                      (registration_outcome spawned) wd1).
  { intros error. apply does_drop_broker; [done|]. intros w'. exists None. cbn. now rewrite last_snoc. }
  match goal with |- context [if ?x || ?y then _ else _] => destruct (x || y) eqn:Ecap end; [apply Hrefuse|].
  apply orb_false_iff in Ecap as [Hlive Hgen]. rewrite Z.leb_gt in Hlive, Hgen.
  pose proof (tw_generation wd1 Hwf1) as Hgen1.
  assert (Hmin : MAX_SESSIONS_PER_SERVICE_GENERATION <= USIZE_MAX) by (vm_compute; discriminate).
  rewrite Z.min_r in Hgen by lia.
  match goal with |- context [bool_decide (is_Some ?o) || bool_decide ?P] => destruct (bool_decide (is_Some o) || bool_decide P) eqn:Eknown end;
    [apply Hrefuse|].
  apply orb_false_iff in Eknown as [Hno Hnt]. rewrite bool_decide_eq_false in Hno, Hnt. apply eq_None_not_Some in Hno.
  set (handle := sb_session spawned) in *. set (connection := connection_identity (sb_launch spawned)).
  set (deadline := launch_deadline (sb_launch spawned)). set (location := fresh (dom (wd_heap wd1))).
  set (e := {| we_handle := handle; we_connection := connection; we_deadline := deadline;
               we_broker := Some (sb_broker spawned); we_phase := Starting |}).
  set (cell := {| cell_entry := e; cell_readers := 0 |}).
  set (wd2 := with_live (<[handle := location]> (wd_live wd1)) (with_heap (<[location := cell]> (wd_heap wd1)) wd1)).
  assert (Hs2 : wsteps [child_of spawned] wd1 wd2).
  { apply (wss_snoc [] (Some (child_of spawned)) _ wd1); [constructor|].
    apply (ws_insert handle location e (sb_broker spawned)); auto; [apply fresh_location|lia..]. }
  pose proof (wsteps_wf _ _ _ Hs2 Hwf1) as Hwf2.
  apply (does_brings _ _ _ _ _ tt wd2); [exact (insert_run handle e wd1)|done|].
  apply does_clock. intros now w _. set (wd3 := with_world w wd2).
  assert (Hwf3 : table_wf wd3) by now apply (table_wf_ext wd2).
  assert (Hcell : wd_heap wd3 !! location = Some cell) by apply lookup_insert_eq.
  assert (Hlook : forall k : nat -> stm WD WatchdogStateError (RegisteredSession L R),
    does [] (k location) (registration_outcome spawned) wd3 ->
    does [] (let! found := live_location handle in let! entry := slift (expect found) in k entry)
      (registration_outcome spawned) wd3).
  { intros k Hk. apply (does_same _ _ _ _ _ (Some location)); [|now apply (does_same _ _ _ _ _ location)].
    unfold live_location, sbind, sget, sret. cbn. now rewrite lookup_insert_eq. }
  destruct (deadline <=? now).
  - apply Hlook. apply (does_abandon _ location cell _ spawned _ _ (sb_broker spawned)); auto.
  - apply Hlook. apply (activate_does location cell (sb_broker spawned)); auto. cbn zeta.
    intros ok a' w' Hx Hwf4. set (e' := with_broker _ (cell_entry cell)) in *. set (wd4 := set_entry _ _ _ _) in *.
    assert (Hcell4 : wd_heap wd4 !! location = Some {| cell_entry := e'; cell_readers := 0 |}) by apply set_lookup.
    destruct ok; cbn [negb].
    + apply does_ret. split; [done|]. split; [cbn; now rewrite last_snoc|].
      exists location, {| cell_entry := e'; cell_readers := 0 |}, {| eb_authority := a'; eb_armed := eb_armed (sb_broker spawned) |}.
      split_and!; try done. split_and!; [apply lookup_insert_eq|done|done|done].
    + apply (does_abandon _ location {| cell_entry := e'; cell_readers := 0 |} LaunchAbandoned spawned _ _
               {| eb_authority := a'; eb_armed := eb_armed (sb_broker spawned) |}); auto.
Qed.

(** The guard of a registered session. *)
Definition armed_outcome spawned (r : res WatchdogStateError (PendingRegisteredSession L R)) wd' : Prop :=
  match r with
  | Ok pending =>
      ps_handle pending = sb_session spawned /\ ps_connection pending = connection_identity (sb_launch spawned) /\
      ps_armed pending = true /\ ps_trace pending = None /\ ps_cleanup_reason pending = LaunchAbandoned /\
      ps_launch pending = Some {| rg_handle := ps_handle pending; rg_connection := ps_connection pending;
                                  rg_deadline := launch_deadline (sb_launch spawned); rg_launch := sb_launch spawned |} /\
      session_at wd' (ps_entry pending) (ps_handle pending) (ps_connection pending) (launch_deadline (sb_launch spawned))
  | _ => exists reason, last (wd_events wd') = Some (EmergencyReaped (child_of spawned) reason)
  end.

Lemma register_armed_does spawned wd :
  table_wf wd -> eb_armed (sb_broker spawned) = true ->
  does [child_of spawned] (register_armed (F := F) spawned) (armed_outcome spawned) wd.
Proof.
  intros Hwf Harm. eapply does_bind; [now apply register_does| |done].
  intros registered wd1 Hs1 (-> & _ & location & cell & b & (Hl & Hc & Hh & Ha) & Hp & Hcon & Hd & Hb & Hx).
  cbn [rs_handle rs_launch rs_report rg_connection].
  apply (does_same _ _ _ _ _ (Some location)); [unfold live_location, sbind, sget, sret; now rewrite Hl|].
  apply (does_same _ _ _ _ _ location); [done|]. apply does_ret. cbn. split_and!; try done. now exists cell.
Qed.

End Registration.

(** ** The methods that look a session up first *)

(** Code that goes on with the session [client_entry] found. *)
Lemma does_client_entry {T} handle connection (k : nat -> stm WD WatchdogStateError T)
  (Q : res WatchdogStateError T -> WD -> Prop) wd :
  table_wf wd ->
  (forall error wd', Q (Err error) wd') ->
  (forall location cell wd', table_wf wd' -> session_of wd' handle location cell ->
     we_connection (cell_entry cell) = connection -> does [] (k location) Q wd') ->
  does [] (sbind (client_entry handle connection) k) Q wd.
Proof.
  intros Hwf HQ Hk. eapply does_bind; [now apply client_entry_does| |auto].
  intros location wd1 Hs (Hsw & [[? _]|(l & cell & _ & Hc & [[Hcon Heq]|[_ ?]])]); [done| |done].
  injection Heq as ->. exact (Hk _ cell _ (wsteps_wf _ _ _ Hs Hwf) Hc Hcon).
Qed.

(** *** Traced

    The transition out of [Starting] succeeds before the deadline only; on
    every other path the child has been reaped. *)
Definition transition_outcome (location : nat) (proof : TraceEstablished)
  (r : res WatchdogStateError PendingReadyDelivery) wd' : Prop :=
  match r with
  | Ok delivery =>
      delivery = {| pd_entry := location; pd_proof := Some (ready_proof proof);
                    pd_cleanup_reason := SpawnResultUndeliverable |} /\
      exists cell, wd_heap wd' !! location = Some cell /\ we_phase (cell_entry cell) = Traced /\
        we_handle (cell_entry cell) = te_handle proof /\ we_connection (cell_entry cell) = te_connection proof
  | _ => reaped_at wd' location
  end.

Lemma emergency_reaps location cell reason wd wd' :
  wd_heap wd !! location = Some cell -> emergency_outcome location cell reason wd wd' -> reaped_at wd' location.
Proof.
  intros Hl [[Hr ->]|(_ & b & w' & _ & ->)]; [now exists cell|]. eexists. split; [apply lookup_insert_eq|done].
Qed.

Lemma transition_does location cell proof wd :
  table_wf wd -> wd_heap wd !! location = Some cell ->
  we_handle (cell_entry cell) = te_handle proof -> we_connection (cell_entry cell) = te_connection proof ->
  does [] (transition_registered_for_delivery (F := F) location proof) (transition_outcome location proof) wd.
Proof.
  intros Hwf Hl Hh Hcon. apply (does_borrow_mut _ _ _ _ _ _ Hl). intros Hr.
  rewrite bool_decide_true by done. rewrite Hcon, Z.eqb_refl. cbn [negb orb]. rewrite <- Hh, <- Hcon.
  assert (Hfail : forall error wd1, table_wf wd1 -> wd_heap wd1 !! location = Some cell ->
    does [] (emergency_terminate_entry (F := F) location (we_handle (cell_entry cell)) (we_connection (cell_entry cell))
               (if bool_decide (error = Watchdog_DeadlineExpired) then DeadlineExpired else ProtocolViolation) >>! serr error)
      (transition_outcome location proof) wd1).
  { intros error wd1 Hwf1 Hl1. apply does_emergency; [done|done|]. intros wd2 _ _ Ho.
    apply does_err. exact (emergency_reaps _ _ _ _ _ Hl1 Ho). }
  destruct (bool_decide (we_phase (cell_entry cell) = Starting)) eqn:Ep; cbn [negb].
  2: { apply (does_same _ _ _ _ _ (Some Watchdog_InvalidTransition)); [done|]. now apply Hfail. }
  apply bool_decide_eq_true in Ep.
  destruct (clock_now_run (E := WatchdogStateError) wd) as (now & w & _ & Hnow).
  destruct (we_deadline (cell_entry cell) <=? now) eqn:Ed.
  - apply (does_run _ _ _ _ _ (Some Watchdog_DeadlineExpired) (with_world w wd)); [|apply world_steps|].
    + unfold sbind. rewrite Hnow, Ed. done.
    + apply Hfail; [now apply (table_wf_ext wd)|done].
  - set (wd1 := set_entry location cell (with_phase Traced (cell_entry cell)) (with_world w wd)).
    apply (does_run _ _ _ _ _ None wd1).
    + unfold sbind. rewrite Hnow, Ed. now rewrite (put_entry_run _ _ cell).
    + eapply wsteps_nil_trans; [apply (world_steps _ w)|]. apply wsteps_one.
      destruct (active_broker _ _ _ Hwf Hl) as (b & Hb & _); [now rewrite Ep|].
      apply (entry_steps location cell _ b b); auto; [now rewrite Ep|now split_and!].
    + apply does_ret. split; [done|]. eexists. split; [apply set_lookup|done].
Qed.

Lemma table_mark_traced_does proof wd :
  table_wf wd ->
  does [] (table_mark_traced_for_delivery (F := F) proof)
    (fun r wd' => match r with Ok delivery => transition_outcome (pd_entry delivery) proof r wd' | _ => True end) wd.
Proof.
  intros Hwf. apply does_client_entry; [done|done|].
  intros location cell wd1 Hwf1 (Hl & Hc & Hh & Ha) Hcon.
  eapply does_mono; [now apply (transition_does _ cell)|]. intros [delivery| |] wd2 _ H; [|done..].
  pose proof H as [-> _]. exact H.
Qed.

Lemma ignoring_terminate handle reason wd :
  table_wf wd -> does [] (ignoring (terminate_internal (F := F) handle reason)) (fun _ _ => True) wd.
Proof.
  intros Hwf. destruct (does_elim _ _ _ _ (terminate_internal_does handle reason wd Hwf)) as (r & wd' & Hrun & [[-> Hst]|(Hr & Hs & _)]).
  - apply (does_stop _ _ _ _ wd'); [|done]. unfold ignoring. now rewrite Hrun.
  - apply (does_intro _ _ _ _ (Ok tt) wd'); [|discriminate|done|done]. unfold ignoring. rewrite Hrun. now destruct r.
Qed.

(** A Ready proof exists for a session that is now Traced only. *)
Definition marked proof (r : res WatchdogStateError ReadySessionProof) wd' : Prop :=
  match r with
  | Ok ready => ready = ready_proof proof /\ exists location cell, session_of wd' (te_handle proof) location cell /\
      we_phase (cell_entry cell) = Traced
  | _ => True
  end.

Lemma mark_traced_does proof wd :
  table_wf wd -> does [] (mark_traced (F := F) proof) (marked proof) wd.
Proof.
  intros Hwf. apply does_client_entry; [done|done|].
  intros location cell wd1 Hwf1 (Hl & Hc & Hh & Ha) Hcon. apply (does_borrow_mut _ _ _ _ _ _ Hc). intros Hr.
  destruct (bool_decide (we_phase (cell_entry cell) = Starting)) eqn:Ep; cbn [negb]; [|now apply does_err].
  apply bool_decide_eq_true in Ep. apply does_clock. intros now w _.
  destruct (we_deadline (cell_entry cell) <=? now).
  - eapply does_bind; [apply ignoring_terminate; now apply (table_wf_ext wd1)| |done].
    intros [] wd2 _ _. now apply does_err.
  - eapply does_run; [now apply (put_entry_run _ _ cell)| |].
    + apply wsteps_one. destruct (active_broker _ _ _ Hwf1 Hc Ha) as (b & Hb & _).
      apply (entry_steps location cell _ b b); auto. now split_and!.
    + apply does_ret. split; [done|]. exists location. eexists. split; [split_and!; [exact Hl|apply set_lookup|done|done]|done].
Qed.

(** *** Who may terminate a session *)

Lemma swept_session_of wd wd' handle location cell :
  swept wd wd' -> session_of wd' handle location cell <-> session_of wd handle location cell.
Proof.
  intros (Hh & _ & _ & Hl). unfold session_of. rewrite Hh, Hl. split; [naive_solver|].
  intros (H1 & H2 & H3 & H4). split_and!; try done. now exists cell.
Qed.

Lemma termination_swept handle reason wd wd1 r wd' :
  swept wd wd1 -> termination_outcome handle reason wd1 r wd' -> termination_outcome handle reason wd r wd'.
Proof.
  intros Hsw [(Hr & Hev & Hno)|(l & cell & b & ok & Hs & Hb & Hev & Hok)]; pose proof Hsw as (_ & Hev1 & _).
  - left. split; [done|]. split; [congruence|]. intros location cell Hs. apply (Hno location cell). now apply (swept_session_of _ _ _ _ _ Hsw).
  - right. exists l, cell, b, ok. split; [now apply (swept_session_of _ _ _ _ _ Hsw)|]. split; [done|]. split; [|done].
    now rewrite <- Hev1.
Qed.

Definition client_termination (handle : bytes) (connection : Z) (reason : TerminationReason) wd
  (r : res WatchdogStateError (unit + F)) wd' : Prop :=
  (r = Err Watchdog_WrongConnection /\ wd_events wd' = wd_events wd /\
   exists location cell, session_of wd handle location cell /\ we_connection (cell_entry cell) <> connection) \/
  (termination_outcome handle reason wd r wd' /\
   forall location cell, session_of wd handle location cell -> we_connection (cell_entry cell) = connection).

Lemma session_of_unique wd handle l1 l2 c1 c2 :
  session_of wd handle l1 c1 -> session_of wd handle l2 c2 -> l1 = l2 /\ c1 = c2.
Proof. intros (H1 & H2 & _) (H3 & H4 & _). simplify_eq. done. Qed.

Lemma terminate_for_client_does handle connection reason wd :
  table_wf wd ->
  does [] (terminate_for_client (F := F) handle connection reason) (client_termination handle connection reason wd) wd.
Proof.
  intros Hwf. eapply does_bind; [now apply client_entry_does| |].
  - intros location wd1 Hs (Hsw & [[? _]|(l & cell & Hc0 & Hc & [[Hcon Heq]|[_ ?]])]); [done| |done].
    eapply does_mono; [apply terminate_internal_does, (wsteps_wf _ _ _ Hs Hwf)|].
    intros r wd2 _ Ho. right. split; [exact (termination_swept _ _ _ _ _ _ Hsw Ho)|].
    intros l' cell' Hs'. now destruct (session_of_unique _ _ _ _ _ _ Hc0 Hs') as [-> ->].
  - intros error wd1 Hs (Hsw & [[Heq Hno]|(l & cell & Hc0 & Hc & [[_ ?]|[Hcon Heq]])]); [|done|].
    + right. split; [left; split; [congruence|]; split; [apply Hsw|done]|]. intros l cell Hc. now destruct (Hno l cell).
    + left. split; [congruence|]. split; [apply Hsw|]. eauto.
Qed.

Definition deadline_termination (handle : bytes) wd (r : res WatchdogStateError (unit + F)) wd' : Prop :=
  (r = Err Watchdog_InvalidTransition /\ wd_events wd' = wd_events wd /\
   exists location cell, session_of wd handle location cell /\
     (we_phase (cell_entry cell) = ReadyCommitted \/ fst (instant_now (wd_world wd)) < we_deadline (cell_entry cell))) \/
  (termination_outcome handle DeadlineExpired wd r wd' /\
   forall location cell, session_of wd handle location cell ->
     we_phase (cell_entry cell) <> ReadyCommitted /\ we_deadline (cell_entry cell) <= fst (instant_now (wd_world wd))).

Lemma terminate_for_deadline_does handle wd :
  table_wf wd -> does [] (terminate_for_deadline (F := F) handle) (deadline_termination handle wd) wd.
Proof.
  intros Hwf. apply does_sweep; [done|]. intros wd1 Hwf1 Hs1 Hsw.
  pose proof Hsw as (_ & Hev & Hworld & _).
  eapply does_same; [reflexivity|]. cbn beta. unfold live_location.
  destruct (wd_live wd1 !! handle) as [location|] eqn:El; cbn [ok_or].
  2: { apply (does_fails _ _ _ _ Watchdog_UnknownSession); [done|]. right. split.
       - left. split; [done|]. split; [done|]. intros location cell. now apply (swept_unknown _ wd1).
       - intros location cell Hs. now destruct (swept_unknown _ _ _ location cell Hsw El). }
  destruct (swept_session _ _ _ _ Hwf Hsw El) as (cell & Hc0 & (Hl & Hc & Hh & Ha)).
  eapply does_same; [reflexivity|]. apply (does_same _ _ _ _ _ (cell_entry cell)); [now apply borrow_run|].
  assert (Hgo : we_phase (cell_entry cell) <> ReadyCommitted ->
    does [] (let! now := clock_now in
             if now <? we_deadline (cell_entry cell) then serr Watchdog_InvalidTransition
             else terminate_internal (F := F) handle DeadlineExpired) (deadline_termination handle wd) wd1).
  { intros Hnr. apply does_clock. intros now w Hnow. rewrite Hworld in Hnow.
    destruct (now <? we_deadline (cell_entry cell)) eqn:En.
    - apply does_err. left. split; [done|]. split; [now cbn|]. exists location, cell. rewrite Hnow. split; [done|]. right. cbn. lia.
    - eapply does_mono; [apply terminate_internal_does; now apply (table_wf_ext wd1)|].
      intros r wd2 _ Ho. right. split; [|intros l' cell' Hs'; destruct (session_of_unique _ _ _ _ _ _ Hc0 Hs') as [_ <-];
        rewrite Hnow; cbn; split; [done|lia]].
      apply (termination_swept _ _ wd wd1); [done|exact Ho]. }
  destruct (we_phase (cell_entry cell)) eqn:Ep; try done; try (now apply Hgo).
  apply does_err. left. split; [done|]. split; [done|]. exists location, cell. auto.
Qed.

Lemma terminate_undelivered_does proof wd :
  table_wf wd -> does [] (terminate_undelivered_ready (F := F) proof) (fun _ _ => True) wd.
Proof.
  intros Hwf. apply does_client_entry; [done|done|].
  intros location cell wd1 Hwf1 (Hl & Hc & Hh & Ha) Hcon.
  apply (does_same _ _ _ _ _ (cell_entry cell)); [now apply borrow_run|].
  destruct (negb _); [now apply does_err|].
  eapply does_mono; [now apply terminate_internal_does|done].
Qed.

End Methods.
