(* ===== verification/WatchdogDelivery.v ===== *)
(** * WatchdogDelivery: what the guards of a session do

    A guard is bound to the entry it was made for. Delivering the Ready reply
    is compared with a decision table, [delivery]; the other methods of the
    guards are sequences of steps, and a guard that is dropped reaps. *)

From stdpp Require Import gmap fin_maps.
From S2P Require Import Prelude Tools Native SupervisorWire Supervisor BrokerReport Watchdog WatchdogGuards WatchdogSteps WatchdogInv WatchdogTheory WatchdogMethods.

(** A prepared send returns. *)
Class SendLaws {M W X} (N : NonblockingReadySend M W X) : Prop :=
  send_law : forall send handle connection deadline w,
    exists r w', send_once send handle connection deadline w = (r, w') /\ r <> Panic.

Section Delivery.
Context {A W F M X : Type} {B : ExactBrokerAuthority A W F} {BL : AuthorityLaws B} {C : Clock W}
  {N : NonblockingReadySend M W X} {NL : SendLaws N}.

Abbreviation WD := (WatchdogTable A W).
Abbreviation method T := (stm WD WatchdogStateError T).
Implicit Types (wd : WD) (e : WatchdogEntry A) (cell : Cell A).

(** ** Running code on a guard *)

Lemma on_world_run {S E T} (m : stm WD E T) (s : S) wd r wd' : m wd = (r, wd') -> on_world m (s, wd) = (r, (s, wd')).
Proof. unfold on_world. now intros ->. Qed.

(** The method, then the drop of its guard. *)
Lemma does_consuming {T E Y} (drop : T -> stm WD E unit) (m : stm (T * WD) E Y) self wd r self' wd1 (Q : res E Y -> WD -> Prop) :
  m (self, wd) = (r, (self', wd1)) -> r <> Panic -> wsteps [] wd wd1 ->
  does [] (drop self') (fun r' wd2 => r' = Ok tt /\ Q r wd2) wd1 -> does [] (consuming drop m self) Q wd.
Proof.
  intros Hm Hr Hs Hd. apply does_elim in Hd as (r' & wd2 & Hd & [[-> Hst]|(_ & Hs2 & -> & HQ)]).
  - apply (does_stop _ _ _ _ wd2); [|exact (stopped_after [] [] _ _ _ Hs Hst)]. unfold consuming. rewrite Hm, Hd. now destruct r.
  - apply (does_intro _ _ _ _ r wd2); [|done|exact (wsteps_nil_trans _ _ _ Hs Hs2)|done]. unfold consuming. rewrite Hm, Hd. now destruct r.
Qed.

(** ** The decision table of a delivery *)

Definition resume_outcome (proof : ReadySessionProof) : option bool :=
  match rp_resume proof with
  | None => None
  | Some resume => Some (match commit_after_ready (resume, []) with (Ok _, _) => true | _ => false end)
  end.

(** Once the reply was handed to the send. *)
Definition delivery_sent (child : Z) (proof : ReadySessionProof) (sent : res X unit)
  : res WatchdogStateError (unit + X) * list WatchdogEvent :=
  let handle := rp_handle proof in
  let ready := ReadySent handle (rp_connection proof) in
  let reap reason := EmergencyReaped child (Some reason) in
  match sent with
  | Err error => (Ok (inr error), [ready false; reap (send_cleanup_reason error)])
  | _ =>
      match resume_outcome proof with
      | Some false => (Err Watchdog_BrokerResumeFailed, [ready true; Resumed handle false; reap ProtocolViolation])
      | Some true => (Ok (inl tt), [ready true; Resumed handle true; Committed handle])
      | None => (Ok (inl tt), [ready true; Committed handle])
      end
  end.

Definition delivery (child : Z) (proof : ReadySessionProof) (cleanup : TerminationReason) (phase : BrokerPhase)
  (deadline now : Z) (sent : res X unit) : res WatchdogStateError (unit + X) * list WatchdogEvent :=
  let reap reason := EmergencyReaped child (Some (effective phase reason)) in
  if is_reaped phase then (Err Watchdog_UnknownSession, [])
  else if negb (bool_decide (phase = Traced)) then (Err Watchdog_InvalidTransition, [reap cleanup])
  else if deadline <=? now then (Err Watchdog_DeadlineExpired, [reap DeadlineExpired])
  else delivery_sent child proof sent.

(** The child an entry owns, or owned. *)
Definition owned_child e : Z := match we_broker e with Some b => exact_child (eb_authority b) | None => 0 end.

(** A delivery is bound to its session. *)
Definition delivery_bound wd (self : PendingReadyDelivery) : Prop :=
  exists proof deadline, pd_proof self = Some proof /\
    session_at wd (pd_entry self) (rp_handle proof) (rp_connection proof) deadline.

Lemma does_drop_delivery {E} wd (self : PendingReadyDelivery) proof cell :
  table_wf wd -> pd_proof self = Some proof -> wd_heap wd !! pd_entry self = Some cell ->
  we_handle (cell_entry cell) = rp_handle proof -> we_connection (cell_entry cell) = rp_connection proof ->
  does [] (drop_delivery (F := F) (E := E) self)
    (fun r wd' => r = Ok tt /\ emergency_outcome (pd_entry self) cell (pd_cleanup_reason self) wd wd') wd.
Proof.
  intros Hwf Hp Hl Hh Hc. unfold drop_delivery. rewrite Hp, <- Hh, <- Hc. now apply emergency_does.
Qed.

Lemma send_run wd send handle connection deadline :
  exists r w', send_once send handle connection deadline (wd_world wd) = (r, w') /\ r <> Panic /\
    send_ready_once send handle connection deadline wd
    = (Ok (match r with Err error => inr error | _ => inl tt end),
       record_event (ReadySent handle connection (match r with Ok _ => true | _ => false end)) (with_world w' wd)).
Proof.
  destruct (send_law send handle connection deadline (wd_world wd)) as (r & w' & Hs & Hr).
  exists r, w'. split; [done|]. split; [done|]. unfold send_ready_once. rewrite Hs. now destruct r as [[]| |].
Qed.

(** The events of the resume byte. *)
Definition resume_events (proof : ReadySessionProof) : list WatchdogEvent :=
  match resume_outcome proof with Some ok => [Resumed (rp_handle proof) ok] | None => [] end.

Definition record_events (events : list WatchdogEvent) wd : WD :=
  {| wd_heap := wd_heap wd; wd_live := wd_live wd; wd_tombstones := wd_tombstones wd;
     wd_events := wd_events wd ++ events; wd_world := wd_world wd |}.

Lemma commit_resume_run (proof : ReadySessionProof) (self : PendingReadyDelivery) wd :
  pd_proof self = Some proof ->
  exists self', commit_resume proof (self, wd)
    = (Ok (match resume_outcome proof with Some false => false | _ => true end), (self', record_events (resume_events proof) wd)) /\
    pd_entry self' = pd_entry self /\ pd_cleanup_reason self' = pd_cleanup_reason self /\
    exists proof', pd_proof self' = Some proof' /\ rp_handle proof' = rp_handle proof /\ rp_connection proof' = rp_connection proof.
Proof.
  intros Hp. unfold commit_resume, resume_events, resume_outcome. destruct (rp_resume proof) as [resume|].
  - assert (Hnp : fst (commit_after_ready (resume, [])) <> Panic).
    { unfold commit_after_ready. destruct (rs_stream resume) as [stream|]; [|discriminate].
      assert (Hw : fst (write_resume (us_writes stream)) <> Panic).
      { induction (us_writes stream) as [|[]]; cbn; try done; discriminate. }
      destruct (write_resume _) as [[] ?]; cbn in *; done. }
    destruct (commit_after_ready (resume, [])) as [[u|error|] [resume' sent]]; [| |done].
    all: eexists; split; [reflexivity|]; split_and!; try done; eexists; split; [reflexivity|]; done.
  - exists self. split; [|split_and!; try done; eauto]. unfold sret, record_events. rewrite app_nil_r. now destruct wd.
Qed.

(** A delivery that was not committed: what was recorded, then the reap. *)
Definition uncommitted (location : nat) cell (reason : TerminationReason) (events : list WatchdogEvent) wd wd' : Prop :=
  reaped_at wd' location /\
  wd_events wd' = wd_events wd ++ events ++
    (if is_reaped (we_phase (cell_entry cell)) then []
     else [EmergencyReaped (owned_child (cell_entry cell)) (Some (effective (we_phase (cell_entry cell)) reason))]).

Lemma finish_uncommitted (self self' : PendingReadyDelivery) proof' cell (m : stm (PendingReadyDelivery * WD) WatchdogStateError (unit + X))
  r events w wd :
  table_wf wd -> wd_heap wd !! pd_entry self = Some cell ->
  m (self, wd) = (r, (self', record_events events (with_world w wd))) -> r <> Panic ->
  Forall (fun event => reap_of event = None /\ commit_of event = None) events ->
  pd_entry self' = pd_entry self -> pd_proof self' = Some proof' ->
  we_handle (cell_entry cell) = rp_handle proof' -> we_connection (cell_entry cell) = rp_connection proof' ->
  does [] (consuming (drop_delivery (F := F)) m self)
    (fun r' wd' => r' = r /\ uncommitted (pd_entry self) cell (pd_cleanup_reason self') events wd wd') wd.
Proof.
  intros Hwf Hl Hm Hr Hev Hentry Hp Hh Hc. set (wd1 := record_events events (with_world w wd)) in *.
  assert (Hs1 : wsteps [] wd wd1).
  { eapply wsteps_nil_trans; [apply (world_steps _ w)|]. unfold wd1. clear - Hev.
    induction events as [|event events IH] using rev_ind.
    - replace (record_events [] _) with (with_world w wd); [constructor|]. unfold record_events. rewrite app_nil_r. now destruct wd.
    - apply Forall_app in Hev as [Hev Hlast]. apply Forall_singleton in Hlast as [He1 He2].
      eapply wsteps_nil_trans; [now apply IH|]. apply wsteps_one.
      replace (record_events (events ++ [event]) (with_world w wd))
        with (record_event event (record_events events (with_world w wd))); [now constructor|].
      unfold record_event, record_events. cbn. now rewrite app_assoc. }
  assert (Hwf1 : table_wf wd1) by exact (wsteps_wf _ _ _ Hs1 Hwf).
  apply (does_consuming _ _ _ _ r self' wd1); [done..|].
  eapply does_mono; [apply (does_drop_delivery wd1 self' proof' cell); [done|done|now rewrite Hentry|done|done]|].
  intros r' wd2 _ [-> Ho]. split; [done|].
  - split; [done|]. rewrite Hentry in Ho. split; [exact (emergency_reaps _ cell _ wd1 _ Hl Ho)|].
    destruct Ho as [[Hreaped ->]|(Ha & b & w' & Hb & ->)].
    + rewrite Hreaped. cbn. now rewrite app_nil_r.
    + cbn. rewrite <- app_assoc. do 3 f_equal. unfold owned_child. rewrite Hb. now destruct (we_phase (cell_entry cell)).
Qed.

(** No commit guard is held on a session that is traced. *)
Lemma traced_free wd location cell :
  table_wf wd -> wd_heap wd !! location = Some cell -> we_phase (cell_entry cell) = Traced -> cell_readers cell = 0%nat.
Proof.
  intros Hwf Hl Ht. destruct (tw_entry wd Hwf _ _ Hl) as (Hr & _). destruct (cell_readers cell) as [|n]; [done|].
  rewrite Ht in Hr. discriminate Hr. lia.
Qed.

(** The result of a delivery, and its entry afterwards. *)
Definition delivery_outcome (self : PendingReadyDelivery) (proof : ReadySessionProof) cell (send : M) wd
  (r : res WatchdogStateError (unit + X)) wd' : Prop :=
  let '(now, w) := instant_now (wd_world wd) in
  let e := cell_entry cell in
  let sent := fst (send_once send (rp_handle proof) (rp_connection proof) (we_deadline e) w) in
  let '(result, events) := delivery (owned_child e) proof (pd_cleanup_reason self) (we_phase e) (we_deadline e) now sent in
  r = result /\ wd_events wd' = wd_events wd ++ events /\
  match result with
  | Ok (inl _) => exists cell', wd_heap wd' !! pd_entry self = Some cell' /\
                    cell_entry cell' = with_phase ReadyCommitted e
  | _ => reaped_at wd' (pd_entry self)
  end.

Section Deliver.
Variables (self : PendingReadyDelivery) (proof : ReadySessionProof) (cell : Cell A) (send : M) (wd : WD) (now : Z).
Let e := cell_entry cell.
Hypotheses (Hwf : table_wf wd) (Hp : pd_proof self = Some proof) (Hl : wd_heap wd !! pd_entry self = Some cell)
  (Hh : we_handle e = rp_handle proof) (Hc : we_connection e = rp_connection proof).

Lemma begin_delivery (k : PendingReadyDelivery -> ReadySessionProof -> WatchdogEntry A
                        -> stm (PendingReadyDelivery * WD) WatchdogStateError (unit + X)) :
  (let! (self, _) := sget in
   let! proof := slift (expect (pd_proof self)) in
   let! entry := on_world (bound_entry (pd_entry self) (rp_handle proof) (rp_connection proof)) in
   k self proof entry) (self, wd)
  = k self proof e (self, wd).
Proof using Hp Hl Hh Hc.
  rewrite (sbind_Ok _ _ _ (self, wd) (self, wd)) by done. cbn beta iota.
  rewrite (sbind_Ok _ _ _ proof (self, wd)) by (unfold slift; now rewrite Hp). cbn beta zeta.
  apply sbind_Ok, on_world_run. rewrite <- Hh, <- Hc. now apply bound_entry_run.
Qed.

(** The outcomes before the send. *)
Lemma deliver_at_refused :
  (is_reaped (we_phase e) = true -> deliver_at now send (self, wd) = (Err Watchdog_UnknownSession, (self, wd))) /\
  (active (we_phase e) = true -> we_phase e <> Traced ->
     deliver_at now send (self, wd) = (Err Watchdog_InvalidTransition, (self, wd))) /\
  (we_phase e = Traced -> we_deadline e <= now ->
     deliver_at now send (self, wd) = (Err Watchdog_DeadlineExpired, (with_cleanup_reason DeadlineExpired self, wd))).
Proof using Hp Hl Hh Hc.
  unfold deliver_at. rewrite begin_delivery. split_and!.
  - intros Hr. now rewrite reaped_branch.
  - intros Ha Hne. rewrite active_branch by done. now rewrite bool_decide_false.
  - intros Ht Hd. rewrite active_branch by now rewrite Ht. rewrite bool_decide_true by done. cbn [negb].
    replace (we_deadline e <=? now) with true by lia. done.
Qed.

Section Sent.
Variables (sent : res X unit) (w : W).
Hypotheses (Ht : we_phase e = Traced) (Hd : now < we_deadline e)
  (Hsend : send_once send (rp_handle proof) (rp_connection proof) (we_deadline e) (wd_world wd) = (sent, w)) (Hsent : sent <> Panic).
Let ready ok := ReadySent (rp_handle proof) (rp_connection proof) ok.

Lemma begin_send (k : unit + X -> stm (PendingReadyDelivery * WD) WatchdogStateError (unit + X)) :
  (let! s := on_world (send_ready_once send (rp_handle proof) (rp_connection proof) (we_deadline e)) in k s) (self, wd)
  = k (match sent with Err error => inr error | _ => inl tt end)
      (self, record_event (ready (match sent with Ok _ => true | _ => false end)) (with_world w wd)).
Proof using Hsend Hsent.
  apply sbind_Ok, on_world_run. unfold send_ready_once. rewrite Hsend. now destruct sent as [[]| |].
Qed.

Lemma deliver_at_unsent error :
  sent = Err error ->
  deliver_at now send (self, wd)
  = (Ok (inr error), (with_cleanup_reason (send_cleanup_reason error) self, record_event (ready false) (with_world w wd))).
Proof using All.
  intros Hs. unfold deliver_at. rewrite begin_delivery, active_branch by now rewrite Ht.
  rewrite bool_decide_true by done. cbn [negb]. replace (we_deadline e <=? now) with false by lia.
  rewrite begin_send, Hs. done.
Qed.

Lemma deliver_at_unresumed :
  sent = Ok tt -> resume_outcome proof = Some false ->
  exists self' proof', pd_entry self' = pd_entry self /\ pd_cleanup_reason self' = ProtocolViolation /\
    pd_proof self' = Some proof' /\ rp_handle proof' = rp_handle proof /\ rp_connection proof' = rp_connection proof /\
    deliver_at now send (self, wd)
    = (Err Watchdog_BrokerResumeFailed,
       (self', record_event (Resumed (rp_handle proof) false) (record_event (ready true) (with_world w wd)))).
Proof using All.
  intros Hs Hr. destruct (commit_resume_run proof self (record_event (ready true) (with_world w wd)) Hp)
    as (self' & Hrun & Hentry & _ & proof' & Hp' & Hh' & Hc').
  exists (with_cleanup_reason ProtocolViolation self'), proof'. split_and!; try done.
  unfold deliver_at. rewrite begin_delivery, active_branch by now rewrite Ht.
  rewrite bool_decide_true by done. cbn [negb]. replace (we_deadline e <=? now) with false by lia.
  rewrite begin_send, Hs, (sbind_Ok _ _ _ _ _ Hrun), Hr. cbn [negb]. unfold resume_events. now rewrite Hr.
Qed.

Lemma deliver_at_committed :
  sent = Ok tt -> resume_outcome proof <> Some false ->
  exists self', pd_proof self' = None /\
    deliver_at now send (self, wd)
    = (Ok (inl tt),
       (self', record_event (Committed (rp_handle proof))
                 (set_entry (pd_entry self) cell (with_phase ReadyCommitted e)
                    (record_events (resume_events proof) (record_event (ready true) (with_world w wd)))))).
Proof using All.
  intros Hs Hr. set (wd1 := record_event (ready true) (with_world w wd)).
  destruct (commit_resume_run proof self wd1 Hp) as (self' & Hrun & Hentry & _).
  exists (with_proof None self'). split; [done|].
  unfold deliver_at. rewrite begin_delivery, active_branch by now rewrite Ht.
  rewrite bool_decide_true by done. cbn [negb]. replace (we_deadline e <=? now) with false by lia.
  rewrite begin_send, Hs. fold wd1. rewrite (sbind_Ok _ _ _ _ _ Hrun).
  replace (negb (match resume_outcome proof with Some false => false | _ => true end)) with false
    by now destruct (resume_outcome proof) as [[]|].
  set (wd2 := record_events (resume_events proof) wd1).
  pose proof (traced_free _ _ _ Hwf Hl Ht) as Hrd.
  rewrite (sbind_Ok _ _ _ e (self', wd2)) by now apply on_world_run, borrow_mut_run.
  rewrite Hh, Hc, Ht, Z.eqb_refl, !bool_decide_true by done. cbn [negb orb].
  rewrite (sbind_Ok _ _ _ tt (self', record_event (Committed (rp_handle proof))
             (set_entry (pd_entry self) cell (with_phase ReadyCommitted e) wd2))).
  - done.
  - apply on_world_run. rewrite (sbind_Ok _ _ _ tt (set_entry (pd_entry self) cell (with_phase ReadyCommitted e) wd2));
      [done|now apply put_entry_run].
Qed.

End Sent.
End Deliver.

Lemma commit_steps location cell proof w wd :
  table_wf wd -> wd_heap wd !! location = Some cell -> we_phase (cell_entry cell) = Traced ->
  we_handle (cell_entry cell) = rp_handle proof -> we_connection (cell_entry cell) = rp_connection proof ->
  wsteps [] wd
    (record_event (Committed (rp_handle proof))
       (set_entry location cell (with_phase ReadyCommitted (cell_entry cell))
          (record_events (resume_events proof)
             (record_event (ReadySent (rp_handle proof) (rp_connection proof) true) (with_world w wd))))).
Proof.
  intros Hwf Hl Ht Hh Hc. apply wsteps_one. pose proof (traced_free _ _ _ Hwf Hl Ht) as Hfree.
  assert (Hres : Forall (fun event => reap_of event = None /\ commit_of event = None) (resume_events proof)).
  { unfold resume_events. destruct (resume_outcome proof); [constructor; done|constructor]. }
  pose proof (ws_commit location cell (resume_events proof) w wd Hl Hfree Ht Hres) as Hstep. cbn zeta in Hstep.
  rewrite Hh, Hc in Hstep. unfold record_event, record_events, set_entry, with_heap, with_world. cbn.
  now rewrite <- !app_assoc.
Qed.

Lemma deliver_does (self : PendingReadyDelivery) proof cell (send : M) wd :
  table_wf wd -> pd_proof self = Some proof -> wd_heap wd !! pd_entry self = Some cell ->
  we_handle (cell_entry cell) = rp_handle proof -> we_connection (cell_entry cell) = rp_connection proof ->
  does [] (deliver (F := F) self send) (delivery_outcome self proof cell send wd) wd.
Proof.
  intros Hwf Hp Hl Hh Hc. apply does_clock. intros now w Hnow.
  set (wd0 := with_world w wd). assert (Hwf0 : table_wf wd0) by now apply (table_wf_ext wd).
  unfold delivery_outcome. rewrite Hnow. set (e := cell_entry cell).
  destruct (deliver_at_refused self proof cell send wd0 now Hp Hl Hh Hc) as (Hreaped & Hother & Hlate). fold e in Hreaped, Hother, Hlate.
  destruct (send_law send (rp_handle proof) (rp_connection proof) (we_deadline e) w) as (sent & w' & Hsend & Hsent).
  rewrite Hsend. cbn [fst].
  assert (Hnone : forall v, record_events [] (with_world (wd_world v) v) = v).
  { intros v. unfold record_events. cbn. rewrite app_nil_r. now destruct v. }
  (* an outcome that is not a commit *)
  assert (Hfail : forall r (self' : PendingReadyDelivery) proof' events v,
    deliver_at now send (self, wd0) = (r, (self', record_events events (with_world v wd0))) ->
    Forall (fun event => reap_of event = None /\ commit_of event = None) events ->
    pd_entry self' = pd_entry self -> pd_proof self' = Some proof' ->
    rp_handle proof' = rp_handle proof -> rp_connection proof' = rp_connection proof ->
    delivery (owned_child e) proof (pd_cleanup_reason self) (we_phase e) (we_deadline e) now sent
    = (r, events ++ (if is_reaped (we_phase e) then []
                     else [EmergencyReaped (owned_child e) (Some (effective (we_phase e) (pd_cleanup_reason self')))])) ->
    r <> Ok (inl tt) -> r <> Panic ->
    does [] (consuming (drop_delivery (F := F)) (deliver_at now send) self)
      (fun r wd' => let '(result, events) := delivery (owned_child e) proof (pd_cleanup_reason self) (we_phase e) (we_deadline e) now sent in
         r = result /\ wd_events wd' = wd_events wd ++ events /\
         match result with
         | Ok (inl _) => exists cell', wd_heap wd' !! pd_entry self = Some cell' /\ cell_entry cell' = with_phase ReadyCommitted e
         | _ => reaped_at wd' (pd_entry self)
         end) wd0).
  { intros r self' proof' events v Hm Hev He' Hp' Hh' Hc' -> Hr1 Hr2.
    eapply does_mono; [apply (finish_uncommitted self self' proof' cell (deliver_at now send) r events v wd0); try done; congruence|].
    cbn beta. intros r' wd' _ [-> [Hra Hev']]. split; [done|]. split; [done|]. now destruct r as [[[]|?]| |]. }
  destruct (entry_facts _ _ _ Hwf Hl) as [Hr|(Ha & b & Hb & Harm)]; [fold e in Hr|fold e in Ha, Hb].
  { apply (Hfail (Err Watchdog_UnknownSession) self proof [] (wd_world wd0)); try done.
    - rewrite (Hreaped Hr). now rewrite Hnone.
    - unfold delivery. now rewrite Hr. }
  assert (Hnr : is_reaped (we_phase e) = false) by now destruct (we_phase e).
  destruct (decide (we_phase e = Traced)) as [Ht|Hnt].
  2: { apply (Hfail (Err Watchdog_InvalidTransition) self proof [] (wd_world wd0)); try done.
       - rewrite (Hother Ha Hnt). now rewrite Hnone.
       - unfold delivery. now rewrite Hnr, bool_decide_false. }
  destruct (Z.le_gt_cases (we_deadline e) now) as [Hd|Hd].
  { apply (Hfail (Err Watchdog_DeadlineExpired) (with_cleanup_reason DeadlineExpired self) proof [] (wd_world wd0)); try done.
    - rewrite (Hlate Ht Hd). now rewrite Hnone.
    - unfold delivery. rewrite Hnr, bool_decide_true by done. cbn [negb]. replace (we_deadline e <=? now) with true by lia. done. }
  assert (Hdel : delivery (owned_child e) proof (pd_cleanup_reason self) (we_phase e) (we_deadline e) now sent
                 = delivery_sent (owned_child e) proof sent).
  { unfold delivery. rewrite Hnr, bool_decide_true by done. cbn [negb]. now replace (we_deadline e <=? now) with false by lia. }
  destruct sent as [[]|error|]; [| |done].
  - destruct (decide (resume_outcome proof = Some false)) as [Hres|Hres].
    + destruct (deliver_at_unresumed self proof cell send wd0 now Hwf0 Hp Hl Hh Hc (Ok tt) w' Ht Hd Hsend Hsent eq_refl Hres)
        as (self' & proof' & He' & Hcl & Hp' & Hh' & Hc' & Hrun).
      apply (Hfail (Err Watchdog_BrokerResumeFailed) self' proof'
               [ReadySent (rp_handle proof) (rp_connection proof) true; Resumed (rp_handle proof) false] w'); try done.
      * rewrite Hrun. unfold record_event, record_events. cbn. now rewrite <- app_assoc.
      * now repeat constructor.
      * rewrite Hdel, Hnr, Ht. unfold delivery_sent. now rewrite Hres, Hcl.
    + destruct (deliver_at_committed self proof cell send wd0 now Hwf0 Hp Hl Hh Hc (Ok tt) w' Ht Hd Hsend Hsent eq_refl Hres)
        as (self' & Hp' & Hrun).
      eapply does_consuming; [exact Hrun|discriminate|now apply commit_steps|].
      unfold drop_delivery. rewrite Hp'. apply does_ret. split; [done|]. rewrite Hdel. unfold delivery_sent, resume_events. destruct (resume_outcome proof) as [[]|]; [|done|]; (split; [done|]; split);
          try (cbn; now rewrite <- !app_assoc); (eexists; split; [apply set_lookup|done]).
  - pose proof (deliver_at_unsent self proof cell send wd0 now Hwf0 Hp Hl Hh Hc (Err error) w' Ht Hd Hsend Hsent error eq_refl) as Hrun.
    apply (Hfail (Ok (inr error)) (with_cleanup_reason (send_cleanup_reason error) self) proof
             [ReadySent (rp_handle proof) (rp_connection proof) false] w'); try done.
    + now repeat constructor.
    + now rewrite Hdel, Hnr, Ht.
Qed.

End Delivery.
