(* ===== verification/WatchdogSystem.v ===== *)
(** * WatchdogSystem: a table with all its guards

    The service holds one table, the guards of the sessions that are being
    launched, with their launch permits and the commit guards on them, and the
    guards of the replies that are being delivered. An [Op] is one call of the
    service; [perform] runs it, [run] runs a sequence up to an abort. *)

From stdpp Require Import gmap fin_maps.
From S2P Require Import Prelude Tools Native SupervisorWire Supervisor BrokerReport Watchdog WatchdogGuards WatchdogSteps WatchdogInv WatchdogTheory WatchdogMethods WatchdogDelivery.

Section System.
Context {A W F L R M X : Type} {B : ExactBrokerAuthority A W F} {C : Clock W} {EF : RegisteredLaunchEffect L}
  {N : NonblockingReadySend M W X}.

Abbreviation WD := (WatchdogTable A W).
Abbreviation method T := (stm WD WatchdogStateError T).
Abbreviation PS := (PendingRegisteredSession L R).

(** A pending session with its permits, each with the commit guards it gave. A
    permit borrows its session and a guard its permit, so that the compiler
    admits no call that changes or drops what is borrowed; such a call is no
    call here either. *)
Record Lease := { ls_guard : PS; ls_permits : list (RegisteredLaunchPermit L * list nat) }.

Definition lease (guard : PS) : Lease := {| ls_guard := guard; ls_permits := [] |}.

Record System := { sy_table : WD; sy_pending : list Lease; sy_deliveries : list PendingReadyDelivery }.

Inductive Op :=
| OpRegister (session : bytes) (launch : L) (child : A) (report : R)
| OpLaunchPermit (guard : nat)
| OpCommitGuard (guard permit : nat)
| OpDropCommitGuard (guard permit held : nat)
| OpDropPermit (guard permit : nat)
| OpSetReport (guard : nat) (report : R)
| OpConsumeReport (guard : nat)
| OpBindTrace (guard : nat) (trace : TraceEstablished)
| OpMarkProtocolViolation (guard : nat)
| OpMarkDeadlineExpired (guard : nat)
| OpMarkTraced (guard : nat)
| OpDropPending (guard : nat)
| OpDeliver (guard : nat) (send : M)
| OpDropDelivery (guard : nat)
| OpTableMarkTraced (trace : TraceEstablished)
| OpTerminateForDisconnect (handle : bytes) (connection : Z)
| OpTerminateForRequest (handle : bytes) (connection : Z)
| OpTerminateForDeadline (handle : bytes)
| OpTerminateForStop (handle : bytes)
| OpTerminateForViolation (handle : bytes)
| OpTerminateUndelivered (proof : ReadySessionProof).

Definition with_table (table : WD) (self : System) : System :=
  {| sy_table := table; sy_pending := sy_pending self; sy_deliveries := sy_deliveries self |}.
Definition with_pending (pending : list Lease) (self : System) : System :=
  {| sy_table := sy_table self; sy_pending := pending; sy_deliveries := sy_deliveries self |}.
Definition with_deliveries (deliveries : list PendingReadyDelivery) (self : System) : System :=
  {| sy_table := sy_table self; sy_pending := sy_pending self; sy_deliveries := deliveries |}.

(** The answer of a call, without its value. *)
Definition answer {T} (r : res WatchdogStateError T) : res WatchdogStateError unit :=
  match r with Ok _ => Ok tt | Err error => Err error | Panic => Panic end.

Definition on_table {T} (m : method T) (keep : T -> System -> System) (self : System) : res WatchdogStateError unit * System :=
  let '(r, table) := m (sy_table self) in
  let self := with_table table self in
  (answer r, match r with Ok value => keep value self | _ => self end).

Definition no_call (self : System) : res WatchdogStateError unit * System := (Ok tt, self).

Definition set_lease (i : nat) (lease : Lease) (self : System) : System := with_pending (<[i := lease]> (sy_pending self)) self.

(** A call that changes a guard. *)
Definition on_guard {T} (i : nat) (m : stm (PS * WD) WatchdogStateError T) (self : System) : res WatchdogStateError unit * System :=
  match sy_pending self !! i with
  | Some {| ls_guard := guard; ls_permits := [] |} =>
      let '(r, (guard, table)) := m (guard, sy_table self) in
      (answer r, set_lease i (lease guard) (with_table table self))
  | _ => no_call self
  end.

(** A call that reads a guard, and what it keeps. *)
Definition on_lease {T} (i : nat) (m : PS -> method T) (keep : T -> Lease -> Lease) (self : System) : res WatchdogStateError unit * System :=
  match sy_pending self !! i with
  | Some lease => on_table (m (ls_guard lease)) (fun value => set_lease i (keep value lease)) self
  | None => no_call self
  end.

(** A call of a permit, or the drop of a commit guard of it. *)
Definition on_permit {T} (i k : nat) (m : RegisteredLaunchPermit L -> list nat -> method T) (keep : T -> list nat -> list nat)
  (self : System) : res WatchdogStateError unit * System :=
  match sy_pending self !! i with
  | Some lease =>
      match ls_permits lease !! k with
      | Some (permit, held) =>
          on_table (m permit held) (fun value => set_lease i
            {| ls_guard := ls_guard lease; ls_permits := <[k := (permit, keep value held)]> (ls_permits lease) |}) self
      | None => no_call self
      end
  | None => no_call self
  end.

Definition drop_permit (i k : nat) (self : System) : res WatchdogStateError unit * System :=
  match sy_pending self !! i with
  | Some lease =>
      match ls_permits lease !! k with
      | Some (_, []) => (Ok tt, set_lease i {| ls_guard := ls_guard lease; ls_permits := delete k (ls_permits lease) |} self)
      | _ => no_call self
      end
  | None => no_call self
  end.

(** A call that consumes its guard. *)
Definition consume_pending {T} (i : nat) (m : PS -> method T) (keep : T -> System -> System) (self : System)
  : res WatchdogStateError unit * System :=
  match sy_pending self !! i with
  | Some {| ls_guard := guard; ls_permits := [] |} =>
      on_table (m guard) keep (with_pending (delete i (sy_pending self)) self)
  | _ => no_call self
  end.

Definition consume_delivery {T} (i : nat) (m : PendingReadyDelivery -> method T) (self : System) : res WatchdogStateError unit * System :=
  match sy_deliveries self !! i with
  | None => no_call self
  | Some guard => on_table (m guard) (fun _ self => self) (with_deliveries (delete i (sy_deliveries self)) self)
  end.

Definition add_pending (guard : PS) (self : System) : System := with_pending (sy_pending self ++ [lease guard]) self.
Definition add_delivery (guard : PendingReadyDelivery) (self : System) : System :=
  with_deliveries (sy_deliveries self ++ [guard]) self.
Definition discard {T} (_ : T) (self : System) : System := self.

Definition spawned_broker (session : bytes) (launch : L) (child : A) (report : R) : AtomicallySpawnedBroker L A R :=
  {| sb_session := session; sb_launch := launch; sb_broker := from_unreaped_direct_child child; sb_report := report |}.

Definition perform (op : Op) : System -> res WatchdogStateError unit * System :=
  match op with
  | OpRegister session launch child report =>
      on_table (register_armed (F := F) (spawned_broker session launch child report)) add_pending
  | OpLaunchPermit i => on_lease i (launch_permit (F := F)) (fun permit lease =>
      {| ls_guard := ls_guard lease; ls_permits := ls_permits lease ++ [(permit, [])] |})
  | OpCommitGuard i k => on_permit i k (fun permit _ => commit_guard (F := F) permit) (fun guard held => held ++ [guard])
  | OpDropCommitGuard i k j => on_permit i k
      (fun _ held => match held !! j with Some g => drop_commit_guard g | None => sret tt end) (fun _ held => delete j held)
  | OpDropPermit i k => drop_permit i k
  | OpSetReport i report => on_guard i (let! _ := report_mut in on_self (smodify (with_report (Some report))))
  | OpConsumeReport i => on_guard i consume_report
  | OpBindTrace i trace => on_guard i (fun '(guard, table) =>
      let '(_, guard) := bind_trace trace guard in (Ok tt, (guard, table)))
  | OpMarkProtocolViolation i => on_guard i (on_self (smodify mark_protocol_violation))
  | OpMarkDeadlineExpired i => on_guard i (on_self (smodify mark_deadline_expired))
  | OpMarkTraced i => consume_pending i (mark_traced_for_delivery (F := F)) add_delivery
  | OpDropPending i => consume_pending i (drop_pending (F := F)) discard
  | OpDeliver i send => consume_delivery i (fun guard => deliver (F := F) guard send)
  | OpDropDelivery i => consume_delivery i (drop_delivery (F := F))
  | OpTableMarkTraced trace => on_table (table_mark_traced_for_delivery (F := F) trace) add_delivery
  | OpTerminateForDisconnect handle connection => on_table (terminate_for_client_disconnect (F := F) handle connection) discard
  | OpTerminateForRequest handle connection => on_table (terminate_for_client_request (F := F) handle connection) discard
  | OpTerminateForDeadline handle => on_table (terminate_for_deadline (F := F) handle) discard
  | OpTerminateForStop handle => on_table (terminate_for_unexpected_stop (F := F) handle) discard
  | OpTerminateForViolation handle => on_table (terminate_for_protocol_violation (F := F) handle) discard
  | OpTerminateUndelivered proof => on_table (terminate_undelivered_ready (F := F) proof) discard
  end.

Fixpoint run (ops : list Op) (self : System) : list (res WatchdogStateError unit) * System :=
  match ops with
  | [] => ([], self)
  | op :: ops =>
      match perform op self with
      | (Panic, self) => ([Panic], self)
      | (r, self) => let '(rs, self) := run ops self in (r :: rs, self)
      end
  end.

Definition System_new (w : W) : System := {| sy_table := WatchdogTable_new w; sy_pending := []; sy_deliveries := [] |}.

(** The commit guards on an entry. *)
Definition held_in (location : nat) (guards : list nat) : nat := sum_list_with (fun guard => if decide (guard = location) then 1 else 0)%nat guards.
Definition held_by (location : nat) (lease : Lease) : nat := sum_list_with (fun permit => held_in location (snd permit)) (ls_permits lease).
Definition held_at (location : nat) (self : System) : nat := sum_list_with (held_by location) (sy_pending self).

(** The children that an operation hands to the table. *)
Definition brought (op : Op) : list Z :=
  match op with OpRegister _ _ child _ => [exact_child child] | _ => [] end.

End System.
Arguments System : clear implicits.
Arguments Lease : clear implicits.
Arguments Op : clear implicits.

(** * Counting the commit guards *)

Lemma sum_insert {T} (f : T -> nat) l i x y :
  l !! i = Some x -> (sum_list_with f (<[i := y]> l) + f x = sum_list_with f l + f y)%nat.
Proof.
  intros Hi. rewrite insert_take_drop by exact (lookup_lt_Some _ _ _ Hi).
  rewrite <- (take_drop_middle _ _ _ Hi) at 3. rewrite !sum_list_with_app. cbn. lia.
Qed.

Lemma sum_delete {T} (f : T -> nat) l i x : l !! i = Some x -> (sum_list_with f (delete i l) + f x = sum_list_with f l)%nat.
Proof.
  intros Hi. rewrite delete_take_drop. rewrite <- (take_drop_middle _ _ _ Hi) at 3. rewrite !sum_list_with_app. cbn. lia.
Qed.

(** * Any use of the watchdog keeps every child accounted for *)

Section Safety.
Context {A W F L R M X : Type} {B : ExactBrokerAuthority A W F} {BL : AuthorityLaws B} {C : Clock W}
  {EF : RegisteredLaunchEffect L} {N : NonblockingReadySend M W X} {NL : SendLaws N}.

Abbreviation WD := (WatchdogTable A W).
Abbreviation method T := (stm WD WatchdogStateError T).
Abbreviation PS := (PendingRegisteredSession L R).
Implicit Types (wd : WD) (e : WatchdogEntry A) (cell : Cell A) (guard : PS).

(** ** Guards that are bound to their session *)

Record pending_bound wd guard : Prop := {
  pb_session : exists deadline, session_at wd (ps_entry guard) (ps_handle guard) (ps_connection guard) deadline;
  pb_armed : ps_armed guard = true;
  pb_launch : forall launch, ps_launch guard = Some launch ->
    rg_handle launch = ps_handle guard /\ rg_connection launch = ps_connection guard;
  pb_trace : forall trace, ps_trace guard = Some trace ->
    te_handle trace = ps_handle guard /\ te_connection trace = ps_connection guard
}.

Lemma pending_bound_steps cs wd wd' guard : wsteps cs wd wd' -> pending_bound wd guard -> pending_bound wd' guard.
Proof. intros Hs [[d H1] H2 H3 H4]. split; auto. exists d. now apply (wsteps_session _ _ _ _ _ _ _ Hs). Qed.

Lemma delivery_bound_steps cs wd wd' d : wsteps cs wd wd' -> delivery_bound wd d -> delivery_bound wd' d.
Proof.
  intros Hs (proof & deadline & Hp & H). exists proof, deadline. split; [done|].
  now apply (wsteps_session _ _ _ _ _ _ _ Hs).
Qed.

(** ** The methods of a pending session *)

Lemma does_bound {T} location handle connection deadline (k : WatchdogEntry A -> method T)
  (Q : res WatchdogStateError T -> WD -> Prop) wd :
  session_at wd location handle connection deadline ->
  (forall cell, wd_heap wd !! location = Some cell -> we_handle (cell_entry cell) = handle ->
     we_connection (cell_entry cell) = connection -> does [] (k (cell_entry cell)) Q wd) ->
  does [] (sbind (bound_entry location handle connection) k) Q wd.
Proof.
  intros (cell & Hl & <- & <- & _) Hk. apply (does_same _ _ _ _ _ (cell_entry cell)); [now apply bound_entry_run|auto].
Qed.

Lemma launch_permit_does guard wd :
  table_wf wd -> pending_bound wd guard ->
  does [] (launch_permit (F := F) guard)
    (fun r wd' => match r with
                  | Ok permit => rl_entry permit = ps_entry guard /\ ps_launch guard = Some (rl_launch permit)
                  | _ => True
                  end) wd.
Proof.
  intros Hwf [[d Hs] _ _ _]. eapply does_bound; [exact Hs|]. intros cell Hl Hh Hc.
  destruct (negb _); [now apply does_err|]. apply does_clock. intros now w _.
  destruct (_ <=? now).
  - rewrite <- Hh, <- Hc. apply does_emergency; [now apply (table_wf_ext wd)|done|]. intros wd1 _ _ _. now apply does_err.
  - destruct (ps_launch guard) as [launch|].
    + apply (does_same _ _ _ _ _ launch); [done|]. now apply does_ret.
    + now apply (does_fails _ _ _ _ Watchdog_InvalidTransition).
Qed.

(** ** Calls: sequences of steps, or a change of the commit guards *)

Inductive wcall : list Z -> WD -> WD -> Prop :=
| wc_steps cs wd wd' : wsteps cs wd wd' -> wcall cs wd wd'
| wc_pin location cell w wd :
    wd_heap wd !! location = Some cell -> we_phase (cell_entry cell) = Starting ->
    wcall [] wd (adjust_readers S location (with_world w wd))
| wc_unpin location cell wd :
    wd_heap wd !! location = Some cell -> (0 < cell_readers cell)%nat -> wcall [] wd (adjust_readers pred location wd).

Lemma lookup_adjusted f location wd l :
  wd_heap (adjust_readers f location wd) !! l =
  (fun cell => {| cell_entry := cell_entry cell;
                  cell_readers := if decide (l = location) then f (cell_readers cell) else cell_readers cell |}) <$> wd_heap wd !! l.
Proof.
  cbn. destruct (decide (l = location)) as [->|Hne].
  - rewrite lookup_alter_eq. destruct (wd_heap wd !! location) as [[]|]; cbn; done.
  - rewrite lookup_alter_ne by done. destruct (wd_heap wd !! l) as [[]|]; cbn; done.
Qed.

Lemma adjusted_inv f location wd l cell' :
  wd_heap (adjust_readers f location wd) !! l = Some cell' ->
  exists cell, wd_heap wd !! l = Some cell /\ cell_entry cell' = cell_entry cell /\
    cell_readers cell' = if decide (l = location) then f (cell_readers cell) else cell_readers cell.
Proof. rewrite lookup_adjusted. intros (cell & -> & ->)%fmap_Some. now exists cell. Qed.

Lemma adjusted_wf f location wd :
  (forall cell, wd_heap wd !! location = Some cell -> (0 < f (cell_readers cell))%nat -> we_phase (cell_entry cell) = Starting) ->
  table_wf wd -> table_wf (adjust_readers f location wd).
Proof.
  intros Hf [H1 H2 H3 H4 H5 H6]. split; [| |exact H3| |exact H5|exact H6].
  - intros handle l Hl. destruct (H1 _ _ Hl) as (cell & Hc & Hh). rewrite lookup_adjusted, Hc. eexists. split; [reflexivity|done].
  - intros l cell' (cell & Hc & -> & ->)%adjusted_inv. destruct (H2 _ _ Hc) as (Hr & He & Hp).
    split_and!; [|done|done]. destruct (decide (l = location)) as [->|]; auto.
  - intros l1 l2 c1 c2 (c1' & Hc1 & -> & _)%adjusted_inv (c2' & Hc2 & -> & _)%adjusted_inv. now apply (H4 l1 l2 c1' c2').
Qed.

Lemma adjusted_owns f location wd l child : owns (adjust_readers f location wd) l child <-> owns wd l child.
Proof.
  split.
  - intros (cell' & b & (cell & Hc & He & _)%adjusted_inv & Hb & Hx). exists cell, b. rewrite <- He. done.
  - intros (cell & b & Hc & Hb & Hx). eexists _, b. rewrite lookup_adjusted, Hc. split; [reflexivity|done].
Qed.

Lemma adjusted_ok cs f location wd :
  (forall cell, wd_heap wd !! location = Some cell -> (0 < f (cell_readers cell))%nat -> we_phase (cell_entry cell) = Starting) ->
  wd_ok cs wd -> wd_ok cs (adjust_readers f location wd).
Proof.
  intros Hf [Hwf [Hb Ho] [R1 R2 R3 R4 R5]]. split; [now apply adjusted_wf| |].
  - assert (Hgone : forall n child, gone n wd child -> gone n (adjust_readers f location wd) child).
    { intros n child [Hr Hn]. split; [done|]. intros l. rewrite adjusted_owns. apply Hn. }
    split; [|intros child Hin; now apply Hgone, Ho].
    intros child Hin. destruct (Hb child Hin) as [(Hr & l & Hl & Hu)|Hg]; [left|right; now apply Hgone].
    split; [done|]. exists l. split; [now apply adjusted_owns|]. intros l'. rewrite adjusted_owns. apply Hu.
  - split; [| |exact R3| |exact R5].
    + intros l cell' (cell & Hc & -> & _)%adjusted_inv. now apply (R1 l).
    + intros l cell' (cell & Hc & -> & _)%adjusted_inv. now apply (R2 l).
    + intros handle Hin. destruct (R4 handle Hin) as (l & cell & Hc & Hh). eexists l, _. rewrite lookup_adjusted, Hc.
      split; [reflexivity|done].
Qed.

Lemma wcall_ok before cs wd wd' : wcall cs wd wd' -> NoDup (before ++ cs) -> wd_ok before wd -> wd_ok (before ++ cs) wd'.
Proof.
  intros [cs' wd1 wd2 Hs|l cell w wd1 Hl Hp|l cell wd1 Hl Hr] Hnd Hok; [now apply (wsteps_ok _ _ wd1)| |]; rewrite app_nil_r.
  - apply adjusted_ok; [cbn; intros c Hc _; congruence|].
    pose proof (wsteps_ok before [] _ _ (world_steps wd1 w)) as H. rewrite app_nil_r in H, Hnd. now apply H.
  - apply adjusted_ok; [|done]. intros c Hc Hpos. destruct (tw_entry wd1 (wo_wf _ _ Hok) _ _ Hc) as (H & _). apply H. lia.
Qed.

Lemma adjusted_session f l wd location handle connection deadline :
  session_at wd location handle connection deadline -> session_at (adjust_readers f l wd) location handle connection deadline.
Proof. intros (cell & Hc & H). eexists. rewrite lookup_adjusted, Hc. split; [reflexivity|done]. Qed.

(** ** The commit guards that are held *)

Definition readers_at wd (location : nat) : nat := match wd_heap wd !! location with Some cell => cell_readers cell | None => 0 end.

Lemma wsteps_readers_at cs wd wd' location : wsteps cs wd wd' -> readers_at wd' location = readers_at wd location.
Proof.
  intros Hs. unfold readers_at. destruct (wd_heap wd' !! location) as [cell'|] eqn:E'.
  - pose proof (wsteps_readers _ _ _ _ _ Hs E') as H. now destruct (wd_heap wd !! location).
  - destruct (wd_heap wd !! location) as [cell|] eqn:E; [|done].
    destruct (wsteps_session _ _ _ location _ _ _ Hs (ex_intro _ cell (conj E (conj eq_refl (conj eq_refl eq_refl)))))
      as (c & Hc & _). congruence.
Qed.

(** [commit_guard] pins its entry, fails after some steps, or ends the process. *)
Lemma commit_guard_run (permit : RegisteredLaunchPermit L) deadline wd :
  table_wf wd ->
  session_at wd (rl_entry permit) (rg_handle (rl_launch permit)) (rg_connection (rl_launch permit)) deadline ->
  exists r wd', commit_guard (F := F) permit wd = (r, wd') /\
    match r with
    | Ok guard => guard = rl_entry permit /\ exists cell w, wd_heap wd !! rl_entry permit = Some cell /\
                    we_phase (cell_entry cell) = Starting /\ wd' = adjust_readers S (rl_entry permit) (with_world w wd)
    | Err _ => wsteps [] wd wd'
    | Panic => stopped [] wd wd'
    end.
Proof.
  intros Hwf (cell & Hl & Hh & Hc & _). unfold commit_guard. rewrite <- Hh, <- Hc.
  rewrite (sbind_Ok _ _ _ (cell_entry cell) wd) by now apply bound_entry_run.
  destruct (we_phase (cell_entry cell)) eqn:Ep; try (eexists _, wd; split; [reflexivity|constructor]).
  - destruct (clock_now_run (E := WatchdogStateError) wd) as (now & w & _ & Hnow). rewrite (sbind_Ok _ _ _ _ _ Hnow).
    destruct (_ <=? now).
    + destruct (does_elim _ _ _ _ (emergency_does (F := F) (E := WatchdogStateError) (with_world w wd) (rl_entry permit) cell
        DeadlineExpired (wsteps_wf _ _ _ (world_steps wd w) Hwf) Hl)) as (r & wd' & Hrun & [[-> Hst]|(_ & Hs & -> & _)]).
      * exists Panic, wd'. split; [unfold sbind; now rewrite Hrun|]. exact (stopped_after [] [] _ _ _ (world_steps wd w) Hst).
      * exists (Err Watchdog_DeadlineExpired), wd'. split; [now rewrite (sbind_Ok _ _ _ _ _ Hrun)|].
        exact (wsteps_nil_trans _ _ _ (world_steps wd w) Hs).
    + eexists _, _. split; [reflexivity|]. split; [done|]. now exists cell, w.
  - destruct (entry_facts _ _ _ Hwf Hl) as [Hr|[Ha _]]; rewrite Ep in *; done.
Qed.

Lemma report_open_does {T} guard wd (k : unit -> stm (PS * WD) WatchdogStateError T) :
  table_wf wd -> pending_bound wd guard ->
  (forall wd', table_wf wd' -> wsteps [] wd wd' ->
     exists r guard' , k tt (guard, wd') = (r, (guard', wd')) /\ r <> Panic /\ pending_bound wd' guard') ->
  exists r guard' wd', (let! x := report_open in k x) (guard, wd) = (r, (guard', wd')) /\ r <> Panic /\
    wsteps [] wd wd' /\ pending_bound wd' guard'.
Proof.
  intros Hwf Hb Hk. pose proof Hb as [[d (cell & Hl & Hh & Hc & _)] Harm Hla Htr].
  destruct (clock_now_run (E := WatchdogStateError) wd) as (now & w & _ & Hnow).
  unfold report_open. unfold sbind at 1. rewrite (sbind_Ok _ _ _ (guard, wd) (guard, wd)) by done. cbn beta iota.
  rewrite Harm. cbn [negb].
  rewrite (sbind_Ok _ _ _ (cell_entry cell) (guard, wd))
    by (apply on_world_run; rewrite <- Hh, <- Hc; now apply bound_entry_run).
  destruct (negb _); [exists (Err Watchdog_InvalidTransition), guard, wd; split_and!; try done; constructor|].
  rewrite (sbind_Ok _ _ _ now (guard, with_world w wd)) by now apply on_world_run.
  pose proof (world_steps wd w) as Hs. pose proof (pending_bound_steps _ _ _ _ Hs Hb) as Hb'.
  destruct (_ <=? now).
  - exists (Err Watchdog_DeadlineExpired), (with_reason DeadlineExpired guard), (with_world w wd). split; [done|].
    split; [done|]. split; [done|]. now destruct Hb'.
  - destruct (Hk (with_world w wd) (wsteps_wf _ _ _ Hs Hwf) Hs) as (r & guard' & Hrun & Hr & Hg').
    exists r, guard', (with_world w wd). split; [|done]. exact Hrun.
Qed.

Lemma mark_traced_guard_does guard wd :
  table_wf wd -> pending_bound wd guard ->
  does [] (mark_traced_for_delivery (F := F) guard)
    (fun r wd' => match r with Ok d => delivery_bound wd' d | _ => reaped_at wd' (ps_entry guard) end) wd.
Proof.
  intros Hwf [[d (cell & Hl & Hh & Hc & Hd)] Harm _ Htr]. unfold mark_traced_for_delivery.
  destruct (ps_trace guard) as [trace|] eqn:Et.
  - destruct (Htr _ eq_refl) as [Hth Htc].
    destruct (does_elim _ _ _ _ (transition_does (F := F) (ps_entry guard) cell trace wd Hwf Hl
      ltac:(congruence) ltac:(congruence))) as (r & wd' & Hrun & Ho).
    match goal with |- does _ (consuming _ ?m _) _ _ => assert (Hm : m (guard, wd) = (r, (disarmed (with_trace None guard), wd'))) end.
    { rewrite (sbind_Ok _ _ _ (guard, wd) (guard, wd)) by done. cbn beta iota. rewrite Et.
      rewrite (sbind_Ok _ _ _ tt (disarmed (with_trace None guard), wd)) by done. now apply on_world_run. }
    destruct Ho as [[-> Hst]|(Hr & Hs & Ho)].
    + apply (does_stop _ _ _ _ wd'); [|done]. unfold consuming. now rewrite Hm.
    + apply (does_consuming _ _ _ _ r _ wd' _ Hm Hr Hs). apply does_ret. split; [done|].
      destruct r as [dl|error|]; [|done..]. destruct Ho as [-> _]. exists (ready_proof trace), d. split; [done|].
      apply (wsteps_session _ _ _ _ _ _ _ Hs). exists cell. split_and!; cbn; congruence.
  - apply (does_consuming _ _ _ _ (Err Watchdog_InvalidTransition) (mark_protocol_violation guard) wd).
    + rewrite (sbind_Ok _ _ _ (guard, wd) (guard, wd)) by done. cbn beta iota. rewrite Et. done.
    + discriminate.
    + constructor.
    + unfold drop_pending. cbn. rewrite Harm, <- Hh, <- Hc. eapply does_mono; [now apply emergency_does|].
      intros r wd' _ [-> Ho]. split; [done|]. exact (emergency_reaps _ _ _ _ _ Hl Ho).
Qed.

Lemma drop_pending_does guard wd :
  table_wf wd -> pending_bound wd guard ->
  does [] (drop_pending (F := F) (E := WatchdogStateError) guard) (fun _ wd' => reaped_at wd' (ps_entry guard)) wd.
Proof.
  intros Hwf [[d (cell & Hl & Hh & Hc & Hd)] Harm _ _]. unfold drop_pending. rewrite Harm, <- Hh, <- Hc.
  eapply does_mono; [now apply emergency_does|]. intros r wd' _ [_ Ho]. exact (emergency_reaps _ _ _ _ _ Hl Ho).
Qed.

Lemma drop_delivery_does (self : PendingReadyDelivery) wd :
  table_wf wd -> delivery_bound wd self ->
  does [] (drop_delivery (F := F) (E := WatchdogStateError) self) (fun _ wd' => reaped_at wd' (pd_entry self)) wd.
Proof.
  intros Hwf (proof & d & Hp & cell & Hl & Hh & Hc & _).
  eapply does_mono; [now apply (does_drop_delivery wd self proof cell)|].
  intros r wd' _ [_ Ho]. exact (emergency_reaps _ _ _ _ _ Hl Ho).
Qed.

(** ** Every call *)

Abbreviation Sys := (System A W L R).
Implicit Types self : Sys.

(** The permits of a guard are for its launch, the commit guards on its entry. *)
Definition permit_bound guard (permit : RegisteredLaunchPermit L * list nat) : Prop :=
  rl_entry (fst permit) = ps_entry guard /\ ps_launch guard = Some (rl_launch (fst permit)) /\
  Forall (fun held => held = ps_entry guard) (snd permit).

Record lease_bound wd (lease : Lease L R) : Prop := {
  lb_guard : pending_bound wd (ls_guard lease);
  lb_permits : Forall (permit_bound (ls_guard lease)) (ls_permits lease)
}.

Record sys_bound self : Prop := {
  sb_wf : table_wf (sy_table self);
  sb_pending : Forall (lease_bound (sy_table self)) (sy_pending self);
  sb_deliveries : Forall (delivery_bound (sy_table self)) (sy_deliveries self);
  sb_readers : forall location, readers_at (sy_table self) location = held_at location self
}.

Lemma bound_elsewhere wd wd' pending deliveries :
  (forall location handle connection deadline,
     session_at wd location handle connection deadline -> session_at wd' location handle connection deadline) ->
  Forall (lease_bound wd) pending /\ Forall (delivery_bound wd) deliveries ->
  Forall (lease_bound wd') pending /\ Forall (delivery_bound wd') deliveries.
Proof.
  intros Hs [Hp Hd]. split.
  - eapply Forall_impl; [exact Hp|]. intros l [[[d H1] H2 H3 H4] H5]. split; [|done]. split; eauto.
  - eapply Forall_impl; [exact Hd|]. intros d (proof & deadline & Hpr & H). exists proof, deadline. auto.
Qed.

Lemma sys_bound_steps cs self table :
  wsteps cs (sy_table self) table -> sys_bound self -> sys_bound (with_table table self).
Proof.
  intros Hs [Hwf Hp Hd Hr].
  destruct (bound_elsewhere _ table (sy_pending self) (sy_deliveries self)
              (fun _ _ _ _ => wsteps_session _ _ _ _ _ _ _ Hs) (conj Hp Hd)) as [Hp' Hd'].
  split; cbn; [exact (wsteps_wf _ _ _ Hs Hwf)|done|done|].
  intros location. rewrite (wsteps_readers_at _ _ _ _ Hs). apply Hr.
Qed.

(** *** How a call ends the process *)

Definition culprit self (event : WatchdogEvent) : Prop :=
  match event with
  | AuthorityAborted child => authority_aborts B child
  | BorrowConflict location => (0 < held_at location self)%nat
  | _ => False
  end.

Definition crashed (cs : list Z) self wd' : Prop :=
  exists cs' before event, cs' `prefix_of` cs /\ wsteps cs' (sy_table self) before /\
    wd_events wd' = wd_events before ++ [event] /\ culprit self event.

Lemma stopped_crashed cs self wd' : sys_bound self -> stopped cs (sy_table self) wd' -> crashed cs self wd'.
Proof.
  intros Hb (cs' & before & event & Hp & Hs & He & Hc). exists cs', before, event. split_and!; [done..|].
  destruct event; try done. destruct Hc as (cell & Hl & Hr). cbn. rewrite <- (sb_readers self Hb).
  rewrite <- (wsteps_readers_at _ _ _ location Hs). unfold readers_at. now rewrite Hl.
Qed.

Definition performed (cs : list Z) (f : Sys -> res WatchdogStateError unit * Sys) self : Prop :=
  let '(r, self') := f self in
  (r = Panic /\ crashed cs self (sy_table self') /\ (forall location, held_at location self' = held_at location self)) \/
  (r <> Panic /\ wcall cs (sy_table self) (sy_table self') /\ sys_bound self').

Lemma same_performed (f : Sys -> res WatchdogStateError unit * Sys) self : f self = no_call self -> sys_bound self -> performed [] f self.
Proof. unfold performed, no_call. intros -> Hb. right. split; [done|]. split; [apply wc_steps; constructor|done]. Qed.

Lemma on_table_performed {T} cs (m : method T) keep Q self :
  sys_bound self -> does cs m Q (sy_table self) ->
  (forall value table, Q (Ok value) table -> sys_bound (with_table table self) ->
     sys_bound (keep value (with_table table self)) /\ sy_table (keep value (with_table table self)) = table) ->
  performed cs (on_table m keep) self.
Proof.
  intros Hb Hm Hk. destruct (does_elim _ _ _ _ Hm) as (r & table & Hrun & Ho).
  unfold performed, on_table. rewrite Hrun. destruct Ho as [[-> Hst]|(Hr & Hs & HQ)].
  { left. split; [done|]. split; [now apply stopped_crashed|done]. }
  right. pose proof (sys_bound_steps _ _ _ Hs Hb) as Hb'.
  destruct r as [value|error|]; [|split; [done|]; split; [now apply wc_steps|done]|done].
  destruct (Hk value table HQ Hb') as [Hb'' Ht]. rewrite Ht. split; [done|]. split; [now apply wc_steps|done].
Qed.

Lemma keep_nothing {T} (m : method T) Q self :
  sys_bound self -> does [] m Q (sy_table self) -> performed [] (on_table m discard) self.
Proof. intros Hb Hm. now apply (on_table_performed [] m discard Q). Qed.

(** *** The guards *)

Lemma held_set_lease location i old new self :
  sy_pending self !! i = Some old ->
  (held_at location (set_lease i new self) + held_by location old = held_at location self + held_by location new)%nat.
Proof. intros Hi. exact (sum_insert (held_by location) _ i old new Hi). Qed.

Lemma set_lease_bound i old new self :
  sys_bound self -> sy_pending self !! i = Some old -> lease_bound (sy_table self) new ->
  (forall location, held_by location new = held_by location old) -> sys_bound (set_lease i new self).
Proof.
  intros [H1 H2 H3 H4] Hi Hn Hh. split; [done|cbn; now apply Forall_insert|done|].
  change (sy_table (set_lease i new self)) with (sy_table self).
  intros location. rewrite H4. pose proof (held_set_lease location i old new self Hi). rewrite Hh in *. lia.
Qed.

Lemma on_guard_performed {T} i (m : stm (PS * WD) WatchdogStateError T) self :
  sys_bound self ->
  (forall guard, pending_bound (sy_table self) guard ->
     exists r guard' table, m (guard, sy_table self) = (r, (guard', table)) /\ r <> Panic /\
       wsteps [] (sy_table self) table /\ pending_bound table guard') ->
  performed [] (on_guard i m) self.
Proof.
  intros Hb Hm. destruct (sy_pending self !! i) as [[guard [|p ps]]|] eqn:Ei;
    [|apply same_performed; [unfold on_guard; now rewrite Ei|done]..].
  destruct (Forall_lookup_1 _ _ _ _ (sb_pending self Hb) Ei) as [Hg _]. cbn [ls_guard] in Hg.
  destruct (Hm _ Hg) as (r & guard' & table & Hrun & Hr & Hs & Hg').
  unfold performed, on_guard. rewrite Ei, Hrun. right. split; [now destruct r|]. split; [now apply wc_steps|].
  apply (set_lease_bound i {| ls_guard := guard; ls_permits := [] |}); [now apply (sys_bound_steps [])|done| |done].
  now split.
Qed.

Lemma consume_pending_performed {T} i (m : PS -> method T) keep Q self :
  sys_bound self ->
  (forall guard, pending_bound (sy_table self) guard -> does [] (m guard) (Q guard) (sy_table self)) ->
  (forall guard value self', Q guard (Ok value) (sy_table self') -> sys_bound self' ->
     sys_bound (keep value self') /\ sy_table (keep value self') = sy_table self') ->
  performed [] (consume_pending i m keep) self.
Proof.
  intros Hb Hm Hk. destruct (sy_pending self !! i) as [[guard [|p ps]]|] eqn:Ei;
    [|apply same_performed; [unfold consume_pending; now rewrite Ei|done]..].
  destruct (Forall_lookup_1 _ _ _ _ (sb_pending self Hb) Ei) as [Hg _]. cbn [ls_guard] in Hg.
  set (self1 := with_pending (delete i (sy_pending self)) self).
  assert (Hheld : forall location, held_at location self1 = held_at location self).
  { intros location. pose proof (sum_delete (held_by location) _ _ _ Ei) as H. rewrite Nat.add_0_r in H. exact H. }
  assert (Hb' : sys_bound self1).
  { destruct Hb as [H1 H2 H3 H4]. split; [done|cbn; now apply Forall_delete|done|]. intros location. now rewrite Hheld. }
  pose proof (on_table_performed [] (m guard) keep (Q guard) self1 Hb' (Hm _ Hg)) as Hp.
  unfold performed, consume_pending in *. rewrite Ei. fold self1. destruct (on_table (m guard) keep self1) as [r self'].
  destruct Hp as [(Hr & (cs' & before & event & H1 & H2 & H3 & H4) & Hh)|(Hr & Hs & Hb'')].
  - intros value table HQ Hb''. now apply (Hk guard).
  - left. split; [done|]. split; [|intros location; now rewrite Hh].
    exists cs', before, event. split_and!; [done..|]. destruct event; try done. cbn in *. now rewrite <- Hheld.
  - now right.
Qed.

Lemma consume_delivery_performed {T} i (m : PendingReadyDelivery -> method T) self :
  sys_bound self ->
  (forall d, delivery_bound (sy_table self) d -> does [] (m d) (fun _ _ => True) (sy_table self)) ->
  performed [] (consume_delivery i m) self.
Proof.
  intros Hb Hm. destruct (sy_deliveries self !! i) as [d|] eqn:Ei; [|apply same_performed; [unfold consume_delivery; now rewrite Ei|done]].
  pose proof (Forall_lookup_1 _ _ _ _ (sb_deliveries self Hb) Ei) as Hg.
  set (self1 := with_deliveries (delete i (sy_deliveries self)) self).
  assert (Hb' : sys_bound self1).
  { destruct Hb as [H1 H2 H3 H4]. split; cbn; [done..|now apply Forall_delete|done]. }
  pose proof (on_table_performed [] (m d) (fun _ self => self) (fun _ _ => True) self1 Hb' (Hm _ Hg)) as Hp.
  unfold performed, consume_delivery in *. rewrite Ei. apply Hp. now split.
Qed.

Lemma add_delivery_bound (d : PendingReadyDelivery) self :
  delivery_bound (sy_table self) d -> sys_bound self -> sys_bound (add_delivery d self).
Proof. intros Hd [H1 H2 H3 H4]. split; cbn; [done..| |done]. apply Forall_app. split; [done|]. now constructor. Qed.

Lemma add_pending_bound guard self :
  pending_bound (sy_table self) guard -> sys_bound self -> sys_bound (add_pending guard self).
Proof.
  intros Hg [H1 H2 H3 H4]. split; cbn; [done| |done|].
  - apply Forall_app. split; [done|]. constructor; [|done]. now split.
  - intros location. rewrite H4. unfold held_at. cbn. rewrite sum_list_with_app. cbn. lia.
Qed.

(** *** Permits and their commit guards *)

Lemma launch_permit_performed i self :
  sys_bound self ->
  performed [] (on_lease i (launch_permit (F := F)) (fun permit lease =>
    {| ls_guard := ls_guard lease; ls_permits := ls_permits lease ++ [(permit, [])] |})) self.
Proof.
  intros Hb. destruct (sy_pending self !! i) as [lease|] eqn:Ei; [|apply same_performed; [unfold on_lease; now rewrite Ei|done]].
  destruct (Forall_lookup_1 _ _ _ _ (sb_pending self Hb) Ei) as [Hg _].
  pose proof (on_table_performed [] (launch_permit (F := F) (ls_guard lease)) (fun permit => set_lease i
    {| ls_guard := ls_guard lease; ls_permits := ls_permits lease ++ [(permit, [])] |}) _ self Hb
    (launch_permit_does _ _ (sb_wf self Hb) Hg)) as Hp.
  unfold performed, on_lease in *. rewrite Ei. apply Hp. intros permit table [He Hl] Hb'. split; [|done].
  destruct (Forall_lookup_1 _ _ _ _ (sb_pending _ Hb') Ei) as [Hg' Hps].
  apply (set_lease_bound i lease); [done|done| |].
  - split; [done|]. cbn. apply Forall_app. split; [done|]. constructor; [|done]. now split_and!.
  - intros location. unfold held_by. cbn. rewrite sum_list_with_app. cbn. lia.
Qed.

(** A permit whose commit guards change. *)
Definition with_held (k : nat) (permit : RegisteredLaunchPermit L) (held : list nat) (lease : Lease L R) : Lease L R :=
  {| ls_guard := ls_guard lease; ls_permits := <[k := (permit, held)]> (ls_permits lease) |}.

Lemma held_set_permit location i k lease permit held new self :
  sy_pending self !! i = Some lease -> ls_permits lease !! k = Some (permit, held) ->
  (held_at location (set_lease i (with_held k permit new lease) self) + held_in location held
   = held_at location self + held_in location new)%nat.
Proof.
  intros Hi Hk. pose proof (held_set_lease location i lease (with_held k permit new lease) self Hi) as H1.
  pose proof (sum_insert (fun permit => held_in location (snd permit)) (ls_permits lease) k (permit, held) (permit, new) Hk) as H2.
  change (held_by location (with_held k permit new lease) + held_in location held = held_by location lease + held_in location new)%nat in H2.
  lia.
Qed.

Lemma adjusted_bound f location i k lease permit held new self :
  sys_bound self -> sy_pending self !! i = Some lease -> ls_permits lease !! k = Some (permit, held) ->
  location = ps_entry (ls_guard lease) -> Forall (fun g => g = location) new ->
  (forall cell, wd_heap (sy_table self) !! location = Some cell -> (0 < f (cell_readers cell))%nat ->
     we_phase (cell_entry cell) = Starting) ->
  (f (held_at location self) + length held = held_at location self + length new)%nat ->
  sys_bound (set_lease i (with_held k permit new lease) (with_table (adjust_readers f location (sy_table self)) self)).
Proof.
  intros Hb Hi Hk Hloc Hnew Hf Hcount. destruct (Forall_lookup_1 _ _ _ _ (sb_pending self Hb) Hi) as [Hg Hps].
  destruct (Forall_lookup_1 _ _ _ _ Hps Hk) as (Hpe & Hpl & Hheld). cbn [fst snd] in *.
  assert (Hin : forall l, held_in l held = (if decide (l = location) then length held else 0)%nat /\
                          held_in l new = (if decide (l = location) then length new else 0)%nat).
  { assert (Hall : forall l guards, Forall (fun g => g = location) guards ->
      held_in l guards = (if decide (l = location) then length guards else 0)%nat).
    { intros l guards. unfold held_in. induction 1 as [|g gs -> _ IH]; cbn; [now case_decide|]. rewrite IH. repeat case_decide; congruence || lia. }
    intros l. split; apply Hall; [now subst|done]. }
  destruct Hb as [H1 H2 H3 H4].
  destruct (bound_elsewhere _ (adjust_readers f location (sy_table self)) _ _
    (fun _ _ _ _ => adjusted_session f location _ _ _ _ _) (conj H2 H3)) as [H2' H3'].
  split; [now apply adjusted_wf| |exact H3'|].
  - cbn. apply Forall_insert; [exact H2'|]. destruct (Forall_lookup_1 _ _ _ _ H2' Hi) as [Hg' _]. split; [exact Hg'|].
    cbn. apply Forall_insert; [done|]. split_and!; cbn; [done|done|now subst].
  - intros l.
    pose proof (held_set_permit l i k lease permit held new (with_table (adjust_readers f location (sy_table self)) self) Hi Hk) as Hs.
    change (held_at l (with_table _ self)) with (held_at l self) in Hs.
    match type of Hs with (?h + _ = _)%nat => set (after := h) in *; change (readers_at (adjust_readers f location (sy_table self)) l = after) end.
    clearbody after.
    destruct (Hin l) as [E1 E2]. rewrite E1, E2 in Hs. specialize (H4 l). revert H4. unfold readers_at. rewrite lookup_adjusted.
    destruct (wd_heap (sy_table self) !! l) as [cell|] eqn:El; cbn; intros H4.
    + case_decide; subst; [rewrite H4|]; lia.
    + case_decide; [|lia]. subst l. destruct Hg as [[d (cell & Hl & _)] _ _ _]. rewrite <- Hloc in Hl. congruence.
Qed.

Lemma commit_performed i k self :
  sys_bound self ->
  performed [] (on_permit i k (fun permit _ => commit_guard (F := F) permit) (fun g held => held ++ [g])) self.
Proof.
  intros Hb. destruct (sy_pending self !! i) as [lease|] eqn:Ei; [|apply same_performed; [unfold on_permit; now rewrite Ei|done]].
  destruct (ls_permits lease !! k) as [[permit held]|] eqn:Ek;
    [|apply same_performed; [unfold on_permit; now rewrite Ei, Ek|done]].
  destruct (Forall_lookup_1 _ _ _ _ (sb_pending self Hb) Ei) as [[[d Hs] _ Hrg _] Hps].
  destruct (Forall_lookup_1 _ _ _ _ Hps Ek) as (Hpe & Hpl & Hheld). cbn [fst snd] in *.
  destruct (Hrg _ Hpl) as [Hh Hc]. rewrite <- Hpe, <- Hh, <- Hc in Hs.
  destruct (commit_guard_run permit d _ (sb_wf self Hb) Hs) as (r & table & Hrun & Ho).
  unfold performed, on_permit. rewrite Ei, Ek. unfold on_table. rewrite Hrun. destruct r as [g|error|]; cbn [answer].
  - right. destruct Ho as (-> & cell & w & Hl & Ht & ->). split; [done|]. split; [now apply (wc_pin _ cell)|].
    pose proof (sys_bound_steps _ _ _ (world_steps (sy_table self) w) Hb) as Hb'.
    apply (adjusted_bound S (rl_entry permit) i k lease permit held (held ++ [rl_entry permit]) _ Hb'); [done|done|done| |..].
    + apply Forall_app. split; [rewrite Hpe; done|now constructor].
    + cbn. intros c Hc' _. congruence.
    + rewrite length_app. cbn. lia.
  - right. split; [done|]. split; [now apply wc_steps|now apply (sys_bound_steps [])].
  - left. split; [done|]. split; [now apply stopped_crashed|done].
Qed.

Lemma drop_commit_performed i k j self :
  sys_bound self ->
  performed [] (on_permit i k (fun _ held => match held !! j with Some g => drop_commit_guard g | None => sret tt end)
                  (fun _ held => delete j held)) self.
Proof.
  intros Hb. destruct (sy_pending self !! i) as [lease|] eqn:Ei; [|apply same_performed; [unfold on_permit; now rewrite Ei|done]].
  destruct (ls_permits lease !! k) as [[permit held]|] eqn:Ek;
    [|apply same_performed; [unfold on_permit; now rewrite Ei, Ek|done]].
  destruct (Forall_lookup_1 _ _ _ _ (sb_pending self Hb) Ei) as [[[d (cell & Hl & _)] _ _ _] Hps].
  destruct (Forall_lookup_1 _ _ _ _ Hps Ek) as (Hpe & Hpl & Hheld). cbn [fst snd] in *.
  unfold performed, on_permit. rewrite Ei, Ek. destruct (held !! j) as [g|] eqn:Ej.
  - pose proof (Forall_lookup_1 _ _ _ _ Hheld Ej) as ->.
    assert (Hlen : (length (delete j held) + 1 = length held)%nat)
      by (pose proof (length_delete held j (mk_is_Some _ _ Ej)); pose proof (lookup_lt_Some _ _ _ Ej); lia).
    assert (Hpos : (length held <= held_at (ps_entry (ls_guard lease)) self)%nat).
    { pose proof (held_set_permit (ps_entry (ls_guard lease)) i k lease permit held [] self Ei Ek) as H1.
      assert (held_in (ps_entry (ls_guard lease)) held = length held) as H2; [|cbn in H1; lia].
      clear - Hheld. induction Hheld as [|g gs -> _ IH]; cbn; [done|]. rewrite decide_True by done. unfold held_in in IH. now rewrite IH. }
    right. unfold on_table, drop_commit_guard, smodify, answer. split; [done|]. split.
    + apply (wc_unpin _ cell); [done|]. pose proof (sb_readers self Hb (ps_entry (ls_guard lease))) as H.
      unfold readers_at in H. rewrite Hl in H. lia.
    + apply (adjusted_bound pred (ps_entry (ls_guard lease)) i k lease permit held (delete j held) _ Hb); [done|done|done| |..].
      * now apply Forall_delete.
      * intros c Hc Hr. destruct (tw_entry _ (sb_wf self Hb) _ _ Hc) as (H & _). apply H. lia.
      * lia.
  - right. split; [done|]. split; [apply wc_steps; constructor|]. cbn.
    apply (set_lease_bound i lease); [apply (sys_bound_steps [] self); [constructor|done]|done| |].
    + pose proof (Forall_lookup_1 _ _ _ _ (sb_pending self Hb) Ei) as [Hg _]. split; [exact Hg|].
      cbn. apply Forall_insert; [done|]. split_and!; cbn; [done|done|now apply Forall_delete].
    + intros location. unfold held_by. cbn. rewrite list_insert_id; [done|]. rewrite Ek. do 2 f_equal.
      apply lookup_ge_None in Ej. now rewrite delete_take_drop, take_ge, drop_ge, app_nil_r by lia.
Qed.

Lemma drop_permit_performed i k self : sys_bound self -> performed [] (drop_permit i k) self.
Proof.
  intros Hb. destruct (sy_pending self !! i) as [lease|] eqn:Ei; [|apply same_performed; [unfold drop_permit; now rewrite Ei|done]].
  destruct (ls_permits lease !! k) as [[permit [|g held]]|] eqn:Ek;
    [|apply same_performed; [unfold drop_permit; now rewrite Ei, Ek|done]..].
  unfold performed, drop_permit. rewrite Ei, Ek. right. split; [done|]. split; [apply wc_steps; constructor|].
  destruct (Forall_lookup_1 _ _ _ _ (sb_pending self Hb) Ei) as [Hg Hps].
  apply (set_lease_bound i lease); [done|done| |].
  - split; [done|]. cbn. now apply Forall_delete.
  - intros location. pose proof (sum_delete (fun permit => held_in location (snd permit)) _ _ _ Ek) as H.
    rewrite Nat.add_0_r in H. exact H.
Qed.

Lemma bind_trace_bound (trace : TraceEstablished) guard wd :
  pending_bound wd guard -> pending_bound wd (snd (bind_trace trace guard)).
Proof.
  intros Hb. unfold bind_trace, sbind, sget. destruct (_ || _) eqn:E; [done|].
  apply orb_false_iff in E as [[_ E2]%orb_false_iff E3]. destruct Hb as [H1 H2 H3 H4]. split; cbn; auto.
  intros t [= <-]. rewrite negb_false_iff, bool_decide_eq_true in E2. split; [done|lia].
Qed.

Lemma perform_performed (op : Op A L R M) self : sys_bound self -> performed (brought op) (perform (F := F) op) self.
Proof.
  intros Hb. pose proof (sb_wf self Hb) as Hwf.
  destruct op as [session launch child report|i|i k|i k j|i k|i report|i|i trace|i|i|i|i|i send|i|trace|h c|h c|h|h|h|proof];
    cbn [perform brought].
  - eapply on_table_performed; [done|now apply register_armed_does|]. cbn beta.
    intros guard table (Hh & Hc & Harm & Htr & Hre & Hla & Hs) Hb'. split; [|done].
    apply add_pending_bound; [|done]. split; [eauto|done| |].
    + intros l Hl. rewrite Hla in Hl. now injection Hl as <-.
    + intros t Ht. congruence.
  - now apply launch_permit_performed.
  - now apply commit_performed.
  - now apply drop_commit_performed.
  - now apply drop_permit_performed.
  - apply on_guard_performed; [done|]. intros guard Hg.
    destruct (report_open_does guard _ (fun _ => let! _ := (let! (self, _) := sget in
      slift (ok_or (ps_report self) Watchdog_InvalidTransition)) in on_self (smodify (with_report (Some report)))) Hwf Hg)
      as (r & guard' & table & Hrun & Hrest).
    + intros wd' _ Hs. pose proof (pending_bound_steps _ _ _ _ Hs Hg) as [H1 H2 H3 H4].
      unfold sbind, sget, slift. destruct (ps_report guard); (eexists _, _; split; [reflexivity|]; now split).
    + exists r, guard', table. split; [|done]. unfold report_mut. now rewrite sbind_assoc.
  - apply on_guard_performed; [done|]. intros guard Hg. apply (report_open_does guard _ _ Hwf Hg).
    intros wd' _ Hs. pose proof (pending_bound_steps _ _ _ _ Hs Hg) as [H1 H2 H3 H4].
    unfold sbind, sget, slift. destruct (ps_report guard); (eexists _, _; split; [reflexivity|]; now split).
  - apply on_guard_performed; [done|]. intros guard Hg.
    destruct (bind_trace trace guard) as [r guard'] eqn:Et.
    exists (Ok tt), guard', (sy_table self). split_and!; [done|done|constructor|].
    pose proof (bind_trace_bound trace guard _ Hg) as Hg'. now rewrite Et in Hg'.
  - apply on_guard_performed; [done|]. intros guard [H1 H2 H3 H4].
    exists (Ok tt), (mark_protocol_violation guard), (sy_table self). split_and!; try done; constructor.
  - apply on_guard_performed; [done|]. intros guard [H1 H2 H3 H4].
    exists (Ok tt), (mark_deadline_expired guard), (sy_table self). split_and!; try done; constructor.
  - eapply consume_pending_performed; [done|intros guard Hg; now apply mark_traced_guard_does|].
    intros guard d self' Hd Hb'. split; [|done]. now apply add_delivery_bound.
  - eapply consume_pending_performed; [done|intros guard Hg; now apply drop_pending_does|]. now split.
  - apply consume_delivery_performed; [done|]. intros d (proof & dl & Hp & cell & Hl & Hh & Hc & _).
    eapply does_mono; [now apply (deliver_does d proof cell)|done].
  - apply consume_delivery_performed; [done|]. intros d Hd. eapply does_mono; [now apply drop_delivery_does|done].
  - eapply on_table_performed; [done|now apply table_mark_traced_does|]. cbn beta.
    intros d table Ho Hb'. split; [|done]. destruct Ho as [Heq (cell & Hl & _ & Hh & Hc)].
    apply add_delivery_bound; [|done]. exists (ready_proof trace), (we_deadline (cell_entry cell)).
    rewrite Heq. split; [done|]. exists cell. rewrite Heq in Hl. now split_and!.
  - eapply keep_nothing; [done|]. now apply terminate_for_client_does.
  - eapply keep_nothing; [done|]. now apply terminate_for_client_does.
  - eapply keep_nothing; [done|]. now apply terminate_for_deadline_does.
  - eapply keep_nothing; [done|]. now apply terminate_internal_does.
  - eapply keep_nothing; [done|]. now apply terminate_internal_does.
  - eapply keep_nothing; [done|]. now apply terminate_undelivered_does.
Qed.

End Safety.
