(* ===== verification/WatchdogClaims.v ===== *)
(** * WatchdogClaims: what the watchdog guarantees to the service

    Every theorem is about an arbitrary sequence of calls from an empty table.
    The process may be ended by a call, in two ways, which the theorems name: an
    authority that cannot reap its child ended it, or a commit guard was held on
    an entry that had to change. *)

From stdpp Require Import gmap fin_maps.
From S2P Require Import Prelude Tools Native SupervisorWire Supervisor BrokerReport Watchdog WatchdogGuards WatchdogSteps WatchdogInv WatchdogTheory WatchdogMethods WatchdogDelivery WatchdogSystem.

Section Claims.
Context {A W F L R M X : Type} {B : ExactBrokerAuthority A W F} {BL : AuthorityLaws B} {C : Clock W}
  {EF : RegisteredLaunchEffect L} {N : NonblockingReadySend M W X} {NL : SendLaws N}.

Abbreviation WD := (WatchdogTable A W).
Abbreviation Sys := (System A W L R).
Implicit Types (wd : WD) (self : Sys) (ops : list (Op A L R M)).

Abbreviation children ops := (concat (map brought ops)).

(** ** Runs *)

(** The children given before the last call, and what it did before the end. *)
Definition run_crashed ops self : Prop :=
  exists given before event, given `prefix_of` children ops /\ wd_ok given before /\
    wd_events (sy_table self) = wd_events before ++ [event] /\ culprit self event.

Lemma prefix_nodup {T} (l1 l2 : list T) : l1 `prefix_of` l2 -> NoDup l2 -> NoDup l1.
Proof. intros [k ->] H. now apply NoDup_app in H as [H _]. Qed.

Lemma run_bound ops self rs self' :
  sys_bound self -> run (F := F) ops self = (rs, self') -> Panic ∉ rs -> sys_bound self'.
Proof.
  revert self rs. induction ops as [|op ops IH]; intros self rs Hb Hrun Hrs; cbn in Hrun; [now injection Hrun as <- <-|].
  pose proof (perform_performed (F := F) op self Hb) as Hp. unfold performed in Hp.
  destruct (perform op self) as [r self1]. destruct Hp as [(-> & _)|(Hr & _ & Hb1)].
  - injection Hrun as <- <-. destruct Hrs. now left.
  - destruct r; [| |done]; destruct (run ops self1) as [rs' self2] eqn:Erun; injection Hrun as <- <-;
      (apply (IH _ _ Hb1 Erun); set_solver).
Qed.

Lemma run_ok before ops self rs self' :
  NoDup (before ++ children ops) -> sys_bound self -> wd_ok before (sy_table self) -> run (F := F) ops self = (rs, self') ->
  (Panic ∉ rs /\ wd_ok (before ++ children ops) (sy_table self') /\ sys_bound self') \/
  (Panic ∈ rs /\ exists given wd event, given `prefix_of` children ops /\ wd_ok (before ++ given) wd /\
     wd_events (sy_table self') = wd_events wd ++ [event] /\ culprit self' event).
Proof.
  revert before self rs. induction ops as [|op ops IH]; intros before self rs Hnd Hb Hok Hrun; cbn in Hrun.
  - injection Hrun as <- <-. left. split; [set_solver|]. now rewrite app_nil_r.
  - pose proof (perform_performed (F := F) op self Hb) as Hp. unfold performed in Hp. cbn in Hnd |- *.
    destruct (perform op self) as [r self1]. destruct Hp as [(-> & (cs & wd & event & Hpre & Hs & He & Hc) & Hheld)|(Hr & Hs & Hb1)].
    + injection Hrun as <- <-. right. split; [now left|]. exists cs, wd, event.
      split; [now apply prefix_app_r|]. split_and!; [|done|].
      * apply (wsteps_ok _ _ _ _ Hs); [|done]. apply (prefix_nodup _ _ (prefix_app before _ _ (prefix_app_r _ _ _ Hpre)) Hnd).
      * destruct event; try done. cbn in *. now rewrite Hheld.
    + assert (Hok1 : wd_ok (before ++ brought op) (sy_table self1)).
      { apply (wcall_ok _ _ _ _ Hs); [|done]. rewrite app_assoc in Hnd. now apply NoDup_app in Hnd as [Hnd _]. }
      rewrite app_assoc in Hnd |- *.
      assert (Hrest : exists rs', rs = r :: rs' /\ run (F := F) ops self1 = (rs', self')).
      { destruct r; [| |done]; destruct (run ops self1); injection Hrun as <- <-; eauto. }
      destruct Hrest as (rs' & -> & Erun).
      destruct (IH _ _ _ Hnd Hb1 Hok1 Erun) as [(Hrs & Hok2 & Hb2)|(Hrs & given & wd & event & Hpre & Hwd & He & Hc)].
      * left. split; [set_solver|done].
      * right. split; [now right|]. exists (brought op ++ given), wd, event. rewrite app_assoc. split; [now apply prefix_app|done].
Qed.

Lemma new_bound w : sys_bound (System_new w : Sys).
Proof. split; cbn; [|constructor|constructor|done]. apply (wo_wf [] _). apply new_table_ok. Qed.

Lemma run_new ops w rs self :
  NoDup (children ops) -> run (F := F) ops (System_new w) = (rs, self) ->
  (Panic ∉ rs /\ wd_ok (children ops) (sy_table self) /\ sys_bound self) \/ (Panic ∈ rs /\ run_crashed ops self).
Proof. intros Hnd Hrun. exact (run_ok [] _ _ _ _ Hnd (new_bound w) (new_table_ok w) Hrun). Qed.

(** ** Shutting down *)

Lemma wsteps_reaped cs wd wd' location : wsteps cs wd wd' -> reaped_at wd location -> reaped_at wd' location.
Proof.
  induction 1 as [|cs label wd1 wd2 wd3 _ IH Hs]; [done|]. intros Hr. destruct (IH Hr) as (c & Hc & Hph).
  destruct Hs as [| |l cell e b b' wd Hl Hf Ha He Hready Hsame| l cell b event reason wd Hl| |h l e b wd Hfree| |l cell resumes w wd Hl Hf Ht];
    try (now exists c).
  all: destruct (decide (location = l)) as [->|Hne]; [|exists c; split; [cbn; now rewrite lookup_insert_ne by done|done]].
  - assert (c = cell) as -> by congruence. now destruct (we_phase (cell_entry cell)).
  - eexists. split; [apply lookup_insert_eq|done].
  - congruence.
  - assert (c = cell) as -> by congruence. now rewrite Ht in Hph.
Qed.

Lemma does_drop_entry {E} wd h loc :
  table_wf wd -> wd_live wd !! h = Some loc ->
  does [] (drop_entry (F := F) (E := E) (h, loc) tt)
    (fun r wd' => r = Ok tt /\ wd_live wd' = wd_live wd /\ reaped_at wd' loc) wd.
Proof.
  intros Hwf Hp. destruct (live_entry _ _ _ Hwf Hp) as (cell & Hc & _ & Hphase).
  unfold drop_entry. apply (does_same _ _ _ _ _ (cell_entry cell)); [now apply borrow_run|]. cbn [snd].
  destruct Hphase as [Hr|Ha].
  - rewrite reaped_branch by done. apply does_ret. split_and!; [done|done|now exists cell].
  - rewrite active_branch by done. eapply does_mono; [now apply emergency_does|]. intros r wd' _ [-> Ho].
    split; [done|]. split; [|exact (emergency_reaps _ _ _ _ _ Hc Ho)]. now destruct Ho as [[_ ->]|(_ & b & w' & _ & ->)].
Qed.

Lemma does_drop_loop {E} l wd :
  table_wf wd -> Forall (fun p => wd_live wd !! fst p = Some (snd p)) l ->
  does [] (sfor l (drop_entry (F := F) (E := E)) tt)
    (fun r wd' => r = Ok tt /\ wd_live wd' = wd_live wd /\ Forall (fun p => reaped_at wd' (snd p)) l) wd.
Proof.
  revert wd. induction l as [|[h loc] l IH]; intros wd Hwf Hl; cbn [sfor]; [now apply does_ret|].
  apply Forall_cons in Hl as [Hp Hl]. eapply does_bind; [now apply does_drop_entry| |now intros error wd' _ [[=] _]].
  intros [] wd1 Hs1 (_ & Hlive & Hr). eapply does_mono; [apply IH; [exact (wsteps_wf _ _ _ Hs1 Hwf)|now rewrite Hlive]|].
  intros r wd2 Hs2 (-> & Hlive2 & Hall). split_and!; [done|congruence|]. constructor; [|done]. exact (wsteps_reaped _ _ _ _ Hs2 Hr).
Qed.

Lemma does_drop_table {E} wd : table_wf wd ->
  does [] (drop_table (F := F) (E := E))
    (fun r wd' => r = Ok tt /\
       forall location cell, wd_heap wd' !! location = Some cell -> is_reaped (we_phase (cell_entry cell)) = true) wd.
Proof.
  intros Hwf. apply (does_same _ _ _ _ _ wd); [done|]. eapply does_mono; [apply does_drop_loop; [done|]|].
  { apply Forall_forall. intros [h l] Hel. now apply elem_of_map_to_list in Hel. }
  intros r wd' Hs (-> & Hlive & Hall). split; [done|]. intros location cell Hl.
  destruct (tw_entry wd' (wsteps_wf _ _ _ Hs Hwf) _ _ Hl) as (_ & _ & [Hp|[Hr _]]); [|done].
  rewrite Hlive in Hp. rewrite Forall_forall in Hall.
  destruct (Hall (we_handle (cell_entry cell), location)) as (c & Hc & Hr); [now apply elem_of_map_to_list|].
  cbn in Hc. congruence.
Qed.

(** When every session is reaped no guard is held, and a guard that is dropped does nothing. *)
Lemma reaped_table wd :
  table_wf wd -> (forall location cell, wd_heap wd !! location = Some cell -> is_reaped (we_phase (cell_entry cell)) = true) ->
  (forall location, readers_at wd location = 0%nat) /\
  (forall location handle connection deadline reason, session_at wd location handle connection deadline ->
     emergency_terminate_entry (F := F) (E := WatchdogStateError) location handle connection reason wd = (Ok tt, wd)).
Proof.
  intros Hwf Hall.
  assert (Hr : forall location cell, wd_heap wd !! location = Some cell -> cell_readers cell = 0%nat).
  { intros location cell Hl. destruct (tw_entry wd Hwf _ _ Hl) as (H & _). destruct (cell_readers cell); [done|].
    pose proof (Hall _ _ Hl) as Hp. rewrite H in Hp by lia. done. }
  split.
  - intros location. unfold readers_at. destruct (wd_heap wd !! location) as [cell|] eqn:El; [exact (Hr _ _ El)|done].
  - intros location handle connection deadline reason (cell & Hl & <- & <- & _). unfold emergency_terminate_entry.
    rewrite (sbind_Ok _ _ _ (cell_entry cell) wd) by (apply borrow_mut_run; [done|exact (Hr _ _ Hl)]).
    rewrite bool_decide_true, Z.eqb_refl by done. cbn [negb orb]. now rewrite reaped_branch by exact (Hall _ _ Hl).
Qed.

(** ** The guarantees *)

(** C9: Whatever the service calls, in whatever order, each child handed to the
    watchdog is either owned by exactly one session and not reaped, or reaped
    exactly once and owned by none, and children it was never given are never
    touched. If a call ends the process, this held of the children given so far
    up to the event that ended it, which is an authority that aborted, or a
    change of an entry on which the service holds a commit guard. *)
Theorem children_accounted ops w rs self :
  NoDup (children ops) -> run (F := F) ops (System_new w) = (rs, self) ->
  (Panic ∉ rs ->
     (forall child, child ∈ children ops -> held (sy_table self) child \/ gone 1 (sy_table self) child) /\
     (forall child, child ∉ children ops -> gone 0 (sy_table self) child)) /\
  (Panic ∈ rs -> exists given before event,
     given `prefix_of` children ops /\
     (forall child, child ∈ given -> held before child \/ gone 1 before child) /\
     (forall child, child ∉ given -> gone 0 before child) /\
     wd_events (sy_table self) = wd_events before ++ [event] /\
     match event with
     | AuthorityAborted child => authority_aborts B child
     | BorrowConflict location => (0 < held_at location self)%nat
     | _ => False
     end).
Proof.
  intros Hnd Hrun. destruct (run_new _ _ _ _ Hnd Hrun) as [(Hrs & [_ [H1 H2] _] & _)|(Hrs & given & before & event & Hpre & [_ [H1 H2] _] & He & Hc)].
  - split; [done|]. intros H. now destruct (Hrs H).
  - split; [intros H; now destruct (H Hrs)|]. intros _. exists given, before, event. now split_and!.
Qed.

(** C38: After any calls the table is well formed: the live map and the
    tombstones are disjoint and bounded by 64 sessions and 4096 handles, an
    entry is borrowed by exactly the commit guards that the service holds on it
    and is then starting, an entry that is not reaped owns an armed child and
    is live under its own handle, a reaped one owns nothing and its handle is
    never live for another session, and no two sessions have one handle. *)
Theorem table_well_formed ops w rs self :
  run (F := F) ops (System_new w) = (rs, self) -> Panic ∉ rs ->
  table_wf (sy_table self) /\
  forall location cell, wd_heap (sy_table self) !! location = Some cell -> cell_readers cell = held_at location self.
Proof.
  intros Hrun Hrs. destruct (run_bound _ _ _ _ (new_bound w) Hrun Hrs) as [Hwf _ _ Hr]. split; [exact Hwf|].
  intros location cell Hl. rewrite <- Hr. unfold readers_at. now rewrite Hl.
Qed.

(** C31: Every call of the service, from any state it can reach, is a sequence
    of the steps of the abstract watchdog that brings exactly the children of
    the call, or it takes or drops one commit guard. It ends the process, after
    some of those steps, only with an authority that aborts, or where it has to
    change an entry on which the service holds a commit guard. *)
Theorem calls_refine_steps ops w rs self op :
  run (F := F) ops (System_new w) = (rs, self) -> Panic ∉ rs ->
  let '(r, self') := perform (F := F) op self in
  (r <> Panic -> wcall (brought op) (sy_table self) (sy_table self')) /\
  (r = Panic -> crashed (brought op) self (sy_table self')).
Proof.
  intros Hrun Hrs. pose proof (run_bound _ _ _ _ (new_bound w) Hrun Hrs) as Hb.
  pose proof (perform_performed (F := F) op self Hb) as Hp. unfold performed in Hp.
  destruct (perform op self) as [r self']. now destruct Hp as [(-> & Hc & _)|(Hr & Hs & _)].
Qed.

(** A session is Ready only if it was committed; a session is committed at
    most once, only while it is Traced, and only after its Ready reply was sent
    successfully: a session that is still starting or traced was not committed. *)
Theorem ready_only_after_reply ops w rs self :
  NoDup (children ops) -> run (F := F) ops (System_new w) = (rs, self) -> Panic ∉ rs ->
  let table := sy_table self in
  sent_first (wd_events table) /\ NoDup (commits (wd_events table)) /\
  forall location cell, wd_heap table !! location = Some cell ->
    let committed := we_handle (cell_entry cell) ∈ commits (wd_events table) in
    (we_phase (cell_entry cell) = ReadyCommitted -> committed) /\
    (we_phase (cell_entry cell) = Starting \/ we_phase (cell_entry cell) = Traced -> ~ committed).
Proof.
  intros Hnd Hrun Hrs. destruct (run_new _ _ _ _ Hnd Hrun) as [(_ & [_ _ [H1 H2 H3 H4 H5]] & _)|[H _]]; [|done].
  split; [done|]. split; [done|]. intros location cell Hl. split; [now apply (H1 location)|now apply (H2 location)].
Qed.

(** C10: Delivering the Ready reply of any guard the service holds answers,
    records and leaves the session exactly as the decision table says: the
    session becomes Ready only if it is traced, the deadline has not passed,
    the one send succeeded and the broker was resumed; on every other path the
    exact child is reaped before the call returns, or the process ends because
    the child's authority aborts or a commit guard is held on the entry. *)
Theorem delivery_exact ops w rs self i d send :
  run (F := F) ops (System_new w) = (rs, self) -> Panic ∉ rs -> sy_deliveries self !! i = Some d ->
  exists proof cell,
    pd_proof d = Some proof /\ wd_heap (sy_table self) !! pd_entry d = Some cell /\
    we_handle (cell_entry cell) = rp_handle proof /\ we_connection (cell_entry cell) = rp_connection proof /\
    let '(r, table) := deliver (F := F) d send (sy_table self) in
    (r <> Panic -> delivery_outcome d proof cell send (sy_table self) r table) /\
    (r = Panic -> crashed [] self table).
Proof.
  intros Hrun Hrs Hd. pose proof (run_bound _ _ _ _ (new_bound w) Hrun Hrs) as Hb. pose proof Hb as [Hwf _ Hds _].
  destruct (Forall_lookup_1 _ _ _ _ Hds Hd) as (proof & deadline & Hp & cell & Hl & Hh & Hc & _).
  exists proof, cell. split_and!; [done..|].
  destruct (does_elim _ _ _ _ (deliver_does (F := F) d proof cell send _ Hwf Hp Hl Hh Hc)) as (r & table & -> & [[-> Hst]|(Hr & _ & Ho)]).
  - split; [done|]. intros _. now apply stopped_crashed.
  - now split.
Qed.

(** A client can end its own session only: another connection's request
    changes nothing, an unknown handle is refused, and otherwise the exact
    child is reaped once and the handle becomes a tombstone, or the failure
    keeps the child with the session under the first recorded reason. *)
Theorem client_termination_exact ops w rs self handle connection :
  run (F := F) ops (System_new w) = (rs, self) -> Panic ∉ rs ->
  let '(r, table) := terminate_for_client_request (F := F) handle connection (sy_table self) in
  (r <> Panic -> client_termination (F := F) handle connection ClientRequested (sy_table self) r table) /\
  (r = Panic -> crashed [] self table).
Proof.
  intros Hrun Hrs. pose proof (run_bound _ _ _ _ (new_bound w) Hrun Hrs) as Hb.
  destruct (does_elim _ _ _ _ (terminate_for_client_does (F := F) handle connection ClientRequested _ (sb_wf _ Hb)))
    as (r & table & Hr & Ho).
  unfold terminate_for_client_request. rewrite Hr. destruct Ho as [[-> Hst]|(Hnp & _ & Ho)]; [|now split].
  split; [done|]. intros _. now apply stopped_crashed.
Qed.

(** C30: When the service drops its table, after any calls, every child it was
    ever given has been reaped exactly once when the drop completes; no commit
    guard is held then, and the guards that outlive the table do nothing. The
    drop fails only by the end of the process: the authority of a child aborts
    because it cannot reap, or a commit guard is held on an entry. *)
Theorem shutdown_reaps_every_child ops w rs self :
  NoDup (children ops) -> run (F := F) ops (System_new w) = (rs, self) -> Panic ∉ rs ->
  let '(r, table) := drop_table (F := F) (E := WatchdogStateError) (sy_table self) in
  (r = Ok tt /\
   (forall child, child ∈ children ops -> gone 1 table child) /\
   (forall child, child ∉ children ops -> gone 0 table child) /\
   (forall location, held_at location self = 0%nat) /\
   Forall (fun lease => drop_pending (F := F) (E := WatchdogStateError) (ls_guard lease) table = (Ok tt, table)) (sy_pending self) /\
   Forall (fun d => drop_delivery (F := F) (E := WatchdogStateError) d table = (Ok tt, table)) (sy_deliveries self)) \/
  (r = Panic /\ crashed [] self table).
Proof.
  intros Hnd Hrun Hrs. destruct (run_new _ _ _ _ Hnd Hrun) as [(_ & Hok & Hb)|[H _]]; [|done]. pose proof Hb as [Hwf Hp Hd Hr].
  destruct (does_elim _ _ _ _ (does_drop_table (E := WatchdogStateError) (sy_table self) Hwf))
    as (r & table & -> & [[-> Hst]|(_ & Hs & -> & Hall)]); [right; split; [done|now apply stopped_crashed]|left].
  pose proof (wsteps_ok (children ops) [] _ _ Hs) as Hok'. rewrite app_nil_r in Hok'. destruct (Hok' Hnd Hok) as [Hwf' Hac _].
  destruct (reaped_table _ Hwf' Hall) as [Hfree Hnothing]. split_and!; [done| |exact (ac_other _ _ Hac)| | |].
  - intros child Hin. destruct (ac_brought _ _ Hac child Hin) as [[_ (l & (cell & b & Hl & Hb' & _) & _)]|H]; [|done].
    destruct (tw_entry table Hwf' _ _ Hl) as (_ & [[_ Hn]|[Ha _]] & _); [congruence|].
    pose proof (Hall _ _ Hl). now destruct (we_phase (cell_entry cell)).
  - intros location. rewrite <- Hr, <- (wsteps_readers_at _ _ _ _ Hs). apply Hfree.
  - eapply Forall_impl; [exact Hp|]. intros l [[[deadline Hs'] Harm _ _] _]. unfold drop_pending. rewrite Harm.
    apply (Hnothing _ _ _ deadline). now apply (wsteps_session _ _ _ _ _ _ _ Hs).
  - eapply Forall_impl; [exact Hd|]. intros d (proof & deadline & Hpr & Hs'). unfold drop_delivery. rewrite Hpr.
    apply (Hnothing _ _ _ deadline). now apply (wsteps_session _ _ _ _ _ _ _ Hs).
Qed.

End Claims.

(** * A service with two sessions

    A platform whose children may refuse their first termination, or resist
    altogether, a send that can be told to fail; the theorems of
    [WatchdogClaims.v] at runs of it. *)

#[local] Instance ticking : Clock nat := { instant_now w := (Z.of_nat w, S w); instant_max := U64_MAX }.

(** What a child does when it is to be reaped. *)
Inductive Manner := Obeys | ResistsOnce | Unreapable.

#[local] Instance platform : ExactBrokerAuthority (Z * Manner) nat unit := {|
  exact_child := fst;
  activate_after_registration s := (Ok tt, s);
  terminate_and_reap _ s :=
    let '((child, manner), w) := s in
    match manner with
    | Obeys => (Ok tt, s)
    | ResistsOnce => (Err tt, ((child, Obeys), w))
    | Unreapable => (Err tt, s)
    end;
  emergency_terminate_and_reap _ s := match s with ((_, Unreapable), _) => (Panic, s) | _ => (Ok tt, s) end
|}.
#[local] Instance platform_laws : AuthorityLaws platform.
Proof.
  split.
  - intros a w r a' w' [= _ -> _] _. done.
  - intros reason [child []] w r [child' manner'] w' [=] _; now subst.
Defined.

#[local] Instance launches : RegisteredLaunchEffect (Z * Z) := { connection_identity := fst; launch_deadline := snd }.

#[local] Instance sends : NonblockingReadySend bool nat unit := {|
  send_cleanup_reason _ := SpawnResultUndeliverable;
  send_once send _ _ _ w := if (send : bool) then (Ok tt, w) else (Err tt, w)
|}.
#[local] Instance sends_laws : SendLaws sends.
Proof. intros [] handle connection deadline w; [now exists (Ok tt), w|now exists (Err tt), w]. Defined.

Abbreviation Call := (Op (Z * Manner) (Z * Z) unit bool).

Definition first_session : bytes := replicate 32 x0a.
Definition second_session : bytes := replicate 32 x0b.
Definition first_trace : TraceEstablished := {| te_handle := first_session; te_connection := 7; te_resume := None |}.

(** The first session is launched under a commit guard and traced; the second
    client cannot end the first one, and its own child resists. *)
Definition calls : list Call :=
  [OpRegister first_session (7, 1000) (101, Obeys) tt; OpRegister second_session (8, 1000) (102, ResistsOnce) tt;
   OpLaunchPermit 0; OpCommitGuard 0 0; OpDropCommitGuard 0 0 0; OpDropPermit 0 0;
   OpBindTrace 0 first_trace; OpMarkTraced 0;
   OpTerminateForRequest first_session 8; OpTerminateForRequest second_session 8].

Definition calls_and_delivery : list Call := calls ++ [OpDeliver 0 true].

(** The client ends its session while the launch is being committed; a child
    that cannot be reaped is abandoned. *)
Definition conflicting_calls : list Call :=
  [OpRegister first_session (7, 1000) (101, Obeys) tt; OpLaunchPermit 0; OpCommitGuard 0 0; OpTerminateForRequest first_session 7].
Definition unreapable_calls : list Call := [OpRegister first_session (7, 1000) (101, Unreapable) tt; OpDropPending 0].

Definition after (ops : list Call) := run (F := unit) ops (System_new 0%nat).

Lemma brought_distinct : NoDup (concat (map brought calls_and_delivery)).
Proof. cbn. repeat (constructor; [set_solver|]). constructor. Qed.

Lemma both_brought : 101 ∈ concat (map brought calls_and_delivery) /\ 102 ∈ concat (map brought calls_and_delivery) /\
  103 ∉ concat (map brought calls_and_delivery).
Proof. cbn. split_and!; set_solver. Qed.

Lemma one_brought : NoDup (concat (map brought conflicting_calls)) /\ NoDup (concat (map brought unreapable_calls)).
Proof. cbn. split; repeat (constructor; [set_solver|]); constructor. Qed.

Lemma calls_run :
  fst (after calls_and_delivery)
  = replicate 8 (Ok tt) ++ [Err Watchdog_WrongConnection; Ok tt; Ok tt] /\
  fst (after conflicting_calls) = [Ok tt; Ok tt; Ok tt; Panic] /\
  fst (after unreapable_calls) = [Ok tt; Panic].
Proof. vm_compute. auto. Qed.

Lemma no_abort : Panic ∉ fst (after calls_and_delivery) /\ Panic ∉ fst (after calls).
Proof.
  split; [rewrite (proj1 calls_run); cbn; set_solver|].
  replace (fst (after calls)) with (replicate 8 (Ok (E := WatchdogStateError) tt) ++ [Err Watchdog_WrongConnection; Ok tt]) by (vm_compute; reflexivity).
  cbn. set_solver.
Qed.

Lemma aborts : Panic ∈ fst (after conflicting_calls) /\ Panic ∈ fst (after unreapable_calls).
Proof. rewrite (proj1 (proj2 calls_run)), (proj2 (proj2 calls_run)). split; set_solver. Qed.

Lemma children_accounted_witness :
  (held (sy_table (snd (after calls_and_delivery))) 101 \/ gone 1 (sy_table (snd (after calls_and_delivery))) 101) /\
  gone 0 (sy_table (snd (after calls_and_delivery))) 103 /\
  last (wd_events (sy_table (snd (after conflicting_calls)))) = Some (BorrowConflict 0) /\
  (exists given before event, given `prefix_of` [101] /\
     wd_events (sy_table (snd (after conflicting_calls))) = wd_events before ++ [event] /\
     (forall child, child ∉ given -> gone 0 before child)) /\
  last (wd_events (sy_table (snd (after unreapable_calls)))) = Some (AuthorityAborted 101) /\
  (exists given before event, given `prefix_of` [101] /\
     wd_events (sy_table (snd (after unreapable_calls))) = wd_events before ++ [event] /\
     (forall child, child ∉ given -> gone 0 before child)).
Proof.
  destruct (children_accounted calls_and_delivery (0%nat) (fst (after calls_and_delivery)) (snd (after calls_and_delivery))
    brought_distinct (surjective_pairing _)) as [H _]. destruct (H (proj1 no_abort)) as [H1 H2].
  destruct (children_accounted conflicting_calls (0%nat) (fst (after conflicting_calls)) (snd (after conflicting_calls))
    (proj1 one_brought) (surjective_pairing _)) as [_ H3]. destruct (H3 (proj1 aborts)) as (g1 & b1 & e1 & P1 & _ & Q1 & R1 & _).
  destruct (children_accounted unreapable_calls (0%nat) (fst (after unreapable_calls)) (snd (after unreapable_calls))
    (proj2 one_brought) (surjective_pairing _)) as [_ H4]. destruct (H4 (proj2 aborts)) as (g2 & b2 & e2 & P2 & _ & Q2 & R2 & _).
  split; [exact (H1 101 (proj1 both_brought))|]. split; [exact (H2 103 (proj2 (proj2 both_brought)))|].
  split; [vm_compute; reflexivity|]. split; [exists g1, b1, e1; exact (conj P1 (conj R1 Q1))|]. split; [vm_compute; reflexivity|]. exists g2, b2, e2. exact (conj P2 (conj R2 Q2)).
Defined.

Lemma table_well_formed_witness :
  size (wd_live (sy_table (snd (after calls_and_delivery)))) = 2%nat /\ table_wf (sy_table (snd (after calls_and_delivery))).
Proof.
  split; [vm_compute; reflexivity|].
  exact (proj1 (table_well_formed calls_and_delivery (0%nat) (fst (after calls_and_delivery)) (snd (after calls_and_delivery))
    (surjective_pairing _) (proj1 no_abort))).
Defined.

Lemma calls_refine_steps_witness :
  exists self', perform (F := unit) (OpDeliver 0 true) (snd (after calls)) = (Ok tt, self') /\
    wcall [] (sy_table (snd (after calls))) (sy_table self').
Proof.
  exists (snd (perform (F := unit) (OpDeliver 0 true) (snd (after calls)))).
  assert (Hr : fst (perform (F := unit) (OpDeliver 0 true) (snd (after calls))) = Ok tt) by (vm_compute; reflexivity).
  pose proof (calls_refine_steps calls (0%nat) (fst (after calls)) (snd (after calls)) (OpDeliver 0 true)
    (surjective_pairing _) (proj2 no_abort)) as H.
  destruct (perform (OpDeliver 0 true) (snd (after calls))) as [r self']. cbn in Hr. subst r.
  split; [reflexivity|]. apply H. discriminate.
Defined.

Lemma ready_only_after_reply_witness :
  commits (wd_events (sy_table (snd (after calls_and_delivery)))) = [first_session] /\
  sent_first (wd_events (sy_table (snd (after calls_and_delivery)))).
Proof.
  split; [vm_compute; reflexivity|].
  destruct (ready_only_after_reply calls_and_delivery (0%nat) (fst (after calls_and_delivery))
    (snd (after calls_and_delivery)) brought_distinct (surjective_pairing _) (proj1 no_abort)) as (H & _).
  exact H.
Defined.

Definition first_delivery : PendingReadyDelivery :=
  {| pd_entry := 0; pd_proof := Some (ready_proof first_trace); pd_cleanup_reason := SpawnResultUndeliverable |}.

Lemma delivery_exact_witness :
  sy_deliveries (snd (after calls)) !! 0%nat = Some first_delivery /\
  exists cell, we_handle (cell_entry cell) = first_session /\
    let '(r, table) := deliver (F := unit) first_delivery false (sy_table (snd (after calls))) in
    r = Ok (inr tt) /\ delivery_outcome first_delivery (ready_proof first_trace) cell false (sy_table (snd (after calls))) r table.
Proof.
  assert (Hd : sy_deliveries (snd (after calls)) !! 0%nat = Some first_delivery) by (vm_compute; reflexivity).
  split; [exact Hd|].
  destruct (delivery_exact calls (0%nat) (fst (after calls)) (snd (after calls)) (0%nat) first_delivery false
    (surjective_pairing _) (proj2 no_abort) Hd) as (proof & cell & Hp & _ & Hh & _ & Ho).
  injection Hp as <-. exists cell. split; [exact Hh|].
  assert (Hr : fst (deliver (F := unit) first_delivery false (sy_table (snd (after calls)))) = Ok (inr tt)) by (vm_compute; reflexivity).
  destruct (deliver first_delivery false (sy_table (snd (after calls)))) as [r table]. cbn in Hr. subst r.
  split; [reflexivity|]. apply Ho. discriminate.
Defined.

Lemma client_termination_exact_witness :
  fst (terminate_for_client_request (F := unit) second_session 8 (sy_table (snd (after calls)))) = Ok (inl tt) /\
  let '(r, table) := terminate_for_client_request (F := unit) second_session 8 (sy_table (snd (after calls))) in
  r <> Panic -> client_termination second_session 8 ClientRequested (sy_table (snd (after calls))) r table.
Proof.
  split; [vm_compute; reflexivity|].
  pose proof (client_termination_exact calls (0%nat) (fst (after calls)) (snd (after calls)) second_session 8
    (surjective_pairing _) (proj2 no_abort)) as H.
  destruct (terminate_for_client_request second_session 8 (sy_table (snd (after calls)))) as [r table]. exact (proj1 H).
Defined.

Lemma shutdown_reaps_every_child_witness :
  exists table, drop_table (F := unit) (E := WatchdogStateError) (sy_table (snd (after calls_and_delivery))) = (Ok tt, table) /\
    gone 1 table 101 /\ gone 1 table 102.
Proof.
  pose proof (shutdown_reaps_every_child calls_and_delivery (0%nat) (fst (after calls_and_delivery))
    (snd (after calls_and_delivery)) brought_distinct (surjective_pairing _) (proj1 no_abort)) as H.
  assert (Hr : fst (drop_table (F := unit) (E := WatchdogStateError) (sy_table (snd (after calls_and_delivery)))) = Ok tt)
    by (vm_compute; reflexivity).
  destruct (drop_table (sy_table (snd (after calls_and_delivery)))) as [r table]. cbn in Hr. subst r.
  destruct H as [(_ & Hg & _)|[H _]]; [|discriminate]. exists table. split; [reflexivity|]. split; [exact (Hg 101 (proj1 both_brought))|exact (Hg 102 (proj1 (proj2 both_brought)))].
Defined.
