(* ===== verification/AuthWire.v ===== *)
(** * AuthWire: frames of the authentication workers ([supervisor_auth_adapter.rs])

    A worker process reads one fixed job frame from its private pipe and writes
    one fixed result frame, which carries the job back. *)

From S2P Require Import Prelude Bytes Native SupervisorWire SupervisorCodec.
From Stdlib Require Import Strings.String.

(** ** Constants and data *)

Definition MAX_AUTH_WORKERS : Z := 4.
Definition MAX_PENDING_PER_UID : Z := 2.
Definition AUTH_WORKER_JOB_MAGIC : bytes := ascii "NIPCAWJ1".
Definition AUTH_WORKER_RESULT_MAGIC : bytes := ascii "NIPCAWR1".
Definition AUTH_WORKER_WIRE_VERSION : Z := 1.
Definition AUTH_WORKER_JOB_BYTES : Z := 152.
Definition AUTH_WORKER_RESULT_BYTES : Z := 200.

Definition JOB_VERSION_OFFSET : Z := 8.
Definition JOB_RESERVED_OFFSET : Z := 10.
Definition JOB_LENGTH_OFFSET : Z := 12.
Definition JOB_SLOT_OFFSET : Z := 16.
Definition JOB_SLOT_RESERVED_OFFSET : Z := 17.
Definition JOB_GENERATION_OFFSET : Z := 24.
Definition JOB_ID_OFFSET : Z := 32.
Definition JOB_ROUTE_RESERVED_OFFSET : Z := 64.
Definition JOB_AUDIT_OFFSET : Z := 72.
Definition JOB_UID_OFFSET : Z := 104.
Definition JOB_GID_OFFSET : Z := 108.
Definition JOB_DIGEST_OFFSET : Z := 112.
Definition JOB_DEADLINE_OFFSET : Z := 144.

Definition RESULT_VERSION_OFFSET : Z := 8.
Definition RESULT_DECISION_OFFSET : Z := 10.
Definition RESULT_LENGTH_OFFSET : Z := 12.
Definition RESULT_JOB_OFFSET : Z := 16.
Definition RESULT_CODE_IDENTITY_OFFSET : Z := RESULT_JOB_OFFSET + AUTH_WORKER_JOB_BYTES.

Definition AUTH_WORKER_VALIDATED : Z := 1.
Definition AUTH_WORKER_REJECTED : Z := 2.

Inductive AuthWorkerWireError :=
| AuthWire_Malformed
| AuthWire_InvalidIdentity
| AuthWire_InvalidDecision.

Record AuthWorkerIdentity := { wi_slot : Z; wi_generation : Z }.

Record AuthWorkerJob := {
  aj_worker : AuthWorkerIdentity;
  aj_job_id : bytes;
  aj_audit_identity : bytes;
  aj_effective_uid : Z;
  aj_effective_gid : Z;
  aj_frame_digest : bytes;
  aj_deadline : Z
}.

Record AuthWorkerResult := { ar_job : AuthWorkerJob; ar_code_identity : bytes }.

#[export] Instance AuthWorkerWireError_eq_dec : EqDecision AuthWorkerWireError.
Proof. solve_decision. Defined.
#[export] Instance AuthWorkerIdentity_eq_dec : EqDecision AuthWorkerIdentity.
Proof. solve_decision. Defined.
#[export] Instance AuthWorkerJob_eq_dec : EqDecision AuthWorkerJob.
Proof. solve_decision. Defined.

(** ** Reading *)

Definition array_at (n : Z) (l : bytes) (offset : Z) : option bytes :=
  match checked_add USIZE_MAX offset n with
  | Some stop => get_range l offset stop
  | None => None
  end.

Definition read_u16 (l : bytes) (offset : Z) : option Z := le_val <$> array_at 2 l offset.
Definition read_u32 (l : bytes) (offset : Z) : option Z := le_val <$> array_at 4 l offset.
Definition read_u64 (l : bytes) (offset : Z) : option Z := le_val <$> array_at 8 l offset.

(** ** Jobs *)

Definition encode_auth_worker_job {E} (job : AuthWorkerJob) : res E bytes :=
  let l := zeros AUTH_WORKER_JOB_BYTES in
  let? l := copy_range l 0 (len AUTH_WORKER_JOB_MAGIC) AUTH_WORKER_JOB_MAGIC in
  let? l := put_u16 l JOB_VERSION_OFFSET AUTH_WORKER_WIRE_VERSION in
  let? l := put_u32 l JOB_LENGTH_OFFSET AUTH_WORKER_JOB_BYTES in
  let? l := put_u8 l JOB_SLOT_OFFSET (wi_slot (aj_worker job)) in
  let? l := put_u64 l JOB_GENERATION_OFFSET (wi_generation (aj_worker job)) in
  let? l := copy_range l JOB_ID_OFFSET (JOB_ID_OFFSET + len (aj_job_id job)) (aj_job_id job) in
  let? l := copy_range l JOB_AUDIT_OFFSET (JOB_AUDIT_OFFSET + len (aj_audit_identity job)) (aj_audit_identity job) in
  let? l := put_u32 l JOB_UID_OFFSET (aj_effective_uid job) in
  let? l := put_u32 l JOB_GID_OFFSET (aj_effective_gid job) in
  let? l := copy_range l JOB_DIGEST_OFFSET (JOB_DIGEST_OFFSET + len (aj_frame_digest job)) (aj_frame_digest job) in
  put_u64 l JOB_DEADLINE_OFFSET (aj_deadline job).

(** The identities a job frame may carry. *)
Definition job_admissible (job : AuthWorkerJob) : bool :=
  negb ((MAX_AUTH_WORKERS <=? wi_slot (aj_worker job)) || (wi_generation (aj_worker job) =? 0)
        || bool_decide (aj_job_id job = zeros 32) || bool_decide (aj_audit_identity job = zeros 32)
        || (aj_effective_uid job =? 0) || (aj_effective_gid job =? 0)
        || (aj_effective_uid job =? U32_MAX) || (aj_effective_gid job =? U32_MAX)
        || bool_decide (aj_frame_digest job = zeros 32) || (aj_deadline job =? 0)).

Definition decode_auth_worker_job (l : bytes) : res AuthWorkerWireError AuthWorkerJob :=
  if negb (len l =? AUTH_WORKER_JOB_BYTES)
     || negb (bool_decide (get_range l 0 (len AUTH_WORKER_JOB_MAGIC) = Some AUTH_WORKER_JOB_MAGIC))
     || negb (bool_decide (read_u16 l JOB_VERSION_OFFSET = Some AUTH_WORKER_WIRE_VERSION))
     || negb (bool_decide (read_u16 l JOB_RESERVED_OFFSET = Some 0))
     || negb (bool_decide (read_u32 l JOB_LENGTH_OFFSET = Some AUTH_WORKER_JOB_BYTES))
     || match get_range l JOB_SLOT_RESERVED_OFFSET JOB_GENERATION_OFFSET with
        | Some reserved => any_nonzero reserved
        | None => true
        end
     || negb (bool_decide (read_u64 l JOB_ROUTE_RESERVED_OFFSET = Some 0))
  then Err AuthWire_Malformed else
  let? slot := ok_or (le_val <$> get_range l JOB_SLOT_OFFSET (JOB_SLOT_OFFSET + 1)) AuthWire_Malformed in
  let? generation := ok_or (read_u64 l JOB_GENERATION_OFFSET) AuthWire_Malformed in
  let? job_id := ok_or (array_at 32 l JOB_ID_OFFSET) AuthWire_Malformed in
  let? audit_identity := ok_or (array_at 32 l JOB_AUDIT_OFFSET) AuthWire_Malformed in
  let? effective_uid := ok_or (read_u32 l JOB_UID_OFFSET) AuthWire_Malformed in
  let? effective_gid := ok_or (read_u32 l JOB_GID_OFFSET) AuthWire_Malformed in
  let? frame_digest := ok_or (array_at 32 l JOB_DIGEST_OFFSET) AuthWire_Malformed in
  let? deadline := ok_or (read_u64 l JOB_DEADLINE_OFFSET) AuthWire_Malformed in
  let job := {| aj_worker := {| wi_slot := slot; wi_generation := generation |}; aj_job_id := job_id;
                aj_audit_identity := audit_identity; aj_effective_uid := effective_uid;
                aj_effective_gid := effective_gid; aj_frame_digest := frame_digest; aj_deadline := deadline |} in
  if negb (job_admissible job) then Err AuthWire_InvalidIdentity else Ok job.

(** ** Results *)

Definition encode_auth_worker_result (result : AuthWorkerResult) : res AuthWorkerWireError bytes :=
  let decision := if bool_decide (ar_code_identity result = zeros 32) then AUTH_WORKER_REJECTED else AUTH_WORKER_VALIDATED in
  let l := zeros AUTH_WORKER_RESULT_BYTES in
  let? l := copy_range l 0 (len AUTH_WORKER_RESULT_MAGIC) AUTH_WORKER_RESULT_MAGIC in
  let? l := put_u16 l RESULT_VERSION_OFFSET AUTH_WORKER_WIRE_VERSION in
  let? l := put_u16 l RESULT_DECISION_OFFSET decision in
  let? l := put_u32 l RESULT_LENGTH_OFFSET AUTH_WORKER_RESULT_BYTES in
  let? job := encode_auth_worker_job (ar_job result) in
  let? l := copy_range l RESULT_JOB_OFFSET RESULT_CODE_IDENTITY_OFFSET job in
  copy_range l RESULT_CODE_IDENTITY_OFFSET (len l) (ar_code_identity result).

Definition decode_auth_worker_result (l : bytes) : res AuthWorkerWireError AuthWorkerResult :=
  if negb (len l =? AUTH_WORKER_RESULT_BYTES)
     || negb (bool_decide (get_range l 0 (len AUTH_WORKER_RESULT_MAGIC) = Some AUTH_WORKER_RESULT_MAGIC))
     || negb (bool_decide (read_u16 l RESULT_VERSION_OFFSET = Some AUTH_WORKER_WIRE_VERSION))
     || negb (bool_decide (read_u32 l RESULT_LENGTH_OFFSET = Some AUTH_WORKER_RESULT_BYTES))
  then Err AuthWire_Malformed else
  let? decision := ok_or (read_u16 l RESULT_DECISION_OFFSET) AuthWire_Malformed in
  let? job_bytes := ok_or (get_range l RESULT_JOB_OFFSET RESULT_CODE_IDENTITY_OFFSET) AuthWire_Malformed in
  let? job := decode_auth_worker_job job_bytes in
  let? code_identity := ok_or (array_at 32 l RESULT_CODE_IDENTITY_OFFSET) AuthWire_Malformed in
  if (decision =? AUTH_WORKER_VALIDATED) || (decision =? AUTH_WORKER_REJECTED) then
    if Bool.eqb (decision =? AUTH_WORKER_REJECTED) (bool_decide (code_identity = zeros 32))
    then Ok {| ar_job := job; ar_code_identity := code_identity |}
    else Err AuthWire_InvalidDecision
  else Err AuthWire_Malformed.

(** * Job and result frames have one encoding each *)

(** ** Jobs *)

Definition job_widths (j : AuthWorkerJob) : Prop :=
  u8 (wi_slot (aj_worker j)) /\ u64 (wi_generation (aj_worker j)) /\ u32 (aj_effective_uid j) /\ u32 (aj_effective_gid j) /\
  u64 (aj_deadline j) /\ len (aj_job_id j) = 32 /\ len (aj_audit_identity j) = 32 /\ len (aj_frame_digest j) = 32.

Definition job_wire (j : AuthWorkerJob) : bytes :=
  AUTH_WORKER_JOB_MAGIC ++ le_bytes 2 AUTH_WORKER_WIRE_VERSION ++ zeros 2 ++ le_bytes 4 AUTH_WORKER_JOB_BYTES
  ++ le_bytes 1 (wi_slot (aj_worker j)) ++ zeros 7 ++ le_bytes 8 (wi_generation (aj_worker j))
  ++ aj_job_id j ++ zeros 8 ++ aj_audit_identity j ++ le_bytes 4 (aj_effective_uid j) ++ le_bytes 4 (aj_effective_gid j)
  ++ aj_frame_digest j ++ le_bytes 8 (aj_deadline j).

Definition job_cuts : list Z := [8; 10; 12; 16; 17; 24; 32; 64; 72; 104; 108; 112; 144; 152].

Lemma job_magic_len : len AUTH_WORKER_JOB_MAGIC = 8.
Proof. reflexivity. Qed.
Lemma result_magic_len : len AUTH_WORKER_RESULT_MAGIC = 8.
Proof. reflexivity. Qed.

Ltac job_consts :=
  unfold JOB_VERSION_OFFSET, JOB_RESERVED_OFFSET, JOB_LENGTH_OFFSET, JOB_SLOT_OFFSET, JOB_SLOT_RESERVED_OFFSET,
    JOB_GENERATION_OFFSET, JOB_ID_OFFSET, JOB_ROUTE_RESERVED_OFFSET, JOB_AUDIT_OFFSET, JOB_UID_OFFSET, JOB_GID_OFFSET,
    JOB_DIGEST_OFFSET, JOB_DEADLINE_OFFSET in *.

Lemma job_wire_len j : job_widths j -> len (job_wire j) = 152.
Proof.
  intros (_ & _ & _ & _ & _ & H1 & H2 & H3). unfold job_wire.
  rewrite !len_app, !len_le_bytes, job_magic_len, H1, H2, H3. reflexivity.
Qed.

Lemma encode_job_ok {E} j : job_widths j -> encode_auth_worker_job (E := E) j = Ok (job_wire j).
Proof.
  intros (Hs & Hg & Hu & Hi & Hd & H1 & H2 & H3). pose proof job_magic_len.
  assert (len (zeros AUTH_WORKER_JOB_BYTES) = 152) as Hz by reflexivity.
  unfold encode_auth_worker_job. rewrite H1, H2, H3, job_magic_len. job_consts.
  set (z := zeros AUTH_WORKER_JOB_BYTES) in *. cbn [Z.add Pos.add Pos.succ Pos.add_carry]. rd.
  f_equal. by_cuts job_cuts. reflexivity.
Qed.

(** ** Reading a frame of known length *)

Section Reads.
Context (l : bytes).
Hypothesis Hl : len l <= 200.

Lemma worker_array_at_ok n off stop : 0 <= off -> 0 <= n -> stop = off + n -> stop <= len l -> array_at n l off = Some (slice l off stop).
Proof.
  intros Ho Hn -> Hs. unfold array_at, checked_add. replace (off + n <=? USIZE_MAX) with true by ulia.
  now rewrite get_range_ok by lia.
Qed.

Lemma read_u16_ok off : 0 <= off -> off + 2 <= len l -> read_u16 l off = Some (field l off 2).
Proof. intros. unfold read_u16, field. now rewrite (worker_array_at_ok 2 off (off + 2)) by lia. Qed.
Lemma read_u32_ok off : 0 <= off -> off + 4 <= len l -> read_u32 l off = Some (field l off 4).
Proof. intros. unfold read_u32, field. now rewrite (worker_array_at_ok 4 off (off + 4)) by lia. Qed.
Lemma read_u64_ok off : 0 <= off -> off + 8 <= len l -> read_u64 l off = Some (field l off 8).
Proof. intros. unfold read_u64, field. now rewrite (worker_array_at_ok 8 off (off + 8)) by lia. Qed.

End Reads.

Lemma job_fields s j :
  len s = 152 -> job_widths j ->
  s = job_wire j <->
  slice s 0 8 = AUTH_WORKER_JOB_MAGIC /\ field s 8 2 = AUTH_WORKER_WIRE_VERSION /\ field s 10 2 = 0 /\
  field s 12 4 = AUTH_WORKER_JOB_BYTES /\ field s 16 1 = wi_slot (aj_worker j) /\ slice s 17 24 = zeros 7 /\
  field s 24 8 = wi_generation (aj_worker j) /\ slice s 32 64 = aj_job_id j /\ field s 64 8 = 0 /\
  slice s 72 104 = aj_audit_identity j /\ field s 104 4 = aj_effective_uid j /\ field s 108 4 = aj_effective_gid j /\
  slice s 112 144 = aj_frame_digest j /\ field s 144 8 = aj_deadline j.
Proof.
  intros Hs (Hsl & Hg & Hu & Hi & Hd & H1 & H2 & H3).
  rewrite <- (slice_full s 0 152) at 1 by lia. unfold job_wire.
  rewrite (slice_app_iff s 0 152 8) by (rewrite ?job_magic_len; lia). wsplit s.
  rewrite (slice_app_iff s 32 152 64) by lia. wsplit s. rewrite (slice_app_iff s 72 152 104) by lia. wsplit s.
  rewrite (slice_app_iff s 112 152 144) by lia.
  rewrite (field_iff s 8 10 2 2), (field_iff s 12 16 4 4)
    by (try reflexivity; lia || (unfold AUTH_WORKER_WIRE_VERSION, AUTH_WORKER_JOB_BYTES; lia)).
  rewrite (field_zeros s 10 12 2), (field_zeros s 64 72 8) by lia.
  rewrite (field_iff s 16 17 1 1), (field_iff s 24 32 8 8), (field_iff s 104 108 4 4), (field_iff s 108 112 4 4),
    (field_iff s 144 152 8 8) by (try reflexivity; lia || ulia).
  reflexivity.
Qed.

Ltac auth_reads l :=
  rewrite ?(read_u16_ok l), ?(read_u32_ok l), ?(read_u64_ok l), ?(get_range_ok l) by lia.

Lemma some_eq_iff {A} {_ : EqDecision A} (x y : A) : bool_decide (Some x = Some y) = bool_decide (x = y).
Proof. apply bool_decide_ext. split; [now intros [= ->]|now intros ->]. Qed.

Lemma decode_job_iff l j :
  decode_auth_worker_job l = Ok j <-> job_widths j /\ job_admissible j = true /\ l = job_wire j.
Proof.
  unfold decode_auth_worker_job. job_consts. rewrite job_magic_len. unfold AUTH_WORKER_JOB_BYTES at 1.
  destruct (len l =? 152) eqn:El; cbn [negb orb].
  2: { split; [discriminate|]. intros (Hw & _ & Heq). apply Z.eqb_neq in El. apply job_wire_len in Hw. now rewrite <- Heq in Hw. }
  apply Z.eqb_eq in El. auth_reads l.
  rewrite (worker_array_at_ok l ltac:(lia) 32 32 64), (worker_array_at_ok l ltac:(lia) 32 72 104), (worker_array_at_ok l ltac:(lia) 32 112 144) by lia.
  cbn [fmap option_fmap option_map ok_or rbind]. rewrite !some_eq_iff. change (le_val (slice l 16 (16 + 1))) with (field l 16 1).
  split.
  - match goal with |- context [if ?b then Err AuthWire_Malformed else _] => destruct b eqn:E end; [discriminate|]. bsplit.
    set (j' := {| aj_worker := _ |}). destruct (job_admissible j') eqn:Ha; [|discriminate]. intros [= <-].
    assert (job_widths j') as Hw.
    { unfold job_widths, j'; cbn. rewrite !len_slice by lia. split_and!; (fwidth || lia). }
    split; [done|]. split; [done|]. apply job_fields; [done..|].
    match goal with H : any_nonzero (slice l 17 24) = false |- _ => apply (any_nonzero_slice l 17 24 7) in H; try lia end.
    split_and!; done.
  - intros (Hw & Ha & Heq).
    apply job_fields in Heq as (-> & -> & -> & -> & -> & -> & -> & -> & -> & -> & -> & -> & -> & ->); [|done..].
    rewrite !bool_decide_eq_true_2 by done. rewrite any_nonzero_zeros. cbn [negb orb].
    destruct j as [[s g] i a u v d t]. cbn [aj_worker aj_job_id aj_audit_identity aj_effective_uid aj_effective_gid
      aj_frame_digest aj_deadline wi_slot wi_generation] in *. now rewrite Ha.
Qed.

Lemma decode_job_no_panic l : decode_auth_worker_job l <> Panic.
Proof.
  unfold decode_auth_worker_job. job_consts. rewrite job_magic_len. unfold AUTH_WORKER_JOB_BYTES at 1.
  destruct (len l =? 152) eqn:El; cbn [negb orb]; [|done]. apply Z.eqb_eq in El. auth_reads l.
  rewrite (worker_array_at_ok l ltac:(lia) 32 32 64), (worker_array_at_ok l ltac:(lia) 32 72 104), (worker_array_at_ok l ltac:(lia) 32 112 144) by lia.
  cbn [fmap option_fmap option_map ok_or rbind]. repeat case_match; done.
Qed.

(** ** Results *)

Definition result_widths (r : AuthWorkerResult) : Prop := job_widths (ar_job r) /\ len (ar_code_identity r) = 32.

Definition decision_of (r : AuthWorkerResult) : Z :=
  if bool_decide (ar_code_identity r = zeros 32) then AUTH_WORKER_REJECTED else AUTH_WORKER_VALIDATED.

Definition result_wire (r : AuthWorkerResult) : bytes :=
  AUTH_WORKER_RESULT_MAGIC ++ le_bytes 2 AUTH_WORKER_WIRE_VERSION ++ le_bytes 2 (decision_of r)
  ++ le_bytes 4 AUTH_WORKER_RESULT_BYTES ++ job_wire (ar_job r) ++ ar_code_identity r.

Definition result_cuts : list Z := [8; 10; 12; 16; 168; 200].

Lemma worker_result_wire_len r : result_widths r -> len (result_wire r) = 200.
Proof.
  intros (H1 & H2). unfold result_wire. rewrite !len_app, !len_le_bytes, result_magic_len, job_wire_len, H2 by done. reflexivity.
Qed.

Lemma encode_result_ok r : result_widths r -> encode_auth_worker_result r = Ok (result_wire r).
Proof.
  intros (H1 & H2). pose proof result_magic_len. pose proof (job_wire_len _ H1) as Hj.
  assert (len (zeros AUTH_WORKER_RESULT_BYTES) = 200) as Hz by reflexivity.
  unfold encode_auth_worker_result. rewrite result_magic_len.
  unfold RESULT_CODE_IDENTITY_OFFSET, RESULT_JOB_OFFSET, RESULT_VERSION_OFFSET, RESULT_DECISION_OFFSET, RESULT_LENGTH_OFFSET.
  unfold AUTH_WORKER_JOB_BYTES. set (z := zeros AUTH_WORKER_RESULT_BYTES) in *. fold (decision_of r).
  rewrite (encode_job_ok (ar_job r) H1). cbn [Z.add Pos.add Pos.succ Pos.add_carry rbind]. rd.
  f_equal. by_cuts result_cuts. reflexivity.
Qed.

Lemma decision_u16 r : u16 (decision_of r).
Proof. unfold decision_of, AUTH_WORKER_REJECTED, AUTH_WORKER_VALIDATED. case_match; ulia. Qed.

Lemma worker_result_fields s r :
  len s = 200 -> result_widths r ->
  s = result_wire r <->
  slice s 0 8 = AUTH_WORKER_RESULT_MAGIC /\ field s 8 2 = AUTH_WORKER_WIRE_VERSION /\ field s 10 2 = decision_of r /\
  field s 12 4 = AUTH_WORKER_RESULT_BYTES /\ slice s 16 168 = job_wire (ar_job r) /\ slice s 168 200 = ar_code_identity r.
Proof.
  intros Hs (Hw & H2). pose proof (decision_u16 r). pose proof (job_wire_len _ Hw).
  rewrite <- (slice_full s 0 200) at 1 by lia. unfold result_wire.
  rewrite (slice_app_iff s 0 200 8) by (rewrite ?result_magic_len; lia). wsplit s.
  rewrite (slice_app_iff s 16 200 168) by lia.
  rewrite (field_iff s 8 10 2 2), (field_iff s 10 12 2 2), (field_iff s 12 16 4 4)
    by (try reflexivity; lia || ulia || (unfold AUTH_WORKER_WIRE_VERSION, AUTH_WORKER_RESULT_BYTES; lia)).
  reflexivity.
Qed.

Lemma decode_result_iff l r :
  decode_auth_worker_result l = Ok r <->
  result_widths r /\ job_admissible (ar_job r) = true /\ l = result_wire r.
Proof.
  unfold decode_auth_worker_result. rewrite result_magic_len. unfold AUTH_WORKER_RESULT_BYTES at 1.
  unfold RESULT_CODE_IDENTITY_OFFSET, RESULT_JOB_OFFSET, RESULT_VERSION_OFFSET, RESULT_DECISION_OFFSET, RESULT_LENGTH_OFFSET.
  unfold AUTH_WORKER_JOB_BYTES. change (16 + 152) with 168.
  destruct (len l =? 200) eqn:El; cbn [negb orb].
  2: { split; [discriminate|]. intros (Hw & _ & Heq). apply Z.eqb_neq in El. apply worker_result_wire_len in Hw. now rewrite <- Heq in Hw. }
  apply Z.eqb_eq in El. auth_reads l. rewrite (worker_array_at_ok l ltac:(lia) 32 168 200) by lia.
  cbn [ok_or rbind]. rewrite !some_eq_iff. split.
  - match goal with |- context [if ?b then Err AuthWire_Malformed else _] => destruct b eqn:E end; [discriminate|]. bsplit.
    destruct (decode_auth_worker_job (slice l 16 168)) as [job| |] eqn:Ej; try discriminate. cbn [rbind].
    apply decode_job_iff in Ej as (Hjw & Hja & Hjl).
    set (r' := {| ar_job := job; ar_code_identity := slice l 168 200 |}).
    match goal with |- context [if ?b then if ?c then _ else _ else _] => destruct b eqn:Ed; [|discriminate]; destruct c eqn:Ec; [|discriminate] end.
    intros [= <-]. assert (result_widths r') as Hw by (split; [done|unfold r'; cbn; rewrite len_slice by lia; lia]).
    split; [done|]. split; [done|]. apply worker_result_fields; [done..|]. split_and!; try done.
    unfold decision_of, r'; cbn. apply eqb_prop in Ec. rewrite <- Ec. unfold AUTH_WORKER_VALIDATED, AUTH_WORKER_REJECTED in *.
    destruct (field l 10 2 =? 2) eqn:E2; lia.
  - intros (Hw & Ha & Heq). pose proof Hw as (Hjw & _).
    apply worker_result_fields in Heq as (-> & -> & -> & -> & Hj & ->); [|done..].
    rewrite !bool_decide_eq_true_2 by done. cbn [negb orb].
    assert (decode_auth_worker_job (slice l 16 168) = Ok (ar_job r)) as -> by now apply decode_job_iff. cbn [rbind].
    unfold decision_of. destruct r as [job code]. cbn [ar_job ar_code_identity] in *. now case_bool_decide.
Qed.

Lemma decode_result_no_panic l : decode_auth_worker_result l <> Panic.
Proof.
  unfold decode_auth_worker_result. rewrite result_magic_len. unfold AUTH_WORKER_RESULT_BYTES at 1.
  unfold RESULT_CODE_IDENTITY_OFFSET, RESULT_JOB_OFFSET, RESULT_VERSION_OFFSET, RESULT_DECISION_OFFSET, RESULT_LENGTH_OFFSET.
  unfold AUTH_WORKER_JOB_BYTES. change (16 + 152) with 168.
  destruct (len l =? 200) eqn:El; cbn [negb orb]; [|done]. apply Z.eqb_eq in El. auth_reads l.
  rewrite (worker_array_at_ok l ltac:(lia) 32 168 200) by lia. cbn [ok_or rbind].
  pose proof (decode_job_no_panic (slice l 16 168)). destruct (decode_auth_worker_job _); cbn [rbind]; repeat case_match; done.
Qed.
