(* ===== verification/AuthPool.v ===== *)
(** * AuthPool: the pool of authentication workers ([supervisor_auth_adapter.rs])

    A fixed set of processes that were created before the service accepts
    messages. Each checks one message and is reaped; only then does the message
    count as authenticated. [ap_events] is not in the code: it is what has
    happened so far, in order. *)

From stdpp Require Import gmap.
From S2P Require Import Prelude Bytes Tools Negotiation Native SupervisorWire Supervisor BrokerReport Watchdog AuthWire.
From Stdlib Require Import Strings.String.

(** ** Data *)

Definition FRAME_DIGEST_DOMAIN : bytes := ascii "native-ipc-macos-supervisor-auth-frame-v1".

(** [MachSendOnceRight] is the name of the right. *)
Record RawMachRecord := {
  mr_audit_identity : bytes;
  mr_effective_uid : Z;
  mr_effective_gid : Z;
  mr_bytes : bytes;
  mr_reply : Z
}.

Inductive AuthAdapterError (F : Type) :=
| Adapter_InvalidReceiveRight
| Adapter_MalformedMachMessage
| Adapter_RecordTooLarge
| Adapter_MachReceive (code : Z)
| Adapter_Saturated
| Adapter_CapacityExceeded
| Adapter_InvalidJobIdentity
| Adapter_UnknownWorker
| Adapter_ResultMismatch
| Adapter_WorkerRetirementPending (worker : AuthWorkerIdentity)
| Adapter_WorkerExitedAbnormally
| Adapter_AuthenticationRejected
| Adapter_DeadlineExpired
| Adapter_InvalidReplacement
| Adapter_WorkerCleanupFailed (failure : F)
| Adapter_Protocol (error : SupervisorWireError).
Arguments Adapter_InvalidReceiveRight {F}.
Arguments Adapter_MalformedMachMessage {F}.
Arguments Adapter_RecordTooLarge {F}.
Arguments Adapter_MachReceive {F} code.
Arguments Adapter_Saturated {F}.
Arguments Adapter_CapacityExceeded {F}.
Arguments Adapter_InvalidJobIdentity {F}.
Arguments Adapter_UnknownWorker {F}.
Arguments Adapter_ResultMismatch {F}.
Arguments Adapter_WorkerRetirementPending {F} worker.
Arguments Adapter_WorkerExitedAbnormally {F}.
Arguments Adapter_AuthenticationRejected {F}.
Arguments Adapter_DeadlineExpired {F}.
Arguments Adapter_InvalidReplacement {F}.
Arguments Adapter_WorkerCleanupFailed {F} failure.
Arguments Adapter_Protocol {F} error.

Definition FreshAuthWorkerGeneration_from_unique_service_value {F} (value : Z) : res (AuthAdapterError F) Z :=
  if value =? 0 then Err Adapter_InvalidReplacement else Ok value.

Definition FreshAuthJobId_from_fresh_random {F} (value : bytes) : res (AuthAdapterError F) bytes :=
  if bool_decide (value = zeros 32) then Err Adapter_InvalidJobIdentity else Ok value.

(** The parent's ends of a worker's pipes: what the one write to the request
    pipe will do, and what the reads of the result pipe will find. *)
Inductive RequestPipe := AcceptsWhole | AcceptsPart (count : Z) | RefusesWrite (code : Z).

Record AuthWorkerEndpoint := { we_request : RequestPipe; we_result : list ReadEvent }.

Inductive AuthWorkerPipeError :=
| Pipe_Native (code : Z)
| Pipe_DeadlineExpired
| Pipe_ShortWrite
| Pipe_PrematureEof
| Pipe_ExtraResultBytes
| Pipe_InvalidResult (error : AuthWorkerWireError).

Record AuthWorkerPipeFailure := { pf_worker : AuthWorkerIdentity; pf_error : AuthWorkerPipeError }.

Record AuthWorkerReplyReceipt := {
  wr_worker : AuthWorkerIdentity;
  wr_job_id : bytes;
  wr_result : list ReadEvent;
  wr_deadline : Z;
  wr_bytes : bytes;
  wr_filled : Z
}.

Record DispatchedAuthJob := {
  da_job : AuthWorkerJob;
  da_request : RequestPipe;
  da_reply_receipt : AuthWorkerReplyReceipt
}.

Record ReceivedAuthWorkerResult := { ra_receipt : AuthWorkerReplyReceipt; ra_result : AuthWorkerResult }.

Inductive AuthWorkerResultPoll :=
| PollPending (receipt : AuthWorkerReplyReceipt)
| PollComplete (received : ReceivedAuthWorkerResult).

(** [ReapedAuthWorker] is whether the exit was clean. *)
Definition wait_status_is_clean_exit (status : Z) : bool :=
  (Z.land status 127 =? 0) && (Z.land (Z.shiftr status 8) 255 =? 0).

Class ExactAuthWorkerAuthority (A W F : Type) := {
  authority_try_reap_after_result : stm (A * W) F (option bool);
  authority_try_terminate_and_reap : stm (A * W) F (option bool);
  authority_emergency_terminate_and_reap : stm (A * W) Empty_set bool
}.

Inductive AuthWorkerRetirement := Retirement_Pending | Retirement_Clean | Retirement_Rejected.

Record ExactAuthWorker (A : Type) := { ew_authority : A; ew_armed : bool }.
Arguments ew_authority {A} _.
Arguments ew_armed {A} _.

Definition from_unreaped_worker {A} (authority : A) : ExactAuthWorker A :=
  {| ew_authority := authority; ew_armed := true |}.

Record PendingExecTrap := {
  pt_audit_identity : bytes;
  pt_effective_uid : Z;
  pt_effective_gid : Z;
  pt_frame_digest : bytes;
  pt_expected_code_identity : bytes
}.

Inductive PendingAuthInput :=
| PendingMach (raw : RawMachRecord)
| PendingTrap (target : PendingExecTrap).

Inductive PendingOutcome := AwaitingResult | Validated (code_identity : bytes) | Rejected.

Record PendingRecord := {
  pr_input : PendingAuthInput;
  pr_job : AuthWorkerJob;
  pr_deadline : Z;
  pr_outcome : PendingOutcome
}.

Record WorkerSlot (A : Type) := {
  ws_identity : AuthWorkerIdentity;
  ws_worker : ExactAuthWorker A;
  ws_endpoint : option AuthWorkerEndpoint;
  ws_pending : option PendingRecord
}.
Arguments ws_identity {A} _.
Arguments ws_worker {A} _.
Arguments ws_endpoint {A} _.
Arguments ws_pending {A} _.

Record AuthenticatedMachRecord := { am_raw : RawMachRecord; am_code_identity : bytes; am_deadline : Z }.

Record AuthenticatedExecTrap := {
  ae_audit_identity : bytes;
  ae_effective_uid : Z;
  ae_effective_gid : Z;
  ae_frame_digest : bytes;
  ae_code_identity : bytes;
  ae_deadline : Z
}.

Inductive CompletedAuthentication :=
| CompletedMach (record : AuthenticatedMachRecord)
| CompletedTrap (record : AuthenticatedExecTrap).

Inductive PoolEvent :=
| JobDispatched (job : AuthWorkerJob) (input : PendingAuthInput) (deadline : Z)
| ResultAccepted (received : ReceivedAuthWorkerResult) (exec_trap : bool)
| WorkerReaped (worker : AuthWorkerIdentity) (authorizes : bool)
| Authenticated (job : AuthWorkerJob) (completed : CompletedAuthentication).

Record AuthWorkerPool (A : Type) := {
  ap_slots : list (option (WorkerSlot A));
  ap_live_jobs : gset bytes;
  ap_last_worker_generation : Z;
  ap_events : list PoolEvent
}.
Arguments ap_slots {A} _.
Arguments ap_live_jobs {A} _.
Arguments ap_last_worker_generation {A} _.
Arguments ap_events {A} _.

(** ** Inputs *)

Section Inputs.
Context {H : Sha256}.

Definition frame_digest (raw : RawMachRecord) : bytes :=
  sha256 (FRAME_DIGEST_DOMAIN ++ mr_audit_identity raw ++ le_bytes 4 (mr_effective_uid raw)
          ++ le_bytes 4 (mr_effective_gid raw) ++ le_bytes 8 (len (mr_bytes raw)) ++ mr_bytes raw).

Definition input_audit_identity (self : PendingAuthInput) : bytes :=
  match self with PendingMach raw => mr_audit_identity raw | PendingTrap target => pt_audit_identity target end.
Definition input_effective_uid (self : PendingAuthInput) : Z :=
  match self with PendingMach raw => mr_effective_uid raw | PendingTrap target => pt_effective_uid target end.
Definition input_effective_gid (self : PendingAuthInput) : Z :=
  match self with PendingMach raw => mr_effective_gid raw | PendingTrap target => pt_effective_gid target end.
Definition input_frame_digest (self : PendingAuthInput) : bytes :=
  match self with PendingMach raw => frame_digest raw | PendingTrap target => pt_frame_digest target end.
Definition expected_code_identity (self : PendingAuthInput) : option bytes :=
  match self with PendingMach _ => None | PendingTrap target => Some (pt_expected_code_identity target) end.
(** What a completed authentication returns. *)
Definition completion (input : PendingAuthInput) (code_identity : bytes) (deadline : Z) : CompletedAuthentication :=
  match input with
  | PendingMach raw => CompletedMach {| am_raw := raw; am_code_identity := code_identity; am_deadline := deadline |}
  | PendingTrap target =>
      CompletedTrap {| ae_audit_identity := pt_audit_identity target; ae_effective_uid := pt_effective_uid target;
                       ae_effective_gid := pt_effective_gid target; ae_frame_digest := pt_frame_digest target;
                       ae_code_identity := code_identity; ae_deadline := deadline |}
  end.
Definition is_exec_trap (self : PendingAuthInput) : bool :=
  match self with PendingMach _ => false | PendingTrap _ => true end.

End Inputs.

(** ** The pipes of a worker *)

Section Pipes.
Context {W : Type} {C : Clock W} {U : UptimeClock W}.

Abbreviation piped T := (stm W AuthWorkerPipeFailure T).

Definition pipe_failure (worker : AuthWorkerIdentity) (error : AuthWorkerPipeError) : AuthWorkerPipeFailure :=
  {| pf_worker := worker; pf_error := error |}.

Definition pipe_deadline (worker : AuthWorkerIdentity) (deadline : Z) : piped unit :=
  let! _ := smap_err (fun _ => pipe_failure worker Pipe_DeadlineExpired) (to_local_instant deadline) in sret tt.

(** The one write of the whole frame, then the writer is closed. *)
Definition submit (self : DispatchedAuthJob) : piped AuthWorkerReplyReceipt :=
  let worker := aj_worker (da_job self) in
  let! frame := slift (encode_auth_worker_job (da_job self)) in
  pipe_deadline worker (aj_deadline (da_job self)) >>!
  match da_request self with
  | AcceptsWhole => sret (da_reply_receipt self)
  | AcceptsPart count =>
      if count =? len frame then sret (da_reply_receipt self) else serr (pipe_failure worker Pipe_ShortWrite)
  | RefusesWrite code => serr (pipe_failure worker (Pipe_Native code))
  end.

Definition ensure_deadline (self : AuthWorkerReplyReceipt) : piped unit :=
  pipe_deadline (wr_worker self) (wr_deadline self).

Definition with_result (reads : list ReadEvent) (self : AuthWorkerReplyReceipt) : AuthWorkerReplyReceipt :=
  {| wr_worker := wr_worker self; wr_job_id := wr_job_id self; wr_result := reads; wr_deadline := wr_deadline self;
     wr_bytes := wr_bytes self; wr_filled := wr_filled self |}.
Definition with_bytes (l : bytes) (filled : Z) (self : AuthWorkerReplyReceipt) : AuthWorkerReplyReceipt :=
  {| wr_worker := wr_worker self; wr_job_id := wr_job_id self; wr_result := wr_result self; wr_deadline := wr_deadline self;
     wr_bytes := l; wr_filled := filled |}.

Definition from_private_pipe (receipt : AuthWorkerReplyReceipt) (l : bytes) : res AuthWorkerWireError ReceivedAuthWorkerResult :=
  let? result := decode_auth_worker_result l in
  Ok {| ra_receipt := receipt; ra_result := result |}.

(** The read past the frame: only the end of the pipe completes it. *)
Definition poll_end (reads : list ReadEvent) (self : AuthWorkerReplyReceipt) : piped AuthWorkerResultPoll :=
  ensure_deadline self >>!
  let fail error := serr (pipe_failure (wr_worker self) error) in
  match reads with
  | EndOfStream :: _ =>
      let! received := slift (map_err (fun error => pipe_failure (wr_worker self) (Pipe_InvalidResult error))
                                      (from_private_pipe self (wr_bytes self))) in
      sret (PollComplete received)
  | Arrives _ _ :: _ => fail Pipe_ExtraResultBytes
  | Interrupted :: reads | WouldBlock :: reads => sret (PollPending (with_result reads self))
  | [] => sret (PollPending (with_result [] self))
  | ReadFails code :: _ => fail (Pipe_Native code)
  end.

(** The reads into the buffer. What an arrival brings past the buffer stays to
    be read. *)
Fixpoint poll_fill (reads : list ReadEvent) (self : AuthWorkerReplyReceipt) : piped AuthWorkerResultPoll :=
  if negb (wr_filled self <? len (wr_bytes self)) then poll_end reads self else
  ensure_deadline self >>!
  match reads with
  | EndOfStream :: _ => serr (pipe_failure (wr_worker self) Pipe_PrematureEof)
  | Interrupted :: reads | WouldBlock :: reads => sret (PollPending (with_result reads self))
  | [] => sret (PollPending (with_result [] self))
  | ReadFails code :: _ => serr (pipe_failure (wr_worker self) (Pipe_Native code))
  | Arrives first rest :: reads =>
      let count := Z.min (len (first :: rest)) (len (wr_bytes self) - wr_filled self) in
      let self := with_bytes (splice (wr_bytes self) (wr_filled self) (slice (first :: rest) 0 count))
                             (wr_filled self + count) self in
      match slice (first :: rest) count (len (first :: rest)) with
      | [] => poll_fill reads self
      | next :: more => poll_end (Arrives next more :: reads) self
      end
  end.

Definition poll_receipt (self : AuthWorkerReplyReceipt) : piped AuthWorkerResultPoll := poll_fill (wr_result self) self.

End Pipes.

(** ** Workers *)

Section Workers.
Context {A W F : Type} {B : ExactAuthWorkerAuthority A W F}.

(** A call of the authority that may have reaped the worker. *)
Definition observe_reap {T} (m : stm (A * W) F (option bool)) (k : option bool -> T) : stm (ExactAuthWorker A * W) F T :=
  fun '(self, w) =>
    let '(r, (authority, w)) := m (ew_authority self, w) in
    match r with
    | Ok (Some clean) => (Ok (k (Some clean)), ({| ew_authority := authority; ew_armed := false |}, w))
    | Ok None => (Ok (k None), ({| ew_authority := authority; ew_armed := ew_armed self |}, w))
    | Err e => (Err e, ({| ew_authority := authority; ew_armed := ew_armed self |}, w))
    | Panic => (Panic, ({| ew_authority := authority; ew_armed := ew_armed self |}, w))
    end.

Definition worker_try_reap_after_result : stm (ExactAuthWorker A * W) F AuthWorkerRetirement :=
  observe_reap authority_try_reap_after_result
    (fun proof => match proof with
                  | None => Retirement_Pending
                  | Some clean => if clean then Retirement_Clean else Retirement_Rejected
                  end).

Definition worker_try_terminate_and_reap : stm (ExactAuthWorker A * W) F bool :=
  observe_reap authority_try_terminate_and_reap (fun proof => bool_decide (is_Some proof)).

(** [Drop for ExactAuthWorker]. *)
Definition drop_worker {E} (self : ExactAuthWorker A) : stm W E unit :=
  fun w =>
    if ew_armed self then
      match authority_emergency_terminate_and_reap (ew_authority self, w) with
      | (Panic, (_, w)) => (Panic, w)
      | (_, (_, w)) => (Ok tt, w)
      end
    else (Ok tt, w).

End Workers.

(** ** The pool *)

Section Pool.
Context {A W F : Type} {C : Clock W} {U : UptimeClock W} {H : Sha256} {B : ExactAuthWorkerAuthority A W F}.

Abbreviation Pool := (AuthWorkerPool A).
Abbreviation Failure := (AuthAdapterError F).
Abbreviation method T := (stm (Pool * W) Failure T).

Definition with_slots (slots : list (option (WorkerSlot A))) (self : Pool) : Pool :=
  {| ap_slots := slots; ap_live_jobs := ap_live_jobs self;
     ap_last_worker_generation := ap_last_worker_generation self; ap_events := ap_events self |}.
Definition with_live_jobs (jobs : gset bytes) (self : Pool) : Pool :=
  {| ap_slots := ap_slots self; ap_live_jobs := jobs;
     ap_last_worker_generation := ap_last_worker_generation self; ap_events := ap_events self |}.
Definition with_last_generation (generation : Z) (self : Pool) : Pool :=
  {| ap_slots := ap_slots self; ap_live_jobs := ap_live_jobs self;
     ap_last_worker_generation := generation; ap_events := ap_events self |}.
Definition pool_event (event : PoolEvent) (self : Pool) : Pool :=
  {| ap_slots := ap_slots self; ap_live_jobs := ap_live_jobs self;
     ap_last_worker_generation := ap_last_worker_generation self; ap_events := ap_events self ++ [event] |}.

Definition change (f : Pool -> Pool) : method unit := on_self (smodify f).
Definition pool_now : method Pool := let! (self, _) := sget in sret self.

(** [self.slots.get(index).and_then(Option::as_ref)]. *)
Definition slot_at (self : Pool) (index : nat) : option (WorkerSlot A) := ap_slots self !! index ≫= id.
Definition set_slot (index : nat) (slot : option (WorkerSlot A)) (self : Pool) : Pool :=
  with_slots (<[index := slot]> (ap_slots self)) self.
Definition forget_job (job_id : bytes) (self : Pool) : Pool := with_live_jobs (ap_live_jobs self ∖ {[job_id]}) self.

(** [.and_then(|slot| slot.pending.as_ref())]. *)
Definition pending_at (self : Pool) (index : nat) : option PendingRecord :=
  match slot_at self index with Some slot => ws_pending slot | None => None end.

Definition slot_index (worker : AuthWorkerIdentity) : nat := Z.to_nat (wi_slot worker).

Definition with_ws_pending (pending : option PendingRecord) (slot : WorkerSlot A) : WorkerSlot A :=
  {| ws_identity := ws_identity slot; ws_worker := ws_worker slot; ws_endpoint := ws_endpoint slot; ws_pending := pending |}.
Definition with_worker (worker : ExactAuthWorker A) (slot : WorkerSlot A) : WorkerSlot A :=
  {| ws_identity := ws_identity slot; ws_worker := worker; ws_endpoint := ws_endpoint slot; ws_pending := ws_pending slot |}.
Definition with_outcome (outcome : PendingOutcome) (pending : PendingRecord) : PendingRecord :=
  {| pr_input := pr_input pending; pr_job := pr_job pending; pr_deadline := pr_deadline pending; pr_outcome := outcome |}.

(** [deadline.to_local_instant().is_err()]. *)
Definition expired (deadline : Z) : method bool :=
  fun '(self, w) =>
    match to_local_instant deadline w with
    | (Ok _, w) => (Ok false, (self, w))
    | (Err _, w) => (Ok true, (self, w))
    | (Panic, w) => (Panic, (self, w))
    end.

(** A call of the worker in a slot, recorded when it reaped. *)
Definition call_worker {T} (index : nat) (slot : WorkerSlot A) (m : stm (ExactAuthWorker A * W) F T)
  (clean : T -> option bool) : method T :=
  fun '(self, w) =>
    let '(r, (worker, w)) := m (ws_worker slot, w) in
    let self := set_slot index (Some (with_worker worker slot)) self in
    match r with
    | Ok value =>
        (Ok value, (match clean value with
                    | Some clean => pool_event (WorkerReaped (ws_identity slot) clean) self
                    | None => self
                    end, w))
    | Err failure => (Err (Adapter_WorkerCleanupFailed failure), (self, w))
    | Panic => (Panic, (self, w))
    end.

Definition terminate_slot (index : nat) : method unit :=
  let! self := pool_now in
  let! slot := slift (ok_or (slot_at self index) Adapter_UnknownWorker) in
  let! reaped := call_worker index slot worker_try_terminate_and_reap (fun reaped : bool => if reaped then Some false else None) in
  if negb reaped then serr (Adapter_WorkerRetirementPending (ws_identity slot)) else
  match ws_pending slot with
  | Some pending => change (forget_job (aj_job_id (pr_job pending)))
  | None => sret tt
  end >>!
  change (set_slot index None).

Definition mark_rejected (index : nat) : method unit :=
  let! self := pool_now in
  match slot_at self index with
  | Some slot =>
      match ws_pending slot with
      | Some pending => change (set_slot index (Some (with_ws_pending (Some (with_outcome Rejected pending)) slot)))
      | None => sret tt
      end
  | None => sret tt
  end.

(** The rejections all terminate the worker first. *)
Definition reject {T} (index : nat) (error : Failure) : method T :=
  mark_rejected index >>! terminate_slot index >>! serr error.

Definition is_idle (slot : WorkerSlot A) : bool :=
  negb (bool_decide (is_Some (ws_pending slot))) && bool_decide (is_Some (ws_endpoint slot)).

Fixpoint find_idle (slots : list (option (WorkerSlot A))) (index : nat) : option (nat * WorkerSlot A) :=
  match slots with
  | [] => None
  | Some slot :: slots => if is_idle slot then Some (index, slot) else find_idle slots (S index)
  | None :: slots => find_idle slots (S index)
  end.

Definition pending_records (self : Pool) : list PendingRecord := omap (fun slot : option (WorkerSlot A) => slot ≫= (fun slot => ws_pending slot)) (ap_slots self).

Definition uid_pending (uid : Z) (self : Pool) : Z :=
  len (filter (fun pending => input_effective_uid (pr_input pending) = uid) (pending_records self)).

Definition dispatch_input (input : PendingAuthInput) (job_id : bytes) (deadline : Z) : method DispatchedAuthJob :=
  let! _ := on_world (smap_err Adapter_Protocol (to_local_instant deadline)) in
  let audit_identity := input_audit_identity input in
  let effective_uid := input_effective_uid input in
  let effective_gid := input_effective_gid input in
  let frame_digest := input_frame_digest input in
  if bool_decide (audit_identity = zeros 32) || (effective_uid =? 0) || (effective_gid =? 0)
     || (effective_uid =? U32_MAX) || (effective_gid =? U32_MAX)
  then serr Adapter_CapacityExceeded else
  let! self := pool_now in
  if bool_decide (job_id ∈ ap_live_jobs self) then serr Adapter_InvalidJobIdentity else
  if MAX_PENDING_PER_UID <=? uid_pending effective_uid self then serr Adapter_CapacityExceeded else
  let! (index, slot) := slift (ok_or (find_idle (ap_slots self) 0) Adapter_Saturated) in
  let job := {| aj_worker := ws_identity slot; aj_job_id := job_id; aj_audit_identity := audit_identity;
                aj_effective_uid := effective_uid; aj_effective_gid := effective_gid;
                aj_frame_digest := frame_digest; aj_deadline := deadline |} in
  change (fun self => with_live_jobs ({[job_id]} ∪ ap_live_jobs self) self) >>!
  let! endpoint := slift (expect (ws_endpoint slot)) in
  let pending := {| pr_input := input; pr_job := job; pr_deadline := deadline; pr_outcome := AwaitingResult |} in
  change (set_slot index (Some {| ws_identity := ws_identity slot; ws_worker := ws_worker slot;
                                  ws_endpoint := None; ws_pending := Some pending |})) >>!
  change (pool_event (JobDispatched job input deadline)) >>!
  sret {| da_job := job; da_request := we_request endpoint;
          da_reply_receipt := {| wr_worker := aj_worker job; wr_job_id := aj_job_id job; wr_result := we_result endpoint;
                                 wr_deadline := deadline; wr_bytes := zeros AUTH_WORKER_RESULT_BYTES; wr_filled := 0 |} |}.

Definition dispatch (raw : RawMachRecord) (job_id : bytes) (deadline : Z) : method DispatchedAuthJob :=
  if MAX_SUPERVISOR_RECORD_BYTES <? len (mr_bytes raw) then serr Adapter_CapacityExceeded else
  dispatch_input (PendingMach raw) job_id deadline.

Definition dispatch_exec_trap (audit_identity : bytes) (effective_uid effective_gid : Z)
  (frame_digest expected_code_identity job_id : bytes) (deadline : Z) : method DispatchedAuthJob :=
  if bool_decide (frame_digest = zeros 32) || bool_decide (expected_code_identity = zeros 32)
  then serr Adapter_CapacityExceeded else
  dispatch_input (PendingTrap {| pt_audit_identity := audit_identity; pt_effective_uid := effective_uid;
                                 pt_effective_gid := effective_gid; pt_frame_digest := frame_digest;
                                 pt_expected_code_identity := expected_code_identity |}) job_id deadline.

(** The pending job of a slot that is known to have one. *)
Definition matched_pending (index : nat) : method (WorkerSlot A * PendingRecord) :=
  let! self := pool_now in
  let! slot := slift (expect (slot_at self index)) in
  let! pending := slift (expect (ws_pending slot)) in
  sret (slot, pending).

Definition result_mismatch (receipt : AuthWorkerReplyReceipt) (result : AuthWorkerResult) (expect_exec_trap : bool)
  (pending : option PendingRecord) : bool :=
  match pending with
  | Some pending =>
      negb (bool_decide (wr_job_id receipt = aj_job_id (pr_job pending)))
      || negb (match pr_outcome pending with AwaitingResult => true | _ => false end)
      || negb (bool_decide (pr_job pending = ar_job result))
      || negb (Bool.eqb (is_exec_trap (pr_input pending)) expect_exec_trap)
  | None => true
  end.

Definition accept_result (received : ReceivedAuthWorkerResult) (expect_exec_trap : bool) : method AuthWorkerIdentity :=
  let receipt := ra_receipt received in
  let result := ra_result received in
  let index := slot_index (wr_worker receipt) in
  let! self := pool_now in
  let! mismatch :=
    match slot_at self index with
    | Some slot =>
        if bool_decide (ws_identity slot = wr_worker receipt)
        then sret (result_mismatch receipt result expect_exec_trap (ws_pending slot))
        else serr Adapter_UnknownWorker
    | None => serr Adapter_UnknownWorker
    end in
  if mismatch : bool then reject index Adapter_ResultMismatch else
  let! (_, pending) := matched_pending index in
  let! late := expired (pr_deadline pending) in
  if late : bool then reject index Adapter_DeadlineExpired else
  let! self := pool_now in
  let expected := pending_at self index ≫= (fun pending => expected_code_identity (pr_input pending)) in
  if bool_decide (ar_code_identity result = zeros 32)
     || match expected with Some expected => negb (bool_decide (expected = ar_code_identity result)) | None => false end
  then reject index Adapter_AuthenticationRejected else
  let! (slot, pending) := matched_pending index in
  change (set_slot index (Some (with_ws_pending (Some (with_outcome (Validated (ar_code_identity result)) pending)) slot))) >>!
  change (pool_event (ResultAccepted received expect_exec_trap)) >>!
  sret (wr_worker receipt).

(** [slot.pending.take()], the job is forgotten and the slot retired. *)
Definition retire_slot (index : nat) (pending : PendingRecord) : method unit :=
  change (forget_job (aj_job_id (pr_job pending))) >>! change (set_slot index None).

Definition poll_completed_authentication (worker : AuthWorkerIdentity) : method CompletedAuthentication :=
  let index := slot_index worker in
  let! self := pool_now in
  let! slot := slift (ok_or (slot_at self index) Adapter_UnknownWorker) in
  if negb (bool_decide (ws_identity slot = worker)) then serr Adapter_UnknownWorker else
  let! pending := slift (ok_or (ws_pending slot) Adapter_UnknownWorker) in
  match pr_outcome pending with
  | AwaitingResult | Rejected => serr Adapter_ResultMismatch
  | Validated code_identity =>
      let! late := expired (pr_deadline pending) in
      if late : bool then reject index Adapter_DeadlineExpired else
      let! retirement := call_worker index slot worker_try_reap_after_result
        (fun retirement => match retirement with
                           | Retirement_Pending => None | Retirement_Clean => Some true | Retirement_Rejected => Some false
                           end) in
      match retirement with
      | Retirement_Pending => serr (Adapter_WorkerRetirementPending worker)
      | Retirement_Rejected => retire_slot index pending >>! serr Adapter_WorkerExitedAbnormally
      | Retirement_Clean =>
          let! late := expired (pr_deadline pending) in
          if late : bool then retire_slot index pending >>! serr Adapter_DeadlineExpired else
          retire_slot index pending >>!
          let completed := completion (pr_input pending) code_identity (pr_deadline pending) in
          change (pool_event (Authenticated (pr_job pending) completed)) >>!
          sret completed
      end
  end.

Definition poll_completed (worker : AuthWorkerIdentity) : method AuthenticatedMachRecord :=
  let! completed := poll_completed_authentication worker in
  match completed with CompletedMach record => sret record | CompletedTrap _ => serr Adapter_ResultMismatch end.

Definition poll_completed_exec_trap (worker : AuthWorkerIdentity) : method AuthenticatedExecTrap :=
  let! completed := poll_completed_authentication worker in
  match completed with CompletedTrap record => sret record | CompletedMach _ => serr Adapter_ResultMismatch end.

Definition complete (received : ReceivedAuthWorkerResult) : method AuthenticatedMachRecord :=
  let! worker := accept_result received false in poll_completed worker.
Definition complete_exec_trap (received : ReceivedAuthWorkerResult) : method AuthenticatedExecTrap :=
  let! worker := accept_result received true in poll_completed_exec_trap worker.

Definition cancel (worker : AuthWorkerIdentity) : method unit :=
  let index := slot_index worker in
  let! self := pool_now in
  let! slot := slift (ok_or (slot_at self index) Adapter_UnknownWorker) in
  if negb (bool_decide (ws_identity slot = worker)) then serr Adapter_UnknownWorker else
  mark_rejected index >>! terminate_slot index.

(** The worker that is refused is dropped. *)
Definition install_replacement (index generation : Z) (worker : ExactAuthWorker A) (endpoint : AuthWorkerEndpoint)
  : method AuthWorkerIdentity :=
  let! self := pool_now in
  if (len (ap_slots self) <=? index) || bool_decide (is_Some (slot_at self (Z.to_nat index)))
     || (generation <=? ap_last_worker_generation self)
  then on_world (drop_worker worker) >>! serr Adapter_InvalidReplacement else
  let identity := {| wi_slot := index; wi_generation := generation |} in
  change (with_last_generation generation) >>!
  change (set_slot (Z.to_nat index)
            (Some {| ws_identity := identity; ws_worker := worker; ws_endpoint := Some endpoint; ws_pending := None |})) >>!
  sret identity.

(** The workers the service starts with: their generations, themselves and
    their pipes. *)
Definition precreated : Type := Z * ExactAuthWorker A * AuthWorkerEndpoint.

Definition first_slot (slot : Z) (entry : precreated) : WorkerSlot A :=
  let '(generation, worker, endpoint) := entry in
  {| ws_identity := {| wi_slot := slot; wi_generation := generation |}; ws_worker := worker;
     ws_endpoint := Some endpoint; ws_pending := None |}.

Fixpoint collect_slots (workers : list precreated) (slot : Z) (seen : gset Z) (last : Z) (slots : list (option (WorkerSlot A)))
  : res Failure (list (option (WorkerSlot A)) * Z) :=
  match workers with
  | [] => Ok (slots, last)
  | entry :: workers =>
      let generation := fst (fst entry) in
      if bool_decide (generation ∈ seen) then Err Adapter_InvalidReplacement else
      let? slot_u8 := expect (try_from U8_MAX slot) in
      collect_slots workers (slot + 1) ({[generation]} ∪ seen) (Z.max last generation)
        (slots ++ [Some (first_slot slot_u8 entry)])
  end.

Definition drop_workers (workers : list precreated) : stm W Failure unit :=
  foldr (fun entry rest => drop_worker (snd (fst entry)) >>! rest) (sret tt) workers.

Definition from_precreated_workers (workers : list precreated) : stm W Failure Pool :=
  if (len workers =? 0) || (MAX_AUTH_WORKERS <? len workers)
  then drop_workers workers >>! serr Adapter_CapacityExceeded else
  match collect_slots workers 0 ∅ 0 [] with
  | Ok (slots, last) => sret {| ap_slots := slots; ap_live_jobs := ∅; ap_last_worker_generation := last; ap_events := [] |}
  | Err error => drop_workers workers >>! serr error
  | Panic => slift Panic
  end.

End Pool.
