(* ===== verification/AuthHistory.v ===== *)
(** * AuthHistory: what the pool of authentication workers keeps true

    [history] says which sequences of events may happen: a worker is given one
    job at most, a result is accepted once, before the worker is reaped, and only
    if it is the worker's answer to that job; the worker is reaped once, and only a worker that was then reaped as clean authenticates
    its job. [pool_wf] ties the slots to what has happened; each change that a
    method makes keeps it. *)

From stdpp Require Import gmap.
From S2P Require Import Prelude Bytes Tools Negotiation Native SupervisorWire Supervisor BrokerReport Watchdog AuthWire AuthPool.

(** ** Histories *)

Definition event_worker (event : PoolEvent) : AuthWorkerIdentity :=
  match event with
  | JobDispatched job _ _ | Authenticated job _ => aj_worker job
  | ResultAccepted received _ => wr_worker (ra_receipt received)
  | WorkerReaped worker _ => worker
  end.

(** No event of [events] that satisfies [P] is of [worker]. *)
Definition untouched (P : PoolEvent -> bool) (worker : AuthWorkerIdentity) (events : list PoolEvent) : Prop :=
  forall event, event ∈ events -> P event = true -> event_worker event <> worker.

Definition any_event (_ : PoolEvent) : bool := true.
Definition is_accept (event : PoolEvent) : bool := match event with ResultAccepted _ _ => true | _ => false end.
Definition is_reap (event : PoolEvent) : bool := match event with WorkerReaped _ _ => true | _ => false end.
Definition is_authenticated (event : PoolEvent) : bool := match event with Authenticated _ _ => true | _ => false end.

(** The trap's target must be the expected code. *)
Definition expects (input : PendingAuthInput) (code_identity : bytes) : Prop :=
  match expected_code_identity input with Some expected => expected = code_identity | None => True end.

(** A received result is the answer to a job: it came over the pipe of the
    job's worker, on the receipt of that job, names the job in full, was taken
    for the right kind of input, and names an acceptable code. *)
Definition result_code (received : ReceivedAuthWorkerResult) : bytes := ar_code_identity (ra_result received).

Definition answers (received : ReceivedAuthWorkerResult) (exec_trap : bool) (job : AuthWorkerJob) (input : PendingAuthInput)
  : Prop :=
  wr_worker (ra_receipt received) = aj_worker job /\ wr_job_id (ra_receipt received) = aj_job_id job /\
  ar_job (ra_result received) = job /\ exec_trap = is_exec_trap input /\
  result_code received <> zeros 32 /\ expects input (result_code received).

Section History.
Context {H : Sha256}.

(** The job asks for exactly the input, and its credentials are admissible. *)
Definition job_for (job : AuthWorkerJob) (input : PendingAuthInput) (deadline : Z) : Prop :=
  aj_audit_identity job = input_audit_identity input /\ aj_effective_uid job = input_effective_uid input /\
  aj_effective_gid job = input_effective_gid input /\ aj_frame_digest job = input_frame_digest input /\
  aj_deadline job = deadline /\ aj_audit_identity job <> zeros 32 /\
  aj_effective_uid job <> 0 /\ aj_effective_gid job <> 0 /\
  aj_effective_uid job <> U32_MAX /\ aj_effective_gid job <> U32_MAX.

Inductive history : list PoolEvent -> Prop :=
| history_nil : history []
| history_dispatch es job input deadline :
    history es -> job_for job input deadline -> untouched any_event (aj_worker job) es ->
    history (es ++ [JobDispatched job input deadline])
| history_accept es job input deadline received exec_trap :
    history es -> JobDispatched job input deadline ∈ es -> answers received exec_trap job input ->
    untouched is_accept (aj_worker job) es -> untouched is_reap (aj_worker job) es ->
    history (es ++ [ResultAccepted received exec_trap])
| history_reap es worker authorizes :
    history es -> untouched is_reap worker es -> history (es ++ [WorkerReaped worker authorizes])
| history_authenticate es job input deadline received exec_trap :
    history es -> JobDispatched job input deadline ∈ es -> ResultAccepted received exec_trap ∈ es ->
    answers received exec_trap job input ->
    WorkerReaped (aj_worker job) true ∈ es -> untouched is_authenticated (aj_worker job) es ->
    history (es ++ [Authenticated job (completion input (result_code received) deadline)]).

Lemma untouched_nil P worker : untouched P worker [].
Proof. intros e He. now apply not_elem_of_nil in He. Qed.

Lemma untouched_snoc P worker es e :
  untouched P worker (es ++ [e]) <-> untouched P worker es /\ (P e = true -> event_worker e <> worker).
Proof.
  unfold untouched. split.
  - intros Hu. split; [intros x Hx; apply Hu; set_solver|]. apply Hu. set_solver.
  - intros [Hu He] x Hx. apply elem_of_app in Hx as [Hx| ->%list_elem_of_singleton]; auto.
Qed.

Lemma untouched_any P worker es : untouched any_event worker es -> untouched P worker es.
Proof. intros Hu e He _. now apply Hu. Qed.

(** A worker whose generation is later than every event's is untouched. *)
Lemma untouched_later P worker es generation :
  Forall (fun e => wi_generation (event_worker e) <= generation) es -> generation < wi_generation worker ->
  untouched P worker es.
Proof. intros Hf Hg e He _ Heq. rewrite Forall_forall in Hf. apply Hf in He. rewrite Heq in He. lia. Qed.

Lemma history_prefix es es' : history (es ++ es') -> history es.
Proof.
  revert es. induction es' as [|e es' IH] using rev_ind; intros es Hh; [now rewrite app_nil_r in Hh|].
  rewrite app_assoc in Hh. apply IH. inversion Hh as [Hn|? ? ? ? ? ? ? Hn|? ? ? ? ? ? ? ? ? ? ? Hn|? ? ? ? ? Hn|? ? ? ? ? ? ? ? ? ? ? ? Hn].
  1: symmetry in Hn; apply app_eq_nil in Hn as [_ Hn]; discriminate Hn.
  all: apply app_inj_tail in Hn as [<- _]; done.
Qed.

Ltac last_event Hh :=
  let Hn := fresh "Hn" in
  inversion Hh as [Hn|? ? ? ? ? ? ? Hn|? ? ? ? ? ? ? ? ? ? ? Hn|? ? ? ? ? Hn|? ? ? ? ? ? ? ? ? ? ? ? Hn];
  [symmetry in Hn; apply app_eq_nil in Hn as [_ Hn]; discriminate Hn|apply app_inj_tail in Hn as [-> Hn]; try discriminate Hn..].

Lemma accept_inv es received trap :
  history (es ++ [ResultAccepted received trap]) ->
  exists job input deadline, history es /\ JobDispatched job input deadline ∈ es /\ answers received trap job input /\
    untouched is_accept (aj_worker job) es /\ untouched is_reap (aj_worker job) es.
Proof. intros Hh. last_event Hh. injection Hn as <- <-. eauto 12. Qed.

Lemma authenticate_inv es job completed :
  history (es ++ [Authenticated job completed]) ->
  exists input deadline received trap, completed = completion input (result_code received) deadline /\ history es /\
    JobDispatched job input deadline ∈ es /\ ResultAccepted received trap ∈ es /\ answers received trap job input /\
    WorkerReaped (aj_worker job) true ∈ es /\ untouched is_authenticated (aj_worker job) es.
Proof. intros Hh. last_event Hh. injection Hn as <- <-. eauto 15. Qed.

Lemma history_upto es1 e es2 : history (es1 ++ e :: es2) -> history (es1 ++ [e]).
Proof. rewrite cons_middle, app_assoc. apply history_prefix. Qed.

Lemma dispatched_for es job input deadline :
  history es -> JobDispatched job input deadline ∈ es -> job_for job input deadline.
Proof.
  induction 1; intros He; [now apply not_elem_of_nil in He|..].
  all: apply elem_of_app in He as [He|He%list_elem_of_singleton]; auto; try discriminate.
  now injection He as -> -> ->.
Qed.

Lemma accept_after_dispatch es received trap :
  history es -> ResultAccepted received trap ∈ es ->
  exists es1 es2 job input deadline,
    es = es1 ++ ResultAccepted received trap :: es2 /\ JobDispatched job input deadline ∈ es1 /\
    answers received trap job input /\ untouched is_reap (aj_worker job) es1.
Proof.
  intros Hh (es1 & es2 & ->)%list_elem_of_split.
  apply history_upto, accept_inv in Hh as (job & input & deadline & _ & ? & ? & _ & ?).
  now exists es1, es2, job, input, deadline.
Qed.

(** One result is accepted of a worker. *)
Lemma accepted_once es received trap received' trap' :
  history es -> ResultAccepted received trap ∈ es -> ResultAccepted received' trap' ∈ es ->
  wr_worker (ra_receipt received) = wr_worker (ra_receipt received') -> received = received'.
Proof.
  assert (forall p r t q r' t', history (p ++ ResultAccepted r t :: q) -> ResultAccepted r' t' ∈ p ->
    wr_worker (ra_receipt r') <> wr_worker (ra_receipt r)) as Hx.
  { intros p r t q r' t' Hp Hin. apply history_upto, accept_inv in Hp as (job & _ & _ & _ & _ & [Hw _] & Hu & _).
    rewrite Hw. exact (Hu _ Hin eq_refl). }
  intros Hh (p & q & ->)%list_elem_of_split [Hin|[Heq|Hin]%elem_of_cons]%elem_of_app Heq'.
  - destruct (Hx _ _ _ _ _ _ Hh Hin). now symmetry.
  - congruence.
  - apply list_elem_of_split in Hin as (p' & q' & ->).
    destruct (Hx (p ++ ResultAccepted received trap :: p') received' trap' q' received trap); [|set_solver|done].
    now rewrite <- app_assoc.
Qed.

Lemma dispatch_once es job input deadline job' input' deadline' :
  history es -> JobDispatched job input deadline ∈ es -> JobDispatched job' input' deadline' ∈ es ->
  aj_worker job = aj_worker job' -> job = job' /\ input = input' /\ deadline = deadline'.
Proof.
  induction 1 as [|es j i d Hh IH Hj Hu|es j i d c tr Hh IH|es w b Hh IH|es j i d c tr Hh IH].
  1: intros He; now apply not_elem_of_nil in He.
  all: intros [K1|K1%list_elem_of_singleton]%elem_of_app [K2|K2%list_elem_of_singleton]%elem_of_app Heq;
    try discriminate; auto.
  - subst. injection K2 as -> -> ->. destruct (Hu _ K1 eq_refl Heq).
  - injection K1 as -> -> ->. destruct (Hu _ K2 eq_refl). now symmetry.
  - injection K1 as -> -> ->. now injection K2 as -> -> ->.
Qed.

Lemma sublist_here {T} (x : T) l1 l2 k : x ∈ l1 -> k `sublist_of` l2 -> x :: k `sublist_of` l1 ++ l2.
Proof. intros Hx Hk. apply (sublist_app [x] l1 k l2); [now apply singleton_sublist_l|done]. Qed.

(** What an authentication rests on, in order. *)
Lemma authenticated_rests es job completed :
  history es -> Authenticated job completed ∈ es ->
  exists input deadline received,
    completed = completion input (result_code received) deadline /\ job_for job input deadline /\
    answers received (is_exec_trap input) job input /\
    [JobDispatched job input deadline; ResultAccepted received (is_exec_trap input); WorkerReaped (aj_worker job) true;
     Authenticated job completed] `sublist_of` es.
Proof.
  intros Hh (es1 & es2 & ->)%list_elem_of_split.
  apply history_upto, authenticate_inv in Hh as (input & deadline & received & trap & -> & Hh & Hd & Ha & Hans & Hw & _).
  destruct (accept_after_dispatch es1 received trap) as (p & q & job' & input' & deadline' & -> & Hd' & Hans' & Hr); [done..|].
  destruct (dispatch_once (p ++ ResultAccepted received trap :: q) job input deadline job' input' deadline')
    as (<- & <- & <-); [done|done|apply elem_of_app; auto| |].
  { destruct Hans as [<- _], Hans' as [<- _]. done. }
  assert (trap = is_exec_trap input) as -> by apply Hans.
  exists input, deadline, received. split; [done|].
  split; [now apply (dispatched_for (p ++ ResultAccepted received (is_exec_trap input) :: q))|].
  split; [done|]. rewrite <- app_assoc. apply sublist_here; [done|]. apply sublist_skip.
  apply elem_of_app in Hw as [Hw|[Hw|Hw]%elem_of_cons]; [now destruct (Hr _ Hw eq_refl)|discriminate|].
  apply sublist_here; [done|]. apply sublist_skip, sublist_nil_l.
Qed.

Lemma authenticated_once es1 es2 job completed job' completed' :
  history (es1 ++ Authenticated job completed :: es2) -> Authenticated job' completed' ∈ es1 ++ es2 ->
  aj_worker job <> aj_worker job'.
Proof.
  assert (forall p j c q, history (p ++ Authenticated j c :: q) -> untouched is_authenticated (aj_worker j) p) as Hx.
  { intros p j c q Hp. apply history_upto, authenticate_inv in Hp. naive_solver. }
  intros Hh [He|He]%elem_of_app Heq.
  - now destruct (Hx _ _ _ _ Hh _ He eq_refl).
  - apply list_elem_of_split in He as (p & q & ->). rewrite app_comm_cons, app_assoc in Hh.
    apply (Hx _ _ _ _ Hh (Authenticated job completed)); [|done|done]. apply elem_of_app. right. now left.
Qed.

End History.

(** * Well-formed pools, and the changes that keep them so

    At most four workers, in numbered slots; an idle worker has its pipes and
    no history; a busy one has its one job; the live jobs are exactly those of
    the busy workers; no user has more than two. *)

(** ** The live jobs *)

(** A pending job as the pool counts it: its id and its user. *)
Definition keys_wf (keys : list (bytes * Z)) (live : gset bytes) : Prop :=
  NoDup (fst <$> keys) /\ live = list_to_set (fst <$> keys) /\
  forall uid, len (filter (fun key => snd key = uid) keys) <= MAX_PENDING_PER_UID.

Lemma keys_drop l1 id uid l2 live :
  keys_wf (l1 ++ (id, uid) :: l2) live -> keys_wf (l1 ++ l2) (live ∖ {[id]}).
Proof.
  intros (Hn & -> & Hu). rewrite fmap_app, fmap_cons in Hn. cbn [fst] in Hn.
  apply NoDup_app in Hn as (H1 & H2 & [H3 H4]%NoDup_cons). split; [|split].
  - rewrite fmap_app. apply NoDup_app. split; [done|]. split; [|done]. intros x Hx Hy. apply (H2 x Hx). now right.
  - rewrite !fmap_app, fmap_cons. cbn [fst]. rewrite !list_to_set_app_L. cbn [list_to_set].
    assert (id ∉ fst <$> l1) by (intros Hx; apply (H2 id Hx); now left). set_solver.
  - intros u. specialize (Hu u). rewrite !filter_app, filter_cons in *. cbn [snd] in Hu.
    case_decide; rewrite ?len_app, ?len_cons in *; lia.
Qed.

Lemma keys_add l1 id uid l2 live :
  keys_wf (l1 ++ l2) live -> id ∉ live -> len (filter (fun key => snd key = uid) (l1 ++ l2)) < MAX_PENDING_PER_UID ->
  keys_wf (l1 ++ (id, uid) :: l2) ({[id]} ∪ live).
Proof.
  intros (Hn & -> & Hu) Hi Hc. rewrite fmap_app in Hn, Hi. rewrite list_to_set_app_L in Hi.
  apply NoDup_app in Hn as (H1 & H2 & H3). split; [|split].
  - rewrite fmap_app, fmap_cons. cbn [fst]. apply NoDup_app. split; [done|]. split.
    + intros x Hx [->|Hy]%elem_of_cons; [set_solver|]. now apply (H2 x).
    + apply NoDup_cons. split; [set_solver|done].
  - rewrite !fmap_app, fmap_cons. cbn [fst]. rewrite !list_to_set_app_L. cbn [list_to_set]. set_solver.
  - intros u. specialize (Hu u). rewrite !filter_app, filter_cons in *. cbn [snd].
    rewrite !len_app in *. case_decide; [subst; rewrite len_cons|]; lia.
Qed.

Section Wf.
Context {A : Type} {H : Sha256}.
Implicit Types (self : AuthWorkerPool A) (slot : WorkerSlot A).

Definition key_of (p : PendingRecord) : bytes * Z := (aj_job_id (pr_job p), input_effective_uid (pr_input p)).
Definition record_of (slot : option (WorkerSlot A)) : list PendingRecord :=
  match slot with Some slot => option_list (ws_pending slot) | None => [] end.
Definition keys self : list (bytes * Z) := key_of <$> pending_records self.

(** The code that the worker of a pending job answered with. *)
Definition accepted_code (es : list PoolEvent) (p : PendingRecord) (code : bytes) : Prop :=
  exists received trap, ResultAccepted received trap ∈ es /\ answers received trap (pr_job p) (pr_input p) /\
    result_code received = code.

Lemma accepted_code_app es evs p code : accepted_code es p code -> accepted_code (es ++ evs) p code.
Proof. intros (received & trap & Hin & Hrest). exists received, trap. split; [apply elem_of_app; auto|done]. Qed.

Definition pending_wf (es : list PoolEvent) (worker : AuthWorkerIdentity) (p : PendingRecord) : Prop :=
  aj_worker (pr_job p) = worker /\ JobDispatched (pr_job p) (pr_input p) (pr_deadline p) ∈ es /\
  untouched is_authenticated worker es /\
  match pr_outcome p with
  | AwaitingResult => untouched is_accept worker es
  | Validated code => accepted_code es p code
  | Rejected => True
  end.

Record slot_wf (es : list PoolEvent) (last : Z) (index : nat) slot : Prop := {
  sw_slot : wi_slot (ws_identity slot) = Z.of_nat index;
  sw_generation : wi_generation (ws_identity slot) <= last;
  sw_armed : ew_armed (ws_worker slot) = true;
  sw_alive : untouched is_reap (ws_identity slot) es;
  sw_pending : match ws_pending slot with
               | None => is_Some (ws_endpoint slot) /\ untouched any_event (ws_identity slot) es
               | Some p => pending_wf es (ws_identity slot) p
               end
}.

Record pool_wf self : Prop := {
  pw_count : 0 < len (ap_slots self) <= MAX_AUTH_WORKERS;
  pw_slots : forall index slot, slot_at self index = Some slot -> slot_wf (ap_events self) (ap_last_worker_generation self) index slot;
  pw_history : history (ap_events self);
  pw_generations : Forall (fun e => wi_generation (event_worker e) <= ap_last_worker_generation self) (ap_events self);
  pw_keys : keys_wf (keys self) (ap_live_jobs self)
}.

(** ** Looking at a pool *)

Lemma pending_records_eq self : pending_records self = ap_slots self ≫= record_of.
Proof.
  unfold pending_records. induction (ap_slots self) as [|[slot|] slots IH]; cbn; [done| |done].
  destruct (ws_pending slot); cbn; now rewrite IH.
Qed.

Lemma keys_split self i old :
  ap_slots self !! i = Some old ->
  exists l1 l2, keys self = l1 ++ (key_of <$> record_of old) ++ l2 /\
    forall self' new, ap_slots self' = <[i := new]> (ap_slots self) -> keys self' = l1 ++ (key_of <$> record_of new) ++ l2.
Proof.
  intros Hi. pose proof (lookup_lt_Some _ _ _ Hi) as Hlt.
  exists (key_of <$> (take i (ap_slots self) ≫= record_of)), (key_of <$> (drop (S i) (ap_slots self) ≫= record_of)).
  split.
  - unfold keys. rewrite pending_records_eq. rewrite <- (take_drop_middle _ _ _ Hi) at 1.
    now rewrite bind_app, bind_cons, !fmap_app.
  - intros self' new Hs. unfold keys. rewrite pending_records_eq, Hs, insert_take_drop by done.
    now rewrite bind_app, bind_cons, !fmap_app.
Qed.

Lemma uid_keys uid self : uid_pending uid self = len (filter (fun key => snd key = uid) (keys self)).
Proof.
  unfold uid_pending, keys. induction (pending_records self) as [|p ps IH]; [done|].
  rewrite fmap_cons, !filter_cons. cbn [snd key_of]. repeat case_decide; rewrite ?len_cons; congruence.
Qed.

Lemma slot_at_iff self i slot : slot_at self i = Some slot <-> ap_slots self !! i = Some (Some slot).
Proof. unfold slot_at. destruct (ap_slots self !! i) as [[s|]|] eqn:E; cbn; naive_solver. Qed.

Lemma slot_at_set self i j o :
  slot_at (set_slot i o self) j = if decide (i = j /\ (i < length (ap_slots self))%nat) then o else slot_at self j.
Proof.
  unfold slot_at. cbn. case_decide as Hd.
  - destruct Hd as [<- Hd]. now rewrite list_lookup_insert_eq.
  - destruct (decide (i = j)) as [->|]; [|now rewrite list_lookup_insert_ne].
    rewrite list_insert_ge; [done|]. lia.
Qed.

Lemma slot_at_lt self i slot : slot_at self i = Some slot -> (i < length (ap_slots self))%nat.
Proof. rewrite slot_at_iff. apply lookup_lt_Some. Qed.

(** ** Changes *)

Lemma untouched_app P worker es evs :
  untouched P worker es -> (forall e, e ∈ evs -> event_worker e <> worker) -> untouched P worker (es ++ evs).
Proof. intros Hu He e [Hx|Hx]%elem_of_app Hp; auto. Qed.

Lemma slot_wf_frame es evs last last' i slot :
  slot_wf es last i slot -> (forall e, e ∈ evs -> event_worker e <> ws_identity slot) -> last <= last' ->
  slot_wf (es ++ evs) last' i slot.
Proof.
  intros [H1 H2 H3 H4 H5] He Hl. split; [done|lia|done|now apply untouched_app|].
  destruct (ws_pending slot) as [p|]; [|split; [apply H5|apply untouched_app; [apply H5|done]]].
  destruct H5 as (Hw & Hd & Ha & Ho). split; [done|]. split; [apply elem_of_app; auto|]. split; [now apply untouched_app|].
  destruct (pr_outcome p); [now apply untouched_app|now apply accepted_code_app|done].
Qed.

(** One slot changes, and what happens is of its worker. *)
Lemma wf_change self self' i old new evs :
  pool_wf self -> ap_slots self !! i = Some old -> ap_slots self' = <[i := new]> (ap_slots self) ->
  ap_events self' = ap_events self ++ evs -> history (ap_events self') ->
  ap_last_worker_generation self <= ap_last_worker_generation self' ->
  (forall e, e ∈ evs -> wi_slot (event_worker e) = Z.of_nat i /\
                        wi_generation (event_worker e) <= ap_last_worker_generation self') ->
  (forall slot, new = Some slot -> slot_wf (ap_events self') (ap_last_worker_generation self') i slot) ->
  keys_wf (keys self') (ap_live_jobs self') -> pool_wf self'.
Proof.
  intros [W1 W2 W3 W4 W5] Hi Hs Hev Hh Hl He Hn Hk. split; [|intros j slot Hj|done| |done].
  - rewrite Hs. unfold len in *. now rewrite length_insert.
  - apply slot_at_iff in Hj. rewrite Hs in Hj. destruct (decide (i = j)) as [<-|Hne].
    + rewrite list_lookup_insert_eq in Hj by (now apply lookup_lt_Some in Hi). apply Hn. congruence.
    + rewrite list_lookup_insert_ne in Hj by done. apply slot_at_iff in Hj. pose proof (sw_slot _ _ _ _ (W2 _ _ Hj)) as Hid.
      rewrite Hev. apply (slot_wf_frame _ _ (ap_last_worker_generation self)); [now apply W2| |done].
      intros e Hx Heq. apply He in Hx as [Hx _]. rewrite Heq, Hid in Hx. lia.
  - rewrite Hev. apply Forall_app. split; [eapply Forall_impl; [done|]; cbn; lia|].
    apply Forall_forall. intros e Hx. now apply He.
Qed.

(** The job of the slot stays. *)
Lemma wf_update self self' i slot slot' evs :
  pool_wf self -> slot_at self i = Some slot -> ap_slots self' = <[i := Some slot']> (ap_slots self) ->
  ap_events self' = ap_events self ++ evs -> history (ap_events self') ->
  ap_last_worker_generation self' = ap_last_worker_generation self -> ap_live_jobs self' = ap_live_jobs self ->
  (forall e, e ∈ evs -> event_worker e = ws_identity slot) ->
  key_of <$> ws_pending slot' = key_of <$> ws_pending slot ->
  slot_wf (ap_events self') (ap_last_worker_generation self) i slot' -> pool_wf self'.
Proof.
  intros Hwf Hi Hs Hev Hh Hl Hj He Hk Hn. pose proof (pw_slots _ Hwf _ _ Hi) as Hw. apply slot_at_iff in Hi.
  eapply wf_change; try eassumption; [lia|intros e Hx; rewrite Hl; apply He in Hx as ->; now split; apply Hw|
    intros s [= <-]; now rewrite Hl|].
  destruct (keys_split _ _ _ Hi) as (l1 & l2 & Hk1 & Hk2). rewrite Hj, (Hk2 _ _ Hs).
  replace (key_of <$> record_of (Some slot')) with (key_of <$> record_of (Some slot)); [rewrite <- Hk1; apply Hwf|].
  cbn. destruct (ws_pending slot), (ws_pending slot'); cbn in *; congruence.
Qed.

(** The slot is retired, and its job forgotten. *)
Lemma wf_retire self self' i slot evs :
  pool_wf self -> slot_at self i = Some slot -> ap_slots self' = <[i := None]> (ap_slots self) ->
  ap_events self' = ap_events self ++ evs -> history (ap_events self') ->
  ap_last_worker_generation self' = ap_last_worker_generation self ->
  ap_live_jobs self' = match ws_pending slot with
                       | Some p => ap_live_jobs self ∖ {[aj_job_id (pr_job p)]}
                       | None => ap_live_jobs self
                       end ->
  (forall e, e ∈ evs -> event_worker e = ws_identity slot) -> pool_wf self'.
Proof.
  intros Hwf Hi Hs Hev Hh Hl Hj He. pose proof (pw_slots _ Hwf _ _ Hi) as Hw. apply slot_at_iff in Hi.
  eapply wf_change; try eassumption; [lia|intros e Hx; rewrite Hl; apply He in Hx as ->; now split; apply Hw|
    discriminate|].
  destruct (keys_split _ _ _ Hi) as (l1 & l2 & Hk1 & Hk2). rewrite Hj, (Hk2 _ _ Hs). pose proof (pw_keys _ Hwf) as Hk.
  rewrite Hk1 in Hk. cbn [record_of] in *. destruct (ws_pending slot) as [p|]; cbn [option_list fmap list_fmap app] in *; [now apply (keys_drop _ _ (input_effective_uid (pr_input p)))|done].
Qed.

(** An idle worker gets a job. *)
Lemma wf_dispatch self self' i slot slot' p :
  pool_wf self -> slot_at self i = Some slot -> ws_pending slot = None ->
  ap_slots self' = <[i := Some slot']> (ap_slots self) ->
  ap_events self' = ap_events self ++ [JobDispatched (pr_job p) (pr_input p) (pr_deadline p)] ->
  ap_last_worker_generation self' = ap_last_worker_generation self ->
  ap_live_jobs self' = {[aj_job_id (pr_job p)]} ∪ ap_live_jobs self ->
  ws_identity slot' = ws_identity slot -> ws_worker slot' = ws_worker slot -> ws_pending slot' = Some p ->
  aj_worker (pr_job p) = ws_identity slot -> pr_outcome p = AwaitingResult ->
  job_for (pr_job p) (pr_input p) (pr_deadline p) -> aj_job_id (pr_job p) ∉ ap_live_jobs self ->
  uid_pending (input_effective_uid (pr_input p)) self < MAX_PENDING_PER_UID -> pool_wf self'.
Proof.
  intros Hwf Hi Hidle Hs Hev Hl Hj Hid Hww Hp Hw Ho Hjob Hnew Huid.
  pose proof (pw_slots _ Hwf _ _ Hi) as [S1 S2 S3 S4 S5]. rewrite Hidle in S5. destruct S5 as [_ S5].
  assert (forall P, P (JobDispatched (pr_job p) (pr_input p) (pr_deadline p)) = false ->
          untouched P (ws_identity slot) (ap_events self')) as Hu.
  { intros P HP. rewrite Hev. apply untouched_snoc. split; [now apply untouched_any|]. now rewrite HP. }
  apply slot_at_iff in Hi. eapply wf_change; try eassumption.
  - rewrite Hev. apply history_dispatch; [apply Hwf|done|now rewrite Hw].
  - lia.
  - intros e ->%list_elem_of_singleton. cbn. rewrite Hw, Hl. auto.
  - intros s [= <-]. split; rewrite ?Hid, ?Hww; [done|now rewrite Hl|done|now apply Hu|]. rewrite Hp.
    split; [done|]. split; [rewrite Hev; apply elem_of_app; right; now left|]. split; [now apply Hu|].
    rewrite Ho. now apply Hu.
  - destruct (keys_split _ _ _ Hi) as (l1 & l2 & Hk1 & Hk2). rewrite Hj, (Hk2 _ _ Hs). pose proof (pw_keys _ Hwf) as Hk.
    rewrite uid_keys in Huid. rewrite Hk1 in Hk, Huid. cbn [record_of] in *. rewrite Hidle in Hk, Huid. rewrite Hp.
    now apply keys_add.
Qed.

(** A fresh worker takes a retired slot. *)
Lemma wf_install self self' i slot :
  pool_wf self -> ap_slots self !! i = Some None -> ap_slots self' = <[i := Some slot]> (ap_slots self) ->
  ap_events self' = ap_events self -> ap_live_jobs self' = ap_live_jobs self ->
  ap_last_worker_generation self < ap_last_worker_generation self' ->
  wi_slot (ws_identity slot) = Z.of_nat i -> wi_generation (ws_identity slot) = ap_last_worker_generation self' ->
  ew_armed (ws_worker slot) = true -> is_Some (ws_endpoint slot) -> ws_pending slot = None -> pool_wf self'.
Proof.
  intros Hwf Hi Hs Hev Hj Hlt Hslot Hgen Harmed Hend Hidle.
  assert (forall P, untouched P (ws_identity slot) (ap_events self')) as Hu.
  { intros P. rewrite Hev. eapply untouched_later; [apply Hwf|]. lia. }
  eapply (wf_change _ _ _ _ _ []); try eassumption.
  - now rewrite app_nil_r.
  - rewrite Hev. apply Hwf.
  - lia.
  - intros e He. now apply not_elem_of_nil in He.
  - intros s [= <-]. split; [done|lia|done|done|]. rewrite Hidle. auto.
  - destruct (keys_split _ _ _ Hi) as (l1 & l2 & Hk1 & Hk2). rewrite Hj, (Hk2 _ _ Hs). pose proof (pw_keys _ Hwf) as Hk.
    rewrite Hk1 in Hk. cbn [record_of] in *. now rewrite Hidle.
Qed.

End Wf.
