(* ===== verification/AuthPoolTheory.v ===== *)
(** * AuthPoolTheory: the methods of the pool keep it well-formed

    [safe m Q self w]: [m] run from the pool [self] ends with a well-formed pool
    that remembers all that had happened, and satisfies [Q], unless the process
    was aborted; it is aborted only where a call of an authority aborts it (an
    emergency that cannot reap its worker ends the process). *)

From stdpp Require Import gmap.
From S2P Require Import Prelude Bytes Tools Negotiation Native SupervisorWire Supervisor SupervisorAuth BrokerReport Watchdog AuthWire AuthPool AuthHistory.

(** Some call of the authority aborts the process. *)
Definition authority_aborts {A W F} (B : ExactAuthWorkerAuthority A W F) : Prop :=
  exists a w, fst (authority_try_reap_after_result (a, w)) = Panic \/
    fst (authority_try_terminate_and_reap (a, w)) = Panic \/
    fst (authority_emergency_terminate_and_reap (a, w)) = Panic.

Section Theory.
Context {A W F : Type} {C : Clock W} {U : UptimeClock W} {H : Sha256} {B : ExactAuthWorkerAuthority A W F}.

Abbreviation Pool := (AuthWorkerPool A).
Abbreviation Failure := (AuthAdapterError F).
Abbreviation method T := (stm (Pool * W) Failure T).
Implicit Types (self : Pool) (slot : WorkerSlot A).

Definition safe {T} (m : method T) (Q : res Failure T -> Pool -> W -> Prop) self (w : W) : Prop :=
  wp m (fun r s => pool_wf (fst s) /\ ap_events self `prefix_of` ap_events (fst s) /\
    (r = Panic /\ authority_aborts B \/ r <> Panic /\ Q r (fst s) (snd s))) (self, w).

Lemma safe_intro {T} (m : method T) Q self w r self' w' :
  m (self, w) = (r, (self', w')) -> r <> Panic -> pool_wf self' -> ap_events self `prefix_of` ap_events self' ->
  Q r self' w' -> safe m Q self w.
Proof. unfold safe, wp. intros ->. auto. Qed.

Lemma safe_aborts {T} (m : method T) Q self w self' w' :
  m (self, w) = (Panic, (self', w')) -> authority_aborts B -> pool_wf self' -> ap_events self `prefix_of` ap_events self' ->
  safe m Q self w.
Proof. unfold safe, wp. intros ->. auto. Qed.

Lemma safe_elim {T} (m : method T) Q self w :
  safe m Q self w -> exists r self' w', m (self, w) = (r, (self', w')) /\ pool_wf self' /\
    ap_events self `prefix_of` ap_events self' /\ (r = Panic /\ authority_aborts B \/ r <> Panic /\ Q r self' w').
Proof. unfold safe, wp. destruct (m (self, w)) as [r [self' w']]. intros (? & ? & ?). now exists r, self', w'. Qed.

Lemma safely_err {T} e (Q : res Failure T -> Pool -> W -> Prop) self w :
  pool_wf self -> Q (Err e) self w -> safe (serr e) Q self w.
Proof. intros. now apply (safe_intro _ _ _ _ (Err e) self w). Qed.

Lemma safe_mono {T} (m : method T) (P Q : res Failure T -> Pool -> W -> Prop) self w :
  safe m P self w -> (forall r self' w', P r self' w' -> Q r self' w') -> safe m Q self w.
Proof.
  intros Hs Hi. apply safe_elim in Hs as (r & self' & w' & Hm & ? & ? & [[-> ?]|[? ?]]);
    [eapply safe_aborts|eapply safe_intro]; eauto.
Qed.

Lemma safely_bind {T V} (m : method T) (k : T -> method V) P Q self w :
  safe m P self w ->
  (forall a self' w', pool_wf self' -> ap_events self `prefix_of` ap_events self' -> P (Ok a) self' w' -> safe (k a) Q self' w') ->
  (forall e self' w', P (Err e) self' w' -> Q (Err e) self' w') -> safe (sbind m k) Q self w.
Proof.
  intros Hm Hk He. apply safe_elim in Hm as (r & self1 & w1 & Hm & Hwf & Hp & [[-> Hab]|[Hr HP]]).
  { apply (safe_aborts _ _ _ _ self1 w1); [|done..]. unfold sbind. now rewrite Hm. }
  destruct r as [a|e|]; [| |done].
  - specialize (Hk a _ _ Hwf Hp HP). apply safe_elim in Hk as (r & self2 & w2 & Hk & ? & ? & [[-> ?]|[? ?]]);
      [apply (safe_aborts _ _ _ _ self2 w2); [|done|done|etrans; eassumption]|eapply safe_intro; [|done|done|etrans; eassumption|done]];
      unfold sbind; now rewrite Hm.
  - apply (safe_intro _ _ _ _ (Err e) self1 w1); [|discriminate|done|done|auto]. unfold sbind. now rewrite Hm.
Qed.

(** A statement that records no event. *)
Lemma safe_silent {T V} (m : method T) (k : T -> method V) Q self w a self' w' :
  m (self, w) = (Ok a, (self', w')) -> ap_events self' = ap_events self -> safe (k a) Q self' w' ->
  safe (sbind m k) Q self w.
Proof. intros Hm He Hk. unfold safe in *. rewrite He in Hk. now apply (wp_run m k _ _ a (self', w')). Qed.

(** A statement that leaves the pool as it is. *)
Lemma safe_run {T V} (m : method T) (k : T -> method V) Q self w a w' :
  m (self, w) = (Ok a, (self, w')) -> safe (k a) Q self w' -> safe (sbind m k) Q self w.
Proof. intros Hm. now apply (safe_silent _ _ _ _ _ _ self w'). Qed.

Lemma safe_fails {T V} (m : method T) (k : T -> method V) Q self w e w' :
  m (self, w) = (Err e, (self, w')) -> pool_wf self -> Q (Err e) self w' -> safe (sbind m k) Q self w.
Proof. intros Hm Hwf HQ. apply (safe_intro _ _ _ _ (Err e) self w'); [unfold sbind; now rewrite Hm|done..]. Qed.

(** ** Statements *)

Lemma expired_run d self w :
  exists late w', expired (F := F) d (self, w) = (Ok late, (self, w')) /\
    (late = false <-> exists local, to_local_instant d w = (Ok local, w')).
Proof.
  unfold expired. pose proof (to_local_no_panic d w). destruct (to_local_instant d w) as [[local|e|] w'] eqn:E; [| |done].
  - exists false, w'. split; [done|]. split; [eauto|done].
  - exists true, w'. split; [done|]. split; [done|]. now intros [local [=]].
Qed.

Lemma safe_expired {V} d (k : bool -> method V) Q self w :
  (forall w', safe (k true) Q self w') ->
  (forall local w', to_local_instant d w = (Ok local, w') -> safe (k false) Q self w') ->
  safe (sbind (expired d) k) Q self w.
Proof.
  intros Ht Hf. destruct (expired_run d self w) as ([] & w' & Hr & Hl); apply (safe_run _ _ _ _ _ _ _ Hr); [apply Ht|].
  destruct Hl as [Hl _]. destruct (Hl eq_refl) as [local Hlocal]. now apply (Hf local).
Qed.

Lemma safe_now {V} (k : Pool -> method V) Q self w : safe (k self) Q self w -> safe (sbind pool_now k) Q self w.
Proof. now apply (safe_run _ _ _ _ _ self w). Qed.

Lemma safe_ok {T V} (r : res Failure T) (k : T -> method V) Q self w a :
  r = Ok a -> safe (k a) Q self w -> safe (sbind (slift r) k) Q self w.
Proof. intros ->. now apply (safe_run _ _ _ _ _ a w). Qed.

(** A worker that was not reaped is still armed. *)
Definition not_reaped (worker worker' : ExactAuthWorker A) : Prop := ew_armed worker' = ew_armed worker.

Lemma terminate_worker_run worker w :
  exists r worker' w', worker_try_terminate_and_reap (worker, w) = (r, (worker', w')) /\ (r = Panic -> authority_aborts B) /\
    (r = Ok true \/ not_reaped worker worker').
Proof.
  unfold worker_try_terminate_and_reap, observe_reap, not_reaped.
  destruct (authority_try_terminate_and_reap _) as [[[proof|]|e|] [a w']] eqn:E; do 3 eexists; (split; [reflexivity|]);
    (split; [try discriminate|auto]).
  intros _. exists (ew_authority worker), w. rewrite E. auto.
Qed.

Lemma reap_worker_run worker w :
  exists r worker' w', worker_try_reap_after_result (worker, w) = (r, (worker', w')) /\ (r = Panic -> authority_aborts B) /\
    (r = Ok Retirement_Clean \/ r = Ok Retirement_Rejected \/ not_reaped worker worker').
Proof.
  unfold worker_try_reap_after_result, observe_reap, not_reaped.
  destruct (authority_try_reap_after_result _) as [[[[]|]|e|] [a w']] eqn:E; do 3 eexists; (split; [reflexivity|]);
    (split; [try discriminate|auto]).
  intros _. exists (ew_authority worker), w. rewrite E. auto.
Qed.

Lemma set_set i x y self : set_slot i x (set_slot i y self) = set_slot i x self.
Proof. unfold set_slot, with_slots. cbn. now rewrite list_insert_insert_eq. Qed.

(** The worker of a slot makes progress, and is not reaped. *)
Lemma wf_progress self i slot worker :
  pool_wf self -> slot_at self i = Some slot -> not_reaped (ws_worker slot) worker ->
  pool_wf (set_slot i (Some (with_worker worker slot)) self).
Proof.
  intros Hwf Hi Hn. pose proof (pw_slots _ Hwf _ _ Hi) as [S1 S2 S3 S4 S5].
  eapply (wf_update self _ i slot (with_worker worker slot) []); try done.
  - cbn. now rewrite app_nil_r.
  - apply Hwf.
  - intros e He. now apply not_elem_of_nil in He.
  - split; try done. cbn. congruence.
Qed.

(** The worker was reaped, and the slot is retired. *)
Definition retire i slot (authorizes : bool) self : Pool :=
  set_slot i None (match ws_pending slot with
                   | Some p => forget_job (aj_job_id (pr_job p)) (pool_event (WorkerReaped (ws_identity slot) authorizes) self)
                   | None => pool_event (WorkerReaped (ws_identity slot) authorizes) self
                   end).

Lemma wf_reaped self i slot authorizes :
  pool_wf self -> slot_at self i = Some slot -> pool_wf (retire i slot authorizes self).
Proof.
  intros Hwf Hi. pose proof (pw_slots _ Hwf _ _ Hi) as [S1 S2 S3 S4 S5].
  eapply (wf_retire self _ i slot [WorkerReaped (ws_identity slot) authorizes]); try done; unfold retire; destruct (ws_pending slot);
    try done.
  1,2: apply history_reap; [apply Hwf|done].
  all: now intros e ->%list_elem_of_singleton.
Qed.

Lemma retire_events i slot authorizes self :
  ap_events (retire i slot authorizes self) = ap_events self ++ [WorkerReaped (ws_identity slot) authorizes].
Proof. unfold retire. now destruct (ws_pending slot). Qed.

(** ** Terminating *)

Lemma terminate_safe self w i slot :
  pool_wf self -> slot_at self i = Some slot ->
  safe (terminate_slot i) (fun r self' w' =>
    match r with
    | Ok _ => self' = retire i slot false self
    | Err e => (exists f, e = Adapter_WorkerCleanupFailed f) \/ e = Adapter_WorkerRetirementPending (ws_identity slot)
    | Panic => False
    end) self w.
Proof.
  intros Hwf Hi. unfold terminate_slot. apply safe_now, (safe_ok _ _ _ _ _ slot); [now rewrite Hi|].
  destruct (terminate_worker_run (ws_worker slot) w) as (r & worker & w' & Hrun & Hr & Hn).
  destruct r as [[]|e|].
  4:{ destruct Hn as [[=]|Hn].
      apply (safe_aborts _ _ _ _ (set_slot i (Some (with_worker worker slot)) self) w'); [|auto|now apply wf_progress|done].
      unfold sbind at 1, call_worker at 1. now rewrite Hrun. }
  - apply (safe_intro _ _ _ _ (Ok tt) (retire i slot false self) w'); [|done|now apply wf_reaped| |done].
    + unfold sbind at 1, call_worker at 1. rewrite Hrun. unfold retire.
      destruct (ws_pending slot); cbn; unfold set_slot, with_slots, forget_job, with_live_jobs, pool_event; cbn;
        now rewrite list_insert_insert_eq.
    + rewrite retire_events. now eexists.
  - destruct Hn as [[=]|Hn].
    apply (safe_intro _ _ _ _ (Err (Adapter_WorkerRetirementPending (ws_identity slot)))
             (set_slot i (Some (with_worker worker slot)) self) w'); [|done|now apply wf_progress|done|auto].
    unfold sbind at 1, call_worker at 1. now rewrite Hrun.
  - destruct Hn as [[=]|Hn].
    apply (safe_intro _ _ _ _ (Err (Adapter_WorkerCleanupFailed e)) (set_slot i (Some (with_worker worker slot)) self) w');
      [|done|now apply wf_progress|done|eauto].
    unfold sbind at 1, call_worker at 1. now rewrite Hrun.
Qed.

Lemma pending_same i slot pending outcome es last :
  slot_wf es last i slot -> ws_pending slot = Some pending ->
  match outcome with
  | AwaitingResult => untouched is_accept (ws_identity slot) es
  | Validated code => accepted_code es pending code
  | Rejected => True
  end ->
  slot_wf es last i (with_ws_pending (Some (with_outcome outcome pending)) slot).
Proof.
  intros [S1 S2 S3 S4 S5] Hp Ho. rewrite Hp in S5. split; try done. cbn.
  destruct S5 as (Hw & Hd & Ha & _). split; [done|]. split; [done|]. split; [done|]. cbn. now destruct outcome.
Qed.

Lemma mark_rejected_run self w i slot :
  pool_wf self -> slot_at self i = Some slot ->
  exists self' slot', (mark_rejected i : method unit) (self, w) = (Ok tt, (self', w)) /\ pool_wf self' /\
    ap_events self' = ap_events self /\ slot_at self' i = Some slot'.
Proof.
  intros Hwf Hi. unfold mark_rejected, sbind at 1. cbn. rewrite Hi.
  destruct (ws_pending slot) as [p|] eqn:Hp; [|now exists self, slot].
  eexists _, _. split; [reflexivity|]. split; [|split; [done|]].
  - eapply (wf_update self _ i slot _ []); try done.
    + cbn. now rewrite app_nil_r.
    + apply Hwf.
    + intros e He. now apply not_elem_of_nil in He.
    + cbn. now rewrite Hp.
    + apply pending_same; [now apply Hwf|done|done].
  - rewrite slot_at_set. rewrite decide_True by (split; [done|]; exact (slot_at_lt _ _ _ Hi)). done.
Qed.

Lemma reject_safe {T} self w i slot e :
  pool_wf self -> slot_at self i = Some slot ->
  safe (reject (T := T) i e) (fun r _ _ => match r with Err _ => True | _ => False end) self w.
Proof.
  intros Hwf Hi. destruct (mark_rejected_run self w i slot Hwf Hi) as (self' & slot' & Hm & Hwf' & Hev & Hi').
  apply (safe_silent _ _ _ _ _ _ _ _ Hm Hev).
  eapply safely_bind; [now apply (terminate_safe self' w i slot')| |done]. intros _ self2 w2 Hwf2 _ _. now apply safely_err.
Qed.

Lemma cancel_safe worker self w : pool_wf self -> safe (cancel worker) (fun _ _ _ => True) self w.
Proof.
  intros Hwf. unfold cancel. apply safe_now. destruct (slot_at self _) as [slot|] eqn:Hi.
  2:{ eapply (safe_fails _ _ _ _ _ Adapter_UnknownWorker); done. }
  apply (safe_ok _ _ _ _ _ slot eq_refl). case_match; [now apply safely_err|].
  destruct (mark_rejected_run self w _ slot Hwf Hi) as (self' & slot' & Hm & Hwf' & Hev & Hi').
  apply (safe_silent _ _ _ _ _ _ _ _ Hm Hev).
  eapply safe_mono; [now apply (terminate_safe self' w _ slot')|done].
Qed.

(** ** Results *)

Lemma matched_run self w i slot pending :
  slot_at self i = Some slot -> ws_pending slot = Some pending ->
  (matched_pending i : method (WorkerSlot A * PendingRecord)) (self, w) = (Ok (slot, pending), (self, w)).
Proof. intros Hi Hp. unfold matched_pending, sbind, slift. cbn. rewrite Hi. cbn. now rewrite Hp. Qed.

Lemma matched_facts receipt result trap pending :
  result_mismatch receipt result trap pending = false ->
  exists p, pending = Some p /\ wr_job_id receipt = aj_job_id (pr_job p) /\ pr_outcome p = AwaitingResult /\
    pr_job p = ar_job result /\ is_exec_trap (pr_input p) = trap.
Proof.
  destruct pending as [p|]; [|done]. cbn. intros Hm. bsplit. apply eqb_prop in Hm0.
  destruct (pr_outcome p) eqn:Ho; try discriminate. eauto 10.
Qed.

Lemma wf_accept self i slot pending received trap :
  pool_wf self -> slot_at self i = Some slot -> ws_pending slot = Some pending -> pr_outcome pending = AwaitingResult ->
  answers received trap (pr_job pending) (pr_input pending) ->
  pool_wf (pool_event (ResultAccepted received trap)
             (set_slot i (Some (with_ws_pending (Some (with_outcome (Validated (result_code received)) pending)) slot)) self)).
Proof.
  intros Hwf Hi Hp Ho Hans. pose proof (pw_slots _ Hwf _ _ Hi) as Hs. pose proof (sw_pending _ _ _ _ Hs) as Hw.
  rewrite Hp in Hw. destruct Hw as (Hw & Hd & Ha & Hu). rewrite Ho in Hu.
  assert (event_worker (ResultAccepted received trap) = ws_identity slot) as Hev by (cbn; now rewrite (proj1 Hans)).
  eapply (wf_update self _ i slot _ [ResultAccepted received trap]); try done.
  - apply (history_accept _ (pr_job pending) (pr_input pending) (pr_deadline pending)); [apply Hwf|done..|now rewrite Hw|].
    rewrite Hw. apply Hs.
  - now intros e ->%list_elem_of_singleton.
  - cbn. now rewrite Hp.
  - destruct Hs as [S1 S2 S3 S4 _]. cbn [ap_events pool_event set_slot with_slots]. split; try done.
    + cbn. apply untouched_snoc. split; [done|discriminate].
    + cbn. split; [done|]. split; [apply elem_of_app; auto|].
      split; [apply untouched_snoc; split; [done|discriminate]|].
      exists received, trap. split; [apply elem_of_app; right; now left|done].
Qed.

Lemma accept_safe received trap self w :
  pool_wf self -> safe (accept_result received trap) (fun _ _ _ => True) self w.
Proof.
  intros Hwf. unfold accept_result. set (i := slot_index _). apply safe_now.
  destruct (slot_at self i) as [slot|] eqn:Hi; [|now eapply safe_fails].
  case_bool_decide as Hid; [|now eapply safe_fails]. eapply safe_run; [reflexivity|].
  destruct (result_mismatch _ _ _ _) eqn:Hm; [eapply safe_mono; [now apply (reject_safe self w i slot)|done]|].
  apply matched_facts in Hm as (pending & Hp & Hr & Ho & Hj & Ht).
  eapply safe_run; [exact (matched_run self w i slot pending Hi Hp)|]. cbn beta iota.
  apply safe_expired; intros; [eapply safe_mono; [now apply (reject_safe self _ i slot)|done]|]. apply safe_now.
  assert (pending_at self i = Some pending) as -> by (unfold pending_at; now rewrite Hi). cbn [mbind option_bind].
  destruct (bool_decide _ || _) eqn:E; [eapply safe_mono; [now apply (reject_safe self _ i slot)|done]|].
  eapply safe_run; [exact (matched_run self _ i slot pending Hi Hp)|]. cbn beta iota.
  eapply safe_intro; [reflexivity|done| |now eexists|done]. apply wf_accept; [done..|]. bsplit.
  assert (aj_worker (pr_job pending) = ws_identity slot) as Hw.
  { pose proof (sw_pending _ _ _ _ (pw_slots _ Hwf _ _ Hi)) as Hw. rewrite Hp in Hw. apply Hw. }
  split; [congruence|]. split; [done|]. split; [done|]. split; [done|]. split; [done|].
  unfold expects. destruct (expected_code_identity _); [|done]. now bsplit.
Qed.

(** ** Completing *)

Lemma wf_authenticated self i slot pending code :
  pool_wf self -> slot_at self i = Some slot -> ws_pending slot = Some pending -> pr_outcome pending = Validated code ->
  pool_wf (pool_event (Authenticated (pr_job pending) (completion (pr_input pending) code (pr_deadline pending)))
             (retire i slot true self)).
Proof.
  intros Hwf Hi Hp Ho. pose proof (pw_slots _ Hwf _ _ Hi) as Hs. pose proof (sw_pending _ _ _ _ Hs) as Hw.
  rewrite Hp in Hw. destruct Hw as (Hw & Hd & Ha & Hu). rewrite Ho in Hu. destruct Hu as (received & trap & Hu & Hans & <-).
  eapply (wf_retire self _ i slot [WorkerReaped (ws_identity slot) true; Authenticated _ _]);
    try (done || (unfold retire; rewrite Hp; done)).
  - cbn [ap_events pool_event]. rewrite retire_events. now rewrite <- app_assoc.
  - cbn [ap_events pool_event]. rewrite retire_events. apply (history_authenticate _ _ _ _ received trap); try done; try (apply elem_of_app; now left).
    + apply history_reap; [apply Hwf|apply Hs].
    + apply elem_of_app. right. rewrite Hw. now left.
    + apply untouched_snoc. split; [now rewrite Hw|discriminate].
  - now intros e [->| ->%list_elem_of_singleton]%elem_of_cons.
Qed.

(** Only a record whose deadline has not passed is returned. *)
Definition authenticated_last (completed : CompletedAuthentication) (deadline : Z) self (w : W) : Prop :=
  (exists es job, ap_events self = es ++ [Authenticated job completed]) /\
  exists w1 local, to_local_instant deadline w1 = (Ok local, w).

Definition completed_deadline (completed : CompletedAuthentication) : Z :=
  match completed with CompletedMach record => am_deadline record | CompletedTrap record => ae_deadline record end.

Lemma poll_safe worker self w :
  pool_wf self ->
  safe (poll_completed_authentication worker)
    (fun r self' w' => forall completed, r = Ok completed -> authenticated_last completed (completed_deadline completed) self' w') self w.
Proof.
  intros Hwf. unfold poll_completed_authentication. set (i := slot_index _). apply safe_now.
  destruct (slot_at self i) as [slot|] eqn:Hi; [|now eapply safe_fails]. eapply safe_ok; [reflexivity|].
  case_match eqn:Hid; [now apply safely_err|]. clear Hid. destruct (ws_pending slot) as [pending|] eqn:Hp; [|now eapply safe_fails].
  eapply safe_ok; [reflexivity|]. destruct (pr_outcome pending) as [|code|] eqn:Ho; [now apply safely_err| |now apply safely_err].
  apply safe_expired; [intros w1|intros local w1 _].
  { eapply safe_mono; [now apply (reject_safe self w1 i slot)|]. now intros [| |] ? ? ?. }
  destruct (reap_worker_run (ws_worker slot) w1) as (r & wk & w2 & Hrun & Hr & Hn).
  set (self2 := set_slot i (Some (with_worker wk slot)) self).
  assert (forall b, retire i slot b self
            = set_slot i None (forget_job (aj_job_id (pr_job pending)) (pool_event (WorkerReaped (ws_identity slot) b) self2))) as Heq.
  { intros b. unfold retire, self2. rewrite Hp. unfold set_slot, with_slots. cbn. now rewrite list_insert_insert_eq. }
  destruct r as [[| |]|f|].
  5:{ destruct Hn as [[=]|[[=]|Hn]].
      apply (safe_aborts _ _ _ _ self2 w2); [|auto|now apply wf_progress|done].
      unfold sbind at 1, call_worker. now rewrite Hrun. }
  - destruct Hn as [[=]|[[=]|Hn]].
    apply (safe_intro _ _ _ _ (Err (Adapter_WorkerRetirementPending worker)) self2 w2); [|done|now apply wf_progress|done|done].
    unfold sbind at 1, call_worker. now rewrite Hrun.
  - set (self3 := pool_event (WorkerReaped (ws_identity slot) true) self2).
    assert (call_worker i slot worker_try_reap_after_result
              (fun retirement => match retirement with
                           | Retirement_Pending => None | Retirement_Clean => Some true | Retirement_Rejected => Some false
                           end) (self, w1) = (Ok Retirement_Clean, (self3, w2))) as Hcall
      by (unfold call_worker; now rewrite Hrun).
    unfold safe. apply (wp_run _ _ _ _ _ _ Hcall). destruct (expired_run (pr_deadline pending) self3 w2) as (late & w3 & Hlate & Hl).
    apply (wp_run _ _ _ _ _ _ Hlate). destruct late; unfold wp; cbn -[forget_job set_slot];
      rewrite <- (Heq true : _ = set_slot i None (forget_job (aj_job_id (pr_job pending)) self3)).
    + split; [now apply wf_reaped|]. split; [rewrite retire_events; now eexists|]. now right.
    + split; [apply wf_authenticated; done|].
      split; [cbn [ap_events pool_event]; rewrite retire_events, <- app_assoc; now eexists|]. right. split; [done|].
      intros completed [= <-]. split; [now do 2 eexists|].
      destruct Hl as [Hl _]. destruct (Hl eq_refl) as [local' Hlocal]. exists w2, local'.
      unfold completion, completed_deadline. now destruct (pr_input pending).
  - apply (safe_intro _ _ _ _ (Err Adapter_WorkerExitedAbnormally) (retire i slot false self) w2);
      [|done|now apply wf_reaped|rewrite retire_events; now eexists|done].
    unfold sbind at 1, call_worker. rewrite Hrun. cbn -[forget_job set_slot]. now rewrite Heq.
  - destruct Hn as [[=]|[[=]|Hn]].
    apply (safe_intro _ _ _ _ (Err (Adapter_WorkerCleanupFailed f)) self2 w2); [|done|now apply wf_progress|done|done].
    unfold sbind at 1, call_worker. now rewrite Hrun.
Qed.

End Theory.
