(* ===== verification/AuthPoolSystem.v ===== *)
(** * AuthPoolSystem: a service's calls of its pool, in any order

    An [Op] is one call; [perform] runs it and [run] runs a sequence, whatever
    the results, the workers and the identities it is given. *)

From stdpp Require Import gmap.
From S2P Require Import Prelude Bytes Tools Negotiation Native SupervisorWire Supervisor SupervisorAuth BrokerReport Watchdog AuthWire AuthPool AuthHistory AuthPoolTheory.

Section System.
Context {A W F : Type} {C : Clock W} {U : UptimeClock W} {H : Sha256} {B : ExactAuthWorkerAuthority A W F}.

Abbreviation Pool := (AuthWorkerPool A).
Abbreviation Failure := (AuthAdapterError F).
Abbreviation method T := (stm (Pool * W) Failure T).

Inductive Op :=
| OpDispatch (raw : RawMachRecord) (job_id : bytes) (deadline : Z)
| OpDispatchTrap (audit_identity : bytes) (effective_uid effective_gid : Z) (digest expected job_id : bytes) (deadline : Z)
| OpComplete (received : ReceivedAuthWorkerResult)
| OpCompleteTrap (received : ReceivedAuthWorkerResult)
| OpPoll (worker : AuthWorkerIdentity)
| OpPollTrap (worker : AuthWorkerIdentity)
| OpCancel (worker : AuthWorkerIdentity)
| OpInstall (index generation : Z) (authority : A) (endpoint : AuthWorkerEndpoint).

Inductive Answer :=
| Dispatched (job : DispatchedAuthJob)
| Completed (completed : CompletedAuthentication)
| Cancelled
| Installed (worker : AuthWorkerIdentity).

Definition answered {T} (f : T -> Answer) (m : method T) : method Answer := let! x := m in sret (f x).

Definition perform (op : Op) : method Answer :=
  match op with
  | OpDispatch raw job_id deadline => answered Dispatched (dispatch raw job_id deadline)
  | OpDispatchTrap audit uid gid digest expected job_id deadline =>
      answered Dispatched (dispatch_exec_trap audit uid gid digest expected job_id deadline)
  | OpComplete received => answered (fun record => Completed (CompletedMach record)) (complete received)
  | OpCompleteTrap received => answered (fun record => Completed (CompletedTrap record)) (complete_exec_trap received)
  | OpPoll worker => answered (fun record => Completed (CompletedMach record)) (poll_completed worker)
  | OpPollTrap worker => answered (fun record => Completed (CompletedTrap record)) (poll_completed_exec_trap worker)
  | OpCancel worker => answered (fun _ => Cancelled) (cancel worker)
  | OpInstall index generation authority endpoint =>
      answered Installed (install_replacement index generation (from_unreaped_worker authority) endpoint)
  end.

Fixpoint run (ops : list Op) (s : Pool * W) : list (res Failure Answer) * (Pool * W) :=
  match ops with
  | [] => ([], s)
  | op :: ops =>
      let '(r, s) := perform op s in
      match r with
      | Panic => ([r], s)
      | _ => let '(rs, s) := run ops s in (r :: rs, s)
      end
  end.

(** The pool the service starts with: generations, workers, pipes. *)
Definition start (workers : list (Z * A * AuthWorkerEndpoint)) : stm W Failure Pool :=
  from_precreated_workers
    (map (fun '(generation, authority, endpoint) => (generation, from_unreaped_worker authority, endpoint)) workers).

Implicit Types (self : Pool) (slot : WorkerSlot A).

(** ** Results enter only by the calls that complete a job *)

Section Adds.
Context (P : PoolEvent -> Prop) (HP : forall e, is_accept e = false -> P e).

(** What [m] records satisfies [P]. *)
Definition adds {T} (m : method T) : Prop :=
  forall s, let '(_, s') := m s in forall e, e ∈ ap_events (fst s') -> e ∈ ap_events (fst s) \/ P e.

Lemma adds_silent {T} (m : method T) : (forall s, ap_events (fst (snd (m s))) = ap_events (fst s)) -> adds m.
Proof using Type. intros Hm s. specialize (Hm s). destruct (m s) as [r s']. cbn in Hm. rewrite Hm. auto. Qed.

Lemma adds_bind {T V} (m : method T) (k : T -> method V) : adds m -> (forall a, adds (k a)) -> adds (sbind m k).
Proof using Type.
  intros Hm Hk s. specialize (Hm s). unfold sbind. destruct (m s) as [[a|e|] s']; [|done..].
  specialize (Hk a s'). destruct (k a s') as [r s'']. intros e He. destruct (Hk e He); auto.
Qed.

Lemma adds_event event : P event -> adds (change (pool_event event)).
Proof using Type. intros He [self w]. cbn. intros e [?| ->%list_elem_of_singleton]%elem_of_app; auto. Qed.

Lemma adds_world {T} (m : stm W Failure T) : adds (on_world m).
Proof using Type. apply adds_silent. intros [self w]. unfold on_world. now destruct (m w). Qed.

Lemma adds_expired deadline : adds (expired deadline).
Proof using Type. apply adds_silent. intros [self w]. unfold expired. now destruct (to_local_instant deadline w) as [[]]. Qed.

Lemma adds_call {T} i slot (m : stm (ExactAuthWorker A * W) F T) clean : adds (call_worker i slot m clean).
Proof using HP.
  intros [self w]. unfold call_worker. destruct (m _) as [[x|e|] [worker w']]; try (cbn; auto).
  destruct (clean x) as [b|]; cbn; [|auto]. intros e [?| ->%list_elem_of_singleton]%elem_of_app; auto.
Qed.

Ltac adds_step :=
  first [ apply adds_bind; [|intros ?] | apply adds_expired | apply adds_world | apply adds_call
        | apply adds_event, HP; reflexivity | apply adds_silent; intros []; reflexivity
        | match goal with |- context [match ?x with _ => _ end] => destruct x end ].
Ltac adds_all := repeat (cbv zeta; adds_step).

Lemma reject_adds {T} i e : adds (reject (T := T) i e).
Proof using HP. unfold reject, mark_rejected, terminate_slot. adds_all. Qed.

Lemma dispatch_adds input job_id deadline : adds (dispatch_input input job_id deadline).
Proof using HP. unfold dispatch_input. adds_all. Qed.

Lemma poll_adds worker : adds (poll_completed_authentication worker).
Proof using HP. unfold poll_completed_authentication, retire_slot. adds_all; apply reject_adds. Qed.

Lemma accept_adds received trap : P (ResultAccepted received trap) -> adds (accept_result received trap).
Proof using HP.
  intros Hr. unfold accept_result, matched_pending.
  repeat (cbv zeta; first [apply adds_event, Hr | apply reject_adds | adds_step]).
Qed.

Lemma cancel_adds worker : adds (cancel worker).
Proof using HP. unfold cancel, mark_rejected, terminate_slot. adds_all. Qed.

Lemma install_adds index generation worker endpoint : adds (install_replacement index generation worker endpoint).
Proof using HP. unfold install_replacement. adds_all. Qed.

End Adds.

(** The call that hands over a result. *)
Definition completing (received : ReceivedAuthWorkerResult) (trap : bool) : Op :=
  if trap then OpCompleteTrap received else OpComplete received.

Lemma perform_adds op :
  adds (fun e => forall received trap, e = ResultAccepted received trap -> op = completing received trap) (perform op).
Proof using Type.
  assert (forall e, is_accept e = false -> forall received trap, e = ResultAccepted received trap ->
          op = completing received trap) as HP by (now intros e He received trap ->).
  destruct op; cbn [perform]; unfold answered, dispatch, dispatch_exec_trap, complete, complete_exec_trap, poll_completed,
    poll_completed_exec_trap; repeat first
    [ apply dispatch_adds; exact HP | apply poll_adds; exact HP | apply cancel_adds; exact HP
    | apply install_adds; exact HP | apply accept_adds; [exact HP|now intros ? ? [= <- <-]]
    | apply adds_bind; [|intros ?] | apply adds_silent; intros []; reflexivity | match goal with |- context [match ?x with _ => _ end] => destruct x end ].
Qed.

Lemma run_adds ops s rs s' received trap :
  run ops s = (rs, s') -> ResultAccepted received trap ∈ ap_events (fst s') ->
  ResultAccepted received trap ∈ ap_events (fst s) \/ completing received trap ∈ ops.
Proof using Type.
  revert s rs. induction ops as [|op ops IH]; intros s rs; cbn [run]; [intros [= <- <-]; auto|].
  pose proof (perform_adds op s) as Hp. destruct (perform op s) as [r s1].
  assert (ResultAccepted received trap ∈ ap_events (fst s1) ->
          ResultAccepted received trap ∈ ap_events (fst s) \/ completing received trap ∈ op :: ops) as Hone.
  { intros Hin. destruct (Hp _ Hin) as [?|Hop]; [auto|right]. rewrite (Hop _ _ eq_refl). left. }
  destruct r as [a|e|]; [| |intros [= <- <-]; exact Hone].
  all: destruct (run ops s1) as [rs1 s2] eqn:E; intros [= <- <-] Hin; destruct (IH _ _ E Hin) as [?|?]; [auto|right; now right].
Qed.

(** ** Dispatch *)


Lemma find_idle_spec (slots : list (option (WorkerSlot A))) n :
  match find_idle slots n with
  | Some (i, slot) => exists k, i = (n + k)%nat /\ slots !! k = Some (Some slot) /\ is_idle slot = true
  | None => forall k slot, slots !! k = Some (Some slot) -> is_idle slot = false
  end.
Proof using Type.
  revert n. induction slots as [|[slot|] slots IH]; intros n; cbn.
  - intros k slot Hk. now rewrite lookup_nil in Hk.
  - destruct (is_idle slot) eqn:E; [exists 0%nat; split; [lia|done]|]. specialize (IH (S n)).
    destruct (find_idle slots (S n)) as [[i s]|].
    + destruct IH as (k & -> & ?). exists (S k). split; [lia|done].
    + intros [|k] s Hk; cbn in Hk; [congruence|eauto].
  - specialize (IH (S n)). destruct (find_idle slots (S n)) as [[i s]|].
    + destruct IH as (k & -> & ?). exists (S k). split; [lia|done].
    + intros [|k] s Hk; cbn in Hk; [congruence|eauto].
Qed.

Lemma idle_facts slot :
  is_idle slot = true -> ws_pending slot = None /\ exists endpoint, ws_endpoint slot = Some endpoint.
Proof using Type. unfold is_idle. intros Hi. bsplit. destruct (ws_pending slot), (ws_endpoint slot); naive_solver. Qed.

(** A job is given out whole, or nothing changes. *)
Definition dispatch_outcome (input : PendingAuthInput) (deadline : Z) self (r : res Failure DispatchedAuthJob) self' : Prop :=
  match r with
  | Ok dispatched =>
      ap_events self' = ap_events self ++ [JobDispatched (da_job dispatched) input deadline] /\
      job_for (da_job dispatched) input deadline
  | Err _ => self' = self
  | Panic => False
  end.

Lemma dispatch_safe input job_id deadline self w :
  pool_wf self ->
  safe (F := F) (dispatch_input input job_id deadline) (fun r self' _ => dispatch_outcome input deadline self r self') self w.
Proof.
  intros Hwf. unfold dispatch_input, on_world, smap_err.
  pose proof (to_local_no_panic deadline w) as Hl. destruct (to_local_instant deadline w) as [[local|e|] w1] eqn:El; [| |done].
  2:{ eapply (safe_fails _ _ _ _ _ (Adapter_Protocol e)); [|done|done]. cbn. now rewrite El. }
  eapply (safe_run _ _ _ _ _ local); [cbn; now rewrite El|].
  destruct (_ || _) eqn:Ecred; [now apply safely_err|]. apply safe_now.
  destruct (bool_decide (job_id ∈ _)) eqn:Elive; [now apply safely_err|]. destruct (MAX_PENDING_PER_UID <=? _) eqn:Euid; [now apply safely_err|].
  pose proof (find_idle_spec (ap_slots self) 0) as Hidle. destruct (find_idle (ap_slots self) 0) as [[i slot]|];
    [|now eapply safe_fails]. destruct Hidle as (k & -> & Hk & Hi). cbn [Nat.add].
  apply idle_facts in Hi as [Hp [endpoint He]]. apply (safe_run _ _ _ _ _ (k, slot) w1); [reflexivity|]. cbn beta iota zeta. apply slot_at_iff in Hk.
  set (job := {| aj_worker := ws_identity slot |}). set (p := {| pr_input := input |}). bsplit.
  assert (job_for job input deadline) as Hjob by done.
  eapply (safe_intro _ _ _ _ (Ok _)); [cbn; rewrite He; cbn; reflexivity|discriminate| |now eexists|done].
  eapply (wf_dispatch self _ k slot _ p); done.
Qed.

(** No authority is called: a dispatch never aborts. *)
Lemma dispatch_no_panic input job_id deadline self w :
  fst (dispatch_input (F := F) input job_id deadline (self, w)) <> Panic.
Proof using Type.
  unfold dispatch_input, on_world, smap_err. unfold sbind at 1. pose proof (to_local_no_panic deadline w) as Hl.
  destruct (to_local_instant deadline w) as [[local|e|] w1]; [|done..]. cbn [map_err].
  destruct (_ || _); [done|]. unfold sbind at 1, pool_now. cbn.
  destruct (bool_decide (job_id ∈ _)); [done|]. destruct (MAX_PENDING_PER_UID <=? _); [done|].
  unfold sbind at 1. cbn. pose proof (find_idle_spec (ap_slots self) 0) as Hidle.
  destruct (find_idle (ap_slots self) 0) as [[i slot]|]; [|done]. destruct Hidle as (k & -> & _ & Hi).
  apply idle_facts in Hi as [_ [endpoint He]]. cbn. now rewrite He.
Qed.

Lemma answered_safe {T} (f : T -> Answer) (m : method T) P (Q : res Failure Answer -> Pool -> W -> Prop) self w :
  safe m P self w -> (forall x self' w', P (Ok x) self' w' -> Q (Ok (f x)) self' w') ->
  (forall e self' w', P (Err e) self' w' -> Q (Err e) self' w') -> safe (answered f m) Q self w.
Proof using Type. intros Hm Ho He. eapply safely_bind; [exact Hm| |done]. intros. eapply safe_intro; [reflexivity|done..|auto]. Qed.

Lemma drop_worker_run (worker : ExactAuthWorker A) w :
  exists w', drop_worker (E := Failure) worker w = (Ok tt, w') \/
    (drop_worker (E := Failure) worker w = (Panic, w') /\ authority_aborts B).
Proof.
  unfold drop_worker. destruct (ew_armed worker); [|eauto].
  destruct (authority_emergency_terminate_and_reap _) as [[b|[]|] [a w']] eqn:E; [eauto|].
  exists w'. right. split; [done|]. exists (ew_authority worker), w. rewrite E. auto.
Qed.

Lemma install_safe index generation authority endpoint self w :
  pool_wf self -> u8 index ->
  safe (F := F) (install_replacement index generation (from_unreaped_worker authority) endpoint) (fun _ _ _ => True) self w.
Proof.
  intros Hwf Hu. unfold install_replacement. apply safe_now. destruct (_ || _) eqn:E.
  - destruct (drop_worker_run (from_unreaped_worker authority) w) as [w' [Hd|[Hd Hab]]].
    + eapply (safe_run _ _ _ _ _ tt w'); [unfold on_world; now rewrite Hd|now apply safely_err].
    + apply (safe_aborts _ _ _ _ self w'); [|done..]. unfold sbind, on_world. now rewrite Hd.
  - bsplit. eapply (safe_intro _ _ _ _ (Ok _)); [reflexivity|discriminate| |done|done].
    assert (ap_slots self !! Z.to_nat index = Some None) as Hnone.
    { destruct (ap_slots self !! Z.to_nat index) as [[slot|]|] eqn:Es; [|done|].
      - exfalso. apply E1. exists slot. now apply slot_at_iff.
      - apply lookup_ge_None in Es. unfold len in *. ulia. }
    eapply wf_install; try done. cbn. ulia.
Qed.

(** ** Construction *)

Definition entry_generation (entry : precreated (A := A)) : Z := fst (fst entry).

Lemma collect_spec (entries : list (precreated (A := A))) (slot : Z) seen last slots :
  0 <= slot -> slot + len entries <= 256 ->
  match collect_slots (F := F) entries slot seen last slots with
  | Ok (slots', last') =>
      slots' = slots ++ imap (fun k entry => Some (first_slot (slot + Z.of_nat k) entry)) entries /\
      last <= last' /\ Forall (fun entry => entry_generation entry <= last') entries
  | Err e => e = Adapter_InvalidReplacement
  | Panic => False
  end.
Proof using Type.
  revert slot seen last slots. induction entries as [|entry entries IH]; intros slot seen last slots Hs Hb; cbn [collect_slots].
  - rewrite app_nil_r. split; [done|]. split; [lia|constructor].
  - rewrite len_cons in Hb. case_bool_decide; [done|]. unfold try_from.
    replace (fitsb U8_MAX slot) with true by (pose proof (len_nonneg entries); ulia). cbn [expect rbind].
    specialize (IH (slot + 1) ({[entry_generation entry]} ∪ seen) (Z.max last (entry_generation entry))
                  (slots ++ [Some (first_slot slot entry)]) ltac:(lia) ltac:(lia)).
    unfold entry_generation in IH at 1 2. destruct (collect_slots _ _ _ _ _) as [[slots' last']|e|]; [|done..].
    destruct IH as (-> & Hl & Hf). split; [|split; [lia|constructor; [unfold entry_generation in *; lia|done]]].
    rewrite <- app_assoc. cbn. rewrite Z.add_0_r. do 2 f_equal. apply imap_ext. intros k x _. cbn. do 2 f_equal. lia.
Qed.

Lemma first_slots_records (entries : list (precreated (A := A))) (f : nat -> Z) :
  imap (fun k entry => Some (first_slot (f k) entry)) entries ≫= record_of = [].
Proof using Type. revert f. induction entries as [|[[g wk] e] entries IH]; intros f; [done|]. cbn. apply (IH (fun k => f (S k))). Qed.

Lemma start_wf workers w self w' : start workers w = (Ok self, w') -> pool_wf self /\ ap_events self = [].
Proof using Type.
  unfold start, from_precreated_workers. set (entries := map _ workers).
  destruct (_ || _) eqn:Eb.
  { unfold sbind, serr. now destruct (drop_workers entries w) as [[| |] ?]. }
  bsplit. unfold MAX_AUTH_WORKERS in *. pose proof (collect_spec entries 0 ∅ 0 [] ltac:(lia) ltac:(lia)) as Hc.
  destruct (collect_slots entries 0 ∅ 0 []) as [[slots last]|e|]; [| |done].
  2:{ unfold sbind, serr. now destruct (drop_workers entries w) as [[| |] ?]. }
  destruct Hc as (-> & _ & Hf). intros [= <- _]. split; [|done]. cbn [app]. split; cbn -[keys].
  - unfold len in *. rewrite length_imap. unfold MAX_AUTH_WORKERS. lia.
  - intros i slot Hi. apply slot_at_iff in Hi. cbn in Hi. rewrite list_lookup_imap in Hi.
    apply fmap_Some in Hi as (entry & He & Hi). injection Hi as ->.
    rewrite Forall_lookup in Hf. pose proof (Hf _ _ He) as Hg. apply list_lookup_fmap_Some in He as ([[g a] e] & -> & _).
    cbn in Hg |- *. split; cbn; try done. { apply untouched_nil. } split; [done|apply untouched_nil].
  - constructor.
  - constructor.
  - unfold keys. rewrite pending_records_eq. cbn [ap_slots]. rewrite (first_slots_records entries (fun k => 0 + Z.of_nat k)).
    split; [constructor|]. split; [done|]. now intros uid.
Qed.

(** ** Calls *)

Definition op_typed (op : Op) : Prop := match op with OpInstall index _ _ _ => u8 index | _ => True end.

(** What an answer stands for. *)
Definition answer_recorded (r : res Failure Answer) self (w : W) : Prop :=
  forall completed, r = Ok (Completed completed) -> authenticated_last completed (completed_deadline completed) self w.

Lemma poll_mach_safe worker self w :
  pool_wf self ->
  safe (F := F) (poll_completed worker)
    (fun r self' w' => forall record, r = Ok record -> authenticated_last (CompletedMach record) (am_deadline record) self' w') self w.
Proof.
  intros Hwf. eapply safely_bind; [now apply poll_safe| |done]. intros [record|record] self' w' Hwf' _ Hp; [|now apply safely_err].
  eapply safe_intro; [reflexivity|done..|]. intros ? [= <-]. now apply Hp.
Qed.

Lemma poll_trap_safe worker self w :
  pool_wf self ->
  safe (F := F) (poll_completed_exec_trap worker)
    (fun r self' w' => forall record, r = Ok record -> authenticated_last (CompletedTrap record) (ae_deadline record) self' w') self w.
Proof.
  intros Hwf. eapply safely_bind; [now apply poll_safe| |done]. intros [record|record] self' w' Hwf' _ Hp; [now apply safely_err|].
  eapply safe_intro; [reflexivity|done..|]. intros ? [= <-]. now apply Hp.
Qed.

Lemma perform_safe op self w : op_typed op -> pool_wf self -> safe (perform op) answer_recorded self w.
Proof.
  intros Ht Hwf. unfold answer_recorded.
  assert (forall T (m : method T), safe m (fun _ _ _ => True) self w -> forall f, (forall x c, f x <> Completed c) ->
          safe (answered f m) (fun r self' w' => forall completed, r = Ok (Completed completed) ->
            authenticated_last completed (completed_deadline completed) self' w') self w) as Hother.
  { intros T m Hm f Hf. eapply answered_safe; [exact Hm| |done]. intros x self' w' _ c [= Hx]. now destruct (Hf x c). }
  assert (forall input job_id deadline, safe (F := F) (dispatch_input input job_id deadline) (fun _ _ _ => True) self w) as Hd
    by (intros; eapply safe_mono; [now apply dispatch_safe|done]).
  destruct op as [raw job_id deadline|audit uid gid digest expected job_id deadline|received|received|worker|worker|worker
                 |index generation authority endpoint]; cbn [perform].
  - apply Hother; [|done]. unfold dispatch. destruct (_ <? _); [now apply safely_err|done].
  - apply Hother; [|done]. unfold dispatch_exec_trap. destruct (_ || _); [now apply safely_err|done].
  - eapply answered_safe; [eapply safely_bind; [now apply accept_safe| |]| |done].
    + intros worker self' w' Hwf' _ _. now apply poll_mach_safe.
    + done.
    + intros record self' w' Hp ? [= <-]. now apply Hp.
  - eapply answered_safe; [eapply safely_bind; [now apply accept_safe| |]| |done].
    + intros worker self' w' Hwf' _ _. now apply poll_trap_safe.
    + done.
    + intros record self' w' Hp ? [= <-]. now apply Hp.
  - eapply answered_safe; [now apply poll_mach_safe| |done]. intros record self' w' Hp ? [= <-]. now apply Hp.
  - eapply answered_safe; [now apply poll_trap_safe| |done]. intros record self' w' Hp ? [= <-]. now apply Hp.
  - apply Hother; [now apply cancel_safe|done].
  - apply Hother; [now apply install_safe|done].
Qed.

(** A run keeps the pool well-formed, and records every completed answer. *)
Lemma run_safe ops self w rs self' w' :
  Forall op_typed ops -> pool_wf self -> run ops (self, w) = (rs, (self', w')) ->
  pool_wf self' /\ ap_events self `prefix_of` ap_events self' /\ (Panic ∈ rs -> authority_aborts B) /\
  (forall completed, Ok (Completed completed) ∈ rs -> exists job, Authenticated job completed ∈ ap_events self').
Proof.
  intros Hts. revert self w rs. induction Hts as [|op ops Ht Hts IH]; intros self w rs Hwf; cbn [run].
  - intros [= <- <- <-]. split; [done|]. split; [done|]. split; [intros Hx; now apply not_elem_of_nil in Hx|]. intros c Hc. now apply not_elem_of_nil in Hc.
  - destruct (safe_elim _ _ _ _ (perform_safe op self w Ht Hwf)) as (r & self1 & w1 & -> & Hwf1 & Hp1 & [[-> Hab]|[Hr Ha]]).
    { intros [= <- <- <-]. split; [done|]. split; [done|]. split; [done|]. intros c Hc. set_solver. }
    destruct (run ops (self1, w1)) as [rs' [self2 w2]] eqn:Er. intros Hrun.
    assert ((r :: rs', (self2, w2)) = (rs, (self', w'))) as [= <- -> ->] by (rewrite <- Hrun; now destruct r). clear Hrun.
    destruct (IH _ _ _ Hwf1 Er) as (Hwf2 & Hp2 & Hn & Hc). split; [done|].
    split; [etrans; eassumption|]. split.
    + intros [Hx|Hx]%elem_of_cons; [symmetry in Hx; contradiction|auto].
    + intros c [Hx|Hx]%elem_of_cons; [|auto]. symmetry in Hx. destruct (Ha c Hx) as [(es & job & He) _]. exists job.
      destruct Hp2 as [k ->]. rewrite He. apply elem_of_app. left. apply elem_of_app. right. now left.
Qed.

End System.
