(* ===== verification/AuthPipe.v ===== *)
(** * AuthPipe: a worker's result is received whole, however it arrives

    The service polls a worker's result pipe between its other duties. Polled
    once more than it stalls, the pipe yields the worker's decision exactly when
    what the worker wrote, up to the end of the pipe, is one result frame. *)

From stdpp Require Import gmap.
From S2P Require Import Prelude Bytes Tools Negotiation Native SupervisorWire SupervisorCodec Supervisor SupervisorAuth BrokerReport BrokerReportTheory Watchdog AuthWire AuthPool AuthHistory AuthPoolTheory AuthPoolSystem.

Section Pipe.
Context {W : Type} {C : Clock W} {U : UptimeClock W}.

Abbreviation piped T := (stm W AuthWorkerPipeFailure T).
Implicit Types self : AuthWorkerReplyReceipt.

(** The polls that find nothing to read. *)
Fixpoint stalls (reads : list ReadEvent) : nat :=
  match reads with
  | Interrupted :: reads | WouldBlock :: reads => S (stalls reads)
  | Arrives _ _ :: reads => stalls reads
  | _ => 0
  end.

(** The next [n] readings of the clock are before the deadline. *)
Fixpoint admits (deadline : Z) (n : nat) (w : W) : Prop :=
  match n with
  | O => True
  | S n => exists local w', to_local_instant deadline w = (Ok local, w') /\ admits deadline n w'
  end.

(** Polling [n] more times after a first outcome. *)
Fixpoint again (n : nat) (polled : AuthWorkerResultPoll) : piped AuthWorkerResultPoll :=
  match n, polled with
  | S n, PollPending receipt => let! polled := poll_receipt receipt in again n polled
  | _, _ => sret polled
  end.

Definition poll_times (n : nat) self : piped AuthWorkerResultPoll :=
  match n with O => sret (PollPending self) | S n => let! polled := poll_receipt self in again n polled end.

(** What the service makes of all that arrives before the end. *)
Definition verdict self (total : bytes) : res AuthWorkerPipeError AuthWorkerResult :=
  if len total <? len (wr_bytes self) then Err Pipe_PrematureEof
  else if len (wr_bytes self) <? len total then Err Pipe_ExtraResultBytes
  else map_err Pipe_InvalidResult (decode_auth_worker_result total).

(** The outcome is the verdict, given for the same worker and job. *)
Definition settles self (total : bytes) (r : res AuthWorkerPipeFailure AuthWorkerResultPoll) : Prop :=
  match verdict self total, r with
  | Ok result, Ok (PollComplete received) =>
      ra_result received = result /\ wr_worker (ra_receipt received) = wr_worker self /\
      wr_job_id (ra_receipt received) = wr_job_id self
  | Err error, Err failure => failure = pipe_failure (wr_worker self) error
  | _, _ => False
  end.

Lemma admits_step d n w :
  admits d (S n) w -> exists w', admits d n w' /\ forall worker, pipe_deadline worker d w = (Ok tt, w').
Proof.
  intros (local & w' & Hr & Ha). exists w'. split; [done|]. intros worker. unfold pipe_deadline, sbind, smap_err. now rewrite Hr.
Qed.

Lemma admits_le d n m w : (n <= m)%nat -> admits d m w -> admits d n w.
Proof.
  revert m w. induction n as [|n IH]; intros m w Hnm Ha; [done|]. destruct m as [|m]; [lia|].
  destruct Ha as (local & w' & Hr & Ha). exists local, w'. split; [done|]. apply (IH m); [lia|done].
Qed.

Lemma settles_with self self' total r :
  wr_worker self' = wr_worker self -> wr_job_id self' = wr_job_id self -> len (wr_bytes self') = len (wr_bytes self) ->
  settles self' total r -> settles self total r.
Proof. unfold settles, verdict. now intros -> -> ->. Qed.

(** A first poll, and [n] more. *)
Definition drive (n : nat) (m : piped AuthWorkerResultPoll) : piped AuthWorkerResultPoll := let! polled := m in again n polled.

Lemma drive_done n m w r w' :
  m w = (r, w') -> match r with Ok (PollPending _) => False | _ => True end -> fst (drive n m w) = r.
Proof. unfold drive, sbind. intros ->. destruct r as [[receipt|received]|e|]; [done| |done..]. now destruct n. Qed.

Lemma drive_pending n m w w' reads self :
  m w = (Ok (PollPending (with_result reads self)), w') ->
  drive (S n) m w = drive n (poll_fill reads (with_result reads self)) w'.
Proof. unfold drive, sbind. now intros ->. Qed.

Lemma fill_full reads self : wr_filled self = len (wr_bytes self) -> poll_fill reads self = poll_end reads self.
Proof. intros Hf. destruct reads; cbn [poll_fill]; now rewrite Hf, Z.ltb_irrefl. Qed.

Lemma step_run {T} self (m : piped T) w w' :
  (forall worker, pipe_deadline worker (wr_deadline self) w = (Ok tt, w')) -> (ensure_deadline self >>! m) w = m w'.
Proof. intros Hd. unfold ensure_deadline, sbind. now rewrite Hd. Qed.

(** The buffer is full: only the end of the pipe is still to come. *)
Lemma end_settles reads self n w :
  clean reads = true -> wr_filled self = len (wr_bytes self) -> (stalls reads <= n)%nat ->
  admits (wr_deadline self) (S (length reads)) w ->
  settles self (wr_bytes self ++ arrived reads) (fst (drive n (poll_end reads self) w)).
Proof.
  revert self n w. induction reads as [|event reads IH]; intros self n w Hc Hf Hn Ha; [done|].
  destruct (admits_step _ _ _ Ha) as (w' & Ha' & Hd).
  assert (forall reads' s, (stalls reads' <= n)%nat -> event :: reads = s :: reads' -> clean reads' = true ->
    poll_end (event :: reads) self w = (Ok (PollPending (with_result reads' self)), w') -> (S (stalls reads') <= n)%nat ->
    settles self (wr_bytes self ++ arrived reads') (fst (drive n (poll_end (event :: reads) self) w))) as Hstall.
  { intros reads' s _ [= <- <-] Hc' Hp Hn'. destruct n as [|n]; [lia|]. rewrite (drive_pending n _ _ _ _ _ Hp), fill_full by done.
    apply (settles_with _ (with_result reads self)); [done..|]. apply (IH (with_result reads self)); [done|done|lia|done]. }
  destruct event as [first rest| | |code|]; cbn [clean arrived stalls] in *; [| | |discriminate|].
  - erewrite drive_done; [|unfold poll_end; rewrite (step_run _ _ _ _ Hd); reflexivity|done].
    unfold settles, verdict. rewrite !len_app, len_cons.
    pose proof (len_nonneg rest). pose proof (len_nonneg (arrived reads)).
    destruct (_ <? _) eqn:E1; bsplit; [lia|]. destruct (_ <? _) eqn:E2; bsplit; [done|lia].
  - apply (Hstall reads Interrupted); [lia|done|done| |done]. unfold poll_end. now rewrite (step_run _ _ _ _ Hd).
  - apply (Hstall reads WouldBlock); [lia|done|done| |done]. unfold poll_end. now rewrite (step_run _ _ _ _ Hd).
  - rewrite app_nil_r. unfold settles, verdict. rewrite Z.ltb_irrefl.
    assert (poll_end (EndOfStream :: reads) self w =
      (map_err (fun error => pipe_failure (wr_worker self) (Pipe_InvalidResult error))
         (let? result := decode_auth_worker_result (wr_bytes self) in
          Ok (PollComplete {| ra_receipt := self; ra_result := result |})), w')) as Hp.
    { unfold poll_end. rewrite (step_run _ _ _ _ Hd). unfold from_private_pipe, sbind, slift.
      now destruct (decode_auth_worker_result (wr_bytes self)). }
    destruct (decode_auth_worker_result (wr_bytes self)) as [result|e|] eqn:Ed; [| |now apply decode_result_no_panic in Ed].
    all: now erewrite drive_done; [|exact Hp|done].
Qed.

(** What a receipt holds, followed by what is still to come. *)
Lemma fill_settles reads self n w :
  clean reads = true -> 0 <= wr_filled self <= len (wr_bytes self) -> (stalls reads <= n)%nat ->
  admits (wr_deadline self) (S (S (length reads))) w ->
  settles self (slice (wr_bytes self) 0 (wr_filled self) ++ arrived reads) (fst (drive n (poll_fill reads self) w)).
Proof.
  revert self n w. induction reads as [|event reads IH]; intros self n w Hc Hf Hn Ha; [done|].
  destruct (wr_filled self <? len (wr_bytes self)) eqn:E; bsplit.
  2:{ assert (wr_filled self = len (wr_bytes self)) as Hfull by lia.
      rewrite fill_full, Hfull, slice_full by (done || lia). apply end_settles; [done..|]. eapply admits_le; [|exact Ha]. lia. }
  destruct (admits_step _ _ _ Ha) as (w' & Ha' & Hd).
  assert (poll_fill (event :: reads) self w = (match event :: reads with
    | EndOfStream :: _ => serr (pipe_failure (wr_worker self) Pipe_PrematureEof)
    | Interrupted :: reads | WouldBlock :: reads => sret (PollPending (with_result reads self))
    | [] => sret (PollPending (with_result [] self))
    | ReadFails code :: _ => serr (pipe_failure (wr_worker self) (Pipe_Native code))
    | Arrives first rest :: reads =>
      let count := Z.min (len (first :: rest)) (len (wr_bytes self) - wr_filled self) in
      let self := with_bytes (splice (wr_bytes self) (wr_filled self) (slice (first :: rest) 0 count))
                             (wr_filled self + count) self in
      match slice (first :: rest) count (len (first :: rest)) with
      | [] => poll_fill reads self
      | next :: more => poll_end (Arrives next more :: reads) self
      end end) w') as Heq.
  { cbn [poll_fill]. replace (wr_filled self <? len (wr_bytes self)) with true by lia. cbn [negb]. exact (step_run _ _ _ _ Hd). }
  assert (forall m1 m2, m1 w = m2 w' -> fst (drive n m1 w) = fst (drive n m2 w')) as Hdrive
    by (intros m1 m2 Hm; unfold drive, sbind; now rewrite Hm).
  rewrite (Hdrive _ _ Heq). clear Heq Hdrive Hd Ha w.
  destruct event as [first rest| | |code|]; cbn [clean arrived stalls] in *; [| | |discriminate|].
  - set (data := first :: rest) in *. set (count := Z.min (len data) (len (wr_bytes self) - wr_filled self)).
    assert (0 < len data) as Hdata by (unfold data; rewrite len_cons; pose proof (len_nonneg rest); lia).
    assert (len (slice data 0 count) = count) as Hs by (rewrite len_slice; lia).
    set (self1 := with_bytes _ _ self).
    assert (len (wr_bytes self1) = len (wr_bytes self)) as Hb by apply len_splice.
    assert (slice (wr_bytes self1) 0 (wr_filled self + count) ++ slice data count (len data)
            = slice (wr_bytes self) 0 (wr_filled self) ++ data) as Hkeep.
    { pose proof (splice_slice (wr_bytes self) (slice data 0 count) (wr_filled self) ltac:(lia) ltac:(lia)) as Hx.
      rewrite Hs in Hx. cbn [self1 with_bytes wr_bytes]. rewrite Hx, <- app_assoc, slice_cat by lia. f_equal. now apply slice_full. }
    cbv zeta. fold self1. rewrite app_assoc, <- Hkeep, <- app_assoc. apply (settles_with _ self1); [done|done|done|].
    destruct (slice data count (len data)) as [|next more] eqn:Em.
    + apply (IH self1); [done|cbn [self1 with_bytes wr_filled]; lia|lia|done].
    + assert (wr_filled self1 = len (wr_bytes self1)) as Hfull.
      { rewrite Hb. cbn [self1 with_bytes wr_filled]. destruct (decide (len data <= len (wr_bytes self) - wr_filled self)); [|lia].
        apply (f_equal len) in Em. rewrite len_slice, len_cons in Em by lia. pose proof (len_nonneg more). lia. }
      pose proof (end_settles (Arrives next more :: reads) self1 n w' Hc Hfull Hn) as Hx.
      cbn [arrived] in Hx. replace (wr_filled self + count) with (len (wr_bytes self1)) by (rewrite <- Hfull; done).
      rewrite slice_full by lia. now apply Hx.
  - destruct n as [|n]; [lia|]. rewrite (drive_pending n (sret (PollPending (with_result reads self))) _ w' reads self eq_refl).
    apply (settles_with _ (with_result reads self)); [done..|]. apply (IH (with_result reads self)); [done|done|lia|done].
  - destruct n as [|n]; [lia|]. rewrite (drive_pending n (sret (PollPending (with_result reads self))) _ w' reads self eq_refl).
    apply (settles_with _ (with_result reads self)); [done..|]. apply (IH (with_result reads self)); [done|done|lia|done].
  - rewrite app_nil_r. erewrite drive_done; [|reflexivity|done]. unfold settles, verdict.
    rewrite len_slice by lia. destruct (_ <? _) eqn:E2; bsplit; [done|lia].
Qed.

End Pipe.

(** * What the authentication of messages promises *)

Section Claims.
Context {A W F : Type} {C : Clock W} {U : UptimeClock W} {H : Sha256} {B : ExactAuthWorkerAuthority A W F}.

(** C20: Nothing counts as authenticated without its worker. Whatever results,
    worker identities and replacements a service passes to its pool, in any
    order, each authenticated record that it is given is the input of a job
    that was dispatched to one worker; then one result, which the service passed
    as the result of such an input (message or exec trap), was accepted: it was
    received from that worker, on the receipt of that job, names that job in
    full and a nonzero code identity, the one in the record, which for an exec
    trap is the expected one; and the worker was afterwards reaped as a clean
    exit. No other result of that worker is ever accepted, and no worker
    authenticates twice. The authority over the workers may do anything, also
    abort the process. *)
Theorem authentication_sound workers w0 self0 w1 ops rs (self : AuthWorkerPool A) (w : W) :
  Forall (@op_typed A) ops -> start (F := F) workers w0 = (Ok self0, w1) -> run ops (self0, w1) = (rs, (self, w)) ->
  (forall completed, Ok (Completed completed) ∈ rs ->
    exists job input deadline received,
      let trap := is_exec_trap input in let result := ra_result received in
      completed = completion input (ar_code_identity result) deadline /\ job_for job input deadline /\
      completing received trap ∈ ops /\
      wr_worker (ra_receipt received) = aj_worker job /\ wr_job_id (ra_receipt received) = aj_job_id job /\
      ar_job result = job /\ ar_code_identity result <> zeros 32 /\ expects input (ar_code_identity result) /\
      [JobDispatched job input deadline; ResultAccepted received trap; WorkerReaped (aj_worker job) true;
       Authenticated job completed] `sublist_of` ap_events self /\
      forall received' trap', ResultAccepted received' trap' ∈ ap_events self ->
        wr_worker (ra_receipt received') = aj_worker job -> received' = received) /\
  (forall es1 es2 job completed job' completed',
    ap_events self = es1 ++ Authenticated job completed :: es2 -> Authenticated job' completed' ∈ es1 ++ es2 ->
    aj_worker job <> aj_worker job').
Proof.
  intros Ht Hs Hr. apply start_wf in Hs as [Hwf Hnil].
  assert (forall received trap, ResultAccepted received trap ∈ ap_events self -> completing received trap ∈ ops) as Hops.
  { intros received trap Hin. destruct (run_adds _ _ _ _ received trap Hr Hin) as [Hx|?]; [|done]. cbn in Hx.
    rewrite Hnil in Hx. now apply not_elem_of_nil in Hx. }
  apply run_safe in Hr as (Hwf' & _ & _ & Hc); [|done..].
  pose proof (pw_history _ Hwf') as Hh. split.
  - intros completed Hin. destruct (Hc _ Hin) as [job Hj].
    destruct (authenticated_rests _ _ _ Hh Hj) as (input & deadline & received & Hcomp & Hjob & Hans & Hsub).
    assert (ResultAccepted received (is_exec_trap input) ∈ ap_events self) as Hacc.
    { eapply elem_of_submseteq; [|apply sublist_submseteq, Hsub]. right. left. }
    exists job, input, deadline, received. destruct Hans as (Hw & Hid & Hjob' & _ & Hcode & Hexp).
    split_and!; try done; [now apply Hops|]. intros received' trap' Hin' Hw'.
    apply (accepted_once _ _ _ _ _ Hh Hin' Hacc). congruence.
  - intros es1 es2 job completed job' completed' He Hin. rewrite He in Hh. exact (authenticated_once _ _ _ _ _ _ Hh Hin).
Qed.

(** The pool stays small and consistent: no call aborts unless a call of the
    authority does; there are at most four workers, each in its numbered slot, armed and unreaped, an idle
    one with its pipes and nothing behind it, a busy one with the one job that
    was dispatched to it; the ids of the live jobs are distinct and are exactly
    those of the busy workers; and no user has more than two jobs pending. *)
Theorem auth_pool_well_formed workers w0 self0 w1 ops rs (self : AuthWorkerPool A) (w : W) :
  Forall (@op_typed A) ops -> start (F := F) workers w0 = (Ok self0, w1) -> run ops (self0, w1) = (rs, (self, w)) ->
  (Panic ∈ rs -> authority_aborts B) /\ pool_wf self /\ (forall uid, uid_pending uid self <= MAX_PENDING_PER_UID) /\
  ap_live_jobs self = list_to_set (map (fun p => aj_job_id (pr_job p)) (pending_records self)).
Proof.
  intros Ht Hs Hr. apply start_wf in Hs as [Hwf _]. apply run_safe in Hr as (Hwf' & _ & Hp & _); [|done..].
  split; [done|]. split; [done|]. destruct (pw_keys _ Hwf') as (_ & Hl & Hu). split.
  - intros uid. rewrite uid_keys. apply Hu.
  - rewrite Hl. unfold keys. rewrite <- list_fmap_compose. reflexivity.
Qed.

(** However a worker's result arrives, with interruptions and pauses, the
    service that polls its pipe once more than it stalls before the deadline is
    given a result exactly when what was written before the end of the pipe is
    the one frame of that result, and an error otherwise: too little, too much
    or not a frame. *)
Theorem result_pipe_exact (self : AuthWorkerReplyReceipt) n (w : W) :
  clean (wr_result self) = true -> wr_filled self = 0 -> len (wr_bytes self) = AUTH_WORKER_RESULT_BYTES ->
  (stalls (wr_result self) <= n)%nat -> admits (wr_deadline self) (S (S (length (wr_result self)))) w ->
  let total := arrived (wr_result self) in
  settles self total (fst (poll_times (S n) self w)) /\
  forall result, verdict self total = Ok result <->
    encode_auth_worker_result result = Ok total /\ result_widths result /\ job_admissible (ar_job result) = true.
Proof.
  intros Hc Hf Hb Hn Ha total. pose proof (len_nonneg (wr_bytes self)). split.
  - change (poll_times (S n) self w) with (drive n (poll_fill (wr_result self) self) w).
    replace total with (slice (wr_bytes self) 0 (wr_filled self) ++ total) by (rewrite Hf; reflexivity).
    apply fill_settles; [done|lia|done|done].
  - intros result. unfold verdict. rewrite Hb. split.
    + destruct (_ <? _); [done|]. destruct (_ <? _); [done|]. destruct (decode_auth_worker_result total) as [r|e|] eqn:Ed; try done.
      intros [= ->]. apply decode_result_iff in Ed as (Hw & Hj & Htot). rewrite Htot. split; [now apply encode_result_ok|done].
    + intros (He & Hw & Hj). rewrite encode_result_ok in He by done. injection He as He.
      assert (len total = AUTH_WORKER_RESULT_BYTES) as -> by (rewrite <- He; now apply worker_result_wire_len).
      rewrite Z.ltb_irrefl. assert (decode_auth_worker_result total = Ok result) as -> by now apply decode_result_iff. reflexivity.
Qed.

(** A job frame and a result frame each have one encoding: decoding what
    was encoded gives back the value, and whatever decodes is the encoding of
    an admissible value; a result is a rejection exactly when it names no code
    identity. *)
Theorem auth_frames_canonical :
  (forall job, job_widths job -> job_admissible job = true ->
    exists l, encode_auth_worker_job (E := AuthWorkerWireError) job = Ok l /\ len l = AUTH_WORKER_JOB_BYTES /\
      decode_auth_worker_job l = Ok job) /\
  (forall l job, decode_auth_worker_job l = Ok job ->
    encode_auth_worker_job (E := AuthWorkerWireError) job = Ok l /\ job_admissible job = true) /\
  (forall result, result_widths result -> job_admissible (ar_job result) = true ->
    exists l, encode_auth_worker_result result = Ok l /\ len l = AUTH_WORKER_RESULT_BYTES /\
      decode_auth_worker_result l = Ok result /\
      (field l 10 2 = AUTH_WORKER_REJECTED <-> ar_code_identity result = zeros 32)) /\
  (forall l result, decode_auth_worker_result l = Ok result ->
    encode_auth_worker_result result = Ok l /\ job_admissible (ar_job result) = true).
Proof.
  split; [|split; [|split]].
  - intros job Hw Ha. exists (job_wire job). split; [now apply encode_job_ok|]. split; [now apply job_wire_len|].
    now apply decode_job_iff.
  - intros l job Hd. apply decode_job_iff in Hd as (Hw & Ha & ->). split; [now apply encode_job_ok|done].
  - intros r Hw Ha. exists (result_wire r). split; [now apply encode_result_ok|]. split; [now apply worker_result_wire_len|].
    split; [now apply decode_result_iff|]. pose proof (worker_result_wire_len _ Hw) as Hl.
    destruct (proj1 (worker_result_fields (result_wire r) r Hl Hw) eq_refl) as (_ & _ & -> & _).
    unfold decision_of. now case_bool_decide.
  - intros l r Hd. apply decode_result_iff in Hd as (Hw & Ha & ->). split; [now apply encode_result_ok|done].
Qed.

End Claims.

(** * A service with two authentication workers

    The theorems of [AuthPipe.v] at one run: a message is authenticated, an
    exec trap with the wrong code is not, and its worker is replaced. *)

#[local] Instance ticking : Clock nat := { instant_now w := (Z.of_nat w, S w); instant_max := U64_MAX }.
#[local] Instance ticking_uptime : UptimeClock nat :=
  fun w => ((0, Z.of_nat w / 1000000000, Z.of_nat w mod 1000000000), S w).
#[local] Instance first_bytes : Sha256 := fun s => take 32 (s ++ zeros 32).

(** A worker, and whether it exits cleanly. *)
#[local] Instance workers_authority : ExactAuthWorkerAuthority (Z * bool) nat unit := {|
  authority_try_reap_after_result s := (Ok (Some (snd (fst s))), s);
  authority_try_terminate_and_reap s := (Ok (Some false), s);
  authority_emergency_terminate_and_reap s := (Ok false, s)
|}.

Definition pipes : AuthWorkerEndpoint := {| we_request := AcceptsWhole; we_result := [] |}.
Definition two_workers : list (Z * (Z * bool) * AuthWorkerEndpoint) := [(1, (101, true), pipes); (2, (102, true), pipes)].
Definition pool0 : res (AuthAdapterError unit) (AuthWorkerPool (Z * bool)) * nat := start two_workers 10%nat.

Definition message : RawMachRecord :=
  {| mr_audit_identity := replicate 32 x02; mr_effective_uid := 501; mr_effective_gid := 20; mr_bytes := [x01; x02]; mr_reply := 77 |}.
Definition deadline : Z := 5000.

Definition first_job : AuthWorkerJob :=
  {| aj_worker := {| wi_slot := 0; wi_generation := 1 |}; aj_job_id := replicate 32 x0a;
     aj_audit_identity := replicate 32 x02; aj_effective_uid := 501; aj_effective_gid := 20;
     aj_frame_digest := frame_digest message; aj_deadline := deadline |}.
Definition second_job : AuthWorkerJob :=
  {| aj_worker := {| wi_slot := 1; wi_generation := 2 |}; aj_job_id := replicate 32 x0b;
     aj_audit_identity := replicate 32 x03; aj_effective_uid := 501; aj_effective_gid := 20;
     aj_frame_digest := replicate 32 x04; aj_deadline := deadline |}.

Definition receipt_of (job : AuthWorkerJob) (reads : list ReadEvent) : AuthWorkerReplyReceipt :=
  {| wr_worker := aj_worker job; wr_job_id := aj_job_id job; wr_result := reads; wr_deadline := deadline;
     wr_bytes := zeros AUTH_WORKER_RESULT_BYTES; wr_filled := 0 |}.
Definition result_of (job : AuthWorkerJob) (code : bytes) : ReceivedAuthWorkerResult :=
  {| ra_receipt := receipt_of job []; ra_result := {| ar_job := job; ar_code_identity := code |} |}.

Definition calls : list (@Op (Z * bool)) :=
  [OpDispatch message (replicate 32 x0a) deadline;
   OpDispatchTrap (replicate 32 x03) 501 20 (replicate 32 x04) (replicate 32 x05) (replicate 32 x0b) deadline;
   OpDispatch message (replicate 32 x0c) deadline;
   OpComplete (result_of first_job (replicate 32 x07));
   OpCompleteTrap (result_of second_job (replicate 32 x06));
   OpInstall 1 3 (103, true) pipes].

Definition authenticated : AuthenticatedMachRecord :=
  {| am_raw := message; am_code_identity := replicate 32 x07; am_deadline := deadline |}.

Definition started : AuthWorkerPool (Z * bool) :=
  match fst pool0 with Ok self => self | _ => {| ap_slots := []; ap_live_jobs := ∅; ap_last_worker_generation := 0; ap_events := [] |} end.
Definition after := run (F := unit) calls (started, snd pool0).

Lemma calls_typed : Forall op_typed calls.
Proof. repeat constructor; cbn; ulia. Qed.
Lemma pool0_started : pool0 = (Ok started, snd pool0).
Proof. reflexivity. Qed.

Lemma authentication_sound_witness :
  drop 2 (fst after) = [Err Adapter_CapacityExceeded; Ok (Completed (CompletedMach authenticated));
    Err Adapter_AuthenticationRejected; Ok (Installed {| wi_slot := 1; wi_generation := 3 |})] /\
  exists job input deadline received,
    CompletedMach authenticated = completion input (ar_code_identity (ra_result received)) deadline /\
    completing received (is_exec_trap input) ∈ calls /\ ar_job (ra_result received) = job /\
    [JobDispatched job input deadline; ResultAccepted received (is_exec_trap input); WorkerReaped (aj_worker job) true;
     Authenticated job (CompletedMach authenticated)] `sublist_of` ap_events (fst (snd after)).
Proof.
  assert (drop 2 (fst after) = [Err Adapter_CapacityExceeded; Ok (Completed (CompletedMach authenticated));
    Err Adapter_AuthenticationRejected; Ok (Installed {| wi_slot := 1; wi_generation := 3 |})]) as Hd
    by (vm_compute; reflexivity).
  split; [exact Hd|].
  destruct (authentication_sound two_workers 10%nat started (snd pool0) calls (fst after) (fst (snd after)) (snd (snd after)))
    as [Ha _].
  - exact calls_typed.
  - exact pool0_started.
  - change (after = (fst after, (fst (snd after), snd (snd after)))). now destruct after as [rs [self w]].
  - destruct (Ha (CompletedMach authenticated)) as (job & input & dl & received & H1 & _ & H2 & _ & _ & H3 & _ & _ & H4 & _).
    + rewrite <- (take_drop 2 (fst after)), Hd. apply elem_of_app. right. right. left.
    + exists job, input, dl, received. split; [exact H1|]. split; [exact H2|]. split; [exact H3|exact H4].
Defined.

Lemma auth_pool_well_formed_witness :
  map (@ws_identity (Z * bool)) (omap id (ap_slots (fst (snd after)))) = [{| wi_slot := 1; wi_generation := 3 |}] /\
  pool_wf (fst (snd after)).
Proof.
  split; [vm_compute; reflexivity|].
  apply (auth_pool_well_formed two_workers 10%nat started (snd pool0) calls (fst after) (fst (snd after)) (snd (snd after))).
  - exact calls_typed.
  - exact pool0_started.
  - change (after = (fst after, (fst (snd after), snd (snd after)))). now destruct after as [rs [self w]].
Defined.

(** ** A result in pieces *)

Definition good : AuthWorkerResult := {| ar_job := first_job; ar_code_identity := replicate 32 x07 |}.
Definition pieces : list ReadEvent :=
  let l := result_wire good in
  [WouldBlock; Arrives (nth 0 l x00) (slice l 1 90); Interrupted; Arrives (nth 90 l x00) (slice l 91 200); EndOfStream].

Lemma result_pipe_exact_witness :
  settles (receipt_of first_job pieces) (result_wire good) (fst (poll_times 3 (receipt_of first_job pieces) 20%nat)) /\
  verdict (receipt_of first_job pieces) (result_wire good) = Ok good.
Proof.
  assert (arrived (wr_result (receipt_of first_job pieces)) = result_wire good) as <- by (vm_compute; reflexivity).
  destruct (result_pipe_exact (receipt_of first_job pieces) 2 20%nat) as [H1 H2].
  - reflexivity.
  - reflexivity.
  - reflexivity.
  - cbn. lia.
  - cbn [admits receipt_of wr_deadline wr_result length pieces].
    repeat (do 2 eexists; split; [vm_compute; reflexivity|]). exact I.
  - split; [exact H1|]. apply H2. split; [vm_compute; reflexivity|]. split; [|vm_compute; reflexivity].
    unfold result_widths, job_widths. repeat split; vm_compute; first [reflexivity|discriminate].
Defined.
