(* ===== verification/MachMessage.v ===== *)
(** * MachMessage: the service's Mach endpoint ([supervisor_auth_adapter.rs])

    The receiver of one service port, and the one-shot reply. What the kernel
    does is scripted: the outcomes of the coming receives and the statuses of
    the coming sends (none left: the receiver is still waiting, a send
    succeeds). [mp_log] is not in the code: it is what became of the rights. *)

From stdpp Require Import gmap.
From S2P Require Import Prelude Bytes Tools Negotiation Native SupervisorWire Supervisor BrokerReport Watchdog AuthWire AuthPool.

Definition MACH_PORT_NULL : Z := 0.
Definition MACH_MSGH_BITS_COMPLEX : Z := 2147483648.
Definition MACH_MSG_TYPE_PORT_SEND : Z := 17.
Definition MACH_MSG_TYPE_PORT_SEND_ONCE : Z := 18.
Definition MACH_SEND_INVALID_DEST : Z := 268435459.
Definition MACH_SEND_TIMED_OUT : Z := 268435460.
Definition MACH_SEND_INTERRUPTED : Z := 268435463.
Definition SUPERVISOR_MESSAGE_ID : Z := 1313428309.
Definition SUPERVISOR_RECEIVED_BITS : Z := Z.lor MACH_MSG_TYPE_PORT_SEND_ONCE (Z.shiftl MACH_MSG_TYPE_PORT_SEND 8).

(** [size_of] of the header and of the audit trailer. *)
Definition MACH_HEADER_BYTES : Z := 24.
Definition AUDIT_TRAILER_BYTES : Z := 52.

(** The identifier is compared only with a positive constant, so it is read as
    an unsigned word. *)
Record MachMsgHeader := {
  mh_bits : Z;
  mh_size : Z;
  mh_remote_port : Z;
  mh_local_port : Z;
  mh_voucher_port : Z;
  mh_id : Z
}.

(** [at_audit] is the token's memory, which is what [encode_audit_token] copies. *)
Record AuditTrailer := { at_type : Z; at_size : Z; at_audit : bytes }.

Inductive MachReplyError := MachReply_InvalidReply | MachReply_MachSend (code : Z).
Inductive ClassifiedMachSendError := Send_Recoverable (error : MachReplyError) | Send_Indeterminate (code : Z).

(** ** The kernel *)

Inductive MachEvent :=
| Delivers (message : bytes)
| RcvInterrupted
| RcvTimedOut
| RcvTooLarge
| RcvFails (code : Z).

Inductive MachLog :=
| MessageDestroyed (buffer : bytes)
| RightDeallocated (port : Z)
| ReplySent (port : Z) (payload : bytes).

Record MachPorts (W : Type) := {
  mp_queue : list MachEvent;
  mp_sends : list Z;
  mp_log : list MachLog;
  mp_world : W
}.
Arguments mp_queue {W} _.
Arguments mp_sends {W} _.
Arguments mp_log {W} _.
Arguments mp_world {W} _.

(** [audit_token_to_euid] and [audit_token_to_egid]. *)
Class AuditTokens := { audit_token_to_euid : bytes -> Z; audit_token_to_egid : bytes -> Z }.

(** ** Sizes *)

Definition round_mach_message (size : Z) : option Z :=
  (fun value => Z.ldiff value 3) <$> checked_add USIZE_MAX size 3.

Definition supervisor_receive_bytes : option Z :=
  (checked_add USIZE_MAX MACH_HEADER_BYTES MAX_SUPERVISOR_RECORD_BYTES ≫= round_mach_message)
    ≫= (fun size : Z => checked_add USIZE_MAX size AUDIT_TRAILER_BYTES).

Definition exact_logical_supervisor_record (l : bytes) : option bytes :=
  if len l <? HEADER_LEN then None else
  match u32_at l 12 with
  | Ok payload_len =>
      match checked_add USIZE_MAX HEADER_LEN payload_len with
      | Some logical_len =>
          if MAX_SUPERVISOR_RECORD_BYTES <? logical_len then None else
          match round_mach_message logical_len with
          | Some rounded =>
              if negb (rounded =? len l) then None else
              match get_range l logical_len (len l) with
              | Some padding => if any_nonzero padding then None else get_range l 0 logical_len
              | None => None
              end
          | None => None
          end
      | None => None
      end
  | _ => None
  end.

Definition read_wire (n : Z) (l : bytes) (offset : Z) : option bytes :=
  checked_add USIZE_MAX offset n ≫= (fun stop => if stop <=? len l then Some (slice l offset stop) else None).

Definition read_header (l : bytes) : option MachMsgHeader :=
  (fun wire => {| mh_bits := field wire 0 4; mh_size := field wire 4 4; mh_remote_port := field wire 8 4;
                  mh_local_port := field wire 12 4; mh_voucher_port := field wire 16 4; mh_id := field wire 20 4 |})
    <$> read_wire MACH_HEADER_BYTES l 0.

Definition read_trailer (l : bytes) (offset : Z) : option AuditTrailer :=
  (fun wire => {| at_type := field wire 0 4; at_size := field wire 4 4; at_audit := slice wire 20 52 |})
    <$> read_wire AUDIT_TRAILER_BYTES l offset.

(** ** The receiver *)

Record RawMachReceiver := { rm_receive_port : Z; rm_receive_limit : Z; rm_storage : Z }.

Definition from_borrowed_launchd_receive_right (receive_port : Z) : res (AuthAdapterError Empty_set) RawMachReceiver :=
  if receive_port =? MACH_PORT_NULL then Err Adapter_InvalidReceiveRight else
  let? receive_bytes := ok_or supervisor_receive_bytes Adapter_RecordTooLarge in
  let? receive_limit := ok_or (try_from U32_MAX receive_bytes) Adapter_RecordTooLarge in
  Ok {| rm_receive_port := receive_port; rm_receive_limit := receive_limit; rm_storage := 8 * ((receive_bytes + 7) / 8) |}.

Section Endpoint.
Context {W : Type} {C : Clock W} {U : UptimeClock W} {T : AuditTokens}.

Abbreviation Ports := (MachPorts W).

Definition with_queue (queue : list MachEvent) (self : Ports) : Ports :=
  {| mp_queue := queue; mp_sends := mp_sends self; mp_log := mp_log self; mp_world := mp_world self |}.
Definition with_sends (sends : list Z) (self : Ports) : Ports :=
  {| mp_queue := mp_queue self; mp_sends := sends; mp_log := mp_log self; mp_world := mp_world self |}.
Definition log_event (event : MachLog) (self : Ports) : Ports :=
  {| mp_queue := mp_queue self; mp_sends := mp_sends self; mp_log := mp_log self ++ [event]; mp_world := mp_world self |}.

(** Code that reads the clock. *)
Definition timed {E A} (m : stm W E A) : stm Ports E A :=
  fun self => let '(r, w) := m (mp_world self) in
    (r, {| mp_queue := mp_queue self; mp_sends := mp_sends self; mp_log := mp_log self; mp_world := w |}).

(** Methods over a part of the state that read the clock. *)
Definition within {S E X} (m : stm (S * W) E X) : stm (S * Ports) E X :=
  fun '(self, ports) =>
    let '(r, (self, w)) := m (self, mp_world ports) in
    (r, (self, {| mp_queue := mp_queue ports; mp_sends := mp_sends ports; mp_log := mp_log ports; mp_world := w |})).

Definition passed {E} (deadline : Z) : stm Ports E bool :=
  timed (fun w => match to_local_instant deadline w with
                  | (Ok _, w) => (Ok false, w) | (Err _, w) => (Ok true, w) | (Panic, w) => (Panic, w)
                  end).

Definition destroy_mach_message {E} (buffer : bytes) : stm Ports E unit := smodify (log_event (MessageDestroyed buffer)).
Definition deallocate_port {E} (port : Z) : stm Ports E unit := smodify (log_event (RightDeallocated port)).

Definition mach_receive_timeout (deadline : Z) : stm W SupervisorWireError Z :=
  let! local_deadline := to_local_instant deadline in
  let! now := read_instant in
  let remaining := Z.max 0 (local_deadline - now) in
  if remaining =? 0 then serr WireError_LimitExceeded else
  sret (Z.min ((remaining + 999999) / 1000000) U32_MAX).

Abbreviation Failure := (AuthAdapterError Empty_set).

(** The receive loop: the buffer, or nothing while the receiver still waits. *)
Fixpoint receive_loop (self : RawMachReceiver) (deadline : Z) (queue : list MachEvent) : stm Ports Failure (option bytes) :=
  let! _ := timed (smap_err Adapter_Protocol (mach_receive_timeout deadline)) in
  match queue with
  | [] => sret None
  | event :: queue =>
      smodify (with_queue queue) >>!
      match event with
      | Delivers message =>
          if rm_receive_limit self <? len message then serr Adapter_RecordTooLarge
          else sret (Some (splice (zeros (rm_storage self)) 0 message))
      | RcvInterrupted => receive_loop self deadline queue
      | RcvTimedOut =>
          let! late := passed deadline in
          if late : bool then serr Adapter_DeadlineExpired else receive_loop self deadline queue
      | RcvTooLarge => serr Adapter_RecordTooLarge
      | RcvFails code => serr (Adapter_MachReceive code)
      end
  end.

Definition destroy_and {A} (buffer : bytes) (error : Failure) : stm Ports Failure A :=
  destroy_mach_message buffer >>! serr error.

Definition canonical (self : RawMachReceiver) (buffer : bytes) (header : MachMsgHeader) (trailer_offset : Z) : bool :=
  (mh_bits header =? SUPERVISOR_RECEIVED_BITS) && negb (mh_remote_port header =? MACH_PORT_NULL)
  && (mh_local_port header =? rm_receive_port self) && (mh_voucher_port header =? MACH_PORT_NULL)
  && (mh_id header =? SUPERVISOR_MESSAGE_ID) && (MACH_HEADER_BYTES <? mh_size header)
  && (mh_size header <=? MACH_HEADER_BYTES + MAX_SUPERVISOR_RECORD_BYTES)
  && match checked_add USIZE_MAX trailer_offset AUDIT_TRAILER_BYTES with Some stop => stop <=? len buffer | None => false end
  && match get_range buffer (mh_size header) trailer_offset with Some padding => negb (any_nonzero padding) | None => false end
  && match read_trailer buffer trailer_offset with
     | Some trailer => (at_type trailer =? 0) && (at_size trailer =? AUDIT_TRAILER_BYTES)
     | None => false
     end.

Definition from_received (name : Z) : res Failure Z :=
  if name =? MACH_PORT_NULL then Err Adapter_MalformedMachMessage else Ok name.

(** What the receiver makes of a delivered message. *)
Definition accept_message (self : RawMachReceiver) (deadline : Z) (buffer : bytes) : stm Ports Failure RawMachRecord :=
  match read_header buffer with
  | None => destroy_and buffer Adapter_MalformedMachMessage
  | Some header =>
      if negb (Z.land (mh_bits header) MACH_MSGH_BITS_COMPLEX =? 0) then destroy_and buffer Adapter_MalformedMachMessage else
      let! late := passed deadline in
      if late : bool then destroy_and buffer Adapter_DeadlineExpired else
      match round_mach_message (mh_size header) with
      | None => destroy_and buffer Adapter_MalformedMachMessage
      | Some trailer_offset =>
          if negb (canonical self buffer header trailer_offset) then destroy_and buffer Adapter_MalformedMachMessage else
          let! trailer := slift (expect (read_trailer buffer trailer_offset)) in
          let! received_payload := slift (index_range buffer MACH_HEADER_BYTES (mh_size header)) in
          match exact_logical_supervisor_record received_payload with
          | None => destroy_and buffer Adapter_MalformedMachMessage
          | Some payload =>
              let! reply := slift (from_received (mh_remote_port header)) in
              sret {| mr_audit_identity := at_audit trailer; mr_effective_uid := audit_token_to_euid (at_audit trailer);
                      mr_effective_gid := audit_token_to_egid (at_audit trailer); mr_bytes := payload; mr_reply := reply |}
          end
      end
  end.

Definition receive (self : RawMachReceiver) (deadline : Z) : stm Ports Failure (option RawMachRecord) :=
  let! ports := sget in
  let! buffer := receive_loop self deadline (mp_queue ports) in
  match buffer with
  | None => sret None
  | Some buffer => let! raw := accept_message self deadline buffer in sret (Some raw)
  end.

Definition authentication_deadline (self : RawMachRecord) (auth_cap : Z) : stm W SupervisorWireError Z :=
  let! _ := to_local_instant auth_cap in
  let! header := slift (decode_header (mr_bytes self)) in
  let! deadline :=
    if bool_decide (hd_kind header = Spawn) then
      if hd_payload_len header <? SPAWN_PREFIX_LEN then serr WireError_Malformed else
      let! payload := slift (index_range (mr_bytes self) HEADER_LEN (len (mr_bytes self))) in
      let! wire := slift (u64_at payload 0) in
      sret (SupervisorDeadline_earlier wire auth_cap)
    else sret auth_cap in
  let! _ := to_local_instant deadline in
  sret deadline.

(** ** The reply *)

(** [PreparedMachSend] before its send: the right and the payload in it. *)
Record PreparedMachSend := { pm_reply : Z; pm_payload : bytes }.

(** An error drops the right. *)
Definition prepare (reply : Z) (payload : bytes) : stm Ports MachReplyError PreparedMachSend :=
  let refuse := deallocate_port reply >>! serr MachReply_InvalidReply in
  match checked_add USIZE_MAX MACH_HEADER_BYTES (len payload) with
  | None => refuse
  | Some unrounded_size =>
      match round_mach_message unrounded_size with
      | None => refuse
      | Some message_size =>
          if bool_decide (payload = []) || (MAX_SUPERVISOR_RECORD_BYTES <? len payload)
             || negb (message_size =? unrounded_size)
          then refuse else
          match try_from U32_MAX message_size with
          | None => refuse
          | Some _ => sret {| pm_reply := reply; pm_payload := payload |}
          end
      end
  end.

(** The message as it is sent. *)
Definition message_bytes (self : PreparedMachSend) : bytes :=
  le_bytes 4 MACH_MSG_TYPE_PORT_SEND_ONCE ++ le_bytes 4 (MACH_HEADER_BYTES + len (pm_payload self))
  ++ le_bytes 4 (pm_reply self) ++ le_bytes 4 MACH_PORT_NULL ++ le_bytes 4 MACH_PORT_NULL
  ++ le_bytes 4 SUPERVISOR_MESSAGE_ID ++ pm_payload self.

Definition mach_send : stm Ports ClassifiedMachSendError Z :=
  let! ports := sget in
  match mp_sends ports with
  | [] => sret 0
  | status :: sends => smodify (with_sends sends) >>! sret status
  end.

Definition send_classified (self : PreparedMachSend) : stm Ports ClassifiedMachSendError unit :=
  let! status := mach_send in
  if status =? 0 then smodify (log_event (ReplySent (pm_reply self) (pm_payload self))) else
  if (status =? MACH_SEND_INVALID_DEST) || (status =? MACH_SEND_TIMED_OUT) || (status =? MACH_SEND_INTERRUPTED) then
    destroy_mach_message (message_bytes self) >>! serr (Send_Recoverable (MachReply_MachSend status))
  else serr (Send_Indeterminate status).

(** [Drop for PreparedMachSend]. *)
Definition drop_prepared {E} (self : PreparedMachSend) : stm Ports E unit := destroy_mach_message (message_bytes self).

(** [MachSendOnceRight::send]; an indeterminate send ends the process. *)
Definition send_reply_right (reply : Z) (payload : bytes) : stm Ports MachReplyError unit :=
  let! prepared := prepare reply payload in
  fun ports =>
    match send_classified prepared ports with
    | (Ok _, ports) => (Ok tt, ports)
    | (Err (Send_Recoverable error), ports) => (Err error, ports)
    | (Err (Send_Indeterminate _), ports) => (Panic, ports)
    | (Panic, ports) => (Panic, ports)
    end.

End Endpoint.

(** ** Receiving and dispatching *)

Section Dispatch.
Context {A W F : Type} {C : Clock W} {U : UptimeClock W} {H : Sha256} {T : AuditTokens} {B : ExactAuthWorkerAuthority A W F}.

Abbreviation Ports := (MachPorts W).
Abbreviation Pool := (AuthWorkerPool A).

(** The errors of a receive are those of the pool's type that it can return. *)
Definition widen {X} (r : res (AuthAdapterError Empty_set) X) : res (AuthAdapterError F) X :=
  match r with
  | Ok x => Ok x
  | Err Adapter_InvalidReceiveRight => Err Adapter_InvalidReceiveRight
  | Err Adapter_MalformedMachMessage => Err Adapter_MalformedMachMessage
  | Err Adapter_RecordTooLarge => Err Adapter_RecordTooLarge
  | Err (Adapter_MachReceive code) => Err (Adapter_MachReceive code)
  | Err Adapter_DeadlineExpired => Err Adapter_DeadlineExpired
  | Err (Adapter_Protocol error) => Err (Adapter_Protocol error)
  | _ => Panic
  end.

(** A record that is not dispatched is dropped, and its reply right with it. *)
Definition or_drop {E X} (raw : RawMachRecord) (m : stm (Pool * Ports) E X) : stm (Pool * Ports) E X :=
  fun s => match m s with
           | (Err e, (pool, ports)) => (Err e, (pool, log_event (RightDeallocated (mr_reply raw)) ports))
           | outcome => outcome
           end.

Definition receive_and_dispatch_capped (self : RawMachReceiver) (job_id : bytes) (receive_deadline auth_cap : Z)
  : stm (Pool * Ports) (AuthAdapterError F) (option DispatchedAuthJob) :=
  let! received := on_world (fun ports => let '(r, ports) := receive self receive_deadline ports in (widen r, ports)) in
  match received with
  | None => sret None
  | Some raw =>
      or_drop raw
        (let! deadline := on_world (timed (smap_err Adapter_Protocol (authentication_deadline raw auth_cap))) in
         let! dispatched := within (dispatch raw job_id deadline) in
         sret (Some dispatched))
  end.

End Dispatch.
