(* ===== verification/MachTheory.v ===== *)
(** * MachTheory: a delivered message is retained whole or destroyed

    [sealed] is what the kernel delivers for one supervisor record: the header
    of a send-once reply, the record and its padding, the audit trailer. The
    receiver accepts exactly those messages, and gives back what they carry. *)

From stdpp Require Import gmap.
From S2P Require Import Prelude Bytes Tools Negotiation Native SupervisorWire SupervisorCodec Supervisor SupervisorAuth BrokerReport Watchdog AuthWire AuthPool AuthHistory AuthPoolTheory AuthPoolSystem AuthPipe MachMessage.

(** ** Rounding *)

Definition round4 (n : Z) : Z := 4 * ((n + 3) / 4).

Lemma round4_bounds n : n <= round4 n <= n + 3.
Proof. unfold round4. pose proof (Z.div_mod (n + 3) 4 ltac:(lia)). pose proof (Z.mod_pos_bound (n + 3) 4 ltac:(lia)). lia. Qed.

Lemma round4_fixed n : round4 (24 + round4 n) = 24 + round4 n.
Proof.
  unfold round4. replace (24 + 4 * ((n + 3) / 4) + 3) with (3 + (6 + (n + 3) / 4) * 4) by lia.
  rewrite Z.div_add by lia. change (3 / 4) with 0. lia.
Qed.

Lemma round_mach_ok n : 0 <= n -> n + 3 <= USIZE_MAX -> round_mach_message n = Some (round4 n).
Proof.
  intros H0 Hn. unfold round_mach_message, checked_add. replace (n + 3 <=? USIZE_MAX) with true by lia. cbn. f_equal.
  change 3 with (Z.ones 2) at 2. rewrite Z.ldiff_ones_r, Z.shiftl_mul_pow2, Z.shiftr_div_pow2 by lia. unfold round4.
  change (2 ^ 2) with 4. lia.
Qed.

(** ** The record in a message *)

Definition logical (l : bytes) : Prop := len l = HEADER_LEN + field l 12 4 /\ len l <= MAX_SUPERVISOR_RECORD_BYTES.

Definition padded (l : bytes) : bytes := l ++ zeros (round4 (len l) - len l).

Lemma len_padded l : len (padded l) = round4 (len l).
Proof. unfold padded. pose proof (round4_bounds (len l)). rewrite len_app, len_zeros by lia. lia. Qed.

Lemma field_app l s off n : 0 <= off -> 0 <= n -> off + n <= len l -> field (l ++ s) off n = field l off n.
Proof. intros. unfold field. now rewrite slice_app_l by lia. Qed.

Lemma logical_min l : logical l -> HEADER_LEN <= len l.
Proof.
  intros [Hl _]. pose proof (le_val_bound (slice l 12 (12 + 4))). unfold field, HEADER_LEN in *. lia.
Qed.

Lemma exact_logical_iff p l :
  len p <= USIZE_MAX - 3 -> exact_logical_supervisor_record p = Some l <-> logical l /\ p = padded l.
Proof.
  intros Hp. unfold exact_logical_supervisor_record, logical, padded, HEADER_LEN, MAX_SUPERVISOR_RECORD_BYTES.
  pose proof (len_nonneg p). split.
  - destruct (len p <? 96) eqn:E; bsplit; [discriminate|]. rewrite u32_at_ok by lia.
    pose proof (field_u32 p 12 ltac:(lia) ltac:(lia)). unfold checked_add.
    replace (96 + field p 12 4 <=? USIZE_MAX) with true by ulia.
    destruct (65536 <? _) eqn:E2; bsplit; [discriminate|]. rewrite round_mach_ok by ulia.
    pose proof (round4_bounds (96 + field p 12 4)) as Hr.
    destruct (_ =? len p) eqn:E3; bsplit; [cbn [negb]|discriminate].
    rewrite get_range_ok by ulia. destruct (any_nonzero _) eqn:E4; [discriminate|]. rewrite get_range_ok by ulia.
    intros [= <-]. rewrite len_slice by ulia. rewrite Z.sub_0_r. split; [split; [|lia]|].
    + unfold field at 2. rewrite slice_slice by ulia. reflexivity.
    + apply (any_nonzero_slice p _ _ (round4 (96 + field p 12 4) - (96 + field p 12 4))) in E4; [|ulia..].
      rewrite <- E4, slice_cat by ulia. symmetry. now apply slice_full.
  - intros [[Hl Hm] Hpad]. pose proof (le_val_bound (slice l 12 (12 + 4))) as Hf. fold (field l 12 4) in Hf. pose proof (round4_bounds (len l)) as Hr.
    assert (len p = round4 (len l)) as Hlen by (rewrite Hpad; apply len_padded).
    assert (field p 12 4 = field l 12 4) as Hfp by (rewrite Hpad; apply field_app; lia).
    replace (len p <? 96) with false by lia. rewrite u32_at_ok by lia.
    rewrite Hfp. unfold checked_add. rewrite <- Hl.
    replace (len l <=? USIZE_MAX) with true by ulia. replace (65536 <? len l) with false by lia.
    rewrite round_mach_ok by ulia. rewrite Hlen, Z.eqb_refl. cbn [negb]. rewrite <- Hlen. rewrite !get_range_ok by lia.
    assert (slice p (len l) (len p) = zeros (round4 (len l) - len l)) as ->.
    { rewrite Hlen. rewrite Hpad at 1. rewrite (slice_app_skip l _ (len l) _ _ 0 (round4 (len l) - len l)) by lia.
      apply slice_full; [done|]. rewrite len_zeros; lia. }
    rewrite any_nonzero_zeros. f_equal. rewrite Hpad, slice_app_l by lia. now apply slice_full.
Qed.

Section Endpoint.
Context {W : Type} {C : Clock W} {U : UptimeClock W} {T : AuditTokens}.

Abbreviation Ports := (MachPorts W).
Abbreviation Failure := (AuthAdapterError Empty_set).
Implicit Types (self : RawMachReceiver) (raw : RawMachRecord) (P : Ports).

(** ** Sealed messages *)

Definition frame (port reply : Z) (payload seq audit rest : bytes) : bytes :=
  le_bytes 4 SUPERVISOR_RECEIVED_BITS ++ le_bytes 4 (24 + len (padded payload)) ++ le_bytes 4 reply ++ le_bytes 4 port
  ++ le_bytes 4 MACH_PORT_NULL ++ le_bytes 4 SUPERVISOR_MESSAGE_ID ++ padded payload
  ++ le_bytes 4 0 ++ le_bytes 4 AUDIT_TRAILER_BYTES ++ seq ++ audit ++ rest.

Definition sealed self (buffer : bytes) raw : Prop :=
  logical (mr_bytes raw) /\ u32 (mr_reply raw) /\ mr_reply raw <> MACH_PORT_NULL /\ len (mr_audit_identity raw) = 32 /\
  mr_effective_uid raw = audit_token_to_euid (mr_audit_identity raw) /\
  mr_effective_gid raw = audit_token_to_egid (mr_audit_identity raw) /\
  exists seq rest, len seq = 12 /\
    buffer = frame (rm_receive_port self) (mr_reply raw) (mr_bytes raw) seq (mr_audit_identity raw) rest.

(** A message as the fields the receiver looks at. *)
Lemma frame_iff s port reply payload seq audit rest m :
  m = len (padded payload) -> 0 <= m < 2 ^ 20 -> 76 + m <= len s -> u32 port -> u32 reply -> len seq = 12 -> len audit = 32 ->
  s = frame port reply payload seq audit rest <->
  field s 0 4 = SUPERVISOR_RECEIVED_BITS /\ field s 4 4 = 24 + m /\ field s 8 4 = reply /\ field s 12 4 = port /\
  field s 16 4 = MACH_PORT_NULL /\ field s 20 4 = SUPERVISOR_MESSAGE_ID /\ slice s 24 (24 + m) = padded payload /\
  field s (24 + m) 4 = 0 /\ field s (28 + m) 4 = AUDIT_TRAILER_BYTES /\ slice s (32 + m) (44 + m) = seq /\
  slice s (44 + m) (76 + m) = audit /\ slice s (76 + m) (len s) = rest.
Proof.
  intros Hm Hb Hs Hp Hr Hq Ha. rewrite <- (slice_full s 0 (len s)) at 1 by done. unfold frame. rewrite <- Hm. wsplit s.
  rewrite (slice_app_iff s 24 (len s) (24 + m)) by lia.
  rewrite (slice_app_iff s (24 + m) (len s) (28 + m)) by (rewrite ?len_le_bytes; lia).
  rewrite (slice_app_iff s (28 + m) (len s) (32 + m)) by (rewrite ?len_le_bytes; lia).
  rewrite (slice_app_iff s (32 + m) (len s) (44 + m)) by lia. rewrite (slice_app_iff s (44 + m) (len s) (76 + m)) by lia.
  rewrite (field_iff s 0 4 4 4), (field_iff s 4 8 4 4), (field_iff s 8 12 4 4), (field_iff s 12 16 4 4),
    (field_iff s 16 20 4 4), (field_iff s 20 24 4 4), (field_iff s (24 + m) (28 + m) 4 4), (field_iff s (28 + m) (32 + m) 4 4)
    by (try reflexivity; lia || ulia || (split; [discriminate|reflexivity])).
  reflexivity.
Qed.

(** The decision of the receiver, on time. *)
Definition opened self (buffer : bytes) : option RawMachRecord :=
  match read_header buffer with
  | None => None
  | Some header =>
      if negb (Z.land (mh_bits header) MACH_MSGH_BITS_COMPLEX =? 0) then None else
      match round_mach_message (mh_size header) with
      | None => None
      | Some trailer_offset =>
          if negb (canonical self buffer header trailer_offset) then None else
          match read_trailer buffer trailer_offset, exact_logical_supervisor_record (slice buffer MACH_HEADER_BYTES (mh_size header)) with
          | Some trailer, Some payload =>
              Some {| mr_audit_identity := at_audit trailer; mr_effective_uid := audit_token_to_euid (at_audit trailer);
                      mr_effective_gid := audit_token_to_egid (at_audit trailer); mr_bytes := payload;
                      mr_reply := mh_remote_port header |}
          | _, _ => None
          end
      end
  end.

Lemma read_header_ok buffer :
  24 <= len buffer -> len buffer <= USIZE_MAX ->
  read_header buffer = Some {| mh_bits := field buffer 0 4; mh_size := field buffer 4 4; mh_remote_port := field buffer 8 4;
                               mh_local_port := field buffer 12 4; mh_voucher_port := field buffer 16 4; mh_id := field buffer 20 4 |}.
Proof.
  intros Hl Hu. unfold read_header, read_wire, checked_add, MACH_HEADER_BYTES.
  replace (0 + 24 <=? USIZE_MAX) with true by ulia. cbn [mbind option_bind]. replace (0 + 24 <=? len buffer) with true by lia.
  cbn [fmap option_fmap option_map]. unfold field. rewrite !slice_slice by lia. reflexivity.
Qed.

Lemma read_trailer_ok buffer off :
  0 <= off -> off + 52 <= len buffer -> len buffer <= USIZE_MAX ->
  read_trailer buffer off = Some {| at_type := field buffer off 4; at_size := field buffer (4 + off) 4;
                                    at_audit := slice buffer (20 + off) (52 + off) |}.
Proof.
  intros H0 Hl Hu. unfold read_trailer, read_wire, checked_add, AUDIT_TRAILER_BYTES.
  replace (off + 52 <=? USIZE_MAX) with true by lia. cbn [mbind option_bind]. replace (off + 52 <=? len buffer) with true by lia.
  cbn [fmap option_fmap option_map]. unfold field. rewrite !slice_slice by lia.
  rewrite Z.add_0_r, (Z.add_comm off 4), (Z.add_comm off 20), (Z.add_comm off 52). do 3 f_equal; f_equal; lia.
Qed.

Lemma bits_simple : negb (Z.land SUPERVISOR_RECEIVED_BITS MACH_MSGH_BITS_COMPLEX =? 0) = false.
Proof. reflexivity. Qed.

(** The header's size is that of the padded record. *)
Lemma opened_iff self buffer raw :
  u32 (rm_receive_port self) -> 24 <= len buffer -> len buffer < 2 ^ 20 ->
  opened self buffer = Some raw <-> sealed self buffer raw.
Proof.
  intros Hport Hl Hu. unfold opened. rewrite read_header_ok by ulia. cbn [mh_bits mh_size mh_remote_port].
  pose proof (field_u32 buffer 4 ltac:(lia) ltac:(lia)) as Hsize. rewrite round_mach_ok by ulia.
  pose proof (field_u32 buffer 8 ltac:(lia) ltac:(lia)) as Hreply.
  unfold canonical, MACH_HEADER_BYTES, MAX_SUPERVISOR_RECORD_BYTES, checked_add.
  cbn [mh_bits mh_size mh_remote_port mh_local_port mh_voucher_port mh_id]. split.
  - destruct (negb _) eqn:Ec; [discriminate|]. pose proof (round4_bounds (field buffer 4 4)) as Hr.
    match goal with |- context [if negb ?b then None else _] => destruct b eqn:Ek end; [cbn [negb]|discriminate].
    repeat (apply andb_prop in Ek as [Ek ?]). bsplit.
    match goal with H : match (if ?b then _ else _) with _ => _ end = true |- _ => destruct b eqn:Eo; [|discriminate] end. bsplit.
    match goal with H : match read_trailer _ _ with _ => _ end = true |- _ =>
      rewrite read_trailer_ok in H by (unfold AUDIT_TRAILER_BYTES in *; ulia); cbn [at_type at_size] in H end.
    rewrite read_trailer_ok by (unfold AUDIT_TRAILER_BYTES in *; ulia).
    destruct (exact_logical_supervisor_record _) as [payload|] eqn:Ep; [|discriminate]. intros [= <-].
    unfold AUDIT_TRAILER_BYTES in *. bsplit.
    apply exact_logical_iff in Ep as [Hlog Hpad]; [|rewrite len_slice by lia; ulia].
    assert (field buffer 4 4 = 24 + len (padded payload)) as Hm by (rewrite <- Hpad, len_slice by lia; lia).
    assert (round4 (field buffer 4 4) = field buffer 4 4) as Hfix by (rewrite Hm, len_padded; apply round4_fixed).
    rewrite Hfix in *. rewrite Hm in *. set (m := len (padded payload)) in *.
    pose proof (len_nonneg (padded payload)). fold m in H. cbn [at_audit mr_bytes].
    replace (20 + (24 + m)) with (44 + m) by lia. replace (52 + (24 + m)) with (76 + m) by lia.
    assert (len (slice buffer (44 + m) (76 + m)) = 32) as Ha by (rewrite len_slice; lia).
    unfold sealed. cbn [mr_bytes mr_reply mr_audit_identity mr_effective_uid mr_effective_gid].
    split; [done|]. split; [done|]. split; [done|]. split; [done|]. split; [done|]. split; [done|].
    exists (slice buffer (32 + m) (44 + m)), (slice buffer (76 + m) (len buffer)). split; [rewrite len_slice; lia|].
    apply (frame_iff _ _ _ _ _ _ _ m); [done|lia..|done|done|rewrite len_slice; lia|done|].
    replace (4 + (24 + m)) with (28 + m) in * by lia. split_and!; done.
  - intros (Hlog & Hr & Hr0 & Ha & Huid & Hgid & seq & rest & Hq & Hb). set (payload := mr_bytes raw) in *.
    pose proof (logical_min _ Hlog) as Hmin. pose proof Hlog as [_ Hmax]. unfold HEADER_LEN, MAX_SUPERVISOR_RECORD_BYTES in *.
    pose proof (len_padded payload) as Hlp. pose proof (round4_bounds (len payload)) as Hrb. set (m := len (padded payload)) in *.
    assert (76 + m <= len buffer) as Hlen.
    { rewrite Hb. unfold frame. rewrite !len_app, !len_le_bytes, Hq, Ha. fold m. pose proof (len_nonneg rest). lia. }
    apply (frame_iff _ _ _ _ _ _ _ m) in Hb as (F1 & F2 & F3 & F4 & F5 & F6 & F7 & F8 & F9 & F10 & F11 & _); [|done|lia|done..].
    rewrite F1, F2, F3, F4, F5, F6, bits_simple.
    assert (round4 (24 + m) = 24 + m) as -> by (rewrite Hlp; apply round4_fixed).
    rewrite read_trailer_ok by ulia. cbn [at_type at_size at_audit]. replace (4 + (24 + m)) with (28 + m) by lia.
    replace (20 + (24 + m)) with (44 + m) by lia. replace (52 + (24 + m)) with (76 + m) by lia.
    rewrite F7, F8, F9, F11. unfold AUDIT_TRAILER_BYTES. replace (24 + m + 52 <=? USIZE_MAX) with true by ulia.
    replace (24 + m + 52 <=? len buffer) with true by lia. rewrite get_range_ok by lia. rewrite slice_nil by lia.
    rewrite !Z.eqb_refl, (proj2 (Z.eqb_neq _ _) Hr0). replace (24 <? 24 + m) with true by lia.
    assert (round4 (len payload) <= 65536) as Hr4.
    { unfold round4. apply (Z.le_trans _ (4 * (65539 / 4))); [apply Zmult_le_compat_l; [apply Z.div_le_mono|]; lia|]. now vm_compute. }
    replace (24 + m <=? 24 + 65536) with true by lia. cbn [andb negb any_nonzero existsb].
    assert (exact_logical_supervisor_record (padded payload) = Some payload) as -> by (apply exact_logical_iff; [ulia|done]).
    rewrite <- Huid, <- Hgid. now destruct raw.
Qed.

End Endpoint.

(** * What the Mach endpoint promises *)

Section Receive.
Context {W : Type} {C : Clock W} {U : UptimeClock W} {T : AuditTokens}.

Abbreviation Ports := (MachPorts W).
Abbreviation Failure := (AuthAdapterError Empty_set).
Implicit Types (self : RawMachReceiver) (raw : RawMachRecord) (P : Ports).

(** Only the clock moved. *)
Definition elapsed P P' : Prop := mp_queue P' = mp_queue P /\ mp_sends P' = mp_sends P /\ mp_log P' = mp_log P.

Lemma timed_run {E X} (m : stm W E X) P r w :
  m (mp_world P) = (r, w) -> exists P', timed m P = (r, P') /\ elapsed P P' /\ mp_world P' = w.
Proof. intros Hm. unfold timed. rewrite Hm. eexists. split; [reflexivity|]. now split. Qed.

Lemma passed_run d P : exists late P', passed (E := Failure) d P = (Ok late, P') /\ elapsed P P'.
Proof.
  unfold passed, timed. pose proof (to_local_no_panic d (mp_world P)).
  destruct (to_local_instant d (mp_world P)) as [[local|e|] w]; [..|done]; do 2 eexists; (split; [reflexivity|]); done.
Qed.

(** A receiver as its constructor makes it. *)
Definition receiver_ok self : Prop := exists port, from_borrowed_launchd_receive_right port = Ok self /\ u32 port.

Lemma receiver_facts self : receiver_ok self -> u32 (rm_receive_port self) /\ rm_storage self = 65616 /\ rm_receive_limit self = 65612.
Proof.
  intros (port & Hs & Hu). unfold from_borrowed_launchd_receive_right in Hs. destruct (port =? _); [discriminate|].
  vm_compute in Hs. now injection Hs as <-.
Qed.

(** What the receiver makes of a delivered message. *)
Definition accepted self (buffer : bytes) P (r : res Failure RawMachRecord) P' : Prop :=
  mp_queue P' = mp_queue P /\ mp_sends P' = mp_sends P /\
  match r with
  | Ok raw => sealed self buffer raw /\ mp_log P' = mp_log P
  | Err e => mp_log P' = mp_log P ++ [MessageDestroyed buffer] /\ (forall raw, sealed self buffer raw -> e = Adapter_DeadlineExpired)
  | Panic => False
  end.

Lemma accept_run self deadline buffer P :
  receiver_ok self -> len buffer = rm_storage self ->
  exists r P', accept_message self deadline buffer P = (r, P') /\ accepted self buffer P r P'.
Proof.
  intros Hok Hl. apply receiver_facts in Hok as (Hport & Hst & _). rewrite Hst in Hl.
  assert (forall raw, opened self buffer = Some raw <-> sealed self buffer raw) as Hiff
    by (intros raw; apply opened_iff; [done|lia|lia]).
  assert (forall e P1, elapsed P P1 -> (forall raw, opened self buffer = Some raw -> e = Adapter_DeadlineExpired) ->
    exists r P', destroy_and buffer e P1 = (r, P') /\ accepted self buffer P r P') as Hdestroy.
  { intros e P1 (Hq & Hs & Hlog) He. do 2 eexists. split; [reflexivity|]. unfold accepted. cbn. rewrite Hq, Hs, Hlog.
    split; [done|]. split; [done|]. split; [done|]. intros raw Hraw. apply (He raw). now apply Hiff. }
  unfold accept_message. unfold opened in Hdestroy, Hiff. destruct (read_header buffer) as [header|];
    [|apply Hdestroy; [done|discriminate]].
  destruct (negb (Z.land _ _ =? 0)); [apply Hdestroy; [done|discriminate]|].
  destruct (passed_run deadline P) as (late & P1 & Hp & He). unfold sbind at 1. rewrite Hp.
  destruct late; [apply Hdestroy; [done|done]|].
  destruct (round_mach_message (mh_size header)) as [off|]; [|apply Hdestroy; [done|discriminate]].
  destruct (canonical self buffer header off) eqn:Ek; cbn [negb] in *; [|apply Hdestroy; [done|discriminate]].
  unfold canonical in Ek. repeat (apply andb_prop in Ek as [Ek ?]).
  destruct (read_trailer buffer off) as [trailer|]; [|discriminate]. unfold sbind, slift, expect. cbn iota beta.
  assert (index_range (E := Failure) buffer MACH_HEADER_BYTES (mh_size header) = Ok (slice buffer MACH_HEADER_BYTES (mh_size header))) as ->.
  { apply index_range_ok; bsplit; unfold MACH_HEADER_BYTES, MAX_SUPERVISOR_RECORD_BYTES in *; lia. }
  destruct (exact_logical_supervisor_record _) as [payload|]; [|apply Hdestroy; [done|discriminate]].
  unfold from_received. assert (mh_remote_port header =? MACH_PORT_NULL = false) as -> by (bsplit; now apply Z.eqb_neq).
  do 2 eexists. split; [reflexivity|]. destruct He as (Hq & Hs & Hlog). split; [done|]. split; [done|]. split; [|done].
  now apply Hiff.
Qed.

Definition is_wait (event : MachEvent) : bool := match event with RcvInterrupted | RcvTimedOut => true | _ => false end.

(** The loop takes the waits, and then the event that ends it. *)
Definition looped self P (r : res Failure (option bytes)) P' : Prop :=
  mp_sends P' = mp_sends P /\ mp_log P' = mp_log P /\
  exists waits, Forall (fun event => is_wait event = true) waits /\
    match r with
    | Ok None => mp_queue P = waits /\ mp_queue P' = []
    | Ok (Some buffer) =>
        exists message, mp_queue P = waits ++ Delivers message :: mp_queue P' /\ len message <= rm_receive_limit self /\
          buffer = splice (zeros (rm_storage self)) 0 message
    | Err e =>
        mp_queue P = waits ++ mp_queue P' \/
        exists event, mp_queue P = waits ++ event :: mp_queue P' /\
          match event with
          | Delivers message => rm_receive_limit self < len message /\ e = Adapter_RecordTooLarge
          | RcvTooLarge => e = Adapter_RecordTooLarge
          | RcvFails code => e = Adapter_MachReceive code
          | _ => False
          end
    | Panic => False
    end.

Lemma loop_run self deadline P :
  exists r P', receive_loop self deadline (mp_queue P) P = (r, P') /\ looped self P r P'.
Proof.
  remember (mp_queue P) as queue eqn:Hqueue. revert P Hqueue. induction queue as [|event queue IH]; intros P Hqueue; cbn [receive_loop].
  all: assert (exists r P1, timed (E := Failure) (smap_err Adapter_Protocol (mach_receive_timeout deadline)) P = (r, P1) /\ elapsed P P1
         /\ r <> Panic) as (r & P1 & Ht & (Hq & Hs & Hl) & Hr).
  1,3: assert (fst (mach_receive_timeout deadline (mp_world P)) <> Panic) as Hn;
    [unfold mach_receive_timeout, sbind, read_instant; pose proof (to_local_no_panic deadline (mp_world P));
     destruct (to_local_instant deadline (mp_world P)) as [[local|e|] w]; [|done..]; destruct (instant_now w); now case_match|];
    unfold timed, smap_err; destruct (mach_receive_timeout deadline (mp_world P)) as [[t|e|] w];
    [do 2 eexists; split; [reflexivity|]; split; done..|done].
  all: unfold sbind at 1; rewrite Ht; destruct r as [t|e|]; [| |done].
  2,4: do 2 eexists; split; [reflexivity|]; split; [done|]; split; [done|]; exists []; split; [constructor|]; left; now rewrite Hq.
  - do 2 eexists. split; [reflexivity|]. split; [done|]. split; [done|]. exists []. split; [constructor|]. now rewrite Hq, Hqueue.
  - set (P2 := with_queue queue P1). unfold sbind at 1. change (smodify (with_queue queue) P1) with (@Ok Failure unit tt, P2).
    assert (forall P3, elapsed P2 P3 -> is_wait event = true ->
      exists r P', receive_loop self deadline queue P3 = (r, P') /\ looped self P r P') as Hnext.
    { intros P3 (Hq3 & Hs3 & Hl3) Hw. destruct (IH P3) as (r & P' & Hrun & Hs' & Hl' & waits & Hf & Hcase); [now rewrite Hq3|].
      exists r, P'. split; [done|]. split; [rewrite Hs', Hs3; exact Hs|]. split; [rewrite Hl', Hl3; exact Hl|]. exists (event :: waits).
      split; [now constructor|]. rewrite <- Hqueue. rewrite Hq3 in Hcase. cbn [P2 with_queue mp_queue] in Hcase.
      destruct r as [[buffer|]|e|]; [| | |done].
      - destruct Hcase as (message & -> & Hm). now exists message.
      - destruct Hcase as [-> ?]. done.
      - destruct Hcase as [->|(ev & -> & ?)]; [now left|right]. now exists ev. }
    assert (forall e, match event with
          | Delivers message => rm_receive_limit self < len message /\ e = Adapter_RecordTooLarge
          | RcvTooLarge => e = Adapter_RecordTooLarge
          | RcvFails code => e = Adapter_MachReceive code
          | _ => False end -> looped self P (Err e) P2) as Hfails.
    { intros e He. split; [exact Hs|]. split; [exact Hl|]. exists []. split; [constructor|]. right. exists event. now rewrite <- Hqueue. }
    destruct event as [message| | | |code].
    + destruct (_ <? _) eqn:E; bsplit; do 2 eexists; (split; [reflexivity|]); [now apply Hfails|].
      split; [exact Hs|]. split; [exact Hl|]. exists []. split; [constructor|]. exists message. now rewrite <- Hqueue.
    + now apply Hnext.
    + destruct (passed_run deadline P2) as (late & P3 & Hp & He). unfold sbind at 1. rewrite Hp.
      destruct late; [|now apply Hnext]. do 2 eexists. split; [reflexivity|]. destruct He as (Hq3 & Hs3 & Hl3).
      split; [rewrite Hs3; exact Hs|]. split; [rewrite Hl3; exact Hl|]. exists [RcvTimedOut]. split; [now repeat constructor|]. left.
      rewrite Hq3. now rewrite <- Hqueue.
    + do 2 eexists. split; [reflexivity|]. now apply Hfails.
    + do 2 eexists. split; [reflexivity|]. now apply Hfails.
Qed.

(** A receive as a whole. *)
Definition received self P (r : res Failure (option RawMachRecord)) P' : Prop :=
  mp_sends P' = mp_sends P /\
  exists waits, Forall (fun event => is_wait event = true) waits /\
    match r with
    | Ok None => mp_queue P = waits /\ mp_queue P' = [] /\ mp_log P' = mp_log P
    | Ok (Some raw) =>
        exists message, mp_queue P = waits ++ Delivers message :: mp_queue P' /\
          sealed self (splice (zeros (rm_storage self)) 0 message) raw /\ mp_log P' = mp_log P
    | Err e =>
        (exists message, mp_queue P = waits ++ Delivers message :: mp_queue P' /\ len message <= rm_receive_limit self /\
           mp_log P' = mp_log P ++ [MessageDestroyed (splice (zeros (rm_storage self)) 0 message)] /\
           forall raw, sealed self (splice (zeros (rm_storage self)) 0 message) raw -> e = Adapter_DeadlineExpired) \/
        (mp_log P' = mp_log P /\ exists taken, mp_queue P = waits ++ taken ++ mp_queue P' /\
           forall message, Delivers message ∈ taken -> rm_receive_limit self < len message)
    | Panic => False
    end.

Lemma receive_run self deadline P :
  receiver_ok self -> exists r P', receive self deadline P = (r, P') /\ received self P r P'.
Proof.
  intros Hok. destruct (loop_run self deadline P) as (r & P1 & Hloop & Hs & Hl & waits & Hw & Hcase).
  unfold receive, sbind at 1. change (sget P) with (@Ok Failure _ P, P). cbn iota beta. unfold sbind at 1. rewrite Hloop.
  destruct r as [[buffer|]|e|]; [| | |done].
  - destruct Hcase as (message & Hq & Hlen & ->). set (buffer := splice _ _ _).
    destruct (accept_run self deadline buffer P1 Hok) as (r & P2 & Ha & Hq2 & Hs2 & Hr); [unfold buffer; rewrite len_splice, len_zeros; [done|]|].
    { apply receiver_facts in Hok as (_ & -> & _). lia. }
    unfold sbind. rewrite Ha. destruct r as [raw|e|]; [| |done]; do 2 eexists; (split; [reflexivity|]).
    all: split; [now rewrite Hs2|]; exists waits; split; [done|].
    + exists message. rewrite Hq2. destruct Hr as [Hr1 Hr2]. split; [done|]. split; [done|]. now rewrite Hr2.
    + left. exists message. rewrite Hq2. destruct Hr as [Hr1 Hr2]. split; [done|]. split; [done|]. now rewrite Hr1, Hl.
  - do 2 eexists. split; [reflexivity|]. split; [done|]. exists waits. split; [done|]. now destruct Hcase.
  - do 2 eexists. split; [reflexivity|]. split; [done|]. exists waits. split; [done|]. right. split; [done|].
    destruct Hcase as [Hq|(event & Hq & He)]; [exists []; split; [done|]; intros m Hm; now apply not_elem_of_nil in Hm|].
    exists [event]. split; [done|]. intros m Hm. apply list_elem_of_singleton in Hm. subst event. now destruct He.
Qed.

(** C26: A service port never loses or duplicates a right: a receive waits
    through interruptions, and of the message that ends it, it either keeps
    everything (the record is exactly what was sealed in the message: its
    bytes without the padding, the sender's audited credentials, the one reply
    right) or destroys the whole message exactly once; a sealed message is
    refused only after the deadline. *)
Theorem message_kept_or_destroyed self deadline P :
  receiver_ok self ->
  let '(r, P') := receive self deadline P in received self P r P'.
Proof. intros Hok. destruct (receive_run self deadline P Hok) as (r & P' & -> & Hr). exact Hr. Qed.

End Receive.

(** ** Receiving and dispatching *)

Section Dispatch.
Context {A W F : Type} {C : Clock W} {U : UptimeClock W} {H : Sha256} {T : AuditTokens} {B : ExactAuthWorkerAuthority A W F}.

Abbreviation Ports := (MachPorts W).
Abbreviation Pool := (AuthWorkerPool A).
Implicit Types (self : RawMachReceiver) (raw : RawMachRecord) (P : Ports) (pool : Pool).

(** A caller's deadline can only shorten the service's. *)
Lemma authentication_deadline_run raw cap (w : W) :
  exists r w', authentication_deadline raw cap w = (r, w') /\ r <> Panic /\
    forall deadline, r = Ok deadline -> deadline <= cap /\
      forall header, decode_header (mr_bytes raw) = Ok header -> hd_kind header = Spawn ->
        deadline <= field (slice (mr_bytes raw) HEADER_LEN (len (mr_bytes raw))) 0 8.
Proof.
  unfold authentication_deadline, sbind, slift. pose proof (to_local_no_panic cap w) as Hc.
  destruct (to_local_instant cap w) as [[local|e|] w1]; [|do 2 eexists; split; [reflexivity|]; done|done].
  destruct (decode_header (mr_bytes raw)) as [header|e|] eqn:Eh;
    [|do 2 eexists; split; [reflexivity|]; done|now apply decode_header_no_panic in Eh].
  destruct (decode_header_payload _ _ Eh) as (_ & _ & Hlen & Hb & Hi). rewrite Hi.
  set (payload := slice (mr_bytes raw) HEADER_LEN (len (mr_bytes raw))) in *.
  assert (forall deadline, deadline <= cap -> (hd_kind header = Spawn -> deadline <= field payload 0 8) ->
    exists (r : res SupervisorWireError Z) w', match to_local_instant deadline w1 with
                 | (Ok _, s') => sret deadline s' | (Err e, s') => (Err e, s') | (Panic, s') => (Panic, s')
                 end = (r, w') /\ r <> Panic /\
      forall d, r = Ok d -> d <= cap /\ forall header', Ok header = Ok (E := SupervisorWireError) header' -> hd_kind header' = Spawn -> d <= field payload 0 8) as Hend.
  { intros deadline Hd Hs. pose proof (to_local_no_panic deadline w1) as Hn.
    destruct (to_local_instant deadline w1) as [[l|e|] w2]; [|do 2 eexists; split; [reflexivity|]; done|done].
    do 2 eexists. split; [reflexivity|]. split; [done|]. intros d [= <-]. split; [done|]. now intros header' [= <-]. }
  case_bool_decide as Hk; cbn [sret]; [|apply Hend; [lia|done]].
  destruct (_ <? _) eqn:El; bsplit; [do 2 eexists; split; [reflexivity|]; done|].
  unfold SPAWN_PREFIX_LEN in El. clearbody payload. unfold HEADER_LEN, MAX_SUPERVISOR_RECORD_BYTES in Hb.
  rewrite u64_at_ok by ulia. unfold sret at 1.
  apply Hend; unfold SupervisorDeadline_earlier; destruct (_ <=? cap) eqn:Ec; bsplit; lia.
Qed.

(** The rest of the errors of the pool cannot come from a receive. *)
Definition endpoint_error (e : AuthAdapterError Empty_set) : bool :=
  match e with
  | Adapter_MalformedMachMessage | Adapter_RecordTooLarge | Adapter_MachReceive _ | Adapter_DeadlineExpired
  | Adapter_Protocol _ => true
  | _ => false
  end.

Definition only_endpoint {X} (r : res (AuthAdapterError Empty_set) X) : Prop :=
  match r with Err e => endpoint_error e = true | _ => True end.

Lemma only_bind {X Y} (m : stm Ports (AuthAdapterError Empty_set) X) (k : X -> stm Ports (AuthAdapterError Empty_set) Y) P :
  only_endpoint (fst (m P)) -> (forall x P, only_endpoint (fst (k x P))) -> only_endpoint (fst (sbind m k P)).
Proof. intros Hm Hk. unfold sbind. destruct (m P) as [[x|e|] P']; cbn in *; auto. Qed.

Lemma only_passed d P : only_endpoint (fst (passed (E := AuthAdapterError Empty_set) d P)).
Proof. unfold passed, timed. now destruct (to_local_instant d (mp_world P)) as [[local|e|] w]. Qed.

Lemma only_loop self d queue P : only_endpoint (fst (receive_loop self d queue P)).
Proof.
  revert P. induction queue as [|event queue IH]; intros P; cbn [receive_loop]; apply only_bind.
  1,3: unfold timed, smap_err; now destruct (mach_receive_timeout d (mp_world P)) as [[t|e|] w].
  - done.
  - intros t P1. apply only_bind; [done|]. intros _ P2. destruct event; try done; [now case_match|].
    apply only_bind; [apply only_passed|]. intros [] P3; [done|apply IH].
Qed.

Lemma only_accept self d buffer P : only_endpoint (fst (accept_message self d buffer P)).
Proof.
  unfold accept_message. destruct (read_header buffer) as [header|]; [|done]. case_match; [done|].
  apply only_bind; [apply only_passed|]. intros late P1. case_match; [done|]. case_match; [|done]. case_match; [done|].
  apply only_bind; [now destruct (read_trailer _ _)|]. intros trailer P2. apply only_bind; [|].
  - unfold slift, index_range. now destruct (in_range _ _ _).
  - intros payload P3. case_match; [|done]. apply only_bind; [|done]. unfold slift, from_received. now case_match.
Qed.

Lemma widen_ok r :
  only_endpoint r -> r <> Panic ->
  match r with
  | Ok x => widen (F := F) r = Ok (E := AuthAdapterError F) (x : option RawMachRecord)
  | Err _ => exists e, widen (F := F) r = Err e
  | Panic => False
  end.
Proof. destruct r as [x|e|]; [done| |done]. intros He _. destruct e; try discriminate; eexists; reflexivity. Qed.

(** What one receive-and-dispatch does with the message it takes. *)
Definition dispatched_once self pool P (cap : Z) (r : res (AuthAdapterError F) (option DispatchedAuthJob)) pool' P' : Prop :=
  match r with
  | Ok None => pool' = pool /\ mp_log P' = mp_log P
  | Ok (Some dispatched) =>
      exists message raw deadline,
        Delivers message ∈ mp_queue P /\ sealed self (splice (zeros (rm_storage self)) 0 message) raw /\
        mp_log P' = mp_log P /\
        ap_events pool' = ap_events pool ++ [JobDispatched (da_job dispatched) (PendingMach raw) deadline] /\
        job_for (da_job dispatched) (PendingMach raw) deadline /\ deadline <= cap /\
        forall header, decode_header (mr_bytes raw) = Ok header -> hd_kind header = Spawn ->
          deadline <= field (slice (mr_bytes raw) HEADER_LEN (len (mr_bytes raw))) 0 8
  | Err _ =>
      pool' = pool /\
      (mp_log P' = mp_log P \/
       exists message, Delivers message ∈ mp_queue P /\
         (mp_log P' = mp_log P ++ [MessageDestroyed (splice (zeros (rm_storage self)) 0 message)] \/
          exists raw, sealed self (splice (zeros (rm_storage self)) 0 message) raw /\
            mp_log P' = mp_log P ++ [RightDeallocated (mr_reply raw)]))
  | Panic => False
  end.

(** Each message that is taken from the service port becomes one job, or
    its reply right is released, exactly once. A dispatched job carries the
    digest and the audited credentials of exactly that message, under a
    deadline no later than the service's cap and, for a spawn, than the
    deadline in the message itself; on every error the pool is as it was. *)
Theorem message_dispatched_or_released self pool P job_id receive_deadline cap :
  receiver_ok self -> pool_wf pool ->
  let '(r, (pool', P')) := receive_and_dispatch_capped (F := F) self job_id receive_deadline cap (pool, P) in
  pool_wf pool' /\ dispatched_once self pool P cap r pool' P'.
Proof.
  intros Hok Hwf. unfold receive_and_dispatch_capped, sbind at 1, on_world at 1.
  destruct (receive_run self receive_deadline P Hok) as (r & P1 & Hr & Hsends & waits & Hw & Hcase).
  assert (only_endpoint r) as Honly.
  { replace r with (fst (receive self receive_deadline P)) by now rewrite Hr. unfold receive. apply only_bind; [done|].
    intros ports P2. apply only_bind; [apply only_loop|]. intros [buffer|] P3; [|done]. apply only_bind; [apply only_accept|done]. }
  rewrite Hr. pose proof (widen_ok r Honly) as Hwd. destruct r as [[raw|]|e|]; [| | |done].
  - rewrite Hwd by done. destruct Hcase as (message & Hq & Hsealed & Hlog).
    assert (Delivers message ∈ mp_queue P) as Hin by (rewrite Hq; apply elem_of_app; right; now left).
    destruct (authentication_deadline_run raw cap (mp_world P1)) as (rd & w2 & Hd & Hdp & Hdl).
    unfold or_drop, sbind at 1, on_world at 1, timed, smap_err. rewrite Hd.
    destruct rd as [deadline|e|]; [|cbn; split; [done|]; split; [done|]; right; exists message; split; [done|]; right;
      exists raw; now rewrite Hlog|done]. cbn [map_err].
    set (P2 := {| mp_queue := _ |}). unfold sbind, within.
    destruct (dispatch raw job_id deadline (pool, mp_world P2)) as [rr [pool' w3]] eqn:Ed.
    assert (pool_wf pool' /\ dispatch_outcome (PendingMach raw) deadline pool rr pool') as [Hwf' Hout].
    { unfold dispatch in Ed. destruct (_ <? _); [injection Ed as <- <- _; done|].
      destruct (safe_elim _ _ _ _ (dispatch_safe (F := F) (PendingMach raw) job_id deadline pool (mp_world P2) Hwf))
        as (r' & pool2 & w' & Hrun & Hwf2 & _ & Ho). pose proof (dispatch_no_panic (F := F) (PendingMach raw) job_id deadline pool (mp_world P2)) as Hnp.
      rewrite Hrun in Ed, Hnp. injection Ed as <- <- _. now destruct Ho as [[-> _]|[_ Ho]]. }
    destruct rr as [dispatched|e|]; [| |done]; cbn; (split; [done|]).
    + destruct Hout as [Hev Hjob]. destruct (Hdl deadline eq_refl) as [Hcap Hsp]. exists message, raw, deadline.
      split; [done|]. split; [done|]. split; [exact Hlog|]. split; [done|]. split; [done|]. split; [done|exact Hsp].
    + split; [exact Hout|]. right. exists message. split; [done|]. right. exists raw. split; [done|]. cbn. now rewrite Hlog.
  - rewrite Hwd by done. cbn. split; [done|]. split; [done|]. now destruct Hcase as (_ & _ & ?).
  - destruct (Hwd ltac:(done)) as [e' ->]. split; [done|]. split; [done|].
    destruct Hcase as [(message & Hq & _ & Hlog & _)|[Hlog _]]; [right|now left]. exists message.
    split; [rewrite Hq; apply elem_of_app; right; now left|now left].
Qed.

End Dispatch.

(** * One client hello arrives at the service port *)

#[local] Existing Instance AuthPipe.ticking.
#[local] Existing Instance AuthPipe.ticking_uptime.
#[local] Existing Instance AuthPipe.first_bytes.
#[local] Existing Instance AuthPipe.workers_authority.

(** The credentials are words of the token. *)
#[local] Instance token_words : AuditTokens := {|
  audit_token_to_euid token := field token 4 4; audit_token_to_egid token := field token 8 4
|}.

Definition receiver : RawMachReceiver := {| rm_receive_port := 9; rm_receive_limit := 65612; rm_storage := 65616 |}.

Lemma receiver_made : receiver_ok receiver.
Proof. exists 9. split; [vm_compute; reflexivity|ulia]. Qed.

Definition hello : bytes :=
  match encode_client_hello (replicate 32 x0c) with Ok l => l | _ => [] end.
Definition token : bytes := le_bytes 4 0 ++ le_bytes 4 501 ++ le_bytes 4 20 ++ replicate 20 x09.
Definition delivered (padding : bytes) : bytes :=
  le_bytes 4 SUPERVISOR_RECEIVED_BITS ++ le_bytes 4 (24 + len hello + len padding) ++ le_bytes 4 77 ++ le_bytes 4 9 ++ le_bytes 4 0
  ++ le_bytes 4 SUPERVISOR_MESSAGE_ID ++ hello ++ padding ++ le_bytes 4 0 ++ le_bytes 4 52 ++ zeros 12 ++ token.

Definition ports (message : bytes) : MachPorts nat :=
  {| mp_queue := [RcvInterrupted; Delivers message; RcvTimedOut]; mp_sends := []; mp_log := []; mp_world := 20%nat |}.

Definition record : RawMachRecord :=
  {| mr_audit_identity := token; mr_effective_uid := 501; mr_effective_gid := 20; mr_bytes := hello; mr_reply := 77 |}.

(** A message with four bytes too many is destroyed, the other is kept. *)
Lemma message_kept_or_destroyed_witness :
  fst (receive receiver AuthPipe.deadline (ports (delivered []))) = Ok (Some record) /\
  fst (receive receiver AuthPipe.deadline (ports (delivered (zeros 4)))) = Err Adapter_MalformedMachMessage /\
  received receiver (ports (delivered [])) (fst (receive receiver AuthPipe.deadline (ports (delivered []))))
    (snd (receive receiver AuthPipe.deadline (ports (delivered [])))).
Proof.
  split; [vm_compute; reflexivity|]. split; [vm_compute; reflexivity|].
  pose proof (message_kept_or_destroyed receiver AuthPipe.deadline (ports (delivered [])) receiver_made) as Hx.
  destruct (receive receiver AuthPipe.deadline (ports (delivered []))) as [r P']. exact Hx.
Defined.

Definition taken := receive_and_dispatch_capped (F := unit) receiver (replicate 32 x0a) AuthPipe.deadline AuthPipe.deadline
                      (AuthPipe.started, ports (delivered [])).

Lemma started_wf : pool_wf AuthPipe.started.
Proof. eapply (start_wf (F := unit)). exact AuthPipe.pool0_started. Qed.

Lemma message_dispatched_or_released_witness :
  (exists dispatched, fst taken = Ok (Some dispatched) /\ aj_effective_uid (da_job dispatched) = 501) /\
  pool_wf (fst (snd taken)) /\
  dispatched_once receiver AuthPipe.started (ports (delivered [])) AuthPipe.deadline (fst taken) (fst (snd taken)) (snd (snd taken)).
Proof.
  split; [eexists; split; vm_compute; reflexivity|].
  pose proof (message_dispatched_or_released (F := unit) receiver AuthPipe.started (ports (delivered [])) (replicate 32 x0a)
    AuthPipe.deadline AuthPipe.deadline receiver_made started_wf) as Hx.
  unfold taken. destruct (receive_and_dispatch_capped _ _ _ _ _) as [r [pool' P']]. exact Hx.
Defined.
