(* ===== verification/SpawnReply.v ===== *)
(** * SpawnReply: from an authenticated record to the Ready reply
    ([supervisor_auth_adapter.rs], [stage_broker_plan] of
    [supervisor_broker_plan.rs])

    An authenticated record is routed to a connection; an accepted spawn carries
    its reply right and the facts of its header through validation, session,
    staging, registration with the watchdog, the broker's trace report, and the
    Ready reply. Every error drops what it consumed: a reply right is
    deallocated, a registered child is reaped. *)

From stdpp Require Import gmap.
From S2P Require Import Prelude Bytes Tools Limits Negotiation Native SupervisorWire SupervisorCodec Supervisor SupervisorAuth SupervisorPolicy SupervisorExample BrokerReport BrokerPlan BrokerCodec Watchdog WatchdogGuards AuthWire AuthPool MachMessage MachTheory.

(** ** Data *)

Record SpawnReplyFreshness := {
  sf_connection : Z;
  sf_generation : Z;
  sf_sequence : Z;
  sf_client_nonce : bytes;
  sf_service_nonce : bytes
}.

Record AuthenticatedSpawn := { au_record : AuthenticatedMachRecord; au_freshness : SpawnReplyFreshness }.

Inductive AuthenticatedMachRoute :=
| RouteClientHello (hello : AuthenticatedMachRecord)
| RouteSpawn (spawn : AuthenticatedSpawn).

Record AuthenticatedMachRequest (O : Type) := { rq_reply : Z; rq_output : O }.
Arguments rq_reply {O} _.
Arguments rq_output {O} _.

Record PendingSpawnReply (O : Type) := {
  py_reply : Z;
  py_freshness : SpawnReplyFreshness;
  py_bound_session : option bytes;
  py_output : O
}.
Arguments py_reply {O} _.
Arguments py_freshness {O} _.
Arguments py_bound_session {O} _.
Arguments py_output {O} _.

(** The same reply with another output. *)
Definition with_output {O P} (output : P) (self : PendingSpawnReply O) : PendingSpawnReply P :=
  {| py_reply := py_reply self; py_freshness := py_freshness self; py_bound_session := py_bound_session self;
     py_output := output |}.

Definition bind_spawn {O} (freshness : SpawnReplyFreshness) (self : AuthenticatedMachRequest O) : PendingSpawnReply O :=
  {| py_reply := rq_reply self; py_freshness := freshness; py_bound_session := None; py_output := rq_output self |}.

Record SessionAssignedSpawn := { ss_session : bytes; ss_spawn : ValidatedSpawn }.

(** ** Routing *)

Section Route.
Context {W : Type} {C : Clock W} {U : UptimeClock W}.

Abbreviation Ports := (MachPorts W).

(** A record or request that is dropped on an error releases its right. *)
Definition releasing {S E X} (reply : Z) (m : stm (S * Ports) E X) : stm (S * Ports) E X :=
  fun s => match m s with
           | (Err e, (self, ports)) => (Err e, (self, log_event (RightDeallocated reply) ports))
           | outcome => outcome
           end.

Definition route {S} (self : AuthenticatedMachRecord) : stm (S * Ports) SupervisorWireError AuthenticatedMachRoute :=
  releasing (mr_reply (am_raw self))
    (on_world (timed (to_local_instant (am_deadline self))) >>!
     let! header := slift (decode_header (mr_bytes (am_raw self))) in
     match hd_kind header with
     | ClientHello => if hd_generation header =? 0 then sret (RouteClientHello self) else serr WireError_Malformed
     | Spawn =>
         if negb (hd_generation header =? 0) then
           sret (RouteSpawn
             {| au_record := self;
                au_freshness := {| sf_connection := hd_generation header; sf_generation := hd_generation header;
                                   sf_sequence := hd_sequence header; sf_client_nonce := hd_client_nonce header;
                                   sf_service_nonce := hd_service_nonce header |} |})
         else serr WireError_Malformed
     | ServiceHello | SpawnResult => serr WireError_Malformed
     end).

Definition with_verified_message {S O} (self : AuthenticatedMachRecord) (connection_identity : Z)
  (operation : VerifiedMessage -> stm (S * Ports) SupervisorWireError O)
  : stm (S * Ports) SupervisorWireError (AuthenticatedMachRequest O) :=
  let raw := am_raw self in
  releasing (mr_reply raw)
    (on_world (timed (to_local_instant (am_deadline self))) >>!
     let! peer := slift (VerifiedPeer_from_authenticated_message_audit_token connection_identity
                           (mr_audit_identity raw) (mr_effective_uid raw) (mr_effective_gid raw) (am_code_identity self)) in
     let! output := operation {| vm_peer := peer; vm_bytes := mr_bytes raw |} in
     sret {| rq_reply := mr_reply raw; rq_output := output |}).

Definition record_receive_client_hello (self : AuthenticatedMachRecord)
  : stm (SupervisorConnection * Ports) SupervisorWireError (AuthenticatedMachRequest bytes) :=
  let! (connection, _) := sget in
  with_verified_message self (sc_connection_identity connection) (fun message => on_self (receive_client_hello message)).

Definition record_receive_spawn (self : AuthenticatedMachRecord)
  : stm (SupervisorConnection * Ports) SupervisorWireError (AuthenticatedMachRequest AuthenticatedSpawnRequest) :=
  let! (connection, _) := sget in
  with_verified_message self (sc_connection_identity connection) (fun message => within (receive_spawn message)).

(** A connection is made only for a hello that it accepts. *)
Definition hello_accept (self : AuthenticatedMachRecord) (generation : Z) (service_nonce : bytes)
  : stm Ports SupervisorWireError (SupervisorConnection * AuthenticatedMachRequest bytes) :=
  fun ports =>
    match record_receive_client_hello self (SupervisorConnection_new generation service_nonce, ports) with
    | (Ok reply, (connection, ports)) => (Ok (connection, reply), ports)
    | (Err e, (_, ports)) => (Err e, ports)
    | (Panic, (_, ports)) => (Panic, ports)
    end.

Definition spawn_accept (self : AuthenticatedSpawn)
  : stm (SupervisorConnection * Ports) SupervisorWireError (PendingSpawnReply AuthenticatedSpawnRequest) :=
  let! (connection, _) := sget in
  if negb (sc_connection_identity connection =? sf_connection (au_freshness self))
  then releasing (mr_reply (am_raw (au_record self))) (serr WireError_ReplayOrSubstitution) else
  let! request := record_receive_spawn (au_record self) in
  sret (bind_spawn (au_freshness self) request).

(** [AuthenticatedMachRequest<Vec<u8>>::send_reply]. *)
Definition send_reply (self : AuthenticatedMachRequest bytes) : stm Ports MachReplyError unit :=
  send_reply_right (rq_reply self) (rq_output self).

End Route.

(** ** Validation and staging

    An error keeps the reply: it is an output of the same pending reply. *)

Definition reply_validate (self : PendingSpawnReply AuthenticatedSpawnRequest) (catalog : list InstalledTargetPolicy)
  : res (PendingSpawnReply SupervisorWireError) (PendingSpawnReply ValidatedSpawn) :=
  match AuthenticatedSpawnRequest_validate (py_output self) catalog with
  | Ok output => Ok (with_output output self)
  | Err error => Err (with_output error self)
  | Panic => Panic
  end.

Definition assign_session {E} (self : PendingSpawnReply ValidatedSpawn) (session : bytes)
  : res E (PendingSpawnReply SessionAssignedSpawn) :=
  if bool_decide (is_Some (py_bound_session self)) then Panic else
  Ok {| py_reply := py_reply self; py_freshness := py_freshness self; py_bound_session := Some session;
        py_output := {| ss_session := session; ss_spawn := py_output self |} |}.

Record StagedBrokerSpawn := { st_pending : PendingSpawnReply SessionAssignedSpawn; st_frame : bytes }.
Record BrokerPlanStageError := { se_pending : PendingSpawnReply SessionAssignedSpawn; se_error : SupervisorWireError }.

Definition staged_plan (freshness : SpawnReplyFreshness) (session : bytes) (spawn : ValidatedSpawn) : BrokerLaunchPlan :=
  {| bp_deadline := db_wire (vs_deadline spawn); bp_connection_generation := sf_generation freshness;
     bp_sequence := sf_sequence freshness; bp_effective_uid := vp_effective_uid (vs_peer spawn);
     bp_effective_gid := vp_effective_gid (vs_peer spawn); bp_session := session;
     bp_audit_identity := vp_audit_identity (vs_peer spawn); bp_code_identity := vp_code_identity (vs_peer spawn);
     bp_target_identity := vs_target_identity spawn; bp_client_nonce := sf_client_nonce freshness;
     bp_service_nonce := sf_service_nonce freshness; bp_policy_id := vs_policy_id spawn;
     bp_installed_executable := vs_installed_executable spawn; bp_arguments := vs_arguments spawn;
     bp_environment := vs_environment spawn |}.

(** The header facts that later steps check again. *)
Definition nonces_fresh (freshness : SpawnReplyFreshness) : bool :=
  negb (bool_decide (sf_client_nonce freshness = zeros 32)) && negb (bool_decide (sf_service_nonce freshness = zeros 32))
  && negb (bool_decide (sf_client_nonce freshness = sf_service_nonce freshness)).

Definition stage_broker_plan (self : PendingSpawnReply SessionAssignedSpawn) : res BrokerPlanStageError StagedBrokerSpawn :=
  let freshness := py_freshness self in
  let session := ss_session (py_output self) in
  let spawn := ss_spawn (py_output self) in
  if negb (sf_generation freshness =? sf_connection freshness)
     || negb (sf_connection freshness =? connection_identity spawn)
     || negb (sf_sequence freshness =? 1) || negb (nonces_fresh freshness)
     || negb (bool_decide (py_bound_session self = Some session))
  then Err {| se_pending := self; se_error := WireError_ReplayOrSubstitution |} else
  match plan_encode (staged_plan freshness session spawn) with
  | Ok frame => Ok {| st_pending := self; st_frame := frame |}
  | Err error => Err {| se_pending := self; se_error := error |}
  | Panic => Panic
  end.

(** ** The size of a staged plan *)

Lemma components_len l : len (concat (map component4_wire l)) = len (concat (map component_wire l)) + 2 * len l.
Proof.
  induction l as [|c l IH]; [done|]. cbn [map concat]. unfold component4_wire, component_wire in *.
  rewrite !len_app, !len_le_bytes, IH, len_cons. lia.
Qed.

Lemma entries_len l : len (concat (map entry4_wire l)) = len (concat (map entry_wire l)) + 4 * len l.
Proof.
  induction l as [|e l IH]; [done|]. cbn [map concat]. unfold entry4_wire, entry_wire, component4_wire, component_wire in *.
  rewrite !len_app, !len_le_bytes, IH, len_cons. lia.
Qed.

Lemma request_wire_len r :
  len (request_wire r) = 16 + len (sq_policy_id r) + len (concat (map component_wire (sq_arguments r)))
                         + len (concat (map entry_wire (sq_environment r))).
Proof. unfold request_wire. rewrite !len_app, !len_le_bytes. lia. Qed.

(** ** Staging *)

Section Staging.
Context {W : Type} {C : Clock W} {U : UptimeClock W}.

Abbreviation Ports := (MachPorts W).

Lemma to_local_positive d (w : W) local w' : to_local_instant d w = (Ok local, w') -> d <> 0.
Proof.
  unfold to_local_instant, sbind, slift, read_instant. destruct (instant_now w) as [now w1].
  destruct (monotonic_now_nanos w1) as [[m|e|] w2] eqn:Em; [|discriminate..]. unfold checked_sub, ok_or.
  assert (0 <= m) as Hm.
  { unfold monotonic_now_nanos in Em. destruct (clock_gettime w1) as [[[status s] n] w3]. injection Em as Hm _.
    destruct (_ || _) eqn:E; [discriminate|]. bsplit. unfold try_from, ok_or in Hm.
    destruct (fitsb U64_MAX s) eqn:Es; [|discriminate]. destruct (fitsb U64_MAX n) eqn:En; [|discriminate]. cbn [rbind] in Hm.
    unfold checked_mul in Hm. destruct (_ <=? _) in Hm; [|discriminate]. cbn [mbind option_bind] in Hm. unfold checked_add in Hm.
    destruct (_ <=? _) in Hm; [|discriminate]. injection Hm as <-. unfold fitsb in *. lia. }
  destruct (m <=? d) eqn:E; [|discriminate]. destruct (_ || _) eqn:Ed; [discriminate|]. bsplit. intros _ ->. lia.
Qed.

(** The widths of the arrays in an authenticated record. *)
Definition record_widths (self : AuthenticatedMachRecord) : Prop :=
  len (mr_audit_identity (am_raw self)) = 32 /\ len (am_code_identity self) = 32 /\
  u32 (mr_effective_uid (am_raw self)) /\ u32 (mr_effective_gid (am_raw self)).

(** What the plan of an admitted spawn holds. *)
Definition plan_of (rec : AuthenticatedMachRecord) (k : SupervisorConnection) (cn session : bytes)
  (d : TargetPolicyDefinition) (r : SpawnRequest) : BrokerLaunchPlan :=
  {| bp_deadline := sq_deadline r; bp_connection_generation := sc_connection_identity k; bp_sequence := 1;
     bp_effective_uid := mr_effective_uid (am_raw rec); bp_effective_gid := mr_effective_gid (am_raw rec); bp_session := session;
     bp_audit_identity := mr_audit_identity (am_raw rec); bp_code_identity := am_code_identity rec;
     bp_target_identity := tp_target_identity d; bp_client_nonce := cn; bp_service_nonce := sc_service_nonce k;
     bp_policy_id := tp_policy_id d; bp_installed_executable := tp_installed_executable d;
     bp_arguments := tp_argument0 d :: sq_arguments r; bp_environment := sq_environment r |}.

Lemma plan_of_encodes rec k cn session d r a peer :
  connection_wf k -> fresh_nonce cn -> cn <> sc_service_nonce k -> record_widths rec -> fresh_nonce session ->
  definition_ok d -> len (tp_target_identity d) = 32 -> request_ok r -> sq_deadline r <> 0 ->
  as_request a = r -> allows d a ->
  VerifiedPeer_from_authenticated_message_audit_token (sc_connection_identity k) (mr_audit_identity (am_raw rec))
    (mr_effective_uid (am_raw rec)) (mr_effective_gid (am_raw rec)) (am_code_identity rec) = Ok peer ->
  HEADER_LEN + len (request_wire r) <= MAX_SUPERVISOR_RECORD_BYTES ->
  let p := plan_of rec k cn session d r in
  plan_encode p = Ok (plan_wire p) /\ plan_decode_untrusted (plan_wire p) = Ok p.
Proof.
  intros (Hg & Hg0 & [Hs Hs0]) [Hc Hc0] Hne (Ha & Hco & Hu & Hgi) [Hse Hse0] Hd Ht Hr Hdl <- (Hid & Hcode & Hargs & Hnd & Hkeys) Hp Hb p.
  apply definition_facts in Hd as (D1 & D2 & D3 & D4 & D5 & D6 & D7 & _ & _).
  destruct Hr as (R1 & R2 & R3 & R4 & R5 & R6). unfold VerifiedPeer_from_authenticated_message_audit_token in Hp.
  destruct (_ || _) eqn:E in Hp; [discriminate|]. bsplit.
  assert (plan_widths p) as Hw by (unfold plan_widths, p, plan_of; cbn; split_and!; (done || ulia)).
  assert (plan_ok p) as Hok.
  { unfold plan_ok, credential_ok, inputs_ok, p, plan_of; cbn. split_and!; try done.
    - rewrite len_cons. lia.
    - now constructor. }
  assert (len (plan_wire p) <= MAX_BROKER_PLAN_BYTES) as Hlen.
  { unfold plan_wire. rewrite len_app, plan_head_len by done. unfold plan_body, inputs_wire, p, plan_of. cbn [bp_policy_id bp_installed_executable
      bp_arguments bp_environment fst snd map concat].
    rewrite !len_app, components_len, entries_len. unfold component4_wire. rewrite len_app, len_le_bytes.
    rewrite request_wire_len in Hb. apply validate_policy_id_len in D1 as [_ D1]. apply validate_installed_executable_len in D2 as [_ D2].
    apply validate_component_iff in D3 as [D3 _]. rewrite Hid in *.
    unfold HEADER_LEN, MAX_SUPERVISOR_RECORD_BYTES, MAX_BROKER_PLAN_BYTES, MAX_COMPONENT_BYTES, MAX_ARGUMENTS, MAX_ENVIRONMENT in *. lia. }
  split; [now apply plan_encode_iff|now apply plan_decode_iff].
Qed.

Lemma releasing_ok {S E X} reply (m : stm (S * Ports) E X) s x s' :
  releasing reply m s = (Ok x, s') -> m s = (Ok x, s').
Proof. unfold releasing. destruct (m s) as [[y|e|] [self ports]]; congruence. Qed.

Lemma on_timed_ok {S E X} (m : stm W E X) (s : S) (P : Ports) x s' :
  on_world (timed m) (s, P) = (Ok x, s') -> exists P', s' = (s, P') /\ mp_log P' = mp_log P /\ m (mp_world P) = (Ok x, mp_world P').
Proof.
  unfold on_world, timed. destruct (m (mp_world P)) as [r w]. intros [= -> <-]. eexists. split; [reflexivity|]. now split.
Qed.

(** A spawn that is routed: its freshness is its header's. *)
Lemma route_spawn {S} rec (s s' : S) (P P' : Ports) sp :
  route rec (s, P) = (Ok (RouteSpawn sp), (s', P')) ->
  s' = s /\ mp_log P' = mp_log P /\ au_record sp = rec /\
  exists h, decode_header (mr_bytes (am_raw rec)) = Ok h /\
    au_freshness sp = {| sf_connection := hd_generation h; sf_generation := hd_generation h; sf_sequence := hd_sequence h;
                         sf_client_nonce := hd_client_nonce h; sf_service_nonce := hd_service_nonce h |}.
Proof.
  unfold route. intros Hr. apply releasing_ok in Hr. unfold sbind at 1 in Hr.
  destruct (on_world (timed (to_local_instant (am_deadline rec))) (s, P)) as [[l|e|] s1] eqn:Et; [|discriminate..].
  apply on_timed_ok in Et as (P1 & -> & Hl & _). unfold sbind, slift in Hr.
  destruct (decode_header (mr_bytes (am_raw rec))) as [h|e|]; [|discriminate..].
  destruct (hd_kind h); try discriminate; destruct (hd_generation h =? 0); try discriminate.
  injection Hr as <- <- <-. split; [done|]. split; [done|]. split; [done|]. now exists h.
Qed.

Lemma accept_spawn_inv sp k (P : Ports) pending k' P' cn peer :
  connection_wf k -> fresh_nonce cn -> sc_state k = Supervisor.Authenticated cn peer ->
  spawn_accept sp (k, P) = (Ok pending, (k', P')) ->
  let rec := au_record sp in
  sc_connection_identity k = sf_connection (au_freshness sp) /\
  VerifiedPeer_from_authenticated_message_audit_token (sc_connection_identity k) (mr_audit_identity (am_raw rec))
    (mr_effective_uid (am_raw rec)) (mr_effective_gid (am_raw rec)) (am_code_identity rec) = Ok peer /\
  spawn_carries k cn {| vm_peer := peer; vm_bytes := mr_bytes (am_raw rec) |} (py_output pending) /\
  sq_deadline (as_request (py_output pending)) <> 0 /\
  pending = {| py_reply := mr_reply (am_raw rec); py_freshness := au_freshness sp; py_bound_session := None; py_output := py_output pending |} /\
  k' = set_state SpawnConsumed k /\ mp_log P' = mp_log P.
Proof.
  intros Hk Hcn Hst Ha rec. unfold spawn_accept, sbind at 1 in Ha. cbn [sget] in Ha.
  destruct (sc_connection_identity k =? sf_connection (au_freshness sp)) eqn:Ei; bsplit; cbn [negb] in Ha; [|discriminate].
  split; [done|]. unfold sbind at 1, record_receive_spawn, sbind at 1 in Ha. cbn [sget] in Ha.
  match type of Ha with (let (_, _) := ?m in _) = _ => destruct m as [[request|e|] s1] eqn:Em end; [|discriminate..].
  unfold sret in Ha. injection Ha as <- ->. unfold with_verified_message in Em. apply releasing_ok in Em. fold rec in Em.
  unfold sbind at 1 in Em.
  destruct (on_world (timed (to_local_instant (am_deadline rec))) (k, P)) as [[l|e|] s2] eqn:Et; [|discriminate..].
  apply on_timed_ok in Et as (P1 & -> & Hl & _). unfold sbind at 1, slift at 1 in Em.
  destruct (VerifiedPeer_from_authenticated_message_audit_token _ _ _ _ _) as [vp|e|] eqn:Ep; [|discriminate..].
  unfold sbind, within in Em. set (message := {| vm_peer := vp; vm_bytes := mr_bytes (am_raw rec) |}) in *.
  destruct (spawn_cases message k (mp_world P1) cn peer Hk Hcn Hst) as [[_ (e & Hr)]|[Haddr [(e & w' & Hr)|(a & w' & Hr & Hpeer & Hcar & Hfw)]]];
    rewrite Hr in Em; try discriminate. unfold sret in Em. injection Em as <- <- <-. cbn [bind_spawn rq_output rq_reply py_output].
  destruct Haddr as [Hvp _]. cbn [vm_peer message] in Hvp. subst vp. split; [done|]. split; [done|].
  split; [|split; [done|split; [done|exact Hl]]]. unfold from_wire, sbind in Hfw.
  destruct (to_local_instant _ _) as [[local|e|] w2] eqn:El in Hfw; [|discriminate..]. now apply to_local_positive in El.
Qed.

(** C24: What an admitted client asked for is what is staged. When a record is
    routed to an open connection, accepted and validated against the installed
    catalog, assigning a session and staging cannot fail, and the staged frame
    decodes to exactly: the client that the message was authenticated to, the
    target, executable and first argument of one installed definition that
    authorizes that client, and the arguments, environment, deadline and nonces
    of the one request the record encodes; the reply right is still the
    record's, and the connection accepts no other spawn. *)
Theorem spawn_staged_exactly rec sp k cn peer definitions catalog session (P P1 P' : Ports) k1 k' pending validated :
  connection_wf k -> sc_state k = Supervisor.Authenticated cn peer -> fresh_nonce cn -> cn <> sc_service_nonce k ->
  record_widths rec -> fresh_nonce session ->
  Forall definition_ok definitions -> Forall (fun d => len (tp_target_identity d) = 32) definitions ->
  from_verified_installation definitions = Ok catalog ->
  route rec (k, P) = (Ok (RouteSpawn sp), (k1, P1)) -> spawn_accept sp (k1, P1) = (Ok pending, (k', P')) ->
  reply_validate pending catalog = Ok validated ->
  exists assigned frame d r,
    assign_session (E := BrokerPlanStageError) validated session = Ok assigned /\
    stage_broker_plan assigned = Ok {| st_pending := assigned; st_frame := frame |} /\
    plan_decode_untrusted frame = Ok (plan_of rec k cn session d r) /\
    d ∈ definitions /\ tp_authorized_client_code_identity d = am_code_identity rec /\
    encode_spawn_request r (sc_connection_identity k) cn (sc_service_nonce k) = Ok (mr_bytes (am_raw rec)) /\
    py_reply assigned = mr_reply (am_raw rec) /\ mp_log P' = mp_log P /\ sc_state k' = SpawnConsumed.
Proof.
  intros Hk Hst Hcn Hne Hrw Hse Hdefs Hts Hcat Hroute Hacc Hval.
  apply route_spawn in Hroute as (-> & Hl1 & Hrec & h & Hh & Hfresh).
  apply (accept_spawn_inv _ _ _ _ _ _ cn peer Hk Hcn Hst) in Hacc as (Hi & Hpeer & Hcar & Hd0 & Hpend & -> & Hl).
  rewrite Hrec in *. destruct Hcar as (Hp & Hrok & Henc & Hwire). cbn [vm_bytes vm_peer] in *. set (a := py_output pending) in *.
  unfold reply_validate in Hval. destruct (admission_exact definitions catalog a Hdefs Hcat) as [_ Hadm].
  fold a in Hval. destruct (AuthenticatedSpawnRequest_validate a catalog) as [v|e|]; [|discriminate..]. injection Hval as <-.
  destruct (proj1 (Hadm v) eq_refl) as (d & Hin & Hallows & ->). rewrite Forall_forall in Hdefs. rewrite Forall_forall in Hts.
  pose proof Hk as (Hg & Hg0 & Hsn). pose proof Hcn as [Hc _]. pose proof Hsn as [Hs _].
  pose proof Henc as Hencoded. apply encode_spawn_request_iff in Henc as (_ & Hcn0 & Hsn0 & Hb & Hbytes); try done.
  assert (h = spawn_header (len (request_wire (as_request a))) (sc_connection_identity k) cn (sc_service_nonce k)) as ->.
  { assert (exists h', decode_header (mr_bytes (am_raw rec)) = Ok h' /\ spawn_facts h' (sc_connection_identity k) cn (sc_service_nonce k) /\
      decode_spawn_payload (slice (mr_bytes (am_raw rec)) HEADER_LEN (len (mr_bytes (am_raw rec)))) = Ok (as_request a)) as (h' & Hh' & Hf & _)
      by (apply spawn_record_iff; done).
    rewrite Hh in Hh'. injection Hh' as <-. pose proof Hf as Hf'. apply spawn_facts_header in Hf. rewrite Hf. f_equal.
    destruct (decode_header_payload _ _ Hh) as (_ & _ & -> & _). rewrite Hbytes.
    pose proof (header_wire_len _ (spawn_header_wf (len (request_wire (as_request a))) _ cn _ Hg Hc Hs)) as Hhl.
    pose proof (len_nonneg (request_wire (as_request a))). unfold HEADER_LEN. rewrite len_slice by (rewrite ?len_app; lia). rewrite len_app. lia. }
  rewrite Hpend. unfold assign_session. cbn [with_output py_bound_session].
  destruct (plan_of_encodes rec k cn session d (as_request a) a peer) as [Hpe Hpd]; try done; [now apply Hdefs|now apply Hts|].
  eexists _, _, d, (as_request a). split; [reflexivity|]. split; [|split; [exact Hpd|]].
  - unfold stage_broker_plan. cbn [py_freshness py_output py_bound_session py_reply ss_session ss_spawn with_output]. rewrite Hfresh.
    cbn [spawn_header sf_connection sf_generation sf_sequence hd_generation hd_sequence].
    assert (connection_identity (launch d a) = sc_connection_identity k) as ->.
    { cbn [connection_identity ValidatedSpawn_effect launch vs_peer]. rewrite <- Hp. unfold VerifiedPeer_from_authenticated_message_audit_token in Hpeer.
      destruct (_ || _) in Hpeer; [discriminate|]. now injection Hpeer as <-. }
    rewrite !Z.eqb_refl. unfold nonces_fresh. cbn [sf_client_nonce sf_service_nonce hd_client_nonce hd_service_nonce spawn_header].
    rewrite !bool_decide_eq_false_2 by done. rewrite bool_decide_eq_true_2 by done. cbn [negb orb andb Z.eqb Pos.eqb].
    assert (staged_plan {| sf_connection := sc_connection_identity k; sf_generation := sc_connection_identity k; sf_sequence := 1;
              sf_client_nonce := cn; sf_service_nonce := sc_service_nonce k |} session (launch d a) = plan_of rec k cn session d (as_request a)) as Heq.
    { unfold staged_plan, plan_of, launch. cbn. rewrite <- Hp, Hwire. unfold VerifiedPeer_from_authenticated_message_audit_token in Hpeer.
      destruct (_ || _) in Hpeer; [discriminate|]. now injection Hpeer as <-. }
    rewrite Heq, Hpe. reflexivity.
  - destruct Hallows as (_ & Hcode & _). split; [done|]. split; [|split; [done|split; [done|split; [now rewrite Hl|done]]]].
    rewrite <- Hcode, <- Hp. unfold VerifiedPeer_from_authenticated_message_audit_token in Hpeer.
    destruct (_ || _) in Hpeer; [discriminate|]. now injection Hpeer as <-.
Qed.

End Staging.

(** * One spawn record is routed, admitted and staged *)

#[local] Existing Instance SupervisorExample.ticking.
#[local] Existing Instance SupervisorExample.ticking_uptime.

(** The connection after its hello. *)
Definition open_connection : SupervisorConnection := set_state (Supervisor.Authenticated client_nonce peer) connection.

Definition spawn_record : AuthenticatedMachRecord :=
  {| am_raw := {| mr_audit_identity := replicate 32 x05; mr_effective_uid := 501; mr_effective_gid := 20;
                  mr_bytes := vm_bytes spawn_message; mr_reply := 77 |};
     am_code_identity := client_code; am_deadline := 6000 |}.

Definition idle_ports : MachPorts nat := {| mp_queue := []; mp_sends := []; mp_log := []; mp_world := 20%nat |}.
Definition session : bytes := replicate 32 x0b.

Definition routed := match route spawn_record (open_connection, idle_ports) with
                     | (Ok (RouteSpawn sp), _) => Some sp
                     | _ => None
                     end.

Definition spawn_freshness : SpawnReplyFreshness :=
  {| sf_connection := 7; sf_generation := 7; sf_sequence := 1; sf_client_nonce := client_nonce; sf_service_nonce := service_nonce |}.
Definition the_spawn : AuthenticatedSpawn := {| au_record := spawn_record; au_freshness := spawn_freshness |}.

Definition after_route : MachPorts nat := snd (snd (route spawn_record (open_connection, idle_ports))).
Definition after_accept := snd (spawn_accept the_spawn (open_connection, after_route)).

Definition accepted_spawn : PendingSpawnReply AuthenticatedSpawnRequest :=
  {| py_reply := 77; py_freshness := spawn_freshness; py_bound_session := None;
     py_output := {| as_peer := peer; as_deadline := {| db_wire := 5000; db_local := 4999 |}; as_request := request |} |}.
Definition admitted_spawn : PendingSpawnReply ValidatedSpawn :=
  with_output (launch render_policy (py_output accepted_spawn)) accepted_spawn.

Lemma open_is_wf : connection_wf open_connection.
Proof. split_and!; vm_compute; first [congruence | split; congruence]. Qed.

Lemma record_fits : record_widths spawn_record.
Proof. unfold record_widths, spawn_record; cbn. split_and!; try reflexivity; ulia. Qed.

Lemma spawn_staged_exactly_witness :
  exists assigned frame d r,
    assign_session (E := BrokerPlanStageError) admitted_spawn session = Ok assigned /\
    stage_broker_plan assigned = Ok {| st_pending := assigned; st_frame := frame |} /\
    plan_decode_untrusted frame = Ok (plan_of spawn_record open_connection client_nonce session d r) /\
    d ∈ [render_policy; decode_policy] /\
    encode_spawn_request r 7 client_nonce service_nonce = Ok (vm_bytes spawn_message).
Proof.
  destruct (spawn_staged_exactly spawn_record the_spawn open_connection client_nonce peer [render_policy; decode_policy]
    [decode_policy; render_policy] session idle_ports after_route (snd after_accept) open_connection (fst after_accept)
    accepted_spawn admitted_spawn) as (a & frame & d & r & H1 & H2 & H3 & H4 & _ & H6 & _).
  - exact open_is_wf.
  - reflexivity.
  - split; [reflexivity|discriminate].
  - discriminate.
  - exact record_fits.
  - split; [reflexivity|discriminate].
  - exact policies_are_ok.
  - repeat constructor.
  - vm_compute. reflexivity.
  - vm_compute. reflexivity.
  - vm_compute. reflexivity.
  - vm_compute. reflexivity.
  - exists a, frame, d, r. split; [exact H1|]. split; [exact H2|]. split; [exact H3|]. split; [exact H4|exact H6].
Defined.
