(* ===== verification/Child.v ===== *)
(** * Child: the service's authority over one direct child
    ([DedicatedChildWaitDomain] and [DirectChildAuthWorkerAuthority] of
    [supervisor_auth_adapter.rs], [DirectChildBrokerAuthority] of
    [supervisor_broker_spawn.rs])

    A process identifier may be signalled only while the kernel still holds the
    child unreaped. What the kernel does is scripted: the outcomes of the coming
    waits, signals and gate writes (none left: a wait that may block reaps a
    killed child, one that may not finds nothing, a signal and a write succeed).
    [ck_log] is not in the code: it is what happened to the children. *)

From S2P Require Import Prelude Bytes Native Supervisor Watchdog AuthPool.

Definition ECHILD : Z := 10.
Definition EINTR : Z := 4.
Definition ESRCH : Z := 3.
Definition EINVAL : Z := 22.
Definition SIGKILL : Z := 9.
Definition SIGCHLD : Z := 20.
Definition SA_NOCLDWAIT : Z := 32.

(** ** The kernel's children *)

Inductive WaitOutcome := WaitReaps (status : Z) | WaitNothing | WaitFails (error : Z).
Inductive GateWrite := GateWrites (count : Z) | GateFails (error : Z).

Inductive ChildEvent :=
| StartSent (pid : Z)
| GateClosed (pid : Z)
| ChildSignalled (pid : Z)
| ChildReaped (pid status : Z).

Record ChildKernel := {
  ck_waits : list WaitOutcome;
  ck_kills : list Z;
  ck_gates : list GateWrite;
  ck_log : list ChildEvent
}.

Definition log_child (event : ChildEvent) (k : ChildKernel) : ChildKernel :=
  {| ck_waits := ck_waits k; ck_kills := ck_kills k; ck_gates := ck_gates k; ck_log := ck_log k ++ [event] |}.
Definition with_waits (waits : list WaitOutcome) (k : ChildKernel) : ChildKernel :=
  {| ck_waits := waits; ck_kills := ck_kills k; ck_gates := ck_gates k; ck_log := ck_log k |}.
Definition with_kills (kills : list Z) (k : ChildKernel) : ChildKernel :=
  {| ck_waits := ck_waits k; ck_kills := kills; ck_gates := ck_gates k; ck_log := ck_log k |}.
Definition with_gates (gates : list GateWrite) (k : ChildKernel) : ChildKernel :=
  {| ck_waits := ck_waits k; ck_kills := ck_kills k; ck_gates := gates; ck_log := ck_log k |}.

(** [waitpid(pid, &status, options)] of one child; [nohang] is [WNOHANG]. *)
Definition waitpid {E} (pid : Z) (nohang : bool) : stm ChildKernel E WaitOutcome :=
  let! k := sget in
  let outcome := match ck_waits k with
                 | [] => if nohang then WaitNothing else WaitReaps SIGKILL
                 | outcome :: _ => outcome
                 end in
  smodify (with_waits (tail (ck_waits k))) >>!
  match outcome with WaitReaps status => smodify (log_child (ChildReaped pid status)) | _ => sret tt end >>!
  sret outcome.

(** [kill(pid, SIGKILL)]: the error number, 0 for a delivered signal. *)
Definition kill {E} (pid : Z) : stm ChildKernel E Z :=
  let! k := sget in
  let error := match ck_kills k with [] => 0 | error :: _ => error end in
  smodify (with_kills (tail (ck_kills k))) >>!
  (if error =? 0 then smodify (log_child (ChildSignalled pid)) else sret tt) >>!
  sret error.

(** [write] of the start byte. *)
Definition write_gate {E} (pid : Z) : stm ChildKernel E GateWrite :=
  let! k := sget in
  let outcome := match ck_gates k with [] => GateWrites 1 | outcome :: _ => outcome end in
  smodify (with_gates (tail (ck_gates k))) >>!
  match outcome with
  | GateWrites count => if count =? 1 then smodify (log_child (StartSent pid)) else sret tt
  | GateFails _ => sret tt
  end >>!
  sret outcome.

(** ** An authentication worker *)

Module Worker.

Inductive DirectChildAuthWorkerError :=
| InvalidChild
| WaitAuthorityLost
| Wait (error : Z)
| Signal (error : Z).

Inductive DirectChildState := Unreaped | TerminationSent | Reaped | AuthorityLost.

#[global] Instance state_eq_dec : EqDecision DirectChildState.
Proof. solve_decision. Defined.

Record DirectChildAuthWorkerAuthority := { dc_pid : Z; dc_state : DirectChildState }.

Abbreviation method T := (stm (DirectChildAuthWorkerAuthority * ChildKernel) DirectChildAuthWorkerError T).

Definition with_state (state : DirectChildState) (self : DirectChildAuthWorkerAuthority) : DirectChildAuthWorkerAuthority :=
  {| dc_pid := dc_pid self; dc_state := state |}.

Definition retired (state : DirectChildState) : bool := bool_decide (state = Reaped) || bool_decide (state = AuthorityLost).

(** A [ReapedAuthWorker] is whether the exit was clean. *)
Definition observe_exact_reap (nohang : bool) : method (option bool) :=
  let! (self, _) := sget in
  if retired (dc_state self) then serr WaitAuthorityLost else
  let! result := on_world (waitpid (dc_pid self) nohang) in
  match result with
  | WaitReaps status =>
      on_self (smodify (with_state Reaped)) >>! sret (Some (wait_status_is_clean_exit status))
  | WaitNothing => sret None
  | WaitFails error =>
      if error =? ECHILD then on_self (smodify (with_state AuthorityLost)) >>! slift Panic
      else serr (Wait error)
  end.

Definition signal_exact_child : method unit :=
  let! (self, _) := sget in
  if retired (dc_state self) then serr WaitAuthorityLost else
  if bool_decide (dc_state self = TerminationSent) then sret tt else
  let! error := on_world (kill (dc_pid self)) in
  if error =? 0 then on_self (smodify (with_state TerminationSent)) else
  if error =? ESRCH then on_self (smodify (with_state TerminationSent)) else
  serr (Signal error).

(** Waiting again after an interruption, which uses up one scripted outcome. *)
Fixpoint wait_uninterrupted (nohang : bool) (waits : list WaitOutcome) : method (option bool) :=
  fun s =>
    match observe_exact_reap nohang s, waits with
    | (Err (Wait error), s'), _ :: waits =>
        if error =? EINTR then wait_uninterrupted nohang waits s' else (Err (Wait error), s')
    | outcome, _ => outcome
    end.

(** An error of the method ends the process. *)
Definition or_abort {T} (m : method T) : stm (DirectChildAuthWorkerAuthority * ChildKernel) Empty_set T :=
  fun s => match m s with
           | (Ok x, s) => (Ok x, s)
           | (_, s) => (Panic, s)
           end.

Definition waiting (nohang : bool) : method (option bool) :=
  let! (_, k) := sget in wait_uninterrupted nohang (ck_waits k).

Definition emergency_cleanup : stm (DirectChildAuthWorkerAuthority * ChildKernel) Empty_set bool :=
  let! (self, _) := sget in
  if retired (dc_state self) then slift Panic else
  let! first := or_abort (waiting true) in
  match first with
  | Some proof => sret proof
  | None =>
      or_abort signal_exact_child >>!
      let! last := or_abort (waiting false) in
      match last with Some proof => sret proof | None => slift Panic end
  end.

Definition try_reap_after_result : method (option bool) := observe_exact_reap true.

Definition try_terminate_and_reap : method (option bool) :=
  let! first := observe_exact_reap true in
  match first with
  | Some proof => sret (Some proof)
  | None => signal_exact_child >>! observe_exact_reap true
  end.

End Worker.

(** ** The broker *)

Module Broker.

Inductive BrokerSpawnError :=
| InvalidFixedImage
| Pipe (error : Z)
| Descriptor (error : Z)
| FileActions (error : Z)
| Attributes (error : Z)
| SpawnFailed (error : Z)
| Wait (error : Z)
| Signal (error : Z)
| Activation (error : Z)
| Control (error : Z)
| ControlProtocol
| DeadlineExpired
| InvalidTransition
| InvalidWaitDomain.

Inductive DirectChildState := Dormant | Active | TerminationSent | Reaped | AuthorityLost.

#[global] Instance state_eq_dec : EqDecision DirectChildState.
Proof. solve_decision. Defined.

(** [dc_gate]: the writer's end is still open. *)
Record DirectChildBrokerAuthority := { dc_pid : Z; dc_gate : bool; dc_state : DirectChildState }.

Abbreviation method T := (stm (DirectChildBrokerAuthority * ChildKernel) BrokerSpawnError T).

Definition with_state (state : DirectChildState) (self : DirectChildBrokerAuthority) : DirectChildBrokerAuthority :=
  {| dc_pid := dc_pid self; dc_gate := dc_gate self; dc_state := state |}.

Definition retired (state : DirectChildState) : bool := bool_decide (state = Reaped) || bool_decide (state = AuthorityLost).

Definition close_gate : method unit :=
  let! (self, _) := sget in
  if dc_gate self then
    on_self (smodify (fun self => {| dc_pid := dc_pid self; dc_gate := false; dc_state := dc_state self |})) >>!
    on_world (smodify (log_child (GateClosed (dc_pid self))))
  else sret tt.

(** Whether the child was reaped. *)
Definition observe_exact_reap (nohang : bool) : method bool :=
  let! (self, _) := sget in
  if retired (dc_state self) then slift Panic else
  let! result := on_world (waitpid (dc_pid self) nohang) in
  match result with
  | WaitReaps _ => on_self (smodify (with_state Reaped)) >>! sret true
  | WaitNothing => sret false
  | WaitFails error =>
      if error =? ECHILD then on_self (smodify (with_state AuthorityLost)) >>! slift Panic
      else serr (Wait error)
  end.

Definition signal_exact_child : method unit :=
  let! (self, _) := sget in
  if retired (dc_state self) then slift Panic else
  if bool_decide (dc_state self = TerminationSent) then sret tt else
  let! error := on_world (kill (dc_pid self)) in
  if error =? 0 then on_self (smodify (with_state TerminationSent)) else
  if error =? ESRCH then on_self (smodify (with_state TerminationSent)) else
  serr (Signal error).

Fixpoint wait_uninterrupted (nohang : bool) (waits : list WaitOutcome) : method bool :=
  fun s =>
    match observe_exact_reap nohang s, waits with
    | (Err (Wait error), s'), _ :: waits =>
        if error =? EINTR then wait_uninterrupted nohang waits s' else (Err (Wait error), s')
    | outcome, _ => outcome
    end.

Definition waiting (nohang : bool) : method bool :=
  let! (_, k) := sget in wait_uninterrupted nohang (ck_waits k).

Definition terminate_and_wait : method unit :=
  close_gate >>!
  let! reaped := waiting true in
  if reaped : bool then sret tt else
  signal_exact_child >>!
  let! reaped := waiting false in
  if reaped : bool then sret tt else slift Panic.

Definition emergency_terminate_and_wait : stm (DirectChildBrokerAuthority * ChildKernel) Empty_set unit :=
  fun s => match terminate_and_wait s with
           | (Ok x, s) => (Ok x, s)
           | (_, s) => (Panic, s)
           end.

Definition activate_after_registration : method unit :=
  let! (self, _) := sget in
  if negb (bool_decide (dc_state self = Dormant)) then serr InvalidTransition else
  if negb (dc_gate self) then slift Panic else
  let! result := on_world (write_gate (dc_pid self)) in
  match result with
  | GateWrites count =>
      if count =? 1 then on_self (smodify (with_state Active)) else serr (Activation ECHILD)
  | GateFails error => serr (Activation error)
  end.

End Broker.

(** ** The traits they implement *)

(** The world holds the children and what else the caller's state holds. *)
Definition on_children {A V E T} (m : stm (A * ChildKernel) E T) : stm (A * (ChildKernel * V)) E T :=
  fun '(self, (k, v)) => let '(r, (self, k)) := m (self, k) in (r, (self, (k, v))).

#[export] Instance Worker_authority {V : Type} :
  ExactAuthWorkerAuthority Worker.DirectChildAuthWorkerAuthority (ChildKernel * V) Worker.DirectChildAuthWorkerError := {|
  authority_try_reap_after_result := on_children Worker.try_reap_after_result;
  authority_try_terminate_and_reap := on_children Worker.try_terminate_and_reap;
  authority_emergency_terminate_and_reap := on_children Worker.emergency_cleanup
|}.

#[export] Instance Broker_authority {V : Type} :
  ExactBrokerAuthority Broker.DirectChildBrokerAuthority (ChildKernel * V) Broker.BrokerSpawnError := {|
  exact_child := Broker.dc_pid;
  activate_after_registration := on_children Broker.activate_after_registration;
  terminate_and_reap _ := on_children Broker.terminate_and_wait;
  emergency_terminate_and_reap _ := on_children Broker.emergency_terminate_and_wait
|}.

(** ** The wait domain *)

Inductive ChildWaitDomainError :=
| AlreadyClaimed
| Sigaction (error : Z)
| NonDefaultSigchld
| AutoReapEnabled
| NotMainThread
| ProcessAlreadyThreaded
| InstallSigaction (error : Z)
| SignalSet (error : Z)
| SignalMask (error : Z)
| NonCanonicalSigchld
| SigchldNotBlocked.

Record DarwinSigaction := { sa_handler : Z; sa_mask : Z; sa_flags : Z }.

#[export] Instance DarwinSigaction_eq_dec : EqDecision DarwinSigaction.
Proof. solve_decision. Defined.

(** The process's signal state, [CHILD_WAIT_DOMAIN_CLAIMED], and the error
    numbers of its coming system calls (0: the call succeeds; none left: all
    succeed). *)
Record Process := {
  pr_main_thread : bool;
  pr_threaded : bool;
  pr_sigchld : DarwinSigaction;
  pr_blocked : Z;
  pr_claimed : bool;
  pr_errors : list Z
}.

Abbreviation startup T := (stm Process ChildWaitDomainError T).

Definition with_process (sigchld : DarwinSigaction) (blocked : Z) (claimed : bool) (p : Process) : Process :=
  {| pr_main_thread := pr_main_thread p; pr_threaded := pr_threaded p; pr_sigchld := sigchld; pr_blocked := blocked;
     pr_claimed := claimed; pr_errors := pr_errors p |}.

(** One system call: its error number, and its effect when there is none. *)
Definition system_call (effect : Process -> Process) : startup Z :=
  let! p := sget in
  let error := match pr_errors p with [] => 0 | error :: _ => error end in
  smodify (fun p => {| pr_main_thread := pr_main_thread p; pr_threaded := pr_threaded p; pr_sigchld := pr_sigchld p;
                       pr_blocked := pr_blocked p; pr_claimed := pr_claimed p; pr_errors := tail (pr_errors p) |}) >>!
  (if error =? 0 then smodify effect else sret tt) >>!
  sret error.

Definition call_or (failure : Z -> ChildWaitDomainError) (effect : Process -> Process) : startup unit :=
  let! error := system_call effect in
  if error =? 0 then sret tt else serr (failure error).

Definition query_disposition : startup DarwinSigaction :=
  call_or Sigaction id >>! let! p := sget in sret (pr_sigchld p).

Definition validate_disposition (disposition : DarwinSigaction) : res ChildWaitDomainError unit :=
  if negb (sa_handler disposition =? 0) then Err NonDefaultSigchld else
  if negb (Z.land (sa_flags disposition) SA_NOCLDWAIT =? 0) then Err AutoReapEnabled else
  Ok tt.

(** [sigaddset] and [sigismember] on a set of signals. *)
Definition sigset_of (signal : Z) : Z := Z.shiftl 1 (signal - 1).
Definition sigismember (set signal : Z) : bool := Z.testbit set (signal - 1).

Definition canonical_sigchld : DarwinSigaction := {| sa_handler := 0; sa_mask := 0; sa_flags := 0 |}.

(** The current mask is read, and must hold [SIGCHLD]. *)
Definition require_blocked : startup unit :=
  call_or SignalMask id >>!
  let! p := sget in
  if sigismember (pr_blocked p) SIGCHLD then sret tt else serr SigchldNotBlocked.

Definition require_single_thread : startup unit :=
  let! p := sget in
  if negb (pr_main_thread p) then serr NotMainThread else
  if pr_threaded p then serr ProcessAlreadyThreaded else
  sret tt.

Definition establish_at_service_startup : startup unit :=
  require_single_thread >>!
  let! disposition := query_disposition in
  slift (validate_disposition disposition) >>!
  let! p := sget in
  if pr_claimed p then serr AlreadyClaimed else
  smodify (fun p => with_process (pr_sigchld p) (pr_blocked p) true p) >>!
  call_or InstallSigaction (fun p => with_process canonical_sigchld (pr_blocked p) (pr_claimed p) p) >>!
  call_or SignalSet id >>!
  call_or SignalSet id >>!
  call_or SignalMask (fun p => with_process (pr_sigchld p) (Z.lor (pr_blocked p) (sigset_of SIGCHLD)) (pr_claimed p) p) >>!
  let! disposition := query_disposition in
  if negb (bool_decide (disposition = canonical_sigchld)) then serr NonCanonicalSigchld else
  require_blocked.

Definition verify_single_threaded_spawn : startup unit :=
  require_single_thread >>!
  let! disposition := query_disposition in
  slift (validate_disposition disposition) >>!
  require_blocked.
