(* ===== verification/ChildTheory.v ===== *)
(** * ChildTheory: only an unreaped child is signalled, and cleanup reaps it

    The last section shows that the broker's authority keeps the law the
    watchdog relies on. *)

From S2P Require Import Prelude Bytes Tools Native Supervisor Watchdog WatchdogTheory AuthPool Child.

(** ** The kernel's answers *)

(** What waiting through interruptions finds, and the script after it. *)
Fixpoint next_answer (nohang : bool) (waits : list WaitOutcome) : WaitOutcome * list WaitOutcome :=
  match waits with
  | [] => (if nohang then WaitNothing else WaitReaps SIGKILL, [])
  | WaitFails error :: waits => if error =? EINTR then next_answer nohang waits else (WaitFails error, waits)
  | outcome :: waits => (outcome, waits)
  end.

(** A signal is delivered, or the child has already exited. *)
Definition signal_lands (k : ChildKernel) : bool :=
  match ck_kills k with [] => true | error :: _ => (error =? 0) || (error =? ESRCH) end.

(** The status with which a cleanup reaps the child: it looks, signals unless
    it [sent] a signal before, and waits. *)
Definition cleanup_status (sent : bool) (k : ChildKernel) : option Z :=
  match next_answer true (ck_waits k) with
  | (WaitReaps status, _) => Some status
  | (WaitNothing, waits) =>
      if sent || signal_lands k then
        match next_answer false waits with (WaitReaps status, _) => Some status | _ => None end
      else None
  | (WaitFails _, _) => None
  end.

(** The contract of the kernel with the sole waiter of a child: a wait fails
    only by interruption, and one that may block does not return without the
    child. *)
Fixpoint keeps_child (blocking : bool) (waits : list WaitOutcome) : bool :=
  match waits with
  | [] | WaitReaps _ :: _ => true
  | WaitFails error :: waits => (error =? EINTR) && keeps_child blocking waits
  | WaitNothing :: waits => negb blocking && keeps_child true waits
  end.

Lemma keeps_child_answers blocking waits :
  keeps_child blocking waits = true ->
  match next_answer (negb blocking) waits with
  | (WaitReaps _, _) => True
  | (WaitNothing, waits) => blocking = false /\ keeps_child true waits = true
  | (WaitFails _, _) => False
  end.
Proof.
  induction waits as [|[status| |error] waits IH]; cbn [keeps_child next_answer]; intros Hk; bsplit; try done.
  - now destruct blocking.
  - destruct (error =? EINTR) eqn:Ee; bsplit; [exact (IH Hk0)|lia].
Qed.

Lemma cleanup_status_answers sent k :
  keeps_child false (ck_waits k) = true -> signal_lands k = true -> is_Some (cleanup_status sent k).
Proof.
  intros Hk Hs. unfold cleanup_status. pose proof (keeps_child_answers false _ Hk) as Ha. cbn [negb] in Ha.
  destruct (next_answer true (ck_waits k)) as [[status| |error] waits]; [eauto| |done]. rewrite Hs, orb_true_r.
  pose proof (keeps_child_answers true _ (proj2 Ha)) as Hb. cbn [negb] in Hb.
  destruct (next_answer false waits) as [[status| |error] ?]; [eauto| |done]. now destruct Hb.
Qed.

(** What waiting does to the kernel. *)
Definition answered (pid : Z) (answer : WaitOutcome * list WaitOutcome) (k : ChildKernel) : ChildKernel :=
  match answer with
  | (WaitReaps status, waits) => log_child (ChildReaped pid status) (with_waits waits k)
  | (_, waits) => with_waits waits k
  end.

Lemma kill_lands {E} pid k :
  signal_lands k = true ->
  exists error, kill (E := E) pid k = (Ok error, (if error =? 0 then log_child (ChildSignalled pid) else id) (with_kills (tail (ck_kills k)) k)) /\
    (error = 0 \/ error = ESRCH).
Proof.
  unfold signal_lands, kill, sbind, sget, smodify, sret. destruct (ck_kills k) as [|error kills]; intros Hl.
  - exists 0. split; [reflexivity|auto].
  - exists error. apply orb_true_iff in Hl as [Hl|Hl]; bsplit; (split; [now destruct (error =? 0)|auto]).
Qed.

Lemma waitpid_cases {E} pid nohang k :
  exists outcome k', waitpid (E := E) pid nohang k = (Ok outcome, k') /\
    ck_log k' = ck_log k ++ match outcome with WaitReaps status => [ChildReaped pid status] | _ => [] end.
Proof.
  unfold waitpid, sbind, sget, smodify, sret.
  destruct (match ck_waits k with [] => _ | _ => _ end) as [status| |error]; eexists _, _; (split; [reflexivity|]); cbn;
    now rewrite ?app_nil_r.
Qed.

Lemma kill_cases {E} pid k :
  exists error k', kill (E := E) pid k = (Ok error, k') /\
    ck_log k' = ck_log k ++ (if error =? 0 then [ChildSignalled pid] else []).
Proof.
  unfold kill, sbind, sget, smodify, sret. destruct (match ck_kills k with [] => _ | _ => _ end =? 0) eqn:E0; eexists _, _;
    (split; [reflexivity|]); rewrite E0; cbn; now rewrite ?app_nil_r.
Qed.

(** ** The authentication worker *)

Module WorkerTheory.
Import Worker.

Abbreviation Authority := DirectChildAuthWorkerAuthority.
Implicit Types (self : Authority) (k : ChildKernel).

(** What has happened to the child when the authority is in [state]. *)
Definition history (pid : Z) (state : DirectChildState) (events : list ChildEvent) : Prop :=
  match state with
  | Unreaped => events = []
  | TerminationSent | AuthorityLost => events `sublist_of` [ChildSignalled pid]
  | Reaped => exists status sent, events = sent ++ [ChildReaped pid status] /\ sent `sublist_of` [ChildSignalled pid]
  end.

(** The authority, and what happened since [base]. *)
Definition faithful (pid : Z) (base : list ChildEvent) (s : Authority * ChildKernel) : Prop :=
  dc_pid (fst s) = pid /\ exists events, ck_log (snd s) = base ++ events /\ history pid (dc_state (fst s)) events.

(** A proof that a method returned is the status with which the child was reaped. *)
Definition proves (proof : bool) (s : Authority * ChildKernel) : Prop :=
  dc_state (fst s) = Reaped /\ exists status, last (ck_log (snd s)) = Some (ChildReaped (dc_pid (fst s)) status) /\
    proof = wait_status_is_clean_exit status.

(** Code on the authority stays faithful, does nothing to a retired child, and
    the proofs it returns are true. *)
Definition tame {E T} (pid : Z) (base : list ChildEvent) (proof_of : T -> option bool)
  (m : stm (Authority * ChildKernel) E T) (s : Authority * ChildKernel) : Prop :=
  wp m (fun r s' => faithful pid base s' /\ (retired (dc_state (fst s)) = true -> s' = s) /\
    forall x proof, r = Ok x -> proof_of x = Some proof -> proves proof s') s.

Section Tame.
Context (pid : Z) (base : list ChildEvent).

Lemma tame_ret {E T} (proof_of : T -> option bool) x s :
  faithful pid base s -> (forall proof, proof_of x = Some proof -> proves proof s) ->
  tame (E := E) pid base proof_of (sret x) s.
Proof. intros Hf Hp. split; [done|]. split; [done|]. intros ? proof [= <-] ?. auto. Qed.

Lemma tame_fail {E T} (proof_of : T -> option bool) (r : res E T) s :
  faithful pid base s -> (forall x, r <> Ok x) -> tame pid base proof_of (slift r) s.
Proof. intros Hf Hr. split; [done|]. split; [done|]. intros x ? ->. now destruct (Hr x). Qed.

Lemma tame_bind {E T U} (p1 : T -> option bool) (p2 : U -> option bool) m (k : T -> stm _ E U) s :
  tame pid base p1 m s ->
  (forall x s', faithful pid base s' -> (forall proof, p1 x = Some proof -> proves proof s') -> tame pid base p2 (k x) s') ->
  tame pid base p2 (sbind m k) s.
Proof.
  unfold tame, wp, sbind. destruct (m s) as [[x|e|] s'] eqn:Em; intros (Hf & Hz & Hp) Hk; [|by split_and!..].
  specialize (Hk x s' Hf (fun proof => Hp x proof eq_refl)). destruct (k x s') as [r s'']. destruct Hk as (Hf' & Hz' & Hp').
  split; [done|]. split; [|done]. intros Hr. specialize (Hz Hr). subst s'. auto.
Qed.

Lemma faithful_kernel self k k' : ck_log k' = ck_log k -> faithful pid base (self, k) -> faithful pid base (self, k').
Proof. unfold faithful; cbn. now intros ->. Qed.

Lemma observe_tame nohang s : faithful pid base s -> tame pid base id (observe_exact_reap nohang) s.
Proof.
  destruct s as [[p st] k]. intros (Hp & events & Hl & Hh). cbn in Hp, Hl, Hh. subst p. unfold tame, wp, observe_exact_reap, sbind, sget. cbn [dc_state fst].
  destruct (retired st) eqn:Er.
  { split; [split; [done|]; now exists events|]. split; [done|]. discriminate. }
  assert (Hsent : events `sublist_of` [ChildSignalled pid]).
  { destruct st; cbn in Hh; subst; [apply sublist_nil_l|done..]. }
  unfold on_world at 1. cbn [dc_pid]. destruct (waitpid_cases (E := DirectChildAuthWorkerError) pid nohang k) as (outcome & k' & -> & Hlog).
  rewrite Hl, <- app_assoc in Hlog. destruct outcome as [status| |error]; [| |destruct (error =? ECHILD)]; cbn.
  - split; [split; [done|]; eexists; split; [exact Hlog|]; cbn; eauto|]. split; [done|]. intros ? proof [= <-] [= <-].
    split; [done|]. exists status. split; [|done]. cbn. now rewrite Hlog, !app_assoc, last_snoc.
  - rewrite app_nil_r in Hlog. split; [split; [done|]; now exists events|]. split; [done|]. now intros ? ? [= <-].
  - rewrite app_nil_r in Hlog. split; [split; [done|]; now exists events|]. done.
  - rewrite app_nil_r in Hlog. split; [split; [done|]; now exists events|]. done.
Qed.

Lemma signal_tame s : faithful pid base s -> tame pid base (fun _ => None) signal_exact_child s.
Proof.
  destruct s as [[p st] k]. intros (Hp & events & Hl & Hh). cbn in Hp, Hl, Hh. subst p. unfold tame, wp, signal_exact_child, sbind, sget. cbn [dc_state fst].
  destruct (retired st) eqn:Er.
  { split; [split; [done|]; now exists events|]. done. }
  case_bool_decide as Hsent.
  { split; [split; [done|]; now exists events|]. done. }
  assert (events = []) as -> by (destruct st; cbn in Hh; try done).
  unfold on_world. cbn [dc_pid]. destruct (kill_cases (E := DirectChildAuthWorkerError) pid k) as (error & k' & -> & Hlog).
  rewrite Hl, app_nil_r in Hlog. destruct (error =? 0); [|destruct (error =? ESRCH)].
  - split; [split; [done|]; eexists; split; [exact Hlog|]; cbn; done|]. done.
  - split; [split; [done|]; eexists; split; [exact Hlog|]; apply sublist_nil_l|]. done.
  - split; [split; [done|]; eexists; split; [exact Hlog|]; done|]. done.
Qed.

Lemma waiting_tame nohang s : faithful pid base s -> tame pid base id (waiting nohang) s.
Proof.
  intros Hf. unfold waiting. apply (tame_bind (fun _ => None)); [split; [done|]; split; done|]. intros [self k] s' Hf' _.
  clear s Hf. revert s' Hf'. induction (ck_waits k) as [|outcome waits IH]; intros s Hf.
  all: pose proof (observe_tame nohang s Hf) as Ho; cbn [wait_uninterrupted]; unfold tame, wp in *.
  all: destruct (observe_exact_reap nohang s) as [[x|[| |error|error]|] s']; try exact Ho.
  destruct (error =? EINTR); [|exact Ho]. destruct Ho as (Hf' & Hz & _). specialize (IH s' Hf').
  destruct (wait_uninterrupted nohang waits s') as [r s'']. destruct IH as (Hf'' & Hz' & Hp'). split; [done|]. split; [|done].
  intros Hr. specialize (Hz Hr). subst s'. auto.
Qed.

Lemma or_abort_tame {T} (proof_of : T -> option bool) m s : tame pid base proof_of m s -> tame pid base proof_of (or_abort m) s.
Proof.
  unfold tame, wp, or_abort. destruct (m s) as [[x|e|] s']; intros (Hf & Hz & Hp); (split; [done|]); (split; [done|]); [|done..].
  intros y proof [= <-]. now apply Hp.
Qed.

End Tame.

Inductive Op := OpTryReap | OpTryTerminate | OpEmergency.

(** The trait's methods; an emergency that returns has a proof. *)
Definition perform (op : Op) : method (option bool) :=
  match op with
  | OpTryReap => try_reap_after_result
  | OpTryTerminate => try_terminate_and_reap
  | OpEmergency => fun s => match emergency_cleanup s with
                            | (Ok proof, s) => (Ok (Some proof), s)
                            | (_, s) => (Panic, s)
                            end
  end.

Lemma emergency_tame pid base s : faithful pid base s -> tame pid base Some emergency_cleanup s.
Proof.
  intros Hf. unfold emergency_cleanup. apply (tame_bind _ _ (fun _ => None)); [split; [done|]; split; done|].
  intros [self k] s' Hf' _. destruct (retired _); [now apply tame_fail|].
  apply (tame_bind _ _ id); [now apply or_abort_tame, waiting_tame|].
  intros [proof|] s1 Hf1 Hp; [apply tame_ret; [done|]; exact Hp|].
  apply (tame_bind _ _ (fun _ => None)); [now apply or_abort_tame, signal_tame|]. intros _ s2 Hf2 _.
  apply (tame_bind _ _ id); [now apply or_abort_tame, waiting_tame|]. intros [proof|] s3 Hf3 Hp3; [now apply tame_ret|now apply tame_fail].
Qed.

Lemma perform_tame pid base op s : faithful pid base s -> tame pid base id (perform op) s.
Proof.
  intros Hf. destruct op; cbn [perform].
  - now apply observe_tame.
  - unfold try_terminate_and_reap. apply (tame_bind _ _ id); [now apply observe_tame|].
    intros [proof|] s1 Hf1 Hp; [now apply tame_ret|].
    apply (tame_bind _ _ (fun _ => None)); [now apply signal_tame|]. intros _ s2 Hf2 _. now apply observe_tame.
  - pose proof (emergency_tame pid base s Hf) as He. unfold tame, wp in *.
    destruct (emergency_cleanup s) as [[proof|e|] s']; destruct He as (Hf' & Hz & Hp); (split; [done|]); (split; [done|]); [|done..].
    intros x q [= <-] [= <-]. now apply (Hp proof).
Qed.

End WorkerTheory.

(** ** The broker *)

Module BrokerTheory.
Import Broker.

Abbreviation Authority := DirectChildBrokerAuthority.
Implicit Types (self : Authority) (k : ChildKernel).

Definition when (b : bool) (event : ChildEvent) : list ChildEvent := if b then [event] else [].

(** The start byte before the gate is closed, the gate closed before a signal,
    a signal before the reap; each at most once. *)
Definition in_order (pid : Z) (started closed signalled : bool) (reaped : option Z) : list ChildEvent :=
  when started (StartSent pid) ++ when closed (GateClosed pid) ++ when signalled (ChildSignalled pid)
  ++ match reaped with Some status => [ChildReaped pid status] | None => [] end.

Definition history (self : Authority) (events : list ChildEvent) : Prop :=
  exists started signalled reaped,
    events = in_order (dc_pid self) started (negb (dc_gate self)) signalled reaped /\
    (dc_state self = Dormant -> started = false) /\
    (dc_state self = Dormant \/ dc_state self = Active -> signalled = false) /\
    (is_Some reaped <-> dc_state self = Reaped) /\
    (dc_gate self = true -> signalled = false /\ reaped = None).

Definition faithful (pid : Z) (base : list ChildEvent) (s : Authority * ChildKernel) : Prop :=
  dc_pid (fst s) = pid /\ exists events, ck_log (snd s) = base ++ events /\ history (fst s) events.

(** Code that begins with the gate closed and leaves it closed. *)
Definition closed (s : Authority * ChildKernel) : Prop := dc_gate (fst s) = false.

Section Broker.
Context (pid : Z) (base : list ChildEvent).

Definition tame {E T} (m : stm (Authority * ChildKernel) E T) (s : Authority * ChildKernel) : Prop :=
  wp m (fun _ s' => faithful pid base s' /\ closed s') s.

Lemma broker_tame_bind {E T U} m (k : T -> stm _ E U) s :
  tame m s -> (forall x s', faithful pid base s' -> closed s' -> tame (k x) s') -> tame (sbind m k) s.
Proof.
  unfold tame, wp, sbind. destruct (m s) as [[x|e|] s']; [|by intros ? _..]. intros [Hf Hc] Hk. now apply Hk.
Qed.

Lemma faithful_same self k k' : ck_log k' = ck_log k -> faithful pid base (self, k) -> faithful pid base (self, k').
Proof. unfold faithful; cbn. now intros ->. Qed.

(** A state that is not retired has not been reaped. *)
Lemma unreaped_history p state events :
  retired state = false -> history {| dc_pid := p; dc_gate := false; dc_state := state |} events ->
  exists started signalled, events = in_order p started true signalled None /\
    (state = Dormant -> started = false) /\ (state = Dormant \/ state = Active -> signalled = false).
Proof.
  intros Hr (started & signalled & reaped & -> & Hs & Hg & Hre & _). cbn in *. exists started, signalled. split; [|done].
  destruct reaped as [status|]; [|done]. destruct Hre as [Hre _]. rewrite Hre in Hr by done. discriminate.
Qed.

Lemma broker_observe_tame nohang s : faithful pid base s -> closed s -> tame (observe_exact_reap nohang) s.
Proof.
  destruct s as [[p g st] k]. intros (Hp & events & Hl & Hh) Hc. unfold closed in Hc. cbn in Hp, Hl, Hc. subst p g.
  unfold tame, wp, observe_exact_reap, sbind, sget. cbn [dc_state fst].
  destruct (retired st) eqn:Er; [split; [split; [done|]; now exists events|done]|].
  pose proof (unreaped_history pid st events Er Hh) as (started & signalled & -> & Hs & Hg).
  unfold on_world at 1. cbn [dc_pid]. destruct (waitpid_cases (E := BrokerSpawnError) pid nohang k) as (outcome & k' & -> & Hlog).
  rewrite Hl, <- app_assoc in Hlog. destruct outcome as [status| |error]; [| |destruct (error =? ECHILD)]; cbn [fst snd on_self smodify].
  - split; [|done]. split; [done|]. eexists. split; [exact Hlog|]. exists started, signalled, (Some status). cbn.
    unfold in_order. rewrite <- !app_assoc. cbn. split_and!; try done; naive_solver.
  - rewrite app_nil_r in Hlog. split; [|done]. split; [done|]. now exists (in_order pid started true signalled None).
  - rewrite app_nil_r in Hlog. split; [|done]. split; [done|]. eexists. split; [exact Hlog|]. exists started, signalled, None. cbn.
    split_and!; try done; naive_solver.
  - rewrite app_nil_r in Hlog. split; [|done]. split; [done|]. now exists (in_order pid started true signalled None).
Qed.

Lemma broker_signal_tame s : faithful pid base s -> closed s -> tame signal_exact_child s.
Proof.
  destruct s as [[p g st] k]. intros (Hp & events & Hl & Hh) Hc. unfold closed in Hc. cbn in Hp, Hl, Hc. subst p g.
  unfold tame, wp, signal_exact_child, sbind, sget. cbn [dc_state fst].
  destruct (retired st) eqn:Er; [split; [split; [done|]; now exists events|done]|].
  case_bool_decide as Hsent; [split; [split; [done|]; now exists events|done]|].
  pose proof (unreaped_history pid st events Er Hh) as (started & signalled & -> & Hs & Hg).
  assert (signalled = false) as -> by (apply Hg; destruct st; auto; done).
  unfold on_world at 1. cbn [dc_pid]. destruct (kill_cases (E := BrokerSpawnError) pid k) as (error & k' & -> & Hlog).
  rewrite Hl, <- app_assoc in Hlog. destruct (error =? 0); [|destruct (error =? ESRCH)]; cbn [fst snd on_self smodify].
  - split; [|done]. split; [done|]. eexists. split; [exact Hlog|]. exists started, true, None. cbn.
    unfold in_order. rewrite <- !app_assoc. cbn. split_and!; try done; naive_solver.
  - rewrite app_nil_r in Hlog. split; [|done]. split; [done|]. eexists. split; [exact Hlog|]. exists started, false, None. cbn.
    split_and!; try done; naive_solver.
  - rewrite app_nil_r in Hlog. split; [|done]. split; [done|]. now exists (in_order pid started true false None).
Qed.

Lemma close_gate_tame s : faithful pid base s -> tame close_gate s.
Proof.
  destruct s as [[p g st] k]. intros (Hp & events & Hl & Hh). cbn in Hp, Hl. subst p.
  unfold tame, wp, close_gate, sbind, sget. cbn [dc_gate]. destruct g; [|split; [split; [done|]; now exists events|done]].
  cbn. split; [|done]. split; [done|]. exists (events ++ [GateClosed pid]). cbn. rewrite Hl, app_assoc. split; [done|].
  destruct Hh as (started & signalled & reaped & -> & Hs & Hg & Hr & Hopen). cbn in *. destruct (Hopen eq_refl) as [-> ->].
  exists started, false, None. unfold in_order. cbn. rewrite !app_nil_r. split_and!; try done; naive_solver.
Qed.

Lemma broker_waiting_tame nohang s : faithful pid base s -> closed s -> tame (waiting nohang) s.
Proof.
  intros Hf Hc. unfold waiting. apply broker_tame_bind; [now split|]. intros [self k] s' Hf' Hc'.
  clear s Hf Hc. revert s' Hf' Hc'. induction (ck_waits k) as [|outcome waits IH]; intros s Hf Hc.
  all: pose proof (broker_observe_tame nohang s Hf Hc) as Ho; cbn [wait_uninterrupted]; unfold tame, wp in *.
  all: destruct (observe_exact_reap nohang s) as [[x|e|] s']; try exact Ho; destruct e; try exact Ho.
  destruct (error =? EINTR); [|exact Ho]. destruct Ho as [Hf' Hc']. exact (IH s' Hf' Hc').
Qed.

Lemma terminate_tame s : faithful pid base s -> tame terminate_and_wait s.
Proof.
  intros Hf. unfold terminate_and_wait. apply broker_tame_bind; [now apply close_gate_tame|]. intros _ s1 Hf1 Hc1.
  apply broker_tame_bind; [now apply broker_waiting_tame|]. intros [|] s2 Hf2 Hc2; [now split|].
  apply broker_tame_bind; [now apply broker_signal_tame|]. intros _ s3 Hf3 Hc3.
  apply broker_tame_bind; [now apply broker_waiting_tame|]. intros [|] s4 Hf4 Hc4; now split.
Qed.

Lemma activate_faithful s :
  faithful pid base s -> wp activate_after_registration (fun _ s' => faithful pid base s') s.
Proof.
  destruct s as [[p g st] k]. intros Hf. pose proof Hf as (Hp & events & Hl & Hh). cbn in Hp, Hl. subst p.
  unfold wp, activate_after_registration, sbind, sget. cbn [dc_state dc_gate].
  case_bool_decide as Hd; cbn [negb]; [|exact Hf]. destruct g; cbn [negb]; [|exact Hf]. subst st.
  unfold on_world at 1, write_gate, sbind, sget, smodify, sret. cbn [dc_pid].
  assert (Hsame : forall k', ck_log k' = ck_log k -> faithful pid base ({| dc_pid := pid; dc_gate := true; dc_state := Dormant |}, k')).
  { intros k' Hk'. split; [done|]. exists events. cbn. now rewrite Hk'. }
  destruct (match ck_gates k with [] => _ | _ => _ end) as [count|error]; [|now apply Hsame].
  destruct (count =? 1) eqn:E; rewrite ?E; cbn; [|now apply Hsame].
  split; [done|]. exists (events ++ [StartSent pid]). cbn. rewrite Hl, app_assoc. split; [done|].
  destruct Hh as (started & signalled & reaped & -> & Hs & Hg & Hr & Hopen). cbn in *. destruct (Hopen eq_refl) as [-> ->].
  rewrite (Hs eq_refl). exists true, false, None. cbn. split_and!; try done; naive_solver.
Qed.

Lemma emergency_faithful s : faithful pid base s -> wp emergency_terminate_and_wait (fun _ s' => faithful pid base s' /\ closed s') s.
Proof.
  intros Hf. pose proof (terminate_tame s Hf) as Ht. unfold tame, wp, emergency_terminate_and_wait in *.
  now destruct (terminate_and_wait s) as [[x|e|] s'].
Qed.

End Broker.

Inductive Op := OpActivate | OpTerminate | OpEmergency.

(** The trait's methods. *)
Definition perform (op : Op) : method unit :=
  match op with
  | OpActivate => activate_after_registration
  | OpTerminate => terminate_and_wait
  | OpEmergency => fun s => match emergency_terminate_and_wait s with
                            | (Ok x, s) => (Ok x, s)
                            | (_, s) => (Panic, s)
                            end
  end.

Lemma perform_faithful pid base op s : faithful pid base s -> wp (perform op) (fun _ s' => faithful pid base s') s.
Proof.
  intros Hf. destruct op; cbn [perform].
  - now apply activate_faithful.
  - eapply wp_mono; [now apply (terminate_tame pid base)|]. now intros r s' [? _].
  - pose proof (emergency_faithful pid base s Hf) as He. unfold wp in *.
    now destruct (emergency_terminate_and_wait s) as [[x|e|] s'].
Qed.

End BrokerTheory.

(** ** The broker's authority under the watchdog

    Whatever the kernel answers, a method of the broker's authority leaves it
    the authority over the same child, which is what the watchdog relies on. *)

Section SameChild.
Import Broker.

Definition keeps_pid {E T} (m : stm (DirectChildBrokerAuthority * ChildKernel) E T) : Prop :=
  forall s, dc_pid (fst (snd (m s))) = dc_pid (fst s).

Lemma keeps_pid_bind {E T U} m (k : T -> stm _ E U) : keeps_pid m -> (forall x, keeps_pid (k x)) -> keeps_pid (sbind m k).
Proof.
  intros Hm Hk s. specialize (Hm s). unfold sbind. destruct (m s) as [[x|e|] s']; cbn in Hm; [now rewrite Hk|done..].
Qed.

Lemma keeps_pid_lift {E T} (r : res E T) : keeps_pid (slift r).
Proof. done. Qed.

Lemma keeps_pid_world {E T} (m : stm ChildKernel E T) : keeps_pid (on_world m).
Proof. intros [self k]. unfold on_world. now destruct (m k). Qed.

Lemma keeps_pid_self {E} (f : DirectChildBrokerAuthority -> DirectChildBrokerAuthority) :
  (forall self, dc_pid (f self) = dc_pid self) -> keeps_pid (E := E) (on_self (smodify f)).
Proof. intros Hf [self k]. apply Hf. Qed.

Lemma keeps_pid_get {E T} (k : _ -> stm (DirectChildBrokerAuthority * ChildKernel) E T) :
  (forall s, keeps_pid (k s)) -> keeps_pid (let! s := sget in k s).
Proof. intros Hk s. exact (Hk s s). Qed.

Ltac keeps :=
  lazymatch goal with
  | |- keeps_pid (sbind sget _) => apply keeps_pid_get; intros [? ?]; keeps
  | |- keeps_pid (sbind _ _) => apply keeps_pid_bind; [|intros ?]; keeps
  | |- keeps_pid (on_world _) => apply keeps_pid_world
  | |- keeps_pid (on_self _) => apply keeps_pid_self; intros ?; reflexivity
  | |- keeps_pid (match ?x with _ => _ end) => destruct x; keeps
  | |- keeps_pid _ => apply keeps_pid_lift
  end.

Lemma observe_keeps_pid nohang : keeps_pid (observe_exact_reap nohang).
Proof. unfold observe_exact_reap. keeps. Qed.

Lemma waiting_keeps_pid nohang : keeps_pid (waiting nohang).
Proof.
  apply keeps_pid_get. intros [_ k]. generalize (ck_waits k). intros waits. induction waits as [|w waits IH]; intros s;
    pose proof (observe_keeps_pid nohang s) as Hs; cbn [wait_uninterrupted];
    destruct (observe_exact_reap nohang s) as [[b|[]|] s']; cbn in *; try done.
  case_match; [now rewrite IH|done].
Qed.

Lemma terminate_keeps_pid : keeps_pid terminate_and_wait.
Proof.
  unfold terminate_and_wait. apply keeps_pid_bind; [unfold close_gate; keeps|intros _].
  apply keeps_pid_bind; [apply waiting_keeps_pid|intros []; [apply keeps_pid_lift|]].
  apply keeps_pid_bind; [unfold signal_exact_child; keeps|intros _].
  apply keeps_pid_bind; [apply waiting_keeps_pid|intros []; apply keeps_pid_lift].
Qed.

Lemma activate_keeps_pid : keeps_pid activate_after_registration.
Proof. unfold activate_after_registration. keeps. Qed.

End SameChild.

#[export] Instance Broker_laws {V : Type} : AuthorityLaws (Broker_authority (V := V)).
Proof.
  assert (H : forall T (m : stm (Broker.DirectChildBrokerAuthority * ChildKernel) Broker.BrokerSpawnError T) a (w : ChildKernel * V) r a' w',
    keeps_pid m -> on_children m (a, w) = (r, (a', w')) -> Broker.dc_pid a' = Broker.dc_pid a).
  { intros T m a [k v] r a' w' Hm. specialize (Hm (a, k)). unfold on_children. destruct (m (a, k)) as [r' [a1 k1]]. now intros [= _ <- _]. }
  split; cbn; intros; eapply H; [exact activate_keeps_pid|done|exact terminate_keeps_pid|done].
Defined.
