(* ===== verification/ChildClaims.v ===== *)
(** * ChildClaims: what the service may rely on of a child's authority *)

From S2P Require Import Prelude Bytes Tools Native Supervisor Watchdog AuthPool Child ChildTheory.

(** ** Calls in a row, until the process ends *)

Fixpoint calls {S E O T} (perform : O -> stm S E T) (ops : list O) (s : S) : list (res E T) * S :=
  match ops with
  | [] => ([], s)
  | op :: ops =>
      match perform op s with
      | (Panic, s) => ([Panic], s)
      | (r, s) => let '(rs, s) := calls perform ops s in (r :: rs, s)
      end
  end.

Lemma calls_keep {S E O T} (perform : O -> stm S E T) (P : S -> Prop) ops s :
  (forall op s, P s -> P (snd (perform op s))) -> P s -> P (snd (calls perform ops s)).
Proof.
  intros Hop. revert s. induction ops as [|op ops IH]; intros s Hs; [done|]. cbn [calls]. specialize (Hop op s Hs).
  destruct (perform op s) as [[x|e|] s']; cbn [snd] in Hop; [| |done].
  all: specialize (IH s' Hop); destruct (calls perform ops s') as [rs s'']; exact IH.
Qed.

(** ** Waiting and signalling, exactly *)

Lemma worker_waiting_run nohang self k :
  Worker.retired (Worker.dc_state self) = false ->
  Worker.waiting nohang (self, k) =
  match next_answer nohang (ck_waits k) with
  | (WaitReaps status, waits) =>
      (Ok (Some (wait_status_is_clean_exit status)),
       (Worker.with_state Worker.Reaped self, log_child (ChildReaped (Worker.dc_pid self) status) (with_waits waits k)))
  | (WaitNothing, waits) => (Ok None, (self, with_waits waits k))
  | (WaitFails error, waits) =>
      if error =? ECHILD then (Panic, (Worker.with_state Worker.AuthorityLost self, with_waits waits k))
      else (Err (Worker.Wait error), (self, with_waits waits k))
  end.
Proof.
  intros Hr. unfold Worker.waiting, sbind, sget. destruct k as [waits kills gates log]. cbn [ck_waits].
  induction waits as [|outcome waits IH]; cbn [Worker.wait_uninterrupted next_answer].
  - unfold Worker.observe_exact_reap, sbind, sget. rewrite Hr. now destruct nohang.
  - unfold Worker.observe_exact_reap at 1, sbind at 1, sget at 1. rewrite Hr. cbn.
    destruct outcome as [status| |error]; [done|done|]. cbn. destruct (error =? ECHILD) eqn:E.
    { cbn. replace (error =? EINTR) with false by (unfold ECHILD, EINTR in *; lia). now rewrite E. }
    cbn. destruct (error =? EINTR) eqn:E2; [exact IH|]. now rewrite E.
Qed.

Lemma broker_waiting_run nohang self k :
  Broker.retired (Broker.dc_state self) = false ->
  Broker.waiting nohang (self, k) =
  match next_answer nohang (ck_waits k) with
  | (WaitReaps status, waits) =>
      (Ok true, (Broker.with_state Broker.Reaped self, log_child (ChildReaped (Broker.dc_pid self) status) (with_waits waits k)))
  | (WaitNothing, waits) => (Ok false, (self, with_waits waits k))
  | (WaitFails error, waits) =>
      if error =? ECHILD then (Panic, (Broker.with_state Broker.AuthorityLost self, with_waits waits k))
      else (Err (Broker.Wait error), (self, with_waits waits k))
  end.
Proof.
  intros Hr. unfold Broker.waiting, sbind, sget. destruct k as [waits kills gates log]. cbn [ck_waits].
  induction waits as [|outcome waits IH]; cbn [Broker.wait_uninterrupted next_answer].
  - unfold Broker.observe_exact_reap, sbind, sget. rewrite Hr. now destruct nohang.
  - unfold Broker.observe_exact_reap at 1, sbind at 1, sget at 1. rewrite Hr. cbn.
    destruct outcome as [status| |error]; [done|done|]. cbn. destruct (error =? ECHILD) eqn:E.
    { cbn. replace (error =? EINTR) with false by (unfold ECHILD, EINTR in *; lia). now rewrite E. }
    cbn. destruct (error =? EINTR) eqn:E2; [exact IH|]. now rewrite E.
Qed.

Definition worker_sent self : bool := bool_decide (Worker.dc_state self = Worker.TerminationSent).
Definition broker_sent self : bool := bool_decide (Broker.dc_state self = Broker.TerminationSent).

Lemma worker_signal_run self k :
  Worker.retired (Worker.dc_state self) = false ->
  exists k', ck_waits k' = ck_waits k /\
    Worker.signal_exact_child (self, k)
    = (if worker_sent self || signal_lands k then Ok tt else Err (Worker.Signal (hd 0 (ck_kills k))),
       (if worker_sent self || negb (signal_lands k) then self else Worker.with_state Worker.TerminationSent self, k')).
Proof.
  intros Hr. unfold Worker.signal_exact_child, worker_sent, sbind, sget. rewrite Hr. case_bool_decide; cbn [orb]; [now exists k|].
  unfold signal_lands, on_world, kill, sbind, sget, smodify, sret. destruct (ck_kills k) as [|error kills]; cbn; [eexists; split; [|reflexivity]; done|].
  destruct (error =? 0) eqn:E0; cbn; rewrite E0; cbn; [eexists; split; [|reflexivity]; done|].
  destruct (error =? ESRCH); eexists; (split; [|reflexivity]); done.
Qed.

Lemma broker_signal_run self k :
  Broker.retired (Broker.dc_state self) = false ->
  exists k', ck_waits k' = ck_waits k /\
    Broker.signal_exact_child (self, k)
    = (if broker_sent self || signal_lands k then Ok tt else Err (Broker.Signal (hd 0 (ck_kills k))),
       (if broker_sent self || negb (signal_lands k) then self else Broker.with_state Broker.TerminationSent self, k')).
Proof.
  intros Hr. unfold Broker.signal_exact_child, broker_sent, sbind, sget. rewrite Hr. case_bool_decide; cbn [orb]; [now exists k|].
  unfold signal_lands, on_world, kill, sbind, sget, smodify, sret. destruct (ck_kills k) as [|error kills]; cbn; [eexists; split; [|reflexivity]; done|].
  destruct (error =? 0) eqn:E0; cbn; rewrite E0; cbn; [eexists; split; [|reflexivity]; done|].
  destruct (error =? ESRCH); eexists; (split; [|reflexivity]); done.
Qed.

(** A cleanup reaps the child exactly when [cleanup_status] has its status. *)
Lemma worker_cleanup_run self k :
  Worker.retired (Worker.dc_state self) = false ->
  exists self' k',
    Worker.emergency_cleanup (self, k)
    = (match cleanup_status (worker_sent self) k with Some status => Ok (wait_status_is_clean_exit status) | None => Panic end,
       (self', k')) /\
    forall status, cleanup_status (worker_sent self) k = Some status ->
      Worker.dc_state self' = Worker.Reaped /\ last (ck_log k') = Some (ChildReaped (Worker.dc_pid self) status).
Proof.
  intros Hr. unfold cleanup_status, Worker.emergency_cleanup, sbind at 1, sget. rewrite Hr. unfold sbind at 1.
  unfold Worker.or_abort at 1. rewrite worker_waiting_run by done.
  destruct (next_answer true (ck_waits k)) as [[status| |error] waits].
  - do 2 eexists. split; [reflexivity|]. intros ? [= <-]. split; [done|]. cbn. now rewrite last_snoc.
  - unfold sbind, Worker.or_abort.
    destruct (worker_signal_run self (with_waits waits k) Hr) as (k' & Hw & Hk). cbn [ck_waits with_waits] in Hw.
    change (signal_lands (with_waits waits k)) with (signal_lands k) in Hk. rewrite Hk.
    destruct (worker_sent self || signal_lands k) eqn:E; [|now do 2 eexists].
    rewrite worker_waiting_run by (destruct (worker_sent self || negb (signal_lands k)); [exact Hr|reflexivity]). rewrite Hw.
    destruct (next_answer false waits) as [[status| |error] waits'].
    + do 2 eexists. split; [reflexivity|]. intros ? [= <-]. split; [done|]. cbn. rewrite last_snoc. now destruct (worker_sent self || negb (signal_lands k)).
    + now do 2 eexists.
    + destruct (error =? ECHILD); now do 2 eexists.
  - destruct (error =? ECHILD); now do 2 eexists.
Qed.

Lemma close_gate_run self k :
  exists self' k', Broker.close_gate (self, k) = (Ok tt, (self', k')) /\ Broker.dc_pid self' = Broker.dc_pid self /\
    Broker.dc_state self' = Broker.dc_state self /\ Broker.dc_gate self' = false /\ ck_waits k' = ck_waits k /\ ck_kills k' = ck_kills k.
Proof.
  unfold Broker.close_gate, sbind, sget. destruct (Broker.dc_gate self) eqn:Eg; do 2 eexists; (split; [reflexivity|]); by split_and!.
Qed.

Lemma broker_terminate_run self k :
  Broker.retired (Broker.dc_state self) = false ->
  exists r self' k', Broker.terminate_and_wait (self, k) = (r, (self', k')) /\
    match cleanup_status (broker_sent self) k with
    | Some status => r = Ok tt /\ Broker.dc_state self' = Broker.Reaped /\ Broker.dc_gate self' = false /\
        last (ck_log k') = Some (ChildReaped (Broker.dc_pid self) status)
    | None => r <> Ok tt
    end.
Proof.
  intros Hr. unfold cleanup_status, Broker.terminate_and_wait, sbind at 1.
  destruct (close_gate_run self k) as (self1 & k1 & -> & Hp & Hst & Hg & Hw & Hki).
  rewrite <- Hw. unfold sbind at 1. rewrite <- Hst in Hr. rewrite broker_waiting_run by done.
  replace (broker_sent self) with (broker_sent self1) by (unfold broker_sent; now rewrite Hst).
  replace (signal_lands k) with (signal_lands k1) by (unfold signal_lands; now rewrite Hki). rewrite <- Hp.
  destruct (next_answer true (ck_waits k1)) as [[status| |error] waits].
  - do 3 eexists. split; [reflexivity|]. split_and!; [done..|exact Hg|]. cbn. now rewrite last_snoc.
  - cbn [sret]. unfold sbind at 1.
    destruct (broker_signal_run self1 (with_waits waits k1) Hr) as (k' & Hw' & Hk). cbn [ck_waits with_waits] in Hw'.
    change (signal_lands (with_waits waits k1)) with (signal_lands k1) in Hk. rewrite Hk.
    destruct (broker_sent self1 || signal_lands k1) eqn:E; [|now do 3 eexists].
    unfold sbind. rewrite broker_waiting_run by (destruct (broker_sent self1 || negb (signal_lands k1)); [exact Hr|reflexivity]). rewrite Hw'.
    destruct (next_answer false waits) as [[status| |error] waits'].
    + do 3 eexists. split; [reflexivity|]. cbn. rewrite last_snoc. now destruct (broker_sent self1 || negb (signal_lands k1)).
    + now do 3 eexists.
    + destruct (error =? ECHILD); now do 3 eexists.
  - destruct (error =? ECHILD); now do 3 eexists.
Qed.

(** ** The claims *)

(** The proofs that a run of calls returned hold at its end. *)
Lemma worker_calls_prove pid base ops s :
  WorkerTheory.faithful pid base s ->
  forall proof, Ok (Some proof) ∈ fst (calls WorkerTheory.perform ops s) ->
  WorkerTheory.proves proof (snd (calls WorkerTheory.perform ops s)).
Proof.
  revert s. induction ops as [|op ops IH]; intros s Hf proof Hin; [by apply elem_of_nil in Hin|]. cbn [calls] in *.
  pose proof (WorkerTheory.perform_tame pid base op s Hf) as Ht. unfold WorkerTheory.tame, wp in Ht.
  destruct (WorkerTheory.perform op s) as [r s1]. destruct Ht as (Hf1 & _ & Hp). specialize (IH s1 Hf1).
  assert (Hlater : forall x, r = Ok x -> x = Some proof -> WorkerTheory.proves proof (snd (calls WorkerTheory.perform ops s1))).
  { intros x Hrx Hx. specialize (Hp x proof Hrx Hx). pose proof Hp as (Hr & Hlast).
    enough (snd (calls WorkerTheory.perform ops s1) = s1) as -> by done.
    apply (calls_keep WorkerTheory.perform (fun s => s = s1)); [|done]. intros op' s' ->.
    pose proof (WorkerTheory.perform_tame pid base op' s1 Hf1) as Ht. unfold WorkerTheory.tame, wp in Ht.
    destruct (WorkerTheory.perform op' s1) as [r' s2]. apply Ht. now rewrite Hr. }
  destruct r as [x|e|]; [| |].
  - destruct (calls WorkerTheory.perform ops s1) as [rs s2]. apply elem_of_cons in Hin as [[= Hx]|Hin]; [now apply (Hlater x)|auto].
  - destruct (calls WorkerTheory.perform ops s1) as [rs s2]. apply elem_of_cons in Hin as [?|Hin]; [done|auto].
  - apply list_elem_of_singleton in Hin. done.
Qed.

(** C25: A process identifier is used only while it is the child's. Whatever
    trait methods the service calls on the authority of a child, in whatever
    order, and however the kernel answers: what happens to the child is at most
    one signal and then at most one reap, with the authority retired from the
    reap on; a proof that a call returned is the exit status the kernel gave;
    and for the broker, the start byte comes at most once and only before its
    gate is closed, which comes before any signal and any reap. *)
Theorem child_pid_pinned pid k worker_ops broker_ops :
  let worker := {| Worker.dc_pid := pid; Worker.dc_state := Worker.Unreaped |} in
  let broker := {| Broker.dc_pid := pid; Broker.dc_gate := true; Broker.dc_state := Broker.Dormant |} in
  WorkerTheory.faithful pid (ck_log k) (snd (calls WorkerTheory.perform worker_ops (worker, k))) /\
  (forall proof, Ok (Some proof) ∈ fst (calls WorkerTheory.perform worker_ops (worker, k)) ->
     WorkerTheory.proves proof (snd (calls WorkerTheory.perform worker_ops (worker, k)))) /\
  BrokerTheory.faithful pid (ck_log k) (snd (calls BrokerTheory.perform broker_ops (broker, k))).
Proof.
  intros worker broker.
  assert (Hw : WorkerTheory.faithful pid (ck_log k) (worker, k)) by (split; [done|]; exists []; now rewrite app_nil_r).
  assert (Hb : BrokerTheory.faithful pid (ck_log k) (broker, k)).
  { split; [done|]. exists []. rewrite app_nil_r. split; [done|]. exists false, false, None. cbn. split_and!; try done; naive_solver. }
  split; [|split].
  - apply (calls_keep WorkerTheory.perform (WorkerTheory.faithful pid (ck_log k))); [|done]. intros op s Hs.
    pose proof (WorkerTheory.perform_tame pid _ op s Hs) as Ht. unfold WorkerTheory.tame, wp in Ht.
    destruct (WorkerTheory.perform op s). now destruct Ht.
  - now apply (worker_calls_prove pid (ck_log k)).
  - apply (calls_keep BrokerTheory.perform (BrokerTheory.faithful pid (ck_log k))); [|done]. intros op s Hs.
    pose proof (BrokerTheory.perform_faithful pid _ op s Hs) as Ht. unfold wp in Ht. now destruct (BrokerTheory.perform op s).
Qed.

(** C27: A cleanup ends with the child reaped, or with the process. Cleaning up a
    child that was not reaped returns exactly when waiting, or signalling once
    and waiting, finds it ([cleanup_status]), and what it returns is that exit
    status; otherwise the service aborts. While the kernel keeps its contract
    with the sole waiter of a child - a wait fails only by interruption, a wait
    that may block does not return without the child, a signal fails only
    because the child has exited - every cleanup reaps. *)
Theorem cleanup_reaps worker broker k :
  Worker.retired (Worker.dc_state worker) = false -> Broker.retired (Broker.dc_state broker) = false ->
  (exists self' k',
     Worker.emergency_cleanup (worker, k)
     = (match cleanup_status (worker_sent worker) k with Some status => Ok (wait_status_is_clean_exit status) | None => Panic end,
        (self', k')) /\
     (forall status, cleanup_status (worker_sent worker) k = Some status ->
        Worker.dc_state self' = Worker.Reaped /\ last (ck_log k') = Some (ChildReaped (Worker.dc_pid worker) status))) /\
  (exists self' k',
     Broker.emergency_terminate_and_wait (broker, k)
     = (match cleanup_status (broker_sent broker) k with Some _ => Ok tt | None => Panic end, (self', k')) /\
     (forall status, cleanup_status (broker_sent broker) k = Some status ->
        Broker.dc_state self' = Broker.Reaped /\ Broker.dc_gate self' = false /\
        last (ck_log k') = Some (ChildReaped (Broker.dc_pid broker) status))) /\
  (keeps_child false (ck_waits k) = true -> signal_lands k = true ->
     is_Some (cleanup_status (worker_sent worker) k) /\ is_Some (cleanup_status (broker_sent broker) k)).
Proof.
  intros Hw Hb. split; [now apply worker_cleanup_run|]. split.
  - destruct (broker_terminate_run broker k Hb) as (r & self' & k' & Hr & Hs). exists self', k'.
    unfold Broker.emergency_terminate_and_wait. rewrite Hr. destruct (cleanup_status (broker_sent broker) k) as [status|].
    + destruct Hs as [-> Hs]. split; [done|]. intros ? [= <-]. exact Hs.
    + split; [|done]. now destruct r as [[]| |].
  - intros Hk Hs. split; now apply cleanup_status_answers.
Qed.

(** ** Claiming the wait domain *)

(** A process that may spawn children and wait for them. *)
Definition waits_alone (p : Process) : Prop :=
  pr_main_thread p = true /\ pr_threaded p = false /\ sa_handler (pr_sigchld p) = 0 /\
  Z.land (sa_flags (pr_sigchld p)) SA_NOCLDWAIT = 0.

Definition next_call (p : Process) : Process :=
  {| pr_main_thread := pr_main_thread p; pr_threaded := pr_threaded p; pr_sigchld := pr_sigchld p; pr_blocked := pr_blocked p;
     pr_claimed := pr_claimed p; pr_errors := tail (pr_errors p) |}.

Lemma system_call_run {U} failure effect (m : unit -> stm Process ChildWaitDomainError U) p :
  sbind (call_or failure effect) m p
  = match hd 0 (pr_errors p) with
    | 0 => m tt (effect (next_call p))
    | error => (Err (failure error), next_call p)
    end.
Proof.
  unfold call_or, system_call, sbind, sget, smodify, sret, serr. unfold next_call.
  destruct (pr_errors p) as [|[|error|error] errors]; reflexivity.
Qed.

Lemma query_run {U} (m : DarwinSigaction -> stm Process ChildWaitDomainError U) p :
  sbind query_disposition m p
  = match hd 0 (pr_errors p) with
    | 0 => m (pr_sigchld p) (next_call p)
    | error => (Err (Sigaction error), next_call p)
    end.
Proof.
  unfold query_disposition. unfold sbind at 1. rewrite system_call_run. destruct (hd 0 (pr_errors p)); reflexivity.
Qed.

Lemma blocked_by_mask set : sigismember (Z.lor set (sigset_of SIGCHLD)) SIGCHLD = true.
Proof. unfold sigismember, sigset_of, SIGCHLD. rewrite Z.lor_spec. apply orb_true_r. Qed.

(** One system call that succeeded. *)
Ltac succeed H :=
  rewrite ?system_call_run, ?query_run in H;
  match type of H with context [hd 0 ?l] => destruct (hd 0 l); [|discriminate H..] end.

(** A wait domain is established at most once in a process, and only when
    [SIGCHLD] ends up with its default action and blocked on the only thread. *)
Lemma wait_domain_established p p' :
  establish_at_service_startup p = (Ok tt, p') ->
  pr_claimed p = false /\ pr_claimed p' = true /\ waits_alone p' /\ sigismember (pr_blocked p') SIGCHLD = true.
Proof.
  unfold establish_at_service_startup, require_single_thread. unfold sbind at 1 2, sget, serr, sret.
  destruct (pr_main_thread p) eqn:Em; cbn [negb]; [|discriminate]. destruct (pr_threaded p) eqn:Et; [discriminate|]. intros H.
  succeed H. unfold sbind at 1, slift in H. destruct (validate_disposition (pr_sigchld p)) as [[]|e|]; [|discriminate..].
  unfold sbind at 1 in H. change (pr_claimed (next_call p)) with (pr_claimed p) in H. destruct (pr_claimed p); [discriminate|].
  unfold sbind at 1, smodify in H. do 5 succeed H. match type of H with context [bool_decide ?P] => destruct (bool_decide P) eqn:Hc end; cbn [negb] in H; [|discriminate].
  unfold require_blocked in H. succeed H. unfold sbind, sget in H.
  match type of H with context [sigismember ?s ?n] => destruct (sigismember s n) eqn:Eb end; [|discriminate].
  injection H as <-. split; [done|]. split; [done|]. split; [|exact Eb]. unfold waits_alone. cbn. rewrite Em, Et. done.
Qed.

(** Without failing system calls, that is what it takes. *)
Lemma wait_domain_exact p :
  pr_errors p = [] ->
  (fst (establish_at_service_startup p) = Ok tt <-> waits_alone p /\ pr_claimed p = false) /\
  (fst (verify_single_threaded_spawn p) = Ok tt <-> waits_alone p /\ sigismember (pr_blocked p) SIGCHLD = true).
Proof.
  destruct p as [main threaded [handler mask flags] blocked claimed errors]. cbn [pr_errors]. intros ->. unfold waits_alone. cbn.
  destruct main; [|cbn; naive_solver]. destruct threaded; [cbn; naive_solver|].
  set (d := {| sa_handler := handler; sa_mask := mask; sa_flags := flags |}).
  assert (validate_disposition d = Ok tt <-> handler = 0 /\ Z.land flags SA_NOCLDWAIT = 0) as Hd.
  { unfold validate_disposition, d. cbn [sa_handler sa_flags]. destruct (handler =? 0) eqn:E1, (Z.land flags SA_NOCLDWAIT =? 0) eqn:E2;
      bsplit; cbn; naive_solver. }
  unfold establish_at_service_startup, verify_single_threaded_spawn, require_single_thread, query_disposition, require_blocked,
    call_or, system_call, sbind, sget, smodify, slift, sret, serr. cbn -[validate_disposition sigismember Z.lor].
  destruct (validate_disposition d) as [[]|e|]; [|naive_solver..]. split.
  - destruct claimed; cbn -[sigismember Z.lor]; [naive_solver|].
    rewrite bool_decide_eq_true_2 by done. cbn -[sigismember Z.lor]. rewrite blocked_by_mask. cbn. naive_solver.
  - destruct (sigismember blocked SIGCHLD); cbn; naive_solver.
Qed.

(** * A worker that does not exit by itself *)

Definition worker : Worker.DirectChildAuthWorkerAuthority := {| Worker.dc_pid := 40; Worker.dc_state := Worker.Unreaped |}.
Definition broker : Broker.DirectChildBrokerAuthority :=
  {| Broker.dc_pid := 41; Broker.dc_gate := true; Broker.dc_state := Broker.Active |}.

(** Interrupted, still running, interrupted again while it dies. *)
Definition kernel : ChildKernel :=
  {| ck_waits := [WaitFails EINTR; WaitNothing; WaitFails EINTR; WaitReaps SIGKILL]; ck_kills := [ESRCH]; ck_gates := []; ck_log := [] |}.

Lemma cleanup_reaps_witness :
  cleanup_status false kernel = Some SIGKILL /\
  fst (Worker.emergency_cleanup (worker, kernel)) = Ok false /\
  ck_log (snd (snd (Broker.emergency_terminate_and_wait (broker, kernel)))) = [GateClosed 41; ChildReaped 41 SIGKILL] /\
  is_Some (cleanup_status (worker_sent worker) kernel) /\ is_Some (cleanup_status (broker_sent broker) kernel).
Proof.
  split; [vm_compute; reflexivity|]. split; [vm_compute; reflexivity|]. split; [vm_compute; reflexivity|].
  apply (cleanup_reaps worker broker kernel); vm_compute; reflexivity.
Defined.
