(* ===== verification/BrokerControl.v ===== *)
(** * BrokerControl: a plan changes hands between the service and its broker
    ([supervisor_broker_spawn.rs], [supervisor_broker_entry.rs])

    The service writes a length and the frame on the control stream, shuts its
    half down, and waits for the digest of what the broker read. The broker does
    all of this while its gate is silent, and only then waits for the start byte.

    What the kernel and the peer will do is scripted; where a script ends, the
    peer is gone: reads find the end of the stream, the gate is closed; writes
    are taken whole and polls report what was asked for. [cs_sent] is what has
    been written to the peer. *)

From S2P Require Import Prelude Bytes Negotiation Native SupervisorWire Supervisor BrokerReport BrokerPlan Watchdog Child.

Definition POLLIN : Z := 1.
Definition POLLOUT : Z := 4.
Definition POLLERR : Z := 8.
Definition POLLHUP : Z := 16.
Definition POLLNVAL : Z := 32.
Definition EAGAIN : Z := 35.
Definition START_BYTE : bytes := [x01].

(** ** The kernel *)

(** A write takes [S more] bytes, or fewer when there are fewer; [SendFails] has
    any other error number than those of the two events before it. *)
Inductive SendEvent :=
| Takes (more : nat)
| TakesNothing
| SendInterrupted
| SendBlocks
| SendFails (code : Z).

(** [poll]: readiness of the gate (where it is polled too) and the stream's
    events. *)
Inductive PollEvent :=
| PollReady (gate : bool) (revents : Z)
| PollTimeout
| PollFails (code : Z).

(** A read of one byte from the gate. *)
Inductive GateEvent :=
| GateByte (value : byte)
| GateEof
| GateInterrupted
| GateEmpty
| GateReadFails (code : Z).

Record ControlStream := {
  cs_reads : list ReadEvent;
  cs_sends : list SendEvent;
  cs_polls : list PollEvent;
  cs_shutdown : option Z;
  cs_sent : bytes;
  cs_ended : bool
}.

Definition with_cs_reads (reads : list ReadEvent) (self : ControlStream) : ControlStream :=
  {| cs_reads := reads; cs_sends := cs_sends self; cs_polls := cs_polls self; cs_shutdown := cs_shutdown self;
     cs_sent := cs_sent self; cs_ended := cs_ended self |}.
Definition with_cs_sends (sends : list SendEvent) (self : ControlStream) : ControlStream :=
  {| cs_reads := cs_reads self; cs_sends := sends; cs_polls := cs_polls self; cs_shutdown := cs_shutdown self;
     cs_sent := cs_sent self; cs_ended := cs_ended self |}.
Definition with_cs_polls (polls : list PollEvent) (self : ControlStream) : ControlStream :=
  {| cs_reads := cs_reads self; cs_sends := cs_sends self; cs_polls := polls; cs_shutdown := cs_shutdown self;
     cs_sent := cs_sent self; cs_ended := cs_ended self |}.
Definition with_cs_sent (sent : bytes) (self : ControlStream) : ControlStream :=
  {| cs_reads := cs_reads self; cs_sends := cs_sends self; cs_polls := cs_polls self; cs_shutdown := cs_shutdown self;
     cs_sent := cs_sent self ++ sent; cs_ended := cs_ended self |}.
Definition with_cs_ended (self : ControlStream) : ControlStream :=
  {| cs_reads := cs_reads self; cs_sends := cs_sends self; cs_polls := cs_polls self; cs_shutdown := cs_shutdown self;
     cs_sent := cs_sent self; cs_ended := true |}.

(** A read into a buffer of [need] bytes that [first :: rest] has arrived for:
    what is read, and what stays. *)
Definition taken (need : Z) (first : byte) (rest : bytes) : bytes := slice (first :: rest) 0 (Z.min (len (first :: rest)) need).
Definition put_back (need : Z) (first : byte) (rest : bytes) (reads : list ReadEvent) : list ReadEvent :=
  match slice (first :: rest) (Z.min (len (first :: rest)) need) (len (first :: rest)) with
  | [] => reads
  | next :: more => Arrives next more :: reads
  end.

Definition has_event (revents events : Z) : bool := negb (Z.land revents events =? 0).

(** ** The service's side *)

Section Service.
Context {W : Type} {C : Clock W}.
Import Broker.

Abbreviation control T := (stm (ControlStream * W) BrokerSpawnError T).

Definition before (deadline : Z) : control unit :=
  let! now := on_world read_instant in
  if deadline <=? now then serr Broker.DeadlineExpired else sret tt.

Fixpoint poll_loop (events deadline : Z) (polls : list PollEvent) : control unit :=
  let! now := on_world read_instant in
  if deadline <? now then serr Broker.DeadlineExpired else
  match polls with
  | [] => sret tt
  | event :: polls =>
      on_self (smodify (with_cs_polls polls)) >>!
      match event with
      | PollReady _ revents =>
          if has_event revents events then sret tt else
          if has_event revents (Z.lor POLLERR (Z.lor POLLHUP POLLNVAL)) then serr ControlProtocol else
          poll_loop events deadline polls
      | PollTimeout => before deadline >>! poll_loop events deadline polls
      | PollFails code => if code =? EINTR then poll_loop events deadline polls else serr (Control code)
      end
  end.

Definition poll_one (events deadline : Z) : control unit :=
  let! (stream, _) := sget in poll_loop events deadline (cs_polls stream).

Fixpoint write_loop (l : bytes) (deadline : Z) (sends : list SendEvent) : control unit :=
  match l with
  | [] => sret tt
  | _ :: _ =>
      before deadline >>!
      match sends with
      | [] => on_self (smodify (with_cs_sent l))
      | event :: sends =>
          on_self (smodify (with_cs_sends sends)) >>!
          match event with
          | TakesNothing => serr ControlProtocol
          | Takes more =>
              on_self (smodify (with_cs_sent (take (S more) l))) >>!
              write_loop (drop (S more) l) deadline sends
          | SendInterrupted => write_loop l deadline sends
          | SendBlocks => poll_one POLLOUT deadline >>! write_loop l deadline sends
          | SendFails code => serr (Control code)
          end
      end
  end.

Definition write_all_deadline (l : bytes) (deadline : Z) : control unit :=
  let! (stream, _) := sget in write_loop l deadline (cs_sends stream).

(** The bytes that fill a buffer with [need] bytes missing. *)
Fixpoint read_loop (need deadline : Z) (reads : list ReadEvent) : control bytes :=
  if need =? 0 then sret [] else
  before deadline >>!
  match reads with
  | [] => serr ControlProtocol
  | EndOfStream :: _ => serr ControlProtocol
  | Arrives first rest :: reads =>
      on_self (smodify (with_cs_reads (put_back need first rest reads))) >>!
      let read := taken need first rest in
      match slice (first :: rest) (Z.min (len (first :: rest)) need) (len (first :: rest)) with
      | [] => let! more := read_loop (need - len read) deadline reads in sret (read ++ more)
      | _ :: _ => sret read
      end
  | Interrupted :: reads => on_self (smodify (with_cs_reads reads)) >>! read_loop need deadline reads
  | WouldBlock :: reads =>
      on_self (smodify (with_cs_reads reads)) >>!
      poll_one POLLIN deadline >>! read_loop need deadline reads
  | ReadFails code :: reads => on_self (smodify (with_cs_reads reads)) >>! serr (Control code)
  end.

Definition read_exact_deadline (need deadline : Z) : control bytes :=
  let! (stream, _) := sget in read_loop need deadline (cs_reads stream).

Definition shutdown_write : control unit :=
  let! (stream, _) := sget in
  match cs_shutdown stream with
  | Some code => serr (Control code)
  | None => on_self (smodify with_cs_ended)
  end.

(** The read after the acknowledgement. *)
Definition nothing_more : control unit :=
  let! (stream, _) := sget in
  match cs_reads stream with
  | [] | EndOfStream :: _ => sret tt
  | WouldBlock :: reads => on_self (smodify (with_cs_reads reads))
  | Arrives first rest :: reads => on_self (smodify (with_cs_reads (put_back 1 first rest reads))) >>! serr ControlProtocol
  | Interrupted :: reads => on_self (smodify (with_cs_reads reads)) >>! serr (Control EINTR)
  | ReadFails code :: reads => on_self (smodify (with_cs_reads reads)) >>! serr (Control code)
  end.

Context {H : Sha256}.

Definition send_plan_and_require_ack (frame : bytes) (deadline : Z) : control unit :=
  let! outer_len := slift (ok_or (try_from U32_MAX (len frame)) ControlProtocol) in
  write_all_deadline (le_bytes 4 outer_len) deadline >>!
  write_all_deadline frame deadline >>!
  shutdown_write >>!
  let! ack := read_exact_deadline BROKER_ACK_BYTES deadline in
  before deadline >>!
  let! expected := slift (map_err (fun _ => ControlProtocol) (broker_plan_ack frame)) in
  if negb (bool_decide (ack = expected)) then serr ControlProtocol else
  nothing_more >>!
  before deadline.

End Service.

(** ** The broker's side *)

Inductive BrokerEntryError :=
| Entry_InvalidArguments
| Entry_InvalidGate
| Entry_InvalidControl
| Entry_InvalidTrace
| Entry_Descriptor (error : Z)
| Entry_Read (error : Z)
| Entry_InvalidActivation
| Entry_Plan (error : SupervisorWireError)
| Entry_Control (error : Z).

Inductive BrokerGateExit := ServiceGoneBeforeActivation | ServiceGone.

(** The fixed channels; [db_flags] are the error numbers of the coming changes
    of the gate's status flags (0, and none left: they succeed). *)
Record DormantBrokerProcess := {
  db_gate : list GateEvent;
  db_control : ControlStream;
  db_trace : ControlStream;
  db_flags : list Z
}.

Section Entry.
Context {W : Type} {C : Clock W} {U : UptimeClock W} {H : Sha256}.

Abbreviation entry T := (stm (DormantBrokerProcess * W) BrokerEntryError T).

Definition with_gate (gate : list GateEvent) (self : DormantBrokerProcess) : DormantBrokerProcess :=
  {| db_gate := gate; db_control := db_control self; db_trace := db_trace self; db_flags := db_flags self |}.
Definition on_control (f : ControlStream -> ControlStream) (self : DormantBrokerProcess) : DormantBrokerProcess :=
  {| db_gate := db_gate self; db_control := f (db_control self); db_trace := db_trace self; db_flags := db_flags self |}.
Definition set_gate {E} (gate : list GateEvent) : stm (DormantBrokerProcess * W) E unit := on_self (smodify (with_gate gate)).
Definition set_control (f : ControlStream -> ControlStream) : entry unit := on_self (smodify (on_control f)).

Definition set_nonblocking (enabled : bool) : entry unit :=
  let! (self, _) := sget in
  on_self (smodify (fun self => {| db_gate := db_gate self; db_control := db_control self; db_trace := db_trace self;
                                   db_flags := tail (db_flags self) |})) >>!
  match db_flags self with
  | [] => sret tt
  | error :: _ => if error =? 0 then sret tt else serr (Entry_Descriptor error)
  end.

(** [read_once] on the gate: the count and the byte, or the error number. *)
Definition read_once {E} : stm (DormantBrokerProcess * W) E (option byte + Z) :=
  let! (self, _) := sget in
  match db_gate self with
  | [] | GateEof :: _ => sret (inl None)
  | event :: gate =>
      set_gate gate >>!
      sret match event with
           | GateByte value => inl (Some value)
           | GateInterrupted => inr EINTR
           | GateEmpty => inr EAGAIN
           | GateReadFails code => inr code
           | GateEof => inl None
           end
  end.

(** A loop over [read_once] uses up one scripted event per turn. *)
Fixpoint probe_loop (gate : list GateEvent) : entry (option BrokerGateExit) :=
  let! result := read_once in
  match result with
  | inl None => sret (Some ServiceGoneBeforeActivation)
  | inl (Some _) => serr Entry_InvalidActivation
  | inr error =>
      if error =? EINTR then match gate with _ :: gate => probe_loop gate | [] => slift Panic end else
      if error =? EAGAIN then sret None else
      serr (Entry_Read error)
  end.

Definition probe_dormant_gate : entry (option BrokerGateExit) :=
  let! (self, _) := sget in probe_loop (db_gate self).

Definition ensure_deadline_live (deadline : option Z) : entry unit :=
  match deadline with
  | None => sret tt
  | Some deadline =>
      let! now := on_world read_instant in
      if deadline <=? now then serr (Entry_Plan WireError_LimitExceeded) else sret tt
  end.

Fixpoint poll_both_loop (control_events : Z) (deadline : option Z) (polls : list PollEvent) : entry (option BrokerGateExit) :=
  match deadline with
  | None => sret tt
  | Some deadline =>
      let! now := on_world read_instant in
      if deadline <? now then serr (Entry_Plan WireError_LimitExceeded) else sret tt
  end >>!
  match polls with
  | [] => sret None
  | event :: polls =>
      set_control (with_cs_polls polls) >>!
      match event with
      | PollTimeout => ensure_deadline_live deadline >>! poll_both_loop control_events deadline polls
      | PollFails code =>
          if code =? EINTR then poll_both_loop control_events deadline polls else serr (Entry_Control code)
      | PollReady gate revents =>
          if gate : bool then
            let! result := read_once in
            match result with
            | inl None => sret (Some ServiceGoneBeforeActivation)
            | inl (Some _) => serr Entry_InvalidActivation
            | inr error =>
                if (error =? EAGAIN) || (error =? EINTR) then poll_both_loop control_events deadline polls
                else serr (Entry_Read error)
            end
          else
          if has_event revents control_events then sret None else
          if has_event revents (Z.lor POLLERR (Z.lor POLLHUP POLLNVAL)) then serr (Entry_Control 0) else
          poll_both_loop control_events deadline polls
      end
  end.

Definition poll_control_and_gate (control_events : Z) (deadline : option Z) : entry (option BrokerGateExit) :=
  let! (self, _) := sget in poll_both_loop control_events deadline (cs_polls (db_control self)).

(** What each turn of the loops below does first: an exit of the gate ends the
    loop with it. *)
Definition while_dormant {T} (m : entry (option BrokerGateExit)) (k : entry (BrokerGateExit + T)) : entry (BrokerGateExit + T) :=
  let! exit := m in
  match exit with Some exit => sret (inl exit) | None => k end.

Fixpoint read_dormant_loop (need : Z) (deadline : option Z) (reads : list ReadEvent) : entry (BrokerGateExit + bytes) :=
  if need =? 0 then sret (inr []) else
  while_dormant probe_dormant_gate
   (ensure_deadline_live deadline >>!
    match reads with
    | [] | EndOfStream :: _ => serr (Entry_Control 0)
    | Arrives first rest :: reads =>
        set_control (with_cs_reads (put_back need first rest reads)) >>!
        let read := taken need first rest in
        match slice (first :: rest) (Z.min (len (first :: rest)) need) (len (first :: rest)) with
        | [] => let! more := read_dormant_loop (need - len read) deadline reads in
                sret (match more with inl exit => inl exit | inr more => inr (read ++ more) end)
        | _ :: _ => sret (inr read)
        end
    | Interrupted :: reads => set_control (with_cs_reads reads) >>! read_dormant_loop need deadline reads
    | WouldBlock :: reads =>
        set_control (with_cs_reads reads) >>!
        while_dormant (poll_control_and_gate POLLIN deadline) (read_dormant_loop need deadline reads)
    | ReadFails code :: reads => set_control (with_cs_reads reads) >>! serr (Entry_Control code)
    end).

Definition read_control_while_dormant (need : Z) (deadline : option Z) : entry (BrokerGateExit + bytes) :=
  let! (self, _) := sget in read_dormant_loop need deadline (cs_reads (db_control self)).

Fixpoint write_dormant_loop (l : bytes) (deadline : Z) (sends : list SendEvent) : entry (BrokerGateExit + unit) :=
  match l with
  | [] => sret (inr tt)
  | _ :: _ =>
      while_dormant probe_dormant_gate
       (ensure_deadline_live (Some deadline) >>!
        match sends with
        | [] => set_control (with_cs_sent l) >>! sret (inr tt)
        | event :: sends =>
            set_control (with_cs_sends sends) >>!
            match event with
            | TakesNothing => serr (Entry_Control 0)
            | Takes more =>
                set_control (with_cs_sent (take (S more) l)) >>! write_dormant_loop (drop (S more) l) deadline sends
            | SendInterrupted => write_dormant_loop l deadline sends
            | SendBlocks =>
                while_dormant (poll_control_and_gate POLLOUT (Some deadline)) (write_dormant_loop l deadline sends)
            | SendFails code => serr (Entry_Control code)
            end
        end)
  end.

Definition write_control_while_dormant (l : bytes) (deadline : Z) : entry (BrokerGateExit + unit) :=
  let! (self, _) := sget in write_dormant_loop l deadline (cs_sends (db_control self)).

Fixpoint frame_eof_loop (deadline : Z) (reads : list ReadEvent) : entry (BrokerGateExit + unit) :=
  while_dormant probe_dormant_gate
   (ensure_deadline_live (Some deadline) >>!
    match reads with
    | [] | EndOfStream :: _ => sret (inr tt)
    | Arrives first rest :: reads =>
        set_control (with_cs_reads (put_back 1 first rest reads)) >>! serr (Entry_Plan WireError_Malformed)
    | Interrupted :: reads => set_control (with_cs_reads reads) >>! frame_eof_loop deadline reads
    | WouldBlock :: reads =>
        set_control (with_cs_reads reads) >>!
        while_dormant (poll_control_and_gate POLLIN (Some deadline)) (frame_eof_loop deadline reads)
    | ReadFails code :: reads => set_control (with_cs_reads reads) >>! serr (Entry_Control code)
    end).

Definition require_control_frame_eof (deadline : Z) : entry (BrokerGateExit + unit) :=
  let! (self, _) := sget in frame_eof_loop deadline (cs_reads (db_control self)).

Definition bind_exit {T V} (m : entry (BrokerGateExit + T)) (k : T -> entry (BrokerGateExit + V)) : entry (BrokerGateExit + V) :=
  let! result := m in
  match result with inl exit => sret (inl exit) | inr x => k x end.

(** Errors of the plan's codec. *)
Definition plan_step {T} (m : stm W SupervisorWireError T) : entry T := on_world (smap_err Entry_Plan m).

(** The gate stays in the state of the process. *)
Record StagedDormantBroker := { sd_plan : AcknowledgedBrokerLaunchPlan; sd_trace : ControlStream }.
Record ActiveBrokerProcess := { ab_plan : ExactParentBrokerLaunchPlan; ab_trace : ControlStream }.

Definition stage_plan : entry (BrokerGateExit + StagedDormantBroker) :=
  set_nonblocking true >>!
  bind_exit (read_control_while_dormant 4 None) (fun outer =>
  let frame_len := le_val outer in
  if negb ((256 <=? frame_len) && (frame_len <=? MAX_BROKER_PLAN_BYTES)) then serr (Entry_Plan WireError_LimitExceeded) else
  bind_exit (read_control_while_dormant BROKER_PLAN_PREFIX_BYTES None) (fun prefix =>
  let! parsed := plan_step (parse_broker_plan_prefix prefix frame_len) in
  if negb (pp_frame_len parsed =? frame_len) then serr (Entry_Plan WireError_Malformed) else
  let local := db_local (pp_deadline parsed) in
  bind_exit (read_control_while_dormant (frame_len - BROKER_PLAN_PREFIX_BYTES) (Some local)) (fun remaining =>
  let frame := prefix ++ remaining in
  bind_exit (require_control_frame_eof local) (fun _ =>
  let! received := plan_step (slift (ReceivedBrokerLaunchPlan_decode_with_deadline frame (pp_deadline parsed))) in
  let local := db_local (rp_deadline received) in
  ensure_deadline_live (Some local) >>!
  let! ack := plan_step (slift (broker_plan_ack frame)) in
  bind_exit (write_control_while_dormant ack local) (fun _ =>
  ensure_deadline_live (Some local) >>!
  let! (self, _) := sget in
  sret (inr {| sd_plan := acknowledge_exact_parent received; sd_trace := db_trace self |})))))).

(** ** Activation *)

Fixpoint poll_gate_loop (deadline : Z) (polls : list PollEvent) : entry unit :=
  let! now := on_world read_instant in
  if deadline <? now then serr (Entry_Plan WireError_LimitExceeded) else
  match polls with
  | [] => sret tt
  | event :: polls =>
      set_control (with_cs_polls polls) >>!
      match event with
      | PollReady _ _ => sret tt
      | PollTimeout => ensure_deadline_live (Some deadline) >>! poll_gate_loop deadline polls
      | PollFails code => if code =? EINTR then poll_gate_loop deadline polls else serr (Entry_Read code)
      end
  end.

Definition poll_gate_until (deadline : Z) : entry unit :=
  let! (self, _) := sget in poll_gate_loop deadline (cs_polls (db_control self)).

(** The start byte. *)
Fixpoint start_loop (deadline : Z) (gate : list GateEvent) : entry (BrokerGateExit + unit) :=
  let! result := read_once in
  match result with
  | inl None => sret (inl ServiceGoneBeforeActivation)
  | inl (Some activation) => if bool_decide ([activation] = START_BYTE) then sret (inr tt) else serr Entry_InvalidActivation
  | inr error =>
      if error =? EINTR then match gate with _ :: gate => start_loop deadline gate | [] => slift Panic end else
      if error =? EAGAIN then
        poll_gate_until deadline >>! match gate with _ :: gate => start_loop deadline gate | [] => slift Panic end
      else serr (Entry_Read error)
  end.

(** Nothing after it. *)
Fixpoint silent_loop (deadline : Z) (gate : list GateEvent) : entry (BrokerGateExit + unit) :=
  let! result := read_once in
  match result with
  | inl None => sret (inl ServiceGone)
  | inl (Some _) => serr Entry_InvalidActivation
  | inr error =>
      if error =? EINTR then match gate with _ :: gate => silent_loop deadline gate | [] => slift Panic end else
      if error =? EAGAIN then set_nonblocking false >>! ensure_deadline_live (Some deadline) >>! sret (inr tt)
      else serr (Entry_Read error)
  end.

Definition wait_for_activation_until (deadline : Z) : entry (BrokerGateExit + unit) :=
  set_nonblocking true >>!
  let! (self, _) := sget in
  bind_exit (start_loop deadline (db_gate self)) (fun _ =>
  let! (self, _) := sget in silent_loop deadline (db_gate self)).

Definition wait_for_activation (self : StagedDormantBroker) : entry (BrokerGateExit + ActiveBrokerProcess) :=
  let deadline := db_local (kp_deadline (sd_plan self)) in
  bind_exit (wait_for_activation_until deadline) (fun _ =>
  ensure_deadline_live (Some deadline) >>!
  sret (inr {| ab_plan := activate (sd_plan self); ab_trace := sd_trace self |})).

(** [read_retry] on the blocking gate. *)
Fixpoint retry_loop (gate : list GateEvent) : entry (option byte) :=
  let! result := read_once in
  match result with
  | inl count => sret count
  | inr error => if error =? EINTR then match gate with _ :: gate => retry_loop gate | [] => slift Panic end else serr (Entry_Read error)
  end.

Definition wait_for_service_death : entry BrokerGateExit :=
  let! (self, _) := sget in
  let! unexpected := retry_loop (db_gate self) in
  match unexpected with None => sret ServiceGone | Some _ => serr Entry_InvalidActivation end.

(** The exit status of the broker-entry process once its channels are adopted. *)
Definition run_fixed_gate_process : stm (DormantBrokerProcess * W) Empty_set Z :=
  fun s =>
    match stage_plan s with
    | (Panic, s) => (Panic, s)
    | (Err _, s) => (Ok 65, s)
    | (Ok (inl _), s) => (Ok 0, s)
    | (Ok (inr staged), s) =>
        match wait_for_activation staged s with
        | (Panic, s) => (Panic, s)
        | (Err _, s) => (Ok 65, s)
        | (Ok (inl _), s) => (Ok 0, s)
        | (Ok (inr _), s) =>
            match wait_for_service_death s with
            | (Panic, s) => (Panic, s)
            | (Err _, s) => (Ok 65, s)
            | (Ok ServiceGone, s) => (Ok 0, s)
            | (Ok ServiceGoneBeforeActivation, s) => (Ok 66, s)
            end
        end
    end.

End Entry.
