(* ===== verification/BrokerHandover.v ===== *)
(** * BrokerHandover: the broker holds the plan the service staged

    Both ends of the control stream, each against any behaviour of the kernel
    and of its peer; then the two connected. *)

From S2P Require Import Prelude Bytes Tools Negotiation Native SupervisorWire SupervisorCodec Supervisor BrokerReport BrokerPlan BrokerCodec LauncherCodec BrokerReportTheory Watchdog Child BrokerControl.

(** A read takes the bytes that arrived first. *)
Lemma taken_back need first rest reads :
  0 < need ->
  let read := taken need first rest in
  len read = Z.min (len (first :: rest)) need /\
  read ++ arrived (put_back need first rest reads) = arrived (Arrives first rest :: reads) /\
  (slice (first :: rest) (Z.min (len (first :: rest)) need) (len (first :: rest)) = [] -> put_back need first rest reads = reads) /\
  (slice (first :: rest) (Z.min (len (first :: rest)) need) (len (first :: rest)) <> [] -> len read = need).
Proof.
  intros Hn read. set (data := first :: rest) in *. set (count := Z.min (len data) need) in *. pose proof (len_nonneg data).
  assert (len read = count) as Hl by (unfold read, taken; fold data count; rewrite len_slice; lia).
  assert (read ++ slice data count (len data) = data) as Hd.
  { unfold read, taken. fold data count. rewrite slice_cat by lia. now apply slice_full. }
  split; [done|]. split; [|split].
  - unfold put_back. fold data count. cbn [arrived]. fold data. rewrite <- Hd at 3. destruct (slice data count (len data)) as [|next more].
    + now rewrite !app_nil_r.
    + cbn [arrived]. now rewrite app_assoc.
  - unfold put_back. fold data count. now intros ->.
  - intros Hne. destruct (decide (len data <= need)); [|lia]. exfalso. apply Hne.
    replace count with (len data) by lia. apply slice_nil. lia.
Qed.

(** A run of a part of the code, and the rest after it. *)
Lemma then_spec {S E T V} (m : stm S E T) (k : T -> stm S E V) (P : S -> Prop) (Q : res E V -> S -> Prop) s :
  wp m (fun r s' => r <> Panic /\ P s') s -> (forall x s', P s' -> wp (k x) Q s') -> (forall e s', P s' -> Q (Err e) s') ->
  wp (sbind m k) Q s.
Proof.
  intros Hm Hk He. apply wp_bind. eapply wp_mono; [exact Hm|]. intros [x|e|] s' [Hp HP]; cbn [bound]; [auto|auto|done].
Qed.

(** ** The service *)

Section Service.
Context {W : Type} {C : Clock W}.
Import Broker.

Abbreviation state := (ControlStream * W)%type.
Abbreviation control T := (stm state BrokerSpawnError T).

(** What a poll may change. *)
Definition polled (s s' : state) : Prop :=
  cs_reads (fst s') = cs_reads (fst s) /\ cs_sends (fst s') = cs_sends (fst s) /\ cs_shutdown (fst s') = cs_shutdown (fst s) /\
  cs_sent (fst s') = cs_sent (fst s) /\ cs_ended (fst s') = cs_ended (fst s).

Lemma polled_trans s s' s'' : polled s s' -> polled s' s'' -> polled s s''.
Proof. unfold polled. intuition congruence. Qed.

Lemma before_spec deadline (s : state) :
  wp (before deadline) (fun r s' => r <> Panic /\ polled s s') s.
Proof.
  destruct s as [stream w]. unfold wp, before, sbind, on_world, read_instant. destruct (instant_now w) as [now w'].
  destruct (deadline <=? now); split; done.
Qed.

Lemma poll_loop_spec events deadline polls (s : state) :
  wp (poll_loop events deadline polls) (fun r s' => r <> Panic /\ polled s s') s.
Proof.
  revert s. induction polls as [|event polls IH]; intros [stream w]; unfold wp; cbn [poll_loop]; unfold sbind at 1, on_world at 1, read_instant;
    destruct (instant_now w) as [now w1]; (destruct (deadline <? now); [split; done|]); [split; done|].
  unfold sbind at 1. cbn [on_self smodify]. set (s1 := (with_cs_polls polls stream, w1)).
  assert (polled (stream, w) s1) as H1 by done.
  destruct event as [gate revents| |code].
  - destruct (has_event revents events); [split; done|]. destruct (has_event revents _); [split; done|].
    specialize (IH s1). unfold wp in IH. destruct (poll_loop events deadline polls s1) as [r s2]. destruct IH. split; [done|]. eauto using polled_trans.
  - unfold sbind. pose proof (before_spec deadline s1) as Hb. unfold wp in Hb. destruct (before deadline s1) as [[x|e|] s2]; destruct Hb as [Hp Hb]; [| |done].
    2: split; [done|]; eauto using polled_trans.
    specialize (IH s2). unfold wp in IH. destruct (poll_loop events deadline polls s2) as [r s3]. destruct IH. split; [done|]. eauto using polled_trans.
  - destruct (code =? EINTR); [|split; done].
    specialize (IH s1). unfold wp in IH. destruct (poll_loop events deadline polls s1) as [r s2]. destruct IH. split; [done|]. eauto using polled_trans.
Qed.

Lemma poll_one_spec events deadline (s : state) : wp (poll_one events deadline) (fun r s' => r <> Panic /\ polled s s') s.
Proof. destruct s as [stream w]. apply (poll_loop_spec events deadline (cs_polls stream)). Qed.

(** What a write of [p] changes. *)
Definition written (p : bytes) (s s' : state) : Prop :=
  cs_reads (fst s') = cs_reads (fst s) /\ cs_shutdown (fst s') = cs_shutdown (fst s) /\
  cs_sent (fst s') = cs_sent (fst s) ++ p /\ cs_ended (fst s') = cs_ended (fst s).

Lemma polled_written s s' s'' p : polled s s' -> written p s' s'' -> written p s s''.
Proof. unfold polled, written. intuition congruence. Qed.
Lemma written_written s s' s'' p q : written p s s' -> written q s' s'' -> written (p ++ q) s s''.
Proof. unfold written. intros (? & ? & Hp & ?) (? & ? & Hq & ?). rewrite Hq, Hp, app_assoc. split_and!; congruence. Qed.
Lemma polled_nothing s s' : polled s s' -> written [] s s'.
Proof. unfold polled, written. rewrite app_nil_r. tauto. Qed.

(** What a loop over [l] has written when it ends. *)
Definition writes (l : bytes) (s : state) (r : res BrokerSpawnError unit) (s' : state) : Prop :=
  r <> Panic /\ exists p, p `prefix_of` l /\ written p s s' /\ (r = Ok tt -> p = l).

Lemma writes_after l s s1 r s' : polled s s1 -> writes l s1 r s' -> writes l s r s'.
Proof. intros Hp (Hr & p & H1 & H2 & H3). split; [done|]. exists p. eauto using polled_written. Qed.

Lemma writes_none l s s1 e : polled s s1 -> writes l s (Err e) s1.
Proof. intros Hp. split; [done|]. exists []. split; [apply prefix_nil|]. split; [now apply polled_nothing|done]. Qed.

Lemma write_loop_spec l deadline sends (s : state) : wp (write_loop l deadline sends) (writes l s) s.
Proof.
  revert l s. induction sends as [|event sends IH]; intros [|b l] s; cbn [write_loop].
  1, 3: apply wp_ret; split; [done|]; exists []; split; [done|]; split; [now apply polled_nothing|done].
  - apply (then_spec _ _ (polled s)); [apply before_spec| |eauto using writes_none].
    intros _ [stream w] H1. split; [done|]. exists (b :: l). split; [done|]. split; [|done]. eapply polled_written; [exact H1|]. now split_and!.
  - apply (then_spec _ _ (polled s)); [apply before_spec| |eauto using writes_none]. intros _ [stream w] H1.
    set (s2 := (with_cs_sends sends stream, w)).
    assert (forall p s', written p s2 s' -> written p s s') as Hw.
    { intros p s' (? & ? & ? & ?). destruct H1 as (? & ? & ? & ? & ?). cbn in *. unfold written. split_and!; congruence. }
    assert (forall r s', writes (b :: l) s2 r s' -> writes (b :: l) s r s') as Hws.
    { intros r s' (Hr & p & ? & ? & ?). split; [done|]. exists p. auto. }
    apply (then_spec _ _ (fun s' => s' = s2)); [now split| |intros e s' ->; now apply Hws, writes_none].
    intros _ s' ->.
    destruct event as [more| | | |code].
    + apply (then_spec _ _ (written (take (S more) (b :: l)) s2)); [now split| |].
      * intros _ s' Hs'. eapply wp_mono; [apply IH|]. intros r s'' (Hr & p & Hp & Hwp & Hall). apply Hws.
        split; [done|]. exists (take (S more) (b :: l) ++ p). rewrite <- (take_drop (S more) (b :: l)) at 2.
        split; [now apply prefix_app|]. split; [eapply written_written; eauto|]. intros Hok. rewrite (Hall Hok). apply take_drop.
      * intros e s' Hs'. apply Hws. split; [done|]. exists (take (S more) (b :: l)).
        split; [exists (drop (S more) (b :: l)); symmetry; apply take_drop|]. split; [exact Hs'|done].
    + apply wp_err, Hws, writes_none. done.
    + eapply wp_mono; [apply IH|]. eauto.
    + apply (then_spec _ _ (polled s2)); [apply poll_one_spec| |].
      * intros _ s' Hs'. eapply wp_mono; [apply IH|]. intros r s'' Hr. apply Hws. eapply writes_after; eauto.
      * intros e s' Hs'. apply Hws. now apply writes_none.
    + apply wp_err, Hws, writes_none. done.
Qed.

(** What a read changes. *)
Definition unwritten (s s' : state) : Prop :=
  cs_shutdown (fst s') = cs_shutdown (fst s) /\ cs_sent (fst s') = cs_sent (fst s) /\ cs_ended (fst s') = cs_ended (fst s).

(** [need] bytes come off the front of what arrives. *)
Definition reads_off (need : Z) (s : state) (r : res BrokerSpawnError bytes) (s' : state) : Prop :=
  r <> Panic /\ unwritten s s' /\
  forall x, r = Ok x -> len x = need /\ x ++ arrived (cs_reads (fst s')) = arrived (cs_reads (fst s)).

Lemma reads_off_after need s s1 r s' :
  unwritten s s1 -> arrived (cs_reads (fst s1)) = arrived (cs_reads (fst s)) -> reads_off need s1 r s' -> reads_off need s r s'.
Proof. unfold unwritten. intros H1 Ha (Hr & H2 & H3). split; [done|]. rewrite <- Ha. split; [unfold unwritten in *; intuition congruence|done]. Qed.

Lemma reads_off_err need s s' e : unwritten s s' -> reads_off need s (Err e) s'.
Proof. intros H1. split; [done|]. split; [done|]. discriminate. Qed.

Lemma read_loop_spec reads need deadline (s : state) :
  cs_reads (fst s) = reads -> 0 <= need -> wp (read_loop need deadline reads) (reads_off need s) s.
Proof.
  revert need s. induction reads as [|event reads IH]; intros need s Hs Hn; cbn [read_loop]; destruct (need =? 0) eqn:En; bsplit.
  1, 3: apply wp_ret; split; [done|]; split; [done|]; intros x [= <-]; subst need; done.
  - apply (then_spec _ _ (polled s)); [apply before_spec| |]; [intros _ s1 H1; apply wp_err|intros e s1 H1]; apply reads_off_err;
      unfold polled, unwritten in *; tauto.
  - apply (then_spec _ _ (polled s)); [apply before_spec| |intros e s1 H1; apply reads_off_err; unfold polled, unwritten in *; tauto].
    intros _ [stream w] H1. assert (unwritten s (stream, w)) as Hu by (unfold polled, unwritten in *; tauto).
    assert (cs_reads stream = event :: reads) as Hr by (destruct H1 as [H1 _]; cbn in H1; congruence).
    assert (forall reads', unwritten s (with_cs_reads reads' stream, w)) as Hu' by (intros reads'; exact Hu).
    destruct event as [first rest| | |code|].
    + destruct (taken_back need first rest reads) as (Hl & Ha & Hempty & Hfull); [lia|].
      set (s2 := (with_cs_reads (put_back need first rest reads) stream, w)).
      apply (then_spec _ _ (fun s' => s' = s2)); [now split| |intros e s' ->; apply reads_off_err, Hu']. intros _ s' ->.
      destruct (slice _ _ _) as [|next more] eqn:Em.
      * pose proof (Hempty eq_refl) as Hback. eapply wp_bind, wp_mono; [apply (IH (need - len (taken need first rest)) s2); [exact Hback|pose proof (len_nonneg (first :: rest)); lia]|].
        intros [x|e|] s3 (Hp & Hu3 & Hx); cbn [bound]; [|apply reads_off_err; unfold unwritten in *; cbn in *; intuition congruence|done].
        apply wp_ret. destruct (Hx x eq_refl) as [Hlx Hax]. split; [done|]. split; [unfold unwritten in *; cbn in *; intuition congruence|].
        intros y [= <-]. rewrite len_app, Hlx. split; [lia|]. rewrite <- app_assoc, Hax, Hs. exact Ha.
      * apply wp_ret. split; [done|]. split; [apply Hu'|]. intros x [= <-]. split; [now apply Hfull|]. rewrite Hs. exact Ha.
    + set (s2 := (with_cs_reads reads stream, w)).
      apply (then_spec _ _ (fun s' => s' = s2)); [now split| |intros e s' ->; apply reads_off_err, Hu']. intros _ s' ->.
      eapply wp_mono; [now apply IH|]. intros r s3. apply reads_off_after; [apply Hu'|]. now rewrite Hs.
    + set (s2 := (with_cs_reads reads stream, w)).
      apply (then_spec _ _ (fun s' => s' = s2)); [now split| |intros e s' ->; apply reads_off_err, Hu']. intros _ s' ->.
      apply (then_spec _ _ (polled s2)); [apply poll_one_spec| |].
      * intros _ s3 H3. eapply wp_mono; [apply IH; [apply H3|done]|]. intros r s4. apply reads_off_after.
        -- unfold polled, unwritten in *. cbn in *. intuition congruence.
        -- destruct H3 as [-> _]. now rewrite Hs.
      * intros e s3 H3. apply reads_off_err. unfold polled, unwritten in *. cbn in *. intuition congruence.
    + set (s2 := (with_cs_reads reads stream, w)).
      apply (then_spec _ _ (fun s' => s' = s2)); [now split| |intros e s' ->; apply reads_off_err, Hu']. intros _ s' ->.
      apply wp_err, reads_off_err, Hu'.
    + apply wp_err, reads_off_err, Hu.
Qed.

Lemma write_all_spec l deadline (s : state) : wp (write_all_deadline l deadline) (writes l s) s.
Proof. destruct s as [stream w]. apply (write_loop_spec l deadline (cs_sends stream)). Qed.

Lemma read_exact_spec need deadline (s : state) : 0 <= need -> wp (read_exact_deadline need deadline) (reads_off need s) s.
Proof. destruct s as [stream w]. now apply (read_loop_spec (cs_reads stream)). Qed.

Lemma shutdown_spec (s : state) :
  wp shutdown_write (fun r s' => forall u, r = Ok u ->
    cs_reads (fst s') = cs_reads (fst s) /\ cs_sent (fst s') = cs_sent (fst s) /\ cs_ended (fst s') = true) s.
Proof. destruct s as [stream w]. unfold wp, shutdown_write, sbind, sget. now destruct (cs_shutdown stream). Qed.

Lemma nothing_more_spec (s : state) :
  wp nothing_more (fun _ s' => cs_sent (fst s') = cs_sent (fst s) /\ cs_ended (fst s') = cs_ended (fst s)) s.
Proof. destruct s as [stream w]. unfold wp, nothing_more, sbind, sget. now destruct (cs_reads stream) as [|[] reads]. Qed.

Context {H : Sha256}.

(** What the service knows when it is told that the plan was acknowledged. *)
Lemma send_plan_spec frame deadline (s : state) :
  wp (send_plan_and_require_ack frame deadline) (fun r s' => forall u, r = Ok u ->
    len frame <= U32_MAX /\ cs_sent (fst s') = cs_sent (fst s) ++ le_bytes 4 (len frame) ++ frame /\ cs_ended (fst s') = true /\
    exists ack rest, broker_plan_ack frame = Ok ack /\ len ack = BROKER_ACK_BYTES /\ arrived (cs_reads (fst s)) = ack ++ rest) s.
Proof.
  unfold send_plan_and_require_ack. apply wp_bind, wp_lift. destruct (try_from U32_MAX (len frame)) as [outer|] eqn:Ho; [|done]. cbn [ok_or bound].
  apply try_from_Some in Ho as [-> [_ Hlen]].
  eapply wp_bind, wp_mono; [apply (write_all_spec (le_bytes 4 (len frame)))|]. intros [[]|e|] s1 (_ & p1 & _ & (R1 & D1 & W1 & E1) & F1); [|done..]. cbn [bound].
  rewrite (F1 eq_refl) in W1. clear F1.
  eapply wp_bind, wp_mono; [apply (write_all_spec frame)|]. intros [[]|e|] s2 (_ & p2 & _ & (R2 & D2 & W2 & E2) & F2); [|done..]. cbn [bound].
  rewrite (F2 eq_refl), W1, <- app_assoc in W2. clear F2.
  eapply wp_bind, wp_mono; [apply shutdown_spec|]. intros [[]|e|] s3 Hs3; [|done..]. cbn [bound]. destruct (Hs3 tt eq_refl) as (R3 & W3 & E3).
  eapply wp_bind, wp_mono; [now apply (read_exact_spec BROKER_ACK_BYTES)|].
  intros [ack|e|] s4 (_ & (_ & W4 & E4) & F4); [|done..]. cbn [bound]. destruct (F4 ack eq_refl) as [Hl Ha].
  eapply wp_bind, wp_mono; [apply before_spec|]. intros [[]|e|] s5 [_ (R5 & _ & _ & W5 & E5)]; [|done..]. cbn [bound].
  apply wp_bind, wp_lift. destruct (broker_plan_ack frame) as [expected| |]; [|done..]. cbn [map_err bound].
  case_bool_decide as Heq; cbn [negb]; [|done]. subst expected.
  eapply wp_bind, wp_mono; [apply nothing_more_spec|]. intros [[]|e|] s6 (W6 & E6); [|done..]. cbn [bound].
  eapply wp_mono; [apply before_spec|]. intros r s7 [_ (_ & _ & _ & W7 & E7)] u _.
  split; [done|]. split; [congruence|]. split; [congruence|]. exists ack, (arrived (cs_reads (fst s4))). split; [done|]. split; [done|]. rewrite Ha. congruence.
Qed.

End Service.

(** ** The broker *)

(** A read of the gate that finds nothing. *)
Definition finds_nothing (event : GateEvent) : Prop :=
  match event with
  | GateInterrupted | GateEmpty => True
  | GateReadFails code => code = EINTR \/ code = EAGAIN
  | GateByte _ | GateEof => False
  end.

(** The gate from [gate] to [gate'] brought nothing. *)
Definition silently (gate gate' : list GateEvent) : Prop :=
  exists noise, gate = noise ++ gate' /\ Forall finds_nothing noise.

Lemma silently_refl gate : silently gate gate.
Proof. now exists []. Qed.
Lemma silently_trans g1 g2 g3 : silently g1 g2 -> silently g2 g3 -> silently g1 g3.
Proof.
  intros (n1 & -> & H1) (n2 & -> & H2). exists (n1 ++ n2). split; [apply app_assoc|]. now apply Forall_app.
Qed.
Lemma silently_cons event gate gate' :
  finds_nothing event -> silently gate gate' -> silently (event :: gate) gate'.
Proof. intros He (noise & -> & Hn). exists (event :: noise). split; [done|]. now constructor. Qed.

Section Entry.
Context {W : Type} {C : Clock W} {U : UptimeClock W} {H : Sha256}.

Abbreviation state := (DormantBrokerProcess * W)%type.
Abbreviation entry T := (stm state BrokerEntryError T).

Definition quiet (s s' : state) : Prop := silently (db_gate (fst s)) (db_gate (fst s')).

(** What looking at the gate and the clock, and polling, may change. *)
Definition undisturbed (s s' : state) : Prop :=
  cs_reads (db_control (fst s')) = cs_reads (db_control (fst s)) /\
  cs_sent (db_control (fst s')) = cs_sent (db_control (fst s)) /\ db_trace (fst s') = db_trace (fst s).

Lemma undisturbed_trans s s' s'' : undisturbed s s' -> undisturbed s' s'' -> undisturbed s s''.
Proof. unfold undisturbed. intuition congruence. Qed.
Lemma quiet_trans s s' s'' : quiet s s' -> quiet s' s'' -> quiet s s''.
Proof. apply silently_trans. Qed.

(** Code that only looks; with [Ok None] the gate was silent. *)
Definition looks (s : state) (r : res BrokerEntryError (option BrokerGateExit)) (s' : state) : Prop :=
  r <> Panic /\ undisturbed s s' /\ (r = Ok None -> quiet s s').

Lemma looks_after s s1 r s' : undisturbed s s1 -> quiet s s1 -> looks s1 r s' -> looks s r s'.
Proof. intros H1 H2 (? & ? & ?). split; [done|]. split; [eauto using undisturbed_trans|]. eauto using quiet_trans. Qed.

(** One read of the gate. *)
Lemma read_once_spec {E} (s : state) :
  wp (read_once (E := E)) (fun r s' => undisturbed s s' /\ fst s' = with_gate (db_gate (fst s')) (fst s) /\
    match r with
    | Ok (inr error) => (exists event, db_gate (fst s) = event :: db_gate (fst s')) /\ (error = EINTR \/ error = EAGAIN -> quiet s s')
    | Ok (inl (Some value)) => db_gate (fst s) = GateByte value :: db_gate (fst s')
    | Ok (inl None) => True
    | _ => False
    end) s.
Proof.
  destruct s as [[gate control trace flags] w]. unfold wp, read_once, sbind, sget. cbn [db_gate fst].
  destruct gate as [|[value| | | |code] gate]; cbn; (split; [done|]); (split; [done|]); try done.
  all: split; [now eexists|]; intros He; apply silently_cons; [exact He || exact I|apply silently_refl].
Qed.

Lemma read_once_then {E T} (k : option byte + Z -> stm state E T) (Q : res E T -> state -> Prop) s :
  (forall s', undisturbed s s' -> wp (k (inl None)) Q s') ->
  (forall value s', undisturbed s s' -> db_gate (fst s) = GateByte value :: db_gate (fst s') -> wp (k (inl (Some value))) Q s') ->
  (forall error event s', undisturbed s s' -> db_gate (fst s) = event :: db_gate (fst s') -> (error = EINTR \/ error = EAGAIN -> quiet s s') ->
     fst s' = with_gate (db_gate (fst s')) (fst s) -> wp (k (inr error)) Q s') ->
  wp (sbind read_once k) Q s.
Proof.
  intros H1 H2 H3. apply wp_bind. eapply wp_mono; [apply read_once_spec|]. intros [[[value|]|error]|e|] s' (Hu & Hw & Hr); cbn [bound]; [auto..| |done|done].
  destruct Hr as [[event Hg] Hq]. eauto.
Qed.

Lemma probe_loop_spec gate (s : state) : db_gate (fst s) = gate -> wp (probe_loop gate) (looks s) s.
Proof.
  revert s. induction gate as [|event gate IH]; intros s Hg; cbn [probe_loop]; apply read_once_then.
  1, 4: intros s' Hu; apply wp_ret; by split_and!.
  1, 3: intros value s' Hu Hv; apply wp_err; by split_and!.
  - intros error event s' Hu Hv. congruence.
  - intros error event' s' Hu Hv Hq _. rewrite Hg in Hv. injection Hv as <- Hv.
    destruct (error =? EINTR) eqn:E1; bsplit; [|destruct (error =? EAGAIN) eqn:E2; bsplit].
    + eapply wp_mono; [now apply IH|]. intros r s2. apply looks_after; auto.
    + apply wp_ret. split; [done|]. auto.
    + apply wp_err. by split_and!.
Qed.

Lemma probe_spec (s : state) : wp probe_dormant_gate (looks s) s.
Proof. destruct s as [self w]. now apply (probe_loop_spec (db_gate self)). Qed.

Lemma deadline_live_spec deadline (s : state) :
  wp (ensure_deadline_live deadline) (fun r s' => r <> Panic /\ fst s' = fst s) s.
Proof.
  destruct s as [self w]. destruct deadline as [deadline|]; [|now split]. unfold wp. cbn [ensure_deadline_live].
  unfold sbind, on_world, read_instant. destruct (instant_now w) as [now w']. now destruct (deadline <=? now).
Qed.

Lemma same_self (s s' : state) : fst s' = fst s -> undisturbed s s' /\ quiet s s'.
Proof. unfold undisturbed, quiet. intros ->. split; [done|]. apply silently_refl. Qed.

Lemma poll_both_spec events deadline polls (s : state) : wp (poll_both_loop events deadline polls) (looks s) s.
Proof.
  revert s. induction polls as [|event polls IH]; intros s; cbn [poll_both_loop];
    (apply (then_spec _ _ (fun s' => fst s' = fst s));
      [destruct deadline as [deadline|]; [|now split]; destruct s as [self w]; unfold wp, sbind, on_world, read_instant;
       destruct (instant_now w) as [now w']; now destruct (deadline <? now)
      | |intros e s' Hs'; apply same_self in Hs' as [? ?]; by split_and!]).
  { intros _ s' Hs'. apply same_self in Hs' as [? ?]. apply wp_ret. by split_and!. }
  intros _ [self w] Hs'. cbn in Hs'. apply (then_spec _ _ (fun s' => s' = (on_control (with_cs_polls polls) self, w))); [by split| |].
  2: { intros e s' ->. subst self. by split_and!. }
  intros _ s' ->. set (s2 := (on_control (with_cs_polls polls) self, w)).
  assert (undisturbed s s2 /\ quiet s s2) as [Hu Hq] by (subst self; split; [done|apply silently_refl]).
  destruct event as [gate revents| |code].
  - destruct gate.
    + apply read_once_then.
      * intros s' H1. apply wp_ret. split; [done|]. split; [eauto using undisturbed_trans|done].
      * intros value s' H1 _. apply wp_err. split; [done|]. split; [eauto using undisturbed_trans|done].
      * intros error event s' H1 _ H2 _. destruct ((error =? EAGAIN) || (error =? EINTR)) eqn:E.
        -- eapply wp_mono; [apply IH|]. intros r s3. apply looks_after; [eauto using undisturbed_trans|]. eapply quiet_trans; [exact Hq|].
           apply H2. apply orb_true_iff in E as [E|E]; bsplit; auto.
        -- apply wp_err. split; [done|]. split; [eauto using undisturbed_trans|done].
    + destruct (has_event _ _); [apply wp_ret; by split_and!|]. destruct (has_event _ _); [apply wp_err; by split_and!|].
      eapply wp_mono; [apply IH|]. intros r s3. now apply looks_after.
  - apply (then_spec _ _ (fun s' => fst s' = fst s2)); [apply deadline_live_spec| |].
    + intros _ s3 H3. apply same_self in H3 as [? ?]. eapply wp_mono; [apply IH|]. intros r s4.
      apply looks_after; [eauto using undisturbed_trans|eauto using quiet_trans].
    + intros e s3 H3. apply same_self in H3 as [? ?]. split; [done|]. split; [eauto using undisturbed_trans|done].
  - destruct (code =? EINTR); [|apply wp_err; by split_and!]. eapply wp_mono; [apply IH|]. intros r s3. now apply looks_after.
Qed.

Lemma poll_gate_control_spec events deadline (s : state) : wp (poll_control_and_gate events deadline) (looks s) s.
Proof. destruct s as [self w]. apply (poll_both_spec events deadline (cs_polls (db_control self))). Qed.

Lemma while_dormant_spec {T} m (k : entry (BrokerGateExit + T)) (Q : res BrokerEntryError (BrokerGateExit + T) -> state -> Prop) s :
  wp m (looks s) s ->
  (forall s', undisturbed s s' -> quiet s s' -> wp k Q s') ->
  (forall r s', undisturbed s s' -> r <> Panic -> (forall x, r <> Ok (inr x)) -> Q r s') ->
  wp (while_dormant m k) Q s.
Proof.
  intros Hm Hk He. apply wp_bind. eapply wp_mono; [exact Hm|]. intros [[exit|]|e|] s' (Hp & Hu & Hq); cbn [bound]; [|auto|auto|done].
  apply wp_ret. now apply He.
Qed.

(** What a turn does before its call: nothing is read or written. *)
Lemma turn_spec {T} deadline (k : entry (BrokerGateExit + T)) (Q : res BrokerEntryError (BrokerGateExit + T) -> state -> Prop) s :
  (forall s', undisturbed s s' -> quiet s s' -> wp k Q s') ->
  (forall r s', undisturbed s s' -> r <> Panic -> (forall x, r <> Ok (inr x)) -> Q r s') ->
  wp (while_dormant probe_dormant_gate (ensure_deadline_live deadline >>! k)) Q s.
Proof.
  intros Hk He. apply while_dormant_spec; [apply probe_spec| |done]. intros s1 H1 H2.
  apply (then_spec _ _ (fun s' => fst s' = fst s1)); [apply deadline_live_spec| |].
  - intros _ s2 H3. apply same_self in H3 as [? ?]. apply Hk; [eauto using undisturbed_trans|eauto using quiet_trans].
  - intros e s2 H3. apply same_self in H3 as [? _]. apply He; [eauto using undisturbed_trans|done..].
Qed.

(** The control stream after a change of it. *)
Lemma set_control_spec {T} f (k : entry T) (Q : res BrokerEntryError T -> state -> Prop) (s : state) :
  wp k Q (on_control f (fst s), snd s) -> wp (set_control f >>! k) Q s.
Proof. destruct s as [self w]. exact id. Qed.

(** [need] bytes come off the front of what arrives, while the gate is silent. *)
Definition reads_quietly (need : Z) (s : state) (r : res BrokerEntryError (BrokerGateExit + bytes)) (s' : state) : Prop :=
  r <> Panic /\ cs_sent (db_control (fst s')) = cs_sent (db_control (fst s)) /\ db_trace (fst s') = db_trace (fst s) /\
  forall x, r = Ok (inr x) -> quiet s s' /\ len x = need /\
    x ++ arrived (cs_reads (db_control (fst s'))) = arrived (cs_reads (db_control (fst s))).

Lemma reads_quietly_not need s s' r :
  cs_sent (db_control (fst s')) = cs_sent (db_control (fst s)) -> db_trace (fst s') = db_trace (fst s) ->
  r <> Panic -> (forall x, r <> Ok (inr x)) -> reads_quietly need s r s'.
Proof. intros H1 H2 Hr Hx. split; [done|]. split; [done|]. split; [done|]. intros x ->. now destruct (Hx x). Qed.

Lemma reads_quietly_after need s s1 r s' :
  cs_sent (db_control (fst s1)) = cs_sent (db_control (fst s)) -> db_trace (fst s1) = db_trace (fst s) -> quiet s s1 ->
  arrived (cs_reads (db_control (fst s1))) = arrived (cs_reads (db_control (fst s))) ->
  reads_quietly need s1 r s' -> reads_quietly need s r s'.
Proof.
  intros H1 H2 Hq Ha (Hr & H3 & H4 & Hx). split; [done|]. split; [congruence|]. split; [congruence|]. intros x Hrx.
  destruct (Hx x Hrx) as (? & ? & ?). split; [eauto using quiet_trans|]. split; [done|]. congruence.
Qed.

Lemma read_dormant_spec reads need deadline (s : state) :
  cs_reads (db_control (fst s)) = reads -> 0 <= need -> wp (read_dormant_loop need deadline reads) (reads_quietly need s) s.
Proof.
  revert need s. induction reads as [|event reads IH]; intros need s Hs Hn; cbn [read_dormant_loop]; destruct (need =? 0) eqn:En; bsplit.
  1, 3: apply wp_ret; split; [done|]; split; [done|]; split; [done|]; intros x [= <-]; subst need; split; [apply silently_refl|done].
  all: apply turn_spec; [|intros r s' (? & ? & ?) ? ?; now apply reads_quietly_not]; intros s1 (R1 & W1 & T1) Q1.
  { apply wp_err. now apply reads_quietly_not. }
  destruct event as [first rest| | |code|].
  - apply set_control_spec. set (s2 := (_, snd s1)). destruct (taken_back need first rest reads) as (Hl & Ha & Hempty & Hfull); [lia|].
    assert (quiet s s2) as Q2 by exact Q1. destruct (slice _ _ _) as [|next more] eqn:Em.
    + pose proof (Hempty eq_refl) as Hback.
      eapply wp_bind, wp_mono; [apply (IH (need - len (taken need first rest)) s2); [exact Hback|pose proof (len_nonneg (first :: rest)); lia]|].
      intros [x|e|] s3 (Hp & W3 & T3 & Hx); cbn [bound]; [|apply reads_quietly_not; (done || (cbn in *; congruence))|done].
      apply wp_ret. destruct x as [exit|x]; [apply reads_quietly_not; (done || (cbn in *; congruence))|].
      destruct (Hx x eq_refl) as (Q3 & Hlx & Hax). split; [done|]. split; [cbn in *; congruence|]. split; [cbn in *; congruence|].
      intros y [= <-]. split; [eauto using quiet_trans|]. rewrite len_app, Hlx. split; [lia|]. rewrite <- app_assoc, Hax, Hs. exact Ha.
    + apply wp_ret. split; [done|]. split; [cbn; congruence|]. split; [cbn; congruence|]. intros x [= <-]. split; [done|]. split; [now apply Hfull|].
      rewrite Hs. exact Ha.
  - apply set_control_spec. set (s2 := (_, snd s1)). eapply wp_mono; [now apply IH|]. intros r s3.
    apply reads_quietly_after; [done|done|exact Q1|now rewrite Hs].
  - apply set_control_spec. set (s2 := (_, snd s1)).
    apply while_dormant_spec; [apply poll_gate_control_spec| |].
    + intros s3 (R3 & W3 & T3) Q3. eapply wp_mono; [now apply IH|]. intros r s4. apply reads_quietly_after; [cbn in *; congruence..| |].
      * eapply quiet_trans; [exact Q1|exact Q3].
      * rewrite R3, Hs. done.
    + intros r s3 (R3 & W3 & T3) ? ?. apply reads_quietly_not; (done || (cbn in *; congruence)).
  - apply set_control_spec. apply wp_err. now apply reads_quietly_not.
  - apply wp_err. now apply reads_quietly_not.
Qed.

Lemma read_control_spec need deadline (s : state) :
  0 <= need -> wp (read_control_while_dormant need deadline) (reads_quietly need s) s.
Proof. destruct s as [self w]. now apply (read_dormant_spec (cs_reads (db_control self))). Qed.

(** The control stream ends here. *)
Lemma frame_eof_spec reads deadline (s : state) :
  cs_reads (db_control (fst s)) = reads ->
  wp (frame_eof_loop deadline reads) (fun r s' => r <> Panic /\ cs_sent (db_control (fst s')) = cs_sent (db_control (fst s)) /\
    db_trace (fst s') = db_trace (fst s) /\ (r = Ok (inr tt) -> quiet s s' /\ arrived reads = [])) s.
Proof.
  revert s. induction reads as [|event reads IH]; intros s Hs; cbn [frame_eof_loop];
    (apply turn_spec; [intros s1 (R1 & W1 & T1) Q1|intros r s' (? & ? & ?) ? Hx; split_and!; [done..|]; intros ->; now destruct (Hx tt)]).
  { apply wp_ret. by split_and!. }
  assert (forall s2, cs_reads (db_control (fst s2)) = reads -> cs_sent (db_control (fst s2)) = cs_sent (db_control (fst s)) ->
    db_trace (fst s2) = db_trace (fst s) -> quiet s s2 ->
    wp (frame_eof_loop deadline reads) (fun r s' => r <> Panic /\ cs_sent (db_control (fst s')) = cs_sent (db_control (fst s)) /\
      db_trace (fst s') = db_trace (fst s) /\ (r = Ok (inr tt) -> quiet s s' /\ arrived reads = [])) s2) as Hloop.
  { intros s2 HR HW HT HQ. eapply wp_mono; [now apply IH|]. intros r s3 (? & ? & ? & Hx). split_and!; [done|congruence|congruence|].
    intros Hr. destruct (Hx Hr) as [? ?]. split; [eauto using quiet_trans|done]. }
  destruct event as [first rest| | |code|]; cbn [arrived].
  - apply set_control_spec, wp_err. by split_and!.
  - apply set_control_spec. now apply Hloop.
  - apply set_control_spec. apply while_dormant_spec; [apply poll_gate_control_spec| |].
    + intros s3 (R3 & W3 & T3) Q3. apply Hloop; [cbn in *; congruence..|]. eapply quiet_trans; [exact Q1|exact Q3].
    + intros r s3 (R3 & W3 & T3) ? Hx. split_and!; [done|cbn in *; congruence..|]. intros ->. now destruct (Hx tt).
  - apply set_control_spec, wp_err. by split_and!.
  - apply wp_ret. by split_and!.
Qed.

(** A prefix of [l] is written, and all of it on success. *)
Definition writes_quietly (l : bytes) (s : state) (r : res BrokerEntryError (BrokerGateExit + unit)) (s' : state) : Prop :=
  r <> Panic /\ cs_reads (db_control (fst s')) = cs_reads (db_control (fst s)) /\ db_trace (fst s') = db_trace (fst s) /\
  exists p, p `prefix_of` l /\ cs_sent (db_control (fst s')) = cs_sent (db_control (fst s)) ++ p /\
    (r = Ok (inr tt) -> p = l /\ quiet s s').

Lemma writes_quietly_not l s s' r :
  undisturbed s s' -> r <> Panic -> (forall x, r <> Ok (inr x)) -> writes_quietly l s r s'.
Proof.
  intros (H1 & H2 & H3) Hr Hx. split; [done|]. split; [done|]. split; [done|]. exists []. rewrite app_nil_r. split; [apply prefix_nil|].
  split; [done|]. intros ->. now destruct (Hx tt).
Qed.

Lemma writes_quietly_after l s s1 r s' : undisturbed s s1 -> quiet s s1 -> writes_quietly l s1 r s' -> writes_quietly l s r s'.
Proof.
  intros (H1 & H2 & H3) Hq (Hr & R & T & p & Hp & Hw & Hx). split; [done|]. split; [congruence|]. split; [congruence|]. exists p.
  split; [done|]. split; [congruence|]. intros Hok. destruct (Hx Hok) as [? ?]. eauto using quiet_trans.
Qed.

Lemma write_dormant_spec l deadline sends (s : state) : wp (write_dormant_loop l deadline sends) (writes_quietly l s) s.
Proof.
  revert l s. induction sends as [|event sends IH]; intros [|b l] s; cbn [write_dormant_loop].
  1, 3: apply wp_ret; split; [done|]; split; [done|]; split; [done|]; exists []; rewrite app_nil_r; split; [done|]; split; [done|];
        intros _; split; [done|apply silently_refl].
  all: apply turn_spec; [intros s1 U1 Q1|intros r s' ? ? ?; now apply writes_quietly_not].
  all: eapply wp_mono; [|intros r s' Hr; exact (writes_quietly_after _ _ _ _ _ U1 Q1 Hr)]; apply set_control_spec.
  { apply wp_ret. split; [done|]. split; [done|]. split; [done|]. exists (b :: l). split; [done|]. split; [done|]. intros _. split; [done|apply silently_refl]. }
  set (s2 := (_, snd s1)). assert (undisturbed s1 s2 /\ quiet s1 s2) as [U2 Q2] by (split; [done|apply silently_refl]).
  eapply wp_mono; [|intros r s' Hr; exact (writes_quietly_after _ _ _ _ _ U2 Q2 Hr)].
  destruct event as [more| | | |code].
  - apply set_control_spec. set (s3 := (_, snd s2)). eapply wp_mono; [apply IH|]. intros r s' (Hr & R & T & p & Hp & Hw & Hx).
    split; [done|]. split; [done|]. split; [done|]. exists (take (S more) (b :: l) ++ p). rewrite <- (take_drop (S more) (b :: l)) at 2.
    split; [now apply prefix_app|]. split; [rewrite Hw; cbn; now rewrite <- app_assoc|]. intros Hok. destruct (Hx Hok) as [-> ?].
    split; [now rewrite take_drop|done].
  - apply wp_err. now apply writes_quietly_not.
  - apply IH.
  - apply while_dormant_spec; [apply poll_gate_control_spec| |intros r s' ? ? ?; now apply writes_quietly_not].
    intros s3 U3 Q3. eapply wp_mono; [apply IH|]. intros r s'. now apply writes_quietly_after.
  - apply wp_err. now apply writes_quietly_not.
Qed.

(** The broker has read [frame], all of it and nothing else, and it is the
    frame of [plan]. *)
Definition has_read (s : state) (frame : bytes) (received : ReceivedBrokerLaunchPlan) : Prop :=
  arrived (cs_reads (db_control (fst s))) = le_bytes 4 (len frame) ++ frame /\
  plan_decode_untrusted frame = Ok (rp_plan received) /\ rp_digest received = broker_plan_digest frame /\
  db_wire (rp_deadline received) = bp_deadline (rp_plan received).

(** What staging leaves behind: nothing was written, or it was (a part of) the
    acknowledgement of what was read. *)
Definition stages (s : state) (r : res BrokerEntryError (BrokerGateExit + StagedDormantBroker)) (s' : state) : Prop :=
  (cs_sent (db_control (fst s')) = cs_sent (db_control (fst s)) /\ (forall staged, r <> Ok (inr staged))) \/
  exists frame received ack p, has_read s frame received /\ broker_plan_ack frame = Ok ack /\ p `prefix_of` ack /\
    cs_sent (db_control (fst s')) = cs_sent (db_control (fst s)) ++ p /\
    forall staged, r = Ok (inr staged) ->
      p = ack /\ quiet s s' /\ sd_plan staged = acknowledge_exact_parent received /\ sd_trace staged = db_trace (fst s).

Lemma bind_exit_spec {T V} (m : entry (BrokerGateExit + T)) (k : T -> entry (BrokerGateExit + V)) (P Q : _ -> state -> Prop) s :
  wp m P s -> (forall x s', P (Ok (inr x)) s' -> wp (k x) Q s') ->
  (forall exit s', P (Ok (inl exit)) s' -> Q (Ok (inl exit)) s') -> (forall e s', P (Err e) s' -> Q (Err e) s') ->
  (forall s', P Panic s' -> Q Panic s') -> wp (bind_exit m k) Q s.
Proof.
  intros Hm Hk Hx He Hp. apply wp_bind. eapply wp_mono; [exact Hm|]. intros [[exit|x]|e|] s' HP; cbn [bound]; auto. apply wp_ret. auto.
Qed.

Lemma plan_step_spec {T V} (m : stm W SupervisorWireError T) (k : T -> entry V) (Q : res BrokerEntryError V -> state -> Prop) s :
  (forall x w w', m w = (Ok x, w') -> wp (k x) Q (fst s, w')) -> (forall r w', (forall x, r <> Ok x) -> Q r (fst s, w')) ->
  wp (sbind (plan_step m) k) Q s.
Proof.
  intros Hk He. destruct s as [self w]. unfold wp, sbind, plan_step, on_world, smap_err. destruct (m w) as [[x|e|] w'] eqn:Em; cbn [map_err].
  - exact (Hk x w w' Em).
  - now apply He.
  - now apply He.
Qed.

Lemma set_nonblocking_spec enabled (s : state) :
  wp (set_nonblocking enabled) (fun r s' => r <> Panic /\ undisturbed s s' /\ quiet s s') s.
Proof.
  destruct s as [self w]. unfold wp, set_nonblocking, sbind, sget. cbn.
  destruct (db_flags self) as [|error flags]; [|destruct (error =? 0)]; (split; [done|]); (split; [done|apply silently_refl]).
Qed.

Lemma decode_with_deadline_inv frame deadline received :
  ReceivedBrokerLaunchPlan_decode_with_deadline frame deadline = Ok received ->
  plan_decode_untrusted frame = Ok (rp_plan received) /\ rp_deadline received = deadline /\
  rp_digest received = broker_plan_digest frame /\ db_wire deadline = bp_deadline (rp_plan received).
Proof.
  unfold ReceivedBrokerLaunchPlan_decode_with_deadline. destruct (plan_decode_untrusted frame) as [plan| |]; [|discriminate..]. cbn [rbind].
  destruct (bp_deadline plan =? db_wire deadline) eqn:E; bsplit; cbn [negb]; [|discriminate]. intros [= <-]. done.
Qed.

(** The last part of staging: the acknowledgement. *)
Lemma acknowledge_spec s frame received (s1 : state) :
  has_read s frame received -> cs_sent (db_control (fst s1)) = cs_sent (db_control (fst s)) -> db_trace (fst s1) = db_trace (fst s) -> quiet s s1 ->
  wp (ensure_deadline_live (Some (db_local (rp_deadline received))) >>!
      let! ack := plan_step (slift (broker_plan_ack frame)) in
      bind_exit (write_control_while_dormant ack (db_local (rp_deadline received))) (fun _ =>
      ensure_deadline_live (Some (db_local (rp_deadline received))) >>!
      let! (self, _) := sget in
      sret (inr {| sd_plan := acknowledge_exact_parent received; sd_trace := db_trace self |}))) (stages s) s1.
Proof.
  intros Hread W1 T1 Q1. apply (then_spec _ _ (fun s' => fst s' = fst s1)); [apply deadline_live_spec| |].
  2: { intros e s2 H2. left. split; [congruence|done]. }
  intros _ s2 H2. apply plan_step_spec; [|intros r w' Hr; left; split; [cbn; congruence|intros staged ->; now destruct (Hr (inr staged))]].
  intros ack w w' Hack. unfold slift in Hack. injection Hack as Hack _. set (s3 := (fst s2, w')).
  apply (bind_exit_spec _ _ (writes_quietly ack s3)); [apply (write_dormant_spec ack)| | | |].
  - intros [] s4 (_ & _ & T4 & p & Hp & W4 & Hall). destruct (Hall eq_refl) as [-> Q4].
    apply (then_spec _ _ (fun s' => fst s' = fst s4)); [apply deadline_live_spec| |].
    + intros _ [self w5] H5. cbn in H5. subst self. right. exists frame, received, ack, ack. cbn in *.
      split; [done|]. split; [done|]. split; [done|]. split; [congruence|]. intros staged [= <-]. split; [done|].
      split; [|split; [done|cbn; congruence]]. eapply quiet_trans; [exact Q1|]. unfold quiet in *. cbn. rewrite <- H2. exact Q4.
    + intros e s5 H5. right. exists frame, received, ack, ack. cbn in *. split; [done|]. split; [done|]. split; [done|]. split; [congruence|done].
  - intros exit s4 (_ & _ & T4 & p & Hp & W4 & _). right. exists frame, received, ack, p. cbn in *. split_and!; (done || congruence).
  - intros e s4 (_ & _ & T4 & p & Hp & W4 & _). right. exists frame, received, ack, p. cbn in *. split_and!; (done || congruence).
  - intros s4 (Hp & _). done.
Qed.

(** A staging that ended before anything was written. *)
Lemma stages_not s r s' :
  cs_sent (db_control (fst s')) = cs_sent (db_control (fst s)) -> (forall staged, r <> Ok (inr staged)) -> stages s r s'.
Proof. intros. now left. Qed.

(** Reading in staging: on success go on, otherwise nothing was written. *)
Lemma stage_read_spec need deadline (k : bytes -> entry (BrokerGateExit + StagedDormantBroker)) s s1 :
  0 <= need -> cs_sent (db_control (fst s1)) = cs_sent (db_control (fst s)) -> db_trace (fst s1) = db_trace (fst s) -> quiet s s1 ->
  (forall x s2, len x = need -> x ++ arrived (cs_reads (db_control (fst s2))) = arrived (cs_reads (db_control (fst s1))) ->
     cs_sent (db_control (fst s2)) = cs_sent (db_control (fst s)) -> db_trace (fst s2) = db_trace (fst s) -> quiet s s2 -> wp (k x) (stages s) s2) ->
  wp (bind_exit (read_control_while_dormant need deadline) k) (stages s) s1.
Proof.
  intros Hn W1 T1 Q1 Hk. apply (bind_exit_spec _ _ (reads_quietly need s1)); [now apply read_control_spec| | | |].
  - intros x s2 (_ & W2 & T2 & Hx). destruct (Hx x eq_refl) as (Q2 & Hl & Ha). apply Hk; [done|done|congruence|congruence|eauto using quiet_trans].
  - intros exit s2 (_ & W2 & _ & _). apply stages_not; [congruence|done].
  - intros e s2 (_ & W2 & _ & _). apply stages_not; [congruence|done].
  - intros s2 (Hp & _). done.
Qed.

Lemma stage_plan_spec (s : state) : wp stage_plan (stages s) s.
Proof.
  unfold stage_plan. apply (then_spec _ _ (fun s' => undisturbed s s' /\ quiet s s')); [apply set_nonblocking_spec| |].
  2: { intros e s' [(_ & W1 & _) _]. now apply stages_not. }
  intros _ s1 [(R1 & W1 & T1) Q1]. apply stage_read_spec; [lia|done..|]. intros outer s2 Lo Ao W2 T2 Q2.
  assert (le_bytes 4 (le_val outer) = outer) as Houter by (apply le_bytes_le_val; unfold len in Lo; lia).
  set (frame_len := le_val outer) in *. destruct (256 <=? frame_len) eqn:Emin; bsplit; [|apply wp_err; now apply stages_not].
  destruct (frame_len <=? MAX_BROKER_PLAN_BYTES) eqn:Emax; bsplit; [|apply wp_err; now apply stages_not]. cbn [andb negb].
  apply stage_read_spec; [done..|]. intros prefix s3 Lp Ap W3 T3 Q3.
  apply plan_step_spec; [|intros r w' Hr; apply stages_not; [done|intros staged ->; now destruct (Hr (inr staged))]].
  intros parsed w w' _. set (s4 := (fst s3, w')). destruct (pp_frame_len parsed =? frame_len) eqn:El; cbn [negb];
    [|apply wp_err; now apply stages_not].
  apply stage_read_spec; [unfold BROKER_PLAN_PREFIX_BYTES in *; lia|done..|]. intros remaining s5 Lr Ar W5 T5 Q5.
  set (frame := prefix ++ remaining). set (local := db_local (pp_deadline parsed)).
  apply (bind_exit_spec _ _ (fun r s' => r <> Panic /\ cs_sent (db_control (fst s')) = cs_sent (db_control (fst s)) /\
    db_trace (fst s') = db_trace (fst s) /\ (r = Ok (inr tt) -> quiet s s' /\ arrived (cs_reads (db_control (fst s5))) = []))).
  { destruct s5 as [self5 w5]. eapply wp_mono; [now apply (frame_eof_spec (cs_reads (db_control self5)) local (self5, w5))|].
    intros r s' (? & ? & ? & Hx). split_and!; [done|congruence..|]. intros Hr. destruct (Hx Hr) as [? ?]. eauto using quiet_trans. }
  2: { intros exit s6 (_ & ? & _). now apply stages_not. }
  2: { intros e s6 (_ & ? & _). now apply stages_not. }
  2: { intros s6 (? & _). done. }
  intros [] s6 (_ & W6 & T6 & Hend). destruct (Hend eq_refl) as [Q6 Hend']. rewrite Hend', app_nil_r in Ar.
  apply plan_step_spec; [|intros r w6 Hr; apply stages_not; [done|intros staged ->; now destruct (Hr (inr staged))]].
  intros received w6 w6' Hdec. unfold slift in Hdec. injection Hdec as Hdec _. apply decode_with_deadline_inv in Hdec as (Hd & Hdl & Hdg & Hw).
  apply acknowledge_spec; [|done..]. split_and!; [|done|done|now rewrite Hdl]. unfold frame. cbn [s4 fst] in Ar. rewrite len_app.
  assert (len prefix + len remaining = frame_len) as -> by lia. rewrite Houter, Ar, Ap, Ao. congruence.
Qed.

(** Polling the gate changes only what the kernel has left to report. *)
Lemma poll_gate_spec deadline polls (s : state) :
  wp (poll_gate_loop deadline polls) (fun r s' => r <> Panic /\ db_gate (fst s') = db_gate (fst s)) s.
Proof.
  revert s. induction polls as [|event polls IH]; intros [self w]; unfold wp; cbn [poll_gate_loop]; unfold sbind at 1, on_world at 1, read_instant;
    destruct (instant_now w) as [now w1]; (destruct (deadline <? now); [split; done|]); [split; done|].
  apply (set_control_spec _ _ _ (self, w1)). cbn [fst snd]. set (s1 := (_, w1)).
  destruct event as [gate revents| |code]; [by split| |].
  - apply (then_spec _ _ (fun s' => fst s' = fst s1)); [apply deadline_live_spec| |intros e s2 ->; by split].
    intros _ s2 H2. eapply wp_mono; [apply IH|]. intros r s3 [? Hg]. split; [done|]. now rewrite Hg, H2.
  - destruct (code =? EINTR); [|by split]. apply (IH s1).
Qed.

(** The start byte is the first that the gate brings. *)
Lemma start_spec deadline gate (s : state) :
  db_gate (fst s) = gate ->
  wp (start_loop deadline gate) (fun r s' => r <> Panic /\
    (r = Ok (inr tt) -> silently (db_gate (fst s)) (GateByte x01 :: db_gate (fst s')))) s.
Proof.
  revert s. induction gate as [|event gate IH]; intros s Hg; cbn [start_loop]; apply read_once_then.
  1, 4: intros s' _; apply wp_ret; by split.
  1, 3: intros value s' _ Hv; case_bool_decide as Hb; [apply wp_ret|apply wp_err; by split]; split; [done|]; intros _;
        injection Hb as ->; rewrite Hv; apply silently_refl.
  - intros error event s' _ Hv. congruence.
  - intros error event' s' _ Hv Hq _. rewrite Hg in Hv. injection Hv as <- Hv.
    destruct (error =? EINTR) eqn:E1; bsplit; [|destruct (error =? EAGAIN) eqn:E2; bsplit; [|apply wp_err; by split]].
    + eapply wp_mono; [now apply IH|]. intros r s2 [? Hs]. split; [done|]. intros Hr. eapply silently_trans; [apply Hq; auto|auto].
    + apply (then_spec _ _ (fun s2 => db_gate (fst s2) = db_gate (fst s'))); [destruct s'; apply poll_gate_spec| |intros e s2 _; by split].
      intros _ s2 H2. eapply wp_mono; [apply IH; congruence|]. intros r s3 [? Hs]. split; [done|]. intros Hr.
      eapply silently_trans; [apply Hq; auto|]. rewrite <- H2. auto.
Qed.

(** Nothing follows it. *)
Lemma silent_spec deadline gate (s : state) :
  db_gate (fst s) = gate -> wp (silent_loop deadline gate) (fun r s' => r <> Panic /\ (r = Ok (inr tt) -> quiet s s')) s.
Proof.
  revert s. induction gate as [|event gate IH]; intros s Hg; cbn [silent_loop]; apply read_once_then.
  1, 4: intros s' _; apply wp_ret; by split.
  1, 3: intros value s' _ Hv; apply wp_err; by split.
  - intros error event s' _ Hv. congruence.
  - intros error event' s' _ Hv Hq _. rewrite Hg in Hv. injection Hv as <- Hv.
    destruct (error =? EINTR) eqn:E1; bsplit; [|destruct (error =? EAGAIN) eqn:E2; bsplit; [|apply wp_err; by split]].
    + eapply wp_mono; [now apply IH|]. intros r s2 [? Hs]. split; [done|]. intros Hr. eapply quiet_trans; [apply Hq; auto|auto].
    + apply (then_spec _ _ (fun s2 => quiet s s2)).
      * eapply wp_mono; [apply set_nonblocking_spec|]. intros r s2 (? & _ & H2). split; [done|]. eapply quiet_trans; [apply Hq; auto|done].
      * intros _ s2 H2. apply (then_spec _ _ (fun s' => fst s' = fst s2)); [apply deadline_live_spec| |intros e s3 _; by split].
        intros _ s3 H3. apply wp_ret. split; [done|]. intros _. unfold quiet. now rewrite H3.
      * intros e s2 _. by split.
Qed.

Lemma activation_until_spec deadline (s : state) :
  wp (wait_for_activation_until deadline) (fun r s' => r <> Panic /\ (r = Ok (inr tt) ->
    exists gate, silently (db_gate (fst s)) (GateByte x01 :: gate) /\ silently gate (db_gate (fst s')))) s.
Proof.
  apply (then_spec _ _ (quiet s)).
  - eapply wp_mono; [apply set_nonblocking_spec|]. intros r s1 (? & _ & ?). by split.
  - intros _ [self w] H1. unfold wp at 1, sbind at 1, sget at 1.
    apply (bind_exit_spec _ _ (fun r s' => r <> Panic /\ (r = Ok (inr tt) -> silently (db_gate self) (GateByte x01 :: db_gate (fst s'))))).
    + now apply (start_spec deadline (db_gate self) (self, w)).
    + intros [] [self2 w2] [_ H2]. specialize (H2 eq_refl). unfold wp at 1, sbind at 1, sget at 1.
      pose proof (silent_spec deadline (db_gate self2) (self2, w2) eq_refl) as H3. unfold wp in H3. destruct (silent_loop _ _ _) as [r s3].
      destruct H3 as [? H3]. split; [done|]. intros Hr. exists (db_gate self2). split; [eapply silently_trans; [exact H1|exact H2]|exact (H3 Hr)].
    + intros exit s2 [? _]. by split.
    + intros e s2 [? _]. by split.
    + intros s2 [? _]. by split.
  - intros e s1 _. by split.
Qed.

Lemma wait_for_activation_spec staged (s : state) :
  wp (wait_for_activation staged) (fun r s' => r <> Panic /\ forall active, r = Ok (inr active) ->
    (exists gate, silently (db_gate (fst s)) (GateByte x01 :: gate) /\ silently gate (db_gate (fst s'))) /\
    ab_plan active = activate (sd_plan staged) /\ ab_trace active = sd_trace staged) s.
Proof.
  unfold wait_for_activation.
  apply (bind_exit_spec _ _ (fun r s' => r <> Panic /\ (r = Ok (inr tt) ->
    exists gate, silently (db_gate (fst s)) (GateByte x01 :: gate) /\ silently gate (db_gate (fst s'))))).
  - apply activation_until_spec.
  - intros [] s1 [_ H1]. apply (then_spec _ _ (fun s' => fst s' = fst s1)); [apply deadline_live_spec| |intros e s2 _; by split].
    intros _ s2 H2. apply wp_ret. split; [done|]. intros active [= <-]. rewrite H2. auto.
  - intros exit s1 [? _]. by split.
  - intros e s1 [? _]. by split.
  - intros s1 [? _]. done.
Qed.

(** C28: A broker that becomes active followed the protocol, whatever its service
    and the kernel did: it read one whole frame and the end of the stream, the
    frame is canonical and its digest was acknowledged in full while the gate was
    silent; then exactly one byte came through the gate, the start byte, and the
    plan it acts on is the plan of that frame with its digest and deadline. *)
Theorem active_after_start self w staged self1 w1 active self2 w2 :
  stage_plan (self, w) = (Ok (inr staged), (self1, w1)) ->
  wait_for_activation staged (self1, w1) = (Ok (inr active), (self2, w2)) ->
  exists frame ack noise noise',
    arrived (cs_reads (db_control self)) = le_bytes 4 (len frame) ++ frame /\
    plan_decode_untrusted frame = Ok (ep_plan (ab_plan active)) /\
    ep_digest (ab_plan active) = broker_plan_digest frame /\
    db_wire (ep_deadline (ab_plan active)) = bp_deadline (ep_plan (ab_plan active)) /\
    broker_plan_ack frame = Ok ack /\ cs_sent (db_control self1) = cs_sent (db_control self) ++ ack /\
    db_gate self = noise ++ db_gate self1 /\
    db_gate self1 = noise' ++ [GateByte x01] ++ drop (S (length noise')) (db_gate self1) /\
    silently (drop (S (length noise')) (db_gate self1)) (db_gate self2) /\
    Forall finds_nothing noise /\ Forall finds_nothing noise' /\
    ab_trace active = db_trace self.
Proof.
  intros Hstage Hwait. pose proof (stage_plan_spec (self, w)) as Hs. unfold wp in Hs. rewrite Hstage in Hs.
  pose proof (wait_for_activation_spec staged (self1, w1)) as Ha. unfold wp in Ha. rewrite Hwait in Ha.
  destruct Ha as (_ & Ha). destruct (Ha active eq_refl) as ((gate & (noise' & Hg & Hn') & Hq) & Hp & Ht). clear Ha.
  destruct Hs as [[_ Hs]|(frame & received & ack & p & (Harr & Hd & Hdg & Hw) & Hack & _ & Hsent & Hok)]; [now destruct (Hs staged)|].
  destruct (Hok staged eq_refl) as (-> & (noise & Hg0 & Hn) & Hplan & Htr). cbn [fst] in *.
  exists frame, ack, noise, noise'. rewrite Hp, Hplan. cbn.
  assert (drop (S (length noise')) (db_gate self1) = gate) as ->.
  { rewrite Hg, drop_app_ge by lia. now replace (S (length noise') - length noise')%nat with 1%nat by lia. }
  by split_and!; [..|congruence].
Qed.

End Entry.

(** ** Both ends *)

Section Exchange.
Context {H : Sha256}.
Context {W : Type} {C : Clock W}.
Context {V : Type} {Cv : Clock V} {U : UptimeClock V}.

Lemma frame_prefix_eq frame frame' :
  le_bytes 4 (len frame') ++ frame' `prefix_of` le_bytes 4 (len frame) ++ frame ->
  len frame <= U32_MAX -> len frame' <= U32_MAX -> frame' = frame.
Proof.
  intros [rest Hr] Hl Hl'. rewrite <- app_assoc in Hr. apply app_inj_1 in Hr as [Hl2 Hr]; [|now rewrite !length_le_bytes].
  apply (f_equal le_val) in Hl2. pose proof (len_nonneg frame). pose proof (len_nonneg frame').
  rewrite !le_val_le_bytes in Hl2 by (change (256 ^ Z.of_nat 4) with (U32_MAX + 1); lia).
  apply (f_equal len) in Hr as Hr'. rewrite len_app in Hr'. assert (rest = []) as -> by (apply len_zero; lia).
  now rewrite app_nil_r in Hr.
Qed.

(** C23: When the service is told that its plan was acknowledged, the broker has
    read exactly the frame it sent, and that frame is a canonical plan; if the
    broker is then staged it holds that plan, with the digest the service
    expects and the deadline the plan names, and no activation reached it before.
    Each end may have seen less than the other wrote, never anything else. *)
Theorem plan_handed_over frame deadline stream w stream' w' self v r self' v' :
  send_plan_and_require_ack frame deadline (stream, w) = (Ok tt, (stream', w')) ->
  stage_plan (self, v) = (r, (self', v')) ->
  cs_sent stream = [] -> cs_sent (db_control self) = [] ->
  arrived (cs_reads (db_control self)) `prefix_of` cs_sent stream' ->
  arrived (cs_reads stream) `prefix_of` cs_sent (db_control self') ->
  cs_ended stream' = true /\
  exists plan, plan_decode_untrusted frame = Ok plan /\ arrived (cs_reads (db_control self)) = cs_sent stream' /\
    forall staged, r = Ok (inr staged) ->
      kp_plan (sd_plan staged) = plan /\ kp_digest (sd_plan staged) = broker_plan_digest frame /\
      db_wire (kp_deadline (sd_plan staged)) = bp_deadline plan /\ silently (db_gate self) (db_gate self').
Proof.
  intros Hsend Hstage Hs0 Hb0 Hin Hout.
  pose proof (send_plan_spec frame deadline (stream, w)) as Hs. unfold wp in Hs. rewrite Hsend in Hs.
  destruct (Hs tt eq_refl) as (Hlen & Hsent & Hend & ack & rest & Hack & Hal & Harr). cbn [fst] in *. rewrite Hs0 in Hsent. cbn in Hsent.
  split; [done|]. pose proof (stage_plan_spec (self, v)) as Hb. unfold wp in Hb. rewrite Hstage in Hb.
  destruct Hb as [[Hb _]|(frame' & received & ack' & p & (Harr' & Hd & Hdg & Hw) & Hack' & Hp & Hsent' & Hok)]; cbn [fst] in *.
  - exfalso. rewrite Hb, Hb0, Harr in Hout. apply prefix_nil_inv in Hout. apply app_eq_nil in Hout as [-> _]. discriminate Hal.
  - assert (frame' = frame) as ->.
    { apply frame_prefix_eq; [congruence|done|]. apply plan_decode_iff in Hd as (_ & _ & _ & Hd). unfold MAX_BROKER_PLAN_BYTES in Hd. ulia. }
    exists (rp_plan received). split; [done|]. split; [congruence|]. intros staged Hr. destruct (Hok staged Hr) as (_ & Hq & -> & _). done.
Qed.

End Exchange.

(** ** An exchange, in pieces on both sides *)

#[local] Existing Instance ticking.
#[local] Existing Instance ticking_uptime.
#[local] Existing Instance first_bytes.

Definition idle : ControlStream :=
  {| cs_reads := []; cs_sends := []; cs_polls := []; cs_shutdown := None; cs_sent := []; cs_ended := false |}.
Definition sent_frame : bytes := le_bytes 4 (len plan_bytes) ++ plan_bytes.
Definition plan_ack : bytes := ACK_MAGIC ++ broker_plan_digest plan_bytes.

Definition service_end : ControlStream :=
  {| cs_reads := WouldBlock :: arrives (slice plan_ack 0 7) ++ Interrupted :: arrives (slice plan_ack 7 (len plan_ack));
     cs_sends := [Takes 1; SendInterrupted; Takes 300; SendBlocks]; cs_polls := [PollTimeout]; cs_shutdown := None; cs_sent := []; cs_ended := false |}.
Definition broker_end : DormantBrokerProcess :=
  {| db_gate := replicate 9 GateEmpty ++ [GateInterrupted] ++ replicate 3 GateEmpty ++ [GateEmpty; GateByte x01; GateEmpty];
     db_control := with_cs_sends [Takes 3; SendBlocks]
       (with_cs_reads (arrives (slice sent_frame 0 100) ++ WouldBlock :: arrives (slice sent_frame 100 (len sent_frame))) idle);
     db_trace := idle; db_flags := [] |}.

(** What each end does. *)
Definition served := send_plan_and_require_ack plan_bytes 4000 (service_end, 10%nat).
Definition staged_plan_of := stage_plan (broker_end, 40%nat).

Definition staged_of (r : res BrokerEntryError (BrokerGateExit + StagedDormantBroker)) : StagedDormantBroker :=
  match r with
  | Ok (inr staged) => staged
  | _ => {| sd_plan := {| kp_plan := plan; kp_deadline := {| db_wire := 0; db_local := 0 |}; kp_digest := [] |}; sd_trace := idle |}
  end.

Lemma plan_handed_over_witness :
  cs_ended (fst (snd served)) = true /\
  exists found, plan_decode_untrusted plan_bytes = Ok found /\
    kp_plan (sd_plan (staged_of (fst staged_plan_of))) = found.
Proof.
  destruct (plan_handed_over plan_bytes 4000 service_end (10%nat) (fst (snd served)) (snd (snd served)) broker_end (40%nat)
    (fst staged_plan_of) (fst (snd staged_plan_of)) (snd (snd staged_plan_of))) as (He & found & Hd & _ & Hs).
  - vm_compute. reflexivity.
  - vm_compute. reflexivity.
  - reflexivity.
  - reflexivity.
  - exists []. vm_compute. reflexivity.
  - exists []. vm_compute. reflexivity.
  - split; [exact He|]. exists found. split; [exact Hd|]. apply (Hs (staged_of (fst staged_plan_of))). vm_compute. reflexivity.
Defined.

Definition activated_by := wait_for_activation (staged_of (fst staged_plan_of)) (snd staged_plan_of).
Definition active_of (r : res BrokerEntryError (BrokerGateExit + ActiveBrokerProcess)) : ActiveBrokerProcess :=
  match r with
  | Ok (inr active) => active
  | _ => {| ab_plan := {| ep_plan := plan; ep_deadline := {| db_wire := 0; db_local := 0 |}; ep_digest := [] |}; ab_trace := idle |}
  end.

Lemma active_after_start_witness :
  activated_by = (Ok (inr (active_of (fst activated_by))), snd activated_by) /\
  exists frame, arrived (cs_reads (db_control broker_end)) = le_bytes 4 (len frame) ++ frame /\
    plan_decode_untrusted frame = Ok (ep_plan (ab_plan (active_of (fst activated_by)))).
Proof.
  split; [vm_compute; reflexivity|].
  destruct (active_after_start broker_end (40%nat) (staged_of (fst staged_plan_of)) (fst (snd staged_plan_of)) (snd (snd staged_plan_of))
    (active_of (fst activated_by)) (fst (snd activated_by)) (snd (snd activated_by))) as (frame & ack & noise & noise' & Ha & Hp & _).
  - vm_compute. reflexivity.
  - vm_compute. reflexivity.
  - exists frame. split; [exact Ha|exact Hp].
Defined.
