(* ===== verification/Launcher.v ===== *)
(** * Launcher: the broker and the one child it traces
    ([supervisor_broker_launcher.rs], [TaskAuditIdentity] of [bootstrap.rs])

    The launcher stops itself, is identified, runs to its [execve] with the plan
    on its descriptor 4, is held at the trap, and the image it became is
    authenticated, reported and committed before its first instruction runs.
    Whatever goes wrong, [Drop for ExactLauncher] ends the child and waits until
    the kernel has nothing more to say of it.

    What the kernel does is scripted: the outcomes of the coming waits, [ptrace]
    calls, signals, polls (error numbers, 0 for success), plan writes and
    identity captures. Where a script ends the child has exited (a wait that may
    not block finds status 0, one that may finds [ECHILD]), calls succeed, writes
    are taken whole and nothing can be captured. [lk_log] is not in the code: it
    is what was done to the child and what it reported. *)

From S2P Require Import Prelude Bytes Negotiation Native SupervisorWire Supervisor BrokerReport BrokerPlan Watchdog AuthWire AuthPool Child BrokerControl.

Definition SIGSTOP : Z := 17.
Definition SIGTRAP : Z := 5.
Definition EPIPE : Z := 32.

Inductive LauncherWaitError :=
| InvalidPid
| WaitError_ServiceGone
| InvalidGate
| DeadlineExpired
| UnexpectedStatus
| IdentityTransition
| Native (error : Z).

Inductive LauncherSignatureError (F : Type) :=
| Signature_Launcher (error : LauncherWaitError)
| Signature_Pipe (error : AuthWorkerPipeFailure)
| Signature_Auth (error : AuthAdapterError F)
| Signature_BindingMismatch.
Arguments Signature_Launcher {F} error.
Arguments Signature_Pipe {F} error.
Arguments Signature_Auth {F} error.
Arguments Signature_BindingMismatch {F}.

Inductive ExactPhase :=
| AwaitingInitialStop
| UnprovenInitialStop
| AwaitingExecTrap
| ObservedTracedStop
| ExecTrapHeld
| RunningTarget
| Reaped.

Inductive ExactTargetExit := Exited (code : Z) | Signaled (signal : Z).

(** ** Identities *)

(** The eight words of an audit token, and the path of the image. *)
Record TaskAuditIdentity := { ti_values : list Z; ti_executable : bytes }.

Definition audit_value (self : TaskAuditIdentity) (i : nat) : Z := nth i (ti_values self) 0.

Definition audit_identity (self : TaskAuditIdentity) : bytes := concat (map (le_bytes 4) (take 8 (ti_values self))).

Definition proves_exact_process_image (self : TaskAuditIdentity)
  (pid expected_ruid expected_euid expected_rgid expected_egid : Z) (expected_executable : bytes) : bool :=
  match try_from U32_MAX pid with
  | None => false
  | Some expected_pid =>
      (audit_value self 5 =? expected_pid) && (audit_value self 1 =? expected_euid) && (audit_value self 2 =? expected_egid)
      && (audit_value self 3 =? expected_ruid) && (audit_value self 4 =? expected_rgid)
      && bool_decide (ti_executable self = expected_executable)
  end.

Definition proves_exec_transition_from (self before : TaskAuditIdentity) (pid expected_euid expected_egid : Z)
  (expected_executable : bytes) : bool :=
  match try_from U32_MAX pid with
  | None => false
  | Some expected_pid =>
      (audit_value before 5 =? expected_pid) && (audit_value self 5 =? expected_pid)
      && negb (audit_value before 7 =? audit_value self 7)
      && (audit_value self 1 =? expected_euid) && (audit_value self 2 =? expected_egid)
      && (audit_value self 3 =? expected_euid) && (audit_value self 4 =? expected_egid)
      && bool_decide (ti_executable self = expected_executable)
  end.

Record FixedLauncherIdentity := {
  fl_real_uid : Z;
  fl_effective_uid : Z;
  fl_real_gid : Z;
  fl_effective_gid : Z;
  fl_executable : bytes
}.

(** ** The kernel *)

Inductive TraceWait := Reports (status : Z) | NoReport | WaitFailed (error : Z).

Inductive TraceEvent :=
| Reported (pid status : Z)
| Gone (pid : Z)
| Captured (pid : Z) (identity : TaskAuditIdentity)
| Continued (pid error : Z)
| TraceKilled (pid error : Z)
| Signalled (pid signal error : Z)
| PlanClosed (written : bytes)
| DeathClosed.

Record LauncherKernel := {
  lk_waits : list TraceWait;
  lk_ptraces : list Z;
  lk_kills : list Z;
  lk_polls : list Z;
  lk_writes : list SendEvent;
  lk_identities : list (option TaskAuditIdentity);
  lk_log : list TraceEvent
}.

Definition log_trace (event : TraceEvent) (k : LauncherKernel) : LauncherKernel :=
  {| lk_waits := lk_waits k; lk_ptraces := lk_ptraces k; lk_kills := lk_kills k; lk_polls := lk_polls k;
     lk_writes := lk_writes k; lk_identities := lk_identities k; lk_log := lk_log k ++ [event] |}.
Definition take_wait (k : LauncherKernel) : LauncherKernel :=
  {| lk_waits := tail (lk_waits k); lk_ptraces := lk_ptraces k; lk_kills := lk_kills k; lk_polls := lk_polls k;
     lk_writes := lk_writes k; lk_identities := lk_identities k; lk_log := lk_log k |}.
Definition take_ptrace (k : LauncherKernel) : LauncherKernel :=
  {| lk_waits := lk_waits k; lk_ptraces := tail (lk_ptraces k); lk_kills := lk_kills k; lk_polls := lk_polls k;
     lk_writes := lk_writes k; lk_identities := lk_identities k; lk_log := lk_log k |}.
Definition take_kill (k : LauncherKernel) : LauncherKernel :=
  {| lk_waits := lk_waits k; lk_ptraces := lk_ptraces k; lk_kills := tail (lk_kills k); lk_polls := lk_polls k;
     lk_writes := lk_writes k; lk_identities := lk_identities k; lk_log := lk_log k |}.
Definition take_poll (k : LauncherKernel) : LauncherKernel :=
  {| lk_waits := lk_waits k; lk_ptraces := lk_ptraces k; lk_kills := lk_kills k; lk_polls := tail (lk_polls k);
     lk_writes := lk_writes k; lk_identities := lk_identities k; lk_log := lk_log k |}.
Definition take_write (k : LauncherKernel) : LauncherKernel :=
  {| lk_waits := lk_waits k; lk_ptraces := lk_ptraces k; lk_kills := lk_kills k; lk_polls := lk_polls k;
     lk_writes := tail (lk_writes k); lk_identities := lk_identities k; lk_log := lk_log k |}.
Definition take_identity (k : LauncherKernel) : LauncherKernel :=
  {| lk_waits := lk_waits k; lk_ptraces := lk_ptraces k; lk_kills := lk_kills k; lk_polls := lk_polls k;
     lk_writes := lk_writes k; lk_identities := tail (lk_identities k); lk_log := lk_log k |}.

(** ** The authority *)

(** [RetainedLauncherChannels]: the frame that waits for delivery; the death
    writer is open as long as the channels are there. *)
Record RetainedLauncherChannels := { rc_plan : option bytes }.

(** [el_process] holds the gate, and in place of the control stream, which is
    closed by now, the trace stream. *)
Record ExactLauncher := {
  el_pid : Z;
  el_phase : ExactPhase;
  el_plan : ExactParentBrokerLaunchPlan;
  el_process : DormantBrokerProcess;
  el_expected_launcher : FixedLauncherIdentity;
  el_channels : option RetainedLauncherChannels
}.

Definition with_phase (phase : ExactPhase) (self : ExactLauncher) : ExactLauncher :=
  {| el_pid := el_pid self; el_phase := phase; el_plan := el_plan self; el_process := el_process self;
     el_expected_launcher := el_expected_launcher self; el_channels := el_channels self |}.
Definition with_channels (channels : option RetainedLauncherChannels) (self : ExactLauncher) : ExactLauncher :=
  {| el_pid := el_pid self; el_phase := el_phase self; el_plan := el_plan self; el_process := el_process self;
     el_expected_launcher := el_expected_launcher self; el_channels := channels |}.
Definition with_process_state (process : DormantBrokerProcess) (self : ExactLauncher) : ExactLauncher :=
  {| el_pid := el_pid self; el_phase := el_phase self; el_plan := el_plan self; el_process := process;
     el_expected_launcher := el_expected_launcher self; el_channels := el_channels self |}.

Definition el_deadline (self : ExactLauncher) : Z := db_local (ep_deadline (el_plan self)).

Definition traced_stop_signal (status : Z) : option Z :=
  if Z.land status 255 =? 127 then Some (Z.land (Z.shiftr status 8) 255) else None.

Definition exact_target_exit (status : Z) : option ExactTargetExit :=
  let terminal := Z.land status 127 in
  if terminal =? 0 then Some (Exited (Z.land (Z.shiftr status 8) 255)) else
  if negb (terminal =? 127) then Some (Signaled terminal) else None.

Section Launcher.
Context {W : Type} {C : Clock W} {U : UptimeClock W}.

Abbreviation state := (ExactLauncher * LauncherKernel * W)%type.
Abbreviation launch T := (stm state LauncherWaitError T).
Abbreviation entry T := (stm state BrokerEntryError T).

Definition self_now {E} : stm state E ExactLauncher := let! (self, _, _) := sget in sret self.
Definition change_self {E} (f : ExactLauncher -> ExactLauncher) : stm state E unit :=
  smodify (fun '(self, k, w) => (f self, k, w)).
Definition change_kernel {E} (f : LauncherKernel -> LauncherKernel) : stm state E unit :=
  smodify (fun '(self, k, w) => (self, f k, w)).
Definition set_phase {E} (phase : ExactPhase) : stm state E unit := change_self (with_phase phase).

(** Code that uses the gate and the trace stream. *)
Definition on_process {E T} (m : stm (DormantBrokerProcess * W) E T) : stm state E T :=
  fun '(self, k, w) =>
    let '(r, (process, w)) := m (el_process self, w) in (r, (with_process_state process self, k, w)).

(** *** System calls *)

Definition wait_child {E} (nohang : bool) : stm state E TraceWait :=
  let! (self, k, _) := sget in
  let outcome := match lk_waits k with
                 | [] => if nohang : bool then Reports 0 else WaitFailed ECHILD
                 | outcome :: _ => outcome
                 end in
  change_kernel take_wait >>!
  match outcome with
  | Reports status => change_kernel (log_trace (Reported (el_pid self) status))
  | WaitFailed error => if error =? ECHILD then change_kernel (log_trace (Gone (el_pid self))) else sret tt
  | NoReport => sret tt
  end >>!
  sret outcome.

Definition ptrace_continue {E} : stm state E Z :=
  let! (self, k, _) := sget in
  let error := hd 0 (lk_ptraces k) in
  change_kernel take_ptrace >>! change_kernel (log_trace (Continued (el_pid self) error)) >>! sret error.

Definition ptrace_kill {E} : stm state E Z :=
  let! (self, k, _) := sget in
  let error := hd 0 (lk_ptraces k) in
  change_kernel take_ptrace >>! change_kernel (log_trace (TraceKilled (el_pid self) error)) >>! sret error.

Definition kill_child {E} (signal : Z) : stm state E Z :=
  let! (self, k, _) := sget in
  let error := hd 0 (lk_kills k) in
  change_kernel take_kill >>! change_kernel (log_trace (Signalled (el_pid self) signal error)) >>! sret error.

(** [capture_task_audit_identity]. *)
Definition capture {E} : stm state E (option TaskAuditIdentity) :=
  let! (self, k, _) := sget in
  let identity := match lk_identities k with [] => None | identity :: _ => identity end in
  change_kernel take_identity >>!
  match identity with Some identity => change_kernel (log_trace (Captured (el_pid self) identity)) | None => sret tt end >>!
  sret identity.

(** *** Ending the child *)

Definition exact_signal {E} (signal : Z) : stm state E unit :=
  let! error := kill_child signal in
  if negb (error =? 0) && negb (error =? ESRCH) then slift Panic else sret tt.

Definition exact_ptrace_kill {E} : stm state E unit :=
  let! error := ptrace_kill in
  if negb (error =? 0) && negb (error =? ESRCH) then slift Panic else sret tt.

Definition exact_unproven_stop_kill {E} : stm state E unit :=
  let! error := ptrace_kill in
  if error =? 0 then sret tt else exact_signal SIGKILL.

(** Each turn uses up one scripted wait. *)
Fixpoint drain_loop {E} (waits : list TraceWait) : stm state E unit :=
  let again := match waits with _ :: waits => drain_loop waits | [] => slift Panic end in
  let! outcome := wait_child false in
  match outcome with
  | Reports status =>
      match traced_stop_signal status with Some _ => exact_ptrace_kill | None => sret tt end >>! again
  | WaitFailed error => if error =? EINTR then again else if error =? ECHILD then sret tt else slift Panic
  | NoReport => slift Panic
  end.

Definition drain_exact_child {E} : stm state E unit :=
  let! (_, k, _) := sget in drain_loop (lk_waits k).

(** [drop(self.channels.take())]: the plan writer first. *)
Definition drop_channels {E} : stm state E unit :=
  let! self := self_now in
  change_self (with_channels None) >>!
  match el_channels self with
  | Some channels =>
      match rc_plan channels with Some _ => change_kernel (log_trace (PlanClosed [])) | None => sret tt end >>!
      change_kernel (log_trace DeathClosed)
  | None => sret tt
  end.

(** [Drop for ExactLauncher]. *)
Definition drop_launcher {E} : stm state E unit :=
  drop_channels >>!
  let! self := self_now in
  let drained (ending : stm state E unit) := ending >>! drain_exact_child >>! set_phase Reaped in
  match el_phase self with
  | Reaped => sret tt
  | AwaitingInitialStop => drained (exact_signal SIGKILL)
  | UnprovenInitialStop => drained exact_unproven_stop_kill
  | AwaitingExecTrap | RunningTarget => drained (exact_signal SIGSTOP)
  | ObservedTracedStop | ExecTrapHeld => drained exact_ptrace_kill
  end.

(** A method that consumes the authority: an error drops it. *)
Definition consuming {E T} (m : stm state E T) : stm state E T :=
  fun s =>
    match m s with
    | (Err e, s) => (drop_launcher >>! serr e) s
    | outcome => outcome
    end.

(** So does an exit of the gate. *)
Definition or_exit {E} (m : stm state E (BrokerGateExit + unit)) : stm state E (BrokerGateExit + unit) :=
  let! result := m in
  match result with inl exit => drop_launcher >>! sret (inl exit) | inr _ => sret (inr tt) end.

(** *** Gate, deadline, polls *)

Definition gate_failure (error : BrokerEntryError) : LauncherWaitError :=
  match error with Entry_Descriptor error => Native error | _ => Native 0 end.

Definition set_gate_nonblocking : launch unit := on_process (smap_err gate_failure (set_nonblocking true)).

Fixpoint probe_gate_loop (gate : list GateEvent) : launch unit :=
  let! result := on_process read_once in
  match result with
  | inl None => serr WaitError_ServiceGone
  | inl (Some _) => serr InvalidGate
  | inr error =>
      if error =? EINTR then match gate with _ :: gate => probe_gate_loop gate | [] => slift Panic end else
      if error =? EAGAIN then sret tt else
      serr (Native error)
  end.

Definition probe_gate : launch unit :=
  let! self := self_now in probe_gate_loop (db_gate (el_process self)).

Definition ensure_deadline : launch unit :=
  let! self := self_now in
  let! now := on_world read_instant in
  if el_deadline self <=? now then serr DeadlineExpired else sret tt.

(** [poll_gate_slice], [poll_plan_slice], [poll_signature_slice]: they wait a
    millisecond at most, and only a failure of the call matters. *)
Definition poll_slice : launch unit :=
  let! (_, k, _) := sget in
  let error := hd 0 (lk_polls k) in
  change_kernel take_poll >>!
  if (error =? 0) || (error =? EINTR) then sret tt else serr (Native error).

(** *** Stops *)

Fixpoint exact_stop_loop (expected_signal : Z) (waits : list TraceWait) : launch unit :=
  let again := match waits with _ :: waits => exact_stop_loop expected_signal waits | [] => slift Panic end in
  probe_gate >>! ensure_deadline >>!
  let! outcome := wait_child true in
  match outcome with
  | Reports status =>
      match traced_stop_signal status with
      | Some signal =>
          let! self := self_now in
          match el_phase self with
          | AwaitingInitialStop => set_phase UnprovenInitialStop
          | AwaitingExecTrap => set_phase ObservedTracedStop
          | _ => slift Panic
          end >>!
          if signal =? expected_signal then sret tt else serr UnexpectedStatus
      | None => set_phase Reaped >>! drain_exact_child >>! serr UnexpectedStatus
      end
  | WaitFailed error =>
      if error =? EINTR then again else if error =? ECHILD then slift Panic else serr (Native error)
  | NoReport => poll_slice >>! again
  end.

Definition wait_for_exact_stop (expected_signal : Z) : launch unit :=
  let! (_, k, _) := sget in exact_stop_loop expected_signal (lk_waits k).

Definition wait_initial_stop : launch TaskAuditIdentity :=
  consuming
   (set_gate_nonblocking >>!
    wait_for_exact_stop SIGSTOP >>!
    probe_gate >>! ensure_deadline >>!
    let! captured := capture in
    let! before_exec := slift (ok_or captured IdentityTransition) in
    probe_gate >>! ensure_deadline >>!
    let! self := self_now in
    let expected := el_expected_launcher self in
    if negb (proves_exact_process_image before_exec (el_pid self) (fl_real_uid expected) (fl_effective_uid expected)
               (fl_real_gid expected) (fl_effective_gid expected) (fl_executable expected))
    then serr IdentityTransition else
    sret before_exec).

Definition prove_trace_and_continue_to_exec : launch unit :=
  consuming
   (probe_gate >>! ensure_deadline >>!
    let! error := ptrace_continue in
    if negb (error =? 0) then serr (Native error) else
    set_phase AwaitingExecTrap >>!
    probe_gate >>! ensure_deadline).

(** *** The plan *)

(** [written] is what the launcher was given before; when the delivery ends, the
    writer is dropped. *)
Fixpoint deliver_loop (written frame : bytes) (writes : list SendEvent) : launch unit :=
  let again := match writes with _ :: writes => deliver_loop written frame writes | [] => slift Panic end in
  let closing {T} (m : launch T) : launch T := change_kernel (log_trace (PlanClosed written)) >>! m in
  match frame with
  | [] => closing (sret tt)
  | _ :: _ =>
      fun s =>
        match (probe_gate >>! ensure_deadline) s with
        | (Panic, s) => (Panic, s)
        | (Err e, s) => closing (serr e) s
        | (Ok _, s) =>
            (change_kernel take_write >>!
             match writes with
             | [] => change_kernel (log_trace (PlanClosed (written ++ frame)))
             | Takes more :: writes => deliver_loop (written ++ take (S more) frame) (drop (S more) frame) writes
             | TakesNothing :: _ => closing (serr UnexpectedStatus)
             | SendInterrupted :: _ => again
             | SendBlocks :: _ =>
                 fun s => match poll_slice s with
                          | (Ok _, s) => again s
                          | (Err e, s) => closing (serr e) s
                          | (Panic, s) => (Panic, s)
                          end
             | SendFails code :: _ =>
                 closing (serr (if code =? EPIPE then UnexpectedStatus else Native code))
             end) s
        end
  end.

Definition deliver_plan : launch unit :=
  let! (self, k, _) := sget in
  match el_channels self with
  | Some {| rc_plan := Some frame |} =>
      change_self (with_channels (Some {| rc_plan := None |})) >>!
      deliver_loop [] frame (lk_writes k) >>!
      probe_gate >>! ensure_deadline
  | _ => slift Panic
  end.

Definition wait_exec_trap (before_exec : TaskAuditIdentity) : launch TaskAuditIdentity :=
  consuming
   (wait_for_exact_stop SIGTRAP >>!
    set_phase ExecTrapHeld >>!
    probe_gate >>! ensure_deadline >>!
    let! captured := capture in
    let! after_exec := slift (ok_or captured IdentityTransition) in
    let! self := self_now in
    let plan := ep_plan (el_plan self) in
    if negb (proves_exec_transition_from after_exec before_exec (el_pid self) (bp_effective_uid plan) (bp_effective_gid plan)
               (bp_installed_executable plan))
    then serr IdentityTransition else
    probe_gate >>! ensure_deadline >>!
    sret after_exec).

(** *** The report and its commit *)

Definition report_failure (error : BrokerTraceReportError) : SupervisorWireError :=
  match error with
  | ReportError_DeadlineExpired => WireError_LimitExceeded
  | ReportError_Binding => WireError_ReplayOrSubstitution
  | ReportError_Malformed | ReportError_InvalidTransition | ReportError_Io _ => WireError_Malformed
  end.

(** The half-close that ends the report. *)
Definition finish_broker_trace_report : stm (DormantBrokerProcess * W) BrokerTraceReportError unit :=
  let! (process, _) := sget in
  match cs_shutdown (db_control process) with
  | Some code => serr (ReportError_Io code)
  | None => on_self (smodify (on_control with_cs_ended))
  end.

Definition finish_trace_report_before_authority : stm (DormantBrokerProcess * W) BrokerEntryError (option BrokerGateExit) :=
  smap_err (fun error => Entry_Plan (report_failure error)) finish_broker_trace_report >>!
  let! exit := probe_dormant_gate in
  match exit with Some _ => sret (Some ServiceGone) | None => sret None end.

Definition report_trace_stops : entry (BrokerGateExit + unit) :=
  or_exit (consuming
   (let! self := self_now in
    let deadline := el_deadline self in
    on_process (ensure_deadline_live (Some deadline)) >>!
    let! l := slift (map_err (fun error => Entry_Plan (report_failure error))
                             (encode_broker_trace_report (exact_trace_report_binding (el_plan self)))) in
    on_process (set_nonblocking true) >>!
    let! written := on_process (write_control_while_dormant l deadline) in
    match written with
    | inl _ => sret (inl ServiceGone)
    | inr _ =>
        let! exit := on_process finish_trace_report_before_authority in
        match exit with Some exit => sret (inl exit) | None => sret (inr tt) end
    end)).

(** One byte of the trace stream; [reads] bounds the turns. *)
Fixpoint resume_loop (reads : list ReadEvent) : stm (DormantBrokerProcess * W) BrokerEntryError (BrokerGateExit + byte) :=
  while_dormant probe_dormant_gate
   match reads with
   | [] | EndOfStream :: _ => serr (Entry_Plan WireError_Malformed)
   | Arrives first rest :: reads => set_control (with_cs_reads (put_back 1 first rest reads)) >>! sret (inr first)
   | Interrupted :: reads => set_control (with_cs_reads reads) >>! resume_loop reads
   | WouldBlock :: reads =>
       set_control (with_cs_reads reads) >>! while_dormant (poll_control_and_gate POLLIN None) (resume_loop reads)
   | ReadFails code :: reads => set_control (with_cs_reads reads) >>! serr (Entry_Control code)
   end.

Definition read_resume_commit : stm (DormantBrokerProcess * W) BrokerEntryError (BrokerGateExit + byte) :=
  let! (process, _) := sget in resume_loop (cs_reads (db_control process)).

Fixpoint resume_eof_loop (reads : list ReadEvent) : stm (DormantBrokerProcess * W) BrokerEntryError (BrokerGateExit + unit) :=
  while_dormant probe_dormant_gate
   match reads with
   | [] | EndOfStream :: _ => sret (inr tt)
   | Arrives first rest :: reads =>
       set_control (with_cs_reads (put_back 1 first rest reads)) >>! serr (Entry_Plan WireError_Malformed)
   | Interrupted :: reads => set_control (with_cs_reads reads) >>! resume_eof_loop reads
   | WouldBlock :: reads =>
       set_control (with_cs_reads reads) >>! while_dormant (poll_control_and_gate POLLIN None) (resume_eof_loop reads)
   | ReadFails code :: reads => set_control (with_cs_reads reads) >>! serr (Entry_Control code)
   end.

Definition require_resume_commit_eof : stm (DormantBrokerProcess * W) BrokerEntryError (BrokerGateExit + unit) :=
  let! (process, _) := sget in resume_eof_loop (cs_reads (db_control process)).

Definition wait_for_ready_commit : entry (BrokerGateExit + unit) :=
  or_exit (consuming
   (let! resume := on_process read_resume_commit in
    match resume with
    | inl _ => sret (inl ServiceGone)
    | inr resume =>
        if negb (bool_decide ([resume] = BROKER_RESUME_BYTE)) then serr (Entry_Plan WireError_Malformed) else
        let! ended := on_process require_resume_commit_eof in
        match ended with inl _ => sret (inl ServiceGone) | inr _ => sret (inr tt) end
    end)).

Definition resume_target : launch unit :=
  consuming
   (probe_gate >>!
    let! error := ptrace_continue in
    if negb (error =? 0) then serr (Native error) else
    set_phase RunningTarget).

(** *** The target's end *)

Fixpoint exit_loop (waits : list TraceWait) : launch ExactTargetExit :=
  let again := match waits with _ :: waits => exit_loop waits | [] => slift Panic end in
  probe_gate >>!
  let! outcome := wait_child true in
  match outcome with
  | Reports status =>
      match traced_stop_signal status with
      | Some _ => set_phase ObservedTracedStop >>! probe_gate >>! serr UnexpectedStatus
      | None =>
          set_phase Reaped >>! drain_exact_child >>!
          probe_gate >>!
          slift (ok_or (exact_target_exit status) UnexpectedStatus)
      end
  | WaitFailed error =>
      if error =? EINTR then again else if error =? ECHILD then slift Panic else serr (Native error)
  | NoReport => poll_slice >>! again
  end.

(** The authority ends here on every path. *)
Definition wait_for_exit : launch ExactTargetExit :=
  let! exit := consuming (let! (_, k, _) := sget in exit_loop (lk_waits k)) in
  drop_launcher >>! sret exit.

End Launcher.

(** ** The signature of the held target

    The world also holds the pool of authentication workers. *)

#[export] Instance beside_clock {P W : Type} {C : Clock W} : Clock (P * W) := {
  instant_now '(p, w) := let '(now, w) := instant_now w in (now, (p, w));
  instant_max := instant_max (T := W)
}.
#[export] Instance beside_uptime {P W : Type} {U : UptimeClock W} : UptimeClock (P * W) :=
  fun '(p, w) => let '(time, w) := clock_gettime w in (time, (p, w)).

Section Signature.
Context {A W F : Type} {C : Clock W} {U : UptimeClock W} {H : Sha256} {B : ExactAuthWorkerAuthority A W F}.

Abbreviation Pool := (AuthWorkerPool A).
Abbreviation state := (ExactLauncher * LauncherKernel * (Pool * W))%type.
Abbreviation signature T := (stm state (LauncherSignatureError F) T).

Definition on_pool {E T} (m : stm (Pool * W) E T) : stm state E T := on_world m.

Definition cancel_signature_worker {T} (worker : AuthWorkerIdentity) (original : LauncherSignatureError F) : signature T :=
  on_pool (smap_err Signature_Auth (cancel worker)) >>! serr original.

(** An error of [m] cancels the worker. *)
Definition or_cancel {E T} (worker : AuthWorkerIdentity) (failure : E -> LauncherSignatureError F) (m : stm state E T) : signature T :=
  fun s =>
    match m s with
    | (Ok x, s) => (Ok x, s)
    | (Err e, s) => cancel_signature_worker worker (failure e) s
    | (Panic, s) => (Panic, s)
    end.

(** Every turn of the loops reads the gate, so the coming reads of the gate
    bound the turns. *)
Fixpoint result_loop (worker : AuthWorkerIdentity) (receipt : AuthWorkerReplyReceipt) (gate : list GateEvent)
  : signature ReceivedAuthWorkerResult :=
  or_cancel worker Signature_Launcher (probe_gate >>! ensure_deadline) >>!
  let! polled := or_cancel worker Signature_Pipe (on_pool (on_world (poll_receipt receipt))) in
  match polled with
  | PollComplete received => sret received
  | PollPending receipt =>
      or_cancel worker Signature_Launcher poll_slice >>!
      match gate with _ :: gate => result_loop worker receipt gate | [] => slift Panic end
  end.

Fixpoint completion_loop (worker : AuthWorkerIdentity) (complete : stm (Pool * W) (AuthAdapterError F) AuthenticatedExecTrap)
  (gate : list GateEvent) : signature AuthenticatedExecTrap :=
  fun s =>
    match on_pool complete s with
    | (Ok authenticated, s) => (Ok authenticated, s)
    | (Panic, s) => (Panic, s)
    | (Err (Adapter_WorkerRetirementPending pending), s) =>
        if bool_decide (pending = worker) then
          (or_cancel worker Signature_Launcher (probe_gate >>! ensure_deadline) >>!
           or_cancel worker Signature_Launcher poll_slice >>!
           match gate with
           | _ :: gate => completion_loop worker (poll_completed_exec_trap worker) gate
           | [] => slift Panic
           end) s
        else (Err (Signature_Auth (Adapter_WorkerRetirementPending pending)), s)
    | (Err error, s) => (Err (Signature_Auth error), s)
    end.

Definition gate_now : signature (list GateEvent) := let! self := self_now in sret (db_gate (el_process self)).

Definition verify_signature (after_exec : TaskAuditIdentity) (job_id : bytes) : signature unit :=
  consuming
   (let! self := self_now in
    let plan := ep_plan (el_plan self) in
    let audit_identity := audit_identity after_exec in
    let effective_uid := bp_effective_uid plan in
    let effective_gid := bp_effective_gid plan in
    let frame_digest := ep_digest (el_plan self) in
    let expected_code_identity := bp_target_identity plan in
    let wire_deadline := db_wire (ep_deadline (el_plan self)) in
    let! dispatched := on_pool (smap_err Signature_Auth
      (dispatch_exec_trap audit_identity effective_uid effective_gid frame_digest expected_code_identity job_id wire_deadline)) in
    let worker := aj_worker (da_job dispatched) in
    let! receipt := or_cancel worker Signature_Pipe (on_pool (on_world (submit dispatched))) in
    let! gate := gate_now in
    let! received := result_loop worker receipt gate in
    let! gate := gate_now in
    let! authenticated := completion_loop worker (complete_exec_trap received) gate in
    if negb (bool_decide (ae_audit_identity authenticated = audit_identity))
       || negb (ae_effective_uid authenticated =? effective_uid)
       || negb (ae_effective_gid authenticated =? effective_gid)
       || negb (bool_decide (ae_frame_digest authenticated = frame_digest))
       || negb (bool_decide (ae_code_identity authenticated = expected_code_identity))
       || negb (ae_deadline authenticated =? wire_deadline)
    then serr Signature_BindingMismatch else
    sret tt).

(** ** The broker's process, once the launcher is spawned *)

Inductive FixedBrokerProcessFailure := InvalidEntry | Setup | Protocol | Failure_ServiceGone | LauncherFailed.

Abbreviation process T := (stm state FixedBrokerProcessFailure T).

Definition launcher_step {E T} (m : stm state E T) : process T := smap_err (fun _ => LauncherFailed) m.
Definition protocol_step (m : stm state BrokerEntryError (BrokerGateExit + unit)) : process unit :=
  let! result := smap_err (fun _ => Protocol) m in
  match result with inl _ => serr Failure_ServiceGone | inr _ => sret tt end.

(** From the spawned launcher to the running target. *)
Definition resume_verified_target (job_id : bytes) : process unit :=
  let! before_exec := launcher_step wait_initial_stop in
  launcher_step prove_trace_and_continue_to_exec >>!
  launcher_step (consuming deliver_plan) >>!
  let! after_exec := launcher_step (wait_exec_trap before_exec) in
  launcher_step (verify_signature after_exec job_id) >>!
  protocol_step report_trace_stops >>!
  protocol_step wait_for_ready_commit >>!
  launcher_step resume_target.

Definition supervise_target (job_id : bytes) : process ExactTargetExit :=
  resume_verified_target job_id >>! launcher_step wait_for_exit.

Definition fixed_broker_status (outcome : res FixedBrokerProcessFailure unit) : option Z :=
  match outcome with
  | Ok _ | Err Failure_ServiceGone => Some 0
  | Err InvalidEntry => Some 64
  | Err Setup | Err Protocol => Some 65
  | Err LauncherFailed => Some 67
  | Panic => None
  end.

End Signature.
