(* ===== verification/LauncherTheory.v ===== *)
(** * LauncherTheory: the broker's child is never lost

    Whatever the kernel, the service and the launcher do, every call the broker
    makes on the child is one it may make at that point, and when the broker is
    done the kernel has nothing more to report of the child. *)

From S2P Require Import Prelude Bytes Tools Negotiation Native SupervisorWire SupervisorCodec Supervisor BrokerReport BrokerPlan BrokerCodec LauncherCodec BrokerReportTheory Watchdog AuthWire AuthPool Child BrokerControl BrokerHandover Launcher.

(** ** What the broker can know of the child *)

Inductive View := ChildRuns | ChildStopped | ChildDead | ChildConsumed.

#[export] Instance View_eq_dec : EqDecision View.
Proof. solve_decision. Defined.

(** One event, when it is allowed: a stopped child may be inspected, continued
    and killed through [ptrace]; a child whose death was not reported may be
    signalled; a consumed one may not be named again. *)
Definition view_step (pid : Z) (v : View) (event : TraceEvent) : option View :=
  match event with
  | Reported p status =>
      if bool_decide (p = pid) && negb (bool_decide (v = ChildConsumed)) then
        Some (match traced_stop_signal status with Some _ => ChildStopped | None => ChildDead end)
      else None
  | Gone p => if bool_decide (p = pid) && negb (bool_decide (v = ChildConsumed)) then Some ChildConsumed else None
  | Captured p _ => if bool_decide (p = pid) && bool_decide (v = ChildStopped) then Some v else None
  | Continued p error | TraceKilled p error =>
      if bool_decide (p = pid) && bool_decide (v = ChildStopped) then Some (if error =? 0 then ChildRuns else ChildStopped) else None
  | Signalled p _ _ =>
      if bool_decide (p = pid) && (bool_decide (v = ChildRuns) || bool_decide (v = ChildStopped)) then Some v else None
  | PlanClosed _ | DeathClosed => Some v
  end.

Definition view_of (pid : Z) (log : list TraceEvent) : option View :=
  foldl (fun v event => v ≫= (fun v => view_step pid v event)) (Some ChildRuns) log.

Lemma view_of_snoc pid log event : view_of pid (log ++ [event]) = view_of pid log ≫= (fun v => view_step pid v event).
Proof. unfold view_of. now rewrite foldl_app. Qed.

(** What a phase says of the child. *)
Definition phase_view (phase : ExactPhase) : View :=
  match phase with
  | AwaitingInitialStop | AwaitingExecTrap | RunningTarget => ChildRuns
  | UnprovenInitialStop | ObservedTracedStop | ExecTrapHeld => ChildStopped
  | Reaped => ChildConsumed
  end.

Section Launcher.
Context {W : Type} {C : Clock W} {U : UptimeClock W}.

Abbreviation state := (ExactLauncher * LauncherKernel * W)%type.
Abbreviation launch T := (stm state LauncherWaitError T).

Definition self_of (s : state) : ExactLauncher := fst (fst s).
Definition log_of (s : state) : list TraceEvent := lk_log (snd (fst s)).
Definition sees (v : View) (s : state) : Prop := view_of (el_pid (self_of s)) (log_of s) = Some v.

(** No call was made that was not allowed. *)
Definition legal (s : state) : Prop := exists v, sees v s.
(** The authority knows where the child is. *)
Definition knows (phase : ExactPhase) (s : state) : Prop := el_phase (self_of s) = phase /\ sees (phase_view phase) s.

Lemma knows_legal phase s : knows phase s -> legal s.
Proof. intros [_ ?]. eexists; eauto. Qed.

(** One more event. *)
Lemma sees_event v v' event (s s' : state) :
  sees v s -> el_pid (self_of s') = el_pid (self_of s) -> log_of s' = log_of s ++ [event] ->
  view_step (el_pid (self_of s)) v event = Some v' -> sees v' s'.
Proof. unfold sees. intros Hv -> -> Hs. rewrite view_of_snoc, Hv. exact Hs. Qed.

(** What stays. *)
Definition kept (s s' : state) : Prop :=
  el_pid (self_of s') = el_pid (self_of s) /\ el_plan (self_of s') = el_plan (self_of s) /\
  el_expected_launcher (self_of s') = el_expected_launcher (self_of s).

Lemma kept_refl s : kept s s.
Proof. done. Qed.
Lemma kept_trans s s' s'' : kept s s' -> kept s' s'' -> kept s s''.
Proof. unfold kept. intuition congruence. Qed.

Definition process_of (s : state) : DormantBrokerProcess * W := (el_process (self_of s), snd s).

(** Code that only looks: at the gate, the clock, the readiness of descriptors. *)
Definition untouched (s s' : state) : Prop :=
  kept s s' /\ el_phase (self_of s') = el_phase (self_of s) /\ el_channels (self_of s') = el_channels (self_of s) /\
  log_of s' = log_of s /\ undisturbed (process_of s) (process_of s').

Lemma untouched_refl s : untouched s s.
Proof. done. Qed.
Lemma untouched_trans s s' s'' : untouched s s' -> untouched s' s'' -> untouched s s''.
Proof. unfold untouched, kept, undisturbed. intuition congruence. Qed.

Lemma untouched_sees v s s' : untouched s s' -> sees v s -> sees v s'.
Proof. unfold untouched, kept, sees. intros ((-> & _) & _ & _ & -> & _). done. Qed.
Lemma untouched_knows phase s s' : untouched s s' -> knows phase s -> knows phase s'.
Proof. intros Hu [H1 H2]. split; [destruct Hu as (_ & -> & _); done|]. eauto using untouched_sees. Qed.

(** On success the gate brought nothing. *)
Definition gently {E T} (s : state) (r : res E T) (s' : state) : Prop :=
  r <> Panic /\ untouched s s' /\ (forall x, r = Ok x -> quiet (process_of s) (process_of s')).

Lemma gently_then {E T V} (m : stm state E T) (k : T -> stm state E V) (Q : res E V -> state -> Prop) s :
  wp m (gently s) s -> (forall x s', untouched s s' -> quiet (process_of s) (process_of s') -> wp (k x) Q s') ->
  (forall e s', untouched s s' -> Q (Err e) s') -> wp (sbind m k) Q s.
Proof. intros Hm Hk He. apply wp_bind. eapply wp_mono; [exact Hm|]. intros [x|e|] s' (Hp & Hu & Hq); cbn [bound]; [eauto|eauto|done]. Qed.

Lemma gently_after {E T} (s s1 : state) (r : res E T) s' :
  untouched s s1 -> quiet (process_of s) (process_of s1) -> gently s1 r s' -> gently s r s'.
Proof.
  intros H1 H2 (Hp & H3 & H4). split; [done|]. split; [eauto using untouched_trans|]. intros x Hx. eapply quiet_trans; eauto.
Qed.

(** Two in a row. *)
Lemma gently_both {E T V} (m : stm state E T) (k : T -> stm state E V) s :
  wp m (gently s) s -> (forall x s', wp (k x) (gently s') s') -> wp (sbind m k) (gently s) s.
Proof.
  intros Hm Hk. apply gently_then; [done| |].
  - intros x s' H1 H2. eapply wp_mono; [apply Hk|]. intros r s''. now apply gently_after.
  - intros e s' H1. split; [done|]. split; [done|]. done.
Qed.

(** The gate is read the way the broker reads it before. *)
Lemma on_process_looks {E T} (m : stm (DormantBrokerProcess * W) E T) (P : res E T -> DormantBrokerProcess * W -> Prop) (Q : res E T -> state -> Prop) s :
  wp m P (process_of s) ->
  (forall r p, P r p -> Q r (with_process_state (fst p) (self_of s), snd (fst s), snd p)) ->
  wp (on_process m) Q s.
Proof.
  destruct s as [[self k] w]. unfold wp, on_process, process_of, self_of. cbn [fst snd]. intros Hm HQ.
  destruct (m _) as [r [process w']]. exact (HQ r (process, w') Hm).
Qed.

Lemma on_process_gently (process : DormantBrokerProcess) (w : W) (s : state) :
  undisturbed (process_of s) (process, w) -> untouched s (with_process_state process (self_of s), snd (fst s), w).
Proof. intros Hu. by split_and!. Qed.

Lemma probe_gate_loop_spec gate (s : state) :
  db_gate (el_process (self_of s)) = gate -> wp (probe_gate_loop gate) (gently s) s.
Proof.
  revert s. induction gate as [|event gate IH]; intros s Hg; cbn [probe_gate_loop]; apply wp_bind;
    (eapply on_process_looks; [apply (read_once_spec (process_of s))|]); intros [[[value|]|error]|e|] [process w'] (Hu & Hw & Hr); cbn [bound]; try done.
  - destruct Hr as [[event Hr] _]. unfold process_of in Hr. cbn in Hr. congruence.
  - destruct Hr as [[event' Hr] Hq]. unfold process_of in Hr. cbn [fst] in Hr. rewrite Hg in Hr. injection Hr as <- Hr.
    set (s1 := (_, _, _)). assert (untouched s s1) as H1 by (by apply on_process_gently).
    destruct (error =? EINTR) eqn:E1; bsplit; [|destruct (error =? EAGAIN) eqn:E2; bsplit].
    + eapply wp_mono; [apply IH; by symmetry|]. intros r s2. apply gently_after; [done|]. now apply Hq; left.
    + apply wp_ret. split; [done|]. split; [done|]. intros _ _. now apply Hq; right.
    + apply wp_err. by split_and!.
Qed.

Lemma probe_gate_spec (s : state) : wp probe_gate (gently s) s.
Proof. destruct s as [[self k] w]. now apply (probe_gate_loop_spec (db_gate (el_process self)) (self, k, w)). Qed.

Lemma ensure_deadline_spec (s : state) : wp ensure_deadline (gently s) s.
Proof.
  destruct s as [[self k] w]. unfold wp, ensure_deadline, self_now, sbind, sget, on_world, sret, read_instant. destruct (instant_now w) as [now w'].
  destruct (el_deadline self <=? now); (split; [done|]); (split; [by split_and!|]); intros x Hx; [done|apply silently_refl].
Qed.

Lemma poll_slice_spec (s : state) : wp poll_slice (gently s) s.
Proof.
  destruct s as [[self k] w]. unfold wp, poll_slice, sbind, sget, change_kernel, smodify.
  destruct ((hd 0 (lk_polls k) =? 0) || (hd 0 (lk_polls k) =? EINTR)); (split; [done|]); (split; [by split_and!|]); intros x Hx; [apply silently_refl|done].
Qed.

Lemma nonblocking_spec (s : state) : wp set_gate_nonblocking (gently s) s.
Proof.
  apply (on_process_looks _ (fun r p => r <> Panic /\ undisturbed (process_of s) p /\ quiet (process_of s) p)).
  { apply wp_map_err. eapply wp_mono; [apply set_nonblocking_spec|]. intros r p (? & ? & ?). split; [by destruct r|done]. }
  intros r [process w'] (Hp & Hu & Hq). split; [done|].
  split; [by apply on_process_gently|]. intros x _. exact Hq.
Qed.

Lemma watched_spec (s : state) : wp (probe_gate >>! ensure_deadline) (gently s) s.
Proof. apply gently_both; [apply probe_gate_spec|]. intros _ s'. apply ensure_deadline_spec. Qed.

(** ** Waits, and the end of the child *)

(** A system call on the child changes only what the kernel has to say. *)
Definition recorded (events : list TraceEvent) (s s' : state) : Prop :=
  self_of s' = self_of s /\ snd s' = snd s /\ log_of s' = log_of s ++ events.

Lemma recorded_none s s' : recorded [] s s' -> untouched s s' /\ quiet (process_of s) (process_of s').
Proof.
  unfold recorded, untouched, kept, undisturbed, quiet, process_of. rewrite app_nil_r. intros (-> & -> & ->). split; [by split_and!|apply silently_refl].
Qed.

Lemma recorded_sees v v' event s s' :
  recorded [event] s s' -> sees v s -> view_step (el_pid (self_of s)) v event = Some v' -> sees v' s'.
Proof. intros (H1 & _ & H2) Hv Hs. eapply sees_event; eauto. now rewrite H1. Qed.

Lemma wait_child_then {E T} nohang (k : TraceWait -> stm state E T) (Q : res E T -> state -> Prop) s :
  (forall status s', recorded [Reported (el_pid (self_of s)) status] s s' -> wp (k (Reports status)) Q s') ->
  (forall s', recorded [] s s' -> wp (k NoReport) Q s') ->
  (forall error s', recorded [] s s' -> error <> ECHILD -> wp (k (WaitFailed error)) Q s') ->
  (forall s', recorded [Gone (el_pid (self_of s))] s s' -> wp (k (WaitFailed ECHILD)) Q s') ->
  wp (sbind (wait_child nohang) k) Q s.
Proof.
  intros H1 H2 H3 H4. destruct s as [[self kernel] w]. apply wp_bind. unfold wp, wait_child, sbind, sget, change_kernel, smodify, sret.
  set (outcome := match lk_waits kernel with [] => _ | outcome :: _ => outcome end). destruct outcome as [status| |error].
  - apply H1. by split_and!.
  - apply H2. split_and!; [done|done|]. cbn. by rewrite app_nil_r.
  - destruct (error =? ECHILD) eqn:Ee; bsplit; [subst error; apply H4; by split_and!|apply H3; [|done]]. split_and!; [done|done|]. cbn. by rewrite app_nil_r.
Qed.

Lemma ptrace_continue_then {E T} (k : Z -> stm state E T) (Q : res E T -> state -> Prop) s :
  (forall error s', recorded [Continued (el_pid (self_of s)) error] s s' -> wp (k error) Q s') -> wp (sbind ptrace_continue k) Q s.
Proof. intros H1. destruct s as [[self kernel] w]. apply H1. by split_and!. Qed.
Lemma ptrace_kill_then {E T} (k : Z -> stm state E T) (Q : res E T -> state -> Prop) s :
  (forall error s', recorded [TraceKilled (el_pid (self_of s)) error] s s' -> wp (k error) Q s') -> wp (sbind ptrace_kill k) Q s.
Proof. intros H1. destruct s as [[self kernel] w]. apply H1. by split_and!. Qed.
Lemma kill_child_then {E T} signal (k : Z -> stm state E T) (Q : res E T -> state -> Prop) s :
  (forall error s', recorded [Signalled (el_pid (self_of s)) signal error] s s' -> wp (k error) Q s') -> wp (sbind (kill_child signal) k) Q s.
Proof. intros H1. destruct s as [[self kernel] w]. apply H1. by split_and!. Qed.
Lemma capture_then {E T} (k : option TaskAuditIdentity -> stm state E T) (Q : res E T -> state -> Prop) s :
  (forall identity s', recorded [Captured (el_pid (self_of s)) identity] s s' -> wp (k (Some identity)) Q s') ->
  (forall s', recorded [] s s' -> wp (k None) Q s') -> wp (sbind capture k) Q s.
Proof.
  intros H1 H2. destruct s as [[self kernel] w]. apply wp_bind. unfold wp, capture, sbind, sget, change_kernel, smodify, sret.
  set (identity := match lk_identities kernel with [] => None | identity :: _ => identity end). destruct identity as [identity|].
  - apply H1. by split_and!.
  - apply H2. split_and!; [done|done|]. cbn. by rewrite app_nil_r.
Qed.

(** Steps of the automaton. *)
Lemma view_reported pid v status :
  v <> ChildConsumed ->
  view_step pid v (Reported pid status) = Some (match traced_stop_signal status with Some _ => ChildStopped | None => ChildDead end).
Proof. intros Hv. cbn. rewrite !bool_decide_true, bool_decide_false by done. done. Qed.
Lemma view_gone pid v : v <> ChildConsumed -> view_step pid v (Gone pid) = Some ChildConsumed.
Proof. intros Hv. cbn. rewrite !bool_decide_true, bool_decide_false by done. done. Qed.
Lemma view_stopped_call pid error :
  view_step pid ChildStopped (TraceKilled pid error) = Some (if error =? 0 then ChildRuns else ChildStopped) /\
  view_step pid ChildStopped (Continued pid error) = Some (if error =? 0 then ChildRuns else ChildStopped).
Proof. cbn. now rewrite !bool_decide_true by done. Qed.
Lemma view_captured pid identity : view_step pid ChildStopped (Captured pid identity) = Some ChildStopped.
Proof. cbn. now rewrite !bool_decide_true by done. Qed.
Lemma view_signalled pid v signal error : v = ChildRuns \/ v = ChildStopped -> view_step pid v (Signalled pid signal error) = Some v.
Proof. intros [-> | ->]; cbn; now rewrite !bool_decide_true by done. Qed.

(** Code that deals with the child only. *)
Definition child_only (s s' : state) : Prop := self_of s' = self_of s /\ snd s' = snd s /\ log_of s `prefix_of` log_of s'.

Lemma recorded_child_only events s s' : recorded events s s' -> child_only s s'.
Proof. intros (H1 & H2 & H3). split; [done|]. split; [done|]. by exists events. Qed.
Lemma child_only_trans s s' s'' : child_only s s' -> child_only s' s'' -> child_only s s''.
Proof. intros (H1 & H2 & H3) (H4 & H5 & H6). split; [congruence|]. split; [congruence|]. by etrans. Qed.

(** It ends, on success, with a view in [P]. *)
Definition deals {E} (P : View -> Prop) (s : state) (r : res E unit) (s' : state) : Prop :=
  child_only s s' /\ legal s' /\ (forall e, r <> Err e) /\ (r = Ok tt -> exists v, P v /\ sees v s').

Lemma deals_then {E T} (m : stm state E unit) (k : unit -> stm state E T) P (Q : res E T -> state -> Prop) s :
  wp m (deals P s) s -> (forall v s', child_only s s' -> P v -> sees v s' -> wp (k tt) Q s') ->
  (forall s', child_only s s' -> legal s' -> Q Panic s') -> wp (sbind m k) Q s.
Proof.
  intros Hm Hk Hp. apply wp_bind. eapply wp_mono; [exact Hm|]. intros [[]|e|] s' (H1 & H2 & H3 & H4); cbn [bound].
  - destruct (H4 eq_refl) as (v & ? & ?). eauto.
  - now destruct (H3 e).
  - auto.
Qed.

Definition unconsumed (v : View) : Prop := v <> ChildConsumed.

Lemma ptrace_kill_deals {E} s : sees ChildStopped s -> wp (exact_ptrace_kill (E := E)) (deals unconsumed s) s.
Proof.
  intros Hv. apply ptrace_kill_then. intros error s' Hr. pose proof (recorded_sees _ _ _ _ _ Hr Hv (proj1 (view_stopped_call _ error))) as Hv'.
  apply recorded_child_only in Hr. assert (legal s') as Hl by (eexists; eauto).
  destruct (_ && _); [apply wp_lift; by split_and!|apply wp_ret]. split_and!; [done|done|done|]. intros _. eexists. split; [|exact Hv']. by destruct (error =? 0).
Qed.

Lemma signal_deals {E} v signal s :
  v = ChildRuns \/ v = ChildStopped -> sees v s -> wp (exact_signal (E := E) signal) (deals unconsumed s) s.
Proof.
  intros Hv Hs. apply kill_child_then. intros error s' Hr.
  pose proof (recorded_sees _ _ _ _ _ Hr Hs (view_signalled _ v signal error Hv)) as Hv'.
  apply recorded_child_only in Hr. assert (legal s') as Hl by (eexists; eauto).
  destruct (_ && _); [apply wp_lift; by split_and!|apply wp_ret]. split_and!; [done|done|done|]. intros _. exists v. split; [by destruct Hv as [-> | ->]|done].
Qed.

Lemma unproven_deals {E} s : sees ChildStopped s -> wp (exact_unproven_stop_kill (E := E)) (deals unconsumed s) s.
Proof.
  intros Hv. apply ptrace_kill_then. intros error s' Hr. pose proof (recorded_sees _ _ _ _ _ Hr Hv (proj1 (view_stopped_call _ error))) as Hv'.
  apply recorded_child_only in Hr. destruct (error =? 0).
  - apply wp_ret. split_and!; [done|by eexists|done|]. intros _. by exists ChildRuns.
  - eapply wp_mono; [eapply signal_deals; [|exact Hv']; auto|]. intros r s2 (? & ? & ? & ?). split_and!; eauto using child_only_trans.
Qed.

(** Draining: nothing is left of the child. *)
Lemma drain_deals {E} waits v (s : state) :
  unconsumed v -> sees v s -> wp (drain_loop (E := E) waits) (deals (eq ChildConsumed) s) s.
Proof.
  revert v s. induction waits as [|outcome waits IH]; intros v s Hv Hs; cbn [drain_loop];
    [set (again := slift Panic : stm state E unit)|set (again := drain_loop waits)].
  all: assert (forall v s', child_only s s' -> unconsumed v -> sees v s' -> wp again (deals (eq ChildConsumed) s) s') as Hagain by
    (intros v' s' Hc Hv' Hs'; (apply wp_lift; split_and!; [done|by eexists|done|done]) ||
     (eapply wp_mono; [by eapply IH|]; intros r s2 (? & ? & ? & ?); split_and!; eauto using child_only_trans)).
  all: apply wait_child_then; [intros status s' Hr|intros s' Hr|intros error s' Hr He|intros s' Hr].
  all: pose proof (recorded_child_only _ _ _ Hr) as Hc.
  1, 5: pose proof (recorded_sees _ _ _ _ _ Hr Hs (view_reported _ _ status Hv)) as Hs'; destruct (traced_stop_signal status);
    [|apply (Hagain ChildDead); done];
    (eapply deals_then; [by apply ptrace_kill_deals| |]); [intros v' s2 Hc2 Hv' Hs2; eapply Hagain; eauto using child_only_trans|];
    intros s2 Hc2 Hl; split_and!; eauto using child_only_trans; done.
  1, 4: apply recorded_none in Hr as [Hu _]; apply wp_lift; split_and!; [done|exists v; eauto using untouched_sees|done|done].
  1, 3: apply recorded_none in Hr as [Hu _]; pose proof (untouched_sees _ _ _ Hu Hs) as Hs'; destruct (error =? EINTR); [by eapply Hagain|];
    rewrite (proj2 (Z.eqb_neq error ECHILD) He); apply wp_lift; split_and!; [done|by eexists|done|done].
  all: pose proof (recorded_sees _ _ _ _ _ Hr Hs (view_gone _ _ Hv)) as Hs'; apply wp_ret; split_and!; [done|by eexists|done|by eauto].
Qed.

Lemma drain_spec {E} v (s : state) : unconsumed v -> sees v s -> wp (drain_exact_child (E := E)) (deals (eq ChildConsumed) s) s.
Proof. destruct s as [[self k] w]. apply drain_deals. Qed.

(** ** Dropping the authority *)

(** On success the child is gone, and known to be. *)
Definition settled {E} (s : state) (r : res E unit) (s' : state) : Prop :=
  kept s s' /\ legal s' /\ (forall e, r <> Err e) /\ (r = Ok tt -> knows Reaped s' /\ log_of s `prefix_of` log_of s').

Lemma drop_channels_spec {E} v (s : state) :
  sees v s -> wp (drop_channels (E := E)) (fun r s' => r = Ok tt /\ kept s s' /\ el_phase (self_of s') = el_phase (self_of s) /\ sees v s' /\
    log_of s `prefix_of` log_of s') s.
Proof.
  destruct s as [[self k] w]. intros Hs. unfold wp, drop_channels, self_now, change_self, change_kernel, sbind, sget, smodify, sret.
  destruct (el_channels self) as [[[frame|]]|]; (split; [done|]); (split; [done|]); (split; [done|]); unfold sees, log_of, self_of in *; cbn -[view_of] in *;
    rewrite ?view_of_snoc, Hs; (split; [done|]); rewrite <- ?app_assoc; first [by eexists|reflexivity].
Qed.

Lemma drop_spec {E} phase (s : state) : knows phase s -> wp (drop_launcher (E := E)) (settled s) s.
Proof.
  intros [Hp Hs]. apply wp_bind. eapply wp_mono; [by apply drop_channels_spec|]. intros r s1 (-> & Hk & Hp1 & Hs1 & Hl1). cbn [bound].
  destruct s1 as [[self k] w]. apply (wp_run _ _ _ _ self (self, k, w)); [done|]. cbn [self_of fst] in Hp1. rewrite Hp in Hp1.
  assert (forall (m : stm state E unit), wp m (deals unconsumed (self, k, w)) (self, k, w) ->
    wp (m >>! drain_exact_child >>! set_phase Reaped) (settled s) (self, k, w)) as Hending.
  { intros m Hm. eapply deals_then; [exact Hm| |].
    - intros v s2 (H1 & H2 & L2) Hv Hs2. eapply deals_then; [by eapply drain_spec| |].
      + intros v' [[self3 k3] w3] (H3 & H4 & L3) <- Hs3. cbn in *. subst. split_and!; [done|by eexists|done|]. intros _. split; [by split|].
        etrans; [exact Hl1|]. etrans; [exact L2|]. exact L3.
      + intros s3 (H3 & H4 & _) Hl. split_and!; [unfold kept in *; rewrite H3, H1; done|done..].
    - intros s2 (H1 & H2 & _) Hl. split_and!; [unfold kept in *; rewrite H1; done|done..]. }
  rewrite Hp1. destruct phase; cbn [phase_view] in Hs1; try apply Hending.
  - eapply signal_deals; [|exact Hs1]. auto.
  - by apply unproven_deals.
  - eapply signal_deals; [|exact Hs1]. auto.
  - by apply ptrace_kill_deals.
  - by apply ptrace_kill_deals.
  - eapply signal_deals; [|exact Hs1]. auto.
  - apply wp_ret. split_and!; [done|by eexists|done|]. intros _. by split.
Qed.

(** *** How a method ends *)

Definition known (s : state) : Prop := exists phase, knows phase s.

Definition ends {E T} (ok : T -> state -> Prop) (failed : state -> Prop) (r : res E T) (s' : state) : Prop :=
  match r with Ok x => ok x s' | Err _ => failed s' | Panic => legal s' end.

(** A method that consumes the authority leaves no child behind. *)
Lemma consuming_spec {E T} (m : stm state E T) ok (s : state) :
  wp m (ends ok (fun s' => kept s s' /\ known s')) s -> wp (consuming m) (ends ok (fun s' => kept s s' /\ knows Reaped s')) s.
Proof.
  unfold wp, consuming. destruct (m s) as [[x|e|] s1]; cbn [ends]; [done| |done]. intros [Hk [phase Hs]].
  apply (wp_bind (drop_launcher (E := E)) (fun _ => serr (A := T) e) _ s1). eapply wp_mono; [by eapply drop_spec|].
  intros [[]|e'|] s2 (H1 & H2 & H3 & H4); cbn [bound]; [|now destruct (H3 e')|done]. split; [eauto using kept_trans|by apply H4].
Qed.

(** Looking, with the child where it was. *)
Lemma looks_then {E T V} phase (m : stm state E T) (k : T -> stm state E V) ok (failed : state -> Prop) s :
  knows phase s -> wp m (gently s) s ->
  (forall x s', untouched s s' -> quiet (process_of s) (process_of s') -> knows phase s' -> wp (k x) (ends ok failed) s') ->
  (forall s', kept s s' -> known s' -> failed s') -> wp (sbind m k) (ends ok failed) s.
Proof.
  intros Hs Hm Hk Hf. apply gently_then; [done| |].
  - intros x s' H1 H2. apply Hk; [done|done|]. eauto using untouched_knows.
  - intros e s' H1. apply Hf; [apply H1|]. exists phase. eauto using untouched_knows.
Qed.

(** What happened between two moments while the gate was silent. *)
Definition moved (events : list TraceEvent) (s s' : state) : Prop :=
  kept s s' /\ log_of s' = log_of s ++ events /\ undisturbed (process_of s) (process_of s') /\ quiet (process_of s) (process_of s').

Lemma moved_trans e1 e2 s s1 s2 : moved e1 s s1 -> moved e2 s1 s2 -> moved (e1 ++ e2) s s2.
Proof.
  intros (? & L1 & ? & ?) (? & L2 & ? & ?). split; [eauto using kept_trans|]. split; [by rewrite L2, L1, app_assoc|].
  split; [eauto using undisturbed_trans|eauto using quiet_trans].
Qed.
Lemma moved_looks s s' : untouched s s' -> quiet (process_of s) (process_of s') -> moved [] s s'.
Proof. intros (? & _ & _ & ? & ?) ?. unfold moved. rewrite app_nil_r. done. Qed.
Lemma moved_recorded events s s' : recorded events s s' -> moved events s s'.
Proof.
  unfold recorded, moved, kept, undisturbed, quiet, process_of. intros (-> & -> & ->). by split_and!; [..|apply silently_refl].
Qed.
Lemma moved_pid events s s' : moved events s s' -> el_pid (self_of s') = el_pid (self_of s).
Proof. intros ((? & _) & _). done. Qed.

Definition same_channels (s s' : state) : Prop := el_channels (self_of s') = el_channels (self_of s).

(** ** The methods *)

Lemma set_phase_then {E T} phase (k : unit -> stm state E T) (Q : res E T -> state -> Prop) (s : state) :
  wp (k tt) Q (with_phase phase (self_of s), snd (fst s), snd s) -> wp (sbind (set_phase phase) k) Q s.
Proof. destruct s as [[self kernel] w]. exact id. Qed.

Lemma self_now_then {E T} (k : ExactLauncher -> stm state E T) (Q : res E T -> state -> Prop) (s : state) :
  wp (k (self_of s)) Q s -> wp (sbind self_now k) Q s.
Proof. destruct s as [[self kernel] w]. exact id. Qed.

(** A child that died instead: it is drained before the method returns. *)
Lemma drained_then {E T} (k : unit -> stm state E T) (Q : res E T -> state -> Prop) (s : state) v :
  unconsumed v -> sees v s ->
  (forall s', kept s s' -> knows Reaped s' -> log_of s `prefix_of` log_of s' -> wp (k tt) Q s') ->
  (forall s', legal s' -> Q Panic s') -> wp (set_phase Reaped >>! sbind drain_exact_child k) Q s.
Proof.
  intros Hv Hs Hk Hp. apply set_phase_then. set (s1 := (_, _, _)). assert (sees v s1) as Hs1 by exact Hs.
  eapply deals_then; [by eapply drain_spec| |].
  - intros v' s2 (H1 & H2 & L2) <- Hs2. apply Hk; [unfold kept; rewrite H1; done| |exact L2]. split; [by rewrite H1|done].
  - intros s2 _ Hl. auto.
Qed.

(** The stop a phase waits for. *)
Definition stop_phase (phase : ExactPhase) : option ExactPhase :=
  match phase with
  | AwaitingInitialStop => Some UnprovenInitialStop
  | AwaitingExecTrap => Some ObservedTracedStop
  | _ => None
  end.

Definition stops_at (expected : Z) (phase' : ExactPhase) (s : state) (_ : unit) (s' : state) : Prop :=
  exists status, traced_stop_signal status = Some expected /\
    moved [Reported (el_pid (self_of s)) status] s s' /\ same_channels s s' /\ knows phase' s'.

Lemma stops_at_after expected phase' s s1 x s' :
  untouched s s1 -> quiet (process_of s) (process_of s1) -> stops_at expected phase' s1 x s' -> stops_at expected phase' s x s'.
Proof.
  intros H1 H2 (status & Hst & Hm & Hc & Hk). exists status. split; [done|]. pose proof (moved_looks _ _ H1 H2) as H3.
  split; [|split; [unfold same_channels in *; destruct H1 as (_ & _ & <- & _); done|done]].
  destruct H1 as ((Hpid & _) & _). rewrite <- Hpid. exact (moved_trans [] _ _ _ _ H3 Hm).
Qed.

Lemma ends_after {E T} (ok ok' : T -> state -> Prop) s s1 (r : res E T) s' :
  kept s s1 -> (forall x s', ok' x s' -> ok x s') ->
  ends ok' (fun s' => kept s1 s' /\ known s') r s' -> ends ok (fun s' => kept s s' /\ known s') r s'.
Proof. intros Hk Hok. destruct r; cbn; [auto| |done]. intros [? ?]. eauto using kept_trans. Qed.

Lemma exact_stop_spec expected phase phase' waits (s : state) :
  knows phase s -> stop_phase phase = Some phase' ->
  wp (exact_stop_loop expected waits) (ends (stops_at expected phase' s) (fun s' => kept s s' /\ known s')) s.
Proof.
  intros Hs Hphase. revert s Hs. induction waits as [|outcome waits IH]; intros s Hs; cbn [exact_stop_loop];
    [set (again := slift Panic : launch unit)|set (again := exact_stop_loop expected waits)].
  all: assert (forall s1, untouched s s1 -> quiet (process_of s) (process_of s1) -> knows phase s1 ->
      wp again (ends (stops_at expected phase' s) (fun s' => kept s s' /\ known s')) s1) as Hagain by
    (intros s1 H1 H2 H3; (apply wp_lift; exact (knows_legal _ _ H3)) ||
     (eapply wp_mono; [by apply IH|]; intros r s2; apply ends_after; [apply H1|]; intros x s3; by apply stops_at_after)).
  all: eapply (looks_then phase); [done|apply probe_gate_spec| |by auto]; intros _ s1 U1 Q1 K1.
  all: eapply (looks_then phase); [done|apply ensure_deadline_spec| |intros s' ? ?; split; [eapply kept_trans; [apply U1|done]|done]]; intros _ s2 U2 Q2 K2.
  all: pose proof (untouched_trans _ _ _ U1 U2) as Hu; pose proof (quiet_trans _ _ _ Q1 Q2) as Hq; clear U1 Q1 K1 U2 Q2 s1.
  all: assert (unconsumed (phase_view phase)) as Hv by (destruct phase; done).
  all: apply wait_child_then; [intros status s3 Hr|intros s3 Hr|intros error s3 Hr He|intros s3 Hr].
  1, 5: pose proof (recorded_sees _ _ _ _ _ Hr (proj2 K2) (view_reported _ _ status Hv)) as Hs3; destruct (traced_stop_signal status) as [signal|] eqn:Est.
  1, 3: apply self_now_then; assert (el_phase (self_of s3) = phase) as -> by (rewrite (proj1 Hr); apply K2);
    assert (wp (set_phase phase' >>! if signal =? expected then sret tt else serr UnexpectedStatus)
      (ends (stops_at expected phase' s) (fun s' => kept s s' /\ known s')) s3) as Hset by
      (apply set_phase_then; set (s4 := (_, _, _)); assert (knows phase' s4) as K4 by (split; [done|]; destruct phase; try done; injection Hphase as <-; exact Hs3);
       assert (moved [Reported (el_pid (self_of s2)) status] s2 s4) as M4 by exact (moved_recorded _ _ _ Hr);
       destruct (signal =? expected) eqn:Esig; bsplit;
       [apply wp_ret; apply (stops_at_after _ _ _ s2); [done|done|]; exists status; split; [congruence|]; split; [done|]; split; [|done];
        unfold same_channels; by rewrite <- (proj1 Hr)
       |apply wp_err; split; [eapply kept_trans; [apply Hu|apply M4]|by eexists]]);
    destruct phase; try done; injection Hphase as <-; exact Hset.
  1, 2: eapply drained_then; [|exact Hs3| |by auto]; [done|]; intros s4 K4 R4 _; apply wp_err; split; [|by eexists];
    eapply kept_trans; [apply Hu|]; eapply kept_trans; [apply (moved_recorded _ _ _ Hr)|exact K4].
  1, 4: apply recorded_none in Hr as [U3 Q3]; pose proof (untouched_knows _ _ _ U3 K2) as K3;
    (eapply (looks_then phase); [done|apply poll_slice_spec| |]);
    [intros _ s4 U4 Q4 K4; apply Hagain; eauto using untouched_trans, quiet_trans
    |intros s' ? ?; split; [|done]; eapply kept_trans; [apply Hu|]; eapply kept_trans; [apply U3|done]].
  1, 3: apply recorded_none in Hr as [U3 Q3]; pose proof (untouched_knows _ _ _ U3 K2) as K3;
    destruct (error =? EINTR); [apply Hagain; eauto using untouched_trans, quiet_trans|];
    rewrite (proj2 (Z.eqb_neq error ECHILD) He); apply wp_err; split; [eapply kept_trans; [apply Hu|apply U3]|by eexists].
  all: apply wp_lift; eexists; exact (recorded_sees _ _ _ _ _ Hr (proj2 K2) (view_gone _ _ Hv)).
Qed.

Lemma wait_stop_spec expected phase phase' (s : state) :
  knows phase s -> stop_phase phase = Some phase' ->
  wp (wait_for_exact_stop expected) (ends (stops_at expected phase' s) (fun s' => kept s s' /\ known s')) s.
Proof. destruct s as [[self k] w]. apply exact_stop_spec. Qed.

(** Looking in the middle of a method that began at [s0]. *)
Lemma look_then {T V} phase events (m : launch T) (k : T -> launch V) ok s0 s :
  (forall s, wp m (gently s) s) -> moved events s0 s -> knows phase s ->
  (forall x s', moved events s0 s' -> knows phase s' -> same_channels s s' -> wp (k x) (ends ok (fun s' => kept s0 s' /\ known s')) s') ->
  wp (sbind m k) (ends ok (fun s' => kept s0 s' /\ known s')) s.
Proof.
  intros Hm Hmv Hk Hc. eapply (looks_then phase); [done|apply Hm| |].
  - intros x s' H1 H2 H3. apply Hc; [|done|apply H1]. rewrite <- (app_nil_r events). eapply moved_trans; [exact Hmv|]. by apply moved_looks.
  - intros s' H1 H2. split; [|done]. eapply kept_trans; [apply Hmv|done].
Qed.

Lemma watch_then {V} phase events (k : unit -> launch V) ok s0 s :
  moved events s0 s -> knows phase s ->
  (forall x s', moved events s0 s' -> knows phase s' -> same_channels s s' -> wp (k x) (ends ok (fun s' => kept s0 s' /\ known s')) s') ->
  wp (probe_gate >>! sbind ensure_deadline k) (ends ok (fun s' => kept s0 s' /\ known s')) s.
Proof.
  intros Hmv Hk Hc. eapply look_then; [apply probe_gate_spec|done|done|]. intros _ s1 M1 K1 C1.
  eapply look_then; [apply ensure_deadline_spec|done|done|]. intros x s2 M2 K2 C2. apply Hc; [done|done|]. unfold same_channels in *. congruence.
Qed.

(** One more event in the middle of a method. *)
Lemma moved_event events event s0 s s' : moved events s0 s -> recorded [event] s s' -> moved (events ++ [event]) s0 s'.
Proof. intros H1 H2. eapply moved_trans; [exact H1|]. by apply moved_recorded. Qed.

Lemma moved_start (s : state) : moved [] s s.
Proof. apply moved_looks; [apply untouched_refl|apply silently_refl]. Qed.

Lemma knows_event phase event s s' v :
  recorded [event] s s' -> knows phase s -> view_step (el_pid (self_of s)) (phase_view phase) event = Some v ->
  el_phase (self_of s') = phase /\ sees v s'.
Proof. intros Hr [Hp Hs] Hv. split; [by rewrite (proj1 Hr)|]. eapply recorded_sees; eauto. Qed.

(** A capture while the child is held. *)
Lemma capture_step {V} phase events (k : TaskAuditIdentity -> launch V) ok s0 s :
  moved events s0 s -> knows phase s -> phase_view phase = ChildStopped ->
  (forall identity s', moved (events ++ [Captured (el_pid (self_of s0)) identity]) s0 s' -> knows phase s' -> same_channels s s' ->
    wp (k identity) (ends ok (fun s' => kept s0 s' /\ known s')) s') ->
  wp (let! captured := capture in let! identity := slift (ok_or captured IdentityTransition) in k identity)
     (ends ok (fun s' => kept s0 s' /\ known s')) s.
Proof.
  intros Hm Hk Hv Hc. apply capture_then.
  - intros identity s' Hr. apply wp_bind, wp_lift. cbn [ok_or bound]. apply Hc.
    + rewrite <- (moved_pid _ _ _ Hm). by eapply moved_event.
    + pose proof (knows_event _ _ _ _ ChildStopped Hr Hk) as Hs'. rewrite Hv in Hs'. destruct (Hs' (view_captured _ _)) as [H1 H2]. split; [done|]. by rewrite Hv.
    + unfold same_channels. by rewrite (proj1 Hr).
  - intros s' Hr. apply wp_bind, wp_lift. cbn [ok_or bound]. apply recorded_none in Hr as [Hu Hq]. split; [eapply kept_trans; [apply Hm|apply Hu]|].
    exists phase. eauto using untouched_knows.
Qed.

(** The launcher at its first stop, and proven to be the installed one. *)
Definition proven_launcher (self : ExactLauncher) (before : TaskAuditIdentity) : Prop :=
  let expected := el_expected_launcher self in
  proves_exact_process_image before (el_pid self) (fl_real_uid expected) (fl_effective_uid expected)
    (fl_real_gid expected) (fl_effective_gid expected) (fl_executable expected) = true.

(** The target at its trap, and proven to be the launcher after its [execve]. *)
Definition proven_target (self : ExactLauncher) (before after : TaskAuditIdentity) : Prop :=
  let plan := ep_plan (el_plan self) in
  proves_exec_transition_from after before (el_pid self) (bp_effective_uid plan) (bp_effective_gid plan) (bp_installed_executable plan) = true.

Abbreviation over s := (fun s' => kept s s' /\ knows Reaped s').

Lemma wait_initial_stop_spec (s : state) :
  knows AwaitingInitialStop s ->
  wp wait_initial_stop (ends (fun before s' => exists status, traced_stop_signal status = Some SIGSTOP /\
    moved [Reported (el_pid (self_of s)) status; Captured (el_pid (self_of s)) before] s s' /\ same_channels s s' /\
    knows UnprovenInitialStop s' /\ proven_launcher (self_of s) before) (over s)) s.
Proof.
  intros Hs. apply consuming_spec. eapply look_then; [apply nonblocking_spec|apply moved_start|done|]. intros _ s1 M1 K1 C1.
  apply wp_bind. eapply wp_mono; [by apply (wait_stop_spec _ AwaitingInitialStop UnprovenInitialStop)|].
  intros [[]|e|] s2 H2; cbn [bound ends] in *; [|split; [eapply kept_trans; [apply M1|apply H2]|apply H2]|done].
  destruct H2 as (status & Hst & M2 & C2 & K2). pose proof (moved_trans _ _ _ _ _ M1 M2) as M. cbn [app] in M. rewrite (moved_pid _ _ _ M1) in M.
  eapply watch_then; [exact M|done|]. intros _ s3 M3 K3 C3. eapply capture_step; [done|done|done|]. intros before s4 M4 K4 C4.
  eapply watch_then; [exact M4|done|]. intros _ s5 M5 K5 C5. apply self_now_then.
  pose proof (proj1 M5) as (Hpid & _ & Hexp). rewrite Hpid, Hexp. unfold proven_launcher.
  destruct (proves_exact_process_image _ _ _ _ _ _ _) eqn:Ep; cbn [negb]; [apply wp_ret|apply wp_err; split; [apply M5|by eexists]].
  exists status. split_and!; [done|exact M5|unfold same_channels in *; congruence|exact K5|done].
Qed.

(** Continuing a held child. *)
Lemma continue_then {V} phase events (k : unit -> launch V) ok s0 s :
  moved events s0 s -> knows phase s -> phase_view phase = ChildStopped ->
  (forall s', moved (events ++ [Continued (el_pid (self_of s0)) 0]) s0 s' -> sees ChildRuns s' -> same_channels s s' ->
     wp (k tt) (ends ok (fun s' => kept s0 s' /\ known s')) s') ->
  wp (let! error := ptrace_continue in if negb (error =? 0) then serr (Native error) else k tt) (ends ok (fun s' => kept s0 s' /\ known s')) s.
Proof.
  intros Hm Hk Hv Hc. apply ptrace_continue_then. intros error s' Hr.
  pose proof (knows_event _ _ _ _ (if error =? 0 then ChildRuns else ChildStopped) Hr Hk) as Hs'. rewrite Hv in Hs'.
  destruct (Hs' (proj2 (view_stopped_call _ error))) as [H1 H2]. destruct (error =? 0) eqn:Ee; bsplit; cbn [negb].
  - subst error. apply Hc; [|done|]; [|unfold same_channels; by rewrite (proj1 Hr)]. rewrite <- (moved_pid _ _ _ Hm). by eapply moved_event.
  - apply wp_err. split; [eapply kept_trans; [apply Hm|apply (moved_recorded _ _ _ Hr)]|]. exists phase. split; [done|]. by rewrite Hv.
Qed.

Lemma prove_trace_spec (s : state) :
  knows UnprovenInitialStop s ->
  wp prove_trace_and_continue_to_exec (ends (fun _ s' =>
    moved [Continued (el_pid (self_of s)) 0] s s' /\ same_channels s s' /\ knows AwaitingExecTrap s') (over s)) s.
Proof.
  intros Hs. apply consuming_spec. eapply watch_then; [apply moved_start|done|]. intros _ s1 M1 K1 C1.
  apply (continue_then UnprovenInitialStop [] (fun _ => set_phase AwaitingExecTrap >>! probe_gate >>! ensure_deadline)); [done|done|done|].
  intros s2 M2 V2 C2. apply set_phase_then. set (s3 := (_, _, _)). assert (knows AwaitingExecTrap s3) as K3 by (split; [done|exact V2]).
  assert (moved [Continued (el_pid (self_of s)) 0] s s3) as M3 by exact M2.
  apply (look_then AwaitingExecTrap [Continued (el_pid (self_of s)) 0]); [apply probe_gate_spec|done|done|]. intros _ s4 M4 K4 C4.
  eapply wp_mono; [apply ensure_deadline_spec|]. intros r s5 (Hp & U5 & Q5). destruct r as [[]|e|]; cbn [ends]; [| |done].
  - split; [rewrite <- (app_nil_r [_]); eapply moved_trans; [exact M4|]; apply moved_looks; [done|by eapply Q5]|].
    split; [|eauto using untouched_knows]. unfold same_channels in *. destruct U5 as (_ & _ & -> & _). cbn in C4. congruence.
  - split; [eapply kept_trans; [apply M4|apply U5]|]. eexists. eauto using untouched_knows.
Qed.

Lemma wait_exec_trap_spec before (s : state) :
  knows AwaitingExecTrap s ->
  wp (wait_exec_trap before) (ends (fun after s' => exists status, traced_stop_signal status = Some SIGTRAP /\
    moved [Reported (el_pid (self_of s)) status; Captured (el_pid (self_of s)) after] s s' /\
    knows ExecTrapHeld s' /\ proven_target (self_of s) before after) (over s)) s.
Proof.
  intros Hs. apply consuming_spec. apply wp_bind. eapply wp_mono; [by apply (wait_stop_spec _ AwaitingExecTrap ObservedTracedStop)|].
  intros [[]|e|] s1 H1; cbn [bound ends] in *; [|done|done]. destruct H1 as (status & Hst & M1 & C1 & K1).
  apply set_phase_then. set (s2 := (_, _, _)). assert (knows ExecTrapHeld s2) as K2 by (split; [done|apply K1]).
  assert (moved [Reported (el_pid (self_of s)) status] s s2) as M2 by exact M1.
  eapply watch_then; [exact M2|done|]. intros _ s3 M3 K3 C3. eapply capture_step; [done|done|done|]. intros after s4 M4 K4 C4.
  apply self_now_then. pose proof (proj1 M4) as (Hpid & Hplan & _). rewrite Hpid, Hplan. unfold proven_target.
  destruct (proves_exec_transition_from _ _ _ _ _ _) eqn:Ep; cbn [negb]; [|apply wp_err; split; [apply M4|by eexists]].
  eapply watch_then; [exact M4|done|]. intros _ s5 M5 K5 C5. apply wp_ret. exists status. split_and!; [done|exact M5|exact K5|done].
Qed.

Lemma resume_target_spec (s : state) :
  knows ExecTrapHeld s ->
  wp resume_target (ends (fun _ s' => moved [Continued (el_pid (self_of s)) 0] s s' /\ knows RunningTarget s') (over s)) s.
Proof.
  intros Hs. apply consuming_spec. eapply look_then; [apply probe_gate_spec|apply moved_start|done|]. intros _ s1 M1 K1 C1.
  apply (continue_then ExecTrapHeld [] (fun _ => set_phase RunningTarget)); [done|done|done|].
  intros [[self k] w] M2 V2 C2. split; [exact M2|]. split; [done|exact V2].
Qed.

(** ** The plan *)

(** Closing the writer says nothing of the child. *)
Lemma close_plan_then {T} phase written (k : unit -> launch T) (Q : res LauncherWaitError T -> state -> Prop) s :
  knows phase s ->
  (forall s', recorded [PlanClosed written] s s' -> knows phase s' -> wp (k tt) Q s') ->
  wp (sbind (change_kernel (log_trace (PlanClosed written))) k) Q s.
Proof.
  intros Hs Hk. destruct s as [[self kernel] w]. apply Hk; [by split_and!|]. destruct Hs as [H1 H2]. split; [done|].
  eapply sees_event; [exact H2|done|done|]. done.
Qed.

Lemma take_write_then {T} (k : unit -> launch T) (Q : res LauncherWaitError T -> state -> Prop) s :
  (forall s', recorded [] s s' -> wp (k tt) Q s') -> wp (sbind (change_kernel take_write) k) Q s.
Proof. intros Hk. destruct s as [[self kernel] w]. apply Hk. split_and!; [done|done|]. cbn. by rewrite app_nil_r. Qed.

Lemma recorded_refl (s : state) : recorded [] s s.
Proof. split_and!; [done|done|]. by rewrite app_nil_r. Qed.

Definition plan_given (given : bytes) phase (s : state) (_ : unit) (s' : state) : Prop :=
  moved [PlanClosed given] s s' /\ same_channels s s' /\ knows phase s'.

Lemma deliver_loop_spec phase writes written frame (s : state) :
  knows phase s ->
  wp (deliver_loop written frame writes) (ends (plan_given (written ++ frame) phase s) (fun s' => kept s s' /\ known s')) s.
Proof.
  revert written frame s. induction writes as [|event writes IH]; intros written [|b frame] s Hs; cbn [deliver_loop].
  1, 3: apply (close_plan_then phase); [done|]; intros s' Hr Hk; apply wp_ret; rewrite app_nil_r; split; [by apply moved_recorded|];
        split; [unfold same_channels; by rewrite (proj1 Hr)|done].
  all: set (goal := ends _ _); assert (forall e s1, kept s s1 -> knows phase s1 ->
      wp (change_kernel (log_trace (PlanClosed written)) >>! serr e) goal s1) as Hclose by
    (intros e s1 H1 H2; apply (close_plan_then phase); [done|]; intros s' Hr Hk; apply wp_err; split; [|by eexists];
     eapply kept_trans; [exact H1|apply (moved_recorded _ _ _ Hr)]).
  all: unfold wp at 1; pose proof (watched_spec s) as Hw; unfold wp in Hw; destruct ((probe_gate >>! ensure_deadline) s) as [[[]|e|] s1];
    destruct Hw as (Hp & U1 & Q1); [|apply (Hclose e s1); [apply U1|eauto using untouched_knows]|done].
  all: pose proof (moved_looks _ _ U1 (Q1 tt eq_refl)) as M1; pose proof (untouched_knows _ _ _ U1 Hs) as K1; clear Q1.
  all: apply (take_write_then _ goal s1); intros s2 Hr; apply recorded_none in Hr as [U2 Q2]; pose proof (untouched_knows _ _ _ U2 K1) as K2;
    pose proof (moved_trans _ _ _ _ _ M1 (moved_looks _ _ U2 Q2)) as M2; pose proof (untouched_trans _ _ _ U1 U2) as Hu; cbn [app] in M2; clear U1 U2 Q2 M1 K1 Hp.
  { assert (wp (sbind (change_kernel (log_trace (PlanClosed (written ++ b :: frame)))) sret) goal s2) as Hg; [|destruct s2 as [[]]; exact Hg].
    apply (close_plan_then phase); [done|]. intros s' Hr Hk. apply wp_ret. split; [exact (moved_event [] _ _ _ _ M2 Hr)|]. split; [|done].
    unfold same_channels. rewrite (proj1 Hr). apply Hu. }
  assert (forall written' frame' s3, moved [] s s3 -> knows phase s3 -> same_channels s s3 -> written' ++ frame' = written ++ b :: frame ->
    wp (deliver_loop written' frame' writes) goal s3) as Hloop.
  { intros written' frame' s3 M3 K3 C3 Heq. eapply wp_mono; [by apply IH|]. intros r s4. apply ends_after; [apply M3|].
    intros [] s5 (M5 & C5 & K5). rewrite Heq in M5. split; [exact (moved_trans [] _ _ _ _ M3 M5)|]. split; [|done]. unfold same_channels in *. congruence. }
  destruct event as [more| | | |code].
  - apply Hloop; [done|done|apply Hu|]. by rewrite <- app_assoc, take_drop.
  - apply Hclose; [apply M2|done].
  - apply Hloop; [done|done|apply Hu|done].
  - unfold wp at 1. pose proof (poll_slice_spec s2) as Hp. unfold wp in Hp. destruct (poll_slice s2) as [[[]|e|] s3]; destruct Hp as (Hp & U3 & Q3); [| |done].
    + apply Hloop; [exact (moved_trans [] [] _ _ _ M2 (moved_looks _ _ U3 (Q3 tt eq_refl)))|eauto using untouched_knows| |done].
      unfold same_channels. destruct U3 as (_ & _ & -> & _). apply Hu.
    + apply (Hclose e s3); [eapply kept_trans; [apply M2|apply U3]|eauto using untouched_knows].
  - apply Hclose; [apply M2|done].
Qed.

Lemma deliver_plan_spec frame (s : state) :
  knows AwaitingExecTrap s -> el_channels (self_of s) = Some {| rc_plan := Some frame |} ->
  wp (consuming deliver_plan) (ends (fun _ s' => moved [PlanClosed frame] s s' /\ knows AwaitingExecTrap s') (over s)) s.
Proof.
  intros Hs Hc. apply consuming_spec. destruct s as [[self k] w]. unfold deliver_plan. apply (wp_run _ _ _ _ (self, k, w) (self, k, w)); [done|].
  cbn in Hc. rewrite Hc. set (self1 := with_channels (Some {| rc_plan := None |}) self). apply (wp_run _ _ _ _ tt (self1, k, w)); [done|].
  assert (knows AwaitingExecTrap (self1, k, w)) as K1 by exact Hs.
  apply wp_bind. eapply wp_mono; [by apply (deliver_loop_spec AwaitingExecTrap)|]. intros [[]|e|] s2 H2; cbn [bound ends] in *; [|done|done].
  destruct H2 as (M2 & _ & K2). assert (moved [PlanClosed frame] (self, k, w) s2) as M by exact M2.
  eapply look_then; [apply probe_gate_spec|exact M|done|]. intros _ s3 M3 K3 C3.
  eapply wp_mono; [apply ensure_deadline_spec|]. intros [[]|e|] s4 (Hp & U4 & Q4); cbn [ends]; [| |done].
  - split; [exact (moved_trans _ [] _ _ _ M3 (moved_looks _ _ U4 (Q4 tt eq_refl)))|eauto using untouched_knows].
  - split; [eapply kept_trans; [apply M3|apply U4]|]. eexists. eauto using untouched_knows.
Qed.

(** ** The target's end *)

(** The exit that is reported is the first terminal status. *)
Definition exits (s : state) (exit : ExactTargetExit) (s' : state) : Prop :=
  kept s s' /\ knows Reaped s' /\
  exists status rest, log_of s' = log_of s ++ Reported (el_pid (self_of s)) status :: rest /\
    traced_stop_signal status = None /\ exact_target_exit status = Some exit.

Lemma exits_after s s1 exit s' : untouched s s1 -> exits s1 exit s' -> exits s exit s'.
Proof.
  intros ((Hpid & Hk) & _ & _ & Hlog & _) (K & R & status & rest & L & Hs). split; [eapply kept_trans; [|exact K]; by split|]. split; [done|].
  exists status, rest. rewrite L, Hlog, Hpid. done.
Qed.

Lemma exit_loop_spec waits (s : state) :
  knows RunningTarget s -> wp (exit_loop waits) (ends (exits s) (fun s' => kept s s' /\ known s')) s.
Proof.
  revert s. induction waits as [|outcome waits IH]; intros s Hs; cbn [exit_loop];
    [set (again := slift Panic : launch ExactTargetExit)|set (again := exit_loop waits)].
  all: assert (forall s1, untouched s s1 -> knows RunningTarget s1 -> wp again (ends (exits s) (fun s' => kept s s' /\ known s')) s1) as Hagain by
    (intros s1 H1 H3; (apply wp_lift; exact (knows_legal _ _ H3)) ||
     (eapply wp_mono; [by apply IH|]; intros r s2; apply ends_after; [apply H1|]; intros x s3; by apply exits_after)).
  all: eapply (looks_then RunningTarget); [done|apply probe_gate_spec| |by auto]; intros _ s2 Hu Hq K2.
  all: apply wait_child_then; [intros status s3 Hr|intros s3 Hr|intros error s3 Hr He|intros s3 Hr].
  1, 5: pose proof (knows_event _ _ _ _ _ Hr K2 (view_reported _ ChildRuns status ltac:(done))) as [Hp3 Hs3];
    assert (kept s s3) as Hk3 by (eapply kept_trans; [apply Hu|apply (moved_recorded _ _ _ Hr)]);
    assert (log_of s3 = log_of s ++ [Reported (el_pid (self_of s)) status]) as L3 by
      (destruct Hr as (_ & _ & ->); destruct Hu as ((-> & _) & _ & _ & -> & _); done);
    destruct (traced_stop_signal status) as [signal|] eqn:Est.
  1, 3: apply set_phase_then; set (s4 := (_, _, _)); assert (knows ObservedTracedStop s4) as K4 by (split; [done|exact Hs3]);
    (eapply (looks_then ObservedTracedStop); [done|apply probe_gate_spec| |]);
    [intros _ s5 U5 _ K5; apply wp_err; split; [eapply kept_trans; [exact Hk3|apply U5]|by eexists]
    |intros s' ? ?; split; [eapply kept_trans; [exact Hk3|done]|done]].
  1, 2: eapply drained_then; [|exact Hs3| |by auto]; [done|]; intros s4 K4 R4 [rest L4];
    (eapply (looks_then Reaped); [done|apply probe_gate_spec| |]);
    [intros _ s5 U5 _ K5; apply wp_lift; assert (kept s s5) as Hk5 by (eapply kept_trans; [exact Hk3|]; eapply kept_trans; [exact K4|apply U5]);
     destruct (exact_target_exit status) as [exit|] eqn:Ex; cbn [ok_or ends]; [|split; [done|by eexists]];
     split; [done|]; split; [done|]; exists status, rest; split; [|done]; destruct U5 as (_ & _ & _ & -> & _); rewrite L4, L3, <- app_assoc; done
    |intros s' ? ?; split; [eapply kept_trans; [exact Hk3|]; by eapply kept_trans|done]].
  1, 4: apply recorded_none in Hr as [U3 Q3]; pose proof (untouched_knows _ _ _ U3 K2) as K3;
    (eapply (looks_then RunningTarget); [done|apply poll_slice_spec| |]);
    [intros _ s4 U4 Q4 K4; apply Hagain; eauto using untouched_trans
    |intros s' ? ?; split; [|done]; eapply kept_trans; [apply Hu|]; eapply kept_trans; [apply U3|done]].
  1, 3: apply recorded_none in Hr as [U3 Q3]; pose proof (untouched_knows _ _ _ U3 K2) as K3;
    destruct (error =? EINTR); [apply Hagain; eauto using untouched_trans|];
    rewrite (proj2 (Z.eqb_neq error ECHILD) He); apply wp_err; split; [eapply kept_trans; [apply Hu|apply U3]|by eexists].
  all: apply wp_lift; eexists; exact (recorded_sees _ _ _ _ _ Hr (proj2 K2) (view_gone _ ChildRuns ltac:(done))).
Qed.

Lemma wait_for_exit_spec (s : state) :
  knows RunningTarget s -> wp wait_for_exit (ends (exits s) (over s)) s.
Proof.
  intros Hs. apply wp_bind. eapply wp_mono.
  { apply (consuming_spec _ (exits s)). destruct s as [[self k] w]. by apply (exit_loop_spec (lk_waits k)). }
  intros [exit|e|] s1 H1; cbn [bound ends] in *; [|done|done]. destruct H1 as (K1 & R1 & status & rest & L1 & Hst).
  apply wp_bind. eapply wp_mono; [by eapply drop_spec|]. intros [[]|e|] s2 (K2 & Hl & Hne & H2); cbn [bound]; [|by destruct (Hne e)|done].
  destruct (H2 eq_refl) as [R2 [more L2]]. apply wp_ret. split; [eauto using kept_trans|]. split; [done|]. exists status, (rest ++ more).
  rewrite L2, L1, <- app_assoc. done.
Qed.

End Launcher.
