(* ===== verification/LauncherClaims.v ===== *)
(** * LauncherClaims: the target runs once it is proven, and never escapes *)

From S2P Require Import Prelude Bytes Tools Negotiation Native SupervisorWire SupervisorCodec Supervisor BrokerReport BrokerPlan BrokerCodec LauncherCodec BrokerReportTheory Watchdog AuthWire AuthPool Child BrokerControl BrokerHandover Launcher LauncherTheory.

(** ** The report and its commit *)

Section Commit.
Context {W : Type} {C : Clock W} {U : UptimeClock W}.

Abbreviation state := (ExactLauncher * LauncherKernel * W)%type.
Abbreviation entry T := (stm state BrokerEntryError T).
Abbreviation over s := (fun s' : state => kept s s' /\ knows Reaped s').
Abbreviation failing s := (fun s' : state => kept s s' /\ known s').

(** Code that uses the gate and the trace stream only. *)
Definition processed (s s' : state) : Prop :=
  kept s s' /\ el_phase (self_of s') = el_phase (self_of s) /\ log_of s' = log_of s.

Lemma processed_trans s s' s'' : processed s s' -> processed s' s'' -> processed s s''.
Proof. intros (? & ? & ?) (? & ? & ?). split; [eauto using kept_trans|]. split; congruence. Qed.
Lemma processed_knows phase s s' : processed s s' -> knows phase s -> knows phase s'.
Proof. intros ((Hp & _) & H1 & H2) [H3 H4]. split; [congruence|]. unfold sees in *. by rewrite Hp, H2. Qed.
Lemma untouched_processed s s' : untouched s s' -> processed s s'.
Proof. intros (? & ? & _ & ? & _). done. Qed.

Lemma on_process_then {E T V} (m : stm (DormantBrokerProcess * W) E T) (k : T -> stm state E V)
  (P : res E T -> DormantBrokerProcess * W -> Prop) ok s0 s phase :
  processed s0 s -> knows phase s -> wp m (fun r p => r <> Panic /\ P r p) (process_of s) ->
  (forall x s', processed s0 s' -> knows phase s' -> P (Ok x) (process_of s') -> wp (k x) (ends ok (failing s0)) s') ->
  wp (sbind (on_process m) k) (ends ok (failing s0)) s.
Proof.
  intros H0 Hs Hm Hk. apply wp_bind. eapply on_process_looks; [exact Hm|]. intros r [process w] [Hp HP]. set (s' := (_, _, _)).
  assert (processed s s') as H1 by done. pose proof (processed_trans _ _ _ H0 H1) as H2. pose proof (processed_knows _ _ _ H1 Hs) as H3.
  destruct r as [x|e|]; cbn [bound]; [by apply Hk| |done]. split; [apply H2|by eexists].
Qed.

(** A gate that closed ends the child too. *)
Lemma or_exit_spec {E} (m : stm state E (BrokerGateExit + unit)) ok failed (s : state) :
  wp m (ends (fun x s' => match x with inl _ => failing s s' | inr _ => ok s' end) failed) s ->
  wp (or_exit m) (ends (fun x s' => match x with inl _ => over s s' | inr _ => ok s' end) failed) s.
Proof.
  intros Hm. apply wp_bind. eapply wp_mono; [exact Hm|]. intros [[exit|[]]|e|] s1 H1; cbn [bound ends] in *; [|done..].
  destruct H1 as [K1 [phase H1]]. apply wp_bind. eapply wp_mono; [by eapply drop_spec|].
  intros [[]|e|] s2 (K2 & Hl & Hne & H2); cbn [bound]; [|by destruct (Hne e)|done]. split; [eauto using kept_trans|by apply H2].
Qed.

Definition trace_of (s : state) : ControlStream := db_control (el_process (self_of s)).

(** The whole report was written while the gate was silent. *)
Definition reported (s s' : state) : Prop :=
  processed s s' /\ quiet (process_of s) (process_of s') /\ cs_reads (trace_of s') = cs_reads (trace_of s) /\
  exists report, encode_broker_trace_report (exact_trace_report_binding (el_plan (self_of s))) = Ok report /\
    cs_sent (trace_of s') = cs_sent (trace_of s) ++ report.

Lemma finish_report_spec (p : DormantBrokerProcess * W) :
  wp finish_trace_report_before_authority (fun r p' => r <> Panic /\ undisturbed p p' /\ (r = Ok None -> quiet p p')) p.
Proof.
  destruct p as [process w]. unfold finish_trace_report_before_authority, finish_broker_trace_report. apply wp_bind, wp_map_err.
  apply (wp_run _ _ _ _ (process, w) (process, w)); [done|]. destruct (cs_shutdown (db_control process)); [by split_and!|].
  set (p1 := (on_control with_cs_ended process, w)). unfold wp at 1. cbn [on_self smodify map_err bound]. fold p1.
  assert (undisturbed (process, w) p1) as H1 by done. assert (quiet (process, w) p1) as Q1 by apply silently_refl.
  apply wp_bind. eapply wp_mono; [apply probe_spec|]. intros [[exit|]|e|] p2 (Hp & H2 & Q2); cbn [bound]; [..|done].
  - apply wp_ret. split_and!; [done|eauto using undisturbed_trans|done].
  - apply wp_ret. split_and!; [done|eauto using undisturbed_trans|]. intros _. eauto using quiet_trans.
  - split_and!; [done|eauto using undisturbed_trans|done].
Qed.

Lemma report_spec (s : state) :
  knows ExecTrapHeld s ->
  wp report_trace_stops (ends (fun x s' => match x with inl _ => over s s' | inr _ => reported s s' /\ knows ExecTrapHeld s' end) (over s)) s.
Proof.
  intros Hs. apply or_exit_spec, consuming_spec, self_now_then.
  assert (processed s s) as P0 by done.
  eapply (on_process_then _ _ (fun _ p => undisturbed (process_of s) p /\ quiet (process_of s) p)); [done|exact Hs| |].
  { eapply wp_mono; [apply deadline_live_spec|]. intros r p [? Hp]. split; [done|]. by apply same_self. }
  intros _ s1 P1 K1 [U1 Q1]. apply wp_bind, wp_lift.
  destruct (encode_broker_trace_report _) as [report|e|] eqn:Er; cbn [map_err bound]; [|split; [apply P1|by eexists]|by eapply knows_legal].
  eapply (on_process_then _ _ (fun _ p => undisturbed (process_of s) p /\ quiet (process_of s) p)); [exact P1|exact K1| |].
  { eapply wp_mono; [apply set_nonblocking_spec|]. intros r p (? & ? & ?). split; [done|]. eauto using undisturbed_trans, quiet_trans. }
  intros _ s2 P2 K2 [U2 Q2].
  eapply (on_process_then _ _ (writes_quietly report (process_of s2))); [exact P2|exact K2| |].
  { destruct (process_of s2) as [process w] eqn:Ep. eapply wp_mono; [apply (write_dormant_spec report _ (cs_sends (db_control process)) (process, w))|].
    intros r p Hw. split; [apply Hw|exact Hw]. }
  intros [exit|[]] s3 P3 K3 (_ & R3 & T3 & p & _ & W3 & Hall); [apply wp_ret; split; [apply P3|by eexists]|].
  destruct (Hall eq_refl) as [-> Q3].
  eapply (on_process_then _ _ (fun r p => undisturbed (process_of s3) p /\ (r = Ok None -> quiet (process_of s3) p))); [exact P3|exact K3| |].
  { eapply wp_mono; [apply finish_report_spec|]. tauto. }
  intros [exit|] s4 P4 K4 [U4 Q4]; apply wp_ret; [split; [apply P4|by eexists]|]. split; [|done]. split; [done|].
  split; [eapply quiet_trans; [exact Q2|]; eapply quiet_trans; [exact Q3|]; by apply Q4|].
  unfold undisturbed, process_of, trace_of in *. cbn [fst] in *. destruct U2 as (R2 & W2 & _). destruct U4 as (R4 & W4 & _).
  split; [congruence|]. exists report. split; [done|]. congruence.
Qed.

(** One byte, and the end of the stream. *)
Lemma resume_loop_spec reads (s : DormantBrokerProcess * W) :
  cs_reads (db_control (fst s)) = reads ->
  wp (resume_loop reads) (fun r s' => r <> Panic /\ cs_sent (db_control (fst s')) = cs_sent (db_control (fst s)) /\
    forall b, r = Ok (inr b) -> quiet s s' /\ b :: arrived (cs_reads (db_control (fst s'))) = arrived (cs_reads (db_control (fst s)))) s.
Proof.
  revert s. induction reads as [|event reads IH]; intros s Hs; cbn [resume_loop];
    (apply while_dormant_spec; [apply probe_spec| |intros r s' (? & ? & ?) ? Hx; split_and!; [done..|]; intros b ->; by destruct (Hx b)]);
    intros s1 (R1 & W1 & T1) Q1.
  { apply wp_err. by split_and!. }
  assert (forall s2, cs_reads (db_control (fst s2)) = reads -> cs_sent (db_control (fst s2)) = cs_sent (db_control (fst s)) -> quiet s s2 ->
    arrived reads = arrived (event :: reads) ->
    wp (resume_loop reads) (fun r s' => r <> Panic /\ cs_sent (db_control (fst s')) = cs_sent (db_control (fst s)) /\
      forall b, r = Ok (inr b) -> quiet s s' /\ b :: arrived (cs_reads (db_control (fst s'))) = arrived (cs_reads (db_control (fst s)))) s2) as Hloop.
  { intros s2 HR HW HQ Ha. eapply wp_mono; [by apply IH|]. intros r s3 (? & ? & Hx). split_and!; [done|congruence|].
    intros b Hb. destruct (Hx b Hb) as [? Hb']. split; [eauto using quiet_trans|]. rewrite Hb', HR, Hs. done. }
  destruct event as [first rest| | |code|].
  - apply set_control_spec, wp_ret. split_and!; [done|done|]. intros b [= <-]. split; [exact Q1|].
    destruct (taken_back 1 first rest reads) as (Hl & Ha & _); [lia|]. rewrite Hs. cbn [fst on_control db_control cs_reads with_cs_reads]. rewrite <- Ha.
    unfold taken. pose proof (len_nonneg rest). replace (Z.min (len (first :: rest)) 1) with 1 by (rewrite len_cons; lia). done.
  - apply set_control_spec. by apply Hloop.
  - apply set_control_spec. apply while_dormant_spec; [apply poll_gate_control_spec| |].
    + intros s3 (R3 & W3 & T3) Q3. apply Hloop; [cbn in *; congruence..| |done]. eapply quiet_trans; [exact Q1|exact Q3].
    + intros r s3 (R3 & W3 & T3) ? Hx. split_and!; [done|cbn in *; congruence|]. intros b ->. by destruct (Hx b).
  - apply set_control_spec, wp_err. by split_and!.
  - apply wp_err. by split_and!.
Qed.

Lemma resume_eof_spec reads (s : DormantBrokerProcess * W) :
  cs_reads (db_control (fst s)) = reads ->
  wp (resume_eof_loop reads) (fun r s' => r <> Panic /\ cs_sent (db_control (fst s')) = cs_sent (db_control (fst s)) /\
    (r = Ok (inr tt) -> quiet s s' /\ arrived reads = [])) s.
Proof.
  revert s. induction reads as [|event reads IH]; intros s Hs; cbn [resume_eof_loop];
    (apply while_dormant_spec; [apply probe_spec| |intros r s' (? & ? & ?) ? Hx; split_and!; [done..|]; intros ->; by destruct (Hx tt)]);
    intros s1 (R1 & W1 & T1) Q1.
  { apply wp_ret. by split_and!. }
  assert (forall s2, cs_reads (db_control (fst s2)) = reads -> cs_sent (db_control (fst s2)) = cs_sent (db_control (fst s)) -> quiet s s2 ->
    wp (resume_eof_loop reads) (fun r s' => r <> Panic /\ cs_sent (db_control (fst s')) = cs_sent (db_control (fst s)) /\
      (r = Ok (inr tt) -> quiet s s' /\ arrived reads = [])) s2) as Hloop.
  { intros s2 HR HW HQ. eapply wp_mono; [by apply IH|]. intros r s3 (? & ? & Hx). split_and!; [done|congruence|].
    intros Hb. destruct (Hx Hb) as [? ?]. split; [eauto using quiet_trans|done]. }
  destruct event as [first rest| | |code|]; cbn [arrived].
  - apply set_control_spec, wp_err. by split_and!.
  - apply set_control_spec. by apply Hloop.
  - apply set_control_spec. apply while_dormant_spec; [apply poll_gate_control_spec| |].
    + intros s3 (R3 & W3 & T3) Q3. apply Hloop; [cbn in *; congruence..|]. eapply quiet_trans; [exact Q1|exact Q3].
    + intros r s3 (R3 & W3 & T3) ? Hx. split_and!; [done|cbn in *; congruence|]. intros ->. by destruct (Hx tt).
  - apply set_control_spec, wp_err. by split_and!.
  - apply wp_ret. by split_and!.
Qed.

(** The commit came alone, while the gate was silent. *)
Definition committed (s s' : state) : Prop :=
  processed s s' /\ quiet (process_of s) (process_of s') /\ cs_sent (trace_of s') = cs_sent (trace_of s) /\
  arrived (cs_reads (trace_of s)) = BROKER_RESUME_BYTE.

Lemma ready_commit_spec (s : state) :
  knows ExecTrapHeld s ->
  wp wait_for_ready_commit (ends (fun x s' => match x with inl _ => over s s' | inr _ => committed s s' /\ knows ExecTrapHeld s' end) (over s)) s.
Proof.
  intros Hs. apply or_exit_spec, consuming_spec. assert (processed s s) as P0 by done.
  eapply (on_process_then _ _ (fun r p => cs_sent (db_control (fst p)) = cs_sent (trace_of s) /\ forall b, r = Ok (inr b) ->
    quiet (process_of s) p /\ b :: arrived (cs_reads (db_control (fst p))) = arrived (cs_reads (trace_of s)))); [done|exact Hs| |].
  { destruct s as [[self k] w]. apply (resume_loop_spec (cs_reads (db_control (el_process self))) (el_process self, w)). done. }
  intros [exit|resume] s1 P1 K1 [W1 H1]; [apply wp_ret; split; [apply P1|by eexists]|]. destruct (H1 resume eq_refl) as [Q1 A1].
  case_bool_decide as Hb; cbn [negb]; [|apply wp_err; split; [apply P1|by eexists]].
  eapply (on_process_then _ _ (fun r p => cs_sent (db_control (fst p)) = cs_sent (trace_of s1) /\
    (r = Ok (inr tt) -> quiet (process_of s1) p /\ arrived (cs_reads (trace_of s1)) = []))); [exact P1|exact K1| |].
  { destruct s1 as [[self k] w]. apply (resume_eof_spec (cs_reads (db_control (el_process self))) (el_process self, w)). done. }
  intros [exit|[]] s2 P2 K2 [W2 H2]; apply wp_ret; [split; [apply P2|by eexists]|]. destruct (H2 eq_refl) as [Q2 A2].
  split; [|done]. split; [done|]. split; [eapply quiet_trans; eauto|]. unfold trace_of, process_of in *. cbn [fst] in *. rewrite <- Hb, <- A1, A2.
  split; [congruence|done].
Qed.

End Commit.

(** ** What the world keeps while the broker looks at the clock *)

Section Stays.
Context {W : Type} {C : Clock W} (I : W -> Prop) (Hnow : forall w, I w -> I (snd (instant_now w))).

Definition stays {X E T} (m : stm (X * W) E T) : Prop := forall s, I (snd s) -> I (snd (snd (m s))).

Lemma stays_bind {X E T V} (m : stm (X * W) E T) (k : T -> stm (X * W) E V) : stays m -> (forall x, stays (k x)) -> stays (sbind m k).
Proof. intros Hm Hk s Hs. unfold sbind. specialize (Hm s Hs). destruct (m s) as [[x|e|] s']; [by apply Hk|done|done]. Qed.
Lemma stays_lift {X E T} (r : res E T) : stays (X := X) (slift r).
Proof. by intros s. Qed.
Lemma stays_get {X E} : stays (X := X) (E := E) sget.
Proof. by intros s. Qed.
Lemma stays_self {X E T} (m : stm X E T) : stays (on_self m).
Proof. intros [x w] Hs. unfold on_self. by destruct (m x). Qed.
Lemma stays_now {X E} : stays (X := X) (E := E) (on_world read_instant).
Proof. intros [x w] Hs. unfold on_world, read_instant. specialize (Hnow w Hs). by destruct (instant_now w). Qed.
Lemma stays_map_err {X E F T} (f : E -> F) (m : stm (X * W) E T) : stays m -> stays (smap_err f m).
Proof. intros Hm s Hs. unfold smap_err. specialize (Hm s Hs). by destruct (m s). Qed.

(** One rule, by the head of the program. *)
Ltac stays_step :=
  lazymatch goal with
  | |- stays (sbind _ _) => apply stays_bind; [|intros ?]
  | |- stays (sret _) => apply (stays_lift (Ok _))
  | |- stays (serr _) => apply (stays_lift (Err _))
  | |- stays (slift _) => apply stays_lift
  | |- stays sget => apply stays_get
  | |- stays (on_self _) => apply stays_self
  | |- stays (set_control _) => apply stays_self
  | |- stays (set_gate _) => apply stays_self
  | |- stays (on_world read_instant) => apply stays_now
  | |- stays (smap_err _ _) => apply stays_map_err
  | |- stays (while_dormant _ _) => apply stays_bind; [|intros ?]
  | |- stays (if ?b then _ else _) => destruct b
  | |- stays (match ?x with _ => _ end) => destruct x
  end.
Ltac stays_steps := repeat (stays_step; cbv beta); try done.

Context {U : UptimeClock W}.
Abbreviation broker T := (stm (DormantBrokerProcess * W) BrokerEntryError T).

Lemma read_once_stays {E} : stays (read_once (E := E)).
Proof. unfold read_once. stays_steps. Qed.
Lemma probe_stays : stays (probe_dormant_gate : broker _).
Proof.
  unfold probe_dormant_gate. apply stays_bind; [apply stays_get|]. intros [process w]. generalize (db_gate process). intros gate.
  induction gate as [|event gate IH]; cbn [probe_loop]; (apply stays_bind; [apply read_once_stays|intros ?]); stays_steps.
Qed.
Lemma live_stays deadline : stays (ensure_deadline_live deadline : broker _).
Proof. unfold ensure_deadline_live. stays_steps. Qed.
Lemma nonblocking_stays enabled : stays (set_nonblocking enabled : broker _).
Proof. unfold set_nonblocking. stays_steps. Qed.
Lemma poll_both_stays events deadline : stays (poll_control_and_gate events deadline : broker _).
Proof.
  unfold poll_control_and_gate. apply stays_bind; [apply stays_get|]. intros [process w]. generalize (cs_polls (db_control process)). intros polls.
  induction polls as [|event polls IH]; cbn [poll_both_loop]; stays_steps; try apply live_stays; try apply read_once_stays.
Qed.
Lemma write_stays l deadline : stays (write_control_while_dormant l deadline : broker _).
Proof.
  unfold write_control_while_dormant. apply stays_bind; [apply stays_get|]. intros [process w]. generalize (cs_sends (db_control process)). intros sends.
  revert l. induction sends as [|event sends IH]; intros [|b l]; cbn [write_dormant_loop]; stays_steps;
    try apply probe_stays; try apply live_stays; try apply poll_both_stays.
Qed.
Lemma finish_stays : stays (finish_trace_report_before_authority : broker _).
Proof. unfold finish_trace_report_before_authority, finish_broker_trace_report. stays_steps; apply probe_stays. Qed.
Lemma resume_stays : stays (read_resume_commit : broker _).
Proof.
  unfold read_resume_commit. apply stays_bind; [apply stays_get|]. intros [process w]. generalize (cs_reads (db_control process)). intros reads.
  induction reads as [|event reads IH]; cbn [resume_loop]; stays_steps; try apply probe_stays; try apply poll_both_stays.
Qed.
Lemma resume_eof_stays : stays (require_resume_commit_eof : broker _).
Proof.
  unfold require_resume_commit_eof. apply stays_bind; [apply stays_get|]. intros [process w]. generalize (cs_reads (db_control process)). intros reads.
  induction reads as [|event reads IH]; cbn [resume_eof_loop]; stays_steps; try apply probe_stays; try apply poll_both_stays.
Qed.

Abbreviation state := (ExactLauncher * LauncherKernel * W)%type.

Lemma on_process_stays {E T} (m : stm (DormantBrokerProcess * W) E T) : stays m -> stays (on_process m).
Proof. intros Hm [[self k] w] Hs. unfold on_process. specialize (Hm (el_process self, w) Hs). by destruct (m _) as [r []]. Qed.
Lemma change_kernel_stays {E} f : stays (change_kernel f : stm state E unit).
Proof. by intros [[self k] w]. Qed.
Lemma change_self_stays {E} f : stays (change_self f : stm state E unit).
Proof. by intros [[self k] w]. Qed.

Ltac launcher_stays :=
  unfold exact_unproven_stop_kill, exact_signal, exact_ptrace_kill, set_phase, self_now, wait_child, ptrace_kill, ptrace_continue, kill_child;
  repeat (first [stays_step|apply change_kernel_stays|apply change_self_stays|apply on_process_stays]; cbv beta); try done.

Lemma drain_stays {E} : stays (drain_exact_child : stm state E unit).
Proof.
  unfold drain_exact_child. apply stays_bind; [apply stays_get|]. intros [[self k] w]. generalize (lk_waits k). intros waits.
  induction waits as [|outcome waits IH]; cbn [drain_loop]; launcher_stays.
Qed.
Lemma drop_stays {E} : stays (drop_launcher : stm state E unit).
Proof. unfold drop_launcher, drop_channels. launcher_stays; apply drain_stays. Qed.
Lemma consuming_stays {E T} (m : stm state E T) : stays m -> stays (consuming m).
Proof.
  intros Hm s Hs. unfold consuming. specialize (Hm s Hs). destruct (m s) as [[x|e|] s1]; [done| |done].
  by apply (stays_bind drop_launcher (fun _ => serr (A := T) e) drop_stays (fun _ => stays_lift (Err e))).
Qed.
Lemma or_exit_stays {E} (m : stm state E (BrokerGateExit + unit)) : stays m -> stays (or_exit m).
Proof. intros Hm. apply stays_bind; [done|]. intros ?. launcher_stays. apply drop_stays. Qed.

Lemma report_stays : stays (report_trace_stops : stm state _ _).
Proof.
  apply or_exit_stays, consuming_stays. launcher_stays;
    first [apply live_stays|apply nonblocking_stays|apply write_stays|apply finish_stays].
Qed.
Lemma commit_stays : stays (wait_for_ready_commit : stm state _ _).
Proof. apply or_exit_stays, consuming_stays. launcher_stays; first [apply resume_stays|apply resume_eof_stays]. Qed.
Lemma probe_gate_stays : stays (probe_gate : stm state _ _).
Proof.
  unfold probe_gate, self_now. apply stays_bind; [launcher_stays|]. intros self. generalize (db_gate (el_process self)). intros gate.
  induction gate as [|event gate IH]; cbn [probe_gate_loop]; launcher_stays; apply read_once_stays.
Qed.
Lemma resume_target_stays : stays (resume_target : stm state _ _).
Proof. apply consuming_stays. launcher_stays; apply probe_gate_stays. Qed.

(** With what else is known of the code. *)
Lemma stays_with {E T} (m : stm state E T) (Q : res E T -> state -> Prop) s :
  stays m -> I (snd s) -> wp m Q s -> wp m (fun r s' => Q r s' /\ I (snd s')) s.
Proof. intros Hm Hs Hq. specialize (Hm s Hs). unfold wp in *. by destruct (m s). Qed.

End Stays.

(** ** The signature *)

(** What holds when the code returns a value. *)
Definition on_ok {S E T} (P : T -> S -> Prop) (r : res E T) (s : S) : Prop := forall x, r = Ok x -> P x s.

Lemma on_ok_bind {S E T V} (m : stm S E T) (k : T -> stm S E V) P s :
  (forall x s', wp (k x) (on_ok P) s') -> wp (sbind m k) (on_ok P) s.
Proof. intros Hk. unfold wp, sbind. destruct (m s) as [[x|e|] s']; [apply Hk|done|done]. Qed.
Lemma on_ok_err {S E T} (P : T -> S -> Prop) (e : E) s : wp (serr e) (on_ok P) s.
Proof. done. Qed.

Section Signature.
Context {A W F : Type} {C : Clock W} {U : UptimeClock W} {H : Sha256} {B : ExactAuthWorkerAuthority A W F}.

Abbreviation Pool := (AuthWorkerPool A).
Abbreviation state := (ExactLauncher * LauncherKernel * (Pool * W))%type.
Abbreviation signature T := (stm state (LauncherSignatureError F) T).
Abbreviation method T := (stm (Pool * W) (AuthAdapterError F) T).

(** A completed authentication is on record. *)
Lemma completed_recorded worker (s : Pool * W) :
  wp (poll_completed_authentication worker) (on_ok (fun completed s' =>
    exists job, last (ap_events (fst s')) = Some (Authenticated job completed))) s.
Proof.
  unfold poll_completed_authentication. apply on_ok_bind. intros self s1. apply on_ok_bind. intros slot s2. destruct (negb _); [done|].
  apply on_ok_bind. intros pending s3. destruct (pr_outcome pending); [done| |done]. apply on_ok_bind. intros late s4.
  assert (forall error s, wp (reject (T := CompletedAuthentication) (A := A) (W := W) (F := F) (slot_index worker) error) (on_ok (fun completed s' =>
    exists job, last (ap_events (fst s')) = Some (Authenticated job completed))) s) as Hrej.
  { intros error s'. apply on_ok_bind. intros _ s5. apply on_ok_bind. intros _ s6. apply on_ok_err. }
  destruct late; [apply Hrej|]. apply on_ok_bind. intros retirement s5. destruct retirement; [done| |by apply on_ok_bind].
  apply on_ok_bind. intros late s6. destruct late; [by apply on_ok_bind|]. apply on_ok_bind. intros _ [self7 w7].
  intros completed [= <-]. cbn. rewrite last_snoc. eauto.
Qed.

Definition trap_recorded (authenticated : AuthenticatedExecTrap) (s : Pool * W) : Prop :=
  exists job, last (ap_events (fst s)) = Some (Authenticated job (CompletedTrap authenticated)).

Lemma trap_completed_recorded worker (s : Pool * W) : wp (poll_completed_exec_trap worker) (on_ok trap_recorded) s.
Proof.
  apply wp_bind. eapply wp_mono; [apply completed_recorded|]. intros [[record|record]|e|] s' Hr; cbn [bound]; [done| |done|done].
  intros x [= <-]. exact (Hr _ eq_refl).
Qed.

Lemma complete_recorded received (s : Pool * W) : wp (complete_exec_trap received) (on_ok trap_recorded) s.
Proof. apply on_ok_bind. intros worker s'. apply trap_completed_recorded. Qed.

(** Code that looks, and uses the pool; it may end the process. *)
Definition softly {E T} (s : state) (r : res E T) (s' : state) : Prop :=
  untouched s s' /\ (forall x, r = Ok x -> quiet (process_of s) (process_of s')).

Lemma gently_softly {E T} (s : state) (r : res E T) s' : gently s r s' -> softly s r s'.
Proof. by intros (_ & ? & ?). Qed.

Lemma softly_then {E T V} (m : stm state E T) (k : T -> stm state E V) s :
  wp m (softly s) s -> (forall x s', wp (k x) (softly s') s') -> wp (sbind m k) (softly s) s.
Proof.
  intros Hm Hk. apply wp_bind. eapply wp_mono; [exact Hm|]. intros [x|e|] s1 [U1 Q1]; cbn [bound].
  - eapply wp_mono; [apply Hk|]. intros r s2 [U2 Q2]. split; [eauto using untouched_trans|]. intros y Hy. eapply quiet_trans; [by eapply Q1|by eapply Q2].
  - by split.
  - by split.
Qed.

Lemma softly_ret {E T} (x : T) s : wp (sret (E := E) x) (softly s) s.
Proof. split; [apply untouched_refl|]. intros _ _. apply silently_refl. Qed.
Lemma softly_lift {E T} (r : res E T) s : wp (slift r) (softly s) s.
Proof. split; [apply untouched_refl|]. intros _ _. apply silently_refl. Qed.

Lemma on_pool_softly {E T} (m : stm (Pool * W) E T) (s : state) : wp (on_pool m) (softly s) s.
Proof.
  destruct s as [[self k] pw]. unfold wp, on_pool, on_world. destruct (m pw) as [r pw']. split; [by split_and!|]. intros _ _. apply silently_refl.
Qed.

Lemma or_cancel_softly {E T} worker (failure : E -> LauncherSignatureError F) (m : stm state E T) s :
  wp m (softly s) s -> wp (or_cancel worker failure m) (softly s) s.
Proof.
  unfold wp, or_cancel. destruct (m s) as [[x|e|] s1]; intros [U1 Q1]; [split; [done|]; intros _ _; by eapply Q1| |by split].
  assert (wp (cancel_signature_worker (T := T) worker (failure e)) (softly s1) s1) as Hc.
  { apply softly_then; [apply on_pool_softly|]. intros _ s2. apply (softly_lift (Err (failure e))). }
  unfold wp in Hc. unfold cancel_signature_worker in *. set (out := sbind _ _ s1) in *.
  assert (forall x, fst out <> Ok x) as Hne.
  { intros x. unfold out, sbind. by destruct (on_pool _ s1) as [[]]. }
  destruct out as [r s2]. destruct Hc as [U2 Q2]. split; [eauto using untouched_trans|]. intros x ->. by destruct (Hne x).
Qed.

Lemma watched_softly worker (s : state) : wp (or_cancel worker Signature_Launcher (probe_gate >>! ensure_deadline)) (softly s) s.
Proof. apply or_cancel_softly. eapply wp_mono; [apply watched_spec|]. intros r s'. apply gently_softly. Qed.
Lemma slice_softly worker (s : state) : wp (or_cancel worker Signature_Launcher poll_slice) (softly s) s.
Proof. apply or_cancel_softly. eapply wp_mono; [apply poll_slice_spec|]. intros r s'. apply gently_softly. Qed.

Lemma result_loop_softly worker gate receipt (s : state) : wp (result_loop worker receipt gate) (softly s) s.
Proof.
  revert receipt s. induction gate as [|event gate IH]; intros receipt s; cbn [result_loop].
  all: apply softly_then; [apply watched_softly|]; intros _ s1; apply softly_then; [apply or_cancel_softly, on_pool_softly|].
  all: intros [next|received] s2; [apply softly_then; [apply slice_softly|]; intros _ s3|apply softly_ret].
  - apply softly_lift.
  - apply IH.
Qed.

Definition authenticates (s : state) (r : res (LauncherSignatureError F) AuthenticatedExecTrap) (s' : state) : Prop :=
  softly s r s' /\ on_ok (fun x s' => trap_recorded x (snd s')) r s'.

Lemma authenticates_after (s s1 : state) r s' :
  untouched s s1 -> quiet (process_of s) (process_of s1) -> authenticates s1 r s' -> authenticates s r s'.
Proof.
  intros U1 Q1 [[U2 Q2] Ho]. split; [|done]. split; [eauto using untouched_trans|]. intros x Hx. eapply quiet_trans; [exact Q1|by eapply Q2].
Qed.

Lemma authenticates_then {T} (m : signature T) (k : T -> signature AuthenticatedExecTrap) s :
  wp m (softly s) s -> (forall x s', wp (k x) (authenticates s') s') -> wp (sbind m k) (authenticates s) s.
Proof.
  intros Hm Hk. apply wp_bind. eapply wp_mono; [exact Hm|]. intros [x|e|] s1 [U1 Q1]; cbn [bound]; [|by split..].
  eapply wp_mono; [apply Hk|]. intros r s2. apply authenticates_after; [done|by eapply Q1].
Qed.

Lemma completion_loop_spec worker gate (complete : method AuthenticatedExecTrap) (s : state) :
  (forall s, wp complete (on_ok trap_recorded) s) -> wp (completion_loop worker complete gate) (authenticates s) s.
Proof.
  revert complete s. induction gate as [|event gate IH]; intros complete s Hc; unfold wp; cbn [completion_loop].
  all: destruct s as [[self k] pw]; unfold on_pool, on_world; specialize (Hc pw); unfold wp in Hc; destruct (complete pw) as [r pw1]; set (s := (self, k, pw));
    set (s1 := (self, k, pw1)); assert (untouched s s1) as U1 by (by split_and!); assert (quiet (process_of s) (process_of s1)) as Q1 by apply silently_refl;
    assert (forall e, authenticates s (Err e) s1) as Herr by (intros e; split; [by split|done]).
  all: destruct r as [x|e|]; [split; [by split|]; intros y [= <-]; exact (Hc x eq_refl)| |split; [by split|done]].
  all: destruct e; try apply Herr; case_bool_decide; [|apply Herr].
  all: apply (wp_mono (sbind _ _) (authenticates s1) (authenticates s) s1); [|intros r s2; by apply authenticates_after].
  all: apply authenticates_then; [apply watched_softly|]; intros _ s2; (apply authenticates_then; [apply slice_softly|]); intros _ s3.
  - by split; [apply (softly_lift Panic)|].
  - apply IH. intros s4. apply trap_completed_recorded.
Qed.

(** *** The turns of the loops

    More turns than there are reads of the gate change nothing. *)

Definition gate_of (s : state) : list GateEvent := db_gate (el_process (self_of s)).

Lemma bind_cong {E T V} (m : stm state E T) (k k' : T -> stm state E V) s :
  (forall x s', m s = (Ok x, s') -> k x s' = k' x s') -> sbind m k s = sbind m k' s.
Proof. unfold sbind. intros Hk. destruct (m s) as [[x|e|] s']; [by apply Hk|done|done]. Qed.

Lemma probe_shrinks gate (s s' : state) :
  gate_of s = gate -> probe_gate_loop gate s = (Ok tt, s') -> (length (gate_of s') < length gate)%nat.
Proof.
  revert s. induction gate as [|event gate IH]; intros [[self k] w] Hg; cbn [probe_gate_loop]; unfold gate_of in Hg; cbn in Hg;
    unfold sbind, on_process, read_once, sbind, sget; cbn [fst snd]; rewrite Hg; [discriminate|].
  set (self1 := with_process_state (with_gate gate (el_process self)) self). assert (gate_of (self1, k, w) = gate) as Hg1 by done.
  destruct event as [value| | | |code]; cbn -[probe_gate_loop]; try discriminate.
  - intros Hr. specialize (IH (self1, k, w) Hg1 Hr). cbn. lia.
  - intros [= <-]. unfold gate_of. cbn. lia.
  - destruct (code =? EINTR); [|destruct (code =? EAGAIN); [|discriminate]].
    + intros Hr. specialize (IH (self1, k, w) Hg1 Hr). cbn. lia.
    + intros [= <-]. unfold gate_of. cbn. lia.
Qed.

Lemma or_cancel_ok {E T} worker (failure : E -> LauncherSignatureError F) (m : stm state E T) s x s' :
  or_cancel worker failure m s = (Ok x, s') -> m s = (Ok x, s').
Proof.
  unfold or_cancel. destruct (m s) as [[y|e|] s1]; [by intros [= <- <-]| |discriminate].
  unfold cancel_signature_worker, sbind, serr. by destruct (on_pool _ s1) as [[]].
Qed.

Lemma ensure_deadline_same (s : state) : gate_of (snd (ensure_deadline s)) = gate_of s.
Proof.
  destruct s as [[self k] w]. unfold ensure_deadline, self_now, sbind, sget, on_world, sret, read_instant. destruct (instant_now w) as [now w'].
  by destruct (el_deadline self <=? now).
Qed.

Lemma watched_shrinks worker (s s' : state) x :
  or_cancel worker Signature_Launcher (probe_gate >>! ensure_deadline) s = (Ok x, s') -> (length (gate_of s') < length (gate_of s))%nat.
Proof.
  intros Hr%or_cancel_ok. unfold sbind in Hr. destruct (probe_gate s) as [[[]|e|] s1] eqn:Hp; [|discriminate..].
  assert (length (gate_of s1) < length (gate_of s))%nat as Hl by (destruct s as [[self k] w]; exact (probe_shrinks _ (self, k, w) s1 eq_refl Hp)).
  pose proof (ensure_deadline_same s1) as Hd. rewrite Hr in Hd. cbn in Hd. by rewrite Hd.
Qed.

Lemma slice_same worker (s s' : state) x : or_cancel worker Signature_Launcher poll_slice s = (Ok x, s') -> gate_of s' = gate_of s.
Proof.
  intros Hr%or_cancel_ok. destruct s as [[self k] w]. unfold poll_slice, sbind, sget, change_kernel, smodify in Hr.
  destruct (_ || _); [|discriminate]. unfold sret in Hr. injection Hr as <- <-. done.
Qed.

Lemma pooled_same {E T} (m : stm (Pool * W) E T) (s s' : state) r : on_pool m s = (r, s') -> gate_of s' = gate_of s.
Proof. destruct s as [[self k] w]. unfold on_pool, on_world. destruct (m w). by intros [= <- <-]. Qed.

Lemma result_turns worker gate extra receipt (s : state) :
  (length (gate_of s) <= length gate)%nat -> result_loop worker receipt (gate ++ extra) s = result_loop worker receipt gate s.
Proof.
  revert receipt s. induction gate as [|event gate IH]; intros receipt s Hl; [destruct extra as [|event extra]; [done|]|].
  all: cbn [app result_loop length] in *; apply bind_cong; intros _ s1 H1%watched_shrinks; try (exfalso; lia).
  apply bind_cong. intros polled s2 H2%or_cancel_ok%pooled_same. destruct polled as [next|]; [|done].
  apply bind_cong. intros _ s3 H3%slice_same. apply IH. rewrite H3, H2. lia.
Qed.

Lemma completion_turns worker gate extra complete (s : state) :
  (length (gate_of s) <= length gate)%nat -> completion_loop worker complete (gate ++ extra) s = completion_loop worker complete gate s.
Proof.
  revert complete s. induction gate as [|event gate IH]; intros complete s Hl; [destruct extra as [|event extra]; [done|]|].
  all: cbn [app completion_loop length] in *; destruct (on_pool complete s) as [[x|e|] s1] eqn:Hc; [done| |done]; apply pooled_same in Hc.
  all: destruct e; try done; case_bool_decide; [|done]; apply bind_cong; intros _ s2 H2%watched_shrinks; rewrite Hc in H2; try (exfalso; lia).
  apply bind_cong. intros _ s3 H3%slice_same. apply IH. rewrite H3. lia.
Qed.

(** The authentication that lets the target be reported. *)
Definition target_authentication (self : ExactLauncher) (after : TaskAuditIdentity) : AuthenticatedExecTrap :=
  let plan := ep_plan (el_plan self) in
  {| ae_audit_identity := audit_identity after; ae_effective_uid := bp_effective_uid plan; ae_effective_gid := bp_effective_gid plan;
     ae_frame_digest := ep_digest (el_plan self); ae_code_identity := bp_target_identity plan;
     ae_deadline := db_wire (ep_deadline (el_plan self)) |}.

Lemma verify_spec after job_id (s : state) :
  knows ExecTrapHeld s ->
  wp (verify_signature after job_id) (ends (fun _ s' => moved [] s s' /\ knows ExecTrapHeld s' /\
    trap_recorded (target_authentication (self_of s) after) (snd s')) (fun s' => kept s s' /\ knows Reaped s')) s.
Proof.
  intros Hs. apply consuming_spec, self_now_then.
  assert (forall T (m : signature T) (k : T -> signature unit) s1, moved [] s s1 -> knows ExecTrapHeld s1 -> (forall s, wp m (softly s) s) ->
    (forall x s2, moved [] s s2 -> knows ExecTrapHeld s2 -> wp (k x) (ends (fun _ s' => moved [] s s' /\ knows ExecTrapHeld s' /\
      trap_recorded (target_authentication (self_of s) after) (snd s')) (fun s' => kept s s' /\ known s')) s2) ->
    wp (sbind m k) (ends (fun _ s' => moved [] s s' /\ knows ExecTrapHeld s' /\
      trap_recorded (target_authentication (self_of s) after) (snd s')) (fun s' => kept s s' /\ known s')) s1) as Hthen.
  { intros T m k s1 M1 K1 Hm Hk. apply wp_bind. eapply wp_mono; [apply Hm|]. intros [x|e|] s2 [U2 Q2]; cbn [bound ends].
    - apply Hk; [exact (moved_trans [] [] _ _ _ M1 (moved_looks _ _ U2 (Q2 x eq_refl)))|eauto using untouched_knows].
    - split; [eapply kept_trans; [apply M1|apply U2]|eexists; eauto using untouched_knows].
    - eapply knows_legal, untouched_knows; eauto. }
  apply Hthen; [apply moved_start|done|intros; apply on_pool_softly|]. intros dispatched s1 M1 K1.
  apply Hthen; [done|done|intros; apply or_cancel_softly, on_pool_softly|]. intros receipt s2 M2 K2.
  apply Hthen; [done|done|intros s'; destruct s' as [[]]; apply softly_ret|]. intros gate s3 M3 K3.
  apply Hthen; [done|done|intros; apply result_loop_softly|]. intros received s4 M4 K4.
  apply Hthen; [done|done|intros s'; destruct s' as [[]]; apply softly_ret|]. intros gate' s5 M5 K5.
  apply wp_bind. eapply wp_mono; [apply completion_loop_spec; intros; apply complete_recorded|].
  intros [x|e|] s6 [[U6 Q6] Ho]; cbn [bound ends].
  2: split; [eapply kept_trans; [apply M5|apply U6]|eexists; eauto using untouched_knows].
  2: eapply knows_legal, untouched_knows; eauto.
  pose proof (moved_trans [] [] _ _ _ M5 (moved_looks _ _ U6 (Q6 x eq_refl))) as M6. pose proof (untouched_knows _ _ _ U6 K5) as K6.
  destruct (_ || _) eqn:Eb; [apply wp_err; split; [apply M6|by eexists]|apply wp_ret]. split; [done|]. split; [done|].
  destruct (Ho x eq_refl) as [job Hj]. exists job. rewrite Hj. do 3 f_equal. bsplit. destruct x. unfold target_authentication. cbn in *. congruence.
Qed.

(** ** The whole launch *)

Abbreviation over s := (fun s' : state => kept s s' /\ knows Reaped s').

Lemma step_then {E T V} (m : stm state E T) (k : T -> stm state FixedBrokerProcessFailure V) ok ok' (s s1 : state) :
  kept s s1 -> wp m (ends ok (over s1)) s1 -> (forall x s2, ok x s2 -> wp (k x) (ends ok' (over s)) s2) ->
  wp (sbind (launcher_step m) k) (ends ok' (over s)) s1.
Proof.
  intros Hk Hm Hc. apply wp_bind, wp_map_err. eapply wp_mono; [exact Hm|]. intros [x|e|] s2 H2; cbn [map_err bound ends] in *; [auto| |done].
  destruct H2. split; [eauto using kept_trans|done].
Qed.

Lemma protocol_then {V} m (k : unit -> stm state FixedBrokerProcessFailure V) (ok : state -> Prop) ok' (s s1 : state) :
  kept s s1 -> wp m (ends (fun x s' => match x with inl _ => over s1 s' | inr _ => ok s' end) (over s1)) s1 ->
  (forall s2, ok s2 -> wp (k tt) (ends ok' (over s)) s2) -> wp (sbind (protocol_step m) k) (ends ok' (over s)) s1.
Proof.
  intros Hk Hm Hc. apply wp_bind, wp_bind, wp_map_err. eapply wp_mono; [exact Hm|].
  intros [[exit|[]]|e|] s2 H2; cbn [map_err bound ends] in *; [apply wp_err|apply wp_ret; cbn [bound]; auto| |done].
  all: destruct H2; (split; [eauto using kept_trans|done]).
Qed.

(** What was done to the child, and what was known, when the target runs. *)
Definition resumed (frame : bytes) (s s' : state) : Prop :=
  exists before after stop trap report,
    let pid := el_pid (self_of s) in
    log_of s' = log_of s ++ [Reported pid stop; Captured pid before; Continued pid 0; PlanClosed frame;
                             Reported pid trap; Captured pid after; Continued pid 0] /\
    traced_stop_signal stop = Some SIGSTOP /\ traced_stop_signal trap = Some SIGTRAP /\
    proven_launcher (self_of s) before /\ proven_target (self_of s) before after /\
    trap_recorded (target_authentication (self_of s) after) (snd s') /\
    encode_broker_trace_report (exact_trace_report_binding (el_plan (self_of s))) = Ok report /\
    cs_sent (trace_of s') = cs_sent (trace_of s) ++ report /\
    arrived (cs_reads (trace_of s)) = BROKER_RESUME_BYTE /\
    quiet (process_of s) (process_of s').

Lemma moved_trace events (s s' : state) :
  moved events s s' -> cs_reads (trace_of s') = cs_reads (trace_of s) /\ cs_sent (trace_of s') = cs_sent (trace_of s).
Proof. intros (_ & _ & (H1 & H2 & _) & _). done. Qed.

Lemma resume_verified_spec frame job_id (s : state) :
  knows AwaitingInitialStop s -> el_channels (self_of s) = Some {| rc_plan := Some frame |} ->
  wp (resume_verified_target job_id) (ends (fun _ s' => kept s s' /\ knows RunningTarget s' /\ resumed frame s s') (over s)) s.
Proof.
  intros Hs Hc. eapply step_then; [apply kept_refl|by apply wait_initial_stop_spec|]. intros before s1 (stop & Hstop & M1 & C1 & K1 & Hbefore).
  eapply step_then; [apply M1|by apply prove_trace_spec|]. intros _ s2 (M2 & C2 & K2). pose proof (moved_trans _ _ _ _ _ M1 M2) as M12.
  eapply step_then; [apply M12|apply (deliver_plan_spec frame); [done|unfold same_channels in *; congruence]|]. intros _ s3 (M3 & K3).
  pose proof (moved_trans _ _ _ _ _ M12 M3) as M13.
  eapply step_then; [apply M13|by apply wait_exec_trap_spec|]. intros after s4 (trap & Htrap & M4 & K4 & Hafter).
  pose proof (moved_trans _ _ _ _ _ M13 M4) as M14.
  eapply step_then; [apply M14|by apply verify_spec|]. intros _ s5 (M5 & K5 & Hauth). pose proof (moved_trans _ _ _ _ _ M14 M5) as M15.
  set (signed := fun pw : Pool * W => trap_recorded (target_authentication (self_of s4) after) pw).
  assert (forall pw, signed pw -> signed (snd (instant_now pw))) as Hnow.
  { intros [pool w]. cbn. by destruct (instant_now w). }
  eapply (protocol_then _ _ (fun s' => (reported s5 s' /\ knows ExecTrapHeld s') /\ signed (snd s'))); [apply M15| |].
  { eapply wp_mono; [apply (stays_with signed); [by apply report_stays|exact Hauth|by apply report_spec]|].
    intros [[exit|[]]|e|] s' [H1 H2]; cbn in *; done. }
  intros s6 [[(P6 & Q6 & R6 & report & Hreport & W6) K6] S6].
  eapply (protocol_then _ _ (fun s' => (committed s6 s' /\ knows ExecTrapHeld s') /\ signed (snd s'))); [eapply kept_trans; [apply M15|apply P6]| |].
  { eapply wp_mono; [apply (stays_with signed); [by apply commit_stays|exact S6|by apply ready_commit_spec]|].
    intros [[exit|[]]|e|] s' [H1 H2]; cbn in *; done. }
  intros s7 [[(P7 & Q7 & W7 & A7) K7] S7]. assert (kept s s7) as Hk7 by (eapply kept_trans; [apply M15|]; eapply kept_trans; [apply P6|apply P7]).
  apply wp_map_err. eapply wp_mono; [apply (stays_with signed); [by apply resume_target_stays|exact S7|by apply resume_target_spec]|].
  intros [[]|e|] s8 [H8 S8]; cbn [map_err ends] in *; [|destruct H8; split; [eauto using kept_trans|done]|done].
  destruct H8 as [M8 K8]. split; [eapply kept_trans; [exact Hk7|apply M8]|]. split; [done|].
  exists before, after, stop, trap, report. apply moved_trace in M8 as Ht8. pose proof (moved_trace _ _ _ M15) as Ht5.
  assert (forall s', kept s s' -> el_plan (self_of s') = el_plan (self_of s) /\ el_pid (self_of s') = el_pid (self_of s)) as Hsame.
  { intros s' (? & ? & _). done. }
  destruct (Hsame s3 (proj1 M13)) as [Hp3 Hi3]. destruct (Hsame s4 (proj1 M14)) as [Hp4 Hi4]. destruct (Hsame s5 (proj1 M15)) as [Hp5 Hi5].
  destruct (Hsame s7 Hk7) as [Hp7 Hi7].
  rewrite Hp5 in Hreport. destruct Ht5 as [R5 W5]. destruct Ht8 as [_ W8].
  split_and!; [|done|done|done| | |done|congruence|congruence|].
  - destruct M8 as (_ & -> & _). destruct P7 as (_ & _ & ->). destruct P6 as (_ & _ & ->). destruct M15 as (_ & -> & _).
    rewrite (moved_pid _ _ _ M1), Hi3, Hi7. by rewrite <- app_assoc.
  - unfold proven_target in *. by rewrite <- Hp3, <- Hi3.
  - unfold signed, target_authentication in S8. unfold target_authentication. by rewrite <- Hp4.
  - eapply quiet_trans; [apply M15|]. eapply quiet_trans; [exact Q6|]. eapply quiet_trans; [exact Q7|apply M8].
Qed.

Lemma armed_knows (self : ExactLauncher) (k : LauncherKernel) (pw : Pool * W) :
  el_phase self = AwaitingInitialStop -> lk_log k = [] -> knows AwaitingInitialStop (self, k, pw).
Proof. intros Hp Hl. split; [done|]. unfold sees, log_of. cbn. by rewrite Hl. Qed.

(** C21: The target's first instruction runs only when everything was proven. If
    the broker resumes the target, then, in this order and with nothing else
    done to the child: it stopped with [SIGSTOP], the image was identified as
    the installed launcher with the broker's own credentials, it was continued,
    it was given the plan's whole frame, it stopped with [SIGTRAP], the image was
    identified as the plan's executable after one [execve] of the same process,
    and it was continued. Before that a cleanly reaped worker had authenticated
    exactly this image against the plan's identity, digest and deadline, the
    canonical report was written in full, the service answered with the one
    resume byte and the end of the stream, and the gate was silent throughout. *)
Theorem target_runs_once_proven frame job_id self k pool w self' k' pool' w' :
  el_phase self = AwaitingInitialStop -> lk_log k = [] -> el_channels self = Some {| rc_plan := Some frame |} ->
  resume_verified_target job_id (self, k, (pool, w)) = (Ok tt, (self', k', (pool', w'))) ->
  exists before after stop trap report job,
    lk_log k' = [Reported (el_pid self) stop; Captured (el_pid self) before; Continued (el_pid self) 0; PlanClosed frame;
                 Reported (el_pid self) trap; Captured (el_pid self) after; Continued (el_pid self) 0] /\
    traced_stop_signal stop = Some SIGSTOP /\ traced_stop_signal trap = Some SIGTRAP /\
    proven_launcher self before /\ proven_target self before after /\
    last (ap_events pool') = Some (Authenticated job (CompletedTrap (target_authentication self after))) /\
    encode_broker_trace_report (exact_trace_report_binding (el_plan self)) = Ok report /\
    cs_sent (db_control (el_process self')) = cs_sent (db_control (el_process self)) ++ report /\
    arrived (cs_reads (db_control (el_process self))) = BROKER_RESUME_BYTE /\
    silently (db_gate (el_process self)) (db_gate (el_process self')) /\
    el_phase self' = RunningTarget.
Proof.
  intros Hp Hl Hc Hrun. pose proof (resume_verified_spec frame job_id (self, k, (pool, w)) (armed_knows _ _ _ Hp Hl) Hc) as Hw.
  unfold wp in Hw. rewrite Hrun in Hw. destruct Hw as (_ & [Hphase _] & before & after & stop & trap & report & Hlog & H1 & H2 & H3 & H4 & [job H5] & H6 & H7 & H8 & H9).
  exists before, after, stop, trap, report, job. unfold log_of in Hlog. cbn [fst snd self_of] in *. rewrite Hl in Hlog. done.
Qed.

(** C22: The child is never lost. Whatever the kernel, the service and the launcher
    do, every call the broker makes on the child is one it may make at that point
    (it inspects, continues and trace-kills a stopped child only, signals no child
    whose death was reported, and never names one that was consumed), and when
    the broker is done, the kernel has said that nothing of the child is left; the
    exit it returns is that of a status the child reported. *)
Theorem child_never_lost frame job_id self k pw r self' k' pw' :
  el_phase self = AwaitingInitialStop -> lk_log k = [] -> el_channels self = Some {| rc_plan := Some frame |} ->
  supervise_target job_id (self, k, pw) = (r, (self', k', pw')) ->
  exists v, view_of (el_pid self') (lk_log k') = Some v /\ (r <> Panic -> v = ChildConsumed /\ el_pid self' = el_pid self) /\
    forall exit, r = Ok exit -> exists status, Reported (el_pid self) status ∈ lk_log k' /\
      traced_stop_signal status = None /\ exact_target_exit status = Some exit.
Proof.
  intros Hp Hl Hc Hrun. set (s := (self, k, pw)).
  assert (wp (supervise_target job_id) (ends (fun exit s' => kept s s' /\ knows Reaped s' /\ exists status, Reported (el_pid self) status ∈ log_of s' /\
    traced_stop_signal status = None /\ exact_target_exit status = Some exit) (over s)) s) as Hw.
  { apply wp_bind. eapply wp_mono; [apply (resume_verified_spec frame); [by apply armed_knows|done]|].
    intros [[]|e|] s1 H1; cbn [bound ends] in *; [|done|done]. destruct H1 as (K1 & R1 & _).
    apply wp_map_err. eapply wp_mono; [by apply wait_for_exit_spec|]. intros [exit|e|] s2 H2; cbn [map_err ends] in *; [| |done].
    - destruct H2 as (K2 & R2 & status & rest & L2 & Hst). split; [eauto using kept_trans|]. split; [done|]. exists status. split; [|done].
      rewrite L2, (proj1 K1). set_solver.
    - destruct H2. split; [eauto using kept_trans|done]. }
  unfold wp in Hw. fold s in Hrun. rewrite Hrun in Hw. destruct r as [exit|e|]; cbn [ends] in Hw.
  - destruct Hw as ((Hpid & _) & [_ Hv] & status & Hst). exists ChildConsumed. split; [exact Hv|]. split; [done|]. intros x [= <-]. eauto.
  - destruct Hw as ((Hpid & _) & [_ Hv]). exists ChildConsumed. by split_and!.
  - destruct Hw as [v Hv]. by exists v.
Qed.

End Signature.

(** ** The end of a drop *)

Section Drop.
Context {W : Type} {C : Clock W} {U : UptimeClock W}.
Abbreviation state := (ExactLauncher * LauncherKernel * W)%type.

(** A kernel that answers as documented: a call on an unreaped child succeeds or
    finds it dying, and a wait reports, is interrupted, or finds no child. *)
Definition answers (k : LauncherKernel) : Prop :=
  Forall (fun error => error = 0 \/ error = ESRCH) (lk_ptraces k) /\
  Forall (fun error => error = 0 \/ error = ESRCH) (lk_kills k) /\
  Forall (fun outcome => match outcome with
                         | Reports _ => True
                         | WaitFailed error => error = EINTR \/ error = ECHILD
                         | NoReport => False
                         end) (lk_waits k).

Definition answered (waits : list TraceWait) {E} (r : res E unit) (s' : state) : Prop :=
  r = Ok tt /\ answers (snd (fst s')) /\ lk_waits (snd (fst s')) = waits.

Lemma error_answers errors : Forall (fun error => error = 0 \/ error = ESRCH) errors ->
  negb (hd 0 errors =? 0) && negb (hd 0 errors =? ESRCH) = false.
Proof. intros [|error l [-> | ->] Hl]; reflexivity. Qed.

Lemma tail_forall {A} (P : A -> Prop) (l : list A) : Forall P l -> Forall P (tail l).
Proof. by intros []. Qed.

Lemma ptrace_kill_answered {E} (s : state) : answers (snd (fst s)) -> wp (exact_ptrace_kill (E := E)) (answered (lk_waits (snd (fst s)))) s.
Proof.
  destruct s as [[self k] w]. intros (H1 & H2 & H3). cbn [fst snd] in *. unfold wp, exact_ptrace_kill, ptrace_kill, sbind, sget, change_kernel, smodify, sret.
  rewrite (error_answers _ H1). split; [done|]. split; [|done]. split_and!; [by apply tail_forall|done|done].
Qed.
Lemma signal_answered {E} signal (s : state) : answers (snd (fst s)) -> wp (exact_signal (E := E) signal) (answered (lk_waits (snd (fst s)))) s.
Proof.
  destruct s as [[self k] w]. intros (H1 & H2 & H3). cbn [fst snd] in *. unfold wp, exact_signal, kill_child, sbind, sget, change_kernel, smodify, sret.
  rewrite (error_answers _ H2). split; [done|]. split; [|done]. split_and!; [done|by apply tail_forall|done].
Qed.
Lemma unproven_answered {E} (s : state) : answers (snd (fst s)) -> wp (exact_unproven_stop_kill (E := E)) (answered (lk_waits (snd (fst s)))) s.
Proof.
  destruct s as [[self k] w]. intros (H1 & H2 & H3). cbn [fst snd] in *. set (k' := log_trace (TraceKilled (el_pid self) (hd 0 (lk_ptraces k))) (take_ptrace k)).
  assert (answers k') as Hk by (split_and!; [by apply tail_forall|done|done]).
  apply (wp_run _ _ _ _ (hd 0 (lk_ptraces k)) (self, k', w)); [done|]. destruct (_ =? 0); [by split|]. by apply (signal_answered _ (self, k', w)).
Qed.

(** Each turn of the drain uses up one answer. *)
Lemma drain_answered {E} waits (s : state) :
  answers (snd (fst s)) -> lk_waits (snd (fst s)) = waits -> wp (drain_loop (E := E) waits) (fun r _ => r = Ok tt) s.
Proof.
  revert s. induction waits as [|outcome waits IH]; intros [[self k] w] Ha Hw; cbn [fst snd] in *; cbn [drain_loop].
  { apply (wp_run _ _ _ _ (WaitFailed ECHILD) (self, log_trace (Gone (el_pid self)) (take_wait k), w)); [|done].
    unfold wait_child, sbind, sget, change_kernel, smodify, sret. by rewrite Hw. }
  destruct Ha as (H1 & H2 & H3). rewrite Hw in H3. apply Forall_cons in H3 as [Ho H3].
  destruct outcome as [status| |error]; [| |]; [|done|].
  - set (k' := log_trace (Reported (el_pid self) status) (take_wait k)).
    apply (wp_run _ _ _ _ (Reports status) (self, k', w)); [unfold wait_child, sbind, sget, change_kernel, smodify, sret; by rewrite Hw|].
    assert (lk_waits k' = waits) as Hw' by (cbn; by rewrite Hw). assert (answers k') as Ha by (split_and!; [done|done|by rewrite Hw']).
    destruct (traced_stop_signal status); [|by apply (IH (self, k', w))].
    apply wp_bind. eapply wp_mono; [by apply (ptrace_kill_answered (self, k', w))|]. intros r s2 (-> & Ha2 & Hw2). cbn [bound]. apply IH; [done|]. by rewrite Hw2.
  - set (k' := if error =? ECHILD then log_trace (Gone (el_pid self)) (take_wait k) else take_wait k).
    apply (wp_run _ _ _ _ (WaitFailed error) (self, k', w)).
    { unfold k', wait_child, sbind, sget, change_kernel, smodify, sret. rewrite Hw. by destruct (error =? ECHILD). }
    destruct Ho as [-> | ->]; [|done]. apply (IH (self, take_wait k, w)); [split_and!; [done|done|]|]; cbn; by rewrite Hw.
Qed.

Lemma drop_channels_answered {E} self k (w : W) :
  answers k -> exists self' k', drop_channels (E := E) (self, k, w) = (Ok tt, (self', k', w)) /\ answers k' /\ el_phase self' = el_phase self.
Proof.
  intros Ha. unfold drop_channels, self_now, change_self, change_kernel, sbind, sget, smodify, sret.
  destruct (el_channels self) as [[[frame|]]|]; do 2 eexists; (split; [reflexivity|]); done.
Qed.

(** Dropping the authority returns. In every phase the kernel's answers can
    find it in, the drop ends the child and waits until nothing is left of it:
    it neither aborts nor stops early, however many stops, duplicate terminal
    reports and interruptions come first. *)
Theorem drop_returns self k (w : W) :
  answers k -> view_of (el_pid self) (lk_log k) = Some (phase_view (el_phase self)) ->
  exists self' k' w', drop_launcher (E := LauncherWaitError) (self, k, w) = (Ok tt, (self', k', w')) /\
    el_phase self' = Reaped /\ view_of (el_pid self) (lk_log k') = Some ChildConsumed.
Proof.
  intros Ha Hv. pose proof (drop_spec (E := LauncherWaitError) (el_phase self) (self, k, w) (conj eq_refl Hv)) as Hd.
  assert (wp (drop_launcher (E := LauncherWaitError)) (fun r _ => r = Ok tt) (self, k, w)) as Hok; [|unfold wp in *].
  2: { destruct (drop_launcher _) as [r [[self' k'] w']]. subst r. destruct Hd as ((Hpid & _) & _ & _ & Hd). destruct (Hd eq_refl) as [[Hp Hs] _].
       exists self', k', w'. split; [done|]. split; [done|]. unfold sees in Hs. by rewrite Hpid in Hs. }
  destruct (drop_channels_answered (E := LauncherWaitError) self k w Ha) as (self1 & k1 & Hrun & Ha1 & Hp1).
  apply (wp_run _ _ _ _ tt (self1, k1, w)); [exact Hrun|]. apply (wp_run _ _ _ _ self1 (self1, k1, w)); [done|].
  assert (forall (m : stm state LauncherWaitError unit), wp m (answered (lk_waits k1)) (self1, k1, w) ->
    wp (m >>! drain_exact_child >>! set_phase Reaped) (fun r _ => r = Ok tt) (self1, k1, w)) as Hending.
  { intros m Hm. apply wp_bind. eapply wp_mono; [exact Hm|]. intros r [[self2 k2] w2] (-> & Ha2 & Hw2). cbn [bound fst snd] in *.
    apply wp_bind. eapply wp_mono; [apply (drain_answered (lk_waits k2) (self2, k2, w2)); done|]. by intros r [[self3 k3] w3] ->. }
  rewrite Hp1. destruct (el_phase self); try apply Hending; [..|done].
  all: first [by apply (signal_answered _ (self1, k1, w))|by apply (unproven_answered (self1, k1, w))|by apply (ptrace_kill_answered (self1, k1, w))].
Qed.

End Drop.

(** ** A launch, and a drop *)

#[local] Existing Instance ticking.
#[local] Existing Instance ticking_uptime.
#[local] Existing Instance first_bytes.

(** Workers that exit cleanly once asked a second time. *)
#[local] Instance prompt_worker : ExactAuthWorkerAuthority bool nat unit := {|
  authority_try_reap_after_result := fun '(asked, w) => (Ok (if asked : bool then Some true else None), (true, S w));
  authority_try_terminate_and_reap := fun '(asked, w) => (Ok (Some false), (true, S w));
  authority_emergency_terminate_and_reap := fun '(asked, w) => (Ok false, (true, S w))
|}.

Definition launched_plan : ExactParentBrokerLaunchPlan :=
  {| ep_plan := plan; ep_deadline := {| db_wire := 5000; db_local := 4999 |}; ep_digest := replicate 32 x09 |}.
Definition launched_frame : bytes := launcher_wire (from_broker plan).

Definition launcher_path : bytes := [x2f; x6f; x70; x74].
Definition identity_before : TaskAuditIdentity := {| ti_values := [0; 501; 20; 501; 20; 77; 0; 1]; ti_executable := launcher_path |}.
Definition identity_after : TaskAuditIdentity := {| ti_values := [0; 501; 20; 501; 20; 77; 0; 2]; ti_executable := bp_installed_executable plan |}.

Definition job_name : bytes := replicate 32 x05.
Definition trap_job : AuthWorkerJob :=
  {| aj_worker := {| wi_slot := 0; wi_generation := 1 |}; aj_job_id := job_name; aj_audit_identity := audit_identity identity_after;
     aj_effective_uid := 501; aj_effective_gid := 20; aj_frame_digest := replicate 32 x09; aj_deadline := 5000 |}.
Definition verdict_bytes : bytes :=
  match encode_auth_worker_result {| ar_job := trap_job; ar_code_identity := replicate 32 x04 |} with Ok l => l | _ => [] end.

Definition one_worker : AuthWorkerPool bool :=
  {| ap_slots := [Some {| ws_identity := {| wi_slot := 0; wi_generation := 1 |}; ws_worker := from_unreaped_worker false;
                          ws_endpoint := Some {| we_request := AcceptsWhole; we_result := WouldBlock :: arrives verdict_bytes ++ [EndOfStream] |};
                          ws_pending := None |}];
     ap_live_jobs := ∅; ap_last_worker_generation := 1; ap_events := [] |}.

Definition launcher0 : ExactLauncher :=
  {| el_pid := 77; el_phase := AwaitingInitialStop; el_plan := launched_plan;
     el_process := {| db_gate := replicate 40 GateEmpty; db_control := with_cs_reads [WouldBlock; Arrives x01 []; EndOfStream] idle;
                      db_trace := idle; db_flags := [] |};
     el_expected_launcher := {| fl_real_uid := 501; fl_effective_uid := 501; fl_real_gid := 20; fl_effective_gid := 20;
                                fl_executable := launcher_path |};
     el_channels := Some {| rc_plan := Some launched_frame |} |}.

(** [0x117f] and [0x057f] are the stops, 3 is an exit that is reported twice. *)
Definition kernel0 : LauncherKernel :=
  {| lk_waits := [NoReport; Reports 4479; WaitFailed EINTR; Reports 1407; NoReport; Reports 768; Reports 768]; lk_ptraces := []; lk_kills := []; lk_polls := [];
     lk_writes := [Takes 9; SendBlocks]; lk_identities := [Some identity_before; Some identity_after]; lk_log := [] |}.

Definition launch_run := resume_verified_target job_name (launcher0, kernel0, (one_worker, 10%nat)).

Lemma target_runs_once_proven_witness :
  fst launch_run = Ok tt /\
  exists stop before, lk_log (snd (fst (snd launch_run))) !! 0%nat = Some (Reported 77 stop) /\ traced_stop_signal stop = Some SIGSTOP /\
    proven_launcher launcher0 before.
Proof.
  split; [vm_compute; reflexivity|].
  destruct (target_runs_once_proven launched_frame job_name launcher0 kernel0 one_worker (10%nat) (fst (fst (snd launch_run)))
    (snd (fst (snd launch_run))) (fst (snd (snd launch_run))) (snd (snd (snd launch_run))))
    as (before & after & stop & trap & report & job & Hlog & Hstop & _ & Hbefore & _).
  - reflexivity.
  - reflexivity.
  - reflexivity.
  - vm_compute. reflexivity.
  - exists stop, before. split; [rewrite Hlog; reflexivity|]. split; [exact Hstop|exact Hbefore].
Defined.

Definition supervision := supervise_target job_name (launcher0, kernel0, (one_worker, 10%nat)).

Lemma child_never_lost_witness :
  fst supervision = Ok (Exited 3) /\ exists v, view_of 77 (lk_log (snd (fst (snd supervision)))) = Some v /\ v = ChildConsumed.
Proof.
  assert (Hok : fst supervision = Ok (Exited 3)) by (vm_compute; reflexivity). split; [exact Hok|].
  destruct (child_never_lost launched_frame job_name launcher0 kernel0 (one_worker, 10%nat) (fst supervision) (fst (fst (snd supervision)))
    (snd (fst (snd supervision))) (snd (snd supervision))) as (v & Hv & Hc & _).
  - reflexivity.
  - reflexivity.
  - reflexivity.
  - vm_compute. reflexivity.
  - assert (Hp : fst supervision <> Panic) by (rewrite Hok; discriminate). destruct (Hc Hp) as [H1 H2].
    exists v. split; [|exact H1]. rewrite H2 in Hv. exact Hv.
Defined.

(** A target that must be ended: it stops for the signal, dies, and is reported
    twice. *)
Definition kernel_drop : LauncherKernel :=
  {| lk_waits := [WaitFailed EINTR; Reports 4479; Reports 9; Reports 9]; lk_ptraces := [ESRCH]; lk_kills := [0]; lk_polls := []; lk_writes := [];
     lk_identities := []; lk_log := [] |}.

Lemma drop_returns_witness :
  exists self' k' w', drop_launcher (E := LauncherWaitError) (with_phase RunningTarget launcher0, kernel_drop, 10%nat) = (Ok tt, (self', k', w')) /\
    view_of 77 (lk_log k') = Some ChildConsumed.
Proof.
  destruct (drop_returns (with_phase RunningTarget launcher0) kernel_drop (10%nat)) as (self' & k' & w' & Hd & _ & Hv).
  - split; [|split]; repeat apply Forall_cons_2; try apply Forall_nil_2; cbn; auto.
  - reflexivity.
  - exists self', k', w'. split; [exact Hd|exact Hv].
Defined.
